(* ===== verification/_CoqProject ===== *)
-Q . S2P
Prelude.v
GoText.v
GoStrings.v
Sanitize.v
GoJson.v
Result.v
Txn.v
GoSearch.v
GoQuery.v
NetIP.v
Prog.v
AutoSelect.v
Memo.v
RateLimit.v
ClientIP.v
Board.v
Lifecycle.v
LifecycleComment.v
LifecycleMove.v
PersistFail.v
AutoStop.v
Outbox.v
PackBudget.v
CiConfigGuard.v
LimitWait.v
GoFloat.v
GoNumber.v
GoRound.v
AnthropicPrice.v
CodexSelect.v
UsageReserve.v
Reserve.v
ReserveSpend.v
CodexPool.v
Hub.v
Presets.v
Termsafe.v
EgressProfile.v
FetchDb.v
FetchCtl.v
FetchInv.v
AddrPolicy.v
Fetcher.v
FetchServer.v
FetchPath.v
OAuthSrv.v
OAuthDb.v
OAuthTx.v
OAuthFlow.v
OAuthInv.v
OAuthRules.v
OAuthSteps.v
OAuthDoes.v
OAuthSafe.v
OAuthSystem.v
UsageFold.v
MessageDb.v
MessageAppend.v
MessageInv.v
MessageSafe.v
MessageUsage.v
MessageTotal.v
MessageExample.v
RunActivity.v
MilestoneLanes.v
HealthEpisode.v
CodexDb.v
CodexAuthz.v
CodexAuthority.v
CodexRefresh.v
CodexSys.v
CodexInv.v
CodexSteps.v
CodexSafe.v
CodexThreads.v
CodexOnce.v
CodexExample.v
RunDb.v
RunStep.v
RunCycle.v
