(* ===== verification/Prelude.v ===== *)
(** * uzi, verified

    uzi runs coding agents on behalf of its users.  An api server
    ([src/api/internal]) keeps runs, workers, credentials and boards in a
    PostgreSQL database; workers claim runs, stream messages back and report
    state over a protocol; browsers and a command-line client follow a run over
    REST and a websocket; forges (GitHub, GitLab, Forgejo) hold the issues and
    merge requests.  This development models the decision-making parts of the
    server and proves what they promise.

    ** Conventions

    Definitions keep the names of the source.  An instant is a number of
    nanoseconds, a duration likewise; 64-bit wrap-around is written out where a
    result can reach it ([Go.wrap64], [GoStrings.inInt], [PackBudget]).  A Go map
    is a [gmap], a map used as a set a [gset]; where the order of iteration could
    be seen it is a parameter constrained to be a permutation.  A nil pointer is
    [None], a failed call a value of a sum.  Objects that are shared by reference
    live on a heap ([Memo], [RateLimit], [Hub]).  Code that only computes is a
    function; a service that reaches the database, the forge or the clock through
    an interface is a program over requests ([Prog]), so that one definition is
    executed, interleaved with other programs and monitored.  Code under a mutex
    is one atomic step.  Logging has no effect and is left out.

    ** Files

    What the language, its library and the database provide:
    - [Prelude]: time, identifiers, the keep-the-best loop, list lemmas.
    - [GoText], [GoStrings], [GoSearch], [GoQuery], [GoJson]: what the services use
      of [strconv], [fmt], [time], [strings], [unicode/utf8], [net/url] queries and
      [encoding/json].  Strings are byte strings; the UTF-8 decoder is proved to
      invert the encoder and to lose no byte.
    - [GoFloat], [GoNumber], [GoRound]: [float64] over the specification of
      binary64, [math.Round], exact quotients and the error of a rounding.
    - [NetIP]: [net/netip] addresses and prefixes.
    - [Result], [Prog], [Txn]: errors as values; programs over requests, their
      execution, monitors and weakest preconditions; a transaction whose
      statements can fail and whose commit can lose its answer.

    Choosing and pricing a credential:
    - [AutoSelect] ([autoselect]): which credential a claim spends.  [Classify],
      [Select], [Floor] and [NextAvailable] are total; [Select] keeps a contract
      stated on the rows alone, independently of their order.
    - [CodexSelect] ([codexselect/select.go]): the same for Codex accounts, on top
      of the interface [Ranker] that [AutoSelect] discharges; [CodexPool] computes
      the scores from the stored readings and confirms the pick under a row lock.
    - [UsageReserve] ([usagereserve]), [Reserve] (the owner's weekly reserve in
      [workersvc] and inside the claim statement) and [ReserveSpend] (the ladder
      that opens a credential): the Go decision and the SQL clause agree, and no
      credential is opened that the reserve holds back, but for a default token
      that was changed after the snapshot the claim is checked against.
    - [LimitWait] ([workersvc/limitwait.go]): when a usage-limited run parks, for
      how long, and what the state report writes.
    - [AnthropicPrice] ([anthropicprice]): a price is the exact sum in nanodollars.

    The messages of a run:
    - [Sanitize] ([workersvc/sanitize.go]): the scanner removes exactly the text that
      [jsonb] refuses, and leaves the numbers alone.
    - [UsageFold], [MessageDb], [MessageAppend] ([workersvc/usage_fold.go],
      [usage_refold.go] and their statements): a batch of messages in one
      transaction under the claim fence, and the lines the server writes into the
      same feed ([cross_check.go], [secretchoice.go], [harness_create.go],
      [codex_account_promote.go]).  [MessageInv] is the invariant of any history of
      the two, with failing statements and lost commits; [MessageSafe]: a message is
      stored once and published at most once, an old claim stores nothing;
      [MessageUsage]: the usage kept incrementally is, leg by leg, what a refold of
      the stored frames computes; [MessageTotal]: a batch is refused for a listed
      reason, a number past the range of [numeric] among them, or stored whole.
      [MessageExample] evaluates them, and the two cases in which the code keeps
      less than its comments say.
    - [PersistFail], [AutoStop] ([workersvc/persistfail.go], [autostop.go]): a
      streak is evidence from the history of appends; a run is stopped only when
      entitled, whatever is recorded between two requests.
    - [Outbox] ([workersvc/outbox_tracker.go]): the reverse index answers like a
      last-reporter-wins view.
    - [Hub] ([hub]): no interleaving of subscribers, broadcasts and readers panics;
      a subscriber gets the frames published to its run while subscribed, in order,
      less those dropped at 256 unread.
    - [RunActivity] ([runactivity]) and [MilestoneLanes] ([milestonelanes]): the
      activity line and the live lanes derived from a run's frames.
    - [Termsafe] ([termsafe], and the copy in [runactivity]): the validator accepts
      exactly what the cell renderer leaves unchanged; the bounded sanitizer and
      the reversible escaper.

    The network of an isolated run:
    - [EgressProfile] ([egressprofile]): normal forms of site lists, the match of a
      host, the multi-publisher rule.
    - [FetchDb], [FetchCtl], [FetchInv] ([fetchctl] and its tables): the counters of
      a run are sums over its reservations and its log, the caps hold, a report
      counts once, a stale reservation is freed.
    - [AddrPolicy], [Fetcher], [FetchServer] ([fetcher], and the api's side of the
      control channel): which addresses are dialed; a fetch stays on the site list
      over all redirects; admission precedes the network and the log follows it.
    - [FetchPath]: the composition; content that reaches a worker is in the log.
    - [ClientIP] ([middleware/ratelimit.go]): the client is the last forwarded address
      outside the trusted proxies, which cannot be forged from outside.  [RateLimit] ([middleware/ratelimit.go]):
      reservations in flight stay within the maximum, refunds are once-only.

    Third-party access:
    - [OAuthSrv] ([oauthsrv]), [OAuthDb] (the tables), [OAuthTx] (interleaved
      transactions with locks), [OAuthFlow] (the endpoints), [OAuthInv],
      [OAuthRules], [OAuthSteps], [OAuthDoes], [OAuthSafe] (the invariant, statement
      by statement and endpoint by endpoint) and [OAuthSystem]: in every
      interleaving a code is exchanged once, a revoked grant stays revoked and the
      number of live tokens is bounded.

    The login of a Codex account:
    - [CodexAuthz] ([workersvc/codexauthz.go]): who may use the credential of a run.
      [CodexAuthority]: only the worker of the live claim, with its secret, on the
      binding as frozen; the frozen key determines the identity.
    - [CodexDb], [CodexRefresh] ([workersvc/codexrefresh.go],
      [codexaccountreader.go], [codex_vault_write.go] and their statements): the
      coordinated refresh, the release of a token, the recovery slot, the survivor
      pass and the sweep, as programs.  [CodexSys] interleaves any number of them
      with the other writers, faults and crashes; [CodexInv] is the invariant,
      [CodexSteps] its preservation by each transaction, [CodexSafe] and
      [CodexThreads] the programs one thread at a time.
    - [CodexOnce]: a rotating refresh token is sent once per generation, and once
      more only after an unknown outcome; what a worker is given is the committed
      login; rotated material is not lost; every login is vouched for.
      [CodexExample] runs them, and a survivor that closes the intent of a live
      operation.

    The life of a run:
    - [RunDb]: module [RunRow], the columns of [runs] that say in which phase a run is
      and whose claim it is under; [RunWorker], [RunOwner] and [RunServer], all
      the statements that write one of them (101 of [store], one of
      [milestone_reconciliation.go], the triggers that end a checker run and a foreign
      key), one definition each, where a conjunct on other columns or tables is a boolean of any value
      ([Env]); [RunOrigin] ([workersvc/failorigin.go]), the origins of failures.
    - [RunStep]: any order of the statements is a history; its invariant.  [RunCycle]:
      an ended run stays ended, a worker writes only under its own unreleased claim,
      claims are counted, a Codex capability does not outlive its claim, and parks for
      the owner end by the owner; its module [RunTable] is a concrete history.

    The forge and the boards:
    - [Memo] ([forgememo]): the forge-read memo, a heap of list cells and an index,
      refines a bounded LRU list with expiry; [Do] returns what was loaded.
    - [Board] ([board]) and [Lifecycle], [LifecycleComment], [LifecycleMove]
      ([runlifecycle], with its SQL and [forgesvc.AutoMove]): the label plan of a
      move; a terminal comment is posted at most once under any interleaving,
      failures and deaths included; writes are justified by what was read; an
      undisturbed retry converges.
    - [PackBudget] ([packbudget]): the delta size reader inverts git's encoding;
      the pre-scan accepts exactly the packs within the limits.
    - [CiConfigGuard] ([pushbroker/ciconfig_guard.go]): a publication that passes
      equals the default branch at every protected path.

    Operations:
    - [HealthEpisode] ([healthsvc/episode.go], [emergency.go], [dbdiskfull]): ticks
      of any number of replicas publish at most one claimed notice per episode and
      administrator, and each tick acts only under the conditions of the lifecycle.
    - [Presets] ([schedsvc/presets.go]): presets and cron lines round trip.

    ** Parameters

    Code outside the repository is a class or a section variable: the IDNA mapping
    and the Public Suffix List ([HostRules], with [IdnaLaws]), URL and media type
    parsing and the digest of the fetcher ([FetchLib]), the text of identifiers
    ([UuidText]), [sha256] and URL parsing of the OAuth endpoints ([WebLib]), [sha256]
    and what a ciphertext holds ([contents]) in the Codex refresh,
    PostgreSQL's normal form of a document and the range of its numbers ([Jsonb]), go-git's pack scanner, and the
    results of float conversions that Go leaves to the implementation ([undefInt],
    [nanInt16]).  What is assumed of them is a named hypothesis of the theorems that
    need it, and their witnesses instantiate them.

    ** Bounds

    Recursion is structural nearly everywhere.  The hexadecimal printers have fuel
    for the digits of the greatest rune (6) or byte; the varint writer of
    [PackBudget] has fuel 8, the groups of seven bits after the first in a 63-bit
    size; the address parser of [NetIP] reads at most 8 groups, all there are; the
    eviction loop of [Memo] runs on the length of the list, which it shortens each
    round.  Other bounds are the code's own: six hops of a fetch, 4096 nested trees
    of the CI guard, three attempts of the fence of a Codex pick and of the lock of
    an OAuth grant, two attempts and six in the background to write recovery
    material.  The scheduler that evaluates an OAuth example has fuel 100, and the
    one of the Codex example at most 80, more than the requests of its threads; the
    theorems have none.  Totality is part of the theorems: the selectors, the
    sanitizers, the append and [Derive] are functions, and what could fail or panic
    in the source has an explicit value.

    ** Not modelled

    Input and output over libraries: the HTTP handlers other than the ones named
    above, forge and Slack clients, the transport of the push broker, cryptography,
    sign-in and sessions, the Kubernetes controller, the command-line client, the
    TypeScript agent harness and the web interface.  Of the server's own decisions:
    the handlers around the statements of [RunStep] (which of them a report, a claim,
    an approval or a sweep sends, and what they write to other tables), the input
    receipts, the judge flows and the freezing of a Codex binding in [workersvc], the
    counters and delays of parking and recovery ([recoverywait], [diskpark],
    [providerpark], [recovery]), the pause of the weekly reserve, the checks of
    [healthsvc], the tick loop of [schedsvc], and small packages of text
    ([releasecheck], [prdpath], [secretscrub], [runpresentation]).  Each is
    independent of what is modelled except through the rows and answers that the
    models already let change arbitrarily. *)

From Stdlib Require Export ZArith Lia ssreflect.
From stdpp Require Export base tactics list gmap strings vector sorting.

#[global] Open Scope general_if_scope.

Declare Scope go_scope.
Delimit Scope go_scope with go.

(** * Go's [time] package

    An instant is the number of nanoseconds since the Unix epoch, a duration a
    number of nanoseconds.  [time.Time.Sub] saturates at the limits of the
    64-bit [time.Duration]; comparisons are those of instants, so the location
    a [time.Time] carries plays no part in them. *)
Abbreviation time := Z (only parsing).
Abbreviation duration := Z (only parsing).

Module Go.
Local Open Scope Z_scope.

Definition Millisecond : duration := 1000000.
Definition Second : duration := 1000000000.
Definition Minute : duration := 60 * Second.
Definition Hour : duration := 60 * Minute.

Definition minDuration : duration := - 2 ^ 63.
Definition maxDuration : duration := 2 ^ 63 - 1.

(** January 1, year 1, 00:00:00 UTC: the zero value of [time.Time]. *)
Definition zeroTime : time := - (62135596800 * Second).

Definition sub (t u : time) : duration :=
  Z.max minDuration (Z.min maxDuration (t - u)).
Definition add (t : time) (d : duration) : time := t + d.
Definition before (t u : time) : bool := t <? u.
Definition after (t u : time) : bool := u <? t.
Definition equal (t u : time) : bool := t =? u.
Definition isZero (t : time) : bool := t =? zeroTime.

(** [time.Time.Unix]: the whole seconds since the epoch, rounded down. *)
Definition unix (t : time) : Z := t / Second.

(** Two's complement wrap-around of a signed 64-bit result. *)
Definition wrap64 (z : Z) : Z := (z + 2 ^ 63) mod 2 ^ 64 - 2 ^ 63.
End Go.

Infix "=?s" := String.eqb (at level 70, no associativity) : go_scope.

(** * Identifiers

    A [uuid.UUID] is an array of sixteen bytes; the zero array is [uuid.Nil]. *)
Abbreviation uuid := (vec Z 16).

Module Uuid.
Definition Nil : uuid := vreplicate 16 0%Z.

(** The identifier whose bytes are all zero but the last, for examples. *)
Definition mk (n : Z) : uuid :=
  [# 0; 0; 0; 0; 0; 0; 0; 0; 0; 0; 0; 0; 0; 0; 0; n]%Z.
End Uuid.

(** Identifiers index tables; the encoding is kept transparent so that lookups
    evaluate. *)
Definition uuid_of_list (l : list Z) : option uuid :=
  match decide (length l = 16) with
  | left e => Some (eq_rect _ (λ n, vec Z n) (list_to_vec l) _ e)
  | right _ => None
  end.

Lemma uuid_of_list_to (u : uuid) : uuid_of_list (vec_to_list u) = Some u.
Proof.
  rewrite /uuid_of_list. case_decide as e; [|by rewrite length_vec_to_list in e].
  f_equal. rewrite list_to_vec_to_list. generalize (length_vec_to_list u) e.
  intros e1 e2. rewrite (proof_irrel e2 e1). exact (rew_opp_r (λ n, vec Z n) e1 u).
Qed.

#[export] Instance uuid_countable : Countable uuid :=
  inj_countable vec_to_list uuid_of_list uuid_of_list_to.

(** [bytes.Compare]: lexicographic, a proper prefix is smaller. *)
Fixpoint bytes_compare (a b : list Z) : Z :=
  match a, b with
  | [], [] => 0%Z
  | [], _ :: _ => (-1)%Z
  | _ :: _, [] => 1%Z
  | x :: a', y :: b' =>
      if (x <? y)%Z then (-1)%Z else if (y <? x)%Z then 1%Z else bytes_compare a' b'
  end.

Lemma bytes_compare_opp a b : bytes_compare b a = (- bytes_compare a b)%Z.
Proof.
  revert b. induction a as [|x a IH]; intros [|y b]; simpl; try done.
  destruct (x <? y)%Z eqn:E1, (y <? x)%Z eqn:E2; try lia. apply IH.
Qed.

Lemma bytes_compare_eq a b : bytes_compare a b = 0%Z ↔ a = b.
Proof.
  revert b. induction a as [|x a IH]; intros [|y b]; simpl; try done.
  destruct (x <? y)%Z eqn:E1; [split; [done|intros [= ->]; lia]|].
  destruct (y <? x)%Z eqn:E2; [split; [done|intros [= ->]; lia]|].
  rewrite IH. assert (x = y) as -> by lia. split; [by intros ->|by intros [=]].
Qed.

Lemma bytes_compare_trans a b c :
  (bytes_compare a b <= 0 → bytes_compare b c <= 0 → bytes_compare a c <= 0)%Z.
Proof.
  revert b c. induction a as [|x a IH]; intros [|y b] [|z c]; simpl; try done; try lia.
  destruct (x <? y)%Z eqn:E1, (y <? x)%Z eqn:E2, (y <? z)%Z eqn:E3, (z <? y)%Z eqn:E4,
    (x <? z)%Z eqn:E5, (z <? x)%Z eqn:E6; try lia. apply IH.
Qed.

(** * Strict weak orders and the keep-the-best loop

    The selectors share one loop shape: walk a slice once, keep the best
    element seen so far, replace it when the next one is strictly smaller. *)
Class StrictWeak {A} (less : A → A → bool) : Prop := {
  less_asym x y : less x y = true → less y x = false;
  less_negtrans x y z : less x y = false → less y z = false → less x z = false;
}.

Fixpoint keep_best {A} (less : A → A → bool) (best : A) (l : list A) : A :=
  match l with
  | [] => best
  | x :: l' => keep_best less (if less x best then x else best) l'
  end.

Section KeepBest.
Context {A : Type} (less : A → A → bool) `{!StrictWeak less}.
Implicit Types (x y b : A) (l : list A).

Lemma less_irrefl x : less x x = false.
Proof.
  destruct (less x x) eqn:E; [|done].
  pose proof (less_asym _ _ E); congruence.
Qed.

Lemma keep_best_elem b l : keep_best less b l ∈ b :: l.
Proof.
  revert b; induction l as [|x l IH]; intros b; simpl; [set_solver|].
  pose proof (IH (if less x b then x else b)) as Hin.
  revert Hin. destruct (less x b); rewrite !elem_of_cons; tauto.
Qed.

Lemma keep_best_le_start b l : less b (keep_best less b l) = false.
Proof.
  revert b; induction l as [|x l IH]; intros b; simpl; [by apply less_irrefl|].
  destruct (less x b) eqn:E; [|by apply IH].
  apply (less_negtrans b x); [by apply less_asym|apply IH].
Qed.

Lemma keep_best_least b l y : y ∈ b :: l → less y (keep_best less b l) = false.
Proof.
  revert b; induction l as [|x l IH]; intros b Hy; simpl.
  { apply list_elem_of_singleton in Hy as ->. by apply less_irrefl. }
  apply elem_of_cons in Hy as [->|Hy].
  { apply (less_negtrans b (if less x b then x else b)); [|apply keep_best_le_start].
    destruct (less x b) eqn:E; [by apply less_asym|by apply less_irrefl]. }
  apply elem_of_cons in Hy as [->|Hy].
  - apply (less_negtrans x (if less x b then x else b)); [|apply keep_best_le_start].
    destruct (less x b) eqn:E; [by apply less_irrefl|done].
  - apply IH. set_solver.
Qed.

(** When the set has one least element, the answer does not depend on the
    order of the walk. *)
Lemma keep_best_set_unique b l b' l' :
  (∀ x y, x ∈ b :: l → y ∈ b :: l →
    (∀ z, z ∈ b :: l → less z x = false) → (∀ z, z ∈ b :: l → less z y = false) →
    x = y) →
  (∀ x, x ∈ b :: l ↔ x ∈ b' :: l') →
  keep_best less b l = keep_best less b' l'.
Proof.
  intros Htie Hset.
  pose proof (keep_best_elem b l). pose proof (keep_best_elem b' l').
  apply Htie; [done|by apply Hset|..]; intros z Hz; apply keep_best_least; [done|].
  by apply Hset.
Qed.
End KeepBest.

#[global] Arguments keep_best : simpl never.

(** * Boolean searches over a slice *)

Lemma existsb_true {A} (f : A → bool) l : existsb f l = true ↔ ∃ x, x ∈ l ∧ f x = true.
Proof.
  rewrite existsb_exists. split; intros (x & Hx & Hf); exists x; split; auto;
    by apply list_elem_of_In.
Qed.

Lemma existsb_false {A} (f : A → bool) l : existsb f l = false ↔ ∀ x, x ∈ l → f x = false.
Proof.
  rewrite -not_true_iff_false existsb_true. split.
  - intros H x Hx. destruct (f x) eqn:E; [|done]. exfalso; eauto.
  - intros H (x & Hx & Hf). rewrite H in Hf; done.
Qed.

Lemma existsb_perm {A} (f : A → bool) l l' : l ≡ₚ l' → existsb f l = existsb f l'.
Proof.
  intros Hp. apply eq_true_iff_eq. rewrite !existsb_true.
  split; intros (x & Hx & Hf); exists x; split; auto; by rewrite Hp || by rewrite -Hp.
Qed.

(** Rows with distinct keys are determined by their key. *)
Lemma NoDup_fmap_elem {A B} (f : A → B) (l : list A) x y :
  NoDup (f <$> l) → x ∈ l → y ∈ l → f x = f y → x = y.
Proof.
  intros Hnd [i Hi]%list_elem_of_lookup [j Hj]%list_elem_of_lookup Hf.
  assert (i = j) as ->; [|congruence].
  eapply NoDup_lookup; [done|..]; rewrite list_lookup_fmap.
  - by rewrite Hi.
  - by rewrite Hj /= Hf.
Qed.

Lemma filter_all {A} (P : A → Prop) `{!∀ x, Decision (P x)} (l : list A) :
  (∀ x, x ∈ l → P x) → filter P l = l.
Proof.
  induction l as [|x l IH]; intros Hall; [done|].
  rewrite filter_cons_True; [apply Hall; set_solver|]. f_equal. apply IH. set_solver.
Qed.

Lemma filter_no {A} (P : A → Prop) `{!∀ x, Decision (P x)} (l : list A) :
  (∀ x, x ∈ l → ¬ P x) → filter P l = [].
Proof.
  induction l as [|x l IH]; intros Hall; [done|].
  rewrite filter_cons_False; [apply Hall; set_solver|]. apply IH. set_solver.
Qed.

(** The same for boolean tests. *)
Lemma listfilter_all {A} (f : A → bool) (l : list A) : (∀ x, x ∈ l → f x = true) → List.filter f l = l.
Proof.
  induction l as [|x l IH]; intros Hall; [done|]. simpl. rewrite Hall; [set_solver|]. f_equal. apply IH. set_solver.
Qed.

Lemma listfilter_none {A} (f : A → bool) (l : list A) : (∀ x, x ∈ l → f x = false) → List.filter f l = [].
Proof.
  induction l as [|x l IH]; intros Hall; [done|]. simpl. rewrite Hall; [set_solver|]. apply IH. set_solver.
Qed.

(** * Case analysis

    [go_cases] splits the tests of a translated body, [go_lia] also closes
    the arithmetic the surviving branches leave. *)
Ltac go_cases :=
  repeat (case_match || case_decide || case_bool_decide); simplify_eq/=.
Ltac go_lia := go_cases; try done; try lia.

Create HintDb uzi.
