(* ===== verification/GoText.v ===== *)
(** Text the services render with Go's [strconv], [fmt] and [time] packages. *)

From Stdlib Require Import Ascii.
From stdpp Require Import pretty.
From S2P Require Import Prelude.

Local Open Scope Z_scope.

Module GoText.

(** [%d]. *)
Definition itoa (z : Z) : string := pretty z.

(** [%0*d] of a non-negative number. *)
Definition pad (width : nat) (z : Z) : string :=
  let s := itoa z in
  String.concat EmptyString (replicate (width - String.length s) "0") +:+ s.

(** [strings.TrimRight(s, "/")]. *)
Fixpoint trimSlash (s : string) : string :=
  match s with
  | EmptyString => EmptyString
  | String ch s' =>
    match trimSlash s' with
    | EmptyString => if Ascii.eqb ch "/"%char then EmptyString else String ch EmptyString
    | s'' => String ch s''
    end
  end.

(** The civil date of a day number since 1970-01-01. *)
Definition civil (days : Z) : Z * Z * Z :=
  let z := days + 719468 in
  let era := z / 146097 in
  let doe := z mod 146097 in
  let yoe := (doe - doe / 1460 + doe / 36524 - doe / 146096) / 365 in
  let doy := doe - (365 * yoe + yoe / 4 - yoe / 100) in
  let mp := (5 * doy + 2) / 153 in
  let d := doy - (153 * mp + 2) / 5 + 1 in
  let m := if mp <? 10 then mp + 3 else mp - 9 in
  ((yoe + era * 400) + (if m <=? 2 then 1 else 0), m, d).

(** [t.UTC().Format(time.RFC3339)]. *)
Definition rfc3339 (t : time) : string :=
  let secs := Go.unix t in
  let '(y, m, d) := civil (secs / 86400) in
  let s := secs mod 86400 in
  pad 4 y +:+ "-" +:+ pad 2 m +:+ "-" +:+ pad 2 d +:+ "T" +:+
  pad 2 (s / 3600) +:+ ":" +:+ pad 2 (s / 60 mod 60) +:+ ":" +:+ pad 2 (s mod 60) +:+ "Z".

(** The fraction [v / 10^prec] without trailing zeros, with its point. *)
Fixpoint fraction (prec : nat) (v : Z) : string :=
  match prec with
  | 0%nat => EmptyString
  | S p => if v mod 10 =? 0 then fraction p (v / 10)
           else "." +:+ pad prec v
  end.

(** [time.Duration.String]. *)
Definition durationString (d : duration) : string :=
  let u := Z.abs d in
  let body :=
    if u =? 0 then "0s" else
    if u <? 1000 then itoa u +:+ "ns" else
    if u <? 1000000 then
      itoa (u / 1000) +:+ fraction 3 (u mod 1000) +:+ String "194"%char (String "181"%char "s") else
    if u <? Go.Second then itoa (u / 1000000) +:+ fraction 6 (u mod 1000000) +:+ "ms" else
    let secs := u / Go.Second in
    (if secs <? 3600 then EmptyString else itoa (secs / 3600) +:+ "h") +:+
    (if secs <? 60 then EmptyString else itoa (secs / 60 mod 60) +:+ "m") +:+
    itoa (secs mod 60) +:+ fraction 9 (u mod Go.Second) +:+ "s" in
  if d <? 0 then "-" +:+ body else body.

Example rfc3339_min : rfc3339 (1000000000 * Go.Second) = "2001-09-09T01:46:40Z".
Proof. vm_compute. reflexivity. Qed.

Example rfc3339_leap : rfc3339 (1709164799 * Go.Second) = "2024-02-28T23:59:59Z".
Proof. vm_compute. reflexivity. Qed.

Example durationString_hours : durationString (720 * Go.Hour) = "720h0m0s".
Proof. vm_compute. reflexivity. Qed.

Example durationString_fraction : durationString (90 * Go.Second + 5 * Go.Millisecond) = "1m30.005s".
Proof. vm_compute. reflexivity. Qed.

End GoText.
