(* ===== verification/GoStrings.v ===== *)
(** Go's [unicode/utf8], [unicode], [strings] and [strconv] on byte strings.

    A Go string is a sequence of bytes.  [runes] is the decoding a [range] loop
    performs: the list of runes with the bytes each was read from, an
    undecodable byte being a chunk of its own that reads as U+FFFD. *)

From Stdlib Require Import Ascii.
From stdpp Require Import pretty.
From S2P Require Import Prelude GoText.

Local Open Scope Z_scope.

Module GoStrings.
Import GoText.

Definition byteOf (c : ascii) : Z := Z.of_N (N_of_ascii c).
Definition chr (b : Z) : ascii := ascii_of_N (Z.to_N b).

Definition RuneError : Z := 0xFFFD.
Definition MaxRune : Z := 0x10FFFF.

(** A Unicode scalar value: [utf8.ValidRune]. *)
Definition ValidRune (r : Z) : bool :=
  ((0 <=? r) && (r <? 0xD800)) || ((0xDFFF <? r) && (r <=? MaxRune)).

Record chunk := mkChunk { rune : Z; raw : string }.

#[export] Instance chunk_eq_dec : EqDecision chunk.
Proof. solve_decision. Defined.

(** * [utf8.DecodeRuneInString], repeated *)

Definition cont (b : Z) : bool := (0x80 <=? b) && (b <=? 0xBF).

Definition ok2 (b0 b1 : Z) : bool := (0xC2 <=? b0) && (b0 <=? 0xDF) && cont b1.
Definition ok3 (b0 b1 b2 : Z) : bool :=
  (0xE0 <=? b0) && (b0 <=? 0xEF)
  && ((if b0 =? 0xE0 then 0xA0 else 0x80) <=? b1)
  && (b1 <=? (if b0 =? 0xED then 0x9F else 0xBF)) && cont b2.
Definition ok4 (b0 b1 b2 b3 : Z) : bool :=
  (0xF0 <=? b0) && (b0 <=? 0xF4)
  && ((if b0 =? 0xF0 then 0x90 else 0x80) <=? b1)
  && (b1 <=? (if b0 =? 0xF4 then 0x8F else 0xBF)) && cont b2 && cont b3.

Definition val2 (b0 b1 : Z) : Z := (b0 - 0xC0) * 64 + (b1 - 0x80).
Definition val3 (b0 b1 b2 : Z) : Z := (b0 - 0xE0) * 4096 + (b1 - 0x80) * 64 + (b2 - 0x80).
Definition val4 (b0 b1 b2 b3 : Z) : Z :=
  (b0 - 0xF0) * 262144 + (b1 - 0x80) * 4096 + (b2 - 0x80) * 64 + (b3 - 0x80).

Definition str1 (a : ascii) : string := String a EmptyString.
Definition str2 (a b : ascii) : string := String a (str1 b).
Definition str3 (a b c : ascii) : string := String a (str2 b c).
Definition str4 (a b c d : ascii) : string := String a (str3 b c d).

Fixpoint runes (s : string) : list chunk :=
  match s with
  | EmptyString => []
  | String a s1 =>
    let b0 := byteOf a in
    if b0 <? 0x80 then mkChunk b0 (str1 a) :: runes s1 else
    let bad := mkChunk RuneError (str1 a) :: runes s1 in
    match s1 with
    | EmptyString => bad
    | String b s2 =>
      let b1 := byteOf b in
      if ok2 b0 b1 then mkChunk (val2 b0 b1) (str2 a b) :: runes s2 else
      match s2 with
      | EmptyString => bad
      | String c s3 =>
        let b2 := byteOf c in
        if ok3 b0 b1 b2 then mkChunk (val3 b0 b1 b2) (str3 a b c) :: runes s3 else
        match s3 with
        | EmptyString => bad
        | String d s4 =>
          let b3 := byteOf d in
          if ok4 b0 b1 b2 b3 then mkChunk (val4 b0 b1 b2 b3) (str4 a b c d) :: runes s4
          else bad
        end
      end
    end
  end.

(** [utf8.AppendRune]: a rune that is no scalar value is written as U+FFFD. *)
Definition encodeRune (r : Z) : string :=
  let r := if ValidRune r then r else RuneError in
  if r <? 0x80 then str1 (chr r) else
  if r <? 0x800 then str2 (chr (0xC0 + r / 64)) (chr (0x80 + r mod 64)) else
  if r <? 0x10000 then
    str3 (chr (0xE0 + r / 4096)) (chr (0x80 + r / 64 mod 64)) (chr (0x80 + r mod 64))
  else
    str4 (chr (0xF0 + r / 262144)) (chr (0x80 + r / 4096 mod 64))
      (chr (0x80 + r / 64 mod 64)) (chr (0x80 + r mod 64)).

(** The bytes of a sequence of chunks. *)
Definition bytes (l : list chunk) : string := foldr (λ c s, raw c +:+ s) EmptyString l.

(** [string(rs)] of a slice of runes. *)
Definition enc (r : Z) : chunk := mkChunk (if ValidRune r then r else RuneError) (encodeRune r).
Definition ofRunes (l : list Z) : string := bytes (enc <$> l).

(** A byte that does not decode. *)
Definition badChunk (c : chunk) : bool :=
  (rune c =? RuneError) && (String.length (raw c) =? 1)%nat.

(** [utf8.ValidString]. *)
Definition ValidString (s : string) : bool := forallb (λ c, negb (badChunk c)) (runes s).

(** * [unicode.IsSpace], [unicode.IsControl], [unicode.Cf] *)

Definition IsSpace (r : Z) : bool :=
  ((9 <=? r) && (r <=? 13)) || (r =? 0x20) || (r =? 0x85) || (r =? 0xA0) || (r =? 0x1680)
  || ((0x2000 <=? r) && (r <=? 0x200A)) || (r =? 0x2028) || (r =? 0x2029) || (r =? 0x202F)
  || (r =? 0x205F) || (r =? 0x3000).

Definition IsControl (r : Z) : bool :=
  ((0 <=? r) && (r <=? 0x1F)) || ((0x7F <=? r) && (r <=? 0x9F)).

(** The format characters (Unicode 15, general category Cf). *)
Definition cfTable : list (Z * Z) :=
  [(0xAD, 0xAD); (0x600, 0x605); (0x61C, 0x61C); (0x6DD, 0x6DD); (0x70F, 0x70F);
   (0x890, 0x891); (0x8E2, 0x8E2); (0x180E, 0x180E); (0x200B, 0x200F); (0x202A, 0x202E);
   (0x2060, 0x2064); (0x2066, 0x206F); (0xFEFF, 0xFEFF); (0xFFF9, 0xFFFB);
   (0x110BD, 0x110BD); (0x110CD, 0x110CD); (0x13430, 0x1343F); (0x1BCA0, 0x1BCA3);
   (0x1D173, 0x1D17A); (0xE0001, 0xE0001); (0xE0020, 0xE007F)].
Definition isCf (r : Z) : bool := existsb (λ '(lo, hi), (lo <=? r) && (r <=? hi)) cfTable.

(** * [strings] *)

(** [strings.Map]: a negative image drops the rune, an undecodable byte maps
    from U+FFFD. *)
Definition Map (mapping : Z → Z) (s : string) : string :=
  ofRunes (filter (λ r, 0 <= r) (mapping <$> (rune <$> runes s))).

Fixpoint dropSpace (l : list chunk) : list chunk :=
  match l with
  | [] => []
  | c :: l' => if IsSpace (rune c) then dropSpace l' else l
  end.

(** The right end is trimmed on the same chunks: the encoding of a white-space
    rune has no continuation byte in front, so a backward decoder finds one at
    the end of a string exactly when it is the last chunk. *)
Definition trim (l : list chunk) : list chunk :=
  reverse (dropSpace (reverse (dropSpace l))).

Definition TrimSpace (s : string) : string := bytes (trim (runes s)).

(** [strings.Fields]: a field is emitted when white space ends it. *)
Definition flush (acc : string) (rest : list string) : list string :=
  if (acc =?s EmptyString)%go then rest else acc :: rest.

Fixpoint fieldsFrom (acc : string) (l : list chunk) : list string :=
  match l with
  | [] => flush acc []
  | c :: l' =>
    if IsSpace (rune c) then flush acc (fieldsFrom EmptyString l')
    else fieldsFrom (acc +:+ raw c) l'
  end.

Definition Fields (s : string) : list string := fieldsFrom EmptyString (runes s).

(** [strings.TrimLeft] with an ASCII cut set. *)
Fixpoint TrimLeft (s : string) (cutset : list ascii) : string :=
  match s with
  | EmptyString => EmptyString
  | String c s' => if bool_decide (c ∈ cutset) then TrimLeft s' cutset else s
  end.

Fixpoint HasPrefix (s prefix : string) : bool :=
  match prefix, s with
  | EmptyString, _ => true
  | String p prefix', String c s' => Ascii.eqb p c && HasPrefix s' prefix'
  | String _ _, EmptyString => false
  end.

(** The slices [s[:n]] and [s[n:]]. *)
Fixpoint stake (n : nat) (s : string) : string :=
  match n, s with
  | S n', String c s' => String c (stake n' s')
  | _, _ => EmptyString
  end.
Fixpoint sdrop (n : nat) (s : string) : string :=
  match n, s with
  | S n', String _ s' => sdrop n' s'
  | _, _ => s
  end.

Definition TrimPrefix (s prefix : string) : string :=
  if HasPrefix s prefix then sdrop (String.length prefix) s else s.

Fixpoint IndexByte (s : string) (b : ascii) : option nat :=
  match s with
  | EmptyString => None
  | String c s' => if Ascii.eqb c b then Some 0%nat else S <$> IndexByte s' b
  end.

(** The order of strings is that of their bytes. *)
Definition Less (a b : string) : bool :=
  bytes_compare (byteOf <$> String.list_ascii_of_string a)
    (byteOf <$> String.list_ascii_of_string b) <? 0.

(** * [strconv.Atoi]

    An optional sign and one or more decimal digits within a 64-bit [int];
    [None] is a non-nil error. *)
Definition digit (c : ascii) : option Z :=
  let d := byteOf c - 48 in if (0 <=? d) && (d <=? 9) then Some d else None.

Fixpoint digits (acc : Z) (s : string) : option Z :=
  match s with
  | EmptyString => Some acc
  | String c s' => d ← digit c; digits (10 * acc + d) s'
  end.

Definition inInt (z : Z) : option Z :=
  if (- 2 ^ 63 <=? z) && (z <? 2 ^ 63) then Some z else None.

Definition unsigned (s : string) : option Z :=
  if (s =?s EmptyString)%go then None else digits 0 s.

Definition Atoi (s : string) : option Z :=
  match s with
  | String "-" s' => z ← unsigned s'; inInt (- z)
  | String "+" s' => z ← unsigned s'; inInt z
  | _ => z ← unsigned s; inInt z
  end.

Example Fields_nbsp :
  Fields (" a" +:+ String "194" (String "160" "b  c ")) = ["a"; "b"; "c"].
Proof. vm_compute. reflexivity. Qed.

Example TrimSpace_ideographic :
  TrimSpace (String "227" (String "128" (String "128" " a b")) +:+ String "009" EmptyString) = "a b".
Proof. vm_compute. reflexivity. Qed.

(** A surrogate, an overlong form and a truncated sequence do not decode. *)
Example runes_invalid :
  (rune <$> runes (ofRunes [0xE9; 0x1F468] +:+ String "237" (String "160" (String "128" "x"))))
  = [0xE9; 0x1F468; RuneError; RuneError; RuneError; 120]
  ∧ ValidString (String "192" (String "128" EmptyString)) = false
  ∧ ValidString (ofRunes [0xFFFD; 0xD800]) = true.
Proof. vm_compute. tauto. Qed.

Example Atoi_limits :
  Atoi "9223372036854775807" = Some (2 ^ 63 - 1) ∧ Atoi "9223372036854775808" = None
  ∧ Atoi "-9223372036854775808" = Some (- 2 ^ 63) ∧ Atoi "+07" = Some 7 ∧ Atoi "-" = None
  ∧ Atoi "1_0" = None.
Proof. vm_compute. tauto. Qed.

(** * Bytes and strings *)

Lemma byteOf_range c : 0 <= byteOf c < 256.
Proof. rewrite /byteOf. pose proof (N_ascii_bounded c). lia. Qed.

Lemma byteOf_chr b : 0 <= b < 256 → byteOf (chr b) = b.
Proof. intros ?. rewrite /byteOf /chr N_ascii_embedding; lia. Qed.

Lemma chr_byteOf c b : byteOf c = b → chr b = c.
Proof. intros <-. rewrite /byteOf /chr N2Z.id. apply ascii_N_embedding. Qed.

Lemma sapp_cons c (s t : string) : String c s +:+ t = String c (s +:+ t).
Proof. done. Qed.

Lemma sapp_nil_l (s : string) : EmptyString +:+ s = s.
Proof. done. Qed.

Lemma sapp_nil (s : string) : s +:+ EmptyString = s.
Proof. induction s as [|c s IH]; [done|]. by rewrite !sapp_cons IH. Qed.

Lemma sapp_assoc (a b c : string) : (a +:+ b) +:+ c = a +:+ (b +:+ c).
Proof. induction a as [|x a IH]; [done|]. by rewrite !sapp_cons IH. Qed.

Lemma sapp_length (a b : string) :
  String.length (a +:+ b) = (String.length a + String.length b)%nat.
Proof. induction a as [|c a IH]; [done|]. by rewrite !sapp_cons /= IH. Qed.

Lemma bytes_app l k : bytes (l ++ k) = bytes l +:+ bytes k.
Proof. induction l as [|c l IH]; [done|]. by rewrite /= IH sapp_assoc. Qed.

Lemma TrimPrefix_app p s : TrimPrefix (p +:+ s) p = s.
Proof.
  rewrite /TrimPrefix. assert (HasPrefix (p +:+ s) p = true) as ->.
  { induction p as [|c p IH]; [by destruct s|]. 
    by rewrite !sapp_cons /= Ascii.eqb_refl IH. }
  by induction p.
Qed.

Lemma HasPrefix_app p s : HasPrefix s p = true ↔ ∃ r, s = p +:+ r.
Proof.
  revert s. induction p as [|c p IH]; intros s; simpl.
  - split; [eauto|]. by destruct s.
  - destruct s as [|d s]; [split; [done|by intros [? ?]]|].
    rewrite andb_true_iff Ascii.eqb_eq IH. split.
    + intros [-> [r ->]]. exists r. by rewrite !sapp_cons.
    + intros [r Hr]. rewrite sapp_cons in Hr. injection Hr as -> ->. eauto.
Qed.

Lemma byteOf_inj a b : byteOf a = byteOf b → a = b.
Proof. intros H. by rewrite -(chr_byteOf a (byteOf b)) // (chr_byteOf b (byteOf b)). Qed.

#[export] Instance Less_weak : StrictWeak Less.
Proof.
  split; rewrite /Less.
  - intros x y. rewrite (bytes_compare_opp (byteOf <$> String.list_ascii_of_string x)). lia.
  - intros x y z Hxy Hyz. apply Z.ltb_ge. apply Z.ltb_ge in Hxy, Hyz.
    rewrite bytes_compare_opp in Hxy. rewrite bytes_compare_opp in Hyz. rewrite bytes_compare_opp.
    pose proof (bytes_compare_trans (byteOf <$> String.list_ascii_of_string z)
      (byteOf <$> String.list_ascii_of_string y) (byteOf <$> String.list_ascii_of_string x)). lia.
Qed.

Lemma Less_total a b : Less a b = false → Less b a = false → a = b.
Proof.
  rewrite /Less (bytes_compare_opp (byteOf <$> String.list_ascii_of_string a)) => H1 H2.
  assert (bytes_compare (byteOf <$> String.list_ascii_of_string a)
    (byteOf <$> String.list_ascii_of_string b) = 0) as H%bytes_compare_eq by lia.
  apply list_fmap_eq_inj in H; [|intros ??; apply byteOf_inj].
  by rewrite -(String.string_of_list_ascii_of_string a) H String.string_of_list_ascii_of_string.
Qed.

(** * UTF-8 round trip

    A chunk is proper when it is the encoding of its rune. *)
Definition proper (c : chunk) : Prop :=
  ValidRune (rune c) = true ∧ raw c = encodeRune (rune c).

Lemma enc_proper r : proper (enc r).
Proof.
  rewrite /proper /enc /=. destruct (ValidRune r) eqn:Hr; [done|].
  split; [done|]. by rewrite /encodeRune Hr.
Qed.

Lemma encodeRune_length r : (1 <= String.length (encodeRune r) <= 4)%nat.
Proof. rewrite /encodeRune. repeat case_match; simpl; lia. Qed.

Ltac euclid := Z.to_euclidean_division_equations; lia.

(** One step of the decoder on the encoding of a scalar value. *)
Lemma runes_encode r s :
  ValidRune r = true → runes (encodeRune r +:+ s) = mkChunk r (encodeRune r) :: runes s.
Proof.
  intros Hv. rewrite /encodeRune Hv. rewrite /ValidRune /MaxRune in Hv.
  destruct (r <? 0x80) eqn:E1; [|destruct (r <? 0x800) eqn:E2; [|destruct (r <? 0x10000) eqn:E3]].
  - rewrite /str1 !sapp_cons. cbn [runes]. rewrite byteOf_chr; [lia|]. by rewrite E1.
  - rewrite /str2 /str1 !sapp_cons. cbn [runes]. rewrite !byteOf_chr; [euclid..|].
    assert (0xC0 + r / 64 <? 0x80 = false) as -> by euclid.
    assert (ok2 (0xC0 + r / 64) (0x80 + r mod 64) = true) as -> by (rewrite /ok2 /cont; euclid).
    do 2 f_equal. rewrite /val2. euclid.
  - rewrite /str3 /str2 /str1 !sapp_cons. cbn [runes]. rewrite !byteOf_chr; [euclid..|].
    assert (0xE0 + r / 4096 <? 0x80 = false) as -> by euclid.
    assert (ok2 (0xE0 + r / 4096) (0x80 + r / 64 mod 64) = false) as -> by (rewrite /ok2 /cont; euclid).
    assert (ok3 (0xE0 + r / 4096) (0x80 + r / 64 mod 64) (0x80 + r mod 64) = true) as ->.
    { rewrite /ok3 /cont. case_match; case_match; euclid. }
    do 2 f_equal. rewrite /val3. euclid.
  - rewrite /str4 /str3 /str2 /str1 !sapp_cons. cbn [runes]. rewrite !byteOf_chr; [euclid..|].
    assert (0xF0 + r / 262144 <? 0x80 = false) as -> by euclid.
    assert (ok2 (0xF0 + r / 262144) (0x80 + r / 4096 mod 64) = false) as -> by (rewrite /ok2 /cont; euclid).
    assert (ok3 (0xF0 + r / 262144) (0x80 + r / 4096 mod 64) (0x80 + r / 64 mod 64) = false) as ->.
    { rewrite /ok3 /cont. euclid. }
    assert (ok4 (0xF0 + r / 262144) (0x80 + r / 4096 mod 64) (0x80 + r / 64 mod 64)
              (0x80 + r mod 64) = true) as ->.
    { rewrite /ok4 /cont. case_match; case_match; euclid. }
    do 2 f_equal. rewrite /val4. euclid.
Qed.

(** The decoder's four well-formed shapes are the encodings of their values. *)
Lemma ascii_proper a : byteOf a <? 0x80 = true → proper (mkChunk (byteOf a) (str1 a)).
Proof.
  intros E. pose proof (byteOf_range a). rewrite /proper /encodeRune /=.
  assert (ValidRune (byteOf a) = true) as -> by (rewrite /ValidRune /MaxRune; lia).
  rewrite E. split; [done|]. f_equal. symmetry. by apply chr_byteOf.
Qed.

Lemma ok2_proper a b :
  ok2 (byteOf a) (byteOf b) = true → proper (mkChunk (val2 (byteOf a) (byteOf b)) (str2 a b)).
Proof.
  intros E. rewrite /ok2 /cont in E. rewrite /proper /encodeRune /=.
  set (v := val2 _ _). assert (v = (byteOf a - 0xC0) * 64 + (byteOf b - 0x80)) as Hv by done.
  assert (ValidRune v = true) as -> by (rewrite /ValidRune /MaxRune; lia).
  assert (v <? 0x80 = false) as -> by lia. assert (v <? 0x800 = true) as -> by lia.
  split; [done|]. rewrite (chr_byteOf a); [euclid|]. by rewrite (chr_byteOf b); [euclid|].
Qed.

Lemma ok3_proper a b c :
  ok3 (byteOf a) (byteOf b) (byteOf c) = true →
  proper (mkChunk (val3 (byteOf a) (byteOf b) (byteOf c)) (str3 a b c)).
Proof.
  intros E. rewrite /proper /encodeRune /=. set (v := val3 _ _ _).
  assert (ValidRune v = true ∧ 0x800 <= v < 0x10000) as [Hv Hr].
  { rewrite /ok3 /cont in E. rewrite /v /val3 /ValidRune /MaxRune.
    destruct (byteOf a =? 0xE0) eqn:?, (byteOf a =? 0xED) eqn:?; lia. }
  rewrite Hv. assert (v <? 0x80 = false) as -> by lia. assert (v <? 0x800 = false) as -> by lia.
  assert (v <? 0x10000 = true) as -> by lia. split; [done|].
  assert (0xE0 <= byteOf a <= 0xEF ∧ 0x80 <= byteOf b <= 0xBF ∧ 0x80 <= byteOf c <= 0xBF) as Hb.
  { rewrite /ok3 /cont in E. repeat case_match; lia. }
  clear E Hv. rewrite /v /val3. rewrite (chr_byteOf a); [euclid|].
  rewrite (chr_byteOf b); [euclid|]. by rewrite (chr_byteOf c); [euclid|].
Qed.

Lemma ok4_proper a b c d :
  ok4 (byteOf a) (byteOf b) (byteOf c) (byteOf d) = true →
  proper (mkChunk (val4 (byteOf a) (byteOf b) (byteOf c) (byteOf d)) (str4 a b c d)).
Proof.
  intros E. rewrite /proper /encodeRune /=. set (v := val4 _ _ _ _).
  assert (ValidRune v = true ∧ 0x10000 <= v) as [Hv Hr].
  { rewrite /ok4 /cont in E. rewrite /v /val4 /ValidRune /MaxRune.
    destruct (byteOf a =? 0xF0) eqn:?, (byteOf a =? 0xF4) eqn:?; lia. }
  rewrite Hv. assert (v <? 0x80 = false) as -> by lia. assert (v <? 0x800 = false) as -> by lia.
  assert (v <? 0x10000 = false) as -> by lia. split; [done|].
  assert (0xF0 <= byteOf a <= 0xF4 ∧ 0x80 <= byteOf b <= 0xBF ∧ 0x80 <= byteOf c <= 0xBF
    ∧ 0x80 <= byteOf d <= 0xBF) as Hb.
  { rewrite /ok4 /cont in E. repeat case_match; lia. }
  clear E Hv. rewrite /v /val4. rewrite (chr_byteOf a); [euclid|].
  rewrite (chr_byteOf b); [euclid|]. rewrite (chr_byteOf c); [euclid|].
  by rewrite (chr_byteOf d); [euclid|].
Qed.

(** The decoder splits a string into the encodings of scalar values and
    undecodable bytes, and loses none of it. *)
Definition undecodable (c : chunk) : Prop :=
  rune c = RuneError ∧ ∃ a, raw c = str1 a ∧ 0x80 <= byteOf a.

Lemma runes_wf s : Forall (λ c, proper c ∨ undecodable c) (runes s).
Proof.
  induction s as [s IH] using (induction_ltof1 _ String.length). rewrite /ltof in IH.
  destruct s as [|a s1]; [constructor|]. cbn [runes].
  destruct (byteOf a <? 0x80) eqn:E0.
  { constructor; [left; by apply ascii_proper|apply IH; simpl; lia]. }
  assert (Forall (λ c, proper c ∨ undecodable c) (mkChunk RuneError (str1 a) :: runes s1)) as Hbad.
  { constructor; [right|apply IH; simpl; lia]. split; [done|]. exists a. split; [done|lia]. }
  destruct s1 as [|b s2]; [done|]. destruct (ok2 _ _) eqn:E1.
  { constructor; [left; by apply ok2_proper|apply IH; simpl; lia]. }
  destruct s2 as [|c s3]; [done|]. destruct (ok3 _ _ _) eqn:E2.
  { constructor; [left; by apply ok3_proper|apply IH; simpl; lia]. }
  destruct s3 as [|d s4]; [done|]. destruct (ok4 _ _ _ _) eqn:E3; [|done].
  constructor; [left; by apply ok4_proper|apply IH; simpl; lia].
Qed.

Lemma bytes_runes s : bytes (runes s) = s.
Proof.
  induction s as [s IH] using (induction_ltof1 _ String.length). rewrite /ltof in IH.
  destruct s as [|a s1]; [done|]. cbn [runes].
  repeat case_match; subst; cbn [bytes foldr raw]; fold bytes;
    rewrite -/(bytes _) IH //=; lia.
Qed.

Lemma runes_app l s : Forall proper l → runes (bytes l +:+ s) = l ++ runes s.
Proof.
  induction 1 as [|c l [Hv Hr] _ IH]; [done|]. cbn [bytes foldr]. rewrite -/(bytes l).
  destruct c as [r w]; simpl in *. subst w. by rewrite sapp_assoc runes_encode // IH.
Qed.

Lemma runes_bytes l : Forall proper l → runes (bytes l) = l.
Proof. intros Hl. by rewrite -{1}(sapp_nil (bytes l)) runes_app // app_nil_r. Qed.

Lemma proper_enc_rune c : proper c → enc (rune c) = c.
Proof. intros [Hv Hr]. rewrite /enc Hv. destruct c; simpl in *. by subst. Qed.

Lemma proper_not_bad c : proper c → badChunk c = false.
Proof.
  intros [Hv Hr]. rewrite /badChunk Hr /encodeRune Hv.
  destruct (rune c =? RuneError) eqn:E; [|done]. apply Z.eqb_eq in E. by rewrite E.
Qed.

Lemma ValidString_proper s : ValidString s = true ↔ Forall proper (runes s).
Proof.
  rewrite /ValidString forallb_forall Forall_forall. pose proof (runes_wf s) as Hwf.
  rewrite Forall_forall in Hwf. setoid_rewrite <-list_elem_of_In. split; intros H c Hc.
  - destruct (Hwf c Hc) as [|[Hr (a & Ha & _)]]; [done|].
    specialize (H c Hc). by rewrite /badChunk Hr Ha in H.
  - rewrite proper_not_bad //. by apply H.
Qed.

Lemma ofRunes_proper l : Forall proper (enc <$> l).
Proof. apply Forall_fmap, Forall_forall. intros r _. apply enc_proper. Qed.

Lemma runes_ofRunes l : runes (ofRunes l) = enc <$> l.
Proof. apply runes_bytes, ofRunes_proper. Qed.

(** Re-encoding the runes of a well-formed string gives the string back. *)
Lemma ofRunes_runes s : ValidString s = true → ofRunes (rune <$> runes s) = s.
Proof.
  intros Hv%ValidString_proper. rewrite /ofRunes -list_fmap_compose.
  rewrite -{2}(bytes_runes s). f_equal. rewrite -{2}(list_fmap_id (runes s)).
  apply list_fmap_ext. intros i c Hc%list_elem_of_lookup_2. rewrite Forall_forall in Hv.
  by apply proper_enc_rune, Hv.
Qed.

(** * Trimming *)

Lemma dropSpace_suffix l : ∃ k, l = k ++ dropSpace l ∧ Forall (λ c, IsSpace (rune c) = true) k.
Proof.
  induction l as [|c l (k & Hk & HF)]; [by exists []|]. simpl. destruct (IsSpace (rune c)) eqn:E.
  - exists (c :: k). by rewrite {1}Hk; auto.
  - by exists [].
Qed.

Lemma dropSpace_head l c k : dropSpace l = c :: k → IsSpace (rune c) = false.
Proof.
  induction l as [|d l IH]; [done|]. simpl. destruct (IsSpace (rune d)) eqn:E; [done|].
  by intros [= <- <-].
Qed.

Lemma dropSpace_id l : (∀ c, head l = Some c → IsSpace (rune c) = false) → dropSpace l = l.
Proof. destruct l as [|c l]; [done|]. simpl. intros H. by rewrite H. Qed.

(** The trimmed sequence is an infix with no white space at either end. *)
Lemma trim_infix l : ∃ k1 k2, l = k1 ++ trim l ++ k2
  ∧ Forall (λ c, IsSpace (rune c) = true) k1 ∧ Forall (λ c, IsSpace (rune c) = true) k2.
Proof.
  destruct (dropSpace_suffix l) as (k1 & Hk1 & HF1).
  destruct (dropSpace_suffix (reverse (dropSpace l))) as (k2 & Hk2 & HF2).
  exists k1, (reverse k2). split_and!; [|done|by apply Forall_reverse].
  rewrite {1}Hk1. f_equal. rewrite /trim -reverse_app -Hk2. by rewrite reverse_involutive.
Qed.

Lemma trim_ends l c :
  head (trim l) = Some c ∨ last (trim l) = Some c → IsSpace (rune c) = false.
Proof.
  rewrite /trim. destruct (dropSpace_suffix (reverse (dropSpace l))) as (k2 & Hk2 & _).
  rewrite last_reverse. intros [Hh|Hl].
  - apply (f_equal reverse) in Hk2. rewrite reverse_involutive reverse_app in Hk2.
    destruct (reverse (dropSpace (reverse (dropSpace l)))) as [|d k] eqn:E; [done|].
    simpl in Hh. injection Hh as ->. by eapply dropSpace_head.
  - destruct (dropSpace (reverse (dropSpace l))) as [|d k] eqn:E; [done|].
    simpl in Hl. injection Hl as ->. by eapply dropSpace_head.
Qed.

Lemma trim_id l :
  (∀ c, head l = Some c ∨ last l = Some c → IsSpace (rune c) = false) → trim l = l.
Proof.
  intros H. rewrite /trim (dropSpace_id l); [eauto|]. rewrite dropSpace_id.
  - intros c. rewrite head_reverse. eauto.
  - by rewrite reverse_involutive.
Qed.

Lemma trim_idemp l : trim (trim l) = trim l.
Proof. apply trim_id. intros c. apply trim_ends. Qed.

Lemma trim_elem l c : c ∈ trim l → c ∈ l.
Proof. destruct (trim_infix l) as (k1 & k2 & Hl & _). rewrite {2}Hl. set_solver. Qed.

(** * Tokens and decimal numbers *)

(** A token: printable ASCII, no white space. *)
Fixpoint token (s : string) : bool :=
  match s with
  | EmptyString => true
  | String c s' => (33 <=? byteOf c) && (byteOf c <=? 126) && token s'
  end.

Lemma token_app a b : token (a +:+ b) = token a && token b.
Proof. induction a as [|c a IH]; [done|]. by rewrite sapp_cons /= IH andb_assoc. Qed.

Lemma runes_ascii c s :
  byteOf c < 0x80 → runes (String c s) = mkChunk (byteOf c) (str1 c) :: runes s.
Proof. intros Hc. cbn [runes]. assert (byteOf c <? 0x80 = true) as -> by lia. done. Qed.

Lemma fieldsFrom_token acc t s :
  token t = true → fieldsFrom acc (runes (t +:+ s)) = fieldsFrom (acc +:+ t) (runes s).
Proof.
  revert acc. induction t as [|c t IH]; intros acc Ht; [by rewrite sapp_nil|].
  cbn [token] in Ht. apply andb_prop in Ht as [Hc Ht].
  rewrite sapp_cons runes_ascii; [lia|]. cbn [fieldsFrom rune raw].
  assert (IsSpace (byteOf c) = false) as -> by (rewrite /IsSpace; lia).
  by rewrite IH // sapp_assoc.
Qed.

(** Tokens separated by single blanks are the fields of the line. *)
Lemma Fields_cons t s :
  token t = true → t ≠ EmptyString → Fields (t +:+ String " " s) = t :: Fields s.
Proof.
  intros Ht Hne. rewrite /Fields fieldsFrom_token // runes_ascii //.
  cbn [fieldsFrom rune]. assert (IsSpace (byteOf " ") = true) as -> by done. 
  change (EmptyString +:+ t) with t. rewrite /flush. by destruct (String.eqb_spec t EmptyString).
Qed.

Lemma Fields_one t : token t = true → t ≠ EmptyString → Fields t = [t].
Proof.
  intros Ht Hne. rewrite /Fields -{1}(sapp_nil t) fieldsFrom_token //=.
  change (EmptyString +:+ t) with t. rewrite /flush. by destruct (String.eqb_spec t EmptyString).
Qed.

Lemma pretty_digit x : (x < 10)%N →
  digit (pretty_N_char x) = Some (Z.of_N x) ∧ 48 <= byteOf (pretty_N_char x) <= 57.
Proof.
  intros Hx.
  assert (x = 0 ∨ x = 1 ∨ x = 2 ∨ x = 3 ∨ x = 4 ∨ x = 5 ∨ x = 6 ∨ x = 7 ∨ x = 8 ∨ x = 9)%N
    as Hcases by lia.
  by destruct_or! Hcases; subst x.
Qed.

(** The printer puts the digits of [x] in front of what it has printed. *)
Lemma pretty_go_digits x s acc :
  ∃ k, 0 <= k ∧ digits acc (pretty_N_go x s) = digits (acc * 10 ^ k + Z.of_N x) s
    ∧ (x = 0%N → k = 0).
Proof.
  revert s. induction (N.lt_wf_0 x) as [x _ IH]; intros s.
  destruct (decide (x = 0%N)) as [->|Hx].
  { exists 0. rewrite pretty_N_go_0. split_and!; [lia| |done]. f_equal. lia. }
  rewrite pretty_N_go_step; [lia|].
  destruct (IH (x `div` 10)%N) with (s := String (pretty_N_char (x `mod` 10)) s)
    as (k & Hk & Hd & _); [by apply N.div_lt; lia|].
  exists (k + 1). split_and!; [lia| |lia]. rewrite Hd. cbn [digits].
  destruct (pretty_digit (x `mod` 10)%N) as [-> _]; [by apply N.mod_lt|]. cbn -[Z.mul Z.pow].
  f_equal. rewrite Z.pow_add_r; [lia..|]. rewrite N2Z.inj_div N2Z.inj_mod.
  pose proof (Z.div_mod (Z.of_N x) 10). lia.
Qed.

Lemma pretty_go_token x s : token s = true → token (pretty_N_go x s) = true.
Proof.
  revert s. induction (N.lt_wf_0 x) as [x _ IH]; intros s Hs.
  destruct (decide (x = 0%N)) as [->|Hx]; [by rewrite pretty_N_go_0|].
  rewrite pretty_N_go_step; [lia|]. apply IH; [by apply N.div_lt; lia|].
  cbn [token]. destruct (pretty_digit (x `mod` 10)%N) as [_ ?]; [by apply N.mod_lt|].
  rewrite Hs andb_true_r. lia.
Qed.

Lemma itoa_nonneg z : 0 <= z →
  itoa z = (if decide (z = 0) then "0" else pretty_N_go (Z.to_N z) EmptyString).
Proof.
  intros Hz. rewrite /itoa. destruct z as [|p|p]; [done| |lia].
  rewrite /pretty /pretty_Z /pretty /pretty_N. by destruct (decide _).
Qed.

Lemma itoa_token z : 0 <= z → token (itoa z) = true.
Proof.
  intros Hz. rewrite itoa_nonneg //. case_decide; [done|]. by apply pretty_go_token.
Qed.

Lemma unsigned_itoa z : 0 <= z → unsigned (itoa z) = Some z ∧ itoa z ≠ EmptyString.
Proof.
  intros Hz. rewrite itoa_nonneg // /unsigned. case_decide as E; [by subst|].
  destruct (pretty_go_digits (Z.to_N z) EmptyString 0) as (k & _ & Hd & _).
  destruct (String.eqb_spec (pretty_N_go (Z.to_N z) EmptyString) EmptyString) as [He|Hne].
  - rewrite He in Hd. injection Hd as Hd. lia.
  - split; [|done]. rewrite Hd. cbn [digits]. f_equal. lia.
Qed.

Lemma itoa_head z c s : 0 <= z → itoa z = String c s → c ≠ "-"%char ∧ c ≠ "+"%char.
Proof.
  intros Hz Hi. destruct (unsigned_itoa z Hz) as [Hu _]. rewrite Hi /unsigned /= in Hu.
  by split; intros ->.
Qed.

(** [Atoi] reads back what [%d] writes. *)
Lemma Atoi_itoa z : 0 <= z < 2 ^ 63 → Atoi (itoa z) = Some z.
Proof.
  intros Hz. destruct (unsigned_itoa z) as [Hu Hne]; [lia|].
  destruct (itoa z) as [|c s] eqn:Hi; [done|].
  destruct (itoa_head z c s) as [Hm Hp]; [lia|done|].
  assert (Atoi (String c s) = z ← unsigned (String c s); inInt z) as ->.
  { destruct c as [[] [] [] [] [] [] [] []]; done. }
  rewrite Hu. cbn -[Z.pow Z.leb Z.ltb]. rewrite /inInt.
  assert ((- 2 ^ 63 <=? z) && (z <? 2 ^ 63) = true) as -> by lia. done.
Qed.

End GoStrings.
