(* ===== verification/Sanitize.v ===== *)
(** What a worker's message may contain
    ([src/api/internal/workersvc/sanitize.go]): the rewriting of a JSON payload
    so that PostgreSQL can store its text.

    [lex] reads the payload as a sequence of tokens, the bytes outside the string
    literals and the characters inside them; a payload's meaning is what
    [encoding/json] makes of the tokens.  Three kinds of token are text that [jsonb]
    refuses.  The theorem compares the payload with its rewriting token by token. *)

From Stdlib Require Import Ascii.
From S2P Require Import Prelude GoText GoStrings.

Local Open Scope Z_scope.

Module Sanitize.
Import GoStrings.

(** * The scanner *)
Record stripCounts := mkCounts { payloadNUL : Z; payloadSurrogate : Z; payloadBadUTF8 : Z; textNUL : Z }.
Definition noCounts : stripCounts := mkCounts 0 0 0 0.
Definition any (c : stripCounts) : bool :=
  0 <? payloadNUL c + payloadSurrogate c + payloadBadUTF8 c + textNUL c.
Definition addCounts (c d : stripCounts) : stripCounts :=
  mkCounts (payloadNUL c + payloadNUL d) (payloadSurrogate c + payloadSurrogate d)
    (payloadBadUTF8 c + payloadBadUTF8 d) (textNUL c + textNUL d).

Definition quote : ascii := "034".
Definition backslash : ascii := "092".
Definition isQuote (c : ascii) : bool := Ascii.eqb c quote.
Definition isBackslash (c : ascii) : bool := Ascii.eqb c backslash.

Definition replacementEscape : string := String backslash "ufffd".

Definition hexDigit (c : ascii) : option Z :=
  let d := byteOf c in
  if (48 <=? d) && (d <=? 57) then Some (d - 48) else
  if (97 <=? d) && (d <=? 102) then Some (d - 97 + 10) else
  if (65 <=? d) && (d <=? 70) then Some (d - 65 + 10) else None.
Definition hex4 (a b c d : ascii) : option Z :=
  a ← hexDigit a; b ← hexDigit b; c ← hexDigit c; d ← hexDigit d;
  Some (Z.lor (Z.shiftl (Z.lor (Z.shiftl (Z.lor (Z.shiftl a 4) b) 4) c) 4) d).

Definition high (r : Z) : bool := (0xD800 <=? r) && (r <=? 0xDBFF).
Definition low (r : Z) : bool := (0xDC00 <=? r) && (r <=? 0xDFFF).

Definition out (s : string) (k : string * stripCounts) : string * stripCounts := (s +:+ k.1, k.2).
Definition counting (d : stripCounts) (k : string * stripCounts) : string * stripCounts := (k.1, addCounts d k.2).

Fixpoint scan (inString : bool) (p : string) : string * stripCounts :=
  match p with
  | EmptyString => (EmptyString, noCounts)
  | String b p1 =>
    if negb inString then out (str1 b) (scan (isQuote b) p1) else
    if isQuote b then out (str1 b) (scan false p1) else
    if isBackslash b then
      match p1 with
      | EmptyString => out (str1 b) (scan true p1)
      | String u p2 =>
        let copy2 := out (str2 b u) (scan true p2) in
        if negb (Ascii.eqb u "u") then copy2 else
        match p2 with
        | String h1 (String h2 (String h3 (String h4 p6))) =>
          let esc := String b (String u (str4 h1 h2 h3 h4)) in
          match hex4 h1 h2 h3 h4 with
          | None => out esc (scan true p6)
          | Some r =>
            let replaced := counting (mkCounts 0 1 0 0) (out replacementEscape (scan true p6)) in
            if r =? 0 then counting (mkCounts 1 0 0 0) (scan true p6) else
            if high r then
              match p6 with
              | String b' (String u' (String l1 (String l2 (String l3 (String l4 p12))))) =>
                if isBackslash b' && Ascii.eqb u' "u" && from_option low false (hex4 l1 l2 l3 l4)
                then out (esc +:+ String b' (String u' (str4 l1 l2 l3 l4))) (scan true p12)
                else replaced
              | _ => replaced
              end
            else if low r then replaced else out esc (scan true p6)
          end
        | _ => copy2
        end
      end
    else
    let b0 := byteOf b in
    if b0 <? 0x80 then out (str1 b) (scan true p1) else
    let bad := counting (mkCounts 0 0 1 0) (out replacementEscape (scan true p1)) in
    match p1 with
    | EmptyString => bad
    | String c p2 =>
      let b1 := byteOf c in
      if ok2 b0 b1 then out (str2 b c) (scan true p2) else
      match p2 with
      | EmptyString => bad
      | String d p3 =>
        let b2 := byteOf d in
        if ok3 b0 b1 b2 then out (str3 b c d) (scan true p3) else
        match p3 with
        | EmptyString => bad
        | String e p4 =>
          if ok4 b0 b1 b2 (byteOf e) then out (str4 b c d e) (scan true p4) else bad
        end
      end
    end
  end.

Definition sanitizePayloadJSON (p : string) : string * stripCounts :=
  if negb (existsb isBackslash (String.list_ascii_of_string p)) && ValidString p then (p, noCounts) else scan false p.

(** [strings.ReplaceAll(s, "\x00", "")] and how many there were. *)
Fixpoint stripNUL (s : string) : string * Z :=
  match s with
  | EmptyString => (EmptyString, 0)
  | String c s' =>
    let '(t, n) := stripNUL s' in if byteOf c =? 0 then (t, n + 1) else (String c t, n)
  end.

(** * Tokens *)
Inductive tok :=
  | Out (b : ascii)                   (* outside the literals, the opening quote included *)
  | Close                             (* the closing quote *)
  | Esc (c : ascii)                   (* a one-letter escape *)
  | Uni (v : Z) (h1 h2 h3 h4 : ascii)
  | Pair (hi lo : Z) (h1 h2 h3 h4 l1 l2 l3 l4 : ascii)
  | Chr (c : chunk)
  | Broken (s : string).              (* no escape of JSON *)

Definition uni (h1 h2 h3 h4 : ascii) : string := String backslash (String "u" (str4 h1 h2 h3 h4)).
Definition text (t : tok) : string :=
  match t with
  | Out b => str1 b
  | Close => str1 quote
  | Esc c => str2 backslash c
  | Uni _ h1 h2 h3 h4 => uni h1 h2 h3 h4
  | Pair _ _ h1 h2 h3 h4 l1 l2 l3 l4 => uni h1 h2 h3 h4 +:+ uni l1 l2 l3 l4
  | Chr c => raw c
  | Broken s => s
  end.
Definition texts (l : list tok) : string := foldr (λ t s, text t +:+ s) EmptyString l.

Fixpoint lex (inString : bool) (p : string) : list tok :=
  match p with
  | EmptyString => []
  | String b p1 =>
    if negb inString then Out b :: lex (isQuote b) p1 else
    if isQuote b then Close :: lex false p1 else
    if isBackslash b then
      match p1 with
      | EmptyString => Broken (str1 b) :: lex true p1
      | String u p2 =>
        if negb (Ascii.eqb u "u") then Esc u :: lex true p2 else
        match p2 with
        | String h1 (String h2 (String h3 (String h4 p6))) =>
          match hex4 h1 h2 h3 h4 with
          | None => Broken (uni h1 h2 h3 h4) :: lex true p6
          | Some r =>
            let single := Uni r h1 h2 h3 h4 :: lex true p6 in
            if high r then
              match p6 with
              | String b' (String u' (String l1 (String l2 (String l3 (String l4 p12))))) =>
                if isBackslash b' && Ascii.eqb u' "u" && from_option low false (hex4 l1 l2 l3 l4)
                then Pair r (default 0 (hex4 l1 l2 l3 l4)) h1 h2 h3 h4 l1 l2 l3 l4 :: lex true p12
                else single
              | _ => single
              end
            else single
          end
        | _ => Broken (str2 b u) :: lex true p2
        end
      end
    else
    let b0 := byteOf b in
    if b0 <? 0x80 then Chr (mkChunk b0 (str1 b)) :: lex true p1 else
    let bad := Chr (mkChunk RuneError (str1 b)) :: lex true p1 in
    match p1 with
    | EmptyString => bad
    | String c p2 =>
      let b1 := byteOf c in
      if ok2 b0 b1 then Chr (mkChunk (val2 b0 b1) (str2 b c)) :: lex true p2 else
      match p2 with
      | EmptyString => bad
      | String d p3 =>
        let b2 := byteOf d in
        if ok3 b0 b1 b2 then Chr (mkChunk (val3 b0 b1 b2) (str3 b c d)) :: lex true p3 else
        match p3 with
        | EmptyString => bad
        | String e p4 =>
          if ok4 b0 b1 b2 (byteOf e) then Chr (mkChunk (val4 b0 b1 b2 (byteOf e)) (str4 b c d e)) :: lex true p4
          else bad
        end
      end
    end
  end.

(** What becomes of a token: the NUL escape is dropped, an unpaired surrogate
    and a byte that does not decode are replaced. *)
Definition replacement : tok := Uni RuneError "f" "f" "f" "d".
Definition unpaired (v : Z) : bool := high v || low v.
Definition san (t : tok) : option tok :=
  match t with
  | Uni v _ _ _ _ => if v =? 0 then None else if unpaired v then Some replacement else Some t
  | Chr c => if badChunk c then Some replacement else Some t
  | _ => Some t
  end.
Definition count (t : tok) : stripCounts :=
  match t with
  | Uni v _ _ _ _ => if v =? 0 then mkCounts 1 0 0 0 else if unpaired v then mkCounts 0 1 0 0 else noCounts
  | Chr c => if badChunk c then mkCounts 0 0 1 0 else noCounts
  | _ => noCounts
  end.
Definition counts (l : list tok) : stripCounts := foldr (λ t, addCounts (count t)) noCounts l.

Lemma addCounts_none c : addCounts noCounts c = c.
Proof. by destruct c. Qed.

Lemma high_not_low v : high v = true → low v = false ∧ v =? 0 = false.
Proof. rewrite /high /low. lia. Qed.

Lemma good_chunk r s : (2 <= String.length s)%nat → badChunk (mkChunk r s) = false.
Proof. intros H. rewrite /badChunk. simpl raw. destruct (Nat.eqb_spec (String.length s) 1); [lia|]. by rewrite andb_false_r. Qed.

Lemma out_tok t l s : text t = s → san t = Some t → count t = noCounts →
  out s (texts (omap san l), counts l) = (texts (omap san (t :: l)), counts (t :: l)).
Proof. intros <- Hs Hc. rewrite /out /= Hs Hc addCounts_none. done. Qed.

Lemma replaced_tok t l d : san t = Some replacement → count t = d →
  counting d (out replacementEscape (texts (omap san l), counts l)) = (texts (omap san (t :: l)), counts (t :: l)).
Proof. intros Hs <-. rewrite /counting /out /= Hs. done. Qed.

Ltac token := first
  [ apply out_tok; [done|simpl; rewrite ?good_chunk //=; lia|simpl; rewrite ?good_chunk //=; lia]
  | apply out_tok; done
  | apply replaced_tok; done ].

Ltac by_tok := match goal with R : ∀ q j, _ → scan j q = _ |- _ => rewrite R; [simpl; lia|token] end.

Lemma scan_lex p : ∀ i, scan i p = (texts (omap san (lex i p)), counts (lex i p)).
Proof.
  remember (String.length p) as n eqn:Hn. revert p Hn. induction n as [n IH] using lt_wf_ind. intros p -> i.
  assert (∀ q j, (String.length q < String.length p)%nat → scan j q = (texts (omap san (lex j q)), counts (lex j q))) as R.
  { intros q j Hq. by eapply IH. } clear IH.
  destruct p as [|b p1]; [done|]. simpl scan. simpl lex.
  destruct i; simpl negb; cbv iota; [|by_tok].
  destruct (isQuote b) eqn:Hq.
  { apply Ascii.eqb_eq in Hq as ->. by_tok. }
  destruct (isBackslash b) eqn:Hb.
  { apply Ascii.eqb_eq in Hb as ->. destruct p1 as [|u p2]; [by vm_compute|].
    destruct (Ascii.eqb_spec u "u") as [->|Hu]; simpl negb; cbv iota; [|by_tok].
    destruct p2 as [|h1 [|h2 [|h3 [|h4 p6]]]].
    all: try by_tok.
    destruct (hex4 h1 h2 h3 h4) as [r|] eqn:Hr; [|by_tok].
    destruct (high r) eqn:Hh.
    - destruct (high_not_low r Hh) as [Hl ->].
      destruct p6 as [|b' [|u' [|l1 [|l2 [|l3 [|l4 p12]]]]]].
      all: try (rewrite R; [simpl; lia|apply replaced_tok; rewrite /= /unpaired Hh; by rewrite (proj2 (high_not_low r Hh))]).
      destruct (isBackslash b' && Ascii.eqb u' "u" && from_option low false (hex4 l1 l2 l3 l4)) eqn:E.
      + apply andb_true_iff in E as [[->%Ascii.eqb_eq ->%Ascii.eqb_eq]%andb_true_iff _]. by_tok.
      + rewrite R; [simpl; lia|apply replaced_tok; rewrite /= /unpaired Hh; by rewrite (proj2 (high_not_low r Hh))].
    - destruct (r =? 0) eqn:H0.
      + rewrite R; [simpl; lia|]. by rewrite /counting /= H0.
      + destruct (low r) eqn:Hl.
        * rewrite R; [simpl; lia|apply replaced_tok; by rewrite /= /unpaired H0 Hl ?orb_true_r].
        * rewrite R; [simpl; lia|apply out_tok; [done|by rewrite /= /unpaired H0 Hh Hl|by rewrite /= /unpaired H0 Hh Hl]]. }
  destruct (byteOf b <? 0x80) eqn:Ha.
  { rewrite R; [simpl; lia|apply out_tok; [done| |]; rewrite /= /badChunk /=].
    all: destruct (Z.eqb_spec (byteOf b) RuneError) as [E|]; [rewrite E in Ha; done|done]. }
  destruct p1 as [|c p2]; [by_tok|]. destruct (ok2 _ _); [by_tok|].
  destruct p2 as [|d p3]; [by_tok|]. destruct (ok3 _ _ _); [by_tok|].
  destruct p3 as [|e p4]; [by_tok|]. destruct (ok4 _ _ _ _); by_tok.
Qed.

(** * The tokens of a text

    [shape] is what [lex] delivers; a list of tokens that is [plain] as well is
    read back from its text. *)
Definition starts (c : chunk) : bool := negb (rune c =? 34) && negb (rune c =? 92).
Fixpoint shape (inString : bool) (l : list tok) : Prop :=
  match l with
  | [] => True
  | t :: l' =>
    match t with
    | Out b => inString = false ∧ shape (isQuote b) l'
    | Close => inString = true ∧ shape false l'
    | Esc c => inString = true ∧ c ≠ "u"%char ∧ shape true l'
    | Uni v h1 h2 h3 h4 => inString = true ∧ hex4 h1 h2 h3 h4 = Some v ∧ shape true l'
    | Pair hi lo h1 h2 h3 h4 l1 l2 l3 l4 =>
      inString = true ∧ hex4 h1 h2 h3 h4 = Some hi ∧ hex4 l1 l2 l3 l4 = Some lo ∧ high hi = true ∧ low lo = true ∧ shape true l'
    | Chr c => inString = true ∧ (proper c ∨ undecodable c) ∧ starts c = true ∧ shape true l'
    | Broken _ => inString = true ∧ shape true l'
    end
  end.

Definition plain (t : tok) : bool :=
  match t with
  | Uni v _ _ _ _ => negb (v =? 0) && negb (unpaired v)
  | Chr c => negb (badChunk c)
  | Broken _ => false
  | _ => true
  end.

Lemma sapp_inj a b c : a +:+ b = a +:+ c → b = c.
Proof. induction a as [|x a IH]; [done|]. rewrite !sapp_cons. by intros [= ?%IH]. Qed.

Lemma isQuote_byte b : isQuote b = (byteOf b =? 34).
Proof. rewrite /isQuote. destruct (Ascii.eqb_spec b quote) as [->|H]; [done|]. symmetry. apply Z.eqb_neq. intros E. apply H, byteOf_inj. by rewrite E. Qed.
Lemma isBackslash_byte b : isBackslash b = (byteOf b =? 92).
Proof. rewrite /isBackslash. destruct (Ascii.eqb_spec b backslash) as [->|H]; [done|]. symmetry. apply Z.eqb_neq. intros E. apply H, byteOf_inj. by rewrite E. Qed.

(** Inside a literal everything but a quote and a backslash is one rune. *)
Lemma lex_rune b p1 : isQuote b = false → isBackslash b = false →
  ∃ c q, runes (String b p1) = c :: runes q ∧ lex true (String b p1) = Chr c :: lex true q ∧ String b p1 = raw c +:+ q.
Proof.
  intros Hq Hb. cbn [lex runes]. simpl negb. cbv iota. rewrite Hq Hb.
  destruct (byteOf b <? 0x80); [by eexists _, _|].
  destruct p1 as [|c p2]; [by eexists _, EmptyString|]. destruct (ok2 _ _); [by eexists _, _|].
  destruct p2 as [|d p3]; [by eexists _, (str1 c)|]. destruct (ok3 _ _ _); [by eexists _, _|].
  destruct p3 as [|e p4]; [by eexists _, (str2 c d)|]. destruct (ok4 _ _ _ _); [by eexists _, _|].
  by eexists _, (String c (String d (String e p4))).
Qed.

Lemma starts_head c b q p : raw c +:+ q = String b p → proper c ∨ undecodable c →
  isQuote b = false ∧ isBackslash b = false ↔ starts c = true.
Proof.
  rewrite isQuote_byte isBackslash_byte /starts. intros Hs [[Hv Hr]|[Hr (a & Ha & Hge)]].
  - rewrite Hr /encodeRune Hv in Hs. rewrite /ValidRune /MaxRune in Hv.
    repeat case_match; rewrite ?/str4 ?/str3 ?/str2 /str1 sapp_cons in Hs; injection Hs as <- _; rewrite byteOf_chr; try euclid.
  - rewrite Ha /str1 sapp_cons in Hs. injection Hs as -> _. rewrite Hr /RuneError. lia.
Qed.

Lemma lex_shape p : ∀ i, shape i (lex i p) ∧ texts (lex i p) = p.
Proof.
  remember (String.length p) as n eqn:Hn. revert p Hn. induction n as [n IH] using lt_wf_ind. intros p -> i.
  assert (∀ q j, (String.length q < String.length p)%nat → shape j (lex j q) ∧ texts (lex j q) = q) as R.
  { intros q j Hq. by eapply IH. } clear IH.
  destruct p as [|b p1]; [done|].
  destruct i; [|cbn [lex]; simpl negb; cbv iota; destruct (R p1 (isQuote b)) as [? Ht]; [simpl; lia|simpl; by rewrite Ht]].
  destruct (isQuote b) eqn:Hq.
  { cbn [lex]. rewrite Hq. apply Ascii.eqb_eq in Hq as ->. destruct (R p1 false) as [? Ht]; [simpl; lia|simpl; by rewrite Ht]. }
  destruct (isBackslash b) eqn:Hb.
  - cbn [lex]. rewrite Hq Hb. simpl negb. cbv iota. apply Ascii.eqb_eq in Hb as ->. destruct p1 as [|u p2]; [done|].
    destruct (R p2 true) as [R2 T2]; [simpl; lia|].
    destruct (Ascii.eqb_spec u "u") as [->|Hu]; simpl negb; cbv iota; [|simpl; by rewrite T2].
    assert (shape true (Broken (str2 backslash "u") :: lex true p2) ∧
      texts (Broken (str2 backslash "u") :: lex true p2) = String backslash (String "u" p2)) as Hbr.
    { simpl. by rewrite T2. }
    destruct p2 as [|h1 [|h2 [|h3 [|h4 p6]]]]; try exact Hbr.
    clear R2 T2 Hbr. destruct (R p6 true) as [R6 T6]; [simpl; lia|].
    destruct (hex4 h1 h2 h3 h4) as [r|] eqn:Hr; [|simpl; by rewrite T6].
    assert (shape true (Uni r h1 h2 h3 h4 :: lex true p6) ∧ texts (Uni r h1 h2 h3 h4 :: lex true p6) =
      String backslash (String "u" (String h1 (String h2 (String h3 (String h4 p6)))))) as Hs.
    { simpl. by rewrite T6. }
    destruct (high r) eqn:Hh; [|exact Hs]. clear R6 T6.
    destruct p6 as [|b' [|u' [|l1 [|l2 [|l3 [|l4 p12]]]]]]; try exact Hs.
    destruct (isBackslash b' && _ && _) eqn:E; [|exact Hs].
    apply andb_true_iff in E as [[->%Ascii.eqb_eq ->%Ascii.eqb_eq]%andb_true_iff E].
    destruct (R p12 true) as [R12 T12]; [simpl; lia|]. destruct (hex4 l1 l2 l3 l4) as [lo|] eqn:Hlo; [|done].
    simpl. by rewrite T12 Hlo.
  - destruct (lex_rune b p1 Hq Hb) as (c & q & Hr & Hl & Hs).
    pose proof (runes_wf (String b p1)) as Hw. rewrite Hr in Hw. inversion_clear Hw as [|?? Hc _].
    assert (1 <= String.length (raw c))%nat.
    { destruct Hc as [[_ ->]|[_ (a & -> & _)]]; [apply encodeRune_length|done]. }
    destruct (R q true) as [Rq Tq]; [rewrite Hs sapp_length; lia|].
    rewrite Hl. split; [|by rewrite /texts /= -/(texts _) Tq -Hs]. cbn [shape]. split_and!; try done.
    by apply (starts_head c b q p1).
Qed.

Lemma hex4_replacement : hex4 "f" "f" "f" "d" = Some RuneError.
Proof. reflexivity. Qed.

(** What is plain is read back. *)
Lemma lex_texts l : ∀ i, shape i l → forallb plain l = true → lex i (texts l) = l.
Proof.
  induction l as [|t l IH]; intros i Hs Hp; [done|]. apply andb_true_iff in Hp as [Ht Hp].
  destruct t as [b| |c|v h1 h2 h3 h4|hi lo h1 h2 h3 h4 l1 l2 l3 l4|c|]; simpl in Hs; destruct Hs as [-> Hs].
  - simpl. by rewrite IH.
  - simpl. by rewrite IH.
  - destruct Hs as [Hu Hs]. simpl. destruct (Ascii.eqb_spec c "u"); [done|]. simpl. by rewrite IH.
  - destruct Hs as [Hh Hs]. apply andb_true_iff in Ht as [_ Ht]. rewrite /unpaired in Ht.
    simpl. rewrite Hh. destruct (high v); [done|]. by rewrite IH.
  - destruct Hs as (Hh & Hl & H1 & H2 & Hs). simpl. rewrite Hh H1 Hl /= H2. by rewrite IH.
  - destruct Hs as (Hc & Hst & Hs). simpl in Ht.
    assert (proper c) as Hpr. { destruct Hc as [?|[Hr (a & Ha & _)]]; [done|]. by rewrite /badChunk Hr Ha in Ht. }
    pose proof (proj2 Hpr) as Hraw. simpl.
    destruct (raw c +:+ texts l) as [|b p1] eqn:E.
    { pose proof (encodeRune_length (rune c)). rewrite -Hraw in H. apply (f_equal String.length) in E. rewrite sapp_length /= in E. lia. }
    destruct (proj2 (starts_head c b (texts l) p1 E Hc) Hst) as [Hq Hb].
    destruct (lex_rune b p1 Hq Hb) as (c' & q & Hr & Hl & Hsq).
    assert (runes (String b p1) = c :: runes (texts l)) as Hr'.
    { rewrite -E Hraw runes_encode; [apply Hpr|]. f_equal. destruct c as [r w]; simpl in *. by subst. }
    rewrite Hr' in Hr. injection Hr as <- _. rewrite -E in Hsq. apply sapp_inj in Hsq as <-.
    rewrite Hl. by rewrite IH.
  - done.
Qed.

(** * What a payload means, and whether its text can be stored *)
Definition escapes : list (ascii * Z) :=
  [(quote, 34); (backslash, 92); ("/"%char, 47); ("b"%char, 8); ("f"%char, 12); ("n"%char, 10); ("r"%char, 13); ("t"%char, 9)].
Definition escape (c : ascii) : option Z := snd <$> List.find (λ e, Ascii.eqb e.1 c) escapes.

(** What every JSON document satisfies: escapes are those of JSON, there is no
    control character in a literal and only ASCII outside. *)
Definition lexical (t : tok) : bool :=
  match t with
  | Out b => byteOf b <? 0x80
  | Esc c => bool_decide (is_Some (escape c))
  | Chr c => 0x20 <=? rune c
  | Broken _ => false
  | _ => true
  end.
Definition jsonLexical (p : string) : bool := forallb lexical (lex false p).

(** The literals as [encoding/json] reads them, and what is between them. *)
Inductive piece := Between (b : ascii) | Closing | Character (r : Z).
#[export] Instance piece_eq_dec : EqDecision piece.
Proof. solve_decision. Defined.
Definition mean (t : tok) : piece :=
  match t with
  | Out b => Between b
  | Close => Closing
  | Esc c => Character (default RuneError (escape c))
  | Uni v _ _ _ _ => Character (if unpaired v then RuneError else v)
  | Pair hi lo _ _ _ _ _ _ _ _ => Character (0x10000 + (hi - 0xD800) * 0x400 + (lo - 0xDC00))
  | Chr c => Character (rune c)
  | Broken _ => Character RuneError
  end.
Definition meaning (p : string) : list piece := mean <$> lex false p.

(** The text PostgreSQL refuses is gone: there are no NUL escapes, no unpaired
    surrogates and no undecodable bytes.  A number it has no room for is another
    matter ([MessageDb.outOfRange]); the rewriting leaves numbers alone. *)
Definition textStorable (p : string) : bool := forallb (λ t, plain t && lexical t) (lex false p).

Lemma san_shape l : ∀ i, shape i l → shape i (omap san l).
Proof.
  induction l as [|t l IH]; intros i Hs; [done|].
  destruct t as [b| |c|v h1 h2 h3 h4|hi lo h1 h2 h3 h4 l1 l2 l3 l4|c|s]; simpl in *; try naive_solver.
  - destruct Hs as (-> & Hh & Hs). destruct (v =? 0); [by apply IH|]. destruct (unpaired v); simpl; naive_solver.
  - destruct Hs as (-> & Hc & Hst & Hs). destruct (badChunk c); simpl; naive_solver.
Qed.

Lemma san_good l : forallb lexical l = true → forallb (λ t, plain t && lexical t) (omap san l) = true.
Proof.
  induction l as [|t l IH]; [done|]. simpl. rewrite andb_true_iff. intros [Ht Hl]. specialize (IH Hl).
  destruct t as [b| |c|v h1 h2 h3 h4|hi lo h1 h2 h3 h4 l1 l2 l3 l4|c|s]; simpl in *; rewrite ?Ht //.
  - destruct (v =? 0) eqn:H0; [done|]. destruct (unpaired v) eqn:Hu; simpl; rewrite ?H0 ?Hu //=.
  - destruct (badChunk c) eqn:Hb; simpl; rewrite ?Hb ?Ht //=.
Qed.

Lemma escape_nonzero c : is_Some (escape c) → default RuneError (escape c) ≠ 0.
Proof.
  rewrite /escape. intros [r Hr]. rewrite Hr /=. destruct (List.find _ _) as [[x y]|] eqn:E; [|done].
  apply find_some in E as [Hin _]. injection Hr as <-. rewrite /escapes /= in Hin. naive_solver.
Qed.

Lemma san_one i t l : shape i (t :: l) → lexical t = true →
  mean <$> san t = if decide (mean t = Character 0) then None else Some (mean t).
Proof.
  intros Hs Ht. destruct t as [b| |c|v h1 h2 h3 h4|hi lo h1 h2 h3 h4 l1 l2 l3 l4|c|s]; try done.
  - simpl in *. apply bool_decide_eq_true in Ht. by rewrite decide_False; [intros [= ?]; by eapply escape_nonzero|].
  - clear Ht Hs. simpl. destruct (v =? 0) eqn:H0.
    + apply Z.eqb_eq in H0 as ->. done.
    + apply Z.eqb_neq in H0. destruct (unpaired v) eqn:Hu; [done|]. rewrite decide_False; [congruence|]. by rewrite /= Hu.
  - simpl in *. destruct Hs as (_ & _ & _ & Hh & Hl & _). rewrite /high /low in Hh, Hl.
    rewrite decide_False; [|done]. intros [= E]. lia.
  - simpl in *. destruct Hs as (_ & Hc & _ & _). destruct (badChunk c) eqn:Hb.
    + rewrite /badChunk in Hb. apply andb_true_iff in Hb as [->%Z.eqb_eq _]. done.
    + rewrite decide_False; [|done]. intros [= E]. lia.
Qed.

Lemma san_mean l : ∀ i, shape i l → forallb lexical l = true → mean <$> omap san l = filter (λ x, x ≠ Character 0) (mean <$> l).
Proof.
  induction l as [|t l IH]; intros i Hs; [done|]. cbn [forallb]. rewrite andb_true_iff. intros [Ht Hl].
  pose proof (san_one i t l Hs Ht) as H1. assert (∃ j, shape j l) as [j Hj] by (destruct t; simpl in Hs; naive_solver).
  rewrite fmap_cons filter_cons. cbn [omap list_omap]. destruct (decide (mean t = Character 0)) as [E|E].
  - rewrite decide_False; [naive_solver|]. destruct (san t); [done|]. by eapply IH.
  - rewrite decide_True; [done|]. destruct (san t) as [t'|]; [|done]. injection H1 as H1. rewrite fmap_cons H1. f_equal. by eapply IH.
Qed.

(** Counting is exact: nothing was counted exactly when every token is kept. *)
Lemma count_plain t : any (count t) = false → lexical t = true → plain t = true ∧ san t = Some t.
Proof.
  destruct t as [b| |c|v h1 h2 h3 h4|hi lo h1 h2 h3 h4 l1 l2 l3 l4|c|s]; simpl; try done.
  - destruct (v =? 0); [done|]. destruct (unpaired v); done.
  - destruct (badChunk c); done.
Qed.

Record nonneg (c : stripCounts) : Prop := mkNonneg {
  nn1 : 0 <= payloadNUL c; nn2 : 0 <= payloadSurrogate c; nn3 : 0 <= payloadBadUTF8 c; nn4 : 0 <= textNUL c }.
Lemma count_nonneg t : nonneg (count t).
Proof. destruct t; simpl; repeat case_match; done. Qed.
Lemma counts_nonneg l : nonneg (counts l).
Proof. induction l as [|t l [? ? ? ?]]; [done|]. destruct (count_nonneg t). split; simpl; lia. Qed.

Lemma counts_plain l : any (counts l) = false → forallb lexical l = true → forallb plain l = true ∧ omap san l = l.
Proof.
  induction l as [|t l IH]; [done|]. intros Hc. cbn [forallb]. rewrite andb_true_iff. intros [Ht Hl].
  destruct (count_nonneg t), (counts_nonneg l).
  assert (any (count t) = false ∧ any (counts l) = false) as [H1 H2] by (rewrite /any /= in Hc |- *; lia).
  destruct (count_plain t H1 Ht) as [-> E]. destruct (IH H2 Hl) as [-> E']. split; [done|].
  cbn [omap list_omap]. rewrite E. f_equal. exact E'.
Qed.

Lemma plain_counts l : forallb plain l = true → counts l = noCounts ∧ omap san l = l.
Proof.
  induction l as [|t l IH]; [done|]. cbn [forallb]. rewrite andb_true_iff. intros [Ht [E1 E2]%IH].
  assert (count t = noCounts ∧ san t = Some t) as [H1 H2].
  { destruct t; simpl in *; try done; repeat case_match; simpl in *; done. }
  split; [simpl; by rewrite H1 E1|]. cbn [omap list_omap]. rewrite H2. f_equal. exact E2.
Qed.

(** A payload without backslashes that decodes has nothing to rewrite. *)
Lemma fast_plain p : ∀ i, forallb lexical (lex i p) = true →
  existsb isBackslash (String.list_ascii_of_string p) = false → ValidString p = true → forallb plain (lex i p) = true.
Proof.
  remember (String.length p) as n eqn:Hn. revert p Hn. induction n as [n IH] using lt_wf_ind. intros p -> i Hl Hb Hv.
  destruct p as [|b p1]; [done|]. simpl in Hb. apply orb_false_iff in Hb as [Hb Hb1].
  assert (byteOf b <? 0x80 = true → ValidString p1 = true) as Hv1.
  { intros Ha%Z.ltb_lt. rewrite /ValidString (runes_ascii _ _ Ha) /= in Hv. by apply andb_true_iff in Hv as [_ ?]. }
  destruct i; [destruct (isQuote b) eqn:Hq|].
  - cbn [lex] in *. rewrite Hq in Hl |- *. simpl in *. eapply IH; [|done|done|done|]; [lia|]. apply Hv1.
    rewrite isQuote_byte in Hq. lia.
  - destruct (lex_rune b p1 Hq Hb) as (c & q & Hr & Hx & Hs). rewrite Hx in Hl |- *. cbn [forallb plain] in Hl |- *.
    apply andb_true_iff in Hl as [_ Hl]. rewrite /ValidString Hr in Hv. cbn [forallb] in Hv. apply andb_true_iff in Hv as [Hc Hv].
    rewrite Hc. simpl andb. pose proof (runes_wf (String b p1)) as Hw. rewrite Hr in Hw. inversion_clear Hw as [|?? Hcw _].
    assert (1 <= String.length (raw c))%nat.
    { destruct Hcw as [[_ ->]|[_ (a & -> & _)]]; [apply encodeRune_length|done]. }
    pose proof (f_equal String.length Hs) as Hlen. rewrite sapp_length /= in Hlen.
    eapply IH; [|done|done| |done]; [simpl; lia|].
    assert (existsb isBackslash (String.list_ascii_of_string (String b p1)) = false) as Hall by (simpl; by rewrite Hb Hb1).
    rewrite Hs in Hall. clear -Hall. induction (raw c) as [|x s IHs]; [done|]. rewrite sapp_cons /= in Hall.
    apply orb_false_iff in Hall as [_ ?]. by apply IHs.
  - cbn [lex] in *. simpl in *. apply andb_true_iff in Hl as [Ha Hl]. eapply IH; [|done|done|done|]; [lia|]. by apply Hv1.
Qed.

Lemma sanitize_toks p : jsonLexical p = true →
  sanitizePayloadJSON p = (texts (omap san (lex false p)), counts (lex false p)).
Proof.
  intros Hl. rewrite /sanitizePayloadJSON. destruct (negb _ && _) eqn:E; [|apply scan_lex].
  apply andb_true_iff in E as [Hb%negb_true_iff Hv].
  destruct (plain_counts _ (fast_plain p false Hl Hb Hv)) as [-> ->]. by rewrite (proj2 (lex_shape p false)).
Qed.

(** C33. The rewriting of a JSON document is free of the three kinds of text that
    cannot be stored, is a document again, and reads as the original does, except that
    the NULs are gone: what is between the literals, the numbers included, is the same,
    and so is every other character of them, where an unpaired surrogate and an
    undecodable byte read as U+FFFD before and after.  A document that has none of the
    three is left as it is, and nothing is counted exactly then. *)
Theorem payload_sanitized p : jsonLexical p = true →
  let '(q, c) := sanitizePayloadJSON p in
  textStorable q = true ∧ jsonLexical q = true ∧
  meaning q = filter (λ x, x ≠ Character 0) (meaning p) ∧
  (any c = false ↔ textStorable p = true) ∧ (textStorable p = true → q = p).
Proof.
  intros Hl. rewrite (sanitize_toks p Hl). destruct (lex_shape p false) as [Hs Ht]. rewrite /jsonLexical in Hl.
  pose proof (san_good _ Hl) as Hg. pose proof (san_shape _ _ Hs) as Hs'.
  assert (forallb plain (omap san (lex false p)) = true ∧ forallb lexical (omap san (lex false p)) = true) as [Hp' Hl'].
  { rewrite !forallb_forall in Hg |- *. split; intros x Hx; specialize (Hg x Hx); by apply andb_true_iff in Hg as [? ?]. }
  rewrite /textStorable /jsonLexical /meaning (lex_texts _ _ Hs' Hp'). split_and!; [done|done|by eapply san_mean| |].
  - split.
    + intros Hc. destruct (counts_plain _ Hc Hl) as [Hp _]. rewrite !forallb_forall in Hp, Hl |- *.
      intros x Hx. by rewrite (Hp x Hx) (Hl x Hx).
    + intros Hst. assert (forallb plain (lex false p) = true) as Hp.
      { rewrite !forallb_forall in Hst |- *. intros x Hx. specialize (Hst x Hx). by apply andb_true_iff in Hst as [? _]. }
      by rewrite (proj1 (plain_counts _ Hp)).
  - intros Hst. assert (forallb plain (lex false p) = true) as Hp.
    { rewrite !forallb_forall in Hst |- *. intros x Hx. specialize (Hst x Hx). by apply andb_true_iff in Hst as [? _]. }
    by rewrite (proj2 (plain_counts _ Hp)).
Qed.

(** A text without NULs, shorter by as many as there were. *)
Lemma stripNUL_correct s : ∀ t n, stripNUL s = (t, n) →
  String.list_ascii_of_string t = List.filter (λ c, negb (byteOf c =? 0)) (String.list_ascii_of_string s) ∧
  Z.of_nat (String.length s) = Z.of_nat (String.length t) + n.
Proof.
  induction s as [|c s IH]; simpl; intros t n; [intros [= <- <-]; done|].
  destruct (stripNUL s) as [t' n'] eqn:E. destruct (IH t' n' eq_refl) as [H1 H2].
  destruct (byteOf c =? 0); intros [= <- <-]; simpl; rewrite ?H1; split; (done || lia).
Qed.

Module Example.
(** An escaped backslash before [u0000], a NUL, a pair, half a pair and a byte
    that does not decode. *)
Definition payload : string :=
  "{" +:+ str1 quote +:+ "a" +:+ String backslash (String backslash "u0000") +:+ String backslash "u0000" +:+ String backslash "ud83d"
  +:+ String backslash "udca9" +:+ String backslash "ud800" +:+ str1 (chr 0xE9) +:+ str1 quote +:+ ":1}".

Lemma payload_sanitized_witness : jsonLexical payload = true ∧ textStorable payload = false ∧
  let '(q, c) := sanitizePayloadJSON payload in
  textStorable q = true ∧ c = mkCounts 1 1 1 0 ∧ meaning q = filter (λ x, x ≠ Character 0) (meaning payload).
Proof.
  assert (jsonLexical payload = true) as H by (vm_compute; reflexivity).
  split; [exact H|]. split; [vm_compute; reflexivity|]. pose proof (payload_sanitized payload H) as Hc.
  destruct (sanitizePayloadJSON payload) as [q c] eqn:E. destruct Hc as (H1 & _ & H2 & _).
  split; [exact H1|]. split; [|exact H2]. change c with (q, c).2. rewrite -E. vm_compute. reflexivity.
Defined.
End Example.

End Sanitize.
