(* ===== verification/GoJson.v ===== *)
(** The decoding of [encoding/json].

    A payload is the JSON document its bytes spell, [None] when they spell
    none; decoding is that of [json.Unmarshal] into the struct fields the code
    declares. *)

From Stdlib Require Import Ascii.
From S2P Require Import Prelude GoText GoStrings.

Local Open Scope Z_scope.

Module GoJson.
Import GoStrings.

Inductive json :=
  | JNull
  | JBool (b : bool)
  | JNum (lit : string)
  | JStr (s : string)
  | JArr (l : list json)
  | JObj (members : list (string * json)).

Abbreviation RawMessage := (option json) (only parsing).

(** Member names match a struct field exactly or after case folding; of the
    runes that fold to ASCII letters two are not ASCII. *)
Definition foldRune (r : Z) : Z :=
  if (97 <=? r) && (r <=? 122) then r - 32 else
  if r =? 0x17F then 83 else
  if r =? 0x212A then 75 else r.
Definition foldName (s : string) : list Z := foldRune <$> (rune <$> runes s).

Definition field (names : list string) (key : string) : option string :=
  if existsb (String.eqb key) names then Some key
  else List.find (λ n, bool_decide (foldName n = foldName key)) names.

Section Decode.
Context {S : Type} (names : list string) (set : string → json → S → S * bool).

(** Members are decoded in order; a member of the wrong type leaves its field
    alone and makes the call fail in the end. *)
Fixpoint decodeMembers (kvs : list (string * json)) (st : S) (err : bool) : S * bool :=
  match kvs with
  | [] => (st, err)
  | (k, v) :: kvs' =>
    match field names k with
    | Some n => let '(st', e) := set n v st in decodeMembers kvs' st' (err || e)
    | None => decodeMembers kvs' st err
    end
  end.

Definition decodeStruct (v : json) (st : S) : S * bool :=
  match v with
  | JObj kvs => decodeMembers kvs st false
  | JNull => (st, false)
  | _ => (st, true)
  end.

(** [json.Unmarshal]; the flag is a non-nil error. *)
Definition Unmarshal (payload : RawMessage) (st : S) : S * bool :=
  match payload with
  | Some v => decodeStruct v st
  | None => (st, true)
  end.

(** [Decode] with [DisallowUnknownFields], of a body that holds one value. *)
Fixpoint strictMembers (kvs : list (string * json)) (st : S) (err : bool) : S * bool :=
  match kvs with
  | [] => (st, err)
  | (k, v) :: kvs' =>
    match field names k with
    | Some n => let '(st', e) := set n v st in strictMembers kvs' st' (err || e)
    | None => strictMembers kvs' st true
    end
  end.

Definition decodeStrict (payload : RawMessage) (st : S) : option S :=
  match payload with
  | Some (JObj kvs) => let '(st', err) := strictMembers kvs st false in if err then None else Some st'
  | Some JNull => Some st
  | _ => None
  end.
End Decode.

Definition decodeString (v : json) (cur : string) : string * bool :=
  match v with
  | JStr s => (s, false)
  | JNull => (cur, false)
  | _ => (cur, true)
  end.

(** A slice of strings that is decoded into: the elements of its backing array
    and its length; [None] is the nil slice. *)
Record strslice := mkSlice { backing : list string; s_len : nat }.
Definition items (s : option strslice) : option (list string) :=
  (λ s, take (s_len s) (backing s)) <$> s.

(** Element [i] is decoded over what the backing array holds there, so a null
    or a value of the wrong type keeps it. *)
Fixpoint decodeElems (l : list json) (back : list string) : list string * bool :=
  match l with
  | [] => (back, false)
  | v :: l' =>
    let '(s, e) := decodeString v (default EmptyString (head back)) in
    let '(back', e') := decodeElems l' (tail back) in
    (s :: back', e || e')
  end.

Definition decodeStrings (v : json) (cur : option strslice) : option strslice * bool :=
  match v with
  | JNull => (None, false)
  | JArr [] => (Some (mkSlice [] 0), false)
  | JArr l =>
    let '(back, e) := decodeElems l (from_option backing [] cur) in
    (Some (mkSlice back (length l)), e)
  | _ => (cur, true)
  end.

Lemma decodeElems_strings l back :
  decodeElems (JStr <$> l) back = (l ++ drop (length l) back, false).
Proof.
  revert back. induction l as [|x l IH]; intros back; simpl; [by rewrite drop_0|].
  rewrite IH. by destruct back; rewrite ?drop_nil.
Qed.

(** An array of strings decodes to itself, whatever the field held. *)
Lemma decodeStrings_strings l cur :
  (items (decodeStrings (JArr (JStr <$> l)) cur).1, (decodeStrings (JArr (JStr <$> l)) cur).2)
  = (Some l, false).
Proof.
  destruct l as [|x l]; [done|].
  change (decodeStrings (JArr (JStr <$> (x :: l))) cur) with
    (let '(back, e) := decodeElems (JStr <$> (x :: l)) (from_option backing [] cur) in
     (Some (mkSlice back (length (JStr <$> (x :: l)))), e)).
  rewrite decodeElems_strings length_fmap. rewrite /items /=.
  by rewrite take_app_length.
Qed.

End GoJson.
