(* ===== verification/Result.v ===== *)
(** A value or an error, with a bind: the Go functions that return one of the
    two. *)

From S2P Require Import Prelude.

Inductive result (E A : Type) : Type :=
  | Ok (a : A)
  | Err (e : E).
Arguments Ok {E A} a.
Arguments Err {E A} e.

#[export] Instance result_ret E : MRet (result E) := λ A a, Ok a.
#[export] Instance result_bind E : MBind (result E) := λ A B f r,
  match r with Ok a => f a | Err e => Err e end.

Definition isOk {E A} (r : result E A) : bool := match r with Ok _ => true | Err _ => false end.
Definition okValue {E A} (r : result E A) : option A :=
  match r with Ok a => Some a | Err _ => None end.

Lemma okValue_Some {E A} (r : result E A) a : okValue r = Some a ↔ r = Ok a.
Proof. destruct r; simpl; split; by intros [=->]. Qed.

#[export] Hint Rewrite @okValue_Some : uzi.


Lemma result_bind_Ok {E A B} (r : result E A) (f : A → result E B) (b : B) :
  r ≫= f = Ok b ↔ ∃ a, r = Ok a ∧ f a = Ok b.
Proof. destruct r as [a|e]; simpl; split; [eauto|by intros (? & [= ->] & ?)|done|by intros (? & ? & ?)]. Qed.

Lemma guardE_Ok {E B} (bad : bool) (e : E) (r : result E B) (b : B) :
  (if bad then Err e else r) = Ok b ↔ bad = false ∧ r = Ok b.
Proof. destruct bad; naive_solver. Qed.
