(* ===== verification/Txn.v ===== *)
(** A database transaction as a computation over a working copy of the tables.

    A list of faults says which statements the database fails and with which
    error; after a failed statement the transaction is aborted and takes no other
    ([25P02]).  A commit may fail before or after it has taken effect.  What was
    not committed is rolled back. *)

From S2P Require Import Prelude Result.

Module Txn.

Inductive fault (E : Type) := NoFault | StmtFails (e : E) | CommitLost (e : E).
Arguments NoFault {E}.
Arguments StmtFails {E} e.
Arguments CommitLost {E} e.

(** The error of a statement in an aborted transaction. *)
Class Aborts (E : Type) := inAborted : E.

Record TX (DB E : Type) := mkTX { committed : DB; work : DB; aborted : bool; faults : list (fault E) }.
Arguments mkTX {DB E} committed work aborted faults.
Arguments committed {DB E} t.
Arguments work {DB E} t.
Arguments aborted {DB E} t.
Arguments faults {DB E} t.

Definition T (DB E A : Type) : Type := TX DB E → result E A * TX DB E.

Section Txn.
Context {DB E : Type} `{Aborts E}.

#[global] Instance T_ret : MRet (T DB E) := λ A a t, (Ok a, t).
#[global] Instance T_bind : MBind (T DB E) := λ A B f m t,
  match m t with
  | (Ok a, t') => f a t'
  | (Err e, t') => (Err e, t')
  end.

Definition throw {A} (e : E) : T DB E A := λ t, (Err e, t).
(** The error of a call as a value. *)
Definition attempt {A} (m : T DB E A) : T DB E (result E A) := λ t, let '(r, t') := m t in (Ok r, t').

Definition stmt {A} (f : DB → result E (A * DB)) : T DB E A := λ t,
  if aborted t then (Err inAborted, t) else
  let fs := tail (faults t) in
  match default NoFault (head (faults t)) with
  | NoFault =>
    match f (work t) with
    | Ok (a, db) => (Ok a, mkTX (committed t) db false fs)
    | Err e => (Err e, mkTX (committed t) (work t) true fs)
    end
  | StmtFails e | CommitLost e => (Err e, mkTX (committed t) (work t) true fs)
  end.
Definition query {A} (f : DB → A) : T DB E A := stmt (λ db, Ok (f db, db)).
Definition update (f : DB → DB) : T DB E unit := stmt (λ db, Ok (tt, f db)).

Definition Commit : T DB E unit := λ t,
  if aborted t then (Err inAborted, t) else
  let fs := tail (faults t) in
  match default NoFault (head (faults t)) with
  | NoFault => (Ok tt, mkTX (work t) (work t) false fs)
  | StmtFails e => (Err e, mkTX (committed t) (work t) true fs)
  | CommitLost e => (Err e, mkTX (work t) (work t) true fs)
  end.

(** [Begin], the body, the deferred [Rollback]. *)
Definition inTx {A} (body : T DB E A) (fs : list (fault E)) (db : DB) : result E A * DB :=
  let '(r, t) := (query (λ _, tt) ≫= λ _, body) (mkTX db db false fs) in (r, committed t).

(** * Reasoning

    [T_wp m Q t]: run from [t], [m] ends in a result and a state that [Q] allows. *)
Definition T_wp {A} (m : T DB E A) (Q : result E A → TX DB E → Prop) (t : TX DB E) : Prop := let '(r, t') := m t in Q r t'.

Lemma wp_T_bind {A B} (m : T DB E A) (f : A → T DB E B) Q t :
  T_wp m (λ r t', match r with Ok a => T_wp (f a) Q t' | Err e => Q (Err e) t' end) t → T_wp (m ≫= f) Q t.
Proof. rewrite /T_wp /mbind /T_bind. destruct (m t) as [[a|e] t']; done. Qed.

Lemma wp_T_ret {A} (a : A) Q t : Q (Ok a) t → T_wp (mret a) Q t.
Proof. done. Qed.

Lemma wp_T_mono {A} (m : T DB E A) (Q Q' : result E A → TX DB E → Prop) t :
  T_wp m Q t → (∀ r t', Q r t' → Q' r t') → T_wp m Q' t.
Proof. rewrite /T_wp. destruct (m t). auto. Qed.

Lemma wp_attempt {A} (m : T DB E A) Q t : T_wp m (λ r t', Q (Ok r) t') t → T_wp (attempt m) Q t.
Proof. rewrite /T_wp /attempt. destruct (m t); done. Qed.

(** A statement succeeds on the working copy, or the transaction is lost. *)
Lemma wp_T_stmt {A} (f : DB → result E (A * DB)) Q t :
  (aborted t = false → ∀ a db fs, f (work t) = Ok (a, db) → Q (Ok a) (mkTX (committed t) db false fs)) →
  (∀ e fs, Q (Err e) (mkTX (committed t) (work t) true fs)) → T_wp (stmt f) Q t.
Proof.
  intros Ho He. rewrite /T_wp /stmt. destruct t as [c w ab fs]; simpl in *. destruct ab; [apply He|].
  destruct (default NoFault (head fs)); try apply He. destruct (f w) as [[a db]|e] eqn:E'; [by apply Ho|apply He].
Qed.

Lemma wp_query {A} (f : DB → A) Q t :
  (aborted t = false → ∀ fs, Q (Ok (f (work t))) (mkTX (committed t) (work t) false fs)) →
  (∀ e fs, Q (Err e) (mkTX (committed t) (work t) true fs)) → T_wp (query f) Q t.
Proof. intros Ho He. apply wp_T_stmt; [|done]. intros Ha a db fs [= <- <-]. by apply Ho. Qed.

Lemma wp_update (f : DB → DB) Q t :
  (aborted t = false → ∀ fs, Q (Ok tt) (mkTX (committed t) (f (work t)) false fs)) →
  (∀ e fs, Q (Err e) (mkTX (committed t) (work t) true fs)) → T_wp (update f) Q t.
Proof. intros Ho He. apply wp_T_stmt; [|done]. intros Ha a db fs [= <- <-]. by apply Ho. Qed.

Lemma wp_T_commit Q t :
  (aborted t = false → ∀ fs, Q (Ok tt) (mkTX (work t) (work t) false fs)) →
  (∀ e fs c, c = committed t ∨ c = work t ∧ aborted t = false → Q (Err e) (mkTX c (work t) true fs)) → T_wp Commit Q t.
Proof.
  intros Ho He. rewrite /T_wp /Commit. destruct t as [c w ab fs]; simpl in *. destruct ab; [apply He; by left|].
  destruct (default NoFault (head fs)); [by apply Ho|apply He; by left|apply He; by right].
Qed.

Lemma wp_T_inTx {A} (body : T DB E A) fs db (Q : result E A → DB → Prop) :
  (∀ fs', T_wp body (λ r t, Q r (committed t)) (mkTX db db false fs')) → (∀ e, Q (Err e) db) →
  let '(r, db') := inTx body fs db in Q r db'.
Proof.
  intros Hb He. rewrite /inTx.
  assert (T_wp (query (λ _, tt) ≫= λ _, body) (λ r t, Q r (committed t)) (mkTX db db false fs)) as Hw.
  { apply wp_T_bind, wp_query; [intros _ fs'; apply Hb|intros; apply He]. }
  rewrite /T_wp in Hw. destruct ((query _ ≫= _) _) as [r t]. done.
Qed.
End Txn.

End Txn.
