(* ===== verification/GoSearch.v ===== *)
(** Searching and splitting of [strings].

    Cut sets, separators and the characters searched for are ASCII in the code,
    so that working on bytes is working on runes. *)

From Stdlib Require Import Ascii.
From S2P Require Import Prelude GoText GoStrings.

Local Open Scope Z_scope.

Module GoSearch.
Import GoStrings.

Definition HasSuffix (s suffix : string) : bool :=
  (String.length suffix <=? String.length s)%nat &&
  (sdrop (String.length s - String.length suffix) s =?s suffix)%go.

Definition CutPrefix (s prefix : string) : option string :=
  if HasPrefix s prefix then Some (sdrop (String.length prefix) s) else None.
Definition CutSuffix (s suffix : string) : option string :=
  if HasSuffix s suffix
  then Some (stake (String.length s - String.length suffix) s) else None.
Definition TrimSuffix (s suffix : string) : string := default s (CutSuffix s suffix).

Fixpoint Contains (s substr : string) : bool :=
  HasPrefix s substr ||
  match s with EmptyString => false | String _ s' => Contains s' substr end.

Definition ContainsAny (s : string) (chars : list ascii) : bool :=
  existsb (λ c, bool_decide (c ∈ chars)) (String.list_ascii_of_string s).

Definition ContainsFunc (s : string) (f : Z → bool) : bool := existsb f (rune <$> runes s).

Fixpoint TrimRight (s : string) (cutset : list ascii) : string :=
  match s with
  | EmptyString => EmptyString
  | String c s' =>
    let t := TrimRight s' cutset in
    if (t =?s EmptyString)%go && bool_decide (c ∈ cutset) then EmptyString else String c t
  end.
Definition Trim (s : string) (cutset : list ascii) : string :=
  TrimRight (TrimLeft s cutset) cutset.

(** [strings.Split] with a one-byte separator: never the empty slice. *)
Fixpoint Split (s : string) (sep : ascii) : list string :=
  match s with
  | EmptyString => [EmptyString]
  | String c s' =>
    if Ascii.eqb c sep then EmptyString :: Split s' sep
    else match Split s' sep with
         | t :: l => String c t :: l
         | [] => [str1 c]
         end
  end.

Fixpoint Join (l : list string) (sep : ascii) : string :=
  match l with
  | [] => EmptyString
  | [t] => t
  | t :: l' => t +:+ String sep (Join l' sep)
  end.

Definition LastIndexByte (s : string) (b : ascii) : option nat :=
  (fix go (s : string) :=
     match s with
     | EmptyString => None
     | String c s' =>
       match go s' with
       | Some i => Some (S i)
       | None => if Ascii.eqb c b then Some 0%nat else None
       end
     end) s.

(** [strings.EqualFold] against an ASCII word without the letters k and s: no
    rune beyond ASCII folds to another letter. *)
Definition lowerByte (c : ascii) : ascii :=
  if (65 <=? byteOf c) && (byteOf c <=? 90) then chr (byteOf c + 32) else c.
Fixpoint asciiLower (s : string) : string :=
  match s with EmptyString => EmptyString | String c s' => String (lowerByte c) (asciiLower s') end.

Lemma sdrop_app (a b : string) : sdrop (String.length a) (a +:+ b) = b.
Proof. by induction a. Qed.

Lemma stake_app (a b : string) : stake (String.length a) (a +:+ b) = a.
Proof. induction a as [|c a IH]; [by destruct b|]. rewrite sapp_cons /=. by f_equal. Qed.

Lemma IndexByte_app s b r :
  IndexByte s b = None → IndexByte (s +:+ String b r) b = Some (String.length s).
Proof.
  induction s as [|c s IH]; [by rewrite sapp_nil_l /= Ascii.eqb_refl|].
  rewrite sapp_cons. cbn [IndexByte]. destruct (Ascii.eqb c b); [done|].
  destruct (IndexByte s b); [done|]. intros _. by rewrite IH.
Qed.

Lemma stake_sdrop n (s : string) : stake n s +:+ sdrop n s = s.
Proof.
  revert s. induction n as [|n IH]; intros [|c s]; try done.
  simpl. by rewrite sapp_cons IH.
Qed.

Lemma sdrop_length n (s : string) : String.length (sdrop n s) = (String.length s - n)%nat.
Proof. revert s. induction n as [|n IH]; intros [|c s]; simpl; try done. Qed.

Lemma stake_length n (s : string) : String.length (stake n s) = Nat.min n (String.length s).
Proof. revert s. induction n as [|n IH]; intros [|c s]; simpl; auto. Qed.

Lemma HasSuffix_app s t : HasSuffix s t = true ↔ ∃ r, s = r +:+ t.
Proof.
  rewrite /HasSuffix andb_true_iff Nat.leb_le String.eqb_eq. split.
  - intros [Hl <-]. exists (stake (String.length s - String.length t) s). by rewrite stake_sdrop.
  - intros [r ->]. rewrite sapp_length. split; [lia|].
    replace (_ + _ - _)%nat with (String.length r) by lia. apply sdrop_app.
Qed.

Lemma CutPrefix_Some s p r : CutPrefix s p = Some r ↔ s = p +:+ r.
Proof.
  rewrite /CutPrefix. destruct (HasPrefix s p) eqn:E.
  - apply HasPrefix_app in E as [r' ->]. rewrite sdrop_app. split; [by intros [= ->]|].
    intros H. f_equal. revert H. induction p as [|c p IH]; [by rewrite !sapp_nil_l|].
    rewrite !sapp_cons. intros [= H]. auto.
  - split; [done|]. intros ->. assert (HasPrefix (p +:+ r) p = true) by (apply HasPrefix_app; eauto).
    congruence.
Qed.

Lemma CutSuffix_Some s t r : CutSuffix s t = Some r → s = r +:+ t.
Proof.
  rewrite /CutSuffix. destruct (HasSuffix s t) eqn:E; [|done]. intros [= <-].
  apply HasSuffix_app in E as [r ->]. rewrite sapp_length.
  replace (_ + _ - _)%nat with (String.length r) by lia. by rewrite stake_app.
Qed.

Lemma Contains_app s t : Contains s t = true ↔ ∃ a b, s = a +:+ (t +:+ b).
Proof.
  split.
  - induction s as [|c s IH]; cbn [Contains]; rewrite orb_true_iff.
    + intros [(b & ->)%HasPrefix_app|]; [|done]. by exists EmptyString, b.
    + intros [(b & ->)%HasPrefix_app|H]; [by exists EmptyString, b|].
      destruct (IH H) as (a & b & ->). exists (String c a), b. by rewrite sapp_cons.
  - intros (a & b & ->). induction a as [|c a IH].
    + rewrite sapp_nil_l. assert (HasPrefix (t +:+ b) t = true) as E by (apply HasPrefix_app; eauto).
      destruct (t +:+ b); cbn [Contains]; by rewrite E.
    + rewrite sapp_cons. cbn [Contains]. by rewrite IH orb_true_r.
Qed.

Lemma Split_nonempty s sep : Split s sep ≠ [].
Proof. destruct s as [|c s]; simpl; [done|]. by destruct (Ascii.eqb c sep), (Split s sep). Qed.

(** Splitting loses nothing. *)
Lemma Join_Split s sep : Join (Split s sep) sep = s.
Proof.
  induction s as [|c s IH]; [done|]. simpl.
  destruct (Ascii.eqb_spec c sep) as [->|Hne].
  - destruct (Split s sep) as [|t l] eqn:E; [by destruct (Split_nonempty s sep)|].
    rewrite -IH. by rewrite /= sapp_nil_l.
  - destruct (Split s sep) as [|t l] eqn:E; [by destruct (Split_nonempty s sep)|].
    rewrite -IH. destruct l; simpl; by rewrite ?sapp_cons.
Qed.

Fixpoint without (sep : ascii) (s : string) : bool :=
  match s with EmptyString => true | String c s' => negb (Ascii.eqb c sep) && without sep s' end.

Lemma Split_without s sep : Forall (λ t, without sep t = true) (Split s sep).
Proof.
  induction s as [|c s IH]; simpl; [by repeat constructor|].
  destruct (Ascii.eqb c sep) eqn:E; [by constructor|].
  destruct (Split s sep); [repeat constructor; simpl; by rewrite E|].
  inversion IH; subst. constructor; [|done]. simpl. by rewrite E.
Qed.

Lemma Split_cons t s sep : without sep t = true →
  Split (t +:+ String sep s) sep = t :: Split s sep.
Proof.
  induction t as [|c t IH]; intros H.
  - change (Split (String sep s) sep = EmptyString :: Split s sep). by rewrite /= Ascii.eqb_refl.
  - apply andb_prop in H as [Hc H]. apply negb_true_iff in Hc.
    rewrite sapp_cons /= Hc. by rewrite IH.
Qed.

Lemma Split_one t sep : without sep t = true → Split t sep = [t].
Proof.
  induction t as [|c t IH]; simpl; [done|]. intros H.
  apply andb_prop in H as [Hc H]. apply negb_true_iff in Hc. by rewrite Hc IH.
Qed.

Lemma Split_app a b sep : Split (a +:+ String sep b) sep = Split a sep ++ Split b sep.
Proof.
  induction a as [|c a IH].
  - change (Split (String sep b) sep = EmptyString :: Split b sep). by rewrite /= Ascii.eqb_refl.
  - rewrite sapp_cons /= IH. destruct (Ascii.eqb c sep); [done|].
    by destruct (Split a sep) eqn:E; [destruct (Split_nonempty a sep)|].
Qed.

Lemma Split_inj s t sep : Split s sep = Split t sep → s = t.
Proof. intros H. by rewrite -(Join_Split s sep) -(Join_Split t sep) H. Qed.

Lemma Join_app l k sep : l ≠ [] → k ≠ [] →
  Join (l ++ k) sep = Join l sep +:+ String sep (Join k sep).
Proof.
  intros Hl Hk. induction l as [|t l IH]; [done|].
  destruct l as [|u l].
  - destruct k; [done|]. done.
  - change (t +:+ String sep (Join ((u :: l) ++ k) sep)
            = (t +:+ String sep (Join (u :: l) sep)) +:+ String sep (Join k sep)).
    rewrite IH //. by rewrite sapp_assoc sapp_cons.
Qed.

Lemma lowerByte_idemp c : lowerByte (lowerByte c) = lowerByte c.
Proof.
  rewrite /lowerByte. destruct ((65 <=? byteOf c) && (byteOf c <=? 90)) eqn:E; [|by rewrite E].
  assert (0 <= byteOf c + 32 < 256) by (pose proof (byteOf_range c); lia).
  rewrite byteOf_chr //. by assert ((65 <=? byteOf c + 32) && (byteOf c + 32 <=? 90) = false) as -> by lia.
Qed.

Lemma asciiLower_idemp s : asciiLower (asciiLower s) = asciiLower s.
Proof. induction s as [|c s IH]; [done|]. cbn [asciiLower]. by rewrite lowerByte_idemp IH. Qed.

(** * Character classes *)
Fixpoint every (f : ascii → bool) (s : string) : bool :=
  match s with EmptyString => true | String c s' => f c && every f s' end.

Lemma every_forallb f s : every f s = forallb f (String.list_ascii_of_string s).
Proof. by induction s as [|c s IH]; simpl; [|rewrite IH]. Qed.

Lemma every_app f a b : every f (a +:+ b) = every f a && every f b.
Proof. induction a as [|c a IH]; [done|]. by rewrite sapp_cons /= IH andb_assoc. Qed.

Lemma every_impl (f g : ascii → bool) s :
  (∀ c, f c = true → g c = true) → every f s = true → every g s = true.
Proof.
  intros Hfg. induction s as [|c s IH]; simpl; [done|].
  intros [Hc Hs]%andb_prop. apply andb_true_intro. auto.
Qed.

Lemma every_Join f l sep : f sep = true → Forall (λ t, every f t = true) l → every f (Join l sep) = true.
Proof.
  intros Hs. induction 1 as [|t l Ht Hl IH]; [done|]. destruct l as [|u l]; [done|].
  change (every f (t +:+ String sep (Join (u :: l) sep)) = true).
  rewrite every_app Ht /=. by rewrite Hs IH.
Qed.

(** A string of one class contains no string with a character outside it. *)
Lemma every_Contains f s t : every f s = true → every f t = false → Contains s t = false.
Proof.
  intros Hs Ht. destruct (Contains s t) eqn:E; [|done].
  apply Contains_app in E as (a & b & ->). rewrite !every_app Ht in Hs.
  by rewrite andb_false_r in Hs.
Qed.

Lemma every_HasSuffix f s t : every f s = true → every f t = false → HasSuffix s t = false.
Proof.
  intros Hs Ht. destruct (HasSuffix s t) eqn:E; [|done].
  apply HasSuffix_app in E as (a & ->). rewrite every_app Ht in Hs. by rewrite andb_false_r in Hs.
Qed.

Lemma every_CutPrefix f s t : every f s = true → every f t = false → CutPrefix s t = None.
Proof.
  intros Hs Ht. destruct (CutPrefix s t) eqn:E; [|done].
  apply CutPrefix_Some in E as ->. by rewrite every_app Ht in Hs.
Qed.

Lemma every_ContainsAny s chars :
  every (λ c, negb (bool_decide (c ∈ chars))) s = true → ContainsAny s chars = false.
Proof.
  rewrite /ContainsAny. induction s as [|c s IH]; simpl; [done|].
  intros [->%negb_true_iff Hs]%andb_prop. by rewrite IH.
Qed.

Lemma every_Trim s cutset :
  every (λ c, negb (bool_decide (c ∈ cutset))) s = true → Trim s cutset = s.
Proof.
  rewrite /Trim. intros H.
  assert (TrimLeft s cutset = s) as ->.
  { destruct s as [|c s]; [done|]. simpl in *. by apply andb_prop in H as [->%negb_true_iff _]. }
  induction s as [|c s IH]; [done|]. simpl in *. apply andb_prop in H as [Hc Hs].
  rewrite IH //. apply negb_true_iff in Hc. by rewrite Hc andb_false_r.
Qed.

Lemma every_LastIndexByte s b :
  every (λ c, negb (Ascii.eqb c b)) s = true → LastIndexByte s b = None.
Proof.
  rewrite /LastIndexByte. induction s as [|c s IH]; simpl; [done|].
  intros [Hc Hs]%andb_prop. rewrite IH //. by apply negb_true_iff in Hc as ->.
Qed.

Lemma token_every s : token s = every (λ c, (33 <=? byteOf c) && (byteOf c <=? 126)) s.
Proof. by induction s as [|c s IH]; simpl; [|rewrite IH]. Qed.

(** The runes of a token are its bytes. *)
Lemma runes_token s : token s = true →
  runes s = (λ c, mkChunk (byteOf c) (str1 c)) <$> String.list_ascii_of_string s.
Proof.
  induction s as [|c s IH]; [done|]. intros [Hc Hs]%andb_prop.
  rewrite runes_ascii; [lia|]. rewrite IH //.
Qed.

Lemma token_runes s : token s = true → Forall (λ c, 33 <= rune c <= 126) (runes s).
Proof.
  intros Hs. rewrite runes_token //. apply Forall_fmap.
  induction s as [|c s IH]; [constructor|]. apply andb_prop in Hs as [Hc Hs].
  constructor; [simpl; lia|auto].
Qed.

Lemma ValidString_token s : token s = true → ValidString s = true.
Proof.
  intros Hs. apply token_runes in Hs. rewrite /ValidString.
  induction Hs as [|c l Hc _ IH]; [done|]. simpl. rewrite IH andb_true_r.
  rewrite /badChunk /RuneError. apply negb_true_iff, andb_false_iff. left. lia.
Qed.

Lemma TrimSpace_token s : token s = true → TrimSpace s = s.
Proof.
  intros Hs. rewrite /TrimSpace trim_id; [|apply bytes_runes].
  intros c Hc. apply token_runes in Hs. rewrite Forall_forall in Hs.
  assert (33 <= rune c <= 126) by (apply Hs; destruct Hc as [Hc|Hc];
    [by apply head_Some_elem_of|by apply last_Some_elem_of]).
  rewrite /IsSpace. lia.
Qed.

Lemma ContainsFunc_token s f :
  token s = true → (∀ r, 33 <= r <= 126 → f r = false) → ContainsFunc s f = false.
Proof.
  intros Hs Hf. apply token_runes in Hs. rewrite /ContainsFunc.
  induction Hs as [|c l Hc _ IH]; [done|]. simpl. by rewrite Hf.
Qed.

End GoSearch.
