(* ===== verification/GoQuery.v ===== *)
(** Query strings: [strings.Cut], and [QueryEscape], [QueryUnescape] and
    [Values.Encode] of Go's [net/url].

    A [url.Values] is a finite map from a key to the values sent for it.  The
    lemmas at the end are what the redirect builders rely on: escaping is
    inverted by unescaping, and an escaped text contains no separator. *)

From Stdlib Require Import Ascii.
From S2P Require Import Prelude GoText GoStrings GoSearch.

Local Open Scope Z_scope.

Module GoQuery.
Import GoStrings GoSearch.

(** [strings.Cut] at a byte: before, after, found. *)
Fixpoint Cut (s : string) (sep : ascii) : string * string * bool :=
  match s with
  | EmptyString => (EmptyString, EmptyString, false)
  | String c s' =>
    if Ascii.eqb c sep then (EmptyString, s', true)
    else let '(a, b, f) := Cut s' sep in (String c a, b, f)
  end.

(** [unhex]; [None] is not a hexadecimal digit. *)
Definition unhex (c : ascii) : option Z :=
  let b := byteOf c in
  if (48 <=? b) && (b <=? 57) then Some (b - 48)
  else if (97 <=? b) && (b <=? 102) then Some (b - 97 + 10)
  else if (65 <=? b) && (b <=? 70) then Some (b - 65 + 10)
  else None.
Definition upperhex (d : Z) : ascii := chr (if d <? 10 then 48 + d else 55 + d).

Fixpoint QueryUnescape (s : string) : option string :=
  match s with
  | EmptyString => Some EmptyString
  | String c s' =>
    if Ascii.eqb c "%" then
      match s' with
      | String h (String l s'') =>
        match unhex h, unhex l with
        | Some h, Some l => String (chr (h * 16 + l)) <$> QueryUnescape s''
        | _, _ => None
        end
      | _ => None
      end
    else if Ascii.eqb c "+" then String " " <$> QueryUnescape s'
    else String c <$> QueryUnescape s'
  end.

Definition alnum (c : ascii) : bool :=
  let b := byteOf c in
  ((65 <=? b) && (b <=? 90)) || ((97 <=? b) && (b <=? 122)) || ((48 <=? b) && (b <=? 57)).
(** The bytes [shouldEscape] keeps in a query component. *)
Definition unreserved (c : ascii) : bool :=
  alnum c || existsb (Ascii.eqb c) ["-"; "_"; "."; "~"]%char.

Fixpoint QueryEscape (s : string) : string :=
  match s with
  | EmptyString => EmptyString
  | String c s' =>
    let rest := QueryEscape s' in
    if unreserved c then String c rest
    else if Ascii.eqb c " " then String "+" rest
    else String "%" (String (upperhex (byteOf c / 16)) (String (upperhex (byteOf c mod 16)) rest))
  end.

Abbreviation Values := (gmap string (list string)) (only parsing).
Definition Set_ (v : Values) (key value : string) : Values := <[key := [value]]> v.

(** The keys in sorted order. *)
Definition keyLe (a b : string) : Prop := Less b a = false.
#[export] Instance keyLe_dec a b : Decision (keyLe a b).
Proof. rewrite /keyLe. apply _. Defined.
Definition keys (v : Values) : list string := merge_sort keyLe (map_to_list v).*1.

Definition encodePair (kv : string * string) : string := QueryEscape kv.1 +:+ String "=" (QueryEscape kv.2).
Definition pairsOf (v : Values) : list (string * string) :=
  keys v ≫= λ k, (λ x, (k, x)) <$> default [] (v !! k).
Definition Encode (v : Values) : string := Join (encodePair <$> pairsOf v) "&".

(** [ParseQuery]: the pairs that decode, in order, and whether all do.  A pair
    with a semicolon is an error, an empty one is skipped. *)
Definition parsePair (p : string) : option (string * string) :=
  if negb (without ";" p) then None else
  let '(k, v, _) := Cut p "=" in
  k ← QueryUnescape k; v ← QueryUnescape v; Some (k, v).
Definition nonEmptyPairs (query : string) : list string :=
  List.filter (λ p, negb (p =?s EmptyString)%go) (Split query "&").
Definition ParseQuery (query : string) : list (string * string) * bool :=
  let ps := nonEmptyPairs query in (omap parsePair ps, forallb (λ p, bool_decide (is_Some (parsePair p))) ps).
Definition toValues (ps : list (string * string)) : Values :=
  foldl (λ v '(k, x), <[k := default [] (v !! k) ++ [x]]> v) ∅ ps.

(** * Lemmas *)
Lemma Cut_spec s sep : let '(a, b, f) := Cut s sep in
  without sep a = true ∧ if f then s = a +:+ String sep b else s = a ∧ b = EmptyString.
Proof.
  induction s as [|c s IH]; [done|]. rewrite /= -/Cut.
  destruct (Ascii.eqb c sep) eqn:E; [apply Ascii.eqb_eq in E as ->; done|].
  destruct (Cut s sep) as [[a b] f]. destruct IH as [Ha Hf]. split; [by rewrite /= E|].
  destruct f; [by rewrite sapp_cons -Hf|]. by destruct Hf as [-> ->].
Qed.

Lemma Cut_app a b sep : without sep a = true → Cut (a +:+ String sep b) sep = (a, b, true).
Proof.
  induction a as [|c a IH]; [by rewrite sapp_nil_l /= Ascii.eqb_refl|].
  rewrite sapp_cons. cbn [Cut without]. destruct (Ascii.eqb c sep); [done|]. by intros ->%IH.
Qed.

Lemma upperhex_byte d : 0 <= d < 16 → byteOf (upperhex d) = if d <? 10 then 48 + d else 55 + d.
Proof. intros Hd. rewrite /upperhex byteOf_chr //. destruct (d <? 10) eqn:E; lia. Qed.

Lemma unhex_upperhex d : 0 <= d < 16 → unhex (upperhex d) = Some d.
Proof.
  intros Hd. rewrite /unhex upperhex_byte //.
  destruct (d <? 10) eqn:E.
  - assert ((48 <=? 48 + d) && (48 + d <=? 57) = true) as -> by lia. f_equal. lia.
  - assert ((48 <=? 55 + d) && (55 + d <=? 57) = false) as -> by lia.
    assert ((97 <=? 55 + d) && (55 + d <=? 102) = false) as -> by lia.
    assert ((65 <=? 55 + d) && (55 + d <=? 70) = true) as -> by lia. f_equal. lia.
Qed.

(** The bytes an escaped text is made of. *)
Definition escaped (c : ascii) : bool := unreserved c || Ascii.eqb c "%" || Ascii.eqb c "+".

Lemma upperhex_escaped d : 0 <= d < 16 → escaped (upperhex d) = true.
Proof.
  intros Hd. rewrite /escaped /unreserved /alnum upperhex_byte //.
  assert (∀ x b1 b2 b3, x = true → (x || b1) || b2 || b3 = true) as Hl by (by intros ? [] [] [] ->).
  apply Hl. clear Hl. destruct (Z.ltb_spec d 10); lia.
Qed.

Lemma byte_halves c : 0 <= byteOf c / 16 < 16 ∧ 0 <= byteOf c mod 16 < 16.
Proof.
  pose proof (byteOf_range c). split; [|by apply Z.mod_pos_bound].
  split; [apply Z.div_pos|apply Z.div_lt_upper_bound]; lia.
Qed.

Lemma QueryEscape_escaped s : every escaped (QueryEscape s) = true.
Proof.
  induction s as [|c s IH]; [done|]. simpl. destruct (unreserved c) eqn:E.
  - rewrite /= IH /escaped E. done.
  - destruct (Ascii.eqb c " "); simpl; [done|].
    destruct (byte_halves c) as [H1 H2]. by rewrite !upperhex_escaped.
Qed.

Lemma escaped_without s sep : escaped sep = false → every escaped s = true → without sep s = true.
Proof.
  intros Hs. induction s as [|c s IH]; [done|]. simpl. intros [Hc ?]%andb_true_iff. rewrite IH // andb_true_r.
  destruct (Ascii.eqb c sep) eqn:E; [|done]. apply Ascii.eqb_eq in E as ->. congruence.
Qed.

(** Unescaping inverts escaping. *)
Lemma QueryUnescape_Escape s : QueryUnescape (QueryEscape s) = Some s.
Proof.
  induction s as [|c s IH]; [done|]. cbn [QueryEscape]. destruct (unreserved c) eqn:E.
  - assert (Ascii.eqb c "%" = false) as Ep by (destruct (Ascii.eqb_spec c "%"); [subst; by vm_compute in E|done]).
    assert (Ascii.eqb c "+" = false) as Eq by (destruct (Ascii.eqb_spec c "+"); [subst; by vm_compute in E|done]).
    cbn [QueryUnescape]. by rewrite Ep Eq IH.
  - destruct (Ascii.eqb_spec c " ") as [->|_]; cbn [QueryUnescape].
    + by rewrite IH.
    + destruct (byte_halves c) as [H1 H2]. rewrite /= !unhex_upperhex // IH /=. do 2 f_equal.
      apply chr_byteOf. pose proof (Z.div_mod (byteOf c) 16 ltac:(done)). lia.
Qed.

(** Reading back what was encoded. *)
Lemma encodePair_without kv sep : escaped sep = false → sep ≠ "="%char → without sep (encodePair kv) = true.
Proof.
  intros Hs Hne. rewrite /encodePair. assert (∀ a b, without sep a = true → without sep b = true →
    without sep (a +:+ String "=" b) = true) as Happ.
  { induction a as [|c a IH]; intros b Ha Hb; [rewrite sapp_nil_l; cbn [without]|rewrite sapp_cons; cbn [without] in *].
    - rewrite Hb andb_true_r. apply negb_true_iff, Ascii.eqb_neq. congruence.
    - apply andb_prop in Ha as [-> Ha]. by rewrite IH. }
  apply Happ; apply escaped_without; auto using QueryEscape_escaped.
Qed.

Lemma parsePair_encode kv : parsePair (encodePair kv) = Some kv.
Proof.
  rewrite /parsePair encodePair_without //= /encodePair Cut_app.
  - apply escaped_without; [done|apply QueryEscape_escaped].
  - by rewrite !QueryUnescape_Escape; destruct kv.
Qed.

Lemma encodePair_nonempty kv : encodePair kv ≠ EmptyString.
Proof. rewrite /encodePair. by destruct (QueryEscape kv.1). Qed.

Lemma Split_Join l sep : l ≠ [] → Forall (λ t, without sep t = true) l → Split (Join l sep) sep = l.
Proof.
  induction l as [|t l IH]; [done|]. intros _ Hf. inversion Hf as [|? ? Ht Hl]; subst.
  destruct l as [|u l]; [by apply Split_one|].
  change (Split (t +:+ String sep (Join (u :: l) sep)) sep = t :: u :: l). rewrite Split_cons // IH //.
Qed.
End GoQuery.
