(* ===== verification/NetIP.v ===== *)
(** Addresses, prefixes and their textual forms, as in [net/netip].

    An IPv4 address is a 32-bit number, an IPv6 address a 128-bit number with
    its zone; the zero [Addr] is a constructor of its own.  Parsing accepts what
    [netip.ParseAddr], [ParseAddrPort] and [ParsePrefix] accept. *)

From Stdlib Require Import Ascii.
From S2P Require Import Prelude GoText GoStrings GoSearch.

Local Open Scope Z_scope.

Module NetIP.
Import GoStrings GoSearch.

Inductive Addr := AddrZero | Addr4 (a : Z) | Addr6 (a : Z) (zone : string).

Definition IsValid (a : Addr) : bool := match a with AddrZero => false | _ => true end.
Definition Is4 (a : Addr) : bool := match a with Addr4 _ => true | _ => false end.
Definition Is6 (a : Addr) : bool := match a with Addr6 _ _ => true | _ => false end.
Definition Zone (a : Addr) : string := match a with Addr6 _ z => z | _ => EmptyString end.

Definition Is4In6 (a : Addr) : bool :=
  match a with Addr6 v _ => Z.shiftr v 32 =? 0xffff | _ => false end.
Definition Unmap (a : Addr) : Addr :=
  match a with
  | Addr6 v _ => if Is4In6 a then Addr4 (Z.land v 0xffffffff) else a
  | _ => a
  end.

(** * Prefixes *)
Record Prefix := mkPrefix { p_addr : Addr; p_bits : Z }.

Definition bitsAgree (width bits a p : Z) : bool := Z.shiftr (Z.lxor a p) (width - bits) =? 0.

Definition Contains (p : Prefix) (a : Addr) : bool :=
  match p_addr p, a with
  | Addr4 x, Addr4 y => bitsAgree 32 (p_bits p) y x
  | Addr6 x _, Addr6 y z => (z =?s EmptyString)%go && bitsAgree 128 (p_bits p) y x
  | _, _ => false
  end.

Definition clearLow (v n : Z) : Z := Z.shiftl (Z.shiftr v n) n.
Definition Masked (p : Prefix) : Prefix :=
  match p_addr p with
  | Addr4 x => mkPrefix (Addr4 (clearLow x (32 - p_bits p))) (p_bits p)
  | Addr6 x _ => mkPrefix (Addr6 (clearLow x (128 - p_bits p)) EmptyString) (p_bits p)
  | AddrZero => p
  end.

(** * Classes of addresses *)
Definition v4 (a b c d : Z) : Addr := Addr4 (((a * 256 + b) * 256 + c) * 256 + d).
Definition in4 (a b c d bits v : Z) : bool := Contains (mkPrefix (v4 a b c d) bits) (Addr4 v).
Definition in6 (hi bits v : Z) : bool := bitsAgree 128 bits v (Z.shiftl hi 112).

Definition IsLoopback (a : Addr) : bool :=
  match a with Addr4 v => in4 127 0 0 0 8 v | Addr6 v _ => v =? 1 | AddrZero => false end.
Definition IsMulticast (a : Addr) : bool :=
  match a with Addr4 v => in4 224 0 0 0 4 v | Addr6 v _ => in6 0xff00 8 v | AddrZero => false end.
Definition IsLinkLocalUnicast (a : Addr) : bool :=
  match a with Addr4 v => in4 169 254 0 0 16 v | Addr6 v _ => in6 0xfe80 10 v | AddrZero => false end.
Definition IsPrivate (a : Addr) : bool :=
  match a with
  | Addr4 v => in4 10 0 0 0 8 v || in4 172 16 0 0 12 v || in4 192 168 0 0 16 v
  | Addr6 v _ => in6 0xfc00 7 v
  | AddrZero => false
  end.

(** An address mapped into IPv6 is classified as the IPv4 address it carries. *)
Definition IsGlobalUnicast (a : Addr) : bool :=
  match Unmap a with
  | AddrZero => false
  | Addr4 v =>
    negb (v =? 0) && negb (v =? 0xffffffff) &&
    negb (IsLoopback (Addr4 v)) && negb (IsMulticast (Addr4 v)) && negb (IsLinkLocalUnicast (Addr4 v))
  | Addr6 v z =>
    negb ((v =? 0) && (z =?s EmptyString)%go) &&
    negb (IsLoopback (Addr6 v z)) && negb (IsMulticast (Addr6 v z))
    && negb (IsLinkLocalUnicast (Addr6 v z))
  end.

(** * Textual forms; [None] is a non-nil error *)

(** An octet: digits without a leading zero, at most 255. *)
Definition octet (s : string) : option Z :=
  match s with
  | String "0" (String _ _) => None
  | _ => v ← unsigned s; if v <=? 255 then Some v else None
  end.

Definition parseFields4 (s : string) : option (Z * Z * Z * Z) :=
  match octet <$> Split s "." with
  | [Some a; Some b; Some c; Some d] => Some (a, b, c, d)
  | _ => None
  end.

Definition hexVal (c : ascii) : option Z :=
  let b := byteOf c in
  if (48 <=? b) && (b <=? 57) then Some (b - 48) else
  if (97 <=? b) && (b <=? 102) then Some (b - 87) else
  if (65 <=? b) && (b <=? 70) then Some (b - 55) else None.

(** The hex digits at the start: their number, their value and what follows. *)
Fixpoint hexRun (s : string) (n : nat) (acc : Z) : nat * Z * string :=
  match s with
  | EmptyString => (n, acc, s)
  | String c s' =>
    match hexVal c with
    | Some d => hexRun s' (S n) (acc * 16 + d)
    | None => (n, acc, s)
    end
  end.

(** The 16-bit groups before and after the ellipsis; at most eight in all. *)
Record groups := mkGroups { front : list Z; back : option (list Z) }.
Definition count (g : groups) : nat := length (front g) + length (default [] (back g)).
Definition push (g : groups) (v : Z) : groups :=
  match back g with
  | None => mkGroups (front g ++ [v]) None
  | Some l => mkGroups (front g) (Some (l ++ [v]))
  end.

Fixpoint parseGroups (fuel : nat) (s : string) (g : groups) : option groups :=
  match fuel with
  | O => if (s =?s EmptyString)%go then Some g else None
  | S fuel' =>
    let '(n, v, s') := hexRun s 0 0 in
    if (n =? 0)%nat then None else
    match s' with
    | String "." _ =>
      (* an IPv4 address takes the last two groups *)
      if (4 <? n)%nat then None else
      if match back g with None => negb (count g =? 6)%nat | Some _ => (6 <? count g)%nat end
      then None else
      '(a, b, c, d) ← parseFields4 s;
      Some (push (push g (a * 256 + b)) (c * 256 + d))
    | _ =>
      if (4 <? n)%nat then None else
      let g := push g v in
      match s' with
      | EmptyString => Some g
      | String ":" (String ":" rest) =>
        if back g then None else
        let g := mkGroups (front g) (Some []) in
        if (rest =?s EmptyString)%go then Some g else parseGroups fuel' rest g
      | String ":" (String c rest) => parseGroups fuel' (String c rest) g
      | _ => None
      end
    end
  end.

Definition groupsValue (l : list Z) : Z := foldl (λ acc v, acc * 65536 + v) 0 l.

Definition expand (g : groups) : option Z :=
  match back g with
  | None => if (count g =? 8)%nat then Some (groupsValue (front g)) else None
  | Some l =>
    if (count g <? 8)%nat
    then Some (groupsValue (front g ++ replicate (8 - count g) 0 ++ l)) else None
  end.

Definition parseIPv6 (s : string) : option Addr :=
  let '(s, zone) := match IndexByte s "%" with
                    | Some i => (stake i s, Some (sdrop (S i) s))
                    | None => (s, None)
                    end in
  if match zone with Some z => (z =?s EmptyString)%go | None => false end then None else
  let z := default EmptyString zone in
  match s with
  | String ":" (String ":" EmptyString) => Some (Addr6 0 z)
  | String ":" (String ":" rest) =>
    g ← parseGroups 8 rest (mkGroups [] (Some [])); v ← expand g; Some (Addr6 v z)
  | _ => g ← parseGroups 8 s (mkGroups [] None); v ← expand g; Some (Addr6 v z)
  end.

(** The first dot, colon or percent sign decides the family. *)
Definition ParseAddr (s : string) : option Addr :=
  match List.find (λ c, bool_decide (c ∈ ["."; ":"; "%"]%char)) (String.list_ascii_of_string s) with
  | Some "."%char => '(a, b, c, d) ← parseFields4 s; Some (v4 a b c d)
  | Some ":"%char => parseIPv6 s
  | _ => None
  end.

(** [ParseAddrPort], for its success only. *)
Definition parsesAddrPort (s : string) : bool :=
  match LastIndexByte s ":" with
  | None => false
  | Some i =>
    let ip := stake i s in
    let port := sdrop (S i) s in
    match unsigned port with
    | Some p =>
      if p <=? 65535 then
        match ip with
        | String "[" ip' =>
          match CutSuffix ip' "]" with
          | Some ip'' => match ParseAddr ip'' with Some (Addr6 _ _) => true | _ => false end
          | None => false
          end
        | EmptyString => false
        | _ => match ParseAddr ip with Some (Addr4 _) => true | _ => false end
        end
      else false
    | None => false
    end
  end.

Definition ParsePrefix (s : string) : option Prefix :=
  i ← LastIndexByte s "/";
  a ← ParseAddr (stake i s);
  if negb (Zone a =?s EmptyString)%go then None else
  let bits := sdrop (S i) s in
  if match bits with
     | String c (String _ _) => negb ((49 <=? byteOf c) && (byteOf c <=? 57))
     | _ => false
     end then None else
  n ← Atoi bits;
  if (0 <=? n) && (n <=? if Is4 a then 32 else 128) then Some (mkPrefix a n) else None.

Example parse_v4 : ParseAddr "192.168.0.1" = Some (v4 192 168 0 1).
Proof. reflexivity. Qed.
Example parse_v4_leading_zero : ParseAddr "192.168.00.1" = None.
Proof. reflexivity. Qed.
Example parse_v6 :
  (ParseAddr "::1", ParseAddr "2001:db8::8:800:200c:417a", ParseAddr "::ffff:10.0.0.1",
   ParseAddr "1::2::3", ParseAddr "fe80::1%eth0", ParseAddr "1:2:3:4:5:6:7:8", ParseAddr "1:2:3:4:5:6:7::8") =
  (Some (Addr6 1 ""), Some (Addr6 0x20010db80000000000080800200c417a ""), Some (Addr6 0xffff0a000001 ""),
   None, Some (Addr6 0xfe800000000000000000000000000001 "eth0"),
   Some (Addr6 0x00010002000300040005000600070008 ""), None).
Proof. vm_compute. reflexivity. Qed.
Example parse_prefix :
  (ParsePrefix "100.64.0.0/10", ParsePrefix "10.0.0.0/08", ParsePrefix "2000::/3") =
  (Some (mkPrefix (v4 100 64 0 0) 10), None, Some (mkPrefix (Addr6 0x20000000000000000000000000000000 "") 3)).
Proof. vm_compute. reflexivity. Qed.
Example addr_ports :
  parsesAddrPort <$> ["1.2.3.4:80"; "[::1]:443"; "::1"; "[1.2.3.4]:80"; "host:80"] =
  [true; true; false; false; false].
Proof. vm_compute. reflexivity. Qed.

End NetIP.
