(* ===== verification/Prog.v ===== *)
(** Effectful Go code as programs over a request signature.

    A service that reaches the database or the forge through an interface is a
    [prog]: a tree of requests with a continuation per response.  The same
    program is executed against a world ([exec]), interleaved with other
    programs one request at a time ([istep]), and checked against a monitor
    that sees every request and response of all its executions ([monitored]). *)

From S2P Require Import Prelude.

Inductive prog (R : Type → Type) (A : Type) : Type :=
  | Ret (a : A)
  | Vis (X : Type) (r : R X) (k : X → prog R A).
Arguments Ret {R A} a.
Arguments Vis {R A X} r k.

Definition call {R X} (r : R X) : prog R X := Vis r Ret.

Fixpoint prog_bind {R A B} (f : A → prog R B) (p : prog R A) : prog R B :=
  match p with
  | Ret a => f a
  | Vis r k => Vis r (λ x, prog_bind f (k x))
  end.

#[export] Instance prog_ret R : MRet (prog R) := λ A a, Ret a.
#[export] Instance prog_mbind R : MBind (prog R) := λ A B f p, prog_bind f p.

(** A best-effort loop over a slice. *)
Fixpoint for_each {R A} (l : list A) (body : A → prog R unit) : prog R unit :=
  match l with
  | [] => Ret tt
  | x :: l' => body x ≫= λ _, for_each l' body
  end.

Section Exec.
Context {R : Type → Type} {W : Type} (handle : W → ∀ X, R X → W * X).

(** Run a program to completion. *)
Fixpoint exec {A} (p : prog R A) (w : W) : W * A :=
  match p with
  | Ret a => (w, a)
  | Vis r k => let '(w', x) := handle w _ r in exec (k x) w'
  end.

Lemma exec_bind {A B} (p : prog R A) (f : A → prog R B) w :
  exec (p ≫= f) w = let '(w', a) := exec p w in exec (f a) w'.
Proof.
  revert w. induction p as [a|X r k IH]; intros w; simpl; [done|].
  destruct (handle w X r) as [w' x]. apply IH.
Qed.
End Exec.

Section Monitor.
Context {R : Type → Type} {S : Type}.
Context (upd : S → ∀ X, R X → X → S) (ok : S → ∀ X, R X → Prop).

(** Whatever the responses, every request satisfies [ok] in the state the
    monitor is in when it is issued. *)
Fixpoint monitored {A} (post : S → A → Prop) (s : S) (p : prog R A) : Prop :=
  match p with
  | Ret a => post s a
  | Vis r k => ok s _ r ∧ ∀ x, monitored post (upd s _ r x) (k x)
  end.

Lemma monitored_weaken {A} (post post' : S → A → Prop) s p :
  (∀ s a, post s a → post' s a) → monitored post s p → monitored post' s p.
Proof.
  intros Hp. revert s. induction p as [a|X r k IH]; intros s; simpl; [apply Hp|].
  intros [Hok H]. split; [done|]. intros x. by apply IH.
Qed.

Lemma monitored_bind {A B} (mid : S → A → Prop) (post : S → B → Prop) s p f :
  monitored mid s p → (∀ s a, mid s a → monitored post s (f a)) →
  monitored post s (p ≫= f).
Proof.
  intros Hp Hf. revert s Hp. induction p as [a|X r k IH]; intros s; simpl.
  - apply Hf.
  - intros [Hok H]. split; [done|]. intros x. by apply IH.
Qed.

(** One request and the rest. *)
Lemma monitored_call {A X} (post : S → A → Prop) s (r : R X) (k : X → prog R A) :
  ok s X r → (∀ x, monitored post (upd s X r x) (k x)) → monitored post s (call r ≫= k).
Proof. done. Qed.

Lemma monitored_for_each {A} (I : S → Prop) (l : list A) (body : A → prog R unit) s :
  I s → (∀ s a, I s → monitored (λ s _, I s) s (body a)) →
  monitored (λ s _, I s) s (for_each l body).
Proof.
  intros Hs Hb. revert s Hs. induction l as [|x l IH]; intros s Hs; [done|].
  eapply monitored_bind; [by apply Hb|]. intros s' ? Hs'. by apply IH.
Qed.
End Monitor.

Section Wp.
Context {R : Type → Type} {S : Type}.
Context (answers : S → ∀ X, R X → X → S → Prop) (ok : S → ∀ X, R X → Prop).

(** The weakest precondition over a nondeterministic world: whatever the world
    answers and however it moves, every request satisfies [ok] when issued and
    [post] holds at the end. *)
Fixpoint wp {A} (post : S → A → Prop) (s : S) (p : prog R A) : Prop :=
  match p with
  | Ret a => post s a
  | Vis r k => ok s _ r ∧ ∀ x s', answers s _ r x s' → wp post s' (k x)
  end.

Lemma wp_weaken {A} (post post' : S → A → Prop) s p :
  (∀ s a, post s a → post' s a) → wp post s p → wp post' s p.
Proof.
  intros Hp. revert s. induction p as [a|X r k IH]; intros s; simpl; [apply Hp|].
  intros [Hok H]. split; [done|]. eauto.
Qed.

Lemma wp_bind {A B} (mid : S → A → Prop) (post : S → B → Prop) s p f :
  wp mid s p → (∀ s a, mid s a → wp post s (f a)) → wp post s (p ≫= f).
Proof.
  intros Hp Hf. revert s Hp. induction p as [a|X r k IH]; intros s; simpl.
  - apply Hf.
  - intros [Hok H]. split; [done|]. eauto.
Qed.

Lemma wp_call {A X} (post : S → A → Prop) s (r : R X) (k : X → prog R A) :
  ok s X r → (∀ x s', answers s X r x s' → wp post s' (k x)) → wp post s (call r ≫= k).
Proof. done. Qed.

(** A world that answers as [answers] allows ends where [post] says. *)
Lemma wp_world {A} (handle : S → ∀ X, R X → S * X) (post : S → A → Prop) s p :
  (∀ s X r, answers s X r (handle s X r).2 (handle s X r).1) → wp post s p →
  post (exec handle p s).1 (exec handle p s).2.
Proof.
  intros Hh. revert s. induction p as [a|X r k IH]; intros s; simpl; [done|].
  intros [_ H]. specialize (Hh s X r). destruct (handle s X r) as [s' x]. by apply IH, H.
Qed.
End Wp.

(** * A program over part of a larger signature *)
Section Lift.
Context {R R' : Type → Type} (f : ∀ X, R X → R' X).

Fixpoint lift {A} (p : prog R A) : prog R' A :=
  match p with
  | Ret a => Ret a
  | Vis r k => Vis (f _ r) (λ x, lift (k x))
  end.

(** The monitor of the part runs inside the monitor of the whole: [inner] reads
    the state of the first off the second. *)
Lemma monitored_lift {S S' A} (upd : S → ∀ X, R X → X → S) (ok : S → ∀ X, R X → Prop)
    (upd' : S' → ∀ X, R' X → X → S') (ok' : S' → ∀ X, R' X → Prop) (inner : S' → S → Prop)
    (post : S → A → Prop) s s' p :
  (∀ s s' X (r : R X), inner s' s → ok s X r →
     ok' s' X (f X r) ∧ ∀ x, inner (upd' s' X (f X r) x) (upd s X r x)) →
  inner s' s → monitored upd ok post s p →
  monitored upd' ok' (λ s' a, ∃ s, inner s' s ∧ post s a) s' (lift p).
Proof.
  intros Hf. revert s s'. induction p as [a|X r k IH]; intros s s' Hi; simpl; [eauto|].
  intros [Hok Hk]. destruct (Hf s s' X r Hi Hok) as [Hok' Hi']. split; [done|].
  intros x. by eapply IH.
Qed.

(** The same over a nondeterministic world. *)
Lemma wp_lift {S S' A} (upd : S → ∀ X, R X → X → S) (ok : S → ∀ X, R X → Prop)
    (answers' : S' → ∀ X, R' X → X → S' → Prop) (ok' : S' → ∀ X, R' X → Prop) (I : S' → Prop)
    (post : S → A → Prop) s s' p :
  (∀ s' X (r : R X), I s' → ok' s' X (f X r) ∧ ∀ x s'', answers' s' X (f X r) x s'' → I s'') →
  I s' → monitored upd ok post s p →
  wp answers' ok' (λ s' a, I s' ∧ ∃ s, post s a) s' (lift p).
Proof.
  intros Hf. revert s s'. induction p as [a|X r k IH]; intros s s' Hi; simpl; [eauto|].
  intros [_ Hk]. destruct (Hf s' X r Hi) as [Hok' Hi']. split; [done|]. intros x s'' Ha. eauto.
Qed.
End Lift.
