(* ===== verification/AutoSelect.v ===== *)
(** Automatic choice of the Anthropic credential a claim spends
    ([src/api/internal/autoselect]): the eligibility gate [Classify], the
    ranker [Select], the last-resort pick [Floor] and the earliest moment an
    alternative credential is usable, [NextAvailable].

    A nil pointer is [None]; an instant is a [time]; [int] and [int16] values
    are mathematical integers (percentages, headroom points and in-flight
    counts, far from the limits of their width).  [Select] returns [None] for
    the run-time panic of an out-of-range index. *)

From S2P Require Import Prelude.

Local Open Scope Z_scope.

Module AutoSelect.

(** * Data *)

Record Candidate := mkCandidate {
  SecretID : uuid;
  Label : string;
  AutoEligible : bool;
  Rejected : bool;
  HasReading : bool;
  FiveHourPct : option Z;
  SevenDayPct : option Z;
  FiveResetsAt : option time;
  SevenResetsAt : option time;
  SyncedAt : option time;
  WeeklyResetsAt : option time;
  InFlight : Z;
}.

Inductive Order := OrderResetFirst | OrderHeadroomFirst.

Record Policy := mkPolicy {
  order : Order;
  MinHeadroom : Z;
  HeadroomTiePct : Z;
  MaxStaleness : duration;
  InflightPenalty : Z;
}.

Inductive Status :=
  | StatusEligible | StatusNotPooled | StatusRejected | StatusNoReading
  | StatusUnmeasured | StatusStale | StatusBelowThreshold.

#[export] Instance Status_eq_dec : EqDecision Status.
Proof. solve_decision. Defined.

Record Eligibility := mkEligibility {
  status : Status;
  Measured : bool;
  Headroom : Z;
}.

Inductive Reason :=
  | ReasonDefault | ReasonPinned | ReasonJudge | ReasonAuto | ReasonBestOfPool
  | ReasonPoolEmpty | ReasonPoolStale | ReasonOpenFailed | ReasonRunPinned
  | ReasonRunDefault.

#[export] Instance Reason_eq_dec : EqDecision Reason.
Proof. solve_decision. Defined.

Record Outcome := mkOutcome {
  Picked : bool;
  OutSecretID : uuid;
  OutHeadroom : Z;
  Ranked : Z;
  OutReason : Reason;
  PoolNonEmpty : bool;
}.

Record scored := mkScored { c : Candidate; e : Eligibility; rank : Z }.

(** * The gate *)

Definition headroom (fivePct : option Z) (sevenPct : Z) : Z :=
  let seven := 100 - sevenPct in
  match fivePct with
  | None => seven
  | Some f => let five := 100 - f in if seven <? five then seven else five
  end.

Definition ineligible (s : Status) : Eligibility := mkEligibility s false 0.

Definition Classify (c : Candidate) (p : Policy) (now : time) : Eligibility :=
  if negb (AutoEligible c) then ineligible StatusNotPooled else
  if Rejected c then ineligible StatusRejected else
  match HasReading c, SyncedAt c with
  | false, _ | _, None => ineligible StatusNoReading
  | true, Some synced =>
    match SevenDayPct c with
    | None => ineligible StatusUnmeasured
    | Some seven =>
      if (MaxStaleness p <=? 0) || (MaxStaleness p <? Go.sub now synced)
      then ineligible StatusStale
      else
        let h := headroom (FiveHourPct c) seven in
        if h <? MinHeadroom p
        then mkEligibility StatusBelowThreshold true h
        else mkEligibility StatusEligible true h
    end
  end.

(** * Orders *)

(** The loop over the sixteen bytes of two identifiers. *)
Fixpoint compareBytes (a b : list Z) : Z :=
  match a, b with
  | x :: a', y :: b' =>
      if x <? y then -1 else if y <? x then 1 else compareBytes a' b'
  | _, _ => 0
  end.
Definition compareUUID (a b : uuid) : Z :=
  compareBytes (vec_to_list a) (vec_to_list b).

Definition resetKey (c : Candidate) : option time :=
  match SevenDayPct c with
  | None => None
  | Some seven =>
    match FiveHourPct c with
    | Some five => if seven <=? five then FiveResetsAt c else SevenResetsAt c
    | None => SevenResetsAt c
    end
  end.

Definition tieLess (a b : Candidate) : bool :=
  match resetKey a, resetKey b with
  | Some _, None => true
  | None, Some _ => false
  | Some ta, Some tb =>
      if negb (Go.equal ta tb) then Go.before ta tb
      else compareUUID (SecretID a) (SecretID b) <? 0
  | None, None => compareUUID (SecretID a) (SecretID b) <? 0
  end.

Definition FutureWeeklyReset (r : option time) (now : time) : option time :=
  match r with
  | Some t => if Go.after t now then Some t else None
  | None => None
  end.

Definition resetFirstLess (now : time) (a b : scored) : bool :=
  let later :=
    if negb (rank a =? rank b) then rank b <? rank a
    else compareUUID (SecretID (c a)) (SecretID (c b)) <? 0 in
  match FutureWeeklyReset (WeeklyResetsAt (c a)) now,
        FutureWeeklyReset (WeeklyResetsAt (c b)) now with
  | Some _, None => true
  | None, Some _ => false
  | Some ra, Some rb => if negb (Go.equal ra rb) then Go.before ra rb else later
  | None, None => later
  end.

(** * Select *)

Record acc := mkAcc {
  pooled : bool; poolNonEmpty : bool; measured : list scored; anyEligible : bool;
}.

Definition excluded (exclude : uuid) (c : Candidate) : bool :=
  negb (bool_decide (exclude = Uuid.Nil)) && bool_decide (SecretID c = exclude).

(** One iteration of the loop that builds the measured set. *)
Definition selectStep (exclude : uuid) (p : Policy) (now : time)
    (s : acc) (c : Candidate) : acc :=
  if negb (AutoEligible c) then s else
  if excluded exclude c then mkAcc (pooled s) true (measured s) (anyEligible s) else
  let e := Classify c p now in
  if negb (Measured e) then mkAcc true true (measured s) (anyEligible s) else
  mkAcc true true
    (measured s ++ [mkScored c e (Headroom e - InflightPenalty p * InFlight c)])
    (if bool_decide (status e = StatusEligible) then true else anyEligible s).

(** The body of the keep-the-best pass over the cluster around [hstar]. *)
Definition clusterLess (hstar tie : Z) (m best : scored) : bool :=
  negb (tie <? hstar - rank m) &&
  ((tie <? hstar - rank best) || tieLess (c m) (c best)).

Definition outcome_of (pick : scored) (reason : Reason) (nonEmpty : bool) : Outcome :=
  mkOutcome true (SecretID (c pick)) (Headroom (e pick)) (rank pick) reason nonEmpty.

(** The greatest penalised rank of a non-empty slice: the anchor [H*]. *)
Definition anchor (s0 : scored) (rest : list scored) : Z :=
  foldl (λ h m, if h <? rank m then rank m else h) (rank s0) rest.

(** The tie tolerance, a negative one floored at zero. *)
Definition tolerance (p : Policy) : Z :=
  if HeadroomTiePct p <? 0 then 0 else HeadroomTiePct p.

(** The ranking of a non-empty candidate set. *)
Definition rankPick (p : Policy) (now : time) (reason : Reason)
    (s0 : scored) (rest : list scored) : scored :=
  match reason, order p with
  | ReasonAuto, OrderResetFirst => keep_best (resetFirstLess now) s0 rest
  | _, _ =>
    keep_best (clusterLess (anchor s0 rest) (tolerance p)) s0 (s0 :: rest)
  end.

Definition Select (cands : list Candidate) (exclude : uuid) (p : Policy) (now : time)
    : option Outcome :=
  let s := foldl (selectStep exclude p now) (mkAcc false false [] false) cands in
  if negb (pooled s) then
    Some (mkOutcome false Uuid.Nil 0 0 ReasonPoolEmpty (poolNonEmpty s)) else
  if bool_decide (measured s = []) then
    Some (mkOutcome false Uuid.Nil 0 0 ReasonPoolStale (poolNonEmpty s)) else
  let '(reason, set) :=
    if negb (anyEligible s) then (ReasonBestOfPool, measured s)
    else (ReasonAuto, filter (λ m, status (e m) = StatusEligible) (measured s)) in
  match set with
  | [] => None
  | s0 :: rest =>
    Some (outcome_of (rankPick p now reason s0 rest) reason (poolNonEmpty s))
  end.

(** * Floor and NextAvailable *)

Definition floorStep (exclude : uuid) (best : option Candidate) (c : Candidate)
    : option Candidate :=
  if negb (AutoEligible c) || Rejected c then best else
  if excluded exclude c then best else
  match best with
  | None => Some c
  | Some b => if tieLess c b then Some c else Some b
  end.

Definition Floor (cands : list Candidate) (exclude : uuid) : option uuid :=
  SecretID <$> foldl (floorStep exclude) None cands.

Definition BindingWindowReset (c : Candidate) : option time := resetKey c.

Definition consider (floor : option time) (t : time) : option time :=
  match floor with
  | None => Some t
  | Some f => if Go.before t f then Some t else Some f
  end.

Definition nextAvailableStep (exclude : uuid) (p : Policy) (now : time)
    (floor : option time) (c : Candidate) : option time :=
  if bool_decide (SecretID c = exclude) then floor else
  match status (Classify c p now) with
  | StatusEligible => consider floor now
  | StatusBelowThreshold =>
    match BindingWindowReset c with
    | Some r => consider floor r
    | None => floor
    end
  | _ => floor
  end.

Definition NextAvailable (cands : list Candidate) (exclude : uuid) (p : Policy)
    (now : time) : option time :=
  if bool_decide (exclude = Uuid.Nil) then None
  else foldl (nextAvailableStep exclude p now) None cands.

Definition AllReasons : list Reason :=
  [ReasonDefault; ReasonPinned; ReasonJudge; ReasonAuto; ReasonBestOfPool;
   ReasonPoolEmpty; ReasonPoolStale; ReasonOpenFailed; ReasonRunPinned;
   ReasonRunDefault].

Definition FellBackFromAuto (r : Reason) : bool :=
  match r with
  | ReasonPoolEmpty | ReasonPoolStale | ReasonOpenFailed => true
  | _ => false
  end.

(** * The orders are strict and total on distinct identifiers *)

Lemma compareBytes_antisym a b : compareBytes a b = - compareBytes b a.
Proof.
  revert b; induction a as [|x a IH]; intros [|y b]; simpl; [done..|].
  specialize (IH b). go_lia.
Qed.

Lemma compareBytes_eq a b :
  length a = length b → compareBytes a b = 0 → a = b.
Proof.
  revert b; induction a as [|x a IH]; intros [|y b] [=] Hc; simpl in *; [done|].
  go_cases; try lia. f_equal; [lia|eauto].
Qed.

Lemma compareBytes_trans a b d :
  length a = length b → length b = length d →
  0 <= compareBytes a b → 0 <= compareBytes b d → 0 <= compareBytes a d.
Proof.
  revert b d; induction a as [|x a IH]; intros [|y b] [|z d] [=] [=]; simpl; [done|].
  go_lia. by apply IH.
Qed.

Lemma compareUUID_antisym a b : compareUUID a b = - compareUUID b a.
Proof. apply compareBytes_antisym. Qed.

Lemma compareUUID_eq a b : compareUUID a b = 0 → a = b.
Proof.
  intros H. apply vec_to_list_inj2, compareBytes_eq; [|done].
  by rewrite !length_vec_to_list.
Qed.

Lemma compareUUID_trans a b d :
  0 <= compareUUID a b → 0 <= compareUUID b d → 0 <= compareUUID a d.
Proof. apply compareBytes_trans; by rewrite !length_vec_to_list. Qed.

Ltac uuid_facts a b d :=
  pose proof (compareUUID_antisym a b); pose proof (compareUUID_antisym b d);
  pose proof (compareUUID_antisym a d); pose proof (compareUUID_trans a b d).

#[export] Instance tieLess_strict : StrictWeak tieLess.
Proof.
  split.
  - intros x y. pose proof (compareUUID_antisym (SecretID x) (SecretID y)).
    rewrite /tieLess /Go.equal /Go.before. go_lia.
  - intros x y z. uuid_facts (SecretID x) (SecretID y) (SecretID z).
    rewrite /tieLess /Go.equal /Go.before. go_lia.
Qed.

#[export] Instance resetFirstLess_strict now : StrictWeak (resetFirstLess now).
Proof.
  split.
  - intros x y. pose proof (compareUUID_antisym (SecretID (c x)) (SecretID (c y))).
    rewrite /resetFirstLess /Go.equal /Go.before. go_lia.
  - intros x y z. uuid_facts (SecretID (c x)) (SecretID (c y)) (SecretID (c z)).
    rewrite /resetFirstLess /Go.equal /Go.before. go_lia.
Qed.

Lemma tieLess_tie a b :
  tieLess a b = false → tieLess b a = false → SecretID a = SecretID b.
Proof.
  intros H1 H2. apply compareUUID_eq. revert H1 H2.
  pose proof (compareUUID_antisym (SecretID a) (SecretID b)).
  rewrite /tieLess /Go.equal /Go.before. go_lia.
Qed.

Lemma resetFirstLess_tie now a b :
  resetFirstLess now a b = false → resetFirstLess now b a = false →
  SecretID (c a) = SecretID (c b).
Proof.
  intros H1 H2. apply compareUUID_eq. revert H1 H2.
  pose proof (compareUUID_antisym (SecretID (c a)) (SecretID (c b))).
  rewrite /resetFirstLess /Go.equal /Go.before. go_lia.
Qed.

(** ** The orders, said of the rows *)
(** [None] is an instant that never comes. *)
Definition sooner (a b : option time) : Prop :=
  match a, b with
  | Some x, Some y => x < y
  | Some _, None => True
  | None, _ => False
  end.

(** Ids compare as their sixteen bytes do. *)
Inductive lexBefore : list Z → list Z → Prop :=
  | lex_here x y a b : x < y → lexBefore (x :: a) (y :: b)
  | lex_later x a b : lexBefore a b → lexBefore (x :: a) (x :: b).
Definition idBefore (a b : uuid) : Prop := lexBefore (vec_to_list a) (vec_to_list b).
Lemma idBefore_compare a b : idBefore a b ↔ compareUUID a b < 0.
Proof.
  rewrite /idBefore /compareUUID. generalize (vec_to_list a) (vec_to_list b). clear. intros a. induction a as [|x a IH]; intros [|y b]; simpl.
  1-3: split; [by inversion 1|intros; lia]. specialize (IH b). split.
  - intros Hl. inversion Hl; subst; go_cases; try lia. by apply IH.
  - intros Hc. destruct (Z.ltb_spec x y); [by apply lex_here|]. destruct (Z.ltb_spec y x); [lia|].
    assert (x = y) as <- by lia. by apply lex_later, IH.
Qed.

(** The reset of the window that binds: the fuller one, the five-hour one when they
    are level. *)
Definition replenished (cd : Candidate) : option time :=
  match SevenDayPct cd, FiveHourPct cd with
  | Some seven, Some five => if decide (five < seven) then SevenResetsAt cd else FiveResetsAt cd
  | Some _, None => SevenResetsAt cd
  | None, _ => None
  end.
Definition replenishedBefore (a b : Candidate) : Prop := sooner (replenished a) (replenished b) ∨
  replenished a = replenished b ∧ idBefore (SecretID a) (SecretID b).
Lemma resetKey_spec cd : resetKey cd = replenished cd.
Proof. rewrite /resetKey /replenished. destruct (SevenDayPct cd), (FiveHourPct cd); try done. case_decide; go_lia. Qed.
Lemma tieLess_spec a b : tieLess a b = true ↔ replenishedBefore a b.
Proof.
  rewrite /tieLess /replenishedBefore !resetKey_spec idBefore_compare /Go.equal /Go.before.
  destruct (replenished a) as [x|], (replenished b) as [y|]; simpl; [|naive_solver|naive_solver|rewrite Z.ltb_lt; naive_solver].
  destruct (Z.eqb_spec x y) as [->|Hne]; simpl; rewrite Z.ltb_lt; [|naive_solver]. split; [by right|]. intros [?|[_ ?]]; [lia|done].
Qed.

(** * What the loop of [Select] collects *)

Section Selecting.
Context (exclude : uuid) (p : Policy) (now : time).

Definition score (cd : Candidate) : scored :=
  let el := Classify cd p now in
  mkScored cd el (Headroom el - InflightPenalty p * InFlight cd).

(** Pool members that may still be picked: opted in and not the excluded one. *)
Definition in_pool (cd : Candidate) : bool := AutoEligible cd && negb (excluded exclude cd).
Definition measurable (cd : Candidate) : bool :=
  in_pool cd && Measured (Classify cd p now).
Definition spendable (cd : Candidate) : bool :=
  measurable cd && bool_decide (status (Classify cd p now) = StatusEligible).

Definition collect (cands : list Candidate) : acc :=
  mkAcc (existsb in_pool cands) (existsb AutoEligible cands)
        (omap (λ cd, if measurable cd then Some (score cd) else None) cands)
        (existsb spendable cands).

Lemma selectStep_foldl s cands :
  foldl (selectStep exclude p now) s cands =
  let s' := collect cands in
  mkAcc (pooled s || pooled s') (poolNonEmpty s || poolNonEmpty s')
        (measured s ++ measured s') (anyEligible s || anyEligible s').
Proof.
  revert s; induction cands as [|cd cands IH]; intros [po ne me an]; simpl.
  { by rewrite !orb_false_r app_nil_r. }
  rewrite IH /collect /selectStep /spendable /measurable /in_pool /score /=.
  destruct (AutoEligible cd); simpl; [|done].
  destruct (excluded exclude cd); simpl; [by rewrite ?orb_true_r|].
  destruct (Measured (Classify cd p now)); simpl; [|by rewrite ?orb_true_r].
  rewrite !orb_true_r -assoc /=. f_equal.
  destruct (bool_decide _); by rewrite ?orb_true_r.
Qed.

Lemma collect_measured cands m :
  m ∈ measured (collect cands) ↔ ∃ cd, cd ∈ cands ∧ measurable cd = true ∧ m = score cd.
Proof.
  rewrite /= list_elem_of_omap. split; intros (cd & Hcd & Hm); exists cd.
  - destruct (measurable cd); naive_solver.
  - destruct Hm as [-> ->]. done.
Qed.

(** The greatest rank of a non-empty set. *)
Lemma anchor_spec s0 rest :
  let h := anchor s0 rest in
  (∀ m, m ∈ s0 :: rest → rank m <= h) ∧ ∃ m, m ∈ s0 :: rest ∧ rank m = h.
Proof.
  rewrite /anchor. revert s0. induction rest as [|x rest IH]; intros s0; simpl.
  { split; [intros m ->%list_elem_of_singleton; lia|exists s0; set_solver]. }
  replace (if rank s0 <? rank x then rank x else rank s0)
    with (rank (if rank s0 <? rank x then x else s0)) by (by case_match).
  destruct (IH (if rank s0 <? rank x then x else s0)) as [Hub (m & Hm & Hr)].
  split.
  - intros m' Hm'. set (b := if rank s0 <? rank x then x else s0) in *.
    assert (Hb : rank s0 <= rank b ∧ rank x <= rank b) by (subst b; go_lia).
    pose proof (Hub b ltac:(set_solver)).
    rewrite !elem_of_cons in Hm'. destruct Hm' as [->|[->|Hm']]; [lia..|].
    apply Hub. set_solver.
  - exists m. split; [|done]. case_match; set_solver.
Qed.

#[export] Instance clusterLess_strict hstar tie : StrictWeak (clusterLess hstar tie).
Proof.
  split; [intros x y|intros x y z]; rewrite /clusterLess.
  - pose proof (less_asym (less := tieLess) (c x) (c y)).
    destruct (tie <? hstar - rank x), (tie <? hstar - rank y); simpl; auto; done.
  - pose proof (less_negtrans (less := tieLess) (c x) (c y) (c z)).
    destruct (tie <? hstar - rank x), (tie <? hstar - rank y), (tie <? hstar - rank z);
      simpl; auto; done.
Qed.

(** * What [Select] picks, by the gate and the orders of the code

    [None] stands for "no known upcoming weekly reset" and comes last. *)
Definition weekly_key (cd : Candidate) : option time :=
  FutureWeeklyReset (WeeklyResetsAt cd) now.

(** [cd] is at least as good as [cd'] for [reset_first]: its weekly reset is
    not later; on equal resets its penalised rank is not lower; on equal ranks
    its identifier is not greater. *)
Definition reset_first_best (cd cd' : Candidate) : Prop :=
  ¬ sooner (weekly_key cd') (weekly_key cd) ∧
  (¬ sooner (weekly_key cd) (weekly_key cd') →
    rank (score cd') <= rank (score cd) ∧
    (rank (score cd') = rank (score cd) →
      compareUUID (SecretID cd) (SecretID cd') <= 0)).

(** [cd] lies within the tolerance of every competitor in [set]. *)
Definition within_tie (set : Candidate → Prop) (cd : Candidate) : Prop :=
  ∀ cd', set cd' →
    rank (score cd') - rank (score cd) <= Z.max 0 (HeadroomTiePct p).

Inductive picks (cands : list Candidate) : Outcome → Prop :=
  | picks_empty :
      (∀ cd, cd ∈ cands → in_pool cd = false) →
      picks cands
        (mkOutcome false Uuid.Nil 0 0 ReasonPoolEmpty (existsb AutoEligible cands))
  | picks_stale cd :
      cd ∈ cands → in_pool cd = true →
      (∀ cd', cd' ∈ cands → measurable cd' = false) →
      picks cands
        (mkOutcome false Uuid.Nil 0 0 ReasonPoolStale (existsb AutoEligible cands))
  | picks_reset_first cd :
      order p = OrderResetFirst →
      cd ∈ cands → spendable cd = true →
      (∀ cd', cd' ∈ cands → spendable cd' = true → reset_first_best cd cd') →
      picks cands (outcome_of (score cd) ReasonAuto (existsb AutoEligible cands))
  | picks_headroom_first cd (set : Candidate → Prop) reason :
      (* the competitors: the eligible pool, or, when it is empty, the measured one *)
      (reason = ReasonAuto ∧ order p = OrderHeadroomFirst ∧
       (∀ cd', set cd' ↔ cd' ∈ cands ∧ spendable cd' = true)
       ∨ reason = ReasonBestOfPool ∧
         (∀ cd', cd' ∈ cands → spendable cd' = false) ∧
         (∀ cd', set cd' ↔ cd' ∈ cands ∧ measurable cd' = true)) →
      set cd → within_tie set cd →
      (∀ cd', set cd' → within_tie set cd' → tieLess cd' cd = false) →
      picks cands (outcome_of (score cd) reason (existsb AutoEligible cands)).

Lemma resetFirst_best cd cd' :
  resetFirstLess now (score cd') (score cd) = false → reset_first_best cd cd'.
Proof.
  pose proof (compareUUID_antisym (SecretID cd) (SecretID cd')).
  rewrite /resetFirstLess /reset_first_best /weekly_key /sooner /Go.equal /Go.before /=.
  intros Hl. split; [|split]; revert Hl; go_cases; intros; simpl in *; try tauto; lia.
Qed.

(** The cluster pass over a non-empty set of scored candidates keeps one that
    is within the tolerance and first among those that are. *)
Lemma cluster_pick (set : Candidate → Prop) s0 rest :
  (∀ m, m ∈ s0 :: rest ↔ ∃ cd, set cd ∧ m = score cd) →
  ∃ cd, keep_best (clusterLess (anchor s0 rest) (tolerance p)) s0 (s0 :: rest) = score cd ∧
    set cd ∧ within_tie set cd ∧
    ∀ cd', set cd' → within_tie set cd' → tieLess cd' cd = false.
Proof.
  intros Hset. set (hstar := anchor s0 rest). set (tie := tolerance p).
  destruct (anchor_spec s0 rest) as [Hub (mx & Hmx & Hmxr)]. fold hstar in Hub, Hmxr.
  set (k := keep_best _ _ _).
  assert (Hk : k ∈ s0 :: rest).
  { pose proof (keep_best_elem (clusterLess hstar tie) s0 (s0 :: rest)); set_solver. }
  assert (Hbest : ∀ m, m ∈ s0 :: rest → clusterLess hstar tie m k = false).
  { intros m Hm. apply keep_best_least; [apply _|set_solver]. }
  assert (Htie : tie = Z.max 0 (HeadroomTiePct p)) by (rewrite /tie /tolerance; go_lia).
  assert (Hwt : ∀ cd, set cd → within_tie set cd ↔ hstar - rank (score cd) <= tie).
  { intros cd Hcd. rewrite /within_tie -Htie. split.
    - intros H. apply Hset in Hmx as (cx & Hcx & ->). specialize (H cx Hcx). lia.
    - intros H cd' Hcd'. assert (H1 : score cd' ∈ s0 :: rest) by (apply Hset; eauto).
      specialize (Hub (score cd') H1). lia. }
  destruct (proj1 (Hset k) Hk) as (cd & Hcd & Hkcd). exists cd. split; [done|split; [done|]].
  assert (Hin : hstar - rank (score cd) <= tie).
  { specialize (Hbest mx Hmx). revert Hbest. rewrite /clusterLess Hkcd.
    destruct (Z.ltb_spec tie (hstar - rank mx)), (Z.ltb_spec tie (hstar - rank (score cd)));
      simpl; (done || lia). }
  split; [by apply Hwt|]. intros cd' Hcd' Hw. apply Hwt in Hw; [|done].
  specialize (Hbest (score cd') ltac:(apply Hset; eauto)). revert Hbest.
  rewrite /clusterLess Hkcd.
  destruct (Z.ltb_spec tie (hstar - rank (score cd'))); [lia|]. simpl.
  by intros [_ ?]%orb_false_iff.
Qed.

Lemma Select_unfold cands :
  Select cands exclude p now =
  let s := collect cands in
  if negb (pooled s) then
    Some (mkOutcome false Uuid.Nil 0 0 ReasonPoolEmpty (poolNonEmpty s)) else
  if bool_decide (measured s = []) then
    Some (mkOutcome false Uuid.Nil 0 0 ReasonPoolStale (poolNonEmpty s)) else
  let '(reason, set) :=
    if negb (anyEligible s) then (ReasonBestOfPool, measured s)
    else (ReasonAuto, filter (λ m, status (e m) = StatusEligible) (measured s)) in
  match set with
  | [] => None
  | s0 :: rest =>
    Some (outcome_of (rankPick p now reason s0 rest) reason (poolNonEmpty s))
  end.
Proof. by rewrite /Select selectStep_foldl. Qed.

(** The eligible subset the [ReasonAuto] branch ranks. *)
Lemma eligible_set cands m :
  m ∈ filter (λ m, status (e m) = StatusEligible) (measured (collect cands)) ↔
  ∃ cd, (cd ∈ cands ∧ spendable cd = true) ∧ m = score cd.
Proof.
  rewrite list_elem_of_filter collect_measured /spendable. split.
  - intros (Hs & cd & Hcd & Hm & ->). exists cd. rewrite Hm bool_decide_eq_true_2; done.
  - intros (cd & [Hcd [Hm Hs%bool_decide_eq_true]%andb_prop] & ->). eauto.
Qed.

(** On every input [Select] returns: no index is ever out of range. *)
Lemma Select_picked cands :
  ∃ o, Select cands exclude p now = Some o ∧ picks cands o.
Proof.
  rewrite Select_unfold /=.
  destruct (existsb in_pool cands) eqn:Hpool; simpl.
  2:{ eexists; split; [done|]. apply picks_empty. by apply existsb_false. }
  apply existsb_true in Hpool as (cp & Hcp & Hin).
  case_bool_decide as Hme.
  { eexists; split; [done|]. eapply picks_stale; [done..|]. intros cd Hcd.
    destruct (measurable cd) eqn:Hm; [|done].
    assert (Hx : score cd ∈ measured (collect cands)) by (apply collect_measured; eauto).
    rewrite /= Hme in Hx. set_solver. }
  destruct (existsb spendable cands) eqn:Hel; simpl.
  - apply existsb_true in Hel as (ce & Hce & Hsp).
    pose proof (eligible_set cands) as Hset. simpl in Hset.
    destruct (filter _ _) as [|s0 rest].
    { exfalso. assert (Hx : score ce ∈ @nil scored) by (apply Hset; eauto). set_solver. }
    eexists; split; [done|]. rewrite /rankPick. destruct (order p) eqn:Ho.
    + pose proof (keep_best_elem (resetFirstLess now) s0 rest) as Hk.
      pose proof (keep_best_least (resetFirstLess now) s0 rest) as Hb.
      apply Hset in Hk as (cd & [Hcd Hs] & Hk). rewrite Hk in Hb. rewrite Hk.
      apply picks_reset_first; [done..|]. intros cd' Hcd' Hs'.
      apply resetFirst_best, Hb, Hset. eauto.
    + destruct (cluster_pick _ _ _ Hset) as (cd & -> & ? & ? & ?).
      eapply (picks_headroom_first _ _ (λ cd, cd ∈ cands ∧ spendable cd = true)); auto.
  - pose proof (collect_measured cands) as Hset. simpl in Hset.
    destruct (omap _ _) as [|s0 rest]; [done|].
    assert (Hset' : ∀ m, m ∈ s0 :: rest ↔
      ∃ cd, (cd ∈ cands ∧ measurable cd = true) ∧ m = score cd) by naive_solver.
    destruct (cluster_pick _ _ _ Hset') as (cd & Hk & ? & ? & ?).
    eexists; split; [done|]. rewrite /rankPick Hk.
    eapply (picks_headroom_first _ _ (λ cd, cd ∈ cands ∧ measurable cd = true)); auto.
    right. split_and!; [done|by apply existsb_false|done].
Qed.

(** * What [Select] promises, in terms of the rows

    The gate: a row of the pool that may be picked, one whose allowance is known and
    recent, and one with enough of it left. *)
Definition candidate (cd : Candidate) : Prop := AutoEligible cd = true ∧ (exclude = Uuid.Nil ∨ SecretID cd ≠ exclude).
(** The age of a reading is counted up to the greatest duration. *)
Definition recent (cd : Candidate) : Prop := HasReading cd = true ∧
  ∃ t, SyncedAt cd = Some t ∧ 0 < MaxStaleness p ∧ Z.min Go.maxDuration (now - t) <= MaxStaleness p.
(** What is left of the fuller of the two windows. *)
Definition room (cd : Candidate) : option Z :=
  (λ seven, 100 - Z.max seven (default seven (FiveHourPct cd))) <$> SevenDayPct cd.
Definition known (cd : Candidate) (h : Z) : Prop := candidate cd ∧ Rejected cd = false ∧ recent cd ∧ room cd = Some h.
Definition ample (cd : Candidate) (h : Z) : Prop := known cd h ∧ MinHeadroom p <= h.
(** What it counts for, less what is already being spent. *)
Definition weight (cd : Candidate) (h : Z) : Z := h - InflightPenalty p * InFlight cd.

(** By its weekly reset: the soonest that is still to come; then the one that counts
    for more; then the smaller id. *)
Definition upcoming (cd : Candidate) : option time :=
  match WeeklyResetsAt cd with Some t => if decide (now < t) then Some t else None | None => None end.
Definition resetBefore (cd : Candidate) (h : Z) (cd' : Candidate) (h' : Z) : Prop :=
  sooner (upcoming cd) (upcoming cd') ∨ upcoming cd = upcoming cd' ∧
  (weight cd' h' < weight cd h ∨ weight cd h = weight cd' h' ∧ idBefore (SecretID cd) (SecretID cd')).

(** By what it counts for: within the tolerance of every other, and of those the one
    that is replenished first. *)
Definition level (set : Candidate → Z → Prop) (cd : Candidate) (h : Z) : Prop :=
  set cd h ∧ ∀ cd' h', set cd' h' → weight cd' h' <= weight cd h + Z.max 0 (HeadroomTiePct p).

Inductive selects (cands : list Candidate) (nonEmpty : bool) : Outcome → Prop :=
  | selects_empty : (∀ cd, cd ∈ cands → ¬ candidate cd) →
      selects cands nonEmpty (mkOutcome false Uuid.Nil 0 0 ReasonPoolEmpty nonEmpty)
  | selects_stale cd : cd ∈ cands → candidate cd → (∀ cd' h, cd' ∈ cands → ¬ known cd' h) →
      selects cands nonEmpty (mkOutcome false Uuid.Nil 0 0 ReasonPoolStale nonEmpty)
  | selects_reset_first cd h : order p = OrderResetFirst → cd ∈ cands → ample cd h →
      (∀ cd' h', cd' ∈ cands → ample cd' h' → ¬ resetBefore cd' h' cd h) →
      selects cands nonEmpty (mkOutcome true (SecretID cd) h (weight cd h) ReasonAuto nonEmpty)
  | selects_headroom_first cd h :
      let set cd h := cd ∈ cands ∧ ample cd h in
      order p = OrderHeadroomFirst → level set cd h → (∀ cd' h', level set cd' h' → ¬ replenishedBefore cd' cd) →
      selects cands nonEmpty (mkOutcome true (SecretID cd) h (weight cd h) ReasonAuto nonEmpty)
  | selects_best_of_pool cd h :
      let set cd h := cd ∈ cands ∧ known cd h in
      (∀ cd' h', cd' ∈ cands → ¬ ample cd' h') →
      level set cd h → (∀ cd' h', level set cd' h' → ¬ replenishedBefore cd' cd) →
      selects cands nonEmpty (mkOutcome true (SecretID cd) h (weight cd h) ReasonBestOfPool nonEmpty).

(** ** The gate and the orders of the code are those *)
Lemma in_pool_spec cd : in_pool cd = true ↔ candidate cd.
Proof.
  rewrite /in_pool /candidate /excluded. destruct (AutoEligible cd); simpl; [|naive_solver].
  do 2 case_bool_decide; simpl; naive_solver.
Qed.
Lemma headroom_spec five seven : headroom five seven = 100 - Z.max seven (default seven five).
Proof. rewrite /headroom. destruct five as [f|]; simpl; [|lia]. go_lia. Qed.
Lemma stale_spec d t : (d <=? 0) || (d <? Go.sub now t) = false ↔ 0 < d ∧ Z.min Go.maxDuration (now - t) <= d.
Proof. rewrite /Go.sub /Go.minDuration. rewrite orb_false_iff Z.leb_gt Z.ltb_ge. lia. Qed.
Lemma Classify_spec cd : match Classify cd p now with
  | mkEligibility st true h => Rejected cd = false ∧ recent cd ∧ room cd = Some h ∧ (st = StatusEligible ↔ MinHeadroom p <= h)
  | mkEligibility st false _ => st ≠ StatusEligible ∧ (AutoEligible cd = true → Rejected cd = false → recent cd → room cd = None)
  end.
Proof.
  rewrite /Classify /recent /room /ineligible. destruct (AutoEligible cd); simpl; [|done]. destruct (Rejected cd); simpl; [done|].
  destruct (HasReading cd); simpl; [|by split; [|intros _ _ [? _]]]. destruct (SyncedAt cd) as [t|]; [|by split; [|intros _ _ (_ & t & ? & _)]].
  destruct (SevenDayPct cd) as [seven|]; simpl; [|done]. destruct (_ || _) eqn:E.
  - split; [done|]. intros _ _ (_ & t' & [= <-] & Hr). apply stale_spec in Hr. congruence.
  - apply stale_spec in E as [? ?]. rewrite -headroom_spec. destruct (Z.ltb_spec (headroom (FiveHourPct cd) seven) (MinHeadroom p)).
    all: split_and!; [done|done|by exists t|done|]. all: split; [done|lia] || (split; [lia|done]).
Qed.
Lemma measurable_spec cd : measurable cd = true ↔ ∃ h, known cd h.
Proof.
  rewrite /measurable andb_true_iff in_pool_spec /known. pose proof (Classify_spec cd) as Hc. destruct (Classify cd p now) as [st [] h]; simpl.
  - naive_solver.
  - destruct Hc as [_ Hn]. split; [by intros [_ ?]|]. intros (h' & [Ha ?] & Hr & Hf & Hh). by rewrite (Hn Ha Hr Hf) in Hh.
Qed.
Lemma known_score cd h : known cd h → measurable cd = true ∧ Headroom (Classify cd p now) = h ∧ rank (score cd) = weight cd h.
Proof.
  intros Hk. assert (measurable cd = true) as Hm by (apply measurable_spec; eauto). split; [done|].
  rewrite /score /=. rewrite /measurable andb_true_iff in Hm. pose proof (Classify_spec cd) as Hc. destruct Hk as (_ & _ & _ & Hr).
  destruct (Classify cd p now) as [st [] h']; simpl in *; [|by destruct Hm]. destruct Hc as (_ & _ & Hr' & _).
  rewrite Hr in Hr'. injection Hr' as <-. done.
Qed.
Lemma spendable_spec cd : spendable cd = true ↔ ∃ h, ample cd h.
Proof.
  rewrite /spendable andb_true_iff bool_decide_eq_true measurable_spec. pose proof (Classify_spec cd) as Hc. split.
  - intros [[h Hk] He]. exists h. split; [done|]. destruct (known_score cd h Hk) as (_ & <- & _).
    destruct (Classify cd p now) as [st [] h']; simpl in *; [|by destruct Hc]. by apply Hc.
  - intros (h & Hk & Hh). split; [by exists h|]. destruct (known_score cd h Hk) as (Hm & Hh' & _).
    rewrite /measurable andb_true_iff in Hm. destruct (Classify cd p now) as [st [] h']; simpl in *; [|by destruct Hm].
    apply Hc. by subst.
Qed.
Lemma weekly_spec cd : weekly_key cd = upcoming cd.
Proof. rewrite /weekly_key /upcoming /FutureWeeklyReset /Go.after. destruct (WeeklyResetsAt cd) as [t|]; [|done]. case_decide; go_lia. Qed.
Lemma reset_first_spec cd h cd' h' : known cd h → known cd' h' → reset_first_best cd cd' → ¬ resetBefore cd' h' cd h.
Proof.
  intros (_ & _ & Hr)%known_score (_ & _ & Hr')%known_score. rewrite /reset_first_best Hr Hr' !weekly_spec. intros [H1 H2] [H|[He H]]; [done|].
  destruct H2 as [H2 H3]; [rewrite He /sooner; destruct (upcoming cd); lia || tauto|]. destruct H as [H|[E H]]; [lia|].
  apply idBefore_compare in H. rewrite compareUUID_antisym in H. specialize (H3 E). lia.
Qed.

(** The cluster of the code is the level rows. *)
Lemma level_spec (set : Candidate → Prop) (Q : Candidate → Z → Prop) :
  (∀ cd, set cd ↔ ∃ h, Q cd h) → (∀ cd h, Q cd h → known cd h) → ∀ cd h, Q cd h → within_tie set cd ↔ level Q cd h.
Proof.
  intros Hs Hk cd h Hq. destruct (known_score cd h (Hk _ _ Hq)) as (_ & _ & Hr). rewrite /within_tie /level Hr. split.
  - intros Hw. split; [done|]. intros cd' h' Hq'. destruct (known_score cd' h' (Hk _ _ Hq')) as (_ & _ & Hr').
    specialize (Hw cd' (proj2 (Hs cd') (ex_intro _ h' Hq'))). lia.
  - intros [_ Hw] cd' (h' & Hq')%Hs. destruct (known_score cd' h' (Hk _ _ Hq')) as (_ & _ & Hr'). specialize (Hw cd' h' Hq'). lia.
Qed.
Lemma picked_level (set : Candidate → Prop) (Q : Candidate → Z → Prop) cd :
  (∀ cd, set cd ↔ ∃ h, Q cd h) → (∀ cd h, Q cd h → known cd h) → set cd → within_tie set cd →
  (∀ cd', set cd' → within_tie set cd' → tieLess cd' cd = false) →
  ∃ h, outcome_of (score cd) = (λ r b, mkOutcome true (SecretID cd) h (weight cd h) r b) ∧
    level Q cd h ∧ ∀ cd' h', level Q cd' h' → ¬ replenishedBefore cd' cd.
Proof.
  intros Hs Hk (h & Hq)%Hs Hw Hb. destruct (known_score cd h (Hk _ _ Hq)) as (_ & Hh & Hr). exists h. split_and!.
  - rewrite /outcome_of Hr -Hh. done.
  - by apply (level_spec set Q Hs Hk).
  - intros cd' h' Hl. rewrite -tieLess_spec Hb //; [by apply Hs; exists h'; destruct Hl|]. by apply (level_spec set Q Hs Hk cd' h'); [destruct Hl|].
Qed.

(** C34. [Select] is total and keeps its contract, which is stated on the rows: with no
    opted-in row but the excluded one it picks none ([pool_empty]), and with none whose
    reading is recent and complete it picks none either ([pool_stale]).  Otherwise it
    picks one of those, with what is left of its fuller window: of the rows with enough
    left the one whose weekly reset comes first, or the one that is replenished first
    among those within the tolerance of the best, as the policy has it; and when none
    has enough left, the latter of all of them.  Ties go to the smaller id. *)
Theorem Select_correct cands :
  ∃ o nonEmpty, Select cands exclude p now = Some o ∧ (nonEmpty = true ↔ ∃ cd, cd ∈ cands ∧ AutoEligible cd = true) ∧
    selects cands nonEmpty o.
Proof.
  destruct (Select_picked cands) as (o & Ho & Hp). exists o, (existsb AutoEligible cands). split; [done|]. split; [apply existsb_true|].
  destruct Hp as [He|cd Hcd Hpool Hm|cd Hord Hcd Hs Hb|cd set reason Hset Hs Hw Hb].
  - apply selects_empty. intros cd Hcd Hc%in_pool_spec. by rewrite He in Hc.
  - apply (selects_stale _ _ cd); [done|by apply in_pool_spec|]. intros cd' h Hcd' Hk.
    specialize (Hm cd' Hcd'). rewrite -not_true_iff_false measurable_spec in Hm. apply Hm. by exists h.
  - apply spendable_spec in Hs as [h Ha]. destruct (known_score cd h (proj1 Ha)) as (_ & Hh & Hr). rewrite /outcome_of Hr.
    change (Headroom (e (score cd))) with (Headroom (Classify cd p now)). rewrite Hh. apply selects_reset_first; [done..|].
    intros cd' h' Hcd' Ha'. apply reset_first_spec; [by destruct Ha|by destruct Ha'|]. apply Hb; [done|]. apply spendable_spec. by exists h'.
  - destruct Hset as [(-> & Hord & Hset)|(-> & Hnone & Hset)].
    + destruct (picked_level set (λ cd h, cd ∈ cands ∧ ample cd h) cd) as (h & -> & Hl & Hb'); [..|by apply selects_headroom_first]; try done.
      * intros cd'. rewrite Hset spendable_spec. naive_solver.
      * by intros cd' h [_ [? _]].
    + destruct (picked_level set (λ cd h, cd ∈ cands ∧ known cd h) cd) as (h & -> & Hl & Hb'); [..|apply selects_best_of_pool]; try done.
      * intros cd'. rewrite Hset measurable_spec. naive_solver.
      * by intros cd' h [_ ?].
      * intros cd' h' Hcd' Ha. specialize (Hnone cd' Hcd'). rewrite -not_true_iff_false spendable_spec in Hnone. apply Hnone. by exists h'.
Qed.

(** Two candidates of the pool are never tied unless they are the same row. *)
Lemma scored_tie cands m m' :
  NoDup (SecretID <$> cands) →
  m ∈ measured (collect cands) → m' ∈ measured (collect cands) →
  SecretID (c m) = SecretID (c m') → m = m'.
Proof.
  intros Hnd (cd & Hcd & _ & ->)%collect_measured (cd' & Hcd' & _ & ->)%collect_measured Hid.
  simpl in Hid. by rewrite (NoDup_fmap_elem _ _ _ _ Hnd Hcd Hcd' Hid).
Qed.

(** An element no one beats lies in the cluster, so the tie-break decides. *)
Lemma cluster_tie hstar tie mx x y :
  0 <= tie → rank mx = hstar →
  clusterLess hstar tie mx x = false → clusterLess hstar tie x y = false →
  tieLess (c x) (c y) = false.
Proof.
  intros Ht Hr. rewrite /clusterLess.
  destruct (Z.ltb_spec tie (hstar - rank mx)), (Z.ltb_spec tie (hstar - rank x)),
    (Z.ltb_spec tie (hstar - rank y)); simpl; try done; lia.
Qed.

(** The ranking of a set in which ids are distinct depends on the set only. *)
Lemma rankPick_perm reason s0 rest s0' rest' :
  (∀ m m', m ∈ s0 :: rest → m' ∈ s0 :: rest → SecretID (c m) = SecretID (c m') → m = m') →
  s0 :: rest ≡ₚ s0' :: rest' →
  rankPick p now reason s0 rest = rankPick p now reason s0' rest'.
Proof.
  intros Hid Hp.
  assert (Hset : ∀ m, m ∈ s0 :: rest ↔ m ∈ s0' :: rest') by (intros m; by rewrite Hp).
  assert (Ha : anchor s0 rest = anchor s0' rest').
  { destruct (anchor_spec s0 rest) as [H1 (m1 & Hm1 & E1)].
    destruct (anchor_spec s0' rest') as [H2 (m2 & Hm2 & E2)].
    apply Hset in Hm1. apply Hset in Hm2. specialize (H1 _ Hm2). specialize (H2 _ Hm1). lia. }
  assert (Hcluster : ∀ tie, 0 <= tie → keep_best (clusterLess (anchor s0 rest) tie) s0 (s0 :: rest) =
                            keep_best (clusterLess (anchor s0' rest') tie) s0' (s0' :: rest')).
  { intros tie Ht. rewrite -Ha. destruct (anchor_spec s0 rest) as [_ (mx & Hmx & E)].
    assert (Hss : ∀ m, m ∈ s0 :: s0 :: rest ↔ m ∈ s0 :: rest) by set_solver.
    apply keep_best_set_unique; [apply _| |set_solver].
    intros x y Hx Hy Hlx Hly. rewrite -> Hss in Hx, Hy.
    apply Hid; [done..|]. apply tieLess_tie.
    - eapply (cluster_tie _ _ mx); [done..| |]; [apply Hlx|apply Hly]; by apply Hss.
    - eapply (cluster_tie _ _ mx); [done..| |]; [apply Hly|apply Hlx]; by apply Hss. }
  specialize (Hcluster (tolerance p) ltac:(rewrite /tolerance; go_lia)).
  rewrite /rankPick. destruct reason, (order p); try done.
  apply keep_best_set_unique; [apply _| |done].
  intros x y Hx Hy H1 H2. apply Hid; [done..|]. by eapply resetFirstLess_tie; eauto.
Qed.

(** Any permutation of rows with distinct ids gives the same outcome. *)
Lemma Select_perm cands cands' :
  NoDup (SecretID <$> cands) → cands ≡ₚ cands' →
  Select cands exclude p now = Select cands' exclude p now.
Proof.
  intros Hnd Hp. rewrite !Select_unfold. cbv zeta.
  assert (Hme : measured (collect cands) ≡ₚ measured (collect cands')) by (by rewrite /= Hp).
  pose proof (λ m m', scored_tie cands m m' Hnd) as Htie.
  replace (pooled (collect cands')) with (pooled (collect cands)) by by apply existsb_perm.
  replace (poolNonEmpty (collect cands')) with (poolNonEmpty (collect cands))
    by by apply existsb_perm.
  replace (anyEligible (collect cands')) with (anyEligible (collect cands))
    by by apply existsb_perm.
  generalize dependent (measured (collect cands)). intros me Hme Htie.
  generalize dependent (measured (collect cands')). intros me' Hme.
  assert (Hnil : me = [] ↔ me' = []).
  { split; intros ->; [symmetry; by apply Permutation_nil_l|by apply Permutation_nil_r]. }
  simpl. destruct (existsb in_pool cands); [|done]. simpl.
  do 2 case_bool_decide; try tauto.
  destruct (existsb spendable cands); simpl.
  - assert (Hf : filter (λ m, status (e m) = StatusEligible) me ≡ₚ
                 filter (λ m, status (e m) = StatusEligible) me') by by rewrite Hme.
    assert (Hsub : ∀ m, m ∈ filter (λ m, status (e m) = StatusEligible) me → m ∈ me).
    { intros m [_ ?]%list_elem_of_filter; done. }
    destruct (filter _ me) as [|s0 rest], (filter _ me') as [|s0' rest'];
      [done|by apply Permutation_nil_cons in Hf|
       by symmetry in Hf; apply Permutation_nil_cons in Hf|].
    do 2 f_equal. apply (rankPick_perm ReasonAuto); auto.
  - destruct me as [|s0 rest], me' as [|s0' rest']; [done..|].
    do 2 f_equal. apply (rankPick_perm ReasonBestOfPool); auto.
Qed.

(** The pick does not depend on the order in which the store returned the
    rows: any permutation of a candidate list whose secret ids are distinct
    (they are primary keys) gives the same outcome. *)
Theorem Select_order_independent cands cands' :
  NoDup (SecretID <$> cands) → cands ≡ₚ cands' →
  Select cands exclude p now = Select cands' exclude p now.
Proof. apply Select_perm. Qed.

(** A measurable candidate makes the ranking succeed, on a measurable row. *)
Lemma Select_measurable cands cd0 :
  cd0 ∈ cands → measurable cd0 = true →
  ∃ o cd, Select cands exclude p now = Some o ∧ Picked o = true ∧
    cd ∈ cands ∧ measurable cd = true ∧ OutSecretID o = SecretID cd ∧
    OutHeadroom o = Headroom (Classify cd p now) ∧
    (OutReason o = ReasonAuto ∨ OutReason o = ReasonBestOfPool).
Proof.
  intros Hin Hm. rewrite Select_unfold /=.
  assert (Hpool : existsb in_pool cands = true).
  { apply existsb_true. exists cd0. by apply andb_true_iff in Hm as [? _]. }
  assert (Hs0 : score cd0 ∈ measured (collect cands)) by (apply collect_measured; eauto).
  simpl in Hs0. rewrite Hpool /= bool_decide_eq_false_2; [by intros E; rewrite E in Hs0; set_solver|].
  assert (Hpick : ∀ reason s0 rest, (∀ m, m ∈ s0 :: rest → m ∈ measured (collect cands)) →
    reason = ReasonAuto ∨ reason = ReasonBestOfPool →
    ∃ o cd, Some (outcome_of (rankPick p now reason s0 rest) reason (existsb AutoEligible cands)) = Some o ∧
      Picked o = true ∧ cd ∈ cands ∧ measurable cd = true ∧ OutSecretID o = SecretID cd ∧
      OutHeadroom o = Headroom (Classify cd p now) ∧
      (OutReason o = ReasonAuto ∨ OutReason o = ReasonBestOfPool)).
  { intros reason s0 rest Hsub Hr. assert (Hel : rankPick p now reason s0 rest ∈ s0 :: rest).
    { assert (Hc : ∀ less, StrictWeak less → keep_best less s0 (s0 :: rest) ∈ s0 :: rest).
      { intros less ?. pose proof (keep_best_elem less s0 (s0 :: rest)) as He.
        rewrite !elem_of_cons in He. rewrite elem_of_cons. tauto. }
      rewrite /rankPick. destruct reason, (order p); first [by apply Hc, _ | by apply keep_best_elem, _]. }
    apply Hsub, collect_measured in Hel as (cd & Hcd & Hmc & Heq).
    rewrite Heq. eexists _, cd. by split_and!. }
  destruct (existsb spendable cands) eqn:Hel; simpl.
  - apply existsb_true in Hel as (ce & Hce & Hsp).
    pose proof (eligible_set cands) as Hset. simpl in Hset.
    destruct (filter _ _) as [|s0 rest] eqn:Hf.
    { exfalso. assert (Hx : score ce ∈ @nil scored) by (apply Hset; eauto). set_solver. }
    apply (Hpick ReasonAuto s0 rest); [|by left]. intros m Hm'. rewrite -Hf in Hm'. by apply list_elem_of_filter in Hm' as [_ ?].
  - destruct (omap _ _) as [|s0 rest] eqn:Ho; [set_solver|]. apply (Hpick ReasonBestOfPool s0 rest); [|by right].
    intros m Hm'. by rewrite /= Ho.
Qed.

(** A pick is a row of the list that is opted in, measured and not excluded. *)
Lemma Select_picks cands o : Select cands exclude p now = Some o → Picked o = true →
  ∃ cd, cd ∈ cands ∧ measurable cd = true ∧ OutSecretID o = SecretID cd.
Proof.
  intros Ho Hp. destruct (existsb measurable cands) eqn:E.
  - apply existsb_true in E as (cd0 & Hcd0 & Hm0).
    destruct (Select_measurable cands cd0 Hcd0 Hm0) as (o' & cd & Ho' & _ & Hcd & Hm & Hid & _).
    rewrite Ho' in Ho. simplify_eq. eauto.
  - exfalso. assert (Hnil : measured (collect cands) = []).
    { destruct (measured (collect cands)) as [|m l] eqn:Em; [done|].
      assert (Hin : m ∈ measured (collect cands)) by (rewrite Em; set_solver).
      apply collect_measured in Hin as (cd & Hcd & Hm & _).
      by rewrite (proj1 (existsb_false measurable cands) E cd Hcd) in Hm. }
    rewrite Select_unfold /= in Ho. simpl in Hnil. rewrite Hnil /= in Ho.
    destruct (negb _); by simplify_eq.
Qed.

(** * The last resort and the earliest alternative *)

Definition floorable (cd : Candidate) : bool :=
  AutoEligible cd && negb (Rejected cd) && negb (excluded exclude cd).

Lemma floorStep_foldl cands best :
  foldl (floorStep exclude) best cands =
  match best, filter (λ cd, floorable cd = true) cands with
  | None, [] => None
  | None, c0 :: rest => Some (keep_best tieLess c0 rest)
  | Some b, l => Some (keep_best tieLess b l)
  end.
Proof.
  revert best. induction cands as [|cd cands IH]; intros best; simpl.
  { by destruct best. }
  rewrite IH filter_cons /floorStep /floorable.
  destruct (AutoEligible cd), (Rejected cd), (excluded exclude cd); simpl; try done.
  destruct best as [b|]; [|done]. rewrite /keep_best /=. by destruct (tieLess cd b).
Qed.

Lemma elem_floorable (cands : list Candidate) cd :
  cd ∈ filter (λ cd, floorable cd = true) cands ↔ floorable cd = true ∧ cd ∈ cands.
Proof. by rewrite list_elem_of_filter. Qed.

(** The last-resort pick: [Floor] returns an opted-in, non-rejected,
    non-excluded credential whose binding window resets soonest (ties on the
    id), returns nothing exactly when there is none, and, ids being distinct,
    ignores the order of the rows. *)
Theorem Floor_correct cands cands' :
  match Floor cands exclude with
  | Some id => ∃ cd, cd ∈ cands ∧ floorable cd = true ∧ SecretID cd = id ∧
      ∀ cd', cd' ∈ cands → floorable cd' = true → tieLess cd' cd = false
  | None => ∀ cd, cd ∈ cands → floorable cd = false
  end ∧
  (NoDup (SecretID <$> cands) → cands ≡ₚ cands' →
   Floor cands exclude = Floor cands' exclude).
Proof.
  rewrite /Floor !floorStep_foldl.
  pose proof (λ cd, elem_floorable cands cd) as Hel.
  split.
  - destruct (filter _ cands) as [|c0 rest]; simpl.
    { intros cd Hcd. destruct (floorable cd) eqn:E; [|done].
      by destruct (not_elem_of_nil (A:=Candidate) cd); apply Hel. }
    pose proof (keep_best_elem tieLess c0 rest) as [? ?]%Hel.
    eexists; split_and!; eauto. intros cd' ? ?. apply keep_best_least; [apply _|].
    by apply Hel.
  - intros Hnd Hp. assert (Hf : filter (λ cd, floorable cd = true) cands ≡ₚ
      filter (λ cd, floorable cd = true) cands') by by rewrite Hp.
    destruct (filter _ cands) as [|c0 rest], (filter _ cands') as [|c0' rest'];
      [done|by apply Permutation_nil_cons in Hf|
       by symmetry in Hf; apply Permutation_nil_cons in Hf|].
    simpl. do 2 f_equal. apply keep_best_set_unique; [apply _| |intros x; by rewrite Hf].
    intros x y Hx Hy Hlx Hly.
    eapply NoDup_fmap_elem; [done|by apply Hel..|]. by apply tieLess_tie; auto.
Qed.

(** When a candidate other than the dead one becomes spendable: now if it is
    eligible, at its binding window's reset if it is merely low, unknown
    otherwise. *)
Definition contribution (cd : Candidate) : option time :=
  if bool_decide (SecretID cd = exclude) then None else
  match status (Classify cd p now) with
  | StatusEligible => Some now
  | StatusBelowThreshold => resetKey cd
  | _ => None
  end.

Lemma nextAvailable_foldl floor cands :
  foldl (nextAvailableStep exclude p now) floor cands =
  foldl consider floor (omap contribution cands).
Proof.
  revert floor. induction cands as [|cd cands IH]; intros floor; simpl; [done|].
  rewrite IH /nextAvailableStep /contribution /BindingWindowReset /=.
  repeat case_match; done.
Qed.

Lemma consider_foldl floor ts :
  match foldl consider floor ts with
  | Some t => t ∈ option_list floor ++ ts ∧ ∀ u, u ∈ option_list floor ++ ts → t <= u
  | None => floor = None ∧ ts = []
  end.
Proof.
  revert floor. induction ts as [|t ts IH]; intros floor; simpl.
  { destruct floor; simpl; [|done]. split; [set_solver|]. intros u ->%list_elem_of_singleton; lia. }
  specialize (IH (consider floor t)). destruct (foldl _ _ _) as [m|].
  - destruct IH as [Hin Hmin].
    assert (Hc : ∃ k, consider floor t = Some k ∧ k <= t ∧ (∀ f, floor = Some f → k <= f) ∧
      (k = t ∨ floor = Some k)).
    { rewrite /consider /Go.before. destruct floor as [f|]; [destruct (Z.ltb_spec t f)|];
        eexists; split_and!; eauto; intros; simplify_eq; lia. }
    destruct Hc as (k & Hk & Hkt & Hkf & Hor). rewrite Hk /= in Hin, Hmin. split.
    + destruct Hor as [->| ->]; set_solver.
    + intros u Hu. pose proof (Hmin k ltac:(set_solver)).
      rewrite elem_of_app elem_of_cons in Hu. destruct Hu as [Hu|[->|Hu]]; [|lia|].
      * destruct floor; simpl in Hu; [|set_solver].
        apply list_elem_of_singleton in Hu as ->. specialize (Hkf _ eq_refl). lia.
      * apply Hmin. set_solver.
  - destruct IH as [IH _]. revert IH. rewrite /consider. repeat case_match; done.
Qed.

(** The promotion floor of a parked run: with no dead credential named
    the answer is "unknown"; otherwise it is the least contribution of the
    other candidates, unknown exactly when none contributes.  With the usage
    poller disabled ([MaxStaleness <= 0]) nothing contributes. *)
Theorem NextAvailable_correct cands :
  match NextAvailable cands exclude p now with
  | Some t =>
      exclude ≠ Uuid.Nil ∧ (∃ cd, cd ∈ cands ∧ contribution cd = Some t) ∧
      (∀ cd u, cd ∈ cands → contribution cd = Some u → t <= u) ∧ 0 < MaxStaleness p
  | None => exclude = Uuid.Nil ∨ ∀ cd, cd ∈ cands → contribution cd = None
  end.
Proof.
  rewrite /NextAvailable. case_bool_decide as Hex; [by left|].
  rewrite nextAvailable_foldl. pose proof (consider_foldl None (omap contribution cands)) as H.
  destruct (foldl _ _ _) as [t|]; simpl in H.
  - destruct H as [(cd & Hcd & Hc)%list_elem_of_omap Hmin]. split_and!; eauto.
    + intros cd' u Hcd' Hu. apply Hmin, list_elem_of_omap. eauto.
    + revert Hc. rewrite /contribution /Classify /ineligible.
      destruct (Z.leb_spec (MaxStaleness p) 0); [|done]. simpl. by repeat case_match.
  - right. intros cd Hcd. destruct H as [_ H]. destruct (contribution cd) as [u|] eqn:E; [|done].
    assert (Hu : u ∈ omap contribution cands) by (apply list_elem_of_omap; eauto).
    rewrite H in Hu. set_solver.
Qed.

End Selecting.

(** * Concrete instances *)

Definition example_policy : Policy := mkPolicy OrderHeadroomFirst 10 5 (10 * Go.Minute) 3.
Definition example_cand (n five seven reset : Z) : Candidate :=
  mkCandidate (Uuid.mk n) EmptyString true false true (Some five) (Some seven)
    (Some reset) (Some reset) (Some 0) (Some reset) 0.

Lemma Select_order_independent_witness :
  Select [example_cand 1 20 30 50; example_cand 2 28 10 40] Uuid.Nil example_policy 7 =
  Select [example_cand 2 28 10 40; example_cand 1 20 30 50] Uuid.Nil example_policy 7 ∧
  OutSecretID <$> Select [example_cand 1 20 30 50; example_cand 2 28 10 40]
    Uuid.Nil example_policy 7 = Some (Uuid.mk 2).
Proof.
  split; [|vm_compute; reflexivity].
  apply Select_order_independent; [|apply Permutation_swap].
  simpl. apply NoDup_cons. split; [|apply NoDup_singleton].
  rewrite list_elem_of_singleton. vm_compute. discriminate.
Defined.

End AutoSelect.
