(* ===== verification/Memo.v ===== *)
(** The short-TTL memo of forge reads ([src/api/internal/forgememo/cache.go]):
    a doubly linked list in recency order whose elements a map indexes by key.

    The list elements are heap cells: [ll] holds their addresses, front first,
    [heap] their contents and [m] the address of each key, so the two indexes
    can disagree unless the code keeps them together.  The clock is read where
    the code reads it, [load] is the caller's function, and the collapsing of
    concurrent loads is [golang.org/x/sync/singleflight]'s: the body below is
    what the elected caller runs. *)

From S2P Require Import Prelude.

Local Open Scope Z_scope.

Module Memo.

Section Memo.
Context {V E : Type}.

Record entry := mkEntry { key : string; val : V; size : Z; expiry : time }.

Record Cache := mkCache {
  maxEntries : Z;
  maxBytes : Z;
  ll : list nat;
  heap : gmap nat entry;
  m : gmap string nat;
  fresh : nat;
}.

Definition New (entries bytes : Z) : Cache :=
  mkCache (if entries <? 1 then 1 else entries) bytes [] ∅ ∅ 0.

Definition set_ll (c : Cache) ll' := mkCache (maxEntries c) (maxBytes c) ll' (heap c) (m c) (fresh c).
Definition set_m (c : Cache) m' := mkCache (maxEntries c) (maxBytes c) (ll c) (heap c) m' (fresh c).
Definition set_heap (c : Cache) h' := mkCache (maxEntries c) (maxBytes c) (ll c) h' (m c) (fresh c).

(** [list.Remove], [list.MoveToFront] and [list.PushFront]. *)
Definition unlink (el : nat) (l : list nat) : list nat := filter (λ x, x ≠ el) l.
Definition MoveToFront (c : Cache) (el : nat) : Cache := set_ll c (el :: unlink el (ll c)).

Definition get (c : Cache) (now : time) (k : string) : Cache * option V :=
  match m c !! k with
  | None => (c, None)
  | Some el =>
    match heap c !! el with
    | None => (c, None) (* the map only names elements of the list *)
    | Some e =>
      if negb (Go.before now (expiry e))
      then (set_m (set_ll c (unlink el (ll c))) (delete k (m c)), None)
      else (MoveToFront c el, Some (val e))
    end
  end.

(** The eviction loop; its body drops one element per round. *)
Fixpoint evict (n : nat) (c : Cache) : Cache :=
  match n with
  | O => c
  | S n' =>
    if maxEntries c <? Z.of_nat (length (ll c)) then
      match last (ll c) with
      | None => c
      | Some back =>
        match heap c !! back with
        | None => c
        | Some be => evict n' (set_m (set_ll c (unlink back (ll c))) (delete (key be) (m c)))
        end
      end
    else c
  end.

Definition store (c : Cache) (now : time) (k : string) (v : V) (sz : Z) (ttl : duration)
    : Cache :=
  if maxBytes c <? sz then c else
  let exp := Go.add now ttl in
  match m c !! k with
  | Some el =>
    match heap c !! el with
    | Some e => MoveToFront (set_heap c (<[el := mkEntry (key e) v sz exp]> (heap c))) el
    | None => c
    end
  | None =>
    let el := fresh c in
    let c' := mkCache (maxEntries c) (maxBytes c) (el :: ll c)
                (<[el := mkEntry k v sz exp]> (heap c)) (<[k := el]> (m c)) (S el) in
    evict (length (ll c')) c'
  end.

(** [Do]: [t1] is the clock of the fast path, [t2] that of the re-check, [t3]
    that of the store.  [load] is called at most once; the third component
    says whether it was. *)
Definition Do (c : Cache) (t1 t2 t3 : time) (k : string) (ttl : duration)
    (load : (V * Z) + E) : Cache * (V + E) * bool :=
  match get c t1 k with
  | (c1, Some v) => (c1, inl v, false)
  | (c1, None) =>
    match get c1 t2 k with
    | (c2, Some v) => (c2, inl v, false)
    | (c2, None) =>
      match load with
      | inr err => (c2, inr err, true)
      | inl (v, sz) => (store c2 t3 k v sz ttl, inl v, true)
      end
    end
  end.

(** * The abstract memo: key, value and expiry, most recently used first *)

Definition lru := list (string * V * time).
Definition lru_drop (k : string) (l : lru) : lru := filter (λ x, x.1.1 ≠ k) l.
Definition lru_find (k : string) (l : lru) : option (V * time) :=
  match filter (λ x, x.1.1 = k) l with
  | (_, v, t) :: _ => Some (v, t)
  | [] => None
  end.

Definition lru_get (now : time) (k : string) (l : lru) : lru * option V :=
  match lru_find k l with
  | None => (l, None)
  | Some (v, exp) =>
    if now <? exp then ((k, v, exp) :: lru_drop k l, Some v) else (lru_drop k l, None)
  end.

Definition lru_store (cap bytes : Z) (now : time) (k : string) (v : V) (sz : Z)
    (ttl : duration) (l : lru) : lru :=
  if bytes <? sz then l
  else take (Z.to_nat cap) ((k, v, now + ttl) :: lru_drop k l).

(** * The coupling of the two indexes *)

Record wf (c : Cache) : Prop := {
  wf_cap : 1 <= maxEntries c;
  wf_nodup : NoDup (ll c);
  wf_live el : el ∈ ll c → ∃ e, heap c !! el = Some e ∧ m c !! key e = Some el;
  wf_index k el : m c !! k = Some el → el ∈ ll c ∧ ∃ e, heap c !! el = Some e ∧ key e = k;
  wf_fresh el : (fresh c <= el)%nat → heap c !! el = None;
}.

Definition bounded (c : Cache) : Prop := Z.of_nat (length (ll c)) <= maxEntries c.

Definition cell (c : Cache) (el : nat) : option (string * V * time) :=
  (λ e, (key e, val e, expiry e)) <$> heap c !! el.
Definition abs (c : Cache) : lru := omap (cell c) (ll c).


Implicit Types (c : Cache) (el : nat) (k : string) (l : list nat).

Lemma elem_unlink el l x : x ∈ unlink el l ↔ x ≠ el ∧ x ∈ l.
Proof. by rewrite /unlink list_elem_of_filter. Qed.

Lemma unlink_NoDup el l : NoDup l → NoDup (unlink el l).
Proof. apply NoDup_filter. Qed.

(** Distinct elements carry distinct keys. *)
Lemma wf_key_inj c el el' e e' :
  wf c → el ∈ ll c → el' ∈ ll c → heap c !! el = Some e → heap c !! el' = Some e' →
  key e = key e' → el = el'.
Proof.
  intros W H1 H2 He He' Hk.
  destruct (wf_live c W el H1) as (f & ? & ?), (wf_live c W el' H2) as (f' & ? & ?).
  congruence.
Qed.

Lemma wf_unlink c el e :
  wf c → el ∈ ll c → heap c !! el = Some e →
  wf (set_m (set_ll c (unlink el (ll c))) (delete (key e) (m c))).
Proof.
  intros W Hel He. split; simpl.
  - apply W.
  - apply unlink_NoDup, W.
  - intros x [Hx Hxl]%elem_unlink. destruct (wf_live c W x Hxl) as (f & Hf & Hm).
    exists f. split; [done|]. rewrite lookup_delete_ne //.
    intros Hk. apply Hx. by eapply (wf_key_inj c x el f e).
  - intros k' x [Hne Hx]%lookup_delete_Some. destruct (wf_index c W k' x Hx) as (? & f & Hf & ?).
    split; [|by exists f]. apply elem_unlink. split; [|done]. intros ->. congruence.
  - apply W.
Qed.

Lemma wf_front c el : wf c → el ∈ ll c → wf (MoveToFront c el).
Proof.
  intros W Hel.
  assert (Hset : ∀ x, x ∈ el :: unlink el (ll c) ↔ x ∈ ll c).
  { intros x. rewrite elem_of_cons elem_unlink. destruct (decide (x = el)); naive_solver. }
  split; simpl.
  - apply W.
  - apply NoDup_cons. split; [by rewrite elem_unlink; intros [? ?]|apply unlink_NoDup, W].
  - intros x. rewrite Hset. apply W.
  - intros k x Hx. rewrite Hset. by apply W.
  - apply W.
Qed.

(** Dropping an element of the list drops its key from the abstract memo. *)
Lemma abs_unlink c el e :
  wf c → el ∈ ll c → heap c !! el = Some e →
  omap (cell c) (unlink el (ll c)) = lru_drop (key e) (abs c).
Proof.
  intros W Hel He. rewrite /abs /unlink /lru_drop.
  assert (Hsub : ∀ x, x ∈ ll c → x ∈ ll c) by done. revert Hsub.
  generalize (ll c) at 1 3 4 as l. induction l as [|x l IH]; intros Hsub; [done|].
  destruct (wf_live c W x ltac:(apply Hsub; set_solver)) as (f & Hf & Hm).
  rewrite filter_cons /=. rewrite {2}/cell Hf /= filter_cons /=.
  assert (Hiff : x ≠ el ↔ key f ≠ key e).
  { split; intros Hne Heq; apply Hne; [|congruence].
    eapply wf_key_inj; eauto. apply Hsub; set_solver. }
  case_decide; case_decide; try tauto; simpl; [rewrite /cell Hf /=; f_equal|]; apply IH; set_solver.
Qed.

Lemma lru_find_Some c k el e :
  wf c → m c !! k = Some el → heap c !! el = Some e →
  lru_find k (abs c) = Some (val e, expiry e).
Proof.
  intros W Hm He. destruct (wf_index c W k el Hm) as (Hel & e' & ? & Hk).
  assert (e' = e) as -> by congruence.
  rewrite /lru_find. enough (filter (λ x, x.1.1 = k) (abs c) ≠ [] ∧
    ∀ x, x ∈ filter (λ x, x.1.1 = k) (abs c) → x = (k, val e, expiry e)) as [Hne Hall].
  { destruct (filter _ _) as [|[[k' v] t] rest]; [done|].
    specialize (Hall (k', v, t) ltac:(set_solver)). by simplify_eq. }
  split.
  - intros Hnil. assert (Hin : (k, val e, expiry e) ∈ filter (λ x, x.1.1 = k) (abs c)).
    { rewrite list_elem_of_filter list_elem_of_omap. split; [done|]. exists el.
      split; [done|]. by rewrite /cell He /= Hk. }
    rewrite Hnil in Hin. by apply not_elem_of_nil in Hin.
  - intros x. rewrite list_elem_of_filter list_elem_of_omap.
    intros (Hxk & y & Hy & Hc). rewrite /cell in Hc.
    destruct (heap c !! y) as [f|] eqn:Hf; simplify_eq/=.
    assert (y = el) as -> by (by eapply wf_key_inj). congruence.
Qed.

Lemma lru_absent c k x : wf c → m c !! k = None → x ∈ abs c → x.1.1 ≠ k.
Proof.
  intros W Hm (y & Hy & Hc)%list_elem_of_omap Hk. rewrite /cell in Hc.
  destruct (heap c !! y) as [f|] eqn:Hf; simplify_eq/=.
  destruct (wf_live c W y Hy) as (f' & ? & ?). congruence.
Qed.

Lemma lru_find_None c k : wf c → m c !! k = None → lru_find k (abs c) = None.
Proof.
  intros W Hm. rewrite /lru_find.
  destruct (filter _ _) as [|x rest] eqn:Hf; [done|]. exfalso.
  assert (Hx : x ∈ filter (λ x, x.1.1 = k) (abs c)) by (rewrite Hf; set_solver).
  apply list_elem_of_filter in Hx as [? ?]. by eapply lru_absent.
Qed.

Lemma lru_drop_absent c k : wf c → m c !! k = None → lru_drop k (abs c) = abs c.
Proof.
  intros W Hm. rewrite /lru_drop. apply filter_all.
  intros x Hx. by eapply lru_absent.
Qed.

Lemma length_unlink el l : (length (unlink el l) <= length l)%nat.
Proof. apply length_filter. Qed.

Lemma length_unlink_elem el l : el ∈ l → (length (unlink el l) < length l)%nat.
Proof. intros H. apply (length_filter_lt _ _ el); [done|]. by intros ?. Qed.

Lemma abs_front c el e :
  wf c → el ∈ ll c → heap c !! el = Some e →
  abs (MoveToFront c el) = (key e, val e, expiry e) :: lru_drop (key e) (abs c).
Proof.
  intros W Hel He. rewrite -(abs_unlink c el e) //.
  rewrite /abs /= {1}/cell /= He. done.
Qed.

(** [get] keeps the two indexes coupled, stays within the bound and answers
    as the abstract memo does. *)
Lemma get_refines c now k :
  wf c → bounded c →
  wf (get c now k).1 ∧ bounded (get c now k).1 ∧
  lru_get now k (abs c) = (abs (get c now k).1, (get c now k).2) ∧
  maxEntries (get c now k).1 = maxEntries c ∧ maxBytes (get c now k).1 = maxBytes c.
Proof.
  intros W B. rewrite /get /lru_get. destruct (m c !! k) as [el|] eqn:Hm.
  2:{ rewrite lru_find_None //. }
  destruct (wf_index c W k el Hm) as (Hel & e & He & Hk). rewrite He.
  rewrite (lru_find_Some c k el e) // /Go.before.
  pose proof (length_unlink_elem el (ll c) Hel). rewrite /bounded in B.
  destruct (now <? expiry e); simpl; split_and!; try done.
  - by apply wf_front.
  - rewrite /bounded /=. lia.
  - by rewrite (abs_front c el e) // Hk.
  - rewrite -Hk. by apply wf_unlink.
  - rewrite /bounded /=. lia.
  - rewrite -Hk. by rewrite -(abs_unlink c el e).
Qed.

Lemma omap_cell_length c l :
  (∀ x, x ∈ l → is_Some (cell c x)) → length (omap (cell c) l) = length l.
Proof.
  induction l as [|x l IH]; intros H; [done|]. simpl.
  destruct (H x ltac:(set_solver)) as [y ->]. simpl. f_equal. apply IH. set_solver.
Qed.

Lemma unlink_last l el : NoDup l → last l = Some el → unlink el l = take (length l - 1) l.
Proof.
  intros Hnd [l' ->]%last_Some. apply NoDup_app in Hnd as (_ & Hdis & _).
  rewrite /unlink filter_app filter_cons_False /=; [by intros ?|].
  rewrite app_nil_r length_app /= Nat.add_sub take_app_length.
  apply filter_all. intros x Hx ->. apply (Hdis el); [done|set_solver].
Qed.

Lemma omap_take c l n :
  (∀ x, x ∈ l → is_Some (cell c x)) →
  omap (cell c) (take n l) = take n (omap (cell c) l).
Proof.
  revert n. induction l as [|x l IH]; intros [|n] H; try done. simpl.
  destruct (H x ltac:(set_solver)) as [y ->]. simpl. f_equal. apply IH. set_solver.
Qed.

(** One insertion overshoots the bound by at most one, so one round of the
    loop suffices and it drops the least recently used entry. *)
Lemma evict_spec c n :
  wf c → Z.of_nat (length (ll c)) <= maxEntries c + 1 → n ≠ O →
  wf (evict n c) ∧ bounded (evict n c) ∧
  abs (evict n c) = take (Z.to_nat (maxEntries c)) (abs c) ∧
  maxEntries (evict n c) = maxEntries c.
Proof.
  intros W Hlen Hn. destruct n as [|n]; [done|]. simpl.
  assert (Hlive : ∀ x, x ∈ ll c → is_Some (cell c x)).
  { intros x Hx. destruct (wf_live c W x Hx) as (f & Hf & _). rewrite /cell Hf. eauto. }
  destruct (Z.ltb_spec (maxEntries c) (Z.of_nat (length (ll c)))) as [Hgt|Hle].
  2:{ split_and!; try done. rewrite take_ge // /abs omap_cell_length //. lia. }
  pose proof (wf_cap c W). destruct (last (ll c)) as [back|] eqn:Hlast.
  2:{ apply last_None in Hlast. rewrite Hlast /= in Hgt. lia. }
  assert (Hback : back ∈ ll c) by (apply last_Some in Hlast as [? ->]; set_solver).
  destruct (wf_live c W back Hback) as (be & Hbe & _). rewrite Hbe.
  set (c' := set_m _ _). pose proof (unlink_last _ _ (wf_nodup c W) Hlast) as Hul.
  assert (Hb : length (ll c') = (length (ll c) - 1)%nat).
  { rewrite /c' /= Hul length_take. lia. }
  assert (Hev : evict n c' = c').
  { destruct n; [done|]. simpl. rewrite Hb.
    by destruct (Z.ltb_spec (maxEntries c) (Z.of_nat (length (ll c) - 1))); [lia|]. }
  rewrite Hev. split_and!; try done.
  - by apply wf_unlink.
  - rewrite /bounded Hb /=. lia.
  - rewrite /abs /= Hul omap_take //. f_equal. lia.
Qed.

Lemma wf_update c el e v sz exp :
  wf c → el ∈ ll c → heap c !! el = Some e →
  wf (set_heap c (<[el := mkEntry (key e) v sz exp]> (heap c))).
Proof.
  intros W Hel He. split; simpl; try apply W.
  - intros x Hx. destruct (wf_live c W x Hx) as (f & Hf & Hm).
    destruct (decide (x = el)) as [->|Hne].
    + eexists. rewrite lookup_insert_eq. split; [done|]. simpl. congruence.
    + exists f. by rewrite lookup_insert_ne.
  - intros k x Hx. destruct (wf_index c W k x Hx) as (? & f & Hf & Hk). split; [done|].
    destruct (decide (x = el)) as [->|Hne].
    + eexists. rewrite lookup_insert_eq. split; [done|]. simpl. congruence.
    + exists f. by rewrite lookup_insert_ne.
  - intros x Hx. rewrite lookup_insert_ne; [|by apply W].
    intros ->. apply (wf_fresh c W) in Hx. congruence.
Qed.

Lemma omap_cell_ext c c' l :
  (∀ x, x ∈ l → heap c' !! x = heap c !! x) → omap (cell c') l = omap (cell c) l.
Proof.
  induction l as [|x l IH]; intros H; [done|]. simpl.
  assert (cell c' x = cell c x) as -> by (rewrite /cell H //; set_solver).
  destruct (cell c x); [f_equal|]; apply IH; set_solver.
Qed.

Lemma wf_insert c k e :
  wf c → m c !! k = None → key e = k →
  wf (mkCache (maxEntries c) (maxBytes c) (fresh c :: ll c)
        (<[fresh c := e]> (heap c)) (<[k := fresh c]> (m c)) (S (fresh c))).
Proof.
  intros W Hm Hk. pose proof (wf_fresh c W (fresh c) (le_n _)) as Hfr.
  assert (Hnew : ∀ x, x ∈ ll c → x ≠ fresh c).
  { intros x Hx ->. destruct (wf_live c W _ Hx) as (? & ? & _). congruence. }
  split; simpl.
  - apply W.
  - apply NoDup_cons. split; [|apply W]. intros Hx. by apply (Hnew _ Hx).
  - intros x [->|Hx]%elem_of_cons.
    + exists e. rewrite lookup_insert_eq Hk lookup_insert_eq. done.
    + destruct (wf_live c W x Hx) as (f & Hf & Hmf). exists f.
      rewrite lookup_insert_ne; [by apply not_eq_sym, Hnew|]. split; [done|].
      rewrite lookup_insert_ne; [congruence|done].
  - intros k' x. rewrite lookup_insert_Some. intros [[<- <-]|[Hne Hx]].
    + split; [set_solver|]. exists e. by rewrite lookup_insert_eq.
    + destruct (wf_index c W k' x Hx) as (Hl & f & Hf & ?). split; [set_solver|].
      exists f. rewrite lookup_insert_ne //. by apply not_eq_sym, Hnew.
  - intros x Hx. rewrite lookup_insert_ne; [lia|]. apply W. lia.
Qed.

(** [store] refines the abstract insertion: most recent first, the oldest
    entry dropped when the bound is exceeded, oversized values not kept. *)
Lemma store_refines c now k v sz ttl :
  wf c → bounded c →
  wf (store c now k v sz ttl) ∧ bounded (store c now k v sz ttl) ∧
  abs (store c now k v sz ttl) =
    lru_store (maxEntries c) (maxBytes c) now k v sz ttl (abs c) ∧
  maxEntries (store c now k v sz ttl) = maxEntries c.
Proof.
  intros W B. rewrite /store /lru_store. destruct (maxBytes c <? sz); [done|].
  pose proof B as B'. rewrite /bounded in B'.
  destruct (m c !! k) as [el|] eqn:Hm.
  - destruct (wf_index c W k el Hm) as (Hel & e & He & Hk). rewrite He.
    set (c1 := set_heap _ _).
    assert (W1 : wf c1) by (by apply wf_update).
    assert (He1 : heap c1 !! el = Some (mkEntry (key e) v sz (Go.add now ttl)))
      by (by rewrite /c1 /= lookup_insert_eq).
    pose proof (length_unlink_elem el (ll c) Hel).
    assert (Hdrop : lru_drop (key e) (abs c1) = lru_drop (key e) (abs c)).
    { rewrite -(abs_unlink c el e) // -(abs_unlink c1 el _ W1 Hel He1) /=.
      apply omap_cell_ext. intros x [Hx _]%elem_unlink. by rewrite /= lookup_insert_ne. }
    split_and!; [by apply wf_front|rewrite /bounded /=; lia| |done].
    rewrite (abs_front c1 el _ W1 Hel He1) /= Hdrop Hk /Go.add.
    rewrite take_ge //. simpl. rewrite -Hk -(abs_unlink c el e) // omap_cell_length; [|lia].
    intros x [_ Hx]%elem_unlink. destruct (wf_live c W x Hx) as (f & Hf & _).
    rewrite /cell Hf. eauto.
  - set (c1 := mkCache _ _ _ _ _ _).
    assert (W1 : wf c1) by (by apply wf_insert).
    assert (Habs : abs c1 = (k, v, now + ttl) :: abs c).
    { rewrite /abs /= {1}/cell /= lookup_insert_eq /=. f_equal.
      apply omap_cell_ext. intros x Hx. rewrite /= lookup_insert_ne //. intros <-.
      destruct (wf_live c W _ Hx) as (? & Hf & _). rewrite (wf_fresh c W (fresh c)) in Hf; done. }
    destruct (evict_spec c1 (length (ll c1))) as (W2 & B2 & A2 & M2); [done|simpl; lia|done|].
    split_and!; [done..| |done]. by rewrite A2 Habs lru_drop_absent.
Qed.

(** Any interleaving of callers is a sequence of the two mutex-protected
    operations; [reach] pairs each reachable cache with the abstract memo. *)
Inductive reach (entries bytes : Z) : Cache → lru → Prop :=
  | reach_new : reach entries bytes (New entries bytes) []
  | reach_get c (l : lru) now k :
      reach entries bytes c l →
      reach entries bytes (get c now k).1 (lru_get now k l).1
  | reach_store c (l : lru) now k v sz ttl :
      reach entries bytes c l →
      reach entries bytes (store c now k v sz ttl)
        (lru_store (maxEntries c) (maxBytes c) now k v sz ttl l).

Lemma wf_New entries bytes : wf (New entries bytes) ∧ bounded (New entries bytes).
Proof.
  rewrite /New /bounded. split; [|simpl; go_lia].
  split; simpl; try by set_solver.
  - go_lia.
  - constructor.
Qed.

Lemma reach_inv entries bytes c (l : lru) :
  reach entries bytes c l →
  wf c ∧ bounded c ∧ maxEntries c = Z.max 1 entries ∧ abs c = l.
Proof.
  induction 1 as [|c l now k R IH|c l now k v sz ttl R IH].
  - destruct (wf_New entries bytes). split_and!; [done..| |done]. simpl. go_lia.
  - destruct IH as (W & B & M & A). destruct (get_refines c now k W B) as (? & ? & Hg & ? & ?).
    split_and!; [done..|congruence|]. by rewrite -A Hg.
  - destruct IH as (W & B & M & A).
    destruct (store_refines c now k v sz ttl W B) as (? & ? & Hs & ?).
    split_and!; [done..|congruence|]. by rewrite -A Hs.
Qed.

(** C35. In every reachable state of the memo, whatever the interleaving of
    reads and writes, the list and the map index the same entries, at most
    [maxEntries] are kept, and the contents and the answers are those of the
    abstract recency list. *)
Theorem memo_refines_lru entries bytes c (l : lru) :
  reach entries bytes c l →
  wf c ∧ Z.of_nat (length (ll c)) <= Z.max 1 entries ∧ abs c = l ∧
  ∀ now k, (get c now k).2 = (lru_get now k l).2.
Proof.
  intros (W & B & M & A)%reach_inv. rewrite /bounded M in B.
  split_and!; [done..|]. intros now k. rewrite -M in B.
  destruct (get_refines c now k W B) as (_ & _ & Hg & _). by rewrite -A Hg.
Qed.

Lemma lru_find_drop k (l : lru) : lru_find k (lru_drop k l) = None.
Proof.
  rewrite /lru_find. destruct (filter _ (lru_drop k l)) as [|x rest] eqn:Hf; [done|].
  assert (Hx : x ∈ filter (λ x, x.1.1 = k) (lru_drop k l)) by (rewrite Hf; set_solver).
  rewrite /lru_drop !list_elem_of_filter in Hx. by destruct Hx as (? & ? & ?).
Qed.

Lemma lru_find_head k v t (l : lru) : lru_find k ((k, v, t) :: l) = Some (v, t).
Proof. by rewrite /lru_find filter_cons_True. Qed.

(** A caller that finds no live entry finds none at the re-check either. *)
Lemma get_miss c now k :
  wf c → bounded c → (get c now k).2 = None → lru_find k (abs (get c now k).1) = None.
Proof.
  intros W B Hn. destruct (get_refines c now k W B) as (_ & _ & Hg & _).
  destruct (get c now k) as [c1 r]; simpl in *; subst r. revert Hg. rewrite /lru_get.
  destruct (lru_find k (abs c)) as [[v exp]|] eqn:Hf.
  - destruct (now <? exp); [done|]. intros [= <-]. apply lru_find_drop.
  - intros [= <-]. done.
Qed.

(** [Do] returns a live entry without loading; otherwise it loads exactly
    once, an error is returned and never cached, a value is returned and, when
    it fits, cached with expiry [now + ttl]; either way the memo stays
    well-formed and within its bound. *)
Theorem Do_correct c t1 t2 t3 k ttl (load : (V * Z) + E) :
  wf c → bounded c →
  let '(c', r, called) := Do c t1 t2 t3 k ttl load in
  wf c' ∧ bounded c' ∧
  match lru_get t1 k (abs c), load with
  | (l1, Some v), _ => r = inl v ∧ called = false ∧ abs c' = l1
  | (_, None), inr err => r = inr err ∧ called = true ∧ lru_find k (abs c') = None
  | (_, None), inl (v, sz) =>
      r = inl v ∧ called = true ∧
      lru_find k (abs c') = if maxBytes c <? sz then None else Some (v, t3 + ttl)
  end.
Proof.
  intros W B. rewrite /Do. pose proof (get_miss c t1 k W B) as Hmiss.
  destruct (get_refines c t1 k W B) as (W1 & B1 & -> & _ & M1).
  destruct (get c t1 k) as [c1 [v|]]; simpl in *; [done|]. specialize (Hmiss eq_refl).
  pose proof (get_miss c1 t2 k W1 B1) as Hmiss2.
  destruct (get_refines c1 t2 k W1 B1) as (W2 & B2 & Hg2 & _ & M2).
  rewrite /lru_get Hmiss in Hg2.
  destruct (get c1 t2 k) as [c2 r2]; simpl in *. injection Hg2 as Ha <-.
  destruct load as [[v sz]|err]; [|split_and!; auto].
  destruct (store_refines c2 t3 k v sz ttl W2 B2) as (W3 & B3 & A3 & _).
  split_and!; [done..|]. rewrite A3 /lru_store M2 M1.
  destruct (maxBytes c <? sz); [by apply Hmiss2|].
  pose proof (wf_cap c2 W2). destruct (Z.to_nat (maxEntries c2)) eqn:Hn; [lia|].
  simpl. by rewrite lru_find_head.
Qed.

End Memo.
Arguments entry : clear implicits.
Arguments Cache : clear implicits.
Arguments lru : clear implicits.

(** * Concrete instances: a two-entry memo *)

Definition example_cache : Cache string :=
  store (store (store (New 2 100) 0 "a" "A" 1 50) 1 "b" "B" 1 50) 2 "c" "C" 1 50.

Lemma memo_refines_lru_witness :
  Z.of_nat (length (ll example_cache)) <= 2 ∧
  abs example_cache = [("c", "C", 52); ("b", "B", 51)] ∧
  (get example_cache 10 "a").2 = None.
Proof.
  assert (R : reach 2 100 example_cache _)
    by (do 3 apply reach_store; apply reach_new).
  destruct (memo_refines_lru _ _ _ _ R) as (_ & Hlen & Habs & Hget).
  split_and!; [exact Hlen|rewrite Habs; reflexivity|rewrite Hget; reflexivity].
Defined.

Lemma Do_correct_witness :
  (Do example_cache 10 11 12 "a" 30 (inl ("Z", 5) : (string * Z) + string)).1.2 = inl "Z" ∧
  abs (Do example_cache 10 11 12 "a" 30 (inl ("Z", 5) : (string * Z) + string)).1.1 =
    [("a", "Z", 42); ("c", "C", 52)].
Proof.
  assert (R : reach 2 100 example_cache _)
    by (do 3 apply reach_store; apply reach_new).
  destruct (reach_inv _ _ _ _ R) as (W & B & _ & _).
  pose proof (Do_correct example_cache 10 11 12 "a" 30
    (inl ("Z", 5) : (string * Z) + string) W B) as H.
  split; [|reflexivity].
  destruct (Do _ _ _ _ _ _ _) as [[c' r] called]. apply H.
Defined.

End Memo.
