(* ===== verification/RateLimit.v ===== *)
(** The fixed-window rate limiter ([src/api/internal/middleware/ratelimit.go]).

    Buckets and reservations are shared objects: [buckets] maps a key to the
    address of its current bucket, [cells] holds the buckets ever allocated
    (a reservation keeps its bucket alive after the key has moved on), [states]
    the reservations' once-only refund state.  Every operation runs under the
    limiter's mutex and is one atomic step; the clock reading is its argument.
    The key of an HTTP request is resolved in [ClientIP]. *)

From S2P Require Import Prelude.

Local Open Scope Z_scope.

Module RateLimit.

Record bucket := mkBucket { count : Z; resetAt : time }.
Record reservationState := mkState { skey : string; sbucket : nat; refunded : bool }.

Record Limiter := mkLimiter {
  max : Z;
  window : duration;
  buckets : gmap string nat;
  cells : gmap nat bucket;
  states : gmap nat reservationState;
  next : nat;
}.

Definition NewLimiter (mx : Z) (w : duration) : Limiter := mkLimiter mx w ∅ ∅ ∅ 0.

Definition set_buckets l b := mkLimiter (max l) (window l) b (cells l) (states l) (next l).
Definition set_cells l c := mkLimiter (max l) (window l) (buckets l) c (states l) (next l).
Definition set_states l s := mkLimiter (max l) (window l) (buckets l) (cells l) s (next l).

(** The bucket a key currently points at. *)
Definition current (l : Limiter) (key : string) : option (nat * bucket) :=
  b ← buckets l !! key; c ← cells l !! b; Some (b, c).

(** [l.buckets[key] = &bucket{...}]: a fresh bucket replaces the old one. *)
Definition install (l : Limiter) (key : string) (b : bucket) : Limiter :=
  mkLimiter (max l) (window l) (<[key := next l]> (buckets l))
    (<[next l := b]> (cells l)) (states l) (S (next l)).

(** [now.After(b.resetAt)] for the bucket at [p]. *)
Definition expired (l : Limiter) (now : time) (p : nat) : bool :=
  match cells l !! p with
  | Some b => Go.after now (resetAt b)
  | None => false
  end.

(** One tick of the background sweeper. *)
Definition sweep (l : Limiter) (now : time) : Limiter :=
  set_buckets l (filter (λ kb, expired l now kb.2 = false) (buckets l)).

Definition allow (l : Limiter) (now : time) (key : string) : Limiter * bool :=
  match current l key with
  | Some (p, b) =>
    if Go.after now (resetAt b)
    then (install l key (mkBucket 1 (Go.add now (window l))), true)
    else
      let b' := mkBucket (count b + 1) (resetAt b) in
      (set_cells l (<[p := b']> (cells l)), count b' <=? max l)
  | None => (install l key (mkBucket 1 (Go.add now (window l))), true)
  end.

Definition Reserve (l : Limiter) (now : time) (key : string) : Limiter * option nat :=
  let l1 := match current l key with
            | Some (_, b) =>
              if negb (Go.before now (resetAt b))
              then install l key (mkBucket 0 (Go.add now (window l))) else l
            | None => install l key (mkBucket 0 (Go.add now (window l)))
            end in
  match current l1 key with
  | None => (l1, None)
  | Some (p, b) =>
    if max l1 <=? count b then (l1, None) else
    let r := next l1 in
    (mkLimiter (max l1) (window l1) (buckets l1)
       (<[p := mkBucket (count b + 1) (resetAt b)]> (cells l1))
       (<[r := mkState key p false]> (states l1)) (S r), Some r)
  end.

Definition Refund (l : Limiter) (now : time) (r : option nat) : Limiter * bool :=
  match r with
  | None => (l, false)
  | Some a =>
    match states l !! a with
    | None => (l, false)
    | Some s =>
      if refunded s then (l, false) else
      let l1 := set_states l (<[a := mkState (skey s) (sbucket s) true]> (states l)) in
      match cells l1 !! sbucket s with
      | None => (l1, false)
      | Some b =>
        if negb (bool_decide (buckets l1 !! skey s = Some (sbucket s)))
           || negb (Go.before now (resetAt b))
        then (l1, false)
        else (set_cells l1 (<[sbucket s := mkBucket (count b - 1) (resetAt b)]> (cells l1)), true)
      end
    end
  end.

(** * Sequences of operations *)

Inductive op :=
  | OpAllow (now : time) (key : string)
  | OpReserve (now : time) (key : string)
  | OpRefund (now : time) (r : option nat)
  | OpSweep (now : time).

Definition op_time (o : op) : time :=
  match o with OpAllow t _ | OpReserve t _ | OpRefund t _ | OpSweep t => t end.

(** What the caller sees: granted or refused, and the handle of a reservation. *)
Definition exec (l : Limiter) (o : op) : Limiter * (bool * option nat) :=
  match o with
  | OpAllow t k => let '(l', r) := allow l t k in (l', (r, None))
  | OpReserve t k => let '(l', r) := Reserve l t k in (l', (bool_decide (is_Some r), r))
  | OpRefund t r => let '(l', b) := Refund l t r in (l', (b, None))
  | OpSweep t => (sweep l t, (true, None))
  end.

Fixpoint run (l : Limiter) (ops : list op) : Limiter * list (bool * option nat) :=
  match ops with
  | [] => (l, [])
  | o :: ops' =>
    let '(l1, r) := exec l o in
    let '(l2, rs) := run l1 ops' in (l2, r :: rs)
  end.

(** Reservations on bucket [p] that have not been refunded. *)
Definition charged (sts : gmap nat reservationState) (p : nat) : Z :=
  Z.of_nat (size (filter (λ s, s.2.(sbucket) = p ∧ s.2.(refunded) = false) sts)).
Definition outstanding (l : Limiter) (p : nat) : Z := charged (states l) p.

Implicit Types (l : Limiter) (k : string) (t now : time).

(** * Accounting of reservations *)

Lemma charged_new sts r k p q :
  sts !! r = None →
  charged (<[r := mkState k p false]> sts) q =
  charged sts q + (if decide (p = q) then 1 else 0).
Proof.
  intros Hr. rewrite /charged. case_decide as Hpq.
  - rewrite map_filter_insert_True //. rewrite map_size_insert_None; [|lia].
    apply map_lookup_filter_None. by left.
  - rewrite map_filter_insert_not'; [intros [? ?]; done|by rewrite Hr|lia].
Qed.

Lemma charged_refund sts a s q :
  sts !! a = Some s → refunded s = false →
  charged (<[a := mkState (skey s) (sbucket s) true]> sts) q =
  charged sts q - (if decide (sbucket s = q) then 1 else 0).
Proof.
  intros Ha Hs. rewrite /charged map_filter_insert_False; [naive_solver|].
  rewrite map_filter_delete. case_decide as Hq.
  - rewrite map_size_delete_Some.
    + exists s. by apply map_lookup_filter_Some.
    + assert (size (filter (λ s, s.2.(sbucket) = q ∧ s.2.(refunded) = false) sts) ≠ 0)%nat.
      { apply map_size_ne_0_lookup. exists a, s. by apply map_lookup_filter_Some. }
      lia.
  - rewrite delete_id; [|lia]. apply map_lookup_filter_None. right. naive_solver.
Qed.

Record wf (l : Limiter) : Prop := {
  wf_bucket k p : buckets l !! k = Some p → is_Some (cells l !! p);
  wf_state r s : states l !! r = Some s → is_Some (cells l !! sbucket s);
  wf_cells p : (next l <= p)%nat → cells l !! p = None;
  wf_states r : (next l <= r)%nat → states l !! r = None;
  wf_count p b : cells l !! p = Some b → outstanding l p <= count b;
  wf_inj k k' p : buckets l !! k = Some p → buckets l !! k' = Some p → k = k';
}.

Lemma charged_nonneg sts p : 0 <= charged sts p.
Proof. rewrite /charged. lia. Qed.

Lemma charged_zero sts p :
  (∀ r s, sts !! r = Some s → sbucket s ≠ p) → charged sts p = 0.
Proof.
  intros H. rewrite /charged. assert (filter (λ s, s.2.(sbucket) = p ∧ s.2.(refunded) = false) sts = ∅)
    as ->; [|done].
  apply map_eq. intros r. rewrite lookup_empty. apply map_lookup_filter_None.
  right. intros s Hs [? ?]. by eapply H.
Qed.

Lemma wf_NewLimiter mx w : wf (NewLimiter mx w).
Proof. split; simpl; intros; simplify_map_eq; done. Qed.

Lemma current_Some l k p b :
  current l k = Some (p, b) ↔ buckets l !! k = Some p ∧ cells l !! p = Some b.
Proof.
  rewrite /current. destruct (buckets l !! k) as [q|] eqn:Hb; simpl; [|naive_solver].
  destruct (cells l !! q) eqn:Hc; simpl; naive_solver.
Qed.

Lemma wf_install l k b : wf l → 0 <= count b → wf (install l k b).
Proof.
  intros W Hb. split; simpl.
  - intros k' p Hp. apply lookup_insert_Some in Hp as [[<- <-]|[_ Hp]].
    + rewrite lookup_insert_eq. eauto.
    + apply wf_bucket in Hp as [c Hc]; [|done]. apply lookup_insert_is_Some'. eauto.
  - intros r s Hr. apply wf_state in Hr; [|done]. apply lookup_insert_is_Some'. eauto.
  - intros p Hp. rewrite lookup_insert_ne; [lia|]. apply wf_cells; [done|lia].
  - intros r Hr. apply wf_states; [done|lia].
  - intros p b' Hp. apply lookup_insert_Some in Hp as [[<- <-]|[_ Hp]]; [|by apply (wf_count l W)].
    rewrite /outstanding charged_zero //=. intros r s Hs Hn.
    destruct (wf_state l W r s Hs) as [c Hc]. rewrite Hn (wf_cells l W) // in Hc.
  - assert (Hold : ∀ k, buckets l !! k ≠ Some (next l)).
    { intros k' Hk. apply (wf_bucket l W) in Hk as [c Hc]. rewrite (wf_cells l W) // in Hc. }
    intros k1 k2 p H1 H2. rewrite !lookup_insert_Some in H1, H2.
    destruct H1 as [[<- <-]|[? H1]], H2 as [[<- H2]|[? H2]]; simplify_eq; try done.
    + by apply Hold in H2.
    + by apply Hold in H1.
    + by eapply (wf_inj l W).
Qed.

(** A hit on an existing bucket. *)
Lemma wf_bump l p b b' :
  wf l → cells l !! p = Some b → count b <= count b' →
  wf (set_cells l (<[p := b']> (cells l))).
Proof.
  intros W Hb Hle. split; simpl.
  - intros k q Hq. apply lookup_insert_is_Some'. right. by eapply (wf_bucket l W).
  - intros r s Hr. apply lookup_insert_is_Some'. right. by eapply (wf_state l W).
  - intros q Hq. rewrite lookup_insert_ne; [|by apply (wf_cells l W)].
    intros ->. rewrite (wf_cells l W) // in Hb.
  - apply W.
  - intros q c Hq. apply lookup_insert_Some in Hq as [[<- <-]|[_ Hq]].
    + pose proof (wf_count l W p b Hb). rewrite /outstanding in H |- *. simpl. lia.
    + by apply (wf_count l W).
  - apply W.
Qed.

Lemma wf_allow l t k : wf l → wf (allow l t k).1.
Proof.
  intros W. rewrite /allow. destruct (current l k) as [[p b]|] eqn:Hc.
  2:{ by apply wf_install. }
  apply current_Some in Hc as [_ Hb]. destruct (Go.after t (resetAt b)).
  - by apply wf_install.
  - eapply wf_bump; [done..|simpl; lia].
Qed.

Lemma wf_sweep l t : wf l → wf (sweep l t).
Proof.
  intros W. split; simpl; try apply W.
  - intros k p [Hp _]%map_lookup_filter_Some. by eapply (wf_bucket l W).
  - intros k k' p [H1 _]%map_lookup_filter_Some [H2 _]%map_lookup_filter_Some.
    by eapply (wf_inj l W).
Qed.

Lemma wf_Refund l t r : wf l → wf (Refund l t r).1.
Proof.
  intros W. rewrite /Refund. destruct r as [a|]; [|done].
  destruct (states l !! a) as [s|] eqn:Ha; [|done].
  destruct (refunded s) eqn:Hs; [done|]. simpl.
  destruct (wf_state l W a s Ha) as [b Hb]. rewrite Hb.
  assert (Hfresh : ∀ r, (next l <= r)%nat →
    <[a := mkState (skey s) (sbucket s) true]> (states l) !! r = None).
  { intros r Hr. rewrite lookup_insert_ne; [|by apply (wf_states l W)].
    intros ->. rewrite (wf_states l W) // in Ha. }
  assert (Hst : ∀ (m : gmap nat bucket), (∀ p, is_Some (cells l !! p) → is_Some (m !! p)) →
    ∀ r s', <[a := mkState (skey s) (sbucket s) true]> (states l) !! r = Some s' →
    is_Some (m !! sbucket s')).
  { intros m Hm r s' Hr. apply Hm. apply lookup_insert_Some in Hr as [[<- <-]|[_ Hr]]; simpl; eauto.
    by eapply (wf_state l W). }
  destruct (_ || _); split; simpl; try apply W; try done.
  - by apply Hst.
  - intros p c Hp. rewrite /outstanding /= charged_refund //.
    pose proof (wf_count l W p c Hp). rewrite /outstanding in H. case_decide; lia.
  - intros k p Hp. apply lookup_insert_is_Some'. right. by eapply (wf_bucket l W).
  - apply Hst. intros p Hp. apply lookup_insert_is_Some'. by right.
  - intros p Hp. rewrite lookup_insert_ne; [|by apply (wf_cells l W)].
    intros <-. rewrite (wf_cells l W) // in Hb.
  - intros p c Hp. rewrite /outstanding /= charged_refund //.
    apply lookup_insert_Some in Hp as [[<- <-]|[Hne Hp]].
    + pose proof (wf_count l W _ b Hb). rewrite /outstanding in H. simpl. case_decide; [lia|done].
    + pose proof (wf_count l W p c Hp). rewrite /outstanding in H. case_decide; [done|lia].
Qed.

Lemma wf_charge l p b k :
  wf l → cells l !! p = Some b →
  wf (mkLimiter (max l) (window l) (buckets l)
        (<[p := mkBucket (count b + 1) (resetAt b)]> (cells l))
        (<[next l := mkState k p false]> (states l)) (S (next l))).
Proof.
  intros W Hb. pose proof (wf_states l W (next l) (le_n _)) as Hr.
  assert (Hc : ∀ q, is_Some (cells l !! q) →
    is_Some (<[p := mkBucket (count b + 1) (resetAt b)]> (cells l) !! q)).
  { intros q Hq. apply lookup_insert_is_Some'. by right. }
  split; simpl; try apply W.
  - intros k' q Hq. by apply Hc, (wf_bucket l W k').
  - intros r s [[<- <-]|[_ Hs]]%lookup_insert_Some; simpl; eauto.
    apply Hc. by eapply (wf_state l W).
  - intros q Hq. rewrite lookup_insert_ne; [|apply (wf_cells l W); lia].
    intros ->. rewrite (wf_cells l W) // in Hb. lia.
  - intros r Hr'. rewrite lookup_insert_ne; [lia|]. apply (wf_states l W). lia.
  - intros q c Hq. rewrite /outstanding /= charged_new //.
    apply lookup_insert_Some in Hq as [[<- <-]|[Hne Hq]].
    + pose proof (wf_count l W p b Hb). rewrite /outstanding in H. simpl. case_decide; lia.
    + pose proof (wf_count l W q c Hq). rewrite /outstanding in H. case_decide; [done|lia].
Qed.

(** The state in which [Reserve] tests the budget. *)
Definition renew (l : Limiter) (now : time) (key : string) : Limiter :=
  match current l key with
  | Some (_, b) =>
    if negb (Go.before now (resetAt b))
    then install l key (mkBucket 0 (Go.add now (window l))) else l
  | None => install l key (mkBucket 0 (Go.add now (window l)))
  end.

Lemma wf_renew l t k : wf l → wf (renew l t k).
Proof.
  intros W. rewrite /renew. destruct (current l k) as [[p b]|]; [destruct (negb _)|];
    [by apply wf_install|done|by apply wf_install].
Qed.

Lemma wf_Reserve l t k : wf l → wf (Reserve l t k).1.
Proof.
  intros W%(wf_renew l t k). rewrite /Reserve -/(renew l t k).
  destruct (current (renew l t k) k) as [[p b]|] eqn:Hc; [|done].
  apply current_Some in Hc as [_ Hb]. destruct (_ <=? _); [done|].
  by apply wf_charge.
Qed.

Lemma wf_exec l o : wf l → wf (exec l o).1.
Proof.
  intros W. destruct o as [t k|t k|t r|t]; simpl.
  - pose proof (wf_allow l t k W). by destruct (allow l t k).
  - pose proof (wf_Reserve l t k W). by destruct (Reserve l t k).
  - pose proof (wf_Refund l t r W). by destruct (Refund l t r).
  - by apply wf_sweep.
Qed.

Lemma run_cons l o ops :
  run l (o :: ops) = ((run (exec l o).1 ops).1, (exec l o).2 :: (run (exec l o).1 ops).2).
Proof. simpl. destruct (exec l o) as [l1 r]. simpl. by destruct (run l1 ops). Qed.

Lemma wf_run l ops : wf l → wf (run l ops).1.
Proof.
  revert l. induction ops as [|o ops IH]; intros l W; [done|].
  rewrite run_cons. by apply IH, wf_exec.
Qed.

(** * The reservation budget *)

Definition capped (l : Limiter) : Prop :=
  0 <= max l ∧ ∀ p b, cells l !! p = Some b → count b <= max l.

Definition reserving (o : op) : Prop := match o with OpAllow _ _ => False | _ => True end.

Lemma capped_install l k t : capped l → capped (install l k (mkBucket 0 t)).
Proof.
  intros [H0 Hc]. split; [done|]. simpl. intros p b [[<- <-]|[_ Hp]]%lookup_insert_Some; eauto.
Qed.

Lemma capped_Reserve l t k : capped l → capped (Reserve l t k).1.
Proof.
  intros C. rewrite /Reserve -/(renew l t k).
  assert (C1 : capped (renew l t k)).
  { rewrite /renew. repeat case_match; auto using capped_install. }
  destruct (current (renew l t k) k) as [[p b]|] eqn:Hc; [|done].
  apply current_Some in Hc as [_ Hb]. destruct C1 as [H0 C1].
  destruct (Z.leb_spec (max (renew l t k)) (count b)); [done|].
  split; [done|]. simpl. intros q c [[<- <-]|[_ Hq]]%lookup_insert_Some; [simpl; lia|eauto].
Qed.

Lemma capped_Refund l t r : capped l → capped (Refund l t r).1.
Proof.
  intros [H0 C]. rewrite /Refund. destruct r as [a|]; [|done].
  destruct (states l !! a) as [s|]; [|done]. destruct (refunded s); [done|]. simpl.
  destruct (cells l !! sbucket s) as [b|] eqn:Hb; [|done].
  destruct (_ || _); [done|]. split; [done|]. simpl.
  intros q c [[<- <-]|[_ Hq]]%lookup_insert_Some; [|eauto].
  specialize (C _ _ Hb). simpl. lia.
Qed.

Lemma capped_exec l o : capped l → reserving o → capped (exec l o).1.
Proof.
  intros C. destruct o as [t k|t k|t r|t]; [done| | |done]; intros _; simpl.
  - pose proof (capped_Reserve l t k C). by destruct (Reserve l t k).
  - pose proof (capped_Refund l t r C). by destruct (Refund l t r).
Qed.

Lemma exec_config l o :
  max (exec l o).1 = max l ∧ window (exec l o).1 = window l.
Proof.
  destruct o; simpl; rewrite /allow /Reserve /Refund;
    repeat case_match; simplify_eq/=; done.
Qed.

(** A limiter that only hands out reservations never has more than [max]
    of them outstanding on one bucket, whatever the sequence of reservations,
    refunds (also repeated or late ones) and sweeps; the bucket's count covers
    every outstanding reservation, so a refund never credits another holder. *)
Theorem Reserve_bounds_inflight mx w ops p b :
  0 <= mx → Forall reserving ops →
  let l := (run (NewLimiter mx w) ops).1 in
  cells l !! p = Some b →
  0 <= outstanding l p <= count b ∧ count b <= mx.
Proof.
  intros Hmx Hops l Hb.
  assert (W : wf l) by (apply wf_run, wf_NewLimiter).
  enough (C : capped l ∧ max l = mx).
  { destruct C as [[_ C] M]. specialize (C p b Hb). split; [|lia].
    split; [apply charged_nonneg|by apply (wf_count l W)]. }
  subst l. clear Hb W.
  assert (C : capped (NewLimiter mx w) ∧ max (NewLimiter mx w) = mx).
  { split; [split; [done|]|done]. intros q c. simpl. by rewrite lookup_empty. }
  revert C. generalize (NewLimiter mx w) as l.
  induction Hops as [|o ops Ho Hops IH]; intros l [C M]; [done|].
  rewrite run_cons. apply IH. split; [by apply capped_exec|].
  by rewrite (proj1 (exec_config l o)).
Qed.

(** * The per-key request budget *)

Definition hitting (o : op) : bool := match o with OpAllow _ _ | OpSweep _ => true | _ => false end.
Definition hits_key (k : string) (o : op) : bool :=
  match o with OpAllow _ k' => bool_decide (k' = k) | _ => false end.

(** Hits on [k] in a run, and those of them that were let through. *)
Definition hits (k : string) (ops : list op) : Z :=
  Z.of_nat (length (filter (λ o, hits_key k o = true) ops)).
Definition granted (k : string) (ops : list op) (rs : list (bool * option nat)) : Z :=
  Z.of_nat (length (filter (λ x, hits_key k x.1 = true ∧ x.2.1 = true) (zip ops rs))).

Lemma current_install_eq l k b : current (install l k b) k = Some (next l, b).
Proof. apply current_Some. by rewrite /= !lookup_insert_eq. Qed.

Lemma current_allow_other l t k k' p b :
  wf l → k ≠ k' → current l k = Some (p, b) → current (allow l t k').1 k = Some (p, b).
Proof.
  intros W Hne [Hk Hp]%current_Some.
  assert (Hi : ∀ b', current (install l k' b') k = Some (p, b)).
  { intros b'. apply current_Some. simpl. rewrite !lookup_insert_ne //.
    intros <-. by rewrite (wf_cells l W) in Hp. }
  rewrite /allow. destruct (current l k') as [[q c]|] eqn:Hc; [|apply Hi].
  destruct (Go.after _ _); [apply Hi|]. apply current_Some in Hc as [Hk' Hq].
  apply current_Some. simpl. split; [done|]. rewrite lookup_insert_ne //.
  intros ->. by apply Hne, (wf_inj l W k k' p).
Qed.

Lemma current_sweep l t k p b :
  current l k = Some (p, b) → t <= resetAt b → current (sweep l t) k = Some (p, b).
Proof.
  intros [Hk Hp]%current_Some Ht. apply current_Some. split; [|done].
  apply map_lookup_filter_Some. split; [done|]. rewrite /expired /= Hp /Go.after. lia.
Qed.

Lemma granted_cons k o ops r rs :
  granted k (o :: ops) (r :: rs) =
  (if hits_key k o && r.1 then 1 else 0) + granted k ops rs.
Proof.
  rewrite /granted /= filter_cons /=. destruct (hits_key k o), (r.1); simpl;
    try case_decide; simpl; (lia || naive_solver).
Qed.

Lemma hits_cons k o ops : hits k (o :: ops) = (if hits_key k o then 1 else 0) + hits k ops.
Proof. rewrite /hits filter_cons. destruct (hits_key k o); simpl; lia. Qed.

(** Within the life of a bucket that has already counted [n] hits. *)
Lemma granted_from l k p b ops :
  wf l → current l k = Some (p, b) → 1 <= count b →
  Forall (λ o, hitting o = true ∧ op_time o <= resetAt b) ops →
  granted k ops (run l ops).2 =
  Z.min (count b + hits k ops) (Z.max 1 (max l)) - Z.min (count b) (Z.max 1 (max l)).
Proof.
  intros W Hc Hn Hops. revert l b W Hc Hn Hops.
  induction ops as [|o ops IH]; intros l b W Hc Hn Hops.
  { rewrite /hits /granted /=. lia. }
  apply Forall_cons in Hops as [[Hh Ht] Hops].
  rewrite run_cons granted_cons hits_cons. pose proof (exec_config l o) as [M _].
  destruct o as [t k'|t k'|t r|t]; try done; simpl op_time in Ht.
  - simpl hits_key. case_bool_decide as Hk.
    + subst k'. simpl. rewrite /allow Hc. simpl.
      replace (Go.after t (resetAt b)) with false by (rewrite /Go.after; lia). simpl.
      pose proof (IH (set_cells l (<[p:=mkBucket (count b + 1) (resetAt b)]> (cells l)))
        (mkBucket (count b + 1) (resetAt b))) as IH'. rewrite IH' //=.
      * eapply wf_bump; [done|by apply current_Some in Hc as [_ ?]|simpl; lia].
      * apply current_Some in Hc as [? ?]. apply current_Some. simpl.
        by rewrite lookup_insert_eq.
      * lia.
      * destruct (Z.leb_spec (count b + 1) (max l)); lia.
    + pose proof (current_allow_other l t k k' p b W ltac:(congruence) Hc) as Hc'.
      pose proof (wf_allow l t k' W) as W'. revert M Hc' W'. simpl.
      destruct (allow l t k') as [l1 r1]; simpl. intros M Hc' W'.
      rewrite (IH l1 b) // M. lia.
  - simpl. rewrite (IH (sweep l t) b) //; [by apply wf_sweep|by apply current_sweep].
Qed.

(** The fixed window: once a key has no live bucket, the hit that opens a
    window and every later one up to its end are let through [max] times (the
    opening hit always, even for a budget below one), whatever other keys are
    hit and whenever the sweeper runs in between; the excess is refused. *)
Theorem allow_budget l k t0 ops :
  wf l → (∀ p b, current l k = Some (p, b) → resetAt b < t0) →
  Forall (λ o, hitting o = true ∧ op_time o <= t0 + window l) ops →
  granted k (OpAllow t0 k :: ops) (run l (OpAllow t0 k :: ops)).2 =
  Z.min (hits k (OpAllow t0 k :: ops)) (Z.max 1 (max l)).
Proof.
  intros W Hdead Hops. rewrite run_cons granted_cons hits_cons. simpl hits_key.
  rewrite bool_decide_eq_true_2 //.
  assert (Ha : allow l t0 k = (install l k (mkBucket 1 (Go.add t0 (window l))), true)).
  { rewrite /allow. destruct (current l k) as [[p b]|] eqn:Hc; [|done].
    specialize (Hdead p b eq_refl). rewrite /Go.after.
    by destruct (Z.ltb_spec (resetAt b) t0); [|lia]. }
  rewrite /exec Ha. simpl.
  rewrite (granted_from _ k (next l) (mkBucket 1 (Go.add t0 (window l)))) //=.
  - by apply wf_install.
  - apply current_install_eq.
  - lia.
Qed.

(** * The sweeper is unobservable *)

(** [l'] is [l] with some buckets dropped that had expired by [t]. *)
Record swept (t : time) (l l' : Limiter) : Prop := {
  sw_max : max l' = max l;
  sw_window : window l' = window l;
  sw_cells : cells l' = cells l;
  sw_states : states l' = states l;
  sw_next : next l' = next l;
  sw_buckets k : buckets l' !! k = buckets l !! k ∨
    (buckets l' !! k = None ∧ ∃ p, buckets l !! k = Some p ∧ expired l t p = true);
}.

Lemma swept_current t l l' k :
  swept t l l' →
  current l' k = current l k ∨
  (current l' k = None ∧ ∃ p b, current l k = Some (p, b) ∧ resetAt b < t).
Proof.
  intros Sw. destruct (sw_buckets t l l' Sw k) as [Hk|[Hk (p & Hp & He)]].
  - left. by rewrite /current Hk (sw_cells _ _ _ Sw).
  - right. rewrite /current Hk Hp. split; [done|]. rewrite /expired in He.
    destruct (cells l !! p) as [b|] eqn:Hb; [|done]. exists p, b. split; [by rewrite /= Hb|].
    rewrite /Go.after in He. lia.
Qed.

(** Both limiters take the same branch: what was dropped had expired anyway. *)
Lemma swept_install t l l' k b :
  swept t l l' → wf l → swept t (install l k b) (install l' k b).
Proof.
  intros [] W. split; simpl; try congruence. intros k'. rewrite sw_next0.
  destruct (decide (k = k')) as [->|Hne]; [left; by rewrite !lookup_insert_eq|].
  rewrite !lookup_insert_ne //. destruct (sw_buckets0 k') as [|[? (p & Hp & He)]]; [by left|].
  right. split; [done|]. exists p. split; [done|]. rewrite /expired /=.
  rewrite lookup_insert_ne //. intros <-.
  destruct (wf_bucket l W _ _ Hp) as [c Hc]. by rewrite (wf_cells l W) in Hc.
Qed.

(** Updating a bucket without moving its reset keeps what has expired. *)
Lemma swept_update t l l' p b b' sts n :
  swept t l l' → cells l !! p = Some b → resetAt b' = resetAt b →
  swept t (mkLimiter (max l) (window l) (buckets l) (<[p := b']> (cells l)) sts n)
          (mkLimiter (max l') (window l') (buckets l') (<[p := b']> (cells l')) sts n).
Proof.
  intros [] Hb Hr. split; simpl; try congruence. intros k.
  destruct (sw_buckets0 k) as [|[? (q & Hq & He)]]; [by left|]. right. split; [done|].
  exists q. split; [done|]. revert He. rewrite /expired /=.
  destruct (decide (p = q)) as [->|Hne]; [by rewrite lookup_insert_eq Hb Hr|].
  by rewrite lookup_insert_ne.
Qed.

Ltac swept_cases Sw k :=
  destruct (swept_current _ _ _ k Sw) as [Hcur|(Hcur & pd & bd & Hcur2 & Hexp)].

Lemma swept_renew t l l' k now :
  swept t l l' → wf l → t <= now → swept t (renew l now k) (renew l' now k).
Proof.
  intros Sw W Ht. rewrite /renew (sw_window _ _ _ Sw).
  pose proof (λ b, swept_install t l l' k b Sw W) as Hi.
  swept_cases Sw k; [rewrite Hcur|rewrite Hcur Hcur2].
  - destruct (current l k) as [[p b]|]; [destruct (negb _)|]; auto.
  - replace (negb (Go.before now (resetAt bd))) with true by (rewrite /Go.before; lia). auto.
Qed.

Lemma renew_live l k now : ∃ p b, current (renew l now k) k = Some (p, b).
Proof.
  rewrite /renew. destruct (current l k) as [[p b]|] eqn:Hc; [destruct (negb _)|];
    eauto using current_install_eq.
Qed.

Lemma renew_current t l l' k now :
  swept t l l' → wf l → t <= now →
  current (renew l' now k) k = current (renew l now k) k.
Proof.
  intros Sw W Ht. rewrite /renew (sw_window _ _ _ Sw).
  swept_cases Sw k; [rewrite Hcur|rewrite Hcur Hcur2].
  - destruct (current l k) as [[p b]|] eqn:E; [destruct (negb _)|];
      solve [congruence|by rewrite !current_install_eq (sw_next _ _ _ Sw)].
  - replace (negb (Go.before now (resetAt bd))) with true by (rewrite /Go.before; lia).
    by rewrite !current_install_eq (sw_next _ _ _ Sw).
Qed.

Lemma swept_allow t l l' k now :
  swept t l l' → wf l → t <= now →
  swept t (allow l now k).1 (allow l' now k).1 ∧ (allow l' now k).2 = (allow l now k).2.
Proof.
  intros Sw W Ht. rewrite /allow (sw_window _ _ _ Sw) (sw_max _ _ _ Sw).
  pose proof (λ b, swept_install t l l' k b Sw W) as Hi.
  swept_cases Sw k; [rewrite Hcur|rewrite Hcur Hcur2].
  - destruct (current l k) as [[p b]|] eqn:Hc; [|by split; [apply Hi|]].
    destruct (Go.after now (resetAt b)); [by split; [apply Hi|]|]. split; [|done]. simpl.
    apply current_Some in Hc as [_ Hb].
    rewrite /set_cells (sw_states _ _ _ Sw) (sw_next _ _ _ Sw).
    by eapply swept_update.
  - replace (Go.after now (resetAt bd)) with true by (rewrite /Go.after; lia).
    by split; [apply Hi|].
Qed.

Lemma swept_Reserve t l l' k now :
  swept t l l' → wf l → t <= now →
  swept t (Reserve l now k).1 (Reserve l' now k).1 ∧ (Reserve l' now k).2 = (Reserve l now k).2.
Proof.
  intros Sw W Ht. rewrite /Reserve -/(renew l now k) -/(renew l' now k).
  pose proof (swept_renew t l l' k now Sw W Ht) as S1.
  rewrite (renew_current t l l' k now Sw W Ht).
  destruct (renew_live l k now) as (p & b & Hc). rewrite Hc (sw_max _ _ _ S1).
  destruct (_ <=? _); [done|]. rewrite /= (sw_states _ _ _ S1) (sw_next _ _ _ S1).
  split; [|done]. apply current_Some in Hc as [_ Hb].
  pose proof (swept_update t _ _ p b (mkBucket (count b + 1) (resetAt b))
    (<[next (renew l now k) := mkState k p false]> (states (renew l now k)))
    (S (next (renew l now k))) S1 Hb eq_refl) as H. by rewrite (sw_max _ _ _ S1) in H.
Qed.

Lemma swept_Refund t l l' r now :
  swept t l l' → wf l → t <= now →
  swept t (Refund l now r).1 (Refund l' now r).1 ∧ (Refund l' now r).2 = (Refund l now r).2.
Proof.
  intros Sw W Ht. rewrite /Refund (sw_states _ _ _ Sw). destruct r as [a|]; [|done].
  destruct (states l !! a) as [s|] eqn:Ha; [|done]. destruct (refunded s); [done|].
  rewrite /= (sw_cells _ _ _ Sw).
  set (sts := <[a := _]> (states l)).
  assert (S1 : swept t (set_states l sts) (set_states l' sts)).
  { destruct Sw. by split. }
  destruct (cells l !! sbucket s) as [b|] eqn:Hb; [|done].
  destruct (sw_buckets _ _ _ Sw (skey s)) as [Hk|(Hk & p & Hp & He)].
  - rewrite Hk. destruct (_ || _); [done|]. split; [|done].
    rewrite /= /set_cells /= (sw_next _ _ _ Sw) (sw_max _ _ _ Sw) (sw_window _ _ _ Sw).
    pose proof (swept_update t l l' (sbucket s) b (mkBucket (count b - 1) (resetAt b)) sts
      (next l) Sw Hb eq_refl) as H. rewrite (sw_max _ _ _ Sw) (sw_window _ _ _ Sw) in H.
    by rewrite (sw_cells _ _ _ Sw) in H.
  - rewrite Hk Hp. rewrite (bool_decide_eq_false_2 (None = _)) //=.
    destruct (decide (p = sbucket s)) as [->|Hne].
    + rewrite /expired Hb /Go.after in He. rewrite /Go.before.
      replace (now <? resetAt b) with false by lia. by rewrite orb_true_r.
    + rewrite bool_decide_eq_false_2; [congruence|done].
Qed.

Lemma swept_sweep t l l' now : swept t l l' → swept t (sweep l now) (sweep l' now).
Proof.
  intros Sw. assert (He : ∀ p, expired l' now p = expired l now p)
    by (intros p; by rewrite /expired (sw_cells _ _ _ Sw)).
  pose proof Sw as []. split; simpl; try congruence. intros k.
  rewrite !map_lookup_filter /=.
  destruct (sw_buckets0 k) as [Hk|(Hk & p & Hp & Hx)].
  - left. rewrite Hk. destruct (buckets l !! k) as [q|]; [|done]. simpl.
    case_guard as H1; case_guard as H2; simpl in *; try done; exfalso;
      rewrite He in H1; by apply H1 || apply H2.
  - rewrite Hk Hp. simpl. case_guard; [right|by left]. split; [done|]. by exists p.
Qed.

(** The background sweeper is unobservable: running it at time [t] before
    any sequence of operations at times from [t] on changes neither an answer
    nor a reservation handle. *)
Theorem sweep_unobservable l t ops :
  wf l → Forall (λ o, t <= op_time o) ops →
  (run (sweep l t) ops).2 = (run l ops).2.
Proof.
  intros W Hops.
  assert (S : swept t l (sweep l t)).
  { split; try done. intros k. simpl. rewrite map_lookup_filter.
    destruct (buckets l !! k) as [p|] eqn:Hk; simpl; [|by left].
    case_guard as He; [by left|]. right. split; [done|]. exists p. split; [done|].
    simpl in He. by destruct (expired l t p). }
  revert S. generalize (sweep l t) as l'. revert l W.
  induction Hops as [|o ops Ho Hops IH]; intros l W l' S; [done|].
  rewrite !run_cons /=. pose proof (wf_exec l o W) as W1.
  enough (swept t (exec l o).1 (exec l' o).1 ∧ (exec l' o).2 = (exec l o).2) as [S1 ->].
  { f_equal. by apply IH. }
  destruct o as [now k|now k|now r|now]; simpl in Ho |- *.
  - destruct (swept_allow t l l' k now S W Ho) as [S1 H1].
    destruct (allow l now k), (allow l' now k); simpl in *; by subst.
  - destruct (swept_Reserve t l l' k now S W Ho) as [S1 H1].
    destruct (Reserve l now k), (Reserve l' now k); simpl in *; by subst.
  - destruct (swept_Refund t l l' r now S W Ho) as [S1 H1].
    destruct (Refund l now r), (Refund l' now r); simpl in *; by subst.
  - split; [by apply swept_sweep|done].
Qed.

(** * Concrete instances: two requests a window of ten *)

Definition reserve_run : list op :=
  [OpReserve 0 "u"; OpReserve 1 "u"; OpReserve 2 "u"; OpRefund 3 (Some 1%nat);
   OpRefund 3 (Some 1%nat); OpReserve 4 "u"].

Lemma Reserve_bounds_inflight_witness :
  snd (run (NewLimiter 2 10) reserve_run) =
    [(true, Some 1%nat); (true, Some 2%nat); (false, None); (true, None); (false, None);
     (true, Some 3%nat)] ∧
  0 <= outstanding (run (NewLimiter 2 10) reserve_run).1 0 <= 2.
Proof.
  split; [vm_compute; reflexivity|].
  destruct (Reserve_bounds_inflight 2 10 reserve_run 0 (mkBucket 2 10)) as [H1 H2].
  - lia.
  - repeat constructor.
  - vm_compute. reflexivity.
  - split; [apply H1|]. transitivity (count (mkBucket 2 10)); [apply H1|exact H2].
Defined.

Definition hit_run : list op :=
  [OpAllow 1 "u"; OpSweep 5; OpAllow 6 "v"; OpAllow 10 "u"; OpAllow 10 "u"].

Lemma allow_budget_witness :
  granted "u" (OpAllow 0 "u" :: hit_run) (run (NewLimiter 2 10) (OpAllow 0 "u" :: hit_run)).2 = 2.
Proof.
  rewrite allow_budget.
  - apply wf_NewLimiter.
  - intros p b H. vm_compute in H. discriminate.
  - repeat constructor; vm_compute; intros; discriminate.
  - vm_compute. reflexivity.
Defined.

Lemma sweep_unobservable_witness :
  (run (sweep (run (NewLimiter 2 10) [OpAllow 0 "u"; OpReserve 0 "w"]).1 20)
       [OpAllow 20 "u"; OpRefund 21 (Some 3%nat)]).2 =
  [(true, None); (false, None)].
Proof.
  rewrite sweep_unobservable.
  - apply wf_run, wf_NewLimiter.
  - repeat constructor; vm_compute; intros; discriminate.
  - vm_compute. reflexivity.
Defined.

End RateLimit.
