(* ===== verification/ClientIP.v ===== *)
(** Which client a request counts against
    ([src/api/internal/middleware/ratelimit.go]): the address behind the trusted
    proxies, the source it is limited as, and the limiting middlewares on top of
    [RateLimit].

    Of [net] and [net/netip] the parts the code uses are modelled: [SplitHostPort],
    [ParseIP], [IPNet.Contains] and the texts of addresses and prefixes. *)

From Stdlib Require Import Ascii.
From S2P Require Import Prelude GoText GoStrings GoSearch NetIP RateLimit.

Local Open Scope Z_scope.

Module ClientIP.
Import GoText GoStrings GoSearch NetIP.

(** * [net] *)
Definition SplitHostPort (hostport : string) : option (string * string) :=
  match LastIndexByte hostport ":" with
  | None => None
  | Some i =>
    let port := sdrop (S i) hostport in
    match hostport with
    | String "[" _ =>
      match IndexByte hostport "]" with
      | None => None
      | Some e =>
        if negb (S e =? i)%nat then None else
        if IndexByte (sdrop 1 hostport) "[" then None else
        if IndexByte (sdrop (S e) hostport) "]" then None else
        Some (stake (e - 1) (sdrop 1 hostport), port)
      end
    | _ =>
      let host := stake i hostport in
      if IndexByte host ":" then None else
      if IndexByte hostport "[" then None else
      if IndexByte hostport "]" then None else
      Some (host, port)
    end
  end.

(** An [IP] is its bytes. *)
Abbreviation IP := (list Z) (only parsing).

(** The low [n] bytes of a number, most significant first. *)
Fixpoint bytesOf (n : nat) (v : Z) : list Z :=
  match n with O => [] | S n' => bytesOf n' (Z.shiftr v 8) ++ [Z.land v 255] end.

Definition mappedPrefix : list Z := replicate 10 0 ++ [255; 255].

(** [As16]. *)
Definition As16 (a : Addr) : list Z :=
  match a with
  | Addr4 v => mappedPrefix ++ bytesOf 4 v
  | Addr6 v _ => bytesOf 16 v
  | AddrZero => replicate 16 0
  end.

Definition ParseIP (s : string) : option IP :=
  match ParseAddr s with
  | Some a => if (Zone a =?s EmptyString)%go then Some (As16 a) else None
  | None => None
  end.

Definition To4 (ip : IP) : option IP :=
  if (length ip =? 4)%nat then Some ip else
  if (length ip =? 16)%nat && bool_decide (take 12 ip = mappedPrefix) then Some (drop 12 ip) else None.

Record IPNet := mkNet { n_IP : IP; n_Mask : list Z }.

Definition networkNumberAndMask (n : IPNet) : option (IP * list Z) :=
  let ip := default (n_IP n) (To4 (n_IP n)) in
  if negb ((length ip =? 4)%nat || (length ip =? 16)%nat) then None else
  if (length (n_Mask n) =? 4)%nat then if (length ip =? 4)%nat then Some (ip, n_Mask n) else None else
  if (length (n_Mask n) =? 16)%nat
  then Some (ip, if (length ip =? 4)%nat then drop 12 (n_Mask n) else n_Mask n)
  else None.

Definition netContains (n : IPNet) (ip : IP) : bool :=
  let '(nn, m) := default ([], []) (networkNumberAndMask n) in
  let ip := default ip (To4 ip) in
  (length ip =? length nn)%nat &&
  forallb (λ '(a, (b, c)), Z.land a c =? Z.land b c) (zip nn (zip ip m)).

(** * The client behind the proxies *)
Definition isTrustedProxy (ip : IP) (cidrs : list (option IPNet)) : bool :=
  existsb (λ c, match c with Some n => netContains n ip | None => false end) cidrs.

(** The parts of a request that are read: the peer, the lines of the forwarding
    header, the path and the route pattern.  [Header.Get] is the first line. *)
Record request := mkRequest { RemoteAddr : string; ForwardedFor : list string; URLPath : string; Pattern : string }.
Definition XForwardedFor (r : request) : string := default EmptyString (head (ForwardedFor r)).

Definition peerHost (r : request) : string :=
  match SplitHostPort (RemoteAddr r) with Some (h, _) => h | None => RemoteAddr r end.

(** The walk from the last entry; [es] is the reversed list. *)
Fixpoint lastUntrusted (cidrs : list (option IPNet)) (es : list string) : option string :=
  match es with
  | [] => None
  | e :: es' =>
    let candidate := TrimSpace e in
    match ParseIP candidate with
    | None => lastUntrusted cidrs es'
    | Some ip => if isTrustedProxy ip cidrs then lastUntrusted cidrs es' else Some candidate
    end
  end.

Definition ClientIP (r : request) (trustedProxies : list (option IPNet)) : string :=
  let host := peerHost r in
  let trusted :=
    match ParseIP host with
    | None => false
    | Some peer => negb (length trustedProxies =? 0)%nat && isTrustedProxy peer trustedProxies
    end in
  if negb trusted then host else
  if (XForwardedFor r =?s EmptyString)%go then host else
  default host (lastUntrusted trustedProxies (rev (Split (XForwardedFor r) ","))).

(** * What a client is limited as *)
Definition WithoutZone (a : Addr) : Addr := match a with Addr6 v _ => Addr6 v EmptyString | _ => a end.

Definition dotted (v : Z) : string :=
  Join (itoa <$> [Z.land (Z.shiftr v 24) 255; Z.land (Z.shiftr v 16) 255; Z.land (Z.shiftr v 8) 255; Z.land v 255]) ".".

(** The eight groups of an IPv6 address, and the longest run of at least two
    zero groups, the first of them, as its start and end. *)
Definition groups16 (v : Z) : list Z := (λ i, Z.land (Z.shiftr v (16 * i)) 0xffff) <$> [7; 6; 5; 4; 3; 2; 1; 0].

Fixpoint zeroRun (gs : list Z) : nat := match gs with 0 :: gs' => S (zeroRun gs') | _ => O end.
Fixpoint longestRun (i : nat) (gs : list Z) (best : nat * nat) : nat * nat :=
  match gs with
  | [] => best
  | _ :: gs' =>
    let n := zeroRun gs in
    longestRun (S i) gs' (if (2 <=? n)%nat && (best.2 - best.1 <? n)%nat then (i, (i + n)%nat) else best)
  end.

Definition hexDigit (d : Z) : ascii := chr (if d <? 10 then 48 + d else 87 + d).
Fixpoint hexDigits (fuel : nat) (v : Z) (acc : string) : string :=
  match fuel with
  | O => acc
  | S fuel' =>
    let acc := String (hexDigit (Z.land v 15)) acc in
    if v <? 16 then acc else hexDigits fuel' (Z.shiftr v 4) acc
  end.
Definition hex16 (v : Z) : string := hexDigits 4 v EmptyString.

Definition string6 (v : Z) : string :=
  let gs := groups16 v in
  let '(s, e) := longestRun 0 gs (0%nat, 0%nat) in
  if (s =? e)%nat then Join (hex16 <$> gs) ":"
  else Join (hex16 <$> take s gs) ":" +:+ "::" +:+ Join (hex16 <$> drop e gs) ":".

Definition nat64WellKnown : Prefix := mkPrefix (Addr6 (Z.shiftl 0x0064ff9b 96) EmptyString) 96.

(** The IPv4 address a source embeds, or its /64. *)
Inductive bucket := Bucket4 (v : Z) | Bucket6 (net : Z) | BucketZero.

Definition bucketOf (a : Addr) : bucket :=
  match Unmap (WithoutZone a) with
  | AddrZero => BucketZero
  | Addr4 v => Bucket4 v
  | Addr6 v z =>
    if Z.shiftr v 112 =? 0x2002 then Bucket4 (Z.land (Z.shiftr v 80) 0xffffffff) else
    if Contains nat64WellKnown (Addr6 v z) then Bucket4 (Z.land v 0xffffffff) else
    Bucket6 (clearLow v 64)
  end.

Definition bucketString (b : bucket) : string :=
  match b with
  | Bucket4 v => dotted v
  | Bucket6 net => string6 net +:+ "/64"
  | BucketZero => "invalid Prefix"
  end.

Definition rateLimitSubject (clientIP : string) : string :=
  match ParseAddr clientIP with
  | None => clientIP
  | Some a => bucketString (bucketOf a)
  end.

(** * The middlewares: the key a request is counted under *)
Definition ipKey (trusted : list (option IPNet)) (r : request) : string :=
  URLPath r +:+ "|" +:+ rateLimitSubject (ClientIP r trusted).

(** [who]: the id of the authenticated user, or of the worker. *)
Definition subjectKey (trusted : list (option IPNet)) (who : option string) (r : request) : string :=
  (if (Pattern r =?s EmptyString)%go then URLPath r else Pattern r) +:+ "|" +:+
  default (rateLimitSubject (ClientIP r trusted)) who.

(** [true] passes the request on, [false] answers 429. *)
Definition Middleware (trusted : list (option IPNet)) (l : RateLimit.Limiter) (now : time) (r : request)
    : RateLimit.Limiter * bool := RateLimit.allow l now (ipKey trusted r).
Definition PerSubjectMiddleware (trusted : list (option IPNet)) (who : option string) (l : RateLimit.Limiter)
    (now : time) (r : request) : RateLimit.Limiter * bool := RateLimit.allow l now (subjectKey trusted who r).

Example texts :
  (string6 0x20010db8000000000000000000000001, string6 1, string6 0x00010000000000020000000000000003, string6 0,
   dotted 0x01020304) = ("2001:db8::1", "::1", "1:0:0:2::3", "::", "1.2.3.4").
Proof. vm_compute. reflexivity. Qed.
Example hostports :
  SplitHostPort <$> ["1.2.3.4:80"; "[::1]:443"; "::1"; "[::1]"; "a:b:c"; "[a]b:1"; "h:"] =
  [Some ("1.2.3.4", "80"); Some ("::1", "443"); None; None; None; None; Some ("h", "")].
Proof. vm_compute. reflexivity. Qed.

(** * Forwarding headers *)
Lemma lastUntrusted_app cidrs es es' c : lastUntrusted cidrs es = Some c → lastUntrusted cidrs (es ++ es') = Some c.
Proof.
  induction es as [|e es IH]; simpl; [done|]. destruct (ParseIP (TrimSpace e)) as [ip|]; [|done].
  by destruct (isTrustedProxy ip cidrs).
Qed.

(** An entry that is passed over: it is no address, or one of a trusted proxy. *)
Definition passed (cidrs : list (option IPNet)) (e : string) : Prop :=
  ∀ ip, ParseIP (TrimSpace e) = Some ip → isTrustedProxy ip cidrs = true.
Definition outside (cidrs : list (option IPNet)) (e : string) : Prop :=
  ∃ ip, ParseIP (TrimSpace e) = Some ip ∧ isTrustedProxy ip cidrs = false.
Lemma lastUntrusted_spec cidrs es :
  match lastUntrusted cidrs es with
  | Some c => ∃ post e pre, es = post ++ e :: pre ∧ Forall (passed cidrs) post ∧ outside cidrs e ∧ c = TrimSpace e
  | None => Forall (passed cidrs) es
  end.
Proof.
  induction es as [|e es IH]; simpl; [constructor|].
  assert (match lastUntrusted cidrs es with
    | Some c => passed cidrs e → ∃ post e' pre, e :: es = post ++ e' :: pre ∧ Forall (passed cidrs) post ∧ outside cidrs e' ∧ c = TrimSpace e'
    | None => passed cidrs e → Forall (passed cidrs) (e :: es) end) as Hskip.
  { destruct (lastUntrusted cidrs es); [|by constructor]. destruct IH as (post & e' & pre & -> & ? & ? & ->). intros He.
    exists (e :: post), e', pre. split_and!; [done|by constructor|done..]. }
  destruct (ParseIP (TrimSpace e)) as [ip|] eqn:Ep; [destruct (isTrustedProxy ip cidrs) eqn:Et|].
  - destruct (lastUntrusted cidrs es); apply Hskip; intros ip'; rewrite Ep; by intros [= <-].
  - exists [], e, es. split_and!; [done|constructor|by exists ip|done].
  - destruct (lastUntrusted cidrs es); apply Hskip; intros ip'; by rewrite Ep.
Qed.

Definition withXFF (r : request) (lines : list string) : request := mkRequest (RemoteAddr r) lines (URLPath r) (Pattern r).
Definition trustedPeer (r : request) (cidrs : list (option IPNet)) : bool :=
  match ParseIP (peerHost r) with Some ip => isTrustedProxy ip cidrs | None => false end.

Lemma ClientIP_unfold r cidrs : ClientIP r cidrs =
  if negb (trustedPeer r cidrs) || (XForwardedFor r =?s EmptyString)%go then peerHost r
  else default (peerHost r) (lastUntrusted cidrs (rev (Split (XForwardedFor r) ","))).
Proof.
  rewrite /ClientIP /trustedPeer. destruct (ParseIP (peerHost r)) as [ip|]; [|done].
  destruct cidrs; simpl; [done|]. by destruct (_ || _), (_ =?s _)%go.
Qed.

(** The client of a request: the peer, unless it is a trusted proxy; then the last
    entry of the header that is an address outside the trusted set, where there is
    one. *)
Inductive client (cidrs : list (option IPNet)) (r : request) : string → Prop :=
  | C_direct : trustedPeer r cidrs = false → client cidrs r (peerHost r)
  | C_entry pre e post : trustedPeer r cidrs = true → Split (XForwardedFor r) "," = pre ++ e :: post →
      outside cidrs e → Forall (passed cidrs) post → client cidrs r (TrimSpace e)
  | C_none : trustedPeer r cidrs = true → Forall (passed cidrs) (Split (XForwardedFor r) ",") → client cidrs r (peerHost r).

Lemma ClientIP_client r cidrs : client cidrs r (ClientIP r cidrs).
Proof.
  rewrite ClientIP_unfold. destruct (trustedPeer r cidrs) eqn:Ht; simpl; [|by apply C_direct].
  destruct (XForwardedFor r =?s EmptyString)%go eqn:Ex.
  { apply C_none; [done|]. apply String.eqb_eq in Ex as ->. constructor; [|constructor]. intros ip. by vm_compute. }
  pose proof (lastUntrusted_spec cidrs (rev (Split (XForwardedFor r) ","))) as Hl.
  destruct (lastUntrusted _ _) as [c|]; simpl.
  - destruct Hl as (post & e & pre & Es & Hp & Ho & ->). apply (C_entry _ _ (rev pre) e (rev post)); [done| |done|].
    + by rewrite -(rev_involutive (Split _ _)) Es rev_app_distr /= -app_assoc.
    + apply Forall_forall. intros x Hx. rewrite Forall_forall in Hp. apply Hp, list_elem_of_In, in_rev, list_elem_of_In. done.
  - apply C_none; [done|]. apply Forall_forall. intros x Hx. rewrite Forall_forall in Hl.
    apply Hl, list_elem_of_In. apply -> in_rev. by apply list_elem_of_In.
Qed.
(** Of two such entries the later one is not passed over, so there is one client. *)
Lemma outside_passed cidrs e : outside cidrs e → passed cidrs e → False.
Proof. intros (ip & Hp & Ht) Hx. by rewrite (Hx ip Hp) in Ht. Qed.
Lemma split_last cidrs pre e post pre' e' post' : pre ++ e :: post = pre' ++ e' :: post' →
  outside cidrs e → outside cidrs e' → Forall (passed cidrs) post → Forall (passed cidrs) post' → e = e'.
Proof.
  intros Heq He He' Hp Hp'. revert pre' Heq. induction pre as [|x pre IH]; intros [|y pre'] Heq; simplify_eq/=; [done|..].
  - rewrite Forall_app in Hp. destruct Hp as [_ Hp]. inversion Hp; subst. by destruct (outside_passed cidrs e').
  - rewrite Forall_app in Hp'. destruct Hp' as [_ Hp']. inversion Hp'; subst. by destruct (outside_passed cidrs e).
  - by apply (IH pre').
Qed.
Lemma client_unique cidrs r c c' : client cidrs r c → client cidrs r c' → c = c'.
Proof.
  assert (∀ pre e post l, l = pre ++ e :: post → outside cidrs e → Forall (passed cidrs) l → False) as Hno.
  { intros pre e post l -> He [_ Hp]%Forall_app. inversion Hp; subst. by apply (outside_passed cidrs e). }
  intros Hc. revert c'. destruct Hc as [Ht|pre e post Ht Hs Ho Hp|Ht Hp]; intros c' Hc'.
  all: destruct Hc' as [Ht'|pre' e' post' Ht' Hs' Ho' Hp'|Ht' Hp']; try congruence.
  - f_equal. rewrite Hs in Hs'. by eapply split_last.
  - by destruct (Hno _ _ _ _ Hs Ho Hp').
  - by destruct (Hno _ _ _ _ Hs' Ho' Hp).
Qed.

(** C28. A forwarding header cannot forge the client.  From a peer that is not a
    trusted proxy it is ignored.  From a trusted one the client is the last entry that
    is an address outside the trusted set, and the peer only when there is none; so
    nothing a client puts in front of what the proxies appended changes the answer. *)
Theorem ClientIP_unforged r cidrs :
  (∀ c, ClientIP r cidrs = c ↔ client cidrs r c) ∧
  (trustedPeer r cidrs = false → ∀ lines, ClientIP (withXFF r lines) cidrs = peerHost r) ∧
  (∀ forged appended lines, Exists (outside cidrs) (Split appended ",") →
     ClientIP (withXFF r ((forged +:+ "," +:+ appended) :: lines)) cidrs = ClientIP (withXFF r [appended]) cidrs).
Proof.
  split_and!.
  - intros c. split; [intros <-; apply ClientIP_client|]. intros Hc. eapply client_unique; [apply ClientIP_client|exact Hc].
  - intros Ht lines. rewrite ClientIP_unfold. by rewrite /trustedPeer in Ht |- *; rewrite Ht.
  - intros forged appended lines Hex. eapply (client_unique cidrs (withXFF r ((forged +:+ "," +:+ appended) :: lines))); [apply ClientIP_client|].
    pose proof (ClientIP_client (withXFF r [appended]) cidrs) as Hc.
    assert (Split (forged +:+ "," +:+ appended) "," = Split forged "," ++ Split appended ",") as Es.
    { change (forged +:+ "," +:+ appended) with (forged +:+ String "," appended). apply Split_app. }
    destruct Hc as [Ht|pre e post Ht Hs Ho Hp|Ht Hp].
    + exact (C_direct _ (withXFF r ((forged +:+ "," +:+ appended) :: lines)) Ht).
    + apply (C_entry _ _ (Split forged "," ++ pre) e post); [done| |done|done]. cbn. rewrite Es -app_assoc. f_equal. exact Hs.
    + apply Exists_exists in Hex as (e & He & Ho). rewrite Forall_forall in Hp. by destruct (outside_passed cidrs e Ho (Hp e He)).
Qed.

(** * Sources *)
Lemma shiftr_hi v n : 0 <= n → Z.shiftr v (64 + n) = Z.shiftr (Z.shiftr v 64) n.
Proof. intros Hn. by rewrite Z.shiftr_shiftr. Qed.

(** Two addresses of one /64 are one source, unless the /64 is where the
    IPv4-mapped or the translated addresses live. *)
Lemma same_bucket v v' z z' : Z.shiftr v 64 = Z.shiftr v' 64 →
  Z.shiftr v 64 ≠ 0 → Z.shiftr v 64 ≠ 0x0064ff9b00000000 →
  bucketOf (Addr6 v z) = bucketOf (Addr6 v' z').
Proof.
  intros E N0 N1.
  assert (∀ w, Z.shiftr w 64 = Z.shiftr v 64 → bucketOf (Addr6 w EmptyString) =
    if Z.shiftr (Z.shiftr v 64) 48 =? 0x2002 then Bucket4 (Z.land (Z.shiftr (Z.shiftr v 64) 16) 0xffffffff)
    else Bucket6 (Z.shiftl (Z.shiftr v 64) 64)) as Hb.
  { intros w Ew. rewrite /bucketOf. cbn [WithoutZone Unmap Is4In6].
    assert (Z.shiftr w 32 =? 0xffff = false) as ->.
    { apply Z.eqb_neq. intros H. apply N0. rewrite -Ew. change 64 with (32 + 32).
      rewrite -Z.shiftr_shiftr // H. reflexivity. }
    change 112 with (64 + 48). change 80 with (64 + 16). rewrite !shiftr_hi // Ew.
    destruct (_ =? 0x2002); [done|].
    assert (Contains nat64WellKnown (Addr6 w EmptyString) = false) as ->.
    { apply not_true_is_false. intros H. apply N1. rewrite -Ew.
      cbn [Contains nat64WellKnown p_addr p_bits] in H. apply Z.eqb_eq in H.
      change (128 - 96) with 32 in H. rewrite Z.shiftr_lxor in H. apply Z.lxor_eq in H.
      change 64 with (32 + 32). rewrite -Z.shiftr_shiftr // H. reflexivity. }
    by rewrite /clearLow Ew. }
  change (bucketOf (Addr6 v z)) with (bucketOf (Addr6 v EmptyString)).
  change (bucketOf (Addr6 v' z')) with (bucketOf (Addr6 v' EmptyString)). by rewrite !Hb.
Qed.

(** A request to [path] from a source. *)
Definition fromBucket (trusted : list (option IPNet)) (path : string) (b : bucket) (r : request) : Prop :=
  URLPath r = path ∧ ∃ a, ParseAddr (ClientIP r trusted) = Some a ∧ bucketOf a = b.

Lemma ipKey_bucket trusted path b r : fromBucket trusted path b r →
  ipKey trusted r = path +:+ "|" +:+ bucketString b.
Proof. intros [Hp (a & Ha & <-)]. by rewrite /ipKey Hp /rateLimitSubject Ha. Qed.

(** The requests of a sequence as operations of the limiter. *)
Definition limited (trusted : list (option IPNet)) (hits : list (time * request)) : list RateLimit.op :=
  (λ '(t, r), RateLimit.OpAllow t (ipKey trusted r)) <$> hits.

Lemma hits_limited trusted path b hits : Forall (λ h, fromBucket trusted path b h.2) hits →
  RateLimit.hits (path +:+ "|" +:+ bucketString b) (limited trusted hits) = Z.of_nat (length hits).
Proof.
  induction 1 as [|[t r] hits Hr _ IH]; [done|]. cbn [limited fmap list_fmap]. rewrite RateLimit.hits_cons.
  fold (limited trusted hits). rewrite IH /RateLimit.hits_key (ipKey_bucket _ _ _ _ Hr) bool_decide_eq_true_2 //.
  cbn [length]. lia.
Qed.

(** One source has one budget: however it spreads its requests to a path over
    the addresses of its /64, or over the IPv6 forms of its IPv4 address, the
    window that its first request opens lets exactly the budget through. *)
Theorem one_budget l trusted path b t0 r0 hits :
  RateLimit.wf l → (∀ p k, RateLimit.current l (path +:+ "|" +:+ bucketString b) = Some (p, k) → RateLimit.resetAt k < t0) →
  fromBucket trusted path b r0 → Forall (λ h, fromBucket trusted path b h.2 ∧ h.1 <= t0 + RateLimit.window l) hits →
  let ops := limited trusted ((t0, r0) :: hits) in
  RateLimit.granted (path +:+ "|" +:+ bucketString b) ops (RateLimit.run l ops).2 =
  Z.min (Z.of_nat (S (length hits))) (Z.max 1 (RateLimit.max l)).
Proof.
  intros W Hfresh H0 Hh. cbv zeta. cbn [limited fmap list_fmap]. fold (limited trusted hits).
  rewrite (ipKey_bucket _ _ _ _ H0). rewrite RateLimit.allow_budget //.
  - apply Forall_fmap. eapply Forall_impl; [exact Hh|]. intros [t r] [_ Ht]. done.
  - f_equal. rewrite RateLimit.hits_cons.
    rewrite (hits_limited trusted path b hits); [by eapply Forall_impl; [exact Hh|]; intros h [? _]|].
    rewrite /RateLimit.hits_key bool_decide_eq_true_2 //. lia.
Qed.

(** * A deployment behind one proxy range *)
Module Example.

(** 10.0.0.0/8. *)
Definition proxies : list (option IPNet) := [Some (mkNet [10; 0; 0; 0] [255; 0; 0; 0])].
Definition behind (xff : string) : request := mkRequest "10.1.2.3:4711" [xff] "/api/login" EmptyString.
Definition limiter : RateLimit.Limiter := RateLimit.NewLimiter 2 Go.Minute.

Example forged_ignored :
  ClientIP (behind "1.1.1.1, 2001:db8::7, 10.9.9.9") proxies = "2001:db8::7".
Proof. vm_compute. reflexivity. Qed.
Example direct_ignored :
  ClientIP (mkRequest "203.0.113.9:1" ["1.1.1.1"] "/" EmptyString) proxies = "203.0.113.9".
Proof. vm_compute. reflexivity. Qed.

Lemma ClientIP_unforged_witness :
  trustedPeer (mkRequest "203.0.113.9:1" [] "/" EmptyString) proxies = false ∧
  ClientIP (withXFF (mkRequest "203.0.113.9:1" [] "/" EmptyString) ["1.1.1.1"]) proxies = "203.0.113.9" ∧
  ClientIP (withXFF (behind EmptyString) [("9.9.9.9" +:+ "," +:+ "198.51.100.7, 10.0.0.5"); "8.8.8.8"]) proxies = "198.51.100.7".
Proof.
  split; [vm_compute; reflexivity|]. split.
  { exact (proj1 (proj2 (ClientIP_unforged (mkRequest "203.0.113.9:1" [] "/" EmptyString) proxies)) eq_refl ["1.1.1.1"]). }
  etrans; [apply (proj2 (proj2 (ClientIP_unforged (behind EmptyString) proxies)))|vm_compute; reflexivity].
  apply Exists_cons_hd. exists (replicate 10 0 ++ [255; 255; 198; 51; 100; 7]). vm_compute. split; reflexivity.
Defined.

Lemma from_net r :
  (URLPath r, bucketOf <$> ParseAddr (ClientIP r proxies)) =
    ("/api/login", Some (Bucket6 0x20010db8000000000000000000000000)) →
  fromBucket proxies "/api/login" (Bucket6 0x20010db8000000000000000000000000) r.
Proof.
  intros [= Hp Hb]. split; [done|]. destruct (ParseAddr _) as [a|]; [|done]. exists a. split; [done|]. by injection Hb.
Qed.

(** Three requests from three addresses of one /64. *)
Lemma one_budget_witness :
  let ops := limited proxies [(1000, behind "2001:db8::1"); (1001, behind "2001:db8::2"); (1002, behind "2001:db8::ffff:3")] in
  RateLimit.granted "/api/login|2001:db8::/64" ops (RateLimit.run limiter ops).2 = 2.
Proof.
  cbv zeta.
  apply (one_budget limiter proxies "/api/login" (Bucket6 0x20010db8000000000000000000000000) 1000
    (behind "2001:db8::1") [(1001, behind "2001:db8::2"); (1002, behind "2001:db8::ffff:3")]).
  - apply RateLimit.wf_NewLimiter.
  - intros p k. vm_compute. done.
  - apply from_net. vm_compute. reflexivity.
  - apply Forall_cons. split; [|apply Forall_singleton].
    all: split; [apply from_net; vm_compute; reflexivity|vm_compute; discriminate].
Defined.

End Example.
End ClientIP.
