(* ===== verification/Board.v ===== *)
(** Kanban columns ([src/api/internal/board/board.go]) and the label update the
    issue cache performs for a move ([UpsertIssueLabels],
    [src/api/internal/store/forge.sql.go]).

    A Go map used as a dictionary is a [gmap], one used as a set a [gset]. *)

From S2P Require Import Prelude.

Local Open Scope Z_scope.

Module Board.

Definition ColumnInProgress : string := "In Progress".
Definition ColumnHumanReview : string := "Human Review".

(** ** Which column a card sits in *)

Record scan := mkScan { best : string; bestPos : Z; matches : Z }.

Definition resolveStep (position : gmap string Z) (s : scan) (l : string) : scan :=
  match position !! l with
  | None => s
  | Some pos =>
    if bestPos s <? pos then mkScan l pos (matches s + 1)
    else mkScan (best s) (bestPos s) (matches s + 1)
  end.

(** The column, whether the card is closed, whether several columns match. *)
Definition ResolveColumn (labels : list string) (state : string) (position : gmap string Z)
    : string * bool * bool :=
  if bool_decide (state = "closed") then (EmptyString, true, false) else
  let s := foldl (resolveStep position) (mkScan EmptyString (-1) 0) labels in
  (best s, false, 1 <? matches s).

(** ** The labels a move adds and removes *)

Definition PlanLabelMove (current : list string) (columnSet : gset string) (target : string)
    : list string * list string * list string :=
  let has : gset string := list_to_set current in
  let remove := filter (λ l, l ∈ columnSet ∧ l ≠ target) current in
  let add := if negb (bool_decide (target = EmptyString)) && negb (bool_decide (target ∈ has))
             then [target] else [] in
  let removeSet : gset string := list_to_set remove in
  let kept := filter (λ l, l ∉ removeSet) current in
  let newLabels :=
    if negb (bool_decide (target = EmptyString)) && negb (bool_decide (target ∈ has))
    then kept ++ [target] else kept in
  (add, remove, newLabels).

(** The [ON CONFLICT] label expression of [UpsertIssueLabels]: the survivors of
    the row in their order, then the added values the survivors lack, each once. *)
Definition upsertLabels (row add remove : list string) : list string :=
  let survivors := filter (λ l, l ∉ remove) row in
  survivors ++ foldl (λ out l, if bool_decide (l ∈ out) then out else out ++ [l]) []
                 (filter (λ l, l ∉ survivors) add).

Implicit Types (labels current : list string) (position : gmap string Z).

(** * Properties *)

Lemma elem_kept current (columnSet : gset string) target l :
  l ∈ filter (λ l, l ∉ (list_to_set (filter (λ l, l ∈ columnSet ∧ l ≠ target) current) : gset string))
        current ↔
  l ∈ current ∧ (l ∈ columnSet → l = target).
Proof.
  rewrite list_elem_of_filter elem_of_list_to_set list_elem_of_filter.
  destruct (decide (l = target)), (decide (l ∈ columnSet)); naive_solver.
Qed.

Lemma resolve_none position labels s :
  (∀ l, l ∈ labels → position !! l = None) → foldl (resolveStep position) s labels = s.
Proof.
  revert s. induction labels as [|l labels IH]; intros s H; [done|]. simpl.
  rewrite {2}/resolveStep H; [set_solver|]. apply IH. set_solver.
Qed.

(** A label set with exactly one column label resolves to it. *)
Lemma resolve_single position labels target pos state :
  NoDup labels → target ∈ labels → position !! target = Some pos → 0 <= pos →
  (∀ l, l ∈ labels → is_Some (position !! l) → l = target) → state ≠ "closed" →
  ResolveColumn labels state position = (target, false, false).
Proof.
  intros Hnd Hin Hpos Hge Honly Hst. rewrite /ResolveColumn bool_decide_eq_false_2 //.
  apply list_elem_of_split in Hin as (l1 & l2 & ->).
  apply NoDup_app in Hnd as (_ & Hd & [Ht _]%NoDup_cons).
  assert (Hnone : ∀ l, l ∈ l1 ++ l2 → position !! l = None).
  { intros l Hl. destruct (position !! l) eqn:E; [|done].
    assert (l = target) as -> by (apply Honly; [set_solver|eauto]).
    apply elem_of_app in Hl as [Hl|Hl]; [|done]. by destruct (Hd _ Hl); set_solver. }
  rewrite foldl_app (resolve_none position l1); [set_solver|]. simpl.
  rewrite resolve_none; [set_solver|].
  rewrite /resolveStep Hpos /=. by destruct (Z.ltb_spec (-1) pos); [|lia].
Qed.

Lemma resolve_open position labels state :
  (∀ l, l ∈ labels → position !! l = None) → state ≠ "closed" →
  ResolveColumn labels state position = (EmptyString, false, false).
Proof.
  intros Hnone Hst. rewrite /ResolveColumn bool_decide_eq_false_2 // resolve_none //.
Qed.

(** What a planned move does to the labels. *)
Lemma PlanLabelMove_spec current position target state :
  NoDup current → (∀ l pos, position !! l = Some pos → 0 <= pos) →
  position !! EmptyString = None →
  (target = EmptyString ∨ is_Some (position !! target)) →
  state ≠ "closed" →
  let '(add, remove, newLabels) := PlanLabelMove current (dom position) target in
  ResolveColumn newLabels state position = (target, false, false) ∧
  filter (λ l, position !! l = None) newLabels = filter (λ l, position !! l = None) current ∧
  (∀ l, l ∈ newLabels ↔ (l ∈ current ∧ l ∉ remove) ∨ l ∈ add) ∧
  (∀ l, l ∈ remove → l ∈ current ∧ is_Some (position !! l) ∧ l ≠ target).
Proof.
  intros Hnd Hpos Hempty Htgt Hst. rewrite /PlanLabelMove.
  set (remove := filter (λ l, l ∈ dom position ∧ l ≠ target) current).
  set (kept := filter (λ l, l ∉ (list_to_set remove : gset string)) current).
  assert (Hkept : ∀ l, l ∈ kept ↔ l ∈ current ∧ (l ∈ dom position → l = target))
    by (intros; apply elem_kept).
  assert (Hrem : ∀ l, l ∈ remove → l ∈ current ∧ is_Some (position !! l) ∧ l ≠ target).
  { intros l. rewrite list_elem_of_filter elem_of_dom. naive_solver. }
  assert (Hkn : NoDup kept) by (by apply NoDup_filter).
  assert (Hkr : ∀ l, l ∈ kept ↔ l ∈ current ∧ l ∉ remove).
  { intros l. rewrite list_elem_of_filter elem_of_list_to_set. tauto. }
  assert (Hnc : filter (λ l, position !! l = None) kept =
                filter (λ l, position !! l = None) current).
  { rewrite /kept list_filter_filter_l //. intros l Hl. rewrite elem_of_list_to_set.
    intros Hr. apply Hrem in Hr as (_ & [? ?] & _). congruence. }
  assert (Honly : ∀ l, l ∈ kept → is_Some (position !! l) → l = target)
    by (intros l [_ Hl]%Hkept ?; by apply Hl, elem_of_dom).
  case_bool_decide as Htg; simpl.
  { split_and!; [|done| |done].
    - subst target. apply resolve_open; [|done]. intros l Hl.
      destruct (position !! l) eqn:E; [|done]. rewrite -(Honly l Hl ltac:(eauto)) in Hempty. congruence.
    - intros l. rewrite Hkr. set_solver. }
  destruct Htgt as [|[pos Htp]]; [done|]. case_bool_decide as Hhas; simpl.
  { apply elem_of_list_to_set in Hhas. split_and!; [|done| |done].
    - apply (resolve_single position kept target pos); eauto. by apply Hkept.
    - intros l. rewrite Hkr. set_solver. }
  rewrite elem_of_list_to_set in Hhas. split_and!; [| | |done].
  - apply (resolve_single position _ target pos); eauto; [|set_solver|].
    + apply NoDup_app. split_and!; [done| |apply NoDup_singleton].
      intros l [Hl _]%Hkept ->%list_elem_of_singleton. done.
    + intros l [Hl| ->%list_elem_of_singleton]%elem_of_app; [|done]. by apply Honly.
  - rewrite filter_app Hnc filter_cons_False; [congruence|]. by rewrite filter_nil app_nil_r.
  - intros l. rewrite elem_of_app Hkr. set_solver.
Qed.

(** The upsert applied to the row the plan was computed from. *)
Lemma upsertLabels_plan current (columnSet : gset string) target :
  let '(add, remove, newLabels) := PlanLabelMove current columnSet target in
  upsertLabels current add remove = newLabels.
Proof.
  rewrite /PlanLabelMove /upsertLabels.
  set (remove := filter (λ l, l ∈ columnSet ∧ l ≠ target) current).
  assert (Hk : filter (λ l, l ∉ remove) current =
               filter (λ l, l ∉ (list_to_set remove : gset string)) current).
  { apply list_filter_iff. intros l. by rewrite elem_of_list_to_set. }
  rewrite Hk. case_bool_decide as Ht; simpl; [by rewrite app_nil_r|].
  case_bool_decide as Hin; simpl; [by rewrite app_nil_r|].
  rewrite elem_of_list_to_set in Hin. rewrite filter_cons_True //.
  rewrite list_elem_of_filter. tauto.
Qed.

(** The upsert never loses a label another writer added meanwhile: what it
    drops from the row is in [remove], what it adds is in [add]. *)
Lemma elem_dedup (out add : list string) l :
  l ∈ foldl (λ out l, if bool_decide (l ∈ out) then out else out ++ [l]) out add ↔
  l ∈ out ∨ l ∈ add.
Proof.
  revert out. induction add as [|x add IH]; intros out; simpl; [set_solver|].
  rewrite IH. case_bool_decide; set_solver.
Qed.

Lemma elem_upsertLabels row add remove l :
  l ∈ upsertLabels row add remove ↔ (l ∈ row ∧ l ∉ remove) ∨ l ∈ add.
Proof.
  rewrite /upsertLabels elem_of_app elem_dedup !list_elem_of_filter.
  destruct (decide (l ∈ remove)), (decide (l ∈ row)), (decide (l ∈ add)); set_solver.
Qed.

(** A planned move does what the board shows: applying the plan leaves the
    card in exactly the target column (Open for the empty target) with no
    conflict, keeps every label that is not a column in its order, the new
    label set is the current one minus [remove] plus [add], and the cache row
    the upsert writes is that label list. *)
Theorem PlanLabelMove_correct current position target state :
  NoDup current → (∀ l pos, position !! l = Some pos → 0 <= pos) →
  position !! EmptyString = None →
  (target = EmptyString ∨ is_Some (position !! target)) →
  state ≠ "closed" →
  let '(add, remove, newLabels) := PlanLabelMove current (dom position) target in
  ResolveColumn newLabels state position = (target, false, false) ∧
  filter (λ l, position !! l = None) newLabels = filter (λ l, position !! l = None) current ∧
  (∀ l, l ∈ newLabels ↔ (l ∈ current ∧ l ∉ remove) ∨ l ∈ add) ∧
  upsertLabels current add remove = newLabels.
Proof.
  intros Hnd Hpos Hempty Htgt Hst.
  pose proof (PlanLabelMove_spec current position target state Hnd Hpos Hempty Htgt Hst) as H.
  pose proof (upsertLabels_plan current (dom position) target) as Hu.
  destruct (PlanLabelMove _ _ _) as [[add remove] newLabels]. naive_solver.
Qed.

Lemma PlanLabelMove_correct_witness :
  PlanLabelMove ["bug"; "Later"; "uzi"] {["In Progress"; "Later"]} "In Progress" =
    (["In Progress"], ["Later"], ["bug"; "uzi"; "In Progress"]) ∧
  ResolveColumn ["bug"; "uzi"; "In Progress"] "opened" {["In Progress" := 0; "Later" := 2]} =
    ("In Progress", false, false).
Proof.
  split; [vm_compute; reflexivity|].
  pose proof (PlanLabelMove_correct ["bug"; "Later"; "uzi"] {["In Progress" := 0; "Later" := 2]}
    "In Progress" "opened") as H.
  apply H.
  - apply (bool_decide_unpack _). vm_compute. exact I.
  - intros l pos Hl. destruct (decide (l = "In Progress")) as [->|H1]; [vm_compute in Hl; simplify_eq; lia|].
    rewrite lookup_insert_ne // in Hl. apply lookup_singleton_Some in Hl as [_ <-]. lia.
  - vm_compute. reflexivity.
  - right. vm_compute. eauto.
  - discriminate.
Defined.

End Board.
