(* ===== verification/Lifecycle.v ===== *)
(** The board automation driven by run status changes
    ([src/api/internal/runlifecycle/lifecycle.go]), with the statements it
    issues ([src/api/internal/store/runtime.sql.go]) and the forge-first label
    move it shares with the board ([AutoMove], [src/api/internal/forgesvc/service.go]).

    The automation reaches the world through the [Store], [Mover] and
    [Projector] interfaces, so its functions are programs over the requests
    below.  [None] in a response is a database or forge error, an inner [None]
    is [pgx.ErrNoRows].  Logging has no effect and is left out; the labels of a
    cached issue are the decoded string array. *)

From Stdlib Require Import Ascii.
From S2P Require Import Prelude GoText Prog Board.

Local Open Scope Z_scope.

Module Lifecycle.
Import GoText Board.

(** * Rows *)

Record Run := mkRun {
  user_id : uuid;
  repo_id : option uuid;
  issue_iid : option Z;
  status : string;
  origin_column : option string;
  board_column : option string;
  move_pending_since : option time;
  auto_approve : bool;
  mr_iid : option Z;
  autopilot_commented_at : option time;
}.

(** A repo joined with its forge connection. *)
Record Repo := mkRepo {
  connection_user : uuid;
  forge_project_id : Z;
  web_url : string;
  forge_type : string;
  base_url : string;
  token_ciphertext : string;
}.

Record Issue := mkIssue { issue_state : string; labels : list string }.
Record BoardColumn := mkColumn { label_name : string; position : Z }.

(** [store.GetRunMoveContextRow]. *)
Record MoveRow := mkMoveRow {
  Status : string;
  IssueIid : option Z;
  RepoID : uuid;
  OriginColumn : option string;
  BoardCol : option string;
  MovePendingSince : option time;
  AutoApprove : bool;
  MrIid : option Z;
  ForgeProjectID : Z;
  RepoWebUrl : string;
  ForgeType : string;
  BaseUrl : string;
  TokenCiphertext : string;
}.

(** * Requests *)

Inductive req : Type → Type :=
  | GetRunMoveContext (id : uuid) : req (option (option MoveRow))
  | GetIssueByIID (repo : uuid) (iid : Z) : req (option (option Issue))
  | ListBoardColumns (repo : uuid) : req (option (list BoardColumn))
  | RecordRunColumnMove (column : string) (id : uuid) : req (option Z)
  | ClearRunMovePending (id : uuid) : req (option Z)
  | ListPendingColumnMoves (graceCutoff giveupCutoff : time) (maxBatch : Z)
      : req (option (list uuid))
  | ListGaveUpColumnMoves (giveupCutoff priorCutoff : time) : req (option (list uuid))
  | ClaimAutopilotTerminalComment (id : uuid) : req (option Z)
  | UpsertIssueLabels (repo : uuid) (iid : Z) (issue : Issue) (newLabels add remove : list string)
      : req (option Issue)
  | ForgeForConnection (forgeType baseURL token : string) : req (option unit)
  | EnsureLabels (project : Z) (names : list string) : req (option unit)
  | UpdateIssueLabels (project iid : Z) (add remove : list string) : req (option unit)
  | CreateIssueNote (project iid : Z) (body : string) : req (option unit)
  | ForwardMove (repo : uuid) (iid : Z) (target : string) : req (option unit)
  | CtxErr : req bool.

Abbreviation P := (prog req).

(** * Decisions *)

Record decision := mkDecision { act : bool; clear : bool; target : string }.

Definition restoreDecision (origin : option string) : decision :=
  match origin with
  | None => mkDecision false true EmptyString
  | Some col => mkDecision true false col
  end.

Definition notifierDecision (status : string) (origin : option string) : decision :=
  if bool_decide (status = "queued") then mkDecision true false ColumnInProgress else
  if bool_decide (status = "completed") then mkDecision true false ColumnHumanReview else
  if bool_decide (status ∈ ["failed"; "cancelled"]) then restoreDecision origin else
  mkDecision false false EmptyString.

Definition working : list string :=
  ["queued"; "claimed"; "running"; "awaiting_approval"; "awaiting_input"; "awaiting_followup";
   "limit_wait"; "pool_wait"; "paused"; "recovery_wait"].

Definition reconcilerDecision (status : string) (origin : option string) : decision :=
  if bool_decide (status ∈ working) then mkDecision true false ColumnInProgress else
  if bool_decide (status = "completed") then mkDecision true false ColumnHumanReview else
  if bool_decide (status ∈ ["failed"; "cancelled"]) then restoreDecision origin else
  mkDecision false false EmptyString.

Definition coalesceColumn (boardCol originCol : option string) : option string :=
  match boardCol with
  | Some c => Some c
  | None => match originCol with Some c => Some c | None => None end
  end.

(** * The lifecycle automation *)

Record Config := mkConfig {
  projector : bool; (* whether a Projects v2 projector is wired *)
  frontendOrigin : string;
  interval : duration;
  grace : duration;
  giveup : duration;
  batch : Z;
}.

Definition New (withProjector : bool) (origin : string) : Config :=
  mkConfig withProjector (trimSlash origin) (30 * Go.Second) (15 * Go.Second)
    (30 * Go.Minute) 100.

Record moveContext := mkMoveContext {
  mc_repo : uuid; mc_iid : Z; mc_project : Z; mc_forgeType : string; mc_baseURL : string;
  mc_token : string; mc_origin : option string; mc_board : option string;
}.

Definition contextFromRow (mc : MoveRow) (iid : Z) : moveContext :=
  mkMoveContext (RepoID mc) iid (ForgeProjectID mc) (ForgeType mc) (BaseUrl mc)
    (TokenCiphertext mc) (OriginColumn mc) (BoardCol mc).

Definition clearPending (id : uuid) : P unit :=
  _ ← call (ClearRunMovePending id); mret tt.

(** [forgesvc.Service.AutoMove]: the forge first, the cache only on success. *)
Definition AutoMove (repo : uuid) (project iid : Z) (issue : Issue)
    (columns : list BoardColumn) (tgt : string) : P (option Issue) :=
  let columnSet : gset string := list_to_set (label_name <$> columns) in
  let '(add, remove, newLabels) := PlanLabelMove (labels issue) columnSet tgt in
  ensured ← (if bool_decide (add = []) then mret (Some tt)
             else call (EnsureLabels project add));
  match ensured with
  | None => mret None
  | Some _ =>
    updated ← call (UpdateIssueLabels project iid add remove);
    match updated with
    | None => mret None
    | Some _ => call (UpsertIssueLabels repo iid issue newLabels add remove)
    end
  end.

Definition columnPositions (cols : list BoardColumn) : gmap string Z :=
  foldl (λ m c, <[label_name c := position c]> m) ∅ cols.

Definition apply (cfg : Config) (id : uuid) (mc : moveContext) (dec : decision) : P unit :=
  if negb (act dec) then (if clear dec then clearPending id else mret tt) else
  res ← call (GetIssueByIID (mc_repo mc) (mc_iid mc));
  match res with
  | None | Some None => mret tt
  | Some (Some issue) =>
    if bool_decide (issue_state issue = "closed") then clearPending id else
    ocols ← call (ListBoardColumns (mc_repo mc));
    match ocols with
    | None => mret tt
    | Some cols =>
      let '(current, _, _) :=
        ResolveColumn (labels issue) (issue_state issue) (columnPositions cols) in
      match coalesceColumn (mc_board mc) (mc_origin mc) with
      | None => clearPending id
      | Some baseline =>
        if negb (bool_decide (current = baseline)) then clearPending id else
        f ← call (ForgeForConnection (mc_forgeType mc) (mc_baseURL mc) (mc_token mc));
        match f with
        | None => mret tt
        | Some _ =>
          moved ← AutoMove (mc_repo mc) (mc_project mc) (mc_iid mc) issue cols (target dec);
          match moved with
          | None => mret tt
          | Some _ =>
            _ ← call (RecordRunColumnMove (target dec) id);
            if projector cfg
            then _ ← call (ForwardMove (mc_repo mc) (mc_iid mc) (target dec)); mret tt
            else mret tt
          end
        end
      end
    end
  end.

(** * The terminal comment of an autopilot run *)

Definition hexDigit (z : Z) : string :=
  let n := Z.to_nat z in
  if (n <? 10)%nat then String (Ascii.ascii_of_nat (48 + n)) EmptyString
  else String (Ascii.ascii_of_nat (87 + n)) EmptyString.
Definition hexByte (z : Z) : string := hexDigit (z / 16) +:+ hexDigit (z mod 16).
Definition uuidString (u : uuid) : string :=
  let b := hexByte <$> vec_to_list u in
  String.concat "-"
    (String.concat EmptyString <$>
      [take 4 b; take 2 (drop 4 b); take 2 (drop 6 b); take 2 (drop 8 b); drop 10 b]).

Definition nl : string := String "010"%char EmptyString.

Definition runLinkSuffix (cfg : Config) (id : uuid) : string :=
  if bool_decide (frontendOrigin cfg = EmptyString) then EmptyString
  else " See the run: " +:+ frontendOrigin cfg +:+ "/runs/" +:+ uuidString id.

Definition mergeRequestURL (repoWebURL : string) (iid : Z) : string :=
  trimSlash repoWebURL +:+ "/-/merge_requests/" +:+ itoa iid.

Definition terminalCommentBody (cfg : Config) (status : string) (id : uuid) (mc : MoveRow)
    : string :=
  if bool_decide (status = "completed") then
    match MrIid mc with
    | Some iid =>
      "**Autopilot opened a merge request.**" +:+ nl +:+ nl +:+
      "Autopilot finished this issue and opened merge request !" +:+ itoa iid +:+
      " for your review: " +:+ mergeRequestURL (RepoWebUrl mc) iid
    | None =>
      "**Autopilot finished this issue.**" +:+ nl +:+ nl +:+
      "Autopilot completed without opening a merge request." +:+ runLinkSuffix cfg id
    end
  else
    "**Autopilot could not complete this issue.**" +:+ nl +:+ nl +:+
    "The autopilot run failed." +:+ runLinkSuffix cfg id +:+ nl +:+ nl +:+
    "Remove and re-add the label to retry.".

Definition maybeTerminalComment (cfg : Config) (id : uuid) (status : string) (mc : MoveRow)
    (iid : Z) : P unit :=
  if negb (bool_decide (status ∈ ["completed"; "failed"])) then mret tt else
  if negb (AutoApprove mc) then mret tt else
  claimed ← call (ClaimAutopilotTerminalComment id);
  match claimed with
  | None => mret tt
  | Some n =>
    if bool_decide (n = 0) then mret tt else
    f ← call (ForgeForConnection (ForgeType mc) (BaseUrl mc) (TokenCiphertext mc));
    match f with
    | None => mret tt
    | Some _ =>
      _ ← call (CreateIssueNote (ForgeProjectID mc) iid (terminalCommentBody cfg status id mc));
      mret tt
    end
  end.

(** * Entry points *)

Definition notifyOnce (cfg : Config) (id : uuid) (status : string) : P unit :=
  res ← call (GetRunMoveContext id);
  match res with
  | None | Some None => mret tt
  | Some (Some mc) =>
    match IssueIid mc with
    | None => mret tt
    | Some iid =>
      _ ← apply cfg id (contextFromRow mc iid) (notifierDecision status (OriginColumn mc));
      maybeTerminalComment cfg id status mc iid
    end
  end.

(** [Notify] drops the statuses the board does not react to. *)
Definition Notify (cfg : Config) (id : uuid) (status : string) : P unit :=
  if bool_decide (status ∈ ["queued"; "completed"; "failed"; "cancelled"])
  then notifyOnce cfg id status else mret tt.

Definition reconcileOne (cfg : Config) (id : uuid) : P unit :=
  res ← call (GetRunMoveContext id);
  match res with
  | None | Some None => mret tt
  | Some (Some mc) =>
    if bool_decide (MovePendingSince mc = None) then mret tt else
    match IssueIid mc with
    | None => clearPending id
    | Some iid =>
      _ ← apply cfg id (contextFromRow mc iid) (reconcilerDecision (Status mc) (OriginColumn mc));
      maybeTerminalComment cfg id (Status mc) mc iid
    end
  end.

(** The runs whose marker just crossed the give-up boundary (they are logged). *)
Definition warnGivenUp (cfg : Config) (now : time) : P (list uuid) :=
  rows ← call (ListGaveUpColumnMoves (Go.add now (- giveup cfg))
                                     (Go.add now (- giveup cfg - interval cfg)));
  mret (default [] rows).

Fixpoint reconcileAll (cfg : Config) (ids : list uuid) : P bool :=
  match ids with
  | [] => mret true
  | id :: ids' =>
    stop ← call CtxErr;
    if (stop : bool) then mret false
    else _ ← reconcileOne cfg id; reconcileAll cfg ids'
  end.

(** One pass; a pass cut short by its deadline leaves the rest, and the give-up
    warning, to the next tick. *)
Definition Reconcile (cfg : Config) (now : time) : P (list uuid) :=
  ids ← call (ListPendingColumnMoves (Go.add now (- grace cfg)) (Go.add now (- giveup cfg))
                                     (batch cfg));
  match ids with
  | None => warnGivenUp cfg now
  | Some ids =>
    completed ← reconcileAll cfg ids;
    if (completed : bool) then warnGivenUp cfg now else mret []
  end.

(** * The world the automation acts on

    The tables its statements read and write, what it asked of the forge, in
    order, and the outcome of each request to come. *)

Inductive fault :=
  | Fine        (* the request took effect and its answer arrived *)
  | Lost        (* an error, and the request had no effect *)
  | Unconfirmed (* an error, although the request took effect *).

Inductive forgeCall :=
  | Ensured (project : Z) (names : list string)
  | Relabelled (project iid : Z) (add remove : list string)
  | Noted (project iid : Z) (body : string)
  | Projected (repo : uuid) (iid : Z) (column : string).

Record World := mkWorld {
  clock : time;
  runs : gmap uuid Run;
  repos : gmap uuid Repo;
  issues : gmap (uuid * Z) Issue;
  columns : uuid → list BoardColumn;
  forge : list forgeCall; (* latest first *)
  faults : list fault;    (* exhausted: everything is [Fine] *)
}.

Definition setRuns (w : World) (f : gmap uuid Run → gmap uuid Run) : World :=
  mkWorld (clock w) (f (runs w)) (repos w) (issues w) (columns w) (forge w) (faults w).
Definition setIssues (w : World) (f : gmap (uuid * Z) Issue → gmap (uuid * Z) Issue) : World :=
  mkWorld (clock w) (runs w) (repos w) (f (issues w)) (columns w) (forge w) (faults w).
Definition setForge (w : World) (c : forgeCall) : World :=
  mkWorld (clock w) (runs w) (repos w) (issues w) (columns w) (c :: forge w) (faults w).
Definition setFaults (w : World) (fs : list fault) : World :=
  mkWorld (clock w) (runs w) (repos w) (issues w) (columns w) (forge w) fs.

(** [UPDATE runs SET ... WHERE id = $1 AND guard], with the affected rows. *)
Definition updateRun (w : World) (id : uuid) (guard : Run → bool) (f : Run → Run) : World * Z :=
  match runs w !! id with
  | Some r => if guard r then (setRuns w (insert id (f r)), 1) else (w, 0)
  | None => (w, 0)
  end.

Definition getRunMoveContext (w : World) (id : uuid) : option MoveRow :=
  r ← runs w !! id;
  rid ← repo_id r;
  rp ← repos w !! rid;
  if bool_decide (connection_user rp = user_id r) then
    Some (mkMoveRow (status r) (issue_iid r) rid (origin_column r) (board_column r)
            (move_pending_since r) (auto_approve r) (mr_iid r) (forge_project_id rp) (web_url rp)
            (forge_type rp) (base_url rp) (token_ciphertext rp))
  else None.

Definition recordRunColumnMove (column : string) (r : Run) : Run :=
  mkRun (user_id r) (repo_id r) (issue_iid r) (status r) (origin_column r) (Some column) None
    (auto_approve r) (mr_iid r) (autopilot_commented_at r).
Definition clearRunMovePending (r : Run) : Run :=
  mkRun (user_id r) (repo_id r) (issue_iid r) (status r) (origin_column r) (board_column r) None
    (auto_approve r) (mr_iid r) (autopilot_commented_at r).
Definition claimable (r : Run) : bool :=
  auto_approve r && bool_decide (autopilot_commented_at r = None).
Definition claimAutopilotTerminalComment (now : time) (r : Run) : Run :=
  mkRun (user_id r) (repo_id r) (issue_iid r) (status r) (origin_column r) (board_column r)
    (move_pending_since r) (auto_approve r) (mr_iid r) (Some now).

(** The runs whose marker lies in [(after, upTo]], oldest marker first. *)
Definition pendingRow (upTo after : time) (e : uuid * Run) : option (time * uuid) :=
  t ← move_pending_since (e.2);
  if (t <=? upTo) && (after <? t) then Some (t, e.1) else None.
Definition markerLe (a b : time * uuid) : Prop := a.1 <= b.1.
#[global] Instance markerLe_dec a b : Decision (markerLe a b) := Z.le_dec a.1 b.1.
Definition listPending (w : World) (upTo after : time) (limit : nat) : list uuid :=
  take limit (snd <$> merge_sort markerLe
    (omap (pendingRow upTo after) (map_to_list (runs w)))).

(** [UpsertIssueLabels]: the row is inserted, or its labels get the delta. *)
Definition upsertIssueLabels (w : World) (repo : uuid) (iid : Z) (issue : Issue)
    (newLabels add remove : list string) : Issue :=
  match issues w !! (repo, iid) with
  | None => mkIssue (issue_state issue) newLabels
  | Some row => mkIssue (issue_state issue) (upsertLabels (labels row) add remove)
  end.

(** What a request does and answers when nothing fails. *)
Definition answer (w : World) X (r : req X) : World * X :=
  match r in req X return World * X with
  | GetRunMoveContext id => (w, Some (getRunMoveContext w id))
  | GetIssueByIID repo iid => (w, Some (issues w !! (repo, iid)))
  | ListBoardColumns repo => (w, Some (columns w repo))
  | RecordRunColumnMove column id =>
      let '(w', n) := updateRun w id (λ _, true) (recordRunColumnMove column) in (w', Some n)
  | ClearRunMovePending id =>
      let '(w', n) := updateRun w id (λ _, true) clearRunMovePending in (w', Some n)
  | ListPendingColumnMoves graceCutoff giveupCutoff maxBatch =>
      (w, Some (listPending w graceCutoff giveupCutoff (Z.to_nat maxBatch)))
  | ListGaveUpColumnMoves giveupCutoff priorCutoff =>
      (w, Some (listPending w giveupCutoff priorCutoff 100))
  | ClaimAutopilotTerminalComment id =>
      let '(w', n) := updateRun w id claimable (claimAutopilotTerminalComment (clock w)) in
      (w', Some n)
  | UpsertIssueLabels repo iid issue newLabels add remove =>
      let row := upsertIssueLabels w repo iid issue newLabels add remove in
      (setIssues w (insert (repo, iid) row), Some row)
  | ForgeForConnection _ _ _ => (w, Some tt)
  | EnsureLabels project names => (setForge w (Ensured project names), Some tt)
  | UpdateIssueLabels project iid add remove =>
      (setForge w (Relabelled project iid add remove), Some tt)
  | CreateIssueNote project iid body => (setForge w (Noted project iid body), Some tt)
  | ForwardMove repo iid tgt => (setForge w (Projected repo iid tgt), Some tt)
  | CtxErr => (w, false)
  end.

(** What the caller sees of a failed request. *)
Definition failed {X} (r : req X) : X :=
  match r in req X return X with
  | CtxErr => true
  | GetRunMoveContext _ | GetIssueByIID _ _ | ListBoardColumns _ | RecordRunColumnMove _ _
  | ClearRunMovePending _ | ListPendingColumnMoves _ _ _ | ListGaveUpColumnMoves _ _
  | ClaimAutopilotTerminalComment _ | UpsertIssueLabels _ _ _ _ _ _ | ForgeForConnection _ _ _
  | EnsureLabels _ _ | UpdateIssueLabels _ _ _ _ | CreateIssueNote _ _ _ | ForwardMove _ _ _ => None
  end.

Definition handle (w : World) X (r : req X) : World * X :=
  match faults w with
  | [] => answer w X r
  | Fine :: fs => answer (setFaults w fs) X r
  | Lost :: fs => (setFaults w fs, failed r)
  | Unconfirmed :: fs => ((answer (setFaults w fs) X r).1, failed r)
  end.

(** A run of a lifecycle program against the world, to its end. *)
Definition runProg {A} (p : P A) (w : World) : World * A := exec handle p w.

End Lifecycle.
