(* ===== verification/LifecycleComment.v ===== *)
(** The terminal comment of an autopilot run is posted at most once.

    Any number of inline notifications and reconcile retries for any runs are
    interleaved one request at a time, requests fail or take effect without
    confirmation, goroutines die in the middle, and the rest of the system
    changes the world between two requests. *)

From S2P Require Import Prelude Prog Board Lifecycle.

Module LifecycleComment.
Import Board Lifecycle.

(** * Interleaved executions *)

Record state := mkState {
  world : World;
  pool : list (uuid * P unit); (* the goroutines, each with the run it serves *)
  posts : list uuid;           (* per issue note sent to the forge, its run *)
}.

Definition isNote {X} (r : req X) : bool :=
  match r with CreateIssueNote _ _ _ => true | _ => false end.

Definition commented (w : World) (id : uuid) : Prop :=
  ∃ r, runs w !! id = Some r ∧ autopilot_commented_at r ≠ None.

#[global] Instance commented_dec w id : Decision (commented w id).
Proof.
  refine (match runs w !! id as o return runs w !! id = o → _ with
  | None => λ E, right _
  | Some r => λ E, cast_if_not (decide (autopilot_commented_at r = None))
  end eq_refl); unfold commented; naive_solver.
Defined.

(** Only [ClaimAutopilotTerminalComment] writes [autopilot_commented_at]; the
    rest of the system may do anything else, at any time. *)
Definition elsewhere (w w' : World) : Prop := ∀ id, commented w id → commented w' id.

Inductive step (cfg : Config) : state → state → Prop :=
  | step_notify w ts ps id st :
      step cfg (mkState w ts ps) (mkState w ((id, Notify cfg id st) :: ts) ps)
  | step_reconcile w ts ps id :
      step cfg (mkState w ts ps) (mkState w ((id, reconcileOne cfg id) :: ts) ps)
  | step_request w w' ts1 ts2 ps id X (r : req X) k x :
      handle w X r = (w', x) →
      step cfg (mkState w (ts1 ++ (id, Vis r k) :: ts2) ps)
               (mkState w' (ts1 ++ (id, k x) :: ts2) (if isNote r then id :: ps else ps))
  | step_exit w ts1 ts2 ps t :
      step cfg (mkState w (ts1 ++ t :: ts2) ps) (mkState w (ts1 ++ ts2) ps)
  | step_elsewhere w w' ts ps :
      elsewhere w w' → step cfg (mkState w ts ps) (mkState w' ts ps).

Definition init (w : World) : state := mkState w [] [].

(** * The right to post

    The monitor of a goroutine holds the right from a successful claim until
    its one note. *)
Definition upd (held : bool) X (r : req X) : X → bool :=
  match r in req X return X → bool with
  | ClaimAutopilotTerminalComment _ => λ x,
      match x with Some n => negb (bool_decide (n = 0%Z)) | None => false end
  | CreateIssueNote _ _ _ => λ _, false
  | _ => λ _, held
  end.

Definition ok (id : uuid) (held : bool) X (r : req X) : Prop :=
  match r with
  | ClaimAutopilotTerminalComment id' => id' = id ∧ held = false
  | CreateIssueNote _ _ _ => held = true
  | _ => True
  end.

Definition safe {A} (id : uuid) (held : bool) (p : P A) : Prop :=
  monitored upd (ok id) (λ _ _, True) held p.
(** Neither claims nor posts. *)
Definition quiet {A} (id : uuid) (p : P A) : Prop :=
  monitored upd (ok id) (λ held _, held = false) false p.

Ltac safe_cases :=
  repeat first [progress simpl | split; [done|] | intros ? | done | case_match | progress simplify_eq].

Lemma quiet_bind {A B} id (p : P A) (f : A → P B) :
  quiet id p → (∀ a, quiet id (f a)) → quiet id (p ≫= f).
Proof. intros Hp Hf. eapply monitored_bind; [exact Hp|]. intros ? a ->. apply Hf. Qed.

Lemma quiet_safe_bind {A B} id (p : P A) (f : A → P B) :
  quiet id p → (∀ a, safe id false (f a)) → safe id false (p ≫= f).
Proof. intros Hp Hf. eapply monitored_bind; [exact Hp|]. intros ? a ->. apply Hf. Qed.

Lemma quiet_AutoMove id repo project iid issue cols tgt :
  quiet id (AutoMove repo project iid issue cols tgt).
Proof.
  rewrite /AutoMove. destruct (PlanLabelMove _ _ _) as [[add rem] new].
  apply quiet_bind; [by case_bool_decide|]. intros [[]|]; rewrite /quiet; safe_cases.
Qed.

Lemma quiet_apply cfg id mc dec : quiet id (apply cfg id mc dec).
Proof.
  rewrite /apply. destruct (negb (act dec)); [by destruct (clear dec)|].
  split; [done|]. intros [[issue|]|]; [|done..]. cbn -[quiet].
  case_bool_decide; [done|]. split; [done|]. intros [cols|]; [|done]. cbn -[quiet].
  destruct (ResolveColumn _ _ _) as [[current ?] ?].
  destruct (coalesceColumn _ _); [|done].
  destruct (negb _); [done|]. split; [done|]. intros [[]|]; [|done].
  apply quiet_bind; [apply quiet_AutoMove|]. intros [?|]; [|done].
  rewrite /quiet; safe_cases.
Qed.

Lemma safe_comment cfg id st mc iid : safe id false (maybeTerminalComment cfg id st mc iid).
Proof.
  rewrite /maybeTerminalComment. destruct (negb _); [done|]. destruct (negb _); [done|].
  split; [done|]. intros [n|]; [|done]. cbn -[safe terminalCommentBody].
  case_bool_decide; simpl; [done|]. split; [done|]. intros [[]|]; simpl; [|done]. done.
Qed.

Lemma safe_Notify cfg id st : safe id false (Notify cfg id st).
Proof.
  rewrite /Notify. case_bool_decide; [|done]. split; [done|]. intros [[mc|]|]; [|done..].
  cbn -[safe]. destruct (IssueIid mc); [|done].
  apply quiet_safe_bind; [apply quiet_apply|]. intros _. apply safe_comment.
Qed.

Lemma safe_reconcileOne cfg id : safe id false (reconcileOne cfg id).
Proof.
  split; [done|]. intros [[mc|]|]; [|done..]. cbn -[safe].
  case_bool_decide; [done|]. destruct (IssueIid mc); [|done].
  apply quiet_safe_bind; [apply quiet_apply|]. intros _. apply safe_comment.
Qed.

(** * The invariant *)

Abbreviation ghost := (uuid * bool * P unit)%type.

Definition strip (g : ghost) : uuid * P unit := (g.1.1, g.2).
Definition holds (id : uuid) (g : ghost) : Prop := g.1 = (id, true).
#[global] Instance holds_dec id g : Decision (holds id g).
Proof. unfold holds. apply _. Defined.

(** Notes already sent for a run and the rights to send one. *)
Definition weight (id : uuid) (gs : list ghost) (ps : list uuid) : nat :=
  length (filter (λ p, p = id) ps) + length (filter (holds id) gs).

Definition inv (s : state) : Prop :=
  ∃ gs, pool s = strip <$> gs ∧
        Forall (λ g, safe g.1.1 g.1.2 g.2) gs ∧
        ∀ id, weight id gs (posts s) ≤ if decide (commented (world s) id) then 1 else 0.

Lemma weight_app id gs1 gs2 i h p ps :
  weight id (gs1 ++ (i, h, p) :: gs2) ps =
  (weight id (gs1 ++ gs2) ps + if decide (i = id) then if h then 1 else 0 else 0)%nat.
Proof.
  rewrite /weight !filter_app filter_cons !length_app.
  destruct (decide (holds id _)) as [Hh|Hh], (decide (i = id)) as [->|], h;
    rewrite /holds /= in Hh |- *; first [lia | congruence | done].
Qed.

Lemma weight_post id id' gs ps :
  weight id gs (id' :: ps) = (weight id gs ps + if decide (id' = id) then 1 else 0)%nat.
Proof. rewrite /weight filter_cons. destruct (decide (id' = id)); simpl; lia. Qed.

Lemma commented_le w w' id :
  (commented w id → commented w' id) →
  ((if decide (commented w id) then 1 else 0) ≤ if decide (commented w' id) then 1 else 0)%nat.
Proof. intros H. repeat case_decide; naive_solver lia. Qed.

Lemma updateRun_spec w id guard f w' n :
  updateRun w id guard f = (w', n) →
  (w' = w ∧ n = 0%Z ∧ ∀ r, runs w !! id = Some r → guard r = false) ∨
  (n = 1%Z ∧ ∃ r, runs w !! id = Some r ∧ guard r = true ∧ w' = setRuns w (insert id (f r))).
Proof.
  rewrite /updateRun. destruct (runs w !! id) as [r|] eqn:E; [|naive_solver].
  destruct (guard r) eqn:G; naive_solver.
Qed.

Lemma updateRun_commented w id guard f w' n id' :
  updateRun w id guard f = (w', n) →
  (∀ r, autopilot_commented_at r ≠ None → autopilot_commented_at (f r) ≠ None) →
  commented w id' → commented w' id'.
Proof.
  intros [(-> & _)|(_ & r & Hr & _ & ->)]%updateRun_spec Hf; [done|].
  intros (r' & Hr' & Hc). destruct (decide (id = id')) as [->|Hne].
  - exists (f r). simpl. rewrite lookup_insert_eq. naive_solver.
  - exists r'. simpl. by rewrite lookup_insert_ne.
Qed.

Lemma answer_commented w X (r : req X) w' x id :
  answer w X r = (w', x) → commented w id → commented w' id.
Proof.
  destruct r; simpl; intros Ha; try by simplify_eq.
  all: case_match eqn:E; simplify_eq; by eapply updateRun_commented.
Qed.

(** A claim is granted only on an unclaimed run, and marks it. *)
Lemma claim_granted w id w' n :
  answer w _ (ClaimAutopilotTerminalComment id) = (w', Some n) → n ≠ 0%Z →
  ¬ commented w id ∧ commented w' id.
Proof.
  simpl. destruct (updateRun w id claimable _) as [w1 m] eqn:E. intros [= <- <-] Hn.
  apply updateRun_spec in E as [(_ & ? & _)|(_ & r & Hr & Hg & ->)]; [done|].
  split.
  - intros (r' & Hr' & Hc). simplify_eq. rewrite /claimable in Hg.
    apply andb_true_iff in Hg as [_ Hg%bool_decide_eq_true]. done.
  - eexists. simpl. by rewrite lookup_insert_eq.
Qed.

Lemma setFaults_commented w fs id : commented (setFaults w fs) id ↔ commented w id.
Proof. done. Qed.

Lemma handle_commented w X (r : req X) w' x id :
  handle w X r = (w', x) → commented w id → commented w' id.
Proof.
  rewrite /handle => Hh Hc. destruct (faults w) as [|[] fs]; simplify_eq; try done.
  - by eapply answer_commented.
  - by eapply answer_commented.
  - destruct (answer (setFaults w fs) X r) eqn:E. by eapply answer_commented.
Qed.

(** How the right of a goroutine changes with one of its requests. *)
Lemma request_right w X (r : req X) w' x id held :
  handle w X r = (w', x) → ok id held X r →
  let held' := upd held X r x in
  (isNote r = true ∧ held = true ∧ held' = false) ∨
  (isNote r = false ∧ held' = held) ∨
  (isNote r = false ∧ held' = false) ∨
  (isNote r = false ∧ held' = true ∧ ¬ commented w id ∧ commented w' id).
Proof.
  intros Hh Hok. destruct r; simpl in *; try (by right; left); try (by left).
  destruct Hok as [-> ->]. destruct x as [n|]; [|tauto].
  case_bool_decide as Hn; simpl; [tauto|]. do 3 right. split; [done|]. split; [done|].
  rewrite /handle in Hh. destruct (faults w) as [|[] fs]; simplify_eq.
  - by eapply claim_granted.
  - by eapply (claim_granted (setFaults w fs)).
Qed.

Lemma inv_init w : inv (init w).
Proof. exists []. repeat split; [constructor|]. intros id. rewrite /weight /=. lia. Qed.

Lemma inv_spawn w ts ps id p :
  safe id false p → inv (mkState w ts ps) → inv (mkState w ((id, p) :: ts) ps).
Proof.
  intros Hp (gs & Hpool & Hs & Hw). exists ((id, false, p) :: gs). simpl in *.
  split; [by rewrite Hpool|]. split; [by constructor|]. intros id'.
  rewrite (weight_app _ []) /=. specialize (Hw id').
  destruct (decide (id = id')); lia.
Qed.

Lemma inv_request w w' ts1 ts2 ps id X (r : req X) k x :
  handle w X r = (w', x) → inv (mkState w (ts1 ++ (id, Vis r k) :: ts2) ps) →
  inv (mkState w' (ts1 ++ (id, k x) :: ts2) (if isNote r then id :: ps else ps)).
Proof.
  intros Hh (gs & Hpool & Hs & Hw). simpl in *. symmetry in Hpool.
  apply fmap_app_inv in Hpool as (gs1 & gs' & -> & Hpool & ->).
  symmetry in Hpool. apply fmap_cons_inv in Hpool as ([[id0 held] p] & gs2 & Hg & -> & ->).
  injection Hg as <- <-.
  apply Forall_app in Hs as [Hs1 [[Hok Hk] Hs2]%Forall_cons]. simpl in Hok, Hk.
  exists (gs1 ++ (id, upd held X r x, k x) :: gs2). simpl.
  split; [by rewrite fmap_app|]. split; [apply Forall_app; split; [done|]; constructor; [apply Hk|done]|].
  intros id'. specialize (Hw id').
  pose proof (commented_le w w' id' (handle_commented _ _ _ _ _ _ Hh)) as Hle.
  rewrite weight_app in Hw. rewrite weight_app.
  destruct (request_right _ _ _ _ _ _ _ Hh Hok)
    as [(-> & -> & ->)|[(-> & ->)|[(-> & ->)|(-> & -> & Hno & Hyes)]]].
  - rewrite weight_post. destruct (decide (id = id')); lia.
  - lia.
  - destruct (decide (id = id')), held; lia.
  - destruct (decide (id = id')) as [<-|Hne]; [|destruct held; lia].
    revert Hw. rewrite decide_False // decide_True //. lia.
Qed.

Lemma inv_step cfg s s' : step cfg s s' → inv s → inv s'.
Proof.
  destruct 1 as [w ts ps id st|w ts ps id|w w' ts1 ts2 ps id X r k x Hh|w ts1 ts2 ps t|w w' ts ps He].
  - apply inv_spawn, safe_Notify.
  - apply inv_spawn, safe_reconcileOne.
  - by apply inv_request.
  - intros (gs & Hpool & Hs & Hw). simpl in *. symmetry in Hpool.
    apply fmap_app_inv in Hpool as (gs1 & gs' & -> & Hpool & ->).
    symmetry in Hpool. apply fmap_cons_inv in Hpool as ([[i h] p] & gs2 & _ & -> & ->).
    exists (gs1 ++ gs2). simpl. rewrite fmap_app. split; [done|].
    apply Forall_app in Hs as [Hs1 [_ Hs2]%Forall_cons].
    split; [by apply Forall_app|]. intros id. specialize (Hw id). rewrite weight_app in Hw. lia.
  - intros (gs & Hpool & Hs & Hw). exists gs. split; [done|]. split; [done|]. intros id.
    etrans; [apply Hw|]. apply commented_le, He.
Qed.

Lemma inv_reachable cfg w s : rtc (step cfg) (init w) s → inv s.
Proof.
  intros H. assert (Hi : inv (init w)) by apply inv_init. revert Hi.
  induction H; [done|]. intros Hi. apply IHrtc. by eapply inv_step.
Qed.

(** C30. However the inline notifications and the reconcile retries of any number
    of runs are interleaved with each other, with failing requests, dying
    goroutines and the rest of the system, at most one terminal issue note is
    ever sent to the forge per run, and a run with a note is marked as commented. *)
Theorem terminal_comment_once cfg w s :
  rtc (step cfg) (init w) s →
  ∀ id, (length (filter (λ p, p = id) (posts s)) ≤ 1)%nat ∧ (id ∈ posts s → commented (world s) id).
Proof.
  intros (gs & _ & _ & Hw)%inv_reachable id. specialize (Hw id). rewrite /weight in Hw.
  split; [case_decide; lia|]. intros Hin. case_decide as Hc; [done|].
  assert (Hf : id ∈ filter (λ p, p = id) (posts s)) by by apply list_elem_of_filter.
  destruct (filter (λ p, p = id) (posts s)); [by apply not_elem_of_nil in Hf|]. simpl in Hw. lia.
Qed.

(** One goroutine running alone to its end. *)
Fixpoint drive (id : uuid) (p : P unit) (w : World) (ps : list uuid) : World * list uuid :=
  match p with
  | Ret _ => (w, ps)
  | Vis r k =>
    let '(w', x) := handle w _ r in drive id (k x) w' (if isNote r then id :: ps else ps)
  end.

Lemma drive_steps cfg id p w ts ps :
  rtc (step cfg) (mkState w ((id, p) :: ts) ps)
                 (mkState (drive id p w ps).1 ts (drive id p w ps).2).
Proof.
  revert w ps. induction p as [a|X r k IH]; intros w ps; simpl.
  - apply rtc_once. apply (step_exit _ _ []).
  - destruct (handle w X r) as [w' x] eqn:E. eapply rtc_l; [|apply IH].
    by apply (step_request _ _ _ []).
Qed.

(** A failed autopilot run whose notification and retry both run. *)
Definition exampleRun : Run :=
  mkRun Uuid.Nil (Some (Uuid.mk 2)) (Some 7%Z) "failed" None None (Some 0%Z) true None None.
Definition exampleWorld : World :=
  mkWorld 0 {[ Uuid.mk 1 := exampleRun ]}
    {[ Uuid.mk 2 := mkRepo Uuid.Nil 5 "https://forge" "gitlab" "https://forge" "t" ]}
    ∅ (λ _, []) [] [].
Definition exampleConfig : Config := New false "https://uzi/".

Lemma terminal_comment_once_witness :
  ∃ s, rtc (step exampleConfig) (init exampleWorld) s ∧ posts s = [Uuid.mk 1] ∧
       (length (filter (λ p, p = Uuid.mk 1) (posts s)) ≤ 1)%nat.
Proof.
  assert (H : ∃ s, rtc (step exampleConfig) (init exampleWorld) s ∧ posts s = [Uuid.mk 1]).
  { eexists. split.
    - eapply rtc_l; [apply (step_notify _ _ _ _ (Uuid.mk 1) "failed")|].
      eapply rtc_l; [apply (step_reconcile _ _ _ _ (Uuid.mk 1))|].
      etrans; [apply drive_steps|]. apply drive_steps.
    - vm_compute. reflexivity. }
  destruct H as (s & Hr & Hp). exists s. split; [exact Hr|]. split; [exact Hp|].
  apply (terminal_comment_once exampleConfig exampleWorld s Hr (Uuid.mk 1)).
Defined.

End LifecycleComment.
