(* ===== verification/LifecycleMove.v ===== *)
(** The column moves of the board automation: every write is justified by what
    was read, and an undisturbed retry puts the card in its column. *)

From S2P Require Import Prelude Prog Board Lifecycle.

Local Open Scope Z_scope.

Module LifecycleMove.
Import Board Lifecycle.

(** * Justified writes

    The monitor remembers the latest successful reads of a goroutine and the
    column its last confirmed label write and cache update put the card in. *)
Record seen := mkSeen {
  row : option MoveRow;
  issue : option Issue;
  cols : option (list BoardColumn);
  relabelled : option (list string * list string);
  cached : bool;
}.
Definition nothing : seen := mkSeen None None None None false.

Definition upd (s : seen) X (r : req X) : X → seen :=
  match r in req X return X → seen with
  | GetRunMoveContext _ => λ x,
      mkSeen (match x with Some o => o | None => None end) (issue s) (cols s) (relabelled s) (cached s)
  | GetIssueByIID _ _ => λ x,
      mkSeen (row s) (match x with Some o => o | None => None end) (cols s) (relabelled s) (cached s)
  | ListBoardColumns _ => λ x, mkSeen (row s) (issue s) x (relabelled s) (cached s)
  | UpdateIssueLabels _ _ add remove => λ x,
      mkSeen (row s) (issue s) (cols s) (match x with Some _ => Some (add, remove) | None => None end)
        (cached s)
  | UpsertIssueLabels _ _ _ _ _ _ => λ x,
      mkSeen (row s) (issue s) (cols s) (relabelled s) (match x with Some _ => true | None => false end)
  | _ => λ _, s
  end.

(** The column the card was read in. *)
Definition current (issue : Issue) (cols : list BoardColumn) : string :=
  (ResolveColumn (labels issue) (issue_state issue) (columnPositions cols)).1.1.

Definition plan (issue : Issue) (cols : list BoardColumn) (tgt : string) :=
  PlanLabelMove (labels issue) (list_to_set (label_name <$> cols)) tgt.

(** The card was read open, where the automation last left it, and [tgt] is
    the column the decision on the read row names. *)
Definition mayMove (decide_ : MoveRow → decision) (s : seen) (tgt : string) : Prop :=
  ∃ mc i cs, row s = Some mc ∧ issue s = Some i ∧ cols s = Some cs ∧
    issue_state i ≠ "closed" ∧
    coalesceColumn (BoardCol mc) (OriginColumn mc) = Some (current i cs) ∧
    act (decide_ mc) = true ∧ target (decide_ mc) = tgt.

(** Why a pending move may be dropped for good. *)
Definition maySkip (decide_ : MoveRow → decision) (s : seen) : Prop :=
  ∃ mc, row s = Some mc ∧
    (IssueIid mc = None ∨
     act (decide_ mc) = false ∧ clear (decide_ mc) = true ∨
     ∃ i, issue s = Some i ∧
       (issue_state i = "closed" ∨
        ∃ cs, cols s = Some cs ∧
          coalesceColumn (BoardCol mc) (OriginColumn mc) ≠ Some (current i cs))).

Definition justified (decide_ : MoveRow → decision) (id : uuid) (s : seen) X (r : req X) : Prop :=
  match r with
  | EnsureLabels project names =>
      ∃ tgt, mayMove decide_ s tgt ∧ names = [tgt] ∧ tgt ≠ EmptyString
  | UpdateIssueLabels project iid add remove =>
      ∃ tgt mc i cs new, mayMove decide_ s tgt ∧ row s = Some mc ∧ issue s = Some i ∧
        cols s = Some cs ∧ project = ForgeProjectID mc ∧ IssueIid mc = Some iid ∧
        plan i cs tgt = (add, remove, new)
  | UpsertIssueLabels repo iid _ _ add remove => relabelled s = Some (add, remove)
  | RecordRunColumnMove column id' =>
      id' = id ∧ mayMove decide_ s column ∧ relabelled s ≠ None ∧ cached s = true
  | ForwardMove repo iid tgt => mayMove decide_ s tgt ∧ cached s = true
  | ClearRunMovePending id' => id' = id ∧ maySkip decide_ s
  | _ => True
  end.

Section Justified.
Context (decide_ : MoveRow → decision) (id : uuid).
Abbreviation good := (monitored upd (justified decide_ id) (λ _ _, True)).

Lemma AutoMove_justified s mc iid i cs tgt :
  row s = Some mc → issue s = Some i → cols s = Some cs → IssueIid mc = Some iid →
  mayMove decide_ s tgt →
  monitored upd (justified decide_ id)
    (λ s' o, ∀ moved, o = Some moved →
       mayMove decide_ s' tgt ∧ relabelled s' ≠ None ∧ cached s' = true)
    s (AutoMove (RepoID mc) (ForgeProjectID mc) iid i cs tgt).
Proof.
  intros Hrow Hissue Hcols Hiid Hmay. rewrite /AutoMove -/(plan i cs tgt).
  destruct (plan i cs tgt) as [[add remove] new] eqn:Hplan.
  assert (Hgo : ∀ o : option unit, monitored upd (justified decide_ id)
    (λ s' o, ∀ moved, o = Some moved →
       mayMove decide_ s' tgt ∧ relabelled s' ≠ None ∧ cached s' = true) s
    (match o with
     | None => mret None
     | Some _ => updated ← call (UpdateIssueLabels (ForgeProjectID mc) iid add remove);
        match updated with
        | None => mret None
        | Some _ => call (UpsertIssueLabels (RepoID mc) iid i new add remove)
        end
     end)).
  { intros [[]|]; [|by intros ?]. split; [naive_solver|]. intros [[]|]; [|by intros ?].
    split; [done|]. intros [row'|]; [|by intros ?]. intros moved _. split_and!; try done. }
  case_bool_decide as Hadd; [apply (Hgo (Some tt))|]. split; [|apply Hgo].
  exists tgt. split; [done|]. revert Hplan. rewrite /plan /PlanLabelMove.
  case_bool_decide; simpl; [naive_solver|]. case_match; naive_solver.
Qed.

Lemma apply_justified cfg s mc iid :
  row s = Some mc → IssueIid mc = Some iid →
  good s (apply cfg id (contextFromRow mc iid) (decide_ mc)).
Proof.
  intros Hrow Hiid. rewrite /apply. destruct (act (decide_ mc)) eqn:Hact; simpl; last first.
  { destruct (clear (decide_ mc)) eqn:Hc; [|done]. repeat (split; try done).
    exists mc. naive_solver. }
  split; [done|]. intros [[i|]|]; [|done..]. simpl. case_bool_decide as Hclosed.
  { repeat (split; try done). exists mc. naive_solver. }
  split; [done|]. intros [cs|]; [|done]. simpl.
  destruct (ResolveColumn _ _ _) as [[cur c1] c2] eqn:Hres.
  assert (Hcur : current i cs = cur) by by rewrite /current Hres.
  assert (Hskip : coalesceColumn (BoardCol mc) (OriginColumn mc) ≠ Some cur →
    good (mkSeen (row s) (Some i) (Some cs) (relabelled s) (cached s)) (clearPending id)).
  { intros Hne. repeat (split; try done). exists mc. simpl. split; [done|]. right; right.
    exists i. split; [done|]. right. exists cs. by rewrite Hcur. }
  destruct (coalesceColumn _ _) as [baseline|] eqn:Hb; [|by apply Hskip].
  case_bool_decide as Heq; simpl; [|apply Hskip; congruence]. subst cur baseline.
  split; [done|]. intros [[]|]; [|done].
  eapply monitored_bind; [eapply AutoMove_justified; try done; by do 3 eexists|].
  intros s' [moved|] Hpost; [|done]. destruct (Hpost _ eq_refl) as (Hm & Hr & Hc).
  split; [done|]. intros x. simpl. by destruct (projector cfg).
Qed.

Lemma comment_justified cfg s st mc iid : good s (maybeTerminalComment cfg id st mc iid).
Proof.
  rewrite /maybeTerminalComment. destruct (negb _); [done|]. destruct (negb _); [done|].
  split; [done|]. intros [n|]; [|done]. simpl. case_bool_decide; [done|].
  split; [done|]. by intros [[]|].
Qed.
End Justified.

(** C31. Manual drags win. Whatever the database and the forge answer, and
    whatever changes between two requests, a goroutine of the automation relabels
    an issue only when it read the card open and in the column the automation
    left it in, COALESCE(board_column, origin_column), and then by exactly the
    planned delta to the column its status decision names; the cache is written
    after the forge confirmed, board_column after both; and a pending marker is
    dropped only for a run without a card or an origin, a closed issue, or a card
    found elsewhere. *)
Theorem writes_justified cfg id st :
  monitored upd (justified (λ mc, notifierDecision st (OriginColumn mc)) id) (λ _ _, True)
    nothing (Notify cfg id st) ∧
  monitored upd (justified (λ mc, reconcilerDecision (Status mc) (OriginColumn mc)) id)
    (λ _ _, True) nothing (reconcileOne cfg id).
Proof.
  split.
  - rewrite /Notify. case_bool_decide; [|done]. split; [done|]. intros [[mc|]|]; [|done..]. simpl.
    destruct (IssueIid mc) as [iid|] eqn:Hiid; [|done].
    eapply monitored_bind; [by apply (apply_justified (λ mc, notifierDecision st (OriginColumn mc)))|].
    intros. apply comment_justified.
  - split; [done|]. intros [[mc|]|]; [|done..]. simpl. case_bool_decide; [done|].
    destruct (IssueIid mc) as [iid|] eqn:Hiid.
    + eapply monitored_bind;
        [by apply (apply_justified (λ mc, reconcilerDecision (Status mc) (OriginColumn mc)))|].
      intros. apply comment_justified.
    + repeat (split; try done). exists mc. naive_solver.
Qed.

(** * An undisturbed retry *)

Definition boardOK (cs : list BoardColumn) : Prop :=
  ∀ c, c ∈ cs → 0 <= position c ∧ label_name c ≠ EmptyString.

Lemma columnPositions_lookup cs l pos :
  boardOK cs → columnPositions cs !! l = Some pos → 0 <= pos ∧ l ∈ label_name <$> cs.
Proof.
  intros Hok. rewrite /columnPositions.
  assert (Hgen : ∀ m : gmap string Z, foldl (λ m c, <[label_name c := position c]> m) m cs !! l = Some pos →
    m !! l = Some pos ∨ 0 <= pos ∧ l ∈ label_name <$> cs).
  { induction cs as [|c cs IH]; intros m Hl; simpl in *; [by left|].
    apply IH in Hl as [Hl|[? ?]]; [|right; set_solver|intros ? ?; apply Hok; set_solver].
    destruct (Hok c) as [? _]; [set_solver|].
    apply lookup_insert_Some in Hl as [[<- <-]|[_ Hl]]; [right; set_solver|by left]. }
  intros [Hm|?]%Hgen; [by rewrite lookup_empty in Hm|done].
Qed.

Lemma columnPositions_dom cs :
  dom (columnPositions cs) = list_to_set (label_name <$> cs) :> gset string.
Proof.
  rewrite /columnPositions. apply set_eq. intros l.
  assert (Hgen : ∀ m : gmap string Z,
    l ∈ dom (foldl (λ m c, <[label_name c := position c]> m) m cs) ↔
    l ∈ dom m ∨ l ∈ label_name <$> cs).
  { induction cs as [|c cs IH]; intros m; simpl; [set_solver|].
    rewrite IH dom_insert_L. set_solver. }
  rewrite Hgen elem_of_list_to_set. set_solver.
Qed.

Lemma handle_fine w X (r : req X) : faults w = [] → handle w X r = answer w X r.
Proof. by rewrite /handle => ->. Qed.

Ltac fine := repeat (rewrite handle_fine //=).

(** The plan of a move, against the board as it is read. *)
Lemma plan_spec i cs tgt :
  boardOK cs → NoDup (labels i) → issue_state i ≠ "closed" →
  tgt = EmptyString ∨ tgt ∈ label_name <$> cs →
  let '(add, remove, new) := plan i cs tgt in
  upsertLabels (labels i) add remove = new ∧
  current (mkIssue (issue_state i) new) cs = tgt ∧
  filter (λ l, l ∉ label_name <$> cs) new = filter (λ l, l ∉ label_name <$> cs) (labels i).
Proof.
  intros Hok Hnd Hst Htgt. rewrite /plan -columnPositions_dom.
  pose proof (PlanLabelMove_spec (labels i) (columnPositions cs) tgt (issue_state i) Hnd) as H.
  pose proof (upsertLabels_plan (labels i) (dom (columnPositions cs)) tgt) as Hu.
  assert (Hin : ∀ l, columnPositions cs !! l = None ↔ l ∉ label_name <$> cs).
  { intros l. rewrite -not_elem_of_dom columnPositions_dom elem_of_list_to_set //. }
  destruct (PlanLabelMove _ _ _) as [[add remove] new].
  destruct H as (Hres & Hkeep & _); [..|done| ].
  - intros l pos Hl. by eapply columnPositions_lookup.
  - apply Hin. intros (c & Hc & Hcs)%list_elem_of_fmap. by destruct (Hok c Hcs).
  - destruct Htgt as [?|Ht]; [by left|right].
    apply elem_of_dom. rewrite columnPositions_dom elem_of_list_to_set //.
  - split; [done|]. rewrite /current /= Hres. split; [done|].
    rewrite -(list_filter_iff _ _ _ Hin) Hkeep. by apply list_filter_iff.
Qed.

(** What a fault-free call does to the world. *)
Definition fineAutoMove (w : World) (repo : uuid) (project iid : Z) (i : Issue)
    (cs : list BoardColumn) (tgt : string) : World :=
  let '(add, remove, new) := plan i cs tgt in
  let w1 := if bool_decide (add = []) then w else setForge w (Ensured project add) in
  let w2 := setForge w1 (Relabelled project iid add remove) in
  setIssues w2 (insert (repo, iid) (upsertIssueLabels w2 repo iid i new add remove)).

Lemma exec_AutoMove w repo project iid i cs tgt :
  faults w = [] →
  let w' := fineAutoMove w repo project iid i cs tgt in
  runProg (AutoMove repo project iid i cs tgt) w = (w', issues w' !! (repo, iid)).
Proof.
  intros Hf. rewrite /runProg /AutoMove /fineAutoMove -/(plan i cs tgt).
  destruct (plan i cs tgt) as [[add remove] new]. rewrite exec_bind.
  case_bool_decide; simpl; fine; by rewrite lookup_insert_eq.
Qed.

(** The terminal comment leaves the placement of the card alone. *)
Definition sameMove (r r' : Run) : Prop :=
  user_id r' = user_id r ∧ repo_id r' = repo_id r ∧ board_column r' = board_column r ∧
  move_pending_since r' = move_pending_since r.
Definition sameCard (id : uuid) (w w' : World) : Prop :=
  faults w' = faults w ∧ repos w' = repos w ∧ issues w' = issues w ∧ columns w' = columns w ∧
  (∀ c, c ∈ forge w → c ∈ forge w') ∧
  ∀ r, runs w !! id = Some r → ∃ r', runs w' !! id = Some r' ∧ sameMove r r'.

Lemma exec_comment cfg id st mc iid w :
  faults w = [] → sameCard id w (runProg (maybeTerminalComment cfg id st mc iid) w).1.
Proof.
  intros Hf. assert (Hrefl : sameCard id w w) by (rewrite /sameCard /sameMove; naive_solver).
  rewrite /runProg /maybeTerminalComment. destruct (negb _); [done|]. destruct (negb _); [done|].
  simpl. rewrite handle_fine //= /updateRun.
  destruct (runs w !! id) as [r|] eqn:Hr; [|done]. destruct (claimable r); [|done].
  simpl. fine. rewrite /sameCard /=. split_and!; try done; [set_solver|].
  intros r' ?. simplify_eq. eexists. by rewrite lookup_insert_eq.
Qed.

Lemma fineAutoMove_frame w repo project iid i cs tgt :
  let w' := fineAutoMove w repo project iid i cs tgt in
  faults w' = faults w ∧ runs w' = runs w ∧ repos w' = repos w ∧ columns w' = columns w.
Proof. rewrite /fineAutoMove. destruct (plan _ _ _) as [[? ?] ?]. by case_bool_decide. Qed.

(** The card after a fault-free [AutoMove] planned from the cached row. *)
Lemma fineAutoMove_card w repo project iid i tgt :
  let cs := columns w repo in
  issues w !! (repo, iid) = Some i → boardOK cs → NoDup (labels i) → issue_state i ≠ "closed" →
  tgt = EmptyString ∨ tgt ∈ label_name <$> cs →
  let w' := fineAutoMove w repo project iid i cs tgt in
  ∃ i' add remove, issues w' !! (repo, iid) = Some i' ∧ current i' cs = tgt ∧
    issue_state i' = issue_state i ∧
    filter (λ l, l ∉ label_name <$> cs) (labels i') = filter (λ l, l ∉ label_name <$> cs) (labels i) ∧
    plan i cs tgt = (add, remove, labels i') ∧ Relabelled project iid add remove ∈ forge w'.
Proof.
  intros cs Hi Hok Hnd Hst Htgt w'. pose proof (plan_spec i cs tgt Hok Hnd Hst Htgt) as Hplan.
  subst w'. rewrite /fineAutoMove. destruct (plan i cs tgt) as [[add remove] new].
  destruct Hplan as (Hu & Hcur & Hkeep).
  exists (mkIssue (issue_state i) new), add, remove. rewrite /= lookup_insert_eq.
  split_and!; try done; [|by case_bool_decide; set_solver].
  rewrite /upsertIssueLabels. by case_bool_decide; rewrite /= Hi Hu.
Qed.

(** A run whose pending move is due and undisturbed. *)
Record due (w : World) (id : uuid) (r : Run) (mc : MoveRow) (iid : Z) (i : Issue) : Prop := {
  due_fine : faults w = [];
  due_run : runs w !! id = Some r;
  due_row : getRunMoveContext w id = Some mc;
  due_pending : MovePendingSince mc ≠ None;
  due_iid : IssueIid mc = Some iid;
  due_card : issues w !! (RepoID mc, iid) = Some i;
  due_open : issue_state i ≠ "closed";
  due_labels : NoDup (labels i);
  due_board : boardOK (columns w (RepoID mc));
  due_untouched :
    coalesceColumn (BoardCol mc) (OriginColumn mc) = Some (current i (columns w (RepoID mc)));
  due_act : act (reconcilerDecision (Status mc) (OriginColumn mc)) = true;
  due_target : let tgt := target (reconcilerDecision (Status mc) (OriginColumn mc)) in
    tgt = EmptyString ∨ tgt ∈ label_name <$> columns w (RepoID mc);
}.

Lemma exec_apply cfg w id r mc iid i :
  due w id r mc iid i →
  let dec := reconcilerDecision (Status mc) (OriginColumn mc) in
  let w1 := fineAutoMove w (RepoID mc) (ForgeProjectID mc) iid i (columns w (RepoID mc)) (target dec) in
  let w2 := setRuns w1 (insert id (recordRunColumnMove (target dec) r)) in
  (runProg (apply cfg id (contextFromRow mc iid) dec) w).1 =
    if projector cfg then setForge w2 (Projected (RepoID mc) iid (target dec)) else w2.
Proof.
  intros [Hf Hr Hrow Hpend Hiid Hcard Hopen Hnd Hok Hun Hact Htgt] dec w1 w2.
  rewrite /runProg /apply Hact /=. fine. rewrite Hcard /=.
  rewrite bool_decide_eq_false_2 // /=. fine.
  destruct (ResolveColumn _ _ _) as [[cur c1] c2] eqn:Hres.
  assert (current i (columns w (RepoID mc)) = cur) as Hcur by by rewrite /current Hres.
  rewrite Hun Hcur bool_decide_eq_true_2 //=. fine. rewrite exec_bind.
  pose proof (exec_AutoMove w (RepoID mc) (ForgeProjectID mc) iid i (columns w (RepoID mc))
    (target dec) Hf) as He. rewrite /runProg in He. rewrite He. clear He.
  destruct (fineAutoMove_frame w (RepoID mc) (ForgeProjectID mc) iid i (columns w (RepoID mc))
    (target dec)) as (Hf' & Hr' & _).
  destruct (fineAutoMove_card w (RepoID mc) (ForgeProjectID mc) iid i (target dec) Hcard Hok Hnd Hopen Htgt)
    as (i' & add & remove & Hi' & _).
  rewrite Hi' /= handle_fine /=; [by rewrite Hf'|]. rewrite /updateRun Hr' Hr.
  destruct (projector cfg); [|done]. simpl. rewrite handle_fine //=. by rewrite Hf'.
Qed.

Lemma reconcileOne_settled cfg w id :
  faults w = [] → (∀ r, runs w !! id = Some r → move_pending_since r = None) →
  (runProg (reconcileOne cfg id) w).1 = w.
Proof.
  intros Hf Hn. rewrite /runProg /=. fine.
  destruct (getRunMoveContext w id) as [mc|] eqn:Hrow; [|done].
  rewrite /getRunMoveContext in Hrow. destruct (runs w !! id) as [r|] eqn:Hr; [|done].
  simpl in Hrow. destruct (repo_id r); [|done]. simpl in Hrow.
  destruct (repos w !! _); [|done]. simpl in Hrow. case_bool_decide; [|done]. simplify_eq.
  rewrite /= (Hn r) //.
Qed.

(** The run and its card after the move. *)
Lemma exec_apply_card cfg w id r mc iid i :
  due w id r mc iid i →
  let cs := columns w (RepoID mc) in
  let dec := reconcilerDecision (Status mc) (OriginColumn mc) in
  let w2 := (runProg (apply cfg id (contextFromRow mc iid) dec) w).1 in
  faults w2 = [] ∧ runs w2 !! id = Some (recordRunColumnMove (target dec) r) ∧
  ∃ i' add remove, issues w2 !! (RepoID mc, iid) = Some i' ∧ current i' cs = target dec ∧
    issue_state i' = issue_state i ∧
    filter (λ l, l ∉ label_name <$> cs) (labels i') = filter (λ l, l ∉ label_name <$> cs) (labels i) ∧
    plan i cs (target dec) = (add, remove, labels i') ∧
    Relabelled (ForgeProjectID mc) iid add remove ∈ forge w2.
Proof.
  intros Hdue cs dec. cbv zeta. rewrite (exec_apply cfg w id r mc iid i Hdue).
  destruct Hdue as [Hf Hr Hrow Hpend Hiid Hcard Hopen Hnd Hok Hun Hact Htgt].
  destruct (fineAutoMove_frame w (RepoID mc) (ForgeProjectID mc) iid i cs (target dec))
    as (Hf1 & _ & _ & Hc1).
  pose proof (fineAutoMove_card w (RepoID mc) (ForgeProjectID mc) iid i (target dec) Hcard Hok Hnd
    Hopen Htgt) as Hcd.
  fold cs dec. fold cs in Hcd. revert Hf1 Hcd. rewrite Hf. cbv zeta.
  generalize (fineAutoMove w (RepoID mc) (ForgeProjectID mc) iid i cs (target dec)) as w1.
  intros w1 Hf1 (i' & add & remove & Hi' & Hcur & Hst & Hkeep & Hplan & Hfg).
  destruct (projector cfg); simpl; rewrite lookup_insert_eq; (split; [done|]); (split; [done|]);
    exists i', add, remove; split_and!; try done.
  by apply elem_of_cons; right.
Qed.

Lemma reconcileOne_exec cfg w id mc iid :
  faults w = [] → getRunMoveContext w id = Some mc → MovePendingSince mc ≠ None →
  IssueIid mc = Some iid →
  exec handle (reconcileOne cfg id) w =
  exec handle (_ ← apply cfg id (contextFromRow mc iid)
                     (reconcilerDecision (Status mc) (OriginColumn mc));
               maybeTerminalComment cfg id (Status mc) mc iid) w.
Proof.
  intros Hf Hrow Hpend Hiid. rewrite /reconcileOne. simpl. rewrite handle_fine //= Hrow.
  by rewrite bool_decide_eq_false_2 // Hiid.
Qed.

(** The rest of a retry leaves the moved card alone. *)
Lemma reconcileOne_apply cfg w id r mc iid i :
  due w id r mc iid i →
  sameCard id (runProg (apply cfg id (contextFromRow mc iid)
                 (reconcilerDecision (Status mc) (OriginColumn mc))) w).1
    (runProg (reconcileOne cfg id) w).1.
Proof.
  intros Hdue. destruct (exec_apply_card cfg w id r mc iid i Hdue) as [Hf2 _].
  destruct Hdue as [Hf _ Hrow Hpend Hiid _ _ _ _ _ _ _]. revert Hf2.
  rewrite /runProg (reconcileOne_exec cfg w id mc iid) // exec_bind.
  destruct (exec handle (apply _ _ _ _) w) as [w2 []]. apply exec_comment.
Qed.

(** An undisturbed retry converges: it leaves the card, in the cache, in the
    one column the total status map names and otherwise as it was, has asked the
    forge for exactly the planned label delta, records the column on the run and
    clears the pending marker, and a further retry changes nothing. *)
Theorem reconcile_converges cfg w id r mc iid i :
  due w id r mc iid i →
  let cs := columns w (RepoID mc) in
  let tgt := target (reconcilerDecision (Status mc) (OriginColumn mc)) in
  let w' := (runProg (reconcileOne cfg id) w).1 in
  (∃ r' i' add remove,
     runs w' !! id = Some r' ∧ board_column r' = Some tgt ∧ move_pending_since r' = None ∧
     issues w' !! (RepoID mc, iid) = Some i' ∧ current i' cs = tgt ∧
     issue_state i' = issue_state i ∧
     filter (λ l, l ∉ label_name <$> cs) (labels i') =
       filter (λ l, l ∉ label_name <$> cs) (labels i) ∧
     plan i cs tgt = (add, remove, labels i') ∧
     Relabelled (ForgeProjectID mc) iid add remove ∈ forge w') ∧
  (runProg (reconcileOne cfg id) w').1 = w'.
Proof.
  intros Hdue cs tgt w'.
  destruct (exec_apply_card cfg w id r mc iid i Hdue) as (Hf2 & Hr2 & i' & add & remove & Hi2 & Hrest).
  destruct (reconcileOne_apply cfg w id r mc iid i Hdue) as (Hf' & _ & Hi3 & _ & Hg3 & Hruns).
  destruct (Hruns _ Hr2) as (r' & Hr' & _ & _ & Hb & Hm). fold w' in Hf', Hi3, Hg3, Hr'. split.
  - exists r', i', add, remove. rewrite Hi3. destruct Hrest as (? & ? & ? & ? & ?).
    split_and!; try done. by apply Hg3.
  - apply reconcileOne_settled; [by rewrite Hf'|]. intros r0 ?. simplify_eq. by rewrite Hm.
Qed.

(** A completed run whose card still sits in progress. *)
Definition exampleRun : Run :=
  mkRun Uuid.Nil (Some (Uuid.mk 2)) (Some 7) "completed" (Some "Later") (Some "In Progress")
    (Some 0) true (Some 3) None.
Definition exampleIssue : Issue := mkIssue "opened" ["bug"; "In Progress"].
Definition exampleWorld : World :=
  mkWorld 0 {[ Uuid.mk 1 := exampleRun ]}
    {[ Uuid.mk 2 := mkRepo Uuid.Nil 5 "https://forge" "gitlab" "https://forge" "t" ]}
    {[ (Uuid.mk 2, 7) := exampleIssue ]}
    (λ _, [mkColumn "Later" 0; mkColumn "In Progress" 1; mkColumn "Human Review" 2]) [] [].

Lemma reconcile_converges_witness :
  let w' := (runProg (reconcileOne (New false EmptyString) (Uuid.mk 1)) exampleWorld).1 in
  board_column <$> runs w' !! Uuid.mk 1 = Some (Some "Human Review") ∧
  (runProg (reconcileOne (New false EmptyString) (Uuid.mk 1)) w').1 = w'.
Proof.
  destruct (reconcile_converges (New false EmptyString) exampleWorld (Uuid.mk 1) exampleRun
    (mkMoveRow "completed" (Some 7) (Uuid.mk 2) (Some "Later") (Some "In Progress") (Some 0) true
       (Some 3) 5 "https://forge" "gitlab" "https://forge" "t") 7 exampleIssue)
    as [(r' & i' & add & remove & Hr & Hb & _) Hagain].
  - split; try (vm_compute; reflexivity); try discriminate.
    + apply (bool_decide_unpack _). vm_compute. exact I.
    + intros c Hc. simpl in Hc. rewrite !elem_of_cons in Hc.
      destruct Hc as [->|[->|[->|Hc]]]; [..|by apply not_elem_of_nil in Hc];
        split; simpl; [lia|discriminate|lia|discriminate|lia|discriminate].
    + right. apply (bool_decide_unpack _). vm_compute. exact I.
  - split; [|exact Hagain]. by rewrite Hr /= Hb.
Defined.

End LifecycleMove.
