(* ===== verification/PersistFail.v ===== *)
(** The in-process tracker of message-persistence failures
    ([src/api/internal/workersvc/persistfail.go]): per run the current streak of
    failed appends, and the last successful append.

    Every method holds the tracker's mutex for its whole body, so a history of
    the tracker is a sequence of its operations. A Go map of pointers whose cells
    never leave the lock is a map of values; a missing key of
    [lastOKGeneration] reads as zero. *)

From S2P Require Import Prelude.

Local Open Scope Z_scope.

Module PersistFail.

Definition persistFailTTL : duration := 10 * Go.Minute.
Definition persistFailMaxEntries : Z := 4096.
Definition persistFailCapWarnEvery : duration := Go.Minute.
Definition autoStopStreak : Z := 20.
Definition autoStopWindow : duration := 60 * Go.Second.

Inductive persistFailKind :=
  persistFailNone | persistFailUnstorable | persistFailInvalid | persistFailOversize | persistFailStore.
#[global] Instance kind_eq_dec : EqDecision persistFailKind.
Proof. solve_decision. Defined.

(** Which sentinels an append error wraps. *)
Record appendError := mkAppendError { isUnstorable : bool; isInvalid : bool }.

Definition classifyPersistFail (err : option appendError) : persistFailKind :=
  match err with
  | None => persistFailNone
  | Some e =>
    if isUnstorable e then persistFailUnstorable
    else if isInvalid e then persistFailInvalid else persistFailStore
  end.

Record persistFailEntry := mkEntry {
  generation : Z; kind : persistFailKind; streak : Z; firstAt : time; lastAt : time;
  lastSeq : Z; stopReqAt : time; declineLoggedAt : time;
}.

Record persistFailStats := mkStats {
  s_generation : Z; s_kind : persistFailKind; s_streak : Z; s_firstAt : time;
  s_lastSeq : Z; s_stopReqAt : time;
}.
#[global] Instance stats_eq_dec : EqDecision persistFailStats.
Proof. solve_decision. Defined.

Record tracker := mkTracker {
  fail : gmap uuid persistFailEntry;
  lastOK : gmap uuid time;
  lastOKGeneration : gmap uuid Z;
  capWarnFail : time;
  capWarnLastOK : time;
}.

Definition newPersistFailTracker : tracker := mkTracker ∅ ∅ ∅ Go.zeroTime Go.zeroTime.

Definition okGeneration (t : tracker) (id : uuid) : Z := default 0 (lastOKGeneration t !! id).
Definition observedGeneration (g : option Z) : Z := default 0 g.
Definition setFail (t : tracker) (f : gmap uuid persistFailEntry) : tracker :=
  mkTracker f (lastOK t) (lastOKGeneration t) (capWarnFail t) (capWarnLastOK t).

Inductive slot := slotFail | slotLastOK.

(** Whether the at-capacity warning is due, per map. *)
Definition noteAtCapLocked (t : tracker) (sl : slot) (now : time) : tracker * bool :=
  let at_ := match sl with slotFail => capWarnFail t | slotLastOK => capWarnLastOK t end in
  if negb (Go.isZero at_) && (Go.sub now at_ <? persistFailCapWarnEvery) then (t, false) else
  (match sl with
   | slotFail => mkTracker (fail t) (lastOK t) (lastOKGeneration t) now (capWarnLastOK t)
   | slotLastOK => mkTracker (fail t) (lastOK t) (lastOKGeneration t) (capWarnFail t) now
   end, true).

Definition applySuccess (t : tracker) (id : uuid) (now : time) (gen : option Z) : tracker * bool :=
  let g := observedGeneration gen in
  if match fail t !! id with Some e => g <? generation e | None => false end then (t, false) else
  if g <? okGeneration t id then (t, false) else
  let t := setFail t (delete id (fail t)) in
  if negb (bool_decide (is_Some (lastOK t !! id))) &&
     (persistFailMaxEntries <=? Z.of_nat (size (lastOK t)))
  then noteAtCapLocked t slotLastOK now
  else (mkTracker (fail t) (<[id := now]> (lastOK t)) (<[id := g]> (lastOKGeneration t))
          (capWarnFail t) (capWarnLastOK t), false).

Definition startStreak (t : tracker) (id : uuid) (k : persistFailKind) (seq : Z) (now : time) (g : Z)
    : tracker * bool :=
  if (persistFailMaxEntries <=? Z.of_nat (size (fail t))) then noteAtCapLocked t slotFail now
  else (setFail t (<[id := mkEntry g k 1 now now seq Go.zeroTime Go.zeroTime]> (fail t)), false).

Definition applyFailure (t : tracker) (id : uuid) (k : persistFailKind) (seq : Z) (now : time)
    (gen : option Z) : tracker * bool :=
  let g := observedGeneration gen in
  if match fail t !! id with Some e => g <? generation e | None => false end || (g <? okGeneration t id)
  then (t, false) else
  match fail t !! id with
  | None => startStreak t id k seq now g
  | Some e =>
    if negb (generation e =? g) then startStreak (setFail t (delete id (fail t))) id k seq now g else
    let e' :=
      if negb (bool_decide (kind e = k)) || negb (lastSeq e =? seq)
      then mkEntry (generation e) k 1 now now seq (stopReqAt e) (declineLoggedAt e)
      else mkEntry (generation e) (kind e) (streak e + 1) (firstAt e) now (lastSeq e) (stopReqAt e)
             (declineLoggedAt e) in
    (setFail t (<[id := e']> (fail t)), false)
  end.

(** An omitted generation matches any. *)
Definition genMatches (gen : option Z) (g : Z) : bool :=
  match gen with None => true | Some g' => g =? g' end.

Definition evict (t : tracker) (id : uuid) (gen : option Z) : tracker :=
  let t :=
    match fail t !! id with
    | Some e => if genMatches gen (generation e) then setFail t (delete id (fail t)) else t
    | None => t
    end in
  if genMatches gen (okGeneration t id)
  then mkTracker (fail t) (delete id (lastOK t)) (delete id (lastOKGeneration t)) (capWarnFail t)
         (capWarnLastOK t)
  else t.

Definition statsOf (e : persistFailEntry) : persistFailStats :=
  mkStats (generation e) (kind e) (streak e) (firstAt e) (lastSeq e) (stopReqAt e).
Definition zeroStats : persistFailStats := mkStats 0 persistFailNone 0 Go.zeroTime 0 Go.zeroTime.

Definition stats (t : tracker) (id : uuid) : persistFailStats :=
  match fail t !! id with None => zeroStats | Some e => statsOf e end.

Definition lethalStreak (now : time) (e : persistFailEntry) : bool :=
  (autoStopStreak <=? streak e) && negb (Go.isZero (firstAt e)) &&
  (autoStopWindow <=? Go.sub now (firstAt e)).

Definition candidates (t : tracker) (now : time) : list (uuid * persistFailStats) :=
  omap (λ '(id, e), if lethalStreak now e then Some (id, statsOf e) else None) (map_to_list (fail t)).

Definition peersSucceeding (t : tracker) (id : uuid) (now : time) (window : duration) : Z :=
  Z.of_nat (size (filter (λ p : uuid * time, p.1 ≠ id ∧ Go.sub now p.2 <= window) (lastOK t))).

Definition markStopRequested (t : tracker) (id : uuid) (now : time) (gen : option Z) : tracker :=
  match fail t !! id with
  | Some e =>
    if genMatches gen (generation e)
    then setFail t (<[id := mkEntry (generation e) (kind e) (streak e) (firstAt e) (lastAt e)
                              (lastSeq e) now (declineLoggedAt e)]> (fail t))
    else t
  | None => t
  end.

Definition shouldLogDecline (t : tracker) (id : uuid) (now : time) (every : duration) (gen : option Z)
    : tracker * bool :=
  match fail t !! id with
  | None => (t, false)
  | Some e =>
    if negb (genMatches gen (generation e)) then (t, false) else
    if negb (Go.isZero (declineLoggedAt e)) && (Go.sub now (declineLoggedAt e) <? every)
    then (t, false)
    else (setFail t (<[id := mkEntry (generation e) (kind e) (streak e) (firstAt e) (lastAt e)
                               (lastSeq e) (stopReqAt e) now]> (fail t)), true)
  end.

Definition touched (now at_ : time) : bool := negb (persistFailTTL <? Go.sub now at_).

Definition prune (t : tracker) (now : time) : tracker :=
  mkTracker (filter (λ p, touched now (lastAt p.2) = true) (fail t))
    (filter (λ p, touched now p.2 = true) (lastOK t))
    (filter (λ p, default true (touched now <$> lastOK t !! p.1) = true) (lastOKGeneration t))
    (capWarnFail t) (capWarnLastOK t).

Definition current (t : tracker) (id : uuid) (c : persistFailStats) : bool :=
  match fail t !! id with None => false | Some e => bool_decide (statsOf e = c) end.

(** * Histories *)

Inductive op :=
  | OSuccess (id : uuid) (now : time) (gen : option Z)
  | OFailure (id : uuid) (k : persistFailKind) (seq : Z) (now : time) (gen : option Z)
  | OEvict (id : uuid) (gen : option Z)
  | OMark (id : uuid) (now : time) (gen : option Z)
  | OLog (id : uuid) (now : time) (every : duration) (gen : option Z)
  | OPrune (now : time).

Definition apply (t : tracker) (o : op) : tracker :=
  match o with
  | OSuccess id now gen => (applySuccess t id now gen).1
  | OFailure id k seq now gen => (applyFailure t id k seq now gen).1
  | OEvict id gen => evict t id gen
  | OMark id now gen => markStopRequested t id now gen
  | OLog id now every gen => (shouldLogDecline t id now every gen).1
  | OPrune now => prune t now
  end.

(** The tracker after a history, latest operation first. *)
Fixpoint after (h : list op) : tracker :=
  match h with [] => newPersistFailTracker | o :: h' => apply (after h') o end.

(** The appends of a run observed at generation [g] or a later one. *)
Definition observed (id : uuid) (g : Z) (o : op) : Prop :=
  match o with
  | OSuccess id' _ gen => id' = id ∧ g <= observedGeneration gen
  | OFailure id' _ _ _ gen => id' = id ∧ g <= observedGeneration gen
  | _ => False
  end.
#[global] Instance observed_dec id g o : Decision (observed id g o).
Proof. destruct o; simpl; apply _. Defined.

(** The time of a failure of class [k] at sequence number [seq] and generation [g]. *)
Definition matching (k : persistFailKind) (seq g : Z) (o : op) : option time :=
  match o with
  | OFailure _ k' seq' now gen =>
    if bool_decide (k' = k ∧ seq' = seq ∧ observedGeneration gen = g) then Some now else None
  | _ => None
  end.

(** The [n] latest appends of the run since its generation [g] all failed in the
    same way, the newest at [last] and the oldest at [first]. *)
Record evidence (h : list op) (id : uuid) (g : Z) (k : persistFailKind) (seq n : Z)
    (first last_ : time) : Prop := {
  ev_pos : 0 < n;
  ev_times : ∃ ts, mapM (matching k seq g) (take (Z.to_nat n) (filter (observed id g) h)) = Some ts ∧
               Z.of_nat (length ts) = n ∧ head ts = Some last_ ∧ last ts = Some first;
}.

Lemma evidence_skip h o id g k seq n first last_ :
  ¬ observed id g o → evidence h id g k seq n first last_ → evidence (o :: h) id g k seq n first last_.
Proof. intros Ho [Hn Ht]. split; [done|]. by rewrite filter_cons_False. Qed.

Lemma evidence_first h id k seq now gen :
  evidence (OFailure id k seq now gen :: h) id (observedGeneration gen) k seq 1 now now.
Proof.
  split; [lia|]. exists [now]. rewrite filter_cons_True; [by split; [|lia]|].
  change (Z.to_nat 1) with 1%nat. by rewrite /= bool_decide_eq_true_2.
Qed.

Lemma evidence_more h id k seq n first last_ now gen :
  evidence h id (observedGeneration gen) k seq n first last_ →
  evidence (OFailure id k seq now gen :: h) id (observedGeneration gen) k seq (n + 1) first now.
Proof.
  intros [Hn (ts & Hts & Hlen & Hhd & Hlast)]. split; [lia|]. exists (now :: ts).
  rewrite filter_cons_True; [by split; [|lia]|]. rewrite Z.add_1_r Z2Nat.inj_succ; [lia|].
  rewrite /= bool_decide_eq_true_2 //= Hts. split_and!; [done|simpl; lia|done|].
  destruct ts; [done|]. by rewrite last_cons_cons.
Qed.

(** What the tracker knows, in terms of what happened. *)
Record inv (h : list op) (t : tracker) : Prop := {
  inv_fail id e : fail t !! id = Some e →
    evidence h id (generation e) (kind e) (lastSeq e) (streak e) (firstAt e) (lastAt e) ∧
    okGeneration t id <= generation e ∧ 0 <= generation e;
  inv_lastOK id at_ : lastOK t !! id = Some at_ → ∃ gen, OSuccess id at_ gen ∈ h;
  inv_gen id g : lastOKGeneration t !! id = Some g → 0 <= g ∧ is_Some (lastOK t !! id);
  inv_size_fail : Z.of_nat (size (fail t)) <= persistFailMaxEntries;
  inv_size_lastOK : Z.of_nat (size (lastOK t)) <= persistFailMaxEntries;
}.

Lemma okGeneration_nonneg h t id : inv h t → 0 <= okGeneration t id.
Proof.
  intros Hi. rewrite /okGeneration. destruct (lastOKGeneration t !! id) eqn:E; simpl; [|lia].
  by destruct (inv_gen _ _ Hi _ _ E).
Qed.

Lemma inv_gen_dom h t id : inv h t → is_Some (lastOKGeneration t !! id) → is_Some (lastOK t !! id).
Proof. intros Hi [g Hg]. by destruct (inv_gen _ _ Hi _ _ Hg). Qed.

Lemma inv_New : inv [] newPersistFailTracker.
Proof. by split; try (intros ? ?; simpl; rewrite lookup_empty); rewrite /= ?map_size_empty /persistFailMaxEntries; [..|lia|lia]. Qed.

(** An operation that only forgets, or touches what the evidence ignores. *)
Lemma inv_forget h t t' o :
  inv h t →
  (∀ id e', fail t' !! id = Some e' → ∃ e, fail t !! id = Some e ∧ ¬ observed id (generation e) o ∧
     generation e' = generation e ∧ kind e' = kind e ∧ lastSeq e' = lastSeq e ∧
     streak e' = streak e ∧ firstAt e' = firstAt e ∧ lastAt e' = lastAt e) →
  lastOK t' ⊆ lastOK t → lastOKGeneration t' ⊆ lastOKGeneration t →
  (∀ id, is_Some (lastOKGeneration t' !! id) → is_Some (lastOK t' !! id)) →
  inv (o :: h) t'.
Proof.
  intros Hi Hf Hok Hgen Hdom. split.
  - intros id e' He'. destruct (Hf id e' He') as (e & He & Ho & -> & -> & -> & -> & -> & ->).
    destruct (inv_fail _ _ Hi id e He) as (Hev & Hle & H0). split; [by apply evidence_skip|].
    split; [|done]. rewrite /okGeneration. destruct (lastOKGeneration t' !! id) eqn:E; [|done].
    rewrite /okGeneration (lookup_weaken _ _ _ _ E Hgen) in Hle. done.
  - intros id at_ Hat. destruct (inv_lastOK _ _ Hi id at_) as [gen Hin]; [by eapply lookup_weaken|].
    exists gen. set_solver.
  - intros id g Hg. split; [|by apply Hdom; eauto].
    destruct (inv_gen _ _ Hi id g); [by eapply lookup_weaken|done].
  - etrans; [|apply (inv_size_fail _ _ Hi)]. apply inj_le. rewrite -!size_dom. apply subseteq_size.
    intros id [e' He']%elem_of_dom. destruct (Hf id e' He') as (e & He & _). by apply elem_of_dom.
  - etrans; [|apply (inv_size_lastOK _ _ Hi)]. apply inj_le. rewrite -!size_dom. by apply subseteq_size, subseteq_dom.
Qed.

Lemma inv_noop h t o :
  inv h t → (∀ id e, fail t !! id = Some e → ¬ observed id (generation e) o) → inv (o :: h) t.
Proof.
  intros Hi Ho. eapply inv_forget; eauto; [intros; eexists; split_and!; eauto|].
  intros ?; by apply (inv_gen_dom h).
Qed.

Lemma inv_skip h t o :
  inv h t → (∀ id g, ¬ observed id g o) → inv (o :: h) t.
Proof. intros Hi Ho. by apply inv_noop. Qed.

Ltac ignored := apply inv_skip; [done | by intros ? ? []].

Lemma inv_evict h t id gen : inv h t → inv (OEvict id gen :: h) (evict t id gen).
Proof.
  intros Hi. apply (inv_forget h t); [done|..]; rewrite /evict.
  - intros id' e' He'. exists e'. split_and!; [|by intros []|done..]. revert He'.
    repeat case_match; simpl; rewrite ?lookup_delete_Some; naive_solver.
  - repeat case_match; simpl; try done; apply delete_subseteq.
  - repeat case_match; simpl; try done; apply delete_subseteq.
  - intros id'. pose proof (inv_gen_dom _ _ id' Hi).
    repeat case_match; simpl; rewrite ?lookup_delete_is_Some; tauto.
Qed.

Lemma inv_mark h t id now gen : inv h t → inv (OMark id now gen :: h) (markStopRequested t id now gen).
Proof.
  intros Hi. rewrite /markStopRequested. destruct (fail t !! id) as [e|] eqn:He; [|ignored].
  destruct (genMatches gen (generation e)); [|ignored].
  apply (inv_forget h t); simpl; [done| |done|done|].
  - intros id' e' [[<- <-]|[_ ?]]%lookup_insert_Some; eexists; split_and!; try done; by intros [].
  - intros ?; by apply (inv_gen_dom h).
Qed.

Lemma inv_log h t id now every gen :
  inv h t → inv (OLog id now every gen :: h) (shouldLogDecline t id now every gen).1.
Proof.
  intros Hi. rewrite /shouldLogDecline. destruct (fail t !! id) as [e|] eqn:He; [|ignored].
  destruct (negb (genMatches gen _)); [ignored|].
  destruct (_ && _); [ignored|].
  apply (inv_forget h t); simpl; [done| |done|done|].
  - intros id' e' [[<- <-]|[_ ?]]%lookup_insert_Some; eexists; split_and!; try done; by intros [].
  - intros ?; by apply (inv_gen_dom h).
Qed.

Lemma inv_prune h t now : inv h t → inv (OPrune now :: h) (prune t now).
Proof.
  intros Hi. apply (inv_forget h t); simpl; [done|..].
  - intros id e' [He' _]%map_lookup_filter_Some. exists e'. split_and!; try done; by intros [].
  - apply map_filter_subseteq.
  - apply map_filter_subseteq.
  - intros id [g [Hg Ht]%map_lookup_filter_Some]. destruct (inv_gen _ _ Hi _ _ Hg) as [_ [at_ Hat]].
    exists at_. apply map_lookup_filter_Some. rewrite /= Hat /= in Ht. done.
Qed.

(** The at-capacity warning only moves its throttle. *)
Lemma inv_note h t sl now : inv h t → inv h (noteAtCapLocked t sl now).1.
Proof. rewrite /noteAtCapLocked => -[????]. destruct (_ && _), sl; by split. Qed.

Lemma inv_success h t id now gen :
  inv h t → inv (OSuccess id now gen :: h) (applySuccess t id now gen).1.
Proof.
  intros Hi. rewrite /applySuccess. set (g := observedGeneration gen).
  case_match eqn:Hst.
  { apply inv_noop; [done|]. intros id' e He. simpl. intros [<- Hle].
    rewrite He in Hst. subst g. apply Z.ltb_lt in Hst. lia. }
  destruct (Z.ltb_spec g (okGeneration t id)) as [Hg|Hg].
  { apply inv_noop; [done|]. intros id' e He. simpl. intros [<- Hle].
    destruct (inv_fail _ _ Hi _ _ He) as (_ & ? & _). subst g. lia. }
  assert (Hd : inv (OSuccess id now gen :: h) (setFail t (delete id (fail t)))).
  { apply (inv_forget h t); simpl; [done| |done|done|].
    - intros id' e' [Hne He']%lookup_delete_Some. exists e'. split_and!; eauto. naive_solver.
    - intros ?; by apply (inv_gen_dom h). }
  destruct (negb _ && _) eqn:Hcap; [by apply inv_note|].
  destruct Hd as [Hfail Hok Hgen Hsf Hso]. simpl in *. split; simpl; [|..|done|].
  - intros id' e' He'. destruct (Hfail id' e' He') as (Hev & Hle & H0). split_and!; [done| |done].
    apply lookup_delete_Some in He' as [Hne _]. rewrite /okGeneration /= lookup_insert_ne //.
  - intros id' at_ [[<- <-]|[_ Hat]]%lookup_insert_Some; [exists gen; set_solver|by apply Hok].
  - intros id' g' [[<- <-]|[Hne Hg']]%lookup_insert_Some.
    + rewrite lookup_insert_eq. pose proof (okGeneration_nonneg h t id Hi). split; [lia|eauto].
    + rewrite lookup_insert_ne //. by apply Hgen.
  - rewrite map_size_insert. destruct (lastOK t !! id) eqn:Hl; [done|].
    apply andb_false_iff in Hcap as [Hc%negb_false_iff%bool_decide_eq_true|Hc%Z.leb_gt]; [|simpl; lia].
    by destruct Hc.
Qed.

Lemma inv_startStreak h t id k seq now gen :
  inv (OFailure id k seq now gen :: h) t → fail t !! id = None →
  okGeneration t id <= observedGeneration gen → 0 <= observedGeneration gen →
  inv (OFailure id k seq now gen :: h) (startStreak t id k seq now (observedGeneration gen)).1.
Proof.
  intros Hi Hnone Hle H0. rewrite /startStreak. destruct (Z.leb_spec persistFailMaxEntries (Z.of_nat (size (fail t)))).
  { by apply inv_note. }
  destruct Hi as [Hfail Hok Hgen Hsf Hso]. split; simpl; [|done..| |done].
  - intros id' e' [[<- <-]|[Hne He']]%lookup_insert_Some; simpl; [|by apply Hfail].
    split; [apply evidence_first|done].
  - rewrite map_size_insert Hnone /=. lia.
Qed.

Lemma inv_failure h t id k seq now gen :
  inv h t → inv (OFailure id k seq now gen :: h) (applyFailure t id k seq now gen).1.
Proof.
  intros Hi. rewrite /applyFailure. set (g := observedGeneration gen).
  destruct (_ || _) eqn:Hst.
  { apply inv_noop; [done|]. intros id' e He. simpl. intros [<- Hle]. rewrite He in Hst.
    destruct (inv_fail _ _ Hi _ _ He) as (_ & Hg & _).
    apply orb_true_iff in Hst as [H%Z.ltb_lt|H%Z.ltb_lt]; subst g; lia. }
  apply orb_false_iff in Hst as [Hst Hg%Z.ltb_ge].
  pose proof (okGeneration_nonneg h t id Hi) as Hok0.
  destruct (fail t !! id) as [e|] eqn:He; last first.
  { apply inv_startStreak; try done; [|lia]. apply inv_noop; [done|].
    intros id' e' He'. simpl. intros [<- _]. congruence. }
  destruct (Z.eqb_spec (generation e) g) as [Heq|Hneq]; simpl; last first.
  { apply inv_startStreak; simpl; [|by rewrite lookup_delete_eq|done|lia].
    apply (inv_forget h t); simpl; [done| |done|done|].
    - intros id' e' [Hne He']%lookup_delete_Some. exists e'. split_and!; eauto. naive_solver.
    - intros ?; by apply (inv_gen_dom h). }
  destruct (inv_fail _ _ Hi _ _ He) as (Hev & Hle & H0).
  destruct Hi as [Hfail Hok Hgen Hsf Hso]. split; simpl; [| |done| |done].
  - intros id' e' [[<- <-]|[Hne He']]%lookup_insert_Some; simpl; last first.
    { destruct (Hfail _ _ He') as [? ?]. split; [|done]. apply evidence_skip; [|done]. naive_solver. }
    destruct (_ || _) eqn:Hreset; simpl; (split; [|done]); rewrite Heq.
    + apply evidence_first.
    + apply orb_false_iff in Hreset as [Hk%negb_false_iff%bool_decide_eq_true Hs%negb_false_iff%Z.eqb_eq].
      rewrite Hk Hs Heq in Hev. rewrite Hk Hs. by eapply evidence_more.
  - intros id' at_ Hat. destruct (Hok _ _ Hat) as [gen' Hin]. exists gen'. set_solver.
  - rewrite map_size_insert He. done.
Qed.

Lemma inv_after h : inv h (after h).
Proof.
  induction h as [|o h IH]; simpl; [apply inv_New|]. destruct o; simpl.
  - by apply inv_success.
  - by apply inv_failure.
  - by apply inv_evict.
  - by apply inv_mark.
  - by apply inv_log.
  - by apply inv_prune.
Qed.

(** A tracked streak is evidence: after any history of the tracker, a run
    with a streak of [n] at a generation has as its [n] latest observed appends of
    that generation or a later one [n] failures of the streak's class at the
    streak's sequence number, the oldest at [firstAt] and the newest at [lastAt];
    and both maps stay within their capacity. *)
Theorem streak_is_evidence h :
  (∀ id e, fail (after h) !! id = Some e →
     evidence h id (generation e) (kind e) (lastSeq e) (streak e) (firstAt e) (lastAt e)) ∧
  (∀ id at_, lastOK (after h) !! id = Some at_ → ∃ gen, OSuccess id at_ gen ∈ h) ∧
  Z.of_nat (size (fail (after h))) <= persistFailMaxEntries ∧
  Z.of_nat (size (lastOK (after h))) <= persistFailMaxEntries.
Proof.
  destruct (inv_after h) as [Hf Hok _ ? ?]. split_and!; try done. intros id e He. by apply Hf.
Qed.

End PersistFail.
