(* ===== verification/AutoStop.v ===== *)
(** The automatic stop of a run whose messages cannot be persisted
    ([src/api/internal/workersvc/autostop.go]).

    The evaluator reads the tracker of [PersistFail] between transactions, while
    request handlers keep recording: each tracker method and each query is a
    request of its own, and between two requests anything may be recorded.
    Logging is left out, as is the rollback of an abandoned transaction. *)

From S2P Require Import Prelude Prog PersistFail.

Local Open Scope Z_scope.

Module AutoStop.
Import PersistFail.

Definition autoStopEscalateAfter : duration := 60 * Go.Second.

Definition autoStopKillableKinds (k : persistFailKind) : bool :=
  match k with persistFailUnstorable | persistFailOversize => true | _ => false end.

(** The columns of [store.Run] the evaluator looks at. *)
Record Run := mkRun { Status : string; ClaimGeneration : Z; ClaimReleasedAt : option time }.

Abbreviation candidate := (uuid * persistFailStats)%type.

(** [None] is an error, an inner [None] [pgx.ErrNoRows]. *)
Inductive req : Type → Type :=
  | Candidates (now : time) : req (list candidate)
  | Current (id : uuid) (c : persistFailStats) : req bool
  | PeersSucceeding (id : uuid) (now : time) (window : duration) : req Z
  | Evict (id : uuid) (gen : option Z) : req unit
  | MarkStopRequested (id : uuid) (now : time) (gen : option Z) : req unit
  | ShouldLogDecline (id : uuid) (now : time) (every : duration) (gen : option Z) : req bool
  | BeginReadCommitted : req (option unit)
  | GetRunByIDForUpdate (id : uuid) : req (option (option Run))
  | GetRunByID (id : uuid) : req (option Run)
  | ReconciliationExists (id : uuid) : req (option bool)
  | HasLivePoller (run : Run) : req (option bool)
  | CreateStopVerdictInput (id : uuid) : req (option unit)
  | FailRunAutoStop (id : uuid) : req (option Z)
  | Commit : req (option unit)
  | PublishSwept (id : uuid) (status : string) : req unit
  | MaybeEnqueueJudge (id : uuid) : req unit.

Abbreviation P := (prog req).

Record Config := mkConfig { AutoStopEnabled : bool; txBeginner : bool }.

(** What the locked half did: nothing, a stop request, or the terminal write. *)
Inductive outcome := Held | Requested | Terminal.

Definition failRunAutoStop (id : uuid) (c : persistFailStats) : P outcome :=
  rows ← call (FailRunAutoStop id);
  match rows with
  | None => mret Held
  | Some n =>
    if bool_decide (n = 0)
    then _ ← call (Evict id (Some (s_generation c))); mret Held
    else mret Terminal
  end.

Definition decline (now : time) (id : uuid) (c : persistFailStats) : P outcome :=
  _ ← call (ShouldLogDecline id now autoStopWindow (Some (s_generation c))); mret Held.

Definition evaluateAutoStopLocked (now : time) (id : uuid) (c : persistFailStats) (run : Run)
    : P outcome :=
  if negb (bool_decide (Status run = "running"))
  then _ ← call (Evict id (Some (s_generation c))); mret Held else
  if negb (autoStopKillableKinds (s_kind c)) then decline now id c else
  peers ← call (PeersSucceeding id now autoStopWindow);
  if bool_decide (peers = 0) then decline now id c else
  live ← call (HasLivePoller run);
  match live with
  | None => mret Held
  | Some live =>
    if Go.isZero (s_stopReqAt c) then
      if (live : bool) then
        created ← call (CreateStopVerdictInput id);
        match created with None => mret Held | Some _ => mret Requested end
      else failRunAutoStop id c
    else if autoStopEscalateAfter <=? Go.sub now (s_stopReqAt c) then failRunAutoStop id c
    else mret Held
  end.

(** The row the decision is taken on, locked when there is a transaction. *)
Definition readRun (cfg : Config) (id : uuid) (c : persistFailStats) : P (option Run) :=
  if txBeginner cfg then
    tx ← call BeginReadCommitted;
    match tx with
    | None => mret None
    | Some _ =>
      res ← call (GetRunByIDForUpdate id);
      match res with
      | None | Some None => mret None
      | Some (Some run) =>
        audited ← call (ReconciliationExists id);
        match audited with
        | None => mret None
        | Some audited => mret (if audited && (s_generation c <=? 0) then None else Some run)
        end
      end
    end
  else call (GetRunByID id).

Definition evaluateAutoStop (cfg : Config) (now : time) (cand : candidate) : P bool :=
  let '(id, c) := cand in
  orun ← readRun cfg id c;
  match orun with
  | None => mret false
  | Some run =>
    still ← call (Current id c);
    if negb still then mret false else
    if (bool_decide (is_Some (ClaimReleasedAt run)) || negb (ClaimGeneration run =? s_generation c)) &&
       (bool_decide (is_Some (ClaimReleasedAt run)) || negb (s_generation c =? 0))
    then mret false else
    acted ← evaluateAutoStopLocked now id c run;
    match acted with
    | Held => mret false
    | Requested | Terminal =>
      committed ← (if txBeginner cfg then call Commit else mret (Some tt));
      match committed with
      | None => mret false
      | Some _ =>
        _ ← match acted with
            | Terminal =>
              _ ← call (PublishSwept id "failed");
              _ ← call (MaybeEnqueueJudge id);
              call (Evict id (Some (s_generation c)))
            | _ => call (MarkStopRequested id now (Some (s_generation c)))
            end;
        mret true
      end
    end
  end.

Fixpoint evaluateAll (cfg : Config) (now : time) (cands : list candidate) : P Z :=
  match cands with
  | [] => mret 0
  | c :: cands' =>
    acted ← evaluateAutoStop cfg now c;
    n ← evaluateAll cfg now cands';
    mret (if (acted : bool) then n + 1 else n)
  end.

Definition autoStopWedgedRuns (cfg : Config) (now : time) : P Z :=
  if negb (AutoStopEnabled cfg) then mret 0 else
  cands ← call (Candidates now);
  if bool_decide (cands = []) then mret 0 else evaluateAll cfg now cands.

(** * The world around the evaluator

    Its tracker part is the history of operations so far, which other
    goroutines extend before every request; queries answer anything. The rest
    remembers what the evaluator learned about its current candidate: the row,
    and the histories at which the streak and the peers were checked. *)
Record sys := mkSys {
  hist : list op;
  locked : option (uuid * Run);
  checked : option (list op);
  peered : option (list op);
  polled : option bool;
}.

(** A tracker request extends the history and has its answer determined. *)
Definition respond (h : list op) X (r : req X) : option (list op * X) :=
  match r in req X return option (list op * X) with
  | Candidates now => Some (h, candidates (after h) now)
  | Current id c => Some (h, current (after h) id c)
  | PeersSucceeding id now window => Some (h, peersSucceeding (after h) id now window)
  | Evict id gen => Some (OEvict id gen :: h, tt)
  | MarkStopRequested id now gen => Some (OMark id now gen :: h, tt)
  | ShouldLogDecline id now every gen =>
      Some (OLog id now every gen :: h, (shouldLogDecline (after h) id now every gen).2)
  | _ => None
  end.

Definition learn (s : sys) (h : list op) X (r : req X) : X → sys :=
  match r in req X return X → sys with
  | GetRunByIDForUpdate id => λ x,
      mkSys h (match x with Some (Some run) => Some (id, run) | _ => None end) None None None
  | GetRunByID id => λ x,
      mkSys h (match x with Some run => Some (id, run) | _ => None end) None None None
  | Current id c => λ x,
      mkSys h (locked s) (if x then Some h else None) (peered s) (polled s)
  | PeersSucceeding id now window => λ x,
      mkSys h (locked s) (checked s) (if bool_decide (x = 0) then None else Some h) (polled s)
  | HasLivePoller _ => λ x, mkSys h (locked s) (checked s) (peered s) x
  | _ => λ _, mkSys h (locked s) (checked s) (peered s) (polled s)
  end.

Definition answers (s : sys) X (r : req X) (x : X) (s' : sys) : Prop :=
  ∃ others, let h := others ++ hist s in
  match respond h X r with
  | Some (h', x') => x = x' ∧ s' = learn s h' X r x
  | None => s' = learn s h X r x
  end.

(** * What a stop needs *)

(** At some point of the past this run was wedged: its last appends, at least
    [autoStopStreak] of them over at least [autoStopWindow], failed alike, in a
    class the world can inflict on a correct worker. *)
Definition wedged (h : list op) (now : time) (id : uuid) (e : persistFailEntry) : Prop :=
  fail (after h) !! id = Some e ∧
  evidence h id (generation e) (kind e) (lastSeq e) (streak e) (firstAt e) (lastAt e) ∧
  autoStopStreak <= streak e ∧ autoStopWindow <= Go.sub now (firstAt e) ∧
  autoStopKillableKinds (kind e) = true.

(** Another run persisted a message within the window. *)
Definition peer (h : list op) (now : time) (id : uuid) : Prop :=
  ∃ id' at_ gen, id' ≠ id ∧ OSuccess id' at_ gen ∈ h ∧ Go.sub now at_ <= autoStopWindow.

Definition entitled (now : time) (s : sys) (id : uuid) (how : persistFailEntry → option bool → Prop)
    : Prop :=
  ∃ run h0 h1 e,
    locked s = Some (id, run) ∧ Status run = "running" ∧ ClaimReleasedAt run = None ∧
    (ClaimGeneration run = generation e ∨ generation e = 0) ∧
    checked s = Some h0 ∧ h0 `suffix_of` hist s ∧ wedged h0 now id e ∧
    peered s = Some h1 ∧ h1 `suffix_of` hist s ∧ peer h1 now id ∧
    how e (polled s).

Definition ok (now : time) (s : sys) X (r : req X) : Prop :=
  match r with
  | CreateStopVerdictInput id =>
      entitled now s id (λ e live, live = Some true ∧ stopReqAt e = Go.zeroTime)
  | FailRunAutoStop id =>
      entitled now s id (λ e live,
        live = Some false ∧ stopReqAt e = Go.zeroTime ∨
        stopReqAt e ≠ Go.zeroTime ∧ autoStopEscalateAfter <= Go.sub now (stopReqAt e))
  | _ => True
  end.

Definition lethalStats (now : time) (c : persistFailStats) : Prop :=
  autoStopStreak <= s_streak c ∧ autoStopWindow <= Go.sub now (s_firstAt c).

Lemma candidates_lethal t now id c : (id, c) ∈ candidates t now → lethalStats now c.
Proof.
  rewrite /candidates list_elem_of_omap. intros ([id' e] & _ & Hc).
  rewrite /lethalStreak in Hc. case_match eqn:E; [|done]. simplify_eq.
  apply andb_true_iff in E as [[E1%Z.leb_le _]%andb_true_iff E2%Z.leb_le]. by split.
Qed.

Lemma current_wedged h now id c :
  current (after h) id c = true → lethalStats now c → autoStopKillableKinds (s_kind c) = true →
  ∃ e, wedged h now id e ∧ c = statsOf e.
Proof.
  rewrite /current. destruct (fail (after h) !! id) as [e|] eqn:He; [|done].
  intros <-%bool_decide_eq_true [Hs Hw] Hk. exists e. split; [|done]. split_and!; try done.
  by apply (inv_fail _ _ (inv_after h)).
Qed.

Lemma peers_peer h now id :
  peersSucceeding (after h) id now autoStopWindow ≠ 0 → peer h now id.
Proof.
  rewrite /peersSucceeding. intros Hn.
  destruct (map_choose (filter (λ p : uuid * time, p.1 ≠ id ∧ Go.sub now p.2 <= autoStopWindow)
    (lastOK (after h)))) as (id' & at_ & [Hat [Hne Hle]]%map_lookup_filter_Some).
  { intros E. rewrite E map_size_empty in Hn. lia. }
  destruct (inv_lastOK _ _ (inv_after h) id' at_ Hat) as [gen Hin]. by exists id', at_, gen.
Qed.

#[local] Arguments failRunAutoStop : simpl never.
#[local] Arguments decline : simpl never.

Section Entitled.
Context (now : time).
Abbreviation good := (wp answers (ok now) (λ _ _, True)).

(** Requests whose answers nothing depends on. *)
Lemma wp_decline s id c : good s (decline now id c).
Proof. split; [done|]. done. Qed.

Lemma wp_evict s id gen : good s (_ ← call (Evict id gen); mret Held).
Proof. split; [done|]. done. Qed.

Lemma wp_fail s id c :
  ok now s _ (FailRunAutoStop id) → good s (failRunAutoStop id c).
Proof.
  intros Hok. split; [done|]. intros [n|] s' _; [|done]. cbn -[wp].
  case_bool_decide; [apply wp_evict|done].
Qed.

(** The row is locked and the streak was found current at [h0]. *)
Lemma wp_locked s id c run h0 :
  lethalStats now c → locked s = Some (id, run) → checked s = Some h0 → h0 `suffix_of` hist s →
  current (after h0) id c = true → ClaimReleasedAt run = None →
  (ClaimGeneration run = s_generation c ∨ s_generation c = 0) →
  good s (evaluateAutoStopLocked now id c run).
Proof.
  intros Hl Hlk Hck Hsuf Hcur Hrel Hgen. rewrite /evaluateAutoStopLocked.
  case_bool_decide as Hrun; simpl; [|apply wp_evict].
  destruct (autoStopKillableKinds (s_kind c)) eqn:Hk; simpl; [|apply wp_decline].
  destruct (current_wedged h0 now id c Hcur Hl Hk) as (e & Hw & ->).
  split; [done|]. intros peers s1 (others & -> & ->). simpl.
  case_bool_decide as Hp; simpl; [done|]. apply peers_peer in Hp.
  set (h1 := others ++ hist s) in *.
  split; [done|]. intros live s2 (others2 & ->). simpl.
  set (s2 := mkSys _ _ _ _ _).
  assert (Hent : ∀ how, how e live → entitled now s2 id how).
  { intros how Hhow. exists run, h0, h1, e. split_and!; try done.
    - simpl. by do 2 apply suffix_app_r.
    - simpl. by apply suffix_app_r. }
  destruct live as [live|]; [|done].
  destruct (Go.isZero (stopReqAt e)) eqn:Hz; simpl.
  - apply Z.eqb_eq in Hz. destruct live.
    + split; [by apply Hent|]. by intros [?|] ? ?.
    + apply wp_fail, Hent. by left.
  - apply Z.eqb_neq in Hz. destruct (Z.leb_spec autoStopEscalateAfter (Go.sub now (stopReqAt e))); [|done].
    apply wp_fail, Hent. by right.
Qed.

Lemma wp_readRun cfg s id c :
  wp answers (ok now) (λ s' o, ∀ run, o = Some run → locked s' = Some (id, run)) s (readRun cfg id c).
Proof.
  rewrite /readRun. destruct (txBeginner cfg).
  - split; [done|]. intros [[]|] s1 _; [|by intros ?]. simpl. split; [done|].
    intros [[run|]|] s2 (o2 & ->); [|by intros ?..]. simpl. split; [done|].
    intros [audited|] s3 (o3 & ->); [|by intros ?]. simpl. intros run' Hr.
    by destruct (audited && _); simplify_eq.
  - split; [done|]. intros [run|] s1 (o & ->); simpl; naive_solver.
Qed.

Lemma wp_evaluateAutoStop cfg s cand :
  lethalStats now cand.2 → good s (evaluateAutoStop cfg now cand).
Proof.
  intros Hl. destruct cand as [id c]. simpl in Hl. rewrite /evaluateAutoStop.
  eapply wp_bind; [apply wp_readRun|]. intros s1 [run|] Hlk; [|done].
  specialize (Hlk run eq_refl). split; [done|]. intros still s2 (others & -> & ->). simpl.
  set (h0 := others ++ hist s1). destruct (current (after h0) id c) eqn:Hcur; simpl; [|done].
  destruct (bool_decide (is_Some (ClaimReleasedAt run))) eqn:Hrel; simpl; [done|].
  apply bool_decide_eq_false in Hrel. apply eq_None_not_Some in Hrel.
  assert (Hgo : (ClaimGeneration run = s_generation c ∨ s_generation c = 0) →
    good (mkSys h0 (locked s1) (Some h0) (peered s1) (polled s1))
      (acted ← evaluateAutoStopLocked now id c run;
       match acted with
       | Held => mret false
       | Requested | Terminal =>
         committed ← (if txBeginner cfg then call Commit else mret (Some tt));
         match committed with
         | None => mret false
         | Some _ =>
           _ ← match acted with
               | Terminal =>
                 _ ← call (PublishSwept id "failed");
                 _ ← call (MaybeEnqueueJudge id);
                 call (Evict id (Some (s_generation c)))
               | _ => call (MarkStopRequested id now (Some (s_generation c)))
               end;
           mret true
         end
       end)).
  { intros Hg. eapply wp_bind; [by apply (wp_locked _ _ _ _ h0)|]. intros s3 acted _.
    destruct acted, (txBeginner cfg); simpl; try done; (split; [done|]);
      intros [?|] ? ?; simpl; repeat (split; [done|]); done. }
  destruct (Z.eqb_spec (ClaimGeneration run) (s_generation c)); simpl; [by apply Hgo; left|].
  destruct (Z.eqb_spec (s_generation c) 0); simpl; [by apply Hgo; right|done].
Qed.

Lemma wp_evaluateAll cfg s cands :
  Forall (λ cand : candidate, lethalStats now cand.2) cands → good s (evaluateAll cfg now cands).
Proof.
  intros Hl. revert s. induction Hl as [|cand cands Hc _ IH]; intros s; [done|]. simpl.
  eapply wp_bind; [by apply wp_evaluateAutoStop|]. intros s1 acted _.
  eapply wp_bind; [apply IH|]. done.
Qed.
End Entitled.

(** Auto-stop never acts on less than its guards promise. In any pass, with
    handlers recording appends between any two requests and queries answering
    anything, a run is failed or asked to stop only if its row was read running,
    unreleased and at the streak's claim generation (or the streak predates
    generations); at least 20 of its latest appends over at least 60 seconds had
    failed in the same way, in a killable class and without progress; another run
    had persisted a message within the last 60 seconds; and it is failed outright
    only when nobody polls it or a stop requested 60 seconds ago was not obeyed. *)
Theorem autostop_entitled cfg now s :
  wp answers (ok now) (λ _ _, True) s (autoStopWedgedRuns cfg now).
Proof.
  rewrite /autoStopWedgedRuns. destruct (AutoStopEnabled cfg); simpl; [|done].
  split; [done|]. intros cands s' (others & -> & ->). simpl.
  case_bool_decide; [done|]. apply wp_evaluateAll. apply Forall_forall.
  intros [id c] Hin. by eapply candidates_lethal.
Qed.

(** * An undisturbed evaluation

    Nothing is recorded meanwhile, the run is found as [run] with a poller or
    without, every statement succeeds. *)
Inductive write := Stopped (id : uuid) | Failed (id : uuid).

Definition quiet (run : Run) (live : bool) (w : list op * list write) X (r : req X)
    : (list op * list write) * X :=
  let '(h, ws) := w in
  match r in req X return (list op * list write) * X with
  | Candidates now => (w, candidates (after h) now)
  | Current id c => (w, current (after h) id c)
  | PeersSucceeding id now window => (w, peersSucceeding (after h) id now window)
  | Evict id gen => ((OEvict id gen :: h, ws), tt)
  | MarkStopRequested id now gen => ((OMark id now gen :: h, ws), tt)
  | ShouldLogDecline id now every gen =>
      ((OLog id now every gen :: h, ws), (shouldLogDecline (after h) id now every gen).2)
  | CreateStopVerdictInput id => ((h, Stopped id :: ws), Some tt)
  | FailRunAutoStop id => ((h, Failed id :: ws), Some 1)
  | GetRunByIDForUpdate _ => (w, Some (Some run))
  | GetRunByID _ => (w, Some run)
  | ReconciliationExists _ => (w, Some false)
  | HasLivePoller _ => (w, Some live)
  | BeginReadCommitted | Commit => (w, Some tt)
  | PublishSwept _ _ | MaybeEnqueueJudge _ => (w, tt)
  end.

(** The guards are not vacuous: on an undisturbed evaluation of a current
    candidate that passes them, a run with a live poller is asked to stop and its
    escalation clock is started, one without is failed, and after an unanswered
    stop request it is failed once 60 seconds have passed and left alone before;
    a failed run's streak is forgotten. *)
Theorem autostop_acts cfg now h id e run live :
  wedged h now id e → peersSucceeding (after h) id now autoStopWindow ≠ 0 →
  Status run = "running" → ClaimReleasedAt run = None → ClaimGeneration run = generation e →
  exec (quiet run live) (evaluateAutoStop cfg now (id, statsOf e)) (h, []) =
    if Go.isZero (stopReqAt e) then
      if live then ((OMark id now (Some (generation e)) :: h, [Stopped id]), true)
      else ((OEvict id (Some (generation e)) :: h, [Failed id]), true)
    else if autoStopEscalateAfter <=? Go.sub now (stopReqAt e)
    then ((OEvict id (Some (generation e)) :: h, [Failed id]), true)
    else ((h, []), false).
Proof.
  intros (He & _ & _ & _ & Hk) Hp Hst Hrel Hgen.
  assert (Hcur : current (after h) id (statsOf e) = true)
    by by rewrite /current He bool_decide_eq_true_2.
  assert (Hread : exec (quiet run live) (readRun cfg id (statsOf e)) (h, []) = ((h, []), Some run)).
  { rewrite /readRun. by destruct (txBeginner cfg). }
  rewrite /evaluateAutoStop exec_bind Hread /= /quiet /=. rewrite Hcur /=.
  rewrite Hrel Hgen Z.eqb_refl /= exec_bind.
  rewrite /evaluateAutoStopLocked Hst /= Hk /= /quiet /=.
  rewrite (bool_decide_eq_false_2 _ Hp) /= /quiet /=.
  destruct (Go.isZero (stopReqAt e)); [destruct live|destruct (_ <=? _)]; by destruct (txBeginner cfg).
Qed.

(** Twenty failed appends four seconds apart beside a healthy run. *)
Definition exampleHistory : list op :=
  OSuccess (Uuid.mk 2) (90 * Go.Second) (Some 1) ::
  ((λ n, OFailure (Uuid.mk 1) persistFailUnstorable 7 (Z.of_nat n * 4 * Go.Second) (Some 3))
     <$> rev (seq 1 20)).
Definition exampleEntry : persistFailEntry :=
  mkEntry 3 persistFailUnstorable 20 (4 * Go.Second) (80 * Go.Second) 7 Go.zeroTime Go.zeroTime.

Lemma autostop_acts_witness :
  exec (quiet (mkRun "running" 3 None) false)
    (evaluateAutoStop (mkConfig true true) (100 * Go.Second) (Uuid.mk 1, statsOf exampleEntry))
    (exampleHistory, []) =
  ((OEvict (Uuid.mk 1) (Some 3) :: exampleHistory, [Failed (Uuid.mk 1)]), true).
Proof.
  assert (He : fail (after exampleHistory) !! Uuid.mk 1 = Some exampleEntry)
    by (vm_compute; reflexivity).
  apply (autostop_acts (mkConfig true true) (100 * Go.Second) exampleHistory (Uuid.mk 1) exampleEntry
    (mkRun "running" 3 None) false); try reflexivity.
  - split_and!; [exact He| |vm_compute; discriminate|vm_compute; discriminate|reflexivity].
    by apply (inv_fail _ _ (inv_after exampleHistory)).
  - vm_compute. discriminate.
Defined.

End AutoStop.
