(* ===== verification/Outbox.v ===== *)
(** The in-process view of the workers' message outboxes
    ([src/api/internal/workersvc/outbox_tracker.go]): per worker the last reported
    set, and a reverse index that answers for a run in one lookup.

    Every method runs under the tracker's mutex. The loop of [workerAggregate]
    ranges over a Go map; its model walks the map's listing, and what is proved
    holds for any order. *)

From S2P Require Import Prelude.

Local Open Scope Z_scope.

Module Outbox.

Record OutboxEntry := mkOutboxEntry {
  RunID : uuid;
  PendingMessages : Z;
  PendingTerminal : Z;
  PolicyPendingOutcomeID : uuid;
  PolicyPendingSourceGeneration : Z;
  StaleRetired : Z;
  BlockedReason : string;
  Since : time;
}.

Definition outboxTrackerMaxWorkers : Z := 4096.
Definition outboxTrackerTTL : duration := 10 * Go.Minute.
Definition outboxCapWarnEvery : duration := Go.Minute.

Record outboxWorkerState := mkWorker {
  updatedAt : time;
  runs : gmap uuid OutboxEntry;
  rootUnusable_ : string;
}.

Record outboxTracker := mkTracker {
  workers : gmap uuid outboxWorkerState;
  runIndex : gmap uuid uuid;
  capWarnAt : time;
}.

Definition newOutboxTracker : outboxTracker := mkTracker ∅ ∅ Go.zeroTime.

Definition setWorkers (t : outboxTracker) ws := mkTracker ws (runIndex t) (capWarnAt t).
Definition setIndex (t : outboxTracker) ix := mkTracker (workers t) ix (capWarnAt t).

Definition atCap (t : outboxTracker) : bool := outboxTrackerMaxWorkers <=? Z.of_nat (size (workers t)).

Definition recordRootUnusable (t : outboxTracker) (w : uuid) (reason : string) (now : time)
    : outboxTracker :=
  let reason := if bool_decide (reason ∈ ["symlink"; "unreadable"]) then reason else EmptyString in
  match workers t !! w with
  | None =>
    if bool_decide (reason = EmptyString) || atCap t then t
    else setWorkers t (<[w := mkWorker now ∅ reason]> (workers t))
  | Some st =>
    if bool_decide (reason = EmptyString) && (size (runs st) =? 0)%nat
    then setWorkers t (delete w (workers t))
    else setWorkers t (<[w := mkWorker now (runs st) reason]> (workers t))
  end.

Definition rootUnusable (t : outboxTracker) (w : uuid) : option string :=
  match workers t !! w with
  | Some st => if bool_decide (rootUnusable_ st = EmptyString) then None else Some (rootUnusable_ st)
  | None => None
  end.

(** Only the runs the index still attributes to the worker. *)
Definition forgetWorkerRunsLocked (t : outboxTracker) (w : uuid) : outboxTracker :=
  match workers t !! w with
  | None => t
  | Some st =>
    setIndex t (foldl (λ ix r, if bool_decide (ix !! r = Some w) then delete r ix else ix)
                  (runIndex t) (map_to_list (runs st)).*1)
  end.

Definition noteAtCapLocked (t : outboxTracker) (now : time) : outboxTracker * bool :=
  if negb (Go.isZero (capWarnAt t)) && (Go.sub now (capWarnAt t) <? outboxCapWarnEvery)
  then (t, false) else (mkTracker (workers t) (runIndex t) now, true).

Definition addEntries (w : uuid) (rs : gmap uuid OutboxEntry) (ix : gmap uuid uuid)
    (entries : list OutboxEntry) : gmap uuid OutboxEntry * gmap uuid uuid :=
  foldl (λ '(rs, ix) e, (<[RunID e := e]> rs, <[RunID e := w]> ix)) (rs, ix) entries.

Definition install (t : outboxTracker) (w : uuid) (st : outboxWorkerState)
    (entries : list OutboxEntry) (now : time) : outboxTracker :=
  let '(rs, ix) := addEntries w ∅ (runIndex t) entries in
  mkTracker (<[w := mkWorker now rs (rootUnusable_ st)]> (workers t)) ix (capWarnAt t).

Definition applyRecord (t : outboxTracker) (w : uuid) (entries : list OutboxEntry) (now : time)
    : outboxTracker * bool :=
  let t := forgetWorkerRunsLocked t w in
  if (length entries =? 0)%nat then (setWorkers t (delete w (workers t)), false) else
  match workers t !! w with
  | Some st => (install t w st entries now, false)
  | None =>
    if atCap t then noteAtCapLocked t now
    else (install t w (mkWorker Go.zeroTime ∅ EmptyString) entries now, false)
  end.

Definition runDepth (t : outboxTracker) (r : uuid) : option (OutboxEntry * uuid) :=
  w ← runIndex t !! r;
  st ← workers t !! w;
  e ← runs st !! r;
  Some (e, w).

Record aggregate := mkAggregate {
  pendingMessages : Z; pendingTerminal : Z; staleRetired : Z; oldest : option OutboxEntry;
}.

Definition aggregateStep (a : aggregate) (e : OutboxEntry) : aggregate :=
  mkAggregate (pendingMessages a + PendingMessages e) (pendingTerminal a + PendingTerminal e)
    (staleRetired a + StaleRetired e)
    (if negb (bool_decide (BlockedReason e = EmptyString)) &&
        match oldest a with None => true | Some o => Go.before (Since e) (Since o) end
     then Some e else oldest a).

Definition workerAggregate (t : outboxTracker) (w : uuid) : aggregate :=
  match workers t !! w with
  | None => mkAggregate 0 0 0 None
  | Some st => foldl aggregateStep (mkAggregate 0 0 0 None) (map_to_list (runs st)).*2
  end.

Definition evict (t : outboxTracker) (w : uuid) : outboxTracker :=
  let t := forgetWorkerRunsLocked t w in setWorkers t (delete w (workers t)).

Definition expired (now : time) (st : outboxWorkerState) : bool :=
  outboxTrackerTTL <? Go.sub now (updatedAt st).

Definition prune (t : outboxTracker) (now : time) : outboxTracker :=
  foldl (λ t '(w, st), if expired now st then evict t w else t) t (map_to_list (workers t)).

(** [Service.RunBlockedOutcome]: only recognised reasons are passed on. *)
Definition blockedOutcomeReasons : list string :=
  ["completion_permit_mismatch"; "gap_unrecoverable"; "reserve_exhausted"].
Definition RunBlockedOutcome (t : outboxTracker) (r : uuid) : option (string * uuid) :=
  '(e, w) ← runDepth t r;
  if bool_decide (BlockedReason e ∈ blockedOutcomeReasons) then Some (BlockedReason e, w) else None.

(** * Last reporter wins

    The specification: per run the entry and the worker that reported it last,
    until that worker reports without it, is deleted or goes silent. *)
Abbreviation view := (gmap uuid (OutboxEntry * uuid)).

Definition retract (w : uuid) (v : view) : view := filter (λ p, p.2.2 ≠ w) v.
Definition report (w : uuid) (entries : list OutboxEntry) (v : view) : view :=
  foldl (λ v e, <[RunID e := (e, w)]> v) (retract w v) entries.

Inductive op :=
  | Record_ (w : uuid) (entries : list OutboxEntry) (now : time)
  | Root (w : uuid) (reason : string) (now : time)
  | Evict (w : uuid)
  | Prune (now : time).

Definition apply (t : outboxTracker) (o : op) : outboxTracker :=
  match o with
  | Record_ w entries now => (applyRecord t w entries now).1
  | Root w reason now => recordRootUnusable t w reason now
  | Evict w => evict t w
  | Prune now => prune t now
  end.

(** A report of an unknown worker at the cap is dropped. *)
Definition refused (t : outboxTracker) (w : uuid) : bool :=
  match workers t !! w with Some _ => false | None => atCap t end.

(** The worker has not reported for longer than the TTL. *)
Definition silent (t : outboxTracker) (now : time) (w : uuid) : bool :=
  match workers t !! w with Some st => expired now st | None => false end.

Definition spec (t : outboxTracker) (o : op) (v : view) : view :=
  match o with
  | Record_ w entries _ => if refused t w then v else report w entries v
  | Root _ _ _ => v
  | Evict w => retract w v
  | Prune now => filter (λ p, silent t now p.2.2 = false) v
  end.

Inductive reach : outboxTracker → view → Prop :=
  | reach_new : reach newOutboxTracker ∅
  | reach_op t v o : reach t v → reach (apply t o) (spec t o v).

(** ** The simulation *)

(** The index only names workers that hold the run. *)
Record sim (t : outboxTracker) (v : view) : Prop := {
  sim_index r w : runIndex t !! r = Some w →
    ∃ st e, workers t !! w = Some st ∧ runs st !! r = Some e;
  sim_view r : v !! r = runDepth t r;
}.

Lemma forget_lookup t v w r :
  sim t v →
  runIndex (forgetWorkerRunsLocked t w) !! r =
    match runIndex t !! r with Some w' => if decide (w' = w) then None else Some w' | None => None end.
Proof.
  intros [Hix _]. rewrite /forgetWorkerRunsLocked.
  assert (Hfold : ∀ rs ix,
    foldl (λ ix r, if bool_decide (ix !! r = Some w) then delete r ix else ix) ix rs !! r =
    if decide (r ∈ rs ∧ ix !! r = Some w) then None else (ix : gmap uuid uuid) !! r).
  { induction rs as [|r' rs IH]; intros ix; cbn [foldl].
    { case_decide as Hc; [|done]. by destruct Hc as [?%not_elem_of_nil _]. }
    rewrite IH. case_bool_decide as Hr'.
    - destruct (decide (r' = r)) as [->|Hne].
      + rewrite lookup_delete_eq. repeat case_decide; rewrite -> ?elem_of_cons in *; naive_solver.
      + rewrite lookup_delete_ne //. repeat case_decide; rewrite -> ?elem_of_cons in *; naive_solver.
    - repeat case_decide; rewrite -> ?elem_of_cons in *; naive_solver. }
  destruct (workers t !! w) as [st|] eqn:Hw; simpl.
  - rewrite Hfold. destruct (runIndex t !! r) as [w'|] eqn:Hr; [|case_decide; naive_solver].
    destruct (decide (w' = w)) as [->|Hne]; [|by rewrite decide_False; naive_solver].
    rewrite decide_True //. split; [|done]. destruct (Hix r w Hr) as (st' & e & Hst & He).
    simplify_eq. apply list_elem_of_fmap. exists (r, e). split; [done|]. by apply elem_of_map_to_list.
  - destruct (runIndex t !! r) as [w'|] eqn:Hr; [|done]. rewrite decide_False //. intros ->.
    destruct (Hix r w Hr) as (? & ? & ? & _). congruence.
Qed.

Lemma forget_workers t w : workers (forgetWorkerRunsLocked t w) = workers t.
Proof. rewrite /forgetWorkerRunsLocked. by case_match. Qed.

Lemma runDepth_Some t v r e w :
  sim t v → v !! r = Some (e, w) ↔
  ∃ st, runIndex t !! r = Some w ∧ workers t !! w = Some st ∧ runs st !! r = Some e.
Proof.
  intros [_ Hv]. rewrite Hv /runDepth. destruct (runIndex t !! r) as [w'|]; simpl; [|naive_solver].
  destruct (workers t !! w') as [st|] eqn:Hw; simpl; [|naive_solver].
  destruct (runs st !! r) as [e'|] eqn:He; simpl; naive_solver.
Qed.

Lemma runDepth_index t v r : sim t v → v !! r = None ↔ runIndex t !! r = None.
Proof.
  intros Hs. rewrite (sim_view _ _ Hs) /runDepth. destruct (runIndex t !! r) as [w|] eqn:Hr; simpl; [|done].
  destruct (sim_index _ _ Hs r w Hr) as (st & e & -> & He). by rewrite /= He.
Qed.

(** A view that agrees with the index of a tracker. *)
Lemma sim_intro t v :
  (∀ r, match runIndex t !! r with
        | Some w => ∃ st e, workers t !! w = Some st ∧ runs st !! r = Some e ∧ v !! r = Some (e, w)
        | None => v !! r = None
        end) → sim t v.
Proof.
  intros H. split.
  - intros r w Hr. specialize (H r). rewrite Hr in H. naive_solver.
  - intros r. specialize (H r). rewrite /runDepth. destruct (runIndex t !! r); [|done].
    destruct H as (st & e & Hst & He & ->). by rewrite /= Hst /= He.
Qed.

Lemma sim_at t v r :
  sim t v → match runIndex t !! r with
        | Some w => ∃ st e, workers t !! w = Some st ∧ runs st !! r = Some e ∧ v !! r = Some (e, w)
        | None => v !! r = None
        end.
Proof.
  intros Hs. destruct (runIndex t !! r) as [w|] eqn:Hr; [|by apply (runDepth_index t v)].
  destruct (sim_index _ _ Hs r w Hr) as (st & e & Hst & He). exists st, e. split_and!; [done..|].
  apply (runDepth_Some t v); eauto.
Qed.

Lemma retract_lookup w v r :
  retract w v !! r = match v !! r with Some p => if decide (p.2 = w) then None else Some p | None => None end.
Proof.
  rewrite /retract map_lookup_filter. destruct (v !! r) as [[e w']|]; simpl; [|done].
  repeat case_guard || case_decide; naive_solver.
Qed.

Lemma sim_evict t v w : sim t v → sim (evict t w) (retract w v).
Proof.
  intros Hs. apply sim_intro. intros r. rewrite /= (forget_lookup t v) // forget_workers retract_lookup.
  pose proof (sim_at t v r Hs) as Hr. destruct (runIndex t !! r) as [w'|]; [|by rewrite Hr].
  destruct Hr as (st & e & Hst & He & Hv). rewrite Hv /=. destruct (decide (w' = w)); [done|].
  exists st, e. by rewrite lookup_delete_ne.
Qed.

(** Adding the reported entries one by one. *)
Lemma addEntries_spec w (ws : gmap uuid outboxWorkerState) entries rs ix (v : view) :
  let agree (rs : gmap uuid OutboxEntry) (ix : gmap uuid uuid) (v : view) := ∀ r,
    match ix !! r with
    | Some w' =>
      if decide (w' = w) then ∃ e, rs !! r = Some e ∧ v !! r = Some (e, w)
      else ∃ st e, ws !! w' = Some st ∧ runs st !! r = Some e ∧ v !! r = Some (e, w')
    | None => v !! r = None
    end in
  agree rs ix v →
  agree (addEntries w rs ix entries).1 (addEntries w rs ix entries).2
    (foldl (λ v e, <[RunID e := (e, w)]> v) v entries).
Proof.
  intros agree. revert rs ix v. induction entries as [|e entries IH]; intros rs ix v Hag; [done|].
  apply IH. intros r. destruct (decide (RunID e = r)) as [<-|Hne].
  - rewrite lookup_insert_eq decide_True //. exists e. by rewrite !lookup_insert_eq.
  - rewrite !lookup_insert_ne //. apply Hag.
Qed.

Lemma sim_install t v w st entries now :
  sim t v → sim (install (forgetWorkerRunsLocked t w) w st entries now) (report w entries v).
Proof.
  intros Hs. rewrite /install /report.
  pose proof (addEntries_spec w (workers t) entries ∅ (runIndex (forgetWorkerRunsLocked t w))
    (retract w v)) as Hadd. cbv zeta in Hadd. rewrite forget_workers.
  destruct (addEntries _ _ _ _) as [rs ix]. simpl in Hadd. apply sim_intro. simpl.
  unshelve epose proof (Hadd _) as Hend.
  - intros r. rewrite (forget_lookup t v) // retract_lookup.
    pose proof (sim_at t v r Hs) as Hr. destruct (runIndex t !! r) as [w'|]; [|by rewrite Hr].
    destruct Hr as (st' & e & Hst & He & Hv). rewrite Hv /=.
    destruct (decide (w' = w)) as [|Hne]; [done|]. rewrite decide_False //. naive_solver.
  - intros r. specialize (Hend r). destruct (ix !! r) as [w'|]; [|done].
    destruct (decide (w' = w)) as [->|Hne].
    + destruct Hend as (e & He & Hv). rewrite lookup_insert_eq. eexists _, e. by split_and!.
    + rewrite lookup_insert_ne //.
Qed.

Lemma sim_warn t v now : sim t v → sim (noteAtCapLocked t now).1 v.
Proof. rewrite /noteAtCapLocked => -[??]. by destruct (_ && _). Qed.

(** Dropping what the index does not name changes no answer. *)
Lemma forget_unknown t w : workers t !! w = None → forgetWorkerRunsLocked t w = t.
Proof. by rewrite /forgetWorkerRunsLocked => ->. Qed.

Lemma sim_record t v w entries now :
  sim t v → sim (applyRecord t w entries now).1 (spec t (Record_ w entries now) v).
Proof.
  intros Hs. rewrite /applyRecord /spec /refused.
  destruct (Nat.eqb_spec (length entries) 0) as [Hnil|Hnil]; [|rewrite forget_workers].
  { apply length_zero_iff_nil in Hnil as ->. destruct (workers t !! w) eqn:Hw; [by apply sim_evict|].
    rewrite forget_unknown // delete_id //. destruct (atCap t); [by destruct t|].
    rewrite /report /=. apply sim_intro. intros r. rewrite retract_lookup /=.
    pose proof (sim_at t v r Hs) as Hr. destruct (runIndex t !! r) as [w'|]; [|by rewrite Hr].
    destruct Hr as (st & e & Hst & He & Hv). exists st, e. rewrite Hv decide_False //. simpl. congruence. }
  destruct (workers t !! w) eqn:Hw; [by apply sim_install|].
  rewrite {1}/atCap forget_workers -/(atCap t).
  destruct (atCap t); [|by apply sim_install]. rewrite forget_unknown //. by apply sim_warn.
Qed.

Lemma sim_root t v w reason now : sim t v → sim (recordRootUnusable t w reason now) v.
Proof.
  intros Hs. rewrite /recordRootUnusable. set (rsn := if bool_decide _ then reason else _).
  destruct (workers t !! w) as [st|] eqn:Hw.
  - apply sim_intro. intros r. pose proof (sim_at t v r Hs) as Hr. destruct (_ && _) eqn:Hdel; simpl.
    + apply andb_true_iff in Hdel as [_ Hsz%Nat.eqb_eq%map_size_empty_iff].
      destruct (runIndex t !! r) as [w'|]; [|done]. destruct Hr as (st' & e & Hst & He & Hv).
      exists st', e. rewrite lookup_delete_ne //. intros ->. simplify_eq. by rewrite Hsz lookup_empty in He.
    + destruct (runIndex t !! r) as [w'|]; [|done]. destruct Hr as (st' & e & Hst & He & Hv).
      destruct (decide (w = w')) as [<-|Hne].
      * simplify_eq. eexists _, e. rewrite lookup_insert_eq. by split_and!.
      * exists st', e. by rewrite lookup_insert_ne.
  - destruct (_ || _); [done|]. apply sim_intro. intros r. pose proof (sim_at t v r Hs) as Hr. simpl.
    destruct (runIndex t !! r) as [w'|]; [|done]. destruct Hr as (st' & e & Hst & He & Hv).
    exists st', e. rewrite lookup_insert_ne //. congruence.
Qed.

Lemma evict_workers t w : workers (evict t w) = delete w (workers t).
Proof. by rewrite /evict /= forget_workers. Qed.

Lemma retract_fold_lookup now l (v : view) r :
  foldl (λ v '(w, st), if expired now st then retract w v else v) v l !! r =
  match v !! r with
  | Some p => if existsb (λ x, bool_decide (x.1 = p.2) && expired now x.2) l then None else Some p
  | None => None
  end.
Proof.
  revert v. induction l as [|[w st] l IH]; intros v; simpl; [by case_match|]. rewrite IH.
  destruct (expired now st); [|by case_match; rewrite ?andb_false_r].
  rewrite retract_lookup. destruct (v !! r) as [p|]; [|done]. rewrite andb_true_r.
  destruct (decide (p.2 = w)) as [<-|Hne]; [by rewrite bool_decide_eq_true_2|].
  by rewrite bool_decide_eq_false_2; [congruence|].
Qed.

Lemma sim_prune t v now : sim t v → sim (prune t now) (spec t (Prune now) v).
Proof.
  intros Hs. rewrite /prune /spec.
  assert (Hgen : ∀ l t1 v1, sim t1 v1 → sim
    (foldl (λ t '(w, st), if expired now st then evict t w else t) t1 l)
    (foldl (λ v '(w, st), if expired now st then retract w v else v) v1 l)).
  { induction l as [|[w st] l IH]; intros t1 v1 H1; simpl; [done|]. apply IH.
    destruct (expired now st); [by apply sim_evict|done]. }
  replace (filter _ v) with
    (foldl (λ v '(w, st), if expired now st then retract w v else v) v (map_to_list (workers t)));
    [by apply Hgen|].
  apply map_eq. intros r. rewrite retract_fold_lookup map_lookup_filter.
  destruct (v !! r) as [[e w]|]; simpl; [|done]. rewrite /silent /=.
  destruct (existsb _ _) eqn:Hex.
  - apply existsb_true in Hex as ([w' st] & Hin%elem_of_map_to_list & Hx). simpl in Hx.
    apply andb_true_iff in Hx as [->%bool_decide_eq_true Hexp]. rewrite Hin Hexp. done.
  - destruct (workers t !! w) as [st|] eqn:Hw; [|done].
    rewrite existsb_false in Hex. specialize (Hex (w, st)). simpl in Hex.
    rewrite bool_decide_eq_true_2 // in Hex. simpl in Hex. rewrite Hex; [by apply elem_of_map_to_list|].
    done.
Qed.

Lemma reach_sim t v : reach t v → sim t v.
Proof.
  induction 1 as [|t v o _ IH].
  - apply sim_intro. intros r. by rewrite /= !lookup_empty.
  - destruct o; simpl.
    + by apply sim_record.
    + by apply sim_root.
    + by apply sim_evict.
    + by apply sim_prune.
Qed.

(** The outbox tracker implements its specification: after any sequence of
    reports, root reports, deletions and prunes, the one-lookup answer for a run
    is the entry of the worker that reported it last, gone once that worker
    reports without it, is deleted or stays silent past the TTL; a report refused
    at the cap changes nothing; and an outcome reason reaches the run page only
    from that entry and only if it is a recognised one. *)
Theorem outbox_last_reporter t v :
  reach t v → ∀ r,
  runDepth t r = v !! r ∧
  RunBlockedOutcome t r =
    match v !! r with
    | Some (e, w) => if bool_decide (BlockedReason e ∈ blockedOutcomeReasons)
                     then Some (BlockedReason e, w) else None
    | None => None
    end.
Proof.
  intros Hs%reach_sim r. rewrite (sim_view _ _ Hs). split; [done|].
  rewrite /RunBlockedOutcome. by destruct (runDepth t r) as [[e w]|].
Qed.

(** ** The aggregate of a worker *)

Definition blocked (e : OutboxEntry) : Prop := BlockedReason e ≠ EmptyString.

Definition oldestOf (es : list OutboxEntry) (o : option OutboxEntry) : Prop :=
  match o with
  | None => ∀ e, e ∈ es → ¬ blocked e
  | Some o => o ∈ es ∧ blocked o ∧ ∀ e, e ∈ es → blocked e → Since o <= Since e
  end.

Definition total (f : OutboxEntry → Z) (m : gmap uuid OutboxEntry) : Z :=
  map_fold (λ _ e n, f e + n) 0 m.

Lemma aggregate_fold es a seen :
  oldestOf seen (oldest a) →
  let a' := foldl aggregateStep a es in
  oldestOf (seen ++ es) (oldest a') ∧
  pendingMessages a' = pendingMessages a + foldr (λ e n, PendingMessages e + n) 0 es ∧
  pendingTerminal a' = pendingTerminal a + foldr (λ e n, PendingTerminal e + n) 0 es ∧
  staleRetired a' = staleRetired a + foldr (λ e n, StaleRetired e + n) 0 es.
Proof.
  revert a seen. induction es as [|e es IH]; intros a seen Ho; simpl.
  { rewrite app_nil_r. split_and!; [done|lia..]. }
  destruct (IH (aggregateStep a e) (seen ++ [e])) as (H1 & H2 & H3 & H4).
  - rewrite /aggregateStep /=. rewrite /Go.before. destruct (oldest a) as [o|]; simpl in *.
    + destruct Ho as (Hin & Hb & Hmin). case_bool_decide as He; simpl.
      { split_and!; [set_solver|done|]. intros e' [?| ->%list_elem_of_singleton]%elem_of_app ?; [eauto|done]. }
      destruct (Z.ltb_spec (Since e) (Since o)); simpl; (split_and!; [set_solver|done|]);
        intros e' [?| ->%list_elem_of_singleton]%elem_of_app Hb'; try lia; specialize (Hmin e'); naive_solver lia.
    + case_bool_decide as He; simpl.
      { intros e' [?| ->%list_elem_of_singleton]%elem_of_app; [by apply Ho|by intros []]. }
      split_and!; [set_solver|done|]. intros e' [?| ->%list_elem_of_singleton]%elem_of_app Hb'; [|lia].
      exfalso. by eapply Ho.
  - rewrite -app_assoc in H1. simpl in *. split_and!; [done|lia..].
Qed.

Lemma total_list (f : OutboxEntry → Z) m :
  total f m = foldr (λ e n, f e + n) 0 (map_to_list m).*2.
Proof.
  rewrite /total map_fold_foldr. induction (map_to_list m) as [|[r e] l IH]; simpl; [done|]. by rewrite IH.
Qed.

(** What the fleet view shows of a worker is the sum of its runs' depths, and
    the blocked reason of an entry that is blocked at least as long as any other;
    nothing when the worker reported nothing. *)
Theorem workerAggregate_correct t w :
  let a := workerAggregate t w in
  let rs := default ∅ (runs <$> workers t !! w) in
  pendingMessages a = total PendingMessages rs ∧
  pendingTerminal a = total PendingTerminal rs ∧
  staleRetired a = total StaleRetired rs ∧
  oldestOf (map_to_list rs).*2 (oldest a).
Proof.
  rewrite /workerAggregate. destruct (workers t !! w) as [st|]; simpl.
  - destruct (aggregate_fold (map_to_list (runs st)).*2 (mkAggregate 0 0 0 None) [])
      as (H1 & H2 & H3 & H4).
    { intros e He. by apply not_elem_of_nil in He. }
    rewrite !total_list. simpl in *. done.
  - rewrite /total !map_fold_empty map_to_list_empty. split_and!; try done.
    intros e He. by apply not_elem_of_nil in He.
Qed.

Definition exampleEntry (r : Z) (n : Z) (reason : string) : OutboxEntry :=
  mkOutboxEntry (Uuid.mk r) n 0 Uuid.Nil 0 0 reason 0.

Lemma outbox_last_reporter_witness :
  let ops := [Record_ (Uuid.mk 1) [exampleEntry 9 4 "gap_unrecoverable"] 0;
              Record_ (Uuid.mk 2) [exampleEntry 9 7 EmptyString] 5;
              Record_ (Uuid.mk 1) [exampleEntry 8 1 EmptyString] 6] in
  let t := foldl apply newOutboxTracker ops in
  runDepth t (Uuid.mk 9) = Some (exampleEntry 9 7 EmptyString, Uuid.mk 2).
Proof.
  intros ops t.
  assert (Hr : ∃ v, reach t v ∧ v !! Uuid.mk 9 = Some (exampleEntry 9 7 EmptyString, Uuid.mk 2)).
  { eexists. split; [subst t ops; cbn [foldl]; do 3 apply reach_op; apply reach_new|vm_compute; reflexivity]. }
  destruct Hr as (v & Hr & Hv). rewrite -Hv. apply (outbox_last_reporter t v Hr).
Defined.

End Outbox.
