(* ===== verification/PackBudget.v ===== *)
(** The reconstructed-size pre-scan of a git packfile
    ([src/api/internal/packbudget/packbudget.go]).

    The pack parser is go-git's; here it is a scanner given by its three calls.
    Sizes are 64-bit signed integers, added with wrap-around. *)

From S2P Require Import Prelude.

Local Open Scope Z_scope.

Module PackBudget.

Definition byte_ok (b : Z) : Prop := 0 <= b < 256.

(** * Delta sizes: little-endian base 128 *)

Inductive varintError := Overflow | Truncated.

Fixpoint readVarint (val shift : Z) (b : list Z) : (Z * list Z) + varintError :=
  match b with
  | [] => inr Truncated
  | c :: b' =>
    if 63 <=? shift then inr Overflow else
    let val := Z.lor val (Go.wrap64 (Z.shiftl (Z.land c 127) shift)) in
    if Z.land c 128 =? 0 then inl (val, b') else readVarint val (shift + 7) b'
  end.

Definition ReadDeltaVarint (b : list Z) : (Z * list Z) + varintError := readVarint 0 0 b.

(** * The scan *)

Inductive Bound := BoundObjects | BoundObjectBytes | BoundTotalBytes | BoundInflationWork.
Inductive error :=
  | BudgetError (bound : Bound) (limit : Z)
  | InvalidError (check : string)
  | Cancelled.

Record Limits := mkLimits {
  ObjectBytes : Z; TotalBytes : Z; InflationWorkBytes : Z; Objects : Z;
}.

Inductive objectType := OFSDeltaObject | REFDeltaObject | OtherObject.
Record ObjectHeader := mkHeader { Type_ : objectType; Length : Z }.

(** A scanner answer, [packfile.ErrInflatedSizeMismatch], or another error. *)
Inductive answer (A : Type) := Got (a : A) | Mismatch | Broken.
Arguments Got {A} a.
Arguments Mismatch {A}.
Arguments Broken {A}.

Section Scan.
Context {S : Type}.
Context (NewScanner : list Z → S) (Header : S → S * option Z).
Context (NextObjectHeader : S → S * answer ObjectHeader) (NextObject : S → S * answer (list Z)).
Context (ctxErr : nat → bool). (* whether the context is done at the i-th object *)
Context (lim : Limits).

Definition isDelta (t : objectType) : bool :=
  match t with OFSDeltaObject | REFDeltaObject => true | OtherObject => false end.

(** What one object adds to the reconstructed size. *)
Definition contribution (h : ObjectHeader) (s : S) : S * (Z + error) :=
  let '(s, body) := NextObject s in
  match body with
  | Mismatch => (s, inr (BudgetError BoundObjectBytes (ObjectBytes lim)))
  | Broken => (s, inr (InvalidError (if isDelta (Type_ h) then "delta object" else "object body")))
  | Got b =>
    if isDelta (Type_ h) then
      match ReadDeltaVarint b with
      | inr _ => (s, inr (InvalidError "delta base size"))
      | inl (_, b) =>
        match ReadDeltaVarint b with
        | inr _ => (s, inr (InvalidError "delta target size"))
        | inl (targetSz, _) =>
          if ObjectBytes lim <? targetSz
          then (s, inr (BudgetError BoundObjectBytes (ObjectBytes lim)))
          else (s, inl targetSz)
        end
      end
    else (s, inl (Length h))
  end.

Fixpoint scanObjects (i n : nat) (s : S) (total inflationWork : Z) : option error :=
  match n with
  | 0%nat => None
  | Datatypes.S n' =>
    if ctxErr i then Some Cancelled else
    let '(s, h) := NextObjectHeader s in
    match h with
    | Mismatch => Some (BudgetError BoundObjectBytes (ObjectBytes lim))
    | Broken => Some (InvalidError "object header")
    | Got h =>
      if (Length h <? 0) || (ObjectBytes lim <? Length h)
      then Some (BudgetError BoundObjectBytes (ObjectBytes lim)) else
      let inflationWork := Go.wrap64 (inflationWork + Length h) in
      if InflationWorkBytes lim <? inflationWork
      then Some (BudgetError BoundInflationWork (InflationWorkBytes lim)) else
      let '(s, c) := contribution h s in
      match c with
      | inr e => Some e
      | inl contributed =>
        let total := Go.wrap64 (total + contributed) in
        if TotalBytes lim <? total then Some (BudgetError BoundTotalBytes (TotalBytes lim))
        else scanObjects (Datatypes.S i) n' s total inflationWork
      end
    end
  end.

(** [None] is acceptance. *)
Definition Scan (pack : list Z) : option error :=
  if (length pack =? 0)%nat then None else
  let '(s, objects) := Header (NewScanner pack) in
  match objects with
  | None => Some (InvalidError "pack header")
  | Some objects =>
    if Objects lim <? objects then Some (BudgetError BoundObjects (Objects lim))
    else scanObjects 0 (Z.to_nat objects) s 0 0
  end.

(** * What an accepted pack costs *)

(** The objects of the pack as the scanner reads them: the bytes inflated and
    the bytes reconstructed for each. *)
Inductive objects : nat → S → list (Z * Z) → Prop :=
  | objects_nil s : objects 0 s []
  | objects_whole n s s1 s2 h b l :
      NextObjectHeader s = (s1, Got h) → isDelta (Type_ h) = false →
      NextObject s1 = (s2, Got b) → objects n s2 l →
      objects (Datatypes.S n) s ((Length h, Length h) :: l)
  | objects_delta n s s1 s2 h b base rest target rest' l :
      NextObjectHeader s = (s1, Got h) → isDelta (Type_ h) = true →
      NextObject s1 = (s2, Got b) →
      ReadDeltaVarint b = inl (base, rest) → ReadDeltaVarint rest = inl (target, rest') →
      objects n s2 l →
      objects (Datatypes.S n) s ((Length h, target) :: l).

Definition sum (l : list Z) : Z := foldr Z.add 0 l.

Definition affordable (l : list (Z * Z)) : Prop :=
  (∀ x, x ∈ l → 0 <= x.1 <= ObjectBytes lim ∧ x.2 <= ObjectBytes lim) ∧
  sum l.*1 <= InflationWorkBytes lim ∧ sum l.*2 <= TotalBytes lim.
End Scan.

(** * Properties of the size encoding *)

Lemma bytes_ok_forall (P : Z → bool) b :
  forallb P (seqZ 0 256) = true → byte_ok b → P b = true.
Proof.
  intros HP Hb. rewrite forallb_forall in HP. apply HP, list_elem_of_In, elem_of_seqZ.
  rewrite /byte_ok in Hb. lia.
Qed.

Lemma byte_continues b : byte_ok b → (Z.land b 128 =? 0) = (b <? 128).
Proof.
  intros Hb. apply eqb_prop.
  exact (bytes_ok_forall (λ b, Bool.eqb (Z.land b 128 =? 0) (b <? 128)) b eq_refl Hb).
Qed.

Lemma byte_payload b : Z.land b 127 = b mod 128.
Proof. exact (Z.land_ones b 7 ltac:(lia)). Qed.

Lemma lor_disjoint val x shift :
  0 <= shift → 0 <= val < 2 ^ shift → Z.lor val (Z.shiftl x shift) = val + x * 2 ^ shift.
Proof.
  intros Hs Hv. rewrite -(Z.shiftl_mul_pow2 x shift) //. symmetry.
  assert (Hland : Z.land val (Z.shiftl x shift) = 0).
  { apply Z.bits_inj'. intros n Hn. rewrite Z.land_spec Z.bits_0.
    destruct (Z.ltb_spec n shift).
    - rewrite Z.shiftl_spec_low // andb_false_r //.
    - rewrite -(Z.mod_small val (2 ^ shift)) // Z.mod_pow2_bits_high //. }
  rewrite Z.add_nocarry_lxor // Z.lxor_lor //.
Qed.

Lemma pow_split a : 0 <= a → 2 ^ (a + 7) = 2 ^ a * 128.
Proof. intros. rewrite Z.pow_add_r //. Qed.

(** One accumulated septet, at a shift of at most 56 bits. *)
Lemma varint_step val x k :
  0 <= k <= 8 → 0 <= x < 128 → 0 <= val < 2 ^ (7 * k) →
  Z.lor val (Go.wrap64 (Z.shiftl x (7 * k))) = val + x * 2 ^ (7 * k) ∧
  0 <= val + x * 2 ^ (7 * k) < 2 ^ (7 * (k + 1)).
Proof.
  intros Hk Hx Hval.
  assert (Hpow : 2 ^ (7 * k) <= 2 ^ 56) by (apply Z.pow_le_mono_r; lia).
  assert (Hsh : Z.shiftl x (7 * k) = x * 2 ^ (7 * k)) by (apply Z.shiftl_mul_pow2; lia).
  assert (Hwrap : Go.wrap64 (Z.shiftl x (7 * k)) = Z.shiftl x (7 * k)).
  { rewrite /Go.wrap64 Hsh Z.mod_small; [nia|lia]. }
  rewrite Hwrap lor_disjoint; [lia|done|]. split; [done|].
  replace (7 * (k + 1)) with (7 * k + 7) by lia. rewrite pow_split; [lia|nia].
Qed.

Lemma readVarint_bounds b val k v rest :
  Forall byte_ok b → 0 <= k <= 8 → 0 <= val < 2 ^ (7 * k) →
  readVarint val (7 * k) b = inl (v, rest) → 0 <= v < 2 ^ 63 ∧ Forall byte_ok rest.
Proof.
  intros Hb. revert val k. induction Hb as [|c b Hc Hb IH]; intros val k Hk Hval; simpl; [done|].
  destruct (Z.leb_spec 63 (7 * k)); [lia|]. rewrite byte_payload byte_continues //.
  destruct (varint_step val (c mod 128) k) as [-> Hnew]; [done|by apply Z.mod_pos_bound|done|].
  destruct (Z.ltb_spec c 128).
  - intros ?. simplify_eq. split; [|done].
    assert (2 ^ (7 * (k + 1)) <= 2 ^ 63) by (apply Z.pow_le_mono_r; lia). lia.
  - destruct (decide (k = 8)) as [->|Hne]; [by destruct b|].
    replace (7 * k + 7) with (7 * (k + 1)) by lia. apply IH; [lia|done].
Qed.

Lemma ReadDeltaVarint_bounds b v rest :
  Forall byte_ok b → ReadDeltaVarint b = inl (v, rest) → 0 <= v < 2 ^ 63 ∧ Forall byte_ok rest.
Proof. intros Hb. apply (readVarint_bounds b 0 0); [done|lia|lia]. Qed.

(** Git's writer of the same encoding; nine septets hold 63 bits. *)
Fixpoint putVarint (n : nat) (v : Z) : list Z :=
  match n with
  | 0%nat => [v]
  | S n' => if v <? 128 then [v] else Z.lor (v mod 128) 128 :: putVarint n' (v / 128)
  end.

Lemma put_continues v : Z.land (Z.lor (v mod 128) 128) 128 =? 0 = false ∧
                        Z.lor (v mod 128) 128 mod 128 = v mod 128.
Proof.
  pose proof (Z.mod_pos_bound v 128 ltac:(lia)) as Hb.
  assert (H : Z.lor (v mod 128) 128 = v mod 128 + 1 * 2 ^ 7) by exact (lor_disjoint (v mod 128) 1 7 ltac:(lia) Hb).
  split.
  - rewrite byte_continues H; [rewrite /byte_ok; lia|]. apply Z.ltb_ge. lia.
  - rewrite H. change (1 * 2 ^ 7) with (1 * 128). rewrite Z.mod_add // Z.mod_mod //.
Qed.

Lemma readVarint_put n val v rest :
  (n <= 8)%nat → 0 <= v < 2 ^ (7 * (Z.of_nat n + 1)) → 0 <= val < 2 ^ (7 * (8 - Z.of_nat n)) →
  readVarint val (7 * (8 - Z.of_nat n)) (putVarint n v ++ rest) =
    inl (val + v * 2 ^ (7 * (8 - Z.of_nat n)), rest).
Proof.
  revert val v. induction n as [|n IH]; intros val v Hn Hv Hval.
  - simpl. rewrite byte_payload byte_continues; [rewrite /byte_ok; lia|].
    destruct (varint_step val (v mod 128) 8) as [Hs _]; [lia|by apply Z.mod_pos_bound|done|].
    simpl in Hs, Hv |- *. rewrite Hs (proj2 (Z.ltb_lt v 128)) ?Z.mod_small; [lia..|done].
  - cbn [putVarint]. set (k := 8 - Z.of_nat (S n)) in *.
    destruct (varint_step val (v mod 128) k) as [Hs Hnew]; [lia|by apply Z.mod_pos_bound|done|].
    destruct (Z.ltb_spec v 128) as [Hlt|Hge]; simpl; (destruct (Z.leb_spec 63 (7 * k)); [lia|]).
    + rewrite byte_payload byte_continues; [rewrite /byte_ok; lia|].
      rewrite (proj2 (Z.ltb_lt v 128)) // Hs Z.mod_small //. lia.
    + destruct (put_continues v) as [-> Hm]. rewrite byte_payload Hm Hs.
      replace (7 * k + 7) with (7 * (8 - Z.of_nat n)) by lia.
      replace (7 * (k + 1)) with (7 * (8 - Z.of_nat n)) in Hnew by lia.
      rewrite IH; [lia| |done|].
      * split; [apply Z.div_pos; lia|]. apply Z.div_lt_upper_bound; [lia|].
        replace (7 * (Z.of_nat (S n) + 1)) with (7 * (Z.of_nat n + 1) + 7) in Hv by lia.
        rewrite pow_split in Hv; lia.
      * do 2 f_equal. replace (7 * (8 - Z.of_nat n)) with (7 * k + 7) by lia.
        rewrite pow_split; [lia|]. pose proof (Z.div_mod v 128 ltac:(lia)). nia.
Qed.

(** The delta size reader inverts git's encoding of every size below 2^63
    and leaves the following bytes alone; and whatever bytes it is given, an
    answer is below 2^63, so a size never wraps negative. *)
Theorem ReadDeltaVarint_correct v rest b :
  (0 <= v < 2 ^ 63 → ReadDeltaVarint (putVarint 8 v ++ rest) = inl (v, rest)) ∧
  (Forall byte_ok b → ∀ v' rest', ReadDeltaVarint b = inl (v', rest') → 0 <= v' < 2 ^ 63).
Proof.
  split.
  - intros Hv. pose proof (readVarint_put 8 0 v rest ltac:(lia) Hv ltac:(simpl; lia)) as H.
    change (2 ^ (7 * (8 - Z.of_nat 8))) with 1 in H. rewrite Z.add_0_l Z.mul_1_r in H. exact H.
  - intros Hb v' rest' H. by apply ReadDeltaVarint_bounds in H as [? _].
Qed.

Lemma ReadDeltaVarint_correct_witness :
  ReadDeltaVarint (putVarint 8 (2 ^ 62) ++ [7]) = inl (2 ^ 62, [7]).
Proof. apply (ReadDeltaVarint_correct (2 ^ 62) [7] []). lia. Defined.

(** * Properties of the scan *)

Section Correct.
Context {S : Type}.
Context (NewScanner : list Z → S) (Header : S → S * option Z).
Context (NextObjectHeader : S → S * answer ObjectHeader) (NextObject : S → S * answer (list Z)).
Context (ctxErr : nat → bool) (lim : Limits).

(** Inflated bodies are byte strings. *)
Hypothesis bodies_are_bytes : ∀ s s' b, NextObject s = (s', Got b) → Forall byte_ok b.
(** The budgets leave room for one more object in 64 bits. *)
Hypothesis lim_total : 0 <= TotalBytes lim ∧ TotalBytes lim + ObjectBytes lim < 2 ^ 63.
Hypothesis lim_work : 0 <= InflationWorkBytes lim ∧ InflationWorkBytes lim + ObjectBytes lim < 2 ^ 63.

Abbreviation objs := (objects NextObjectHeader NextObject).
Abbreviation scan := (scanObjects NextObjectHeader NextObject ctxErr lim).

Lemma wrap64_small z : 0 <= z < 2 ^ 63 → Go.wrap64 z = z.
Proof. intros. rewrite /Go.wrap64 Z.mod_small; lia. Qed.

(** What one successful object step read. *)
Lemma contribution_inl h s s' c :
  contribution NextObject lim h s = (s', inl c) ↔
  ∃ b, NextObject s = (s', Got b) ∧
    if isDelta (Type_ h)
    then ∃ base rest rest', ReadDeltaVarint b = inl (base, rest) ∧
           ReadDeltaVarint rest = inl (c, rest') ∧ c <= ObjectBytes lim
    else c = Length h.
Proof.
  rewrite /contribution.
  destruct (NextObject s) as [s1 [b| |]]; [|split; [done|by intros (? & ? & _)]..].
  destruct (isDelta (Type_ h)); [|naive_solver]. split.
  - destruct (ReadDeltaVarint b) as [[base rest]|] eqn:E1; [|done].
    destruct (ReadDeltaVarint rest) as [[tgt rest']|] eqn:E2; [|done].
    destruct (Z.ltb_spec (ObjectBytes lim) tgt); [done|]. intros [= <- <-]. naive_solver.
  - intros (b' & [= <- <-] & base & rest & rest' & -> & -> & Hle).
    by rewrite (proj2 (Z.ltb_ge _ _) Hle).
Qed.

(** What the scanner reads of one object. *)
Definition reads (h : ObjectHeader) (s1 s2 : S) (c : Z) : Prop :=
  ∃ b, NextObject s1 = (s2, Got b) ∧
    if isDelta (Type_ h)
    then ∃ base rest rest', ReadDeltaVarint b = inl (base, rest) ∧ ReadDeltaVarint rest = inl (c, rest')
    else c = Length h.

Lemma reads_nonneg h s1 s2 c : reads h s1 s2 c → 0 <= Length h → 0 <= c.
Proof.
  intros (b & Hb & Hc) Hl. destruct (isDelta (Type_ h)); [|lia].
  destruct Hc as (base & rest & rest' & H1 & H2).
  apply ReadDeltaVarint_bounds in H1 as [_ Hrest]; [|by eapply bodies_are_bytes].
  apply ReadDeltaVarint_bounds in H2 as [? _]; [lia|done].
Qed.

Lemma objs_step n s l :
  objs (Datatypes.S n) s l ↔
  ∃ s1 h s2 c l', NextObjectHeader s = (s1, Got h) ∧ reads h s1 s2 c ∧ l = (Length h, c) :: l' ∧
                  objs n s2 l'.
Proof.
  split.
  - inversion 1 as [|? ? s1 s2 h b l' Hh Hd Hb Hl|? ? s1 s2 h b base rest tgt rest' l' Hh Hd Hb H1 H2 Hl];
      subst; do 5 eexists; (split_and!; [done| |done|done]); exists b; rewrite Hd; naive_solver.
  - intros (s1 & h & s2 & c & l' & Hh & (b & Hb & Hc) & -> & Hl).
    destruct (isDelta (Type_ h)) eqn:Hd.
    + destruct Hc as (base & rest & rest' & H1 & H2). by eapply objects_delta.
    + subst c. by eapply objects_whole.
Qed.

Lemma scan_step i n s total work :
  ctxErr i = false → 0 <= total <= TotalBytes lim → 0 <= work <= InflationWorkBytes lim →
  scan i (Datatypes.S n) s total work = None ↔
  ∃ s1 h s2 c, NextObjectHeader s = (s1, Got h) ∧ reads h s1 s2 c ∧
    0 <= Length h <= ObjectBytes lim ∧ c <= ObjectBytes lim ∧
    work + Length h <= InflationWorkBytes lim ∧ total + c <= TotalBytes lim ∧
    scan (Datatypes.S i) n s2 (total + c) (work + Length h) = None.
Proof.
  intros Hctx Ht Hw. cbn [scanObjects]. rewrite Hctx. split.
  - destruct (NextObjectHeader s) as [s1 [h| |]] eqn:Hh; [|done..].
    destruct (_ || _) eqn:Hlen; [done|]. apply orb_false_iff in Hlen as [Hl0%Z.ltb_ge Hl1%Z.ltb_ge].
    rewrite (wrap64_small (work + Length h)); [lia|].
    destruct (Z.ltb_spec (InflationWorkBytes lim) (work + Length h)); [done|].
    destruct (contribution NextObject lim h s1) as [s2 [c|]] eqn:Hc; [|done].
    apply contribution_inl in Hc as (b & Hb & Hc).
    assert (Hr : reads h s1 s2 c ∧ c <= ObjectBytes lim).
    { split; [exists b; split; [done|]|]; case_match; naive_solver. }
    destruct Hr as [Hr Hle]. pose proof (reads_nonneg _ _ _ _ Hr Hl0).
    rewrite (wrap64_small (total + c)); [lia|].
    destruct (Z.ltb_spec (TotalBytes lim) (total + c)); [done|]. intros Hrest.
    exists s1, h, s2, c. split_and!; done || lia.
  - intros (s1 & h & s2 & c & -> & Hr & [Hl0 Hl1] & Hle & Hwk & Htt & Hrest).
    pose proof (reads_nonneg _ _ _ _ Hr Hl0).
    rewrite (proj2 (Z.ltb_ge (Length h) 0)) // (proj2 (Z.ltb_ge (ObjectBytes lim) (Length h))) //=.
    rewrite (wrap64_small (work + Length h)); [lia|]. rewrite (proj2 (Z.ltb_ge _ _) Hwk).
    assert (Hc : contribution NextObject lim h s1 = (s2, inl c)).
    { apply contribution_inl. destruct Hr as (b & Hb & Hc). exists b. split; [done|].
      case_match; naive_solver. }
    rewrite Hc (wrap64_small (total + c)); [lia|]. by rewrite (proj2 (Z.ltb_ge _ _) Htt).
Qed.

Lemma objs_nonneg n s l :
  objs n s l → (∀ x, x ∈ l → 0 <= x.1) → 0 <= sum l.*1 ∧ 0 <= sum l.*2.
Proof.
  revert s l. induction n as [|n IH]; intros s l Hl Hpos; [by inversion Hl|].
  apply objs_step in Hl as (s1 & h & s2 & c & l' & _ & Hr & -> & Hl).
  assert (0 <= Length h) as Hh by (apply (Hpos (Length h, c)); set_solver).
  pose proof (reads_nonneg _ _ _ _ Hr Hh).
  destruct (IH _ _ Hl) as [? ?]; [intros x Hx; apply Hpos; set_solver|].
  change (0 <= Length h + sum l'.*1 ∧ 0 <= c + sum l'.*2). lia.
Qed.

(** The scan accepts from a running total exactly when the rest is affordable. *)
Lemma scan_iff n i s total work :
  (∀ j, ctxErr j = false) → 0 <= total <= TotalBytes lim → 0 <= work <= InflationWorkBytes lim →
  scan i n s total work = None ↔
  ∃ l, objs n s l ∧ (∀ x, x ∈ l → 0 <= x.1 <= ObjectBytes lim ∧ x.2 <= ObjectBytes lim) ∧
       work + sum l.*1 <= InflationWorkBytes lim ∧ total + sum l.*2 <= TotalBytes lim.
Proof.
  intros Hctx. revert i s total work. induction n as [|n IH]; intros i s total work Ht Hw.
  { split; [intros _; exists []; rewrite /sum /=; split_and!; try lia; [constructor|]|done].
    intros x Hx. by apply not_elem_of_nil in Hx. }
  rewrite scan_step //. split.
  - intros (s1 & h & s2 & c & Hh & Hr & Hl & Hle & Hwk & Htt & Hrest).
    pose proof (reads_nonneg _ _ _ _ Hr (proj1 Hl)).
    apply IH in Hrest as (l & Hobjs & Hall & H1 & H2); [|lia..].
    exists ((Length h, c) :: l).
    change (sum ((Length h, c) :: l).*1) with (Length h + sum l.*1).
    change (sum ((Length h, c) :: l).*2) with (c + sum l.*2).
    split_and!; try lia; [apply objs_step; by do 5 eexists|].
    intros x [->|Hx]%elem_of_cons; [done|by apply Hall].
  - intros (l & Hobjs & Hall & H1 & H2).
    apply objs_step in Hobjs as (s1 & h & s2 & c & l' & Hh & Hr & -> & Hobjs).
    destruct (Hall (Length h, c)) as [Hl Hc]; [set_solver|]. simpl in Hl, Hc.
    pose proof (reads_nonneg _ _ _ _ Hr (proj1 Hl)).
    assert (Hall' : ∀ x, x ∈ l' → 0 <= x.1 <= ObjectBytes lim ∧ x.2 <= ObjectBytes lim)
      by (intros x Hx; apply Hall; set_solver).
    destruct (objs_nonneg _ _ _ Hobjs) as [? ?]; [intros x Hx; by apply Hall'|].
    change (sum ((Length h, c) :: l').*1) with (Length h + sum l'.*1) in H1.
    change (sum ((Length h, c) :: l').*2) with (c + sum l'.*2) in H2.
    exists s1, h, s2, c. split_and!; try done; try lia. apply IH; [lia..|].
    exists l'. split_and!; try done; lia.
Qed.

(** The pre-scan admits exactly the packs within budget: with a live context,
    a pack is accepted if and only if its object count is within the limit and
    every object parses, with each inflated and reconstructed size, the summed
    inflation work and the summed reconstructed size within their limits; so what
    the caller then decodes allocates at most [TotalBytes]. The limits leave room
    for one more object below 2^63. *)
Theorem Scan_exact pack objects_ s :
  pack ≠ [] → (∀ j, ctxErr j = false) → Header (NewScanner pack) = (s, Some objects_) →
  Scan NewScanner Header NextObjectHeader NextObject ctxErr lim pack = None ↔
  objects_ <= Objects lim ∧ ∃ l, objs (Z.to_nat objects_) s l ∧ affordable lim l.
Proof.
  intros Hp Hctx Hh. rewrite /Scan Hh.
  destruct (Nat.eqb_spec (length pack) 0) as [?%length_zero_iff_nil|_]; [done|].
  destruct (Z.ltb_spec (Objects lim) objects_); [split; [done|lia]|].
  rewrite scan_iff //; [lia|lia|]. rewrite /affordable. naive_solver lia.
Qed.

End Correct.

(** A scanner that reads a list of prepared objects. *)
Definition listHeader (s : list (ObjectHeader * list Z)) : list (ObjectHeader * list Z) * option Z :=
  (s, Some (Z.of_nat (length s))).
Definition listNextHeader (s : list (ObjectHeader * list Z))
    : list (ObjectHeader * list Z) * answer ObjectHeader :=
  match s with [] => ([], Broken) | (h, _) :: _ => (s, Got h) end.
Definition listNext (s : list (ObjectHeader * list Z)) : list (ObjectHeader * list Z) * answer (list Z) :=
  match s with
  | [] => ([], Broken)
  | (_, b) :: s' => (s', if forallb (λ c, (0 <=? c) && (c <? 256)) b then Got b else Broken)
  end.
Definition examplePack : list (ObjectHeader * list Z) :=
  [(mkHeader OtherObject 12, []); (mkHeader REFDeltaObject 4, [5; 144; 1; 0])].
Definition exampleLimits : Limits := mkLimits 200 200 20 10.

(** Two objects that inflate to 16 bytes and reconstruct to 156. *)
Lemma Scan_exact_witness :
  Scan (λ _, examplePack) listHeader listNextHeader listNext (λ _, false) exampleLimits [80] = None ∧
  (Scan (λ _, examplePack) listHeader listNextHeader listNext (λ _, false) exampleLimits [80] = None ↔
  2 <= Objects exampleLimits ∧
  ∃ l, objects listNextHeader listNext 2 examplePack l ∧ affordable exampleLimits l).
Proof.
  split; [vm_compute; reflexivity|].
  refine (Scan_exact (λ _, examplePack) listHeader listNextHeader listNext (λ _, false) exampleLimits
    _ _ _ [80] 2 examplePack _ _ _); try done; simpl; try lia.
  intros s s' b. rewrite /listNext. destruct s as [|[h c] s0]; [done|].
  destruct (forallb _ c) eqn:Hc; [|done]. intros [= <- <-]. apply Forall_forall. intros x Hx.
  rewrite forallb_forall in Hc. specialize (Hc x). rewrite -list_elem_of_In in Hc.
  specialize (Hc Hx). rewrite /byte_ok. lia.
Defined.

End PackBudget.
