(* ===== verification/CiConfigGuard.v ===== *)
(** The CI-configuration guard of the push broker
    ([src/api/internal/pushbroker/ciconfig_guard.go]): a publication is refused
    unless its tree is proved equal to the default branch's at every protected
    path.

    The object store is a partial function from hashes to tree entries, the
    context a predicate on the number of entries visited so far.  A compiled glob
    is the list of its parts; the regular expression engine is the matcher of such
    lists over the runes of a path. *)

From Stdlib Require Import Ascii.
From S2P Require Import Prelude Result GoText GoStrings GoSearch.

Local Open Scope Z_scope.

Module CiConfigGuard.
Import GoStrings GoSearch.

Definition ciConfigWalkCap : Z := 100000.
Definition ciConfigMaxDepth : nat := 4096.
Definition ciConfigMaxPathBytes : Z := 4096.
Definition ciConfigMaxPathBytesTotal : Z := Z.shiftl 64 20.

(** * Globs *)
Inductive part :=
  | AnyDirs            (* [(?:.*/)?] *)
  | Any                (* [.*] *)
  | Star               (* [[^/]*] *)
  | Lit (r : Z).

Definition slash : Z := 47.

Fixpoint parts (g : list Z) : list part :=
  match g with
  | 42 :: 42 :: 47 :: g' => AnyDirs :: parts g'
  | 42 :: 42 :: g' => Any :: parts g'
  | 42 :: g' => Star :: parts g'
  | r :: g' => Lit r :: parts g'
  | [] => []
  end.

(** The expression does not compile when the glob is not UTF-8. *)
Definition ciConfigGlobRegex (glob : string) : option (list part) :=
  if ValidString glob then Some (parts (rune <$> runes glob)) else None.

(** Whether [k] accepts some rest of the text, after any runes; after any runes
    ending in a slash; after any runes but slashes. *)
Fixpoint afterAny (k : list Z → bool) (t : list Z) : bool :=
  k t || match t with [] => false | _ :: t' => afterAny k t' end.
Fixpoint afterSlash (k : list Z → bool) (t : list Z) : bool :=
  match t with [] => false | r :: t' => ((r =? slash) && k t') || afterSlash k t' end.
Fixpoint afterStar (k : list Z → bool) (t : list Z) : bool :=
  k t || match t with [] => false | r :: t' => negb (r =? slash) && afterStar k t' end.

Fixpoint matchParts (ps : list part) (t : list Z) : bool :=
  match ps with
  | [] => match t with [] => true | _ => false end
  | AnyDirs :: ps' => matchParts ps' t || afterSlash (matchParts ps') t
  | Any :: ps' => afterAny (matchParts ps') t
  | Star :: ps' => afterStar (matchParts ps') t
  | Lit r :: ps' => match t with r' :: t' => (r =? r') && matchParts ps' t' | [] => false end
  end.

Definition MatchString (re : list part) (p : string) : bool := matchParts re (rune <$> runes p).

(** The matcher of the effective globs; [Ok None] when none remains. *)
Fixpoint compileGlobs (globs : list string) : result unit (list (list part)) :=
  match globs with
  | [] => Ok []
  | g :: globs' =>
    let g := TrimSpace g in
    if (g =?s EmptyString)%go then compileGlobs globs' else
    match ciConfigGlobRegex g with
    | None => Err tt
    | Some re => res ← compileGlobs globs'; Ok (re :: res)
    end
  end.

Definition newCIConfigMatcher (globs : list string) : result unit (option (string → bool)) :=
  res ← compileGlobs globs;
  Ok (match res with
      | [] => None
      | _ => Some (λ p, negb (p =?s EmptyString)%go && existsb (λ re, MatchString re p) res)
      end).

(** * Trees *)
Abbreviation hash := string (only parsing).
Definition zeroHash : hash := String.string_of_list_ascii (replicate 20 "000"%char).

Record TreeEntry := mkEntry { Name : string; Mode : Z; Hash : hash }.
Definition filemodeDir : Z := 0x4000.
Definition isDirEntry (e : TreeEntry) : bool := Mode e =? filemodeDir.

Inductive lookup := Found (es : list TreeEntry) | NotFound | Unreadable.

Inductive refusal :=
  | BadGlob | NoDefaultBranch | NoDefaultRef | NoDefaultTip
  | WalkCap | Cancelled | LongPath | PathBytes | Duplicate | TooDeep | Missing | NotInPack
  | Protected (path : string).

Record ciConfigWalk := mkWalk { seen : Z; bytes : Z }.

(** A computation of the walk: its result and the counters. *)
Definition M (A : Type) : Type := ciConfigWalk → result refusal A * ciConfigWalk.
#[local] Instance M_ret : MRet M := λ A a w, (Ok a, w).
#[local] Instance M_bind : MBind M := λ A B f m w,
  match m w with (Ok a, w') => f a w' | (Err e, w') => (Err e, w') end.
Definition fail {A} (e : refusal) : M A := λ w, (Err e, w).

Section Walk.
Context (store : hash → lookup) (cancelled : Z → bool) (protected : string → bool).

Definition len (s : string) : Z := Z.of_nat (String.length s).

Definition visit (prefix name : string) : M unit := λ w,
  let seen' := seen w + 1 in
  let w := mkWalk seen' (bytes w) in
  if ciConfigWalkCap <=? seen' then (Err WalkCap, w) else
  if cancelled seen' then (Err Cancelled, w) else
  if (ciConfigMaxPathBytes <? len name) || (ciConfigMaxPathBytes <? len prefix + len name)
  then (Err LongPath, w) else
  let w := mkWalk seen' (bytes w + (len prefix + len name)) in
  if ciConfigMaxPathBytesTotal <? bytes w then (Err PathBytes, w) else (Ok tt, w).

Definition tree (h : hash) : M (list TreeEntry) :=
  if (h =?s zeroHash)%go then mret [] else
  match store h with Found es => mret es | _ => fail Missing end.

Definition hit (path : string) : M unit :=
  if protected path then fail (Protected path) else mret tt.

Fixpoint each {A} (f : A → M unit) (l : list A) : M unit :=
  match l with
  | [] => mret tt
  | x :: l' => _ ← f x; each f l'
  end.

(** [fuel] is the depth that is left. *)
Fixpoint whole (fuel : nat) (e : TreeEntry) (prefix : string) : M unit :=
  let path := prefix +:+ Name e in
  if negb (isDirEntry e) then hit path else
  match fuel with
  | O => fail TooDeep
  | S fuel' =>
    t ← tree (Hash e);
    each (λ c, _ ← visit (path +:+ "/") (Name c); whole fuel' c (path +:+ "/")) t
  end.

(** [diff] is the comparison one level below. *)
Definition pair (diff : hash → hash → string → M unit) (fuel : nat) (ea eb : TreeEntry) (prefix : string) : M unit :=
  if (Hash ea =?s Hash eb)%go && (Mode ea =? Mode eb) then mret tt else
  let path := prefix +:+ Name ea in
  if isDirEntry ea && isDirEntry eb then
    match store (Hash ea) with
    | NotFound => fail NotInPack
    | _ => diff (Hash ea) (Hash eb) (path +:+ "/")
    end
  else if negb (Bool.eqb (isDirEntry ea) (isDirEntry eb)) then
    _ ← whole fuel ea prefix; whole fuel eb prefix
  else hit path.

Definition byName (es : list TreeEntry) (n : string) : option TreeEntry :=
  List.find (λ e, (Name e =?s n)%go) es.

Fixpoint diffA (pr : TreeEntry → TreeEntry → M unit) (wh : TreeEntry → M unit) (prefix : string)
    (tb : list TreeEntry) (es : list TreeEntry) (inA : list string) : M (list string) :=
  match es with
  | [] => mret inA
  | ea :: es' =>
    if existsb (String.eqb (Name ea)) inA then fail Duplicate else
    let inA := Name ea :: inA in
    _ ← visit prefix (Name ea);
    match byName tb (Name ea) with
    | None => _ ← wh ea; diffA pr wh prefix tb es' inA
    | Some eb => _ ← visit prefix (Name ea); _ ← pr ea eb; diffA pr wh prefix tb es' inA
    end
  end.

Definition noDup (l : list string) : bool := bool_decide (NoDup l).

Fixpoint diff (fuel : nat) (a b : hash) (prefix : string) : M unit :=
  ta ← tree a;
  tb ← tree b;
  if negb (noDup (Name <$> tb)) then fail Duplicate else
  let below a b p := match fuel with O => fail TooDeep | S fuel' => diff fuel' a b p end in
  inA ← diffA (λ ea eb, pair below fuel ea eb prefix) (λ e, whole fuel e prefix) prefix tb ta [];
  each (λ eb, if existsb (String.eqb (Name eb)) inA then mret tt
              else _ ← visit prefix (Name eb); whole fuel eb prefix) tb.

Definition walk0 : ciConfigWalk := mkWalk 0 0.

Definition ciConfigTreeGuard (cand def : hash) : option refusal :=
  match (diff ciConfigMaxDepth cand def EmptyString walk0).1 with Ok _ => None | Err e => Some e end.
End Walk.

(** * The guard *)
Record repo := mkRepo {
  r_refs : string → option hash;          (* references *)
  r_commits : hash → option hash;         (* commits, by their tree *)
  r_objects : hash → lookup;
}.

Definition ciConfigGuard (r : repo) (cancelled : Z → bool) (candidateTree : hash) (defaultBranch : string)
    (globs : list string) : option refusal :=
  match newCIConfigMatcher globs with
  | Err _ => Some BadGlob
  | Ok None => None
  | Ok (Some protected) =>
    if (defaultBranch =?s EmptyString)%go then Some NoDefaultBranch else
    match r_refs r ("refs/remotes/origin/" +:+ defaultBranch) with
    | None => Some NoDefaultRef
    | Some h =>
      if (h =?s zeroHash)%go then Some NoDefaultRef else
      match r_commits r h with
      | None => Some NoDefaultTip
      | Some defTree => ciConfigTreeGuard (r_objects r) cancelled protected candidateTree defTree
      end
    end
  end.

(** * What a glob means *)

(** The texts a compiled glob stands for. *)
Inductive denotes : list part → list Z → Prop :=
  | den_nil : denotes [] []
  | den_lit r ps t : denotes ps t → denotes (Lit r :: ps) (r :: t)
  | den_star u ps t : slash ∉ u → denotes ps t → denotes (Star :: ps) (u ++ t)
  | den_any u ps t : denotes ps t → denotes (Any :: ps) (u ++ t)
  | den_here ps t : denotes ps t → denotes (AnyDirs :: ps) t
  | den_below u ps t : denotes ps t → denotes (AnyDirs :: ps) (u ++ slash :: t).

Lemma afterAny_spec k t : afterAny k t = true ↔ ∃ u v, t = u ++ v ∧ k v = true.
Proof.
  split.
  - induction t as [|r t IH]; simpl.
    + rewrite orb_false_r. intros Hk. by exists [], [].
    + intros [Hk|(u & v & -> & Hk)%IH]%orb_true_iff; [by exists [], (r :: t)|by exists (r :: u), v].
  - intros (u & v & -> & Hk). induction u as [|r u IH]; simpl; [by destruct v; simpl; rewrite Hk|].
    by rewrite IH orb_true_r.
Qed.

Lemma afterSlash_spec k t : afterSlash k t = true ↔ ∃ u v, t = u ++ slash :: v ∧ k v = true.
Proof.
  split.
  - induction t as [|r t IH]; simpl; [done|].
    intros [[->%Z.eqb_eq Hk]%andb_true_iff|(u & v & -> & Hk)%IH]%orb_true_iff;
      [by exists [], t|by exists (r :: u), v].
  - intros (u & v & -> & Hk). induction u as [|r u IH]; simpl; [by rewrite Hk|]. by rewrite IH orb_true_r.
Qed.

Lemma afterStar_spec k t : afterStar k t = true ↔ ∃ u v, t = u ++ v ∧ slash ∉ u ∧ k v = true.
Proof.
  split.
  - induction t as [|r t IH]; simpl.
    + rewrite orb_false_r. intros Hk. exists [], []. split_and!; [done| |done]. apply not_elem_of_nil.
    + intros [Hk|[Hr%negb_true_iff%Z.eqb_neq (u & v & -> & Hu & Hk)%IH]%andb_true_iff]%orb_true_iff.
      * exists [], (r :: t). split_and!; [done| |done]. apply not_elem_of_nil.
      * exists (r :: u), v. split_and!; [done| |done]. apply not_elem_of_cons. by split.
  - intros (u & v & -> & Hu & Hk). induction u as [|r u IH]; simpl; [by destruct v; simpl; rewrite Hk|].
    apply not_elem_of_cons in Hu as [Hr Hu]. rewrite IH //.
    assert (r =? slash = false) as -> by (apply Z.eqb_neq; congruence). by rewrite orb_true_r.
Qed.

Lemma matchParts_denotes ps t : matchParts ps t = true ↔ denotes ps t.
Proof.
  revert t. induction ps as [|q ps IH]; intros t.
  - split; [by destruct t; [constructor|]|by inversion 1].
  - split.
    + destruct q; simpl.
      * intros [Hd%IH|(u & v & -> & Hd%IH)%afterSlash_spec]%orb_true_iff; by constructor.
      * intros (u & v & -> & Hd%IH)%afterAny_spec. by constructor.
      * intros (u & v & -> & Hu & Hd%IH)%afterStar_spec. by constructor.
      * destruct t as [|r' t]; [done|]. intros [->%Z.eqb_eq Hd%IH]%andb_true_iff. by constructor.
    + inversion 1 as [|r ps' t' Hd|u ps' t' Hu Hd|u ps' t' Hd|ps' t' Hd|u ps' t' Hd]; subst; simpl; apply IH in Hd.
      * by rewrite Z.eqb_refl Hd.
      * apply afterStar_spec. eauto.
      * apply afterAny_spec. eauto.
      * by rewrite Hd.
      * apply orb_true_iff. right. apply afterSlash_spec. eauto.
Qed.

(** A path some effective glob covers. *)
Definition covered (globs : list string) (p : string) : Prop :=
  p ≠ EmptyString ∧ ∃ g, g ∈ globs ∧ TrimSpace g ≠ EmptyString ∧
    denotes (parts (rune <$> runes (TrimSpace g))) (rune <$> runes p).

Lemma compileGlobs_spec globs res : compileGlobs globs = Ok res →
  ∀ re, re ∈ res ↔ ∃ g, g ∈ globs ∧ TrimSpace g ≠ EmptyString ∧ re = parts (rune <$> runes (TrimSpace g)).
Proof.
  revert res. induction globs as [|g globs IH]; intros res; simpl.
  - intros [= <-] re. split; [by intros ?%not_elem_of_nil|intros (g & ?%not_elem_of_nil & _); done].
  - destruct (TrimSpace g =?s EmptyString)%go eqn:Eg.
    + apply String.eqb_eq in Eg. intros Hr re. rewrite (IH res Hr). set_solver.
    + apply String.eqb_neq in Eg. rewrite /ciConfigGlobRegex. destruct (ValidString (TrimSpace g)); [|done].
      intros (res' & Hr & [= <-])%result_bind_Ok re. rewrite elem_of_cons (IH res' Hr). set_solver.
Qed.

Lemma matcher_covered globs protected : newCIConfigMatcher globs = Ok (Some protected) →
  ∀ p, protected p = true ↔ covered globs p.
Proof.
  rewrite /newCIConfigMatcher. intros (res & Hr & Hp)%result_bind_Ok p.
  assert (protected = λ p, negb (p =?s EmptyString)%go && existsb (λ re, MatchString re p) res) as ->.
  { destruct res; [done|]. by injection Hp as <-. }
  rewrite andb_true_iff negb_true_iff String.eqb_neq existsb_exists /covered. split.
  - intros [Hne (re & Hin & Hm)]. split; [done|]. apply list_elem_of_In in Hin.
    apply (compileGlobs_spec _ _ Hr) in Hin as (g & Hg & Hgn & ->). exists g. split_and!; [done..|].
    by apply matchParts_denotes.
  - intros [Hne (g & Hg & Hgn & Hm)]. split; [done|]. exists (parts (rune <$> runes (TrimSpace g))).
    split; [|by apply matchParts_denotes]. apply list_elem_of_In, (compileGlobs_spec _ _ Hr). eauto.
Qed.

(** * What the trees hold *)
Section Paths.
Context (store : hash → lookup).

Definition entries (h : hash) : option (list TreeEntry) :=
  if (h =?s zeroHash)%go then Some [] else
  match store h with Found es => Some es | _ => None end.

(** The file at a path: its mode and hash. *)
Inductive atPath : list TreeEntry → string → Z * hash → Prop :=
  | at_file es e : e ∈ es → isDirEntry e = false → atPath es (Name e) (Mode e, Hash e)
  | at_dir es e sub p mh :
      e ∈ es → isDirEntry e = true → entries (Hash e) = Some sub → atPath sub p mh →
      atPath es (Name e +:+ "/" +:+ p) mh.

Lemma atPath_entry es p mh : atPath es p mh ↔ ∃ e, e ∈ es ∧ atPath [e] p mh.
Proof.
  split.
  - intros Ha. inversion Ha as [? e He Hd|? e sub q mh' He Hd Hs Hq]; subst; exists e; (split; [done|]).
    + constructor; [by apply list_elem_of_singleton|done].
    + econstructor; [by apply list_elem_of_singleton|done..].
  - intros (e & He & Ha). inversion Ha as [? e' He' Hd|? e' sub q mh' He' Hd Hs Hq]; subst;
      apply list_elem_of_singleton in He' as ->; [by constructor|by econstructor].
Qed.

Lemma atPath_one e p mh : atPath [e] p mh ↔
  (isDirEntry e = false ∧ p = Name e ∧ mh = (Mode e, Hash e)) ∨
  (isDirEntry e = true ∧ ∃ sub q, p = Name e +:+ "/" +:+ q ∧ entries (Hash e) = Some sub ∧ atPath sub q mh).
Proof.
  split.
  - inversion 1 as [? e' He' Hd|? e' sub q mh' He' Hd Hs Hq]; subst; apply list_elem_of_singleton in He' as ->;
      [by left|right; eauto 10].
  - intros [(Hd & -> & ->)|(Hd & sub & q & -> & Hs & Hq)]; [constructor|econstructor]; try done;
      by apply list_elem_of_singleton.
Qed.

Context (cancelled : Z → bool) (protected : string → bool).
Local Abbreviation whole := (whole store cancelled protected).
Local Abbreviation diff := (diff store cancelled protected).
Local Abbreviation ok m := (∃ w w', m w = (Ok tt, w')).

Lemma bind_Ok {A B} (m : M A) (f : A → M B) w b w' :
  (m ≫= f) w = (Ok b, w') → ∃ a w1, m w = (Ok a, w1) ∧ f a w1 = (Ok b, w').
Proof. rewrite /mbind /M_bind. destruct (m w) as [[a|e] w1]; [eauto|done]. Qed.

Lemma tree_Ok h w es w' : tree store h w = (Ok es, w') → entries h = Some es.
Proof.
  rewrite /tree /entries. destruct (_ =?s _)%go; [by intros [= <- _]|].
  destruct (store h); [by intros [= <- _]|done..].
Qed.

Lemma hit_Ok p w w' : hit protected p w = (Ok tt, w') → protected p = false.
Proof. rewrite /hit. by destruct (protected p). Qed.

Lemma each_Ok {A} (f : A → M unit) l w w' : each f l w = (Ok tt, w') → ∀ x, x ∈ l → ok (f x).
Proof.
  revert w. induction l as [|y l IH]; intros w; simpl; [by intros _ x ?%not_elem_of_nil|].
  intros ([] & w1 & Hf & Hl)%bind_Ok x [->|Hx]%elem_of_cons; [eauto|]. by eapply IH.
Qed.

(** Below an entry that passed [whole] no path is protected. *)
Lemma whole_clear fuel e prefix w w' : whole fuel e prefix w = (Ok tt, w') →
  ∀ p mh, atPath [e] p mh → protected (prefix +:+ p) = false.
Proof.
  revert e prefix w w'. induction fuel as [|fuel IH]; intros e prefix w w' Hw p mh Ha;
    cbn [CiConfigGuard.whole] in Hw; destruct (isDirEntry e) eqn:Ed; cbn [negb] in Hw; try done.
  1,3: apply atPath_one in Ha as [(_ & -> & _)|(? & _)]; [by eapply hit_Ok|congruence].
  apply bind_Ok in Hw as (t & w1 & Ht & Hw). apply tree_Ok in Ht.
  apply atPath_one in Ha as [(? & _)|(_ & sub & q & -> & Hs & Hq)]; [congruence|].
  assert (sub = t) as -> by congruence. apply atPath_entry in Hq as (c & Hc & Hq).
  destruct (each_Ok _ _ _ _ Hw c Hc) as (w2 & w3 & ([] & w4 & _ & Hrec)%bind_Ok).
  apply (IH _ _ _ _ Hrec) in Hq. by rewrite !sapp_assoc in Hq |- *.
Qed.

(** Two entries, or two trees, that agree wherever a path is protected. *)
Definition agree (prefix : string) (ta tb : list TreeEntry) : Prop :=
  ∀ p mh, protected (prefix +:+ p) = true → atPath ta p mh ↔ atPath tb p mh.

Lemma agree_same prefix ea eb : Name ea = Name eb → Hash ea = Hash eb → Mode ea = Mode eb → agree prefix [ea] [eb].
Proof. intros E1 E2 E3. assert (ea = eb) as ->; [|done]. destruct ea, eb; simpl in *; congruence. Qed.

Lemma agree_clear prefix ea eb :
  (∀ p mh, atPath [ea] p mh → protected (prefix +:+ p) = false) →
  (∀ p mh, atPath [eb] p mh → protected (prefix +:+ p) = false) → agree prefix [ea] [eb].
Proof. intros Ha Hb p mh Hp. split; intros H; [apply Ha in H|apply Hb in H]; congruence. Qed.

Lemma agree_dirs prefix ea eb sa sb : Name ea = Name eb → isDirEntry ea = true → isDirEntry eb = true →
  entries (Hash ea) = Some sa → entries (Hash eb) = Some sb →
  agree ((prefix +:+ Name ea) +:+ "/") sa sb → agree prefix [ea] [eb].
Proof.
  intros En Da Db Sa Sb Hag p mh Hp. rewrite !atPath_one Da Db Sa Sb En. rewrite En in Hag.
  split; (intros [(? & _)|(_ & sub & q & -> & [= <-] & Hq)]; [done|]); right; (split; [done|]);
    eexists _, q; (split_and!; [done..|]); (apply Hag; [by rewrite !sapp_assoc|done]).
Qed.

Lemma pair_agree below fuel ea eb prefix w w' : Name ea = Name eb →
  (∀ a b p w w', below a b p w = (Ok tt, w') →
     ∃ ta tb, entries a = Some ta ∧ entries b = Some tb ∧ agree p ta tb) →
  pair store cancelled protected below fuel ea eb prefix w = (Ok tt, w') → agree prefix [ea] [eb].
Proof.
  intros En Hbelow. rewrite /pair. destruct (_ && _) eqn:Es.
  - intros _. apply andb_true_iff in Es as [Eh%String.eqb_eq Em%Z.eqb_eq]. by apply agree_same.
  - destruct (isDirEntry ea) eqn:Da, (isDirEntry eb) eqn:Db; simpl.
    + intros Hr. assert (∃ w w', below (Hash ea) (Hash eb) ((prefix +:+ Name ea) +:+ "/") w = (Ok tt, w')) as
        (w1 & w2 & Hb) by (destruct (store (Hash ea)); [eauto|done|eauto]).
      apply Hbelow in Hb as (ta & tb & Ha & Hb & Hag). by eapply agree_dirs.
    + intros ([] & w1 & H1 & H2)%bind_Ok. apply agree_clear; by eapply whole_clear.
    + intros ([] & w1 & H1 & H2)%bind_Ok. apply agree_clear; by eapply whole_clear.
    + intros Hh%hit_Ok. apply agree_clear; intros p mh [(_ & -> & _)|(? & _)]%atPath_one; congruence.
Qed.

Lemma diffA_Ok pr wh prefix tb es inA w inA' w' :
  diffA cancelled pr wh prefix tb es inA w = (Ok inA', w') →
  (∀ n, n ∈ inA' ↔ n ∈ inA ∨ n ∈ Name <$> es) ∧
  ∀ ea, ea ∈ es → match byName tb (Name ea) with None => ok (wh ea) | Some eb => ok (pr ea eb) end.
Proof.
  revert inA w. induction es as [|e es IH]; intros inA w; cbn [diffA].
  - intros [= <- _]. split; [|by intros ea ?%not_elem_of_nil]. intros n. simpl. set_solver.
  - destruct (existsb _ inA); [done|]. intros ([] & w1 & _ & Hr)%bind_Ok.
    assert ((∃ w2, diffA cancelled pr wh prefix tb es (Name e :: inA) w2 = (Ok inA', w')) ∧
      match byName tb (Name e) with None => ok (wh e) | Some eb => ok (pr e eb) end) as [[w2 Hrest] He].
    { destruct (byName tb (Name e)) as [eb|].
      - apply bind_Ok in Hr as ([] & w2 & _ & ([] & w3 & Hp & Hr)%bind_Ok). eauto 10.
      - apply bind_Ok in Hr as ([] & w2 & Hp & Hr). eauto 10. }
    apply IH in Hrest as [Hn Hall]. split.
    + intros n. rewrite Hn fmap_cons !elem_of_cons. naive_solver.
    + intros ea [->|Hin]%elem_of_cons; [done|by apply Hall].
Qed.

Lemma byName_Some tb n eb : byName tb n = Some eb → eb ∈ tb ∧ Name eb = n.
Proof. intros [Hin Hn]%find_some. split; [by apply list_elem_of_In|by apply String.eqb_eq]. Qed.
Lemma byName_is_Some tb eb : eb ∈ tb → is_Some (byName tb (Name eb)).
Proof.
  intros Hin. rewrite /byName. destruct (List.find _ tb) eqn:Ef; [by eexists|].
  apply list_elem_of_In in Hin. apply (find_none _ _ Ef) in Hin. by rewrite String.eqb_refl in Hin.
Qed.
Lemma NoDup_name tb e e' : NoDup (Name <$> tb) → e ∈ tb → e' ∈ tb → Name e = Name e' → e = e'.
Proof. intros Hnd. by apply NoDup_fmap_elem. Qed.

Lemma diff_agree fuel a b prefix w w' : diff fuel a b prefix w = (Ok tt, w') →
  ∃ ta tb, entries a = Some ta ∧ entries b = Some tb ∧ agree prefix ta tb.
Proof.
  revert a b prefix w w'. induction fuel as [fuel IH] using lt_wf_ind. intros a b prefix w w' Hd.
  assert (∃ ta tb, entries a = Some ta ∧ entries b = Some tb ∧ NoDup (Name <$> tb) ∧
    (∀ ea, ea ∈ ta → match byName tb (Name ea) with
       | None => ok (whole fuel ea prefix) | Some eb => agree prefix [ea] [eb] end) ∧
    (∀ eb, eb ∈ tb → Name eb ∉ Name <$> ta → ok (whole fuel eb prefix)))
    as (ta & tb & Ha & Hb & Hnd & HA & HB).
  { destruct fuel as [|fuel]; cbn [CiConfigGuard.diff] in Hd.
    all: apply bind_Ok in Hd as (ta & w1 & Ha%tree_Ok & (tb & w2 & Hb%tree_Ok & Hd)%bind_Ok).
    all: destruct (noDup (Name <$> tb)) eqn:Hn; cbn [negb] in Hd; [|done]; apply bool_decide_eq_true in Hn.
    all: apply bind_Ok in Hd as (inA & w3 & [Hin HA]%diffA_Ok & HB).
    all: exists ta, tb; split_and!; [done..| |].
    2,4: intros eb Heb Hnot; destruct (each_Ok _ _ _ _ HB eb Heb) as (w4 & w5 & Hw);
      destruct (existsb (String.eqb (Name eb)) inA) eqn:Ee;
      [apply existsb_exists in Ee as (n & Hn' & <-%String.eqb_eq);
       apply list_elem_of_In, Hin in Hn' as [?%not_elem_of_nil|?]; done
      |apply bind_Ok in Hw as ([] & w6 & _ & Hw); eauto].
    all: intros ea Hea; specialize (HA ea Hea); destruct (byName tb (Name ea)) as [eb|] eqn:Eb; [|done].
    all: destruct HA as (w4 & w5 & HA); apply byName_Some in Eb as [_ Eb].
    all: eapply pair_agree; [done| |exact HA].
    - done.
    - intros a' b' p w6 w7 Hrec. eapply IH; [|exact Hrec]. lia. }
  exists ta, tb. split_and!; [done..|]. intros p mh Hp. rewrite !(atPath_entry _ p mh). split.
  - intros (ea & Hea & Hat). specialize (HA ea Hea). destruct (byName tb (Name ea)) as [eb|] eqn:Eb.
    + apply byName_Some in Eb as [Heb _]. exists eb. split; [done|]. by apply HA.
    + destruct HA as (w1 & w2 & Hw). apply (whole_clear _ _ _ _ _ Hw) in Hat. congruence.
  - intros (eb & Heb & Hat). destruct (decide (Name eb ∈ Name <$> ta)) as [Hin|Hnot].
    + apply list_elem_of_fmap in Hin as (ea & En & Hea). specialize (HA ea Hea).
      destruct (byName_is_Some tb eb Heb) as [eb' Eb]. rewrite En in Eb. rewrite Eb in HA.
      apply byName_Some in Eb as [Heb' En']. assert (eb' = eb) as -> by (eapply NoDup_name; [done..|congruence]).
      exists ea. split; [done|]. by apply HA.
    + destruct (HB eb Heb Hnot) as (w1 & w2 & Hw). apply (whole_clear _ _ _ _ _ Hw) in Hat. congruence.
Qed.
(** * A refusal is justified *)

(** Trees as git writes them: no name twice, and no slash in a name. *)
Definition plainName (n : string) : bool := every (λ c, negb (Ascii.eqb c "/")) n.
Definition wfTree (es : list TreeEntry) : Prop :=
  NoDup (Name <$> es) ∧ Forall (λ e, plainName (Name e) = true) es.
Definition wfStore : Prop := ∀ h es, entries h = Some es → wfTree es.

Lemma plain_first n n' p p' : plainName n = true → plainName n' = true →
  n +:+ "/" +:+ p = n' +:+ "/" +:+ p' → n = n' ∧ p = p'.
Proof.
  revert n'. induction n as [|c n IH]; intros [|c' n'] Hn Hn'; rewrite ?sapp_cons ?sapp_nil_l.
  - by intros [= ->].
  - intros [= <- _]. done.
  - intros [= -> _]. done.
  - simpl in Hn, Hn'. apply andb_prop in Hn as [_ Hn], Hn' as [_ Hn']. intros [= <- He].
    destruct (IH n' Hn Hn' He) as [-> ->]. done.
Qed.

Lemma plain_last n n' p : plainName n = true → n = n' +:+ "/" +:+ p → False.
Proof.
  intros Hn ->. revert Hn. rewrite /plainName !every_app. simpl. by rewrite andb_false_r.
Qed.

Lemma atPath_names e e' p mh mh' : plainName (Name e) = true → plainName (Name e') = true →
  atPath [e] p mh → atPath [e'] p mh' → Name e = Name e' ∧ isDirEntry e = isDirEntry e'.
Proof.
  rewrite !atPath_one. intros Hn Hn' [(Hd & -> & _)|(Hd & sub & q & -> & _)] [(Hd' & Heq & _)|(Hd' & sub' & q' & Heq & _)].
  - by rewrite Hd Hd'.
  - by destruct (plain_last _ _ _ Hn Heq).
  - symmetry in Heq. by destruct (plain_last _ _ _ Hn' Heq).
  - destruct (plain_first _ _ _ _ Hn Hn' Heq) as [-> _]. by rewrite Hd Hd'.
Qed.

Local Abbreviation refuses m q := (∃ w w', m w = (Err (Protected q), w')).

Lemma bind_Err {A B} (m : M A) (f : A → M B) w e w' : (m ≫= f) w = (Err e, w') →
  m w = (Err e, w') ∨ ∃ a w1, m w = (Ok a, w1) ∧ f a w1 = (Err e, w').
Proof. rewrite /mbind /M_bind. destruct (m w) as [[a|e1] w1]; [eauto|]. intros [= -> ->]. auto. Qed.

Lemma visit_plain prefix n w q w' : visit cancelled prefix n w = (Err (Protected q), w') → False.
Proof. rewrite /visit. by repeat case_match. Qed.

Lemma tree_plain h w q w' : tree store h w = (Err (Protected q), w') → False.
Proof. rewrite /tree. by repeat case_match. Qed.

Lemma visited {B} prefix n (f : unit → M B) w q w' :
  (visit cancelled prefix n ≫= f) w = (Err (Protected q), w') → refuses (f tt) q.
Proof. intros [?%visit_plain|([] & w1 & _ & Hf)]%bind_Err; [done|eauto]. Qed.

Lemma each_refuses {A} (f : A → M unit) l w q w' :
  each f l w = (Err (Protected q), w') → ∃ x, x ∈ l ∧ refuses (f x) q.
Proof.
  revert w. induction l as [|y l IH]; intros w; simpl; [done|].
  intros [Hf|([] & w1 & _ & (x & Hx & Hr)%IH)]%bind_Err.
  - exists y. split; [by left|eauto].
  - exists x. split; [by right|done].
Qed.

Lemma whole_refuses fuel e prefix w q w' : whole fuel e prefix w = (Err (Protected q), w') →
  protected q = true ∧ ∃ p mh, q = prefix +:+ p ∧ atPath [e] p mh.
Proof.
  revert e prefix w w'. induction fuel as [|fuel IH]; intros e prefix w w' Hw;
    cbn [CiConfigGuard.whole] in Hw; destruct (isDirEntry e) eqn:Ed; cbn [negb] in Hw; try done.
  1,3: rewrite /hit in Hw; destruct (protected (prefix +:+ Name e)) eqn:Ep; [|done]; injection Hw as <- _; split; [done|];
    exists (Name e); eexists; split; [done|]; apply atPath_one; by left.
  apply bind_Err in Hw as [?%tree_plain|(t & w1 & Ht%tree_Ok & Hw)]; [done|].
  apply each_refuses in Hw as (c & Hc & w2 & w3 & (w4 & w5 & Hrec)%visited).
  apply IH in Hrec as (Hq & p & mh & -> & Ha). split; [done|].
  exists (Name e +:+ "/" +:+ p), mh. split; [by rewrite !sapp_assoc|].
  apply atPath_one. right. split; [done|]. exists t, p. split_and!; [done..|]. apply atPath_entry. eauto.
Qed.

Lemma diffA_refuses pr wh prefix tb es inA w q w' :
  diffA cancelled pr wh prefix tb es inA w = (Err (Protected q), w') →
  ∃ ea, ea ∈ es ∧ match byName tb (Name ea) with None => refuses (wh ea) q | Some eb => refuses (pr ea eb) q end.
Proof.
  revert inA w w'. induction es as [|e es IH]; intros inA w w'; cbn [diffA]; [done|].
  destruct (existsb _ inA); [done|]. intros (w1 & w2 & Hr)%visited.
  assert ((∃ w3, diffA cancelled pr wh prefix tb es (Name e :: inA) w3 = (Err (Protected q), w2)) ∨
    match byName tb (Name e) with None => refuses (wh e) q | Some eb => refuses (pr e eb) q end) as [[w3 H3]|H3].
  { destruct (byName tb (Name e)) as [eb|].
    - apply bind_Err in Hr as [?%visit_plain|([] & w4 & _ & Hr)]; [done|].
      apply bind_Err in Hr as [Hr|([] & w5 & _ & Hr)]; [right; eauto|left; eauto].
    - apply bind_Err in Hr as [Hr|([] & w5 & _ & Hr)]; [right; eauto|left; eauto]. }
  - apply IH in H3 as (ea & Hea & H3). exists ea. split; [by right|done].
  - exists e. split; [by left|done].
Qed.

(** The trees differ at this path. *)
Definition differs (ta tb : list TreeEntry) (p : string) : Prop :=
  ∃ mh, (atPath ta p mh ∧ ¬ atPath tb p mh) ∨ (atPath tb p mh ∧ ¬ atPath ta p mh).

(** An entry whose path the other tree has under no entry of that name and kind. *)
Lemma not_atPath es e p mh mh' : wfTree es → plainName (Name e) = true → atPath [e] p mh →
  (∀ e', e' ∈ es → Name e' = Name e → isDirEntry e' = isDirEntry e → ¬ atPath [e'] p mh') → ¬ atPath es p mh'.
Proof.
  intros [_ Hpl] Hn Ha Hno Hes. apply atPath_entry in Hes as (e' & He' & Ha').
  rewrite Forall_forall in Hpl. destruct (atPath_names e' e p mh' mh (Hpl e' He') Hn Ha' Ha) as [E1 E2].
  by apply (Hno e').
Qed.

Section Justified.
Context (ta tb : list TreeEntry) (Hwa : wfTree ta) (Hwb : wfTree tb).

Lemma only_differs (ta' tb' : list TreeEntry) e prefix fuel q :
  wfTree ta' → wfTree tb' → e ∈ ta' → refuses (whole fuel e prefix) q →
  (∀ e', e' ∈ tb' → Name e' = Name e → isDirEntry e' ≠ isDirEntry e) →
  protected q = true ∧ ∃ p mh, q = prefix +:+ p ∧ atPath ta' p mh ∧ ¬ atPath tb' p mh.
Proof.
  intros [_ Hpl] Hb He (w & w' & Hw) Hno. apply whole_refuses in Hw as (Hq & p & mh & -> & Ha). split; [done|].
  exists p, mh. split_and!; [done|apply atPath_entry; eauto|]. rewrite Forall_forall in Hpl.
  eapply not_atPath; [done|by apply Hpl|done|]. intros e' He' En Ed. by destruct (Hno e' He' En).
Qed.

Lemma byName_unique e eb : byName tb (Name e) = Some eb → ∀ e', e' ∈ tb → Name e' = Name e → e' = eb.
Proof. intros [Heb En]%byName_Some e' He' En'. eapply NoDup_name; [apply Hwb|done..|congruence]. Qed.

Lemma nameA_unique ea : ea ∈ ta → ∀ e', e' ∈ ta → Name e' = Name ea → e' = ea.
Proof. intros Hea e' He' En'. eapply NoDup_name; [apply Hwa|done..]. Qed.

(** A file on one side and a directory on the other. *)
Lemma mixed_differs fuel ea eb prefix q :
  ea ∈ ta → byName tb (Name ea) = Some eb → isDirEntry ea ≠ isDirEntry eb →
  refuses (_ ← whole fuel ea prefix; whole fuel eb prefix) q →
  protected q = true ∧ ∃ p, q = prefix +:+ p ∧ differs ta tb p.
Proof.
  intros Hea Eb Hk (w & w' & Hp). pose proof (byName_unique _ _ Eb) as Hu. pose proof Eb as [Heb En]%byName_Some.
  apply bind_Err in Hp as [Hw|([] & w1 & _ & Hw)].
  - destruct (only_differs ta tb ea prefix fuel q) as (Hq & p & mh & -> & H1 & H2); [done..|eauto| |].
    { intros e' He' ->%(Hu e' He'). congruence. }
    split; [done|]. exists p. split; [done|]. exists mh. auto.
  - destruct (only_differs tb ta eb prefix fuel q) as (Hq & p & mh & -> & H1 & H2); [done..|eauto| |].
    { rewrite En. intros e' He' ->%(nameA_unique ea Hea e' He'). congruence. }
    split; [done|]. exists p. split; [done|]. exists mh. auto.
Qed.

Lemma pair_differs below fuel ea eb prefix q :
  ea ∈ ta → byName tb (Name ea) = Some eb →
  (∀ p, refuses (below (Hash ea) (Hash eb) p) q →
     protected q = true ∧ ∃ r sa sb, q = p +:+ r ∧ entries (Hash ea) = Some sa ∧ entries (Hash eb) = Some sb ∧
       differs sa sb r) →
  refuses (pair store cancelled protected below fuel ea eb prefix) q →
  protected q = true ∧ ∃ p, q = prefix +:+ p ∧ differs ta tb p.
Proof.
  intros Hea Eb Hbelow (w & w' & Hp). pose proof (byName_unique _ _ Eb) as Hu. pose proof Eb as [Heb En]%byName_Some.
  assert (plainName (Name ea) = true) as Hpa by (destruct Hwa as [_ Hf]; rewrite Forall_forall in Hf; by apply Hf).
  pose proof (nameA_unique ea Hea) as Hua.
  rewrite /pair in Hp. destruct (_ && _) eqn:Es; [done|].
  destruct (isDirEntry ea) eqn:Da, (isDirEntry eb) eqn:Db; simpl in Hp.
  - assert (refuses (below (Hash ea) (Hash eb) ((prefix +:+ Name ea) +:+ "/")) q) as Hr.
    { destruct (store (Hash ea)); [eauto|done|eauto]. }
    apply Hbelow in Hr as (Hq & r & sa & sb & -> & Hsa & Hsb & mh & Hdiff). split; [done|].
    exists (Name ea +:+ "/" +:+ r). split; [by rewrite !sapp_assoc|]. exists mh.
    assert (∀ sub es, (∀ e', e' ∈ es → Name e' = Name ea → isDirEntry e' = true → entries (Hash e') = Some sub) →
      wfTree es → ¬ atPath sub r mh → ¬ atPath es (Name ea +:+ "/" +:+ r) mh) as Hno.
    { intros sub es Hes [_ Hf] Hns Hat. rewrite Forall_forall in Hf.
      apply atPath_entry in Hat as (e' & He' & [(Hd & Heq & _)|(Hd & s2 & p2 & Heq & Hs2 & Hp2)]%atPath_one).
      - symmetry in Heq. by destruct (plain_last _ _ _ (Hf e' He') Heq).
      - destruct (plain_first _ _ _ _ Hpa (Hf e' He') Heq) as [En' ->].
        specialize (Hes e' He' (eq_sym En') Hd). congruence. }
    destruct Hdiff as [[H1 H2]|[H1 H2]]; [left|right]; split.
    + by econstructor.
    + eapply (Hno sb tb); [|done..]. by intros e' He' ->%(Hu e' He').
    + rewrite -En. by econstructor.
    + eapply (Hno sa ta); [|done..]. by intros e' He' ->%(Hua e' He').
  - eapply mixed_differs; [done..|congruence|eauto].
  - eapply mixed_differs; [done..|congruence|eauto].
  - rewrite /hit in Hp. destruct (protected (prefix +:+ Name ea)) eqn:Ep; [|done]. injection Hp as <- _. split; [done|].
    exists (Name ea). split; [done|]. exists (Mode ea, Hash ea). left.
    assert (atPath [ea] (Name ea) (Mode ea, Hash ea)) as Hat by (apply atPath_one; by left).
    split; [apply atPath_entry; eauto|]. eapply not_atPath; [done..|]. intros e' He' ->%(Hu e' He') _ H2.
    apply atPath_one in H2 as [(_ & _ & [= E1 E2])|(? & _)]; [|congruence].
    by rewrite E1 E2 String.eqb_refl Z.eqb_refl in Es.
Qed.
End Justified.

Lemma diff_refuses fuel a b prefix w q w' : wfStore → diff fuel a b prefix w = (Err (Protected q), w') →
  protected q = true ∧ ∃ p ta tb, q = prefix +:+ p ∧ entries a = Some ta ∧ entries b = Some tb ∧ differs ta tb p.
Proof.
  intros Hwf. revert a b prefix w w'. induction fuel as [fuel IH] using lt_wf_ind. intros a b prefix w w' Hd.
  assert (∃ ta tb, entries a = Some ta ∧ entries b = Some tb ∧
    ((∃ ea, ea ∈ ta ∧ match byName tb (Name ea) with
       | None => refuses (whole fuel ea prefix) q
       | Some eb => protected q = true ∧ ∃ p, q = prefix +:+ p ∧ differs ta tb p end) ∨
     (∃ eb, eb ∈ tb ∧ Name eb ∉ Name <$> ta ∧ refuses (whole fuel eb prefix) q)))
    as (ta & tb & Ha & Hb & Hcase).
  { destruct fuel as [|fuel]; cbn [CiConfigGuard.diff] in Hd.
    all: apply bind_Err in Hd as [?%tree_plain|(ta & w1 & Ha%tree_Ok & Hd)]; [done|].
    all: apply bind_Err in Hd as [?%tree_plain|(tb & w2 & Hb%tree_Ok & Hd)]; [done|].
    all: destruct (negb (noDup (Name <$> tb))); [done|]; exists ta, tb; split_and!; [done..|].
    all: apply bind_Err in Hd as [(ea & Hea & Hr)%diffA_refuses|(inA & w3 & [Hin _]%diffA_Ok & Hd)].
    2,4: right; apply each_refuses in Hd as (eb & Heb & w4 & w5 & Hr); exists eb; split; [done|];
      destruct (existsb (String.eqb (Name eb)) inA) eqn:Ee; [done|]; apply visited in Hr; split; [|done];
      intros Hn; apply existsb_false with (x := Name eb) in Ee;
      [by rewrite String.eqb_refl in Ee|by apply Hin; right].
    all: left; exists ea; split; [done|]; destruct (byName tb (Name ea)) as [eb|] eqn:Eb; [|done].
    all: eapply pair_differs; [by eapply Hwf|by eapply Hwf|done..| |exact Hr].
    - by intros p (w4 & w5 & ?).
    - intros p (w4 & w5 & Hrec). apply IH in Hrec as (Hq & r & sa & sb & -> & ? & ? & ?); [|lia].
      split; [done|]. by exists r, sa, sb. }
  assert (wfTree ta) as Hwa by by eapply Hwf. assert (wfTree tb) as Hwb by by eapply Hwf.
  destruct Hcase as [(ea & Hea & Hr)|(eb & Heb & Hnot & Hr)].
  - destruct (byName tb (Name ea)) as [eb|] eqn:Eb.
    + destruct Hr as (Hq & p & -> & Hdf). split; [done|]. by exists p, ta, tb.
    + destruct (only_differs ta tb ea prefix fuel q) as (Hq & p & mh & -> & H1 & H2); [done..| |].
      { intros e' He' En. destruct (byName_is_Some tb e' He'). congruence. }
      split; [done|]. exists p, ta, tb. split_and!; [done..|]. exists mh. auto.
  - destruct (only_differs tb ta eb prefix fuel q) as (Hq & p & mh & -> & H1 & H2); [done..| |].
    { intros e' He' En. destruct Hnot. rewrite -En. apply list_elem_of_fmap. eauto. }
    split; [done|]. exists p, ta, tb. split_and!; [done..|]. exists mh. auto.
Qed.
(** * The walk is bounded *)

(** A part of the walk visits few enough entries, also when it fails. *)
Definition bounded {A} (m : M A) : Prop := ∀ w, seen w < ciConfigWalkCap → 0 <= bytes w <= ciConfigMaxPathBytesTotal →
  seen w <= seen (m w).2 <= ciConfigWalkCap ∧
  (isOk (m w).1 = true → seen (m w).2 < ciConfigWalkCap ∧ 0 <= bytes (m w).2 <= ciConfigMaxPathBytesTotal).

Lemma bounded_ret {A} (a : A) : bounded (mret a).
Proof. intros w Hw Hb. cbv [mret M_ret fst snd]. split; [lia|done]. Qed.
Lemma bounded_fail {A} e : bounded (fail e : M A).
Proof. intros w Hw Hb. cbv [fail fst snd isOk]. split; [lia|done]. Qed.
Lemma bounded_bind {A B} (m : M A) (f : A → M B) : bounded m → (∀ a, bounded (f a)) → bounded (m ≫= f).
Proof.
  intros Hm Hf w Hw Hb. specialize (Hm w Hw Hb). rewrite /mbind /M_bind.
  destruct (m w) as [[a|e] w1]; simpl in *; [|done].
  destruct Hm as [H1 H2]. destruct (H2 eq_refl) as [H3 H4]. destruct (Hf a w1 H3 H4) as [H5 H6].
  split; [lia|done].
Qed.
Lemma bounded_visit prefix n : bounded (visit cancelled prefix n).
Proof.
  intros w Hw Hb. rewrite /visit /len. destruct (Z.leb_spec ciConfigWalkCap (seen w + 1)); [simpl; split; [lia|done]|].
  destruct (cancelled _); [simpl; split; [lia|done]|]. destruct (_ || _); [simpl; split; [lia|done]|]. cbn [bytes seen].
  destruct (Z.ltb_spec ciConfigMaxPathBytesTotal
    (bytes w + (Z.of_nat (String.length prefix) + Z.of_nat (String.length n))));
    cbn [bytes seen fst snd isOk]; (split; [lia|]); [done|]. intros _. lia.
Qed.
Lemma bounded_tree h : bounded (tree store h).
Proof. rewrite /tree. destruct (_ =?s _)%go; [apply bounded_ret|]. destruct (store h); [apply bounded_ret|apply bounded_fail..]. Qed.
Lemma bounded_hit q : bounded (hit protected q).
Proof. rewrite /hit. destruct (protected q); [apply bounded_fail|apply bounded_ret]. Qed.
Lemma bounded_each {A} (f : A → M unit) l : (∀ x, bounded (f x)) → bounded (each f l).
Proof. intros Hf. induction l; simpl; [apply bounded_ret|]. by apply bounded_bind. Qed.

#[local] Hint Resolve bounded_ret bounded_fail bounded_bind bounded_visit bounded_tree bounded_hit bounded_each : walk.

Lemma bounded_whole fuel e prefix : bounded (whole fuel e prefix).
Proof.
  revert e prefix. induction fuel as [|fuel IH]; intros e prefix; cbn [CiConfigGuard.whole];
    destruct (negb _); auto with walk.
Qed.
Lemma bounded_pair below fuel ea eb prefix : (∀ a b p, bounded (below a b p)) →
  bounded (pair store cancelled protected below fuel ea eb prefix).
Proof.
  intros Hb. rewrite /pair. pose proof bounded_whole. repeat case_match; auto with walk.
Qed.
Lemma bounded_diffA pr wh prefix tb es inA : (∀ a b, bounded (pr a b)) → (∀ a, bounded (wh a)) →
  bounded (diffA cancelled pr wh prefix tb es inA).
Proof.
  intros Hp Hw. revert inA. induction es as [|e es IH]; intros inA; cbn [diffA]; [auto with walk|].
  destruct (existsb _ inA); [auto with walk|]. apply bounded_bind; [auto with walk|]. intros _.
  destruct (byName tb (Name e)); repeat (apply bounded_bind; [auto with walk|]; intros _); auto.
Qed.
Lemma bounded_diff fuel a b prefix : bounded (diff fuel a b prefix).
Proof.
  revert a b prefix. induction fuel as [fuel IH] using lt_wf_ind. intros a b prefix.
  assert (∀ a b p, bounded (match fuel with O => fail TooDeep | S fuel' => diff fuel' a b p end)) as Hb.
  { intros. destruct fuel as [|fuel]; [auto with walk|]. apply IH. lia. }
  pose proof bounded_whole as Hwh. destruct fuel as [|fuel]; cbn [CiConfigGuard.diff].
  all: apply bounded_bind; [auto with walk|]; intros ta; apply bounded_bind; [auto with walk|]; intros tb.
  all: destruct (negb _); [auto with walk|]; apply bounded_bind;
    [apply bounded_diffA; [intros; by apply bounded_pair|auto]|].
  all: intros inA; apply bounded_each; intros eb; destruct (existsb _ inA); auto with walk.
Qed.
End Paths.

(** * Properties *)

(** C27. A publication the guard lets through is equal to the default branch at
    every protected path: with at least one effective glob the default branch's
    tree is known, both trees are readable, and a file that a glob covers is in
    both, with the same mode and content, or in neither.  Otherwise no glob has
    any text. *)
Theorem guard_sound r cancelled cand branch globs : ciConfigGuard r cancelled cand branch globs = None →
  (∀ g, g ∈ globs → TrimSpace g = EmptyString) ∨
  ∃ ref def ta tb, r_refs r ("refs/remotes/origin/" +:+ branch) = Some ref ∧ r_commits r ref = Some def ∧
    entries (r_objects r) cand = Some ta ∧ entries (r_objects r) def = Some tb ∧
    ∀ p mh, covered globs p → atPath (r_objects r) ta p mh ↔ atPath (r_objects r) tb p mh.
Proof.
  rewrite /ciConfigGuard. destruct (newCIConfigMatcher globs) as [[protected|]|] eqn:Em; [| |done].
  - intros Hg. right. destruct (branch =?s EmptyString)%go; [done|].
    destruct (r_refs r _) as [ref|] eqn:Er; [|done]. destruct (ref =?s zeroHash)%go; [done|].
    destruct (r_commits r ref) as [def|] eqn:Ed; [|done]. rewrite /ciConfigTreeGuard in Hg.
    destruct (diff _ _ _ _ cand def _ _) as [[[]|] w'] eqn:Ef; [|done].
    apply diff_agree in Ef as (ta & tb & Ha & Hb & Hag). exists ref, def, ta, tb. split_and!; [done..|].
    intros p mh Hc. apply Hag. by apply (matcher_covered _ _ Em).
  - intros _. left. intros g Hg. apply dec_stable. intros Hne.
    rewrite /newCIConfigMatcher in Em. apply result_bind_Ok in Em as (res & Hr & Hn).
    assert (parts (rune <$> runes (TrimSpace g)) ∈ res) as Hin by (apply (compileGlobs_spec _ _ Hr); eauto).
    destruct res; [by apply not_elem_of_nil in Hin|done].
Qed.

(** On trees as git writes them the guard refuses for a path only when the
    path is protected and the two trees differ there. *)
Theorem guard_justified r cancelled cand def globs protected q :
  newCIConfigMatcher globs = Ok (Some protected) → wfStore (r_objects r) →
  ciConfigTreeGuard (r_objects r) cancelled protected cand def = Some (Protected q) →
  covered globs q ∧ ∃ ta tb, entries (r_objects r) cand = Some ta ∧ entries (r_objects r) def = Some tb ∧
    differs (r_objects r) ta tb q.
Proof.
  intros Em Hwf. rewrite /ciConfigTreeGuard. destruct (diff _ _ _ _ cand def _ _) as [[[]|e] w'] eqn:Ef; [done|].
  intros [= ->]. apply diff_refuses in Ef as (Hq & p & ta & tb & -> & Ha & Hb & Hd); [|done].
  split; [by apply (matcher_covered _ _ Em)|]. by exists ta, tb.
Qed.

(** However large or deep the trees unfold, the guard visits at most one
    hundred thousand entries, and a walk that ends without refusal has processed
    at most 64 MiB of path bytes. *)
Theorem guard_bounded store cancelled protected cand def :
  let '(out, w) := diff store cancelled protected ciConfigMaxDepth cand def EmptyString walk0 in
  seen w <= 100000 ∧ (isOk out = true → seen w < 100000 ∧ bytes w <= 67108864).
Proof.
  pose proof (bounded_diff store cancelled protected ciConfigMaxDepth cand def EmptyString walk0) as Hb.
  destruct (diff _ _ _ _ _ _ _ _) as [out w]. specialize (Hb ltac:(done) ltac:(done)). cbn [fst snd] in Hb.
  change ciConfigWalkCap with 100000 in Hb. change ciConfigMaxPathBytesTotal with 67108864 in Hb.
  split; [lia|]. intros Ho. destruct Hb as [_ Hb]. destruct (Hb Ho). lia.
Qed.

(** * A repository *)
Module Example.

Definition objects (h : hash) : lookup :=
  if (h =?s "root1")%go then Found [mkEntry ".github" filemodeDir "gh"; mkEntry "main.go" 0x81a4 "b1"] else
  if (h =?s "root2")%go then Found [mkEntry ".github" filemodeDir "gh"; mkEntry "main.go" 0x81a4 "b2"] else
  if (h =?s "root3")%go then Found [mkEntry ".github" filemodeDir "gh2"; mkEntry "main.go" 0x81a4 "b1"] else
  if (h =?s "gh")%go then Found [mkEntry "ci.yml" 0x81a4 "c1"] else
  if (h =?s "gh2")%go then Found [mkEntry "ci.yml" 0x81a4 "c2"] else NotFound.
Definition repo0 : repo :=
  mkRepo (λ n, if (n =?s "refs/remotes/origin/main")%go then Some "tip" else None)
    (λ h, if (h =?s "tip")%go then Some "root1" else None) objects.
Definition never (n : Z) : bool := false.

Lemma wf_objects : wfStore objects.
Proof.
  intros h es. rewrite /entries /objects. repeat case_match; simplify_eq; intros [= <-]; (split; [|repeat constructor]).
  all: apply (bool_decide_unpack _); vm_compute; exact I.
Qed.

Lemma guard_sound_witness :
  ciConfigGuard repo0 never "root3" "main" [".github/**"] = Some (Protected ".github/ci.yml") ∧
  ((∀ g, g ∈ [".github/**"] → TrimSpace g = EmptyString) ∨
   ∃ ref def ta tb, r_refs repo0 "refs/remotes/origin/main" = Some ref ∧ r_commits repo0 ref = Some def ∧
     entries objects "root2" = Some ta ∧ entries objects def = Some tb ∧
     ∀ p mh, covered [".github/**"] p → atPath objects ta p mh ↔ atPath objects tb p mh).
Proof.
  split; [vm_compute; reflexivity|].
  apply (guard_sound repo0 never "root2" "main" [".github/**"]). vm_compute. reflexivity.
Defined.

Lemma guard_justified_witness :
  covered ["**/ci.yml"] ".github/ci.yml" ∧ ∃ ta tb, entries objects "root3" = Some ta ∧
    entries objects "root1" = Some tb ∧ differs objects ta tb ".github/ci.yml".
Proof.
  eapply (guard_justified repo0 never "root3" "root1" ["**/ci.yml"]).
  - reflexivity.
  - apply wf_objects.
  - vm_compute. reflexivity.
Defined.

Example glob_root : MatchString (parts (rune <$> runes "**/Jenkinsfile")) "Jenkinsfile" = true.
Proof. reflexivity. Qed.
Example glob_star : MatchString (parts (rune <$> runes "ci/*.yml")) "ci/a/b.yml" = false.
Proof. reflexivity. Qed.

End Example.
End CiConfigGuard.
