(* ===== verification/LimitWait.v ===== *)
(** Parking a run that hit a provider usage limit
    ([src/api/internal/workersvc/limitwait.go]) and the claim mode that decides
    whether a pooled alternative may shorten the wait
    ([effectiveNextClaimMode], [src/api/internal/workersvc/secretchoice.go]).

    The decision is pure; the handler around it is a program over the
    statements it issues. The claim lock and the conversion of candidate rows
    are requests of their own. *)

From S2P Require Import Prelude GoText Prog AutoSelect.

Local Open Scope Z_scope.

Module LimitWait.
Import GoText AutoSelect.

(** * The window vocabulary *)

Definition RateLimitTypeUnknown : string := "unknown".
Definition rateLimitTypes : list string :=
  ["five_hour"; "seven_day"; "seven_day_opus"; "seven_day_sonnet"; "seven_day_overage_included";
   "overage"; RateLimitTypeUnknown].
Definition AllRateLimitTypes : list string := rateLimitTypes.

Definition CoerceRateLimitType (reported : option string) : option string :=
  match reported with
  | None => None
  | Some t => if bool_decide (t ∈ rateLimitTypes) then Some t else Some RateLimitTypeUnknown
  end.

Inductive limitWindow := windowNone | windowFiveHour | windowSevenDay.

Definition limitWindowFor (rateLimitType : option string) : limitWindow :=
  match rateLimitType with
  | None => windowNone
  | Some t =>
    if bool_decide (t = "five_hour") then windowFiveHour else
    if bool_decide (t ∈ ["seven_day"; "seven_day_opus"; "seven_day_sonnet"; "seven_day_overage_included"])
    then windowSevenDay else windowNone
  end.

(** * The park computation *)

Definition limitParkJitterMin : duration := 60 * Go.Second.
Definition limitParkJitterMax : duration := 180 * Go.Second.
Definition limitParkFallbackBase : duration := 15 * Go.Minute.
Definition limitParkFallbackCap : duration := 4 * Go.Hour.
Definition limitParkFallbackMaxShift : Z := 20.

Definition limitParkFallbackFor (priorParks : Z) : duration :=
  if priorParks <=? 0 then limitParkFallbackBase else
  if limitParkFallbackMaxShift <=? priorParks then limitParkFallbackCap else
  let d := Go.wrap64 (Z.shiftl limitParkFallbackBase priorParks) in
  if limitParkFallbackCap <? d then limitParkFallbackCap else d.

Definition reportedResetMinMs : Z := 1000000000000.
Definition reportedResetMaxMs : Z := 4102444800000.

Definition validReportedReset (ms : option Z) : option time :=
  match ms with
  | None => None
  | Some ms =>
    if (ms <? reportedResetMinMs) || (reportedResetMaxMs <? ms) then None
    else Some (ms * Go.Millisecond)
  end.

Record limitParkInput := mkInput {
  Harness : string;
  WaitOnLimit : bool;
  LimitWaitCount : Z;
  DeadSecretID : uuid;
  ReportedResetMs : option Z;
  ReportedType : option string;
  Candidates : list Candidate;
  NextClaimMode : string;
  Policy_ : Policy;
  MaxWaits : Z;
  MaxPark : duration;
  Jitter : duration;
  Now : time;
}.

Record limitParkDecision := mkDecision {
  Park : bool;
  RetryNotBefore : time;
  LimitResetsAt : option time;
  RateLimitType : option string;
  Reason_ : string;
}.

Definition limitFailureReason (harness : string) (rateLimitType : option string)
    (resetsAt : option time) (detail : string) : string :=
  (if bool_decide (harness = "codex") then "Codex usage limit" else "Anthropic usage limit") +:+
  match rateLimitType with Some t => " (" +:+ t +:+ ")" | None => EmptyString end +:+
  " reached" +:+
  match resetsAt with Some t => "; resets at " +:+ rfc3339 t | None => EmptyString end +:+
  (if bool_decide (detail = EmptyString) then EmptyString else "; " +:+ detail).

Definition deadCredentialReset (cands : list Candidate) (dead : uuid) (p : Policy)
    (rateLimitType : option string) (now : time) : option time :=
  if bool_decide (dead = Uuid.Nil) || bool_decide (rateLimitType = None) then None else
  match List.find (λ c, bool_decide (SecretID c = dead)) cands with
  | None => None
  | Some c =>
    if negb (Measured (Classify c p now)) then None else
    match limitWindowFor rateLimitType with
    | windowFiveHour => FiveResetsAt c
    | windowSevenDay => SevenResetsAt c
    | windowNone => None
    end
  end.

Definition BindModeAuto : string := "auto".
Definition BindModePinned : string := "pinned".
Definition BindModeDefault : string := "default".
Definition effectiveClaimModeUnknown : string := "unknown".

(** The later of the report and the dead credential's own gauge. *)
Definition reportedBase (inp : limitParkInput) (resets : option time) (type_ : option string)
    : option time :=
  match deadCredentialReset (Candidates inp) (DeadSecretID inp) (Policy_ inp) type_ (Now inp) with
  | Some gauge =>
    match resets with
    | None => Some gauge
    | Some base => if Go.after gauge base then Some gauge else Some base
    end
  | None => resets
  end.

(** Lowered to a pooled alternative only for a claim that will use one. *)
Definition pooledBase (inp : limitParkInput) (base : option time) : option time :=
  if bool_decide (NextClaimMode inp = BindModeAuto) then
    match NextAvailable (Candidates inp) (DeadSecretID inp) (Policy_ inp) (Now inp) with
    | Some alt =>
      match base with
      | None => Some alt
      | Some b => if Go.before alt b then Some alt else Some b
      end
    | None => base
    end
  else base.

Definition decideLimitPark (inp : limitParkInput) : limitParkDecision :=
  let type_ := CoerceRateLimitType (ReportedType inp) in
  let resets := validReportedReset (ReportedResetMs inp) in
  let refuse detail :=
    mkDecision false Go.zeroTime resets type_ (limitFailureReason (Harness inp) type_ resets detail) in
  if negb (WaitOnLimit inp) then refuse EmptyString else
  if MaxWaits inp <=? LimitWaitCount inp then
    refuse ("usage-limit retry budget exhausted after " +:+ itoa (LimitWaitCount inp) +:+ " attempt(s)")
  else
  let base :=
    match pooledBase inp (reportedBase inp resets type_) with
    | Some b => b
    | None => Go.add (Now inp) (limitParkFallbackFor (LimitWaitCount inp))
    end in
  let retry := Go.add base (Jitter inp) in
  let floor := Go.add (Now inp) (Jitter inp) in
  let retry := if negb (Go.after retry floor) then floor else retry in
  if MaxPark inp <? Go.sub retry (Now inp) then
    refuse ("the window reopens further out than the " +:+ durationString (MaxPark inp) +:+ " maximum park")
  else mkDecision true retry resets type_ EmptyString.

(** [limitParkJitter], with the number it draws. *)
Definition limitParkJitter (draw : Z) : duration := limitParkJitterMin + draw.

(** * The next claim *)

(** The columns of [store.Run] and [store.Worker] the park reads. *)
Record Run := mkRun {
  ID : uuid;
  UserID : uuid;
  Kind : string;
  Harness_ : string;
  WaitOnLimit_ : bool;
  LimitWaitCount_ : Z;
  AnthropicSecretID : option uuid;
  CredentialOverrideMode : option string;
  CredentialOverrideSecretID : option uuid;
  WorkerID : option uuid;
  ScopeCeiling : bool; (* whether it carries a scope directive *)
}.
Record Worker := mkWorker { WID : uuid; AnthropicBindMode : string }.

Definition SelfImprove : string := "self_improve".

Definition effectiveNextClaimMode (run : Run) (ownerJudgeMode : string) (worker : Worker) : string :=
  let inherited :=
    if bool_decide (WorkerID run = None) || bool_decide (WID worker = Uuid.Nil)
    then effectiveClaimModeUnknown else AnthropicBindMode worker in
  if bool_decide (Kind run = SelfImprove) then ownerJudgeMode else
  match CredentialOverrideMode run with
  | Some mode =>
    if bool_decide (mode = BindModePinned) then
      if bool_decide (is_Some (CredentialOverrideSecretID run)) then BindModePinned else inherited
    else if bool_decide (mode = BindModeAuto) then BindModeAuto
    else if bool_decide (mode = BindModeDefault) then BindModeDefault
    else inherited
  | None => inherited
  end.

(** * The state report *)

Record StateRequest := mkRequest {
  r_LimitResetsAt : option Z; r_RateLimitType : option string; r_ClaimGeneration : option Z;
  r_SessionID : option string;
}.

Inductive req : Type → Type :=
  | BeginClaimMutation (worker run : uuid) (gen : option Z) : req (option Run)
  | ListAutoSelectCandidates (user : uuid) : req (option (list Candidate))
  | OwnerJudgeBindMode (user : uuid) : req (option string)
  | DrawJitter : req Z
  | Clock : req time
  | SetRunFailed (reason origin : string) (session : option string) (run worker : uuid) (gen : option Z)
      : req (option Z)
  | SettleScopeInputDisposition (run : uuid) (disposition : string) : req (option Z)
  | MarkFiveHourExhausted (secret : uuid) : req (option Z)
  | MarkSevenDayExhausted (secret : uuid) : req (option Z)
  | SetRunLimitWait (run worker : uuid) (resets : option time) (type_ : option string) (retry : time)
      (gen : option Z) (dead : option uuid) (session : option string) : req (option Z)
  | Commit : req (option unit).

Abbreviation P := (prog req).

Record Params := mkParams {
  Autoselect : Policy; RunLimitMaxWaits : Z; RunLimitMaxPark : duration; transactional : bool;
}.

(** [None] is an error the caller surfaces. *)
Definition candidatesFor (run : Run) : P (option (list Candidate)) :=
  match AnthropicSecretID run with
  | None => mret (Some [])
  | Some _ => call (ListAutoSelectCandidates (UserID run))
  end.

Definition judgeModeFor (run : Run) : P (option string) :=
  if bool_decide (Kind run = SelfImprove) then call (OwnerJudgeBindMode (UserID run))
  else mret (Some EmptyString).

Definition markExhausted (run : Run) (type_ : option string) : P bool :=
  match AnthropicSecretID run with
  | None => mret true
  | Some dead =>
    match limitWindowFor type_ with
    | windowFiveHour => n ← call (MarkFiveHourExhausted dead); mret (bool_decide (is_Some n))
    | windowSevenDay => n ← call (MarkSevenDayExhausted dead); mret (bool_decide (is_Some n))
    | windowNone => mret true
    end
  end.

Definition failOnLimit (run : Run) (wkr : Worker) (q : StateRequest) (reason : string) : P (option Z) :=
  rows ← call (SetRunFailed reason "rate_limited" (r_SessionID q) (ID run) (WID wkr) (r_ClaimGeneration q));
  match rows with
  | None => mret None
  | Some n =>
    if (0 <? n) && ScopeCeiling run
    then _ ← call (SettleScopeInputDisposition (ID run) "declined"); mret (Some n)
    else mret (Some n)
  end.

Definition setLimitWaitLocked (p : Params) (run : Run) (wkr : Worker) (q : StateRequest)
    : P (option Z) :=
  ocands ← candidatesFor run;
  match ocands with
  | None => mret None
  | Some cands =>
    ojudge ← judgeModeFor run;
    match ojudge with
    | None => mret None
    | Some ownerJudgeMode =>
      draw ← call DrawJitter;
      now ← call Clock;
      let d := decideLimitPark
        (mkInput (Harness_ run) (WaitOnLimit_ run) (LimitWaitCount_ run)
           (default Uuid.Nil (AnthropicSecretID run)) (r_LimitResetsAt q) (r_RateLimitType q) cands
           (effectiveNextClaimMode run ownerJudgeMode wkr) (Autoselect p) (RunLimitMaxWaits p)
           (RunLimitMaxPark p) (limitParkJitter draw) now) in
      if negb (Park d) then failOnLimit run wkr q (Reason_ d) else
      marked ← markExhausted run (RateLimitType d);
      if negb (marked : bool) then mret None else
      call (SetRunLimitWait (ID run) (WID wkr) (LimitResetsAt d) (RateLimitType d) (RetryNotBefore d)
              (r_ClaimGeneration q) (AnthropicSecretID run) (r_SessionID q))
    end
  end.

Definition setLimitWait (p : Params) (id : uuid) (wkr : Worker) (q : StateRequest) : P (option Z) :=
  current ← call (BeginClaimMutation (WID wkr) id (r_ClaimGeneration q));
  match current with
  | None => mret None
  | Some run =>
    rows ← setLimitWaitLocked p run wkr q;
    match rows with
    | None => mret None
    | Some n =>
      if transactional p
      then committed ← call Commit;
           mret (match (committed : option unit) with None => None | Some _ => Some n end)
      else mret (Some n)
    end
  end.

(** The [failed] report of a worker that opted out; [None]: the fields are absent
    and the worker's own sanitized reason stands. *)
Definition limitAwareFailureReason (harness : string) (q : StateRequest) : option string :=
  match r_RateLimitType q, r_LimitResetsAt q with
  | None, None => None
  | _, _ => Some (limitFailureReason harness (CoerceRateLimitType (r_RateLimitType q))
                    (validReportedReset (r_LimitResetsAt q)) EmptyString)
  end.

(** * Properties *)

Lemma coerce_vocabulary r t : CoerceRateLimitType r = Some t → t ∈ rateLimitTypes.
Proof.
  destruct r as [r|]; simpl; [|done]. case_bool_decide; intros [= <-]; [done|].
  apply (bool_decide_unpack _). vm_compute. exact I.
Qed.

(** The wait when nothing says when the window reopens is 15 minutes doubled
    per earlier park and capped at four hours, for every count: the shift never
    overflows into a wait in the past. *)
Theorem limitParkFallbackFor_correct n :
  limitParkFallbackFor n = Z.min limitParkFallbackCap (limitParkFallbackBase * 2 ^ Z.max 0 n).
Proof.
  rewrite /limitParkFallbackFor. destruct (Z.leb_spec n 0) as [H0|H0].
  { rewrite Z.max_l //. }
  rewrite Z.max_r; [lia|]. destruct (Z.leb_spec limitParkFallbackMaxShift n) as [H20|H20].
  { assert (2 ^ 20 <= 2 ^ n) by (apply Z.pow_le_mono_r; rewrite /limitParkFallbackMaxShift in H20; lia).
    rewrite /limitParkFallbackCap /limitParkFallbackBase /Go.Hour /Go.Minute /Go.Second. lia. }
  rewrite Z.shiftl_mul_pow2; [lia|].
  assert (2 ^ n <= 2 ^ 19) by (apply Z.pow_le_mono_r; rewrite /limitParkFallbackMaxShift in H20; lia).
  assert (0 < 2 ^ n) by (apply Z.pow_pos_nonneg; lia).
  rewrite /Go.wrap64 Z.mod_small; [rewrite /limitParkFallbackBase /Go.Minute /Go.Second; lia|].
  rewrite /limitParkFallbackCap /limitParkFallbackBase /Go.Hour /Go.Minute /Go.Second.
  destruct (Z.ltb_spec (4 * (60 * (60 * 1000000000))) (15 * (60 * 1000000000) * 2 ^ n + 2 ^ 63 - 2 ^ 63)); lia.
Qed.

(** When the run may be tried again, before jitter: the later of what the worker
    and the dead credential's gauge say about the same window, lowered to the
    first spendable alternative if the next claim can use it, else the fallback. *)
Definition reopens (inp : limitParkInput) : time :=
  let reported := validReportedReset (ReportedResetMs inp) in
  let gauge := deadCredentialReset (Candidates inp) (DeadSecretID inp) (Policy_ inp)
                 (CoerceRateLimitType (ReportedType inp)) (Now inp) in
  let pooled := if bool_decide (NextClaimMode inp = BindModeAuto)
    then NextAvailable (Candidates inp) (DeadSecretID inp) (Policy_ inp) (Now inp) else None in
  default (Now inp + limitParkFallbackFor (LimitWaitCount inp))
    (union_with (λ a b, Some (Z.min a b)) (union_with (λ a b, Some (Z.max a b)) reported gauge) pooled).

Definition wait (inp : limitParkInput) : duration := Z.max 0 (reopens inp - Now inp) + Jitter inp.

Lemma base_reopens inp :
  match pooledBase inp (reportedBase inp (validReportedReset (ReportedResetMs inp))
                          (CoerceRateLimitType (ReportedType inp))) with
  | Some b => b
  | None => Go.add (Now inp) (limitParkFallbackFor (LimitWaitCount inp))
  end = reopens inp.
Proof.
  rewrite /reopens /pooledBase /reportedBase /Go.add /Go.after /Go.before.
  set (rep := validReportedReset _). set (gauge := deadCredentialReset _ _ _ _ _).
  set (alt := NextAvailable _ _ _ _). clearbody rep gauge alt.
  destruct rep as [a|], gauge as [g|], alt as [n|]; case_bool_decide; simpl;
    repeat match goal with |- context [Z.ltb ?x ?y] => destruct (Z.ltb_spec x y); simpl end; lia.
Qed.

Lemma limitFailureReason_nonempty h t r d : limitFailureReason h t r d ≠ EmptyString.
Proof. rewrite /limitFailureReason. by case_bool_decide. Qed.

Lemma decideLimitPark_eq inp :
  0 <= MaxPark inp < Go.maxDuration →
  let d := decideLimitPark inp in
  RateLimitType d = CoerceRateLimitType (ReportedType inp) ∧
  LimitResetsAt d = validReportedReset (ReportedResetMs inp) ∧
  Park d = WaitOnLimit inp && (LimitWaitCount inp <? MaxWaits inp) && (wait inp <=? MaxPark inp) ∧
  (Park d = true → RetryNotBefore d = Now inp + wait inp) ∧
  (Park d = false → Reason_ d ≠ EmptyString).
Proof.
  intros Hmax. rewrite /decideLimitPark base_reopens.
  destruct (WaitOnLimit inp); simpl; [|split_and!; try done; intros _; apply limitFailureReason_nonempty].
  rewrite (Z.leb_antisym (LimitWaitCount inp) (MaxWaits inp)).
  destruct (LimitWaitCount inp <? MaxWaits inp); simpl; last first.
  { split_and!; try done. intros _. apply limitFailureReason_nonempty. }
  assert (Hretry : (if negb (Go.after (Go.add (reopens inp) (Jitter inp)) (Go.add (Now inp) (Jitter inp)))
    then Go.add (Now inp) (Jitter inp) else Go.add (reopens inp) (Jitter inp)) = Now inp + wait inp).
  { rewrite /Go.after /Go.add /wait. case_match eqn:E; lia. }
  rewrite Hretry.
  assert (Hsub : (MaxPark inp <? Go.sub (Now inp + wait inp) (Now inp)) = negb (wait inp <=? MaxPark inp)).
  { rewrite /Go.sub /Go.maxDuration /Go.minDuration in Hmax |- *. lia. }
  rewrite Hsub. destruct (wait inp <=? MaxPark inp); simpl; [done|].
  split_and!; try done. intros _. apply limitFailureReason_nonempty.
Qed.

(** A limited run parks exactly when it opted in, has retries left and the
    wait fits the maximum; then it is due at the reopening instant or now,
    whichever is later, plus the jitter. What is stored of the worker's report is
    an allowlisted window name and a plausible instant, and a run that does not
    park fails with a composed reason instead of being refused. *)
Theorem decideLimitPark_correct inp :
  0 <= MaxPark inp < Go.maxDuration →
  let d := decideLimitPark inp in
  (Park d = true ↔ WaitOnLimit inp = true ∧ LimitWaitCount inp < MaxWaits inp ∧ wait inp <= MaxPark inp) ∧
  (Park d = true → RetryNotBefore d = Z.max (Now inp) (reopens inp) + Jitter inp) ∧
  (Park d = false → Reason_ d ≠ EmptyString) ∧
  (∀ t, RateLimitType d = Some t → t ∈ rateLimitTypes) ∧
  (∀ t, LimitResetsAt d = Some t →
     reportedResetMinMs * Go.Millisecond <= t <= reportedResetMaxMs * Go.Millisecond).
Proof.
  intros Hmax d. destruct (decideLimitPark_eq inp Hmax) as (Ht & Hr & Hp & Hpark & Hfail).
  fold d in Ht, Hr, Hp, Hpark, Hfail. split_and!; [| |done| |].
  - rewrite Hp !andb_true_iff Z.ltb_lt Z.leb_le. tauto.
  - intros Hd. rewrite Hpark // /wait. lia.
  - intros t. rewrite Ht. apply coerce_vocabulary.
  - intros t. rewrite Hr /validReportedReset. destruct (ReportedResetMs inp) as [ms|]; [|done].
    case_match eqn:E; [done|]. intros [= <-]. rewrite /Go.Millisecond. lia.
Qed.

(** * The handler *)

(** What the handler has learned and done. *)
Record ghost := mkGhost {
  g_run : option Run;
  g_now : option time;
  g_marks : list (limitWindow * uuid); (* gauge windows written *)
  g_rows : option Z;                   (* rows of the one status write *)
  g_committed : bool;
}.
Definition start : ghost := mkGhost None None [] None false.

Definition learn (g : ghost) X (r : req X) : X → ghost :=
  match r in req X return X → ghost with
  | BeginClaimMutation _ _ _ => λ x, mkGhost x (g_now g) (g_marks g) (g_rows g) (g_committed g)
  | Clock => λ x, mkGhost (g_run g) (Some x) (g_marks g) (g_rows g) (g_committed g)
  | MarkFiveHourExhausted s => λ x, mkGhost (g_run g) (g_now g)
      (match x with Some _ => (windowFiveHour, s) :: g_marks g | None => g_marks g end) (g_rows g)
      (g_committed g)
  | MarkSevenDayExhausted s => λ x, mkGhost (g_run g) (g_now g)
      (match x with Some _ => (windowSevenDay, s) :: g_marks g | None => g_marks g end) (g_rows g)
      (g_committed g)
  | SetRunFailed _ _ _ _ _ _ => λ x, mkGhost (g_run g) (g_now g) (g_marks g) x (g_committed g)
  | SetRunLimitWait _ _ _ _ _ _ _ _ => λ x, mkGhost (g_run g) (g_now g) (g_marks g) x (g_committed g)
  | Commit => λ x, mkGhost (g_run g) (g_now g) (g_marks g) (g_rows g) (bool_decide (is_Some x))
  | _ => λ _, g
  end.

(** Queries answer anything; the jitter is drawn by [rand.Int63n]. *)
Definition answers (g : ghost) X (r : req X) (x : X) (g' : ghost) : Prop :=
  g' = learn g X r x ∧
  match r in req X return X → Prop with
  | DrawJitter => λ draw, 0 <= draw <= limitParkJitterMax - limitParkJitterMin
  | _ => λ _, True
  end x.

(** The gauge write the window of the rejection calls for. *)
Definition dueMarks (run : Run) (type_ : option string) : list (limitWindow * uuid) :=
  match AnthropicSecretID run, limitWindowFor type_ with
  | Some s, windowFiveHour => [(windowFiveHour, s)]
  | Some s, windowSevenDay => [(windowSevenDay, s)]
  | _, _ => []
  end.

Definition ok (p : Params) (q : StateRequest) (g : ghost) X (r : req X) : Prop :=
  match r with
  | SetRunFailed reason origin _ id _ gen =>
      g_rows g = None ∧ g_marks g = [] ∧ ID <$> g_run g = Some id ∧ reason ≠ EmptyString ∧
      origin = "rate_limited" ∧ gen = r_ClaimGeneration q
  | SetRunLimitWait id _ resets type_ retry gen dead _ =>
      g_rows g = None ∧
      ∃ run now, g_run g = Some run ∧ ID run = id ∧ g_now g = Some now ∧
        WaitOnLimit_ run = true ∧ LimitWaitCount_ run < RunLimitMaxWaits p ∧
        now + limitParkJitterMin <= retry <= now + RunLimitMaxPark p ∧
        (∀ t, type_ = Some t → t ∈ rateLimitTypes) ∧ dead = AnthropicSecretID run ∧
        g_marks g = dueMarks run type_ ∧ gen = r_ClaimGeneration q
  | Commit => g_rows g ≠ None
  | _ => True
  end.

Section Handler.
Context (p : Params) (q : StateRequest).
Hypothesis max_park : 0 <= RunLimitMaxPark p < Go.maxDuration.

Lemma wp_failOnLimit g run wkr reason :
  g_run g = Some run → g_rows g = None → g_marks g = [] → reason ≠ EmptyString →
  wp answers (ok p q) (λ g' o, ∀ n, o = Some n → g_rows g' = Some n) g (failOnLimit run wkr q reason).
Proof.
  intros Hrun Hrows Hm Hr. split; [split_and!; try done; by rewrite Hrun|].
  intros [n|] g1 [-> _]; [|by intros ?]. simpl.
  destruct ((0 <? n) && ScopeCeiling run); [|by intros ? [= <-]].
  split; [done|]. intros x g2 [-> _] n' [= <-]. done.
Qed.

Lemma wp_markExhausted g run type_ :
  g_marks g = [] →
  wp answers (ok p q) (λ g' b, g_run g' = g_run g ∧ g_now g' = g_now g ∧ g_rows g' = g_rows g ∧
    (b = true → g_marks g' = dueMarks run type_)) g (markExhausted run type_).
Proof.
  intros Hm. rewrite /markExhausted /dueMarks.
  destruct (AnthropicSecretID run) as [s|]; [|done].
  destruct (limitWindowFor type_); [done|..]; (split; [done|]); intros [n|] g1 [-> _]; simpl;
    by rewrite ?Hm.
Qed.

Lemma wp_setLimitWaitLocked g run wkr :
  g_run g = Some run → g_rows g = None → g_marks g = [] →
  wp answers (ok p q) (λ g' o, ∀ n, o = Some n → g_rows g' = Some n) g (setLimitWaitLocked p run wkr q).
Proof.
  intros Hrun Hrows Hm. rewrite /setLimitWaitLocked.
  eapply (wp_bind _ _ (λ g' _, g' = g)).
  { rewrite /candidatesFor. destruct (AnthropicSecretID run); [|done]. split; [done|]. by intros x g' [-> _]. }
  intros ? [cands|] ->; [|by intros ?]. eapply (wp_bind _ _ (λ g' _, g' = g)).
  { rewrite /judgeModeFor. case_bool_decide; [|done]. split; [done|]. by intros x g' [-> _]. }
  intros ? [judge|] ->; [|by intros ?]. split; [done|]. intros draw g1 [-> Hdraw]. split; [done|].
  intros now g2 [-> _]. cbn -[decideLimitPark wp].
  set (inp := mkInput _ _ _ _ _ _ _ _ _ _ _ _ _).
  destruct (decideLimitPark_eq inp max_park) as (Ht & Hr & Hp & Hpark & Hfail).
  destruct (Park (decideLimitPark inp)) eqn:Hd; cbn -[decideLimitPark wp]; [|by apply wp_failOnLimit; auto].
  eapply wp_bind; [by apply wp_markExhausted|].
  intros g3 [] (Hrun3 & Hnow3 & Hrows3 & Hm3); [|by intros ?]. cbn -[decideLimitPark wp].
  symmetry in Hp. apply andb_true_iff in Hp as [[Hw Hc%Z.ltb_lt]%andb_true_iff Hfit%Z.leb_le].
  split.
  - split; [by rewrite Hrows3|]. exists run, now. rewrite Hrun3 Hnow3 Hpark //.
    split_and!; try done.
    + rewrite /wait /inp /= /limitParkJitter. simpl in Hdraw. lia.
    + rewrite /inp /= in Hfit |- *. lia.
    + intros t. rewrite Ht. apply coerce_vocabulary.
    + rewrite Hm3 //.
  - by intros [n|] g4 [-> _] n' [= <-].
Qed.
End Handler.

(** A limit report is never lost. Whatever the queries answer, the handler
    performs at most one status write, fenced by the reported generation: a
    rate-limited failure with a reason, or a park of a run that opted in and has
    retries left, due at least a minute and at most the maximum park from now,
    with an allowlisted window, the gauge of exactly that window of the spent
    credential marked before it; and a returned row count is that write's, under
    a commit where there is a transaction. *)
Theorem setLimitWait_correct p q id wkr :
  0 <= RunLimitMaxPark p < Go.maxDuration →
  wp answers (ok p q)
    (λ g o, ∀ n, o = Some n → g_rows g = Some n ∧ (transactional p = true → g_committed g = true))
    start (setLimitWait p id wkr q).
Proof.
  intros Hmax. split; [done|]. intros [run|] g1 [-> _]; [|by intros ?].
  eapply wp_bind; [by apply wp_setLimitWaitLocked|]. intros g2 [n|] Hrows; [|by intros ?].
  specialize (Hrows n eq_refl). destruct (transactional p); [|by intros ? [= <-]].
  split; [simpl; congruence|]. intros [[]|] g3 [-> _]; [|by intros ?]. intros ? [= <-]. done.
Qed.

Definition exampleParams : Params :=
  mkParams (mkPolicy OrderHeadroomFirst 10 5 (10 * Go.Minute) 3) 5 (720 * Go.Hour) true.

Lemma setLimitWait_correct_witness :
  wp answers (ok exampleParams (mkRequest (Some 1700000000000) (Some "five_hour") None None))
    (λ g o, ∀ n, o = Some n → g_rows g = Some n ∧
       (transactional exampleParams = true → g_committed g = true))
    start (setLimitWait exampleParams (Uuid.mk 1) (mkWorker (Uuid.mk 2) "auto")
             (mkRequest (Some 1700000000000) (Some "five_hour") None None)).
Proof. apply setLimitWait_correct. vm_compute. split; [discriminate|reflexivity]. Defined.

Definition exampleInput : limitParkInput :=
  mkInput "claude" true 1 (Uuid.mk 1) None (Some "martian") [] "auto" (Autoselect exampleParams) 5
    (720 * Go.Hour) (90 * Go.Second) 0.

Lemma decideLimitPark_correct_witness :
  Park (decideLimitPark exampleInput) = true ∧
  RetryNotBefore (decideLimitPark exampleInput) = 30 * Go.Minute + 90 * Go.Second ∧
  RateLimitType (decideLimitPark exampleInput) = Some "unknown".
Proof.
  destruct (decideLimitPark_correct exampleInput) as (_ & Hretry & _).
  { vm_compute. split; [discriminate|reflexivity]. }
  split; [vm_compute; reflexivity|]. split; [|vm_compute; reflexivity].
  rewrite Hretry; vm_compute; reflexivity.
Defined.

End LimitWait.
