(* ===== verification/GoFloat.v ===== *)
(** Go's [float64] as IEEE 754 binary64 values, by the format's executable
    specification. *)

From Stdlib Require Import SpecFloat.
From S2P Require Import Prelude.

Local Open Scope Z_scope.

Module GoFloat.

Abbreviation float64 := spec_float.

Definition ofZ (z : Z) : float64 := binary_normalize 53 1024 z 0 false.
Definition sub (x y : float64) : float64 := SFsub 53 1024 x y.
Definition ltb (x y : float64) : bool := SFltb x y.

(** The least integer not below a value, with the infinities and [NaN] apart. *)
Inductive integral := Int (z : Z) | PosInf | NegInf | NotANumber.

Definition signed (s : bool) (m : positive) : Z := if s then Z.neg m else Z.pos m.

(** [math.Ceil]: exact, a float with a non-negative exponent is an integer. *)
Definition ceil (x : float64) : integral :=
  match x with
  | S754_nan => NotANumber
  | S754_infinity s => if s then NegInf else PosInf
  | S754_zero _ => Int 0
  | S754_finite s m e =>
    if 0 <=? e then Int (signed s m * 2 ^ e) else Int (- (- signed s m / 2 ^ (- e)))
  end.

(** [math.Floor]. *)
Definition floor (x : float64) : integral :=
  match x with
  | S754_nan => NotANumber
  | S754_infinity s => if s then NegInf else PosInf
  | S754_zero _ => Int 0
  | S754_finite s m e =>
    if 0 <=? e then Int (signed s m * 2 ^ e) else Int (signed s m / 2 ^ (- e))
  end.

Definition leb (x y : float64) : bool := SFleb x y.
Definition isNaN (x : float64) : bool := match x with S754_nan => true | _ => false end.
Definition isInf (x : float64) : bool := match x with S754_infinity _ => true | _ => false end.

(** [math.Min]. *)
Definition fmin (x y : float64) : float64 :=
  match x, y with
  | S754_infinity true, _ | _, S754_infinity true => S754_infinity true
  | S754_nan, _ | _, S754_nan => S754_nan
  | S754_zero s, S754_zero _ => if s then x else y
  | _, _ => if ltb x y then x else y
  end.

Example ceil_sub : ceil (sub (ofZ 100) (ofZ 80)) = Int 20.
Proof. vm_compute. reflexivity. Qed.

(** * Values

    A finite float is an integer multiple of [2^-1074]; [scaled] is that
    integer.  On well-formed floats the operations above are the integer ones. *)
Definition emin : Z := -1074.
Definition wf (x : float64) : Prop := valid_binary 53 1024 x = true.
Definition finite (x : float64) : bool := negb (isNaN x) && negb (isInf x).

Definition scaled (x : float64) : Z :=
  match x with S754_finite s m e => signed s m * 2 ^ (e - emin) | _ => 0 end.
(** An integer at the same scale. *)
Definition scale : Z := 2 ^ 1074.

Lemma digits2_bounds m : 2 ^ (Z.pos (digits2_pos m) - 1) <= Z.pos m < 2 ^ Z.pos (digits2_pos m).
Proof.
  induction m as [m IH|m IH|]; cbn [digits2_pos]; [| |by split].
  all: rewrite Pos2Z.inj_succ; set (d := Z.pos (digits2_pos m)) in *.
  all: have Hd : 0 < d by lia.
  all: have E1 : 2 ^ (Z.succ d - 1) = 2 * 2 ^ (d - 1) by rewrite -Z.pow_succ_r; [lia|f_equal; lia].
  all: have E2 : 2 ^ Z.succ d = 2 * 2 ^ d by rewrite Z.pow_succ_r; lia.
  all: lia.
Qed.

Lemma wf_finite s m e : wf (S754_finite s m e) → emin <= e ∧ Z.pos (digits2_pos m) <= 53 ∧
  (emin < e → Z.pos (digits2_pos m) = 53).
Proof.
  rewrite /wf /valid_binary /bounded /canonical_mantissa /fexp /SpecFloat.emin /emin => /andb_prop [/Z.eqb_eq H _].
  lia.
Qed.

Lemma scaled_lt s s' m m' e e' : wf (S754_finite s m e) → wf (S754_finite s' m' e') → e < e' →
  Z.pos m * 2 ^ (e - emin) < Z.pos m' * 2 ^ (e' - emin).
Proof.
  move=> /wf_finite [He [Hd _]] /wf_finite [_ [_ Hd']] Hlt.
  have {}Hd' : Z.pos (digits2_pos m') = 53 by apply Hd'; lia.
  have [_ Hm] := digits2_bounds m. have [Hm' _] := digits2_bounds m'. rewrite Hd' in Hm'.
  have Hp : 2 ^ Z.pos (digits2_pos m) <= 2 ^ 53 by apply Z.pow_le_mono_r; lia.
  have Hq : 2 ^ 53 * 2 ^ (e - emin) <= 2 ^ (53 - 1) * 2 ^ (e' - emin).
  { rewrite -!Z.pow_add_r; [..|apply Z.pow_le_mono_r]; lia. }
  have H0 : 0 < 2 ^ (e - emin) by apply Z.pow_pos_nonneg; lia.
  have H1 : 0 < 2 ^ (e' - emin) by apply Z.pow_pos_nonneg; lia.
  nia.
Qed.

Lemma compare_pos s s' m m' e e' : wf (S754_finite s m e) → wf (S754_finite s' m' e') →
  match Z.compare e e' with Lt => Lt | Gt => Gt | Eq => Pos.compare_cont Eq m m' end =
  (Z.pos m * 2 ^ (e - emin) ?= Z.pos m' * 2 ^ (e' - emin)).
Proof.
  move=> H H'. have [He _] := wf_finite _ _ _ H. symmetry.
  case: (Z.compare_spec e e') => [<-|Hlt|Hgt].
  - rewrite -Zmult_compare_compat_r //. apply Z.lt_gt, Z.pow_pos_nonneg; lia.
  - apply Z.compare_lt_iff. exact: scaled_lt H H' Hlt.
  - apply Z.compare_gt_iff. exact: scaled_lt H' H Hgt.
Qed.

(** Comparison of finite floats is comparison of their values. *)
Lemma compare_scaled x y : wf x → wf y → finite x = true → finite y = true →
  SFcompare x y = Some (scaled x ?= scaled y).
Proof.
  have Hpos m e : emin <= e → 0 < Z.pos m * 2 ^ (e - emin).
  { move=> He. apply Z.mul_pos_pos; [lia|apply Z.pow_pos_nonneg; lia]. }
  case: x y => [s|s||s m e] [s'|s'||s' m' e'] // H H' _ _; rewrite /SFcompare /scaled; f_equal.
  - have [He _] := wf_finite _ _ _ H'. have := Hpos m' e' He.
    case: s' {H'}; cbn [signed]; rewrite -?Pos2Z.opp_pos ?Z.mul_opp_l => ?; symmetry;
      [apply Z.compare_gt_iff|apply Z.compare_lt_iff]; lia.
  - have [He _] := wf_finite _ _ _ H. have := Hpos m e He.
    case: s {H}; cbn [signed]; rewrite -?Pos2Z.opp_pos ?Z.mul_opp_l => ?; symmetry;
      [apply Z.compare_lt_iff|apply Z.compare_gt_iff]; lia.
  - have [He _] := wf_finite _ _ _ H. have [He' _] := wf_finite _ _ _ H'.
    have Hp := Hpos m e He. have Hp' := Hpos m' e' He'. have Hc := compare_pos _ _ _ _ _ _ H H'.
    case: s s' {H H'} => [] []; cbn [signed]; rewrite -?Pos2Z.opp_pos ?Z.mul_opp_l.
    + rewrite Z.compare_opp (Z.compare_antisym (Z.pos m * _)) -Hc. by case: (Z.compare e e').
    + symmetry. apply Z.compare_lt_iff. lia.
    + symmetry. apply Z.compare_gt_iff. lia.
    + exact: Hc.
Qed.

Lemma ltb_scaled x y : wf x → wf y → finite x = true → finite y = true → ltb x y = (scaled x <? scaled y).
Proof. move=> *. by rewrite /ltb /SFltb compare_scaled. Qed.
Lemma leb_scaled x y : wf x → wf y → finite x = true → finite y = true → leb x y = (scaled x <=? scaled y).
Proof. move=> *. by rewrite /leb /SFleb compare_scaled. Qed.

Lemma floor_scaled x : wf x → finite x = true → floor x = Int (scaled x / scale).
Proof.
  case: x => [s|s||s m e] // H _; rewrite /floor /scaled.
  have [He _] := wf_finite _ _ _ H. have Hu : scale = 2 ^ (- emin) by [].
  case: Z.leb_spec => He0.
  - have -> : e - emin = e + - emin by lia. rewrite Z.pow_add_r; [lia|rewrite /emin; lia|].
    by rewrite Z.mul_assoc Hu Z.div_mul.
  - have Hs : scale = 2 ^ (- e) * 2 ^ (e - emin) by rewrite Hu -Z.pow_add_r; [lia..|f_equal; lia].
    rewrite Hs Z.div_mul_cancel_r //; apply Z.pow_nonzero; lia.
Qed.

(** ** Integers that fit the mantissa are exact *)
Lemma digits2_iter m d : digits2_pos (Pos.iter xO m d) = (digits2_pos m + d)%positive.
Proof.
  induction d as [|d IH] using Pos.peano_ind; first by rewrite /= Pos.add_1_r.
  rewrite Pos.iter_succ /= IH. lia.
Qed.
Lemma iter_xO m d : Z.pos (Pos.iter xO m d) = Z.pos m * 2 ^ Z.pos d.
Proof.
  induction d as [|d IH] using Pos.peano_ind; first by rewrite /=; lia.
  rewrite Pos.iter_succ Pos2Z.inj_succ Z.pow_succ_r; [lia|].
  rewrite (Pos2Z.inj_xO (Pos.iter _ _ _)) IH. lia.
Qed.

Lemma digits2_small m : Z.pos m < 2 ^ 53 → Z.pos (digits2_pos m) <= 53.
Proof.
  move=> Hm. have [Hlo _] := digits2_bounds m. apply Z.le_ngt => H.
  have : 2 ^ 53 <= 2 ^ (Z.pos (digits2_pos m) - 1) by apply Z.pow_le_mono_r; lia. lia.
Qed.

(** The float of a positive integer below [2^53]. *)
Definition exact (s : bool) (m : positive) : float64 :=
  match 53 - Z.pos (digits2_pos m) with
  | Z.pos d => S754_finite s (Pos.iter xO m d) (- Z.pos d)
  | _ => S754_finite s m 0
  end.

Lemma binary_round_aux_exact s m e : Z.pos (digits2_pos m) = 53 → emin <= e <= 971 →
  binary_round_aux 53 1024 s (Z.pos m) e loc_Exact = S754_finite s m e.
Proof.
  rewrite /emin => Hd He.
  have Hf : Z.max (Z.pos (digits2_pos m) + e - 53) (SpecFloat.emin 53 1024) - e = 0 by rewrite Hd /SpecFloat.emin; lia.
  rewrite /binary_round_aux /shr_fexp /fexp /Zdigits2 Hf /= Hf /=. case: Z.leb_spec => //. lia.
Qed.

Lemma round_exact s m : Z.pos m < 2 ^ 53 → binary_round 53 1024 s m 0 = exact s m.
Proof.
  move=> /digits2_small Hd.
  rewrite /binary_round /exact /shl_align /fexp /SpecFloat.emin.
  have -> : Z.max (Z.pos (digits2_pos m) + 0 - 53) (3 - 1024 - 53) - 0 = - (53 - Z.pos (digits2_pos m)) by lia.
  have Hmax : Z.max (Z.pos (digits2_pos m) + 0 - 53) (3 - 1024 - 53) = - (53 - Z.pos (digits2_pos m)) by lia.
  case E: (53 - Z.pos (digits2_pos m)) => [|d|d]; [| |lia]; cbn [Z.opp].
  - apply binary_round_aux_exact; rewrite /emin; lia.
  - rewrite Hmax E. cbn [Z.opp]. apply binary_round_aux_exact; [rewrite digits2_iter|rewrite /emin]; lia.
Qed.

Lemma exact_spec s m : Z.pos m < 2 ^ 53 →
  wf (exact s m) ∧ finite (exact s m) = true ∧ scaled (exact s m) = signed s m * scale.
Proof.
  move=> /digits2_small Hd.
  have Hwf s' m' e : Z.pos (digits2_pos m') = 53 → emin <= e <= 971 → wf (S754_finite s' m' e).
  { rewrite /wf /= /bounded /canonical_mantissa /fexp /SpecFloat.emin /emin => -> ?.
    apply andb_true_intro; split; [apply Z.eqb_eq|apply Z.leb_le]; lia. }
  rewrite /exact. case E: (53 - Z.pos (digits2_pos m)) => [|d|d]; [| |lia]; (split_and!; [|done|]).
  - apply Hwf; rewrite /emin; lia.
  - by rewrite /scaled.
  - apply Hwf; [rewrite digits2_iter|rewrite /emin]; lia.
  - rewrite /scaled.
    have -> : signed s (Pos.iter xO m d) = signed s m * 2 ^ Z.pos d.
    { case: s; cbn [signed]; rewrite -?Pos2Z.opp_pos iter_xO; lia. }
    rewrite -Z.mul_assoc -Z.pow_add_r; [lia|rewrite /emin; lia|]. f_equal. rewrite /scale /emin. f_equal. lia.
Qed.

(** [float64(z)] for an integer below [2^53] in magnitude is [z]. *)
Lemma ofZ_exact z : Z.abs z < 2 ^ 53 → wf (ofZ z) ∧ finite (ofZ z) = true ∧ scaled (ofZ z) = z * scale.
Proof.
  case: z => [|m|m] Hz; rewrite /ofZ /binary_normalize ?round_exact //.
  - exact: (exact_spec false m).
  - exact: (exact_spec true m).
Qed.

(** [math.Min] of finite floats. *)
Lemma fmin_spec x y : wf x → wf y → finite x = true → finite y = true →
  wf (fmin x y) ∧ finite (fmin x y) = true ∧ scaled (fmin x y) = Z.min (scaled x) (scaled y).
Proof.
  move=> Hx Hy Fx Fy.
  have Hl := ltb_scaled x y Hx Hy Fx Fy.
  have Hif : wf (if ltb x y then x else y) ∧ finite (if ltb x y then x else y) = true ∧
    scaled (if ltb x y then x else y) = Z.min (scaled x) (scaled y).
  { rewrite Hl. case: Z.ltb_spec => ?; split_and!; rewrite //; [rewrite Z.min_l|rewrite Z.min_r]; lia. }
  destruct x as [s|[]| |s m e], y as [s'|[]| |s' m' e']; try done; rewrite /fmin; by destruct s.
Qed.

End GoFloat.
