(* ===== verification/GoNumber.v ===== *)
(** Numbers between text and [float64]: [strconv.ParseFloat] of a JSON literal,
    [math.Round] and the conversions of exact quotients, correctly rounded. *)

From Stdlib Require Import SpecFloat Ascii.
From S2P Require Import Prelude GoText GoStrings GoFloat.

Local Open Scope Z_scope.

Module GoNumber.
Import GoStrings.
Abbreviation float64 := GoFloat.float64.

Definition mul (x y : float64) : float64 := SFmul 53 1024 x y.

(** [math.Round]: to the nearest integer, halves away from zero. *)
Definition round (x : float64) : GoFloat.integral :=
  match x with
  | S754_nan => GoFloat.NotANumber
  | S754_infinity s => if s then GoFloat.NegInf else GoFloat.PosInf
  | S754_zero _ => GoFloat.Int 0
  | S754_finite s m e =>
    let a := if 0 <=? e then Z.pos m * 2 ^ e else (2 * Z.pos m + 2 ^ (- e)) / (2 * 2 ^ (- e)) in
    GoFloat.Int (if s then - a else a)
  end.

(** The quotient of two positive integers. *)
Definition ofRatio (s : bool) (m d : positive) : float64 :=
  let '(q, e, l) := SFdiv_core_binary 53 1024 (Z.pos m) 0 (Z.pos d) 0 in binary_round_aux 53 1024 s q e l.

(** [m * 10^e]. *)
Definition ofDecimal (s : bool) (m e : Z) : float64 :=
  match m with
  | Zpos p =>
    match e with
    | Zneg k => ofRatio s p (10 ^ k)
    | Zpos k => binary_round 53 1024 s (p * 10 ^ k) 0
    | Z0 => binary_round 53 1024 s p 0
    end
  | _ => S754_zero s
  end.

(** Leading decimal digits: their value added to [acc], how many, and the rest. *)
Fixpoint leading (acc n : Z) (s : string) : Z * Z * string :=
  match s with
  | String c s' => match digit c with Some d => leading (10 * acc + d) (n + 1) s' | None => (acc, n, s) end
  | EmptyString => (acc, n, s)
  end.
Definition exponent (s : string) : option Z :=
  match s with
  | EmptyString => Some 0
  | String c s' =>
    if Ascii.eqb c "e" || Ascii.eqb c "E" then
      match s' with
      | String "-" t => Z.opp <$> unsigned t
      | String "+" t => unsigned t
      | t => unsigned t
      end
    else None
  end.
(** Of a JSON number; [None] is a range error, or a text that is no number. *)
Definition ParseFloat (lit : string) : option float64 :=
  let '(s, body) := match lit with String "-" t => (true, t) | t => (false, t) end in
  let '(int, n, rest) := leading 0 0 body in
  if n =? 0 then None else
  let '(m, frac, rest) := match rest with String "." t => leading int 0 t | t => (int, 0, t) end in
  e ← exponent rest;
  let x := ofDecimal s m (e - frac) in
  if GoFloat.isInf x then None else Some x.

Example ParseFloat_half : ParseFloat "-12.50e-1" = Some (ofRatio true 5 4).
Proof. vm_compute. reflexivity. Qed.
Example ParseFloat_tenth : ParseFloat "0.1" = Some (S754_finite false 7205759403792794 (-56)).
Proof. vm_compute. reflexivity. Qed.
Example ParseFloat_range : ParseFloat "1e400" = None ∧ ParseFloat "1e-400" = Some (S754_zero false) ∧ ParseFloat "x" = None.
Proof. vm_compute. tauto. Qed.
Example round_half : round (ofRatio false 5 2) = GoFloat.Int 3 ∧ round (ofRatio true 5 2) = GoFloat.Int (-3).
Proof. vm_compute. tauto. Qed.

End GoNumber.
