(* ===== verification/GoRound.v ===== *)
(** Rounding to [float64]: what [binary_round_aux] computes from a mantissa with
    enough digits, that the result is well formed, and how far it is off. *)

From Stdlib Require Import SpecFloat ssreflect.
From S2P Require Import Prelude GoText GoStrings GoFloat GoNumber.

Local Open Scope Z_scope.

Module GoRound.
Import GoFloat.

Abbreviation fexp64 := (fexp 53 1024) (only parsing).
Lemma fexp64_max d : fexp64 d = Z.max (d - 53) emin.
Proof. done. Qed.

Lemma Zdigits2_bounds m : 0 < m → 0 < Zdigits2 m ∧ 2 ^ (Zdigits2 m - 1) <= m < 2 ^ Zdigits2 m.
Proof. destruct m as [|m|m]; try lia. intros _. split; [done|]. apply digits2_bounds. Qed.
Lemma Zdigits2_nonneg m : 0 <= m → 0 <= Zdigits2 m.
Proof. destruct m; simpl; lia. Qed.
Lemma Zdigits2_le m d : 0 <= d → 0 <= m < 2 ^ d → Zdigits2 m <= d.
Proof.
  intros Hd Hm. destruct (decide (m = 0)) as [->|Hne]; [done|]. destruct (Zdigits2_bounds m) as (H0 & Hlo & _); [lia|].
  apply Z.le_ngt. intros Hlt. assert (2 ^ d <= 2 ^ (Zdigits2 m - 1)) by (apply Z.pow_le_mono_r; lia). lia.
Qed.
Lemma Zdigits2_ge m d : 0 < d → 2 ^ (d - 1) <= m → d <= Zdigits2 m.
Proof.
  intros Hd Hm. assert (0 < 2 ^ (d - 1)) by (apply Z.pow_pos_nonneg; lia). destruct (Zdigits2_bounds m) as (H0 & _ & Hhi); [lia|].
  apply Z.le_ngt. intros Hlt. assert (2 ^ Zdigits2 m <= 2 ^ (d - 1)) by (apply Z.pow_le_mono_r; lia). lia.
Qed.

(** Shifting divides. *)
Lemma shr_1_m r : 0 <= shr_m r → shr_m (shr_1 r) = shr_m r / 2.
Proof.
  rewrite -Z.div2_div. destruct r as [[|[p|p|]|p] a b]; simpl; intros H; try done.
Qed.
Lemma iter_shr_m p : ∀ r, 0 <= shr_m r → shr_m (SpecFloat.iter_pos shr_1 p r) = shr_m r / 2 ^ Z.pos p.
Proof.
  assert (∀ q r, 0 <= shr_m r → (∀ r, 0 <= shr_m r → shr_m (SpecFloat.iter_pos shr_1 q r) = shr_m r / 2 ^ Z.pos q) →
    shr_m (SpecFloat.iter_pos shr_1 q (SpecFloat.iter_pos shr_1 q r)) = shr_m r / 2 ^ Z.pos (xO q)) as Htwice.
  { intros q r Hr IH. assert (0 <= shr_m r / 2 ^ Z.pos q) by (apply Z.div_pos; lia). rewrite IH IH //.
    rewrite Z.div_div; [lia|lia|]. rewrite -Z.pow_add_r; [done..|]. f_equal. f_equal. lia. }
  induction p as [p IH|p IH|]; intros r Hr; cbn [SpecFloat.iter_pos].
  - assert (0 <= shr_m r / 2) by (apply Z.div_pos; lia). rewrite Htwice ?shr_1_m //. rewrite Z.div_div; [lia|lia|].
    by rewrite Pos2Z.inj_xI Z.add_comm Z.pow_add_r.
  - by apply Htwice.
  - by apply shr_1_m.
Qed.

Lemma loc_m m l : shr_m (shr_record_of_loc m l) = m.
Proof. by destruct l as [|[]]. Qed.
Lemma shr_fexp_spec m e l : 0 <= m → e <= fexp64 (Zdigits2 m + e) →
  ∃ r, shr_fexp 53 1024 m e l = (r, fexp64 (Zdigits2 m + e)) ∧ shr_m r = m / 2 ^ (fexp64 (Zdigits2 m + e) - e).
Proof.
  intros Hm He. rewrite /shr_fexp. destruct (fexp64 (Zdigits2 m + e) - e) as [|p|p] eqn:E; [| |lia]; cbn [shr].
  - eexists. split; [f_equal; lia|]. by rewrite loc_m Z.div_1_r.
  - eexists. split; [f_equal; lia|]. by rewrite iter_shr_m loc_m.
Qed.
Lemma nearest_cases m l : round_nearest_even m l = m ∨ round_nearest_even m l = m + 1.
Proof. destruct l as [|[]]; simpl; try tauto. destruct (Z.even m); tauto. Qed.

(** After the rounding only a carry is left to shift. *)
Lemma shr_carry m e : 0 <= m <= 2 ^ 53 → emin <= e →
  ∃ r, shr_fexp 53 1024 m e loc_Exact = (r, if m =? 2 ^ 53 then e + 1 else e) ∧ shr_m r = if m =? 2 ^ 53 then 2 ^ 52 else m.
Proof.
  intros Hm He. destruct (m =? 2 ^ 53) eqn:E.
  - assert (m = 2 ^ 53) as -> by lia. rewrite /shr_fexp.
    assert (fexp64 (Zdigits2 (2 ^ 53) + e) - e = 1) as ->; [|by eexists].
    rewrite fexp64_max. change (Zdigits2 (2 ^ 53)) with 54. lia.
  - assert (Zdigits2 m <= 53) by (apply Zdigits2_le; lia). rewrite /shr_fexp.
    destruct (fexp64 (Zdigits2 m + e) - e) as [|p|p] eqn:Ef; cbn [shr]; [by eexists|rewrite fexp64_max in Ef; lia|by eexists].
Qed.

Definition finish (s : bool) (m e : Z) : float64 :=
  match m with
  | Z0 => S754_zero s
  | Zpos p => if e <=? 971 then S754_finite s p e else S754_infinity s
  | Zneg _ => S754_nan
  end.

(** The result: the mantissa cut to 53 digits, or the one above it; a carry into
    the 54th digit moves the exponent. *)
Lemma round_aux_spec s m e l : 0 <= m → e <= fexp64 (Zdigits2 m + e) →
  let e1 := fexp64 (Zdigits2 m + e) in let q := m / 2 ^ (e1 - e) in
  ∃ m1, (m1 = q ∨ m1 = q + 1) ∧ 0 <= q ∧ Zdigits2 q <= 53 ∧ (emin < e1 → 2 ^ 52 <= q) ∧
  binary_round_aux 53 1024 s m e l = if m1 =? 2 ^ 53 then finish s (2 ^ 52) (e1 + 1) else finish s m1 e1.
Proof.
  intros Hm He e1 q. destruct (shr_fexp_spec m e l Hm He) as (r & Er & Em). fold e1 in Er, Em. fold q in Em.
  pose proof (Zdigits2_nonneg m Hm) as Hd0. assert (e <= e1) by done. assert (e1 = Z.max (Zdigits2 m + e - 53) emin) as He1 by done.
  assert (0 < 2 ^ (e1 - e)) as Hpow by (apply Z.pow_pos_nonneg; lia).
  assert (0 <= q) as Hq by (apply Z.div_pos; lia).
  assert (q < 2 ^ 53) as Hq53.
  { destruct (decide (m = 0)) as [->|Hne]; [by rewrite /q Z.div_0_l; lia|]. destruct (Zdigits2_bounds m) as (_ & _ & Hhi); [lia|].
    apply Z.div_lt_upper_bound; [lia|]. eapply Z.lt_le_trans; [exact Hhi|]. rewrite -Z.pow_add_r; [lia|lia|]. apply Z.pow_le_mono_r; lia. }
  exists (round_nearest_even (shr_m r) (loc_of_shr_record r)). rewrite Em.
  destruct (nearest_cases q (loc_of_shr_record r)) as [E|E].
  all: split; [tauto|]; split; [done|]; split; [apply Zdigits2_le; lia|]; split.
  all: try (intros Hgt; destruct (Zdigits2_bounds m) as (_ & Hlo & _);
    [destruct (decide (m = 0)) as [->|?]; [simpl in He1; rewrite /emin in He1, Hgt; lia|lia]|];
    apply Z.div_le_lower_bound; [lia|]; eapply Z.le_trans; [|exact Hlo]; rewrite -Z.pow_add_r; [lia|lia|]; apply Z.pow_le_mono_r; lia).
  all: rewrite /binary_round_aux Er Em E.
  1: destruct (shr_carry q e1) as (r2 & -> & ->); [lia|lia|].
  2: destruct (shr_carry (q + 1) e1) as (r2 & -> & ->); [lia|lia|].
  all: by destruct (_ =? 2 ^ 53).
Qed.

Lemma finish_wf s m e : 0 <= m → Zdigits2 m <= 53 → emin <= e → (emin < e → 2 ^ 52 <= m) → wf (finish s m e).
Proof.
  intros Hm Hd He Hn. destruct m as [|m|m]; [done| |done]. rewrite /finish. destruct (e <=? 971) eqn:El; [|done].
  rewrite /wf /valid_binary /bounded /canonical_mantissa. apply andb_true_intro. split; [|done]. apply Z.eqb_eq. rewrite fexp64_max.
  simpl in Hd. destruct (decide (e = emin)) as [->|Hne]; [lia|].
  assert (53 <= Zdigits2 (Z.pos m)) by (apply Zdigits2_ge; [done|]; apply Hn; lia). simpl in *. lia.
Qed.

(** Rounding a mantissa with enough digits gives a well-formed float. *)
Lemma round_aux_wf s m e l : 0 <= m → e <= fexp64 (Zdigits2 m + e) → wf (binary_round_aux 53 1024 s m e l).
Proof.
  intros Hm He. destruct (round_aux_spec s m e l Hm He) as (m1 & Hm1 & Hq & Hd & Hn & ->). revert Hm1 Hq Hd Hn.
  set (e1 := fexp64 _). set (q := m / _). intros Hm1 Hq Hd Hn. assert (emin <= e1) by (rewrite /e1 fexp64_max; lia).
  assert (q < 2 ^ 53). { destruct (decide (q = 0)) as [->|?]; [done|]. destruct (Zdigits2_bounds q) as (_ & _ & Hhi); [lia|].
    eapply Z.lt_le_trans; [exact Hhi|]. apply Z.pow_le_mono_r; lia. }
  destruct (m1 =? 2 ^ 53) eqn:E; [apply finish_wf; [done|vm_compute; congruence|lia|done]|].
  apply finish_wf; [lia|apply Zdigits2_le; lia|done|]. intros Hlt. specialize (Hn Hlt). lia.
Qed.
(** ** Conversions *)
Lemma binary_round_wf s m e : wf (binary_round 53 1024 s m e).
Proof.
  rewrite /binary_round /shl_align. set (f := fexp64 (Z.pos (digits2_pos m) + e)).
  destruct (f - e) as [|d|d] eqn:E; [apply round_aux_wf; [done|]; simpl; fold f; lia..|].
  apply round_aux_wf; [done|]. simpl. rewrite digits2_iter.
  assert (Z.pos (digits2_pos m + d) + f = Z.pos (digits2_pos m) + e) as -> by lia. fold f. lia.
Qed.

Lemma fexp64_mono a b : a <= b → fexp64 a <= fexp64 b.
Proof. rewrite !fexp64_max. lia. Qed.
Lemma ofRatio_wf s m d : wf (GoNumber.ofRatio s m d).
Proof.
  rewrite /GoNumber.ofRatio /SFdiv_core_binary. change (Zdigits2 (Z.pos m)) with (Z.pos (digits2_pos m)).
  change (Zdigits2 (Z.pos d)) with (Z.pos (digits2_pos d)). set (dm := Z.pos (digits2_pos m)). set (dd := Z.pos (digits2_pos d)).
  assert (dm + 0 - (dd + 0) = dm - dd) as -> by lia. set (e' := Z.min (fexp64 (dm - dd)) (0 - 0)).
  assert (e' <= 0) as He0 by lia. assert (e' <= fexp64 (dm - dd)) as Hef by lia.
  assert (match 0 - 0 - e' with Z0 => Z.pos m | Z.pos _ => Z.shiftl (Z.pos m) (0 - 0 - e') | Z.neg _ => 0 end = Z.pos m * 2 ^ (- e')) as ->.
  { destruct (0 - 0 - e') as [|p|p] eqn:E; [assert (e' = 0) as -> by lia; lia| |lia]. rewrite Z.shiftl_mul_pow2; [done|]. do 2 f_equal. lia. }
  destruct (Z.div_eucl _ _) as [q r] eqn:E. assert (q = Z.pos m * 2 ^ (- e') / Z.pos d) as -> by (by rewrite /Z.div E).
  assert (0 < 2 ^ (- e')) by (apply Z.pow_pos_nonneg; lia). assert (0 <= Z.pos m * 2 ^ (- e') / Z.pos d) as Hq by (apply Z.div_pos; lia).
  apply round_aux_wf; [done|]. etrans; [exact Hef|]. apply fexp64_mono. set (q0 := _ / _) in *.
  destruct (Z_le_gt_dec (dm - e' - dd) 0); [pose proof (Zdigits2_nonneg q0 Hq); lia|].
  enough (dm - e' - dd <= Zdigits2 q0) by lia. apply Zdigits2_ge; [lia|]. apply Z.div_le_lower_bound; [lia|].
  pose proof (digits2_bounds m) as [Hm _]. pose proof (digits2_bounds d) as [_ Hd]. fold dm in Hm. fold dd in Hd.
  assert (2 ^ dd * 2 ^ (dm - e' - dd - 1) = 2 ^ (dm - 1) * 2 ^ (- e')) as Hp by (rewrite -!Z.pow_add_r; [lia..|]; f_equal; lia).
  assert (0 < 2 ^ (dm - e' - dd - 1)) by (apply Z.pow_pos_nonneg; lia). nia.
Qed.
Lemma ofDecimal_wf s m e : wf (GoNumber.ofDecimal s m e).
Proof.
  rewrite /GoNumber.ofDecimal. destruct m as [|p|p]; [done| |done]. destruct e; [apply binary_round_wf..|apply ofRatio_wf].
Qed.
Lemma ParseFloat_wf lit x : GoNumber.ParseFloat lit = Some x → wf x.
Proof.
  rewrite /GoNumber.ParseFloat. repeat case_match; try done; destruct (GoNumber.exponent _) as [k|]; simpl; try done.
  all: destruct (isInf _); [done|]; intros [= <-]; apply ofDecimal_wf.
Qed.

(** ** How far a product is off *)
(** [math.Round] of a value below [x + 1/2], at the scale [2^k]. *)
Lemma round_le p e k x : 0 <= k → 0 <= e + k → 2 * (Z.pos p * 2 ^ (e + k)) < 2 ^ k * (2 * x + 1) →
  ∃ z, GoNumber.round (S754_finite false p e) = Int z ∧ 0 <= z <= x.
Proof.
  intros Hk Hek Hlt. eexists. split; [done|]. assert (0 < 2 ^ k) by (apply Z.pow_pos_nonneg; lia). destruct (0 <=? e) eqn:E.
  - rewrite Z.pow_add_r in Hlt; [lia|lia|]. assert (0 < 2 ^ e) by (apply Z.pow_pos_nonneg; lia). split; nia.
  - assert (0 < 2 ^ (- e)) by (apply Z.pow_pos_nonneg; lia). split; [apply Z.div_pos; lia|].
    enough ((2 * Z.pos p + 2 ^ (- e)) / (2 * 2 ^ (- e)) < x + 1) by lia. apply Z.div_lt_upper_bound; [lia|].
    assert (2 ^ k = 2 ^ (e + k) * 2 ^ (- e)) as Hk' by (rewrite -Z.pow_add_r; [lia..|]; f_equal; lia).
    assert (0 < 2 ^ (e + k)) by (apply Z.pow_pos_nonneg; lia). rewrite Hk' in Hlt. nia.
Qed.

(** A rounded value is less than one unit of its last place above the exact one. *)
Lemma round_aux_above m e l k b : 0 < m → e <= fexp64 (Zdigits2 m + e) → 0 <= e + k → 1074 <= k →
  m * 2 ^ (e + k) <= b → ∃ m1 e1, emin <= e1 ∧ 0 <= m1 ∧ 2 ^ 52 * (m1 * 2 ^ (e1 + k)) <= (2 ^ 52 + 1) * b + 2 ^ 52 * 2 ^ (k - 1074) ∧
  binary_round_aux 53 1024 false m e l = finish false m1 e1.
Proof.
  intros Hm He Hek Hk Hb. destruct (round_aux_spec false m e l ltac:(lia) He) as (m1 & Hm1 & Hq & Hd & _ & Heq).
  revert Heq Hm1 Hq Hd. set (e1 := fexp64 _). set (q := m / _). intros Heq Hm1 Hq Hd.
  assert (emin <= e1) by (rewrite /e1 fexp64_max; lia). assert (0 < 2 ^ (e + k)) by (apply Z.pow_pos_nonneg; lia).
  assert (0 < 2 ^ (e1 + k)) by (apply Z.pow_pos_nonneg; rewrite /emin in H; lia).
  assert (q * 2 ^ (e1 + k) <= m * 2 ^ (e + k)) as Hqle.
  { assert (2 ^ (e1 + k) = 2 ^ (e1 - e) * 2 ^ (e + k)) as -> by (rewrite -Z.pow_add_r; [lia..|]; f_equal; lia).
    assert (2 ^ (e1 - e) * q <= m) by (apply Z.mul_div_le, Z.pow_pos_nonneg; lia). nia. }
  assert (2 ^ 52 * 2 ^ (e1 + k) <= m * 2 ^ (e + k) + 2 ^ 52 * 2 ^ (k - 1074)) as Hulp.
  { destruct (Zdigits2_bounds m Hm) as (H2 & Hlo & _). destruct (Z_le_gt_dec (Zdigits2 m + e - 53) emin).
    - assert (e1 = -1074) as -> by (rewrite /e1 fexp64_max /emin in l0 |- *; lia). assert (-1074 + k = k - 1074) as -> by lia. nia.
    - assert (2 ^ 52 * 2 ^ (e1 + k) = 2 ^ (Zdigits2 m - 1) * 2 ^ (e + k)) as ->.
      { rewrite -!Z.pow_add_r; [lia| |lia|lia|]; [rewrite /emin in H; lia|]. f_equal. rewrite /e1 fexp64_max. lia. }
      assert (0 < 2 ^ (k - 1074)) by (apply Z.pow_pos_nonneg; lia). nia. }
  destruct (m1 =? 2 ^ 53) eqn:E.
  - exists (2 ^ 52), (e1 + 1). split_and!; [lia|done| |done]. assert (2 ^ (e1 + 1 + k) = 2 * 2 ^ (e1 + k)) as ->.
    { rewrite -Z.pow_succ_r; [rewrite /emin in H; lia|]. f_equal. lia. }
    assert (2 ^ 52 * (2 * 2 ^ (e1 + k)) = m1 * 2 ^ (e1 + k)) as -> by lia. nia.
  - exists m1, e1. split_and!; [done|lia| |done]. nia.
Qed.

End GoRound.
