(* ===== verification/AnthropicPrice.v ===== *)
(** The price of one usage record from the recorded table
    ([src/api/internal/anthropicprice]).  Token counts are 64-bit, a cost is an
    exact number of nanodollars. *)

From Stdlib Require Import SpecFloat.
From S2P Require Import Prelude GoText GoStrings GoFloat.

Local Open Scope Z_scope.

Module AnthropicPrice.

Definition standardServiceTier : string := "standard".
Definition standardSpeed : string := "standard".
Definition standardInferenceGeo : string := "global".
Definition unavailableInferenceGeo : string := "not_available".

Record rates := mkRates {
  input : Z; cacheRead : Z; cacheWrite5m : Z; cacheWrite1h : Z; output : Z;
  predatesInferenceGeo : bool; basePromptLimit : Z;
}.
Definition table : list (string * rates) := [
  ("claude-fable-5-1", mkRates 10000 250 12500 20000 50000 false 0);
  ("claude-opus-5-5", mkRates 4000 200 5000 8000 20000 false 0);
  ("claude-opus-5", mkRates 5000 500 6250 10000 25000 false 0);
  ("claude-opus-4-8", mkRates 5000 500 6250 10000 25000 false 0);
  ("claude-sonnet-5-5", mkRates 2000 100 2500 4000 10000 false 0);
  ("claude-haiku-5-5", mkRates 100 10 125 200 500 false 100000);
  ("claude-haiku-4-5-20251001", mkRates 1000 100 1250 2000 5000 true 0);
  ("claude-haiku-4-5", mkRates 1000 100 1250 2000 5000 true 0)].
Definition lookupRates (model : string) : option rates :=
  snd <$> List.find (λ e, (e.1 =?s model)%go) table.

Record Usage := mkUsage {
  Model : string; InputTokens : Z; CacheReadInputTokens : Z; CacheCreationInputTokens : Z;
  CacheCreation5mTokens : option Z; CacheCreation1hTokens : option Z; OutputTokens : Z;
  ServiceTier : string; Speed : string; InferenceGeo : string;
}.

Fixpoint promptWithin (remaining : Z) (counts : list Z) : bool :=
  match counts with
  | [] => true
  | n :: counts' => if remaining <? n then false else promptWithin (Go.wrap64 (remaining - n)) counts'
  end.

Definition costOf (u : Usage) (r : rates) (w5m w1h : Z) : Z :=
  InputTokens u * input r + CacheReadInputTokens u * cacheRead r + w5m * cacheWrite5m r
  + w1h * cacheWrite1h r + OutputTokens u * output r.

(** The cache writes by their two rates: a split must account for the total. *)
Definition writeSplit (w5 w1 : option Z) (total : Z) : option (Z * Z) :=
  if bool_decide (is_Some w5) || bool_decide (is_Some w1) then
    let w5m := default 0 w5 in
    let w1h := default 0 w1 in
    if (w5m <? 0) || (w1h <? 0) || negb (Go.wrap64 (w5m + w1h) =? total) then None else Some (w5m, w1h)
  else if 0 <? total then None else Some (0, 0).

(** The cost in nanodollars; [None] is [ok == false]. *)
Definition Price (u : Usage) : option Z :=
  match lookupRates (Model u) with
  | None => None
  | Some r =>
    if negb (ServiceTier u =?s EmptyString)%go && negb (ServiceTier u =?s standardServiceTier)%go then None else
    if negb (Speed u =?s EmptyString)%go && negb (Speed u =?s standardSpeed)%go then None else
    let geoStandard := (InferenceGeo u =?s EmptyString)%go || (InferenceGeo u =?s standardInferenceGeo)%go
                       || ((InferenceGeo u =?s unavailableInferenceGeo)%go && predatesInferenceGeo r) in
    if negb geoStandard then None else
    if (InputTokens u <? 0) || (CacheReadInputTokens u <? 0) || (CacheCreationInputTokens u <? 0) || (OutputTokens u <? 0)
    then None else
    if (0 <? basePromptLimit r)
       && negb (promptWithin (basePromptLimit r) [InputTokens u; CacheReadInputTokens u; CacheCreationInputTokens u])
    then None else
    '(w5m, w1h) ← writeSplit (CacheCreation5mTokens u) (CacheCreation1hTokens u) (CacheCreationInputTokens u);
    Some (costOf u r w5m w1h)
  end.

(** [Cost.USD]: a division in a [big.Float] of at least 64 bits, then the
    conversion to [float64]. *)
Definition USD (nano : Z) : GoFloat.float64 :=
  match nano with
  | Zpos m =>
    let prec := Z.max 64 (Z.pos (digits2_pos m)) in
    let emax := 2 ^ 40 in
    let '(q, e, l) := SFdiv_core_binary prec emax (Zpos m) 0 1000000000 0 in
    match binary_round_aux prec emax false q e l with
    | S754_finite s m' e' => binary_round 53 1024 s m' e'
    | x => x
    end
  | _ => S754_zero false
  end.

(** * What is priced *)
Definition int64 (z : Z) : Prop := - 2 ^ 63 <= z < 2 ^ 63.
Record inRange (u : Usage) : Prop := mkInRange {
  ir_in : int64 (InputTokens u); ir_read : int64 (CacheReadInputTokens u); ir_create : int64 (CacheCreationInputTokens u);
  ir_out : int64 (OutputTokens u); ir_5m : int64 (default 0 (CacheCreation5mTokens u));
  ir_1h : int64 (default 0 (CacheCreation1hTokens u)); }.

(** The conditions under which the table's rates are the price: the model has a
    row, nothing asks for another tariff, the counts are no negative numbers, the
    prompt is within the row's limit and the cache writes are accounted for. *)
Record priced (u : Usage) (r : rates) (w5m w1h : Z) : Prop := mkPriced {
  pr_row : (Model u, r) ∈ table;
  pr_tier : ServiceTier u = EmptyString ∨ ServiceTier u = standardServiceTier;
  pr_speed : Speed u = EmptyString ∨ Speed u = standardSpeed;
  pr_geo : InferenceGeo u = EmptyString ∨ InferenceGeo u = standardInferenceGeo
           ∨ InferenceGeo u = unavailableInferenceGeo ∧ predatesInferenceGeo r = true;
  pr_nonneg : 0 <= InputTokens u ∧ 0 <= CacheReadInputTokens u ∧ 0 <= CacheCreationInputTokens u ∧ 0 <= OutputTokens u;
  pr_limit : basePromptLimit r > 0 → InputTokens u + CacheReadInputTokens u + CacheCreationInputTokens u <= basePromptLimit r;
  pr_split : w5m = default 0 (CacheCreation5mTokens u) ∧ w1h = default 0 (CacheCreation1hTokens u) ∧
             0 <= w5m ∧ 0 <= w1h ∧ w5m + w1h = CacheCreationInputTokens u;
}.

Lemma lookupRates_spec m r : lookupRates m = Some r ↔ (m, r) ∈ table.
Proof.
  rewrite /lookupRates. split.
  - destruct (List.find _ _) as [[k x]|] eqn:E; [|done]. intros [= <-]. apply find_some in E as [Hin He].
    apply String.eqb_eq in He. simpl in He. subst. by apply list_elem_of_In.
  - rewrite /table. rewrite !elem_of_cons elem_of_nil. intros H. repeat destruct H as [[= -> ->]|H]; done.
Qed.

Lemma table_limits m r : (m, r) ∈ table → 0 <= basePromptLimit r < 2 ^ 62.
Proof. rewrite /table !elem_of_cons elem_of_nil. intros H. repeat destruct H as [[= -> ->]|H]; done. Qed.

Lemma promptWithin_spec limit l : 0 <= limit < 2 ^ 63 → Forall (λ n, 0 <= n) l →
  promptWithin limit l = true ↔ foldr Z.add 0 l <= limit.
Proof.
  intros Hl Hn. revert limit Hl. induction Hn as [|n l Hn Hl0 IH]; intros limit Hl; simpl; [split; [lia|done]|].
  assert (0 <= foldr Z.add 0 l) by (clear -Hl0; induction Hl0; simpl; lia).
  destruct (limit <? n) eqn:E; [split; [done|lia]|].
  assert (Go.wrap64 (limit - n) = limit - n) as ->.
  { rewrite /Go.wrap64. rewrite Z.mod_small; lia. }
  rewrite IH; lia.
Qed.

Lemma wrap_sum a b c : int64 a → int64 b → int64 c → 0 <= a → 0 <= b → 0 <= c → Go.wrap64 (a + b) = c ↔ a + b = c.
Proof.
  rewrite /int64 /Go.wrap64. intros. split; [|intros ->; rewrite Z.mod_small; lia].
  destruct (Z_lt_ge_dec (a + b) (2 ^ 63)); [rewrite Z.mod_small; lia|].
  intros E. rewrite (Z.mod_eq _ (2 ^ 64)) in E; [done|]. lia.
Qed.

Lemma guardN_Some {A} (b : bool) (x : option A) a : (if b then None else x) = Some a ↔ b = false ∧ x = Some a.
Proof. destruct b; naive_solver. Qed.

Lemma writeSplit_spec w5 w1 total a b : int64 (default 0 w5) → int64 (default 0 w1) → int64 total → 0 <= total →
  writeSplit w5 w1 total = Some (a, b) ↔ a = default 0 w5 ∧ b = default 0 w1 ∧ 0 <= a ∧ 0 <= b ∧ a + b = total.
Proof.
  intros H5 H1 Ht H0. rewrite /writeSplit. destruct (bool_decide _ || bool_decide _) eqn:E.
  - rewrite guardN_Some !orb_false_iff !Z.ltb_ge negb_false_iff Z.eqb_eq. split.
    + intros [[[? ?] Hw] [= <- <-]]. split_and!; [done..|by apply wrap_sum].
    + intros (-> & -> & ? & ? & Hs). split; [|done]. split; [done|]. by apply wrap_sum.
  - apply orb_false_iff in E as [->%bool_decide_eq_false%eq_None_not_Some ->%bool_decide_eq_false%eq_None_not_Some].
    rewrite guardN_Some Z.ltb_ge /=. split; [intros [? [= <- <-]]; lia|]. intros (-> & -> & _ & _ & <-). split; [lia|done].
Qed.

(** A record is priced exactly under those conditions, and then its price is the
    sum of its counts times the rates; no 64-bit overflow in the checks makes a
    record of absurd counts look consistent. *)
Theorem Price_exact u c : inRange u →
  Price u = Some c ↔
  ∃ r w5m w1h, priced u r w5m w1h ∧
    c = InputTokens u * input r + CacheReadInputTokens u * cacheRead r + w5m * cacheWrite5m r
        + w1h * cacheWrite1h r + OutputTokens u * output r.
Proof.
  intros Hr. destruct Hr as [R1 R2 R3 R4 R5 R6]. rewrite /Price. destruct (lookupRates (Model u)) as [r|] eqn:El.
  2:{ split; [done|]. intros (r & w5 & w1 & [Hrow _ _ _ _ _ _] & _). apply lookupRates_spec in Hrow. congruence. }
  pose proof (table_limits _ _ (proj1 (lookupRates_spec _ _) El)) as Hlim.
  rewrite !guardN_Some !andb_false_iff !orb_false_iff !negb_false_iff !orb_true_iff !andb_true_iff !String.eqb_eq !Z.ltb_ge.
  split.
  - intros (Ht & Hs & Hg & Hn & Hp & ([w5 w1] & Hc & [= <-])%bind_Some). apply writeSplit_spec in Hc; [|done..|tauto].
    exists r, w5, w1. split; [|done]. apply lookupRates_spec in El. split; try done; [tauto|tauto| ].
    intros ?. destruct Hp as [?|Hp]; [lia|]. apply promptWithin_spec in Hp; [simpl in Hp; lia|lia|]. repeat constructor; tauto.
  - intros (r' & w5 & w1 & [Hrow Ht Hs Hg Hn Hp (-> & -> & A & B & C)] & ->). apply lookupRates_spec in Hrow.
    assert (r' = r) as -> by congruence. split_and!; try tauto.
    + destruct (Z_le_gt_dec (basePromptLimit r) 0); [by left|]. right. apply promptWithin_spec; [lia|repeat constructor; tauto|simpl; lia].
    + apply bind_Some. eexists (_, _). split; [apply writeSplit_spec; [done..|tauto|done]|done].
Qed.

Module Example.
Definition usage : Usage := mkUsage "claude-haiku-5-5" 60000 20000 20000 (Some 20000) None 1000 "standard" EmptyString "global".

Lemma Price_exact_witness : inRange usage ∧ Price usage = Some 9200000 ∧
  ∃ r w5m w1h, priced usage r w5m w1h ∧
    9200000 = InputTokens usage * input r + CacheReadInputTokens usage * cacheRead r + w5m * cacheWrite5m r
        + w1h * cacheWrite1h r + OutputTokens usage * output r.
Proof.
  assert (inRange usage) as H by (split; vm_compute; split; (congruence || reflexivity)).
  assert (Price usage = Some 9200000) as Hp by (vm_compute; reflexivity).
  split; [exact H|]. split; [exact Hp|]. apply (proj1 (Price_exact usage 9200000 H)). exact Hp.
Defined.
(** One token more and the request is in the tier that is not recorded. *)
Example over_limit : Price (mkUsage "claude-haiku-5-5" 60001 20000 20000 (Some 20000) None 1000 "standard" EmptyString "global") = None.
Proof. vm_compute. reflexivity. Qed.
Example USD_exact : USD 250000000 = S754_finite false 4503599627370496 (-54).
Proof. vm_compute. reflexivity. Qed.
End Example.

End AnthropicPrice.
