(* ===== verification/CodexSelect.v ===== *)
(** Selection of the Codex account a new run binds
    ([src/api/internal/codexselect/select.go], [reason.go]).

    The accounts with a known score are ranked by [AutoSelect.Select] through an
    adapter; what this package needs of the ranker is stated as the interface
    [Ranker] and discharged by the lemmas of [AutoSelect]. *)

From S2P Require Import Prelude GoFloat AutoSelect.

Local Open Scope Z_scope.

Module CodexSelect.
Import GoFloat.

Definition stalenessSentinel : duration := Go.Hour.

Record Candidate := mkCandidate {
  AccountKey : uuid;
  AliasID : uuid;
  Structural : bool;
  CapacityExcluded : bool;
  Score : float64;
  ScoreKnown : bool;
  ResetAt : option time;
  WeeklyResetAt : option time;
  ReleaseAt : option time;
  ReleaseKnown : bool;
  InFlight : Z;
}.

Inductive Reason :=
  ReasonNone | ReasonDefault | ReasonPoolEmpty | ReasonAuto | ReasonBestOfPool | ReasonPoolStale
  | ReasonPoolExhausted.

Definition AllReasons : list Reason :=
  [ReasonDefault; ReasonPoolEmpty; ReasonAuto; ReasonBestOfPool; ReasonPoolStale; ReasonPoolExhausted].

Record Outcome := mkOutcome {
  Picked : bool; OutKey : uuid; OutAlias : uuid; OutReason : Reason; OutHeadroom : Z;
}.
Definition noOutcome : Outcome := mkOutcome false Uuid.Nil Uuid.Nil ReasonNone 0.

Inductive error :=
  | PickedNothing (n : nat) | UnexpectedReason (r : AutoSelect.Reason) | UnknownKey
  | Panicked (* the ranker itself *).

(** [bytes.Compare(a[:], b[:]) < 0]. *)
Definition bytesLess (a b : uuid) : bool := bytes_compare (vec_to_list a) (vec_to_list b) <? 0.
Definition bytesEqual (a b : uuid) : bool := bytes_compare (vec_to_list a) (vec_to_list b) =? 0.

Definition releaseLess (a b : Candidate) : bool :=
  let tie :=
    if negb (bytesEqual (AccountKey a) (AccountKey b)) then bytesLess (AccountKey a) (AccountKey b)
    else bytesLess (AliasID a) (AliasID b) in
  match (if ReleaseKnown a then ReleaseAt a else None), (if ReleaseKnown b then ReleaseAt b else None) with
  | Some _, None => true
  | None, Some _ => false
  | Some x, Some y => if negb (Go.equal x y) then Go.before x y else tie
  | None, None => tie
  end.

Section Select.
(** What [int16] makes of a [NaN], which Go leaves to the implementation. *)
Context (nanInt16 : Z).
(** The ranker. *)
Context (rank : list AutoSelect.Candidate → uuid → AutoSelect.Policy → time → option AutoSelect.Outcome).

Definition utilPct (score : float64) : Z :=
  match ceil (sub (ofZ 100) score) with
  | Int u => if u <? 0 then 0 else if 100 <? u then 100 else u
  | PosInf => 100
  | NegInf => 0
  | NotANumber => nanInt16
  end.

(** The row the ranker sees of an account. *)
Definition adapt (now : time) (c : Candidate) : AutoSelect.Candidate :=
  let pct := utilPct (Score c) in
  AutoSelect.mkCandidate (AccountKey c) EmptyString true false true (Some pct) (Some pct)
    (ResetAt c) (ResetAt c) (Some now) (WeeklyResetAt c) (InFlight c).

Record scan := mkScan {
  alias : gmap uuid uuid; known : list AutoSelect.Candidate; lowest : Candidate;
}.

Definition scanStep (now : time) (s : scan) (c : Candidate) : scan :=
  mkScan
    (match alias s !! AccountKey c with
     | Some prev => if bytesLess (AliasID c) prev then <[AccountKey c := AliasID c]> (alias s) else alias s
     | None => <[AccountKey c := AliasID c]> (alias s)
     end)
    (if ScoreKnown c then known s ++ [adapt now c] else known s)
    (if bytesLess (AccountKey c) (AccountKey (lowest s)) then c else lowest s).

Definition selectNormal (c0 : Candidate) (rest : list Candidate) (p : AutoSelect.Policy) (now : time)
    : Outcome + error :=
  let s := foldl (scanStep now) (mkScan ∅ [] c0) (c0 :: rest) in
  if bool_decide (known s = []) then
    inl (mkOutcome true (AccountKey (lowest s)) (default Uuid.Nil (alias s !! AccountKey (lowest s)))
           ReasonPoolStale 0)
  else
  let policy := AutoSelect.mkPolicy (AutoSelect.order p) (AutoSelect.MinHeadroom p)
                  (AutoSelect.HeadroomTiePct p) stalenessSentinel (AutoSelect.InflightPenalty p) in
  match rank (known s) Uuid.Nil policy now with
  | None => inr Panicked
  | Some out =>
    if negb (AutoSelect.Picked out) then inr (PickedNothing (length (known s))) else
    match (match AutoSelect.OutReason out with
           | AutoSelect.ReasonAuto => Some ReasonAuto
           | AutoSelect.ReasonBestOfPool => Some ReasonBestOfPool
           | _ => None
           end) with
    | None => inr (UnexpectedReason (AutoSelect.OutReason out))
    | Some reason =>
      match alias s !! AutoSelect.OutSecretID out with
      | None => inr UnknownKey
      | Some a => inl (mkOutcome true (AutoSelect.OutSecretID out) a reason (AutoSelect.OutHeadroom out))
      end
    end
  end.

Definition usable (c : Candidate) : bool :=
  negb (bool_decide (AccountKey c = Uuid.Nil)) && Structural c.

Definition Select (cands : list Candidate) (p : AutoSelect.Policy) (now : time) : Outcome + error :=
  let normal := filter (λ c, usable c && negb (CapacityExcluded c) = true) cands in
  let exhausted := filter (λ c, usable c && CapacityExcluded c = true) cands in
  match normal with
  | c0 :: rest => selectNormal c0 rest p now
  | [] =>
    match exhausted with
    | best :: rest =>
      let best := keep_best releaseLess best rest in
      inl (mkOutcome true (AccountKey best) (AliasID best) ReasonPoolExhausted 0)
    | [] => inl noOutcome
    end
  end.
End Select.

(** * The interface to the ranker *)

Class Ranker (rank : list AutoSelect.Candidate → uuid → AutoSelect.Policy → time → option AutoSelect.Outcome)
    : Prop := {
  ranker_picks cands exclude p now cd0 :
    cd0 ∈ cands → AutoSelect.measurable exclude p now cd0 = true →
    ∃ o cd, rank cands exclude p now = Some o ∧ AutoSelect.Picked o = true ∧
      cd ∈ cands ∧ AutoSelect.measurable exclude p now cd = true ∧
      AutoSelect.OutSecretID o = AutoSelect.SecretID cd ∧
      AutoSelect.OutHeadroom o = AutoSelect.Headroom (AutoSelect.Classify cd p now) ∧
      (AutoSelect.OutReason o = AutoSelect.ReasonAuto ∨ AutoSelect.OutReason o = AutoSelect.ReasonBestOfPool);
  ranker_perm exclude p now cands cands' :
    NoDup (AutoSelect.SecretID <$> cands) → cands ≡ₚ cands' →
    rank cands exclude p now = rank cands' exclude p now;
}.

#[export] Instance AutoSelect_Ranker : Ranker AutoSelect.Select.
Proof.
  split.
  - intros. by eapply AutoSelect.Select_measurable.
  - intros. by apply AutoSelect.Select_perm.
Qed.

(** * Byte order *)

Lemma bytes_compare_eqlen a b : length a = length b → bytes_compare a b = AutoSelect.compareBytes a b.
Proof.
  revert b. induction a as [|x a IH]; intros [|y b] [=] ; simpl; [done|]. rewrite IH //.
Qed.

Lemma bytesLess_compare a b : bytesLess a b = (AutoSelect.compareUUID a b <? 0).
Proof. rewrite /bytesLess bytes_compare_eqlen // !length_vec_to_list //. Qed.

Lemma bytesEqual_compare a b : bytesEqual a b = (AutoSelect.compareUUID a b =? 0).
Proof. rewrite /bytesEqual bytes_compare_eqlen // !length_vec_to_list //. Qed.

Ltac uuid_order a b d :=
  pose proof (AutoSelect.compareUUID_antisym a b); pose proof (AutoSelect.compareUUID_antisym b d);
  pose proof (AutoSelect.compareUUID_antisym a d); pose proof (AutoSelect.compareUUID_trans a b d);
  pose proof (AutoSelect.compareUUID_trans d b a); pose proof (AutoSelect.compareUUID_trans d a b);
  pose proof (AutoSelect.compareUUID_trans b d a).

Definition keyLess (a b : Candidate) : bool := bytesLess (AccountKey a) (AccountKey b).

#[export] Instance keyLess_strict : StrictWeak keyLess.
Proof.
  split; rewrite /keyLess.
  - intros x y. rewrite !bytesLess_compare.
    pose proof (AutoSelect.compareUUID_antisym (AccountKey x) (AccountKey y)). lia.
  - intros x y z. rewrite !bytesLess_compare.
    uuid_order (AccountKey x) (AccountKey y) (AccountKey z). lia.
Qed.

Lemma bytesLess_tie a b : bytesLess a b = false → bytesLess b a = false → a = b.
Proof.
  rewrite !bytesLess_compare => H1 H2. apply AutoSelect.compareUUID_eq.
  pose proof (AutoSelect.compareUUID_antisym a b). lia.
Qed.

#[export] Instance releaseLess_strict : StrictWeak releaseLess.
Proof.
  split; rewrite /releaseLess /Go.equal /Go.before.
  - intros x y. rewrite !bytesLess_compare !bytesEqual_compare.
    pose proof (AutoSelect.compareUUID_antisym (AccountKey x) (AccountKey y)).
    pose proof (AutoSelect.compareUUID_antisym (AliasID x) (AliasID y)). go_lia.
  - intros x y z. rewrite !bytesLess_compare !bytesEqual_compare.
    uuid_order (AccountKey x) (AccountKey y) (AccountKey z).
    uuid_order (AliasID x) (AliasID y) (AliasID z).
    destruct (if ReleaseKnown x then _ else _), (if ReleaseKnown y then _ else _),
      (if ReleaseKnown z then _ else _); go_lia.
Qed.

(** * What the scan of the normal accounts collects *)

Section Correct.
Context (nanInt16 : Z) (now : time).
Abbreviation step := (scanStep nanInt16 now).
Abbreviation adapt_ := (adapt nanInt16 now).

(** The lowest alias among the rows of an account. *)
Definition lowestAlias (l : list Candidate) (k a : uuid) : Prop :=
  (∃ c, c ∈ l ∧ AccountKey c = k ∧ AliasID c = a) ∧
  ∀ c, c ∈ l → AccountKey c = k → bytesLess (AliasID c) a = false.

Definition aliasOK (l : list Candidate) (m : gmap uuid uuid) : Prop :=
  ∀ k, match m !! k with Some a => lowestAlias l k a | None => ∀ c, c ∈ l → AccountKey c ≠ k end.

Lemma bytesLess_irrefl a : bytesLess a a = false.
Proof. rewrite bytesLess_compare. pose proof (AutoSelect.compareUUID_antisym a a). lia. Qed.

Lemma bytesLess_le_trans a b d : bytesLess a b = false → bytesLess d b = true → bytesLess a d = false.
Proof. rewrite !bytesLess_compare. uuid_order a b d. lia. Qed.

Lemma lowestAlias_new l c k :
  AccountKey c = k → (∀ c', c' ∈ l → AccountKey c' = k → bytesLess (AliasID c') (AliasID c) = false) →
  lowestAlias (l ++ [c]) k (AliasID c).
Proof.
  intros Hk Hle. split; [exists c; set_solver|].
  intros c' [Hc'| ->%list_elem_of_singleton]%elem_of_app Hk'; [by apply Hle|apply bytesLess_irrefl].
Qed.

Lemma lowestAlias_keep l c k a :
  lowestAlias l k a → (AccountKey c = k → bytesLess (AliasID c) a = false) → lowestAlias (l ++ [c]) k a.
Proof.
  intros [(c0 & Hc0 & ? & ?) Hall] Hc. split; [exists c0; set_solver|].
  intros c' [Hc'| ->%list_elem_of_singleton]%elem_of_app Hk'; [by apply Hall|by apply Hc].
Qed.

Lemma aliasOK_step l s c : aliasOK l (alias s) → aliasOK (l ++ [c]) (alias (step s c)).
Proof.
  intros Hok k. simpl. pose proof (Hok k) as Hk. pose proof (Hok (AccountKey c)) as Hc.
  destruct (decide (AccountKey c = k)) as [<-|Hne].
  - destruct (alias s !! AccountKey c) as [prev|] eqn:Hp.
    + destruct (bytesLess (AliasID c) prev) eqn:Hl; [rewrite lookup_insert_eq|rewrite Hp].
      * apply lowestAlias_new; [done|]. intros c' Hc' Hk'.
        eapply bytesLess_le_trans; [|done]. by apply Hc.
      * by apply lowestAlias_keep.
    + rewrite lookup_insert_eq. apply lowestAlias_new; [done|]. intros c' Hc' Hk'. by destruct (Hc c').
  - assert (Hsame : (match alias s !! AccountKey c with
      | Some prev => if bytesLess (AliasID c) prev then <[AccountKey c:=AliasID c]> (alias s) else alias s
      | None => <[AccountKey c:=AliasID c]> (alias s) end) !! k = alias s !! k).
    { repeat case_match; rewrite ?lookup_insert_ne //. }
    rewrite Hsame. destruct (alias s !! k) as [a|]; [by apply lowestAlias_keep|].
    intros c' [Hc'| ->%list_elem_of_singleton]%elem_of_app; [by apply Hk|done].
Qed.

Lemma scan_spec l seen s :
  aliasOK seen (alias s) →
  let s' := foldl step s l in
  aliasOK (seen ++ l) (alias s') ∧
  known s' = known s ++ (adapt_ <$> filter (λ c, ScoreKnown c = true) l) ∧
  lowest s' = keep_best keyLess (lowest s) l.
Proof.
  revert seen s. induction l as [|c l IH]; intros seen s Hok; cbn [foldl].
  { rewrite filter_nil !app_nil_r. done. }
  destruct (IH (seen ++ [c]) (step s c)) as (Ha & Hk & Hl); [by apply aliasOK_step|].
  rewrite -app_assoc in Ha. split_and!; [done| |done].
  rewrite Hk /= filter_cons. destruct (ScoreKnown c) eqn:Hs; simpl; [by rewrite -app_assoc|done].
Qed.

Context (rank : list AutoSelect.Candidate → uuid → AutoSelect.Policy → time → option AutoSelect.Outcome).
Context `{!Ranker rank} (p : AutoSelect.Policy).

Definition normal (c : Candidate) : bool := usable c && negb (CapacityExcluded c).

(** The policy the ranker runs under: everything is fresh. *)
Definition freshPolicy : AutoSelect.Policy :=
  AutoSelect.mkPolicy (AutoSelect.order p) (AutoSelect.MinHeadroom p) (AutoSelect.HeadroomTiePct p)
    stalenessSentinel (AutoSelect.InflightPenalty p).

Lemma adapt_measurable c : AutoSelect.measurable Uuid.Nil freshPolicy now (adapt_ c) = true.
Proof.
  rewrite /AutoSelect.measurable /AutoSelect.in_pool /AutoSelect.excluded /AutoSelect.Classify /=.
  replace (stalenessSentinel <? Go.sub now now) with false; [by case_match|].
  rewrite /Go.sub Z.sub_diag. done.
Qed.

Lemma adapt_headroom c :
  AutoSelect.Headroom (AutoSelect.Classify (adapt_ c) freshPolicy now) = 100 - utilPct nanInt16 (Score c).
Proof.
  rewrite /AutoSelect.Classify /=.
  replace (stalenessSentinel <? Go.sub now now) with false by (by rewrite /Go.sub Z.sub_diag).
  simpl. rewrite /AutoSelect.headroom Z.ltb_irrefl. by case_match.
Qed.

(** What the package promises. *)
Inductive chosen (cands : list Candidate) : Outcome → Prop :=
  | chosen_none : (∀ c, c ∈ cands → usable c = false) → chosen cands noOutcome
  | chosen_ranked c a reason :
      c ∈ cands → normal c = true → ScoreKnown c = true →
      reason = ReasonAuto ∨ reason = ReasonBestOfPool →
      lowestAlias (filter (λ c, normal c = true) cands) (AccountKey c) a →
      chosen cands (mkOutcome true (AccountKey c) a reason (100 - utilPct nanInt16 (Score c)))
  | chosen_stale c a :
      c ∈ cands → normal c = true →
      (∀ c', c' ∈ cands → normal c' = true → ScoreKnown c' = false ∧ keyLess c' c = false) →
      lowestAlias (filter (λ c, normal c = true) cands) (AccountKey c) a →
      chosen cands (mkOutcome true (AccountKey c) a ReasonPoolStale 0)
  | chosen_exhausted c :
      c ∈ cands → usable c = true →
      (∀ c', c' ∈ cands → usable c' = true → CapacityExcluded c' = true ∧ releaseLess c' c = false) →
      chosen cands (mkOutcome true (AccountKey c) (AliasID c) ReasonPoolExhausted 0).

Lemma elem_normal (cands : list Candidate) c : c ∈ filter (λ c, normal c = true) cands ↔ c ∈ cands ∧ normal c = true.
Proof. rewrite list_elem_of_filter. tauto. Qed.

Lemma aliasOK_elem l m c : aliasOK l m → c ∈ l → ∃ a, m !! AccountKey c = Some a ∧ lowestAlias l (AccountKey c) a.
Proof.
  intros Hok Hc. specialize (Hok (AccountKey c)). destruct (m !! AccountKey c) as [a|]; [by exists a|].
  by destruct (Hok c).
Qed.

Lemma selectNormal_chosen cands c0 rest :
  filter (λ c, normal c = true) cands = c0 :: rest →
  ∃ o, selectNormal nanInt16 rank c0 rest p now = inl o ∧ chosen cands o.
Proof.
  intros Hn. rewrite /selectNormal. set (s := foldl step _ _).
  destruct (scan_spec (c0 :: rest) [] (mkScan ∅ [] c0)) as (Ha & Hk & Hl).
  { intros k. rewrite lookup_empty. intros c Hc. by apply not_elem_of_nil in Hc. }
  fold s in Ha, Hk, Hl. change ([] ++ c0 :: rest) with (c0 :: rest) in Ha. rewrite -Hn in Ha.
  case_bool_decide as Hnil.
  - pose proof (keep_best_elem keyLess c0 (c0 :: rest)) as He. simpl in Hl. rewrite -Hl in He.
    assert (Hin : lowest s ∈ filter (λ c, normal c = true) cands)
      by (rewrite Hn; rewrite !elem_of_cons in He; rewrite elem_of_cons; tauto).
    destruct (aliasOK_elem _ _ _ Ha Hin) as (a & -> & Hlow). apply elem_normal in Hin as [Hin Hnm].
    eexists; split; [done|]. apply chosen_stale; [done..| |done]. intros c' Hc' Hn'.
    assert (Hc'' : c' ∈ c0 :: rest) by (rewrite -Hn; by apply elem_normal). split.
    + destruct (ScoreKnown c') eqn:E; [|done].
      assert (Hx : adapt_ c' ∈ known s); [|rewrite Hnil in Hx; by apply not_elem_of_nil in Hx].
      rewrite Hk. apply list_elem_of_fmap_2. by apply list_elem_of_filter.
    + rewrite Hl. apply (keep_best_least keyLess c0 (c0 :: rest)), elem_of_cons. by right.
  - destruct (known s) as [|k0 ks] eqn:Hks; [done|]. rewrite -Hks in Hk |- *.
    assert (Hk0 : ∀ k, k ∈ known s → ∃ c, k = adapt_ c ∧ c ∈ c0 :: rest ∧ ScoreKnown c = true).
    { intros k. rewrite Hk. intros (c & -> & [? ?]%list_elem_of_filter)%list_elem_of_fmap. by exists c. }
    destruct (Hk0 k0) as (cc & -> & _ & _); [rewrite Hks; set_solver|].
    destruct (ranker_picks (known s) Uuid.Nil freshPolicy now (adapt_ cc))
      as (o & cd & Hr & Hp & Hcd & _ & Hid & Hh & Hre).
    { rewrite Hks. set_solver. } { apply adapt_measurable. }
    destruct (Hk0 cd Hcd) as (c & -> & Hc & Hsc). rewrite -Hn in Hc.
    destruct (aliasOK_elem _ _ _ Ha Hc) as (a & Hal & Hlow). apply elem_normal in Hc as [Hc Hnm].
    rewrite /freshPolicy in Hr. rewrite Hr Hp /= Hid /= Hal Hh adapt_headroom.
    destruct Hre as [-> | ->]; (eexists; split; [done|]); apply chosen_ranked; auto.
Qed.

Lemma Select_chosen cands :
  ∃ o, Select nanInt16 rank cands p now = inl o ∧ chosen cands o.
Proof.
  rewrite /Select -/(normal). destruct (filter (λ c, usable c && negb (CapacityExcluded c) = true) cands)
    as [|c0 rest] eqn:Hn; [|by apply selectNormal_chosen].
  assert (Hno : ∀ c, c ∈ cands → usable c = true → CapacityExcluded c = true).
  { intros c Hc Hu. destruct (CapacityExcluded c) eqn:E; [done|].
    assert (Hx : c ∈ @nil Candidate); [|by apply not_elem_of_nil in Hx].
    rewrite -Hn. apply list_elem_of_filter. by rewrite Hu E. }
  destruct (filter (λ c, usable c && CapacityExcluded c = true) cands) as [|b rest] eqn:Hx.
  - eexists; split; [done|]. apply chosen_none. intros c Hc. destruct (usable c) eqn:Hu; [|done].
    assert (Hy : c ∈ @nil Candidate); [|by apply not_elem_of_nil in Hy].
    rewrite -Hx. apply list_elem_of_filter. by rewrite Hu (Hno c Hc Hu).
  - assert (Hset : ∀ c, c ∈ b :: rest ↔ c ∈ cands ∧ usable c = true).
    { intros c. rewrite -Hx list_elem_of_filter andb_true_iff. naive_solver. }
    eexists; split; [done|]. pose proof (keep_best_elem releaseLess b rest) as [Hc Hu]%Hset.
    apply chosen_exhausted; [done..|]. intros c' Hc' Hu'. split; [by apply Hno|].
    apply (keep_best_least releaseLess b rest). by apply Hset.
Qed.

(** Codex account selection is total and keeps its contract: it never fails
    on the ranker; a normal account is preferred over an exhausted one, which is
    preferred over none; the pick among scored accounts is the ranker's, with the
    headroom of its score; without a score the lowest key; among exhausted ones
    the earliest known release; and the alias bound is the lowest of the account. *)
Theorem codex_select_correct cands :
  ∃ o, Select nanInt16 rank cands p now = inl o ∧ chosen cands o.
Proof. exact: Select_chosen. Qed.

Lemma NoDup_filter_key (P : Candidate → Prop) `{!∀ c, Decision (P c)} cands :
  NoDup (AccountKey <$> cands) → NoDup (AccountKey <$> filter P cands).
Proof.
  induction cands as [|c l IH]; simpl; [done|]. rewrite NoDup_cons. intros [Hc Hl].
  rewrite filter_cons. case_decide; [|by apply IH]. simpl. apply NoDup_cons. split; [|by apply IH].
  intros (c' & Hk & [_ Hin]%list_elem_of_filter)%list_elem_of_fmap. apply Hc. rewrite Hk.
  by apply list_elem_of_fmap_2.
Qed.

(** With distinct keys the alias map is determined by the set of rows. *)
Lemma aliasOK_unique l l' m m' :
  NoDup (AccountKey <$> l) → l ≡ₚ l' → aliasOK l m → aliasOK l' m' → m = m'.
Proof.
  intros Hnd Hp H1 H2. apply map_eq. intros k. specialize (H1 k). specialize (H2 k).
  assert (Hin : ∀ c, c ∈ l ↔ c ∈ l') by (intros c; by rewrite Hp).
  destruct (m !! k) as [a|], (m' !! k) as [a'|]; [|..|done].
  - destruct H1 as [(c & Hc & Hk & <-) _], H2 as [(c' & Hc' & Hk' & <-) _]. apply Hin in Hc'.
    by rewrite (NoDup_fmap_elem _ _ _ _ Hnd Hc Hc'); [congruence|].
  - destruct H1 as [(c & Hc & Hk & _) _]. apply Hin in Hc. by destruct (H2 c Hc).
  - destruct H2 as [(c & Hc & Hk & _) _]. apply Hin in Hc. by destruct (H1 c Hc).
Qed.

Lemma selectNormal_perm c0 rest c0' rest' :
  NoDup (AccountKey <$> c0 :: rest) → c0 :: rest ≡ₚ c0' :: rest' →
  selectNormal nanInt16 rank c0 rest p now = selectNormal nanInt16 rank c0' rest' p now.
Proof.
  intros Hnd Hp. rewrite /selectNormal.
  destruct (scan_spec (c0 :: rest) [] (mkScan ∅ [] c0)) as (Ha & Hk & Hl).
  { intros k. rewrite lookup_empty. intros c Hc. by apply not_elem_of_nil in Hc. }
  destruct (scan_spec (c0' :: rest') [] (mkScan ∅ [] c0')) as (Ha' & Hk' & Hl').
  { intros k. rewrite lookup_empty. intros c Hc. by apply not_elem_of_nil in Hc. }
  set (s := foldl step _ (c0 :: rest)) in *. set (s' := foldl step _ (c0' :: rest')) in *.
  assert (Hal : alias s = alias s') by (by eapply (aliasOK_unique (c0 :: rest))).
  assert (Hkn : known s ≡ₚ known s') by (rewrite Hk Hk'; by rewrite Hp).
  assert (Hlow : lowest s = lowest s').
  { rewrite Hl Hl'. simpl. apply keep_best_set_unique; [apply _| |].
    - intros x y Hx Hy Hlx Hly. assert (Hd : ∀ z, z ∈ c0 :: c0 :: rest → z ∈ c0 :: rest) by set_solver.
      eapply (NoDup_fmap_elem AccountKey (c0 :: rest)); [done|by apply Hd..|].
      by apply bytesLess_tie; [apply Hly|apply Hlx].
    - intros x. assert (Hx : x ∈ c0 :: rest ↔ x ∈ c0' :: rest') by by rewrite Hp. set_solver. }
  assert (Hrank : rank (known s) Uuid.Nil freshPolicy now = rank (known s') Uuid.Nil freshPolicy now).
  { apply ranker_perm; [|done]. rewrite Hk -list_fmap_compose.
    apply (NoDup_filter_key (λ c, ScoreKnown c = true) _ Hnd). }
  rewrite /freshPolicy in Hrank. rewrite Hrank Hal Hlow.
  assert (Hnil : bool_decide (known s = []) = bool_decide (known s' = [])).
  { apply bool_decide_ext. split; intros E; rewrite E in Hkn;
      [by apply Permutation_nil_l in Hkn|by apply Permutation_nil_r in Hkn]. }
  rewrite Hnil. by rewrite (Permutation_length Hkn).
Qed.

(** The pick does not depend on the order of the accounts: any permutation
    of candidates with distinct account keys gives the same outcome. *)
Theorem codex_select_order_independent cands cands' :
  NoDup (AccountKey <$> cands) → cands ≡ₚ cands' →
  Select nanInt16 rank cands p now = Select nanInt16 rank cands' p now.
Proof.
  intros Hnd Hp. rewrite /Select.
  assert (Hn : filter (λ c, usable c && negb (CapacityExcluded c) = true) cands ≡ₚ
               filter (λ c, usable c && negb (CapacityExcluded c) = true) cands') by by rewrite Hp.
  assert (Hx : filter (λ c, usable c && CapacityExcluded c = true) cands ≡ₚ
               filter (λ c, usable c && CapacityExcluded c = true) cands') by by rewrite Hp.
  pose proof (NoDup_filter_key (λ c, usable c && negb (CapacityExcluded c) = true) _ Hnd) as Hnn.
  pose proof (NoDup_filter_key (λ c, usable c && CapacityExcluded c = true) _ Hnd) as Hnx.
  destruct (filter _ cands) as [|c0 rest], (filter _ cands') as [|c0' rest'];
    [|by apply Permutation_nil_cons in Hn|by symmetry in Hn; apply Permutation_nil_cons in Hn|
     by apply selectNormal_perm].
  destruct (filter _ cands) as [|b l], (filter _ cands') as [|b' l'];
    [done|by apply Permutation_nil_cons in Hx|by symmetry in Hx; apply Permutation_nil_cons in Hx|].
  replace (keep_best releaseLess b' l') with (keep_best releaseLess b l); [done|].
  apply keep_best_set_unique; [apply _| |intros x; by rewrite Hx].
  intros x y Hx' Hy Hlx Hly. eapply (NoDup_fmap_elem AccountKey (b :: l)); [done..|].
  pose proof (Hlx y Hy) as H1. pose proof (Hly x Hx') as H2. revert H1 H2.
  rewrite /releaseLess /Go.equal /Go.before !bytesLess_compare !bytesEqual_compare.
  pose proof (AutoSelect.compareUUID_antisym (AccountKey x) (AccountKey y)).
  intros H1 H2. apply AutoSelect.compareUUID_eq.
  destruct (if ReleaseKnown x then _ else _), (if ReleaseKnown y then _ else _);
    go_lia.
Qed.
End Correct.

Definition exampleCandidate (n score inFlight : Z) : Candidate :=
  mkCandidate (Uuid.mk n) (Uuid.mk (100 + n)) true false (ofZ score) true None None None false inFlight.
Definition examplePolicy : AutoSelect.Policy := AutoSelect.mkPolicy AutoSelect.OrderHeadroomFirst 10 5 0 5.

Lemma codex_select_correct_witness :
  ∃ o, Select 0 AutoSelect.Select [exampleCandidate 1 40 0; exampleCandidate 2 80 0] examplePolicy 0 = inl o
    ∧ OutKey o = Uuid.mk 2.
Proof.
  destruct (codex_select_correct 0 0 AutoSelect.Select examplePolicy
    [exampleCandidate 1 40 0; exampleCandidate 2 80 0]) as (o & Ho & _).
  exists o. split; [exact Ho|]. vm_compute in Ho. by injection Ho as <-.
Defined.

Lemma codex_select_order_independent_witness :
  Select 0 AutoSelect.Select [exampleCandidate 1 40 0; exampleCandidate 2 80 0] examplePolicy 0 =
  Select 0 AutoSelect.Select [exampleCandidate 2 80 0; exampleCandidate 1 40 0] examplePolicy 0.
Proof.
  apply codex_select_order_independent; [apply _| |apply perm_swap].
  apply (bool_decide_unpack _). vm_compute. exact I.
Defined.

(** The most headroom wins, whatever staleness the policy names. *)
Example codex_select_headroom :
  Select 0 AutoSelect.Select [exampleCandidate 1 40 0; exampleCandidate 2 80 0] examplePolicy 0 =
  inl (mkOutcome true (Uuid.mk 2) (Uuid.mk 102) ReasonAuto 80).
Proof. vm_compute. reflexivity. Qed.

(** Two rows of one account tie on the penalised rank and the key: the reported
    headroom is the first row's. *)
Lemma codex_select_duplicate_key :
  Select 0 AutoSelect.Select [exampleCandidate 1 80 0; exampleCandidate 1 85 1] examplePolicy 0 ≠
  Select 0 AutoSelect.Select [exampleCandidate 1 85 1; exampleCandidate 1 80 0] examplePolicy 0.
Proof. vm_compute. discriminate. Qed.

End CodexSelect.
