(* ===== verification/UsageReserve.v ===== *)
(** The evaluation core of the weekly usage reserve
    ([src/api/internal/usagereserve/usagereserve.go], the whole package, with
    the wire types of [src/api/internal/apitypes/codex_ratelimit.go]).

    Given the owner's threshold and the latest 7-day reading of a credential,
    the evaluators say whether a run may spend it.  The clock is an argument.
    A used percent is a [float64]; the theorems read it as the exact number it
    stands for, in units of [2^-1074] ([GoFloat.scaled]). *)

From Stdlib Require Import SpecFloat.
From S2P Require Import Prelude GoText GoFloat.

Local Open Scope Z_scope.

Module UsageReserve.
Import GoFloat.

(** * Data *)
Record WindowDTO := mkWindow {
  UsedPercent : option float64; LimitWindowSeconds : option Z; ResetAfterSeconds : option Z; ResetAt : option Z;
}.
Record BucketDTO := mkBucket {
  ID : string; DisplayName : string; Allowed : option bool; LimitReached : option bool;
  Primary : option WindowDTO; Secondary : option WindowDTO;
}.

Definition WeeklyWindowSeconds : Z := 604800.
Definition ResetEpochMoveMargin : duration := Go.Hour.
Definition PctResetFloor : Z := 5.
Definition PctResetCeil : Z := 1.
Definition staleFactor : Z := 3.
Definition ReasonPrefix : string := "weekly usage reserve: ".
Definition UnknownReason : string := ReasonPrefix +:+ "weekly usage unknown".
Definition HeldReason (pct threshold : Z) : string :=
  ReasonPrefix +:+ GoText.itoa pct +:+ "% >= " +:+ GoText.itoa threshold +:+ "%".
(** [codexauth.CodexMainBucketID]. *)
Definition CodexMainBucketID : string := "codex".

Inductive State := OK | Held | Unknown.
#[export] Instance State_eq_dec : EqDecision State.
Proof. solve_decision. Defined.

Record WeeklyWindow := mkWeekly { wResetsAt : option time; wPct : float64 }.

Record Verdict := mkVerdict {
  vState : State; Pct : Z; Threshold : Z; ResetsAt : option time; Fresh : bool; Reason : string;
  Weekly : list WeeklyWindow;
}.
Definition plain (s : State) (reason : string) : Verdict := mkVerdict s 0 0 None false reason [].
Definition Exempt : Verdict := plain OK EmptyString.
Definition unknown : Verdict := plain Unknown UnknownReason.

(** * Freshness *)
Definition Stale (syncedAt : time) (valid : bool) (interval : duration) (now : time) : bool :=
  if (interval <=? 0) || negb valid then true
  else Go.wrap64 (staleFactor * interval) <? Go.sub now syncedAt.

Definition PreReset (resetsAt : option time) (syncedAt now : time) : bool :=
  match resetsAt with
  | None => false
  | Some r => negb (Go.after r now) && Go.before syncedAt r
  end.

Record ClaudeReading := mkClaude {
  Present : bool; SevenDayPct : option Z; SevenDayResetsAt : option time; SyncedAt : option time;
}.
Record CodexReading := mkCodex { cPresent : bool; Buckets : list BucketDTO; LastSuccessAt : option time }.

Definition clampPercent (p : float64) : float64 := fmin p (ofZ 100).

Definition validReset (reset : Z) : bool := (0 <? reset) && (reset <=? 253402300799).

Definition CodexWindowReset (w : WindowDTO) (readAt : time) : option time :=
  let relative :=
    match ResetAfterSeconds w with
    | Some n => if 0 <=? n then Some (Go.add readAt (Go.wrap64 (n * Go.Second))) else None
    | None => None
    end in
  match ResetAt w with
  | Some r => if validReset r then Some (r * Go.Second) else relative
  | None => relative
  end.

(** A percent that is missing, not finite or negative steers nothing. *)
Definition usable (w : WindowDTO) : option float64 :=
  match UsedPercent w with
  | Some p => if isNaN p || isInf p || ltb p (ofZ 0) then None else Some p
  | None => None
  end.

Definition isWeekly (w : WindowDTO) : bool :=
  match LimitWindowSeconds w with Some n => n =? WeeklyWindowSeconds | None => false end.

Section Evaluate.
(** What [int] makes of a float outside its range, which Go leaves open. *)
Context (undefInt : Z).

Definition intOf (i : integral) : Z :=
  match i with
  | Int z => if (- 2 ^ 63 <=? z) && (z <? 2 ^ 63) then z else undefInt
  | _ => undefInt
  end.

Definition decide (threshold : Z) (used : float64) (resetsAt : option time) : Verdict :=
  let pct := intOf (floor used) in
  if leb (ofZ threshold) used
  then mkVerdict Held pct threshold resetsAt true (HeldReason pct threshold) []
  else mkVerdict OK pct threshold resetsAt true EmptyString [].

Definition EvaluateClaude (threshold : option Z) (r : ClaudeReading) (interval : duration) (now : time) : Verdict :=
  match threshold with
  | None => plain OK EmptyString
  | Some t =>
    if negb (Present r) then unknown else
    match SevenDayPct r, SyncedAt r with
    | Some pct, Some synced =>
      if Stale synced true interval now || PreReset (SevenDayResetsAt r) synced now then unknown
      else decide t (ofZ pct) (SevenDayResetsAt r)
    | _, _ => unknown
    end
  end.

(** The windows of a reading in the order they are visited. *)
Definition windowsOf (b : BucketDTO) : list WindowDTO := option_list (Primary b) ++ option_list (Secondary b).

(** The loop over the windows: the highest so far with its percent, and the
    weekly windows seen; [None] is the early return on an unusable percent. *)
Fixpoint scanWeekly (readAt : time) (ws : list WindowDTO) (best : option (WindowDTO * float64))
    (weekly : list WeeklyWindow) : option (option (WindowDTO * float64) * list WeeklyWindow) :=
  match ws with
  | [] => Some (best, weekly)
  | w :: ws' =>
    if negb (isWeekly w) then scanWeekly readAt ws' best weekly else
    match usable w with
    | None => None
    | Some p =>
      let weekly' := weekly ++ [mkWeekly (CodexWindowReset w readAt) (clampPercent p)] in
      let best' :=
        match best with
        | None => Some (w, p)
        | Some (_, pb) => if ltb (clampPercent pb) (clampPercent p) then Some (w, p) else best
        end in
      scanWeekly readAt ws' best' weekly'
    end
  end.

Definition withWeekly (v : Verdict) (ws : list WeeklyWindow) : Verdict :=
  mkVerdict (vState v) (Pct v) (Threshold v) (ResetsAt v) (Fresh v) (Reason v) ws.

Definition EvaluateCodex (threshold : option Z) (r : CodexReading) (interval : duration) (now : time) : Verdict :=
  match threshold with
  | None => plain OK EmptyString
  | Some t =>
    if negb (cPresent r) then unknown else
    match LastSuccessAt r with
    | None => unknown
    | Some readAt =>
      if Stale readAt true interval now then unknown else
      match scanWeekly readAt (Buckets r ≫= windowsOf) None [] with
      | None | Some (None, _) => unknown
      | Some (Some (w, p), weekly) =>
        let resetsAt := CodexWindowReset w readAt in
        if PreReset resetsAt readAt now then unknown
        else withWeekly (decide t (clampPercent p) resetsAt) weekly
      end
    end
  end.
End Evaluate.

(** * Resets *)
Definition soonestReset (readAt now : time) (soonest : option time) (w : WindowDTO) : option time :=
  if negb (isWeekly w) then soonest else
  match CodexWindowReset w readAt with
  | None => soonest
  | Some reset =>
    if negb (Go.after reset now) then soonest else
    match soonest with
    | None => Some reset
    | Some s => if Go.before reset s then Some reset else soonest
    end
  end.

Fixpoint CodexMainWeeklyReset (buckets : list BucketDTO) (readAt now : time) : option time :=
  match buckets with
  | [] => None
  | b :: bs =>
    if negb (ID b =?s CodexMainBucketID)%go then CodexMainWeeklyReset bs readAt now
    else foldl (soonestReset readAt now) None (windowsOf b)
  end.

Definition ClaudeResetObserved (anchor : time) (priorPct : option Z) (freshResetsAt : option time) (freshPct : Z) : bool :=
  if Go.isZero anchor then false else
  match freshResetsAt with
  | None => false
  | Some fresh =>
    Go.after fresh (Go.add anchor ResetEpochMoveMargin) ||
    (Go.equal fresh anchor && match priorPct with Some p => PctResetFloor <=? p | None => false end
     && (freshPct <=? PctResetCeil))
  end.

Definition validPercent (pct : option float64) : bool :=
  match pct with
  | Some p => negb (isNaN p) && negb (isInf p) && leb (ofZ 0) p && leb p (ofZ 100)
  | None => false
  end.

Definition CodexResetObserved (oldReset freshReset : Z) (oldPct freshPct : option float64) : bool :=
  let forward := Go.wrap64 (oldReset + ResetEpochMoveMargin / Go.Second) <? freshReset in
  let cleared := (freshReset =? oldReset) && validPercent oldPct && validPercent freshPct &&
    match oldPct, freshPct with
    | Some o, Some f => leb (ofZ PctResetFloor) o && leb f (ofZ PctResetCeil)
    | _, _ => false
    end in
  forward || cleared.

(** Moved, matched and whether every match shows the reset. *)
Definition overrideStep (anchor : time) (priorPct : option float64) (s : bool * bool * bool) (w : WeeklyWindow)
    : bool * bool * bool :=
  let '(moved, matched, allReset) := s in
  match wResetsAt w with
  | None => s
  | Some r =>
    let d := Go.sub r anchor in
    if (- ResetEpochMoveMargin <=? d) && (d <=? ResetEpochMoveMargin) then
      (moved, true, CodexResetObserved (Go.unix anchor) (Go.unix r) priorPct (Some (wPct w)) && allReset)
    else if ResetEpochMoveMargin <? d then (true, matched, allReset) else s
  end.

Definition CodexOverrideResetObserved (anchor : time) (priorPct : option float64) (weekly : list WeeklyWindow) : bool :=
  let '(moved, matched, allReset) := foldl (overrideStep anchor priorPct) (false, false, true) weekly in
  if matched then allReset else moved.

Inductive MeterStatus :=
  CodexMeterPending | CodexMeterNoReading | CodexMeterFresh | CodexMeterStale | CodexMeterVaultLocked
  | CodexMeterCredentialActionRequired | CodexMeterPollingDisabled.
#[export] Instance MeterStatus_eq_dec : EqDecision MeterStatus.
Proof. solve_decision. Defined.

Definition CodexMeterStatus (interval : duration) (vaultLocked reauthRequired : bool)
    (lastSuccessAt lastAttemptAt : option time) (now : time) : MeterStatus :=
  if interval <=? 0 then CodexMeterPollingDisabled else
  if vaultLocked then CodexMeterVaultLocked else
  if reauthRequired then CodexMeterCredentialActionRequired else
  match lastSuccessAt with
  | Some t => if negb (Stale t true interval now) then CodexMeterFresh else CodexMeterStale
  | None => if lastAttemptAt then CodexMeterNoReading else CodexMeterPending
  end.

(** * The evidence of a reading

    What a reading says, without the loop: the highest used amount over its
    weekly windows, in units of [2^-1074] and cut at 100 percent. *)
Definition wfWindow (w : WindowDTO) : Prop := ∀ p, UsedPercent w = Some p → wf p.
Definition int16 (z : Z) : Prop := - 2 ^ 15 <= z < 2 ^ 15.

Definition used (w : WindowDTO) : Z :=
  match usable w with Some p => Z.min (scaled p) (100 * scale) | None => 0 end.
Definition peak (ws : list WindowDTO) : Z := foldr (λ w, Z.max (used w)) 0 ws.
Definition top (ws : list WindowDTO) : option WindowDTO := List.find (λ w, used w =? peak ws) ws.
Definition weeklies (r : CodexReading) : list WindowDTO := List.filter isWeekly (Buckets r ≫= windowsOf).
Definition readable (w : WindowDTO) : bool := match usable w with Some _ => true | None => false end.
Definition percent (w : WindowDTO) : float64 := default (ofZ 0) (usable w).
Definition weeklyOf (readAt : time) (w : WindowDTO) : WeeklyWindow :=
  mkWeekly (CodexWindowReset w readAt) (clampPercent (percent w)).

Definition codexEvidence (r : CodexReading) (interval : duration) (now : time) : option (Z * option time) :=
  match LastSuccessAt r, top (weeklies r) with
  | Some readAt, Some w =>
    if cPresent r && negb (Stale readAt true interval now) && forallb readable (weeklies r)
       && negb (PreReset (CodexWindowReset w readAt) readAt now)
    then Some (peak (weeklies r), CodexWindowReset w readAt) else None
  | _, _ => None
  end.

Definition claudeEvidence (r : ClaudeReading) (interval : duration) (now : time) : option (Z * option time) :=
  match SevenDayPct r, SyncedAt r with
  | Some pct, Some synced =>
    if Present r && negb (Stale synced true interval now) && negb (PreReset (SevenDayResetsAt r) synced now)
    then Some (pct * scale, SevenDayResetsAt r) else None
  | _, _ => None
  end.

(** What a verdict has to say of the evidence. *)
Definition decides (t : Z) (ev : option (Z * option time)) (v : Verdict) : Prop :=
  match ev with
  | None => v = unknown
  | Some (u, reset) =>
    Fresh v = true ∧ ResetsAt v = reset ∧ Threshold v = t ∧ Pct v = u / scale ∧
    ((vState v = Held ∧ t * scale <= u ∧ t <= Pct v ∧ Reason v = HeldReason (Pct v) t) ∨
     (vState v = OK ∧ u < t * scale ∧ Pct v < t ∧ Reason v = EmptyString))
  end.

Lemma scale_pos : 0 < scale.
Proof. by apply Z.pow_pos_nonneg. Qed.

Lemma usable_Some w p : wfWindow w → usable w = Some p → wf p ∧ finite p = true ∧ 0 <= scaled p.
Proof.
  rewrite /usable => Hw. case E: (UsedPercent w) => [q|//]. have Hq := Hw q E.
  case En: (isNaN q); case Ei: (isInf q) => //=. have Hf : finite q = true by rewrite /finite En Ei.
  have [H0 [F0 S0]] := ofZ_exact 0 eq_refl. rewrite ltb_scaled // S0.
  case: Z.ltb_spec => // ? [<-]. done.
Qed.

Lemma clamp_spec p : wf p → finite p = true →
  wf (clampPercent p) ∧ finite (clampPercent p) = true ∧ scaled (clampPercent p) = Z.min (scaled p) (100 * scale).
Proof.
  move=> Hp Fp. have [Hc [Fc Sc]] := ofZ_exact 100 eq_refl. rewrite -Sc. exact: fmin_spec.
Qed.

Lemma clamp_used w p : wfWindow w → usable w = Some p →
  wf (clampPercent p) ∧ finite (clampPercent p) = true ∧ scaled (clampPercent p) = used w ∧ 0 <= used w <= 100 * scale.
Proof.
  move=> Hw E. have [Hp [Fp Sp]] := usable_Some w p Hw E. have [? [? ->]] := clamp_spec p Hp Fp.
  rewrite /used E. have ? := scale_pos. split_and!; [done|done|done|lia|lia].
Qed.

Lemma peak_nonneg ws : 0 <= peak ws.
Proof. induction ws as [|w ws IH]; simpl; lia. Qed.

(** The first window with the highest used amount, [best] first. *)
Definition topFrom (best : option WindowDTO) (ws : list WindowDTO) : option WindowDTO :=
  match best with Some b => if used b <? peak ws then top ws else best | None => top ws end.
Definition better (best : option WindowDTO) (w : WindowDTO) : option WindowDTO :=
  match best with Some b => if used b <? used w then Some w else best | None => Some w end.

Lemma topFrom_step best w ws : topFrom (better best w) ws = topFrom best (w :: ws).
Proof.
  have Htop : topFrom (Some w) ws = top (w :: ws).
  { rewrite /topFrom [in RHS]/top /=. case: Z.ltb_spec => ?.
    - have -> : (used w =? Z.max (used w) (peak ws)) = false by lia.
      by have -> : Z.max (used w) (peak ws) = peak ws by lia.
    - by have -> : (used w =? Z.max (used w) (peak ws)) = true by lia. }
  case: best => [b|]; last exact: Htop.
  rewrite /topFrom -Htop /better /=. case: (Z.ltb_spec (used b) (used w)) => ?.
  - have -> : (used b <? Z.max (used w) (peak ws)) = true by lia. done.
  - case: (Z.ltb_spec (used b) (peak ws)) => ?.
    + have -> : (used b <? Z.max (used w) (peak ws)) = true by lia. have -> : (used w <? peak ws) = true by lia. done.
    + have -> : (used b <? Z.max (used w) (peak ws)) = false by lia. done.
Qed.

(** What a loop compares: the clamped percents of readable windows. *)
Lemma ltb_used b w : wfWindow b → wfWindow w → readable b = true → readable w = true →
  ltb (clampPercent (percent b)) (clampPercent (percent w)) = (used b <? used w).
Proof.
  rewrite /readable /percent. case Eb: (usable b) => [pb|//]. case Ew: (usable w) => [p|//] Hb Hw _ _ /=.
  have [? [? [<- _]]] := clamp_used b pb Hb Eb. have [? [? [<- _]]] := clamp_used w p Hw Ew. exact: ltb_scaled.
Qed.

Definition sound (best : option WindowDTO) : Prop := ∀ w, best = Some w → wfWindow w ∧ readable w = true.
Lemma sound_better best w : sound best → wfWindow w → readable w = true → sound (better best w).
Proof. move=> Hs Hw Hr w'. rewrite /better. case: best Hs => [b|] Hs; last by case=> <-. case: (_ <? _) => [[<-] //|]. exact: Hs. Qed.

Lemma topFrom_nil best : sound best → topFrom best [] = best.
Proof.
  case: best => [b|//] /(_ _ eq_refl) [Hw]. rewrite /readable. case E: (usable b) => [p|//] _.
  have [_ [_ [_ ?]]] := clamp_used b p Hw E. rewrite /topFrom. case: Z.ltb_spec => // Hlt. rewrite /= in Hlt. lia.
Qed.

Definition withPercent (w : WindowDTO) : WindowDTO * float64 := (w, percent w).

Lemma scanWeekly_spec readAt ws best weekly : Forall wfWindow ws → sound best →
  scanWeekly readAt ws (withPercent <$> best) weekly =
    if negb (forallb readable (List.filter isWeekly ws)) then None else
    Some (withPercent <$> topFrom best (List.filter isWeekly ws), weekly ++ map (weeklyOf readAt) (List.filter isWeekly ws)).
Proof.
  move=> Hws. elim: Hws best weekly => [|w {}ws Hw _ IH] best weekly Hs; first by rewrite /= topFrom_nil // app_nil_r.
  rewrite /= . case: (isWeekly w) => /=; last by apply IH.
  case E: (usable w) => [p|]; last by rewrite /readable E.
  have Hr : readable w = true by rewrite /readable E. have Ep : percent w = p by rewrite /percent E.
  have -> : match withPercent <$> best with
            | Some (_, pb) => if ltb (clampPercent pb) (clampPercent p) then Some (w, p) else withPercent <$> best
            | None => Some (w, p)
            end = withPercent <$> better best w.
  { case: best Hs => [b|] Hs /=; last by rewrite /withPercent Ep.
    have [Hb Hrb] := Hs _ eq_refl. rewrite -Ep ltb_used //. by case: (_ <? _); rewrite /withPercent. }
  rewrite Hr IH; [exact: sound_better|]. rewrite topFrom_step. case: (forallb _ _) => //=.
  by rewrite -app_assoc /= /weeklyOf Ep.
Qed.

Lemma intOf_small undef z : - 2 ^ 63 <= z < 2 ^ 63 → intOf undef (Int z) = z.
Proof. rewrite /intOf => ?. by have -> : (- 2 ^ 63 <=? z) && (z <? 2 ^ 63) = true by lia. Qed.

Lemma decide_decides undef t x reset ws : int16 t → wf x → finite x = true →
  - 2 ^ 15 * scale <= scaled x < 2 ^ 15 * scale →
  decides t (Some (scaled x, reset)) (withWeekly (decide undef t x reset) ws).
Proof.
  rewrite /int16 => Ht Hx Fx Hs. have Hu := scale_pos.
  have [Hwt [Ft St]] := ofZ_exact t ltac:(lia).
  rewrite /decide floor_scaled // leb_scaled // St.
  have Hlo : - 2 ^ 15 <= scaled x / scale by apply Z.div_le_lower_bound; lia.
  have Hhi : scaled x / scale < 2 ^ 15 by apply Z.div_lt_upper_bound; lia.
  rewrite intOf_small; [lia|].
  case: Z.leb_spec => Hle /=; split_and!; try done; [left|right]; split_and!; try done.
  - apply Z.div_le_lower_bound; lia.
  - apply Z.div_lt_upper_bound; lia.
Qed.

Lemma withWeekly_id v : Weekly v = [] → withWeekly v [] = v.
Proof. by case: v => ??????? /= ->. Qed.

Lemma used_top ws w : top ws = Some w → used w = peak ws ∧ w ∈ ws.
Proof. move=> H. have [Hin /Z.eqb_eq] := List.find_some _ _ H. by rewrite list_elem_of_In. Qed.

Lemma evaluateClaude_decides undef t r interval now : int16 t → (∀ p, SevenDayPct r = Some p → int16 p) →
  decides t (claudeEvidence r interval now) (EvaluateClaude undef (Some t) r interval now).
Proof.
  move=> Ht Hp. rewrite /claudeEvidence /EvaluateClaude.
  case: (SevenDayPct r) Hp => [pct|] Hp; last by case: (Present r).
  case: (SyncedAt r) => [synced|]; last by case: (Present r).
  case: (Present r) => //=; case: (Stale _ _ _ _) => //=; case: (PreReset _ _ _) => //=.
  have Hi := Hp _ eq_refl. rewrite /int16 in Hi. have Hu := scale_pos.
  have [Hw [Hf Hs]] := ofZ_exact pct ltac:(lia).
  rewrite -Hs -(withWeekly_id (decide _ _ _ _)); first by rewrite /decide; case: leb.
  apply decide_decides => //. rewrite Hs. nia.
Qed.

Lemma evaluateCodex_decides undef t r interval now : int16 t → Forall wfWindow (Buckets r ≫= windowsOf) →
  decides t (codexEvidence r interval now) (EvaluateCodex undef (Some t) r interval now).
Proof.
  move=> Ht Hwf. rewrite /codexEvidence /EvaluateCodex /weeklies.
  case: (LastSuccessAt r) => [readAt|]; last by case: (cPresent r).
  case: (cPresent r) => /=; last by case: (top _).
  case: (Stale _ _ _ _) => /=; first by case: (top _).
  have -> := scanWeekly_spec readAt _ None [] Hwf ltac:(done). set ws := List.filter isWeekly _.
  case Ea: (forallb readable ws) => /=; last by case: (top ws).
  case Et: (top ws) => [w|] //=.
  have [Hu Hin] := used_top ws w Et.
  case: (PreReset _ _ _) => //; cbn [negb].
  have Hww : wfWindow w.
  { move: Hwf => /Forall_forall. apply. move: Hin. rewrite !list_elem_of_In /ws filter_In. by case. }
  have /(_ w) := proj1 (List.forallb_forall readable ws) Ea. rewrite -list_elem_of_In /readable /percent => /(_ Hin).
  case E: (usable w) => [p|//] _. have [Hc [Fc [Sc Hb]]] := clamp_used w p Hww E.
  rewrite -Hu -Sc. apply decide_decides => //. rewrite Sc. have := scale_pos. lia.
Qed.

(** The verdict is exact and fails closed.  A missing, stale, pre-reset or
    unusable reading is unknown; otherwise the run is held exactly when the used
    amount (for Codex the highest over all weekly windows, cut at 100 percent)
    reaches the threshold, compared without rounding, and the displayed percent
    is on the same side of the threshold as the verdict. *)
Theorem reserve_verdict undef t interval now : int16 t →
  (∀ r, (∀ p, SevenDayPct r = Some p → int16 p) →
    decides t (claudeEvidence r interval now) (EvaluateClaude undef (Some t) r interval now)) ∧
  (∀ r, Forall wfWindow (Buckets r ≫= windowsOf) →
    decides t (codexEvidence r interval now) (EvaluateCodex undef (Some t) r interval now)).
Proof. move=> Ht. split=> r Hr; [exact: evaluateClaude_decides|exact: evaluateCodex_decides]. Qed.

(** * The manual-resume override *)
Definition matches (anchor : time) (w : WeeklyWindow) : bool :=
  match wResetsAt w with
  | Some r => (- ResetEpochMoveMargin <=? Go.sub r anchor) && (Go.sub r anchor <=? ResetEpochMoveMargin)
  | None => false
  end.
Definition movedPast (anchor : time) (w : WeeklyWindow) : bool :=
  match wResetsAt w with Some r => ResetEpochMoveMargin <? Go.sub r anchor | None => false end.
(** The granted week reset in place: same boundary, used percent gone. *)
Definition dropped (anchor : time) (prior : option float64) (w : WeeklyWindow) : bool :=
  match wResetsAt w with
  | Some r => CodexResetObserved (Go.unix anchor) (Go.unix r) prior (Some (wPct w))
  | None => false
  end.

Lemma overrideStep_spec anchor prior ws m a r :
  foldl (overrideStep anchor prior) (m, a, r) ws =
  (m || existsb (movedPast anchor) ws, a || existsb (matches anchor) ws,
   forallb (λ w, negb (matches anchor w) || dropped anchor prior w) ws && r).
Proof.
  elim: ws m a r => [|w ws IH] m a r /=; first by rewrite !orb_false_r.
  rewrite /matches /movedPast /dropped. case: (wResetsAt w) => [t|]; last by rewrite IH.
  set d := Go.sub t anchor.
  case Hm: (_ && _) => /=.
  - rewrite IH. have -> : (ResetEpochMoveMargin <? d) = false by lia.
    rewrite orb_true_r /= andb_assoc (andb_comm (forallb _ _)) -andb_assoc. done.
  - case: (ResetEpochMoveMargin <? d); rewrite IH /= ?orb_true_r //.
Qed.

Lemma forallb_perm {A} (f : A → bool) l l' : l ≡ₚ l' → forallb f l = forallb f l'.
Proof. induction 1; simpl; try congruence. by rewrite !andb_assoc (andb_comm (f y)). Qed.

#[export] Instance override_proper anchor prior : Proper ((≡ₚ) ==> eq) (CodexOverrideResetObserved anchor prior).
Proof.
  move=> ws ws' H. rewrite /CodexOverrideResetObserved !overrideStep_spec.
  by rewrite (existsb_perm (movedPast anchor) _ _ H) (existsb_perm (matches anchor) _ _ H) (forallb_perm _ _ _ H).
Qed.

(** The percent fell from at least 5 to at most 1 with the boundary unmoved. *)
Definition inPlace (anchor : time) (prior : option float64) (w : WeeklyWindow) : Prop :=
  ∃ r p, wResetsAt w = Some r ∧ prior = Some p ∧ Go.unix r = Go.unix anchor ∧ finite p = true ∧ finite (wPct w) = true ∧
    PctResetFloor * scale <= scaled p <= 100 * scale ∧ 0 <= scaled (wPct w) <= PctResetCeil * scale.

Lemma leb_int n p : Z.abs n < 2 ^ 53 → wf p → finite p = true →
  leb (ofZ n) p = (n * scale <=? scaled p) ∧ leb p (ofZ n) = (scaled p <=? n * scale).
Proof. move=> Hn Hp Fp. have [? [? <-]] := ofZ_exact n Hn. by rewrite !leb_scaled. Qed.

Lemma validPercent_spec p : wf p →
  validPercent (Some p) = true ↔ finite p = true ∧ 0 <= scaled p <= 100 * scale.
Proof.
  move=> Hp. rewrite /validPercent /finite.
  case En: (isNaN p); first by split; [|case]. case Ei: (isInf p); first by split; [|case].
  have Hf : finite p = true by rewrite /finite En Ei.
  have [-> _] := leb_int 0 p eq_refl Hp Hf. have [_ ->] := leb_int 100 p eq_refl Hp Hf. cbn [negb andb].
  split; [move=> /andb_prop [/Z.leb_le ? /Z.leb_le ?]|move=> [_ ?]; apply andb_true_intro; split; apply Z.leb_le]; lia.
Qed.

Lemma matches_close anchor w : matches anchor w = true → ∃ r, wResetsAt w = Some r ∧
  anchor - ResetEpochMoveMargin <= r <= anchor + ResetEpochMoveMargin.
Proof.
  rewrite /matches. case: (wResetsAt w) => [r|//] /andb_prop [/Z.leb_le Hl /Z.leb_le Hh]. exists r; split=> //.
  move: Hl Hh. rewrite /Go.sub /Go.minDuration /Go.maxDuration /ResetEpochMoveMargin /Go.Hour /Go.Minute /Go.Second. lia.
Qed.

Lemma unix_close r anchor : r <= anchor + ResetEpochMoveMargin → Go.unix r <= Go.unix anchor + 3600.
Proof.
  rewrite /ResetEpochMoveMargin /Go.unix => H.
  rewrite -Z.div_add //. exact: Z.div_le_mono.
Qed.

Lemma dropped_spec anchor prior w : (∀ p, prior = Some p → wf p) → wf (wPct w) → Z.abs (Go.unix anchor) < 2 ^ 62 →
  matches anchor w = true → dropped anchor prior w = true ↔ inPlace anchor prior w.
Proof.
  move=> Hprior Hw Ha /matches_close [r [Er [_ Hr]]]. have Hun := unix_close _ _ Hr.
  rewrite /dropped /inPlace Er /CodexResetObserved.
  have -> : Go.wrap64 (Go.unix anchor + ResetEpochMoveMargin / Go.Second) = Go.unix anchor + 3600.
  { have -> : ResetEpochMoveMargin / Go.Second = 3600 by []. rewrite /Go.wrap64 Z.mod_small; lia. }
  have -> : (Go.unix anchor + 3600 <? Go.unix r) = false by lia. cbn [orb].
  case: prior Hprior => [p|] Hprior; last first.
  { rewrite andb_false_r. split=> // -[? [? [_ [? _]]]]. done. }
  have Hp := Hprior _ eq_refl. split.
  - move=> /andb_prop [/andb_prop [/andb_prop [/Z.eqb_eq ? Vp] Vw]].
    have [Fp ?] := proj1 (validPercent_spec _ Hp) Vp. have [Fw ?] := proj1 (validPercent_spec _ Hw) Vw.
    have [-> _] := leb_int PctResetFloor p eq_refl Hp Fp. have [_ ->] := leb_int PctResetCeil (wPct w) eq_refl Hw Fw.
    move=> /andb_prop [/Z.leb_le ? /Z.leb_le ?]. exists r, p. split_and!; try done; lia.
  - move=> [? [q [[<-] [[<-] [Hu [Fp [Fw [Hp1 Hw1]]]]]]]]. have Hpos := scale_pos.
    have [-> _] := leb_int PctResetFloor p eq_refl Hp Fp. have [_ ->] := leb_int PctResetCeil (wPct w) eq_refl Hw Fw.
    rewrite /PctResetFloor /PctResetCeil in Hp1 Hw1 *.
    have -> := proj2 (validPercent_spec p Hp); first by split; [|lia].
    have -> := proj2 (validPercent_spec (wPct w) Hw); first by split; [|lia].
    rewrite Hu Z.eqb_refl /=. apply andb_true_intro; split; apply Z.leb_le; lia.
Qed.

(** A manual-resume override ends exactly when the week it was granted under is
    seen to have reset: every window at the granted boundary fell from 5 percent
    or more to 1 or less, or no window is left there and some window resets past
    it.  A low window elsewhere proves nothing, and neither does the order in
    which the provider lists the windows. *)
Theorem override_reset anchor prior ws :
  (∀ p, prior = Some p → wf p) → Forall (λ w, wf (wPct w)) ws → Z.abs (Go.unix anchor) < 2 ^ 62 →
  (CodexOverrideResetObserved anchor prior ws = true ↔
    ((∃ w, w ∈ ws ∧ matches anchor w = true) ∧ ∀ w, w ∈ ws → matches anchor w = true → inPlace anchor prior w) ∨
    ((∀ w, w ∈ ws → matches anchor w = false) ∧ ∃ w, w ∈ ws ∧ movedPast anchor w = true)) ∧
  (∀ ws', ws ≡ₚ ws' → CodexOverrideResetObserved anchor prior ws' = CodexOverrideResetObserved anchor prior ws).
Proof.
  move=> Hprior /Forall_forall Hws Ha. split; last by move=> ws' <-.
  have Hin w : w ∈ ws → matches anchor w = true → dropped anchor prior w = true ↔ inPlace anchor prior w.
  { move=> Hw. apply dropped_spec => //. exact: Hws. }
  rewrite /CodexOverrideResetObserved overrideStep_spec /= andb_true_r.
  case E: (existsb (matches anchor) ws).
  - move: E => /existsb_true E. rewrite List.forallb_forall. setoid_rewrite <- list_elem_of_In. split.
    + move=> H. left. split=> // w Hw Hm. apply Hin => //. move: (H w Hw). by rewrite Hm.
    + move=> [[_ H]|[H _]] w Hw; last by rewrite H.
      case Em: (matches anchor w) => //=. apply Hin => //. exact: H.
  - have Hno w : w ∈ ws → matches anchor w = false.
    { by move: E => /existsb_false; apply. }
    rewrite existsb_true. split; [by right|]. by move=> [[[w [/Hno -> //] _]]|[_ ?]].
Qed.

(** * Examples *)
Module Example.
Definition now : time := 1000000 * Go.Second.
Definition tenths (n : Z) : float64 := SFdiv 53 1024 (ofZ n) (ofZ 10).
Definition window (n : Z) : WindowDTO := mkWindow (Some (tenths n)) (Some WeeklyWindowSeconds) None (Some 1000900).
Definition reading (n : Z) : CodexReading :=
  mkCodex true [mkBucket "codex" EmptyString None None (Some (window n)) (Some (window 123))] (Some (now - Go.Minute)).
Definition claude (n : Z) : ClaudeReading := mkClaude true (Some n) None (Some (now - Go.Minute)).

(** 69.9 percent does not hold a threshold of 70 and shows as 69; 70 does. *)
Lemma reserve_verdict_witness :
  (decides 70 (Some (70 * scale, None)) (EvaluateClaude 0 (Some 70) (claude 70) Go.Minute now) ∧
   vState (EvaluateClaude 0 (Some 70) (claude 70) Go.Minute now) = Held) ∧
  (decides 70 (codexEvidence (reading 699) Go.Minute now) (EvaluateCodex 0 (Some 70) (reading 699) Go.Minute now) ∧
   vState (EvaluateCodex 0 (Some 70) (reading 699) Go.Minute now) = OK ∧
   Pct (EvaluateCodex 0 (Some 70) (reading 699) Go.Minute now) = 69).
Proof.
  destruct (reserve_verdict 0 70 Go.Minute now) as [Hclaude Hcodex]; first by split.
  split; split.
  - apply (Hclaude (claude 70)). intros p [= <-]. by split.
  - by vm_compute.
  - apply Hcodex. repeat constructor; intros p [= <-]; by vm_compute.
  - by vm_compute.
Defined.

Definition granted : time := 1000900 * Go.Second.
(** Two windows at the granted boundary: one fell, the other did not. *)
Lemma override_reset_witness :
  CodexOverrideResetObserved granted (Some (ofZ 80)) [mkWeekly (Some granted) (ofZ 0)] = true ∧
  ∀ ws', [mkWeekly (Some granted) (ofZ 0); mkWeekly (Some granted) (ofZ 80)] ≡ₚ ws' →
    CodexOverrideResetObserved granted (Some (ofZ 80)) ws' = false.
Proof.
  destruct (override_reset granted (Some (ofZ 80)) [mkWeekly (Some granted) (ofZ 0); mkWeekly (Some granted) (ofZ 80)])
    as [_ Hperm].
  - intros p [= <-]. by vm_compute.
  - repeat constructor; by vm_compute.
  - by vm_compute.
  - split; [by vm_compute|]. intros ws' Hws. rewrite (Hperm ws' Hws). by vm_compute.
Defined.
End Example.

End UsageReserve.
