(* ===== verification/Reserve.v ===== *)
(** Weekly usage reserve: who is held
    ([src/api/internal/workersvc/usage_reserve.go], the [reserveEndedOverrides]
    and [ComputeReserveOverride] of [usage_reserve_pause.go], and the reserve
    clause of the claim statement, [ClaimRun] in
    [src/api/internal/store/runtime.sql.go]).

    The snapshot holds the verdict of every credential the owner could spend.
    The same question, does the reserve hold this run, is answered twice: in Go
    ([reserveHeld]) and, from parameters computed beforehand, inside the claim
    statement ([claimGate]).  The statement is written in SQL's three-valued
    logic; the theorem is that the two agree. *)

From S2P Require Import Prelude Result GoFloat UsageReserve.

Local Open Scope Z_scope.

Module Reserve.
Import UsageReserve.

(** * Rows *)
Definition Chat : string := "chat".
Definition Judge : string := "judge".
Definition SelfImprove : string := "self_improve".
Definition harnessCodex : string := "codex".
Definition BindModeDefault : string := "default".
Definition BindModePinned : string := "pinned".
Definition BindModeAuto : string := "auto".

(** The columns of [runs] the reserve reads. *)
Record Run := mkRun {
  r_ID : uuid; r_UserID : uuid; Kind : string; Harness : string;
  FirstStartedAt : option time;
  ExemptUntil : option time; ExemptGrantedAt : option time; ExemptCredentialID : option uuid;
  ExemptWindowReset : option time; ExemptPriorPct : option Z;
  CodexSecretID : option uuid; AnthropicSecretID : option uuid;
  OverrideMode : option string; OverrideSecretID : option uuid;
  LimitDeadSecretID : option uuid; RetryNotBefore : option time;
}.

(** The columns of [workers] that choose the lane. *)
Record Worker := mkWorker { w_ID : uuid; AnthropicBindMode : string; w_SecretID : option uuid }.

Record TokenRow := mkToken {
  t_ID : uuid; t_IsDefault : bool; t_AutoEligible : bool; t_Rejected : bool; t_HasReading : bool;
  t_SevenDayPct : option Z; t_SevenDayResetsAt : option time; t_SyncedAt : option time;
}.

(** The stored buckets: no bytes, bytes that do not decode, or what they decode
    to. *)
Inductive stored := NoBuckets | Undecodable | Decoded (bs : list BucketDTO).
Record AliasRow := mkAlias {
  a_ID : uuid; a_Unmetered : bool; a_HasReading : bool; a_LastSuccessAt : option time; a_Buckets : stored;
}.

(** * The snapshot *)
Record reserveSnap := mkSnap {
  userID : uuid; threshold : option Z; pauseRunning : bool;
  claude : gmap uuid Verdict; codex : gmap uuid Verdict; synced : gmap uuid time;
  pooled : list uuid; defaultID : uuid; judgeMode : string; judgeSecret : option uuid;
}.
Definition offSnap (user : uuid) : reserveSnap := mkSnap user None false ∅ ∅ ∅ [] Uuid.Nil EmptyString None.
Definition on (s : reserveSnap) : bool := match threshold s with Some _ => true | None => false end.

Record reserveIntervals := mkIntervals { ivClaude : duration; ivCodex : duration }.

Definition claudeReading (t : TokenRow) : ClaudeReading :=
  mkClaude (t_HasReading t) (t_SevenDayPct t) (t_SevenDayResetsAt t) (t_SyncedAt t).
Definition codexReading (a : AliasRow) : CodexReading :=
  match a_Buckets a with
  | NoBuckets => mkCodex (a_HasReading a) [] (a_LastSuccessAt a)
  | Undecodable => mkCodex false [] (a_LastSuccessAt a)
  | Decoded bs => mkCodex (a_HasReading a) bs (a_LastSuccessAt a)
  end.

Definition stamp (m : gmap uuid time) (id : uuid) (t : option time) : gmap uuid time :=
  match t with Some v => <[id := v]> m | None => m end.

Section Snapshot.
Context (undefInt : Z) (iv : reserveIntervals) (now : time).

Definition addToken (s : reserveSnap) (t : TokenRow) : reserveSnap :=
  mkSnap (userID s) (threshold s) (pauseRunning s)
    (<[t_ID t := EvaluateClaude undefInt (threshold s) (claudeReading t) (ivClaude iv) now]> (claude s))
    (codex s) (stamp (synced s) (t_ID t) (t_SyncedAt t))
    (if t_AutoEligible t && negb (t_Rejected t) then pooled s ++ [t_ID t] else pooled s)
    (if t_IsDefault t then t_ID t else defaultID s) (judgeMode s) (judgeSecret s).

Definition addAlias (s : reserveSnap) (a : AliasRow) : reserveSnap :=
  let v := if a_Unmetered a then Exempt
           else EvaluateCodex undefInt (threshold s) (codexReading a) (ivCodex iv) now in
  mkSnap (userID s) (threshold s) (pauseRunning s) (claude s) (<[a_ID a := v]> (codex s))
    (if a_Unmetered a then synced s else stamp (synced s) (a_ID a) (a_LastSuccessAt a))
    (pooled s) (defaultID s) (judgeMode s) (judgeSecret s).

(** The answers of the four reads, each of which can fail. *)
Record reserveReads (E : Type) := mkReads {
  GetUserUsageReserve : result E (option Z * bool);
  ListReserveClaudeTokens : result E (list TokenRow);
  ListReserveCodexAliases : result E (list AliasRow);
  GetUserJudgeAnthropicBinding : result E (string * option uuid);
}.
Arguments GetUserUsageReserve {E}.
Arguments ListReserveClaudeTokens {E}.
Arguments ListReserveCodexAliases {E}.
Arguments GetUserJudgeAnthropicBinding {E}.

Definition buildReserveSnapshot {E} (q : reserveReads E) (user : uuid) : result E reserveSnap :=
  set ← GetUserUsageReserve q;
  match set.1 with
  | None => mret (offSnap user)
  | Some thr =>
    let snap := mkSnap user (Some thr) set.2 ∅ ∅ ∅ [] Uuid.Nil EmptyString None in
    tokens ← ListReserveClaudeTokens q;
    let snap := foldl addToken snap tokens in
    aliases ← ListReserveCodexAliases q;
    let snap := foldl addAlias snap aliases in
    bound ← GetUserJudgeAnthropicBinding q;
    mret (mkSnap (userID snap) (threshold snap) (pauseRunning snap) (claude snap) (codex snap) (synced snap)
            (pooled snap) (defaultID snap) bound.1 bound.2)
  end.
End Snapshot.
#[global] Arguments mkReads {E}.

(** * Verdicts *)
Definition blocked (m : gmap uuid Verdict) (id : uuid) : bool :=
  match m !! id with Some v => negb (bool_decide (vState v = OK)) | None => false end.
Definition claudeBlocked (s : reserveSnap) (id : uuid) : bool := blocked (claude s) id.
Definition codexBlocked (s : reserveSnap) (id : uuid) : bool := blocked (codex s) id.
Definition defaultBlocked (s : reserveSnap) : bool :=
  negb (bool_decide (defaultID s = Uuid.Nil)) && claudeBlocked s (defaultID s).

Definition reasonFor (s : reserveSnap) (id : uuid) : string :=
  match claude s !! id with
  | Some v => if negb (Reason v =?s EmptyString)%go then Reason v else UnknownReason
  | None => UnknownReason
  end.

(** Is any token pooled, and is any of them permitted. *)
Fixpoint autoLaneFrom (s : reserveSnap) (exclude : uuid) (ids : list uuid) (anyPooled : bool) : bool * bool :=
  match ids with
  | [] => (anyPooled, false)
  | id :: ids' =>
    if bool_decide (id = exclude) then autoLaneFrom s exclude ids' anyPooled else
    if negb (claudeBlocked s id) then (true, true) else autoLaneFrom s exclude ids' true
  end.
Definition autoLane (s : reserveSnap) (exclude : uuid) : bool * bool := autoLaneFrom s exclude (pooled s) false.

Definition autoReasonStep (s : reserveSnap) (exclude : uuid) (best : string * Z) (id : uuid) : string * Z :=
  if bool_decide (id = exclude) then best else
  match claude s !! id with
  | Some v => if bool_decide (vState v = Held) && (best.2 <? Pct v) then (Reason v, Pct v) else best
  | None => best
  end.
Definition autoReason (s : reserveSnap) (exclude : uuid) : string :=
  let best := (foldl (autoReasonStep s exclude) (EmptyString, -1) (pooled s)).1 in
  if negb (best =?s EmptyString)%go then best else UnknownReason.

Definition permittedIDs (s : reserveSnap) : list uuid := List.filter (λ id, negb (claudeBlocked s id)) (pooled s).
Definition pooledIDs (s : reserveSnap) : list uuid := pooled s.

(** The text of an identifier orders as its bytes do. *)
Definition idLe (a b : uuid) : Prop := bytes_compare (vec_to_list a) (vec_to_list b) <= 0.
#[local] Instance idLe_dec : RelDecision idLe := λ a b, Z_le_dec _ _.
Definition sortedBlocked (m : gmap uuid Verdict) : list uuid :=
  merge_sort idLe (fst <$> List.filter (λ kv, negb (bool_decide (vState kv.2 = OK))) (map_to_list m)).

(** * The manual-resume override *)
Definition overrideEndedByReading (run : Run) (snap : reserveSnap) : bool :=
  if negb (on snap) then false else
  match ExemptGrantedAt run, ExemptCredentialID run with
  | Some granted, Some id =>
    let isCodex := (Harness run =?s harnessCodex)%go in
    match (if isCodex then codex snap else claude snap) !! id with
    | None => false
    | Some v =>
      if negb (Fresh v) then false else
      if negb (match synced snap !! id with Some t => Go.after t granted | None => false end) then false else
      match ExemptWindowReset run with
      | None => bool_decide (vState v = OK)
      | Some anchor =>
        match ResetsAt v with
        | None => false
        | Some _ =>
          if isCodex then
            let weekly := match Weekly v with [] => [mkWeekly (ResetsAt v) (GoFloat.ofZ (Pct v))] | ws => ws end in
            CodexOverrideResetObserved anchor (GoFloat.ofZ <$> ExemptPriorPct run) weekly
          else ClaudeResetObserved anchor (ExemptPriorPct run) (ResetsAt v) (Pct v)
        end
      end
    end
  | _, _ => false
  end.

Definition stillExempt (until : option time) (now : time) : bool :=
  match until with Some t => Go.after t now | None => false end.

Definition overrideActive (run : Run) (snap : reserveSnap) (now : time) : bool :=
  if negb (stillExempt (ExemptUntil run) now) then false else negb (overrideEndedByReading run snap).

Definition reserveEnforced (run : Run) (snap : reserveSnap) (now : time) : bool :=
  if negb (on snap) || (Kind run =?s Chat)%go then false else
  if overrideActive run snap now then false else
  if (match FirstStartedAt run with Some _ => true | None => false end) && negb (pauseRunning snap) then false else true.

Definition spentVerdict (s : reserveSnap) (run : Run) : option Verdict :=
  if (Harness run =?s harnessCodex)%go then CodexSecretID run ≫= λ id, codex s !! id
  else AnthropicSecretID run ≫= λ id, claude s !! id.

(** * Lanes and the decision *)
Record reserveLane := mkLane { mode : string; laneSecret : option uuid }.
Definition workerSecretID (w : Worker) : option uuid :=
  if negb (AnthropicBindMode w =?s BindModePinned)%go then None else w_SecretID w.
Definition laneOfWorker (w : Worker) : reserveLane := mkLane (AnthropicBindMode w) (workerSecretID w).
Definition laneEphemeral (hasPool : bool) : reserveLane :=
  if hasPool then mkLane BindModeAuto None else mkLane BindModeDefault None.

Record reserveDecision := mkDecision { held : bool; reason : string }.
Definition free : reserveDecision := mkDecision false EmptyString.

Definition decisionOf (v : Verdict) : reserveDecision :=
  if bool_decide (vState v = OK) then free else mkDecision true (Reason v).
Definition tokenDecision (s : reserveSnap) (id : uuid) : reserveDecision :=
  if claudeBlocked s id then mkDecision true (reasonFor s id) else free.
Definition defaultDecision (s : reserveSnap) : reserveDecision :=
  if defaultBlocked s then mkDecision true (reasonFor s (defaultID s)) else free.
Definition autoDecision (s : reserveSnap) (exclude : uuid) : reserveDecision :=
  let '(anyPooled, permitted) := autoLane s exclude in
  if anyPooled && negb permitted then mkDecision true (autoReason s exclude) else free.
Definition staticDecision (s : reserveSnap) (l : reserveLane) : reserveDecision :=
  match laneSecret l with
  | Some id => if (mode l =?s BindModePinned)%go then tokenDecision s id else defaultDecision s
  | None => defaultDecision s
  end.
Definition judgeDecision (s : reserveSnap) (exclude : uuid) : reserveDecision :=
  if (judgeMode s =?s BindModeAuto)%go then
    let '(anyPooled, permitted) := autoLane s exclude in
    if permitted then free else
    if anyPooled then mkDecision true (autoReason s exclude) else defaultDecision s
  else if (judgeMode s =?s BindModePinned)%go then
    match judgeSecret s with Some id => tokenDecision s id | None => defaultDecision s end
  else defaultDecision s.

Definition reserveExclude (run : Run) (now : time) : uuid :=
  match LimitDeadSecretID run, RetryNotBefore run with
  | Some id, Some t => if Go.after t now then id else Uuid.Nil
  | _, _ => Uuid.Nil
  end.

Definition laneDecision (s : reserveSnap) (l : reserveLane) (exclude : uuid) : reserveDecision :=
  if (mode l =?s BindModeAuto)%go then autoDecision s exclude else staticDecision s l.

(** The credential the run would spend, resolved in the order of the claim. *)
Definition credentialDecision (run : Run) (snap : reserveSnap) (lane : reserveLane) (now : time) : reserveDecision :=
  let exclude := reserveExclude run now in
  if (Harness run =?s harnessCodex)%go then
    match CodexSecretID run with
    | None => free
    | Some id => match codex snap !! id with Some v => decisionOf v | None => free end
    end
  else if (Kind run =?s SelfImprove)%go || (Kind run =?s Judge)%go then judgeDecision snap exclude
  else
    let fallthrough := laneDecision snap lane exclude in
    match OverrideMode run with
    | None => fallthrough
    | Some m =>
      if (m =?s BindModePinned)%go then
        match OverrideSecretID run with Some id => tokenDecision snap id | None => fallthrough end
      else if (m =?s BindModeDefault)%go then defaultDecision snap
      else if (m =?s BindModeAuto)%go then autoDecision snap exclude
      else fallthrough
    end.

Definition reserveHeld (run : Run) (snap : reserveSnap) (lane : reserveLane) (now : time) : reserveDecision :=
  if negb (reserveEnforced run snap now) then free else credentialDecision run snap lane now.

Definition laneBlocked (s : reserveSnap) (l : reserveLane) : bool :=
  if (mode l =?s BindModeAuto)%go then held (autoDecision s Uuid.Nil) else held (staticDecision s l).

Definition reserveEndedOverrides (snap : reserveSnap) (runs : list Run) (now : time) : list uuid :=
  if negb (on snap) then [] else
  r_ID <$> List.filter (λ run, stillExempt (ExemptUntil run) now && negb (overrideActive run snap now)) runs.

(** The exemption a manual resume records ([int16] keeps sixteen bits). *)
Definition wrap16 (z : Z) : Z := (z + 2 ^ 15) mod 2 ^ 16 - 2 ^ 15.
Definition ReserveOverrideWindow : duration := 7 * 24 * Go.Hour.
Record ReserveOverrideGrant := mkGrant {
  GrantedAt : time; CredentialID : option uuid; WindowReset : option time; PriorPct : option Z; Until : time;
}.

Definition ComputeReserveOverride (snap : reserveSnap) (run : Run) (now : time) : option ReserveOverrideGrant :=
  if negb (on snap) then None else
  let until := Go.add now ReserveOverrideWindow in
  let credential := if (Harness run =?s harnessCodex)%go then CodexSecretID run else AnthropicSecretID run in
  let anchored :=
    match spentVerdict snap run with
    | Some v =>
      match ResetsAt v with
      | Some r => if Fresh v && bool_decide (vState v = Held) && Go.after r now then Some (r, Pct v) else None
      | None => None
      end
    | None => None
    end in
  Some match anchored with
       | Some (anchor, pct) =>
         mkGrant now credential (Some anchor) (Some (wrap16 pct)) (if Go.before anchor until then anchor else until)
       | None => mkGrant now credential None None until
       end.

(** * The claim statement

    SQL's three truth values: [None] is NULL.  A row passes a WHERE clause, and
    a CASE arm is taken, exactly on [Some true]. *)
Definition tri := option bool.
Definition sqlNot (a : tri) : tri := negb <$> a.
Definition sqlAnd (a b : tri) : tri :=
  match a, b with
  | Some false, _ | _, Some false => Some false
  | Some true, Some true => Some true
  | _, _ => None
  end.
Definition sqlOr (a b : tri) : tri := sqlNot (sqlAnd (sqlNot a) (sqlNot b)).
#[global] Arguments sqlNot : simpl never.
#[global] Arguments sqlAnd : simpl never.
#[global] Arguments sqlOr : simpl never.
Definition isTrue (a : tri) : bool := match a with Some true => true | _ => false end.
Definition coalesce (a : tri) (b : bool) : tri := Some (default b a).
Definition sqlEq {A} `{!EqDecision A} (a b : option A) : tri :=
  match a, b with Some x, Some y => Some (bool_decide (x = y)) | _, _ => None end.
Definition sqlGt (a b : option time) : tri :=
  match a, b with Some x, Some y => Some (y <? x) | _, _ => None end.
Definition isNotNull {A} (a : option A) : tri := Some (match a with Some _ => true | None => false end).
(** [x = ANY(l)] over an array without NULLs. *)
Definition eqAny {A} `{!EqDecision A} (x : option A) (l : list A) : tri :=
  match x with
  | Some a => Some (bool_decide (a ∈ l))
  | None => match l with [] => Some false | _ => None end
  end.
Definition existsRow {A} (f : A → tri) (l : list A) : tri := Some (existsb (λ x, isTrue (f x)) l).

(** The reserve parameters of the statement. *)
Record ClaimRunParams := mkParams {
  ReserveOn : bool; ReserveNow : time; ReserveOverrideEnded : list uuid; ReservePauseOn : bool;
  ReserveBlockedCodex : list uuid; ReserveJudgeMode : string; ReservePermitted : list uuid;
  ReservePooled : list uuid; ReserveOwnerDefaultBlocked : bool; ReserveJudgeStaticBlocked : bool;
  ReserveBlockedClaude : list uuid; ReserveWorkerMode : string; ReserveWorkerStaticBlocked : bool;
  ReserveBlockedWorkerIds : list uuid;
}.

Definition reserveClaimParams (snap : reserveSnap) (wkr : Worker) (blockedWorkers ended : list uuid) (now : time)
    : ClaimRunParams :=
  if negb (on snap) then mkParams false now ended false [] EmptyString [] [] false false [] EmptyString false []
  else
    let lane := laneOfWorker wkr in
    mkParams true now ended (pauseRunning snap) (sortedBlocked (codex snap)) (judgeMode snap) (permittedIDs snap)
      (pooledIDs snap) (defaultBlocked snap) (held (staticDecision snap (mkLane (judgeMode snap) (judgeSecret snap))))
      (sortedBlocked (claude snap)) (mode lane) (held (staticDecision snap lane)) blockedWorkers.

(** The driver sends an instant in whole microseconds. *)
Definition timestamptz (t : time) : time := t / 1000 * 1000.

(** The CASE of the clause: is the credential the run would spend blocked. *)
Definition blockedCredential (p : ClaimRunParams) (r : Run) : tri :=
  let now := Some (timestamptz (ReserveNow p)) in
  let spendable (pp : uuid) :=
    sqlNot (coalesce (sqlAnd (sqlGt (RetryNotBefore r) now) (sqlEq (Some pp) (LimitDeadSecretID r))) false) in
  if isTrue (sqlEq (Some (Harness r)) (Some harnessCodex)) then
    coalesce (eqAny (CodexSecretID r) (ReserveBlockedCodex p)) false
  else if isTrue (eqAny (Some (Kind r)) [Judge; SelfImprove]) then
    (if isTrue (sqlEq (Some (ReserveJudgeMode p)) (Some BindModeAuto)) then
       (if isTrue (existsRow spendable (ReservePermitted p)) then Some false
        else if isTrue (existsRow spendable (ReservePooled p)) then Some true
        else Some (ReserveOwnerDefaultBlocked p))
     else Some (ReserveJudgeStaticBlocked p))
  else if isTrue (sqlAnd (sqlEq (OverrideMode r) (Some BindModePinned)) (isNotNull (OverrideSecretID r))) then
    coalesce (eqAny (OverrideSecretID r) (ReserveBlockedClaude p)) false
  else if isTrue (sqlEq (OverrideMode r) (Some BindModeDefault)) then Some (ReserveOwnerDefaultBlocked p)
  else if isTrue (sqlOr (sqlEq (OverrideMode r) (Some BindModeAuto)) (sqlEq (Some (ReserveWorkerMode p)) (Some BindModeAuto))) then
    sqlAnd (existsRow spendable (ReservePooled p)) (sqlNot (existsRow spendable (ReservePermitted p)))
  else Some (ReserveWorkerStaticBlocked p).

Definition claimGate (p : ClaimRunParams) (r : Run) : tri :=
  let now := Some (timestamptz (ReserveNow p)) in
  sqlOr (sqlOr (sqlOr (sqlNot (Some (ReserveOn p)))
                 (sqlAnd (coalesce (sqlGt (ExemptUntil r) now) false)
                         (sqlNot (eqAny (Some (r_ID r)) (ReserveOverrideEnded p)))))
          (sqlAnd (isNotNull (FirstStartedAt r)) (sqlNot (Some (ReservePauseOn p)))))
    (sqlNot (blockedCredential p r)).

(** * The two agree *)

(** Columns hold whole microseconds. *)
Definition micros (t : option time) : Prop := ∀ x, t = Some x → x mod 1000 = 0.

Lemma timestamptz_gt x now : x mod 1000 = 0 → (timestamptz now <? x) = (now <? x).
Proof.
  rewrite /timestamptz => Hx. apply eq_true_iff_eq. rewrite !Z.ltb_lt.
  have := Z.div_mod now 1000 ltac:(lia). have := Z.mod_pos_bound now 1000 ltac:(lia).
  have := Z.div_mod x 1000 ltac:(lia). lia.
Qed.

Lemma sqlOr_Some a b : sqlOr (Some a) (Some b) = Some (a || b).
Proof. by destruct a, b. Qed.
Lemma sqlOr_true b : sqlOr (Some true) b = Some true.
Proof. by destruct b as [[]|]. Qed.
Lemma sqlAnd_Some a b : sqlAnd (Some a) (Some b) = Some (a && b).
Proof. by destruct a, b. Qed.
Lemma sqlNot_Some a : sqlNot (Some a) = Some (negb a).
Proof. done. Qed.

Lemma streqb (a b : string) : (a =?s b)%go = bool_decide (a = b).
Proof. symmetry. case: String.eqb_spec => H; by case_bool_decide. Qed.

Lemma sortedBlocked_elem m id : id ∈ sortedBlocked m ↔ blocked m id = true.
Proof.
  rewrite /sortedBlocked merge_sort_Permutation list_elem_of_fmap /blocked. split.
  - move=> [[k v] [-> ]]. rewrite list_elem_of_In filter_In -list_elem_of_In elem_of_map_to_list => -[/= -> ?]. done.
  - case E: (m !! id) => [v|//] Hv. exists (id, v). split=> //.
    rewrite list_elem_of_In filter_In -list_elem_of_In elem_of_map_to_list. done.
Qed.

(** Some identifier of the list is not the excluded one. *)
Definition others (exclude : uuid) (ids : list uuid) : bool := existsb (λ id, negb (bool_decide (id = exclude))) ids.

Lemma autoLaneFrom_spec s exclude ids b :
  autoLaneFrom s exclude ids b =
  (b || others exclude ids,
   others exclude (List.filter (λ id, negb (claudeBlocked s id)) ids)).
Proof.
  elim: ids b => [|id ids IH] b /=; first by rewrite orb_false_r.
  case_bool_decide; case E: (claudeBlocked s id) => /=; rewrite ?IH ?orb_true_r //=; try by rewrite bool_decide_eq_true_2.
  by rewrite bool_decide_eq_false_2 //= orb_true_r.
Qed.

Lemma autoLane_spec s exclude : autoLane s exclude = (others exclude (pooledIDs s), others exclude (permittedIDs s)).
Proof. exact: autoLaneFrom_spec. Qed.

Section Agree.
Context (snap : reserveSnap) (r : Run) (now : time).
Context (Huntil : micros (ExemptUntil r)) (Hretry : micros (RetryNotBefore r)) (Hnil : Uuid.Nil ∉ pooled snap).

Lemma spendable_exclude pp : pp ≠ Uuid.Nil →
  isTrue (sqlNot (coalesce (sqlAnd (sqlGt (RetryNotBefore r) (Some (timestamptz now))) (sqlEq (Some pp) (LimitDeadSecretID r))) false)) =
  negb (bool_decide (pp = reserveExclude r now)).
Proof.
  move=> Hpp. rewrite /reserveExclude.
  case Ed: (LimitDeadSecretID r) => [d|]; case Er: (RetryNotBefore r) => [t|] /=; try by rewrite bool_decide_eq_false_2.
  - rewrite timestamptz_gt; [exact: (Hretry t Er)|]. rewrite /Go.after.
    by case: (now <? t); repeat case_bool_decide.
  - by repeat case_bool_decide.
  - by case: (timestamptz now <? t); repeat case_bool_decide.
Qed.

Lemma exists_spendable l : (∀ id, id ∈ l → id ∈ pooled snap) →
  existsRow (λ pp, sqlNot (coalesce (sqlAnd (sqlGt (RetryNotBefore r) (Some (timestamptz now))) (sqlEq (Some pp) (LimitDeadSecretID r))) false)) l =
  Some (others (reserveExclude r now) l).
Proof.
  move=> Hl. rewrite /existsRow. f_equal. apply eq_true_iff_eq. rewrite !existsb_true.
  split=> -[id [Hin H]]; exists id; split=> //; move: H; rewrite spendable_exclude //; move=> ?; subst; exact: (Hnil (Hl _ Hin)).
Qed.

Lemma exempt_arm runs : (∀ r', r' ∈ runs → r_ID r' = r_ID r → r' = r) → (ExemptUntil r ≠ None → r ∈ runs) → on snap = true →
  sqlAnd (coalesce (sqlGt (ExemptUntil r) (Some (timestamptz now))) false)
    (sqlNot (eqAny (Some (r_ID r)) (reserveEndedOverrides snap runs now))) = Some (overrideActive r snap now).
Proof.
  move=> Hkey Hin Hon. rewrite /reserveEndedOverrides Hon /coalesce /eqAny sqlNot_Some sqlAnd_Some. f_equal.
  have -> : default false (sqlGt (ExemptUntil r) (Some (timestamptz now))) = stillExempt (ExemptUntil r) now.
  { rewrite /stillExempt /sqlGt. case E: (ExemptUntil r) => [t|//]. rewrite /= timestamptz_gt //. exact: (Huntil t E). }
  case Es: (stillExempt (ExemptUntil r) now); last by rewrite /overrideActive Es.
  have Hr : r ∈ runs by apply Hin; move: Es; rewrite /stillExempt; case: (ExemptUntil r).
  case Ea: (overrideActive r snap now) => /=; case_bool_decide as Hb => //; exfalso.
  - move: Hb => /list_elem_of_fmap [r' [Hid]]. rewrite list_elem_of_In filter_In -list_elem_of_In => -[Hr' H].
    by rewrite (Hkey r' Hr' (eq_sym Hid)) Ea andb_false_r in H.
  - apply Hb, list_elem_of_fmap. exists r. split=> //. by rewrite list_elem_of_In filter_In -list_elem_of_In Es Ea.
Qed.

Lemma permitted_pooled id : id ∈ permittedIDs snap → id ∈ pooled snap.
Proof. rewrite /permittedIDs list_elem_of_In filter_In -list_elem_of_In. by case. Qed.

Lemma anyBlocked m (x : option uuid) :
  coalesce (eqAny x (sortedBlocked m)) false = Some (match x with Some id => blocked m id | None => false end).
Proof.
  case: x => [id|] /=; last by case: (sortedBlocked m). rewrite /coalesce /=. f_equal.
  apply eq_true_iff_eq. by rewrite bool_decide_eq_true sortedBlocked_elem.
Qed.

Lemma held_if (b : bool) x : held (if b then mkDecision true x else free) = b.
Proof. by destruct b. Qed.

Lemma held_auto exclude : held (autoDecision snap exclude) =
  others exclude (pooledIDs snap) &&
  negb (others exclude (permittedIDs snap)).
Proof. by rewrite /autoDecision autoLane_spec held_if. Qed.

Lemma held_judge exclude : held (judgeDecision snap exclude) =
  if bool_decide (judgeMode snap = BindModeAuto) then
    (if others exclude (permittedIDs snap) then false
     else if others exclude (pooledIDs snap) then true
     else defaultBlocked snap)
  else held (staticDecision snap (mkLane (judgeMode snap) (judgeSecret snap))).
Proof.
  rewrite /judgeDecision autoLane_spec /staticDecision !streqb.
  case_bool_decide as Ha.
  - destruct (others exclude (permittedIDs snap)), (others exclude (pooledIDs snap)); by rewrite // held_if.
  - cbn [laneSecret mode]. case: (judgeSecret snap) => [id|]; by case_bool_decide.
Qed.

Lemma blockedCredential_agrees w peers ended : on snap = true →
  blockedCredential (reserveClaimParams snap w peers ended now) r =
  Some (held (credentialDecision r snap (laneOfWorker w) now)).
Proof.
  move=> Hon. rewrite /blockedCredential /reserveClaimParams Hon. cbn [negb ReserveNow ReserveBlockedCodex ReserveJudgeMode
    ReservePermitted ReservePooled ReserveOwnerDefaultBlocked ReserveJudgeStaticBlocked ReserveBlockedClaude ReserveWorkerMode
    ReserveWorkerStaticBlocked].
  rewrite !anyBlocked !exists_spendable //; [exact: permitted_pooled|].
  rewrite /credentialDecision !streqb. cbn [sqlEq isTrue].
  case: (bool_decide_reflect (Harness r = harnessCodex)) => _ /=.
  { case: (CodexSecretID r) => [id|//]. rewrite /blocked. case: (codex snap !! id) => [v|//].
    by rewrite /decisionOf; case_bool_decide. }
  have -> : bool_decide (Kind r ∈ [Judge; SelfImprove]) =
    bool_decide (Kind r = SelfImprove) || bool_decide (Kind r = Judge).
  { apply eq_true_iff_eq. rewrite orb_true_iff !bool_decide_eq_true. set_solver. }
  case: (_ || _).
  { rewrite held_judge. case: bool_decide => //. by destruct (others (reserveExclude r now) (permittedIDs snap)), (others (reserveExclude r now) (pooledIDs snap)). }
  rewrite (sqlNot_Some (others _ _)) (sqlAnd_Some (others _ _)).
  have Hlane : held (laneDecision snap (laneOfWorker w) (reserveExclude r now)) =
    if bool_decide (AnthropicBindMode w = BindModeAuto)
    then others (reserveExclude r now) (pooledIDs snap) &&
         negb (others (reserveExclude r now) (permittedIDs snap))
    else held (staticDecision snap (laneOfWorker w)).
  { rewrite /laneDecision streqb -held_auto. by case: bool_decide. }
  have Hdef : held (defaultDecision snap) = defaultBlocked snap by rewrite /defaultDecision held_if.
  case: (OverrideMode r) => [m|]; cbn [sqlEq].
  - rewrite !streqb. case: (bool_decide_reflect (m = BindModePinned)) => [->|Hp].
    + case: (OverrideSecretID r) => [id|] /=; first by rewrite /tokenDecision held_if.
      rewrite Hlane. by case: bool_decide.
    + have -> : isTrue (sqlAnd (Some false) (isNotNull (OverrideSecretID r))) = false by [].
      case: (bool_decide_reflect (m = BindModeDefault)) => [_|_]; first by rewrite Hdef.
      rewrite sqlOr_Some. case: (bool_decide_reflect (m = BindModeAuto)) => [_|_]; first by rewrite held_auto.
      rewrite Hlane. by case: bool_decide.
  - rewrite Hlane. by case: (OverrideSecretID r) => [?|]; case: bool_decide.
Qed.

End Agree.
Lemma claimGate_held snap w peers runs r now :
  (Kind r =?s Chat)%go = false → micros (ExemptUntil r) → micros (RetryNotBefore r) → Uuid.Nil ∉ pooled snap →
  (∀ r', r' ∈ runs → r_ID r' = r_ID r → r' = r) → (ExemptUntil r ≠ None → r ∈ runs) →
  claimGate (reserveClaimParams snap w peers (reserveEndedOverrides snap runs now) now) r =
  Some (negb (held (reserveHeld r snap (laneOfWorker w) now))).
Proof.
  move=> Hchat Huntil Hretry Hnil Hkey Hin.
  rewrite /reserveHeld /reserveEnforced Hchat orb_false_r.
  case Hon: (on snap); last by rewrite /claimGate /reserveClaimParams Hon; cbn [ReserveOn negb]; rewrite sqlNot_Some !sqlOr_true.
  rewrite /claimGate blockedCredential_agrees // /reserveClaimParams Hon. cbn [negb ReserveOn ReserveNow ReserveOverrideEnded ReservePauseOn].
  rewrite exempt_arm // !sqlNot_Some /isNotNull sqlAnd_Some !sqlOr_Some. f_equal.
  case: (overrideActive r snap now) => //. case: (FirstStartedAt r) => [t|] //=. by case: (pauseRunning snap).
Qed.

(** C14. The claim statement and the Go rule agree: with the parameters computed from
    a snapshot, the reserve clause lets a queued run through exactly when
    [reserveHeld] does not hold it on the claiming worker's lane, at the clock
    reading of the claim, NULL columns and the microseconds of the database
    included. *)
Theorem claim_gate_agrees snap w peers runs r now :
  (Kind r =?s Chat)%go = false → micros (ExemptUntil r) → micros (RetryNotBefore r) → Uuid.Nil ∉ pooled snap →
  (∀ r', r' ∈ runs → r_ID r' = r_ID r → r' = r) → (ExemptUntil r ≠ None → r ∈ runs) →
  claimGate (reserveClaimParams snap w peers (reserveEndedOverrides snap runs now) now) r =
  Some (negb (held (reserveHeld r snap (laneOfWorker w) now))).
Proof. exact: claimGate_held. Qed.

(** * The snapshot holds the verdict of every credential *)
Section SnapshotSpec.
Context (undefInt : Z) (iv : reserveIntervals) (now : time).
Local Abbreviation addToken := (addToken undefInt iv now).
Local Abbreviation addAlias := (addAlias undefInt iv now).

Lemma tokens_spec ts s : NoDup (t_ID <$> ts) →
  threshold (foldl addToken s ts) = threshold s ∧ codex (foldl addToken s ts) = codex s ∧
  pooled (foldl addToken s ts) = pooled s ++ (t_ID <$> List.filter (λ t, t_AutoEligible t && negb (t_Rejected t)) ts) ∧
  (∀ id, id ∉ t_ID <$> ts → claude (foldl addToken s ts) !! id = claude s !! id) ∧
  (∀ t, t ∈ ts → claude (foldl addToken s ts) !! t_ID t =
     Some (EvaluateClaude undefInt (threshold s) (claudeReading t) (ivClaude iv) now)) ∧
  (defaultID (foldl addToken s ts) = defaultID s ∨ ∃ t, t ∈ ts ∧ defaultID (foldl addToken s ts) = t_ID t).
Proof.
  elim: ts s => [|t ts IH] s Hnd /=; first by rewrite app_nil_r; split_and!; try done; [set_solver|by left].
  move: Hnd => /NoDup_cons [Hni Hnd]. have [Ht [Hc [Hp [Hno [Hin Hd]]]]] := IH (addToken s t) Hnd.
  rewrite Ht Hc Hp. split_and!; [done|done| | | |].
  - rewrite /Reserve.addToken /=. case: (_ && _) => //=. by rewrite -app_assoc.
  - move=> id. rewrite not_elem_of_cons => -[Hne Hnin]. by rewrite Hno // lookup_insert_ne.
  - move=> t' /elem_of_cons [->|Hin']; last exact: Hin. rewrite Hno // lookup_insert_eq //.
  - case: Hd => [->|[t' [? ->]]]; last by right; exists t'; set_solver.
    rewrite /Reserve.addToken /=. case: (t_IsDefault t); [right; exists t; set_solver|by left].
Qed.

Lemma aliases_spec az s : NoDup (a_ID <$> az) →
  threshold (foldl addAlias s az) = threshold s ∧ claude (foldl addAlias s az) = claude s ∧
  pooled (foldl addAlias s az) = pooled s ∧ defaultID (foldl addAlias s az) = defaultID s ∧
  (∀ id, id ∉ a_ID <$> az → codex (foldl addAlias s az) !! id = codex s !! id) ∧
  (∀ a, a ∈ az → codex (foldl addAlias s az) !! a_ID a =
     Some (if a_Unmetered a then Exempt
           else EvaluateCodex undefInt (threshold s) (codexReading a) (ivCodex iv) now)).
Proof.
  elim: az s => [|a az IH] s Hnd /=; first by split_and!; try done; set_solver.
  move: Hnd => /NoDup_cons [Hni Hnd]. have [Ht [Hc [Hp [Hd [Hno Hin]]]]] := IH (addAlias s a) Hnd.
  rewrite Ht Hc Hp Hd. split_and!; try done.
  - move=> id. rewrite not_elem_of_cons => -[Hne Hnin]. by rewrite Hno // lookup_insert_ne.
  - move=> a' /elem_of_cons [->|Hin']; last exact: Hin. rewrite Hno // lookup_insert_eq //.
Qed.
End SnapshotSpec.

Lemma decides_OK t ev v : decides t ev v → vState v = OK → ∃ u reset, ev = Some (u, reset) ∧ u < t * GoFloat.scale.
Proof.
  case: ev => [[u reset]|]; last by move=> ->. move=> [_ [_ [_ [_ [[-> _] //|[_ [? _]]]]]]] _. by exists u, reset.
Qed.

Lemma blocked_false m id v : m !! id = Some v → blocked m id = false → vState v = OK.
Proof. by rewrite /blocked => ->; case_bool_decide. Qed.

(** What the reserve does not block is below the threshold: in a snapshot built
    from the owner's rows, a listed token or metered alias that is not blocked has
    a fresh reading strictly below the threshold.  Missing, stale or unreadable
    readings never pass. *)
Theorem snapshot_fails_closed {E} undef iv now (q : reserveReads E) user snap t pause tokens aliases bound :
  int16 t → GetUserUsageReserve _ q = Ok (Some t, pause) → ListReserveClaudeTokens _ q = Ok tokens →
  ListReserveCodexAliases _ q = Ok aliases → GetUserJudgeAnthropicBinding _ q = Ok bound →
  NoDup (t_ID <$> tokens) → NoDup (a_ID <$> aliases) →
  buildReserveSnapshot undef iv now q user = Ok snap →
  (∀ k, k ∈ tokens → (∀ p, t_SevenDayPct k = Some p → int16 p) → claudeBlocked snap (t_ID k) = false →
     ∃ u reset, claudeEvidence (claudeReading k) (ivClaude iv) now = Some (u, reset) ∧ u < t * GoFloat.scale) ∧
  (∀ a, a ∈ aliases → a_Unmetered a = false → Forall wfWindow (Buckets (codexReading a) ≫= windowsOf) →
     codexBlocked snap (a_ID a) = false →
     ∃ u reset, codexEvidence (codexReading a) (ivCodex iv) now = Some (u, reset) ∧ u < t * GoFloat.scale).
Proof.
  move=> Ht Eset Etok Eal Ebound Hnt Hna. rewrite /buildReserveSnapshot Eset /= Etok /= Eal /= Ebound /= => -[<-].
  set s0 := mkSnap user (Some t) pause ∅ ∅ ∅ [] Uuid.Nil EmptyString None.
  have [Tt [_ [_ [_ [Tin _]]]]] := tokens_spec undef iv now tokens s0 Hnt.
  have [At [Ac [_ [_ [_ Ain]]]]] := aliases_spec undef iv now aliases (foldl (addToken undef iv now) s0 tokens) Hna.
  rewrite /claudeBlocked /codexBlocked /= Ac. split.
  - move=> k Hk Hp /(blocked_false _ _ _ (Tin k Hk)). apply decides_OK. exact: evaluateClaude_decides.
  - move=> a Ha Hm Hwf. have := Ain a Ha. rewrite Hm Tt => E1 /(blocked_false _ _ _ E1).
    apply decides_OK. exact: evaluateCodex_decides.
Qed.

(** * A manual resume *)
Definition granted (run : Run) (g : ReserveOverrideGrant) : Run :=
  mkRun (r_ID run) (r_UserID run) (Kind run) (Harness run) (FirstStartedAt run)
    (Some (Until g)) (Some (GrantedAt g)) (CredentialID g) (WindowReset g) (PriorPct g)
    (CodexSecretID run) (AnthropicSecretID run) (OverrideMode run) (OverrideSecretID run)
    (LimitDeadSecretID run) (RetryNotBefore run).
Definition ungranted (run : Run) : Run :=
  mkRun (r_ID run) (r_UserID run) (Kind run) (Harness run) (FirstStartedAt run) None None None None None
    (CodexSecretID run) (AnthropicSecretID run) (OverrideMode run) (OverrideSecretID run)
    (LimitDeadSecretID run) (RetryNotBefore run).

(** A manual resume takes effect and ends: the exemption starts in the future
    and lasts a week at most; until then only a reading synced after the grant
    can end it, so the readings that caused the hold cannot; from then on the run
    is judged as if it had never been exempt. *)
Theorem override_grant snap run now g lane : ComputeReserveOverride snap run now = Some g →
  (now < Until g <= now + ReserveOverrideWindow) ∧
  (∀ snap' t, t < Until g → (∀ id s, synced snap' !! id = Some s → s <= now) →
     held (reserveHeld (granted run g) snap' lane t) = false) ∧
  (∀ snap' t, Until g <= t → reserveHeld (granted run g) snap' lane t = reserveHeld (ungranted run) snap' lane t).
Proof.
  move=> Hg.
  have [Hu Hat] : (now < Until g <= now + ReserveOverrideWindow) ∧ GrantedAt g = now.
  { move: Hg. rewrite /ComputeReserveOverride. case: (on snap) => //= -[<-].
    have Hw : 0 < ReserveOverrideWindow by []. rewrite /Go.add.
    case: (spentVerdict snap run) => [v|] /=; last by split; [lia|].
    case: (ResetsAt v) => [a|] /=; last by split; [lia|].
    case E: (_ && _) => /=; last by split; [lia|].
    move: E => /andb_prop [_]. rewrite /Go.after => /Z.ltb_lt ?. rewrite /Go.before.
    case: Z.ltb_spec => ?; split=> //=; lia. }
  split_and!; [lia|lia| |].
  - move=> snap' t Ht Hsync. rewrite /reserveHeld. have -> // : reserveEnforced (granted run g) snap' t = false.
    rewrite /reserveEnforced. case: (_ || _) => //.
    have -> // : overrideActive (granted run g) snap' t = true.
    rewrite /overrideActive /stillExempt /= /Go.after. have -> /= : (t <? Until g) = true by lia.
    rewrite /overrideEndedByReading /= Hat. case: (on snap') => //=. case: (CredentialID g) => [id|//].
    case: (_ !! id) => [v|//]. case: (Fresh v) => //=.
    case E: (synced snap' !! id) => [s|] //=. by have -> : Go.after s now = false by have := Hsync _ _ E; rewrite /Go.after; lia.
  - move=> snap' t Ht. rewrite /reserveHeld. have -> // : reserveEnforced (granted run g) snap' t = reserveEnforced (ungranted run) snap' t.
    rewrite /reserveEnforced /overrideActive /stillExempt /= /Go.after. by have -> : (t <? Until g) = false by lia.
Qed.

(** * Examples *)
Module Example.
Definition now : time := 1000000 * Go.Second + 7.
Definition token (n : Z) (isDefault : bool) (pct : Z) : TokenRow :=
  mkToken (Uuid.mk n) isDefault true false true (Some pct) (Some (2000000 * Go.Second)) (Some (now - Go.Minute)).
Definition alias (n : Z) (pct : Z) : AliasRow :=
  mkAlias (Uuid.mk n) false true (Some (now - Go.Minute))
    (Decoded [mkBucket "codex" EmptyString None None
      (Some (mkWindow (Some (GoFloat.ofZ pct)) (Some WeeklyWindowSeconds) None None)) None]).
Definition reads : reserveReads unit :=
  mkReads (Ok (Some 70, true)) (Ok [token 1 true 80; token 2 false 10]) (Ok [alias 3 69]) (Ok (BindModeAuto, None)).
Definition intervals : reserveIntervals := mkIntervals Go.Minute Go.Minute.
Definition snap : reserveSnap :=
  match buildReserveSnapshot 0 intervals now reads (Uuid.mk 9) with Ok s => s | Err _ => offSnap Uuid.Nil end.

(** A run parked on its second token while that one waits for its window. *)
Definition run : Run :=
  mkRun (Uuid.mk 10) (Uuid.mk 9) "issue" "claude" None None None None None None None (Some (Uuid.mk 1)) None None
    (Some (Uuid.mk 2)) (Some (1000100 * Go.Second)).
Definition worker : Worker := mkWorker (Uuid.mk 20) BindModeAuto None.

Lemma claim_gate_agrees_witness :
  claimGate (reserveClaimParams snap worker [] (reserveEndedOverrides snap [run] now) now) run =
    Some (negb (held (reserveHeld run snap (laneOfWorker worker) now))) ∧
  held (reserveHeld run snap (laneOfWorker worker) now) = true.
Proof.
  split; [apply claim_gate_agrees|by vm_compute].
  - by vm_compute.
  - done.
  - intros x [= <-]. by vm_compute.
  - apply (bool_decide_unpack _). by vm_compute.
  - intros r' ->%list_elem_of_singleton. done.
  - intros _. by apply list_elem_of_singleton.
Defined.

Lemma snapshot_fails_closed_witness :
  (∃ u reset, claudeEvidence (claudeReading (token 2 false 10)) Go.Minute now = Some (u, reset) ∧ u < 70 * GoFloat.scale) ∧
  (∃ u reset, codexEvidence (codexReading (alias 3 69)) Go.Minute now = Some (u, reset) ∧ u < 70 * GoFloat.scale).
Proof.
  destruct (snapshot_fails_closed 0 intervals now reads (Uuid.mk 9) snap 70 true [token 1 true 80; token 2 false 10]
    [alias 3 69] (BindModeAuto, None)) as [Htok Hal]; try reflexivity.
  - by split.
  - apply (bool_decide_unpack _). by vm_compute.
  - apply (bool_decide_unpack _). by vm_compute.
  - split.
    + apply Htok; [by right; left| |by vm_compute]. intros p [= <-]. by split.
    + apply Hal; [by left|done| |by vm_compute]. repeat constructor. intros p [= <-]. by vm_compute.
Defined.

Lemma override_grant_witness : ∃ g,
  ComputeReserveOverride snap run now = Some g ∧ Until g = now + ReserveOverrideWindow ∧
  ∀ t, t < Until g → held (reserveHeld (granted run g) snap (laneOfWorker worker) t) = false.
Proof.
  exists (mkGrant now (Some (Uuid.mk 1)) (Some (2000000 * Go.Second)) (Some 80) (now + ReserveOverrideWindow)).
  split; [by vm_compute|split; [done|]]. intros t Ht.
  refine (proj1 (proj2 (override_grant snap run now _ (laneOfWorker worker) _)) snap t Ht _); [by vm_compute|].
  intros id s. apply (map_Forall_lookup_1 (λ (_ : uuid) s, s <= now)). apply (bool_decide_unpack _). by vm_compute.
Defined.
End Example.

End Reserve.
