(* ===== verification/ReserveSpend.v ===== *)
(** Weekly usage reserve: what a claim spends.  The ladder that resolves and
    opens the Anthropic credential of a claimed run
    ([src/api/internal/workersvc/secretchoice.go], [openWithAutoRetry] of
    [claim_assembly.go], [judgeChoice] of [judge.go] and the gate of
    [usage_reserve.go]).

    The rows are read anew at each step and the clock is read where the code
    reads it, so the ladder is a program over those requests.  [OpenByID] is the
    moment a credential is spent. *)

From S2P Require Import Prelude Result Prog AutoSelect UsageReserve Reserve.

Local Open Scope Z_scope.

Module ReserveSpend.
Import Reserve.

(** * Requests *)
Record meta := mkMeta { m_ID : uuid; m_Label : string; m_Disabled : bool }.
Inductive metaErr := NoRows | LookupFailed.
Inductive openErr := ErrVaultLocked | ErrNoSecret | ErrUndecryptable | ErrOther.

Inductive req : Type → Type :=
  | Now : req time
  | ListAutoSelectCandidates : req (result unit (list AutoSelect.Candidate))
  | JudgeBinding : req (result unit (string * option uuid))
  | GetUserSecretMetaByIDOfKind (id : uuid) : req (result metaErr meta)
  | GetUserSecretMetaByID (id : uuid) : req (result metaErr meta)
  | GetDefaultUserSecretMeta : req (result metaErr meta)
  | OpenByID (id : uuid) : req (result openErr string)
  | UserHasAnthropicToken : req (result unit bool)
  | UserHasEnabledAnthropicToken : req (result unit bool).

(** The errors a claim distinguishes. *)
Inductive claimErr :=
  | ReserveHeld (why : string) | AutoPoolEmpty
  | CredentialUnavailable (noDefault : bool) | CredentialDisabled | VaultLocked
  | Failed | Panicked.

Abbreviation M A := (prog req (result claimErr A)).
Definition ok {A} (a : A) : M A := Ret (Ok a).
Definition fail {A} (e : claimErr) : M A := Ret (Err e).
Definition andThen {A B} (p : M A) (f : A → M B) : M B :=
  p ≫= λ r, match r with Ok a => f a | Err e => fail e end.
Notation "x ←! p ; q" := (andThen p (λ x, q)) (at level 20, p at level 100, q at level 200, right associativity).

(** A read whose failure fails the claim. *)
Definition read {A} (r : req (result unit A)) : M A :=
  call r ≫= λ a, match a with Ok a => ok a | Err _ => fail Failed end.

(** * The choice *)
Record secretChoice := mkChoice {
  secretID : option uuid; sc_reason : AutoSelect.Reason; sc_headroom : option Z; parkOnEmptyDefault : bool;
}.
Definition autoLaneRetryable (c : secretChoice) : bool :=
  match secretID c, sc_reason c with
  | Some _, (AutoSelect.ReasonAuto | AutoSelect.ReasonBestOfPool | AutoSelect.ReasonPoolStale) => true
  | _, _ => false
  end.
Definition staticChoice (id : option uuid) (bound : AutoSelect.Reason) : secretChoice :=
  match id with
  | None => mkChoice None AutoSelect.ReasonDefault None false
  | Some _ => mkChoice id bound None false
  end.
Definition judgeDefaultChoice (c : secretChoice) : secretChoice :=
  mkChoice (secretID c) (sc_reason c) (sc_headroom c) true.

Section Ladder.
Context (policy : AutoSelect.Policy).
(** The gate of the claim: the snapshot, when the reserve is enforced. *)
Context (gate : option reserveSnap).

Definition checkChoice (c : secretChoice) : M unit :=
  match gate with
  | None => ok tt
  | Some snap =>
    match secretID c with
    | None => if defaultBlocked snap then fail (ReserveHeld (reasonFor snap (defaultID snap))) else ok tt
    | Some id => if claudeBlocked snap id then fail (ReserveHeld (reasonFor snap id)) else ok tt
    end
  end.

Definition checkCodex (run : Run) : M unit :=
  match gate, CodexSecretID run with
  | Some snap, Some id =>
    match codex snap !! id with
    | Some v => if codexBlocked snap id then fail (ReserveHeld (UsageReserve.Reason v)) else ok tt
    | None => ok tt
    end
  | _, _ => ok tt
  end.

Definition dropBlocked (cands : list AutoSelect.Candidate) : list AutoSelect.Candidate :=
  match gate with
  | None => cands
  | Some snap => List.filter (λ c, negb (claudeBlocked snap (AutoSelect.SecretID c))) cands
  end.

(** Only the reserve took the pool away. *)
Definition heldPool (cands : list AutoSelect.Candidate) (exclude : uuid) : option string :=
  match gate with
  | None => None
  | Some snap => match AutoSelect.Floor cands exclude with Some _ => Some (autoReason snap exclude) | None => None end
  end.

Definition claimExcludeFor (limitDead : option uuid) (retryNotBefore : option time) : prog req uuid :=
  match limitDead, retryNotBefore with
  | Some id, Some t => now ← call Now; mret (if Go.after t now then id else Uuid.Nil)
  | _, _ => mret Uuid.Nil
  end.
Definition claimExclude (run : Run) : prog req uuid := claimExcludeFor (LimitDeadSecretID run) (RetryNotBefore run).

Definition autoChoice (run : Run) : M secretChoice :=
  exclude ← claimExclude run;
  allCands ←! read ListAutoSelectCandidates;
  let cands := dropBlocked allCands in
  now ← call Now;
  match AutoSelect.Select cands exclude policy now with
  | None => fail Panicked
  | Some out =>
    if AutoSelect.Picked out then
      ok (mkChoice (Some (AutoSelect.OutSecretID out)) (AutoSelect.OutReason out)
            (Some (wrap16 (AutoSelect.OutHeadroom out))) false)
    else
    match AutoSelect.Floor cands exclude with
    | Some id => ok (mkChoice (Some id) AutoSelect.ReasonPoolStale None false)
    | None => match heldPool allCands exclude with Some why => fail (ReserveHeld why) | None => fail AutoPoolEmpty end
    end
  end.

Definition autoFloorRetry (run : Run) (failedID : uuid) : M secretChoice :=
  exclude ← claimExclude run;
  rows ←! read ListAutoSelectCandidates;
  let allCands := List.filter (λ c, negb (bool_decide (AutoSelect.SecretID c = failedID))) rows in
  match AutoSelect.Floor (dropBlocked allCands) exclude with
  | Some id => ok (mkChoice (Some id) AutoSelect.ReasonOpenFailed None false)
  | None =>
    match heldPool allCands exclude with
    | Some why => fail (ReserveHeld why)
    | None => fail (CredentialUnavailable false)
    end
  end.

Definition judgeChoice (run : Run) : M secretChoice :=
  bound ←! read JudgeBinding;
  let fallback := judgeDefaultChoice (staticChoice None AutoSelect.ReasonJudge) in
  if (bound.1 =?s BindModePinned)%go then
    match bound.2 with
    | Some id => ok (staticChoice (Some id) AutoSelect.ReasonJudge)
    | None => ok fallback
    end
  else if (bound.1 =?s BindModeAuto)%go then
    choice ← autoChoice run;
    match choice with
    | Ok c => ok c
    | Err AutoPoolEmpty => ok (judgeDefaultChoice (mkChoice None AutoSelect.ReasonPoolEmpty None false))
    | Err e => fail e
    end
  else ok fallback.

(** [None]: no override, fall through to the worker. *)
Definition runOverrideChoice (run : Run) : M (option secretChoice) :=
  match OverrideMode run with
  | None => ok None
  | Some m =>
    if (m =?s EmptyString)%go then ok None else
    if (m =?s BindModePinned)%go then
      match OverrideSecretID run with
      | None => ok None
      | Some id =>
        row ← call (GetUserSecretMetaByIDOfKind id);
        match row with
        | Err NoRows => fail (CredentialUnavailable false)
        | Err LookupFailed => fail Failed
        | Ok row =>
          if m_Disabled row then fail CredentialDisabled
          else ok (Some (staticChoice (Some id) AutoSelect.ReasonRunPinned))
        end
      end
    else if (m =?s BindModeAuto)%go then choice ←! autoChoice run; ok (Some choice)
    else if (m =?s BindModeDefault)%go then ok (Some (mkChoice None AutoSelect.ReasonRunDefault None false))
    else ok None
  end.

Definition resolveClaimSecret (wkr : Worker) (run : Run) : M secretChoice :=
  if (Kind run =?s SelfImprove)%go then judgeChoice run else
  override ←! runOverrideChoice run;
  match override with
  | Some choice => ok choice
  | None =>
    if (AnthropicBindMode wkr =?s BindModeAuto)%go then autoChoice run
    else ok (staticChoice (workerSecretID wkr) AutoSelect.ReasonPinned)
  end.

Definition claimSecretID (wkr : Worker) (run : Run) : M secretChoice :=
  choice ←! resolveClaimSecret wkr run;
  _ ←! checkChoice choice;
  ok choice.

(** * The open *)
Record claimCred := mkCred { c_ID : uuid; c_Label : string; c_Token : string }.

Definition openAnthropic (id : option uuid) : M claimCred :=
  row ← (match id with
         | Some i => call (GetUserSecretMetaByID i)
         | None => call GetDefaultUserSecretMeta
         end : prog req (result metaErr meta));
  match row with
  | Err NoRows => fail (CredentialUnavailable (match id with None => true | Some _ => false end))
  | Err LookupFailed => fail Failed
  | Ok row =>
    if m_Disabled row then fail CredentialDisabled else
    tok ← call (OpenByID (m_ID row));
    match tok with
    | Ok tok => ok (mkCred (m_ID row) (m_Label row) tok)
    | Err ErrVaultLocked => fail VaultLocked
    | Err ErrNoSecret | Err ErrUndecryptable => fail (CredentialUnavailable false)
    | Err ErrOther => fail Failed
    end
  end.

Definition anthropicSlotAllDisabled : M bool :=
  has ←! read UserHasAnthropicToken;
  if negb has then ok false else
  enabled ←! read UserHasEnabledAnthropicToken;
  ok (negb enabled).

(** The error to return instead of [openErr], if the default slot is disabled. *)
Definition parkIfDefaultSlotDisabled (openErr : claimErr) : prog req (option claimErr) :=
  match openErr with
  | CredentialUnavailable true =>
    allDisabled ← anthropicSlotAllDisabled;
    match allDisabled with
    | Err e => mret (Some e)
    | Ok true => mret (Some CredentialDisabled)
    | Ok false => mret None
    end
  | _ => mret None
  end.

Definition openWithAutoRetry (run : Run) (choice : secretChoice) : M (claimCred * secretChoice) :=
  cred ← openAnthropic (secretID choice);
  match cred with
  | Ok cred => ok (cred, choice)
  | Err err =>
    perr ← (if parkOnEmptyDefault choice then parkIfDefaultSlotDisabled err else mret None);
    match perr with
    | Some e => fail e
    | None =>
      match secretID choice, err, autoLaneRetryable choice with
      | Some failedID, CredentialUnavailable _, true =>
        choice ←! autoFloorRetry run failedID;
        cred ←! openAnthropic (secretID choice);
        ok (cred, choice)
      | _, _, _ => fail err
      end
    end
  end.

(** The credential of a claim that does not run on Codex: the judge lane, and
    the lane of all other kinds. *)
Definition resolve (wkr : Worker) (run : Run) : M secretChoice :=
  if (Kind run =?s Judge)%go then choice ←! judgeChoice run; _ ←! checkChoice choice; ok choice
  else claimSecretID wkr run.

(** The reserve part of a claim's assembly, on either harness. *)
Definition assemble (wkr : Worker) (run : Run) : M (option secretChoice) :=
  if (Harness run =?s harnessCodex)%go then _ ←! checkCodex run; ok None
  else choice ←! resolve wkr run; ok (Some choice).

Definition spend (wkr : Worker) (run : Run) : M (claimCred * secretChoice) :=
  choice ←! resolve wkr run; openWithAutoRetry run choice.

End Ladder.

(** * Reasoning about the ladder *)
Section Rules.
Context {S : Type} (answers : S → ∀ X, req X → X → S → Prop) (okReq : S → ∀ X, req X → Prop).
Local Abbreviation wp := (wp answers okReq).

Lemma wp_andThen {A B} (p : M A) (f : A → M B) (post : S → result claimErr B → Prop) s :
  wp (λ s r, match r with Ok a => wp post s (f a) | Err e => post s (Err e) end) s p →
  wp post s (andThen p f).
Proof. move=> H. eapply wp_bind; [exact: H|]. by move=> s' [a|e]. Qed.

Lemma wp_read {A} (r : req (result unit A)) (post : S → result claimErr A → Prop) s :
  okReq s _ r → (∀ a s', answers s _ r (Ok a) s' → post s' (Ok a)) → (∀ s', post s' (Err Failed)) →
  wp post s (read r).
Proof. move=> Hok Ha He. apply wp_call => // -[a|e] s' /=; [exact: Ha|move=> _; exact: He]. Qed.
End Rules.

(** * What is spent *)
Section Permitted.
Context (policy : AutoSelect.Policy) (snap : reserveSnap).

(** The default token when it is the row read last for an opening.  Every row may
    have changed since the snapshot, the default of the owner too; a row read by
    its id has that id. *)
Definition readDefault := option uuid.
Definition rows (s : readDefault) (X : Type) (r : req X) : X → readDefault → Prop :=
  match r in req X return X → readDefault → Prop with
  | GetUserSecretMetaByID id => λ a s', (∀ m, a = Ok m → m_ID m = id) ∧ s' = None
  | GetDefaultUserSecretMeta => λ a s', s' = match a with Ok m => Some (m_ID m) | Err _ => None end
  | _ => λ _ s', s' = s
  end.

(** The default token was changed after the snapshot, whose own default is not
    blocked. *)
Definition moved (s : readDefault) (id : uuid) : Prop :=
  s = Some id ∧ defaultBlocked snap = false ∧ (id = defaultID snap → id = Uuid.Nil).
(** A credential is opened only when the reserve does not block it, or as the
    default that was changed. *)
Definition spendable (s : readDefault) (id : uuid) : Prop := claudeBlocked snap id = false ∨ moved s id.
Definition opens (s : readDefault) (X : Type) (r : req X) : Prop :=
  match r with OpenByID id => spendable s id | _ => True end.
Local Abbreviation wp := (wp rows opens).

Definition permitted (id : option uuid) : Prop :=
  match id with Some i => claudeBlocked snap i = false | None => defaultBlocked snap = false end.
(** An auto choice names a token. *)
Definition named (c : secretChoice) : Prop := ∃ id, secretID c = Some id ∧ claudeBlocked snap id = false.
Definition yields {A} (P : readDefault → A → Prop) (s : readDefault) (r : result claimErr A) : Prop :=
  ∀ a, r = Ok a → P s a.
(** The credential a claim ends with: a blocked one is on the lane of the default. *)
Definition spent (s : readDefault) (id : uuid) (choice : option uuid) : Prop :=
  claudeBlocked snap id = false ∨ (moved s id ∧ choice = None).

Lemma wp_claimExclude {A} (run : Run) (f : uuid → prog req A) post s :
  (∀ e s', wp post s' (f e)) → wp post s (claimExclude run ≫= f).
Proof.
  move=> H. rewrite /claimExclude /claimExcludeFor.
  case: (LimitDeadSecretID run) => [id|]; last exact: H.
  case: (RetryNotBefore run) => [t|]; last exact: H. apply wp_call => // now s' _. exact: H.
Qed.

Lemma dropBlocked_elem (l : list AutoSelect.Candidate) c :
  c ∈ dropBlocked (Some snap) l ↔ c ∈ l ∧ claudeBlocked snap (AutoSelect.SecretID c) = false.
Proof. rewrite /dropBlocked list_elem_of_In filter_In -list_elem_of_In negb_true_iff. done. Qed.

Lemma floor_dropped l exclude id : AutoSelect.Floor (dropBlocked (Some snap) l) exclude = Some id →
  claudeBlocked snap id = false.
Proof.
  have [H _] := AutoSelect.Floor_correct exclude (dropBlocked (Some snap) l) [].
  move: H => /[swap] ->. by move=> [cd [/dropBlocked_elem [_ ?] [_ [<- _]]]].
Qed.

Lemma autoChoice_named run s : wp (yields (λ _, named)) s (autoChoice policy (Some snap) run).
Proof.
  apply wp_claimExclude => exclude s1. apply wp_andThen, wp_read => // cands s2 _. apply wp_call => // now s3 _.
  case Es: (AutoSelect.Select _ exclude policy now) => [out|//]. case Ep: (AutoSelect.Picked out).
  - move=> _ [<-]. exists (AutoSelect.OutSecretID out). split=> //.
    have [cd [/dropBlocked_elem [_ ?] [_ ->]]] := AutoSelect.Select_picks _ _ _ _ _ Es Ep. done.
  - case Ef: (AutoSelect.Floor _ exclude) => [id|]; last by case: (heldPool _ _ _).
    move=> _ [<-]. exists id. split=> //. exact: floor_dropped Ef.
Qed.

Lemma autoFloorRetry_named run failed s : wp (yields (λ _, named)) s (autoFloorRetry (Some snap) run failed).
Proof.
  apply wp_claimExclude => exclude s1. apply wp_andThen, wp_read => // rows s2 _.
  cbv zeta. set all := List.filter _ rows.
  case Ef: (AutoSelect.Floor _ exclude) => [id|]; last by case: (heldPool _ _ _).
  move=> _ [<-]. exists id. split=> //. exact: floor_dropped Ef.
Qed.

Lemma open_row m id s : spent s (m_ID m) id →
  wp (yields (λ s c, spent s (c_ID c) id)) s
    (if m_Disabled m then fail CredentialDisabled else
     tok ← call (OpenByID (m_ID m));
     match tok with
     | Ok tok => ok (mkCred (m_ID m) (m_Label m) tok)
     | Err ErrVaultLocked => fail VaultLocked
     | Err ErrNoSecret | Err ErrUndecryptable => fail (CredentialUnavailable false)
     | Err ErrOther => fail Failed
     end).
Proof.
  move=> Hm. case: (m_Disabled m) => //. apply wp_call; first by case: Hm => [?|[? _]]; [left|right].
  move=> -[tok|[]] s2 -> //=. by move=> _ [<-].
Qed.

Lemma openAnthropic_permitted id s : permitted id →
  wp (yields (λ s c, spent s (c_ID c) id)) s (openAnthropic id).
Proof.
  move=> Hp. rewrite /openAnthropic. case: id Hp => [id|] Hp; apply wp_call => // -[m|[]] s1 // Ha; apply open_row.
  - left. by rewrite (proj1 Ha m eq_refl).
  - rewrite Ha. case E: (claudeBlocked snap (m_ID m)); last by left.
    right. do 2 split=> //. split=> // Hid. move: Hp. rewrite /permitted /defaultBlocked -Hid E.
    by case_bool_decide.
Qed.

Lemma wp_park err s post : (∀ e s', post s' e) → wp post s (parkIfDefaultSlotDisabled err).
Proof.
  move=> H. rewrite /parkIfDefaultSlotDisabled.
  case: err => [?||[]||||]; try exact: H. apply: (wp_bind _ _ (λ _ _, True)); last by move=> s' [[]|e] _; exact: H.
  apply wp_andThen, wp_read => // -[] s1 _ //. by apply wp_andThen, wp_read.
Qed.

Lemma openWithAutoRetry_permitted run c s : permitted (secretID c) →
  wp (yields (λ s p, spent s (c_ID p.1) (secretID p.2))) s (openWithAutoRetry (Some snap) run c).
Proof.
  move=> Hp. apply: (wp_bind _ _ (yields (λ s cr, spent s (c_ID cr) (secretID c)))); first exact: openAnthropic_permitted.
  move=> s1 [cred|err] H; first by move=> _ [<-]; exact: (H cred eq_refl).
  apply: (wp_bind _ _ (λ _ _, True)); first by case: (parkOnEmptyDefault c) => //; exact: wp_park.
  move=> s2 [e //|] _. case: (secretID c) => [failed|//]. case: err {H} => // b. case: (autoLaneRetryable c) => //.
  apply wp_andThen, (wp_weaken _ _ (yields (λ _, named))); last exact: autoFloorRetry_named.
  move=> s3 [c'|e] // /(_ _ eq_refl) [id [E Hid]]. apply wp_andThen. rewrite E.
  apply: wp_weaken; last exact: (openAnthropic_permitted (Some id)).
  move=> s4 [cred|e] // /(_ _ eq_refl) ? _ [<-]. by rewrite /= E.
Qed.

Lemma checked c s : wp (yields (λ _ _, permitted (secretID c))) s (checkChoice (Some snap) c).
Proof.
  rewrite /checkChoice /permitted. case: (secretID c) => [id|].
  - by case E: (claudeBlocked snap id).
  - by case E: (defaultBlocked snap).
Qed.

(** The ladder up to the check opens nothing; the check decides. *)
Lemma runOverride_any run s : wp (λ _ _, True) s (runOverrideChoice policy (Some snap) run).
Proof.
  rewrite /runOverrideChoice. case: (OverrideMode run) => [m|//]. case: (_ =?s _)%go => //.
  case: (_ =?s _)%go.
  { case: (OverrideSecretID run) => [id|//]. apply wp_call => // -[row|[]] s1 _ //. by case: (m_Disabled row). }
  case: (_ =?s _)%go; last by case: (_ =?s _)%go.
  apply wp_andThen. apply: wp_weaken; last exact: autoChoice_named. by move=> s1 [].
Qed.

Lemma judge_any run s : wp (λ _ _, True) s (judgeChoice policy (Some snap) run).
Proof.
  apply wp_andThen, wp_read => // -[m id] s1 _ /=. case: (_ =?s _)%go; first by case: id.
  case: (_ =?s _)%go => //. apply: (wp_bind _ _ (yields (λ _, named))); first exact: autoChoice_named.
  by move=> s2 [c|[]].
Qed.

Lemma resolve_permitted wkr run s : wp (yields (λ _ c, permitted (secretID c))) s (resolve policy (Some snap) wkr run).
Proof.
  have Hcheck (c : secretChoice) s1 : wp (yields (λ _ c, permitted (secretID c))) s1 (_ ←! checkChoice (Some snap) c; ok c).
  { apply wp_andThen. apply: wp_weaken; last exact: checked. move=> s2 [[]|e] // H _ [<-]. exact: (H tt). }
  have Hthen (p : M secretChoice) : wp (λ _ _, True) s p →
    wp (yields (λ _ c, permitted (secretID c))) s (choice ←! p; _ ←! checkChoice (Some snap) choice; ok choice).
  { move=> H. apply wp_andThen. apply: wp_weaken H. by move=> s1 [c|e]. }
  rewrite /resolve /claimSecretID. case: (_ =?s _)%go; apply Hthen; first exact: judge_any.
  rewrite /resolveClaimSecret. case: (_ =?s _)%go; first exact: judge_any.
  apply wp_andThen. apply: wp_weaken; last exact: runOverride_any.
  move=> s1 [[c|]|e] // _. case: (_ =?s _)%go => //.
  apply: wp_weaken; last exact: autoChoice_named. by move=> s2 [].
Qed.

(** C15. Whatever the rows, the vault and the clock say, a claim under an enforced
    reserve opens only credentials the snapshot of its gate does not block, on
    every lane (pinned, default, pool, judge) and also when the first one does not
    open and the pool supplies another, with one exception: on the lane of the
    default the gate checks the default of its snapshot and the opening reads the
    default anew, so a token made the default in between is opened unchecked.
    A blocked credential that is opened is therefore the default as just read,
    differs from the snapshot's, and the claim's choice was the default. *)
Theorem spend_permitted wkr run :
  wp (yields (λ s p, spent s (c_ID p.1) (secretID p.2))) None (spend policy (Some snap) wkr run).
Proof.
  apply wp_andThen. apply: wp_weaken; last exact: resolve_permitted.
  move=> s [c|e] // H. apply openWithAutoRetry_permitted. exact: (H c).
Qed.
End Permitted.

(** * The claim statement and the ladder *)
Section AdmittedRun.
Context (policy : AutoSelect.Policy) (snap : reserveSnap) (run : Run) (now : time).
Context (Hnil : Uuid.Nil ∉ pooled snap).

(** The rows are those of the snapshot: the same judge binding, and the opted-in,
    not rejected candidates are its pool.  The clock is that of the claim. *)
Definition agrees (_ : unit) (X : Type) (r : req X) : X → unit → Prop :=
  match r in req X return X → unit → Prop with
  | Now => λ t _, t = now
  | JudgeBinding => λ a _, ∀ b, a = Ok b → b = (judgeMode snap, judgeSecret snap)
  | ListAutoSelectCandidates => λ a _, ∀ cands, a = Ok cands → ∀ id, id ∈ pooled snap ↔
      ∃ c, c ∈ cands ∧ AutoSelect.SecretID c = id ∧ AutoSelect.AutoEligible c = true ∧ AutoSelect.Rejected c = false
  | _ => λ _ _, True
  end.
Local Abbreviation wp := (wp agrees (λ _ _ _, True)).
Definition notHeld {A} (r : result claimErr A) : Prop := match r with Err (ReserveHeld _) => False | _ => True end.

Lemma wp_exclude {A} (f : uuid → prog req A) post s :
  wp post s (f (reserveExclude run now)) → wp post s (claimExclude run ≫= f).
Proof.
  move=> H. move: H. rewrite /claimExclude /claimExcludeFor /reserveExclude.
  case: (LimitDeadSecretID run) => [id|//]. case: (RetryNotBefore run) => [t|//] H.
  apply wp_call => // now' [] ->. by destruct s.
Qed.

Lemma floor_others l exclude :
  (∀ c, c ∈ l → AutoSelect.AutoEligible c = true → AutoSelect.Rejected c = false → AutoSelect.SecretID c ≠ Uuid.Nil) →
  (AutoSelect.Floor l exclude = None ↔
   ∀ c, c ∈ l → AutoSelect.AutoEligible c = true → AutoSelect.Rejected c = false → AutoSelect.SecretID c = exclude).
Proof.
  move=> Hne. have [H _] := AutoSelect.Floor_correct exclude l [].
  have Hfl c : c ∈ l → AutoSelect.floorable exclude c = false ↔
    (AutoSelect.AutoEligible c = true → AutoSelect.Rejected c = false → AutoSelect.SecretID c = exclude).
  { move=> Hc. rewrite /AutoSelect.floorable /AutoSelect.excluded.
    case Ea: (AutoSelect.AutoEligible c) => /=; last by split.
    case Er: (AutoSelect.Rejected c) => /=; first by split.
    have Hn := Hne c Hc Ea Er. split.
    - move=> /negb_false_iff /andb_prop [_ /bool_decide_eq_true ?] _ _. done.
    - move=> /(_ eq_refl eq_refl) <-. by rewrite bool_decide_eq_false_2 // bool_decide_eq_true_2. }
  case E: (AutoSelect.Floor l exclude) H => [id|] H; split=> //.
  - move=> Hall. destruct H as (cd & Hcd & Hf & _). by rewrite (proj2 (Hfl cd Hcd) (Hall cd Hcd)) in Hf.
  - move=> _ c Hc. apply Hfl => //. exact: H.
Qed.

Local Abbreviation exclude := (reserveExclude run now).

Lemma others_false ids : others exclude ids = false ↔ ∀ id, id ∈ ids → id = exclude.
Proof.
  rewrite /others existsb_false. split=> H id /H.
  - by move=> /negb_false_iff /bool_decide_eq_true.
  - move=> ->. by rewrite bool_decide_eq_true_2.
Qed.

Lemma autoChoice_admitted s :
  wp (λ _ r, match r with
             | Ok c => named snap c
             | Err (ReserveHeld _) => others exclude (pooledIDs snap) = true ∧ others exclude (permittedIDs snap) = false
             | Err AutoPoolEmpty => others exclude (pooledIDs snap) = false
             | Err _ => True
             end) s (autoChoice policy (Some snap) run).
Proof.
  apply wp_exclude, wp_andThen, wp_read => // cands s2 /(_ _ eq_refl) Hpool. apply wp_call => // now' s3 _.
  have Hne (c : AutoSelect.Candidate) : c ∈ cands → AutoSelect.AutoEligible c = true → AutoSelect.Rejected c = false →
    AutoSelect.SecretID c ≠ Uuid.Nil.
  { move=> Hc Ha Hr Hn. apply Hnil. rewrite -Hn. apply Hpool. eauto. }
  case Es: (AutoSelect.Select _ exclude policy now') => [out|//]. case Ep: (AutoSelect.Picked out).
  { exists (AutoSelect.OutSecretID out). split=> //.
    by have [cd [/dropBlocked_elem [_ ?] [_ ->]]] := AutoSelect.Select_picks _ _ _ _ _ Es Ep. }
  case Ef: (AutoSelect.Floor (dropBlocked _ _) exclude) => [id|].
  { exists id. split=> //. exact: floor_dropped Ef. }
  have Hperm : others exclude (permittedIDs snap) = false.
  { apply others_false => id Hid.
    have /Hpool [c [Hc [Hcid [Ha Hr]]]] := permitted_pooled _ _ Hid. subst id.
    move: Hid. rewrite /permittedIDs list_elem_of_In filter_In negb_true_iff => -[_ Hb].
    refine (proj1 (floor_others (dropBlocked (Some snap) cands) exclude _) Ef c _ Ha Hr).
    - move=> c' /dropBlocked_elem [? _]. exact: Hne.
    - exact/dropBlocked_elem. }
  rewrite /heldPool. case Ea: (AutoSelect.Floor cands exclude) => [id|] /=.
  - split=> //. apply not_false_is_true => /others_false Hall.
    have : AutoSelect.Floor cands exclude = None; last by rewrite Ea.
    apply (floor_others cands exclude Hne) => c Hc Ha Hr. apply Hall, Hpool. eauto.
  - apply others_false => id /Hpool [c [Hc [<- [Ha Hr]]]]. exact: (proj1 (floor_others cands exclude Hne) Ea).
Qed.

Definition fine (_ : unit) (r : result claimErr secretChoice) : Prop :=
  match r with Ok c => permitted snap (secretID c) | Err (ReserveHeld _) => False | Err _ => True end.

Lemma default_fine : held (defaultDecision snap) = false → permitted snap None.
Proof. by rewrite /defaultDecision /permitted; case: (defaultBlocked snap). Qed.
Lemma token_fine id : held (tokenDecision snap id) = false → permitted snap (Some id).
Proof. by rewrite /tokenDecision /permitted; case: (claudeBlocked snap id). Qed.

Lemma judgeChoice_fine s : held (judgeDecision snap exclude) = false → wp fine s (judgeChoice policy (Some snap) run).
Proof.
  rewrite /judgeDecision autoLane_spec => Hd. apply wp_andThen, wp_read => // b s1 /(_ _ eq_refl) ->.
  cbn [fst snd]. move: Hd. case: (String.eqb_spec (judgeMode snap) BindModeAuto) => [->|Hna].
  - move=> Hd. cbn [String.eqb Ascii.eqb Bool.eqb BindModeAuto BindModePinned]. apply: (wp_bind _ _ _ _ _ _ _ (autoChoice_admitted _)).
    move=> s2 [c|[why||b'||||]] //.
    + by move=> [id [/= -> ?]].
    + move=> [Hp Hn]. by rewrite Hn Hp in Hd.
    + move=> Hp. have Hn : others exclude (permittedIDs snap) = false.
      { apply others_false => id /permitted_pooled Hid. exact: (proj1 (others_false _) Hp). }
      rewrite Hn Hp in Hd. exact: default_fine.
  - case: (_ =?s BindModePinned)%go; last by move=> /default_fine.
    case: (judgeSecret snap) => [id /token_fine //|/default_fine //].
Qed.

Lemma auto_fine s : held (autoDecision snap exclude) = false → wp fine s (autoChoice policy (Some snap) run).
Proof.
  rewrite held_auto => Hd. apply: wp_weaken; last exact: autoChoice_admitted.
  move=> s1 [c|[why||b'||||]] //; first by move=> [id [/= -> ?]]. move=> [Hp Hn]. by rewrite Hn Hp in Hd.
Qed.

Lemma lane_fine wkr s : held (laneDecision snap (laneOfWorker wkr) exclude) = false →
  wp fine s (if (AnthropicBindMode wkr =?s BindModeAuto)%go then autoChoice policy (Some snap) run
             else ok (staticChoice (workerSecretID wkr) AutoSelect.ReasonPinned)).
Proof.
  rewrite /laneDecision /=. case: (_ =?s BindModeAuto)%go; first exact: auto_fine.
  rewrite /staticDecision /laneOfWorker /workerSecretID. cbn [laneSecret mode].
  case: (_ =?s BindModePinned)%go; cbn [negb]; last by move=> /default_fine.
  by case: (w_SecretID wkr) => [id /token_fine|/default_fine].
Qed.

Lemma override_fine wkr s : (Harness run =?s harnessCodex)%go = false → (Kind run =?s SelfImprove)%go = false →
  (Kind run =?s Judge)%go = false → held (credentialDecision run snap (laneOfWorker wkr) now) = false →
  wp (λ s r, match r with
             | Ok (Some c) => permitted snap (secretID c)
             | Ok None => held (laneDecision snap (laneOfWorker wkr) exclude) = false
             | Err e => fine s (Err e)
             end) s (runOverrideChoice policy (Some snap) run).
Proof.
  rewrite /credentialDecision => -> -> -> /=. rewrite /runOverrideChoice.
  case: (OverrideMode run) => [m|//].
  case: (String.eqb_spec m EmptyString) => [-> //|_].
  case: (m =?s BindModePinned)%go.
  { case: (OverrideSecretID run) => [id|//] Hd. apply wp_call => // -[row|[]] s1 _ //.
    case: (m_Disabled row) => //. exact: token_fine Hd. }
  case: (String.eqb_spec m BindModeDefault) => [-> /= /default_fine //|_].
  case: (m =?s BindModeAuto)%go => // Hd. apply wp_andThen. apply: wp_weaken; last exact: auto_fine.
  by move=> s1 [c|e].
Qed.

Lemma resolve_fine wkr s : (Harness run =?s harnessCodex)%go = false →
  held (credentialDecision run snap (laneOfWorker wkr) now) = false →
  wp (λ _ r, notHeld r) s (resolve policy (Some snap) wkr run).
Proof.
  move=> Hh Hd.
  have Hthen (p : M secretChoice) s1 : wp fine s1 p →
    wp (λ _ r, notHeld r) s1 (choice ←! p; _ ←! checkChoice (Some snap) choice; ok choice).
  { move=> H. apply wp_andThen. apply: wp_weaken H. move=> s2 [c|[]] //. rewrite /fine /permitted /checkChoice => Hp.
    apply wp_andThen. move: Hp. by case: (secretID c) => [id|] ->. }
  rewrite /resolve /claimSecretID /resolveClaimSecret.
  case Ej: (Kind run =?s Judge)%go; apply Hthen.
  { apply judgeChoice_fine. move: Hd. by rewrite /credentialDecision Hh Ej orb_true_r. }
  case Es: (Kind run =?s SelfImprove)%go.
  { apply judgeChoice_fine. move: Hd. by rewrite /credentialDecision Hh Es. }
  apply wp_andThen. apply: wp_weaken; last exact: override_fine Hh Es Ej Hd.
  move=> s1 [[c|]|e] //. exact: lane_fine.
Qed.
End AdmittedRun.

(** Without a gate nothing is held. *)
Section Ungated.
Context (policy : AutoSelect.Policy) (answers : unit → ∀ X, req X → X → unit → Prop).
Local Abbreviation wp := (wp answers (λ _ _ _, True)).

Lemma autoChoice_ungated run s : wp (λ _ r, notHeld r) s (autoChoice policy None run).
Proof.
  have H exclude s1 : wp (λ _ r, notHeld r) s1
    (allCands ←! read ListAutoSelectCandidates;
     now ← call Now;
     match AutoSelect.Select allCands exclude policy now with
     | None => fail Panicked
     | Some out =>
       if AutoSelect.Picked out then
         ok (mkChoice (Some (AutoSelect.OutSecretID out)) (AutoSelect.OutReason out)
               (Some (wrap16 (AutoSelect.OutHeadroom out))) false)
       else
       match AutoSelect.Floor allCands exclude with
       | Some id => ok (mkChoice (Some id) AutoSelect.ReasonPoolStale None false)
       | None => fail AutoPoolEmpty
       end
     end).
  { apply wp_andThen, wp_read => // cands s2 _. apply wp_call => // now s3 _.
    case: (AutoSelect.Select _ _ _ _) => [out|//]. case: (AutoSelect.Picked out) => //.
    by case: (AutoSelect.Floor _ _). }
  rewrite /autoChoice /claimExclude /claimExcludeFor.
  case: (LimitDeadSecretID run) => [id|]; last exact: H.
  case: (RetryNotBefore run) => [t|]; last exact: H. apply wp_call => // now s1 _. exact: H.
Qed.

Lemma judgeChoice_ungated run s : wp (λ _ r, notHeld r) s (judgeChoice policy None run).
Proof.
  apply wp_andThen, wp_read => // -[m id] s1 _ /=. case: (_ =?s _)%go; first by case: id.
  case: (_ =?s _)%go => //. apply: (wp_bind _ _ _ _ _ _ _ (autoChoice_ungated _ _)). by move=> s2 [c|[]].
Qed.

Lemma resolve_ungated wkr run s : wp (λ _ r, notHeld r) s (resolve policy None wkr run).
Proof.
  have Hthen (p : M secretChoice) s1 : wp (λ _ r, notHeld r) s1 p →
    wp (λ _ r, notHeld r) s1 (choice ←! p; _ ←! checkChoice None choice; ok choice).
  { move=> H. apply wp_andThen. apply: wp_weaken H. by move=> s2 [c|[]]. }
  rewrite /resolve /claimSecretID /resolveClaimSecret. case: (_ =?s _)%go; apply Hthen; first exact: judgeChoice_ungated.
  case: (_ =?s _)%go; first exact: judgeChoice_ungated.
  apply wp_andThen. apply: (wp_weaken _ _ (λ _ r, notHeld r)).
  { move=> s1 [[c|]|[]] // _. case: (_ =?s _)%go => //. exact: autoChoice_ungated. }
  rewrite /runOverrideChoice. case: (OverrideMode run) => [m|//]. case: (_ =?s _)%go => //. case: (_ =?s _)%go.
  { case: (OverrideSecretID run) => [id|//]. apply wp_call => // -[row|[]] s1 _ //. by case: (m_Disabled row). }
  case: (_ =?s _)%go; last by case: (_ =?s _)%go.
  apply wp_andThen. apply: wp_weaken; last exact: autoChoice_ungated. by move=> s1 [c|[]].
Qed.
End Ungated.

(** The gate of a claim's assembly. *)
Definition reserveGateFor (run : Run) (snap : reserveSnap) (now : time) : option reserveSnap :=
  if reserveEnforced run snap now then Some snap else None.

(** An admitted claim is not held again: when the claim statement lets a run
    through and the rows and the clock are still those of the snapshot, the ladder
    resolves its credential without a reserve hold, on every lane.  The three
    spellings of the rule, the statement, the decision and the ladder, agree. *)
Theorem admitted_not_held policy snap wkr peers runs run now :
  (Kind run =?s Chat)%go = false → micros (ExemptUntil run) → micros (RetryNotBefore run) → Uuid.Nil ∉ pooled snap →
  (∀ r', r' ∈ runs → r_ID r' = r_ID run → r' = run) → (ExemptUntil run ≠ None → run ∈ runs) →
  claimGate (reserveClaimParams snap wkr peers (reserveEndedOverrides snap runs now) now) run = Some true →
  wp (agrees snap now) (λ _ _ _, True) (λ _ r, notHeld r) tt (assemble policy (reserveGateFor run snap now) wkr run).
Proof.
  move=> Hchat Hu Hr Hnil Hkey Hin. rewrite claimGate_held // => -[Hadm].
  rewrite /reserveGateFor /assemble. case E: (reserveEnforced run snap now); last first.
  { case: (_ =?s _)%go => //. apply wp_andThen. apply: wp_weaken; last exact: resolve_ungated. by move=> s [c|[]]. }
  have {}Hadm : held (credentialDecision run snap (laneOfWorker wkr) now) = false.
  { move: Hadm. rewrite /reserveHeld E /=. by case: (held _). }
  case Hh: (Harness run =?s harnessCodex)%go.
  - move: Hadm. rewrite /credentialDecision Hh /checkCodex. case: (CodexSecretID run) => [id|//].
    rewrite /codexBlocked /blocked. case: (codex snap !! id) => [v|//]. by rewrite /decisionOf; case_bool_decide.
  - apply wp_andThen. apply: wp_weaken; last exact: resolve_fine. by move=> s [c|[]].
Qed.

(** * Example *)
Module Example.
Import Reserve.Example.
Definition fresh : Run :=
  mkRun (Uuid.mk 10) (Uuid.mk 9) "issue" "claude" None None None None None None None None None None None None.
Definition policy : AutoSelect.Policy := AutoSelect.mkPolicy AutoSelect.OrderResetFirst 10 5 Go.Hour 2.

Lemma admitted_not_held_witness :
  claimGate (reserveClaimParams snap worker [] (reserveEndedOverrides snap [fresh] now) now) fresh = Some true ∧
  reserveEnforced fresh snap now = true ∧
  wp (agrees snap now) (λ _ _ _, True) (λ _ r, notHeld r) tt (assemble policy (reserveGateFor fresh snap now) worker fresh).
Proof.
  split; [by vm_compute|split; [by vm_compute|]].
  apply (admitted_not_held policy snap worker [] [fresh] fresh now).
  - by vm_compute.
  - done.
  - done.
  - apply (bool_decide_unpack _). by vm_compute.
  - intros r' ->%list_elem_of_singleton. done.
  - done.
  - by vm_compute.
Defined.

(** The default of the snapshot is the second token, which is permitted; the first
    is blocked.  [db d] answers with the token [d] as the default. *)
Definition second : reserveSnap :=
  mkSnap (userID snap) (threshold snap) (pauseRunning snap) (claude snap) (codex snap) (synced snap) (pooled snap)
    (Uuid.mk 2) (judgeMode snap) (judgeSecret snap).
Definition onDefault : Worker := mkWorker (Uuid.mk 20) BindModeDefault None.
Definition db (d : Z) (s : readDefault) (X : Type) (r : req X) : readDefault * X :=
  match r in req X return readDefault * X with
  | Now => (s, now)
  | ListAutoSelectCandidates => (s, Ok [])
  | JudgeBinding => (s, Ok (BindModeDefault, None))
  | GetUserSecretMetaByIDOfKind id => (s, Ok (mkMeta id "token" false))
  | GetUserSecretMetaByID id => (None, Ok (mkMeta id "token" false))
  | GetDefaultUserSecretMeta => (Some (Uuid.mk d), Ok (mkMeta (Uuid.mk d) "default" false))
  | OpenByID _ => (s, Ok "sk-ant"%string)
  | UserHasAnthropicToken => (s, Ok true)
  | UserHasEnabledAnthropicToken => (s, Ok true)
  end.
Lemma db_rows d s X r : rows s X r (db d s X r).2 (db d s X r).1.
Proof. destruct r; try done. by split; [intros m [= <-]|]. Qed.

Definition opened (d : Z) : readDefault * result claimErr (claimCred * secretChoice) :=
  exec (db d) (spend policy (Some second) onDefault fresh) None.

(** The default as the snapshot had it: a permitted token is spent. *)
Lemma spend_permitted_witness :
  ∃ cred choice, (opened 2).2 = Ok (cred, choice) ∧ spent second (opened 2).1 (c_ID cred) (secretID choice) ∧
  claudeBlocked second (c_ID cred) = false.
Proof.
  eexists _, _. split; [by vm_compute|split; [|by vm_compute]].
  refine (wp_world rows (opens second) (db 2) _ None (spend policy (Some second) onDefault fresh) (db_rows 2)
    (spend_permitted policy second onDefault fresh) (_, _) _).
  by vm_compute.
Defined.

(** The exception happens: the blocked token is made the default after the check. *)
Example moved_default_is_spent :
  match (opened 1).2 with
  | Ok (cred, choice) => c_ID cred = Uuid.mk 1 ∧ claudeBlocked second (c_ID cred) = true ∧ secretID choice = None
  | Err _ => False
  end.
Proof. by vm_compute. Qed.

(** The same token pinned to the worker is refused. *)
Example pinned_blocked_is_held d :
  ∃ why, (exec (db d) (spend policy (Some second) (mkWorker (Uuid.mk 20) BindModePinned (Some (Uuid.mk 1))) fresh) None).2 =
    Err (ReserveHeld why).
Proof. eexists. by vm_compute. Qed.
End Example.

End ReserveSpend.
