(* ===== verification/CodexPool.v ===== *)
(** Choosing a Codex account at run creation
    ([src/api/internal/codexselect/score.go] and
    [src/api/internal/workersvc/codex_pool_select.go]).

    The pooled accounts of the owner are scored from their stored readings, the
    ones at a limit, in a cooldown or held by the weekly reserve are set apart,
    and [CodexSelect.Select] picks.  The reads of one selection happen in one
    transaction and are the record [poolReads]; the fence that re-reads the
    picked alias under a lock is a program. *)

From S2P Require Import Prelude Result Prog GoFloat AutoSelect CodexSelect UsageReserve Reserve.

Local Open Scope Z_scope.

Module CodexPool.
Import GoFloat UsageReserve.
#[local] Existing Instance CodexSelect.AutoSelect_Ranker.

(** * Scores *)
Definition mainBucket (buckets : list BucketDTO) : option BucketDTO :=
  List.find (λ b, (ID b =?s CodexMainBucketID)%go) buckets.

(** The loop over the windows: the binding window with its clamped percent;
    [None] is the early return. *)
Fixpoint scanBinding (ws : list WindowDTO) (binding : option (WindowDTO * float64))
    : option (option (WindowDTO * float64)) :=
  match ws with
  | [] => Some binding
  | w :: ws' =>
    match usable w with
    | None => None
    | Some p =>
      let u := fmin p (ofZ 100) in
      scanBinding ws' (match binding with
                       | None => Some (w, u)
                       | Some (_, maxUtil) => if ltb maxUtil u then Some (w, u) else binding
                       end)
    end
  end.

(** The score and the reset of the binding window; [None] when not known. *)
Definition Score (r : CodexReading) (meterFresh : bool) (interval : duration) (now : time)
    : option (float64 * option time) :=
  if negb meterFresh || negb (cPresent r) then None else
  match LastSuccessAt r with
  | None => None
  | Some readAt =>
    if Stale readAt true interval now then None else
    match mainBucket (Buckets r) with
    | None => None
    | Some b =>
      match scanBinding (windowsOf b) None with
      | None | Some None => None
      | Some (Some (w, maxUtil)) =>
        let reset := CodexWindowReset w readAt in
        if PreReset reset readAt now then None else Some (sub (ofZ 100) maxUtil, reset)
      end
    end
  end.

Definition LimitReached (buckets : list BucketDTO) : bool :=
  match mainBucket buckets with
  | None => false
  | Some b => default false (UsageReserve.LimitReached b) || negb (default true (Allowed b))
  end.

(** * Rows *)
Definition codexStatusLinked : string := "linked".
Definition codexCoordQuarantined : string := "quarantined".

Record PoolRow := mkPool {
  p_Alias : uuid; p_Enabled : bool; p_LinkStatus : option string; p_Account : option uuid;
  p_ProviderUser : option string; p_Workspace : option string; p_Coord : option string; p_Reauth : option bool;
  p_ThrottleExpiry : option time; p_SpreadMs : option Z;
}.
Record RateRow := mkRate {
  l_Account : uuid; l_Reauth : bool; l_Buckets : Reserve.stored; l_LastSuccess : option time; l_LastAttempt : option time;
}.

Definition codexPoolAccountUsable (coord : option string) (reauth : option bool) : bool :=
  match coord, reauth with
  | Some c, Some r => negb (c =?s codexCoordQuarantined)%go && negb r
  | _, _ => false
  end.
Definition codexPoolRowStructural (r : PoolRow) : bool :=
  p_Enabled r && match p_LinkStatus r with Some s => (s =?s codexStatusLinked)%go | None => false end &&
  match p_Account r, p_ProviderUser r, p_Workspace r with Some _, Some _, Some _ => true | _, _, _ => false end &&
  codexPoolAccountUsable (p_Coord r) (p_Reauth r).

(** * Candidates *)

(** The latest of the release times, and whether all of them are known. *)
Definition addRelease (acc : option time * bool) (t : option time) : option time * bool :=
  match t with
  | None => (acc.1, false)
  | Some t' => (match acc.1 with
                | None => Some t'
                | Some cur => if Go.after t' cur then Some t' else Some cur
                end, acc.2)
  end.

Definition throttledUntil (row : PoolRow) : option time :=
  match p_ThrottleExpiry row with
  | None => None
  | Some e => Some (match p_SpreadMs row with Some ms => Go.add e (ms * Go.Millisecond) | None => e end)
  end.

Section Candidates.
Context (interval : duration) (vaultLocked : bool) (now : time).
Context (byAccount : gmap uuid RateRow) (inflight : gmap uuid Z) (snap : Reserve.reserveSnap).

Definition readingOf (id : uuid) : CodexReading * bool :=
  match byAccount !! id with
  | None => (mkCodex false [] None, false)
  | Some rl =>
    (match l_LastSuccess rl, l_Buckets rl with
     | Some t, Reserve.Decoded bs => mkCodex true bs (Some t)
     | _, _ => mkCodex false [] None
     end,
     bool_decide (CodexMeterStatus interval vaultLocked (l_Reauth rl) (l_LastSuccess rl) (l_LastAttempt rl) now = CodexMeterFresh))
  end.

Definition scoreCandidate (row : PoolRow) : CodexSelect.Candidate :=
  let id := default Uuid.Nil (p_Account row) in
  let '(reading, meterFresh) := readingOf id in
  let scored := Score reading meterFresh interval now in
  let resetAt := scored ≫= snd in
  let weekly := if cPresent reading then LastSuccessAt reading ≫= λ t, CodexMainWeeklyReset (Buckets reading) t now else None in
  let limited := meterFresh && cPresent reading && LimitReached (Buckets reading) in
  let rel := (None, true) in
  let rel := if limited then addRelease rel resetAt else rel in
  let throttle := match throttledUntil row with Some u => if Go.after u now then Some u else None | None => None end in
  let rel := match throttle with Some u => addRelease rel (Some u) | None => rel end in
  let held := Reserve.codexBlocked snap (p_Alias row) in
  let rel := if held then
               match Reserve.codex snap !! p_Alias row with
               | Some v => if bool_decide (vState v = Held) then addRelease rel (ResetsAt v) else addRelease rel None
               | None => addRelease rel None
               end
             else rel in
  CodexSelect.mkCandidate id (p_Alias row) true
    (limited || (match throttle with Some _ => true | None => false end) || held)
    (match scored with Some (s, _) => s | None => ofZ 0 end)
    (match scored with Some _ => true | None => false end)
    resetAt weekly rel.1 (rel.2 && match rel.1 with Some _ => true | None => false end)
    (default 0 (inflight !! id)).
End Candidates.

(** * The selection *)
Record poolReads := mkPoolReads {
  ListCodexPoolAliases : result unit (list PoolRow);
  GetCodexAccountRateLimitsForUser : result unit (list RateRow);
  CountCodexInFlightByAccount : result unit (list (uuid * Z));
  reserveReads : Reserve.reserveReads unit;
  vaultUnlocked : bool;
}.

Inductive poolErr := PoolUnavailable | ReadFailed | SelectFailed.

(** The lowest structural alias of each account, in the order the accounts were
    first seen. *)
Definition groupStep (exclude : gset uuid) (acc : list uuid * gmap uuid PoolRow) (r : PoolRow) : list uuid * gmap uuid PoolRow :=
  if bool_decide (p_Alias r ∈ exclude) || negb (codexPoolRowStructural r) then acc else
  let id := default Uuid.Nil (p_Account r) in
  match acc.2 !! id with
  | None => (acc.1 ++ [id], <[id := r]> acc.2)
  | Some a => if CodexSelect.bytesLess (p_Alias r) (p_Alias a) then (acc.1, <[id := r]> acc.2) else acc
  end.

Record codexPoolPick := mkPick {
  k_Alias : uuid; k_Account : uuid; k_ProviderUser : string; k_Workspace : string; k_Reason : CodexSelect.Reason;
  k_Candidate : option CodexSelect.Candidate;
}.

Definition toResult {A} (r : result unit A) : result poolErr A := match r with Ok a => Ok a | Err _ => Err ReadFailed end.

Section Select.
Context (undefInt nanInt16 : Z) (iv : Reserve.reserveIntervals) (policy : AutoSelect.Policy) (user : uuid).

Definition scoreCodexCandidates (q : poolReads) (rows : list PoolRow) (now : time) : result poolErr (list CodexSelect.Candidate) :=
  readings ← toResult (GetCodexAccountRateLimitsForUser q);
  counts ← toResult (CountCodexInFlightByAccount q);
  snap ← toResult (Reserve.buildReserveSnapshot undefInt iv now (reserveReads q) user);
  let byAccount := foldl (λ m r, <[l_Account r := r]> m) ∅ readings in
  let inflight := foldl (λ m r, <[r.1 := r.2]> m) ∅ counts in
  mret (scoreCandidate (Reserve.ivCodex iv) (negb (vaultUnlocked q)) now byAccount inflight snap <$> rows).

Definition selectCodexPoolAlias (q : poolReads) (exclude : gset uuid) (now : time) : result poolErr codexPoolPick :=
  rows ← toResult (ListCodexPoolAliases q);
  let '(order, accounts) := foldl (groupStep exclude) ([], ∅) rows in
  match order with
  | [] => Err PoolUnavailable
  | _ =>
    cands ← scoreCodexCandidates q (omap (λ id, accounts !! id) order) now;
    match CodexSelect.Select nanInt16 AutoSelect.Select cands policy now with
    | inr _ => Err SelectFailed
    | inl out =>
      if negb (CodexSelect.Picked out) then Err PoolUnavailable else
      let row := accounts !! CodexSelect.OutKey out in
      Ok (mkPick (CodexSelect.OutAlias out) (CodexSelect.OutKey out)
            (default EmptyString (row ≫= p_ProviderUser)) (default EmptyString (row ≫= p_Workspace))
            (CodexSelect.OutReason out)
            (List.find (λ c, bool_decide (CodexSelect.AccountKey c = CodexSelect.OutKey out)) cands))
    end
  end.
End Select.

(** * Scores are exact *)
Definition withUtil (w : WindowDTO) : WindowDTO * float64 := (w, clampPercent (percent w)).

Lemma scanBinding_spec ws best : Forall wfWindow ws → sound best →
  scanBinding ws (withUtil <$> best) =
    if forallb readable ws then Some (withUtil <$> topFrom best ws) else None.
Proof.
  move=> Hws. elim: Hws best => [|w {}ws Hw _ IH] best Hs; first by rewrite /= topFrom_nil.
  rewrite /=. case E: (usable w) => [p|]; last by rewrite /readable E.
  have Hr : readable w = true by rewrite /readable E. have Ep : percent w = p by rewrite /percent E.
  have -> : match withUtil <$> best with
            | Some (_, maxUtil) => if ltb maxUtil (fmin p (ofZ 100)) then Some (w, fmin p (ofZ 100)) else withUtil <$> best
            | None => Some (w, fmin p (ofZ 100))
            end = withUtil <$> better best w.
  { case: best Hs => [b|] Hs /=; last by rewrite /withUtil Ep.
    have [Hb Hrb] := Hs _ eq_refl. rewrite -[fmin p _]/(clampPercent p) -Ep ltb_used //. by case: (_ <? _). }
  rewrite Hr IH; [exact: sound_better|]. by rewrite topFrom_step.
Qed.

(** The score is known exactly for a fresh reading whose main bucket reports only
    readable windows and whose fullest window has not reset since; it is then 100
    less that window's used percent, with that window's reset.  Other buckets and
    the order of the windows steer nothing. *)
Theorem Score_correct r meterFresh interval now :
  Forall wfWindow (Buckets r ≫= windowsOf) →
  Score r meterFresh interval now =
    match LastSuccessAt r, mainBucket (Buckets r) with
    | Some readAt, Some b =>
      match top (windowsOf b) with
      | Some w =>
        if meterFresh && cPresent r && negb (Stale readAt true interval now) && forallb readable (windowsOf b)
           && negb (PreReset (CodexWindowReset w readAt) readAt now)
        then Some (sub (ofZ 100) (clampPercent (percent w)), CodexWindowReset w readAt) else None
      | None => None
      end
    | _, _ => None
    end.
Proof.
  move=> Hwf. rewrite /Score. case: (LastSuccessAt r) => [readAt|]; last by case: (_ || _).
  case Eb: (mainBucket (Buckets r)) => [b|]; last by case: (_ || _) => //; case: (Stale _ _ _ _).
  have Hb : Forall wfWindow (windowsOf b).
  { have [Hin _] := List.find_some _ _ Eb. apply Forall_forall => w Hw.
    move: Hwf => /Forall_forall. apply. apply list_elem_of_bind. exists b. split=> //. exact/list_elem_of_In. }
  have -> := scanBinding_spec (windowsOf b) None Hb ltac:(done). rewrite /=.
  case: meterFresh; case: (cPresent r); case: (Stale _ _ _ _) => //=; try by case: (top _).
  case: (forallb readable _) => /=; last by case: (top _).
  case: (top _) => [w|//] /=. by case: (PreReset _ _ _).
Qed.

(** * Grouping by account *)
Definition eligible (exclude : gset uuid) (r : PoolRow) : bool :=
  negb (bool_decide (p_Alias r ∈ exclude)) && codexPoolRowStructural r.
Definition accountOf (r : PoolRow) : uuid := default Uuid.Nil (p_Account r).

Lemma structural_account r : codexPoolRowStructural r = true → p_Account r = Some (accountOf r).
Proof. rewrite /codexPoolRowStructural /accountOf => /andb_prop [/andb_prop [_]]. by case: (p_Account r). Qed.

(** The lowest eligible alias of its account. *)
Definition lowestRow (exclude : gset uuid) (rows : list PoolRow) (r : PoolRow) : Prop :=
  r ∈ rows ∧ eligible exclude r = true ∧
  ∀ r', r' ∈ rows → eligible exclude r' = true → accountOf r' = accountOf r → CodexSelect.bytesLess (p_Alias r') (p_Alias r) = false.

Definition grouped (exclude : gset uuid) (rows : list PoolRow) (acc : list uuid * gmap uuid PoolRow) : Prop :=
  NoDup acc.1 ∧ (∀ id, id ∈ acc.1 ↔ is_Some (acc.2 !! id)) ∧
  (∀ id r, acc.2 !! id = Some r → accountOf r = id ∧ lowestRow exclude rows r) ∧
  (∀ r, r ∈ rows → eligible exclude r = true → accountOf r ∈ acc.1).

Lemma lowestRow_snoc exclude rows r x :
  lowestRow exclude rows r → (eligible exclude x = true → accountOf x = accountOf r → CodexSelect.bytesLess (p_Alias x) (p_Alias r) = false) →
  lowestRow exclude (rows ++ [x]) r.
Proof.
  move=> [Hin [He Hall]] Hx. split_and!; [set_solver|done|].
  move=> r' /elem_of_app [Hr'|/list_elem_of_singleton ->]; [exact: Hall|exact: Hx].
Qed.

Lemma lowest_insert exclude rows (m : gmap uuid PoolRow) r :
  (∀ id r', m !! id = Some r' → accountOf r' = id ∧ lowestRow exclude rows r') → eligible exclude r = true →
  (∀ r', r' ∈ rows → eligible exclude r' = true → accountOf r' = accountOf r → CodexSelect.bytesLess (p_Alias r') (p_Alias r) = false) →
  ∀ id r', <[accountOf r := r]> m !! id = Some r' → accountOf r' = id ∧ lowestRow exclude (rows ++ [r]) r'.
Proof.
  move=> Hlow He Hall id r'. destruct (base.decide (id = accountOf r)) as [->|Hne].
  - rewrite lookup_insert_eq => -[<-]. split=> //. split_and!; [set_solver|done|].
    move=> r'' /elem_of_app [? ? ?|/list_elem_of_singleton -> _ _]; [exact: Hall|exact: CodexSelect.bytesLess_irrefl].
  - rewrite lookup_insert_ne // => /Hlow [Hk Hl]. split=> //. apply lowestRow_snoc => // _ Hk'. by rewrite -Hk -Hk' in Hne.
Qed.

Lemma dom_insert_id (l : list uuid) (m : gmap uuid PoolRow) k r : (∀ id, id ∈ l ↔ is_Some (m !! id)) →
  ∀ id, (id ∈ l ∨ id = k) ↔ is_Some (<[k := r]> m !! id).
Proof.
  move=> Hdom id. destruct (base.decide (id = k)) as [->|Hne].
  - rewrite lookup_insert_eq. split; [by eauto|by right].
  - rewrite lookup_insert_ne // Hdom. naive_solver.
Qed.

Lemma grouped_step exclude rows acc r : grouped exclude rows acc → grouped exclude (rows ++ [r]) (groupStep exclude acc r).
Proof.
  move=> [Hnd [Hdom [Hlow Hall]]]. rewrite /groupStep.
  have -> : bool_decide (p_Alias r ∈ exclude) || negb (codexPoolRowStructural r) = negb (eligible exclude r).
  { rewrite /eligible. by case: bool_decide; case: (codexPoolRowStructural r). }
  case He: (eligible exclude r) => /=; last first.
  { split_and!; [done|done| |].
    - move=> id r' /Hlow [? ?]. split=> //. by apply lowestRow_snoc; [|rewrite He].
    - move=> r' /elem_of_app [? ?|/list_elem_of_singleton ->]; [exact: Hall|by rewrite He]. }
  rewrite -/(accountOf r). case Ea: (acc.2 !! accountOf r) => [a|].
  - have [Haa [Ha [Hea Hla]]] := Hlow _ _ Ea. have Hin : accountOf r ∈ acc.1 by apply Hdom; rewrite Ea; eauto.
    have Hall' r' : r' ∈ rows ++ [r] → eligible exclude r' = true → accountOf r' ∈ acc.1.
    { move=> /elem_of_app [? ?|/list_elem_of_singleton -> //]. exact: Hall. }
    case El: (CodexSelect.bytesLess (p_Alias r) (p_Alias a)); split_and!; try done.
    + move=> id /=. rewrite -(dom_insert_id acc.1 acc.2) //. split; [by left|by case=> [//|->]].
    + apply lowest_insert => // r' Hr' He' Hk. apply: CodexSelect.bytesLess_le_trans; [|exact: El].
      apply Hla => //. by rewrite Haa.
    + move=> id r' Hr'. have [Hk Hl] := Hlow _ _ Hr'. split=> //. apply lowestRow_snoc => // _ Hk'.
      rewrite Hk in Hk'. rewrite -Hk' Ea in Hr'. by case: Hr' => <-.
  - have Hni : accountOf r ∉ acc.1 by rewrite Hdom Ea; case.
    split_and!.
    + apply NoDup_app; split_and!; [done| |exact: NoDup_singleton]. by move=> x Hx /list_elem_of_singleton Ex; subst x.
    + move=> id /=. rewrite elem_of_app list_elem_of_singleton. exact: dom_insert_id.
    + apply lowest_insert => // r' Hr' He' Hk. exfalso. apply Hni. rewrite -Hk. exact: Hall.
    + move=> r' /elem_of_app [? ?|/list_elem_of_singleton -> _] /=; rewrite elem_of_app; [left; exact: Hall|right; set_solver].
Qed.

Lemma grouped_foldl exclude rows : grouped exclude rows (foldl (groupStep exclude) ([], ∅) rows).
Proof.
  induction rows as [|r rows IH] using rev_ind.
  - split_and!; [exact: NoDup_nil_2| |by move=> ??; rewrite lookup_empty|set_solver].
    move=> id /=. rewrite lookup_empty elem_of_nil. split=> // -[? //].
  - rewrite foldl_app /=. exact: grouped_step.
Qed.

(** * Capacity *)
Section Capacity.
Context (interval : duration) (vaultLocked : bool) (now : time).
Context (byAccount : gmap uuid RateRow) (inflight : gmap uuid Z) (snap : Reserve.reserveSnap).
Local Abbreviation cand := (scoreCandidate interval vaultLocked now byAccount inflight snap).
Local Abbreviation readingOf := (readingOf interval vaultLocked now byAccount).

Definition atLimit (row : PoolRow) : bool :=
  (readingOf (accountOf row)).2 && cPresent (readingOf (accountOf row)).1 && LimitReached (Buckets (readingOf (accountOf row)).1).
Definition cooling (row : PoolRow) : bool := match throttledUntil row with Some u => Go.after u now | None => false end.
(** Nothing stops the account: no reached limit on a fresh reading, no cooldown
    in force, no hold of the weekly reserve. *)
Definition hasCapacity (row : PoolRow) : bool :=
  negb (atLimit row) && negb (cooling row) && negb (Reserve.codexBlocked snap (p_Alias row)).

Lemma cand_key row : CodexSelect.AccountKey (cand row) = accountOf row.
Proof. rewrite /scoreCandidate. by case: (CodexPool.readingOf _ _ _ _ _). Qed.
Lemma cand_alias row : CodexSelect.AliasID (cand row) = p_Alias row.
Proof. rewrite /scoreCandidate. by case: (CodexPool.readingOf _ _ _ _ _). Qed.
Lemma cand_usable row : accountOf row ≠ Uuid.Nil → CodexSelect.usable (cand row) = true.
Proof.
  move=> Hne. rewrite /CodexSelect.usable cand_key bool_decide_eq_false_2 //=. rewrite /scoreCandidate.
  by case: (CodexPool.readingOf _ _ _ _ _).
Qed.
Lemma cand_capacity row : CodexSelect.CapacityExcluded (cand row) = negb (hasCapacity row).
Proof.
  rewrite /hasCapacity /atLimit /cooling /scoreCandidate -/(accountOf row).
  case: (CodexPool.readingOf _ _ _ _ _) => [reading fresh] /=.
  move: (fresh && cPresent reading && LimitReached (Buckets reading)) => lim. rewrite !negb_andb !negb_involutive.
  case: (throttledUntil row) => [u|//] /=. by case: (Go.after u now).
Qed.
End Capacity.

(** * The pick *)
Section Pick.
Context (undefInt nanInt16 : Z) (iv : Reserve.reserveIntervals) (policy : AutoSelect.Policy) (user : uuid).
Context (q : poolReads) (exclude : gset uuid) (now : time).
Context (rows : list PoolRow) (rates : list RateRow) (counts : list (uuid * Z)) (snap : Reserve.reserveSnap).
Context (Hrows : ListCodexPoolAliases q = Ok rows) (Hrates : GetCodexAccountRateLimitsForUser q = Ok rates).
Context (Hcounts : CountCodexInFlightByAccount q = Ok counts).
Context (Hsnap : Reserve.buildReserveSnapshot undefInt iv now (reserveReads q) user = Ok snap).
Context (Hnd : NoDup (p_Alias <$> rows)) (Hids : ∀ r, r ∈ rows → p_Account r ≠ Some Uuid.Nil).

Definition readings : gmap uuid RateRow := foldl (λ m r, <[l_Account r := r]> m) ∅ rates.
Definition inflight : gmap uuid Z := foldl (λ m r, <[r.1 := r.2]> m) ∅ counts.
Definition candidate : PoolRow → CodexSelect.Candidate :=
  scoreCandidate (Reserve.ivCodex iv) (negb (vaultUnlocked q)) now readings inflight snap.
Definition capacity : PoolRow → bool := hasCapacity (Reserve.ivCodex iv) (negb (vaultUnlocked q)) now readings snap.

(** What a pick promises. *)
Definition picked (pick : codexPoolPick) : Prop :=
  ∃ row, lowestRow exclude rows row ∧ p_Account row = Some (k_Account pick) ∧ p_Alias row = k_Alias pick ∧
    k_Candidate pick = Some (candidate row) ∧
    p_ProviderUser row = Some (k_ProviderUser pick) ∧ p_Workspace row = Some (k_Workspace pick) ∧
    match k_Reason pick with
    | CodexSelect.ReasonPoolExhausted => ∀ row', lowestRow exclude rows row' →
        capacity row' = false ∧ CodexSelect.releaseLess (candidate row') (candidate row) = false
    | _ => capacity row = true
    end.

Lemma scored_rows l : scoreCodexCandidates undefInt iv user q l now = Ok (candidate <$> l).
Proof. by rewrite /scoreCodexCandidates Hrates /= Hcounts /= Hsnap. Qed.

Lemma lowest_not_nil row : lowestRow exclude rows row → accountOf row ≠ Uuid.Nil.
Proof.
  move=> [Hin [/andb_prop [_ /structural_account Ha] _]] Hn. apply (Hids _ Hin). by rewrite Ha Hn.
Qed.

Lemma eligible_identity row : eligible exclude row = true → ∃ u w, p_ProviderUser row = Some u ∧ p_Workspace row = Some w.
Proof.
  move=> /andb_prop [_]. rewrite /codexPoolRowStructural => /andb_prop [/andb_prop [_ H] _]. move: H.
  case: (p_Account row) => [?|//]. case: (p_ProviderUser row) => [u|//]. case: (p_Workspace row) => [w|//] _. eauto.
Qed.

(** The groups as a list of rows, one per account. *)
Definition groups : list PoolRow :=
  let acc := foldl (groupStep exclude) ([], ∅) rows in omap (λ id, acc.2 !! id) acc.1.

Lemma groups_elem row : row ∈ groups ↔ lowestRow exclude rows row ∧
  (foldl (groupStep exclude) ([], ∅) rows).2 !! accountOf row = Some row.
Proof.
  have [_ [Hdom [Hlow _]]] := grouped_foldl exclude rows. rewrite /groups list_elem_of_omap. split.
  - move=> [id [Hid Hr]]. have [Hk ?] := Hlow _ _ Hr. split=> //. by rewrite Hk.
  - move=> [_ Hr]. exists (accountOf row). split=> //. apply Hdom. eauto.
Qed.

Lemma lowest_unique row row' : lowestRow exclude rows row → lowestRow exclude rows row' → accountOf row = accountOf row' → row = row'.
Proof.
  move=> [Hr [He Hl]] [Hr' [He' Hl']] Hk. apply: (NoDup_fmap_elem p_Alias rows) => //.
  apply CodexSelect.bytesLess_tie; [exact: Hl'|exact: Hl].
Qed.

Lemma lowest_groups row : lowestRow exclude rows row → row ∈ groups.
Proof.
  move=> Hl. have [Hin [He _]] := Hl. have [_ [Hdom [Hlow Hall]]] := grouped_foldl exclude rows.
  have /Hdom [row' Hr'] := Hall _ Hin He. have [Hk Hl'] := Hlow _ _ Hr'. apply groups_elem. split=> //.
  by rewrite Hr' (lowest_unique row' row).
Qed.

Lemma groups_keys : NoDup (CodexSelect.AccountKey <$> (candidate <$> groups)).
Proof.
  have [Hndo [Hdom [Hlow _]]] := grouped_foldl exclude rows. rewrite /groups.
  move: Hlow Hndo. move: (foldl (groupStep exclude) ([], ∅) rows) => [order m] /= Hlow.
  elim: order => [|id order IH] /=; first by move=> _; exact: NoDup_nil_2.
  move=> /NoDup_cons [Hni Hndo]. case E: (m !! id) => [r|]; last exact: IH.
  rewrite /= cand_key. have [-> _] := Hlow _ _ E. apply NoDup_cons. split; last exact: IH.
  move=> /list_elem_of_fmap [c [Hk /list_elem_of_fmap [r' [Hc /list_elem_of_omap [id' [Hid' Hr']]]]]].
  rewrite Hc cand_key in Hk. have [Hk' _] := Hlow _ _ Hr'. by subst.
Qed.

Lemma cand_elem c : c ∈ candidate <$> groups → ∃ row, c = candidate row ∧ row ∈ groups ∧ lowestRow exclude rows row.
Proof. move=> /list_elem_of_fmap [row [-> Hr]]. exists row. split_and!; try done. by apply groups_elem in Hr as [? _]. Qed.

(** The pick built from a chosen candidate. *)
Lemma picked_of row reason :
  row ∈ groups → match reason with
    | CodexSelect.ReasonPoolExhausted => ∀ row', lowestRow exclude rows row' →
        capacity row' = false ∧ CodexSelect.releaseLess (candidate row') (candidate row) = false
    | _ => capacity row = true
    end →
  let stored := (foldl (groupStep exclude) ([], ∅) rows).2 !! accountOf row in
  picked (mkPick (p_Alias row) (accountOf row) (default EmptyString (stored ≫= p_ProviderUser))
    (default EmptyString (stored ≫= p_Workspace)) reason
    (List.find (λ c, bool_decide (CodexSelect.AccountKey c = accountOf row)) (candidate <$> groups))).
Proof.
  move=> Hg Hreason. have Hg' := Hg. move: Hg' => /groups_elem [Hl Hst]. rewrite /= Hst /=. exists row.
  have [Hin [He _]] := Hl. have [u [w [Eu Ew]]] := eligible_identity _ He. rewrite Eu Ew.
  have Ha : p_Account row = Some (accountOf row) by apply structural_account; move: He => /andb_prop [].
  split_and!; try done. cbn [k_Candidate].
  have Hc : candidate row ∈ candidate <$> groups by apply list_elem_of_fmap_2.
  case Ef: (List.find _ _) => [c|]; last first.
  { have := List.find_none _ _ Ef (candidate row) (proj1 (list_elem_of_In _ _) Hc).
    by rewrite cand_key bool_decide_eq_true_2. }
  have [Hc' /bool_decide_eq_true Hk] := List.find_some _ _ Ef. f_equal.
  apply: (NoDup_fmap_elem CodexSelect.AccountKey) => //; [exact: groups_keys|exact/list_elem_of_In|].
  by rewrite Hk cand_key.
Qed.

Lemma alias_of row a (P : CodexSelect.Candidate → Prop) `{!∀ c, Decision (P c)} : row ∈ groups →
  CodexSelect.lowestAlias (filter P (candidate <$> groups)) (CodexSelect.AccountKey (candidate row)) a → a = p_Alias row.
Proof.
  move=> Hg [[c [Hc [Hk <-]]] _]. apply list_elem_of_filter in Hc as [_ Hc].
  have -> : c = candidate row.
  { apply: (NoDup_fmap_elem CodexSelect.AccountKey _ _ _ groups_keys) => //. exact: list_elem_of_fmap_2. }
  exact: cand_alias.
Qed.

Lemma normal_capacity row : CodexSelect.normal (candidate row) = true → capacity row = true.
Proof. rewrite /CodexSelect.normal cand_capacity negb_involutive => /andb_prop [_ ?]. done. Qed.

(** The account of a new run: the selection fails only when the pool has no
    usable account; otherwise it binds the lowest usable alias of an account that
    has capacity, that is, no limit reached on a fresh reading, no cooldown in
    force and no weekly-reserve hold, and an account without capacity only when
    none has it, then the one released first. *)
Theorem pool_pick : match selectCodexPoolAlias undefInt nanInt16 iv policy user q exclude now with
  | Ok pick => picked pick
  | Err e => e = PoolUnavailable ∧ ∀ r, r ∈ rows → eligible exclude r = false
  end.
Proof.
  rewrite /selectCodexPoolAlias Hrows /=. have Hgr := grouped_foldl exclude rows.
  have Eg : groups = omap (λ id, (foldl (groupStep exclude) ([], ∅) rows).2 !! id) (foldl (groupStep exclude) ([], ∅) rows).1 by [].
  have Hpk := picked_of. move: Hgr Eg Hpk. destruct (foldl (groupStep exclude) ([], ∅) rows) as [order m] eqn:Ef.
  move=> [_ [Hdom [_ Hall]]] /= Eg Hpk.
  case Eo: order => [|id0 order0].
  { split=> // r Hr. apply not_true_is_false => /(Hall r Hr). rewrite /= Eo. exact: not_elem_of_nil. }
  rewrite -Eo -Eg scored_rows /=.
  destruct (CodexSelect.Select_chosen nanInt16 now AutoSelect.Select policy (candidate <$> groups)) as (o & Ho & Hch).
  rewrite Ho. clear Ho. destruct Hch as [Hno|c a reason Hc Hn _ Hre Hal|c a Hc Hn _ Hal|c Hc Hu Hall'].
  - exfalso. have /Hdom [row Hr] : id0 ∈ order by rewrite Eo; left.
    have Hg : row ∈ groups by rewrite Eg; apply list_elem_of_omap; exists id0; split=> //; rewrite Eo; left.
    have [Hl _] := proj1 (groups_elem row) Hg.
    have := Hno (candidate row) (list_elem_of_fmap_2 _ _ _ Hg). by rewrite cand_usable //; exact: lowest_not_nil.
  - have [row [Er [Hg _]]] := cand_elem _ Hc. subst c. rewrite (alias_of _ _ _ Hg Hal) cand_key. apply Hpk => //.
    case: Hre => ->; exact: normal_capacity.
  - have [row [Er [Hg _]]] := cand_elem _ Hc. subst c. rewrite (alias_of _ _ _ Hg Hal) cand_key. apply Hpk => //.
    exact: normal_capacity.
  - have [row [Er [Hg _]]] := cand_elem _ Hc. subst c. rewrite cand_alias cand_key. apply Hpk => // row' Hl'.
    have Hg' := lowest_groups _ Hl'. have [|Hx ?] := Hall' _ (list_elem_of_fmap_2 candidate _ _ Hg').
    + apply cand_usable. exact: lowest_not_nil.
    + split=> //. move: Hx. by rewrite cand_capacity => /negb_true_iff.
Qed.
End Pick.

(** * The fence *)
Definition KindCodexAuth : string := "codex_auth".
Definition codexSelectMaxFenceAttempts : nat := 3.

Record LockRow := mkLock {
  f_Kind : string; f_AutoEligible : bool; f_Enabled : bool; f_Status : option string; f_Account : option uuid;
  f_Coord : option string; f_Reauth : option bool;
}.
(** [Ok None] is the answer without a row. *)
Inductive req : Type → Type :=
  | LockCodexPoolAliasForSelection (alias : uuid) : req (result unit (option LockRow))
  | Reselect (dropped : gset uuid) : req (result poolErr codexPoolPick).

Definition rowHolds (account : uuid) (row : LockRow) : bool :=
  (f_Kind row =?s KindCodexAuth)%go && f_AutoEligible row && f_Enabled row &&
  match f_Status row with Some st => (st =?s codexStatusLinked)%go | None => false end &&
  bool_decide (f_Account row = Some account) && codexPoolAccountUsable (f_Coord row) (f_Reauth row).

Definition codexPoolPickHolds (pick : codexPoolPick) : prog req (result poolErr bool) :=
  row ← call (LockCodexPoolAliasForSelection (k_Alias pick));
  match row with
  | Err _ => mret (Err ReadFailed)
  | Ok None => mret (Ok false)
  | Ok (Some row) => mret (Ok (rowHolds (k_Account pick) row))
  end.

(** [left] attempts remain after this one. *)
Fixpoint fenceFrom (left : nat) (dropped : gset uuid) (pick : codexPoolPick) : prog req (result poolErr codexPoolPick) :=
  holds ← codexPoolPickHolds pick;
  match holds with
  | Err e => mret (Err e)
  | Ok true => mret (Ok pick)
  | Ok false =>
    let dropped := {[k_Alias pick]} ∪ dropped in
    match left with
    | O => mret (Err PoolUnavailable)
    | S left' =>
      next ← call (Reselect dropped);
      match next with
      | Err e => mret (Err e)
      | Ok pick => fenceFrom left' dropped pick
      end
    end
  end.
Definition fenceCodexPoolAlias (pick : codexPoolPick) : prog req (result poolErr codexPoolPick) :=
  fenceFrom (pred codexSelectMaxFenceAttempts) ∅ pick.

(** The monitor: the number of locks, the aliases whose re-read did not confirm
    them, and the last row read. *)
Record fenceState := mkFence { locks : nat; refused : gset uuid; lastRow : option (uuid * option LockRow) }.
Definition fenceUpd (s : fenceState) (X : Type) (r : req X) : X → fenceState :=
  match r in req X return X → fenceState with
  | LockCodexPoolAliasForSelection a => λ x,
      mkFence (S (locks s)) (refused s) (match x with Ok row => Some (a, row) | Err _ => None end)
  | Reselect dropped => λ _, mkFence (locks s) dropped (lastRow s)
  end.
(** A lock only within the bound; a new selection leaves out every alias that was
    tried before, the last one included. *)
Definition fenceOk (s : fenceState) (X : Type) (r : req X) : Prop :=
  match r with
  | LockCodexPoolAliasForSelection _ => (locks s < codexSelectMaxFenceAttempts)%nat
  | Reselect dropped => refused s ⊆ dropped ∧ ∃ a row, lastRow s = Some (a, row) ∧ a ∈ dropped
  end.
Definition fenced (s : fenceState) (r : result poolErr codexPoolPick) : Prop :=
  ∀ pick, r = Ok pick → ∃ row, lastRow s = Some (k_Alias pick, Some row) ∧ rowHolds (k_Account pick) row = true.

Lemma fenceFrom_fenced left dropped pick s :
  (locks s + left < codexSelectMaxFenceAttempts)%nat → refused s = dropped →
  monitored fenceUpd fenceOk fenced s (fenceFrom left dropped pick).
Proof.
  revert dropped pick s. induction left as [|left IH] => dropped pick s Hl Hd; cbn [fenceFrom].
  all: apply monitored_call; [rewrite /fenceOk; lia|]; move=> [[row|]|e] /=.
  all: try (case Eh: (rowHolds _ row) => /=; [move=> _ [<-]; by eexists|]).
  all: try done.
  all: split; [split; [rewrite Hd; set_solver|eexists _, _; split; [done|set_solver]]|].
  all: move=> [pick'|e] //; apply IH => //=; lia.
Qed.

(** The account a run is bound to was confirmed under its row lock: whatever is
    answered, at most three aliases are locked, every new selection leaves out the
    aliases that failed, and the pick returned is the one whose last locked row is
    still the owner's linked, enabled, consenting alias of the scored, usable
    account. *)
Theorem fence_confirms pick :
  monitored fenceUpd fenceOk fenced (mkFence 0 ∅ None) (fenceCodexPoolAlias pick).
Proof. apply fenceFrom_fenced => //=. rewrite /codexSelectMaxFenceAttempts /=. lia. Qed.

(** * Examples *)
Module Example.
Definition now : time := Reserve.Example.now.
Definition row (n a : Z) : PoolRow :=
  mkPool (Uuid.mk n) true (Some codexStatusLinked) (Some (Uuid.mk a)) (Some "u") (Some "w") (Some "idle") (Some false) None None.
Definition win (pct : Z) : WindowDTO := mkWindow (Some (ofZ pct)) (Some WeeklyWindowSeconds) None None.
Definition bucket (pct : Z) (reached : bool) : BucketDTO :=
  mkBucket "codex" EmptyString (Some true) (Some reached) (Some (win pct)) (Some (win 3)).
Definition rate (a pct : Z) (reached : bool) : RateRow :=
  mkRate (Uuid.mk a) false (Reserve.Decoded [bucket pct reached]) (Some (now - Go.Minute)) None.
Definition rows : list PoolRow := [row 5 50; row 3 50; row 4 60].
Definition rates : list RateRow := [rate 50 100 true; rate 60 40 false].
Definition reads : poolReads := mkPoolReads (Ok rows) (Ok rates) (Ok []) Reserve.Example.reads true.
Definition policy : AutoSelect.Policy := AutoSelect.mkPolicy AutoSelect.OrderHeadroomFirst 10 5 Go.Hour 2.

(** The first account is at its limit, so the other one is picked. *)
Lemma pool_pick_witness :
  picked Reserve.Example.intervals reads ∅ now rows rates [] Reserve.Example.snap
    (match selectCodexPoolAlias 0 0 Reserve.Example.intervals policy (Uuid.mk 9) reads ∅ now with
     | Ok pick => pick
     | Err _ => mkPick Uuid.Nil Uuid.Nil EmptyString EmptyString CodexSelect.ReasonNone None
     end) ∧
  match selectCodexPoolAlias 0 0 Reserve.Example.intervals policy (Uuid.mk 9) reads ∅ now with
  | Ok pick => k_Alias pick = Uuid.mk 4
  | Err _ => False
  end.
Proof.
  pose proof (pool_pick 0 0 Reserve.Example.intervals policy (Uuid.mk 9) reads ∅ now rows rates [] Reserve.Example.snap
    eq_refl eq_refl eq_refl) as H.
  split; [|by vm_compute].
  destruct (selectCodexPoolAlias 0 0 _ policy _ reads ∅ now) as [pick|e] eqn:E.
  - apply H; [by vm_compute|apply (bool_decide_unpack _); by vm_compute|].
    intros r Hr Hn. revert r Hr Hn. apply (Forall_forall (λ r, p_Account r ≠ Some Uuid.Nil)).
    apply (bool_decide_unpack _). by vm_compute.
  - exfalso. revert E. by vm_compute.
Defined.

Lemma Score_correct_witness :
  Score (mkCodex true [bucket 40 false] (Some (now - Go.Minute))) true Go.Minute now = Some (sub (ofZ 100) (ofZ 40), None).
Proof.
  rewrite Score_correct.
  - repeat constructor; intros p [= <-]; by vm_compute.
  - by vm_compute.
Defined.
End Example.

End CodexPool.
