(* ===== verification/Hub.v ===== *)
(** The live-event hub ([hub/hub.go]): a per-run fan-out with a bounded buffer
    per subscriber.

    Every operation runs under the hub's mutex, but subscribers receive without
    it, so a broadcast is a sequence of sends between which readers move.  The
    machine below has one step per send, one per receive and one per critical
    section of the other operations; a send or a close on a closed channel
    (a Go panic) has no successor. *)

From S2P Require Import Prelude.

Local Open Scope Z_scope.

Module Hub.

Definition subBuffer : nat := 256.

(** [apitypes.RunEventDTO]. *)
Record Event := mkEvent {
  Type_ : string;
  Seq : Z;
  Kind : string;
  Agent : option string;
  AgentInstance : option string;
  AgentLabel : option string;
  Payload : option string;
  CreatedAt : option time;
  Status : string;
}.

Definition event (type_ : string) : Event :=
  mkEvent type_ 0 EmptyString None None None None None EmptyString.

(** A subscription on the heap: its run and its channel. *)
Record Subscription := mkSub { runID : uuid; buf : list string; closed : bool }.

Abbreviation ref := positive (only parsing).

(** The broadcast in progress holds the mutex: its frame and the subscribers
    it has yet to reach. *)
Record state := mkState {
  heap : gmap ref Subscription;
  subs : gmap uuid (gset ref);
  mu : option (string * list ref);
}.

Definition New : state := mkState ∅ ∅ None.

(** [make] and the registration; [s] is the address of the new subscription. *)
Definition Subscribe (s : ref) (run : uuid) (h : state) : state :=
  mkState (<[s := mkSub run [] false]> (heap h))
    (<[run := {[ s ]} ∪ default ∅ (subs h !! run)]> (subs h)) (mu h).

(** [close(s.ch)] panics on a closed channel. *)
Definition close (s : ref) (h : state) : option state :=
  match heap h !! s with
  | Some sub =>
    if closed sub then None
    else Some (mkState (<[s := mkSub (runID sub) (buf sub) true]> (heap h)) (subs h) (mu h))
  | None => None
  end.

Definition unsubscribe (s : ref) (h : state) : option state :=
  match heap h !! s with
  | None => None
  | Some sub =>
    match subs h !! runID sub with
    | None => Some h
    | Some m =>
      if negb (bool_decide (s ∈ m)) then Some h else
      let m' := m ∖ {[ s ]} in
      h' ← close s h;
      Some (mkState (heap h')
              (if decide (m' = ∅) then delete (runID sub) (subs h')
               else <[runID sub := m']> (subs h')) (mu h'))
    end
  end.

(** The [select] with a default case: the flag says whether the frame was
    buffered; a send on a closed channel panics. *)
Definition send (s : ref) (frame : string) (h : state) : option (state * bool) :=
  match heap h !! s with
  | None => None
  | Some sub =>
    if closed sub then None else
    if (length (buf sub) <? subBuffer)%nat then
      Some (mkState (<[s := mkSub (runID sub) (buf sub ++ [frame]) false]> (heap h)) (subs h) (mu h), true)
    else Some (h, false)
  end.

(** A receive takes the oldest buffered frame, also after a close. *)
Definition receive (s : ref) (h : state) : option (state * string) :=
  match heap h !! s with
  | Some (mkSub run (frame :: rest) c) =>
    Some (mkState (<[s := mkSub run rest c]> (heap h)) (subs h) (mu h), frame)
  | _ => None
  end.

Definition setMu (m : option (string * list ref)) (h : state) : state :=
  mkState (heap h) (subs h) m.

Section Broadcast.
(** [json.Marshal] of an event. *)
Context (marshal : Event → option string).

(** [broadcast] up to the loop: marshal, lock, and look the run's subscribers
    up; [order] is the order in which the runtime walks that set this time. *)
Definition broadcast (order : gset ref → list ref) (run : uuid) (ev : Event) (h : state) : state :=
  match marshal ev with
  | None => h
  | Some frame => setMu (Some (frame, order (default ∅ (subs h !! run)))) h
  end.

Definition nonEmpty (s : string) : option string :=
  if (s =?s EmptyString)%go then None else Some s.

Definition PublishMessage order (run : uuid) (seq : Z) (kind agent agentInstance agentLabel : string)
    (payload : string) (createdAt : time) (h : state) : state :=
  broadcast order run
    (mkEvent "message" seq kind (nonEmpty agent) (nonEmpty agentInstance) (nonEmpty agentLabel)
       (Some payload) (Some createdAt) EmptyString) h.

Definition PublishState order (run : uuid) (status : string) (h : state) : state :=
  broadcast order run (mkEvent "state" 0 EmptyString None None None None None status) h.

Definition PublishHealth order (run : uuid) (health reason : string) (nudge : bool) (h : state) : state :=
  broadcast order run (event "health") h.

Definition PublishInput order (run : uuid) (h : state) : state :=
  broadcast order run (event "input") h.

(** A nil hub is a no-op. *)
Definition PublishRefresh order (run : uuid) (h : option state) : option state :=
  match h with
  | None => None
  | Some h => Some (broadcast order run (event "refresh") h)
  end.
End Broadcast.

(** * The machine *)

Inductive label :=
  | LSubscribe (s : ref) (run : uuid)
  | LClose (s : ref)
  | LPublish (run : uuid) (frame : string)
  | LOffer (s : ref) (frame : string) (buffered : bool)
  | LUnlock
  | LReceive (s : ref) (frame : string).

Section Machine.
Context (marshal : Event → option string).

(** Every broadcast walks the set in an order of its own. *)
Inductive step : state → label → state → Prop :=
  | step_subscribe h s run :
      mu h = None → heap h !! s = None → step h (LSubscribe s run) (Subscribe s run h)
  | step_close h s h' :
      mu h = None → unsubscribe s h = Some h' → step h (LClose s) h'
  | step_publish h run ev frame order :
      mu h = None → marshal ev = Some frame → (∀ m, order m ≡ₚ elements m) →
      step h (LPublish run frame) (broadcast marshal order run ev h)
  | step_send h s frame rest h' buffered :
      mu h = Some (frame, s :: rest) → send s frame (setMu (Some (frame, rest)) h) = Some (h', buffered) →
      step h (LOffer s frame buffered) h'
  | step_unlock h frame :
      mu h = Some (frame, []) → step h LUnlock (setMu None h)
  | step_receive h s frame h' :
      receive s h = Some (h', frame) → step h (LReceive s frame) h'.

(** Traces are read left to right. *)
Inductive steps : state → list label → state → Prop :=
  | steps_nil h : steps h [] h
  | steps_snoc h tr h1 l h2 : steps h tr h1 → step h1 l h2 → steps h (tr ++ [l]) h2.
End Machine.

(** * What a trace says of one subscriber *)

Definition received1 (s : ref) (l : label) : option string :=
  match l with LReceive s' f => if decide (s' = s) then Some f else None | _ => None end.
Definition offered1 (s : ref) (l : label) : option string :=
  match l with LOffer s' f _ => if decide (s' = s) then Some f else None | _ => None end.
Definition buffered1 (s : ref) (l : label) : option string :=
  match l with LOffer s' f true => if decide (s' = s) then Some f else None | _ => None end.

Definition received (tr : list label) (s : ref) : list string := omap (received1 s) tr.
Definition offered (tr : list label) (s : ref) : list string := omap (offered1 s) tr.
Definition buffered (tr : list label) (s : ref) : list string := omap (buffered1 s) tr.

(** The run the subscriber listens to, if any, and the frames published to it
    while it listened. *)
Definition audience1 (s : ref) (a : option uuid * list string) (l : label)
    : option uuid * list string :=
  match l with
  | LSubscribe s' run => if decide (s' = s) then (Some run, a.2) else a
  | LClose s' => if decide (s' = s) then (None, a.2) else a
  | LPublish run f => if decide (a.1 = Some run) then (a.1, a.2 ++ [f]) else a
  | _ => a
  end.
Definition audience (tr : list label) (s : ref) : option uuid * list string :=
  foldl (audience1 s) (None, []) tr.

Lemma omap_snoc {A B} (f : A → option B) l x :
  omap f (l ++ [x]) = omap f l ++ match f x with Some y => [y] | None => [] end.
Proof. rewrite omap_app /=. by destruct (f x). Qed.

Lemma audience_snoc tr l s : audience (tr ++ [l]) s = audience1 s (audience tr s) l.
Proof. by rewrite /audience foldl_app. Qed.

(** * Invariant of the shared state *)

Definition open (h : state) (s : ref) (run : uuid) : Prop :=
  ∃ sub, heap h !! s = Some sub ∧ runID sub = run ∧ closed sub = false.

Record wf (h : state) : Prop := {
  wf_reg s run : s ∈ default ∅ (subs h !! run) ↔ open h s run;
  wf_nonempty run m : subs h !! run = Some m → m ≠ ∅;
  wf_mu frame rest : mu h = Some (frame, rest) → NoDup rest ∧ ∀ s, s ∈ rest → ∃ run, open h s run;
  wf_buf s sub : heap h !! s = Some sub → (length (buf sub) <= subBuffer)%nat;
}.

Lemma hub_wf_New : wf New.
Proof.
  split; try done. intros s run. rewrite lookup_empty. split; [set_solver|].
  by intros (? & ? & _).
Qed.

Lemma open_insert h s sub s' run :
  (∃ x, <[s := sub]> (heap h) !! s' = Some x ∧ runID x = run ∧ closed x = false) ↔
  (s' = s ∧ runID sub = run ∧ closed sub = false) ∨ (s' ≠ s ∧ open h s' run).
Proof.
  rewrite /open. destruct (decide (s' = s)) as [->|Hne].
  - setoid_rewrite lookup_insert_eq. naive_solver.
  - setoid_rewrite lookup_insert_ne; [|done]. naive_solver.
Qed.

Lemma wf_Subscribe h s run :
  wf h → mu h = None → heap h !! s = None → wf (Subscribe s run h).
Proof.
  intros [Hreg Hne Hmu Hbuf] Hm Hs. split; cbn [Subscribe subs heap mu].
  - intros s' run'. rewrite /open. cbn [heap Subscribe]. rewrite open_insert /=.
    destruct (decide (run' = run)) as [->|Hrun].
    + rewrite lookup_insert_eq /= elem_of_union elem_of_singleton Hreg.
      destruct (decide (s' = s)) as [->|]; [|naive_solver]. naive_solver.
    + rewrite lookup_insert_ne // Hreg. split; [|naive_solver].
      intros Ho. right. split; [|done]. intros ->. destruct Ho as (? & ? & _). congruence.
  - intros run' m. rewrite lookup_insert. case_decide; [intros [= <-]; set_solver|]. apply Hne.
  - by rewrite Hm.
  - intros s' sub. rewrite lookup_insert. case_decide; [intros [= <-]; simpl; lia|]. apply Hbuf.
Qed.

Lemma close_open h s run : open h s run → ∃ sub, heap h !! s = Some sub ∧ runID sub = run
  ∧ close s h = Some (mkState (<[s := mkSub run (buf sub) true]> (heap h)) (subs h) (mu h)).
Proof.
  intros (sub & Hs & <- & Hc). exists sub. split_and!; [done..|]. by rewrite /close Hs Hc.
Qed.

Lemma wf_unsubscribe h s h' :
  wf h → mu h = None → unsubscribe s h = Some h' → wf h'.
Proof.
  intros Hwf Hm. pose proof Hwf as [Hreg Hne Hmu Hbuf]. rewrite /unsubscribe.
  destruct (heap h !! s) as [sub|] eqn:Hs; [|done].
  destruct (subs h !! runID sub) as [m|] eqn:Hsub; [|by intros [= <-]].
  case_bool_decide as Hin; simpl; [|by intros [= <-]].
  assert (open h s (runID sub)) as Hop by (apply Hreg; by rewrite Hsub).
  destruct (close_open h s _ Hop) as (sub' & Hs' & _ & ->). simplify_eq. simpl. intros [= <-].
  split; cbn [subs heap mu].
  - intros s' run'. rewrite /open. cbn [heap]. rewrite open_insert /=.
    transitivity (s' ∈ default ∅ (subs h !! run') ∧ s' ≠ s).
    { destruct (decide (run' = runID sub)) as [->|Hrun].
      - rewrite Hsub /=. case_decide as E.
        + rewrite lookup_delete_eq /=. set_solver.
        + rewrite lookup_insert_eq /=. set_solver.
      - assert (s' ∈ default ∅ (subs h !! run') → s' ≠ s).
        { intros Hr ->. apply Hreg in Hr as (? & ? & ? & _). congruence. }
        case_decide; [rewrite lookup_delete_ne //|rewrite lookup_insert_ne //]; naive_solver. }
    rewrite Hreg. naive_solver.
  - intros run' m'. case_decide as E.
    + rewrite lookup_delete. case_decide; [done|]. apply Hne.
    + rewrite lookup_insert. case_decide; [by intros [= <-]|]. apply Hne.
  - by rewrite Hm.
  - intros s' x. rewrite lookup_insert. case_decide; [intros [= <-]; simpl; eauto|]. apply Hbuf.
Qed.

(** A send to an open channel does not panic: it buffers the frame when there
    is room and drops it otherwise. *)
Lemma send_open h s frame sub :
  heap h !! s = Some sub → closed sub = false →
  send s frame h =
  if (length (buf sub) <? subBuffer)%nat
  then Some (mkState (<[s := mkSub (runID sub) (buf sub ++ [frame]) false]> (heap h)) (subs h) (mu h), true)
  else Some (h, false).
Proof. intros Hs Hc. by rewrite /send Hs Hc. Qed.

Lemma wf_setMu h m :
  wf h → match m with None => True | Some (_, rest) => NoDup rest ∧ ∀ s, s ∈ rest → ∃ run, open h s run end →
  wf (setMu m h).
Proof.
  intros [Hreg Hne Hmu Hbuf] Hm. split; cbn [setMu subs heap mu]; [apply Hreg|apply Hne| |apply Hbuf].
  intros frame rest ->. done.
Qed.

(** Replacing the buffer of an open channel, or of any channel by a shorter
    one, keeps the invariant. *)
Lemma wf_buffer h s sub b :
  wf h → heap h !! s = Some sub → (length b <= subBuffer)%nat →
  wf (mkState (<[s := mkSub (runID sub) b (closed sub)]> (heap h)) (subs h) (mu h)).
Proof.
  intros [Hreg Hne Hmu Hbuf] Hs Hb.
  assert (∀ s' run, (∃ x, <[s := mkSub (runID sub) b (closed sub)]> (heap h) !! s' = Some x
    ∧ runID x = run ∧ closed x = false) ↔ open h s' run) as Hop.
  { intros s' run. rewrite open_insert /= /open. destruct (decide (s' = s)) as [->|]; naive_solver. }
  split; cbn [subs heap mu].
  - intros s' run. by rewrite Hreg -Hop.
  - apply Hne.
  - intros frame rest Hm. destruct (Hmu frame rest Hm) as [Hnd Ho]. split; [done|].
    intros s' Hin. destruct (Ho s' Hin) as (run & Ho'). exists run. by apply Hop.
  - intros s' x. rewrite lookup_insert. case_decide; [by intros [= <-]|]. apply Hbuf.
Qed.

Section Reachable.
Context (marshal : Event → option string).

Lemma broadcast_wf order h run ev : (∀ m, order m ≡ₚ elements m) →
  wf h → mu h = None → wf (broadcast marshal order run ev h).
Proof.
  intros order_perm Hwf Hm. rewrite /broadcast. destruct (marshal ev) as [frame|]; [|done].
  apply wf_setMu; [done|]. split; [rewrite order_perm; apply NoDup_elements|].
  intros s. rewrite order_perm elem_of_elements wf_reg //. eauto.
Qed.

Lemma wf_step h l h' : wf h → step marshal h l h' → wf h'.
Proof.
  intros Hwf Hstep. destruct Hstep as [h s run Hm Hs|h s h' Hm Hu|h run ev frame order Hm He Ho
    |h s frame rest h' b Hm Hsend|h frame Hm|h s frame h' Hr].
  - by apply wf_Subscribe.
  - by eapply wf_unsubscribe.
  - by apply broadcast_wf.
  - destruct (wf_mu h Hwf _ _ Hm) as [Hnd Ho]. apply NoDup_cons in Hnd as [Hnin Hnd].
    assert (wf (setMu (Some (frame, rest)) h)) as Hwf1.
    { apply wf_setMu; [done|]. split; [done|]. intros s' Hs'. apply Ho. by right. }
    destruct (Ho s) as (run & sub & Hs & Hr & Hc); [by left|].
    rewrite (send_open _ s frame sub) // in Hsend. destruct (_ <? _)%nat eqn:E; simplify_eq; [|done].
    rewrite -Hc. apply (wf_buffer (setMu (Some (frame, rest)) h)); [done..|].
    apply Nat.ltb_lt in E. rewrite length_app /=. lia.
  - by apply wf_setMu.
  - rewrite /receive in Hr. destruct (heap h !! s) as [[run [|f rest] c]|] eqn:Hs; [done| |done].
    simplify_eq. pose proof (wf_buf h Hwf s _ Hs) as Hl.
    apply (wf_buffer h s _ rest Hwf Hs). simpl in Hl. lia.
Qed.

Lemma wf_steps tr h : steps marshal New tr h → wf h.
Proof.
  intros Hst. remember New as h0 eqn:E. induction Hst as [h|h tr h1 l h2 _ IH Hs].
  - subst. apply hub_wf_New.
  - eapply wf_step; eauto.
Qed.

(** * Delivery *)

(** The frame a broadcast in progress still owes the subscriber. *)
Definition pending (h : state) (s : ref) : list string :=
  match mu h with
  | Some (frame, rest) => if decide (s ∈ rest) then [frame] else []
  | None => []
  end.

Definition history (h : state) (tr : list label) (s : ref) : Prop :=
  match heap h !! s with
  | None => received tr s = [] ∧ buffered tr s = [] ∧ offered tr s = [] ∧ audience tr s = (None, [])
      ∧ pending h s = []
  | Some sub =>
      received tr s ++ buf sub = buffered tr s
      ∧ audience tr s = (if closed sub then None else Some (runID sub), offered tr s ++ pending h s)
  end.

Lemma history_New s : history New [] s.
Proof. rewrite /history lookup_empty. done. Qed.

(** A label that does not concern the subscriber leaves its history alone. *)
Lemma history_other h h' tr l s :
  heap h' !! s = heap h !! s → pending h' s = pending h s →
  received1 s l = None → offered1 s l = None → buffered1 s l = None →
  audience1 s (audience tr s) l = audience tr s →
  history h tr s → history h' (tr ++ [l]) s.
Proof.
  intros Hh Hp Hr Ho Hb Ha. rewrite /history /received /offered /buffered !omap_snoc.
  by rewrite Hr Ho Hb Hh Hp audience_snoc Ha !app_nil_r.
Qed.

Lemma history_subscribe h tr s0 run s :
  wf h → mu h = None → heap h !! s0 = None → history h tr s →
  history (Subscribe s0 run h) (tr ++ [LSubscribe s0 run]) s.
Proof.
  intros Hwf Hm Hs0 Hh. destruct (decide (s0 = s)) as [->|Hne].
  - rewrite /history Hs0 in Hh. destruct Hh as (Hr & Hb & Ho & Ha & Hp).
    rewrite /history /received /offered /buffered !omap_snoc audience_snoc Ha.
    cbn [heap Subscribe audience1 received1 offered1 buffered1]. rewrite lookup_insert_eq.
    rewrite decide_True // -/(received tr s) -/(offered tr s) -/(buffered tr s) Hr Hb Ho.
    by rewrite /pending /= Hm.
  - apply (history_other h); try done; cbn [heap Subscribe].
    + by rewrite lookup_insert_ne.
    + cbn [audience1]. by rewrite decide_False.
Qed.

Lemma history_close h tr s0 h' s :
  wf h → mu h = None → unsubscribe s0 h = Some h' → history h tr s →
  history h' (tr ++ [LClose s0]) s.
Proof.
  intros Hwf Hm Hu Hh. pose proof Hu as Hu'. rewrite /unsubscribe in Hu'.
  destruct (heap h !! s0) as [sub|] eqn:Hs0; [|done].
  assert (mu h' = None ∧ heap h' = (if closed sub then heap h
    else <[s0 := mkSub (runID sub) (buf sub) true]> (heap h))) as [Hm' Hheap].
  { destruct (closed sub) eqn:Hc.
    - assert (h' = h) as ->; [|done]. destruct (subs h !! runID sub) as [m|] eqn:Hsub; [|congruence].
      case_bool_decide as Hin; simpl in Hu'; [|congruence]. exfalso.
      destruct (proj1 (wf_reg h Hwf s0 (runID sub))) as (x & Hx & _ & Hxc); [by rewrite Hsub|congruence].
    - assert (s0 ∈ default ∅ (subs h !! runID sub)) as Hin by (apply (wf_reg h Hwf); by exists sub).
      destruct (subs h !! runID sub) as [m|] eqn:Hsub; [|set_solver].
      rewrite bool_decide_true // in Hu'. simpl in Hu'. rewrite /close Hs0 Hc in Hu'. by simplify_eq/=. }
  assert (∀ x, pending h' x = [] ∧ pending h x = []) as Hpend.
  { intros x. by rewrite /pending Hm Hm'. }
  destruct (decide (s0 = s)) as [->|Hne].
  - rewrite /history Hs0 in Hh. destruct Hh as (Hr & Ha).
    rewrite /history /received /offered /buffered !omap_snoc audience_snoc Ha !app_nil_r Hheap.
    cbn [audience1]. rewrite decide_True // (proj1 (Hpend s)) (proj2 (Hpend s)).
    destruct (closed sub) eqn:Hc; [by rewrite Hs0 Hc|by rewrite lookup_insert_eq].
  - apply (history_other h); try done.
    + rewrite Hheap. destruct (closed sub); [done|by rewrite lookup_insert_ne].
    + by rewrite (proj1 (Hpend s)) (proj2 (Hpend s)).
    + cbn [audience1]. by rewrite decide_False.
Qed.

Lemma history_publish order h tr run ev frame s : (∀ m, order m ≡ₚ elements m) →
  wf h → mu h = None → marshal ev = Some frame → history h tr s →
  history (broadcast marshal order run ev h) (tr ++ [LPublish run frame]) s.
Proof.
  intros order_perm Hwf Hm He Hh. rewrite /broadcast He.
  assert (pending h s = []) as Hp0 by by rewrite /pending Hm.
  assert (s ∈ order (default ∅ (subs h !! run)) ↔ open h s run) as Hin.
  { by rewrite order_perm elem_of_elements wf_reg. }
  rewrite /history in Hh. rewrite /history /received /offered /buffered !omap_snoc audience_snoc.
  rewrite -/(received tr s) -/(offered tr s) -/(buffered tr s) !app_nil_r.
  cbn [heap setMu]. rewrite /pending. cbn [mu setMu].
  destruct (heap h !! s) as [sub|] eqn:Hs.
  - destruct Hh as (Hr & Ha). rewrite Ha Hp0 app_nil_r. split; [done|]. cbn [audience1 fst snd].
    destruct (decide (s ∈ _)) as [Hi|Hi].
    + apply Hin in Hi as (x & Hx & Hrun & Hc). simplify_eq. by rewrite Hc decide_True.
    + rewrite decide_False ?app_nil_r //. destruct (closed sub) eqn:Hc; [done|].
      intros [= <-]. apply Hi, Hin. by exists sub.
  - destruct Hh as (Hr & Hb & Ho & Ha & _). rewrite Ha. split_and!; [done..|].
    rewrite decide_False //. rewrite Hin. intros (x & Hx & _). congruence.
Qed.

Lemma history_send h tr s0 frame rest h' b s :
  wf h → mu h = Some (frame, s0 :: rest) →
  send s0 frame (setMu (Some (frame, rest)) h) = Some (h', b) → history h tr s →
  history h' (tr ++ [LOffer s0 frame b]) s.
Proof.
  intros Hwf Hm Hsend Hh. destruct (wf_mu h Hwf _ _ Hm) as [Hnd Ho].
  apply NoDup_cons in Hnd as [Hnin _]. destruct (Ho s0) as (run & sub & Hs0 & Hr & Hc); [by left|].
  rewrite (send_open _ s0 frame sub) // in Hsend.
  assert (mu h' = Some (frame, rest) ∧ heap h' !! s0 =
    Some (mkSub (runID sub) (buf sub ++ if b then [frame] else []) false)
    ∧ ∀ x, x ≠ s0 → heap h' !! x = heap h !! x) as (Hm' & Hh0 & Hx).
  { destruct (_ <? _)%nat; simplify_eq/=.
    - split_and!; [done|by rewrite lookup_insert_eq|]. intros x Hx. by rewrite lookup_insert_ne.
    - split_and!; [done| |done]. rewrite Hs0 app_nil_r -Hc. by destruct sub. }
  destruct (decide (s0 = s)) as [->|Hne].
  - rewrite /history Hs0 in Hh. destruct Hh as (Hrecv & Ha).
    rewrite /history /received /offered /buffered !omap_snoc audience_snoc Hh0 Ha.
    cbn [audience1 received1 offered1 closed runID buf].
    rewrite -/(received tr s) -/(offered tr s) -/(buffered tr s) Hc.
    assert (pending h s = [frame] ∧ pending h' s = []) as [-> ->].
    { rewrite /pending Hm Hm'. split; [by rewrite decide_True; [left|]|by rewrite decide_False]. }
    rewrite decide_True // !app_nil_r. split; [|done]. rewrite app_assoc Hrecv.
    destruct b; cbn [buffered1]; [by rewrite decide_True|done].
  - apply (history_other h); try done.
    + by apply Hx.
    + rewrite /pending Hm Hm'. by apply decide_ext; rewrite elem_of_cons; naive_solver.
    + cbn [offered1]. by rewrite decide_False.
    + cbn [buffered1]. destruct b; [by rewrite decide_False|done].
Qed.

Lemma history_receive h tr s0 frame h' s :
  receive s0 h = Some (h', frame) → history h tr s → history h' (tr ++ [LReceive s0 frame]) s.
Proof.
  rewrite /receive. destruct (heap h !! s0) as [[run [|f rest] c]|] eqn:Hs0; [done| |done].
  intros [= <- <-] Hh. destruct (decide (s0 = s)) as [->|Hne].
  - rewrite /history Hs0 in Hh. destruct Hh as (Hr & Ha). cbn [buf closed runID] in Hr, Ha.
    rewrite /history /received /offered /buffered !omap_snoc audience_snoc Ha.
    cbn [heap audience1 received1 offered1 buffered1]. rewrite lookup_insert_eq decide_True //.
    rewrite -/(received tr s) -/(offered tr s) -/(buffered tr s) -Hr !app_nil_r.
    cbn [buf closed runID]. by rewrite -app_assoc.
  - apply (history_other h); try done; cbn [heap received1].
    + by rewrite lookup_insert_ne.
    + by rewrite decide_False.
Qed.

Lemma history_steps tr h s : steps marshal New tr h → history h tr s.
Proof.
  intros Hst. remember New as h0 eqn:E. induction Hst as [h|h tr h1 l h2 Hst IH Hs].
  { subst. apply history_New. }
  subst h. pose proof (wf_steps _ _ Hst) as Hwf. specialize (IH eq_refl). destruct Hs.
  - by apply history_subscribe.
  - by eapply history_close.
  - by apply history_publish.
  - by eapply history_send.
  - apply (history_other h); try done. by rewrite /pending H /=.
  - by eapply history_receive.
Qed.
Lemma steps_split tr1 l tr2 h :
  steps marshal New (tr1 ++ l :: tr2) h →
  ∃ h1 h2, steps marshal New tr1 h1 ∧ step marshal h1 l h2.
Proof.
  revert h. induction tr2 as [|l2 tr2 IH] using rev_ind; intros h Hst.
  - remember (tr1 ++ [l]) as tr eqn:Heq. destruct Hst as [h|h0 tr h1 l' h2 Hst1 Hs].
    { by destruct tr1. }
    apply app_inj_tail in Heq as [-> ->]. eauto.
  - remember (tr1 ++ l :: tr2 ++ [l2]) as tr eqn:Heq. destruct Hst as [h|h0 tr h1 l' h2 Hst1 Hs].
    { by destruct tr1. }
    rewrite app_comm_cons app_assoc in Heq. apply app_inj_tail in Heq as [-> ->]. eauto.
Qed.

Lemma buffered_sublist tr s : buffered tr s `sublist_of` offered tr s.
Proof.
  induction tr as [|l tr IH]; [done|]. rewrite /buffered /offered. cbn [omap list_omap].
  rewrite -/(buffered tr s) -/(offered tr s).
  destruct l as [| | |s' f []| |]; cbn [buffered1 offered1]; try done.
  - destruct (decide (s' = s)); [by constructor|done].
  - destruct (decide (s' = s)); [by constructor|done].
Qed.

(** C36. No interleaving of subscriptions, closes, broadcasts and receives ever
    sends on or closes a closed channel, and a broadcast always gets to its
    end; the registry holds exactly the open subscriptions, keeps no empty set,
    and no buffer outgrows its capacity. *)
Theorem hub_safe tr h :
  steps marshal New tr h →
  (∀ s, is_Some (heap h !! s) → mu h = None → is_Some (unsubscribe s h))
  ∧ (∀ frame rest, mu h = Some (frame, rest) → ∃ l h', step marshal h l h' ∧ mu h' ≠ mu h)
  ∧ (∀ s run, s ∈ default ∅ (subs h !! run) ↔ open h s run)
  ∧ (∀ run m, subs h !! run = Some m → m ≠ ∅)
  ∧ (∀ s sub, heap h !! s = Some sub → (length (buf sub) <= 256)%nat).
Proof.
  intros Hst%wf_steps. pose proof Hst as [Hreg Hne Hmu Hbuf]. split_and!; [| |done..].
  - intros s [sub Hs] Hm. rewrite /unsubscribe Hs. destruct (subs h !! runID sub) as [m|] eqn:Hsub; [|done].
    case_bool_decide as Hin; simpl; [|done].
    destruct (close_open h s (runID sub)) as (x & _ & _ & ->); [|done]. apply Hreg. by rewrite Hsub.
  - intros frame [|s rest] Hm.
    { exists LUnlock, (setMu None h). split; [by eapply step_unlock|]. by rewrite Hm. }
    destruct (Hmu _ _ Hm) as [Hnd Ho]. destruct (Ho s) as (run & sub & Hs & Hr & Hc); [by left|].
    pose proof (send_open (setMu (Some (frame, rest)) h) s frame sub Hs Hc) as Hsend.
    assert (∀ x : list ref, s :: x ≠ x) as Hx by (intros x [=]%(f_equal length); simpl in *; lia).
    destruct (_ <? _)%nat; (do 2 eexists; split; [by eapply step_send|]); rewrite Hm /=;
      intros [= He]; by apply (Hx rest).
Qed.

(** C37. What a subscriber sees: the frames it received followed by those in its
    buffer are the frames that were buffered for it, in order; these are among
    the frames offered to it, which are exactly the frames published to its run
    while it was subscribed (less the one a broadcast in progress still owes);
    and a frame is dropped only when 256 frames wait unread. *)
Theorem hub_delivery tr h s sub :
  steps marshal New tr h → heap h !! s = Some sub →
  received tr s ++ buf sub = buffered tr s
  ∧ buffered tr s `sublist_of` offered tr s
  ∧ offered tr s ++ pending h s = (audience tr s).2
  ∧ ∀ tr1 frame tr2, tr = tr1 ++ LOffer s frame false :: tr2 →
      length (buffered tr1 s) = (length (received tr1 s) + 256)%nat.
Proof.
  intros Hst Hs. pose proof (history_steps tr h s Hst) as Hh. rewrite /history Hs in Hh.
  destruct Hh as (Hr & Ha). split_and!; [done|apply buffered_sublist|by rewrite Ha|].
  intros tr1 frame tr2 ->. apply steps_split in Hst as (h1 & h2 & Hst1 & Hstep).
  pose proof (wf_steps _ _ Hst1) as Hwf1. pose proof (history_steps tr1 h1 s Hst1) as Hh1.
  inversion Hstep as [| | |? ? ? rest ? ? Hm Hsend| |]; subst.
  destruct (wf_mu _ Hwf1 _ _ Hm) as [_ Ho]. destruct (Ho s) as (run & sub1 & Hs1 & _ & Hc); [by left|].
  rewrite (send_open (setMu (Some (frame, rest)) h1) s frame sub1 Hs1 Hc) in Hsend.
  destruct (_ <? _)%nat eqn:Efull; [done|]. apply Nat.ltb_ge in Efull.
  rewrite /history Hs1 in Hh1. destruct Hh1 as [<- _]. rewrite length_app.
  pose proof (wf_buf _ Hwf1 _ _ Hs1). rewrite /subBuffer in Efull, H. lia.
Qed.
End Reachable.

(** A run with one subscriber: it subscribes, a state change is published and
    delivered, and it closes. *)
Definition exMarshal (ev : Event) : option string := Some (Type_ ev).
Definition exRun : uuid := Uuid.mk 1.
Definition exAfterSubscribe : state := Subscribe 1 exRun New.
Definition exTrace : list label :=
  [LSubscribe 1 exRun; LPublish exRun "state"; LOffer 1 "state" true; LUnlock; LReceive 1 "state"].
Definition exEnd : state := mkState {[ 1%positive := mkSub exRun [] false ]} {[ exRun := {[ 1%positive ]} ]} None.

Lemma exSteps : steps exMarshal New exTrace exEnd.
Proof.
  change exTrace with (((((([] ++ [LSubscribe 1 exRun]) ++ [LPublish exRun "state"])
    ++ [LOffer 1 "state" true]) ++ [LUnlock])) ++ [LReceive 1 "state"]).
  eapply steps_snoc.
  - eapply steps_snoc; [eapply steps_snoc; [eapply steps_snoc; [eapply steps_snoc; [apply steps_nil|]|]|]|].
    + by apply step_subscribe.
    + by apply (step_publish _ _ exRun (mkEvent "state" 0 EmptyString None None None None None "running") _ elements).
    + eapply step_send; [vm_compute; reflexivity|vm_compute; reflexivity].
    + eapply step_unlock. vm_compute. reflexivity.
  - apply step_receive. vm_compute. reflexivity.
Qed.

Lemma hub_safe_witness :
  is_Some (unsubscribe 1 exEnd) ∧ 1%positive ∈ default ∅ (subs exEnd !! exRun).
Proof.
  destruct (hub_safe exMarshal exTrace exEnd exSteps)
    as (Hclose & _ & Hreg & _).
  split; [apply Hclose; [exists (mkSub exRun [] false)|]; vm_compute; reflexivity|].
  apply Hreg. exists (mkSub exRun [] false). vm_compute. tauto.
Defined.

Lemma hub_delivery_witness : received exTrace 1 ++ [] = buffered exTrace 1.
Proof.
  apply (hub_delivery exMarshal exTrace exEnd 1 (mkSub exRun [] false) exSteps).
  vm_compute. reflexivity.
Defined.

End Hub.
