(* ===== verification/Presets.v ===== *)
(** Schedule presets: the translation between the schedule form's cadences and
    the stored cron line ([schedsvc/presets.go]). *)

From Stdlib Require Import Ascii.
From S2P Require Import Prelude GoText GoStrings.

Local Open Scope Z_scope.

Module Presets.
Import GoText GoStrings.

Definition PresetWeekdays : string := "weekdays".
Definition PresetDaily : string := "daily".
Definition PresetWeekly : string := "weekly".
Definition PresetEveryNHours : string := "every_n_hours".
Definition PresetEveryNMinutes : string := "every_n_minutes".
Definition PresetCustom : string := "custom".

(** The errors the translation returns. *)
Inductive error :=
  | ErrHour (hour : Z)
  | ErrMinute (minute : Z)
  | ErrUseEveryNHoursCron (preset : string)
  | ErrUseEveryNMinutesCron (preset : string)
  | ErrNoCanonicalCron (preset : string)
  | ErrUnknownPreset (preset : string)
  | ErrHoursInterval (n : Z)
  | ErrMinutesInterval (n : Z).

Definition validClock (hour minute : Z) : option error :=
  if (hour <? 0) || (hour >? 23) then Some (ErrHour hour) else
  if (minute <? 0) || (minute >? 59) then Some (ErrMinute minute) else
  None.

Definition PresetToCron (preset : string) (hour minute : Z) : string + error :=
  match validClock hour minute with
  | Some err => inr err
  | None =>
    if (preset =?s PresetWeekdays)%go then
      inl (itoa minute +:+ " " +:+ itoa hour +:+ " * * 1-5") else
    if (preset =?s PresetDaily)%go then
      inl (itoa minute +:+ " " +:+ itoa hour +:+ " * * *") else
    if (preset =?s PresetWeekly)%go then
      inl (itoa minute +:+ " " +:+ itoa hour +:+ " * * 1") else
    if (preset =?s PresetEveryNHours)%go then inr (ErrUseEveryNHoursCron preset) else
    if (preset =?s PresetEveryNMinutes)%go then inr (ErrUseEveryNMinutesCron preset) else
    if (preset =?s PresetCustom)%go then inr (ErrNoCanonicalCron preset) else
    inr (ErrUnknownPreset preset)
  end.

Definition EveryNHoursCron (n : Z) : string + error :=
  if (n <? 1) || (n >? 23) then inr (ErrHoursInterval n)
  else inl ("0 */" +:+ itoa n +:+ " * * *").

Definition validMinuteInterval (n : Z) : bool :=
  existsb (Z.eqb n) [1; 2; 3; 4; 5; 6; 10; 12; 15; 20; 30].

Definition EveryNMinutesCron (n : Z) : string + error :=
  if negb (validMinuteInterval n) then inr (ErrMinutesInterval n)
  else inl ("*/" +:+ itoa n +:+ " * * * *").

Definition custom : string * Z * Z * bool := (PresetCustom, 0, 0, false).

Definition CronToPreset (cronExpr : string) : string * Z * Z * bool :=
  match Fields cronExpr with
  | [min; hr; dom; mon; dow] =>
    if ((hr =?s "*") && (dom =?s "*") && (mon =?s "*") && (dow =?s "*"))%go
       && HasPrefix min "*/" then
      match Atoi (TrimPrefix min "*/") with
      | Some n => if validMinuteInterval n then (PresetEveryNMinutes, n, 0, true) else custom
      | None => custom
      end else
    if ((min =?s "0") && (dom =?s "*") && (mon =?s "*") && (dow =?s "*"))%go
       && HasPrefix hr "*/" then
      match Atoi (TrimPrefix hr "*/") with
      | Some n => if (n >=? 1) && (n <=? 23) then (PresetEveryNHours, n, 0, true) else custom
      | None => custom
      end else
    match Atoi min, Atoi hr with
    | Some mi, Some hi =>
      if negb (dom =?s "*")%go || negb (mon =?s "*")%go then custom else
      match validClock hi mi with
      | Some _ => custom
      | None =>
        if (dow =?s "*")%go then (PresetDaily, hi, mi, true) else
        if (dow =?s "1-5")%go then (PresetWeekdays, hi, mi, true) else
        if (dow =?s "1")%go then (PresetWeekly, hi, mi, true) else
        custom
      end
    | _, _ => custom
    end
  | _ => custom
  end.

(** The renderer a caller picks for a recognised cadence: the interval presets
    carry their interval in the hour slot. *)
Definition render (preset : string) (hour minute : Z) : string + error :=
  if (preset =?s PresetEveryNHours)%go then EveryNHoursCron hour else
  if (preset =?s PresetEveryNMinutes)%go then EveryNMinutesCron hour else
  PresetToCron preset hour minute.

(** * Recognition of a line given by its fields *)

Example CronToPreset_daily : CronToPreset "30 9 * * *" = (PresetDaily, 9, 30, true).
Proof. vm_compute. reflexivity. Qed.

Example CronToPreset_step : CronToPreset "*/40 * * * *" = custom.
Proof. vm_compute. reflexivity. Qed.

(** A cron line built from tokens has these tokens as fields. *)
Lemma Fields_line min hr tail :
  token min = true → token hr = true → min ≠ EmptyString → hr ≠ EmptyString →
  Fields (min +:+ " " +:+ hr +:+ String " " tail) = min :: hr :: Fields tail.
Proof.
  intros ????. change (" " +:+ hr +:+ String " " tail) with (String " " (hr +:+ String " " tail)).
  by rewrite Fields_cons // Fields_cons.
Qed.

Lemma validClock_None h m : validClock h m = None ↔ 0 <= h <= 23 ∧ 0 <= m <= 59.
Proof. rewrite /validClock. repeat case_match; split; (done || lia). Qed.

Lemma validMinuteInterval_range n : validMinuteInterval n = true → 1 <= n <= 30.
Proof. rewrite /validMinuteInterval /=. lia. Qed.

Lemma itoa_field z : 0 <= z → token (itoa z) = true ∧ itoa z ≠ EmptyString.
Proof. intros Hz. split; [by apply itoa_token|by apply unsigned_itoa]. Qed.

Lemma itoa_no_star z s : 0 <= z → HasPrefix (itoa z) (String "*" s) = false ∧ itoa z ≠ "*".
Proof.
  intros Hz. destruct (unsigned_itoa z Hz) as [Hu _]. rewrite /unsigned in Hu.
  destruct (itoa z) as [|c s'] eqn:E; [done|].
  destruct (decide (c = "*"%char)) as [->|Hc]; [by cbn in Hu|].
  split; [|congruence]. cbn [HasPrefix].
  destruct (Ascii.eqb_spec "*"%char c); [congruence|done].
Qed.

(** ** What the renderers write is read back *)

Ltac dow_cases H :=
  rewrite !elem_of_cons elem_of_nil in H; destruct_or! H; simplify_eq.


Lemma CronToPreset_clock h m dow p :
  0 <= h <= 23 → 0 <= m <= 59 →
  (p, dow) ∈ [(PresetDaily, "*"); (PresetWeekdays, "1-5"); (PresetWeekly, "1")] →
  CronToPreset (itoa m +:+ " " +:+ itoa h +:+ " * * " +:+ dow) = (p, h, m, true).
Proof.
  intros Hh Hm Hp. destruct (itoa_field h) as [Hht Hhe]; [lia|].
  destruct (itoa_field m) as [Hmt Hme]; [lia|].
  destruct (itoa_no_star h "/") as [Hs1 Hs2]; [lia|].
  destruct (itoa_no_star m "/") as [Hs3 Hs4]; [lia|].
  rewrite /CronToPreset. change (" * * " +:+ dow) with (String " " ("* * " +:+ dow)).
  rewrite Fields_line //.
  assert (Fields ("* * " +:+ dow) = ["*"; "*"; dow]) as ->.
  { by dow_cases Hp. }
  rewrite Hs3 Hs1 !andb_false_r !Atoi_itoa; [lia..|].
  rewrite (proj2 (validClock_None h m)) //. cbn [String.eqb negb orb].
  by dow_cases Hp.
Qed.

Lemma CronToPreset_hours n :
  1 <= n <= 23 → CronToPreset ("0 */" +:+ itoa n +:+ " * * *") = (PresetEveryNHours, n, 0, true).
Proof.
  intros Hn. destruct (itoa_field n) as [Ht He]; [lia|]. rewrite /CronToPreset.
  change ("0 */" +:+ itoa n +:+ " * * *") with ("0" +:+ " " +:+ ("*/" +:+ itoa n) +:+ " * * *").
  rewrite Fields_line //. change (Fields "* * *") with ["*"; "*"; "*"].
  rewrite TrimPrefix_app Atoi_itoa; [lia|].
  assert ((n >=? 1) && (n <=? 23) = true) as -> by lia.
  assert (HasPrefix ("*/" +:+ itoa n) "*/" = true) as -> by (apply HasPrefix_app; eauto).
  assert (("*/" +:+ itoa n =?s "*")%go = false) as -> by done. done.
Qed.

Lemma CronToPreset_minutes n :
  validMinuteInterval n = true →
  CronToPreset ("*/" +:+ itoa n +:+ " * * * *") = (PresetEveryNMinutes, n, 0, true).
Proof.
  intros Hn. pose proof (validMinuteInterval_range n Hn).
  destruct (itoa_field n) as [Ht He]; [lia|]. rewrite /CronToPreset.
  change ("*/" +:+ itoa n +:+ " * * * *") with (("*/" +:+ itoa n) +:+ " " +:+ "*" +:+ " * * *").
  rewrite Fields_line //. change (Fields "* * *") with ["*"; "*"; "*"].
  rewrite TrimPrefix_app Atoi_itoa; [lia|]. rewrite Hn.
  assert (HasPrefix ("*/" +:+ itoa n) "*/" = true) as -> by (apply HasPrefix_app; eauto). done.
Qed.

Lemma PresetToCron_inl p h m c :
  PresetToCron p h m = inl c ↔
  0 <= h <= 23 ∧ 0 <= m <= 59 ∧ ∃ dow,
    (p, dow) ∈ [(PresetDaily, "*"); (PresetWeekdays, "1-5"); (PresetWeekly, "1")]
    ∧ c = itoa m +:+ " " +:+ itoa h +:+ " * * " +:+ dow.
Proof.
  rewrite /PresetToCron. destruct (validClock h m) eqn:Ev.
  { split; [done|]. intros (Hh & Hm & _). by rewrite (proj2 (validClock_None h m)) in Ev. }
  apply validClock_None in Ev as [Hh Hm].
  destruct (String.eqb_spec p PresetWeekdays) as [->|H1].
  { split; [intros [= <-]|intros (_ & _ & dow & Hp & ->)].
    - split_and!; [lia..|]. exists "1-5". split; [set_solver|done].
    - by dow_cases Hp. }
  destruct (String.eqb_spec p PresetDaily) as [->|H2].
  { split; [intros [= <-]|intros (_ & _ & dow & Hp & ->)].
    - split_and!; [lia..|]. exists "*". split; [set_solver|done].
    - by dow_cases Hp. }
  destruct (String.eqb_spec p PresetWeekly) as [->|H3].
  { split; [intros [= <-]|intros (_ & _ & dow & Hp & ->)].
    - split_and!; [lia..|]. exists "1". split; [set_solver|done].
    - by dow_cases Hp. }
  split; [by repeat case_match|]. intros (_ & _ & dow & Hp & _).
  by dow_cases Hp.
Qed.

Lemma render_roundtrip p h m c :
  render p h m = inl c →
  CronToPreset c = (p, h, if ((p =?s PresetEveryNHours) || (p =?s PresetEveryNMinutes))%go
                          then 0 else m, true).
Proof.
  rewrite /render. destruct (String.eqb_spec p PresetEveryNHours) as [->|H1].
  { rewrite /EveryNHoursCron. case_match; [done|]. intros [= <-]. apply CronToPreset_hours. lia. }
  destruct (String.eqb_spec p PresetEveryNMinutes) as [->|H2].
  { rewrite /EveryNMinutesCron. destruct (validMinuteInterval h) eqn:E; [|done].
    intros [= <-]. by apply CronToPreset_minutes. }
  intros (Hh & Hm & dow & Hp & ->)%PresetToCron_inl. by apply CronToPreset_clock.
Qed.

(** ** What is recognised is a preset's line, up to the spelling of numbers *)

Definition sameField (a b : string) : Prop :=
  a = b ∨ (∃ n, Atoi a = Some n ∧ Atoi b = Some n)
  ∨ (∃ a' b' n, a = "*/" +:+ a' ∧ b = "*/" +:+ b' ∧ Atoi a' = Some n ∧ Atoi b' = Some n).

Ltac fieldwise := repeat first [apply Forall2_nil_2 | apply Forall2_cons_2].

Lemma sameField_step n a : Atoi (TrimPrefix a "*/") = Some n → HasPrefix a "*/" = true →
  0 <= n < 2 ^ 63 → sameField a ("*/" +:+ itoa n).
Proof.
  intros Ha [a' ->]%HasPrefix_app Hn. rewrite TrimPrefix_app in Ha.
  right; right. exists a', (itoa n), n. by rewrite Atoi_itoa.
Qed.

Lemma sameField_num n a : Atoi a = Some n → 0 <= n < 2 ^ 63 → sameField a (itoa n).
Proof. intros Ha Hn. right; left. exists n. by rewrite Atoi_itoa. Qed.

(** The recogniser's answer, or the custom sentinel. *)
Definition recognised (c : string) (p : string) (h m : Z) : Prop :=
  ∃ c', render p h m = inl c' ∧ Forall2 sameField (Fields c) (Fields c').

Lemma Fields_minutes n : 0 <= n →
  Fields ("*/" +:+ itoa n +:+ " * * * *") = ["*/" +:+ itoa n; "*"; "*"; "*"; "*"].
Proof.
  intros Hn. destruct (itoa_field n Hn).
  change ("*/" +:+ itoa n +:+ " * * * *") with (("*/" +:+ itoa n) +:+ " " +:+ "*" +:+ " * * *").
  by rewrite Fields_line.
Qed.

Lemma Fields_hours n : 0 <= n →
  Fields ("0 */" +:+ itoa n +:+ " * * *") = ["0"; "*/" +:+ itoa n; "*"; "*"; "*"].
Proof.
  intros Hn. destruct (itoa_field n Hn).
  change ("0 */" +:+ itoa n +:+ " * * *") with ("0" +:+ " " +:+ ("*/" +:+ itoa n) +:+ " * * *").
  by rewrite Fields_line.
Qed.

Lemma recognised_minutes c a n :
  Fields c = [a; "*"; "*"; "*"; "*"] → HasPrefix a "*/" = true →
  Atoi (TrimPrefix a "*/") = Some n → validMinuteInterval n = true →
  recognised c PresetEveryNMinutes n 0.
Proof.
  intros Hc Hp Ha Hn. pose proof (validMinuteInterval_range n Hn).
  rewrite /recognised /render /EveryNMinutesCron Hn /=. eexists. split; [done|].
  rewrite Hc Fields_minutes; [lia|].
  fieldwise; [by apply sameField_step; [|done|lia]|by left..].
Qed.

Lemma recognised_hours c a n :
  Fields c = ["0"; a; "*"; "*"; "*"] → HasPrefix a "*/" = true →
  Atoi (TrimPrefix a "*/") = Some n → 1 <= n <= 23 → recognised c PresetEveryNHours n 0.
Proof.
  intros Hc Hp Ha Hn. rewrite /recognised /render /EveryNHoursCron /=.
  assert ((n <? 1) || (n >? 23) = false) as -> by lia. eexists. split; [done|].
  rewrite Hc Fields_hours; [lia|].
  fieldwise; [by left|by apply sameField_step; [|done|lia]|by left..].
Qed.

Lemma recognised_clock c a b dow p h m :
  Fields c = [a; b; "*"; "*"; dow] → Atoi a = Some m → Atoi b = Some h →
  validClock h m = None →
  (p, dow) ∈ [(PresetDaily, "*"); (PresetWeekdays, "1-5"); (PresetWeekly, "1")] →
  recognised c p h m.
Proof.
  intros Hc Ha Hb [Hh Hm]%validClock_None Hp.
  exists (itoa m +:+ " " +:+ itoa h +:+ " * * " +:+ dow). split.
  { assert (render p h m = PresetToCron p h m) as ->.
    { by dow_cases Hp. }
    apply PresetToCron_inl. split_and!; [lia..|]. by exists dow. }
  destruct (itoa_field h) as [??]; [lia|]. destruct (itoa_field m) as [??]; [lia|].
  change (" * * " +:+ dow) with (String " " ("* * " +:+ dow)). rewrite Hc Fields_line //.
  assert (Fields ("* * " +:+ dow) = ["*"; "*"; dow]) as -> by (by dow_cases Hp).
  fieldwise; [by apply sameField_num; [|lia]|by apply sameField_num; [|lia]|by left..].
Qed.

Lemma CronToPreset_cases c :
  CronToPreset c = custom ∨
  ∃ p h m, CronToPreset c = (p, h, m, true) ∧ recognised c p h m.
Proof.
  rewrite /CronToPreset.
  destruct (Fields c) as [|min [|hr [|dom [|mon [|dow [|]]]]]] eqn:Hc; try by left.
  destruct (_ && HasPrefix min "*/") eqn:E1.
  { rewrite !andb_true_iff !String.eqb_eq in E1. destruct E1 as [[[[-> ->] ->] ->] Hp].
    destruct (Atoi _) as [n|] eqn:Ha; [|by left].
    destruct (validMinuteInterval n) eqn:Hn; [right|by left].
    do 3 eexists. split; [done|]. by eapply recognised_minutes. }
  destruct (_ && HasPrefix hr "*/") eqn:E2.
  { rewrite !andb_true_iff !String.eqb_eq in E2. destruct E2 as [[[[-> ->] ->] ->] Hp].
    destruct (Atoi _) as [n|] eqn:Ha; [|by left].
    destruct ((n >=? 1) && (n <=? 23)) eqn:Hn; [right|by left].
    do 3 eexists. split; [done|]. eapply recognised_hours; [done..|lia]. }
  destruct (Atoi min) as [mi|] eqn:Hmi; [|by left].
  destruct (Atoi hr) as [hi|] eqn:Hhi; [|by left].
  destruct (String.eqb_spec dom "*") as [->|]; [|by left].
  destruct (String.eqb_spec mon "*") as [->|]; [|by left]. simpl.
  destruct (validClock hi mi) eqn:Hv; [by left|].
  destruct (String.eqb_spec dow "*") as [->|];
    [|destruct (String.eqb_spec dow "1-5") as [->|];
      [|destruct (String.eqb_spec dow "1") as [->|]; [|by left]]];
    right; do 3 eexists; (split; [done|]); eapply recognised_clock; try done; set_solver.
Qed.

(** A cron line a preset renders is recognised as that preset with the same
    parameters: the time-of-day presets give back hour and minute, the interval
    presets their interval. *)
Theorem preset_roundtrip p h m n c :
  (PresetToCron p h m = inl c → CronToPreset c = (p, h, m, true))
  ∧ (EveryNHoursCron n = inl c → CronToPreset c = (PresetEveryNHours, n, 0, true))
  ∧ (EveryNMinutesCron n = inl c → CronToPreset c = (PresetEveryNMinutes, n, 0, true)).
Proof.
  split_and!.
  - intros (Hh & Hm & dow & Hp & ->)%PresetToCron_inl. by apply CronToPreset_clock.
  - intros Hn. by apply (render_roundtrip PresetEveryNHours n 0).
  - intros Hn. by apply (render_roundtrip PresetEveryNMinutes n 0).
Qed.

Lemma preset_roundtrip_witness :
  CronToPreset "5 17 * * 1-5" = (PresetWeekdays, 17, 5, true)
  ∧ CronToPreset "0 */6 * * *" = (PresetEveryNHours, 6, 0, true)
  ∧ CronToPreset "*/15 * * * *" = (PresetEveryNMinutes, 15, 0, true).
Proof.
  split_and!.
  - apply (preset_roundtrip PresetWeekdays 17 5 0). vm_compute. reflexivity.
  - apply (preset_roundtrip PresetWeekdays 17 5 6). vm_compute. reflexivity.
  - apply (preset_roundtrip PresetWeekdays 17 5 15). vm_compute. reflexivity.
Defined.

(** For every cron line the recogniser either answers the custom sentinel,
    or a preset that renders to a line with the same fields up to the spelling
    of their numbers, and that line is recognised with the same answer: opening
    a schedule in the form and saving it again does not change its cadence. *)
Theorem CronToPreset_sound c :
  CronToPreset c = (PresetCustom, 0, 0, false) ∨
  ∃ p h m c', CronToPreset c = (p, h, m, true) ∧ render p h m = inl c'
    ∧ CronToPreset c' = (p, h, m, true) ∧ Forall2 sameField (Fields c) (Fields c').
Proof.
  destruct (CronToPreset_cases c) as [|(p & h & m & Hc & c' & Hr & Hf)]; [by left|right].
  exists p, h, m, c'. split_and!; [done..| |done].
  rewrite (render_roundtrip _ _ _ _ Hr). do 2 f_equal. case_match eqn:E; [|done].
  rewrite orb_true_iff !String.eqb_eq in E. symmetry. revert Hc. rewrite /CronToPreset.
  destruct E as [-> | ->]; by repeat case_match; intros; simplify_eq.
Qed.

(** A line no preset renders is recognised when only the spelling of its
    numbers differs. *)
Lemma CronToPreset_spelling :
  CronToPreset "05 +9 * * *" = (PresetDaily, 9, 5, true)
  ∧ ∀ p h m, render p h m ≠ inl "05 +9 * * *".
Proof.
  split; [vm_compute; reflexivity|]. intros p h m Hr.
  pose proof (render_roundtrip _ _ _ _ Hr) as Hc. vm_compute in Hc.
  by case_match; simplify_eq.
Qed.

End Presets.
