(* ===== verification/Termsafe.v ===== *)
(** The terminal-safety predicate, its renderers, its escaper and its validator
    ([termsafe]), and the inlined copy the activity line uses
    ([runactivity.sanitize]). *)

From Stdlib Require Import Ascii.
From S2P Require Import Prelude GoText GoStrings.

Local Open Scope Z_scope.

Module Termsafe.
Import GoText GoStrings.

Definition Unsafe (r : Z) : bool := IsControl r || isCf r.

Definition tab : Z := 9.
Definition newline : Z := 10.

Definition SanitizeTTY (s : string) : string :=
  Map (λ r,
    if (r =? tab) || (r =? newline) then r else
    if Unsafe r then -1 else r) s.

(** The loop of [SanitizeBounded] with the builder [b]; Go's [range] decodes
    rune by rune. *)
Fixpoint boundedLoop (max : Z) (b : string) (rs : list Z) : string :=
  match rs with
  | [] => b
  | r :: rs' =>
    if negb (r =? newline) && negb (r =? tab) && Unsafe r then boundedLoop max b rs' else
    let b := b +:+ encodeRune r in
    if Z.of_nat (String.length b) >=? max then b else boundedLoop max b rs'
  end.

Definition SanitizeBounded (s : string) (max : Z) : string :=
  let s := TrimSpace s in
  TrimSpace (boundedLoop max EmptyString (rune <$> runes s)).

Definition CellText (s : string) : string :=
  let s := Map (λ r, if (r =? tab) || (r =? newline) then 32 else r) (SanitizeTTY s) in
  TrimSpace s.

(** The errors [Validate] returns, each naming the field. *)
Inductive error :=
  | ErrInvalidUTF8 (field : string)
  | ErrControl (field : string)
  | ErrFormat (field : string)
  | ErrEdgeSpace (field : string).

(** The loop over the runes: the first offending rune decides the message. *)
Fixpoint validateRunes (field : string) (rs : list Z) : option error :=
  match rs with
  | [] => None
  | r :: rs' =>
    if IsControl r then Some (ErrControl field) else
    if isCf r then Some (ErrFormat field) else
    validateRunes field rs'
  end.

Definition Validate (field s : string) : option error :=
  if negb (ValidString s) then Some (ErrInvalidUTF8 field) else
  match validateRunes field (rune <$> runes s) with
  | Some err => Some err
  | None =>
    if negb (TrimSpace s =?s s)%go then Some (ErrEdgeSpace field) else None
  end.

(** * [EscapeBounded] *)

(** [%X] with at least [width] digits. *)
Definition hexDigit (d : Z) : ascii := if d <? 10 then chr (48 + d) else chr (55 + d).

Fixpoint hexFrom (fuel : nat) (width : nat) (z : Z) (acc : string) : string :=
  match fuel with
  | 0%nat => acc
  | S fuel' =>
    if (z =? 0) && (width =? 0)%nat then acc
    else hexFrom fuel' (pred width) (z / 16) (String (hexDigit (z mod 16)) acc)
  end.

(** A byte or a rune has at most six hexadecimal digits. *)
Definition hex (width : nat) (z : Z) : string := hexFrom 6 width z EmptyString.

(** The token written for one decoded chunk. *)
Definition escapeToken (c : chunk) : string :=
  if badChunk c then
    match raw c with
    | String a _ => "\x" +:+ hex 2 (byteOf a)
    | EmptyString => EmptyString
    end else
  if rune c =? 92 then "\\" else
  if Unsafe (rune c) then "\u{" +:+ hex 4 (rune c) +:+ "}" else
  raw c.

Fixpoint escapeLoop (max : Z) (b : string) (l : list chunk) : string :=
  match l with
  | [] => b
  | c :: l' =>
    let tok := escapeToken c in
    if Z.of_nat (String.length b) + Z.of_nat (String.length tok) >? max then b
    else escapeLoop max (b +:+ tok) l'
  end.

Definition EscapeBounded (s : string) (max : Z) : string :=
  if max <=? 0 then EmptyString else escapeLoop max EmptyString (runes s).

(** * [runactivity.sanitize] *)

Definition unsafeRune (r : Z) : bool := IsControl r || isCf r.

Definition detailCapRunes : Z := 200.

Fixpoint sanitizeLoop (out : list Z) (n : Z) (rs : list Z) : list Z :=
  match rs with
  | [] => out
  | r :: rs' =>
    if unsafeRune r then sanitizeLoop out n rs' else
    let out := out ++ [r] in
    let n := n + 1 in
    if n >=? detailCapRunes then out else sanitizeLoop out n rs'
  end.

Definition sanitize (s : string) : string :=
  if (s =?s EmptyString)%go then EmptyString
  else ofRunes (sanitizeLoop [] 0 (rune <$> runes s)).

Definition Sanitize (s : string) : string := sanitize s.

Example EscapeBounded_mixed :
  EscapeBounded ("a\" +:+ ofRunes [0x202E; 0xE9; 0xE0041; 27] +:+ String "255" "z") 100
  = "a\\\u{202E}" +:+ ofRunes [0xE9] +:+ "\u{E0041}\u{001B}\xFFz".
Proof. vm_compute. reflexivity. Qed.

Example EscapeBounded_whole : EscapeBounded (ofRunes [97; 0x202E]) 8 = "a".
Proof. vm_compute. reflexivity. Qed.

Example CellText_folds :
  CellText (" a" +:+ ofRunes [9; 0x200B] +:+ "b" +:+ ofRunes [10]) = "a b".
Proof. vm_compute. reflexivity. Qed.

(** * Validation is the fixed points of the cell renderer *)

Definition keptTTY (r : Z) : Prop := r = tab ∨ r = newline ∨ Unsafe r = false.
#[export] Instance keptTTY_dec r : Decision (keptTTY r).
Proof. rewrite /keptTTY. apply _. Defined.

Lemma runes_valid s : Forall (λ r, ValidRune r = true) (rune <$> runes s).
Proof.
  apply Forall_fmap. eapply Forall_impl; [apply runes_wf|]. simpl.
  intros c [[Hv _]|[Hr _]]; [done|]. by rewrite /= Hr.
Qed.

Lemma rune_enc_id l : Forall (λ r, ValidRune r = true) l → rune <$> (enc <$> l) = l.
Proof.
  induction 1 as [|r l Hr _ IH]; [done|]. by rewrite !fmap_cons /= Hr IH.
Qed.

Lemma runes_ofRunes_valid l :
  Forall (λ r, ValidRune r = true) l → rune <$> runes (ofRunes l) = l.
Proof. intros Hl. by rewrite runes_ofRunes rune_enc_id. Qed.

Lemma ValidRune_nonneg r : ValidRune r = true → 0 <= r.
Proof. rewrite /ValidRune /MaxRune. lia. Qed.

Lemma filter_map_tty (l : list Z) :
  Forall (λ r, ValidRune r = true) l →
  filter (λ r, 0 <= r)
    ((λ r, if (r =? tab) || (r =? newline) then r else if Unsafe r then -1 else r) <$> l)
  = filter keptTTY l.
Proof.
  induction 1 as [|r l Hr%ValidRune_nonneg _ IH]; [done|].
  rewrite fmap_cons. destruct (decide (keptTTY r)) as [Hk|Hk].
  - rewrite (filter_cons_True keptTTY) // filter_cons_True -?IH.
    + case_match; [done|]. destruct Hk as [->|[->|Hk]]; [done..|]. by rewrite Hk.
    + f_equal. case_match; [done|]. destruct Hk as [->|[->|Hk]]; [done..|]. by rewrite Hk.
  - rewrite (filter_cons_False keptTTY) // filter_cons_False //.
    rewrite /keptTTY in Hk. destruct (_ || _) eqn:E; [lia|].
    destruct (Unsafe r); [lia|]. tauto.
Qed.

Lemma SanitizeTTY_runes s :
  SanitizeTTY s = ofRunes (filter keptTTY (rune <$> runes s)).
Proof. rewrite /SanitizeTTY /Map filter_map_tty //. apply runes_valid. Qed.

Definition foldCell (r : Z) : Z := if (r =? tab) || (r =? newline) then 32 else r.

Lemma Forall_filter {A} (P Q : A → Prop) `{!∀ x, Decision (Q x)} (l : list A) :
  Forall P l → Forall P (filter Q l).
Proof. rewrite !Forall_forall. intros HP x [_ Hx]%list_elem_of_filter. auto. Qed.

Lemma CellText_runes s :
  CellText s = bytes (trim (enc <$> (foldCell <$> filter keptTTY (rune <$> runes s)))).
Proof.
  rewrite /CellText /TrimSpace SanitizeTTY_runes. set (l := filter keptTTY _).
  assert (Forall (λ r, ValidRune r = true) l) as Hl by apply Forall_filter, runes_valid.
  rewrite /Map -/foldCell runes_ofRunes_valid // runes_ofRunes.
  do 3 f_equal. apply filter_all. intros r (x & -> & Hx)%list_elem_of_fmap.
  rewrite Forall_forall in Hl. specialize (Hl x Hx). apply ValidRune_nonneg in Hl.
  rewrite /foldCell. case_match; lia.
Qed.

Lemma Unsafe_tab r : r = tab ∨ r = newline → Unsafe r = true.
Proof. by intros [-> | ->]. Qed.

Lemma foldCell_safe r : keptTTY r → Unsafe (foldCell r) = false.
Proof.
  rewrite /keptTTY /foldCell. intros Hr. destruct (_ || _) eqn:E; [done|].
  destruct Hr as [->|[->|Hr]]; done.
Qed.

Lemma validateRunes_None f rs :
  validateRunes f rs = None ↔ Forall (λ r, Unsafe r = false) rs.
Proof.
  induction rs as [|r rs IH]; simpl; [split; auto|]. rewrite Forall_cons -IH /Unsafe.
  destruct (IsControl r); simpl; [naive_solver|]. destruct (isCf r); naive_solver.
Qed.

Lemma Validate_None f s :
  Validate f s = None ↔
  ValidString s = true ∧ Forall (λ r, Unsafe r = false) (rune <$> runes s) ∧ TrimSpace s = s.
Proof.
  rewrite /Validate -(validateRunes_None f). destruct (ValidString s); simpl; [|naive_solver].
  destruct (validateRunes _ _); [naive_solver|].
  destruct (String.eqb_spec (TrimSpace s) s); simpl; naive_solver.
Qed.

Lemma safe_unchanged rs :
  Forall (λ r, Unsafe r = false) rs → foldCell <$> filter keptTTY rs = rs.
Proof.
  intros Hs. rewrite filter_all.
  { rewrite Forall_forall in Hs. intros r Hr. right; right. auto. }
  rewrite -{2}(list_fmap_id rs). apply list_fmap_ext. intros i r Hr%list_elem_of_lookup_2.
  rewrite Forall_forall in Hs. specialize (Hs r Hr). rewrite /foldCell.
  destruct ((r =? tab) || (r =? newline)) eqn:E; [|done]. rewrite Unsafe_tab in Hs; [lia|done].
Qed.

(** The package's invariant: [Validate] accepts a string exactly when the
    cell renderer returns it unchanged, for every byte string. *)
Theorem Validate_iff_CellText f s : Validate f s = None ↔ CellText s = s.
Proof.
  rewrite Validate_None CellText_runes. split.
  - intros (Hv & Hs & Ht). rewrite safe_unchanged //. rewrite -/(ofRunes _) in Ht |- *.
    rewrite -{2}Ht /TrimSpace. do 2 f_equal.
    rewrite -runes_ofRunes. by rewrite ofRunes_runes.
  - set (l := foldCell <$> _). intros Hs.
    assert (runes s = trim (enc <$> l)) as Hr.
    { rewrite -{1}Hs. apply runes_bytes, Forall_forall. intros c Hc%trim_elem.
      pose proof (ofRunes_proper l) as Hp. rewrite Forall_forall in Hp. auto. }
    rewrite /TrimSpace ValidString_proper Hr trim_idemp. split_and!; [|..|done].
    + apply Forall_forall. intros c Hc%trim_elem.
      pose proof (ofRunes_proper l) as Hp. rewrite Forall_forall in Hp. auto.
    + apply Forall_fmap, Forall_forall. intros c Hc%trim_elem.
      apply list_elem_of_fmap in Hc as (r & -> & Hrl). simpl.
      apply list_elem_of_fmap in Hrl as (x & -> & [Hx Hxs]%list_elem_of_filter).
      case_match; [by apply foldCell_safe|done].
Qed.

(** * The byte bound *)

Lemma ofRunes_app l k : ofRunes (l ++ k) = ofRunes l +:+ ofRunes k.
Proof. by rewrite /ofRunes fmap_app bytes_app. Qed.

Lemma ofRunes_one r : ofRunes [r] = encodeRune r.
Proof. by rewrite /ofRunes /= sapp_nil. Qed.

Abbreviation slen s := (Z.of_nat (String.length s)).

Lemma slen_app a b : slen (a +:+ b) = slen a + slen b.
Proof. rewrite sapp_length. lia. Qed.

Lemma negb_kept r : negb (r =? newline) && negb (r =? tab) && Unsafe r = true ↔ ¬ keptTTY r.
Proof. rewrite /keptTTY. destruct (Unsafe r); split; intros; try lia; tauto. Qed.

(** The loop writes the longest run of kept runes whose proper prefixes stay
    under the bound. *)
Lemma boundedLoop_spec max b rs : ∃ k,
  boundedLoop max b rs = b +:+ ofRunes k ∧ k `prefix_of` filter keptTTY rs
  ∧ (∀ p q, k = p ++ q → p ≠ [] → q ≠ [] → slen (b +:+ ofRunes p) < max)
  ∧ (k = filter keptTTY rs ∨ max <= slen (b +:+ ofRunes k)).
Proof.
  revert b. induction rs as [|r rs IH]; intros b.
  { exists []. rewrite /= sapp_nil. split_and!; [done..| |by left]. by intros [|] [|]. }
  cbn [boundedLoop]. destruct (_ && _) eqn:E.
  { apply negb_kept in E. rewrite filter_cons_False //. }
  assert (keptTTY r) as Hk.
  { apply dec_stable. rewrite -negb_kept E. done. }
  rewrite filter_cons_True //. destruct (_ >=? max) eqn:Em.
  - exists [r]. rewrite ofRunes_one. split_and!; [done|by apply prefix_cons, prefix_nil| |right; lia].
    intros [|? [|]] q; [done| |done]. by intros [= -> <-].
  - destruct (IH (b +:+ encodeRune r)) as (k & Hl & Hp & Hlt & Hend).
    exists (r :: k). change (r :: k) with ([r] ++ k). rewrite ofRunes_app ofRunes_one -sapp_assoc.
    split_and!; [done|by apply prefix_cons| |by destruct Hend as [->|]; [left|right]].
    intros [|x p] q Heq Hne Hq; [done|]. injection Heq as <- ->.
    change (r :: p) with ([r] ++ p). rewrite ofRunes_app ofRunes_one -sapp_assoc.
    destruct p as [|y p]; [by rewrite sapp_nil; lia|]. by apply (Hlt (y :: p) q).
Qed.

(** A text whose proper prefixes stay under the bound passes unchanged. *)
Lemma boundedLoop_id max b rs :
  Forall keptTTY rs → (∀ p q, rs = p ++ q → p ≠ [] → q ≠ [] → slen (b +:+ ofRunes p) < max) →
  boundedLoop max b rs = b +:+ ofRunes rs.
Proof.
  revert b. induction rs as [|r rs IH]; intros b HF Hlt; [by rewrite /= sapp_nil|].
  apply Forall_cons in HF as [Hr HF]. cbn [boundedLoop].
  destruct (_ && _) eqn:E; [by apply negb_kept in E|].
  change (r :: rs) with ([r] ++ rs). rewrite ofRunes_app ofRunes_one -sapp_assoc.
  destruct (_ >=? max) eqn:Em.
  - destruct rs as [|r' rs]; [by rewrite sapp_nil|].
    pose proof (Hlt [r] (r' :: rs) eq_refl ltac:(done) ltac:(done)) as Hlt1.
    rewrite ofRunes_one in Hlt1. lia.
  - apply IH; [done|]. intros p q -> Hp Hq.
    specialize (Hlt (r :: p) q eq_refl). change (r :: p) with ([r] ++ p) in Hlt.
    rewrite ofRunes_app ofRunes_one -sapp_assoc in Hlt. by apply Hlt.
Qed.

Lemma encode_le r : slen (encodeRune r) <= 4.
Proof. pose proof (encodeRune_length r). lia. Qed.

(** The output of [SanitizeBounded]: a trimmed infix of the kept runes. *)
Lemma SanitizeBounded_spec s max : ∃ k out,
  SanitizeBounded s max = ofRunes out ∧ Forall (λ r, ValidRune r = true) out
  ∧ (enc <$> out) = trim (enc <$> k)
  ∧ k `prefix_of` filter keptTTY (rune <$> runes (TrimSpace s))
  ∧ (∀ p q, k = p ++ q → p ≠ [] → q ≠ [] → slen (ofRunes p) < max).
Proof.
  rewrite /SanitizeBounded. set (rs := rune <$> runes (TrimSpace s)).
  destruct (boundedLoop_spec max EmptyString rs) as (k & Hl & Hp & Hlt & _).
  change (EmptyString +:+ ofRunes k) with (ofRunes k) in Hl.
  assert (Forall (λ r, ValidRune r = true) k) as Hk.
  { destruct Hp as [k' Hk']. assert (Forall (λ r, ValidRune r = true) (k ++ k')) as HF.
    { rewrite -Hk'. apply Forall_filter, runes_valid. }
    by apply Forall_app in HF as [? _]. }
  destruct (trim_infix (enc <$> k)) as (k1 & k2 & Hk12 & _).
  exists k, (rune <$> trim (enc <$> k)).
  assert (Forall (λ r, ValidRune r = true) (rune <$> trim (enc <$> k))) as Hv.
  { apply Forall_fmap, Forall_forall. intros c Hc%trim_elem.
    apply list_elem_of_fmap in Hc as (r & -> & _). apply enc_proper. }
  assert (enc <$> (rune <$> trim (enc <$> k)) = trim (enc <$> k)) as He.
  { rewrite -list_fmap_compose -{2}(list_fmap_id (trim _)). apply list_fmap_ext.
    intros i c Hc%list_elem_of_lookup_2%trim_elem.
    apply list_elem_of_fmap in Hc as (r & -> & _). apply proper_enc_rune, enc_proper. }
  split_and!; [|done|done|done|done].
  by rewrite Hl /TrimSpace runes_ofRunes /ofRunes He.
Qed.

Lemma slen_ofRunes_prefix p q : slen (ofRunes p) <= slen (ofRunes (p ++ q)).
Proof. rewrite ofRunes_app slen_app. lia. Qed.

Lemma ofRunes_nonempty l : l ≠ [] → 0 < slen (ofRunes l).
Proof.
  destruct l as [|r l]; [done|]. intros _. change (r :: l) with ([r] ++ l).
  rewrite ofRunes_app slen_app ofRunes_one. pose proof (encodeRune_length r). lia.
Qed.

(** Proper prefixes of an infix inherit the bound of the whole. *)
Lemma infix_bound (max : Z) (k out : list Z) :
  (∃ k1 k2, enc <$> k = k1 ++ (enc <$> out) ++ k2) →
  (∀ p q, k = p ++ q → p ≠ [] → q ≠ [] → slen (ofRunes p) < max) →
  ∀ p q, out = p ++ q → p ≠ [] → q ≠ [] → slen (ofRunes p) < max.
Proof.
  intros (k1 & k2 & Hk) Hlt p q -> Hp Hq. rewrite fmap_app in Hk.
  apply fmap_app_inv in Hk as (j1 & j2 & Hj1 & Hj2 & ->).
  rewrite -!app_assoc in Hj2. symmetry in Hj2.
  apply fmap_app_inv in Hj2 as (p' & j3 & Hp' & Hj3 & ->).
  assert (ofRunes p = ofRunes p') as -> by by rewrite /ofRunes Hp'.
  assert (p' ≠ []) by (intros ->; by destruct p).
  assert (j3 ≠ []) by (intros ->; by destruct q).
  assert (slen (ofRunes (j1 ++ p')) < max) as H1.
  { apply (Hlt _ j3); [by rewrite -app_assoc|by destruct j1|done]. }
  rewrite ofRunes_app slen_app in H1. lia.
Qed.

Lemma kept_enc r : keptTTY r → keptTTY (rune (enc r)).
Proof. rewrite /enc /=. case_match; [done|]. intros _. by right; right. Qed.

(** What [SanitizeBounded] stores is well-formed UTF-8 with no unsafe rune
    but tabs and newlines, has no white space at its edges, exceeds the bound by
    less than one rune, and is left alone by a second application; a clean text
    within the bound is stored as it is. *)
Theorem SanitizeBounded_correct s max :
  let t := SanitizeBounded s max in
  ValidString t = true ∧ Forall keptTTY (rune <$> runes t) ∧ TrimSpace t = t
  ∧ SanitizeBounded t max = t ∧ (1 <= max → slen t <= max + 3)
  ∧ (ValidString s = true ∧ Forall keptTTY (rune <$> runes s) ∧ TrimSpace s = s
     ∧ slen s <= max → t = s).
Proof.
  intros t. destruct (SanitizeBounded_spec s max) as (k & out & Ht & Hv & Htrim & Hpre & Hlt).
  rewrite -/t in Ht.
  assert (runes t = enc <$> out) as Hrt by by rewrite Ht runes_ofRunes.
  assert (rune <$> runes t = out) as Hro by by rewrite Hrt rune_enc_id.
  assert (TrimSpace t = t) as Htt by by rewrite /TrimSpace Hrt Htrim trim_idemp -Htrim Ht.
  assert (Forall keptTTY out) as Hkept.
  { rewrite -Hro Hrt Htrim. apply Forall_fmap, Forall_forall. intros c Hc%trim_elem.
    apply list_elem_of_fmap in Hc as (r & -> & Hr). apply kept_enc. destruct Hpre as [k' Hk'].
    assert (r ∈ filter keptTTY (rune <$> runes (TrimSpace s))) as [? _]%list_elem_of_filter;
      [rewrite Hk'; apply elem_of_app; by left|done]. }
  assert (∀ p q, out = p ++ q → p ≠ [] → q ≠ [] → slen (ofRunes p) < max) as Hout.
  { apply (infix_bound max k); [|done]. destruct (trim_infix (enc <$> k)) as (k1 & k2 & Hk & _).
    exists k1, k2. by rewrite Htrim. }
  split_and!.
  - rewrite ValidString_proper Hrt. apply ofRunes_proper.
  - by rewrite Hro.
  - done.
  - rewrite /SanitizeBounded Htt Hro boundedLoop_id //.
    change (EmptyString +:+ ofRunes out) with (ofRunes out). by rewrite -Ht.
  - intros Hmax. rewrite Ht. destruct (decide (out = [])) as [->|Hne]; [simpl; lia|].
    destruct (exists_last Hne) as (p & r & ->). rewrite ofRunes_app slen_app ofRunes_one.
    pose proof (encode_le r). destruct p as [|x p]; [simpl; lia|].
    specialize (Hout (x :: p) [r] eq_refl ltac:(done) ltac:(done)). lia.
  - intros (Hvs & Hks & Hts & Hlen). rewrite /t /SanitizeBounded Hts boundedLoop_id //.
    + intros p q Hpq Hp Hq. rewrite -(ofRunes_runes s) // Hpq ofRunes_app slen_app in Hlen.
      pose proof (ofRunes_nonempty q Hq).
      change (EmptyString +:+ ofRunes p) with (ofRunes p). lia.
    + change (EmptyString +:+ ofRunes (rune <$> runes s)) with (ofRunes (rune <$> runes s)).
      by rewrite ofRunes_runes.
Qed.

Lemma SanitizeBounded_correct_witness :
  slen (SanitizeBounded " a b " 2) <= 5
  ∧ SanitizeBounded "a b" 10 = "a b".
Proof.
  split; [apply (SanitizeBounded_correct " a b " 2); lia|].
  apply (SanitizeBounded_correct "a b" 10). split_and!; [done| |done|simpl; lia].
  apply (bool_decide_unpack _). vm_compute. exact I.
Defined.

(** * The capped display line *)

Definition safe (r : Z) : Prop := Unsafe r = false.
#[export] Instance safe_dec r : Decision (safe r).
Proof. rewrite /safe. apply _. Defined.

Lemma sanitizeLoop_take out n rs :
  n = Z.of_nat (length out) → n < detailCapRunes →
  sanitizeLoop out n rs = out ++ take (200 - length out) (filter safe rs).
Proof.
  rewrite /detailCapRunes. revert out n. induction rs as [|r rs IH]; intros out n Hn Hlt; simpl.
  { by rewrite filter_nil take_nil app_nil_r. }
  change (unsafeRune r) with (Unsafe r). destruct (Unsafe r) eqn:E.
  { rewrite filter_cons_False; [by rewrite /safe E|]. by apply IH. }
  rewrite filter_cons_True //. destruct (_ >=? _) eqn:Ec; rewrite /detailCapRunes in Ec.
  - assert (200 - length out = 1)%nat as -> by lia. done.
  - rewrite IH; [rewrite length_app /=; lia|lia|]. rewrite length_app -app_assoc /=.
    assert (200 - length out = S (200 - (length out + 1)))%nat as -> by lia. done.
Qed.

Lemma sanitize_take s : sanitize s = ofRunes (take 200 (filter safe (rune <$> runes s))).
Proof.
  rewrite /sanitize. destruct (String.eqb_spec s EmptyString) as [->|]; [done|].
  by rewrite sanitizeLoop_take.
Qed.

Lemma sanitize_runes s :
  rune <$> runes (sanitize s) = take 200 (filter safe (rune <$> runes s)).
Proof.
  rewrite sanitize_take runes_ofRunes_valid //. apply Forall_take, Forall_filter, runes_valid.
Qed.

Lemma sanitize_idemp s : sanitize (sanitize s) = sanitize s.
Proof.
  rewrite (sanitize_take (sanitize s)) sanitize_runes filter_all.
  - intros r Hr%elem_of_take. destruct Hr as (i & Hr & _).
    by apply list_elem_of_lookup_2, list_elem_of_filter in Hr as [? _].
  - by rewrite take_idemp -sanitize_take.
Qed.

(** The activity line's copy of the predicate agrees with the terminal-safety
    predicate, and its renderer keeps the first 200 safe runes of the text: the
    result is well-formed, has no unsafe rune, at most 200 runes, and is left
    alone by a second application. *)
Theorem sanitize_correct s :
  (∀ r, unsafeRune r = Unsafe r)
  ∧ rune <$> runes (sanitize s) = take 200 (filter safe (rune <$> runes s))
  ∧ ValidString (sanitize s) = true ∧ sanitize (sanitize s) = sanitize s.
Proof.
  split_and!; [done|apply sanitize_runes| |apply sanitize_idemp].
  rewrite ValidString_proper sanitize_take runes_ofRunes. apply ofRunes_proper.
Qed.

(** * Escaping is reversible

    The reader of an escaped text: a byte-wise automaton that undoes the three
    escapes and copies everything else. *)
Definition hexVal (c : ascii) : option Z :=
  let b := byteOf c in
  if (48 <=? b) && (b <=? 57) then Some (b - 48) else
  if (65 <=? b) && (b <=? 70) then Some (b - 55) else None.

Inductive state := Plain | Backslash | Byte1 | Byte2 (hi : Z) | Open | Rune (v : Z).

Fixpoint unescapeFrom (st : state) (s : string) : option string :=
  match s with
  | EmptyString => match st with Plain => Some EmptyString | _ => None end
  | String c s' =>
    match st with
    | Plain => if Ascii.eqb c "\" then unescapeFrom Backslash s'
               else String c <$> unescapeFrom Plain s'
    | Backslash =>
      if Ascii.eqb c "\" then String c <$> unescapeFrom Plain s' else
      if Ascii.eqb c "x" then unescapeFrom Byte1 s' else
      if Ascii.eqb c "u" then unescapeFrom Open s' else None
    | Byte1 => d ← hexVal c; unescapeFrom (Byte2 d) s'
    | Byte2 hi => d ← hexVal c; String (chr (16 * hi + d)) <$> unescapeFrom Plain s'
    | Open => if Ascii.eqb c "{" then unescapeFrom (Rune 0) s' else None
    | Rune v =>
      if Ascii.eqb c "}" then String.append (encodeRune v) <$> unescapeFrom Plain s'
      else d ← hexVal c; unescapeFrom (Rune (16 * v + d)) s'
    end
  end.
Definition unescape (s : string) : option string := unescapeFrom Plain s.

Lemma hexDigit_spec d : 0 <= d < 16 →
  hexVal (hexDigit d) = Some d ∧ Ascii.eqb (hexDigit d) "}" = false ∧ token (str1 (hexDigit d)) = true.
Proof.
  intros Hd.
  assert (d = 0 ∨ d = 1 ∨ d = 2 ∨ d = 3 ∨ d = 4 ∨ d = 5 ∨ d = 6 ∨ d = 7 ∨ d = 8 ∨ d = 9 ∨ d = 10
    ∨ d = 11 ∨ d = 12 ∨ d = 13 ∨ d = 14 ∨ d = 15) as Hcases by lia.
  by destruct_or! Hcases; subst d.
Qed.

Lemma unescape_hexFrom fuel w z acc v :
  0 <= z < 16 ^ Z.of_nat fuel → ∃ k, 0 <= k
    ∧ unescapeFrom (Rune v) (hexFrom fuel w z acc) = unescapeFrom (Rune (v * 16 ^ k + z)) acc.
Proof.
  revert w z acc. induction fuel as [|fuel IH]; intros w z acc Hz.
  { exists 0. split; [lia|]. simpl in *. do 2 f_equal. lia. }
  cbn [hexFrom]. destruct (_ && _) eqn:E.
  { exists 0. split; [lia|]. do 2 f_equal. lia. }
  rewrite Nat2Z.inj_succ Z.pow_succ_r in Hz; [lia|].
  destruct (IH (pred w) (z / 16) (String (hexDigit (z mod 16)) acc)) as (k & Hk & ->).
  { euclid. }
  destruct (hexDigit_spec (z mod 16)) as (Hv & Hb & _); [by apply Z.mod_pos_bound|].
  exists (k + 1). split; [lia|]. cbn [unescapeFrom]. rewrite Hb Hv. cbn [mbind option_bind].
  do 2 f_equal. rewrite Z.pow_add_r; [lia..|]. pose proof (Z.div_mod z 16). lia.
Qed.

Lemma unescape_byte a s :
  unescape ("\x" +:+ hex 2 (byteOf a) +:+ s) = String a <$> unescape s.
Proof.
  pose proof (byteOf_range a) as Ha.
  assert (hex 2 (byteOf a) = str2 (hexDigit (byteOf a / 16)) (hexDigit (byteOf a mod 16))) as ->.
  { rewrite /hex. cbn [hexFrom Nat.eqb pred]. rewrite !andb_false_r.
    assert (byteOf a / 16 / 16 = 0) as -> by euclid. cbn [Z.eqb andb].
    do 2 f_equal. rewrite Z.mod_small //. euclid. }
  destruct (hexDigit_spec (byteOf a / 16)) as (Hv1 & _); [euclid|].
  destruct (hexDigit_spec (byteOf a mod 16)) as (Hv2 & _); [euclid|].
  rewrite /unescape /str2 /str1 !sapp_cons !sapp_nil_l. cbn [unescapeFrom Ascii.eqb Bool.eqb].
  rewrite Hv1. cbn [mbind option_bind]. rewrite Hv2. cbn [mbind option_bind].
  rewrite (chr_byteOf a) //. euclid.
Qed.

Lemma hexFrom_app fuel w z acc s : hexFrom fuel w z acc +:+ s = hexFrom fuel w z (acc +:+ s).
Proof.
  revert w z acc. induction fuel as [|fuel IH]; intros w z acc; [done|].
  cbn [hexFrom]. case_match; [done|]. by rewrite IH sapp_cons.
Qed.

Lemma unescape_rune r s :
  0 <= r < 16 ^ 6 →
  unescape (("\u{" +:+ hex 4 r +:+ "}") +:+ s) = String.append (encodeRune r) <$> unescape s.
Proof.
  intros Hr. rewrite /unescape /hex !sapp_assoc hexFrom_app !sapp_cons !sapp_nil_l.
  cbn [unescapeFrom Ascii.eqb Bool.eqb].
  destruct (unescape_hexFrom 6 4 r (String "}" s) 0 Hr) as (k & _ & ->). done.
Qed.

(** Bytes without a backslash are copied. *)
Fixpoint plain (s : string) : bool :=
  match s with
  | EmptyString => true
  | String c s' => negb (Ascii.eqb c "\") && plain s'
  end.

Lemma unescape_plain t s :
  plain t = true → unescape (t +:+ s) = String.append t <$> unescape s.
Proof.
  induction t as [|c t IH]; intros Ht; rewrite /unescape.
  { rewrite sapp_nil_l. by destruct (unescapeFrom Plain s). }
  cbn [plain] in Ht. apply andb_prop in Ht as [Hc Ht]. apply negb_true_iff in Hc.
  rewrite sapp_cons. cbn [unescapeFrom]. rewrite Hc -/(unescape _) IH //.
  rewrite /unescape. by destruct (unescapeFrom Plain s).
Qed.

Lemma chr_not_backslash b : 0 <= b < 256 → b ≠ 92 → Ascii.eqb (chr b) "\" = false.
Proof.
  intros Hb Hne. destruct (Ascii.eqb_spec (chr b) "\"%char) as [He|]; [|done].
  apply (f_equal byteOf) in He. by rewrite byteOf_chr in He.
Qed.

Lemma encodeRune_plain r : ValidRune r = true → r ≠ 92 → plain (encodeRune r) = true.
Proof.
  intros Hv Hne. rewrite /encodeRune Hv. rewrite /ValidRune /MaxRune in Hv.
  repeat case_match; cbn [plain str1 str2 str3 str4];
    rewrite ?chr_not_backslash //; euclid.
Qed.

Lemma proper_small c : proper c → 0 <= rune c < 16 ^ 6.
Proof. intros [Hv _]. rewrite /ValidRune /MaxRune in Hv. lia. Qed.

(** The reader gives the bytes of a chunk back for its token. *)
Lemma unescape_token c s :
  proper c ∨ undecodable c →
  unescape (escapeToken c +:+ s) = String.append (raw c) <$> unescape s.
Proof.
  intros Hc. rewrite /escapeToken. destruct Hc as [Hp|[Hr (a & Ha & _)]].
  - rewrite proper_not_bad //. destruct (rune c =? 92) eqn:E92.
    { destruct Hp as [_ ->]. apply Z.eqb_eq in E92. rewrite E92.
      rewrite /unescape !sapp_cons !sapp_nil_l. cbn [unescapeFrom Ascii.eqb Bool.eqb].
      by destruct (unescapeFrom Plain s). }
    destruct (Unsafe (rune c)); [rewrite unescape_rune; [by apply proper_small|]|].
    + by rewrite (proj2 Hp).
    + apply unescape_plain. rewrite (proj2 Hp). apply encodeRune_plain; [apply Hp|lia].
  - assert (badChunk c = true) as -> by by rewrite /badChunk Hr Ha.
    rewrite Ha. cbn [str1]. rewrite sapp_assoc unescape_byte. by destruct (unescape s).
Qed.

(** Each token is made of well-formed safe runes. *)
Lemma token_chunks t : token t = true →
  ∃ l, t = bytes l ∧ Forall (λ c, proper c ∧ safe (rune c)) l.
Proof.
  induction t as [|a t IH]; intros Ht; [by exists []|]. cbn [token] in Ht.
  apply andb_prop in Ht as [Ha Ht]. destruct (IH Ht) as (l & -> & Hl).
  exists (mkChunk (byteOf a) (str1 a) :: l). split; [done|]. constructor; [|done].
  split; [apply ascii_proper; lia|]. rewrite /safe /Unsafe /IsControl /isCf /=. lia.
Qed.

Lemma hexFrom_token fuel w z acc :
  0 <= z → token acc = true → token (hexFrom fuel w z acc) = true.
Proof.
  revert w z acc. induction fuel as [|fuel IH]; intros w z acc Hz Hacc; [done|].
  cbn [hexFrom]. case_match; [done|]. apply IH; [euclid|].
  destruct (hexDigit_spec (z mod 16)) as (_ & _ & Ht); [by apply Z.mod_pos_bound|].
  cbn [token str1] in Ht |- *. rewrite andb_true_r in Ht. by rewrite Ht.
Qed.

Lemma escapeToken_chunks c :
  proper c ∨ undecodable c →
  ∃ l, escapeToken c = bytes l ∧ Forall (λ c, proper c ∧ safe (rune c)) l.
Proof.
  intros Hc. rewrite /escapeToken. destruct Hc as [Hp|[Hr (a & Ha & _)]].
  - rewrite proper_not_bad //. destruct (rune c =? 92); [by apply token_chunks|].
    destruct (Unsafe (rune c)) eqn:E.
    + apply token_chunks. rewrite !token_app.
      apply andb_true_intro; split; [done|]. apply andb_true_intro; split; [|done].
      apply hexFrom_token; [|done]. pose proof (proper_small c Hp). lia.
    + exists [c]. split; [by rewrite /= sapp_nil|]. by constructor.
  - assert (badChunk c = true) as -> by by rewrite /badChunk Hr Ha. rewrite Ha.
    apply token_chunks. rewrite token_app. apply andb_true_intro; split; [done|].
    apply hexFrom_token; [|done]. pose proof (byteOf_range a). lia.
Qed.

Definition escapeAll (l : list chunk) : string :=
  foldr (λ c s, escapeToken c +:+ s) EmptyString l.

Lemma escapeToken_nonempty c : proper c ∨ undecodable c → escapeToken c ≠ EmptyString.
Proof.
  intros Hc He. pose proof (unescape_token c EmptyString Hc) as Hu.
  rewrite He in Hu. cbn in Hu. injection Hu as Hu. rewrite sapp_nil in Hu.
  destruct Hc as [[_ Hr]|[_ (a & Ha & _)]].
  - pose proof (encodeRune_length (rune c)) as Hl. rewrite -Hr -Hu /= in Hl. lia.
  - by rewrite Ha in Hu.
Qed.

Lemma escapeLoop_spec max b l : slen b <= max → ∃ k,
  escapeLoop max b l = b +:+ escapeAll (take k l) ∧ slen (escapeLoop max b l) <= max
  ∧ ((k < length l)%nat → max < slen (b +:+ escapeAll (take (S k) l)))
  ∧ (k <= length l)%nat.
Proof.
  revert b. induction l as [|c l IH]; intros b Hb.
  { exists 0%nat. rewrite /= sapp_nil. split_and!; [done|done|lia|lia]. }
  cbn [escapeLoop]. destruct (_ >? max) eqn:E.
  - exists 0%nat. cbn [take escapeAll foldr]. rewrite !sapp_nil.
    split_and!; [done|done| |lia]. intros _. rewrite slen_app. lia.
  - destruct (IH (b +:+ escapeToken c)) as (k & Hk & Hle & Hmore & Hlen); [rewrite slen_app; lia|].
    exists (S k). cbn [take escapeAll foldr length]. rewrite -/(escapeAll (take k l)).
    rewrite -sapp_assoc. split_and!; [done|done| |lia].
    intros Hlt. rewrite -sapp_assoc. apply Hmore. lia.
Qed.

Lemma escapeAll_unescape l :
  Forall (λ c, proper c ∨ undecodable c) l → unescape (escapeAll l) = Some (bytes l).
Proof.
  induction 1 as [|c l Hc _ IH]; [done|]. cbn [escapeAll foldr].
  by rewrite -/(escapeAll l) unescape_token // IH.
Qed.

Lemma escapeAll_chunks l :
  Forall (λ c, proper c ∨ undecodable c) l →
  ∃ k, escapeAll l = bytes k ∧ Forall (λ c, proper c ∧ safe (rune c)) k.
Proof.
  induction 1 as [|c l Hc _ (k & Hk & HF)]; [by exists []|].
  destruct (escapeToken_chunks c Hc) as (j & Hj & HFj). exists (j ++ k).
  cbn [escapeAll foldr]. rewrite -/(escapeAll l) Hj Hk bytes_app.
  split; [done|]. by apply Forall_app.
Qed.

(** What an escaped text is, for the tables that store it. *)
Lemma EscapeBounded_spec s max :
  let t := EscapeBounded s max in
  ValidString t = true ∧ Forall safe (rune <$> runes t) ∧ slen t <= Z.max 0 max
  ∧ ∃ k, (k <= length (runes s))%nat ∧ unescape t = Some (bytes (take k (runes s)))
    ∧ ((k < length (runes s))%nat → Z.max 0 max < slen (escapeAll (take (S k) (runes s))))
    ∧ (k = length (runes s) → unescape t = Some s).
Proof.
  intros t. pose proof (runes_wf s) as Hwf.
  assert (∃ k, t = escapeAll (take k (runes s)) ∧ slen t <= Z.max 0 max
    ∧ ((k < length (runes s))%nat → Z.max 0 max < slen (escapeAll (take (S k) (runes s))))
    ∧ (k <= length (runes s))%nat) as (k & Ht & Hlen & Hmore & Hk).
  { rewrite /t /EscapeBounded. destruct (max <=? 0) eqn:E.
    - exists 0%nat. split_and!; [done|simpl; lia| |lia].
      destruct (runes s) as [|c l]; [simpl; lia|]. intros _. cbn [take escapeAll foldr].
      rewrite sapp_nil. apply Forall_cons in Hwf as [Hc _].
      pose proof (escapeToken_nonempty c Hc). destruct (escapeToken c); [done|simpl; lia].
    - destruct (escapeLoop_spec max EmptyString (runes s)) as (k & Hk & Hle & Hmore & Hlen); [simpl; lia|].
      exists k. rewrite sapp_nil_l in Hk. split_and!; [done|lia| |done].
      intros Hlt. specialize (Hmore Hlt). rewrite sapp_nil_l in Hmore. lia. }
  assert (Forall (λ c, proper c ∨ undecodable c) (take k (runes s))) as HF by by apply Forall_take.
  destruct (escapeAll_chunks _ HF) as (j & Hj & HFj).
  assert (runes t = j) as Hrt.
  { rewrite Ht Hj. apply runes_bytes. eapply Forall_impl; [done|]. by intros c [? _]. }
  split_and!; [|..|done|].
  - rewrite ValidString_proper Hrt. eapply Forall_impl; [done|]. by intros c [? _].
  - rewrite Hrt. apply Forall_fmap. eapply Forall_impl; [done|]. by intros c [_ ?].
  - exists k. rewrite Ht escapeAll_unescape //. split_and!; [done..|].
    intros ->. by rewrite firstn_all bytes_runes.
Qed.

(** An escaped text is well-formed UTF-8 without unsafe runes and within the
    bound, and reading it back gives the input cut at a rune boundary: all of
    it, or the longest cut whose escape fits. *)
Theorem EscapeBounded_correct s max :
  let t := EscapeBounded s max in
  ValidString t = true ∧ Forall safe (rune <$> runes t) ∧ slen t <= Z.max 0 max
  ∧ ∃ k, (k <= length (runes s))%nat ∧ unescape t = Some (bytes (take k (runes s)))
    ∧ ((k < length (runes s))%nat → Z.max 0 max < slen (escapeAll (take (S k) (runes s))))
    ∧ (k = length (runes s) → unescape t = Some s).
Proof. exact (EscapeBounded_spec s max). Qed.

Lemma EscapeBounded_correct_witness :
  ValidString (EscapeBounded (ofRunes [0x202E; 97]) 9) = true
  ∧ EscapeBounded (ofRunes [0x202E; 97]) 9 = "\u{202E}a".
Proof.
  split; [apply (EscapeBounded_correct (ofRunes [0x202E; 97]) 9)|vm_compute; reflexivity].
Defined.

End Termsafe.
