(* ===== verification/EgressProfile.v ===== *)
(** Site lists of isolated research runs ([src/api/internal/egressprofile]):
    the normal form of an entry, the match of a host against a list, the
    multi-publisher rule, and the check of a whole profile write.

    The IDNA mapping, the Public Suffix List and the table generated from it
    are the class [HostRules].  Errors are their stable codes; the texts shown
    beside a code are left out, the reasons of [MultiPublisher] are kept. *)

From Stdlib Require Import Ascii.
From stdpp Require Import sorting.
From S2P Require Import Prelude Result GoText GoStrings GoSearch NetIP Termsafe.

Local Open Scope Z_scope.

(** [golang.org/x/net/idna] under the profile the package configures,
    [golang.org/x/net/publicsuffix], and [psl_ancestors_gen.go]. *)
Class HostRules := {
  ToASCII : string → option string;
  PublicSuffix : string → string * bool;
  EffectiveTLDPlusOne : string → option string;
  pslRuleAncestors : string → bool;
}.

(** UTS #46 processing is idempotent: a name in its A-label form maps to
    itself. *)
Class IdnaLaws `{HostRules} : Prop := {
  ToASCII_idemp s a : ToASCII s = Some a → ToASCII a = Some a;
}.

Module EgressProfile.
Import GoText GoStrings GoSearch.

Definition MaxEntries : nat := 200.
Definition MaxEntryLen : nat := 253.
Definition MaxNameLen : nat := 64.
Definition MaxDescriptionLen : nat := 500.

Inductive Code :=
  | CodeEmpty | CodeTooLong | CodeWhitespace | CodeScheme | CodeUserinfo | CodePath | CodePort
  | CodeIPAddress | CodeBareWildcard | CodeWildcardPosition | CodeEmptyLabel | CodeInvalidHost
  | CodeSingleLabel | CodeNumericTLD | CodePublicSuffixHost | CodePublicSuffixWildcard
  | CodeSharedParentWildcard | CodeMultiPublisher | CodeOverrideNotInHosts | CodeTooManyEntries
  | CodeNoEntries | CodeInvalidName | CodeUnsafeText | CodeDescriptionTooLong.

#[global] Instance Code_eq_dec : EqDecision Code.
Proof. solve_decision. Defined.

(** * Names *)
Definition alnum (c : ascii) : bool :=
  let b := byteOf c in ((97 <=? b) && (b <=? 122)) || ((48 <=? b) && (b <=? 57)).
Definition ldh (c : ascii) : bool := alnum c || Ascii.eqb c "-".

Definition lastByte (s : string) : option ascii := last (String.list_ascii_of_string s).

(** [^[a-z0-9]([a-z0-9-]{0,61}[a-z0-9])?$]. *)
Definition ldhLabel (l : string) : bool :=
  (String.length l <=? 63)%nat &&
  match l with String c _ => alnum c | EmptyString => false end &&
  match lastByte l with Some c => alnum c | None => false end &&
  forallb ldh (String.list_ascii_of_string l).

(** [^[a-z0-9][a-z0-9-]{0,63}$]. *)
Definition nameRe (s : string) : bool :=
  match s with
  | String c s' =>
    alnum c && (String.length s' <=? 63)%nat && forallb ldh (String.list_ascii_of_string s')
  | EmptyString => false
  end.

Definition isASCII (s : string) : bool :=
  forallb (λ c, byteOf c <? 0x80) (String.list_ascii_of_string s).

Definition isSpaceOrControl (r : Z) : bool :=
  (r =? 32) || (r =? 0xa0) || (r =? 0x3000) || (r <? 0x20) || (r =? 0x7f)
  || ((0x80 <=? r) && (r <? 0xa0)).

Definition isIPLiteral (s : string) : bool :=
  match NetIP.ParseAddr (Trim s ["["; "]"]%char) with
  | Some _ => true
  | None => NetIP.parsesAddrPort s
  end.

Definition digitByte (c : ascii) : bool := (48 <=? byteOf c) && (byteOf c <=? 57).
Definition hexByte (c : ascii) : bool :=
  digitByte c || ((97 <=? byteOf c) && (byteOf c <=? 102)).

Definition isNumericLabel (l : string) : bool :=
  if (l =?s EmptyString)%go then false else
  match CutPrefix l "0x" with
  | Some rest => forallb hexByte (String.list_ascii_of_string rest)
  | None => forallb digitByte (String.list_ascii_of_string l)
  end.

(** The full stops UTS #46 maps to the dot: U+002E, U+3002, U+FF0E, U+FF61. *)
Definition trailingDots : list string :=
  ["."; encodeRune 0x3002; encodeRune 0xff0e; encodeRune 0xff61].

(** The loop over [trailingDots]: the first that is a suffix is cut, once. *)
Fixpoint cutDot (dots : list string) (s : string) : string :=
  match dots with
  | [] => s
  | d :: dots' => if HasSuffix s d then TrimSuffix s d else cutDot dots' s
  end.

Definition preflight (raw : string) : result Code string :=
  let s := TrimSpace raw in
  if (s =?s EmptyString)%go then Err CodeEmpty else
  if (4 * MaxEntryLen <? String.length s)%nat then Err CodeTooLong else
  if negb (ValidString s) then Err CodeInvalidHost else
  if Contains s "://" then Err CodeScheme else
  if Contains s "@" then Err CodeUserinfo else
  if ContainsAny s ["/"; "?"; "#"; "\"]%char then Err CodePath else
  if ContainsFunc s isSpaceOrControl then Err CodeWhitespace else
  if isIPLiteral s then Err CodeIPAddress else
  if Contains s ":" then Err CodePort else
  Ok (cutDot trailingDots s).

(** The loop over the labels. *)
Fixpoint checkLabels (labels : list string) : option Code :=
  match labels with
  | [] => None
  | l :: labels' =>
    if (l =?s EmptyString)%go then Some CodeEmptyLabel else
    if negb (ldhLabel l) then Some CodeInvalidHost else
    checkLabels labels'
  end.

Definition sharedParents : list string :=
  ["amazonaws.com"; "azure.com"; "windows.net"; "googleusercontent.com"; "fastly.net"; "sharepoint.com"].

Definition under (host p : string) : bool := (host =?s p)%go || HasSuffix host ("." +:+ p).

Definition underSharedParent (host : string) : option string :=
  List.find (under host) sharedParents.

Section Rules.
Context `{HostRules}.

Definition normalizeName (s : string) (wildcardBase : bool) : result Code string :=
  if (s =?s EmptyString)%go || HasPrefix s "." || Contains s ".." || HasSuffix s "."
  then Err CodeEmptyLabel else
  if (MaxEntryLen <? String.length s)%nat && isASCII s then Err CodeTooLong else
  match ToASCII s with
  | None => Err CodeInvalidHost
  | Some a =>
    if isIPLiteral a then Err CodeIPAddress else
    if (MaxEntryLen <? String.length a)%nat then Err CodeTooLong else
    let labels := Split a "." in
    match checkLabels labels with
    | Some code => Err code
    | None =>
      if (length labels <? 2)%nat && negb wildcardBase then Err CodeSingleLabel else
      if isNumericLabel (default EmptyString (last labels)) then Err CodeNumericTLD else
      Ok a
    end
  end.

Definition NormalizeEntry (raw : string) : result Code string :=
  s ← preflight raw;
  if (s =?s "*")%go then Err CodeBareWildcard else
  let '(wildcard, s) := if HasPrefix s "*." then (true, sdrop 2 s) else (false, s) in
  if Contains s "*" then Err CodeWildcardPosition else
  host ← normalizeName s wildcard;
  let '(suffix, icann) := PublicSuffix host in
  if negb wildcard then
    if icann && (suffix =?s host)%go then Err CodePublicSuffixHost else Ok host
  else
  if (suffix =?s host)%go then Err CodePublicSuffixWildcard else
  match EffectiveTLDPlusOne host with
  | None => Err CodePublicSuffixWildcard
  | Some _ =>
    match underSharedParent host with
    | Some _ => Err CodeSharedParentWildcard
    | None =>
      if pslRuleAncestors host then Err CodePublicSuffixWildcard else
      if (MaxEntryLen <? String.length host + 2)%nat then Err CodeTooLong else
      Ok ("*." +:+ host)
    end
  end.

Definition NormalizeHost (raw : string) : result Code string :=
  s ← preflight raw;
  if Contains s "*" then Err CodeWildcardPosition else normalizeName s false.

(** One entry of the loop in [Match]. *)
Definition matchEntry (h raw : string) : bool :=
  match NormalizeEntry raw with
  | Err _ => false
  | Ok e =>
    match CutPrefix e "*." with
    | Some base => HasSuffix h ("." +:+ base)
    | None => (h =?s e)%go
    end
  end.

Definition Match (host : string) (entries : list string) : bool :=
  match NormalizeHost host with
  | Err _ => false
  | Ok h => existsb (matchEntry h) entries
  end.

End Rules.

(** * The multi-publisher rule *)
Definition multiPublisherHosts : list (string * string) :=
  [("github.com", "code hosting"); ("api.github.com", "code hosting");
   ("gist.github.com", "code hosting"); ("codeload.github.com", "code hosting");
   ("raw.github.com", "code hosting"); ("gitlab.com", "code hosting");
   ("codeberg.org", "code hosting"); ("gitee.com", "code hosting");
   ("s3.amazonaws.com", "object storage"); ("storage.googleapis.com", "object storage");
   ("storage.cloud.google.com", "object storage"); ("dl.dropboxusercontent.com", "file sharing");
   ("docs.google.com", "shared documents"); ("drive.google.com", "file sharing");
   ("sites.google.com", "site hosting");
   ("readthedocs.io", "documentation hosting"); ("readthedocs.org", "documentation hosting");
   ("gitbook.io", "documentation hosting"); ("docs.rs", "documentation hosting");
   ("pkg.go.dev", "documentation hosting"); ("pypi.org", "package hosting");
   ("test.pypi.org", "package hosting"); ("www.npmjs.com", "package hosting");
   ("hub.docker.com", "image hosting"); ("ghcr.io", "image hosting");
   ("unpkg.com", "package CDN"); ("cdnjs.cloudflare.com", "package CDN");
   ("registry.npmjs.org", "package hosting"); ("files.pythonhosted.org", "package hosting");
   ("proxy.golang.org", "package hosting"); ("repo.maven.apache.org", "package hosting")].

Definition multiPublisherDomains : list (string * string) :=
  [("githubusercontent.com", "code hosting"); ("jsdelivr.net", "package CDN");
   ("huggingface.co", "model and dataset hosting");
   ("stackoverflow.com", "forum"); ("stackexchange.com", "forum"); ("reddit.com", "forum");
   ("quora.com", "forum"); ("medium.com", "blog hosting"); ("substack.com", "blog hosting");
   ("wordpress.com", "blog hosting"); ("blogspot.com", "blog hosting");
   ("sourceforge.net", "project hosting"); ("dropbox.com", "file sharing");
   ("npmjs.com", "package hosting");
   ("crates.io", "package hosting"); ("rubygems.org", "package hosting");
   ("maven.org", "package hosting"); ("bitbucket.org", "code hosting");
   ("archive.org", "web archive")].

(** A Go map literal: the value of a key, and its keys in order. *)
Definition lookupKey (m : list (string * string)) (k : string) : option string :=
  snd <$> List.find (λ kv, (kv.1 =?s k)%go) m.
Definition notAfter (a b : string) : Prop := Less b a = false.
#[local] Instance notAfter_dec : RelDecision notAfter := λ a b, bool_eq_dec _ _.
Definition sortedKeys (m : list (string * string)) : list string := merge_sort notAfter m.*1.

Definition kindOf (m : list (string * string)) (k : string) : string :=
  default EmptyString (lookupKey m k).

Definition underFlaggedDomain (host : string) : option (string * string) :=
  (λ d, (d, kindOf multiPublisherDomains d))
    <$> List.find (under host) (sortedKeys multiPublisherDomains).

Definition isS3PathStyleRegional (host : string) : bool :=
  match (match CutSuffix host ".amazonaws.com" with
         | Some rest => Some rest
         | None => CutSuffix host ".amazonaws.com.cn"
         end) with
  | None => false
  | Some rest =>
    if Contains rest ".." then false else
    match Split rest "." with
    | [l] => HasPrefix l "s3-" && (3 <? String.length l)%nat
    | [l; _] => (l =?s "s3")%go
    | [l; l2; _] => (l =?s "s3")%go && (l2 =?s "dualstack")%go
    | _ => false
    end
  end.

Definition covers (base h : string) : bool := HasSuffix h ("." +:+ base).

Section Publishers.
Context `{HostRules}.

Definition MultiPublisher (entry : string) : option string :=
  match CutPrefix entry "*." with
  | Some base =>
    match underFlaggedDomain base with
    | Some (d, kind) => Some (entry +:+ " is under " +:+ d +:+ " (" +:+ kind +:+ ", many publishers)")
    | None =>
      match List.find (covers base) (sortedKeys multiPublisherHosts) with
      | Some h =>
        Some (entry +:+ " covers " +:+ h +:+ " (" +:+ kindOf multiPublisherHosts h +:+ ", many publishers)")
      | None =>
        match List.find (covers base) (sortedKeys multiPublisherDomains) with
        | Some d =>
          Some (entry +:+ " covers " +:+ d +:+ " (" +:+ kindOf multiPublisherDomains d +:+ ", many publishers)")
        | None => None
        end
      end
    end
  | None =>
    match lookupKey multiPublisherHosts entry with
    | Some kind => Some (entry +:+ " is " +:+ kind +:+ ": many publishers share this host")
    | None =>
      match underFlaggedDomain entry with
      | Some (d, kind) =>
        if (d =?s entry)%go
        then Some (entry +:+ " is " +:+ kind +:+ ": many publishers share this host")
        else Some (entry +:+ " is under " +:+ d +:+ " (" +:+ kind +:+ ", many publishers)")
      | None =>
        if isS3PathStyleRegional entry
        then Some (entry +:+ " is object storage: every bucket in the region shares this host") else
        let '(suffix, icann) := PublicSuffix entry in
        if (suffix =?s entry)%go && negb icann
        then Some (entry +:+ " is a public suffix: the platform gives the names under it to its customers, and its own host may serve them by path")
        else None
      end
    end
  end.

Definition flagged (entry : string) : bool := if MultiPublisher entry then true else false.

(** * A profile write *)
Record Problem := mkProblem { Field : string; prob_Entry : string; prob_Code : Code }.

Inductive WarningCode := MultiPublisherOverride | MultiPublisherNeedsOverride | StaleEntry.
Record Warning := mkWarning { warn_Entry : string; warn_Code : WarningCode }.

Record Input := mkInput {
  in_Name : string; in_Description : string; in_Hosts : list string; in_Override : list string }.
Record Validated := mkValidated {
  Name : string; Description : string; Hosts : list string; Override : list string;
  Warnings : list Warning }.

Definition ValidateName (name : string) : option Code :=
  if Termsafe.Validate "name" name then Some CodeUnsafeText else
  if negb (nameRe name) then Some CodeInvalidName else None.

Definition ValidateDescription (desc : string) : option Code :=
  if Termsafe.Validate "description" desc then Some CodeUnsafeText else
  if (MaxDescriptionLen <? length (runes desc))%nat then Some CodeDescriptionTooLong else None.

Definition maxEcho : nat := MaxEntryLen + 8.
Definition echo (raw : string) : string :=
  let s := Termsafe.CellText raw in
  if (maxEcho <? length (runes s))%nat
  then ofRunes (take maxEcho (rune <$> runes s)) +:+ encodeRune 0x2026 else s.

Definition fieldProblem (field : string) (err : Code) : Problem := mkProblem field EmptyString err.
Definition entryProblem (field raw : string) (err : Code) : Problem := mkProblem field (echo raw) err.

Definition indexed (name : string) (i : nat) : string :=
  name +:+ "[" +:+ itoa (Z.of_nat i) +:+ "]".

(** The first loop over the overrides. *)
Fixpoint readOverrides (i : nat) (l : list string) (override : gset string) (probs : list Problem)
    : gset string * list Problem :=
  match l with
  | [] => (override, probs)
  | raw :: l' =>
    match NormalizeEntry raw with
    | Err err =>
      readOverrides (S i) l' override
        (probs ++ [entryProblem (indexed "multi_publisher_override" i) raw err])
    | Ok n => readOverrides (S i) l' ({[n]} ∪ override) probs
    end
  end.

(** The loop over the hosts. *)
Fixpoint readHosts (override : gset string) (i : nat) (l : list string) (seen : gset string)
    (out : Validated) (probs : list Problem) : gset string * Validated * list Problem :=
  match l with
  | [] => (seen, out, probs)
  | raw :: l' =>
    let field := indexed "hosts" i in
    match NormalizeEntry raw with
    | Err err => readHosts override (S i) l' seen out (probs ++ [entryProblem field raw err])
    | Ok n =>
      if bool_decide (n ∈ seen) then readHosts override (S i) l' seen out probs else
      let seen := {[n]} ∪ seen in
      if flagged n then
        if negb (bool_decide (n ∈ override)) then
          readHosts override (S i) l' seen out
            (probs ++ [mkProblem field (echo raw) CodeMultiPublisher])
        else
          readHosts override (S i) l' seen
            (mkValidated (Name out) (Description out) (Hosts out ++ [n]) (Override out ++ [n])
               (Warnings out ++ [mkWarning n MultiPublisherOverride])) probs
      else
        readHosts override (S i) l' seen
          (mkValidated (Name out) (Description out) (Hosts out ++ [n]) (Override out) (Warnings out)) probs
    end
  end.

(** The second loop over the overrides. *)
Fixpoint strayOverrides (seen : gset string) (i : nat) (l : list string) : list Problem :=
  match l with
  | [] => []
  | raw :: l' =>
    match NormalizeEntry raw with
    | Ok n =>
      if negb (bool_decide (n ∈ seen))
      then mkProblem (indexed "multi_publisher_override" i) (echo raw) CodeOverrideNotInHosts
             :: strayOverrides seen (S i) l'
      else strayOverrides seen (S i) l'
    | Err _ => strayOverrides seen (S i) l'
    end
  end.

Definition problemFor (field : string) (err : option Code) : list Problem :=
  match err with Some e => [fieldProblem field e] | None => [] end.

Definition Validate (inp : Input) (checkName : bool) : Validated * list Problem :=
  let out := mkValidated (in_Name inp) (in_Description inp) [] [] [] in
  let probs := (if checkName then problemFor "name" (ValidateName (in_Name inp)) else [])
               ++ problemFor "description" (ValidateDescription (in_Description inp)) in
  let probs := probs ++ (if (length (in_Hosts inp) =? 0)%nat
                         then [mkProblem "hosts" EmptyString CodeNoEntries] else []) in
  if (MaxEntries <? length (in_Hosts inp))%nat
  then (out, probs ++ [mkProblem "hosts" EmptyString CodeTooManyEntries]) else
  if (MaxEntries <? length (in_Override inp))%nat
  then (out, probs ++ [mkProblem "multi_publisher_override" EmptyString CodeTooManyEntries]) else
  let '(override, probs) := readOverrides 0 (in_Override inp) ∅ probs in
  let '(seen, out, probs) := readHosts override 0 (in_Hosts inp) ∅ out probs in
  (out, probs ++ strayOverrides seen 0 (in_Override inp)).

Definition normalizedSet (entries : list string) : gset string :=
  list_to_set (omap (okValue ∘ NormalizeEntry) entries).

Definition WarningsFor (hosts overrides : list string) : list Warning :=
  let override := normalizedSet overrides in
  omap (λ h,
    match NormalizeEntry h with
    | Err _ => Some (mkWarning h StaleEntry)
    | Ok n =>
      if negb (flagged n) then None else
      if bool_decide (n ∈ override) then Some (mkWarning h MultiPublisherOverride)
      else Some (mkWarning h MultiPublisherNeedsOverride)
    end) hosts.

Fixpoint effectiveFrom (override : gset string) (seen : gset string) (l : list string) : list string :=
  match l with
  | [] => []
  | h :: l' =>
    match NormalizeEntry h with
    | Err _ => effectiveFrom override seen l'
    | Ok n =>
      if bool_decide (n ∈ seen) then effectiveFrom override seen l' else
      if flagged n && negb (bool_decide (n ∈ override)) then effectiveFrom override seen l' else
      n :: effectiveFrom override ({[n]} ∪ seen) l'
    end
  end.
Definition EffectiveEntries (hosts overrides : list string) : list string :=
  effectiveFrom (normalizedSet overrides) ∅ hosts.

End Publishers.

(** * Normal forms *)
Definition labels (s : string) : list string := Split s ".".

(** What [normalizeName] guarantees of a name. *)
Record wfName (a : string) : Prop := {
  wf_labels : Forall (λ l, ldhLabel l = true) (labels a);
  wf_length : (String.length a <= MaxEntryLen)%nat;
  wf_ip : isIPLiteral a = false;
  wf_tld : isNumericLabel (default EmptyString (last (labels a))) = false;
}.

Lemma ldhLabel_nonempty l : ldhLabel l = true → l ≠ EmptyString.
Proof. by intros H ->. Qed.

Lemma checkLabels_None l : checkLabels l = None ↔ Forall (λ t, ldhLabel t = true) l.
Proof.
  induction l as [|t l IH]; simpl; [by split; [constructor|]|].
  destruct (String.eqb_spec t EmptyString) as [->|Hne].
  - split; [done|]. by inversion 1.
  - rewrite Forall_cons -IH. destruct (ldhLabel t); naive_solver.
Qed.

Definition hostChar (c : ascii) : bool := ldh c || Ascii.eqb c ".".

Lemma wf_hostChar a : wfName a → every hostChar a = true.
Proof.
  intros [Hl _ _ _]. rewrite -(Join_Split a "."). apply every_Join; [done|].
  eapply Forall_impl; [exact Hl|]. intros t [_ Ht]%andb_prop.
  rewrite -every_forallb in Ht. revert Ht. apply every_impl.
  intros c Hc. by rewrite /hostChar Hc.
Qed.

Lemma wf_no_empty a : wfName a → EmptyString ∉ labels a.
Proof.
  intros Hwf Hin. apply wf_labels in Hwf. rewrite Forall_forall in Hwf.
  by apply Hwf in Hin.
Qed.

Lemma wf_nonempty a : wfName a → a ≠ EmptyString.
Proof. intros Hwf ->. apply (wf_no_empty _ Hwf). rewrite /labels /=. set_solver. Qed.

Lemma wf_dots a : wfName a →
  HasPrefix a "." = false ∧ Contains a ".." = false ∧ HasSuffix a "." = false.
Proof.
  intros Hwf. pose proof (wf_no_empty _ Hwf) as He. split_and!.
  - destruct (HasPrefix a ".") eqn:E; [|done]. apply HasPrefix_app in E as [r ->].
    destruct He. change ("." +:+ r) with (EmptyString +:+ String "." r).
    rewrite /labels Split_app. set_solver.
  - destruct (Contains a "..") eqn:E; [|done]. apply Contains_app in E as (x & y & ->).
    destruct He. change (".." +:+ y) with (String "." (EmptyString +:+ String "." y)).
    rewrite /labels !Split_app. set_solver.
  - destruct (HasSuffix a ".") eqn:E; [|done]. apply HasSuffix_app in E as [r ->].
    destruct He. change (r +:+ ".") with (r +:+ String "." EmptyString).
    rewrite /labels Split_app. set_solver.
Qed.

Definition entryChar (c : ascii) : bool := hostChar c || Ascii.eqb c "*".

Lemma entryChar_token s : every entryChar s = true → token s = true.
Proof.
  rewrite token_every. apply every_impl. intros c.
  rewrite /entryChar /hostChar /ldh /alnum.
  destruct (Ascii.eqb_spec c "-") as [->|]; [done|]. destruct (Ascii.eqb_spec c ".") as [->|]; [done|].
  destruct (Ascii.eqb_spec c "*") as [->|]; [done|]. rewrite !orb_false_r. lia.
Qed.

(** A character outside the class is not in an entry. *)
Lemma entryChar_out (s : string) (l : list ascii) :
  every entryChar s = true → Forall (λ c, entryChar c = false) l →
  every (λ c, negb (bool_decide (c ∈ l))) s = true.
Proof.
  intros Hs Hl. revert Hs. apply every_impl. intros c Hc. apply negb_true_iff, bool_decide_eq_false.
  intros Hin. rewrite Forall_forall in Hl. apply Hl in Hin. congruence.
Qed.

Lemma cutDot_id s : every entryChar s = true → HasSuffix s "." = false → cutDot trailingDots s = s.
Proof. intros Hs Hd. rewrite /= Hd !(every_HasSuffix entryChar) //. Qed.

Lemma preflight_id s :
  every entryChar s = true → s ≠ EmptyString → (String.length s <= MaxEntryLen)%nat →
  isIPLiteral s = false → HasSuffix s "." = false → preflight s = Ok s.
Proof.
  intros Hs Hne Hlen Hip Hd. pose proof (entryChar_token _ Hs) as Ht.
  rewrite /preflight TrimSpace_token // Hip cutDot_id //.
  assert ((s =?s EmptyString)%go = false) as -> by by apply String.eqb_neq.
  assert ((4 * MaxEntryLen <? String.length s)%nat = false) as ->.
  { apply Nat.ltb_ge. rewrite /MaxEntryLen in Hlen |- *. lia. }
  rewrite ValidString_token // ContainsFunc_token //; [intros r; rewrite /isSpaceOrControl; lia|].
  rewrite (every_Contains entryChar s "://") // (every_Contains entryChar s "@") //
    (every_Contains entryChar s ":") // every_ContainsAny //.
  apply entryChar_out; [done|]. by repeat constructor.
Qed.

Lemma hostChar_entryChar s : every hostChar s = true → every entryChar s = true.
Proof. apply every_impl. intros c Hc. by rewrite /entryChar Hc. Qed.

(** A wildcard never reads as an address. *)
Lemma wildcard_not_ip b : every hostChar b = true → isIPLiteral ("*." +:+ b) = false.
Proof.
  intros Hb. assert (every entryChar ("*." +:+ b) = true) as He.
  { rewrite every_app. by rewrite (hostChar_entryChar _ Hb). }
  rewrite /isIPLiteral every_Trim; [apply entryChar_out; [done|by repeat constructor]|].
  assert (NetIP.ParseAddr ("*." +:+ b) = None) as ->.
  { change ("*." +:+ b) with (String "*" (String "." b)).
    rewrite /NetIP.ParseAddr /= /NetIP.parseFields4 /=. done. }
  rewrite /NetIP.parsesAddrPort every_LastIndexByte //.
  revert He. apply every_impl. intros c. by destruct (Ascii.eqb_spec c ":") as [->|].
Qed.

Section Lemmas.
Context `{HostRules}.

Lemma normalizeName_Ok s w a : normalizeName s w = Ok a →
  ToASCII s = Some a ∧ wfName a ∧ (w = false → (2 <= length (labels a))%nat).
Proof.
  rewrite /normalizeName. rewrite !guardE_Ok. intros (_ & _ & Ha).
  destruct (ToASCII s) as [a'|]; [|done].
  rewrite !guardE_Ok in Ha. destruct Ha as (Hip & Hlen & Ha).
  destruct (checkLabels (Split a' ".")) eqn:El; [done|].
  rewrite !guardE_Ok in Ha. destruct Ha as (Hn & Htld & [= <-]).
  split_and!; [done| |].
  - split; [by apply checkLabels_None|by apply Nat.ltb_ge|done|done].
  - intros ->. rewrite andb_true_r in Hn. by apply Nat.ltb_ge.
Qed.

Lemma normalizeName_idemp `{!IdnaLaws} s w a :
  normalizeName s w = Ok a → normalizeName a w = Ok a.
Proof.
  intros Ha. destruct (normalizeName_Ok _ _ _ Ha) as (Hs & Hwf & Hn).
  destruct (wf_dots _ Hwf) as (D1 & D2 & D3). pose proof Hwf as [Hl Hlen Hip Htld].
  rewrite /normalizeName D1 D2 D3 (ToASCII_idemp _ _ Hs) Hip.
  assert ((a =?s EmptyString)%go = false) as ->.
  { apply String.eqb_neq. by apply wf_nonempty. }
  assert ((MaxEntryLen <? String.length a)%nat = false) as -> by (apply Nat.ltb_ge; done).
  apply (checkLabels_None (labels a)) in Hl. rewrite /labels in Hl Htld Hn. rewrite /= Hl Htld.
  destruct w; [by rewrite andb_false_r|]. specialize (Hn eq_refl).
  by assert ((length (Split a ".") <? 2)%nat = false) as -> by (apply Nat.ltb_ge; done).
Qed.

(** What an accepted entry is. *)
Inductive normalEntry : string → Prop :=
  | normal_exact a :
      wfName a → normalizeName a false = Ok a → (2 <= length (labels a))%nat →
      PublicSuffix a ≠ (a, true) → normalEntry a
  | normal_wildcard a :
      wfName a → normalizeName a true = Ok a → (PublicSuffix a).1 ≠ a →
      is_Some (EffectiveTLDPlusOne a) → underSharedParent a = None →
      pslRuleAncestors a = false → (String.length a + 2 <= MaxEntryLen)%nat →
      normalEntry ("*." +:+ a).

Lemma NormalizeEntry_normal `{!IdnaLaws} raw e : NormalizeEntry raw = Ok e → normalEntry e.
Proof.
  rewrite /NormalizeEntry result_bind_Ok. intros (s & _ & He).
  rewrite guardE_Ok in He. destruct He as [_ He].
  destruct (if HasPrefix s "*." then _ else _) as [w s'].
  rewrite guardE_Ok in He. destruct He as [_ He].
  rewrite result_bind_Ok in He. destruct He as (a & Ha & He).
  destruct (normalizeName_Ok _ _ _ Ha) as (_ & Hwf & Hn).
  apply normalizeName_idemp in Ha.
  destruct (PublicSuffix a) as [suffix icann] eqn:Eps. destruct w; simpl in He.
  - rewrite guardE_Ok in He. destruct He as [Hps He].
    destruct (EffectiveTLDPlusOne a) eqn:Et; [|done].
    destruct (underSharedParent a) eqn:Eu; [done|].
    rewrite !guardE_Ok in He. destruct He as (Hanc & Hlen & [= <-]).
    constructor; try done; [by rewrite Eps; apply String.eqb_neq|by apply Nat.ltb_ge].
  - rewrite guardE_Ok in He. destruct He as [Hps [= <-]].
    constructor; [done..|auto|]. rewrite Eps. intros [= -> ->]. by rewrite String.eqb_refl in Hps.
Qed.

Lemma NormalizeEntry_exact a :
  wfName a → normalizeName a false = Ok a → PublicSuffix a ≠ (a, true) →
  NormalizeEntry a = Ok a.
Proof.
  intros Hwf Ha Hps. pose proof (wf_hostChar _ Hwf) as Hc.
  destruct (wf_dots _ Hwf) as (D1 & D2 & D3).
  rewrite /NormalizeEntry preflight_id; [by apply hostChar_entryChar|by apply wf_nonempty|apply Hwf..|done|].
  simpl. assert ((a =?s "*")%go = false) as ->.
  { apply String.eqb_neq. by intros ->. }
  assert (HasPrefix a "*." = false) as ->.
  { destruct (HasPrefix a "*.") eqn:E; [|done]. apply HasPrefix_app in E as [r ->].
    by rewrite every_app in Hc. }
  rewrite (every_Contains hostChar) // Ha /=.
  destruct (PublicSuffix a) as [suffix icann]. simpl.
  destruct icann, (String.eqb_spec suffix a) as [->|]; done.
Qed.

Lemma NormalizeEntry_wildcard a :
  wfName a → normalizeName a true = Ok a → (PublicSuffix a).1 ≠ a →
  is_Some (EffectiveTLDPlusOne a) → underSharedParent a = None →
  pslRuleAncestors a = false → (String.length a + 2 <= MaxEntryLen)%nat →
  NormalizeEntry ("*." +:+ a) = Ok ("*." +:+ a).
Proof.
  intros Hwf Ha Hps [t Ht] Hu Hanc Hlen. pose proof (wf_hostChar _ Hwf) as Hc.
  destruct (wf_dots _ Hwf) as (D1 & D2 & D3).
  rewrite /NormalizeEntry preflight_id.
  - by rewrite every_app (hostChar_entryChar _ Hc).
  - done.
  - rewrite sapp_length /=. lia.
  - by apply wildcard_not_ip.
  - destruct (HasSuffix ("*." +:+ a) ".") eqn:E; [|done]. apply HasSuffix_app in E as [r E].
    assert (labels ("*." +:+ a) = labels r ++ [EmptyString]) as El by (rewrite E; apply Split_app).
    change (labels ("*." +:+ a)) with ("*" :: labels a) in El.
    destruct (wf_no_empty _ Hwf). destruct (labels r) as [|x l] eqn:El2.
    { by apply Split_nonempty in El2. }
    injection El as _ El3. rewrite El3. set_solver.
  - simpl. rewrite sapp_nil_l. assert (HasPrefix a EmptyString = true) as -> by by destruct a.
    rewrite (every_Contains hostChar) // Ha /=.
    destruct (PublicSuffix a) as [suffix icann]. simpl in Hps |- *.
    apply String.eqb_neq in Hps as ->. rewrite Ht Hu Hanc.
    by assert ((MaxEntryLen <? String.length a + 2)%nat = false) as -> by by apply Nat.ltb_ge.
Qed.

Lemma normalEntry_id e : normalEntry e → NormalizeEntry e = Ok e.
Proof. intros []; [by apply NormalizeEntry_exact|by apply NormalizeEntry_wildcard]. Qed.

Lemma NormalizeHost_wf host h : NormalizeHost host = Ok h →
  wfName h ∧ (2 <= length (labels h))%nat.
Proof.
  rewrite /NormalizeHost result_bind_Ok. intros (s & _ & Hs). rewrite guardE_Ok in Hs.
  destruct Hs as [_ (_ & ? & ?)%normalizeName_Ok]. auto.
Qed.

End Lemmas.

(** * Names by their labels *)
Lemma under_labels h p : under h p = true ↔ labels p `suffix_of` labels h.
Proof.
  rewrite /under orb_true_iff String.eqb_eq HasSuffix_app. split.
  - intros [->|[r ->]]; [done|]. change ("." +:+ p) with (String "." p).
    rewrite /labels Split_app. by exists (Split r ".").
  - intros [k Hk]. destruct (decide (k = [])) as [->|Hne].
    + left. by apply (Split_inj _ _ ".").
    + right. exists (Join k "."). change ("." +:+ p) with (String "." p).
      rewrite -(Join_Split h ".") -(Join_Split p ".") -/(labels h) -/(labels p) Hk.
      apply Join_app; [done|apply Split_nonempty].
Qed.

Lemma covers_labels base h :
  covers base h = true ↔ ∃ sub, sub ≠ [] ∧ labels h = sub ++ labels base.
Proof.
  rewrite /covers HasSuffix_app. change ("." +:+ base) with (String "." base). split.
  - intros [r ->]. exists (labels r). split; [apply Split_nonempty|apply Split_app].
  - intros (sub & Hne & Hk). exists (Join sub ".").
    rewrite -(Join_Split h ".") -(Join_Split base ".") -/(labels h) -/(labels base) Hk.
    apply Join_app; [done|apply Split_nonempty].
Qed.

Lemma covers_suffix base h : covers base h = true → labels base `suffix_of` labels h.
Proof. rewrite covers_labels. intros (sub & _ & ->). by exists sub. Qed.

(** Two names above one host: one lies under the other. *)
Lemma under_or_covers base h p :
  covers base h = true → under h p = true → under base p = true ∨ covers base p = true.
Proof.
  intros Hb%covers_suffix. rewrite !under_labels covers_labels. intros Hp.
  destruct (suffix_weak_total _ _ _ Hb Hp) as [[k Hk]|Hs]; [|by left].
  destruct k as [|x k].
  - left. by rewrite Hk.
  - right. by exists (x :: k).
Qed.

Lemma sortedKeys_elem m k : k ∈ sortedKeys m ↔ k ∈ m.*1.
Proof. by rewrite /sortedKeys merge_sort_Permutation. Qed.

Lemma find_is_Some {A} (f : A → bool) (l : list A) :
  is_Some (List.find f l) ↔ ∃ x, x ∈ l ∧ f x = true.
Proof.
  induction l as [|x l IH]; simpl.
  - split; [by intros [? ?]|]. by intros (? & ?%elem_of_nil & _).
  - destruct (f x) eqn:E.
    + split; [intros _; exists x; by rewrite elem_of_cons; auto|by eexists].
    + rewrite IH. split; intros (y & Hy & Hf); exists y; (split; [|done]).
      * rewrite elem_of_cons. by right.
      * apply elem_of_cons in Hy as [->|Hy]; congruence.
Qed.

Lemma lookupKey_is_Some m k : is_Some (lookupKey m k) ↔ k ∈ m.*1.
Proof.
  rewrite /lookupKey fmap_is_Some find_is_Some list_elem_of_fmap. split.
  - intros (kv & Hkv & <-%String.eqb_eq). by exists kv.
  - intros (kv & -> & Hkv). exists kv. split; [done|]. by apply String.eqb_eq.
Qed.

Lemma underFlaggedDomain_is_Some h :
  is_Some (underFlaggedDomain h) ↔ ∃ d, d ∈ multiPublisherDomains.*1 ∧ under h d = true.
Proof.
  rewrite /underFlaggedDomain fmap_is_Some find_is_Some.
  by setoid_rewrite sortedKeys_elem.
Qed.

Section Matching.
Context `{HostRules}.

(** What an entry in normal form allows: itself, or the names with at least
    one more label than the base of a wildcard. *)
Definition admits (e h : string) : Prop :=
  match CutPrefix e "*." with
  | Some base => ∃ sub, sub ≠ [] ∧ labels h = sub ++ labels base
  | None => h = e
  end.

Lemma matchEntry_admits h raw :
  matchEntry h raw = true ↔ ∃ e, NormalizeEntry raw = Ok e ∧ admits e h.
Proof.
  rewrite /matchEntry /admits. destruct (NormalizeEntry raw) as [e|c].
  - split.
    + intros Hm. exists e. split; [done|]. destruct (CutPrefix e "*.") as [b|].
      * by apply covers_labels.
      * by apply String.eqb_eq.
    + intros (? & [= <-] & Hm). destruct (CutPrefix e "*.") as [b|].
      * by apply covers_labels.
      * by apply String.eqb_eq.
  - split; [done|]. by intros (? & ? & _).
Qed.

Lemma Match_admits host entries :
  Match host entries = true ↔
  ∃ h raw e, NormalizeHost host = Ok h ∧ raw ∈ entries ∧ NormalizeEntry raw = Ok e ∧ admits e h.
Proof.
  rewrite /Match. destruct (NormalizeHost host) as [h|c].
  - rewrite existsb_exists. setoid_rewrite <- list_elem_of_In.
    split.
    + intros (raw & Hr & (e & He & Ha)%matchEntry_admits). eauto 10.
    + intros (? & raw & e & [= <-] & Hr & He & Ha). exists raw. split; [done|].
      apply matchEntry_admits. eauto.
  - split; [done|]. by intros (? & ? & ? & ? & _).
Qed.

Lemma NormalizeHost_idemp `{!IdnaLaws} host h : NormalizeHost host = Ok h → NormalizeHost h = Ok h.
Proof.
  rewrite /NormalizeHost result_bind_Ok. intros (s & _ & Hs). rewrite guardE_Ok in Hs.
  destruct Hs as [_ Hs]. destruct (normalizeName_Ok _ _ _ Hs) as (_ & Hwf & _).
  apply normalizeName_idemp in Hs. pose proof (wf_hostChar _ Hwf) as Hc.
  rewrite preflight_id; [by apply hostChar_entryChar|by apply wf_nonempty|apply Hwf..|apply wf_dots; done|].
  simpl. by rewrite (every_Contains hostChar).
Qed.

Lemma admits_apex e h : admits e h → CutPrefix e "*." ≠ Some h.
Proof.
  rewrite /admits. intros Ha E. rewrite E in Ha. destruct Ha as (sub & Hne & Hl).
  apply (f_equal length) in Hl. rewrite length_app in Hl. destruct sub; simpl in Hl; [done|lia].
Qed.

(** * Effective entries *)
Lemma effectiveFrom_elem ov seen l x :
  x ∈ effectiveFrom ov seen l ↔
  x ∉ seen ∧ ∃ h, h ∈ l ∧ NormalizeEntry h = Ok x ∧ (flagged x = true → x ∈ ov).
Proof.
  revert seen. induction l as [|h l IH]; intros seen; simpl.
  - split; [by intros ?%elem_of_nil|]. by intros (_ & ? & ?%elem_of_nil & _).
  - assert (∀ n, NormalizeEntry h = Ok n →
      (∃ h', h' ∈ h :: l ∧ NormalizeEntry h' = Ok x ∧ (flagged x = true → x ∈ ov)) ↔
      (x = n ∧ (flagged n = true → n ∈ ov)) ∨
      (∃ h', h' ∈ l ∧ NormalizeEntry h' = Ok x ∧ (flagged x = true → x ∈ ov))) as Hcons.
    { intros n Hn. setoid_rewrite elem_of_cons. split.
      - intros (h' & [->|?] & Hx & Hf); [|right; eauto]. rewrite Hn in Hx. injection Hx as ->. auto.
      - intros [[-> Hf]|(h' & Hh & Hx)]; [exists h|exists h']; auto. }
    destruct (NormalizeEntry h) as [n|c] eqn:Hn.
    + rewrite (Hcons n) //. clear Hcons. case_bool_decide as Hs.
      { rewrite IH. split; [intros [? ?]; auto|]. intros (Hx & [[-> _]|?]); [done|auto]. }
      destruct (flagged n && negb (bool_decide (n ∈ ov))) eqn:Ef.
      * apply andb_prop in Ef as [Ef Eo%negb_true_iff%bool_decide_eq_false].
        rewrite IH. split; [intros [? ?]; auto|]. intros (Hx & [[-> ?]|?]); [|auto].
        by destruct Eo; auto.
      * assert (flagged n = true → n ∈ ov) as Hov.
        { intros Hf. rewrite Hf in Ef. apply negb_false_iff in Ef. by apply bool_decide_eq_true in Ef. }
        rewrite elem_of_cons IH elem_of_union elem_of_singleton.
        destruct (decide (x = n)) as [->|]; [by split; auto|].
        split.
        -- intros [?|[? ?]]; [done|]. split; [set_solver|auto].
        -- intros [? [[? _]|?]]; [done|]. right. split; [set_solver|done].
    + rewrite IH. setoid_rewrite elem_of_cons. split.
      * intros (? & h' & ? & ?). eauto.
      * intros (? & h' & [->|?] & ? & ?); [congruence|eauto 6].
Qed.

Lemma effectiveFrom_NoDup ov seen l : NoDup (effectiveFrom ov seen l).
Proof.
  revert seen. induction l as [|h l IH]; intros seen; simpl; [constructor|].
  destruct (NormalizeEntry h) as [n|c]; [|apply IH]. case_bool_decide; [apply IH|].
  destruct (flagged n && _); [apply IH|]. constructor; [|apply IH].
  rewrite effectiveFrom_elem. set_solver.
Qed.

Lemma normalizedSet_elem l x :
  x ∈ normalizedSet l ↔ ∃ h, h ∈ l ∧ NormalizeEntry h = Ok x.
Proof.
  rewrite /normalizedSet elem_of_list_to_set list_elem_of_omap.
  split; intros (h & Hh & Hx); exists h; (split; [done|]); revert Hx; apply okValue_Some.
Qed.

Lemma EffectiveEntries_elem hosts ov x :
  x ∈ EffectiveEntries hosts ov ↔
  ∃ h, h ∈ hosts ∧ NormalizeEntry h = Ok x ∧ (flagged x = true → ∃ o, o ∈ ov ∧ NormalizeEntry o = Ok x).
Proof.
  rewrite /EffectiveEntries effectiveFrom_elem. setoid_rewrite normalizedSet_elem. set_solver.
Qed.

(** A host served by many publishers, by the two built-in lists. *)
Definition sharedHost (h : string) : Prop :=
  h ∈ multiPublisherHosts.*1 ∨ ∃ d, d ∈ multiPublisherDomains.*1 ∧ under h d = true.

Lemma MultiPublisher_covers e h : admits e h → sharedHost h → flagged e = true.
Proof.
  rewrite /admits /flagged /MultiPublisher /sharedHost. destruct (CutPrefix e "*.") as [base|].
  - rewrite -covers_labels. intros Hc Hh.
    destruct (underFlaggedDomain base) as [[d k]|] eqn:Eu; [done|].
    destruct (List.find (covers base) (sortedKeys multiPublisherHosts)) eqn:Eh; [done|].
    destruct (List.find (covers base) (sortedKeys multiPublisherDomains)) eqn:Ed; [done|]. exfalso.
    destruct Hh as [Hh|(d & Hd & Hu)].
    + assert (is_Some (List.find (covers base) (sortedKeys multiPublisherHosts))) as [? ?].
      { apply find_is_Some. exists h. by rewrite sortedKeys_elem. }
      congruence.
    + destruct (under_or_covers _ _ _ Hc Hu) as [Hb|Hb].
      * assert (is_Some (underFlaggedDomain base)) as [? ?].
        { apply underFlaggedDomain_is_Some. eauto. }
        congruence.
      * assert (is_Some (List.find (covers base) (sortedKeys multiPublisherDomains))) as [? ?].
        { apply find_is_Some. exists d. by rewrite sortedKeys_elem. }
        congruence.
  - intros -> [[k ->]%lookupKey_is_Some|Hd]; [done|].
    destruct (lookupKey multiPublisherHosts e); [done|].
    apply underFlaggedDomain_is_Some in Hd as [[d k] ->]. by destruct (d =?s e)%go.
Qed.

(** * A clean profile write *)
Lemma readOverrides_clean i l ov probs ov' :
  readOverrides i l ov probs = (ov', []) → probs = [] ∧ ov' = ov ∪ normalizedSet l.
Proof.
  revert i ov probs. induction l as [|raw l IH]; intros i ov probs; simpl.
  - intros [= <- ->]. split; [done|]. set_solver.
  - destruct (NormalizeEntry raw) as [n|c] eqn:En.
    + intros [-> ->]%IH. split; [done|]. apply set_eq. intros x.
      rewrite !elem_of_union !normalizedSet_elem. setoid_rewrite elem_of_cons. split.
      * intros [[->%elem_of_singleton|?]|(h & ? & ?)]; [right; exists raw; auto|auto|right; eauto].
      * intros [?|(h & [->|?] & Hx)]; [auto| |right; eauto].
        left. left. rewrite En in Hx. injection Hx as ->. by apply elem_of_singleton.
    + by intros [[? ?]%app_eq_nil _]%IH.
Qed.

Record cleanHosts (ov seen : gset string) (l : list string) (out : Validated)
    (seen' : gset string) (out' : Validated) (new : list string) : Prop := {
  ch_hosts : Hosts out' = Hosts out ++ new;
  ch_override : Override out' = Override out ++ List.filter flagged new;
  ch_warnings : Warnings out' =
    Warnings out ++ ((λ n, mkWarning n MultiPublisherOverride) <$> List.filter flagged new);
  ch_name : Name out' = Name out;
  ch_nodup : NoDup new;
  ch_elem n : n ∈ new ↔ n ∉ seen ∧ ∃ raw, raw ∈ l ∧ NormalizeEntry raw = Ok n;
  ch_all : Forall (λ raw, isOk (NormalizeEntry raw)) l;
  ch_ov : Forall (λ n, flagged n = true → n ∈ ov) new;
  ch_seen : seen' = seen ∪ list_to_set new;
}.

(** Folding an entry already seen changes nothing. *)
Lemma cleanHosts_skip ov seen l out seen' out' new raw n :
  NormalizeEntry raw = Ok n → n ∈ seen →
  cleanHosts ov seen l out seen' out' new → cleanHosts ov seen (raw :: l) out seen' out' new.
Proof.
  intros Hn Hs []. split; try done.
  - intros m. rewrite ch_elem0. setoid_rewrite elem_of_cons. split; [intros (? & r & ? & ?); eauto|].
    intros (? & r & [->|?] & Hr); [|eauto]. rewrite Hn in Hr. by injection Hr as <-.
  - constructor; [by rewrite Hn|done].
Qed.

(** A new entry goes in front of what the rest of the list adds. *)
Lemma cleanHosts_add ov seen l out mid seen' out' new raw n :
  NormalizeEntry raw = Ok n → n ∉ seen → (flagged n = true → n ∈ ov) →
  Hosts mid = Hosts out ++ [n] → Name mid = Name out →
  Override mid = Override out ++ List.filter flagged [n] →
  Warnings mid = Warnings out ++ ((λ n, mkWarning n MultiPublisherOverride) <$> List.filter flagged [n]) →
  cleanHosts ov ({[n]} ∪ seen) l mid seen' out' new → cleanHosts ov seen (raw :: l) out seen' out' (n :: new).
Proof.
  intros Hn Hs Hov Hh Hna Ho Hw []. split.
  - by rewrite ch_hosts0 Hh -app_assoc.
  - rewrite ch_override0 Ho -app_assoc. f_equal. simpl. by destruct (flagged n).
  - rewrite ch_warnings0 Hw -app_assoc. f_equal. simpl. by destruct (flagged n).
  - congruence.
  - constructor; [|done]. rewrite ch_elem0. set_solver.
  - intros m. rewrite elem_of_cons ch_elem0. setoid_rewrite elem_of_cons. split.
    + intros [->|(? & r & ? & ?)]; [split; [done|exists raw; auto]|]. split; [set_solver|eauto].
    + intros (? & r & [->|?] & Hr); [left; congruence|].
      destruct (decide (m = n)) as [->|]; [by left|]. right. split; [set_solver|eauto].
  - constructor; [by rewrite Hn|done].
  - by constructor.
  - rewrite ch_seen0 /=. set_solver.
Qed.

Lemma readHosts_clean ov i l seen out probs seen' out' :
  readHosts ov i l seen out probs = (seen', out', []) →
  probs = [] ∧ ∃ new, cleanHosts ov seen l out seen' out' new.
Proof.
  revert i seen out probs. induction l as [|raw l IH]; intros i seen out probs; cbn [readHosts].
  - intros [= <- <- ->]. split; [done|]. exists []. split; try done; rewrite /= ?app_nil_r //; [constructor| |set_solver].
    intros n. split; [by intros ?%elem_of_nil|]. by intros (_ & ? & ?%elem_of_nil & _).
  - destruct (NormalizeEntry raw) as [n|c] eqn:En; [|by intros [[? ?]%app_eq_nil _]%IH].
    case_bool_decide as Hs.
    { intros [-> [new Hnew]]%IH. split; [done|]. exists new. by eapply cleanHosts_skip. }
    destruct (flagged n) eqn:Ef.
    + case_bool_decide as Ho; [|by intros [[? ?]%app_eq_nil _]%IH].
      intros [-> [new Hnew]]%IH. split; [done|]. exists (n :: new).
      refine (cleanHosts_add _ _ _ _ _ _ _ _ _ _ En Hs (λ _, Ho) _ _ _ _ Hnew); by rewrite /= ?Ef.
    + intros [-> [new Hnew]]%IH. split; [done|]. exists (n :: new).
      refine (cleanHosts_add _ _ _ _ _ _ _ _ _ _ En Hs _ _ _ _ _ Hnew);
        rewrite /= ?Ef ?app_nil_r //.
Qed.

Lemma Validate_clean inp b out : Validate inp b = (out, []) →
  in_Hosts inp ≠ [] ∧ (length (in_Hosts inp) <= MaxEntries)%nat ∧
  (b = true → ValidateName (in_Name inp) = None) ∧ ValidateDescription (in_Description inp) = None ∧
  ∃ seen', cleanHosts (normalizedSet (in_Override inp)) ∅ (in_Hosts inp)
    (mkValidated (in_Name inp) (in_Description inp) [] [] []) seen' out (Hosts out).
Proof.
  rewrite /Validate. destruct (MaxEntries <? length (in_Hosts inp))%nat eqn:Eh.
  { intros [= _ E]. by destruct (app_cons_not_nil _ _ _ (eq_sym E)). }
  destruct (MaxEntries <? length (in_Override inp))%nat.
  { intros [= _ E]. by destruct (app_cons_not_nil _ _ _ (eq_sym E)). }
  destruct (readOverrides _ _ _ _) as [ov p1] eqn:E1.
  destruct (readHosts _ _ _ _ _ _) as [[seen' out'] p2] eqn:E2.
  intros [= <- [-> _]%app_eq_nil].
  apply readHosts_clean in E2 as [-> [new Hnew]].
  apply readOverrides_clean in E1 as [E1 ->].
  apply app_eq_nil in E1 as [[E1 E3]%app_eq_nil E4].
  assert (Hosts out' = new) as -> by (by rewrite (ch_hosts _ _ _ _ _ _ _ Hnew)).
  rewrite (left_id_L ∅ (∪)) in Hnew. split_and!.
  - by intros Hnil; rewrite Hnil in E4.
  - by apply Nat.ltb_ge.
  - intros ->. by destruct (ValidateName _).
  - by destruct (ValidateDescription _).
  - by exists seen'.
Qed.

Lemma effectiveFrom_id ov seen l :
  NoDup l → Forall (λ n, n ∉ seen ∧ NormalizeEntry n = Ok n ∧ (flagged n = true → n ∈ ov)) l →
  effectiveFrom ov seen l = l.
Proof.
  intros Hnd. revert seen. induction Hnd as [|n l Hn Hnd IH]; intros seen Hl; [done|].
  apply Forall_cons in Hl as [(Hs & He & Hf) Hl]. simpl. rewrite He bool_decide_eq_false_2 //.
  assert (flagged n && negb (bool_decide (n ∈ ov)) = false) as ->.
  { destruct (flagged n); [|done]. rewrite bool_decide_eq_true_2; [by apply Hf|done]. }
  f_equal. apply IH. eapply Forall_impl; [apply Forall_and; split; [exact Hl|]|].
  - apply Forall_forall. intros m Hm. exact Hm.
  - intros m [(Hms & Hme & Hmf) Hm]. split; [|done]. set_solver.
Qed.

Lemma WarningsFor_id ov l :
  Forall (λ n, NormalizeEntry n = Ok n ∧ (flagged n = true → n ∈ normalizedSet ov)) l →
  WarningsFor l ov = (λ n, mkWarning n MultiPublisherOverride) <$> List.filter flagged l.
Proof.
  rewrite /WarningsFor. induction 1 as [|n l [Hn Hf] _ IH]; [done|]. simpl.
  rewrite Hn. destruct (flagged n); simpl; [|done]. rewrite bool_decide_eq_true_2; [by apply Hf|].
  f_equal. exact IH.
Qed.

(** * Properties *)

(** A host matches a site list exactly when its normal form is an exact
    entry or lies at least one label below the base of a wildcard entry, both
    in normal form: the answer for a host is the answer for its normal form,
    and a wildcard never matches its own base. *)
Theorem Match_correct `{!IdnaLaws} host entries :
  (Match host entries = true ↔
   ∃ h raw e, NormalizeHost host = Ok h ∧ raw ∈ entries ∧ NormalizeEntry raw = Ok e ∧ admits e h) ∧
  (∀ h, NormalizeHost host = Ok h →
     Match h entries = Match host entries ∧
     ∀ raw, NormalizeEntry raw = Ok ("*." +:+ h) → Match host [raw] = false).
Proof.
  split; [apply Match_admits|]. intros h Hh. split.
  - by rewrite /Match Hh (NormalizeHost_idemp _ _ Hh).
  - intros raw Hraw. apply not_true_is_false. intros (h' & r & e & Hh' & ->%list_elem_of_singleton & He & Ha)%Match_admits.
    assert (h' = h) as -> by congruence. assert (e = "*." +:+ h) as -> by congruence.
    apply admits_apex in Ha. destruct Ha. by apply CutPrefix_Some.
Qed.

(** A host that serves many publishers under one name is reachable through
    a stored profile only by an entry its override list names. *)
Theorem Match_publishers `{!IdnaLaws} hosts ov host h :
  NormalizeHost host = Ok h → Match host (EffectiveEntries hosts ov) = true → sharedHost h →
  ∃ o e, o ∈ ov ∧ NormalizeEntry o = Ok e ∧ admits e h.
Proof.
  intros Hh (h' & raw & e & Hh' & Hraw & He & Ha)%Match_admits Hs.
  assert (h' = h) as -> by congruence.
  apply EffectiveEntries_elem in Hraw as (orig & Ho & Hn & Hf).
  apply NormalizeEntry_normal, normalEntry_id in Hn. assert (e = raw) as -> by congruence.
  destruct Hf as (o & Hov & Hoe); [by eapply MultiPublisher_covers|]. eauto.
Qed.

(** C39. An accepted wildcard covers no public suffix and no customer name of a
    shared parent: its base is not a suffix, has a registrable domain, has no
    suffix rule below it, and no host it covers lies at or under a shared
    parent. *)
Theorem wildcard_one_owner `{!IdnaLaws} raw base :
  NormalizeEntry raw = Ok ("*." +:+ base) →
  (PublicSuffix "com").1 = "com" → (PublicSuffix "net").1 = "net" →
  (PublicSuffix base).1 ≠ base ∧ is_Some (EffectiveTLDPlusOne base) ∧ pslRuleAncestors base = false ∧
  ∀ h p, p ∈ sharedParents → covers base h = true → under h p = false.
Proof.
  intros Hr%NormalizeEntry_normal Hcom Hnet. inversion Hr as [a Hwf|a Hwf _ Hps Het Hu Hanc _ Heq]; subst.
  { apply wf_hostChar in Hwf. by rewrite every_app in Hwf. }
  assert (a = base) as ->.
  { exact Heq. }
  split_and!; [done..|]. intros h p Hp Hc. apply not_true_is_false. intros Hup.
  destruct (under_or_covers _ _ _ Hc Hup) as [Hb|Hb].
  - assert (is_Some (underSharedParent base)) as [q Hq]; [|congruence].
    apply find_is_Some. by exists p.
  - apply covers_labels in Hb as (sub & Hne & Hl).
    assert (∃ x y, labels p = [x; y] ∧ (y = "com" ∨ y = "net")) as (x & y & Hxy & Hy).
    { rewrite /sharedParents !elem_of_cons elem_of_nil in Hp.
      destruct Hp as [->|[->|[->|[->|[->|[->|[]]]]]]]; eexists _, _; (split; [reflexivity|]); auto. }
    rewrite Hxy in Hl. destruct sub as [|x' sub]; [done|]. injection Hl as _ Hl.
    assert (labels base = [y]) as Hy'.
    { destruct sub as [|? sub]; [done|]. injection Hl as _ Hl.
      by destruct sub, (labels base) eqn:E; try done; apply Split_nonempty in E. }
    assert (base = y) as ->.
    { rewrite -(Join_Split base "."). rewrite -/(labels base) Hy'. done. }
    destruct Hy as [-> | ->]; congruence.
Qed.

(** C40. A profile write without problems stores exactly the normal forms of the
    entries sent, each once; reading the stored profile back drops none of them
    and shows the warnings of the write. *)
Theorem Validate_roundtrip `{!IdnaLaws} inp b out :
  Validate inp b = (out, []) →
  Hosts out ≠ [] ∧ NoDup (Hosts out) ∧ Forall normalEntry (Hosts out) ∧
  (∀ n, n ∈ Hosts out ↔ ∃ raw, raw ∈ in_Hosts inp ∧ NormalizeEntry raw = Ok n) ∧
  EffectiveEntries (Hosts out) (Override out) = Hosts out ∧
  WarningsFor (Hosts out) (Override out) = Warnings out.
Proof.
  intros (Hne & _ & _ & _ & seen & [_ Ho Hw _ Hnd Hel Hall _ _])%Validate_clean. simpl in Ho, Hw.
  assert (Forall normalEntry (Hosts out)) as Hnorm.
  { apply Forall_forall. intros n (_ & raw & _ & Hr)%Hel. by eapply NormalizeEntry_normal. }
  assert (Forall (λ n, NormalizeEntry n = Ok n ∧ (flagged n = true → n ∈ normalizedSet (Override out)))
            (Hosts out)) as Hid.
  { rewrite Forall_forall in Hnorm. rewrite Forall_forall. intros n Hn.
    pose proof (normalEntry_id _ (Hnorm n Hn)) as Hnn.
    split; [done|]. intros Hf. apply normalizedSet_elem. exists n. split; [|done].
    rewrite Ho list_elem_of_In. apply filter_In. by rewrite -list_elem_of_In. }
  split_and!; try done.
  - intros Hnil. destruct (in_Hosts inp) as [|raw l]; [done|].
    apply Forall_cons in Hall as [Hraw _]. destruct (NormalizeEntry raw) as [n|] eqn:En; [|done].
    assert (n ∈ Hosts out) as Hin by (apply Hel; split; [done|]; exists raw; set_solver).
    by rewrite Hnil in Hin; apply elem_of_nil in Hin.
  - intros n. rewrite Hel. set_solver.
  - apply effectiveFrom_id; [done|]. eapply Forall_impl; [exact Hid|]. intros n [? ?]. split; [set_solver|done].
  - by rewrite (WarningsFor_id _ _ Hid) Hw.
Qed.

(** No stored entry is dropped in silence: one that allows nothing has a
    warning that says so. *)
Lemma WarningsFor_complete hosts ov h : h ∈ hosts →
  (∃ n, NormalizeEntry h = Ok n ∧ n ∈ EffectiveEntries hosts ov) ∨
  (∃ w, w ∈ WarningsFor hosts ov ∧ warn_Entry w = h ∧ warn_Code w ≠ MultiPublisherOverride).
Proof.
  intros Hh. rewrite /WarningsFor. setoid_rewrite list_elem_of_omap.
  destruct (NormalizeEntry h) as [n|c] eqn:En.
  - destruct (flagged n && negb (bool_decide (n ∈ normalizedSet ov))) eqn:Ef.
    + right. apply andb_prop in Ef as [Ef Eo%negb_true_iff].
      exists (mkWarning h MultiPublisherNeedsOverride). split; [|done]. exists h. by rewrite En Ef Eo.
    + left. exists n. split; [done|]. apply EffectiveEntries_elem. exists h. split_and!; [done..|].
      intros Hf. rewrite Hf in Ef. apply negb_false_iff, bool_decide_eq_true in Ef.
      by apply normalizedSet_elem in Ef.
  - right. exists (mkWarning h StaleEntry). split; [|done]. exists h. by rewrite En.
Qed.

End Matching.

(** * Examples: rules under which every top-level label is a public suffix *)
#[local] Instance exampleRules : HostRules := {|
  ToASCII s := Some (asciiLower s);
  PublicSuffix s := (default EmptyString (last (labels s)), true);
  EffectiveTLDPlusOne s := if (2 <=? length (labels s))%nat then Some s else None;
  pslRuleAncestors _ := false;
|}.

#[local] Instance exampleLaws : IdnaLaws.
Proof.
  split. intros s a [= <-]. cbn. by rewrite asciiLower_idemp.
Defined.

Example match_example :
  (Match "Docs.Example.com." ["*.example.com"], Match "example.com" ["*.example.com"],
   Match "evilexample.com" ["*.example.com"], Match "10.0.0.1" ["*.example.com"]) =
  (true, false, false, false).
Proof. vm_compute. reflexivity. Qed.

Lemma Match_correct_witness :
  Match "Docs.Example.com." ["*.example.com"] = true ∧ Match "Example.com" ["*.example.com"] = false.
Proof.
  split.
  - apply (proj2 (proj1 (Match_correct "Docs.Example.com." ["*.example.com"]))).
    exists "docs.example.com", "*.example.com", "*.example.com". split_and!; try (vm_compute; reflexivity).
    + set_solver.
    + exists ["docs"]. split; [done|reflexivity].
  - assert (NormalizeHost "Example.com" = Ok "example.com") as Hh by (vm_compute; reflexivity).
    apply (proj2 (proj2 (Match_correct "Example.com" []) _ Hh) "*.example.com"). vm_compute. reflexivity.
Defined.

Lemma Match_publishers_witness :
  ∃ o e, o ∈ ["*.github.com"] ∧ NormalizeEntry o = Ok e ∧ admits e "gist.github.com".
Proof.
  apply (Match_publishers ["*.github.com"] ["*.github.com"] "gist.github.com" "gist.github.com").
  - vm_compute. reflexivity.
  - vm_compute. reflexivity.
  - left. rewrite /multiPublisherHosts /=. set_solver.
Defined.

Lemma wildcard_one_owner_witness : under "docs.example.com" "azure.com" = false.
Proof.
  apply (wildcard_one_owner "*.Example.com" "example.com").
  - vm_compute. reflexivity.
  - vm_compute. reflexivity.
  - vm_compute. reflexivity.
  - rewrite /sharedParents. set_solver.
  - vm_compute. reflexivity.
Defined.

Definition example_input : Input :=
  mkInput "docs" "Vendor documentation" ["Docs.Example.com"; "docs.example.com."; "*.github.com"] ["*.GitHub.com"].

Lemma Validate_roundtrip_witness :
  EffectiveEntries ["docs.example.com"; "*.github.com"] ["*.github.com"] = ["docs.example.com"; "*.github.com"].
Proof.
  apply (Validate_roundtrip example_input true
    (mkValidated "docs" "Vendor documentation" ["docs.example.com"; "*.github.com"] ["*.github.com"]
       [mkWarning "*.github.com" MultiPublisherOverride])).
  vm_compute. reflexivity.
Defined.

End EgressProfile.
