(* ===== verification/FetchDb.v ===== *)
(** The tables behind the fetch admission of isolated runs
    ([src/api/internal/store/run_fetch.sql.go], migration 00273), the caps read
    from the settings ([src/api/internal/settings/settings_fetch_caps.go]) and
    transactions over them.

    A statement runs against the working copy of a transaction; a list of
    faults says which statements the database fails, and a commit may fail after
    it has taken effect.  Row locks serialize the transactions of a run, so that
    one transaction is one step.  [CHECK], [UNIQUE] and [bigint] violations are
    errors of the statement. *)

From Stdlib Require Import Ascii.
From S2P Require Import Prelude Result GoText GoStrings GoSearch GoJson Termsafe.

Local Open Scope Z_scope.

(** * The caps *)
Module FetchCaps.
Import GoStrings.

Definition KeyFetchMaxFileBytes : string := "fetch_max_file_bytes".
Definition KeyFetchMaxRunBytes : string := "fetch_max_run_bytes".
Definition KeyFetchMaxRunFiles : string := "fetch_max_run_files".
Definition KeyFetchMaxConcurrentRun : string := "fetch_max_concurrent_per_run".
Definition KeyFetchMaxRunAttempts : string := "fetch_max_run_attempts".

Definition fetchCapBounds (key : string) : option (Z * Z) :=
  if (key =?s KeyFetchMaxFileBytes)%go then Some (1, Z.shiftl 1 30) else
  if (key =?s KeyFetchMaxRunBytes)%go then Some (1, Z.shiftl 10 30) else
  if (key =?s KeyFetchMaxRunFiles)%go then Some (1, 10000) else
  if (key =?s KeyFetchMaxConcurrentRun)%go then Some (1, 32) else
  if (key =?s KeyFetchMaxRunAttempts)%go then Some (1, 100000) else None.

(** The entries of [Defaults] for the caps. *)
Definition Defaults (key : string) : string :=
  if (key =?s KeyFetchMaxFileBytes)%go then "26214400" else
  if (key =?s KeyFetchMaxRunBytes)%go then "209715200" else
  if (key =?s KeyFetchMaxRunFiles)%go then "100" else
  if (key =?s KeyFetchMaxConcurrentRun)%go then "4" else
  if (key =?s KeyFetchMaxRunAttempts)%go then "500" else EmptyString.

Definition parseFetchCap (key value : string) : option Z :=
  '(lo, hi) ← fetchCapBounds key;
  n ← Atoi (TrimSpace value);
  if (n <? lo) || (n >? hi) then None else Some n.

Inductive capError := ErrUnknownCap | ErrWholeNumber | ErrBetween (lo hi : Z).

Definition validateFetchCap (key value : string) : option capError :=
  match fetchCapBounds key with
  | None => Some ErrUnknownCap
  | Some (lo, hi) =>
    match Atoi (TrimSpace value) with
    | None => Some ErrWholeNumber
    | Some _ => match parseFetchCap key value with None => Some (ErrBetween lo hi) | Some _ => None end
    end
  end.

(** The settings cache: the environment overlay, and the rows it reads, [None]
    when the read fails. *)
Record Cache := mkCache { env : gmap string string; rows : option (gmap string string) }.

Definition nonEmpty (v : option string) : option string :=
  s ← v; if (s =?s EmptyString)%go then None else Some s.

Definition effective (c : Cache) (key : string) (m : gmap string string) : string :=
  match nonEmpty (env c !! key) with
  | Some v => v
  | None => default (Defaults key) (nonEmpty (m !! key))
  end.

(** The value and whether the read failed. *)
Definition get (c : Cache) (key : string) : string * bool :=
  match nonEmpty (env c !! key) with
  | Some v => (v, false)
  | None =>
    match rows c with
    | None => (Defaults key, true)
    | Some m => (effective c key m, false)
    end
  end.

Record FetchCaps := mkCaps {
  MaxFileBytes : Z; MaxRunBytes : Z; MaxRunFiles : Z; MaxConcurrentPerRun : Z; MaxRunAttempts : Z }.

Definition getCap (c : Cache) (key : string) : Z :=
  match parseFetchCap key (get c key).1 with
  | Some n => n
  | None => default 0 (parseFetchCap key (Defaults key))
  end.

(** The caps, and whether a read failed. *)
Definition readCaps (c : Cache) : FetchCaps * bool :=
  (mkCaps (getCap c KeyFetchMaxFileBytes) (getCap c KeyFetchMaxRunBytes) (getCap c KeyFetchMaxRunFiles)
     (getCap c KeyFetchMaxConcurrentRun) (getCap c KeyFetchMaxRunAttempts),
   existsb (λ key, (get c key).2)
     [KeyFetchMaxFileBytes; KeyFetchMaxRunBytes; KeyFetchMaxRunFiles; KeyFetchMaxConcurrentRun;
      KeyFetchMaxRunAttempts]).

Lemma parseFetchCap_bounds key v n lo hi :
  fetchCapBounds key = Some (lo, hi) → parseFetchCap key v = Some n → lo <= n <= hi.
Proof.
  rewrite /parseFetchCap. intros -> Hn. simpl in Hn.
  destruct (Atoi (TrimSpace v)) as [m|]; simpl in Hn; [|done].
  destruct ((m <? lo) || (m >? hi)) eqn:E; [done|]. injection Hn as ->. lia.
Qed.

(** A cap is within its bounds whatever the stored value and whether or not it
    could be read. *)
Lemma getCap_bounds c key lo hi :
  fetchCapBounds key = Some (lo, hi) → is_Some (parseFetchCap key (Defaults key)) →
  lo <= getCap c key <= hi.
Proof.
  intros Hb [d Hd]. rewrite /getCap. destruct (parseFetchCap key (get c key).1) as [n|] eqn:En.
  - by eapply parseFetchCap_bounds.
  - rewrite Hd. by eapply parseFetchCap_bounds.
Qed.

Record capsOk (caps : FetchCaps) : Prop := {
  co_file : 1 <= MaxFileBytes caps <= 2 ^ 30;
  co_run : 1 <= MaxRunBytes caps <= 10 * 2 ^ 30;
  co_files : 1 <= MaxRunFiles caps <= 10000;
  co_conc : 1 <= MaxConcurrentPerRun caps <= 32;
  co_att : 1 <= MaxRunAttempts caps <= 100000;
}.

Lemma readCaps_ok c : capsOk (readCaps c).1.
Proof. split; simpl; apply getCap_bounds; try reflexivity; vm_compute; eauto. Qed.

(** The write-time check accepts exactly what the reader will use. *)
Lemma validateFetchCap_spec key v :
  validateFetchCap key v = None ↔ is_Some (parseFetchCap key v).
Proof.
  rewrite /validateFetchCap /parseFetchCap. destruct (fetchCapBounds key) as [[lo hi]|]; simpl.
  - destruct (Atoi (TrimSpace v)) as [n|]; simpl; [|split; [done|by intros [? ?]]].
    destruct ((n <? lo) || (n >? hi)); split; try done.
  - split; [done|by intros [? ?]].
Qed.

End FetchCaps.

(** * The tables *)
Module FetchDb.
Import GoStrings GoJson.

Inductive error :=
  | ErrCredentialInvalid
  | ErrReservationNotFound
  | AdmissionRefused (reason : string)
  | InvalidRequest (msg : string)
  | ErrRunVanished
  | ErrSnapshot          (* no snapshot, or one that does not decode *)
  | ErrCaps              (* the settings could not be read *)
  | ErrNoRows
  | ErrDB.               (* the statement, the commit or the connection failed *)

(** The columns of [runs] the lane reads. *)
Record Run := mkRun {
  r_status : string;
  r_claim_generation : Z;
  r_egress_profile_id : option uuid;
  r_egress_snapshot : option json;
}.

(** [egress_profiles]. *)
Record Profile := mkProfile { p_name : string; p_hosts : list string; p_override : list string }.

(** [run_fetch_credentials]; the flag is a non-null [revoked_at]. *)
Record Cred := mkCred {
  token_hash : string;
  c_claim_generation : Z;
  revoked : bool;
  reserved_bytes : Z;
  used_bytes : Z;
  files : Z;
  inflight : Z;
  attempts : Z;
}.

(** [run_fetch_reservations]. *)
Record Reservation := mkReservation {
  res_run : uuid;
  res_claim_generation : Z;
  res_bytes : Z;
  created_at : time;
  settled : bool;
}.

(** [run_fetches]; the table is keyed by the unique reservation. *)
Record Fetch := mkFetch {
  f_run : uuid;
  f_url : string;
  f_final_url : string;
  f_verdict : string;
  f_reason : string;
  f_http_status : Z;
  f_content_type : string;
  f_bytes : Z;
  f_sha256 : string;
  f_started_at : time;
  f_finished_at : time;
}.

Record DB := mkDB {
  runs : gmap uuid Run;
  profiles : gmap uuid Profile;
  creds : gmap uuid Cred;
  reservations : gmap uuid Reservation;
  fetches : gmap uuid Fetch;
}.

Definition set_runs (db : DB) m := mkDB m (profiles db) (creds db) (reservations db) (fetches db).
Definition set_creds (db : DB) m := mkDB (runs db) (profiles db) m (reservations db) (fetches db).
Definition set_reservations (db : DB) m := mkDB (runs db) (profiles db) (creds db) m (fetches db).
Definition set_fetches (db : DB) m := mkDB (runs db) (profiles db) (creds db) (reservations db) m.

Definition set_counters (c : Cred) (r u f i a : Z) : Cred :=
  mkCred (token_hash c) (c_claim_generation c) (revoked c) r u f i a.

(** * Transactions *)
Inductive fault := NoFault | StmtFails | CommitLost.

Record TX := mkTX { committed : DB; work : DB; faults : list fault }.

Definition T (A : Type) : Type := TX → result error A * TX.

#[export] Instance T_ret : MRet T := λ A a t, (Ok a, t).
#[export] Instance T_bind : MBind T := λ A B f m t,
  match m t with
  | (Ok a, t') => f a t'
  | (Err e, t') => (Err e, t')
  end.

Definition fail {A} (e : error) : T A := λ t, (Err e, t).
Definition liftR {A} (r : result error A) : T A := λ t, (r, t).

Definition nextFault (t : TX) : fault := default NoFault (head (faults t)).
Definition popFault (t : TX) : TX := mkTX (committed t) (work t) (tail (faults t)).

Definition stmt {A} (f : DB → result error (A * DB)) : T A := λ t,
  let t' := popFault t in
  match nextFault t with
  | NoFault =>
    match f (work t) with
    | Ok (a, db) => (Ok a, mkTX (committed t) db (faults t'))
    | Err e => (Err e, t')
    end
  | _ => (Err ErrDB, t')
  end.

Definition query {A} (f : DB → result error A) : T A :=
  stmt (λ db, a ← f db; Ok (a, db)).

Definition Commit : T unit := λ t,
  let t' := popFault t in
  match nextFault t with
  | NoFault => (Ok tt, mkTX (work t) (work t) (faults t'))
  | StmtFails => (Err ErrDB, t')
  | CommitLost => (Err ErrDB, mkTX (work t) (work t) (faults t'))
  end.

(** [db.Begin], the body, the deferred [Rollback]: what was not committed is
    gone. *)
Definition inTx {A} (body : T A) (fs : list fault) (db : DB) : result error A * DB :=
  let '(r, t) := (stmt (λ d, Ok (tt, d)) ≫= λ _, body) (mkTX db db fs) in
  (r, committed t).

(** * Column types *)
Definition maxBigint : Z := 2 ^ 63 - 1.
Definition bigint (z : Z) : bool := (- 2 ^ 63 <=? z) && (z <=? maxBigint).

(** The counters of a credential row after an update: in range, and not
    negative by their [CHECK]s. *)
Definition counterOk (z : Z) : bool := (0 <=? z) && (z <=? maxBigint).
Definition countersOk (c : Cred) : bool :=
  counterOk (reserved_bytes c) && counterOk (used_bytes c) && counterOk (files c)
  && counterOk (inflight c) && counterOk (attempts c).

Definition updateCred (db : DB) (run : uuid) (c : Cred) : result error DB :=
  if countersOk c then Ok (set_creds db (<[run := c]> (creds db))) else Err ErrDB.

(** [text]: valid UTF-8 without NUL. *)
Definition pgText (s : string) : bool :=
  ValidString s && negb (existsb (Z.eqb 0) (rune <$> runes s)).
Definition textOk (max : Z) (s : string) : bool :=
  pgText s && (Z.of_nat (String.length s) <=? max).

Definition hexLower (c : ascii) : bool :=
  ((48 <=? byteOf c) && (byteOf c <=? 57)) || ((97 <=? byteOf c) && (byteOf c <=? 102)).
Definition sha256Hex (s : string) : bool :=
  (String.length s =? 64)%nat && forallb hexLower (String.list_ascii_of_string s).

(** The [CHECK]s of [run_fetches]. *)
Definition fetchOk (f : Fetch) : bool :=
  textOk 8192 (f_url f) && textOk 8192 (f_final_url f)
  && ((f_verdict f =?s "allowed")%go || (f_verdict f =?s "refused")%go)
  && textOk 64 (f_reason f)
  && (0 <=? f_http_status f) && (f_http_status f <=? 999)
  && textOk 512 (f_content_type f)
  && counterOk (f_bytes f)
  && ((f_sha256 f =?s EmptyString)%go || sha256Hex (f_sha256 f)).

(** * Sums over the tables *)
Definition total {A} (f : A → Z) (m : gmap uuid A) : Z := map_fold (λ _ x acc, f x + acc) 0 m.

(** * Statements *)
Definition findCred (db : DB) (hash : string) : option (uuid * Cred) :=
  List.find (λ '(_, c), (token_hash c =?s hash)%go) (map_to_list (creds db)).

Record CredRow := mkCredRow {
  RunID : uuid; ClaimGeneration : Z; RevokedAt : bool; Status : string;
  RunClaimGeneration : Z; EgressSnapshot : option json }.

Definition LockFetchCredentialByHash (hash : string) : T (option CredRow) :=
  query (λ db, Ok (
    '(run, c) ← findCred db hash;
    r ← runs db !! run;
    Some (mkCredRow run (c_claim_generation c) (revoked c) (r_status r) (r_claim_generation r)
            (r_egress_snapshot r)))).

Definition LockFetchCredentialRunByHash (hash : string) : T (option (uuid * Z)) :=
  query (λ db, Ok ('(run, c) ← findCred db hash; Some (run, c_claim_generation c))).

(** Statements that report how many rows they changed. *)
Definition BumpFetchAttempt (run : uuid) (maxAttempts : Z) : T Z :=
  stmt (λ db,
    match creds db !! run with
    | Some c =>
      if attempts c <? maxAttempts then
        db' ← updateCred db run
                (set_counters c (reserved_bytes c) (used_bytes c) (files c) (inflight c) (attempts c + 1));
        Ok (1, db')
      else Ok (0, db)
    | None => Ok (0, db)
    end).

Definition ReserveFetch (run : uuid) (maxFileBytes maxRunBytes maxRunFiles maxInflight : Z) : T Z :=
  stmt (λ db,
    match creds db !! run with
    | Some c =>
      if negb (bigint (reserved_bytes c + used_bytes c + maxFileBytes)) then Err ErrDB else
      if (reserved_bytes c + used_bytes c + maxFileBytes <=? maxRunBytes)
         && (files c <? maxRunFiles) && (inflight c <? maxInflight) then
        db' ← updateCred db run
                (set_counters c (reserved_bytes c + maxFileBytes) (used_bytes c) (files c + 1)
                   (inflight c + 1) (attempts c));
        Ok (1, db')
      else Ok (0, db)
    | None => Ok (0, db)
    end).

Definition GetFetchCounters (run : uuid) : T Cred :=
  query (λ db, match creds db !! run with Some c => Ok c | None => Err ErrNoRows end).

(** The id is the one [gen_random_uuid] draws, [now] the transaction's clock. *)
Definition InsertFetchReservation (id : uuid) (now : time) (run : uuid) (gen bytes : Z) : T uuid :=
  stmt (λ db,
    match reservations db !! id, runs db !! run with
    | None, Some _ =>
      if 0 <? bytes then
        Ok (id, set_reservations db (<[id := mkReservation run gen bytes now false]> (reservations db)))
      else Err ErrDB
    | _, _ => Err ErrDB
    end).

Definition LockFetchReservation (id run : uuid) : T (option Reservation) :=
  query (λ db, Ok (
    r ← reservations db !! id; if bool_decide (res_run r = run) then Some r else None)).

Definition RunFetchLoggedForReservation (id : uuid) : T bool :=
  query (λ db, Ok (bool_decide (is_Some (fetches db !! id)))).

Definition settle (r : Reservation) : Reservation :=
  mkReservation (res_run r) (res_claim_generation r) (res_bytes r) (created_at r) true.

Definition SettleFetchReservation (id : uuid) : T unit :=
  stmt (λ db, Ok (tt, set_reservations db (alter settle id (reservations db)))).

Definition ReconcileFetchCounters (run : uuid) (releaseBytes releaseInflight usedBytes refundFiles : Z) : T unit :=
  stmt (λ db,
    match creds db !! run with
    | Some c =>
      db' ← updateCred db run
              (set_counters c (reserved_bytes c - releaseBytes) (used_bytes c + usedBytes)
                 (files c - refundFiles) (inflight c - releaseInflight) (attempts c));
      Ok (tt, db')
    | None => Ok (tt, db)
    end).

Definition InsertRunFetch (id : uuid) (f : Fetch) : T unit :=
  stmt (λ db,
    match fetches db !! id, runs db !! f_run f with
    | None, Some _ =>
      if fetchOk f then Ok (tt, set_fetches db (<[id := f]> (fetches db))) else Err ErrDB
    | _, _ => Err ErrDB
    end).

(** Releasing: the open reservations that [p] selects are settled, and every
    run gets back the bytes and the slots of its own. *)
Definition selected (p : Reservation → bool) (r : Reservation) : bool := negb (settled r) && p r.
Definition givesBack (p : Reservation → bool) (run : uuid) (r : Reservation) : bool :=
  selected p r && bool_decide (res_run r = run).

Definition releaseCred (p : Reservation → bool) (m : gmap uuid Reservation) (run : uuid) (c : Cred) : Cred :=
  set_counters c
    (reserved_bytes c - total (λ r, if givesBack p run r then res_bytes r else 0) m)
    (used_bytes c) (files c)
    (inflight c - total (λ r, if givesBack p run r then 1 else 0) m) (attempts c).

Definition release (p : Reservation → bool) (db : DB) : result error (Z * DB) :=
  let m := reservations db in
  let creds' := map_imap (λ run c, Some (releaseCred p m run c)) (creds db) in
  if forallb (λ '(_, c), countersOk c) (map_to_list creds') then
    Ok (total (λ r, if selected p r then 1 else 0) m,
        set_creds (set_reservations db ((λ r, if selected p r then settle r else r) <$> m)) creds')
  else Err ErrDB.

Definition stale (cutoff : time) (r : Reservation) : bool := created_at r <? cutoff.

Definition LockCredentialsWithStaleFetchReservations (cutoff : time) : T (list uuid) :=
  query (λ db, Ok (List.filter
    (λ run, existsb (λ '(_, r), givesBack (stale cutoff) run r) (map_to_list (reservations db)))
    (map_to_list (creds db)).*1)).

Definition ReleaseStaleFetchReservations (cutoff : time) (runIds : list uuid) : T Z :=
  stmt (release (λ r, stale cutoff r && bool_decide (res_run r ∈ runIds))).

Definition ReleasePriorGenerationFetchReservations (run : uuid) (gen : Z) : T Z :=
  stmt (release (λ r, bool_decide (res_run r = run) && (res_claim_generation r <? gen))).

Definition claimedOrRunning (status : string) : bool :=
  (status =?s "claimed")%go || (status =?s "running")%go.

(** The unique index on [token_hash]: another run's row has the hash. *)
Definition hashTaken (db : DB) (hash : string) (run : uuid) : bool :=
  existsb (λ '(run', c), (token_hash c =?s hash)%go && negb (bool_decide (run' = run)))
    (map_to_list (creds db)).

Definition MintRunFetchCredential (hash : string) (gen : Z) (run : uuid) : T Z :=
  stmt (λ db,
    match runs db !! run with
    | Some r =>
      if (r_claim_generation r =? gen) && claimedOrRunning (r_status r)
         && bool_decide (is_Some (r_egress_profile_id r)) then
        if hashTaken db hash run then Err ErrDB else
        let c := default (mkCred hash gen false 0 0 0 0 0) (creds db !! run) in
        Ok (1, set_creds db (<[run := mkCred hash gen false (reserved_bytes c) (used_bytes c)
                 (files c) (inflight c) (attempts c)]> (creds db)))
      else Ok (0, db)
    | None => Ok (0, db)
    end).

Definition GetEgressProfileByID (id : uuid) : T Profile :=
  query (λ db, match profiles db !! id with Some p => Ok p | None => Err ErrNoRows end).

Definition GetRunEgressSnapshot (run : uuid) : T (option (option json)) :=
  query (λ db, Ok (r_egress_snapshot <$> runs db !! run)).

Definition SetRunEgressSnapshotOnce (run : uuid) (snapshot : json) : T unit :=
  stmt (λ db, Ok (tt, set_runs db (alter (λ r,
    match r_egress_snapshot r with
    | None => mkRun (r_status r) (r_claim_generation r) (r_egress_profile_id r) (Some snapshot)
    | Some _ => r
    end) run (runs db)))).

(** * Lemmas on sums *)
Section Total.
Context {A : Type}.
Implicit Types (f g : A → Z) (m : gmap uuid A).

Lemma total_empty f : total f ∅ = 0.
Proof. apply map_fold_empty. Qed.

Lemma total_insert_fresh f m k x : m !! k = None → total f (<[k := x]> m) = f x + total f m.
Proof. intros Hk. rewrite /total map_fold_insert_L //. intros. lia. Qed.

Lemma total_delete f m k x : m !! k = Some x → total f m = f x + total f (delete k m).
Proof.
  intros Hk. rewrite -{1}(insert_delete_id m k x) // total_insert_fresh // lookup_delete_eq //.
Qed.

Lemma total_insert f m k x y : m !! k = Some y → total f (<[k := x]> m) = f x - f y + total f m.
Proof.
  intros Hk. rewrite (total_delete f m k y) // -insert_delete_eq.
  rewrite total_insert_fresh ?lookup_delete_eq //. lia.
Qed.

Lemma total_ind (P : gmap uuid A → Prop) :
  P ∅ → (∀ k x m, m !! k = None → P m → P (<[k := x]> m)) → ∀ m, P m.
Proof. intros H0 H1 m. by induction m using map_ind; auto. Qed.

Lemma total_ext f g m : (∀ k x, m !! k = Some x → f x = g x) → total f m = total g m.
Proof.
  induction m as [|k x m Hk IH] using total_ind; intros Hfg; [by rewrite !total_empty|].
  rewrite !total_insert_fresh //. rewrite (Hfg k x) ?lookup_insert_eq // IH //.
  intros k' x' Hk'. apply (Hfg k'). rewrite lookup_insert_ne //. by intros ->; rewrite Hk in Hk'.
Qed.

Lemma total_nonneg f m : (∀ k x, m !! k = Some x → 0 <= f x) → 0 <= total f m.
Proof.
  induction m as [|k x m Hk IH] using total_ind; intros Hf; [by rewrite total_empty|].
  rewrite total_insert_fresh //. pose proof (Hf k x (lookup_insert_eq _ _ _)).
  assert (0 <= total f m); [|lia]. apply IH. intros k' x' Hk'. apply (Hf k').
  rewrite lookup_insert_ne //. by intros ->; rewrite Hk in Hk'.
Qed.

Lemma total_add f g m : total (λ x, f x + g x) m = total f m + total g m.
Proof.
  induction m as [|k x m Hk IH] using total_ind; [by rewrite !total_empty|].
  rewrite !total_insert_fresh // IH. lia.
Qed.

Lemma total_scale c f m : total (λ x, c * f x) m = c * total f m.
Proof.
  induction m as [|k x m Hk IH] using total_ind; [rewrite !total_empty; lia|].
  rewrite !total_insert_fresh // IH. lia.
Qed.

Lemma total_le f g m : (∀ k x, m !! k = Some x → f x <= g x) → total f m <= total g m.
Proof.
  intros Hfg. assert (0 <= total (λ x, g x + -1 * f x) m) as H.
  { apply total_nonneg. intros k x Hk. specialize (Hfg k x Hk). lia. }
  rewrite total_add total_scale in H. lia.
Qed.

Lemma total_zero f m : (∀ k x, m !! k = Some x → f x = 0) → total f m = 0.
Proof.
  intros Hf. rewrite (total_ext _ (λ _, 0) m); [done|].
  induction m as [|k x m Hk IH] using total_ind; [done|]. rewrite total_insert_fresh // IH //.
  intros k' x' Hk'. apply (Hf k'). rewrite lookup_insert_ne //. by intros ->; rewrite Hk in Hk'.
Qed.

Lemma total_fmap (h : A → A) f m : total f (h <$> m) = total (λ x, f (h x)) m.
Proof.
  induction m as [|k x m Hk IH] using total_ind; [by rewrite fmap_empty !total_empty|].
  rewrite fmap_insert !total_insert_fresh ?lookup_fmap ?Hk // IH //.
Qed.

Lemma total_filter (P : uuid * A → Prop) `{!∀ x, Decision (P x)} f m :
  (∀ k x, m !! k = Some x → ¬ P (k, x) → f x = 0) → total f (filter P m) = total f m.
Proof.
  induction m as [|k x m Hk IH] using total_ind; intros Hf; [by rewrite map_filter_empty|].
  assert (total f (filter P m) = total f m) as IH'.
  { apply IH. intros k' x' Hk'. apply (Hf k'). rewrite lookup_insert_ne //. by intros ->; rewrite Hk in Hk'. }
  destruct (decide (P (k, x))) as [HP|HP].
  - rewrite map_filter_insert_True // !total_insert_fresh // ?IH' //.
    apply map_lookup_filter_None. by left.
  - rewrite map_filter_insert_not'; [done|by intros y Hy; congruence|].
    rewrite IH' total_insert_fresh // (Hf k x) ?lookup_insert_eq //.
Qed.
End Total.

(** A table whose rows are charged to the rows of another. *)
Lemma total_charge {A B} (f : A → Z) (g : B → Z) (m : gmap uuid A) (n : gmap uuid B) :
  (∀ k y, n !! k = Some y → 0 <= g y) →
  (∀ k x, m !! k = Some x → ∃ y, n !! k = Some y ∧ f x <= g y) →
  total f m <= total g n.
Proof.
  revert n. induction m as [|k x m Hk IH] using total_ind; intros n Hg Hm.
  - rewrite total_empty. by apply total_nonneg.
  - destruct (Hm k x (lookup_insert_eq _ _ _)) as (y & Hy & Hle).
    rewrite total_insert_fresh // (total_delete _ n k y) //.
    assert (total f m <= total g (delete k n)); [|lia]. apply IH.
    + intros k' y' [_ ?]%lookup_delete_Some. eauto.
    + intros k' x' Hk'. destruct (decide (k' = k)) as [->|Hne]; [congruence|].
      destruct (Hm k' x') as (y' & ? & ?); [by rewrite lookup_insert_ne|].
      exists y'. by rewrite lookup_delete_ne.
Qed.

(** * Reasoning on transactions

    Whatever the database fails: the result, what is committed and the working
    copy. *)
Definition wpT {A} (m : T A) (c w : DB) (Q : result error A → DB → DB → Prop) : Prop :=
  ∀ fs, let '(r, t) := m (mkTX c w fs) in Q r (committed t) (work t).

Lemma wpT_ret {A} (a : A) c w (Q : result error A → DB → DB → Prop) : Q (Ok a) c w → wpT (mret a) c w Q.
Proof. by intros HQ fs. Qed.

Lemma wpT_fail {A} e c w (Q : result error A → DB → DB → Prop) : Q (Err e) c w → wpT (fail e) c w Q.
Proof. by intros HQ fs. Qed.

Lemma wpT_lift {A} (r : result error A) c w (Q : result error A → DB → DB → Prop) :
  Q r c w → wpT (liftR r) c w Q.
Proof. by intros HQ fs. Qed.

Lemma wpT_bind {A B} (m : T A) (f : A → T B) c w (Q : result error B → DB → DB → Prop) :
  wpT m c w (λ r c' w', match r with Ok a => wpT (f a) c' w' Q | Err e => Q (Err e) c' w' end) →
  wpT (m ≫= f) c w Q.
Proof.
  intros Hm fs. specialize (Hm fs). rewrite /mbind /T_bind.
  destruct (m (mkTX c w fs)) as [[a|e] [c' w' fs']]; simpl in *; [apply Hm|done].
Qed.

Lemma wpT_stmt {A} (f : DB → result error (A * DB)) c w (Q : result error A → DB → DB → Prop) :
  Q (Err ErrDB) c w →
  match f w with Ok (a, w') => Q (Ok a) c w' | Err e => Q (Err e) c w end →
  wpT (stmt f) c w Q.
Proof.
  intros He Hf fs. rewrite /stmt /nextFault /popFault /=.
  destruct (default NoFault (head fs)); [|done..]. by destruct (f w) as [[a w']|e].
Qed.

Lemma wpT_query {A} (f : DB → result error A) c w (Q : result error A → DB → DB → Prop) :
  Q (Err ErrDB) c w → Q (f w) c w → wpT (query f) c w Q.
Proof. intros He Hf. apply wpT_stmt; [done|]. by destruct (f w). Qed.

Lemma wpT_commit c w (Q : result error unit → DB → DB → Prop) :
  Q (Err ErrDB) c w → Q (Ok tt) w w → Q (Err ErrDB) w w → wpT Commit c w Q.
Proof.
  intros H1 H2 H3 fs. rewrite /Commit /nextFault /popFault /=.
  by destruct (default NoFault (head fs)).
Qed.

(** Without faults the transaction computes. *)
Lemma run_bind {A B} (m : T A) (f : A → T B) t t' a :
  m t = (Ok a, t') → (m ≫= f) t = f a t'.
Proof. rewrite /mbind /T_bind. by intros ->. Qed.

Lemma run_stmt {A} (f : DB → result error (A * DB)) c w a w' :
  f w = Ok (a, w') → stmt f (mkTX c w []) = (Ok a, mkTX c w' []).
Proof. rewrite /stmt /=. by intros ->. Qed.

Lemma run_query {A} (f : DB → result error A) c w a :
  f w = Ok a → query f (mkTX c w []) = (Ok a, mkTX c w []).
Proof. intros Hf. apply run_stmt. by rewrite Hf. Qed.

Lemma run_commit c w : Commit (mkTX c w []) = (Ok tt, mkTX w w []).
Proof. done. Qed.

Lemma run_inTx {A} (body : T A) db :
  inTx body [] db = ((body (mkTX db db [])).1, committed (body (mkTX db db [])).2).
Proof. rewrite /inTx (run_bind _ _ _ (mkTX db db []) tt) //. by destruct (body _). Qed.

Lemma inTx_wp {A} (body : T A) fs db (Q : result error A → DB → Prop) :
  Q (Err ErrDB) db → wpT body db db (λ r c _, Q r c) →
  Q (inTx body fs db).1 (inTx body fs db).2.
Proof.
  intros He Hb. assert (wpT (stmt (λ d, Ok (tt, d)) ≫= λ _, body) db db (λ r c _, Q r c)) as Hw.
  { apply wpT_bind, wpT_stmt; done. }
  specialize (Hw fs). rewrite /inTx. by destruct ((stmt _ ≫= _) (mkTX db db fs)) as [r t].
Qed.

End FetchDb.
