(* ===== verification/FetchCtl.v ===== *)
(** The admission, the source log and the credential of isolated runs
    ([src/api/internal/fetchctl], and the claim-time mint of
    [src/api/internal/workersvc/claim_isolated.go]).

    [sha256], the parser of reservation ids and the host rules are parameters.
    The stripping of a claim payload is left out. *)

From Stdlib Require Import Ascii.
From S2P Require Import Prelude Result GoText GoStrings GoSearch GoJson Termsafe NetIP EgressProfile FetchDb.

Local Open Scope Z_scope.

(** [crypto/sha256], and [uuid.Parse] of [github.com/google/uuid]. *)
Class FetchLib := {
  sha256 : string → string;
  parseUUID : string → option uuid;
}.

Module FetchCtl.
Import GoText GoStrings GoSearch GoJson FetchCaps FetchDb.

Definition AdmissionRunBytes : string := "run_bytes".
Definition AdmissionRunFiles : string := "run_files".
Definition AdmissionConcurrency : string := "concurrency".
Definition AdmissionAttempts : string := "attempts".

Definition maxLoggedURL : Z := 4096.
Definition maxLoggedContentType : Z := 512.
Definition maxLoggedReason : Z := 64.
Definition StaleReservationAge : duration := 10 * Go.Minute.

Definition VerdictAllowed : string := "allowed".
Definition VerdictRefused : string := "refused".

(** * Snapshots *)
Record Snapshot := mkSnapshot { Profile : string; Entries : option strslice }.

Definition setSnapshot (n : string) (v : json) (s : Snapshot) : Snapshot * bool :=
  if (n =?s "profile")%go
  then let '(p, e) := decodeString v (Profile s) in (mkSnapshot p (Entries s), e)
  else let '(l, e) := decodeStrings v (Entries s) in (mkSnapshot (Profile s) l, e).

(** The profile and the entries; a null or absent list reads as the empty
    one. *)
Definition ParseSnapshot (raw : option json) : result error (string * list string) :=
  match raw with
  | None => Err ErrSnapshot
  | Some v =>
    let '(s, err) := Unmarshal ["profile"; "entries"] setSnapshot (Some v) (mkSnapshot EmptyString None) in
    if err then Err ErrSnapshot else Ok (Profile s, default [] (items (Entries s)))
  end.

(** [json.Marshal] of a snapshot. *)
Definition marshalSnapshot (profile : string) (entries : list string) : json :=
  JObj [("profile", JStr profile); ("entries", JArr (JStr <$> entries))].

(** * Checks *)
Definition credentialLive (c : CredRow) : bool :=
  negb (RevokedAt c) && (ClaimGeneration c =? RunClaimGeneration c) && (Status c =?s "running")%go.

Definition refusalReason (c : Cred) (caps : FetchCaps) : string :=
  if inflight c >=? MaxConcurrentPerRun caps then AdmissionConcurrency else
  if files c >=? MaxRunFiles caps then AdmissionRunFiles else AdmissionRunBytes.

Definition refusalReasons : list string :=
  ["bad_request"; "url_too_long"; "credential_invalid"; "admission_refused"; "control_unavailable";
   "log_failed"; "busy"; "invalid_url"; "not_https"; "userinfo"; "ip_literal"; "port"; "off_list";
   "redirect_off_list"; "private_address"; "too_many_redirects"; "redirect_invalid";
   "content_encoding"; "dns_failed"; "connect_failed"; "tls"; "timeout"; "cancelled";
   "headers_too_large"; "upstream_status"; "upstream_error"; "too_large"].

Definition KnownReason (code : string) : bool := bool_decide (code ∈ refusalReasons).

(** [apitypes.FetcherCompleteRequest]. *)
Record CompleteRequest := mkComplete {
  Credential : string;
  ReservationID : string;
  URL : string;
  FinalURL : string;
  Verdict : string;
  Reason : string;
  HTTPStatus : Z;
  ContentType : string;
  Bytes : Z;
  SHA256 : string;
  StartedAt : time;
  FinishedAt : time;
}.

Definition validateComplete (r : CompleteRequest) : option error :=
  match
    (if (Verdict r =?s VerdictAllowed)%go then
       if negb (Reason r =?s EmptyString)%go then Some (InvalidRequest "an allowed attempt carries no reason") else
       if negb (sha256Hex (SHA256 r))
       then Some (InvalidRequest "an allowed attempt needs a lowercase hex sha256") else None
     else if (Verdict r =?s VerdictRefused)%go then
       if negb (KnownReason (Reason r)) then Some (InvalidRequest "unknown refusal reason") else
       if negb (SHA256 r =?s EmptyString)%go
       then Some (InvalidRequest "a refused attempt carries no sha256") else None
     else Some (InvalidRequest "verdict must be allowed or refused"))
  with
  | Some e => Some e
  | None =>
    if (TrimSpace (URL r) =?s EmptyString)%go then Some (InvalidRequest "url is required") else
    if (HTTPStatus r <? 0) || (HTTPStatus r >? 999) then Some (InvalidRequest "http_status out of range") else
    if Bytes r <? 0 then Some (InvalidRequest "bytes must not be negative") else
    if Go.isZero (StartedAt r) || Go.isZero (FinishedAt r)
    then Some (InvalidRequest "started_at and finished_at are required") else None
  end.

(** * The service *)
Section Service.
Context `{FetchLib}.

Definition HashCredential (token : string) : string := sha256 token.

Record Admission := mkAdmission { adm_ReservationID : uuid; adm_Entries : list string; adm_MaxBytes : Z }.

(** The transaction of [Begin]; [id] and [now] are what the database draws. *)
Definition beginTx (caps : FetchCaps) (credential : string) (id : uuid) (now : time) : T Admission :=
  row ← LockFetchCredentialByHash (HashCredential credential);
  match row with
  | None => fail ErrCredentialInvalid
  | Some cred =>
    if negb (credentialLive cred) then fail ErrCredentialInvalid else
    snap ← liftR (ParseSnapshot (EgressSnapshot cred));
    n ← BumpFetchAttempt (RunID cred) (MaxRunAttempts caps);
    if n =? 0 then fail (AdmissionRefused AdmissionAttempts) else
    let fileBytes := Z.min (MaxFileBytes caps) (MaxRunBytes caps) in
    n ← ReserveFetch (RunID cred) fileBytes (MaxRunBytes caps) (MaxRunFiles caps) (MaxConcurrentPerRun caps);
    if n =? 0 then
      c ← GetFetchCounters (RunID cred);
      _ ← Commit;
      fail (AdmissionRefused (refusalReason c caps))
    else
      rid ← InsertFetchReservation id now (RunID cred) (ClaimGeneration cred) fileBytes;
      _ ← Commit;
      mret (mkAdmission rid snap.2 fileBytes)
  end.

Definition Begin (cache : Cache) (credential : string) (id : uuid) (now : time) (fs : list fault) (db : DB)
    : result error Admission * DB :=
  if (credential =?s EmptyString)%go then (Err ErrCredentialInvalid, db) else
  let '(caps, err) := readCaps cache in
  if err then (Err ErrCaps, db) else
  inTx (beginTx caps credential id now) fs db.

Definition logRow (run : uuid) (r : CompleteRequest) : Fetch :=
  mkFetch run (Termsafe.EscapeBounded (URL r) maxLoggedURL)
    (Termsafe.EscapeBounded (FinalURL r) maxLoggedURL) (Verdict r)
    (Termsafe.EscapeBounded (Reason r) maxLoggedReason) (HTTPStatus r)
    (Termsafe.EscapeBounded (ContentType r) maxLoggedContentType) (Bytes r) (SHA256 r)
    (StartedAt r) (FinishedAt r).

Definition completeTx (r : CompleteRequest) (resID : uuid) : T unit :=
  row ← LockFetchCredentialRunByHash (HashCredential (Credential r));
  match row with
  | None => fail ErrCredentialInvalid
  | Some (run, gen) =>
    res ← LockFetchReservation resID run;
    match res with
    | None => fail ErrReservationNotFound
    | Some res =>
      if negb (res_claim_generation res =? gen) then fail ErrReservationNotFound else
      logged ← RunFetchLoggedForReservation resID;
      if logged : bool then mret tt else
      if Bytes r >? res_bytes res then fail (InvalidRequest "bytes exceed the reservation") else
      '(releaseBytes, releaseInflight) ←
        (if settled res then mret (0, 0)
         else _ ← SettleFetchReservation resID; mret (res_bytes res, 1));
      let refund := if (Verdict r =?s VerdictRefused)%go then 1 else 0 in
      _ ← ReconcileFetchCounters run releaseBytes releaseInflight (Bytes r) refund;
      _ ← InsertRunFetch resID (logRow run r);
      Commit
    end
  end.

Definition Complete (r : CompleteRequest) (fs : list fault) (db : DB) : result error unit * DB :=
  if (Credential r =?s EmptyString)%go then (Err ErrCredentialInvalid, db) else
  match validateComplete r with
  | Some e => (Err e, db)
  | None =>
    match parseUUID (ReservationID r) with
    | None => (Err ErrReservationNotFound, db)
    | Some resID => inTx (completeTx r resID) fs db
    end
  end.

Definition sweepTx (now : time) : T Z :=
  let cutoff := now - StaleReservationAge in
  ids ← LockCredentialsWithStaleFetchReservations cutoff;
  if (length ids =? 0)%nat then mret 0 else
  n ← ReleaseStaleFetchReservations cutoff ids;
  _ ← Commit;
  mret n.

Definition SweepStale (now : time) (fs : list fault) (db : DB) : result error Z * DB :=
  inTx (sweepTx now) fs db.

(** * The claim-time mint *)
Context `{HostRules}.

(** The run as the claim read it. *)
Record ClaimedRun := mkClaimed {
  cr_ID : uuid; cr_ClaimGeneration : Z; cr_EgressProfileID : uuid; cr_EgressSnapshot : option json }.

Definition snapshotEgressProfile (run : ClaimedRun) : T unit :=
  match cr_EgressSnapshot run with
  | Some _ => mret tt
  | None =>
    p ← GetEgressProfileByID (cr_EgressProfileID run);
    SetRunEgressSnapshotOnce (cr_ID run)
      (marshalSnapshot (p_name p) (EgressProfile.EffectiveEntries (p_hosts p) (p_override p)))
  end.

(** The transaction; what it returns goes into the claim's [isolated_fetch]
    block beside the token. *)
Definition isolateClaimTx (run : ClaimedRun) (token : string) : T (string * list string) :=
  _ ← snapshotEgressProfile run;
  raw ← GetRunEgressSnapshot (cr_ID run);
  match raw with
  | None => fail ErrRunVanished
  | Some raw =>
    snap ← liftR (ParseSnapshot raw);
    n ← MintRunFetchCredential (HashCredential token) (cr_ClaimGeneration run) (cr_ID run);
    if n =? 0 then fail ErrRunVanished else
    _ ← ReleasePriorGenerationFetchReservations (cr_ID run) (cr_ClaimGeneration run);
    _ ← Commit;
    mret snap
  end.

(** [token] is what [GenerateCredential] draws. *)
Definition isolateClaim (run : ClaimedRun) (token : string) (fs : list fault) (db : DB)
    : result error (string * list string) * DB :=
  inTx (isolateClaimTx run token) fs db.

(** * The other writers of these tables *)

(** [run_fetch_credential_revoke_trg]. *)
Definition revoke (c : Cred) : Cred :=
  mkCred (token_hash c) (c_claim_generation c) true (reserved_bytes c) (used_bytes c) (files c)
    (inflight c) (attempts c).

(** Any update of a run's status or claim generation, with the trigger. *)
Definition updateRun (run : uuid) (status : string) (gen : Z) (db : DB) : DB :=
  match runs db !! run with
  | None => db
  | Some r =>
    let db' := set_runs db (<[run := mkRun status gen (r_egress_profile_id r) (r_egress_snapshot r)]> (runs db)) in
    if bool_decide (is_Some (r_egress_profile_id r)) && negb (r_status r =?s status)%go
       && negb (claimedOrRunning status)
    then set_creds db' (alter revoke run (creds db')) else db'
  end.

Definition insertRun (run : uuid) (status : string) (profile : option uuid) (db : DB) : DB :=
  match runs db !! run with
  | Some _ => db
  | None => set_runs db (<[run := mkRun status 0 profile None]> (runs db))
  end.

(** The cascade of a deleted run. *)
Definition deleteRun (run : uuid) (db : DB) : DB :=
  mkDB (delete run (runs db)) (profiles db) (delete run (creds db))
    (filter (λ '(_, r), res_run r ≠ run) (reservations db))
    (filter (λ '(_, f), f_run f ≠ run) (fetches db)).

Definition editProfiles (m : gmap uuid FetchDb.Profile) (db : DB) : DB :=
  mkDB (runs db) m (creds db) (reservations db) (fetches db).

End Service.

End FetchCtl.
