(* ===== verification/FetchInv.v ===== *)
(** What the fetch admission guarantees: the counters of a run are the sums
    over its reservations and its log, the caps hold, a report counts once, and
    a credential admits only under the claim that minted it.

    The outcomes of each transaction, under any faults of the database, are
    first listed as changes of the tables; the invariant is then preserved by
    every change. *)

From Stdlib Require Import Ascii.
From S2P Require Import Prelude Result GoText GoStrings GoSearch GoJson Termsafe NetIP EgressProfile FetchDb FetchCtl.

Local Open Scope Z_scope.

Module FetchInv.
Import GoText GoStrings GoSearch GoJson FetchCaps FetchDb FetchCtl.

(** * The invariant *)
Definition isOpen (run : uuid) (r : Reservation) : bool :=
  negb (settled r) && bool_decide (res_run r = run).
Definition ofRun (run : uuid) (r : Reservation) : bool := bool_decide (res_run r = run).
Definition refusedOf (run : uuid) (f : Fetch) : bool :=
  bool_decide (f_run f = run) && (f_verdict f =?s VerdictRefused)%go.

Definition openBytes (run : uuid) (r : Reservation) : Z := if isOpen run r then res_bytes r else 0.
Definition openCount (run : uuid) (r : Reservation) : Z := if isOpen run r then 1 else 0.
Definition runCount (run : uuid) (r : Reservation) : Z := if ofRun run r then 1 else 0.
Definition usedOf (run : uuid) (f : Fetch) : Z := if bool_decide (f_run f = run) then f_bytes f else 0.
Definition refusedCount (run : uuid) (f : Fetch) : Z := if refusedOf run f then 1 else 0.

Definition maxFile : Z := 2 ^ 30.
Definition maxAttempts : Z := 100000.

(** The counters of a run are the sums over its rows. *)
Record accounted (db : DB) (run : uuid) (c : Cred) : Prop := {
  a_reserved : reserved_bytes c = total (openBytes run) (reservations db);
  a_inflight : inflight c = total (openCount run) (reservations db);
  a_used : used_bytes c = total (usedOf run) (fetches db);
  a_files : files c = total (runCount run) (reservations db) - total (refusedCount run) (fetches db);
  a_attempts : total (runCount run) (reservations db) <= attempts c <= maxAttempts;
}.

Record Inv (db : DB) : Prop := {
  i_counters run c : creds db !! run = Some c → accounted db run c;
  i_bound run c : creds db !! run = Some c →
    ∃ r, runs db !! run = Some r ∧ is_Some (r_egress_profile_id r) ∧
      (claimedOrRunning (r_status r) = false → revoked c = true);
  i_hash run run' c c' : creds db !! run = Some c → creds db !! run' = Some c' →
    token_hash c = token_hash c' → run = run';
  i_res id r : reservations db !! id = Some r →
    is_Some (creds db !! res_run r) ∧ 0 < res_bytes r <= maxFile;
  i_fetch id f : fetches db !! id = Some f →
    ∃ r, reservations db !! id = Some r ∧ res_run r = f_run f ∧ settled r = true ∧
      0 <= f_bytes f <= res_bytes r;
}.

Lemma findCred_Some db h run c :
  findCred db h = Some (run, c) → creds db !! run = Some c ∧ token_hash c = h.
Proof.
  rewrite /findCred. intros [Hin Hh]%find_some. apply list_elem_of_In, elem_of_map_to_list in Hin.
  split; [done|]. by apply String.eqb_eq.
Qed.

Lemma findCred_None db h run c : findCred db h = None → creds db !! run = Some c → token_hash c ≠ h.
Proof.
  rewrite /findCred. intros Hn Hc Hh. apply elem_of_map_to_list, list_elem_of_In in Hc.
  pose proof (find_none _ _ Hn _ Hc) as Hf. simpl in Hf. by apply String.eqb_neq in Hf.
Qed.

Lemma findCred_unique db h run c : Inv db →
  creds db !! run = Some c → token_hash c = h → findCred db h = Some (run, c).
Proof.
  intros HI Hc Hh. destruct (findCred db h) as [[run' c']|] eqn:E.
  - apply findCred_Some in E as [Hc' Hh']. assert (run' = run) as ->; [|congruence].
    apply (i_hash _ HI _ _ _ _ Hc' Hc). congruence.
  - by destruct (findCred_None _ _ _ _ E Hc).
Qed.

(** * What the counters imply *)
Section Counters.
Context (db : DB) (HI : Inv db) (run : uuid) (c : Cred) (Hc : creds db !! run = Some c).

Lemma openBytes_nonneg id r : reservations db !! id = Some r → 0 <= openBytes run r.
Proof. intros [_ ?]%(i_res _ HI). rewrite /openBytes. destruct (isOpen run r); lia. Qed.

Lemma openBytes_le id r : reservations db !! id = Some r → openBytes run r <= reserved_bytes c.
Proof.
  intros Hr. destruct (i_counters _ HI _ _ Hc) as [-> _ _ _ _].
  rewrite (total_delete _ _ _ _ Hr). assert (0 <= total (openBytes run) (delete id (reservations db))); [|lia].
  apply total_nonneg. intros k x [_ Hx]%lookup_delete_Some. by eapply openBytes_nonneg.
Qed.

Lemma openCount_le id r : reservations db !! id = Some r → openCount run r <= inflight c.
Proof.
  intros Hr. destruct (i_counters _ HI _ _ Hc) as [_ -> _ _ _].
  rewrite (total_delete _ _ _ _ Hr). assert (0 <= total (openCount run) (delete id (reservations db))); [|lia].
  apply total_nonneg. intros k x _. rewrite /openCount. by destruct (isOpen run x).
Qed.

Lemma counters_range : 0 <= reserved_bytes c ∧ 0 <= inflight c ∧ 0 <= used_bytes c ∧ 0 <= files c ∧
  0 <= attempts c <= maxAttempts ∧
  reserved_bytes c <= maxFile * maxAttempts ∧ used_bytes c <= maxFile * maxAttempts ∧
  inflight c <= maxAttempts ∧ files c <= maxAttempts.
Proof.
  destruct (i_counters _ HI _ _ Hc) as [-> -> -> -> [Ha1 Ha2]].
  assert (0 <= total (runCount run) (reservations db)) as Hn.
  { apply total_nonneg. intros k x _. rewrite /runCount. by destruct (ofRun run x). }
  assert (total (refusedCount run) (fetches db) <= total (runCount run) (reservations db)) as Hf.
  { apply total_charge.
    - intros k x _. rewrite /runCount. by destruct (ofRun run x).
    - intros k f (r & Hr & Hrun & _)%(i_fetch _ HI). exists r. split; [done|].
      rewrite /refusedCount /refusedOf /runCount /ofRun Hrun. by destruct (bool_decide _), (_ =?s _)%go. }
  assert (total (usedOf run) (fetches db) <= total (λ r, maxFile * runCount run r) (reservations db)) as Hu.
  { apply total_charge.
    - intros k x _. rewrite /runCount /maxFile. destruct (ofRun run x); lia.
    - intros k f (r & Hr & Hrun & _ & Hb)%(i_fetch _ HI). exists r. split; [done|].
      destruct (i_res _ HI _ _ Hr) as [_ Hm].
      rewrite /usedOf /runCount /ofRun Hrun. destruct (bool_decide _); lia. }
  assert (total (openBytes run) (reservations db) <= total (λ r, maxFile * runCount run r) (reservations db)) as Hb.
  { apply total_le. intros k r Hr. destruct (i_res _ HI _ _ Hr) as [_ Hm].
    rewrite /openBytes /isOpen /runCount /ofRun. destruct (settled r), (bool_decide _); simpl; lia. }
  assert (total (openCount run) (reservations db) <= total (runCount run) (reservations db)) as Ho.
  { apply total_le. intros k r _. rewrite /openCount /isOpen /runCount /ofRun.
    by destruct (settled r), (bool_decide _). }
  rewrite total_scale in Hu Hb.
  assert (0 <= total (openBytes run) (reservations db)) by (apply total_nonneg, openBytes_nonneg).
  assert (0 <= total (openCount run) (reservations db)).
  { apply total_nonneg. intros k x _. rewrite /openCount. by destruct (isOpen run x). }
  assert (0 <= total (refusedCount run) (fetches db)).
  { apply total_nonneg. intros k x _. rewrite /refusedCount. by destruct (refusedOf run x). }
  assert (0 <= total (usedOf run) (fetches db)).
  { apply total_nonneg. intros k f (r & _ & _ & _ & Hfb)%(i_fetch _ HI). rewrite /usedOf.
    destruct (bool_decide _); lia. }
  unfold maxFile in *. split_and!; lia.
Qed.
End Counters.

(** * The changes transactions make *)
Section Changes.
Context `{FetchLib}.

Definition fileBytes (caps : FetchCaps) : Z := Z.min (MaxFileBytes caps) (MaxRunBytes caps).

Definition bump (c : Cred) : Cred :=
  set_counters c (reserved_bytes c) (used_bytes c) (files c) (inflight c) (attempts c + 1).
Definition reserve (n : Z) (c : Cred) : Cred :=
  set_counters c (reserved_bytes c + n) (used_bytes c) (files c + 1) (inflight c + 1) (attempts c).

Definition chargeDb (run : uuid) (c : Cred) (db : DB) : DB := set_creds db (<[run := bump c]> (creds db)).
Definition admitDb (caps : FetchCaps) (run : uuid) (c : Cred) (id : uuid) (now : time) (db : DB) : DB :=
  mkDB (runs db) (profiles db) (<[run := reserve (fileBytes caps) (bump c)]> (creds db))
    (<[id := mkReservation run (c_claim_generation c) (fileBytes caps) now false]> (reservations db))
    (fetches db).

Definition hasRoom (caps : FetchCaps) (c : Cred) : bool :=
  (reserved_bytes c + used_bytes c + fileBytes caps <=? MaxRunBytes caps)
  && (files c <? MaxRunFiles caps) && (inflight c <? MaxConcurrentPerRun caps).

(** The credential names a running run under its current claim. *)
Record liveCred (db : DB) (credential : string) (run : uuid) (c : Cred) (r : Run) : Prop := {
  lc_cred : creds db !! run = Some c;
  lc_hash : token_hash c = HashCredential credential;
  lc_run : runs db !! run = Some r;
  lc_revoked : revoked c = false;
  lc_gen : c_claim_generation c = r_claim_generation r;
  lc_status : r_status r = "running";
}.

Inductive beginOut (caps : FetchCaps) (credential : string) (id : uuid) (now : time) (db : DB)
    : result error Admission → DB → Prop :=
  | begin_unchanged e : beginOut caps credential id now db (Err e) db
  | begin_refused run c r e :
      liveCred db credential run c r → attempts c < MaxRunAttempts caps → hasRoom caps c = false →
      e = AdmissionRefused (refusalReason c caps) ∨ e = ErrDB →
      beginOut caps credential id now db (Err e) (chargeDb run c db)
  | begin_admitted run c r snap res :
      liveCred db credential run c r → attempts c < MaxRunAttempts caps → hasRoom caps c = true →
      reservations db !! id = None → ParseSnapshot (r_egress_snapshot r) = Ok snap →
      res = Ok (mkAdmission id snap.2 (fileBytes caps)) ∨ res = Err ErrDB →
      beginOut caps credential id now db res (admitDb caps run c id now db).

Lemma beginTx_out caps credential id now db :
  wpT (beginTx caps credential id now) db db (λ r c _, beginOut caps credential id now db r c).
Proof.
  rewrite /beginTx. apply wpT_bind, wpT_query; [constructor|].
  destruct (findCred db (HashCredential credential)) as [[run c]|] eqn:Ef; [|apply wpT_fail; constructor].
  apply findCred_Some in Ef as [Hc Hh]. cbn [mbind option_bind].
  destruct (runs db !! run) as [r|] eqn:Hr; [|apply wpT_fail; constructor]. cbn [mbind option_bind].
  destruct (negb (credentialLive _)) eqn:El; [apply wpT_fail; constructor|].
  apply negb_false_iff in El. rewrite /credentialLive /= in El.
  apply andb_prop in El as [[Hrev%negb_true_iff Hg%Z.eqb_eq]%andb_prop Hst%String.eqb_eq].
  assert (liveCred db credential run c r) as Hlive by done.
  apply wpT_bind, wpT_lift. cbn [EgressSnapshot].
  destruct (ParseSnapshot (r_egress_snapshot r)) as [snap|e] eqn:Es; [|constructor].
  apply wpT_bind, wpT_stmt; [constructor|]. cbn [RunID]. rewrite Hc.
  destruct (attempts c <? MaxRunAttempts caps) eqn:Ea; [|apply wpT_fail; constructor].
  rewrite /updateCred. destruct (countersOk _) eqn:Eo1; [|constructor]. cbn [mbind result_bind].
  apply wpT_bind, wpT_stmt; [constructor|]. rewrite lookup_insert_eq.
  destruct (negb (bigint _)); [constructor|]. cbn [reserved_bytes used_bytes files inflight attempts set_counters].
  change (Z.min (MaxFileBytes caps) (MaxRunBytes caps)) with (fileBytes caps).
  change (_ && _ && _) with (hasRoom caps c). destruct (hasRoom caps c) eqn:Er.
  - rewrite /updateCred.
    match goal with |- context [countersOk ?x] => destruct (countersOk x); cbn [mbind result_bind]; [|constructor] end.
    apply wpT_bind, wpT_stmt; [constructor|]. simpl.
    destruct (reservations db !! id) eqn:Hid; [constructor|]. rewrite Hr.
    destruct (0 <? fileBytes caps) eqn:Efb; [|constructor].
    assert (∀ res, res = Ok (mkAdmission id snap.2 (fileBytes caps)) ∨ res = Err ErrDB →
      beginOut caps credential id now db res (admitDb caps run c id now db)) as Hadm.
    { intros res Hres. eapply begin_admitted; eauto. lia. }
    rewrite insert_insert_eq. apply wpT_bind, wpT_commit; [constructor| |]; [apply wpT_ret|]; apply Hadm; auto.
  - assert (∀ e, e = AdmissionRefused (refusalReason c caps) ∨ e = ErrDB →
      beginOut caps credential id now db (Err e) (chargeDb run c db)) as Href.
    { intros e He. eapply begin_refused; eauto. lia. }
    apply wpT_bind, wpT_query; [constructor|]. simpl. rewrite lookup_insert_eq.
    apply wpT_bind, wpT_commit; [constructor| |]; [apply wpT_fail|]; apply Href; auto.
Qed.

Lemma Begin_out cache credential id now fs db :
  beginOut (readCaps cache).1 credential id now db
    (Begin cache credential id now fs db).1 (Begin cache credential id now fs db).2.
Proof.
  rewrite /Begin. destruct (credential =?s EmptyString)%go; [constructor|].
  destruct (readCaps cache) as [caps []]; [constructor|]. simpl.
  apply inTx_wp; [constructor|apply beginTx_out].
Qed.

(** * Reports *)
Definition reconcile (rb ri used refund : Z) (c : Cred) : Cred :=
  set_counters c (reserved_bytes c - rb) (used_bytes c + used) (files c - refund) (inflight c - ri)
    (attempts c).

Definition refundOf (r : CompleteRequest) : Z := if (Verdict r =?s VerdictRefused)%go then 1 else 0.

Definition logDb (r : CompleteRequest) (run : uuid) (c : Cred) (id : uuid) (rsv : Reservation) (db : DB) : DB :=
  mkDB (runs db) (profiles db)
    (<[run := reconcile (if settled rsv then 0 else res_bytes rsv) (if settled rsv then 0 else 1)
                (Bytes r) (refundOf r) c]> (creds db))
    (<[id := settle rsv]> (reservations db))
    (<[id := logRow run r]> (fetches db)).

(** The report is of a reservation of the credential's run and claim. *)
Record reportOf (db : DB) (r : CompleteRequest) (run : uuid) (c : Cred) (id : uuid) (rsv : Reservation) : Prop := {
  ro_cred : creds db !! run = Some c;
  ro_hash : token_hash c = HashCredential (Credential r);
  ro_res : reservations db !! id = Some rsv;
  ro_run : res_run rsv = run;
  ro_gen : res_claim_generation rsv = c_claim_generation c;
}.

Inductive completeOut (r : CompleteRequest) (id : uuid) (db : DB) : result error unit → DB → Prop :=
  | complete_unchanged e : completeOut r id db (Err e) db
  | complete_again run c rsv :
      reportOf db r run c id rsv → is_Some (fetches db !! id) → completeOut r id db (Ok tt) db
  | complete_logged run c rsv res :
      reportOf db r run c id rsv → fetches db !! id = None → Bytes r <= res_bytes rsv →
      res = Ok tt ∨ res = Err ErrDB →
      completeOut r id db res (logDb r run c id rsv db).

Lemma settled_settle rsv : settled rsv = true → settle rsv = rsv.
Proof. destruct rsv; simpl. by intros ->. Qed.

Lemma alter_insert {A} (f : A → A) (k : uuid) (m : gmap uuid A) x :
  m !! k = Some x → alter f k m = <[k := f x]> m.
Proof.
  intros Hk. apply map_eq. intros i. destruct (decide (i = k)) as [->|].
  - by rewrite lookup_alter_eq Hk lookup_insert_eq.
  - by rewrite lookup_alter_ne // lookup_insert_ne.
Qed.

Lemma completeTx_out r id db :
  wpT (completeTx r id) db db (λ res c _, completeOut r id db res c).
Proof.
  rewrite /completeTx. apply wpT_bind, wpT_query; [constructor|].
  destruct (findCred db (HashCredential (Credential r))) as [[run c]|] eqn:Ef; [|apply wpT_fail; constructor].
  apply findCred_Some in Ef as [Hc Hh]. cbn [mbind option_bind].
  apply wpT_bind, wpT_query; [constructor|].
  destruct (reservations db !! id) as [rsv|] eqn:Hid; [|apply wpT_fail; constructor].
  cbn [mbind option_bind]. case_bool_decide as Hrun; [|apply wpT_fail; constructor].
  destruct (negb (res_claim_generation rsv =? c_claim_generation c)) eqn:Eg; [apply wpT_fail; constructor|].
  apply negb_false_iff, Z.eqb_eq in Eg.
  assert (reportOf db r run c id rsv) as Hro by done.
  apply wpT_bind, wpT_query; [constructor|]. case_bool_decide as Hlog; [apply wpT_ret; by econstructor|].
  assert (fetches db !! id = None) as Hnl by by apply eq_None_not_Some.
  destruct (Bytes r >? res_bytes rsv) eqn:Eb; [apply wpT_fail; constructor|].
  assert (∀ res, res = Ok tt ∨ res = Err ErrDB →
    completeOut r id db res (logDb r run c id rsv db)) as Hok.
  { intros res Hres. eapply complete_logged; eauto. lia. }
  (* the rest of the transaction, from the reservations it is left with *)
  assert (∀ m rb ri, m = <[id := settle rsv]> (reservations db) →
    rb = (if settled rsv then 0 else res_bytes rsv) → ri = (if settled rsv then 0 else 1) →
    wpT (_ ← ReconcileFetchCounters run rb ri (Bytes r) (refundOf r);
         _ ← InsertRunFetch id (logRow run r); Commit) db (set_reservations db m)
      (λ res c _, completeOut r id db res c)) as Hrest.
  { intros m rb ri -> -> ->. apply wpT_bind, wpT_stmt; [constructor|]. simpl. rewrite Hc /updateCred.
    destruct (countersOk _); [|constructor]. cbn [mbind result_bind].
    apply wpT_bind, wpT_stmt; [constructor|]. simpl. rewrite Hnl.
    destruct (runs db !! run); [|constructor]. destruct (fetchOk _); [|constructor].
    apply wpT_commit; [constructor|apply Hok; auto..]. }
  apply wpT_bind. destruct (settled rsv) eqn:Es.
  - apply wpT_ret. replace db with (set_reservations db (reservations db)) at 2 by by destruct db.
    apply Hrest; [|done..]. rewrite settled_settle // insert_id //.
  - apply wpT_bind, wpT_stmt; [constructor|]. apply wpT_ret. apply Hrest; [by apply alter_insert|done..].
Qed.

Lemma Complete_out r fs db :
  (∃ e, Complete r fs db = (Err e, db)) ∨
  (∃ id, parseUUID (ReservationID r) = Some id ∧ validateComplete r = None ∧
     completeOut r id db (Complete r fs db).1 (Complete r fs db).2).
Proof.
  rewrite /Complete. destruct (Credential r =?s EmptyString)%go; [eauto|].
  destruct (validateComplete r) eqn:Ev; [eauto|].
  destruct (parseUUID (ReservationID r)) as [id|]; [|eauto]. right. exists id. split_and!; [done..|].
  apply inTx_wp; [constructor|apply completeTx_out].
Qed.

(** * Releases *)
Definition settleWhere (p : Reservation → bool) (r : Reservation) : Reservation :=
  if selected p r then settle r else r.

Definition releaseDb (p : Reservation → bool) (db : DB) : DB :=
  mkDB (runs db) (profiles db)
    (map_imap (λ run c, Some (releaseCred p (reservations db) run c)) (creds db))
    (settleWhere p <$> reservations db) (fetches db).

Lemma release_Ok p db n db' : release p db = Ok (n, db') → db' = releaseDb p db.
Proof. rewrite /release. by destruct (forallb _ _); [intros [= _ <-]|]. Qed.

Inductive sweepOut (now : time) (db : DB) : result error Z → DB → Prop :=
  | sweep_unchanged r : sweepOut now db r db
  | sweep_released p n db' r :
      (∀ x, p x = true → stale (now - StaleReservationAge) x = true) →
      release p db = Ok (n, db') → r = Ok n ∨ r = Err ErrDB → sweepOut now db r db'.

Lemma SweepStale_out now fs db : sweepOut now db (SweepStale now fs db).1 (SweepStale now fs db).2.
Proof.
  rewrite /SweepStale. apply inTx_wp; [constructor|]. rewrite /sweepTx. apply wpT_bind, wpT_query; [constructor|]. simpl.
  set (ids := List.filter _ _). destruct (length ids =? 0)%nat; [apply wpT_ret; constructor|].
  apply wpT_bind, wpT_stmt; [constructor|].
  destruct (release _ db) as [[n db']|e] eqn:Er; [|constructor].
  apply wpT_bind, wpT_commit; [constructor| |]; [apply wpT_ret|]; (eapply sweep_released; [|exact Er|by auto]);
    by intros x [? _]%andb_prop.
Qed.

(** * The mint *)
Definition mintCred (hash : string) (gen : Z) (c : option Cred) : Cred :=
  let c := default (mkCred hash gen false 0 0 0 0 0) c in
  mkCred hash gen false (reserved_bytes c) (used_bytes c) (files c) (inflight c) (attempts c).

Definition mintDb (hash : string) (gen : Z) (run : uuid) (db : DB) : DB :=
  set_creds db (<[run := mintCred hash gen (creds db !! run)]> (creds db)).

Context `{HostRules}.

Definition snapshotOnce (v : json) (r : Run) : Run :=
  match r_egress_snapshot r with
  | None => mkRun (r_status r) (r_claim_generation r) (r_egress_profile_id r) (Some v)
  | Some _ => r
  end.

(** The snapshot, if the claim writes one. *)
Inductive snapshotted (run : ClaimedRun) (db : DB) : DB → Prop :=
  | snap_kept : snapshotted run db db
  | snap_written p :
      cr_EgressSnapshot run = None → profiles db !! cr_EgressProfileID run = Some p →
      snapshotted run db (set_runs db (alter (snapshotOnce (marshalSnapshot (p_name p)
        (EgressProfile.EffectiveEntries (p_hosts p) (p_override p)))) (cr_ID run) (runs db))).

(** The run is in the claim the mint is for. *)
Record mintable (db : DB) (run : ClaimedRun) (hash : string) (r : Run) : Prop := {
  mi_run : runs db !! cr_ID run = Some r;
  mi_gen : r_claim_generation r = cr_ClaimGeneration run;
  mi_status : claimedOrRunning (r_status r) = true;
  mi_profile : is_Some (r_egress_profile_id r);
  mi_hash : hashTaken db hash (cr_ID run) = false;
}.

Definition priorOf (run : ClaimedRun) (r : Reservation) : bool :=
  bool_decide (res_run r = cr_ID run) && (res_claim_generation r <? cr_ClaimGeneration run).

Inductive claimOut (run : ClaimedRun) (token : string) (db : DB)
    : result error (string * list string) → DB → Prop :=
  | claim_unchanged e : claimOut run token db (Err e) db
  | claim_minted db1 r snap n db' res :
      snapshotted run db db1 → mintable db1 run (HashCredential token) r →
      ParseSnapshot (r_egress_snapshot r) = Ok snap →
      release (priorOf run) (mintDb (HashCredential token) (cr_ClaimGeneration run) (cr_ID run) db1) = Ok (n, db') →
      res = Ok snap ∨ res = Err ErrDB → claimOut run token db res db'.

Lemma isolateClaim_out run token fs db :
  claimOut run token db (isolateClaim run token fs db).1 (isolateClaim run token fs db).2.
Proof.
  rewrite /isolateClaim. apply inTx_wp; [constructor|]. rewrite /isolateClaimTx. apply wpT_bind.
  (* after the snapshot step *)
  assert (∀ db1, snapshotted run db db1 →
    wpT (raw ← GetRunEgressSnapshot (cr_ID run);
         match raw with
         | None => fail ErrRunVanished
         | Some raw =>
           snap ← liftR (ParseSnapshot raw);
           n ← MintRunFetchCredential (HashCredential token) (cr_ClaimGeneration run) (cr_ID run);
           if n =? 0 then fail ErrRunVanished else
           _ ← ReleasePriorGenerationFetchReservations (cr_ID run) (cr_ClaimGeneration run);
           _ ← Commit;
           mret snap
         end) db db1 (λ r c _, claimOut run token db r c)) as Hrest.
  { intros db1 Hs. apply wpT_bind, wpT_query; [constructor|].
    destruct (runs db1 !! cr_ID run) as [r|] eqn:Hr; [|apply wpT_fail; constructor].
    cbn [fmap option_fmap option_map]. apply wpT_bind, wpT_lift.
    destruct (ParseSnapshot (r_egress_snapshot r)) as [snap|e] eqn:Es; [|constructor].
    apply wpT_bind, wpT_stmt; [constructor|]. rewrite Hr.
    destruct (_ && _ && _) eqn:Em; [|apply wpT_fail; constructor].
    apply andb_prop in Em as [[Hg%Z.eqb_eq Hst]%andb_prop Hp%bool_decide_eq_true].
    destruct (hashTaken db1 _ _) eqn:Eh; [constructor|].
    apply wpT_bind, wpT_stmt; [constructor|].
    destruct (release _ _) as [[n db']|e] eqn:Er; [|constructor].
    apply wpT_bind, wpT_commit; [constructor| |]; [apply wpT_ret|];
      (eapply (claim_minted run token db db1 r snap n); [done|done|done|exact Er|by auto]). }
  rewrite /snapshotEgressProfile. destruct (cr_EgressSnapshot run) eqn:Esn.
  - apply wpT_ret, Hrest. constructor.
  - apply wpT_bind, wpT_query; [constructor|].
    destruct (profiles db !! cr_EgressProfileID run) as [p|] eqn:Hp; [|constructor].
    apply wpT_stmt; [constructor|]. apply Hrest. by apply snap_written.
Qed.

(** * Preservation *)

(** A transaction that rewrites one credential row, reservations and log. *)
Lemma inv_update db run c c' rs fs :
  Inv db → creds db !! run = Some c → token_hash c' = token_hash c → revoked c' = revoked c →
  (∀ run2 c2, (<[run := c']> (creds db)) !! run2 = Some c2 →
     accounted (mkDB (runs db) (profiles db) (<[run := c']> (creds db)) rs fs) run2 c2) →
  (∀ id r, rs !! id = Some r → is_Some (creds db !! res_run r) ∧ 0 < res_bytes r <= maxFile) →
  (∀ id f, fs !! id = Some f → ∃ r, rs !! id = Some r ∧ res_run r = f_run f ∧ settled r = true ∧
     0 <= f_bytes f <= res_bytes r) →
  Inv (mkDB (runs db) (profiles db) (<[run := c']> (creds db)) rs fs).
Proof.
  intros HI Hc Hh Hr Ha Hres Hf. split; simpl; [done| | | |done].
  - intros run2 c2 [(<- & <-)|(_ & Hc2)]%lookup_insert_Some; [|by apply (i_bound _ HI)].
    rewrite Hr. by apply (i_bound _ HI).
  - intros r1 r2 c1 c2 [(<- & <-)|(Hn1 & H1)]%lookup_insert_Some [(<- & <-)|(Hn2 & H2)]%lookup_insert_Some He; [done| | |].
    + rewrite Hh in He. by apply (i_hash _ HI _ _ _ _ Hc H2).
    + rewrite Hh in He. by apply (i_hash _ HI _ _ _ _ H1 Hc).
    + by apply (i_hash _ HI _ _ _ _ H1 H2).
  - intros id r (Hcr & Hb)%Hres. split; [|done].
    destruct (decide (res_run r = run)) as [->|]; [by rewrite lookup_insert_eq|].
    by rewrite lookup_insert_ne.
Qed.

Lemma bool_decide_ne {A} `{!EqDecision A} (x y : A) : x ≠ y → bool_decide (x = y) = false.
Proof. apply bool_decide_eq_false_2. Qed.

Lemma inv_charge db run c : Inv db → creds db !! run = Some c → attempts c < maxAttempts →
  Inv (chargeDb run c db).
Proof.
  intros HI Hc Ha. apply (inv_update db run c); try done; [|apply (i_res _ HI)|apply (i_fetch _ HI)].
  intros run2 c2 [(<- & <-)|(_ & Hc2)]%lookup_insert_Some.
  - destruct (i_counters _ HI _ _ Hc) as [? ? ? ? [? ?]]. split; simpl; try done. lia.
  - by destruct (i_counters _ HI _ _ Hc2).
Qed.

(** Rows of the run count. *)
Lemma own_reservation run r : res_run r = run →
  openBytes run r = (if settled r then 0 else res_bytes r) ∧
  openCount run r = (if settled r then 0 else 1) ∧ runCount run r = 1.
Proof.
  intros Hr. rewrite /openBytes /openCount /runCount /isOpen /ofRun Hr bool_decide_eq_true_2 //.
  by destruct (settled r).
Qed.

Lemma own_fetch run f : f_run f = run →
  usedOf run f = f_bytes f ∧ refusedCount run f = (if (f_verdict f =?s VerdictRefused)%go then 1 else 0).
Proof. intros Hr. by rewrite /usedOf /refusedCount /refusedOf Hr bool_decide_eq_true_2. Qed.

(** Rows of another run do not count. *)
Lemma other_reservation run run2 r : res_run r = run → run ≠ run2 →
  openBytes run2 r = 0 ∧ openCount run2 r = 0 ∧ runCount run2 r = 0.
Proof.
  intros Hr Hne. rewrite /openBytes /openCount /runCount /isOpen /ofRun Hr bool_decide_ne //.
  by rewrite andb_false_r.
Qed.

Lemma other_fetch run run2 f : f_run f = run → run ≠ run2 → usedOf run2 f = 0 ∧ refusedCount run2 f = 0.
Proof. intros Hr Hne. by rewrite /usedOf /refusedCount /refusedOf Hr bool_decide_ne. Qed.

Lemma inv_admit db caps run c id now : Inv db → capsOk caps →
  creds db !! run = Some c → attempts c < MaxRunAttempts caps → reservations db !! id = None →
  Inv (admitDb caps run c id now db).
Proof.
  intros HI Hcaps Hc Ha Hid. destruct Hcaps as [Hf Hr _ _ Hat].
  assert (0 < fileBytes caps <= maxFile) as Hfb by (rewrite /fileBytes /maxFile; lia).
  apply (inv_update db run c); try done.
  - intros run2 c2 [(<- & <-)|(Hne & Hc2)]%lookup_insert_Some.
    + destruct (i_counters _ HI _ _ Hc) as [Er Ei Eu Ef [Ea1 Ea2]].
      set (rsv := mkReservation run (c_claim_generation c) (fileBytes caps) now false).
      destruct (own_reservation run rsv) as (O1 & O2 & O3); [done|].
      split; simpl; rewrite ?total_insert_fresh // ?O1 ?O2 ?O3 /=; rewrite /maxAttempts; lia.
    + destruct (i_counters _ HI _ _ Hc2) as [Er Ei Eu Ef [Ea1 Ea2]].
      set (rsv := mkReservation run (c_claim_generation c) (fileBytes caps) now false).
      destruct (other_reservation run run2 rsv) as (O1 & O2 & O3); [done..|].
      split; simpl; rewrite ?total_insert_fresh // ?O1 ?O2 ?O3; try done; lia.
  - intros id2 r [(<- & <-)|(_ & Hr2)]%lookup_insert_Some; [|exact (i_res _ HI _ _ Hr2)].
    simpl. split; [by rewrite Hc|done].
  - intros id2 f (r & Hr2 & ?)%(i_fetch _ HI). exists r. split; [|done].
    rewrite lookup_insert_ne //. by intros <-; rewrite Hid in Hr2.
Qed.

Lemma inv_report db r run c id rsv : Inv db → validateComplete r = None →
  reportOf db r run c id rsv → fetches db !! id = None → Bytes r <= res_bytes rsv →
  Inv (logDb r run c id rsv db).
Proof.
  intros HI Hv [Hc _ Hid Hrun _] Hnl Hb.
  assert (0 <= Bytes r) as Hb0.
  { revert Hv. rewrite /validateComplete. repeat case_match; try done; lia. }
  apply (inv_update db run c); try done.
  - intros run2 c2 [(<- & <-)|(Hne & Hc2)]%lookup_insert_Some.
    + destruct (i_counters _ HI _ _ Hc) as [Er Ei Eu Ef Ea].
      destruct (own_reservation run rsv) as (O1 & O2 & O3); [done|].
      destruct (own_reservation run (settle rsv)) as (P1 & P2 & P3); [done|].
      destruct (own_fetch run (logRow run r)) as (F1 & F2); [done|].
      split; simpl; rewrite ?(total_insert _ _ _ _ _ Hid) ?total_insert_fresh // ?O1 ?O2 ?O3 ?P1 ?P2 ?P3 ?F1 ?F2
        /refundOf /=; destruct (settled rsv), (Verdict r =?s VerdictRefused)%go; lia.
    + destruct (i_counters _ HI _ _ Hc2) as [Er Ei Eu Ef Ea].
      destruct (other_reservation run run2 rsv) as (O1 & O2 & O3); [done..|].
      destruct (other_reservation run run2 (settle rsv)) as (P1 & P2 & P3); [done..|].
      destruct (other_fetch run run2 (logRow run r)) as (F1 & F2); [done..|].
      split; simpl; rewrite ?(total_insert _ _ _ _ _ Hid) ?total_insert_fresh // ?O1 ?O2 ?O3 ?P1 ?P2 ?P3 ?F1 ?F2; lia.
  - intros id2 r2 [(<- & <-)|(_ & Hr2)]%lookup_insert_Some; [|exact (i_res _ HI _ _ Hr2)].
    apply (i_res _ HI _ _ Hid).
  - intros id2 f [(<- & <-)|(Hne & Hf)]%lookup_insert_Some.
    + exists (settle rsv). rewrite lookup_insert_eq. simpl. done.
    + destruct (i_fetch _ HI _ _ Hf) as (r2 & Hr2 & ?). exists r2. by rewrite lookup_insert_ne.
Qed.

Lemma settleWhere_open p run r :
  openBytes run (settleWhere p r) = openBytes run r + -1 * (if givesBack p run r then res_bytes r else 0) ∧
  openCount run (settleWhere p r) = openCount run r + -1 * (if givesBack p run r then 1 else 0) ∧
  runCount run (settleWhere p r) = runCount run r.
Proof.
  rewrite /settleWhere /openBytes /openCount /runCount /givesBack /isOpen /ofRun /selected.
  destruct (settled r) eqn:Es; simpl; [rewrite Es /=; lia|].
  destruct (p r); simpl; [|rewrite ?Es /=; lia]. destruct (bool_decide (res_run r = run)); simpl; lia.
Qed.

Lemma settleWhere_same p r : res_run (settleWhere p r) = res_run r ∧ res_bytes (settleWhere p r) = res_bytes r ∧
  (settled r = true → settled (settleWhere p r) = true).
Proof. rewrite /settleWhere. by destruct (selected p r). Qed.

Lemma inv_releaseDb db p : Inv db → Inv (releaseDb p db).
Proof.
  intros HI. split; simpl.
  - intros run c. rewrite map_lookup_imap. destruct (creds db !! run) as [c0|] eqn:Hc; [|done].
    intros [= <-]. destruct (i_counters _ HI _ _ Hc) as [Er Ei Eu Ef Ea].
    split; simpl; rewrite ?total_fmap //.
    + rewrite Er (total_ext (λ x, openBytes run (settleWhere p x)) (λ x, openBytes run x + -1 * (if givesBack p run x then res_bytes x else 0))).
      { intros k x _. apply settleWhere_open. }
      rewrite total_add total_scale. lia.
    + rewrite Ei (total_ext (λ x, openCount run (settleWhere p x)) (λ x, openCount run x + -1 * (if givesBack p run x then 1 else 0))).
      { intros k x _. apply settleWhere_open. }
      rewrite total_add total_scale. lia.
    + rewrite Ef (total_ext (λ x, runCount run (settleWhere p x)) (runCount run)); [|done].
      intros k x _. apply settleWhere_open.
    + rewrite (total_ext (λ x, runCount run (settleWhere p x)) (runCount run)); [|done].
      intros k x _. apply settleWhere_open.
  - intros run c. rewrite map_lookup_imap. destruct (creds db !! run) as [c0|] eqn:Hc; [|done].
    intros [= <-]. simpl. by apply (i_bound _ HI).
  - intros r1 r2 c1 c2. rewrite !map_lookup_imap.
    destruct (creds db !! r1) as [d1|] eqn:H1; [|done]. destruct (creds db !! r2) as [d2|] eqn:H2; [|done].
    intros [= <-] [= <-]. simpl. by apply (i_hash _ HI).
  - intros id r (r0 & <- & Hr)%lookup_fmap_Some. destruct (settleWhere_same p r0) as (-> & -> & _).
    destruct (i_res _ HI _ _ Hr) as [[c Hc] Hb]. split; [|done]. by rewrite map_lookup_imap Hc.
  - intros id f (r & Hr & Hrun & Hs & Hb)%(i_fetch _ HI). exists (settleWhere p r).
    destruct (settleWhere_same p r) as (-> & -> & Hs'). rewrite lookup_fmap Hr. auto.
Qed.

Lemma inv_release db p n db' : Inv db → release p db = Ok (n, db') → Inv db'.
Proof. intros HI ->%release_Ok. by apply inv_releaseDb. Qed.

Lemma inv_runs db m : Inv db →
  (∀ run r, runs db !! run = Some r → ∃ r', m !! run = Some r' ∧
     (is_Some (r_egress_profile_id r) → is_Some (r_egress_profile_id r')) ∧
     (claimedOrRunning (r_status r') = false →
        claimedOrRunning (r_status r) = false ∨ ∀ c, creds db !! run = Some c → revoked c = true)) →
  Inv (set_runs db m).
Proof.
  intros HI Hm. destruct HI as [? Hb ? ? ?]. split; simpl; try done.
  - intros run c Hc. by destruct (i_counters0 run c Hc).
  - intros run c Hc. destruct (Hb run c Hc) as (r & Hr & Hp & Hrev).
    destruct (Hm run r Hr) as (r' & Hr' & Hp' & Hs'). exists r'. split_and!; [done|auto|].
    intros [?|?]%Hs'; auto.
Qed.

Lemma inv_snapshotted run db db1 : Inv db → snapshotted run db db1 → Inv db1.
Proof.
  intros HI []; [done|]. apply inv_runs; [done|]. intros run' r Hr.
  destruct (decide (run' = cr_ID run)) as [->|].
  - rewrite lookup_alter_eq Hr. eexists. split; [done|]. rewrite /snapshotOnce. destruct (r_egress_snapshot r); auto.
  - rewrite lookup_alter_ne //. eauto 6.
Qed.

Lemma hashTaken_false db hash run run' c :
  hashTaken db hash run = false → creds db !! run' = Some c → token_hash c = hash → run' = run.
Proof.
  rewrite /hashTaken. intros Hf Hc Hh. destruct (decide (run' = run)) as [|Hne]; [done|].
  assert (existsb (λ '(run', c), (token_hash c =?s hash)%go && negb (bool_decide (run' = run)))
    (map_to_list (creds db)) = true); [|congruence].
  apply existsb_exists. exists (run', c). split; [by apply list_elem_of_In, elem_of_map_to_list|].
  rewrite bool_decide_ne // andb_true_r. by apply String.eqb_eq.
Qed.

(** A run without a credential row has no reservation and no log row. *)
Lemma uncredited db run : Inv db → creds db !! run = None →
  total (openBytes run) (reservations db) = 0 ∧ total (openCount run) (reservations db) = 0 ∧
  total (runCount run) (reservations db) = 0 ∧ total (usedOf run) (fetches db) = 0 ∧
  total (refusedCount run) (fetches db) = 0.
Proof.
  intros HI Hn.
  assert (∀ id r, reservations db !! id = Some r → res_run r ≠ run) as Hr.
  { intros id r [[c Hc] _]%(i_res _ HI) <-. congruence. }
  assert (∀ id f, fetches db !! id = Some f → f_run f ≠ run) as Hf.
  { intros id f (r & Hr2 & <- & _)%(i_fetch _ HI). by eapply Hr. }
  split_and!; apply total_zero; intros k x Hx;
    first [by apply (other_reservation (res_run x) run x eq_refl), (Hr k)
          |by apply (other_fetch (f_run x) run x eq_refl), (Hf k)].
Qed.

Lemma inv_mint db run hash r : Inv db → mintable db run hash r →
  Inv (mintDb hash (cr_ClaimGeneration run) (cr_ID run) db).
Proof.
  intros HI [Hr Hg Hs Hp Hh]. split; simpl.
  - intros run2 c2 [(<- & <-)|(_ & Hc)]%lookup_insert_Some.
    + rewrite /mintCred. destruct (creds db !! cr_ID run) as [c|] eqn:Hc; simpl.
      * by destruct (i_counters _ HI _ _ Hc).
      * destruct (uncredited _ _ HI Hc) as (E1 & E2 & E3 & E4 & E5).
        split; simpl; rewrite ?E1 ?E2 ?E3 ?E4 ?E5 //.
    + by destruct (i_counters _ HI _ _ Hc).
  - intros run2 c2 [(<- & <-)|(_ & Hc)]%lookup_insert_Some; [|by apply (i_bound _ HI)].
    exists r. split_and!; [done..|]. by rewrite Hs.
  - intros r1 r2 c1 c2 [(<- & <-)|(Hn1 & H1)]%lookup_insert_Some [(<- & <-)|(Hn2 & H2)]%lookup_insert_Some He; [done| | |].
    + symmetry. by apply (hashTaken_false _ _ _ _ _ Hh H2).
    + by apply (hashTaken_false _ _ _ _ _ Hh H1).
    + by apply (i_hash _ HI _ _ _ _ H1 H2).
  - intros id rsv [[c Hc] Hb]%(i_res _ HI). split; [|done].
    destruct (decide (res_run rsv = cr_ID run)) as [->|]; [by rewrite lookup_insert_eq|].
    by rewrite lookup_insert_ne.
  - apply (i_fetch _ HI).
Qed.

(** * The other writers *)
Lemma inv_revoke db run : Inv db → Inv (set_creds db (alter revoke run (creds db))).
Proof.
  intros HI. destruct (creds db !! run) as [c|] eqn:Hc.
  - rewrite (alter_insert _ _ _ _ Hc). split; simpl.
    + intros run2 c2 [(<- & <-)|(_ & Hc2)]%lookup_insert_Some.
      * by destruct (i_counters _ HI _ _ Hc).
      * by destruct (i_counters _ HI _ _ Hc2).
    + intros run2 c2 [(<- & <-)|(_ & Hc2)]%lookup_insert_Some; [|by apply (i_bound _ HI)].
      destruct (i_bound _ HI _ _ Hc) as (r & ? & ? & _). eauto.
    + intros r1 r2 c1 c2 [(<- & <-)|(Hn1 & H1)]%lookup_insert_Some [(<- & <-)|(Hn2 & H2)]%lookup_insert_Some He; [done| | |].
      * by apply (i_hash _ HI _ _ _ _ Hc H2).
      * by apply (i_hash _ HI _ _ _ _ H1 Hc).
      * by apply (i_hash _ HI _ _ _ _ H1 H2).
    + intros id r [? ?]%(i_res _ HI). split; [|done]. by apply lookup_insert_is_Some'; auto.
    + apply (i_fetch _ HI).
  - by rewrite (alter_id' _ _ _ Hc); destruct db.
Qed.

Lemma inv_updateRun db run status gen : Inv db → Inv (updateRun run status gen db).
Proof.
  intros HI. rewrite /updateRun. destruct (runs db !! run) as [r|] eqn:Hr; [|done].
  set (m := <[run := _]> (runs db)).
  destruct (bool_decide _ && _ && _) eqn:Eb.
  - change (Inv (set_runs (set_creds db (alter revoke run (creds db))) m)).
    apply inv_runs; [by apply inv_revoke|]. intros run2 r2 Hr2. simpl in Hr2.
    destruct (decide (run2 = run)) as [->|Hne].
    + assert (r2 = r) as -> by congruence. rewrite /m lookup_insert_eq. eexists. split_and!; [done..|].
      intros _. right. simpl. intros c. rewrite lookup_alter_eq. by intros (c0 & _ & ->)%fmap_Some.
    + rewrite /m lookup_insert_ne //. eauto 6.
  - apply inv_runs; [done|]. intros run2 r2 Hr2. destruct (decide (run2 = run)) as [->|Hne].
    + assert (r2 = r) as -> by congruence. rewrite /m lookup_insert_eq. eexists. split_and!; [done..|].
      simpl. intros Hst. rewrite Hst andb_true_r in Eb.
      apply andb_false_iff in Eb as [Eb%bool_decide_eq_false|Eb%negb_false_iff%String.eqb_eq].
      * right. intros c Hc. destruct (i_bound _ HI _ _ Hc) as (r' & Hr' & Hp & _). congruence.
      * left. by rewrite Eb.
    + rewrite /m lookup_insert_ne //. eauto 6.
Qed.

Lemma inv_insertRun db run status profile : Inv db → Inv (insertRun run status profile db).
Proof.
  intros HI. rewrite /insertRun. destruct (runs db !! run) as [|] eqn:Hr; [done|].
  apply inv_runs; [done|]. intros run2 r2 Hr2. rewrite lookup_insert_ne; [by intros ->; congruence|].
  eauto 6.
Qed.

Lemma inv_deleteRun db run : Inv db → Inv (deleteRun run db).
Proof.
  intros HI. rewrite /deleteRun. split; simpl.
  - intros run2 c [Hne Hc]%lookup_delete_Some. destruct (i_counters _ HI _ _ Hc) as [Er Ei Eu Ef Ea].
    assert (∀ k x, reservations db !! k = Some x → ¬ (λ '(_, r), res_run r ≠ run) (k, x) →
      openBytes run2 x = 0 ∧ openCount run2 x = 0 ∧ runCount run2 x = 0) as Hz.
    { intros k x _ Hx. apply dec_stable in Hx. by apply (other_reservation run). }
    assert (∀ k x, fetches db !! k = Some x → ¬ (λ '(_, f), f_run f ≠ run) (k, x) →
      usedOf run2 x = 0 ∧ refusedCount run2 x = 0) as Hzf.
    { intros k x _ Hx. apply dec_stable in Hx. by apply (other_fetch run). }
    split; simpl; rewrite ?total_filter //; intros k x Hk Hx;
      first [by apply (Hz k x Hk Hx)|by apply (Hzf k x Hk Hx)].
  - intros run2 c [Hne Hc]%lookup_delete_Some. rewrite lookup_delete_ne //. by apply (i_bound _ HI).
  - intros r1 r2 c1 c2 [_ H1]%lookup_delete_Some [_ H2]%lookup_delete_Some. by apply (i_hash _ HI).
  - intros id r [Hr Hne]%map_lookup_filter_Some. simpl in Hne. rewrite lookup_delete_ne //.
    by apply (i_res _ HI id).
  - intros id f [Hf Hne]%map_lookup_filter_Some. simpl in Hne.
    destruct (i_fetch _ HI _ _ Hf) as (r & Hr & Hrun & ?). exists r. split; [|done].
    apply map_lookup_filter_Some. split; [done|]. simpl. congruence.
Qed.

(** * Sequences of transactions *)

(** The reservations a transaction settled; with the step relation, the ones
    released before a report of theirs arrived. *)
Definition newlySettled (db db' : DB) : gset uuid :=
  dom (filter (λ '(id, r), settled r = false ∧ (settled <$> reservations db' !! id) = Some true)
         (reservations db)).

Definition reused (db : DB) (id : uuid) (rel : gset uuid) : gset uuid :=
  if reservations db !! id then rel else rel ∖ {[id]}.

Inductive step (okc : Cache → Prop) : DB * gset uuid → DB * gset uuid → Prop :=
  | step_begin cache credential id now fs db rel : okc cache →
      step okc (db, rel) ((Begin cache credential id now fs db).2, reused db id rel)
  | step_complete r fs db rel :
      step okc (db, rel) ((Complete r fs db).2, rel)
  | step_sweep now fs db rel :
      step okc (db, rel) ((SweepStale now fs db).2, rel ∪ newlySettled db (SweepStale now fs db).2)
  | step_claim run token fs db rel :
      step okc (db, rel)
        ((isolateClaim run token fs db).2, rel ∪ newlySettled db (isolateClaim run token fs db).2)
  | step_update run status gen db rel : step okc (db, rel) (updateRun run status gen db, rel)
  | step_insert run status profile db rel : step okc (db, rel) (insertRun run status profile db, rel)
  | step_delete run db rel : step okc (db, rel) (deleteRun run db, rel)
  | step_profiles m db rel : step okc (db, rel) (editProfiles m db, rel).

Definition initial (db : DB) : Prop := creds db = ∅ ∧ reservations db = ∅ ∧ fetches db = ∅.

Lemma inv_initial db : initial db → Inv db.
Proof.
  intros (Hc & Hr & Hf). split; intros *; by rewrite ?Hc ?Hr ?Hf lookup_empty.
Qed.

Lemma inv_begin caps credential id now db r db' :
  Inv db → capsOk caps → beginOut caps credential id now db r db' → Inv db'.
Proof.
  intros HI Hcaps []; [done| |].
  - destruct H1. apply inv_charge; [done..|]. destruct Hcaps. rewrite /maxAttempts. lia.
  - destruct H1. by apply inv_admit.
Qed.

Lemma inv_complete r id db res db' :
  Inv db → validateComplete r = None → completeOut r id db res db' → Inv db'.
Proof. intros HI Hv []; [done|done|]. by apply inv_report. Qed.

Lemma inv_sweep now db r db' : Inv db → sweepOut now db r db' → Inv db'.
Proof. intros HI []; [done|]. by eapply inv_release. Qed.

Lemma inv_claim run token db r db' : Inv db → claimOut run token db r db' → Inv db'.
Proof.
  intros HI []; [done|]. eapply inv_release; [|done]. eapply inv_mint; [|done]. by eapply inv_snapshotted.
Qed.

Lemma fetch_inv_step okc s s' : step okc s s' → Inv s.1 → Inv s'.1.
Proof.
  destruct 1; simpl; intros HI.
  - eapply inv_begin; [done|apply readCaps_ok|apply Begin_out].
  - destruct (Complete_out r fs db) as [[e ->]|(id & _ & Hv & Ho)]; [done|]. by eapply inv_complete.
  - eapply inv_sweep; [done|apply SweepStale_out].
  - eapply inv_claim; [done|apply isolateClaim_out].
  - by apply inv_updateRun.
  - by apply inv_insertRun.
  - by apply inv_deleteRun.
  - split; simpl; [|apply HI..]. intros run c Hc. by destruct (i_counters _ HI _ _ Hc).
Qed.

(** * Caps *)

(** The bytes of the reports that arrived after their reservation had been
    released. *)
Definition lateUsed (rel : gset uuid) (run : uuid) (db : DB) : Z :=
  total (usedOf run) (filter (λ '(id, _), id ∈ rel) (fetches db)).

Record withinCaps (caps : FetchCaps) (late : Z) (c : Cred) : Prop := {
  w_bytes : reserved_bytes c + used_bytes c <= MaxRunBytes caps + late;
  w_files : files c <= MaxRunFiles caps;
  w_inflight : inflight c <= MaxConcurrentPerRun caps;
  w_attempts : attempts c <= MaxRunAttempts caps;
}.

Record Capped (caps : FetchCaps) (s : DB * gset uuid) : Prop := {
  k_caps run c : creds s.1 !! run = Some c → withinCaps caps (lateUsed s.2 run s.1) c;
  k_released id r : id ∈ s.2 → reservations s.1 !! id = Some r → settled r = true;
  k_settled id r : reservations s.1 !! id = Some r → settled r = true →
    id ∈ s.2 ∨ is_Some (fetches s.1 !! id);
}.

(** Marks on ids that have no log row change no sum. *)
Lemma lateUsed_ext rel rel' run db db' :
  fetches db' = fetches db → (∀ id, is_Some (fetches db !! id) → id ∈ rel ↔ id ∈ rel') →
  lateUsed rel' run db' = lateUsed rel run db.
Proof.
  intros Hf Hrel. rewrite /lateUsed Hf. f_equal. apply map_filter_ext.
  intros id f Hid. symmetry. apply Hrel. by eexists.
Qed.

Lemma lateUsed_nonneg rel run db : Inv db → 0 <= lateUsed rel run db.
Proof.
  intros HI. apply total_nonneg. intros k f [Hf _]%map_lookup_filter_Some.
  destruct (i_fetch _ HI _ _ Hf) as (r & _ & _ & _ & ?). rewrite /usedOf. destruct (bool_decide _); lia.
Qed.

Lemma newlySettled_elem db db' id :
  id ∈ newlySettled db db' ↔ ∃ r r', reservations db !! id = Some r ∧ settled r = false ∧
    reservations db' !! id = Some r' ∧ settled r' = true.
Proof.
  rewrite /newlySettled elem_of_dom. split.
  - intros [r [Hr [Hs Hs']]%map_lookup_filter_Some]. apply fmap_Some in Hs' as (r' & ? & ?). eauto 6.
  - intros (r & r' & Hr & Hs & Hr' & Hs'). exists r. apply map_lookup_filter_Some.
    split; [done|]. by rewrite Hr' /= Hs'.
Qed.

Section CapSteps.
Context (caps : FetchCaps) (Hcaps : capsOk caps).

Lemma capped_begin credential id now db rel r db' : Inv db → Capped caps (db, rel) →
  beginOut caps credential id now db r db' → Capped caps (db', reused db id rel).
Proof.
  intros HI [Hk Hr Hs] Hout. simpl in *.
  assert (∀ i, is_Some (fetches db !! i) → i ∈ rel ↔ i ∈ reused db id rel) as Hrel.
  { intros i [f Hf]. destruct (i_fetch _ HI _ _ Hf) as (r' & Hr' & _). rewrite /reused.
    destruct (reservations db !! id) eqn:Hid; [done|]. assert (i ≠ id) by congruence. set_solver. }
  assert (reused db id rel ⊆ rel) as Hsub.
  { rewrite /reused. destruct (reservations db !! id); set_solver. }
  destruct Hout as [e|run c r0 e [Hc _ _ _ _ _] Ha Hroom _|run c r0 snap res [Hc _ _ _ _ _] Ha Hroom Hid _ _];
    split; simpl.
  - intros run c Hc. rewrite (lateUsed_ext rel (reused db id rel) run db) //. by apply Hk.
  - intros i r0 Hi. apply Hr. set_solver.
  - intros i r0 Hi Hst. destruct (Hs i r0 Hi Hst) as [Hin|]; [|by right].
    left. rewrite /reused. destruct (reservations db !! id) eqn:Hid; [done|]. set_solver.
  - intros run2 c2 Hc2. rewrite (lateUsed_ext rel (reused db id rel) run2 db) //.
    apply lookup_insert_Some in Hc2 as [(<- & <-)|(_ & Hc2)]; [|by apply Hk].
    destruct (Hk run c Hc). split; simpl; try done. lia.
  - intros i r1 Hi. apply Hr. set_solver.
  - intros i r1 Hi Hst. destruct (Hs i r1 Hi Hst) as [Hin|]; [|by right].
    left. rewrite /reused. destruct (reservations db !! id) eqn:Hid; [done|]. set_solver.
  - intros run2 c2 Hc2. rewrite (lateUsed_ext rel (reused db id rel) run2 db) //.
    apply lookup_insert_Some in Hc2 as [(<- & <-)|(_ & Hc2)]; [|by apply Hk].
    pose proof (lateUsed_nonneg rel run db HI). destruct (Hk run c Hc).
    rewrite /hasRoom in Hroom. split; simpl; lia.
  - rewrite /reused Hid. intros i r1 Hi [(<- & <-)|(_ & Hr1)]%lookup_insert_Some; [set_solver|].
    apply (Hr i); [set_solver|done].
  - rewrite /reused Hid. intros i r1 [(<- & <-)|(Hne & Hr1)]%lookup_insert_Some Hst; [done|].
    destruct (Hs i r1 Hr1 Hst); [left; set_solver|by right].
Qed.

Lemma lateUsed_log rel run db r id rsv c : fetches db !! id = None →
  lateUsed rel run (logDb r run c id rsv db) = lateUsed rel run db + (if bool_decide (id ∈ rel) then Bytes r else 0).
Proof.
  intros Hn. rewrite /lateUsed /=. case_bool_decide as Hin.
  - rewrite map_filter_insert_True // total_insert_fresh; [apply map_lookup_filter_None; by left|].
    destruct (own_fetch run (logRow run r)) as [-> _]; [done|]. simpl. lia.
  - rewrite map_filter_insert_not'; [done|by intros y Hy; congruence|]. lia.
Qed.

Lemma lateUsed_log_other rel run run2 db r id rsv c : run ≠ run2 → fetches db !! id = None →
  lateUsed rel run2 (logDb r run c id rsv db) = lateUsed rel run2 db.
Proof.
  intros Hne Hn. rewrite /lateUsed /=. destruct (decide (id ∈ rel)) as [Hin|Hin].
  - rewrite map_filter_insert_True // total_insert_fresh; [apply map_lookup_filter_None; by left|].
    destruct (other_fetch run run2 (logRow run r)) as [-> _]; [done..|]. lia.
  - rewrite map_filter_insert_not'; [done|by intros y Hy; congruence|done].
Qed.

Lemma capped_complete r id db rel res db' : Inv db → validateComplete r = None → Capped caps (db, rel) →
  completeOut r id db res db' → Capped caps (db', rel).
Proof.
  intros HI Hv [Hk Hr Hs] Hout. simpl in *.
  destruct Hout as [e|run c rsv _ _|run c rsv res Hro Hnl Hb _]; [by split..|].
  destruct Hro as [Hc _ Hid Hrun _]. split; simpl.
  - intros run2 c2 [(<- & <-)|(Hne & Hc2)]%lookup_insert_Some.
    + rewrite lateUsed_log //. destruct (Hk run c Hc) as [Hw Hf Hi Ha].
      assert (0 <= refundOf r) by (rewrite /refundOf; by destruct (_ =?s _)%go).
      split; simpl; try lia; [|destruct (settled rsv); lia].
      destruct (settled rsv) eqn:Est.
      * destruct (Hs id rsv Hid Est) as [Hin|[f Hf']]; [|congruence]. rewrite bool_decide_eq_true_2 //. lia.
      * case_bool_decide as Hin; [|lia]. by rewrite (Hr id rsv Hin Hid) in Est.
    + rewrite lateUsed_log_other //. by apply Hk.
  - intros i r1 Hi [(<- & <-)|(_ & Hr1)]%lookup_insert_Some; [done|]. by apply (Hr i).
  - intros i r1 [(<- & <-)|(Hne & Hr1)]%lookup_insert_Some Hst.
    + right. by rewrite lookup_insert_eq.
    + destruct (Hs i r1 Hr1 Hst); [by left|right]. by rewrite lookup_insert_ne.
Qed.

Lemma newlySettled_unlogged db db' id : Inv db → id ∈ newlySettled db db' → fetches db !! id = None.
Proof.
  intros HI (r & r' & Hr & Hs & _)%newlySettled_elem. destruct (fetches db !! id) as [f|] eqn:Hf; [|done].
  destruct (i_fetch _ HI _ _ Hf) as (r2 & Hr2 & _ & Hs2 & _). congruence.
Qed.

Lemma capped_release db rel p n db' : Inv db → Capped caps (db, rel) → release p db = Ok (n, db') →
  Capped caps (db', rel ∪ newlySettled db db').
Proof.
  intros HI [Hk Hr Hs] Hrel. simpl in *. pose proof (newlySettled_unlogged db db') as Hun.
  apply release_Ok in Hrel as ->. set (db' := releaseDb p db) in Hun |- *.
  assert (∀ run, lateUsed (rel ∪ newlySettled db db') run db' = lateUsed rel run db) as Hlate.
  { intros run. apply lateUsed_ext; [done|]. intros i [f Hf]. rewrite elem_of_union.
    split; [by left|]. intros [?|Hi]; [done|]. rewrite (Hun i HI Hi) in Hf. done. }
  split; simpl.
  - intros run c. rewrite map_lookup_imap. destruct (creds db !! run) as [c0|] eqn:Hc; [|done].
    intros [= <-]. rewrite Hlate. destruct (Hk run c0 Hc) as [Hw Hf Hi Ha].
    assert (0 <= total (λ r, if givesBack p run r then res_bytes r else 0) (reservations db)).
    { apply total_nonneg. intros k x Hx. destruct (i_res _ HI _ _ Hx). destruct (givesBack p run x); lia. }
    assert (0 <= total (λ r, if givesBack p run r then 1 else 0) (reservations db)).
    { apply total_nonneg. intros k x Hx. by destruct (givesBack p run x). }
    split; simpl; lia.
  - intros i r [Hi|(r0 & r1 & _ & _ & Hr1 & Hs1)%newlySettled_elem]%elem_of_union Hr'.
    + rewrite lookup_fmap in Hr'. apply fmap_Some in Hr' as (r0 & Hr0 & ->).
      apply settleWhere_same. by apply (Hr i).
    + simpl in Hr1. congruence.
  - intros i r (r0 & <- & Hr0)%lookup_fmap_Some Hst. rewrite elem_of_union.
    destruct (settled r0) eqn:Es; [destruct (Hs i r0 Hr0 Es); auto|].
    left. right. apply newlySettled_elem. exists r0, (settleWhere p r0). simpl. by rewrite lookup_fmap Hr0.
Qed.

Lemma capped_ext db db' rel : creds db' = creds db → reservations db' = reservations db →
  fetches db' = fetches db → Capped caps (db, rel) → Capped caps (db', rel).
Proof.
  intros Hc Hr Hf [Hk Hrel Hs]. simpl in *. split; simpl; rewrite ?Hc ?Hr ?Hf //.
  intros run c Hc'. rewrite (lateUsed_ext rel rel run db) //. by apply Hk.
Qed.

Lemma capped_mint db rel hash gen run : Inv db → Capped caps (db, rel) →
  Capped caps (mintDb hash gen run db, rel).
Proof.
  intros HI [Hk Hr Hs]. simpl in *. split; simpl; [|done..].
  intros run2 c2 Hc2. rewrite (lateUsed_ext rel rel run2 db) //.
  apply lookup_insert_Some in Hc2 as [(<- & <-)|(_ & Hc2)]; [|by apply Hk].
  rewrite /mintCred. destruct (creds db !! run) as [c|] eqn:Hc; [by destruct (Hk run c Hc)|].
  pose proof (lateUsed_nonneg rel run db HI). destruct Hcaps. split; simpl; lia.
Qed.

Lemma newlySettled_ext db db2 db' : reservations db2 = reservations db →
  newlySettled db db' = newlySettled db2 db'.
Proof. by rewrite /newlySettled => ->. Qed.

Lemma newlySettled_refl db : newlySettled db db = ∅.
Proof. apply elem_of_equiv_empty_L. intros id (r & r' & ? & ? & ? & ?)%newlySettled_elem. congruence. Qed.

Lemma capped_claim run token db rel r db' : Inv db → Capped caps (db, rel) →
  claimOut run token db r db' → Capped caps (db', rel ∪ newlySettled db db').
Proof.
  intros HI Hk []; [by rewrite newlySettled_refl (right_id_L ∅ (∪))|].
  assert (Inv db1) as HI1 by by eapply inv_snapshotted.
  assert (creds db1 = creds db ∧ reservations db1 = reservations db ∧ fetches db1 = fetches db) as (E1 & E2 & E3)
    by by destruct H1.
  rewrite (newlySettled_ext db (mintDb (HashCredential token) (cr_ClaimGeneration run) (cr_ID run) db1)) //.
  eapply capped_release; [by eapply inv_mint| |done]. apply capped_mint; [done|]. by apply (capped_ext db).
Qed.

Lemma capped_sweep now db rel r db' : Inv db → Capped caps (db, rel) → sweepOut now db r db' →
  Capped caps (db', rel ∪ newlySettled db db').
Proof.
  intros HI Hk []; [by rewrite newlySettled_refl (right_id_L ∅ (∪))|]. by eapply capped_release.
Qed.

Lemma capped_creds db rel m : Capped caps (db, rel) →
  (∀ run c', m !! run = Some c' → ∃ c, creds db !! run = Some c ∧
     ∀ late, withinCaps caps late c → withinCaps caps late c') →
  Capped caps (set_creds db m, rel).
Proof.
  intros [Hk Hr Hs] Hm. simpl in *. split; simpl; [|done..]. intros run c' (c & Hc & Hw)%Hm.
  apply Hw. by apply Hk.
Qed.

Lemma capped_updateRun run status gen db rel :
  Capped caps (db, rel) → Capped caps (updateRun run status gen db, rel).
Proof.
  intros Hk. rewrite /updateRun. destruct (runs db !! run); [|done].
  destruct (_ && _ && _); [|by apply (capped_ext db)].
  apply capped_creds; [by apply (capped_ext db)|]. simpl. intros run2 c'.
  destruct (decide (run2 = run)) as [->|Hne].
  - rewrite lookup_alter_eq. intros (c & Hc & ->)%fmap_Some. exists c. split; [done|]. by intros late [].
  - rewrite lookup_alter_ne //. eauto.
Qed.

Lemma capped_deleteRun run db rel : Inv db → Capped caps (db, rel) → Capped caps (deleteRun run db, rel).
Proof.
  intros HI [Hk Hr Hs]. simpl in *. split; simpl.
  - intros run2 c [Hne Hc]%lookup_delete_Some.
    assert (lateUsed rel run2 (deleteRun run db) = lateUsed rel run2 db) as ->; [|by apply Hk].
    rewrite /lateUsed /= map_filter_comm. apply total_filter.
    intros k f _ Hx. apply dec_stable in Hx. by apply (other_fetch run).
  - intros i r Hi [Hr' _]%map_lookup_filter_Some. by apply (Hr i).
  - intros i r [Hr' Hne]%map_lookup_filter_Some Hst. destruct (Hs i r Hr' Hst) as [|[f Hf]]; [by left|].
    right. exists f. apply map_lookup_filter_Some. split; [done|].
    destruct (i_fetch _ HI _ _ Hf) as (r2 & Hr2 & Hrun & _). simpl in *. congruence.
Qed.

Lemma capped_step s s' : step (λ cache, (readCaps cache).1 = caps) s s' →
  Inv s.1 → Capped caps s → Capped caps s'.
Proof.
  destruct 1; simpl; intros HI Hk.
  - eapply capped_begin; [done..|]. subst caps. apply Begin_out.
  - destruct (Complete_out r fs db) as [[e ->]|(id & _ & Hv & Ho)]; [done|]. by eapply capped_complete.
  - eapply capped_sweep; [done..|apply SweepStale_out].
  - eapply capped_claim; [done..|apply isolateClaim_out].
  - by apply capped_updateRun.
  - rewrite /insertRun. destruct (runs db !! run); [done|]. by apply (capped_ext db).
  - by apply capped_deleteRun.
  - by apply (capped_ext db).
Qed.

End CapSteps.

(** * Without faults *)
Lemma bump_ok db run c : Inv db → creds db !! run = Some c → attempts c < maxAttempts → countersOk (bump c) = true.
Proof.
  intros HI Hc Ha. pose proof (counters_range db HI run c Hc) as Hr.
  rewrite /maxFile /maxAttempts in Hr, Ha. rewrite /countersOk /counterOk /maxBigint /=. lia.
Qed.

Lemma reserve_ok db run c caps : Inv db → capsOk caps → creds db !! run = Some c → attempts c < maxAttempts →
  countersOk (reserve (fileBytes caps) (bump c)) = true ∧ bigint (reserved_bytes c + used_bytes c + fileBytes caps) = true.
Proof.
  intros HI [Hf Hr _ _ _] Hc Ha. pose proof (counters_range db HI run c Hc) as Hrg.
  rewrite /maxFile /maxAttempts in Hrg, Ha. rewrite /countersOk /counterOk /bigint /maxBigint /fileBytes /=. lia.
Qed.

Definition beginSpec (caps : FetchCaps) (run : uuid) (c : Cred) (entries : list string) (id : uuid) (now : time) (db : DB)
    : result error Admission * DB :=
  if attempts c <? MaxRunAttempts caps then
    if hasRoom caps c
    then (Ok (mkAdmission id entries (fileBytes caps)), admitDb caps run c id now db)
    else (Err (AdmissionRefused (refusalReason c caps)), chargeDb run c db)
  else (Err (AdmissionRefused AdmissionAttempts), db).

Lemma beginTx_run caps credential id now db run c r snap :
  Inv db → capsOk caps → liveCred db credential run c r →
  ParseSnapshot (r_egress_snapshot r) = Ok snap → reservations db !! id = None →
  inTx (beginTx caps credential id now) [] db = beginSpec caps run c snap.2 id now db.
Proof.
  intros HI Hcaps [Hc Hh Hr Hrev Hg Hst] Hs Hid.
  assert (MaxRunAttempts caps <= maxAttempts) as Hmax by (destruct Hcaps; rewrite /maxAttempts; lia).
  pose proof (findCred_unique _ _ _ _ HI Hc Hh) as Hf.
  rewrite /beginSpec run_inTx /beginTx.
  erewrite run_bind; [|apply run_query; by rewrite Hf /= Hr /=].
  rewrite /credentialLive /= Hrev Hg Hst Z.eqb_refl /=. rewrite Hs.
  erewrite run_bind; [|done].
  destruct (attempts c <? MaxRunAttempts caps) eqn:Ea.
  - assert (attempts c < maxAttempts) as Ha by lia.
    pose proof (bump_ok _ _ _ HI Hc Ha) as Hb. destruct (reserve_ok _ _ _ caps HI Hcaps Hc Ha) as [Hrs Hbi].
    erewrite run_bind; [|apply run_stmt; rewrite Hc Ea /updateCred /= -/(bump c) Hb //].
    simpl. change (Z.min (MaxFileBytes caps) (MaxRunBytes caps)) with (fileBytes caps).
    destruct (hasRoom caps c) eqn:Er.
    + erewrite run_bind; [|apply run_stmt; rewrite /= lookup_insert_eq /= Hbi /=].
      2:{ rewrite -/(hasRoom caps c) Er /updateCred /= -/(bump c) -/(reserve (fileBytes caps) (bump c)) Hrs. reflexivity. }
      simpl. erewrite run_bind; [|apply run_stmt; rewrite /= Hid Hr].
      2:{ assert (0 <? fileBytes caps = true) as -> by (destruct Hcaps; rewrite /fileBytes; lia). reflexivity. }
      by rewrite /admitDb /= insert_insert_eq Hg.
    + erewrite run_bind; [|apply run_stmt; rewrite /= lookup_insert_eq /= Hbi /= -/(hasRoom caps c) Er //].
      simpl. erewrite run_bind; [|apply run_query; rewrite /= lookup_insert_eq //]. done.
  - erewrite run_bind; [|apply run_stmt; rewrite Hc Ea //]. done.
Qed.

Lemma counters_ok db run c : Inv db → creds db !! run = Some c → countersOk c = true.
Proof.
  intros HI Hc. pose proof (counters_range db HI run c Hc) as Hr.
  rewrite /maxFile /maxAttempts in Hr. rewrite /countersOk /counterOk /maxBigint. lia.
Qed.

Lemma release_run db p : Inv db →
  release p db = Ok (total (λ r, if selected p r then 1 else 0) (reservations db), releaseDb p db).
Proof.
  intros HI. rewrite /release.
  assert (forallb (λ '(_, c), countersOk c)
    (map_to_list (map_imap (λ run c, Some (releaseCred p (reservations db) run c)) (creds db))) = true) as ->; [|done].
  apply forallb_forall. intros [run c] Hin%list_elem_of_In%elem_of_map_to_list.
  by apply (counters_ok (releaseDb p db) run c); [apply inv_releaseDb|].
Qed.

Lemma textOk_escape s max : 0 <= max → textOk max (Termsafe.EscapeBounded s max) = true.
Proof.
  intros Hm. destruct (Termsafe.EscapeBounded_spec s max) as (Hv & Hs & Hl & _).
  rewrite /textOk /pgText Hv /=. rewrite Z.max_r // in Hl.
  apply andb_true_intro. split; [|lia]. apply negb_true_iff, not_true_is_false.
  intros (r & Hr & <-%Z.eqb_eq)%existsb_exists. rewrite Forall_forall in Hs.
  apply list_elem_of_In, Hs in Hr. done.
Qed.

Lemma textOk_mono max max' s : max <= max' → textOk max s = true → textOk max' s = true.
Proof. rewrite /textOk. intros Hm [-> ?]%andb_prop. simpl. lia. Qed.

(** No log row the service writes is refused by the table. *)
Lemma logRow_ok run r n : validateComplete r = None → Bytes r <= n → n <= maxFile → fetchOk (logRow run r) = true.
Proof.
  intros Hv Hb Hn.
  assert (((Verdict r =?s "allowed")%go || (Verdict r =?s "refused")%go) = true ∧
    ((SHA256 r =?s EmptyString)%go || sha256Hex (SHA256 r)) = true ∧
    0 <= HTTPStatus r <= 999 ∧ 0 <= Bytes r) as (V1 & V2 & V3 & V4).
  { revert Hv. rewrite /validateComplete /VerdictAllowed /VerdictRefused.
    destruct (Verdict r =?s "allowed")%go; [|destruct (Verdict r =?s "refused")%go; [|done]].
    - destruct (negb (Reason r =?s _)%go); [done|]. destruct (sha256Hex (SHA256 r)); [|done]. simpl.
      destruct (TrimSpace _ =?s _)%go; [done|].
      destruct ((HTTPStatus r <? 0) || (HTTPStatus r >? 999)) eqn:?; [done|].
      destruct (Bytes r <? 0) eqn:?; [done|]. intros _. rewrite orb_true_r. split_and!; lia.
    - destruct (negb (KnownReason _)); [done|]. destruct (SHA256 r =?s EmptyString)%go; [|done]. simpl.
      destruct (TrimSpace _ =?s _)%go; [done|].
      destruct ((HTTPStatus r <? 0) || (HTTPStatus r >? 999)) eqn:?; [done|].
      destruct (Bytes r <? 0) eqn:?; [done|]. intros _. split_and!; lia. }
  rewrite /fetchOk /logRow /= V1 V2.
  rewrite !(textOk_mono maxLoggedURL 8192) ?textOk_escape //.
  rewrite /counterOk /maxBigint. rewrite /maxFile in Hn. rewrite !andb_true_r !andb_true_l. lia.
Qed.

Lemma completeTx_run r db run c id rsv : Inv db → validateComplete r = None →
  reportOf db r run c id rsv → Bytes r <= res_bytes rsv →
  inTx (completeTx r id) [] db =
  (Ok tt, if fetches db !! id then db else logDb r run c id rsv db).
Proof.
  intros HI Hv Hro Hb. pose proof Hro as [Hc Hh Hid Hrun Hg].
  pose proof (findCred_unique _ _ _ _ HI Hc Hh) as Hf. destruct (i_bound _ HI _ _ Hc) as (r0 & Hr0 & _).
  destruct (i_res _ HI _ _ Hid) as [_ Hbytes].
  rewrite run_inTx /completeTx.
  erewrite run_bind; [|apply run_query; by rewrite Hf]. simpl.
  erewrite run_bind; [|apply run_query; by rewrite Hid /= bool_decide_eq_true_2].
  cbv beta iota. rewrite Hg Z.eqb_refl. cbn [negb]. erewrite run_bind; [|by apply run_query].
  destruct (fetches db !! id) as [f|] eqn:Hl; [by rewrite bool_decide_eq_true_2|].
  rewrite bool_decide_eq_false_2; [by intros [? ?]|]. assert (Bytes r >? res_bytes rsv = false) as -> by lia.
  pose proof (inv_report _ _ _ _ _ _ HI Hv Hro Hl Hb) as HI'.
  assert (countersOk (reconcile (if settled rsv then 0 else res_bytes rsv) (if settled rsv then 0 else 1)
            (Bytes r) (refundOf r) c) = true) as Hcok.
  { apply (counters_ok _ run _ HI'). apply lookup_insert_eq. }
  pose proof (logRow_ok run r (res_bytes rsv) Hv Hb (proj2 Hbytes)) as Hfok.
  assert (∀ m rb ri, m = <[id := settle rsv]> (reservations db) →
    rb = (if settled rsv then 0 else res_bytes rsv) → ri = (if settled rsv then 0 else 1) →
    (_ ← ReconcileFetchCounters run rb ri (Bytes r) (refundOf r);
         _ ← InsertRunFetch id (logRow run r); Commit) (mkTX db (set_reservations db m) []) =
    (Ok tt, mkTX (logDb r run c id rsv db) (logDb r run c id rsv db) [])) as Hrest.
  { intros m rb ri -> -> ->.
    erewrite run_bind; [|apply run_stmt; rewrite /= Hc /updateCred /= -/(reconcile _ _ _ _ c) Hcok //].
    erewrite run_bind; [|apply run_stmt; rewrite /= Hl Hr0 Hfok //]. done. }
  destruct (settled rsv) eqn:Es.
  - erewrite run_bind; [|done]. rewrite -/(refundOf r).
    replace (mkTX db db []) with (mkTX db (set_reservations db (reservations db)) []) by by destruct db.
    rewrite Hrest //. by rewrite settled_settle // insert_id.
  - erewrite run_bind; [|erewrite run_bind; [|by apply run_stmt]; reflexivity].
    change (if (Verdict r =?s VerdictRefused)%go then 1 else 0) with (refundOf r).
    cbv beta iota zeta. rewrite (Hrest (alter settle id (reservations db))) //. by apply alter_insert.
Qed.

(** * Properties *)

(** C21. Whatever calls are made in whatever order and whatever statements and
    commits the database fails, the counters of every run are the sums over its
    rows: reserved bytes and slots over its open reservations, used bytes over
    its log, files over its admitted attempts that were not reported refused,
    and no more reservations than attempts. *)
Theorem fetch_accounting okc db0 db rel :
  initial db0 → rtc (step okc) (db0, ∅) (db, rel) → Inv db.
Proof.
  intros Hi Hs. assert (Inv (db0, ∅ : gset uuid).1) as H1 by by apply inv_initial.
  revert H1. remember (db0, ∅) as s eqn:E. clear E Hi. intros HI.
  change (Inv (db, rel).1). induction Hs as [|s1 s2 s3 H12 _ IH]; [done|]. apply IH. by eapply fetch_inv_step.
Qed.

(** C22. Under fixed caps no run goes over them: attempts, files in use and
    concurrent fetches stay within their caps, and so do the reserved and used
    bytes up to the bytes of reports that arrived after the stale sweep or a new
    claim had released their reservation. *)
Theorem fetch_caps caps db0 db rel run c :
  initial db0 → rtc (step (λ cache, (readCaps cache).1 = caps)) (db0, ∅) (db, rel) →
  capsOk caps → creds db !! run = Some c → withinCaps caps (lateUsed rel run db) c.
Proof.
  intros Hi Hs Hcaps. assert (Inv db ∧ Capped caps (db, rel)) as [_ Hk]; [|apply Hk].
  assert (Inv (db0, ∅ : gset uuid).1 ∧ Capped caps (db0, ∅)) as H1.
  { split; [by apply inv_initial|]. destruct Hi as (E1 & E2 & E3).
    split; simpl; intros *; by rewrite ?E1 ?E2 lookup_empty. }
  revert H1. clear Hi. change (Inv db) with (Inv (db, rel).1).
  induction Hs as [|s1 s2 s3 H12 _ IH]; [done|]. intros [HI Hk]. apply IH.
  split; [by eapply fetch_inv_step|by eapply capped_step].
Qed.

(** A call of [Begin] with the credential of the current claim of a running
    run is decided by the caps alone: admitted with the run's snapshot and one
    reservation exactly when every total has room, refused with the cap that has
    none otherwise, the attempt counted except when the attempts are used up. *)
Theorem Begin_correct cache caps credential id now db run c r snap :
  Inv db → readCaps cache = (caps, false) → credential ≠ EmptyString →
  liveCred db credential run c r → ParseSnapshot (r_egress_snapshot r) = Ok snap →
  reservations db !! id = None →
  Begin cache credential id now [] db = beginSpec caps run c snap.2 id now db ∧
  (hasRoom caps c = false →
   (refusalReason c caps = AdmissionConcurrency ∧ MaxConcurrentPerRun caps <= inflight c) ∨
   (refusalReason c caps = AdmissionRunFiles ∧ MaxRunFiles caps <= files c) ∨
   (refusalReason c caps = AdmissionRunBytes ∧
    MaxRunBytes caps < reserved_bytes c + used_bytes c + fileBytes caps)).
Proof.
  intros HI Hcaps Hne Hl Hs Hid. split.
  - rewrite /Begin Hcaps. apply String.eqb_neq in Hne as ->.
    apply beginTx_run with (r := r); try done.
    replace caps with (readCaps cache).1 by by rewrite Hcaps. apply readCaps_ok.
  - rewrite /hasRoom /refusalReason. intros Hr.
    destruct (inflight c >=? MaxConcurrentPerRun caps) eqn:E1; [left; split; [done|lia]|].
    destruct (files c >=? MaxRunFiles caps) eqn:E2; [right; left; split; [done|lia]|].
    right; right. split; [done|lia].
Qed.

(** C23. Whatever the database fails, [Begin] admits only a credential that is
    not revoked and was minted under the current claim of a run that is running
    and bound to a profile, and hands out the run's own snapshot. *)
Theorem Begin_safe cache credential id now fs db adm db' :
  Inv db → Begin cache credential id now fs db = (Ok adm, db') →
  ∃ run c r snap, liveCred db credential run c r ∧ is_Some (r_egress_profile_id r) ∧
    ParseSnapshot (r_egress_snapshot r) = Ok snap ∧ adm_Entries adm = snap.2 ∧
    1 <= adm_MaxBytes adm <= MaxRunBytes (readCaps cache).1 ∧
    hasRoom (readCaps cache).1 c = true ∧ db' = admitDb (readCaps cache).1 run c id now db.
Proof.
  intros HI Hb. pose proof (Begin_out cache credential id now fs db) as Ho. rewrite Hb in Ho. cbn [fst snd] in Ho.
  pose proof (readCaps_ok cache) as [? ? _ _ _].
  inversion Ho as [| |run c r snap res Hl Ha Hr Hid Hs [Hadm|?]]; subst; [|done].
  assert (adm = mkAdmission id snap.2 (fileBytes (readCaps cache).1)) as -> by by injection Hadm.
  exists run, c, r, snap. destruct (i_bound _ HI _ _ (lc_cred _ _ _ _ _ Hl)) as (r' & Hr' & Hp & _).
  assert (r' = r) as -> by (rewrite (lc_run _ _ _ _ _ Hl) in Hr'; congruence).
  split_and!; try done; cbn [adm_MaxBytes]; rewrite /fileBytes; lia.
Qed.

(** C24. A report counts once: the call may fail at any statement or lose the
    answer to its commit, and repeating it until it succeeds leaves exactly one
    log row and one settlement.  No column check of the tables ever refuses a
    well-formed report. *)
Theorem Complete_once r db run c id rsv fs :
  Inv db → validateComplete r = None → Credential r ≠ EmptyString →
  parseUUID (ReservationID r) = Some id → reportOf db r run c id rsv →
  fetches db !! id = None → Bytes r <= res_bytes rsv →
  let '(res, db1) := Complete r fs db in
  (db1 = db ∨ db1 = logDb r run c id rsv db) ∧
  (res = Ok tt → db1 = logDb r run c id rsv db) ∧
  Complete r [] db1 = (Ok tt, logDb r run c id rsv db).
Proof.
  intros HI Hv Hcr Hp Hro Hnl Hb.
  assert (∀ d, Inv d → ∀ c' rsv', reportOf d r run c' id rsv' → Bytes r <= res_bytes rsv' →
    Complete r [] d = (Ok tt, if fetches d !! id then d else logDb r run c' id rsv' d)) as Hrun.
  { intros d HId c' rsv' Hro' Hb'. rewrite /Complete Hv Hp. apply String.eqb_neq in Hcr as ->.
    by apply completeTx_run. }
  assert (Complete r [] (logDb r run c id rsv db) = (Ok tt, logDb r run c id rsv db)) as Hagain.
  { rewrite (Hrun _ (inv_report _ _ _ _ _ _ HI Hv Hro Hnl Hb)
      (reconcile (if settled rsv then 0 else res_bytes rsv) (if settled rsv then 0 else 1) (Bytes r) (refundOf r) c)
      (settle rsv)) //.
    - destruct Hro. split; simpl; try done; apply lookup_insert_eq.
    - by rewrite /= lookup_insert_eq. }
  destruct (Complete r fs db) as [res db1] eqn:Ec.
  destruct (Complete_out r fs db) as [[e He]|(id' & Hid' & _ & Ho)].
  - rewrite He in Ec. injection Ec as <- <-. split_and!; [by left|done|]. rewrite (Hrun db HI c rsv) // Hnl //.
  - rewrite Ec in Ho. simpl in Ho. assert (id' = id) as -> by congruence.
    clear Ec. destruct Ho as [e|run' c' rsv' _ [f Hf]|run' c' rsv' res' Hro' _ _ Hres].
    + split_and!; [by left|done|]. rewrite (Hrun db HI c rsv) // Hnl //.
    + congruence.
    + destruct Hro as [Hc Hh Hres1 <- Hg], Hro' as [Hc' Hh' Hres2 <- Hg'].
      assert (rsv' = rsv) as -> by congruence. assert (c' = c) as -> by congruence.
      split_and!; auto.
Qed.

(** A successful claim cuts off the run's earlier credential: from then on
    it admits nothing and reports nothing, whatever the database fails; the open
    reservations of earlier claims are settled; and the site list handed out is
    the one the run was first claimed with. *)
Theorem claim_rotates run token fs db snap db' old :
  Inv db → isolateClaim run token fs db = (Ok snap, db') →
  HashCredential old ≠ HashCredential token →
  (∃ c, creds db !! cr_ID run = Some c ∧ token_hash c = HashCredential old) →
  (∀ cache id now fs', ∃ e, Begin cache old id now fs' db' = (Err e, db')) ∧
  (∀ r fs', Credential r = old → ∃ e, Complete r fs' db' = (Err e, db')) ∧
  (∀ id r, reservations db' !! id = Some r → res_run r = cr_ID run →
     res_claim_generation r < cr_ClaimGeneration run → settled r = true) ∧
  (∀ r, runs db !! cr_ID run = Some r → is_Some (r_egress_snapshot r) →
     ParseSnapshot (r_egress_snapshot r) = Ok snap).
Proof.
  intros HI Hok Hne (c0 & Hc0 & Hh0).
  pose proof (isolateClaim_out run token fs db) as Ho. rewrite Hok in Ho. simpl in Ho.
  inversion Ho as [|db1 r snap' n db'' res Hsn Hmi Hs Hrel [[= ->]|?]]; subst; [|done].
  assert (Inv db') as HI' by by eapply inv_claim.
  assert (creds db1 = creds db) as Ecr by by destruct Hsn.
  apply release_Ok in Hrel as ->. set (db2 := mintDb _ _ _ db1) in HI' |- *.
  assert (∀ run2 c2, creds (releaseDb (priorOf run) db2) !! run2 = Some c2 → token_hash c2 ≠ HashCredential old) as Hno.
  { intros run2 c2. simpl. rewrite map_lookup_imap. destruct (decide (run2 = cr_ID run)) as [->|Hr2].
    - rewrite lookup_insert_eq /=. intros [= <-]. simpl. congruence.
    - rewrite lookup_insert_ne // Ecr. destruct (creds db !! run2) as [c1|] eqn:Hc1; [|done].
      intros [= <-] Hh1. simpl in Hh1. destruct Hr2. apply (i_hash _ HI _ _ _ _ Hc1 Hc0). congruence. }
  split_and!.
  - intros cache id now fs'. pose proof (Begin_out cache old id now fs' (releaseDb (priorOf run) db2)) as Hb.
    destruct (Begin cache old id now fs' _) as [res d]. simpl in Hb.
    inversion Hb as [e|? ? ? ? [Hc Hh]|? ? ? ? ? [Hc Hh]]; subst; [eauto|by destruct (Hno _ _ Hc)..].
  - intros r2 fs' <-. destruct (Complete_out r2 fs' (releaseDb (priorOf run) db2)) as [He|(id & _ & _ & Hb)]; [done|].
    destruct (Complete r2 fs' _) as [res d]. simpl in Hb.
    inversion Hb as [e|? ? ? [Hc Hh]|? ? ? ? [Hc Hh]]; subst; [eauto|by destruct (Hno _ _ Hc)..].
  - intros id r2. simpl. intros (r0 & <- & _)%lookup_fmap_Some.
    destruct (settleWhere_same (priorOf run) r0) as (-> & _ & Hst). intros Hrun Hg. rewrite /settleWhere in Hg |- *.
    rewrite /selected /priorOf bool_decide_eq_true_2 // in Hg |- *.
    destruct (settled r0) eqn:Es; simpl in *; [done|].
    by destruct (res_claim_generation r0 <? cr_ClaimGeneration run) eqn:E; [|lia].
  - intros r2 Hr2 [v Hv]. destruct Hmi as [Hr _ _ _ _]. rewrite -Hs. f_equal.
    destruct Hsn as [|p]; [congruence|]. simpl in Hr. rewrite lookup_alter_eq Hr2 /= in Hr.
    injection Hr as <-. by rewrite /snapshotOnce Hv.
Qed.

Lemma staleRuns_elem db cutoff run c r id : Inv db → creds db !! run = Some c →
  reservations db !! id = Some r → res_run r = run → settled r = false → stale cutoff r = true →
  run ∈ List.filter
    (λ run, existsb (λ '(_, r), givesBack (stale cutoff) run r) (map_to_list (reservations db)))
    (map_to_list (creds db)).*1.
Proof.
  intros HI Hc Hr Hrun Hs Hst. apply list_elem_of_In, filter_In. split.
  - apply list_elem_of_In, list_elem_of_fmap. exists (run, c). split; [done|]. by apply elem_of_map_to_list.
  - apply existsb_exists. exists (id, r). split; [by apply list_elem_of_In, elem_of_map_to_list|].
    by rewrite /givesBack /selected Hs Hst bool_decide_eq_true_2.
Qed.

(** What a sweep without faults leaves. *)
Lemma SweepStale_run now db : Inv db → ∃ n db', SweepStale now [] db = (Ok n, db') ∧
  (db' = db ∨ ∃ p, db' = releaseDb p db) ∧
  ∀ id r, reservations db' !! id = Some r → settled r = false →
    stale (now - StaleReservationAge) r = false ∧ reservations db !! id = Some r.
Proof.
  intros HI. set (cutoff := now - StaleReservationAge).
  set (ids := List.filter
    (λ run, existsb (λ '(_, r), givesBack (stale cutoff) run r) (map_to_list (reservations db)))
    (map_to_list (creds db)).*1).
  assert (∀ id r, reservations db !! id = Some r → settled r = false → stale cutoff r = true → res_run r ∈ ids) as Hids.
  { intros id r Hr Hs Hst. destruct (i_res _ HI _ _ Hr) as [[c Hc] _]. by eapply staleRuns_elem. }
  rewrite /SweepStale run_inTx /sweepTx. erewrite run_bind; [|by apply run_query].
  fold cutoff. fold ids. destruct (length ids =? 0)%nat eqn:El.
  - exists 0, db. split_and!; [done|by left|]. intros id r Hr Hs. split; [|done].
    apply not_true_is_false. intros Hst. pose proof (Hids id r Hr Hs Hst) as Hin.
    apply Nat.eqb_eq, length_zero_iff_nil in El. by rewrite El in Hin; apply elem_of_nil in Hin.
  - set (p := λ r, stale cutoff r && bool_decide (res_run r ∈ ids)).
    erewrite run_bind; [|apply run_stmt; by apply (release_run db p)].
    eexists _, (releaseDb p db). split_and!; [done|by eauto|]. simpl.
    intros id r (r0 & <- & Hr0)%lookup_fmap_Some. rewrite /settleWhere /selected /p.
    destruct (settled r0) eqn:Es; [by rewrite /= Es|]. simpl.
    destruct (stale cutoff r0) eqn:Est; simpl; [|done].
    rewrite bool_decide_eq_true_2; [by eapply Hids|done].
Qed.

(** C38. The sweep gives everything back: after one sweep that meets no fault no
    reservation older than the limit is open, and a run whose open reservations
    were all that old has its bytes and slots back, so that its next fetch is
    not refused for them. *)
Theorem sweep_frees now db : Inv db →
  ∃ n db', SweepStale now [] db = (Ok n, db') ∧
  (∀ id r, reservations db' !! id = Some r → settled r = false →
     now - StaleReservationAge <= created_at r) ∧
  (∀ run c, creds db' !! run = Some c →
     (∀ id r, reservations db !! id = Some r → res_run r = run → settled r = false →
        created_at r < now - StaleReservationAge) →
     reserved_bytes c = 0 ∧ inflight c = 0 ∧
     ∀ caps, capsOk caps → files c < MaxRunFiles caps →
       used_bytes c + fileBytes caps <= MaxRunBytes caps → hasRoom caps c = true).
Proof.
  intros HI. destruct (SweepStale_run now db HI) as (n & db' & Hrun & Hdb & Hopen).
  exists n, db'. split_and!; [done| |].
  - intros id r Hr Hs. destruct (Hopen id r Hr Hs) as [Hst _]. rewrite /stale in Hst. lia.
  - intros run c Hc Hold.
    assert (Inv db') as HI' by (destruct Hdb as [->|[p ->]]; [done|by apply inv_releaseDb]).
    assert (∀ id r, reservations db' !! id = Some r → isOpen run r = false) as Hno.
    { intros id r Hr. rewrite /isOpen. destruct (settled r) eqn:Es; [done|]. simpl.
      apply bool_decide_eq_false. intros Hrun'. destruct (Hopen id r Hr Es) as [Hst Hr'].
      specialize (Hold id r Hr' Hrun' Es). rewrite /stale in Hst. lia. }
    assert (reserved_bytes c = 0 ∧ inflight c = 0) as [Er Ei].
    { destruct (i_counters _ HI' _ _ Hc) as [-> -> _ _ _].
      split; apply total_zero; intros k x Hx; by rewrite /openCount /openBytes (Hno k x Hx). }
    split_and!; [done..|]. intros caps [] Hf Hu. rewrite /hasRoom Er Ei. lia.
Qed.

End Changes.

(** * An example *)
Module Example.

#[local] Instance exampleLib : FetchLib := {|
  FetchCtl.sha256 s := s;
  FetchCtl.parseUUID s := if (s =?s "r7")%go then Some (Uuid.mk 7) else None;
|}.
#[local] Existing Instance EgressProfile.exampleRules.

Definition u1 : uuid := Uuid.mk 1.
Definition p1 : uuid := Uuid.mk 2.
Definition r7 : uuid := Uuid.mk 7.
Definition cache0 : Cache := mkCache ∅ (Some ∅).
Definition caps0 : FetchCaps := (readCaps cache0).1.

(** A run bound to a profile, claimed for the first time. *)
Definition db0 : DB :=
  mkDB {[u1 := mkRun "running" 1 (Some p1) None]}
    {[p1 := mkProfile "docs" ["Docs.Example.com"] []]} ∅ ∅ ∅.
Definition claim1 : ClaimedRun := mkClaimed u1 1 p1 None.
Definition db1 : DB := (isolateClaim claim1 "uzf_a" [] db0).2.
Definition db2 : DB := (Begin cache0 "uzf_a" r7 1000 [] db1).2.

(** The same run, claimed again. *)
Definition db3 : DB := updateRun u1 "claimed" 2 db1.
Definition claim2 : ClaimedRun := mkClaimed u1 2 p1 None.

Lemma inv_db0 : Inv db0.
Proof. by apply inv_initial. Qed.
Lemma inv_db1 : Inv db1.
Proof. eapply inv_claim; [apply inv_db0|apply isolateClaim_out]. Qed.
Lemma inv_db2 : Inv db2.
Proof. eapply inv_begin; [apply inv_db1|apply (readCaps_ok cache0)|apply Begin_out]. Qed.

Definition cred1 : Cred := mkCred "uzf_a" 1 false 0 0 0 0 0.
Definition cred2 : Cred := mkCred "uzf_a" 1 false 26214400 0 1 1 1.
Definition run1 : Run := mkRun "running" 1 (Some p1) (Some (marshalSnapshot "docs" ["docs.example.com"])).
Definition rsv7 : Reservation := mkReservation u1 1 26214400 1000 false.

Lemma live1 : liveCred db1 "uzf_a" u1 cred1 run1.
Proof. split; try reflexivity; vm_compute; reflexivity. Qed.

Definition report : CompleteRequest :=
  mkComplete "uzf_a" "r7" "https://docs.example.com/" "https://docs.example.com/" "allowed" "" 200 "text/html" 12
    "0123456789abcdef0123456789abcdef0123456789abcdef0123456789abcdef" 1001 1002.

Lemma report_of : reportOf db2 report u1 cred2 r7 rsv7.
Proof. split; try reflexivity; vm_compute; reflexivity. Qed.

Lemma fetch_accounting_witness : Inv db1.
Proof.
  apply (fetch_accounting (λ _, True) db0 db1 (∅ ∪ newlySettled db0 db1)); [done|].
  apply rtc_once. exact (step_claim _ claim1 "uzf_a" [] db0 ∅).
Defined.

Lemma fetch_caps_witness : withinCaps caps0 (lateUsed (reused db1 r7 (∅ ∪ newlySettled db0 db1)) u1 db2) cred2.
Proof.
  apply (fetch_caps caps0 db0 db2 (reused db1 r7 (∅ ∪ newlySettled db0 db1)) u1 cred2); [done| |apply readCaps_ok|].
  - eapply rtc_l; [exact (step_claim _ claim1 "uzf_a" [] db0 ∅)|].
    apply rtc_once. exact (step_begin (λ cache, (readCaps cache).1 = caps0) cache0 "uzf_a" r7 1000 [] db1 _ eq_refl).
  - vm_compute. reflexivity.
Defined.

Lemma Begin_correct_witness :
  Begin cache0 "uzf_a" r7 1000 [] db1 =
  (Ok (mkAdmission r7 ["docs.example.com"] 26214400), admitDb caps0 u1 cred1 r7 1000 db1).
Proof.
  apply (Begin_correct cache0 caps0 "uzf_a" r7 1000 db1 u1 cred1 run1 ("docs", ["docs.example.com"])).
  - apply inv_db1.
  - vm_compute. reflexivity.
  - done.
  - apply live1.
  - vm_compute. reflexivity.
  - vm_compute. reflexivity.
Defined.

Lemma Begin_safe_witness :
  ∃ run c r snap, liveCred db1 "uzf_a" run c r ∧ is_Some (r_egress_profile_id r) ∧
    ParseSnapshot (r_egress_snapshot r) = Ok snap ∧ ["docs.example.com"] = snap.2 ∧
    1 <= 26214400 <= MaxRunBytes caps0 ∧ hasRoom caps0 c = true ∧ db2 = admitDb caps0 run c r7 1000 db1.
Proof.
  apply (Begin_safe cache0 "uzf_a" r7 1000 [] db1 (mkAdmission r7 ["docs.example.com"] 26214400) db2).
  - apply inv_db1.
  - vm_compute. reflexivity.
Defined.

(** The answer to the commit is lost; the report is repeated. *)
Definition lostCommit : list fault :=
  [NoFault; NoFault; NoFault; NoFault; NoFault; NoFault; NoFault; CommitLost].

Lemma Complete_once_witness :
  (Complete report lostCommit db2).1 = Err ErrDB ∧
  Complete report [] (Complete report lostCommit db2).2 = (Ok tt, logDb report u1 cred2 r7 rsv7 db2).
Proof.
  split; [vm_compute; reflexivity|].
  pose proof (Complete_once report db2 u1 cred2 r7 rsv7 lostCommit inv_db2) as Hc.
  destruct (Complete report lostCommit db2) as [res d]. apply Hc.
  - vm_compute. reflexivity.
  - done.
  - reflexivity.
  - apply report_of.
  - vm_compute. reflexivity.
  - vm_compute. discriminate.
Defined.

Lemma claim_rotates_witness :
  ∃ e, Begin cache0 "uzf_a" r7 2000 [CommitLost] (isolateClaim claim2 "uzf_b" [] db3).2 =
    (Err e, (isolateClaim claim2 "uzf_b" [] db3).2).
Proof.
  eapply (proj1 (claim_rotates claim2 "uzf_b" [] db3 ("docs", ["docs.example.com"]) _ "uzf_a" _ _ _ _)).
  Unshelve.
  - apply inv_updateRun, inv_db1.
  - vm_compute. reflexivity.
  - done.
  - exists cred1. split; vm_compute; reflexivity.
Defined.

Lemma sweep_frees_witness :
  ∃ n db', SweepStale (1000 + 11 * Go.Minute) [] db2 = (Ok n, db') ∧
    (∀ id r, reservations db' !! id = Some r → settled r = false →
       1000 + 11 * Go.Minute - StaleReservationAge <= created_at r).
Proof.
  destruct (sweep_frees (1000 + 11 * Go.Minute) db2 inv_db2) as (n & db' & H1 & H2 & _). eauto.
Defined.

End Example.

End FetchInv.
