(* ===== verification/AddrPolicy.v ===== *)
(** The address policy of the fetcher
    ([src/api/internal/fetcher/addrpolicy.go]): which addresses may be dialed,
    whatever the site list says. *)

From Stdlib Require Import Ascii.
From S2P Require Import Prelude Result GoText GoStrings GoSearch NetIP.

Local Open Scope Z_scope.

Module AddrPolicy.
Import GoStrings NetIP.

(** [netip.MustParsePrefix]; every literal of the file parses. *)
Definition mustPrefixes (ss : list string) : list Prefix := omap ParsePrefix ss.

Definition ipv6GlobalUnicast : Prefix := mkPrefix (Addr6 (Z.shiftl 0x2000 112) EmptyString) 3.

Definition blockedText : list string :=
  ["0.0.0.0/8"; "10.0.0.0/8"; "100.64.0.0/10"; "127.0.0.0/8"; "169.254.0.0/16"; "172.16.0.0/12";
   "192.0.0.0/24"; "192.0.2.0/24"; "192.88.99.0/24"; "192.168.0.0/16"; "198.18.0.0/15";
   "198.51.100.0/24"; "203.0.113.0/24"; "224.0.0.0/4"; "240.0.0.0/4";
   "::/96"; "::1/128"; "::ffff:0:0/96"; "64:ff9b::/96"; "64:ff9b:1::/48"; "100::/64"; "2001::/23";
   "2001:db8::/32"; "2002::/16"; "3fff::/20"; "5f00::/16"; "fc00::/7"; "fe80::/10"; "fec0::/10";
   "ff00::/8"].

Definition blockedPrefixes : list Prefix := mustPrefixes blockedText.

Record AddressPolicy := mkPolicy { extra : list Prefix }.

(** An IPv4-mapped prefix is stored as the IPv4 prefix it names. *)
Definition unmapPrefix (p : Prefix) : Prefix :=
  if Is4In6 (p_addr p) then mkPrefix (Unmap (p_addr p)) (p_bits p - 96) else p.

Fixpoint NewAddressPolicy_loop (raws : list string) (acc : list Prefix) : result string AddressPolicy :=
  match raws with
  | [] => Ok (mkPolicy acc)
  | raw :: raws' =>
    let s := TrimSpace raw in
    if (s =?s EmptyString)%go then NewAddressPolicy_loop raws' acc else
    match ParsePrefix s with
    | None => Err s
    | Some pfx => NewAddressPolicy_loop raws' (acc ++ [unmapPrefix (Masked pfx)])
    end
  end.
Definition NewAddressPolicy (extraCIDRs : list string) : result string AddressPolicy :=
  NewAddressPolicy_loop extraCIDRs [].

Definition Allowed (p : AddressPolicy) (a : Addr) : bool :=
  if negb (IsValid a) || negb (Zone a =?s EmptyString)%go then false else
  let a := Unmap a in
  if Is6 a && negb (Contains ipv6GlobalUnicast a) then false else
  if negb (IsGlobalUnicast a) || IsPrivate a then false else
  negb (existsb (λ pfx, Contains pfx a) blockedPrefixes)
  && negb (existsb (λ pfx, Contains pfx a) (extra p)).

(** * Prefixes as intervals *)
Definition inRange (v : Z) (r : Z * Z) : bool := (r.1 <=? v) && (v <=? r.2).

Lemma bitsAgree_div w b a p : 0 <= w - b →
  bitsAgree w b a p = (a / 2 ^ (w - b) =? p / 2 ^ (w - b)).
Proof.
  intros Hk. rewrite /bitsAgree Z.shiftr_lxor.
  rewrite -!Z.shiftr_div_pow2 //.
  destruct (Z.eqb_spec (Z.shiftr a (w - b)) (Z.shiftr p (w - b))) as [->|Hne].
  - by rewrite Z.lxor_nilpotent.
  - apply Z.eqb_neq. intros H%Z.lxor_eq. done.
Qed.

(** The block of [2 ^ k] addresses around a base. *)
Lemma block_range k p v : 0 <= k → p mod 2 ^ k = 0 →
  (v / 2 ^ k =? p / 2 ^ k) = inRange v (p, p + 2 ^ k - 1).
Proof.
  intros Hk Hp. assert (0 < 2 ^ k) as H2 by lia.
  pose proof (Z.div_mod v (2 ^ k)) as Hv. pose proof (Z.div_mod p (2 ^ k)) as Hpd.
  pose proof (Z.mod_pos_bound v (2 ^ k) H2) as Hb. rewrite /inRange /=.
  set (m := 2 ^ k) in *. set (q := v / m) in *. set (d := p / m) in *.
  specialize (Hv ltac:(lia)). specialize (Hpd ltac:(lia)). rewrite Hp Z.add_0_r in Hpd.
  apply eq_true_iff_eq. rewrite andb_true_iff Z.eqb_eq !Z.leb_le. split; [nia|].
  intros [H1 H2']. assert (m * q < m * (d + 1)) by lia. assert (m * d < m * (q + 1)) by lia. nia.
Qed.

Definition range (w base bits : Z) : Z * Z := (base, base + 2 ^ (w - bits) - 1).
Definition aligned (w base bits : Z) : bool :=
  (0 <=? w - bits) && (base mod 2 ^ (w - bits) =? 0).

Lemma bitsAgree_range w bits v base : aligned w base bits = true →
  bitsAgree w bits v base = inRange v (range w base bits).
Proof.
  intros [H1%Z.leb_le H2%Z.eqb_eq]%andb_prop. rewrite bitsAgree_div // block_range //.
Qed.

(** The ranges of a list of prefixes, by family. *)
Definition range4 (p : Prefix) : option (Z * Z) :=
  match p_addr p with Addr4 x => Some (range 32 x (p_bits p)) | _ => None end.
Definition range6 (p : Prefix) : option (Z * Z) :=
  match p_addr p with Addr6 x _ => Some (range 128 x (p_bits p)) | _ => None end.
Definition alignedPrefix (p : Prefix) : bool :=
  match p_addr p with
  | Addr4 x => aligned 32 x (p_bits p)
  | Addr6 x _ => aligned 128 x (p_bits p)
  | AddrZero => true
  end.

Lemma contains4 l v : forallb alignedPrefix l = true →
  existsb (λ pfx, Contains pfx (Addr4 v)) l = existsb (inRange v) (omap range4 l).
Proof.
  induction l as [|p l IH]; [done|]. simpl. intros [Hp Hl]%andb_prop. rewrite IH //.
  rewrite /Contains /range4 /alignedPrefix in Hp |- *. destruct (p_addr p); simpl; [done| |done].
  by rewrite bitsAgree_range.
Qed.

Lemma contains6 l v : forallb alignedPrefix l = true →
  existsb (λ pfx, Contains pfx (Addr6 v EmptyString)) l = existsb (inRange v) (omap range6 l).
Proof.
  induction l as [|p l IH]; [done|]. simpl. intros [Hp Hl]%andb_prop. rewrite IH //.
  rewrite /Contains /range6 /alignedPrefix in Hp |- *. destruct (p_addr p); simpl; [done|done|].
  by rewrite bitsAgree_range.
Qed.

(** * The addresses that may not be dialed, as intervals *)
Definition ip4 (a b c d : Z) : Z := ((a * 256 + b) * 256 + c) * 256 + d.

Definition reserved4 : list (Z * Z) :=
  [(ip4 0 0 0 0, ip4 0 255 255 255); (ip4 10 0 0 0, ip4 10 255 255 255);
   (ip4 100 64 0 0, ip4 100 127 255 255); (ip4 127 0 0 0, ip4 127 255 255 255);
   (ip4 169 254 0 0, ip4 169 254 255 255); (ip4 172 16 0 0, ip4 172 31 255 255);
   (ip4 192 0 0 0, ip4 192 0 0 255); (ip4 192 0 2 0, ip4 192 0 2 255);
   (ip4 192 88 99 0, ip4 192 88 99 255); (ip4 192 168 0 0, ip4 192 168 255 255);
   (ip4 198 18 0 0, ip4 198 19 255 255); (ip4 198 51 100 0, ip4 198 51 100 255);
   (ip4 203 0 113 0, ip4 203 0 113 255); (ip4 224 0 0 0, ip4 255 255 255 255)].

(** By the high 64 bits: global unicast is 2000::/3, less four blocks. *)
Definition hi6 (v : Z) : Z := v / 2 ^ 64.
Definition reserved6 : list (Z * Z) :=
  [(0x2001000000000000, 0x200101ffffffffff); (0x20010db800000000, 0x20010db8ffffffff);
   (0x2002000000000000, 0x2002ffffffffffff); (0x3fff000000000000, 0x3fff0fffffffffff)].

Definition publicAddr (a : Addr) : bool :=
  match a with
  | AddrZero => false
  | Addr4 v => negb (existsb (inRange v) reserved4)
  | Addr6 v _ =>
    inRange (hi6 v) (0x2000000000000000, 0x3fffffffffffffff) && negb (existsb (inRange (hi6 v)) reserved6)
  end.

Lemma blocked_aligned : forallb alignedPrefix blockedPrefixes = true.
Proof. vm_compute. reflexivity. Qed.

Lemma in4_range a b c d bits v : aligned 32 (ip4 a b c d) bits = true →
  in4 a b c d bits v = inRange v (range 32 (ip4 a b c d) bits).
Proof. apply bitsAgree_range. Qed.

(** The class checks are those of the blocked ranges. *)
Definition class4 (v : Z) : bool :=
  negb (v =? 0) && negb (v =? 0xffffffff) && negb (inRange v (range 32 (ip4 127 0 0 0) 8))
  && negb (inRange v (range 32 (ip4 224 0 0 0) 4)) && negb (inRange v (range 32 (ip4 169 254 0 0) 16))
  && negb (inRange v (range 32 (ip4 10 0 0 0) 8) || inRange v (range 32 (ip4 172 16 0 0) 12)
           || inRange v (range 32 (ip4 192 168 0 0) 16)).

Lemma class4_spec v : negb (negb (IsGlobalUnicast (Addr4 v)) || IsPrivate (Addr4 v)) = class4 v.
Proof.
  assert (IsPrivate (Addr4 v) = inRange v (range 32 (ip4 10 0 0 0) 8)
    || inRange v (range 32 (ip4 172 16 0 0) 12) || inRange v (range 32 (ip4 192 168 0 0) 16)) as ->.
  { unfold IsPrivate. rewrite !in4_range; [vm_compute; reflexivity..|done]. }
  assert (IsGlobalUnicast (Addr4 v) = negb (v =? 0) && negb (v =? 0xffffffff)
    && negb (inRange v (range 32 (ip4 127 0 0 0) 8)) && negb (inRange v (range 32 (ip4 224 0 0 0) 4))
    && negb (inRange v (range 32 (ip4 169 254 0 0) 16))) as ->.
  { unfold IsGlobalUnicast, Unmap, IsLoopback, IsMulticast, IsLinkLocalUnicast.
    rewrite !in4_range; [vm_compute; reflexivity..|done]. }
  unfold class4. by rewrite negb_orb negb_involutive.
Qed.

Lemma allowed4 v :
  class4 v && negb (existsb (inRange v) (omap range4 blockedPrefixes)) = publicAddr (Addr4 v).
Proof.
  assert (omap range4 blockedPrefixes =
    [(0, 16777215); (167772160, 184549375); (1681915904, 1686110207); (2130706432, 2147483647);
     (2851995648, 2852061183); (2886729728, 2887778303); (3221225472, 3221225727); (3221225984, 3221226239);
     (3227017984, 3227018239); (3232235520, 3232301055); (3323068416, 3323199487); (3325256704, 3325256959);
     (3405803776, 3405804031); (3758096384, 4026531839); (4026531840, 4294967295)]) as ->
    by (vm_compute; reflexivity).
  unfold publicAddr, reserved4, class4, ip4, existsb, inRange, range. cbn [fst snd].
  lia.
Qed.

Definition class6 (v : Z) : bool :=
  negb (v =? 0) && negb (v =? 1) && negb (inRange v (range 128 (Z.shiftl 0xff00 112) 8))
  && negb (inRange v (range 128 (Z.shiftl 0xfe80 112) 10)) && negb (inRange v (range 128 (Z.shiftl 0xfc00 112) 7)).

Lemma in6_range hi bits v : aligned 128 (Z.shiftl hi 112) bits = true →
  in6 hi bits v = inRange v (range 128 (Z.shiftl hi 112) bits).
Proof. apply bitsAgree_range. Qed.

Lemma class6_spec v : Is4In6 (Addr6 v EmptyString) = false →
  negb (negb (IsGlobalUnicast (Addr6 v EmptyString)) || IsPrivate (Addr6 v EmptyString)) = class6 v.
Proof.
  intros Hm.
  assert (IsPrivate (Addr6 v EmptyString) = inRange v (range 128 (Z.shiftl 0xfc00 112) 7)) as ->.
  { unfold IsPrivate. rewrite in6_range; [vm_compute; reflexivity|done]. }
  assert (IsGlobalUnicast (Addr6 v EmptyString) = negb (v =? 0) && negb (v =? 1)
    && negb (inRange v (range 128 (Z.shiftl 0xff00 112) 8))
    && negb (inRange v (range 128 (Z.shiftl 0xfe80 112) 10))) as ->.
  { unfold IsGlobalUnicast, Unmap. rewrite Hm. unfold IsLoopback, IsMulticast, IsLinkLocalUnicast.
    rewrite !in6_range; [vm_compute; reflexivity..|]. by rewrite andb_true_r. }
  unfold class6. by rewrite negb_orb negb_involutive.
Qed.

Lemma allowed6 v :
  inRange v (range 128 (Z.shiftl 0x2000 112) 3) && class6 v
  && negb (existsb (inRange v) (omap range6 blockedPrefixes)) = publicAddr (Addr6 v EmptyString).
Proof.
  set (l := omap range6 blockedPrefixes).
  assert (l = (λ '(b, bits), range 128 b bits) <$>
    [(0, 96); (1, 128); (0xffff00000000, 96); (Z.shiftl 0x64ff9b 96, 96); (Z.shiftl 0x64ff9b0001 80, 48);
     (Z.shiftl 0x100 112, 64); (Z.shiftl 0x2001 112, 23); (Z.shiftl 0x20010db8 96, 32); (Z.shiftl 0x2002 112, 16);
     (Z.shiftl 0x3fff 112, 20); (Z.shiftl 0x5f00 112, 16); (Z.shiftl 0xfc00 112, 7); (Z.shiftl 0xfe80 112, 10);
     (Z.shiftl 0xfec0 112, 10); (Z.shiftl 0xff00 112, 8)]) as -> by (vm_compute; reflexivity).
  unfold class6, publicAddr, reserved6, range, inRange, hi6. cbn [fmap list_fmap existsb fst snd].
  pose proof (Z.div_mod v (2 ^ 64)) as Hd. pose proof (Z.mod_pos_bound v (2 ^ 64)) as Hm.
  set (h := v / 2 ^ 64) in *. set (r := v mod 2 ^ 64) in *.
  specialize (Hd ltac:(done)). specialize (Hm ltac:(done)). clearbody h r. subst v.
  repeat match goal with |- context [Z.shiftl ?a ?b] =>
    let x := eval vm_compute in (Z.shiftl a b) in change (Z.shiftl a b) with x end.
  repeat match goal with |- context [2 ^ ?b] =>
    let x := eval vm_compute in (2 ^ b) in change (2 ^ b) with x end.
  change (2 ^ 64) with 18446744073709551616 in Hm. lia.
Qed.

Lemma guarded (c x y : bool) : (if c then false else x && y) = negb c && x && y.
Proof. by destruct c. Qed.

Lemma Allowed_spec p a :
  Allowed p a = (Zone a =?s EmptyString)%go && publicAddr (Unmap a)
                && negb (existsb (λ pfx, Contains pfx (Unmap a)) (extra p)).
Proof.
  unfold Allowed. destruct a as [|v|v z].
  - by rewrite andb_false_r.
  - cbn [IsValid Zone Unmap Is6 negb orb]. rewrite String.eqb_refl. cbn [negb andb].
    rewrite -allowed4 -contains4; [apply blocked_aligned|]. rewrite -class4_spec. apply guarded.
  - cbn [IsValid Zone negb orb]. destruct (String.eqb_spec z EmptyString) as [->|]; [|done]. cbn [negb andb].
    unfold Unmap. destruct (Is4In6 (Addr6 v EmptyString)) eqn:Em; cbn [Is6 andb].
    + rewrite -allowed4 -contains4; [apply blocked_aligned|]. rewrite -class4_spec. apply guarded.
    + rewrite -allowed6 -contains6; [apply blocked_aligned|]. rewrite -class6_spec //.
      assert (Contains ipv6GlobalUnicast (Addr6 v EmptyString) = inRange v (range 128 (Z.shiftl 0x2000 112) 3)) as ->.
      { unfold Contains, ipv6GlobalUnicast. cbn [p_addr p_bits]. rewrite String.eqb_refl.
        apply bitsAgree_range. vm_compute. reflexivity. }
      destruct (inRange v _); [|reflexivity]. cbn [negb andb]. apply guarded.
Qed.

(** The policy admits exactly the public addresses: an IPv4 address, mapped
    or not, outside the reserved blocks; an IPv6 address in 2000::/3 outside the
    blocks reserved there; none with a zone, and none in a range the cluster
    adds. *)
Theorem Allowed_correct p a :
  Allowed p a = (Zone a =?s EmptyString)%go && publicAddr (Unmap a)
                && negb (existsb (λ pfx, Contains pfx (Unmap a)) (extra p)).
Proof. exact (Allowed_spec p a). Qed.

(** * The ranges the cluster adds *)
Lemma NewAddressPolicy_elem raws acc p raw pfx :
  NewAddressPolicy_loop raws acc = Ok p → raw ∈ raws → TrimSpace raw ≠ EmptyString →
  ParsePrefix (TrimSpace raw) = Some pfx → unmapPrefix (Masked pfx) ∈ extra p.
Proof.
  assert (∀ raws acc p q, NewAddressPolicy_loop raws acc = Ok p → q ∈ acc → q ∈ extra p) as Hacc.
  { clear. induction raws as [|raw raws IH]; intros acc p q; simpl; [by intros [= <-]|].
    destruct (_ =?s _)%go; [apply IH|]. destruct (ParsePrefix _); [|done].
    intros Hp Hq. apply (IH _ _ _ Hp). set_solver. }
  revert acc. induction raws as [|raw' raws IH]; intros acc Hp Hin Hne Hpf; [by apply elem_of_nil in Hin|].
  simpl in Hp. apply elem_of_cons in Hin as [->|Hin].
  - apply String.eqb_neq in Hne. rewrite Hne Hpf in Hp. apply (Hacc _ _ _ _ Hp). set_solver.
  - destruct (_ =?s _)%go; [by eapply IH|]. destruct (ParsePrefix (TrimSpace raw')); [|done]. by eapply IH.
Qed.

Lemma agree_shiftr n v x : bitsAgree 128 (128 - n) v x = true → Z.shiftr v n = Z.shiftr x n.
Proof.
  unfold bitsAgree. replace (128 - (128 - n)) with n by lia.
  intros Hz%Z.eqb_eq. rewrite Z.shiftr_lxor in Hz. by apply Z.lxor_eq in Hz.
Qed.

Lemma clearLow_shiftr v n : 0 <= n → Z.shiftr (clearLow v n) n = Z.shiftr v n.
Proof. intros Hn. unfold clearLow. rewrite Z.shiftr_shiftl_l // Z.sub_diag. apply Z.shiftl_0_r. Qed.

Lemma clearLow_agree w b v x : 0 <= w - b → bitsAgree w b v (clearLow x (w - b)) = bitsAgree w b v x.
Proof. intros Hn. unfold bitsAgree. by rewrite !Z.shiftr_lxor clearLow_shiftr. Qed.

(** A masked prefix that is still IPv4-mapped is at least a /96. *)
Lemma mapped_long x n : 0 <= n → Z.shiftr (clearLow x n) 32 = 0xffff → n <= 32.
Proof.
  intros Hn Hx. destruct (Z.le_gt_cases n 32) as [|Hgt]; [done|]. exfalso.
  assert (Z.testbit (Z.shiftr (clearLow x n) 32) 0 = false) as Hb; [|by rewrite Hx in Hb].
  unfold clearLow. rewrite Z.shiftr_spec // Z.shiftl_spec; [lia|]. apply Z.testbit_neg_r. lia.
Qed.

Lemma shiftr_le v n : 0 <= n <= 32 → Z.shiftr v 32 = Z.shiftr (Z.shiftr v n) (32 - n).
Proof. intros Hn. rewrite Z.shiftr_shiftr; [lia|]. f_equal. lia. Qed.

Lemma low_agree n v x : 0 <= n <= 32 → Z.shiftr v n = Z.shiftr x n →
  bitsAgree 32 (32 - n) (Z.land v 0xffffffff) (Z.land x 0xffffffff) = true.
Proof.
  intros Hn He. unfold bitsAgree. replace (32 - (32 - n)) with n by lia. apply Z.eqb_eq.
  by rewrite Z.shiftr_lxor !Z.shiftr_land He Z.lxor_nilpotent.
Qed.

Definition prefixOk (p : Prefix) : Prop :=
  match p_addr p with
  | AddrZero => False
  | Addr4 _ => 0 <= p_bits p <= 32
  | Addr6 _ _ => 0 <= p_bits p <= 128
  end.

Lemma ParsePrefix_ok s p : ParsePrefix s = Some p → prefixOk p ∨ p_addr p = AddrZero.
Proof.
  unfold ParsePrefix. destruct (GoSearch.LastIndexByte s "/") as [i|]; [|done]. simpl.
  destruct (ParseAddr (stake i s)) as [a|]; [|done]. simpl. destruct (negb (Zone a =?s EmptyString)%go); [done|].
  match goal with |- (if ?b then _ else _) = _ → _ => destruct b end; [done|].
  destruct (Atoi _) as [n|]; [|done]. simpl.
  destruct (_ && _) eqn:E; [|done]. intros [= <-]. unfold prefixOk. simpl.
  destruct a; simpl in *; [by right|left; lia..].
Qed.

Lemma Contains_unmap4 x bits v : 0 <= bits <= 32 → Contains (mkPrefix (Addr4 x) bits) (Addr4 v) = true →
  Contains (unmapPrefix (Masked (mkPrefix (Addr4 x) bits))) (Addr4 v) = true.
Proof.
  intros Hb. unfold Contains, Masked, unmapPrefix. cbn [p_addr p_bits Is4In6].
  by rewrite clearLow_agree; [lia|].
Qed.

Lemma Contains_unmap6 x z bits v : 0 <= bits <= 128 →
  bitsAgree 128 bits v x = true →
  (Is4In6 (Addr6 v EmptyString) = true → Is4In6 (Addr6 (clearLow x (128 - bits)) EmptyString) = true) →
  Contains (unmapPrefix (Masked (mkPrefix (Addr6 x z) bits))) (Unmap (Addr6 v EmptyString)) = true.
Proof.
  intros Hb Hc Hm. unfold unmapPrefix, Masked. cbn [p_addr p_bits].
  assert (Z.shiftr v (128 - bits) = Z.shiftr x (128 - bits)) as Hsh.
  { apply agree_shiftr. by replace (128 - (128 - bits)) with bits by lia. }
  destruct (Is4In6 (Addr6 (clearLow x (128 - bits)) EmptyString)) eqn:Em.
  - unfold Is4In6 in Em. apply Z.eqb_eq in Em.
    pose proof (mapped_long x (128 - bits) ltac:(lia) Em) as Hl.
    assert (Z.shiftr v 32 = 0xffff) as Hv.
    { rewrite -Em !(shiftr_le _ (128 - bits)); [lia..|]. rewrite clearLow_shiftr; [lia|]. by rewrite Hsh. }
    unfold Unmap, Is4In6. rewrite Hv Em Z.eqb_refl. unfold Contains. cbn [p_addr p_bits].
    replace (bits - 96) with (32 - (128 - bits)) by lia.
    apply low_agree; [lia|]. rewrite clearLow_shiftr; [lia|done].
  - unfold Unmap. destruct (Is4In6 (Addr6 v EmptyString)); [by specialize (Hm eq_refl)|].
    unfold Contains. cbn [p_addr p_bits]. rewrite String.eqb_refl clearLow_agree //. lia.
Qed.

Lemma Contains_unmap pfx a : prefixOk pfx → Contains pfx a = true →
  (Is4In6 a = true → Is4In6 (p_addr (Masked pfx)) = true) →
  Contains (unmapPrefix (Masked pfx)) (Unmap a) = true.
Proof.
  destruct pfx as [[|x|x z] bits]; unfold prefixOk; cbn [p_addr p_bits]; [done| |]; intros Hb.
  - destruct a as [|v|v za]; try (intros Hc; discriminate Hc). intros Hc _. by apply Contains_unmap4.
  - destruct a as [|v|v za]; try (intros Hc; discriminate Hc).
    unfold Contains. cbn [p_addr p_bits]. intros [Hz%String.eqb_eq Hc]%andb_prop Hm. subst za.
    by apply Contains_unmap6.
Qed.

(** A range the cluster adds is refused in every form it can be reached: an
    address of the configured CIDR is never allowed, and an IPv4-mapped CIDR
    refuses the IPv4 addresses it names as well. *)
Theorem extra_refused raws p raw pfx a :
  NewAddressPolicy raws = Ok p → raw ∈ raws → TrimSpace raw ≠ EmptyString →
  ParsePrefix (TrimSpace raw) = Some pfx → Contains pfx a = true →
  (Is4In6 a = true → Is4In6 (p_addr (Masked pfx)) = true) →
  Allowed p a = false ∧ Allowed p (Unmap a) = false.
Proof.
  intros Hp Hin Hne Hpf Hc Hm.
  assert (prefixOk pfx) as Hok.
  { destruct (ParsePrefix_ok _ _ Hpf) as [|Hz]; [done|]. unfold Contains in Hc. by rewrite Hz in Hc. }
  assert (existsb (λ q, Contains q (Unmap a)) (extra p) = true) as Hex.
  { apply existsb_exists. exists (unmapPrefix (Masked pfx)). split.
    - by apply list_elem_of_In, (NewAddressPolicy_elem raws [] p raw).
    - by apply Contains_unmap. }
  assert (Unmap (Unmap a) = Unmap a) as Hu.
  { unfold Unmap. destruct a as [| |v z]; [done..|]. by destruct (Is4In6 (Addr6 v z)) eqn:E; [|rewrite E]. }
  rewrite !Allowed_spec Hu Hex. by rewrite !andb_false_r.
Qed.

Lemma extra_refused_witness :
  Allowed (mkPolicy [mkPrefix (v4 8 8 0 0) 16]) (Addr6 0xffff08080808 "") = false ∧
  Allowed (mkPolicy [mkPrefix (v4 8 8 0 0) 16]) (v4 8 8 8 8) = false.
Proof.
  apply (extra_refused [" ::ffff:8.8.0.0/112 "] (mkPolicy [mkPrefix (v4 8 8 0 0) 16]) " ::ffff:8.8.0.0/112 "
    (mkPrefix (Addr6 0xffff08080000 "") 112) (Addr6 0xffff08080808 "")).
  - vm_compute. reflexivity.
  - set_solver.
  - vm_compute. discriminate.
  - vm_compute. reflexivity.
  - vm_compute. reflexivity.
  - vm_compute. reflexivity.
Defined.

Example metadata_refused : Allowed (mkPolicy []) (v4 169 254 169 254) = false.
Proof. vm_compute. reflexivity. Qed.
Example public_allowed : Allowed (mkPolicy []) (v4 8 8 8 8) = true.
Proof. vm_compute. reflexivity. Qed.

End AddrPolicy.
