(* ===== verification/Fetcher.v ===== *)
(** The fetcher of isolated runs ([src/api/internal/fetcher]): the checks of
    every URL and address on the way, and the fetch with its redirects.

    The fetch is a program over what it asks of the network, of the site lists and
    of the clock; the handler around it is in [FetchServer].  Parsing and rendering
    of URLs and media types and the digest are parameters.  The texts of refusals
    and the logging are left out. *)

From Stdlib Require Import Ascii.
From S2P Require Import Prelude Result GoText GoStrings GoSearch GoJson Prog NetIP EgressProfile AddrPolicy.

Local Open Scope Z_scope.

(** [net/url]: the fields the code reads, of a parsed URL. *)
Record URL := mkURL {
  Scheme : string;
  HasUser : bool;
  Opaque : string;
  Host : string;
  Path : string;
  RawPath : string;
  RawQuery : string;
}.

(** [url.Parse], and the methods [String] and [Parse] of a URL;
    [mime.ParseMediaType] (the type and its charset parameter),
    [mime.FormatMediaType]; the hex digest of [crypto/sha256]. *)
Class WebLib := {
  urlParse : string → option URL;
  urlString : URL → string;
  urlResolve : URL → string → option URL;
  parseMediaType : string → option (string * string);
  formatMediaType : string → option string → string;
  sha256hex : string → string;
}.

Module Fetcher.
Import GoText GoStrings GoSearch GoJson.

Inductive Reason :=
  | ReasonBadRequest | ReasonURLTooLong | ReasonCredentialInvalid | ReasonAdmissionRefused
  | ReasonControlUnavailable | ReasonLogFailed | ReasonBusy | ReasonInvalidURL | ReasonNotHTTPS
  | ReasonUserinfo | ReasonIPLiteral | ReasonPort | ReasonOffList | ReasonRedirectOffList
  | ReasonPrivateAddress | ReasonTooManyRedirects | ReasonRedirectInvalid | ReasonContentEncoding
  | ReasonDNSFailed | ReasonConnectFailed | ReasonTLS | ReasonTimeout | ReasonCancelled
  | ReasonHeadersTooLarge | ReasonUpstreamStatus | ReasonUpstreamError | ReasonTooLarge.

#[global] Instance Reason_eq_dec : EqDecision Reason.
Proof. solve_decision. Defined.

(** The code on the wire. *)
Definition reasonCode (r : Reason) : string :=
  match r with
  | ReasonBadRequest => "bad_request" | ReasonURLTooLong => "url_too_long"
  | ReasonCredentialInvalid => "credential_invalid" | ReasonAdmissionRefused => "admission_refused"
  | ReasonControlUnavailable => "control_unavailable" | ReasonLogFailed => "log_failed"
  | ReasonBusy => "busy" | ReasonInvalidURL => "invalid_url" | ReasonNotHTTPS => "not_https"
  | ReasonUserinfo => "userinfo" | ReasonIPLiteral => "ip_literal" | ReasonPort => "port"
  | ReasonOffList => "off_list" | ReasonRedirectOffList => "redirect_off_list"
  | ReasonPrivateAddress => "private_address" | ReasonTooManyRedirects => "too_many_redirects"
  | ReasonRedirectInvalid => "redirect_invalid" | ReasonContentEncoding => "content_encoding"
  | ReasonDNSFailed => "dns_failed" | ReasonConnectFailed => "connect_failed" | ReasonTLS => "tls"
  | ReasonTimeout => "timeout" | ReasonCancelled => "cancelled"
  | ReasonHeadersTooLarge => "headers_too_large" | ReasonUpstreamStatus => "upstream_status"
  | ReasonUpstreamError => "upstream_error" | ReasonTooLarge => "too_large"
  end.

Definition MaxURLLen : nat := 2048.
Definition MaxRedirects : Z := 5.
Definition defaultContentType : string := "application/octet-stream".
Definition redirectDiscardCap : Z := Z.shiftl 64 10.
Definition maxContentTypeLen : nat := 255.
Definition httpsPort : Z := 443.
Definition maxCredentialLen : nat := 512.
Definition DefaultMaxFileBytes : Z := Z.shiftl 25 20.

Record Refusal := mkRefusal { ref_Reason : Reason; ref_FinalURL : string; ref_HTTPStatus : Z }.
Definition refuse (r : Reason) : Refusal := mkRefusal r EmptyString 0.

Record Result := mkResult {
  FinalURL : string; HTTPStatus : Z; ContentType : string; Body : string; SHA256 : string }.

(** * What the fetch asks *)
Inductive ctxErr := DeadlineExceeded | Canceled.

(** An error of the transport, by what [classify] asks of it. *)
Record netErr := mkNetErr {
  e_refusal : option Reason;     (* a refusal of the dial path *)
  e_address : bool;              (* the policy refused the address *)
  e_tls : bool;
  e_headers : bool;
  e_timeout : bool;
  e_dial : bool;
}.
Definition errRefusal (r : Reason) : netErr := mkNetErr (Some r) false false false false false.
Definition errAddressRefused : netErr := mkNetErr None true false false false false.
Definition errBadRequestURL : netErr := mkNetErr None false false false false false.

Record Response := mkResponse {
  StatusCode : Z; Location : string; ContentEncoding : list string; ContentLength : Z; RespContentType : string }.

Inductive net : Type → Type :=
  | CtxErr : net (option ctxErr)
  | LookupNetIP (name : string) : net (option (list NetIP.Addr))
  | DialTCP (a : NetIP.Addr) (port : Z) : net (option netErr)
  | SendGet (u : URL) (serverName : string) : net (result netErr Response)
  | DiscardBody (n : Z) : net unit
  | ReadBody : net (string * option netErr).

(** * URLs *)
Definition EqualFold (s t : string) : bool := bool_decide (foldName s = foldName t).

Definition hexDigits : string := "0123456789ABCDEF".
Definition hexDigit (d : Z) : ascii := default "0"%char (String.get (Z.to_nat d) hexDigits).

Fixpoint escapeQuery (q : string) : string :=
  match q with
  | EmptyString => EmptyString
  | String c q' =>
    let b := byteOf c in
    if (b <=? 32) || (0x7f <=? b)
    then String "%" (String (hexDigit (Z.shiftr b 4)) (String (hexDigit (Z.land b 15)) (escapeQuery q')))
    else String c (escapeQuery q')
  end.

(** [validOptionalPort] and [splitHostPort] of [net/url]. *)
Definition allDigits (s : string) : bool := forallb EgressProfile.digitByte (String.list_ascii_of_string s).
Definition splitHostPort (hostPort : string) : string * string :=
  let '(host, port) :=
    match LastIndexByte hostPort ":" with
    | Some i =>
      if allDigits (sdrop (S i) hostPort) then (stake i hostPort, sdrop (S i) hostPort) else (hostPort, EmptyString)
    | None => (hostPort, EmptyString)
    end in
  if HasPrefix host "[" && HasSuffix host "]"
  then (stake (String.length host - 2) (sdrop 1 host), port) else (host, port).
Definition Hostname (u : URL) : string := (splitHostPort (Host u)).1.
Definition Port (u : URL) : string := (splitHostPort (Host u)).2.

Section Fetch.
Context `{HostRules} `{WebLib}.

Definition checkURL (raw : string) (redirect : bool) (entries : list string) : result Refusal (URL * string) :=
  if (MaxURLLen <? String.length raw)%nat then Err (refuse ReasonURLTooLong) else
  match urlParse raw with
  | None => Err (refuse ReasonInvalidURL)
  | Some u =>
    if negb (EqualFold (Scheme u) "https") then Err (refuse ReasonNotHTTPS) else
    if HasUser u then Err (refuse ReasonUserinfo) else
    if negb (Opaque u =?s EmptyString)%go || (Host u =?s EmptyString)%go then Err (refuse ReasonInvalidURL) else
    let hostname := Hostname u in
    if NetIP.ParseAddr hostname then Err (refuse ReasonIPLiteral) else
    if negb (Port u =?s EmptyString)%go && negb (Port u =?s "443")%go then Err (refuse ReasonPort) else
    match EgressProfile.NormalizeHost hostname with
    | Err EgressProfile.CodeIPAddress => Err (refuse ReasonIPLiteral)
    | Err _ => Err (refuse ReasonInvalidURL)
    | Ok host =>
      if negb (EgressProfile.Match host entries)
      then Err (refuse (if redirect then ReasonRedirectOffList else ReasonOffList)) else
      let out := mkURL "https" false EmptyString host (Path u) (RawPath u) (escapeQuery (RawQuery u)) in
      if (MaxURLLen <? String.length (urlString out))%nat then Err (refuse ReasonURLTooLong) else
      Ok (out, host)
    end
  end.

(** Without half of an escape at the end. *)
Definition dropHalfEscape (s : string) : string :=
  match LastIndexByte s "%" with
  | Some i => if (String.length s - 2 <=? i)%nat then stake i s else s
  | None => s
  end.

Definition recordURL (raw : string) : string :=
  let out :=
    match urlParse raw with
    | Some u =>
      if (Opaque u =?s EmptyString)%go
      then urlString (mkURL (asciiLower (Scheme u)) false EmptyString (asciiLower (Host u)) (Path u) (RawPath u)
                        (escapeQuery (RawQuery u)))
      else match IndexByte raw "#" with Some i => stake i raw | None => raw end
    | None => match IndexByte raw "#" with Some i => stake i raw | None => raw end
    end in
  let out := escapeQuery out in
  if (MaxURLLen <? String.length out)%nat then dropHalfEscape (stake MaxURLLen out) else out.

(** * One request *)
Record Options := mkOptions { Policy : AddrPolicy.AddressPolicy; MaxFileBytes : Z }.

(** [New]: the part of the defaults the fetch depends on. *)
Definition New (o : Options) : Options :=
  if MaxFileBytes o <=? 0 then mkOptions (Policy o) DefaultMaxFileBytes else o.

Context (opts : Options).

Definition ctxRefusal (e : ctxErr) : Refusal :=
  match e with DeadlineExceeded => refuse ReasonTimeout | Canceled => refuse ReasonCancelled end.

Fixpoint checkAddrs (addrs : list NetIP.Addr) (out : list NetIP.Addr) : result Refusal (list NetIP.Addr) :=
  match addrs with
  | [] => Ok out
  | a :: addrs' =>
    if negb (AddrPolicy.Allowed (Policy opts) a) then Err (refuse ReasonPrivateAddress)
    else checkAddrs addrs' (out ++ [NetIP.Unmap a])
  end.

Definition resolve (host : string) : prog net (result Refusal (list NetIP.Addr)) :=
  addrs ← call (LookupNetIP (host +:+ "."));
  match addrs with
  | None =>
    c ← call CtxErr;
    mret (Err (match c with Some e => ctxRefusal e | None => refuse ReasonDNSFailed end))
  | Some [] => mret (Err (refuse ReasonDNSFailed))
  | Some addrs => mret (checkAddrs addrs [])
  end.

Definition dialChecked (a : NetIP.Addr) (port : Z) : prog net (option netErr) :=
  if negb (AddrPolicy.Allowed (Policy opts) a) then mret (Some errAddressRefused)
  else call (DialTCP a port).

(** The loop of the transport's [DialContext]. *)
Fixpoint dialLoop (ips : list NetIP.Addr) (lastErr : option netErr) : prog net (option netErr) :=
  match ips with
  | [] => mret lastErr
  | ip :: ips' =>
    r ← dialChecked ip httpsPort;
    match r with
    | None => mret None
    | Some err =>
      if e_address err then mret (Some err) else
      c ← call CtxErr;
      match c with Some _ => mret (Some err) | None => dialLoop ips' (Some err) end
    end
  end.

Definition DialContext (host : string) : prog net (option netErr) :=
  ips ← resolve host;
  match ips with
  | Err ref => mret (Some (errRefusal (ref_Reason ref)))
  | Ok ips => dialLoop ips None
  end.

(** One GET over a fresh transport for the host. *)
Definition roundTrip (u : URL) (host : string) : prog net (result netErr Response) :=
  match urlParse (urlString u) with
  | None => mret (Err errBadRequestURL)
  | Some u' =>
    e ← DialContext host;
    match e with
    | Some e => mret (Err e)
    | None => call (SendGet u' host)
    end
  end.

Definition classify (err : netErr) : prog net Refusal :=
  match e_refusal err with
  | Some r => mret (refuse r)
  | None =>
    if e_address err then mret (refuse ReasonPrivateAddress) else
    c ← call CtxErr;
    match c with
    | Some e => mret (ctxRefusal e)
    | None =>
      mret (refuse (if e_tls err then ReasonTLS else
                    if e_headers err then ReasonHeadersTooLarge else
                    if e_timeout err then ReasonTimeout else
                    if e_dial err then ReasonConnectFailed else ReasonUpstreamError))
    end
  end.

Definition isRedirect (code : Z) : bool := existsb (Z.eqb code) [301; 302; 303; 307; 308].

Definition identityOnly (vals : list string) : bool :=
  forallb (λ line, forallb (λ c, let c := TrimSpace c in
    (c =?s EmptyString)%go || EqualFold c "identity") (Split line ",")) vals.

(** [^[A-Za-z0-9][A-Za-z0-9._:+-]{0,39}$]. *)
Definition alnumAny (c : ascii) : bool :=
  let b := byteOf c in
  ((97 <=? b) && (b <=? 122)) || ((65 <=? b) && (b <=? 90)) || ((48 <=? b) && (b <=? 57)).
Definition charsetName (s : string) : bool :=
  match s with
  | EmptyString => false
  | String c s' =>
    alnumAny c && (String.length s' <=? 39)%nat &&
    forallb (λ c, alnumAny c || bool_decide (c ∈ ["."; "_"; ":"; "+"; "-"]%char)) (String.list_ascii_of_string s')
  end.

Definition sanitizeContentType (v : string) : string :=
  if (v =?s EmptyString)%go || (1024 <? String.length v)%nat then defaultContentType else
  match parseMediaType v with
  | None => defaultContentType
  | Some (mt, cs) =>
    if negb (Contains mt "/") then defaultContentType else
    let out := formatMediaType mt (if charsetName cs then Some cs else None) in
    if (out =?s EmptyString)%go || (maxContentTypeLen <? String.length out)%nat then defaultContentType else out
  end.

(** [io.ReadAll] of a [LimitReader]: an error beyond the limit is not seen. *)
Definition readLimited (limit : Z) : prog net (result netErr string) :=
  '(b, err) ← call ReadBody;
  let n := Z.to_nat limit in
  mret (if (n <=? String.length b)%nat then Ok (stake n b) else
        match err with Some e => Err e | None => Ok b end).

Inductive hopOut := HopDone (r : Result) | HopNext (next : string) (status : Z) | HopRefused (r : Refusal).

Definition hop (u : URL) (host : string) (hopNo : Z) (maxBytes : Z) : prog net hopOut :=
  resp ← roundTrip u host;
  match resp with
  | Err e => r ← classify e; mret (HopRefused r)
  | Ok resp =>
    let code := StatusCode resp in
    if isRedirect code then
      _ ← call (DiscardBody redirectDiscardCap);
      if (Location resp =?s EmptyString)%go
      then mret (HopRefused (mkRefusal ReasonRedirectInvalid EmptyString code)) else
      match urlResolve u (Location resp) with
      | None => mret (HopRefused (mkRefusal ReasonRedirectInvalid EmptyString code))
      | Some next =>
        if MaxRedirects <=? hopNo
        then mret (HopRefused (mkRefusal ReasonTooManyRedirects (recordURL (urlString next)) code))
        else mret (HopNext (urlString next) code)
      end
    else
    if (code <? 200) || (299 <? code) then mret (HopRefused (mkRefusal ReasonUpstreamStatus EmptyString code)) else
    if negb (identityOnly (ContentEncoding resp))
    then mret (HopRefused (mkRefusal ReasonContentEncoding EmptyString code)) else
    if maxBytes <? ContentLength resp then mret (HopRefused (mkRefusal ReasonTooLarge EmptyString code)) else
    body ← readLimited (maxBytes + 1);
    match body with
    | Err e => r ← classify e; mret (HopRefused (mkRefusal (ref_Reason r) (ref_FinalURL r) code))
    | Ok body =>
      if maxBytes <? Z.of_nat (String.length body)
      then mret (HopRefused (mkRefusal ReasonTooLarge EmptyString code)) else
      mret (HopDone (mkResult EmptyString code (sanitizeContentType (RespContentType resp)) body (sha256hex body)))
    end
  end.

(** * The loop over the hops; [None] is a loop that has not ended *)
Fixpoint fetchLoop (fuel : nat) (hopNo : Z) (cur : string) (lastStatus : Z) (entries : list string) (maxBytes : Z)
    : prog net (option (result Refusal Result)) :=
  match fuel with
  | O => mret None
  | S fuel' =>
    match checkURL cur (0 <? hopNo) entries with
    | Err ref => mret (Some (Err (mkRefusal (ref_Reason ref) (recordURL cur) lastStatus)))
    | Ok (u, host) =>
      let cur := urlString u in
      out ← hop u host hopNo maxBytes;
      match out with
      | HopRefused ref =>
        mret (Some (Err (if (ref_FinalURL ref =?s EmptyString)%go
                         then mkRefusal (ref_Reason ref) cur (ref_HTTPStatus ref) else ref)))
      | HopDone res =>
        c ← call CtxErr;
        match c with
        | Some e => mret (Some (Err (mkRefusal (ref_Reason (ctxRefusal e)) cur (HTTPStatus res))))
        | None =>
          mret (Some (Ok (mkResult cur (HTTPStatus res) (ContentType res) (Body res) (SHA256 res))))
        end
      | HopNext next status => fetchLoop fuel' (hopNo + 1) next status entries maxBytes
      end
    end
  end.

Definition effectiveMax (maxBytes : Z) : Z :=
  if (maxBytes <=? 0) || (MaxFileBytes opts <? maxBytes) then MaxFileBytes opts else maxBytes.

(** The first request and the redirects it may follow. *)
Definition hops : nat := Z.to_nat MaxRedirects + 1.

Definition Fetch (rawURL : string) (entries : list string) (maxBytes : Z) : prog net (option (result Refusal Result)) :=
  fetchLoop hops 0 rawURL 0 entries (effectiveMax maxBytes).

(** * What a fetch may do, whatever the network answers *)

(** What a monitor of the requests remembers. *)
Record watch := mkWatch {
  w_host : string;                 (* the name last resolved *)
  w_addrs : list NetIP.Addr;       (* its addresses, unmapped *)
  w_connected : bool;              (* a connection to one of them is open *)
  w_lookups : nat;
}.

Definition watchUpd (s : watch) X (r : net X) : X → watch :=
  match r in net X return X → watch with
  | LookupNetIP name => λ addrs, mkWatch name (NetIP.Unmap <$> default [] addrs) false (S (w_lookups s))
  | DialTCP a port => λ e,
      mkWatch (w_host s) (w_addrs s) (match e with None => true | Some _ => w_connected s end) (w_lookups s)
  | _ => λ _, s
  end.

(** A name is resolved only when the list covers it, an address is dialed only
    when it was just resolved for that name and the policy admits it, and a
    request is sent only over such a connection, verified for that name. *)
Definition watchOk (entries : list string) (s : watch) X (r : net X) : Prop :=
  match r with
  | LookupNetIP name =>
    ∃ h, name = h +:+ "." ∧ EgressProfile.NormalizeHost h = Ok h ∧ EgressProfile.Match h entries = true
  | DialTCP a port => port = 443 ∧ AddrPolicy.Allowed (Policy opts) a = true ∧ a ∈ w_addrs s
  | SendGet _ serverName => w_connected s = true ∧ w_host s = serverName +:+ "."
  | DiscardBody n => n <= 65536
  | _ => True
  end.

Section Watch.
Context `{!IdnaLaws} (entries : list string).
Local Abbreviation watched := (monitored watchUpd (watchOk entries)).

Lemma checkAddrs_Ok addrs out ips : checkAddrs addrs out = Ok ips → ips = out ++ (NetIP.Unmap <$> addrs).
Proof.
  revert out. induction addrs as [|a addrs IH]; intros out; simpl.
  - intros [= <-]. by rewrite app_nil_r.
  - destruct (negb _); [done|]. intros ->%IH. by rewrite -app_assoc.
Qed.

Definition listed (h : string) : Prop :=
  EgressProfile.NormalizeHost h = Ok h ∧ EgressProfile.Match h entries = true.

Lemma resolve_watched s host : listed host →
  watched (λ s' r, w_host s' = host +:+ "." ∧ w_lookups s' = S (w_lookups s) ∧
    ∀ ips, r = Ok ips → ips ⊆ w_addrs s' ∧ ips ≠ []) s (resolve host).
Proof.
  intros [Hn Hm]. split; [by exists host|]. intros addrs. simpl.
  destruct addrs as [[|a addrs]|]; simpl.
  - split_and!; [done..|]. by intros ? [=].
  - split_and!; [done..|]. intros ips Hips. destruct (negb _); [done|].
    apply checkAddrs_Ok in Hips as ->. done.
  - split; [done|]. intros c. simpl. split_and!; [done..|]. by intros ? [=].
Qed.

Lemma dialLoop_watched s ips last : ips ⊆ w_addrs s → is_Some last ∨ ips ≠ [] →
  watched (λ s' r, w_host s' = w_host s ∧ w_lookups s' = w_lookups s ∧
    (r = None → w_connected s' = true)) s (dialLoop ips last).
Proof.
  revert s last. induction ips as [|ip ips IH]; intros s last Hin Hl; simpl.
  - destruct Hl as [[e ->]|]; [|done]. done.
  - eapply (monitored_bind _ _ (λ s' r, w_host s' = w_host s ∧ w_addrs s' = w_addrs s ∧
      w_lookups s' = w_lookups s ∧ (r = None → w_connected s' = true))).
    + rewrite /dialChecked. destruct (AddrPolicy.Allowed (Policy opts) ip) eqn:Ea; simpl; [|done].
      split; [|by intros [e|]]. split_and!; [done..|set_solver].
    + intros s' [err|] (E1 & E2 & E3 & E4); [|by split_and!; auto]. destruct (e_address err); [done|].
      simpl. split; [done|]. intros [c|]; [done|].
      assert (ips ⊆ w_addrs s') as Hin' by (rewrite E2; set_solver).
      eapply monitored_weaken; [|apply (IH s' (Some err) Hin' ltac:(eauto))].
      simpl. intros s'' r (? & ? & ?). split_and!; congruence || auto.
Qed.

Lemma DialContext_watched s host : listed host →
  watched (λ s' r, w_host s' = host +:+ "." ∧ w_lookups s' = S (w_lookups s) ∧
    (r = None → w_connected s' = true)) s (DialContext host).
Proof.
  intros Hl. eapply monitored_bind; [by apply resolve_watched|].
  intros s' [ips|ref] (E1 & E2 & E3); [|done]. destruct (E3 ips eq_refl) as [Hin Hne].
  eapply monitored_weaken; [|apply (dialLoop_watched s' ips None Hin); by right].
  simpl. intros s'' r (F1 & F2 & F3). split_and!; congruence || auto.
Qed.

Lemma classify_watched s err : watched (λ s' _, s' = s) s (classify err).
Proof.
  rewrite /classify. destruct (e_refusal err); [done|]. destruct (e_address err); [done|].
  simpl. split; [done|]. by intros [c|].
Qed.

Lemma readLimited_watched s limit :
  watched (λ s' r, s' = s ∧ ∀ b, r = Ok b → (String.length b <= Z.to_nat limit)%nat) s (readLimited limit).
Proof.
  split; [done|]. intros [b err]. cbn. split; [done|]. intros b'.
  destruct (Nat.leb_spec (Z.to_nat limit) (String.length b)) as [Hle|Hgt].
  - intros [= <-]. rewrite stake_length. lia.
  - destruct err; intros [= <-]. lia.
Qed.

Lemma roundTrip_watched s u host : listed host →
  watched (λ s' _, (w_lookups s' <= S (w_lookups s))%nat) s (roundTrip u host).
Proof.
  intros Hl. rewrite /roundTrip. destruct (urlParse (urlString u)) as [u'|]; [|simpl; lia].
  eapply monitored_bind; [by apply DialContext_watched|].
  intros s' [e|] (E1 & E2 & E3); simpl; [lia|]. split; [split; [by apply E3|done]|]. intros _. lia.
Qed.

(** What one hop gives: a redirect only while one may still be followed, a
    result only with a body within the cap, its digest and a success status. *)
Definition hopGood (hopNo maxBytes : Z) (out : hopOut) : Prop :=
  match out with
  | HopNext _ _ => hopNo < MaxRedirects
  | HopDone r => Z.of_nat (String.length (Body r)) <= maxBytes ∧ SHA256 r = sha256hex (Body r)
                 ∧ 200 <= HTTPStatus r <= 299
  | HopRefused _ => True
  end.

Lemma hop_watched s u host hopNo maxBytes : listed host →
  watched (λ s' out, (w_lookups s' <= S (w_lookups s))%nat ∧ hopGood hopNo maxBytes out) s
    (hop u host hopNo maxBytes).
Proof.
  intros Hl. eapply monitored_bind; [by apply roundTrip_watched|]. intros s' [resp|e] Hs'.
  - cbv beta iota zeta. destruct (isRedirect (StatusCode resp)).
    + simpl. split; [done|]. intros _. destruct (_ =?s _)%go; [done|].
      destruct (urlResolve u (Location resp)) as [next|]; [|done].
      destruct (MaxRedirects <=? hopNo) eqn:Eh; simpl; [done|]. split; [done|]. lia.
    + destruct ((StatusCode resp <? 200) || (299 <? StatusCode resp)) eqn:Est; [done|].
      destruct (negb (identityOnly _)); [done|]. destruct (maxBytes <? ContentLength resp); [done|].
      eapply monitored_bind; [apply readLimited_watched|]. intros s'' [body|err] [-> Hb].
      * destruct (maxBytes <? Z.of_nat (String.length body)) eqn:El; [done|]. simpl.
        split; [done|]. split_and!; [lia|done|lia..].
      * eapply monitored_bind; [apply classify_watched|]. by intros s3 r ->.
  - eapply monitored_bind; [apply classify_watched|]. by intros s3 r ->.
Qed.

Lemma checkURL_Ok raw redirect u host : checkURL raw redirect entries = Ok (u, host) →
  listed host ∧ Scheme u = "https" ∧ HasUser u = false ∧ Host u = host ∧
  (String.length (urlString u) <= MaxURLLen)%nat.
Proof.
  rewrite /checkURL guardE_Ok. intros [_ Hc]. destruct (urlParse raw) as [u0|]; [|done].
  rewrite !guardE_Ok in Hc. destruct Hc as (_ & _ & _ & Hc).
  destruct (NetIP.ParseAddr (Hostname u0)); [done|]. rewrite guardE_Ok in Hc. destruct Hc as [_ Hc].
  destruct (EgressProfile.NormalizeHost (Hostname u0)) as [h|c] eqn:En; [|by destruct c].
  rewrite !guardE_Ok in Hc. destruct Hc as (Hm & Hlen & [= <- <-]).
  apply negb_false_iff in Hm. apply Nat.ltb_ge in Hlen.
  split_and!; try done. split; [by eapply EgressProfile.NormalizeHost_idemp|done].
Qed.

(** What a fetch gives: an end, after at most one name per hop, and content only
    from a listed host, within the cap and with its digest. *)
Definition fetchGood (maxBytes : Z) (out : option (result Refusal Result)) : Prop :=
  match out with
  | None => False
  | Some (Err _) => True
  | Some (Ok r) =>
    Z.of_nat (String.length (Body r)) <= maxBytes ∧ SHA256 r = sha256hex (Body r) ∧ 200 <= HTTPStatus r <= 299 ∧
    (String.length (FinalURL r) <= MaxURLLen)%nat ∧
    ∃ u, FinalURL r = urlString u ∧ Scheme u = "https" ∧ HasUser u = false ∧ listed (Host u)
  end.

Lemma fetchLoop_watched fuel s hopNo cur lastStatus maxBytes :
  Z.of_nat fuel = MaxRedirects + 1 - hopNo → hopNo <= MaxRedirects →
  watched (λ s' out, (w_lookups s' <= w_lookups s + fuel)%nat ∧ fetchGood maxBytes out) s
    (fetchLoop fuel hopNo cur lastStatus entries maxBytes).
Proof.
  revert s hopNo cur lastStatus. induction fuel as [|fuel IH]; intros s hopNo cur lastStatus Hf Hh; [lia|].
  cbn [fetchLoop]. destruct (checkURL cur (0 <? hopNo) entries) as [[u host]|ref] eqn:Ec; [|simpl; split; [lia|done]].
  destruct (checkURL_Ok _ _ _ _ Ec) as (Hl & Hs & Hu & Hhost & Hlen).
  eapply monitored_bind; [by apply hop_watched|]. intros s' [r|next status|ref] [Hlk Hg]; simpl in Hg.
  - simpl. split; [done|]. intros [c|]; simpl; (split; [lia|]); [done|].
    destruct Hg as (? & ? & ?). split_and!; try done; try lia. exists u. by rewrite Hhost.
  - assert (watched (λ s'0 out, (w_lookups s'0 <= w_lookups s' + fuel)%nat ∧ fetchGood maxBytes out) s'
      (fetchLoop fuel (hopNo + 1) next status entries maxBytes)) as Hn by (apply IH; lia).
    eapply monitored_weaken; [|exact Hn]. simpl. intros s'' out [? ?]. split; [lia|done].
  - simpl. split; [lia|done].
Qed.

Definition watch0 : watch := mkWatch EmptyString [] false 0.

Lemma Fetch_confined_spec raw maxBytes :
  watched (λ s out, (w_lookups s <= 6)%nat ∧ fetchGood (effectiveMax maxBytes) out) watch0
    (Fetch raw entries maxBytes).
Proof.
  eapply monitored_weaken; [|by apply (fetchLoop_watched hops watch0 0 raw 0 (effectiveMax maxBytes))].
  done.
Qed.

(** C10. Whatever the resolver, the sites and the clock answer, a fetch resolves
    only names its site list covers, dials only port 443 of addresses it just
    resolved for that name and the policy admits, sends the request only over
    such a connection verified for that name, follows at most five redirects, and
    gives content only from a listed https URL, within the byte cap and with its
    digest. *)
Theorem Fetch_confined raw maxBytes :
  monitored watchUpd (watchOk entries)
    (λ s out, (w_lookups s <= 6)%nat ∧ fetchGood (effectiveMax maxBytes) out) watch0
    (Fetch raw entries maxBytes).
Proof. apply Fetch_confined_spec. Qed.

End Watch.

(** * Every fetch ends *)
Section Ends.
Context {W : Type} (handle : W → ∀ X, net X → W * X).

Lemma hop_next u host hopNo maxBytes w next status :
  (exec handle (hop u host hopNo maxBytes) w).2 = HopNext next status → hopNo < MaxRedirects.
Proof.
  rewrite /hop exec_bind. destruct (exec handle (roundTrip u host) w) as [w' [resp|e]]; cbv beta iota zeta.
  - destruct (isRedirect (StatusCode resp)).
    + simpl. destruct (handle w' unit _) as [w1 []]. destruct (_ =?s _)%go; [done|].
      destruct (urlResolve u (Location resp)) as [n|]; [|done].
      destruct (MaxRedirects <=? hopNo) eqn:Eh; simpl; [done|]. intros _. lia.
    + destruct (_ || _); [done|]. destruct (negb _); [done|]. destruct (maxBytes <? ContentLength resp); [done|].
      rewrite exec_bind. destruct (exec handle (readLimited _) w') as [w1 [body|err]].
      * by destruct (maxBytes <? _).
      * rewrite exec_bind. by destruct (exec handle (classify err) w1).
  - rewrite exec_bind. by destruct (exec handle (classify e) w').
Qed.

Lemma fetchLoop_ends fuel hopNo cur lastStatus entries maxBytes w :
  Z.of_nat fuel = MaxRedirects + 1 - hopNo → hopNo <= MaxRedirects →
  is_Some (exec handle (fetchLoop fuel hopNo cur lastStatus entries maxBytes) w).2.
Proof.
  revert w hopNo cur lastStatus. induction fuel as [|fuel IH]; intros w hopNo cur lastStatus Hf Hh; [lia|].
  cbn [fetchLoop]. destruct (checkURL _ _ _) as [[u host]|ref]; [|by eexists].
  cbv zeta. rewrite exec_bind. pose proof (hop_next u host hopNo maxBytes w) as Hn.
  destruct (exec handle (hop u host hopNo maxBytes) w) as [w' [r|next status|ref]]; simpl.
  - destruct (handle w' _ CtxErr) as [w1 [e|]]; by eexists.
  - specialize (Hn next status eq_refl). apply IH; lia.
  - by eexists.
Qed.

(** C29. A fetch ends, with a refusal or a result, after at most six hops,
    whatever the sites answer: redirects cannot keep it going. *)
Theorem Fetch_terminates raw entries maxBytes w :
  ∃ out, (exec handle (Fetch raw entries maxBytes) w).2 = Some out.
Proof. by apply (fetchLoop_ends hops). Qed.
End Ends.

End Fetch.

(** * A network *)
Module Example.

Definition digest : string := "0123456789abcdef0123456789abcdef0123456789abcdef0123456789abcdef".

#[local] Instance exampleWeb : WebLib := {|
  urlParse s :=
    rest ← CutPrefix s "https://";
    let n := default (String.length rest) (IndexByte rest "/") in
    Some (mkURL "https" false EmptyString (stake n rest) (sdrop n rest) EmptyString EmptyString);
  urlString u := Scheme u +:+ "://" +:+ Host u +:+ Path u;
  urlResolve u s :=
    rest ← CutPrefix s "https://";
    let n := default (String.length rest) (IndexByte rest "/") in
    Some (mkURL "https" false EmptyString (stake n rest) (sdrop n rest) EmptyString EmptyString);
  parseMediaType s := Some (s, EmptyString);
  formatMediaType s _ := s;
  sha256hex s := digest;
|}.
#[local] Existing Instances EgressProfile.exampleRules EgressProfile.exampleLaws.

Definition opts0 : Options := New (mkOptions (AddrPolicy.mkPolicy []) 0).

(** [a.example.com] redirects to [b.example.com], which has a page; the state is
    the host a request goes to.  [c.example.com] is an internal address. *)
Definition site (w : string) X (r : net X) : string * X :=
  match r in net X return string * X with
  | CtxErr => (w, None)
  | LookupNetIP name =>
    (w, Some [if (name =?s "c.example.com.")%go then NetIP.v4 10 0 0 1
              else NetIP.v4 93 184 216 34])
  | DialTCP a port => (w, None)
  | SendGet u serverName =>
    (serverName,
     Ok (if (serverName =?s "a.example.com")%go
         then mkResponse 302 "https://b.example.com/page" [] 0 EmptyString
         else mkResponse 200 EmptyString [] 5 "text/plain"))
  | DiscardBody n => (w, tt)
  | ReadBody => (w, ("hello", None))
  end.

Definition fetchIt (raw : string) : option (result Refusal Result) :=
  (exec site (Fetch opts0 raw ["*.example.com"] 100) EmptyString).2.

Lemma Fetch_confined_witness :
  (fetchIt "https://a.example.com/" =
     Some (Ok (mkResult "https://b.example.com/page" 200 "text/plain" "hello" digest)) ∧
   fetchIt "https://c.example.com/" =
     Some (Err (mkRefusal ReasonPrivateAddress "https://c.example.com/" 0))) ∧
  monitored watchUpd (watchOk opts0 ["*.example.com"])
    (λ s out, (w_lookups s <= 6)%nat ∧ fetchGood ["*.example.com"] 100 out) watch0
    (Fetch opts0 "https://a.example.com/" ["*.example.com"] 100).
Proof.
  split; [split; vm_compute; reflexivity|].
  apply (Fetch_confined opts0 ["*.example.com"] "https://a.example.com/" 100).
Defined.

End Example.

End Fetcher.
