(* ===== verification/FetchServer.v ===== *)
(** The worker-facing handler of the fetcher ([src/api/internal/fetcher/server.go])
    with its client of the api ([controlhttp.go]) and the api's side of it
    ([src/api/internal/handler/fetcher_control.go]).

    The handler is a program over what it asks of its semaphore, its clock, the
    api, the network and the worker's connection.  A request body is its length
    and the JSON document it spells, [None] when it spells none or more than one.
    The texts for humans and the logging are left out, and so is the transport
    between the two services: a request arrives as it was sent or not at all. *)

From Stdlib Require Import Ascii.
From S2P Require Import Prelude Result GoText GoStrings GoSearch GoJson Prog NetIP EgressProfile AddrPolicy.
From S2P Require Import FetchDb FetchCtl FetchInv Fetcher.

Local Open Scope Z_scope.

(** [String] and [Parse] of [github.com/google/uuid]. *)
Class UuidText `{FetchLib} := {
  uuidString : uuid → string;
  parse_uuidString u : parseUUID (uuidString u) = Some u;
  uuidString_nonempty u : uuidString u ≠ EmptyString;
}.

Module FetchServer.
Import GoText GoStrings GoSearch GoJson.

Definition MaxRequestBody : Z := Z.shiftl 8 10.
Definition maxLoggedHost : nat := 255.

(** * What a worker sends *)
Definition bearer (h : string) : option string :=
  match IndexByte h " " with
  | None => None
  | Some i =>
    let scheme := stake i h in
    let tok := sdrop (S i) h in
    if negb (Fetcher.EqualFold scheme "Bearer") then None else
    if (tok =?s EmptyString)%go || (Fetcher.maxCredentialLen <? String.length tok)%nat
       || ContainsFunc tok (λ r, (r <=? 32) || (0x7f <=? r))
    then None else Some tok
  end.

Record request := mkRequest { Authorization : string; bodyLen : Z; bodyDoc : option json }.

(** [decodeStrict] of a [FetchRequest] through a [MaxBytesReader]. *)
Definition decodeFetchRequest (r : request) : option string :=
  if MaxRequestBody <? bodyLen r then None else
  decodeStrict ["url"] (λ _ v cur, decodeString v cur) (bodyDoc r) EmptyString.

(** * The api's answers *)
Abbreviation answer := (Z * option json)%type (only parsing).

Definition controlError (status : Z) (msg reason : string) : answer :=
  (status, Some (JObj [("error", JStr msg); ("reason", JStr reason)])).
Definition httpError (status : Z) (msg : string) : answer := (status, Some (JObj [("error", JStr msg)])).

Section Api.
Context `{UuidText}.

Definition beginAnswer (r : result FetchDb.error FetchCtl.Admission) : answer :=
  match r with
  | Ok adm =>
    (200, Some (JObj [("reservation_id", JStr (uuidString (FetchCtl.adm_ReservationID adm)));
                      ("entries", JArr (JStr <$> FetchCtl.adm_Entries adm));
                      ("max_bytes", JNum (itoa (FetchCtl.adm_MaxBytes adm)))]))
  | Err FetchDb.ErrCredentialInvalid =>
    controlError 403 "the run fetch credential is invalid" "credential_invalid"
  | Err (FetchDb.AdmissionRefused reason) => controlError 429 "a run fetch limit is used up" reason
  | Err _ => httpError 500 "internal error"
  end.

(** The handler of a request that decodes, with the service configured. *)
Definition FetcherBegin (cache : FetchCaps.Cache) (credential : string) (id : uuid) (now : time)
    (fs : list FetchDb.fault) (db : FetchDb.DB) : answer * FetchDb.DB :=
  let '(r, db') := FetchCtl.Begin cache credential id now fs db in (beginAnswer r, db').

Definition completeAnswer (r : result FetchDb.error unit) : answer :=
  match r with
  | Ok _ => (204, None)
  | Err FetchDb.ErrCredentialInvalid =>
    controlError 403 "the run fetch credential is invalid" "credential_invalid"
  | Err FetchDb.ErrReservationNotFound =>
    controlError 404 "no such reservation for this run" "reservation_not_found"
  | Err (FetchDb.InvalidRequest msg) => controlError 400 msg "invalid_record"
  | Err _ => httpError 500 "internal error"
  end.

Definition FetcherComplete (r : FetchCtl.CompleteRequest) (fs : list FetchDb.fault) (db : FetchDb.DB)
    : answer * FetchDb.DB :=
  let '(res, db') := FetchCtl.Complete r fs db in (completeAnswer res, db').
End Api.

(** * The client of the api *)
Record Admission := mkAdmission { ReservationID : string; Entries : list string; MaxBytes : Z }.

Inductive beginErr :=
  | ErrCredentialInvalid
  | AdmissionRefused (reason : string)
  | ControlFailed.

(** [apitypes.FetcherBeginResponse]. *)
Record BeginResponse := mkBeginResponse {
  br_ReservationID : string; br_Entries : option strslice; br_MaxBytes : Z }.

Definition decodeInt64 (v : json) (cur : Z) : Z * bool :=
  match v with
  | JNum lit => match Atoi lit with Some z => (z, false) | None => (cur, true) end
  | JNull => (cur, false)
  | _ => (cur, true)
  end.

Definition setBeginResponse (n : string) (v : json) (b : BeginResponse) : BeginResponse * bool :=
  if (n =?s "reservation_id")%go then
    let '(s, e) := decodeString v (br_ReservationID b) in (mkBeginResponse s (br_Entries b) (br_MaxBytes b), e)
  else if (n =?s "entries")%go then
    let '(l, e) := decodeStrings v (br_Entries b) in (mkBeginResponse (br_ReservationID b) l (br_MaxBytes b), e)
  else
    let '(z, e) := decodeInt64 v (br_MaxBytes b) in (mkBeginResponse (br_ReservationID b) (br_Entries b) z, e).

Definition setReason (n : string) (v : json) (st : string * string) : (string * string) * bool :=
  if (n =?s "error")%go then let '(s, e) := decodeString v st.1 in ((s, st.2), e)
  else let '(s, e) := decodeString v st.2 in ((st.1, s), e).

Definition controlReason (body : option json) : string :=
  let '(st, err) := Unmarshal ["error"; "reason"] setReason body (EmptyString, EmptyString) in
  if err then EmptyString else st.2.

(** [^[a-z0-9_]{1,64}$]. *)
Definition admissionCode (s : string) : bool :=
  (1 <=? String.length s)%nat && (String.length s <=? 64)%nat &&
  forallb (λ c, let b := byteOf c in
    ((97 <=? b) && (b <=? 122)) || ((48 <=? b) && (b <=? 57)) || (b =? 95)) (String.list_ascii_of_string s).

(** What [HTTPControl.Begin] makes of what [post] gives it. *)
Definition readBegin (a : option answer) : result beginErr Admission :=
  match a with
  | None => Err ControlFailed
  | Some (status, body) =>
    if status =? 200 then
      match decodeStrict ["reservation_id"; "entries"; "max_bytes"] setBeginResponse body
              (mkBeginResponse EmptyString None 0) with
      | None => Err ControlFailed
      | Some out =>
        if (br_ReservationID out =?s EmptyString)%go || (br_MaxBytes out <=? 0) then Err ControlFailed
        else Ok (mkAdmission (br_ReservationID out) (default [] (items (br_Entries out))) (br_MaxBytes out))
      end
    else if status =? 403 then
      if (controlReason body =?s "credential_invalid")%go then Err ErrCredentialInvalid else Err ControlFailed
    else if status =? 429 then
      let reason := controlReason body in
      Err (AdmissionRefused (if admissionCode reason then reason else "unspecified"))
    else Err ControlFailed
  end.

(** What [HTTPControl.Complete] makes of it: whether the report is recorded. *)
Definition readComplete (a : option answer) : bool :=
  match a with
  | None => false
  | Some (status, _) => negb ((status <? 200) || (299 <? status))
  end.

(** * The handler *)
Record FetchError := mkFetchError { fe_Reason : Fetcher.Reason; fe_UpstreamStatus : Z; fe_AdmissionReason : string }.

Inductive srv : Type → Type :=
  | Net X (r : Fetcher.net X) : srv X
  | TryAcquire : srv bool
  | Release : srv unit
  | Now : srv time
  | PostBegin (credential url : string) : srv (option answer)
  | PostComplete (r : FetchCtl.CompleteRequest) : srv (option answer)
  | WriteRefusal (status : Z) (body : FetchError) : srv unit
  | WriteContent (r : Fetcher.Result) : srv unit.

Definition statusFor (r : Fetcher.Reason) : Z :=
  match r with
  | Fetcher.ReasonDNSFailed | Fetcher.ReasonConnectFailed | Fetcher.ReasonTLS | Fetcher.ReasonTimeout
  | Fetcher.ReasonHeadersTooLarge | Fetcher.ReasonUpstreamStatus | Fetcher.ReasonUpstreamError
  | Fetcher.ReasonTooLarge => 502
  | Fetcher.ReasonCancelled => 503
  | _ => 403
  end.

Definition refusal (status : Z) (r : Fetcher.Reason) : prog srv unit :=
  call (WriteRefusal status (mkFetchError r 0 EmptyString)).

Definition writeBeginError (e : beginErr) : prog srv unit :=
  match e with
  | ErrCredentialInvalid => refusal 401 Fetcher.ReasonCredentialInvalid
  | AdmissionRefused reason => call (WriteRefusal 429 (mkFetchError Fetcher.ReasonAdmissionRefused 0 reason))
  | ControlFailed => refusal 503 Fetcher.ReasonControlUnavailable
  end.

Section Handler.
Context `{HostRules} `{WebLib} (opts : Fetcher.Options).

(** The record of an attempt, as it is posted. *)
Definition attempt (cred rid url : string) (started finished : time)
    (out : result Fetcher.Refusal Fetcher.Result) : FetchCtl.CompleteRequest :=
  match out with
  | Err ref =>
    FetchCtl.mkComplete cred rid url (Fetcher.ref_FinalURL ref) FetchCtl.VerdictRefused
      (Fetcher.reasonCode (Fetcher.ref_Reason ref)) (Fetcher.ref_HTTPStatus ref) EmptyString 0 EmptyString
      started finished
  | Ok res =>
    FetchCtl.mkComplete cred rid url (Fetcher.FinalURL res) FetchCtl.VerdictAllowed EmptyString
      (Fetcher.HTTPStatus res) (Fetcher.ContentType res) (Z.of_nat (String.length (Fetcher.Body res)))
      (Fetcher.SHA256 res) started finished
  end.

(** The handler from a held slot to the answer. *)
Definition serve (cred url : string) : prog srv unit :=
  a ← call (PostBegin cred url);
  match readBegin a with
  | Err e => writeBeginError e
  | Ok adm =>
    started ← call Now;
    out ← lift Net (Fetcher.Fetch opts url (Entries adm) (MaxBytes adm));
    finished ← call Now;
    match out with
    | None => mret tt
    | Some out =>
      done ← call (PostComplete (attempt cred (ReservationID adm) url started finished out));
      if negb (readComplete done) then refusal 503 Fetcher.ReasonLogFailed else
      match out with
      | Err ref =>
        call (WriteRefusal (statusFor (Fetcher.ref_Reason ref))
          (mkFetchError (Fetcher.ref_Reason ref)
            (if decide (Fetcher.ref_Reason ref = Fetcher.ReasonUpstreamStatus)
             then Fetcher.ref_HTTPStatus ref else 0) EmptyString))
      | Ok res => call (WriteContent res)
      end
    end
  end.

Definition handleFetch (r : request) : prog srv unit :=
  match bearer (Authorization r) with
  | None => refusal 401 Fetcher.ReasonCredentialInvalid
  | Some cred =>
    match decodeFetchRequest r with
    | None => refusal 400 Fetcher.ReasonBadRequest
    | Some url =>
      if (url =?s EmptyString)%go then refusal 400 Fetcher.ReasonBadRequest else
      if (Fetcher.MaxURLLen <? String.length url)%nat then refusal 400 Fetcher.ReasonURLTooLong else
      got ← call TryAcquire;
      if got : bool then _ ← serve cred url; call Release
      else refusal 503 Fetcher.ReasonBusy
    end
  end.

(** * Logged hosts *)
Definition hostOf (raw : string) : string :=
  match urlParse raw with
  | None => EmptyString
  | Some u =>
    let h := Fetcher.escapeQuery (Fetcher.Hostname u) in
    if (maxLoggedHost <? String.length h)%nat then stake maxLoggedHost h else h
  end.

(** * The order of what the handler does *)

(** What a monitor of one request remembers. *)
Record progress := mkProgress {
  slot : bool;                                              (* holds a slot of the semaphore *)
  adm : option Admission;                                   (* what the api admitted *)
  reported : option (FetchCtl.CompleteRequest * bool);      (* the report, and whether it is recorded *)
  answered : nat;                                           (* answers to the worker *)
  net : Fetcher.watch;
}.
Definition progress0 : progress := mkProgress false None None 0 Fetcher.watch0.

Definition upd (s : progress) X (r : srv X) : X → progress :=
  match r in srv X return X → progress with
  | Net _ q => λ x, mkProgress (slot s) (adm s) (reported s) (answered s) (Fetcher.watchUpd (net s) _ q x)
  | TryAcquire => λ got, mkProgress got (adm s) (reported s) (answered s) (net s)
  | Release => λ _, mkProgress false (adm s) (reported s) (answered s) (net s)
  | Now => λ _, s
  | PostBegin _ _ => λ a, mkProgress (slot s) (okValue (readBegin a)) (reported s) (answered s) (net s)
  | PostComplete r => λ a, mkProgress (slot s) (adm s) (Some (r, readComplete a)) (answered s) (net s)
  | WriteRefusal _ _ | WriteContent _ => λ _, mkProgress (slot s) (adm s) (reported s) (S (answered s)) (net s)
  end.

(** The report of an allowed attempt, against the content it is about. *)
Definition reports (r : FetchCtl.CompleteRequest) (res : Fetcher.Result) : Prop :=
  FetchCtl.Verdict r = FetchCtl.VerdictAllowed ∧ FetchCtl.FinalURL r = Fetcher.FinalURL res ∧
  FetchCtl.Bytes r = Z.of_nat (String.length (Fetcher.Body res)) ∧
  FetchCtl.SHA256 r = sha256hex (Fetcher.Body res).

(** The network is reached only for an admitted fetch that is not reported yet,
    and only as its site list allows; an attempt is reported once, for the
    admitted reservation and within its bytes; content goes out only after its
    report is recorded, and a refusal of an admitted fetch only after the report
    was sent. *)
Definition ordered (rq : request) (s : progress) X (r : srv X) : Prop :=
  match r with
  | Net _ q =>
    slot s = true ∧ reported s = None ∧ ∃ a, adm s = Some a ∧ Fetcher.watchOk opts (Entries a) (net s) _ q
  | TryAcquire => slot s = false
  | Release => slot s = true
  | Now => True
  | PostBegin cred url =>
    slot s = true ∧ adm s = None ∧ bearer (Authorization rq) = Some cred ∧ decodeFetchRequest rq = Some url
  | PostComplete r =>
    slot s = true ∧ reported s = None ∧ bearer (Authorization rq) = Some (FetchCtl.Credential r) ∧
    decodeFetchRequest rq = Some (FetchCtl.URL r) ∧
    ∃ a, adm s = Some a ∧ FetchCtl.ReservationID r = ReservationID a ∧ FetchCtl.Bytes r <= MaxBytes a
  | WriteRefusal _ _ => answered s = 0%nat ∧ (is_Some (adm s) → is_Some (reported s))
  | WriteContent res =>
    answered s = 0%nat ∧ ∃ r, reported s = Some (r, true) ∧ reports r res
  end.

Section Order.
Context `{!IdnaLaws} (rq : request) (cred url : string).
Context (Hb : bearer (Authorization rq) = Some cred) (Hd : decodeFetchRequest rq = Some url).
Local Abbreviation watched := (monitored upd (ordered rq)).

Lemma readBegin_Ok a adm0 : readBegin a = Ok adm0 → 0 < MaxBytes adm0.
Proof.
  rewrite /readBegin. destruct a as [[st body]|]; [|done]. destruct (st =? 200).
  - destruct (decodeStrict _ _ _ _) as [out|]; [|done]. destruct (_ || _) eqn:E; [done|].
    apply orb_false_iff in E as [_ E]. intros [= <-]. simpl. lia.
  - destruct (st =? 403); [by destruct (_ =?s _)%go|]. by destruct (st =? 429).
Qed.

Lemma effectiveMax_le n : 0 < n → Fetcher.effectiveMax opts n <= n.
Proof. rewrite /Fetcher.effectiveMax. destruct (n <=? 0) eqn:E1, (_ <? n) eqn:E2; simpl; lia. Qed.

Lemma fetch_watched a s : slot s = true → adm s = Some a → reported s = None → net s = Fetcher.watch0 →
  watched (λ s' out, slot s' = true ∧ adm s' = Some a ∧ reported s' = None ∧ answered s' = answered s ∧
      Fetcher.fetchGood (Entries a) (Fetcher.effectiveMax opts (MaxBytes a)) out) s
    (lift Net (Fetcher.Fetch opts url (Entries a) (MaxBytes a))).
Proof.
  intros E1 E2 E3 E4.
  eapply monitored_weaken; [|apply (monitored_lift Net Fetcher.watchUpd (Fetcher.watchOk opts (Entries a)) upd
    (ordered rq) (λ s' w, slot s' = true ∧ adm s' = Some a ∧ reported s' = None ∧ answered s' = answered s ∧
       net s' = w) (λ w out, Fetcher.fetchGood (Entries a) (Fetcher.effectiveMax opts (MaxBytes a)) out)
    Fetcher.watch0)].
  - simpl. intros s' out (w & (? & ? & ? & ? & ?) & Hg). done.
  - intros w s' X r (F1 & F2 & F3 & F4 & F5) Hok. subst w. simpl. split.
    + split_and!; [done..|]. by exists a.
    + intros x. by split_and!.
  - by split_and!.
  - eapply monitored_weaken; [|apply (Fetcher.Fetch_confined_spec opts (Entries a) url (MaxBytes a))].
    intros w out [_ Hg]. done.
Qed.

(** An answer to the worker as the last thing. *)
Lemma write_watched s (r : srv unit) :
  (upd s _ r tt = mkProgress (slot s) (adm s) (reported s) (S (answered s)) (net s)) →
  ordered rq s _ r → slot s = true → answered s = 0%nat → (is_Some (adm s) ↔ is_Some (reported s)) →
  watched (λ s' _, slot s' = true ∧ answered s' = 1%nat ∧ (is_Some (adm s') ↔ is_Some (reported s'))) s (call r).
Proof. intros Hu Ho E1 E2 E3. split; [done|]. intros []. rewrite /= Hu /= E2. done. Qed.

Lemma serve_watched s : slot s = true → adm s = None → reported s = None → answered s = 0%nat →
  net s = Fetcher.watch0 →
  watched (λ s' _, slot s' = true ∧ answered s' = 1%nat ∧ (is_Some (adm s') ↔ is_Some (reported s'))) s
    (serve cred url).
Proof.
  intros E1 E2 E3 E4 E5. apply monitored_call; [done|]. intros ans.
  destruct (readBegin ans) as [a|e] eqn:Er.
  - cbn [upd]. rewrite Er. apply monitored_call; [done|]. intros started.
    eapply monitored_bind; [by apply fetch_watched|]. cbn beta. intros s1 out (F1 & F2 & F3 & F4 & Hg).
    apply monitored_call; [done|]. intros finished. destruct out as [out|]; [|done]. cbn [upd].
    pose proof (readBegin_Ok _ _ Er) as Hp. pose proof (effectiveMax_le _ Hp) as Hm.
    apply monitored_call.
    { split_and!; [done..|by destruct out|by destruct out|]. exists a. split; [done|]. split; [by destruct out|].
      destruct out as [res|ref]; simpl; [|lia]. destruct Hg as [Hg _]. lia. }
    intros done'. cbn [upd].
    destruct (readComplete done'); cbn [negb]; [|by apply write_watched; rewrite /= ?F2 ?F4].
    destruct out as [res|ref]; (apply write_watched; rewrite /= ?F2 ?F4; try done).
    split; [done|]. eexists. split; [done|]. destruct Hg as (_ & Hs & _). by rewrite /reports /= Hs.
  - cbn [upd]. destruct e; (apply write_watched; rewrite /= ?Er ?E3 ?E4; try done); by repeat split; try intros [? [=]].
Qed.
End Order.

(** C20. Whatever the api, the sites and the clock answer: the handler reaches the
    network only for an admitted fetch and as the admitted site list allows,
    reports every admitted attempt exactly once and within the admitted bytes,
    sends content only after the report of that very content is recorded, answers
    the worker exactly once and gives its slot back. *)
Theorem handleFetch_ordered `{!IdnaLaws} (rq : request) :
  monitored upd (ordered rq)
    (λ s _, answered s = 1%nat ∧ slot s = false ∧ (is_Some (adm s) ↔ is_Some (reported s)))
    progress0 (handleFetch rq).
Proof.
  assert (∀ status r, monitored upd (ordered rq)
    (λ s _, answered s = 1%nat ∧ slot s = false ∧ (is_Some (adm s) ↔ is_Some (reported s)))
    progress0 (refusal status r)) as Href.
  { intros. split; [split; [done|by intros []]|]. intros []. split_and!; try done. split; by intros []. }
  rewrite /handleFetch. destruct (bearer (Authorization rq)) as [cred|] eqn:Hb; [|apply Href].
  destruct (decodeFetchRequest rq) as [url|] eqn:Hd; [|apply Href].
  destruct (_ =?s _)%go; [apply Href|]. destruct (_ <? _)%nat; [apply Href|].
  apply monitored_call; [done|]. intros [|]; [|apply Href]. cbn [upd].
  eapply monitored_bind; [by apply serve_watched|]. intros s [] (E1 & E2 & E3).
  split; [done|]. intros []. by split_and!.
Qed.

End Handler.

(** * A request served *)
Module Example.
#[local] Existing Instances EgressProfile.exampleRules EgressProfile.exampleLaws Fetcher.Example.exampleWeb.
Import Fetcher.Example.

Definition request0 : request :=
  mkRequest "Bearer uzf_a" 40 (Some (JObj [("url", JStr "https://a.example.com/")])).

(** An api that admits and records; the state is what was written. *)
Definition served (w : list string) X (r : srv X) : list string * X :=
  match r in srv X return list string * X with
  | Net X q => (w, (site EmptyString X q).2)
  | TryAcquire => (w, true)
  | Release => (w, tt)
  | Now => (w, 1000)
  | PostBegin _ _ =>
    (w, Some (200, Some (JObj [("reservation_id", JStr "r"); ("entries", JArr [JStr "*.example.com"]);
                               ("max_bytes", JNum "100")])))
  | PostComplete _ => (w, Some (204, None))
  | WriteRefusal _ e => (w ++ [Fetcher.reasonCode (fe_Reason e)], tt)
  | WriteContent res => (w ++ [Fetcher.Body res], tt)
  end.

Lemma handleFetch_ordered_witness :
  (exec served (handleFetch opts0 request0) []).1 = ["hello"] ∧
  monitored upd (ordered opts0 request0)
    (λ s _, answered s = 1%nat ∧ slot s = false ∧ (is_Some (adm s) ↔ is_Some (reported s)))
    progress0 (handleFetch opts0 request0).
Proof. split; [vm_compute; reflexivity|]. apply (handleFetch_ordered opts0 request0). Defined.

End Example.
End FetchServer.
