(* ===== verification/FetchPath.v ===== *)
(** The way of one isolated fetch through all its parts: the worker's request at
    the fetcher, the control calls to the api, the admission and the source log in
    the database, while everything else that writes those tables goes on. *)

From Stdlib Require Import Ascii.
From S2P Require Import Prelude Result GoText GoStrings GoSearch GoJson Prog NetIP EgressProfile AddrPolicy.
From S2P Require Import Termsafe FetchDb FetchCtl FetchInv Fetcher FetchServer.

Local Open Scope Z_scope.

Module FetchPath.
Import GoText GoJson FetchServer.
Import (hints) FetchInv.

(** * The control calls, over the wire and back *)
Section Control.
Context `{UuidText}.

(** What the fetcher makes of the api's decision. *)
Definition relayed (r : result FetchDb.error FetchCtl.Admission) : result beginErr Admission :=
  match r with
  | Ok adm => Ok (mkAdmission (uuidString (FetchCtl.adm_ReservationID adm)) (FetchCtl.adm_Entries adm)
                    (FetchCtl.adm_MaxBytes adm))
  | Err FetchDb.ErrCredentialInvalid => Err ErrCredentialInvalid
  | Err (FetchDb.AdmissionRefused reason) => Err (AdmissionRefused reason)
  | Err _ => Err ControlFailed
  end.

Lemma beginAnswer_admitted adm : 0 < FetchCtl.adm_MaxBytes adm < 2 ^ 63 →
  readBegin (Some (beginAnswer (Ok adm))) = relayed (Ok adm).
Proof.
  intros Hm. pose proof (decodeStrings_strings (FetchCtl.adm_Entries adm) None) as He.
  pose proof (uuidString_nonempty (FetchCtl.adm_ReservationID adm)) as Hu. apply String.eqb_neq in Hu.
  destruct (decodeStrings _ _) as [es e] eqn:Ed. injection He as Hes ->.
  cbn -[decodeStrings items GoStrings.Atoi itoa Z.leb]. rewrite Ed. cbn -[items GoStrings.Atoi itoa Z.leb]. rewrite GoStrings.Atoi_itoa; [lia|].
  cbn -[items Z.leb]. rewrite Hu Hes. by destruct (Z.leb_spec (FetchCtl.adm_MaxBytes adm) 0); [lia|].
Qed.

(** The codes [Begin] refuses with can all be relayed. *)
Definition codesOk {A} (r : result FetchDb.error A) : Prop :=
  match r with Err (FetchDb.AdmissionRefused c) => admissionCode c = true | _ => True end.

Definition plain (e : FetchDb.error) : Prop :=
  match e with FetchDb.AdmissionRefused _ => False | _ => True end.

Lemma plain_codes {A} e : plain e → codesOk (Err e : result FetchDb.error A).
Proof. by destruct e. Qed.

(** No statement refuses an admission by itself. *)
Lemma wp_plain {A} (f : FetchDb.DB → result FetchDb.error (A * FetchDb.DB)) c w
    (Q : result FetchDb.error A → FetchDb.DB → FetchDb.DB → Prop) :
  (∀ w e, f w = Err e → plain e) → (∀ e c w, plain e → Q (Err e) c w) → (∀ a c w, Q (Ok a) c w) →
  FetchDb.wpT (FetchDb.stmt f) c w Q.
Proof.
  intros Hf He Ha. apply FetchDb.wpT_stmt; [by apply He|].
  destruct (f w) as [[a w']|e] eqn:E; [apply Ha|]. eapply He, Hf, E.
Qed.

Local Ltac plain_stmt :=
  apply FetchDb.wpT_bind, wp_plain;
  [intros ? ? Hp; rewrite /FetchDb.updateCred in Hp; repeat case_match; simplify_eq/=; done
  |intros; by apply plain_codes|].

Lemma beginTx_codes caps credential id now db :
  FetchDb.wpT (FetchCtl.beginTx caps credential id now) db db (λ r _ _, codesOk r).
Proof.
  plain_stmt. intros [cred|] c1 w1; [|by apply FetchDb.wpT_fail].
  destruct (negb _); [by apply FetchDb.wpT_fail|]. apply FetchDb.wpT_bind, FetchDb.wpT_lift.
  rewrite /FetchCtl.ParseSnapshot. destruct (FetchDb.EgressSnapshot cred) as [v|]; [|done].
  destruct (Unmarshal _ _ _ _) as [? []]; [done|]. plain_stmt. intros n c2 w2.
  destruct (n =? 0); [by apply FetchDb.wpT_fail|]. plain_stmt. intros n' c3 w3. destruct (n' =? 0).
  - plain_stmt. intros ct c4 w4. apply FetchDb.wpT_bind, FetchDb.wpT_commit; [done| |done].
    apply FetchDb.wpT_fail. simpl. rewrite /FetchCtl.refusalReason. by repeat case_match.
  - plain_stmt. intros rid c4 w4. by apply FetchDb.wpT_bind, FetchDb.wpT_commit.
Qed.

Lemma Begin_codes cache credential id now fs db : codesOk (FetchCtl.Begin cache credential id now fs db).1.
Proof.
  rewrite /FetchCtl.Begin. destruct (_ =?s _)%go; [done|]. destruct (FetchCaps.readCaps cache) as [caps []]; [done|].
  apply (FetchDb.inTx_wp _ _ _ (λ r _, codesOk r)); [done|apply beginTx_codes].
Qed.

Lemma Begin_bytes cache credential id now fs db adm :
  (FetchCtl.Begin cache credential id now fs db).1 = Ok adm →
  FetchCtl.adm_ReservationID adm = id ∧ 0 < FetchCtl.adm_MaxBytes adm < 2 ^ 63.
Proof.
  intros Hr. pose proof (FetchInv.Begin_out cache credential id now fs db) as Ho. rewrite Hr in Ho.
  pose proof (FetchCaps.readCaps_ok cache) as [? ? _ _ _]. remember (FetchCaps.readCaps cache).1 as caps eqn:Ek.
  clear Ek.
  inversion Ho as [| |run c r snap res _ _ _ _ _ [Hadm|?]]; subst; [|done]. injection Hadm as ->.
  cbn [FetchCtl.adm_MaxBytes FetchCtl.adm_ReservationID]. rewrite /FetchInv.fileBytes. split; [done|]. lia.
Qed.

Lemma begin_relayed cache credential id now fs db :
  readBegin (Some (FetcherBegin cache credential id now fs db).1) =
    relayed (FetchCtl.Begin cache credential id now fs db).1.
Proof.
  rewrite /FetcherBegin. pose proof (Begin_codes cache credential id now fs db) as Hc.
  pose proof (Begin_bytes cache credential id now fs db) as Hb.
  destruct (FetchCtl.Begin _ _ _ _ _ _) as [[adm|e] db']; cbn [fst] in *.
  - apply beginAnswer_admitted. by apply (Hb adm).
  - destruct e; try done. simpl in Hc. cbn -[admissionCode]. by rewrite Hc.
Qed.

Lemma complete_relayed r fs db :
  readComplete (Some (FetcherComplete r fs db).1) = isOk (FetchCtl.Complete r fs db).1.
Proof.
  rewrite /FetcherComplete. destruct (FetchCtl.Complete r fs db) as [[[]|e] db']; [done|]. by destruct e.
Qed.

(** The fetcher reads every answer of the api for what the api decided: an
    admission with its reservation, site list and cap, the refusals with their
    code, and every failure as one; a report counts as recorded exactly when the
    api recorded it. *)
Theorem control_roundtrip cache credential id now fs db r :
  readBegin (Some (FetcherBegin cache credential id now fs db).1) =
    relayed (FetchCtl.Begin cache credential id now fs db).1 ∧
  readComplete (Some (FetcherComplete r fs db).1) = isOk (FetchCtl.Complete r fs db).1.
Proof. split; [apply begin_relayed|apply complete_relayed]. Qed.
End Control.

(** * One fetch among everything else *)

(** The tables, the released reservations, and what this fetch was admitted
    with. *)
Record world := mkWorld {
  w_db : FetchDb.DB;
  w_rel : gset uuid;
  w_mine : option FetchCtl.Admission;
}.

Section Path.
Context `{UuidText} `{HostRules} `{WebLib} `{!IdnaLaws} (opts : Fetcher.Options).

(** Everything else that runs meanwhile; only this fetch reports its own
    reservation. *)
Definition others (s s' : world) : Prop :=
  w_mine s' = w_mine s ∧
  rtc (λ a b, FetchInv.step (λ _, True) a b ∧
        ∀ adm, w_mine s = Some adm → FetchDb.fetches a.1 !! FetchCtl.adm_ReservationID adm = None →
          FetchDb.fetches b.1 !! FetchCtl.adm_ReservationID adm = None)
    (w_db s, w_rel s) (w_db s', w_rel s').

(** A call the api did not serve: no answer, or one that is not a success. *)
Definition unserved (a : option (Z * option json)) : Prop :=
  ∀ st body, a = Some (st, body) → st < 200 ∨ 299 < st.

(** A call the api served, whose answer may be lost. *)
Inductive apiBegin (cred : string) (s : world) : option (Z * option json) → world → Prop :=
  | begin_served cache id now fs (lost : bool) :
      apiBegin cred s
        (if lost then None else Some (FetcherBegin cache cred id now fs (w_db s)).1)
        (mkWorld (FetcherBegin cache cred id now fs (w_db s)).2 (FetchInv.reused (w_db s) id (w_rel s))
           (okValue (FetchCtl.Begin cache cred id now fs (w_db s)).1))
  | begin_unserved a : unserved a → apiBegin cred s a s.

Inductive apiComplete (r : FetchCtl.CompleteRequest) (s : world) : option (Z * option json) → world → Prop :=
  | complete_served fs (lost : bool) :
      apiComplete r s (if lost then None else Some (FetcherComplete r fs (w_db s)).1)
        (mkWorld (FetcherComplete r fs (w_db s)).2 (w_rel s) (w_mine s))
  | complete_unserved a : unserved a → apiComplete r s a s.

Definition answers (s : world) X (r : srv X) : X → world → Prop :=
  match r in srv X return X → world → Prop with
  | PostBegin cred _ => λ a s', ∃ s1, others s s1 ∧ apiBegin cred s1 a s'
  | PostComplete r => λ a s', ∃ s1, others s s1 ∧ apiComplete r s1 a s'
  | _ => λ _ s', others s s'
  end.

(** The log has this content's row, under this fetch's reservation and the run
    that holds the credential, and the content is from the admitted site list. *)
Definition logged (cred url : string) (s : world) (res : Fetcher.Result) : Prop :=
  ∃ adm run c row, w_mine s = Some adm ∧
    FetchDb.fetches (w_db s) !! FetchCtl.adm_ReservationID adm = Some row ∧
    FetchDb.f_run row = run ∧ FetchDb.creds (w_db s) !! run = Some c ∧
    FetchDb.token_hash c = FetchCtl.HashCredential cred ∧
    FetchDb.f_verdict row = FetchCtl.VerdictAllowed ∧
    FetchDb.f_url row = Termsafe.EscapeBounded url FetchCtl.maxLoggedURL ∧
    FetchDb.f_final_url row = Termsafe.EscapeBounded (Fetcher.FinalURL res) FetchCtl.maxLoggedURL ∧
    FetchDb.f_bytes row = Z.of_nat (String.length (Fetcher.Body res)) ∧
    FetchDb.f_bytes row <= FetchCtl.adm_MaxBytes adm ∧
    FetchDb.f_sha256 row = sha256hex (Fetcher.Body res) ∧
    ∃ u, Fetcher.FinalURL res = urlString u ∧ Scheme u = "https" ∧
      EgressProfile.Match (Host u) (FetchCtl.adm_Entries adm) = true.

Definition contentLogged (rq : request) (s : world) X (r : srv X) : Prop :=
  match r with
  | WriteContent res =>
    ∃ cred url, bearer (Authorization rq) = Some cred ∧ decodeFetchRequest rq = Some url ∧ logged cred url s res
  | _ => True
  end.

(** Between the admission and the report. *)
Record held (adm : FetchCtl.Admission) (s : world) : Prop := {
  h_inv : FetchInv.Inv (w_db s);
  h_mine : w_mine s = Some adm;
  h_open : FetchDb.fetches (w_db s) !! FetchCtl.adm_ReservationID adm = None;
}.

Lemma others_inv s s' : others s s' → FetchInv.Inv (w_db s) → FetchInv.Inv (w_db s').
Proof.
  intros [_ Hs] HI. change (FetchInv.Inv (w_db s, w_rel s).1) in HI. change (FetchInv.Inv (w_db s', w_rel s').1).
  induction Hs as [|a b c [Hab _] _ IH]; [done|]. apply IH. by eapply FetchInv.fetch_inv_step.
Qed.

Lemma others_held adm s s' : others s s' → held adm s → held adm s'.
Proof.
  intros Ho [HI Hm Hf]. split; [by eapply others_inv|by destruct Ho as [-> _]|].
  destruct Ho as [_ Hs]. change (FetchDb.fetches (w_db s, w_rel s).1 !! FetchCtl.adm_ReservationID adm = None) in Hf.
  change (FetchDb.fetches (w_db s', w_rel s').1 !! FetchCtl.adm_ReservationID adm = None).
  induction Hs as [|a b c [_ Hab] _ IH]; [done|]. eauto.
Qed.

Lemma unserved_begin a : unserved a → isOk (readBegin a) = false.
Proof.
  rewrite /readBegin. destruct a as [[st body]|]; [|done]. intros Hu.
  destruct (Hu st body eq_refl); (destruct (Z.eqb_spec st 200); [lia|]);
    (destruct (st =? 403); [by destruct (_ =?s _)%go|]); by destruct (st =? 429).
Qed.

Lemma unserved_complete a : unserved a → readComplete a = false.
Proof.
  rewrite /readComplete. destruct a as [[st body]|]; [|done]. intros Hu. destruct (Hu st body eq_refl); lia.
Qed.

Lemma begin_held cred s a s' adm : apiBegin cred s a s' → FetchInv.Inv (w_db s) → readBegin a = Ok adm →
  ∃ adm', adm = mkAdmission (uuidString (FetchCtl.adm_ReservationID adm')) (FetchCtl.adm_Entries adm')
                  (FetchCtl.adm_MaxBytes adm') ∧ held adm' s'.
Proof.
  intros Ha HI Hr. destruct Ha as [cache id now fs lost|a Hu].
  - destruct lost; [done|]. rewrite begin_relayed in Hr.
    pose proof (FetchInv.Begin_out cache cred id now fs (w_db s)) as Ho.
    pose proof (Begin_bytes cache cred id now fs (w_db s)) as Hb.
    pose proof (FetchInv.inv_begin) as Hinv.
    rewrite /FetcherBegin. destruct (FetchCtl.Begin cache cred id now fs (w_db s)) as [r db'] eqn:Eb.
    destruct r as [adm'|e]; [|by destruct e]. injection Hr as <-. destruct (Hb adm' eq_refl) as [Hid _].
    exists adm'. split; [done|]. split; [|done|].
    + eapply Hinv; [done|apply FetchCaps.readCaps_ok|exact Ho].
    + cbn [snd w_db fst] in Ho |- *. inversion Ho as [| |run c rr snap res _ _ _ Hid0 _ _]; subst.
      cbn [FetchInv.admitDb FetchDb.fetches]. apply eq_None_not_Some. intros [f Hf].
      destruct (FetchInv.i_fetch _ HI _ _ Hf) as (r0 & Hr0 & _). congruence.
  - apply unserved_begin in Hu. by rewrite Hr in Hu.
Qed.

Lemma report_logged r s a s' adm : apiComplete r s a s' → held adm s →
  FetchCtl.ReservationID r = uuidString (FetchCtl.adm_ReservationID adm) → readComplete a = true →
  w_mine s' = Some adm ∧ ∃ run c, FetchDb.creds (w_db s') !! run = Some c ∧
    FetchDb.token_hash c = FetchCtl.HashCredential (FetchCtl.Credential r) ∧
    FetchDb.fetches (w_db s') !! FetchCtl.adm_ReservationID adm = Some (FetchCtl.logRow run r).
Proof.
  intros Ha [HI Hm Hf] Hid Hr. destruct Ha as [fs lost|a Hu]; [|by rewrite unserved_complete in Hr].
  destruct lost; [done|]. rewrite complete_relayed in Hr. split; [done|].
  pose proof (FetchInv.Complete_out r fs (w_db s)) as Ho. rewrite /FetcherComplete.
  destruct (FetchCtl.Complete r fs (w_db s)) as [[[]|e] db'] eqn:Ec; [|done]. cbn [fst snd w_db] in *.
  destruct Ho as [[e [=]]|(id & Hp & _ & Ho)]. rewrite Hid parse_uuidString in Hp. injection Hp as <-.
  inversion Ho as [|run c rsv _ Hl|run c rsv res Hro _ _ _]; subst; [by rewrite Hf in Hl; destruct Hl|].
  exists run. eexists. cbn. rewrite !lookup_insert_eq. split_and!; [done| |done]. apply (FetchInv.ro_hash _ _ _ _ _ _ Hro).
Qed.

Lemma fetch_held adm (a : Admission) url rq s : held adm s →
  wp answers (contentLogged rq)
    (λ s' out, held adm s' ∧
       ∃ w : Fetcher.watch, Fetcher.fetchGood (Entries a) (Fetcher.effectiveMax opts (MaxBytes a)) out) s
    (lift Net (Fetcher.Fetch opts url (Entries a) (MaxBytes a))).
Proof.
  intros Hh. eapply (wp_lift Net Fetcher.watchUpd (Fetcher.watchOk opts (Entries a)) _ _ _
    (λ _ out, Fetcher.fetchGood (Entries a) (Fetcher.effectiveMax opts (MaxBytes a)) out)); [|done|].
  - intros s' X r Hs'. split; [done|]. intros x s'' Ho. by eapply others_held.
  - eapply monitored_weaken; [|apply (Fetcher.Fetch_confined_spec opts (Entries a) url (MaxBytes a))].
    by intros w out [_ Hg].
Qed.

Lemma write_logged rq s (r : srv unit) : contentLogged rq s _ r →
  wp answers (contentLogged rq) (λ _ _, True) s (call r).
Proof. by split. Qed.

Lemma serve_logged rq cred url s :
  bearer (Authorization rq) = Some cred → decodeFetchRequest rq = Some url → FetchInv.Inv (w_db s) →
  wp answers (contentLogged rq) (λ _ _, True) s (serve opts cred url).
Proof.
  intros Hb Hd HI. apply wp_call; [done|]. intros a s2 (s1 & Ho1 & Ha).
  destruct (readBegin a) as [ad|e] eqn:Er; [|by destruct e; apply write_logged].
  destruct (begin_held _ _ _ _ _ Ha (others_inv _ _ Ho1 HI) Er) as (adm & -> & Hh).
  apply wp_call; [done|]. intros started s3 Ho3.
  eapply wp_bind; [apply fetch_held; by eapply others_held|]. intros s4 out (Hh4 & _ & Hg).
  apply wp_call; [done|]. intros finished s5 Ho5. destruct out as [out|]; [|done].
  apply wp_call; [done|]. intros ans s7 (s6 & Ho6 & Hc).
  destruct (readComplete ans) eqn:Ec; cbn [negb]; [|by apply write_logged].
  destruct out as [res|ref]; [|by apply write_logged]. apply write_logged. exists cred, url. split_and!; [done..|].
  eapply (report_logged _ _ _ _ adm) in Hc as (Hm & run & c & Hcr & Hh7 & Hrow); [|by eapply others_held, others_held|done..].
  destruct Hg as (Hl & Hs & _ & _ & u & Hu & Hsch & _ & _ & Hmatch).
  exists adm, run, c. eexists. split_and!; [done..|cbn|done|by exists u].
  etrans; [exact Hl|]. apply effectiveMax_le. by apply (readBegin_Ok _ _ Er).
Qed.

(** C8. From the worker's request to the tables, with any other transactions in
    between, calls that fail and answers that get lost: when the fetcher sends
    content to a worker, the source log already has its row, under the reservation
    of this very fetch and the run the presented credential belongs to, with the
    verdict, URLs, size and digest of that content, and the content is from an
    https URL the admitted site list covers. *)
Theorem content_logged rq s : FetchInv.Inv (w_db s) →
  wp answers (contentLogged rq) (λ _ _, True) s (handleFetch opts rq).
Proof.
  intros HI. rewrite /handleFetch. destruct (bearer (Authorization rq)) as [cred|] eqn:Hb; [|by apply write_logged].
  destruct (decodeFetchRequest rq) as [url|] eqn:Hd; [|by apply write_logged].
  destruct (_ =?s _)%go; [by apply write_logged|]. destruct (_ <? _)%nat; [by apply write_logged|].
  apply wp_call; [done|]. intros [|] s1 Ho; [|by apply write_logged].
  eapply wp_bind; [apply serve_logged; [done..|by eapply others_inv]|]. intros s2 [] _. by apply write_logged.
Qed.

End Path.

(** * A fetch that goes through *)
Module Example.
#[local] Existing Instances EgressProfile.exampleRules EgressProfile.exampleLaws Fetcher.Example.exampleWeb.
Import Fetcher.Example.

Fixpoint bits (p : positive) : string :=
  match p with
  | xH => "x"
  | xO p => String "0"%char (bits p)
  | xI p => String "1"%char (bits p)
  end.
Fixpoint unbits (s : string) : option positive :=
  match s with
  | String "0"%char s => xO <$> unbits s
  | String "1"%char s => xI <$> unbits s
  | String "x"%char EmptyString => Some xH
  | _ => None
  end.

Lemma unbits_bits p : unbits (bits p) = Some p.
Proof. induction p as [p IH|p IH|]; simpl; by rewrite ?IH. Qed.

#[local] Instance pathLib : FetchLib := {|
  sha256 s := s;
  parseUUID s := unbits s ≫= decode;
|}.
#[local] Instance pathUuids : UuidText.
Proof.
  refine {| uuidString u := bits (encode u) |}.
  - intros u. cbn. by rewrite unbits_bits /= decode_encode.
  - intros u. by destruct (encode u).
Defined.

Definition u1 : uuid := Uuid.mk 1.
Definition p1 : uuid := Uuid.mk 2.
Definition r7 : uuid := Uuid.mk 7.
Definition cache0 : FetchCaps.Cache := FetchCaps.mkCache ∅ (Some ∅).

(** A run claimed with a site list. *)
Definition db0 : FetchDb.DB :=
  FetchDb.mkDB {[u1 := FetchDb.mkRun "running" 1 (Some p1) None]}
    {[p1 := FetchDb.mkProfile "docs" ["a.example.com"; "b.example.com"] []]} ∅ ∅ ∅.
Definition db1 : FetchDb.DB := (FetchCtl.isolateClaim (FetchCtl.mkClaimed u1 1 p1 None) "uzf_a" [] db0).2.

Lemma inv_path : FetchInv.Inv db1.
Proof. eapply FetchInv.inv_claim; [|apply FetchInv.isolateClaim_out]. by apply FetchInv.inv_initial. Qed.

(** The api on these tables; the state also has what was written to the worker. *)
Definition through (w : FetchDb.DB * list string) X (r : srv X) : (FetchDb.DB * list string) * X :=
  match r in srv X return (FetchDb.DB * list string) * X with
  | Net X q => (w, (site EmptyString X q).2)
  | TryAcquire => (w, true)
  | Release => (w, tt)
  | Now => (w, 1000)
  | PostBegin cred _ => let '(a, db) := FetcherBegin cache0 cred r7 1000 [] w.1 in ((db, w.2), Some a)
  | PostComplete r => let '(a, db) := FetcherComplete r [] w.1 in ((db, w.2), Some a)
  | WriteRefusal _ e => ((w.1, w.2 ++ [Fetcher.reasonCode (fe_Reason e)]), tt)
  | WriteContent res => ((w.1, w.2 ++ [Fetcher.Body res]), tt)
  end.

Definition final : FetchDb.DB * list string :=
  (exec through (handleFetch opts0 FetchServer.Example.request0) (db1, [])).1.

Lemma content_logged_witness :
  (final.2 = ["hello"] ∧
   ((λ f, (FetchDb.f_final_url f, FetchDb.f_bytes f)) <$> FetchDb.fetches final.1 !! r7) =
     Some ("https://b.example.com/page", 5)) ∧
  wp answers (contentLogged FetchServer.Example.request0) (λ _ _, True) (mkWorld db1 ∅ None)
    (handleFetch opts0 FetchServer.Example.request0).
Proof.
  split; [split; vm_compute; reflexivity|].
  apply (content_logged opts0 FetchServer.Example.request0 (mkWorld db1 ∅ None)). apply inv_path.
Defined.

Lemma control_roundtrip_witness :
  readBegin (Some (FetcherBegin cache0 "uzf_a" r7 1000 [] db1).1) =
    Ok (mkAdmission (uuidString r7) ["a.example.com"; "b.example.com"] 26214400) ∧
  readBegin (Some (FetcherBegin cache0 "uzf_b" r7 1000 [] db1).1) = Err ErrCredentialInvalid.
Proof.
  set (r := FetchCtl.mkComplete "" "" "" "" "" "" 0 "" 0 "" 0 0). split.
  - rewrite (proj1 (control_roundtrip cache0 "uzf_a" r7 1000 [] db1 r)). vm_compute. reflexivity.
  - rewrite (proj1 (control_roundtrip cache0 "uzf_b" r7 1000 [] db1 r)). vm_compute. reflexivity.
Defined.

End Example.
End FetchPath.
