(* ===== verification/OAuthSrv.v ===== *)
(** The protocol rules of the OAuth authorization server
    ([src/api/internal/oauthsrv], and the scopes of
    [src/api/internal/producttoken]): which requests are accepted, what a
    registered redirect URI may be, PKCE, and the redirects the server builds.

    [crypto/sha256] and [url.Parse] are parameters; base64 is modelled.  The
    texts of the errors of the registration checks are left out. *)

From Stdlib Require Import Ascii.
From S2P Require Import Prelude Result GoText GoStrings GoSearch GoQuery Fetcher FetchCtl.

Local Open Scope Z_scope.

Module OAuthSrv.
Import GoStrings GoSearch GoQuery.

Definition MaxStateBytes : nat := 512.
Definition MaxScopeBytes : nat := 64.
Definition CodeChallengeLen : nat := 43.
Definition MaxRedirectURIs : nat := 5.
Definition MaxRedirectURIBytes : nat := 2048.
Definition MinVerifierLen : nat := 43.
Definition MaxVerifierLen : nat := 128.
Definition SecretPrefix : string := "uzs_".
Definition RefreshPrefix : string := "uzr_".
Definition TokenPrefix : string := "uzp_".

(** The error codes on the wire. *)
Inductive Code :=
  | ErrInvalidRequest | ErrUnsupportedResponseType | ErrInvalidScope | ErrAccessDenied
  | ErrTemporarilyUnavailable | ErrInvalidClient | ErrInvalidGrant | ErrUnsupportedGrantType.
Definition codeText (c : Code) : string :=
  match c with
  | ErrInvalidRequest => "invalid_request" | ErrUnsupportedResponseType => "unsupported_response_type"
  | ErrInvalidScope => "invalid_scope" | ErrAccessDenied => "access_denied"
  | ErrTemporarilyUnavailable => "temporarily_unavailable" | ErrInvalidClient => "invalid_client"
  | ErrInvalidGrant => "invalid_grant" | ErrUnsupportedGrantType => "unsupported_grant_type"
  end.

(** * Scopes *)
Definition ScopeJobsRun : string := "jobs:run".
Definition ScopeJobsRead : string := "jobs:read".
Definition Scopes : list string := [ScopeJobsRun; ScopeJobsRead].
Definition contains (l : list string) (s : string) : bool := existsb (λ v, (v =?s s)%go) l.
Definition ValidScope (s : string) : bool := contains Scopes s.

Fixpoint validateScopesFrom (out scopes : list string) : option (list string) :=
  match scopes with
  | [] => Some out
  | sc :: scopes' =>
    if (sc =?s EmptyString)%go || negb (ValidScope sc) || contains out sc then None
    else validateScopesFrom (out ++ [sc]) scopes'
  end.
Definition ValidateScopes (scopes : list string) : option (list string) :=
  match scopes with [] => None | _ => validateScopesFrom [] scopes end.
Definition ParseScopes (s : string) : option (list string) :=
  if (s =?s EmptyString)%go then None else ValidateScopes (Split s " ").

(** * The authorize request *)
Record AuthorizeQuery := mkQuery {
  ClientID : string; RedirectURI : string; ResponseType : string; CodeChallenge : string;
  CodeChallengeMethod : string; State : string; Scope : string; HasScope : bool;
  repeated : gset string;
}.
Definition first (v : Values) (name : string) : string := default EmptyString (v !! name ≫= head).
Definition has (v : Values) (name : string) : bool := bool_decide (is_Some (v !! name)).
Definition repeatedKeys (v : Values) : gset string := dom (filter (λ '(_, vals), (1 < length vals)%nat) v).
Definition ParseAuthorizeQuery (v : Values) : AuthorizeQuery :=
  mkQuery (first v "client_id") (first v "redirect_uri") (first v "response_type") (first v "code_challenge")
    (first v "code_challenge_method") (first v "state") (first v "scope") (has v "scope") (repeatedKeys v).
Definition Repeated (q : AuthorizeQuery) (name : string) : bool := bool_decide (name ∈ repeated q).
Definition AnyRepeated (q : AuthorizeQuery) : bool := negb (bool_decide (repeated q = ∅)).

Record Client := mkClient { Active : bool; RedirectURIs : list string; ClientScopes : list string; HasSecret : bool }.
(** [None] is the nil pointer. *)
Definition IsClient (c : option Client) : bool :=
  match c with
  | Some c => Active c && (0 <? length (RedirectURIs c))%nat && (0 <? length (ClientScopes c))%nat && HasSecret c
  | None => false
  end.

(** The registered URI, or a rejection. *)
Definition CheckClient (c : option Client) (q : AuthorizeQuery) : option string :=
  if Repeated q "client_id" || Repeated q "redirect_uri" then None else
  match c with
  | Some c' =>
    if negb (IsClient c) || (RedirectURI q =?s EmptyString)%go then None else
    List.find (λ registered, (RedirectURI q =?s registered)%go) (RedirectURIs c')
  | None => None
  end.

Record Request := mkRequest { rRedirectURI : string; rScopes : list string; rState : string; rCodeChallenge : string }.
Record Error := mkError { eCode : Code; Description : string; eState : string }.

Definition validState (s : string) : bool :=
  negb ((s =?s EmptyString)%go || (MaxStateBytes <? String.length s)%nat)
  && every (λ c, (0x20 <=? byteOf c) && (byteOf c <=? 0x7e)) s.
Definition base64url (c : ascii) : bool := alnum c || existsb (Ascii.eqb c) ["-"; "_"]%char.
Definition validCodeChallenge (s : string) : bool :=
  (String.length s =? CodeChallengeLen)%nat && every base64url s.

Definition ValidateAuthorize (c : Client) (q : AuthorizeQuery) (redirectURI : string) : result Error Request :=
  let state := if negb (Repeated q "state") && validState (State q) then State q else EmptyString in
  let fail code desc := Err (mkError code desc state) in
  if AnyRepeated q then fail ErrInvalidRequest "a parameter was supplied more than once" else
  if (ResponseType q =?s EmptyString)%go then fail ErrInvalidRequest "response_type is required" else
  if negb (ResponseType q =?s "code")%go then fail ErrUnsupportedResponseType "only response_type=code is supported" else
  if negb (CodeChallengeMethod q =?s "S256")%go
  then fail ErrInvalidRequest "PKCE with code_challenge_method=S256 is required" else
  if negb (validCodeChallenge (CodeChallenge q))
  then fail ErrInvalidRequest "code_challenge must be a 43-character base64url S256 challenge" else
  if (state =?s EmptyString)%go
  then fail ErrInvalidRequest "state is required (1 to 512 printable ASCII characters)" else
  if HasScope q then
    if (MaxScopeBytes <? String.length (Scope q))%nat then fail ErrInvalidScope "scope is too long" else
    match ParseScopes (Scope q) with
    | None => fail ErrInvalidScope "scope must be a space-separated list of known scopes"
    | Some parsed =>
      if forallb (contains (ClientScopes c)) parsed
      then Ok (mkRequest redirectURI parsed state (CodeChallenge q))
      else fail ErrInvalidScope "scope is not allowed for this client"
    end
  else Ok (mkRequest redirectURI (ClientScopes c) state (CodeChallenge q)).

(** * PKCE and secrets *)
Definition verifierByte (c : ascii) : bool := alnum c || existsb (Ascii.eqb c) ["-"; "."; "_"; "~"]%char.
Definition ValidVerifier (v : string) : bool :=
  negb ((String.length v <? MinVerifierLen)%nat || (MaxVerifierLen <? String.length v)%nat) && every verifierByte v.

(** [base64.RawURLEncoding]. *)
Definition base64Char (d : Z) : ascii :=
  if d <? 26 then chr (65 + d) else if d <? 52 then chr (71 + d) else if d <? 62 then chr (d - 4)
  else if d =? 62 then "-"%char else "_"%char.
Fixpoint RawURLEncode (s : string) : string :=
  match s with
  | EmptyString => EmptyString
  | String a EmptyString =>
    let x := byteOf a in String (base64Char (x / 4)) (String (base64Char (x mod 4 * 16)) EmptyString)
  | String a (String b EmptyString) =>
    let x := byteOf a in let y := byteOf b in
    String (base64Char (x / 4)) (String (base64Char (x mod 4 * 16 + y / 16)) (String (base64Char (y mod 16 * 4)) EmptyString))
  | String a (String b (String c s')) =>
    let x := byteOf a in let y := byteOf b in let z := byteOf c in
    String (base64Char (x / 4)) (String (base64Char (x mod 4 * 16 + y / 16))
      (String (base64Char (y mod 16 * 4 + z / 64)) (String (base64Char (z mod 64)) (RawURLEncode s'))))
  end.

Section Lib.
Context `{FetchLib}.

Definition HashSecret (secret : string) : string := sha256 secret.
(** The comparisons take constant time; their result is equality. *)
Definition VerifierMatchesS256 (verifier challenge : string) : bool :=
  ValidVerifier verifier && (RawURLEncode (sha256 verifier) =?s challenge)%go.
Definition SecretMatches (secret storedHash : string) : bool :=
  negb (storedHash =?s EmptyString)%go && (HashSecret secret =?s storedHash)%go.

(** The texts and hashes made from what the random source draws. *)
Definition GenerateRefreshToken (random : string) : string * string :=
  let token := RefreshPrefix +:+ RawURLEncode random in (token, HashSecret token).
Definition GenerateToken (random : string) : string * string :=
  let token := TokenPrefix +:+ RawURLEncode random in (token, sha256 token).
Definition GenerateSecret (random : string) : string * string :=
  let secret := SecretPrefix +:+ RawURLEncode random in (secret, HashSecret secret).
End Lib.

(** * The token form *)
Record TokenForm := mkForm {
  GrantType : string; fCode : string; fRedirectURI : string; CodeVerifier : string; fClientID : string;
  ClientSecret : string; RefreshToken : string; fScope : string; fHasScope : bool; Token : string;
  TokenTypeHint : string; HasClientSecret : bool; fRepeated : bool;
}.
Definition ParseTokenForm (v : Values) : TokenForm :=
  mkForm (first v "grant_type") (first v "code") (first v "redirect_uri") (first v "code_verifier")
    (first v "client_id") (first v "client_secret") (first v "refresh_token") (first v "scope") (has v "scope")
    (first v "token") (first v "token_type_hint") (has v "client_secret") (negb (bool_decide (repeatedKeys v = ∅))).

(** * Redirect URIs *)
Definition reservedRedirectQueryKeys : gset string := {[ "code"; "state"; "iss"; "error"; "error_description"; "error_uri" ]}.
Definition reservedPair (pair : string) : bool :=
  match QueryUnescape (Cut pair "=").1.1 with
  | None => true
  | Some dk => bool_decide (dk ∈ reservedRedirectQueryKeys)
  end.
Definition hasReservedQueryKey (rawQuery : string) : bool := existsb reservedPair (nonEmptyPairs rawQuery).
Definition withoutReservedQueryKeys (rawQuery : string) : string :=
  Join (List.filter (λ p, negb (reservedPair p)) (nonEmptyPairs rawQuery)) "&".

Section Web.
Context `{WebLib}.

(** [true] is acceptance. *)
Definition ValidateRedirectURI (s : string) : bool :=
  if (s =?s EmptyString)%go then false else
  if (MaxRedirectURIBytes <? String.length s)%nat then false else
  if negb (every (λ c, negb ((byteOf c <=? 0x20) || (0x7f <=? byteOf c))) s) then false else
  if Contains s "#" then false else
  let https := HasPrefix s "https://" in
  if negb https && negb (HasPrefix s "http://") then false else
  match urlParse s with
  | None => false
  | Some u =>
    if hasReservedQueryKey (RawQuery u) then false else
    if HasUser u then false else
    let host := Fetcher.Hostname u in
    if (host =?s EmptyString)%go then false else
    if https then true else
    if negb (host =?s "127.0.0.1")%go && negb (host =?s "::1")%go then false else
    let port := Fetcher.Port u in
    if (port =?s EmptyString)%go then false else
    match Atoi port with
    | None => false
    | Some n => negb ((n <? 1) || (65535 <? n))
    end
  end.

Fixpoint validateRedirectURIsFrom (seen : gset string) (uris : list string) : bool :=
  match uris with
  | [] => true
  | u :: uris' =>
    if negb (ValidateRedirectURI u) then false else
    if bool_decide (u ∈ seen) then false else validateRedirectURIsFrom ({[u]} ∪ seen) uris'
  end.
Definition ValidateRedirectURIs (uris : list string) : bool :=
  negb (MaxRedirectURIs <? length uris)%nat && validateRedirectURIsFrom ∅ uris.
End Web.

(** * The redirects *)
Definition appendQuery (base : string) (v : Values) : string :=
  let '(path, rawQuery, _) := Cut base "?" in
  let kept := withoutReservedQueryKeys rawQuery in
  if (kept =?s EmptyString)%go then path +:+ String "?" (Encode v)
  else path +:+ String "?" (kept +:+ String "&" (Encode v)).

Definition setIf (v : Values) (key value : string) : Values :=
  if (value =?s EmptyString)%go then v else Set_ v key value.
Definition ErrorRedirectURL (redirectURI : string) (e : Error) (iss : string) : string :=
  appendQuery redirectURI
    (Set_ (setIf (setIf (Set_ ∅ "error" (codeText (eCode e))) "error_description" (Description e)) "state" (eState e)) "iss" iss).
Definition DeniedRedirectURL (redirectURI state iss : string) : string :=
  ErrorRedirectURL redirectURI (mkError ErrAccessDenied "the user denied the request" state) iss.
Definition CodeRedirectURL (redirectURI code state iss : string) : string :=
  appendQuery redirectURI (Set_ (Set_ (Set_ ∅ "code" code) "state" state) "iss" iss).

(** * What the client reads *)
Definition reservedKey (kv : string * string) : bool := bool_decide (kv.1 ∈ reservedRedirectQueryKeys).
(** The path and the pairs of a redirect. *)
Definition clientReads (url : string) : string * list (string * string) :=
  let '(path, query, _) := Cut url "?" in (path, (ParseQuery query).1).

Lemma nonEmptyPairs_app a b : nonEmptyPairs (a +:+ String "&" b) = nonEmptyPairs a ++ nonEmptyPairs b.
Proof. by rewrite /nonEmptyPairs Split_app List.filter_app. Qed.

Lemma nonEmptyPairs_Join l : Forall (λ p, p ≠ EmptyString ∧ without "&" p = true) l → nonEmptyPairs (Join l "&") = l.
Proof.
  intros Hl. rewrite /nonEmptyPairs. destruct l as [|p l]; [done|]. rewrite Split_Join; [done|..].
  - eapply Forall_impl; [exact Hl|]. by intros x [].
  - remember (p :: l) as k eqn:E. clear E p l. induction Hl as [|x k [Hx _] _ IH]; [done|].
    simpl. rewrite IH. by destruct (String.eqb_spec x EmptyString).
Qed.

Lemma nonEmptyPairs_elem query : Forall (λ p, p ≠ EmptyString ∧ without "&" p = true) (nonEmptyPairs query).
Proof.
  apply Forall_forall. intros p [Hp Hne]%list_elem_of_In%List.filter_In.
  apply negb_true_iff, String.eqb_neq in Hne. split; [done|].
  by apply (proj1 (Forall_forall _ _) (Split_without query "&")), list_elem_of_In.
Qed.

Lemma parsePair_reserved p kv : parsePair p = Some kv → reservedPair p = reservedKey kv.
Proof.
  rewrite /parsePair /reservedPair /reservedKey. destruct (without ";" p); [|done]. simpl.
  destruct (Cut p "=") as [[k v] f]. simpl. destruct (QueryUnescape k); [|done]. simpl.
  destruct (QueryUnescape v); [|done]. by intros [= <-].
Qed.

Lemma omap_filter_reserved (b : bool) ps :
  List.filter (λ kv, Bool.eqb (reservedKey kv) b) (omap parsePair ps) =
  omap parsePair (List.filter (λ p, Bool.eqb (reservedPair p) b) ps).
Proof.
  induction ps as [|p ps IH]; [done|]. simpl. destruct (parsePair p) as [kv|] eqn:E; simpl.
  - rewrite (parsePair_reserved p kv E) IH. destruct (Bool.eqb (reservedKey kv) b); [|done]. by rewrite /= E.
  - rewrite IH. destruct (Bool.eqb (reservedPair p) b); [|done]. by rewrite /= E.
Qed.

Definition only (b : bool) (ps : list (string * string)) : list (string * string) :=
  List.filter (λ kv, Bool.eqb (reservedKey kv) b) ps.

Lemma appendQuery_reads base v : (∀ k, k ∈ dom v → k ∈ reservedRedirectQueryKeys) →
  let '(path, ps) := clientReads (appendQuery base v) in
  path = (clientReads base).1 ∧ only true ps = pairsOf v ∧ only false ps = only false (clientReads base).2.
Proof.
  intros Hv. rewrite /appendQuery /clientReads. pose proof (Cut_spec base "?") as Hc.
  destruct (Cut base "?") as [[path query] f]. destruct Hc as [Hpath _].
  set (kept := withoutReservedQueryKeys query).
  assert (nonEmptyPairs kept = List.filter (λ p, negb (reservedPair p)) (nonEmptyPairs query)) as Hk.
  { apply nonEmptyPairs_Join, Forall_forall. intros p [Hp _]%list_elem_of_In%List.filter_In.
    by apply (proj1 (Forall_forall _ _) (nonEmptyPairs_elem query)), list_elem_of_In. }
  assert (nonEmptyPairs (Encode v) = encodePair <$> pairsOf v) as He.
  { apply nonEmptyPairs_Join, Forall_fmap, Forall_forall. intros kv _. split; [apply encodePair_nonempty|].
    by apply encodePair_without. }
  set (query' := if (kept =?s EmptyString)%go then Encode v else kept +:+ String "&" (Encode v)).
  assert (nonEmptyPairs query' = List.filter (λ p, negb (reservedPair p)) (nonEmptyPairs query) ++ (encodePair <$> pairsOf v)) as Hq.
  { rewrite /query'. destruct (String.eqb_spec kept EmptyString) as [E|_].
    - rewrite E in Hk. change (nonEmptyPairs EmptyString) with (@nil string) in Hk. by rewrite -Hk He.
    - by rewrite nonEmptyPairs_app Hk He. }
  assert ((if (kept =?s EmptyString)%go then path +:+ String "?" (Encode v)
           else path +:+ String "?" (kept +:+ String "&" (Encode v))) = path +:+ String "?" query') as ->.
  { rewrite /query'. by destruct (kept =?s EmptyString)%go. }
  rewrite Cut_app //. split; [done|]. rewrite /only /ParseQuery /= Hq !omap_filter_reserved !List.filter_app !omap_app.
  assert (∀ kv, kv ∈ pairsOf v → reservedPair (encodePair kv) = true) as Hres.
  { intros [k x] (k' & Hk' & Hin)%list_elem_of_bind. apply list_elem_of_fmap in Hk' as (? & [= -> ->] & Hx).
    rewrite (parsePair_reserved _ _ (parsePair_encode _)) /reservedKey. apply bool_decide_eq_true, Hv. simpl.
    destruct (v !! k') as [l|] eqn:E; [by apply elem_of_dom|]. by apply elem_of_nil in Hx. }
  assert (omap parsePair (encodePair <$> pairsOf v) = pairsOf v) as Hom.
  { generalize (pairsOf v). intros l. induction l as [|kv l IH]; [done|]. cbn [fmap list_fmap omap list_omap].
    by rewrite parsePair_encode IH. }
  assert (∀ b, List.filter (λ p, Bool.eqb (reservedPair p) b) (encodePair <$> pairsOf v) =
    if b then encodePair <$> pairsOf v else []) as Henc.
  { intros []; [apply listfilter_all|apply listfilter_none]; intros p (kv & -> & Hin)%list_elem_of_fmap; by rewrite Hres. }
  assert (∀ b, List.filter (λ p, Bool.eqb (reservedPair p) b) (List.filter (λ p, negb (reservedPair p)) (nonEmptyPairs query)) =
    if b then [] else List.filter (λ p, Bool.eqb (reservedPair p) false) (nonEmptyPairs query)) as Hkept.
  { intros b. generalize (nonEmptyPairs query). intros l. induction l as [|p l IH]; [by destruct b|]. simpl.
    destruct (reservedPair p) eqn:E; simpl; rewrite IH; [done|]. rewrite E. by destruct b. }
  rewrite !Henc !Hkept Hom app_nil_r. done.
Qed.

(** A client that reads the redirect finds, under every name the server uses,
    exactly what the server put there, escapes undone; a registered URI cannot
    supply such a name, and its path and its other parameters arrive unchanged. *)
Theorem redirect_unshadowed uri code state iss e :
  (let '(path, ps) := clientReads (CodeRedirectURL uri code state iss) in
   path = (clientReads uri).1 ∧ only true ps = [("code", code); ("iss", iss); ("state", state)] ∧
   only false ps = only false (clientReads uri).2) ∧
  (let '(path, ps) := clientReads (ErrorRedirectURL uri e iss) in
   path = (clientReads uri).1 ∧
   only true ps = [("error", codeText (eCode e))] ++
     (if (Description e =?s EmptyString)%go then [] else [("error_description", Description e)]) ++
     [("iss", iss)] ++ (if (eState e =?s EmptyString)%go then [] else [("state", eState e)]) ∧
   only false ps = only false (clientReads uri).2).
Proof.
  split.
  - pose proof (appendQuery_reads uri (Set_ (Set_ (Set_ ∅ "code" code) "state" state) "iss" iss)) as H.
    rewrite /CodeRedirectURL. destruct (clientReads (appendQuery _ _)) as [path ps]. apply H.
    rewrite /Set_ !dom_insert_L dom_empty_L. set_solver.
  - rewrite /ErrorRedirectURL. set (v := Set_ _ _ iss).
    pose proof (appendQuery_reads uri v) as H. destruct (clientReads (appendQuery uri v)) as [path ps].
    destruct H as (-> & -> & ->).
    { rewrite /v /Set_ /setIf /Set_. destruct (Description e =?s _)%go, (eState e =?s _)%go;
        rewrite !dom_insert_L dom_empty_L; set_solver. }
    split_and!; [done| |done]. rewrite /v /setIf.
    by destruct (Description e =?s EmptyString)%go, (eState e =?s EmptyString)%go.
Qed.
End OAuthSrv.
