(* ===== verification/OAuthDb.v ===== *)
(** The tables of the OAuth authorization server
    ([src/api/internal/store/oauth.sql.go], migrations 00270, 00286 and 00287)
    and concurrent transactions over them.

    A statement runs on what its transaction sees: the committed rows under the
    transaction's own writes, read anew by every statement ([READ COMMITTED]).
    It writes rows and takes locks: a row it writes, a row it selects
    [FOR UPDATE], an advisory lock, the key of a unique index it inserts.  A lock
    is kept to the end of the transaction and a statement that needs one waits
    while another transaction has it.  Identifiers are drawn fresh.  A unique
    index is checked against what the transaction sees, and its violation is an
    error of the statement, as is any other failure. *)

From S2P Require Import Prelude Result Prog GoText GoStrings GoSearch OAuthSrv.

Local Open Scope Z_scope.

Module OAuthDb.

(** * Rows *)
Inductive Status := Pending | Approved | Redeemed | Denied | Superseded.
#[export] Instance Status_eq_dec : EqDecision Status.
Proof. solve_decision. Defined.

Record Product := mkProduct {
  enabled : bool; deleted : bool; redirect_uris : list string; oauth_scopes : list string;
  client_secret_hash : option string;
}.
Record Grant := mkGrant {
  g_user : uuid; g_product : uuid; g_scopes : list string;
  refresh_hash : option string; refresh_issued : option time; refresh_last_used : option time;
  consented_at : time; g_revoked : bool;
}.
Record Token := mkToken {
  t_user : uuid; t_product : uuid; t_hash : string; t_scopes : list string; t_revoked : bool;
  t_created : time; t_expires : option time; t_grant : option uuid;
}.
Record Req := mkReq {
  q_product : uuid; redirect_uri : string; q_scopes : list string; q_state : string; code_challenge : string;
  binding_hash : string; source_prefix : string; source_mid : string; source_wide : string;
  status : Status; q_user : option uuid; q_grant : option uuid; code_hash : option string;
  code_expires : option time; q_expires : time;
}.

Record rows := mkRows { grants : gmap uuid Grant; tokens : gmap uuid Token; requests : gmap uuid Req }.
(** [drawn]: every identifier that ever named a row. *)
Record DB := mkDB { products : gmap uuid Product; users : gmap uuid bool; tables : rows; drawn : gset uuid }.

Definition none : rows := mkRows ∅ ∅ ∅.
Definition over (w r : rows) : rows :=
  mkRows (grants w ∪ grants r) (tokens w ∪ tokens r) (requests w ∪ requests r).
Definition setTables (db : DB) (r : rows) : DB := mkDB (products db) (users db) r (drawn db).
Definition ids (w : rows) : gset uuid := dom (grants w) ∪ dom (tokens w) ∪ dom (requests w).
(** What a transaction with the writes [w] sees, and what its commit leaves. *)
Definition view (w : rows) (db : DB) : DB :=
  mkDB (products db) (users db) (over w (tables db)) (ids w ∪ drawn db).

Definition wGrants (m : gmap uuid Grant) : rows := mkRows m ∅ ∅.
Definition wTokens (m : gmap uuid Token) : rows := mkRows ∅ m ∅.
Definition wRequests (m : gmap uuid Req) : rows := mkRows ∅ ∅ m.

(** * Updates of a row *)
Definition withRefresh (h : option string) (issued last : option time) (g : Grant) : Grant :=
  mkGrant (g_user g) (g_product g) (g_scopes g) h issued last (consented_at g) (g_revoked g).
Definition reconsented (scopes : list string) (now : time) (g : Grant) : Grant :=
  mkGrant (g_user g) (g_product g) scopes None None None now (g_revoked g).
Definition revokedGrant (g : Grant) : Grant :=
  mkGrant (g_user g) (g_product g) (g_scopes g) None None None (consented_at g) true.
Definition revokedToken (t : Token) : Token :=
  mkToken (t_user t) (t_product t) (t_hash t) (t_scopes t) true (t_created t) (t_expires t) (t_grant t).
Definition decided (s : Status) (user : uuid) (r : Req) : Req :=
  mkReq (q_product r) (redirect_uri r) (q_scopes r) (q_state r) (code_challenge r) (binding_hash r)
    (source_prefix r) (source_mid r) (source_wide r) s (Some user) (q_grant r) (code_hash r) (code_expires r) (q_expires r).
Definition setStatus (s : Status) (r : Req) : Req :=
  mkReq (q_product r) (redirect_uri r) (q_scopes r) (q_state r) (code_challenge r) (binding_hash r)
    (source_prefix r) (source_mid r) (source_wide r) s (q_user r) (q_grant r) (code_hash r) (code_expires r) (q_expires r).
Definition withCode (hash : string) (expires : time) (grant : uuid) (r : Req) : Req :=
  mkReq (q_product r) (redirect_uri r) (q_scopes r) (q_state r) (code_challenge r) (binding_hash r)
    (source_prefix r) (source_mid r) (source_wide r) (status r) (q_user r) (Some grant) (Some hash) (Some expires) (q_expires r).

(** * Statements *)
Record TokenForRevoke := mkTokenRow { tr_ID : uuid; tr_Product : uuid; tr_Grant : option uuid; tr_Revoked : bool; tr_Expired : bool }.
Record PendingCounts := mkCounts { PrefixPending : Z; MidPending : Z; WidePending : Z; ProductPending : Z; GlobalPending : Z }.

Inductive stmt : Type → Type :=
  | GetProduct (id : uuid) : stmt (option Product)
  | GetProductForShare (id : uuid) : stmt (option Product)
  | GetUserByID (id : uuid) : stmt (option bool)
  | GetOAuthAuthorizeRequest (id : uuid) : stmt (option Req)
  | GetOAuthAuthorizeRequestByCodeHash (hash : string) : stmt (option (uuid * Req))
  | GetOAuthGrantIDByRefreshHash (hash : string) : stmt (option uuid)
  | GetProductTokenForOAuthRevoke (hash : string) : stmt (option TokenForRevoke)
  | GetOwnProductTokenGrantID (id user : uuid) : stmt (option (option uuid))
  | GetProductTokenGrantID (id : uuid) : stmt (option (option uuid))
  | LockOAuthUserGrants (user : uuid) : stmt unit
  | SetOAuthAuthorizeLockTimeout (timeout : string) : stmt unit
  | LockOAuthAuthorize (product : uuid) : stmt unit
  | LockOAuthGrant (id : uuid) : stmt (option Grant)
  | LockLiveOAuthGrant (user product : uuid) : stmt (option (uuid * Grant))
  | LockLiveOAuthGrantsForUser (user : uuid) : stmt (list uuid)
  | OAuthGrantRefreshWithinLifetimes (idle absolute : Z) (id : uuid) : stmt (option bool)
  | OAuthGrantHasTokenOutsideScopes (grant : uuid) (scopes : list string) : stmt bool
  | CountLiveGrantTokens (grant : uuid) : stmt (Z * option time)
  | CountGrantTokensMintedSince (window : Z) (grant : uuid) : stmt (Z * Z)
  | CountLivePendingOAuthRequests (product : uuid) (prefix : string) (prefixLimit : Z) (mid : string) (midLimit : Z)
      (wide : string) (wideLimit productLimit globalLimit : Z) : stmt PendingCounts
  | InsertOAuthGrant (user product : uuid) (scopes : list string) : stmt (option (uuid * Grant))
  | ReconsentOAuthGrant (scopes : list string) (id : uuid) : stmt (option Grant)
  | SetOAuthGrantRefreshToken (hash : string) (id : uuid) : stmt (option Grant)
  | TouchOAuthGrantRefreshUse (id : uuid) : stmt Z
  | RevokeOAuthGrantRow (id : uuid) : stmt Z
  | CreateGrantProductToken (user product : uuid) (hash : string) (scopes : list string) (expires : time) (grant : uuid)
      : stmt (option uuid)
  | RevokeOAuthGrantProductTokens (grant : uuid) : stmt Z
  | RevokeOAuthGrantAccessToken (id grant : uuid) : stmt Z
  | RevokeAllCLITokens (user : uuid) : stmt unit
  | RevokeAllProductTokens (user : uuid) : stmt unit
  | RevokeProductToken (id user : uuid) : stmt Z
  | AdminRevokeProductToken (id : uuid) : stmt Z
  | CreateOAuthAuthorizeRequest (r : Req) : stmt uuid
  | ClaimOAuthAuthorizeRequest (user id : uuid) : stmt (option Req)
  | DenyOAuthAuthorizeRequest (user id : uuid) : stmt (option Req)
  | IssueOAuthAuthorizationCode (hash : string) (expires : time) (grant id user : uuid) : stmt (option Req)
  | RedeemOAuthAuthorizeRequest (id : uuid) : stmt (option Req)
  | SupersedeOAuthGrantCodes (grant : uuid) : stmt Z.

(** ** Conditions *)
Definition seconds (n : Z) : duration := n * Go.Second.
Definition liveGrant (g : Grant) : bool := negb (g_revoked g).
Definition ofGrant (g : uuid) (t : Token) : bool := bool_decide (t_grant t = Some g).
Definition liveToken (now : time) (t : Token) : bool :=
  negb (t_revoked t) && match t_expires t with Some e => now <? e | None => false end.
Definition codeOf (g : uuid) (r : Req) : bool := bool_decide (q_grant r = Some g).
Definition isStatus (s : Status) (r : Req) : bool := bool_decide (status r = s).
Definition subset (a b : list string) : bool := forallb (OAuthSrv.contains b) a.
(** The CHECKs on scopes: not empty, all known. *)
Definition scopesOk (l : list string) : bool := (0 <? length l)%nat && subset l OAuthSrv.Scopes.
Definition pendingOf (now : time) (product : uuid) (r : Req) : bool :=
  isStatus Pending r && (now <? q_expires r) && bool_decide (q_product r = product).

Definition pick {A} (p : A → bool) (m : gmap uuid A) : gmap uuid A := filter (λ '(_, x), p x = true) m.
Definition count {A} (p : A → bool) (m : gmap uuid A) : Z := Z.of_nat (size (pick p m)).
Definition find {A} (p : A → bool) (m : gmap uuid A) : option (uuid * A) :=
  List.find (λ '(_, x), p x) (map_to_list m).
Definition least (l : list time) : option time :=
  match l with [] => None | t :: l' => Some (foldl Z.min t l') end.
(** Ids in ascending order. *)
Definition uuidLe (a b : uuid) : Prop := bytes_compare (vec_to_list a) (vec_to_list b) <= 0.
#[export] Instance uuidLe_dec a b : Decision (uuidLe a b).
Proof. rewrite /uuidLe. apply _. Defined.

Definition idleSince (g : Grant) : option time :=
  match refresh_last_used g with Some t => Some t | None => refresh_issued g end.
Definition withinLifetimes (now : time) (idle absolute : Z) (g : Grant) : bool :=
  match idleSince g with
  | Some t => (now - seconds idle <=? t) && (now - seconds absolute <=? consented_at g)
  | None => false
  end.
(** [GREATEST(1, ceil(seconds until the oldest of the window leaves it))]. *)
Definition retryAfter (now : time) (window : Z) (oldest : option time) : Z :=
  match oldest with
  | None => 1
  | Some t => Z.max 1 (- (- (t + seconds window - now) / Go.Second))
  end.

(** ** Answer and writes; [None] is a violated constraint *)
Definition update1 {A} (m : gmap uuid A) (id : uuid) (p : A → bool) (f : A → A) : option A :=
  x ← m !! id; if p x then Some (f x) else None.

(** The statements, under the names of their texts. *)
Definition getProduct (db : DB) (p : uuid) : option (option Product * rows) :=
  Some (products db !! p, none).
Definition getProductForShare (db : DB) (p : uuid) : option (option Product * rows) :=
  Some (products db !! p, none).
Definition getUserByID (db : DB) (u : uuid) : option (option bool * rows) :=
  Some (users db !! u, none).
Definition getOAuthAuthorizeRequest (db : DB) (r : uuid) : option (option Req * rows) :=
  Some (requests (tables db) !! r, none).
Definition getOAuthAuthorizeRequestByCodeHash (db : DB) (h : string) : option (option (uuid * Req) * rows) :=
  Some (find (λ r, bool_decide (code_hash r = Some h)) (requests (tables db)), none).
Definition getOAuthGrantIDByRefreshHash (db : DB) (h : string) : option (option uuid * rows) :=
  Some (fst <$> find (λ g, bool_decide (refresh_hash g = Some h)) (grants (tables db)), none).
Definition getProductTokenForOAuthRevoke (now : time) (db : DB) (h : string)
  : option (option TokenForRevoke * rows) :=
  Some ((λ '(i, t), mkTokenRow i (t_product t) (t_grant t) (t_revoked t)
           (match t_expires t with Some e => e <=? now | None => false end))
        <$> find (λ t, (t_hash t =?s h)%go) (tokens (tables db)), none).
Definition getOwnProductTokenGrantID (db : DB) (t u : uuid) : option (option (option uuid) * rows) :=
  Some (t_grant <$> update1 (tokens (tables db)) t (λ t, bool_decide (t_user t = u) && negb (t_revoked t)) (λ t, t), none).
Definition getProductTokenGrantID (db : DB) (t : uuid) : option (option (option uuid) * rows) :=
  Some (t_grant <$> update1 (tokens (tables db)) t (λ t, negb (t_revoked t)) (λ t, t), none).
Definition lockOAuthGrant (db : DB) (g : uuid) : option (option Grant * rows) :=
  Some (grants (tables db) !! g, none).
Definition lockLiveOAuthGrant (db : DB) (u p : uuid) : option (option (uuid * Grant) * rows) :=
  Some (find (λ g, bool_decide (g_user g = u) && bool_decide (g_product g = p) && liveGrant g) (grants (tables db)), none).
Definition lockLiveOAuthGrantsForUser (db : DB) (u : uuid) : option (list uuid * rows) :=
  Some (merge_sort uuidLe (map_to_list (pick (λ g, bool_decide (g_user g = u) && liveGrant g) (grants (tables db)))).*1, none).
Definition oAuthGrantRefreshWithinLifetimes (now : time) (db : DB) (idle absolute : Z) (g : uuid)
  : option (option bool * rows) :=
  Some (withinLifetimes now idle absolute <$> grants (tables db) !! g, none).
Definition oAuthGrantHasTokenOutsideScopes (db : DB) (g : uuid) (scopes : list string) : option (bool * rows) :=
  Some (0 <? count (λ t, ofGrant g t && negb (t_revoked t) && negb (subset (t_scopes t) scopes)) (tokens (tables db)), none).
Definition countLiveGrantTokens (now : time) (db : DB) (g : uuid) : option (Z * option time * rows) :=
  let live := pick (λ t, ofGrant g t && liveToken now t) (tokens (tables db)) in
  Some ((Z.of_nat (size live), least (omap (λ x, t_expires x.2) (map_to_list live))), none).
Definition countGrantTokensMintedSince (now : time) (db : DB) (window : Z) (g : uuid) : option (Z * Z * rows) :=
  let minted := pick (λ t, ofGrant g t && (now - seconds window <? t_created t)) (tokens (tables db)) in
  Some ((Z.of_nat (size minted), retryAfter now window (least ((λ x, t_created x.2) <$> map_to_list minted))), none).
Definition countLivePendingOAuthRequests (now : time) (db : DB) (p : uuid) (prefix : string) (prefixLimit : Z)
    (mid : string) (midLimit : Z) (wide : string) (wideLimit productLimit globalLimit : Z) : option (PendingCounts * rows) :=
  Some (mkCounts
    (Z.min prefixLimit (count (λ r, pendingOf now p r && (source_prefix r =?s prefix)%go) (requests (tables db))))
    (Z.min midLimit (count (λ r, pendingOf now p r && (source_mid r =?s mid)%go) (requests (tables db))))
    (Z.min wideLimit (count (λ r, pendingOf now p r && (source_wide r =?s wide)%go) (requests (tables db))))
    (Z.min productLimit (count (pendingOf now p) (requests (tables db))))
    (Z.min globalLimit (count (λ r, isStatus Pending r && (now <? q_expires r)) (requests (tables db)))), none).
Definition insertOAuthGrant (now : time) (id : uuid) (db : DB) (u p : uuid) (scopes : list string)
  : option (option (uuid * Grant) * rows) :=
  if negb (scopesOk scopes) || bool_decide (users db !! u = None) || bool_decide (products db !! p = None) then None else
  if find (λ g, bool_decide (g_user g = u) && bool_decide (g_product g = p) && liveGrant g) (grants (tables db))
  then Some (None, none)
  else let g := mkGrant u p scopes None None None now false in Some (Some (id, g), wGrants {[id := g]}).
Definition reconsentOAuthGrant (now : time) (db : DB) (scopes : list string) (g : uuid)
  : option (option Grant * rows) :=
  if negb (scopesOk scopes) then None else
  match update1 (grants (tables db)) g liveGrant (reconsented scopes now) with
  | Some g' => Some (Some g', wGrants {[g := g']})
  | None => Some (None, none)
  end.
Definition setOAuthGrantRefreshToken (now : time) (db : DB) (h : string) (g : uuid) : option (option Grant * rows) :=
  if find (λ g', bool_decide (refresh_hash g' = Some h)) (delete g (grants (tables db))) then None else
  match update1 (grants (tables db)) g liveGrant (withRefresh (Some h) (Some now) None) with
  | Some g' => Some (Some g', wGrants {[g := g']})
  | None => Some (None, none)
  end.
Definition touchOAuthGrantRefreshUse (now : time) (db : DB) (g : uuid) : option (Z * rows) :=
  match update1 (grants (tables db)) g liveGrant (λ x, withRefresh (refresh_hash x) (refresh_issued x) (Some now) x) with
  | Some g' => Some (1, wGrants {[g := g']})
  | None => Some (0, none)
  end.
Definition revokeOAuthGrantRow (db : DB) (g : uuid) : option (Z * rows) :=
  match update1 (grants (tables db)) g liveGrant revokedGrant with
  | Some g' => Some (1, wGrants {[g := g']})
  | None => Some (0, none)
  end.
Definition createGrantProductToken (now : time) (id : uuid) (db : DB) (u p : uuid) (h : string) (scopes : list string)
    (expires : time) (g : uuid) : option (option uuid * rows) :=
  match products db !! p with
  | Some prod =>
    if negb (enabled prod) || deleted prod then Some (None, none) else
    if negb (scopesOk scopes) || bool_decide (grants (tables db) !! g = None) || bool_decide (users db !! u = None) then None else
    if find (λ t, (t_hash t =?s h)%go) (tokens (tables db)) then None else
    Some (Some id, wTokens {[id := mkToken u p h scopes false now (Some expires) (Some g)]})
  | None => Some (None, none)
  end.
Definition revokeOAuthGrantProductTokens (db : DB) (g : uuid) : option (Z * rows) :=
  let m := pick (λ t, ofGrant g t && negb (t_revoked t)) (tokens (tables db)) in
  Some (Z.of_nat (size m), wTokens (revokedToken <$> m)).
Definition revokeOAuthGrantAccessToken (db : DB) (t g : uuid) : option (Z * rows) :=
  match update1 (tokens (tables db)) t (λ t, ofGrant g t && negb (t_revoked t)) revokedToken with
  | Some t' => Some (1, wTokens {[t := t']})
  | None => Some (0, none)
  end.
Definition revokeAllProductTokens (db : DB) (u : uuid) : option (unit * rows) :=
  let m := pick (λ t, bool_decide (t_user t = u) && bool_decide (t_grant t = None) && negb (t_revoked t)) (tokens (tables db)) in
  Some (tt, wTokens (revokedToken <$> m)).
Definition revokeProductToken (db : DB) (t u : uuid) : option (Z * rows) :=
  match update1 (tokens (tables db)) t (λ t, bool_decide (t_user t = u) && negb (t_revoked t)) revokedToken with
  | Some t' => Some (1, wTokens {[t := t']})
  | None => Some (0, none)
  end.
Definition adminRevokeProductToken (db : DB) (t : uuid) : option (Z * rows) :=
  match update1 (tokens (tables db)) t (λ t, negb (t_revoked t)) revokedToken with
  | Some t' => Some (1, wTokens {[t := t']})
  | None => Some (0, none)
  end.
Definition createOAuthAuthorizeRequest (id : uuid) (db : DB) (r : Req) : option (uuid * rows) :=
  if negb (scopesOk (q_scopes r)) || bool_decide (products db !! q_product r = None) then None else
  Some (id, wRequests {[id := r]}).
Definition claimOAuthAuthorizeRequest (now : time) (db : DB) (u r : uuid) : option (option Req * rows) :=
  match update1 (requests (tables db)) r (λ r, isStatus Pending r && (now <? q_expires r)) (decided Approved u) with
  | Some r' => Some (Some r', wRequests {[r := r']})
  | None => Some (None, none)
  end.
Definition denyOAuthAuthorizeRequest (now : time) (db : DB) (u r : uuid) : option (option Req * rows) :=
  match update1 (requests (tables db)) r (λ r, isStatus Pending r && (now <? q_expires r)) (decided Denied u) with
  | Some r' => Some (Some r', wRequests {[r := r']})
  | None => Some (None, none)
  end.
Definition issueOAuthAuthorizationCode (db : DB) (h : string) (expires : time) (g r u : uuid)
  : option (option Req * rows) :=
  if find (λ r', bool_decide (code_hash r' = Some h)) (delete r (requests (tables db))) then None else
  match update1 (requests (tables db)) r (λ r, isStatus Approved r && bool_decide (q_user r = Some u)) (withCode h expires g) with
  | Some r' => Some (Some r', wRequests {[r := r']})
  | None => Some (None, none)
  end.
Definition redeemOAuthAuthorizeRequest (now : time) (db : DB) (r : uuid) : option (option Req * rows) :=
  match update1 (requests (tables db)) r (λ r, isStatus Approved r && match code_expires r with Some e => now <? e | None => false end)
          (setStatus Redeemed) with
  | Some r' => Some (Some r', wRequests {[r := r']})
  | None => Some (None, none)
  end.
Definition supersedeOAuthGrantCodes (db : DB) (g : uuid) : option (Z * rows) :=
  let m := pick (λ r, codeOf g r && isStatus Approved r) (requests (tables db)) in
  Some (Z.of_nat (size m), wRequests (setStatus Superseded <$> m)).

Definition effect (now : time) (id : uuid) (db : DB) {X} (s : stmt X) : option (X * rows) :=
  match s in stmt X return option (X * rows) with
  | GetProduct p => getProduct db p
  | GetProductForShare p => getProductForShare db p
  | GetUserByID u => getUserByID db u
  | GetOAuthAuthorizeRequest r => getOAuthAuthorizeRequest db r
  | GetOAuthAuthorizeRequestByCodeHash h => getOAuthAuthorizeRequestByCodeHash db h
  | GetOAuthGrantIDByRefreshHash h => getOAuthGrantIDByRefreshHash db h
  | GetProductTokenForOAuthRevoke h => getProductTokenForOAuthRevoke now db h
  | GetOwnProductTokenGrantID t u => getOwnProductTokenGrantID db t u
  | GetProductTokenGrantID t => getProductTokenGrantID db t
  | LockOAuthUserGrants _ | SetOAuthAuthorizeLockTimeout _ | LockOAuthAuthorize _ => Some (tt, none)
  | LockOAuthGrant g => lockOAuthGrant db g
  | LockLiveOAuthGrant u p => lockLiveOAuthGrant db u p
  | LockLiveOAuthGrantsForUser u => lockLiveOAuthGrantsForUser db u
  | OAuthGrantRefreshWithinLifetimes idle absolute g => oAuthGrantRefreshWithinLifetimes now db idle absolute g
  | OAuthGrantHasTokenOutsideScopes g scopes => oAuthGrantHasTokenOutsideScopes db g scopes
  | CountLiveGrantTokens g => countLiveGrantTokens now db g
  | CountGrantTokensMintedSince window g => countGrantTokensMintedSince now db window g
  | CountLivePendingOAuthRequests p prefix prefixLimit mid midLimit wide wideLimit productLimit globalLimit =>
    countLivePendingOAuthRequests now db p prefix prefixLimit mid midLimit wide wideLimit productLimit globalLimit
  | InsertOAuthGrant u p scopes => insertOAuthGrant now id db u p scopes
  | ReconsentOAuthGrant scopes g => reconsentOAuthGrant now db scopes g
  | SetOAuthGrantRefreshToken h g => setOAuthGrantRefreshToken now db h g
  | TouchOAuthGrantRefreshUse g => touchOAuthGrantRefreshUse now db g
  | RevokeOAuthGrantRow g => revokeOAuthGrantRow db g
  | CreateGrantProductToken u p h scopes expires g => createGrantProductToken now id db u p h scopes expires g
  | RevokeOAuthGrantProductTokens g => revokeOAuthGrantProductTokens db g
  | RevokeOAuthGrantAccessToken t g => revokeOAuthGrantAccessToken db t g
  | RevokeAllCLITokens _ => Some (tt, none)  (* another table *)
  | RevokeAllProductTokens u => revokeAllProductTokens db u
  | RevokeProductToken t u => revokeProductToken db t u
  | AdminRevokeProductToken t => adminRevokeProductToken db t
  | CreateOAuthAuthorizeRequest r => createOAuthAuthorizeRequest id db r
  | ClaimOAuthAuthorizeRequest u r => claimOAuthAuthorizeRequest now db u r
  | DenyOAuthAuthorizeRequest u r => denyOAuthAuthorizeRequest now db u r
  | IssueOAuthAuthorizationCode h expires g r u => issueOAuthAuthorizationCode db h expires g r u
  | RedeemOAuthAuthorizeRequest r => redeemOAuthAuthorizeRequest now db r
  | SupersedeOAuthGrantCodes g => supersedeOAuthGrantCodes db g
  end.

(** A statement's effect in full. *)
Ltac opened H := cbn [effect] in H; cbv beta delta [getProduct getProductForShare getUserByID getOAuthAuthorizeRequest
  getOAuthAuthorizeRequestByCodeHash getOAuthGrantIDByRefreshHash getProductTokenForOAuthRevoke getOwnProductTokenGrantID
  getProductTokenGrantID lockOAuthGrant lockLiveOAuthGrant lockLiveOAuthGrantsForUser oAuthGrantRefreshWithinLifetimes
  oAuthGrantHasTokenOutsideScopes countLiveGrantTokens countGrantTokensMintedSince countLivePendingOAuthRequests
  insertOAuthGrant reconsentOAuthGrant setOAuthGrantRefreshToken touchOAuthGrantRefreshUse revokeOAuthGrantRow
  createGrantProductToken revokeOAuthGrantProductTokens revokeOAuthGrantAccessToken revokeAllProductTokens
  revokeProductToken adminRevokeProductToken createOAuthAuthorizeRequest claimOAuthAuthorizeRequest
  denyOAuthAuthorizeRequest issueOAuthAuthorizationCode redeemOAuthAuthorizeRequest supersedeOAuthGrantCodes] in H.

(** * Locks *)
Inductive item :=
  | LGrant (id : uuid) | LToken (id : uuid) | LReq (id : uuid)
  | LKey (user product : uuid)      (* the unique index of live grants *)
  | LUser (user : uuid)             (* LockOAuthUserGrants *)
  | LAuthorize (product : uuid)     (* LockOAuthAuthorize *)
  | LShare (product : uuid)         (* FOR SHARE *)
  | LId (id : uuid).                (* a drawn identifier *)

Definition written (w : rows) : list item :=
  (LGrant <$> (map_to_list (grants w)).*1) ++ (LToken <$> (map_to_list (tokens w)).*1)
  ++ (LReq <$> (map_to_list (requests w)).*1).

Definition wanted {X} (s : stmt X) : X → list item :=
  match s in stmt X return X → list item with
  | GetProductForShare p => λ _, [LShare p]
  | LockOAuthUserGrants u => λ _, [LUser u]
  | LockOAuthAuthorize p => λ _, [LAuthorize p]
  | LockOAuthGrant g => λ x, match x with Some _ => [LGrant g] | None => [] end
  | LockLiveOAuthGrant _ _ => λ x, match x with Some (g, _) => [LGrant g] | None => [] end
  | LockLiveOAuthGrantsForUser _ => λ l, LGrant <$> l
  | InsertOAuthGrant u p _ => λ x, match x with Some _ => [LKey u p] | None => [] end
  | _ => λ _, []
  end.
End OAuthDb.
