(* ===== verification/OAuthTx.v ===== *)
(** Concurrent handlers over the tables of [OAuthDb]: every handler is a
    program of statements and transaction commands, and the programs of any
    number of requests interleave statement by statement, with the other writers
    of the tables (administrators, user deletion, manual tokens, the sweep) in
    between.

    [answers] is the view one handler has of this: between two of its statements
    the committed rows may change, but not what its locks protect ([agree]).  The
    theorem [sys_invariant] says that this view is sound: what every handler
    guarantees in its own view holds in every interleaving. *)

From S2P Require Import Prelude Result Prog GoText GoStrings GoSearch OAuthSrv OAuthDb.

Local Open Scope Z_scope.

Module OAuthTx.
Import OAuthDb.

(** * Requests of a handler *)
Inductive dbErr := DbFailed | LockTimeout.

Inductive req : Type → Type :=
  | Stmt {X} (s : stmt X) : req (result dbErr X)
  | DeleteExpiredOAuthAuthorizeRequests : req (result dbErr unit)
  | Begin : req (result dbErr unit)
  | Commit : req (result dbErr unit)
  | Rollback : req unit
  | Now : req time                          (* the clock of the api *)
  | Rand : req (option string)              (* crypto/rand *)
  | Allow (key : string) : req bool.        (* the rate limiter *)

(** A transaction: its [now()], its writes, its locks. *)
Record txn := mkTxn { tnow : time; pend : rows; held : list item }.

Definition sweepable (now : time) (r : Req) : bool :=
  match status r with
  | Pending | Denied | Superseded => q_expires r <? now
  | Approved | Redeemed => match code_expires r with Some e => e <? now - 10 * Go.Minute | None => false end
  end.

(** * One request of one handler

    [pstep clk db t r x db' t' fp]: at the database's clock [clk], with [db]
    committed and the transaction [t], the request [r] is answered [x]; [fp] are
    the locks it has to get. *)
Inductive pstep (clk : time) (db : DB) (t : option txn) : ∀ X, req X → X → DB → option txn → list item → Prop :=
  | P_stmt X (s : stmt X) x w id tx : t = Some tx →
      id ∉ drawn db → LId id ∉ held tx → effect (tnow tx) id (view (pend tx) db) s = Some (x, w) →
      pstep clk db t _ (Stmt s) (Ok x) db
        (Some (mkTxn (tnow tx) (over w (pend tx)) ((LId id :: wanted s x ++ written w) ++ held tx)))
        (LId id :: wanted s x ++ written w)
  | P_read X (s : stmt X) x id : t = None → effect clk id db s = Some (x, none) →
      pstep clk db t _ (Stmt s) (Ok x) db None []
  | P_fail X (s : stmt X) e : pstep clk db t _ (Stmt s) (Err e) db t []
  | P_sweep : t = None →
      pstep clk db t _ DeleteExpiredOAuthAuthorizeRequests (Ok tt)
        (setTables db (mkRows (grants (tables db)) (tokens (tables db)) (pick (λ r, negb (sweepable clk r)) (requests (tables db)))))
        None (LReq <$> (map_to_list (pick (sweepable clk) (requests (tables db)))).*1)
  | P_sweep_fail e : pstep clk db t _ DeleteExpiredOAuthAuthorizeRequests (Err e) db t []
  | P_begin : t = None → pstep clk db t _ Begin (Ok tt) db (Some (mkTxn clk none [])) []
  | P_begin_fail e : pstep clk db t _ Begin (Err e) db t []
  | P_commit tx x : t = Some tx → pstep clk db t _ Commit x (view (pend tx) db) None []
  | P_commit_fail e : pstep clk db t _ Commit (Err e) db None []
  | P_rollback : pstep clk db t _ Rollback tt db None []
  | P_now x : pstep clk db t _ Now x db t []
  | P_rand x : pstep clk db t _ Rand x db t []
  | P_allow k x : pstep clk db t _ (Allow k) x db t [].

(** The codes a step redeems, with their rows. *)
Definition newlyRedeemed (old new : rows) : list (uuid * Req) :=
  List.filter (λ '(id, _), match requests old !! id with Some r => negb (isStatus Redeemed r) | None => true end)
    (map_to_list (pick (isStatus Redeemed) (requests new))).

(** * The system *)
Definition locked (i : item) (t : option txn) : Prop := match t with Some t => i ∈ held t | None => False end.
(** Share locks do not exclude each other. *)
Definition shared (i : item) : bool := match i with LShare _ => true | _ => false end.

(** The rows a transaction has written for a user. *)
Definition concerns (u : uuid) (w : rows) : Prop :=
  (∃ id g, grants w !! id = Some g ∧ g_user g = u) ∨ (∃ id t, tokens w !! id = Some t ∧ t_user t = u) ∨
  (∃ id r, requests w !! id = Some r ∧ q_user r = Some u).

Section System.
Context {C A : Type} (serve : C → prog req A).

(** A handler under way, what it was asked and the committed rows when it began;
    it has answered when its body is [Ret].  [exchanged] are the codes it has
    committed as redeemed. *)
Record proc := mkProc { asked : C; began : DB; body : prog req A; tx : option txn; exchanged : list (uuid * Req) }.
Record sys := mkSys { clk : time; db : DB; procs : gmap nat proc; exchanges : list (nat * (uuid * Req)) }.

Definition free (s : sys) (p : nat) (fp : list item) : Prop :=
  ∀ p' pr i, procs s !! p' = Some pr → p' ≠ p → i ∈ fp → shared i = false → ¬ locked i (tx pr).
Definition unlocked (s : sys) (i : item) : Prop := ∀ p pr, procs s !! p = Some pr → ¬ locked i (tx pr).

(** ** The other writers *)
Inductive estep (s : sys) : DB → Prop :=
  (** An administrator registers or changes a product whose row is not locked. *)
  | E_product p x : unlocked s (LShare p) →
      estep s (mkDB (<[p := x]> (products (db s))) (users (db s)) (tables (db s)) (drawn (db s)))
  | E_user u active :
      estep s (mkDB (products (db s)) (<[u := active]> (users (db s))) (tables (db s)) (drawn (db s)))
  (** A user is deleted, with the rows that refer to it. *)
  | E_delete_user u :
      (∀ id g, grants (tables (db s)) !! id = Some g → g_user g = u → unlocked s (LGrant id)) →
      (∀ id t, tokens (tables (db s)) !! id = Some t → t_user t = u → unlocked s (LToken id)) →
      (∀ id r, requests (tables (db s)) !! id = Some r → q_user r = Some u → unlocked s (LReq id)) →
      (∀ p pr t, procs s !! p = Some pr → tx pr = Some t → ¬ concerns u (pend t)) →
      estep s (mkDB (products (db s)) (delete u (users (db s)))
           (mkRows (pick (λ g, negb (bool_decide (g_user g = u))) (grants (tables (db s))))
              (pick (λ t, negb (bool_decide (t_user t = u))) (tokens (tables (db s))))
              (pick (λ r, negb (bool_decide (q_user r = Some u))) (requests (tables (db s)))))
           (drawn (db s)))
  (** A manual token is minted, used or revoked. *)
  | E_manual id t : t_grant t = None → unlocked s (LToken id) →
      (∀ t0, tokens (tables (db s)) !! id = Some t0 → t_grant t0 = None) →
      (tokens (tables (db s)) !! id = None → id ∉ drawn (db s) ∧ unlocked s (LId id)) →
      estep s (mkDB (products (db s)) (users (db s))
           (mkRows (grants (tables (db s))) (<[id := t]> (tokens (tables (db s)))) (requests (tables (db s))))
           ({[id]} ∪ drawn (db s))).

Inductive step (s : sys) : sys → Prop :=
  | S_start p c : procs s !! p = None → (∀ e, (p, e) ∉ exchanges s) →
      step s (mkSys (clk s) (db s) (<[p := mkProc c (db s) (serve c) None []]> (procs s)) (exchanges s))
  | S_request p c d0 X (r : req X) k t red x db' t' fp :
      procs s !! p = Some (mkProc c d0 (Vis r k) t red) →
      pstep (clk s) (db s) t X r x db' t' fp → free s p fp →
      step s (mkSys (clk s) db'
                (<[p := mkProc c d0 (k x) t' (newlyRedeemed (tables (db s)) (tables db') ++ red)]> (procs s))
                ((pair p <$> newlyRedeemed (tables (db s)) (tables db')) ++ exchanges s))
  (** The process dies; its transaction is rolled back. *)
  | S_crash p : step s (mkSys (clk s) (db s) (delete p (procs s)) (exchanges s))
  | S_clock c : clk s <= c → step s (mkSys c (db s) (procs s) (exchanges s))
  | S_other db' : estep s db' → step s (mkSys (clk s) db' (procs s) (exchanges s)).

Inductive reachable (s0 : sys) : sys → Prop :=
  | R_init : reachable s0 s0
  | R_step s s' : reachable s0 s → step s s' → reachable s0 s'.
End System.
Arguments proc : clear implicits.
Arguments sys : clear implicits.

(** * What a handler sees of the others *)
Definition after (s s' : Status) : bool :=
  match s, s' with
  | Pending, _ => true
  | Approved, (Approved | Redeemed | Superseded) => true
  | Redeemed, Redeemed | Denied, Denied | Superseded, Superseded => true
  | _, _ => false
  end.
(** A request only moves forward: what was asked is kept, and so is the code. *)
Record forward (r r' : Req) : Prop := mkForward {
  f_status : after (status r) (status r') = true;
  f_product : q_product r' = q_product r;
  f_redirect : redirect_uri r' = redirect_uri r;
  f_scopes : q_scopes r' = q_scopes r;
  f_challenge : code_challenge r' = code_challenge r;
  f_code g : q_grant r = Some g →
    q_grant r' = Some g ∧ code_hash r' = code_hash r ∧ code_expires r' = code_expires r ∧ q_user r' = q_user r;
}.
Record forwardG (g g' : Grant) : Prop := mkForwardG {
  fg_user : g_user g' = g_user g; fg_product : g_product g' = g_product g; fg_revoked : g_revoked g = true → g_revoked g' = true }.
Record forwardT (t t' : Token) : Prop := mkForwardT {
  ft_grant : t_grant t' = t_grant t; ft_scopes : t_scopes t' = t_scopes t; ft_user : t_user t' = t_user t;
  ft_revoked : t_revoked t = true → t_revoked t' = true }.

Record evolves (d d' : DB) : Prop := mkEvolves {
  e_drawn : drawn d ⊆ drawn d';
  e_request id r' : id ∈ drawn d → requests (tables d') !! id = Some r' →
    ∃ r, requests (tables d) !! id = Some r ∧ forward r r';
  e_grant id g' : id ∈ drawn d → grants (tables d') !! id = Some g' →
    ∃ g, grants (tables d) !! id = Some g ∧ forwardG g g';
  e_token id t' : id ∈ drawn d → t_grant t' ≠ None → tokens (tables d') !! id = Some t' →
    ∃ t, tokens (tables d) !! id = Some t ∧ forwardT t t';
}.

(** The protection of a lock. *)
Definition protects (d d' : DB) (i : item) : Prop :=
  let R := tables d in let R' := tables d' in
  match i with
  | LGrant g => grants R' !! g = grants R !! g ∧
      (∀ id t, t_grant t = Some g → tokens R' !! id = Some t ↔ tokens R !! id = Some t) ∧
      (∀ id r, q_grant r = Some g → requests R' !! id = Some r → requests R !! id = Some r)
  | LToken id => tokens R' !! id = tokens R !! id
  | LReq id => requests R' !! id = requests R !! id
  | LKey u p => ∀ id g, grants R' !! id = Some g → g_user g = u → g_product g = p → liveGrant g = true →
      ∃ g0, grants R !! id = Some g0 ∧ g_user g0 = u ∧ g_product g0 = p ∧ liveGrant g0 = true
  | LUser u => ∀ id g, grants R' !! id = Some g → g_user g = u → liveGrant g = true →
      ∃ g0, grants R !! id = Some g0 ∧ g_user g0 = u ∧ liveGrant g0 = true
  | LAuthorize p => ∀ id r, requests R' !! id = Some r → q_product r = p → status r = Pending →
      requests R !! id = Some r
  | LShare p => products d' !! p = products d !! p
  | LId id => id ∈ drawn d' → id ∈ drawn d
  end.
Definition agree (t : option txn) (d d' : DB) : Prop := evolves d d' ∧ ∀ i, locked i t → protects d d' i.

(** An identifier a transaction has drawn for a row nobody has seen. *)
Definition fresh (d : DB) (t : txn) (id : uuid) : Prop := id ∉ drawn d ∧ LId id ∈ held t.

(** What a transaction may have written: rows it has locked, under grants it has
    locked. *)
Record disciplined (d : DB) (t : txn) : Prop := mkDisc {
  d_grant id g : grants (pend t) !! id = Some g → LGrant id ∈ held t ∧
    match grants (tables d) !! id with
    | Some g0 => forwardG g0 g
    | None => fresh d t id ∧ (liveGrant g = true → LKey (g_user g) (g_product g) ∈ held t ∧ LUser (g_user g) ∈ held t)
    end;
  d_token id x : tokens (pend t) !! id = Some x → LToken id ∈ held t ∧
    (∀ g, t_grant x = Some g → LGrant g ∈ held t) ∧
    match tokens (tables d) !! id with
    | Some x0 => forwardT x0 x
    | None => fresh d t id ∧ t_grant x ≠ None
    end;
  d_request id r : requests (pend t) !! id = Some r → LReq id ∈ held t ∧
    (∀ g, q_grant r = Some g → LGrant g ∈ held t) ∧
    match requests (tables d) !! id with
    | Some r0 => forward r0 r ∧ status r ≠ Pending
    | None => fresh d t id ∧ (status r = Pending → LAuthorize (q_product r) ∈ held t)
    end;
}.

(** * Lemmas *)
Lemma lookup_over_grants w r id :
  grants (over w r) !! id = match grants w !! id with Some g => Some g | None => grants r !! id end.
Proof. rewrite /over /= lookup_union. by destruct (grants w !! id), (grants r !! id). Qed.
Lemma lookup_over_tokens w r id :
  tokens (over w r) !! id = match tokens w !! id with Some g => Some g | None => tokens r !! id end.
Proof. rewrite /over /= lookup_union. by destruct (tokens w !! id), (tokens r !! id). Qed.
Lemma lookup_over_requests w r id :
  requests (over w r) !! id = match requests w !! id with Some g => Some g | None => requests r !! id end.
Proof. rewrite /over /= lookup_union. by destruct (requests w !! id), (requests r !! id). Qed.

Lemma pick_Some {B} (p : B → bool) (m : gmap uuid B) id x : pick p m !! id = Some x ↔ m !! id = Some x ∧ p x = true.
Proof. rewrite /pick map_lookup_filter_Some. done. Qed.

Lemma after_refl s : after s s = true.
Proof. by destruct s. Qed.
Lemma after_trans s1 s2 s3 : after s1 s2 = true → after s2 s3 = true → after s1 s3 = true.
Proof. by destruct s1, s2, s3. Qed.

Lemma forward_refl r : forward r r.
Proof. split; try done. apply after_refl. Qed.
Lemma forward_trans r1 r2 r3 : forward r1 r2 → forward r2 r3 → forward r1 r3.
Proof.
  intros [A1 B1 C1 D1 E1 F1] [A2 B2 C2 D2 E2 F2]. split; try congruence; [by eapply after_trans|].
  intros g Hg. destruct (F1 g Hg) as (H1 & H2 & H3 & H4). destruct (F2 g H1) as (? & ? & ? & ?). split_and!; congruence.
Qed.
Lemma forwardG_refl g : forwardG g g.
Proof. done. Qed.
Lemma forwardG_trans g1 g2 g3 : forwardG g1 g2 → forwardG g2 g3 → forwardG g1 g3.
Proof. intros [A1 B1 C1] [A2 B2 C2]. split; try congruence; auto. Qed.
Lemma forwardT_refl t : forwardT t t.
Proof. done. Qed.
Lemma forwardT_trans t1 t2 t3 : forwardT t1 t2 → forwardT t2 t3 → forwardT t1 t3.
Proof. intros [A1 B1 C1 D1] [A2 B2 C2 D2]. split; try congruence; auto. Qed.
#[local] Hint Resolve forward_refl forwardG_refl forwardT_refl forward_trans forwardG_trans forwardT_trans : core.

Lemma evolves_refl d : evolves d d.
Proof. split; eauto. Qed.
Lemma evolves_trans d1 d2 d3 : evolves d1 d2 → evolves d2 d3 → evolves d1 d3.
Proof.
  intros [A1 B1 C1 D1] [A2 B2 C2 D2]. split; [set_solver|..].
  - intros id r Hid Hr. destruct (B2 id r) as (r2 & H2 & ?); [set_solver|done|].
    destruct (B1 id r2 Hid H2) as (r1 & ? & ?). eauto.
  - intros id r Hid Hr. destruct (C2 id r) as (r2 & H2 & ?); [set_solver|done|].
    destruct (C1 id r2 Hid H2) as (r1 & ? & ?). eauto.
  - intros id r Hid Hg Hr. destruct (D2 id r) as (r2 & H2 & Hf); [set_solver|done..|].
    destruct (D1 id r2 Hid) as (r1 & ? & ?); [by rewrite -(ft_grant _ _ Hf)|done|]. eauto.
Qed.

Lemma protects_refl d i : protects d d i.
Proof. destruct i; simpl; try done; eauto 10. Qed.
Lemma protects_trans d1 d2 d3 i : protects d1 d2 i → protects d2 d3 i → protects d1 d3 i.
Proof.
  destruct i; simpl.
  - intros (A1 & B1 & C1) (A2 & B2 & C2). split_and!; [congruence| |eauto].
    intros id' t Ht. by rewrite B2 // B1.
  - congruence.
  - congruence.
  - intros H1 H2 id' g Hg Hu Hp Hl. destruct (H2 id' g Hg Hu Hp Hl) as (g0 & ? & ? & ? & ?). eauto.
  - intros H1 H2 id' g Hg Hu Hl. destruct (H2 id' g Hg Hu Hl) as (g0 & ? & ? & ?). eauto.
  - eauto.
  - congruence.
  - auto.
Qed.

Lemma agree_refl t d : agree t d d.
Proof. split; [apply evolves_refl|]. intros i _. apply protects_refl. Qed.
Lemma agree_trans t d1 d2 d3 : agree t d1 d2 → agree t d2 d3 → agree t d1 d3.
Proof.
  intros [E1 H1] [E2 H2]. split; [by eapply evolves_trans|]. intros i Hi. eapply protects_trans; eauto.
Qed.

(** What the others do leaves a transaction's writes in order. *)
Lemma fresh_agree d d' t id : agree (Some t) d d' → fresh d t id → fresh d' t id.
Proof. intros [_ H] [Hd Hl]. split; [|done]. intros Hd'. apply Hd, (H (LId id) Hl), Hd'. Qed.

Lemma disciplined_agree d d' t : agree (Some t) d d' → disciplined d t → disciplined d' t.
Proof.
  intros Hag [HG HT HR]. pose proof (fresh_agree d d' t) as Hfr. destruct Hag as [He Hp]. split.
  - intros id g Hg. destruct (HG id g Hg) as [Hl Hm]. split; [done|].
    pose proof (Hp (LGrant id) Hl) as (-> & _). destruct (grants (tables d) !! id); [done|].
    destruct Hm as [? ?]. split; [|done]. by apply Hfr.
  - intros id x Hx. destruct (HT id x Hx) as (Hl & Hg & Hm). split_and!; [done..|].
    pose proof (Hp (LToken id) Hl) as Heq. simpl in Heq. rewrite Heq.
    destruct (tokens (tables d) !! id); [done|]. destruct Hm as [? ?]. split; [|done]. by apply Hfr.
  - intros id x Hx. destruct (HR id x Hx) as (Hl & Hg & Hm). split_and!; [done..|].
    pose proof (Hp (LReq id) Hl) as Heq. simpl in Heq. rewrite Heq.
    destruct (requests (tables d) !! id); [done|]. destruct Hm as [? ?]. split; [|done]. by apply Hfr.
Qed.

(** Every row has a drawn identifier. *)
Definition named (d : DB) : Prop := ids (tables d) ⊆ drawn d.
Lemma named_grant d id g : named d → grants (tables d) !! id = Some g → id ∈ drawn d.
Proof. intros H Hg. apply H. rewrite /ids !elem_of_union !elem_of_dom. eauto. Qed.
Lemma named_token d id g : named d → tokens (tables d) !! id = Some g → id ∈ drawn d.
Proof. intros H Hg. apply H. rewrite /ids !elem_of_union !elem_of_dom. eauto. Qed.
Lemma named_request d id g : named d → requests (tables d) !! id = Some g → id ∈ drawn d.
Proof. intros H Hg. apply H. rewrite /ids !elem_of_union !elem_of_dom. eauto. Qed.

(** A commit leaves alone what its transaction has not locked. *)
Lemma commit_protects d t i : named d → disciplined d t → i ∉ held t → protects d (view (pend t) d) i.
Proof.
  intros Hn [HG HT HR] Hi. destruct i as [g|id|id|u p|u|p|p|id]; cbn [protects view tables products].
  - split_and!.
    + rewrite lookup_over_grants. destruct (grants (pend t) !! g) eqn:E; [|done]. by destruct (HG g _ E).
    + intros id x Hx. rewrite lookup_over_tokens. destruct (tokens (pend t) !! id) as [y|] eqn:E; [|done].
      destruct (HT id y E) as (_ & Hl & Hm). split.
      * intros [= ->]. by destruct Hi; apply Hl.
      * intros Hd. rewrite Hd in Hm. destruct Hi. apply Hl. by rewrite (ft_grant _ _ Hm).
    + intros id x Hx. rewrite lookup_over_requests. destruct (requests (pend t) !! id) as [y|] eqn:E; [|done].
      destruct (HR id y E) as (_ & Hl & _). intros [= ->]. by destruct Hi; apply Hl.
  - rewrite lookup_over_tokens. destruct (tokens (pend t) !! id) eqn:E; [|done]. by destruct (HT id _ E).
  - rewrite lookup_over_requests. destruct (requests (pend t) !! id) eqn:E; [|done]. by destruct (HR id _ E).
  - intros id g. rewrite lookup_over_grants. destruct (grants (pend t) !! id) as [y|] eqn:E; [|eauto].
    intros [= ->] Hu Hp Hl. destruct (HG id g E) as [_ Hm]. destruct (grants (tables d) !! id) as [g0|].
    + destruct Hm as [Hm1 Hm2 Hm3]. exists g0. split_and!; [done|congruence..|]. revert Hl. rewrite /liveGrant.
      destruct (g_revoked g0); [|done]. by rewrite Hm3.
    + destruct Hm as [_ Hm]. destruct (Hm Hl) as [Hk _]. by rewrite Hu Hp in Hk.
  - intros id g. rewrite lookup_over_grants. destruct (grants (pend t) !! id) as [y|] eqn:E; [|eauto].
    intros [= ->] Hu Hl. destruct (HG id g E) as [_ Hm]. destruct (grants (tables d) !! id) as [g0|].
    + destruct Hm as [Hm1 Hm2 Hm3]. exists g0. split_and!; [done|congruence|]. revert Hl. rewrite /liveGrant.
      destruct (g_revoked g0); [|done]. by rewrite Hm3.
    + destruct Hm as [_ Hm]. destruct (Hm Hl) as [_ Hk]. by rewrite Hu in Hk.
  - intros id r. rewrite lookup_over_requests. destruct (requests (pend t) !! id) as [y|] eqn:E; [|done].
    intros [= ->] Hp Hs. destruct (HR id r E) as (_ & _ & Hm). destruct (requests (tables d) !! id).
    + by destruct Hm.
    + destruct Hm as [_ Hk]. rewrite Hp in Hk. by destruct Hi; apply Hk.
  - done.
  - rewrite /ids !elem_of_union !elem_of_dom. intros [[[[g Hg]|[x Hx]]|[r Hr]]|?]; [..|done].
    + destruct (HG id g Hg) as [_ Hm]. destruct (grants (tables d) !! id) eqn:E; [by eapply named_grant|].
      by destruct Hm as [[_ ?] _].
    + destruct (HT id x Hx) as (_ & _ & Hm). destruct (tokens (tables d) !! id) eqn:E; [by eapply named_token|].
      by destruct Hm as [[_ ?] _].
    + destruct (HR id r Hr) as (_ & _ & Hm). destruct (requests (tables d) !! id) eqn:E; [by eapply named_request|].
      by destruct Hm as [[_ ?] _].
Qed.

Lemma commit_evolves d t : disciplined d t → evolves d (view (pend t) d).
Proof.
  intros [HG HT HR]. split; cbn [view drawn tables]; [set_solver|..].
  - intros id r Hid. rewrite lookup_over_requests. destruct (requests (pend t) !! id) as [y|] eqn:E; [|eauto].
    intros [= ->]. destruct (HR id r E) as (_ & _ & Hm). destruct (requests (tables d) !! id); [naive_solver|].
    by destruct Hm as [[? _] _].
  - intros id r Hid. rewrite lookup_over_grants. destruct (grants (pend t) !! id) as [y|] eqn:E; [|eauto].
    intros [= ->]. destruct (HG id r E) as (_ & Hm). destruct (grants (tables d) !! id); [naive_solver|].
    by destruct Hm as [[? _] _].
  - intros id r Hid Hg. rewrite lookup_over_tokens. destruct (tokens (pend t) !! id) as [y|] eqn:E; [|eauto].
    intros [= ->]. destruct (HT id r E) as (_ & _ & Hm). destruct (tokens (tables d) !! id); [naive_solver|].
    by destruct Hm as [[? _] _].
Qed.

Lemma commit_named d t : named d → named (view (pend t) d).
Proof.
  rewrite /named /ids /=. intros H. rewrite !dom_union_L. set_solver.
Qed.

Definition disc (d : DB) (t : option txn) : Prop := match t with Some t => disciplined d t | None => True end.

Lemma disc_agree d d' t : agree t d d' → disc d t → disc d' t.
Proof. destruct t; [apply disciplined_agree|done]. Qed.

(** Rows that are only removed. *)
Lemma fewer_evolves d d' :
  drawn d = drawn d' → grants (tables d') ⊆ grants (tables d) → tokens (tables d') ⊆ tokens (tables d) →
  requests (tables d') ⊆ requests (tables d) → evolves d d'.
Proof.
  intros Hd HG HT HR. split; [set_solver|..].
  - intros id r _ Hr. exists r. split; [by eapply lookup_weaken|done].
  - intros id r _ Hr. exists r. split; [by eapply lookup_weaken|done].
  - intros id r _ _ Hr. exists r. split; [by eapply lookup_weaken|done].
Qed.

Lemma pick_subseteq {B} (p : B → bool) (m : gmap uuid B) : pick p m ⊆ m.
Proof. apply map_subseteq_spec. by intros id x [? _]%pick_Some. Qed.

Lemma lookup_pick_ne {B} (p : B → bool) (m : gmap uuid B) id :
  (∀ x, m !! id = Some x → p x = true) → pick p m !! id = m !! id.
Proof.
  intros H. apply option_eq. intros x. rewrite pick_Some. naive_solver.
Qed.

Lemma elem_written_request w id r : requests w !! id = Some r → LReq id ∈ written w.
Proof.
  intros Hr. rewrite /written !elem_of_app. right; right. apply list_elem_of_fmap. exists id. split; [done|].
  apply list_elem_of_fmap. exists (id, r). split; [done|]. by apply elem_of_map_to_list.
Qed.
Lemma elem_written_token w id r : tokens w !! id = Some r → LToken id ∈ written w.
Proof.
  intros Hr. rewrite /written !elem_of_app. right; left. apply list_elem_of_fmap. exists id. split; [done|].
  apply list_elem_of_fmap. exists (id, r). split; [done|]. by apply elem_of_map_to_list.
Qed.
Lemma elem_written_grant w id r : grants w !! id = Some r → LGrant id ∈ written w.
Proof.
  intros Hr. rewrite /written !elem_of_app. left. apply list_elem_of_fmap. exists id. split; [done|].
  apply list_elem_of_fmap. exists (id, r). split; [done|]. by apply elem_of_map_to_list.
Qed.

(** What a request of one handler does to the others. *)
Lemma pstep_guarantee clk d t X (r : req X) x d' t' fp :
  pstep clk d t X r x d' t' fp → named d → disc d t →
  evolves d d' ∧ ∀ i, shared i = true ∨ (i ∉ fp ∧ ¬ locked i t) → protects d d' i.
Proof.
  intros Hs Hn Hd. destruct Hs; try (split; [apply evolves_refl|intros; apply protects_refl]).
  - split; [apply fewer_evolves; simpl; [done..|apply pick_subseteq]|].
    intros i Hi. destruct i; simpl; eauto.
    + split_and!; [done..|]. intros id0 r _ [? _]%pick_Some. done.
    + destruct Hi as [Hi|[Hi _]]; [done|]. apply lookup_pick_ne. intros r Hr. apply negb_true_iff, not_true_iff_false.
      intros Hsw. apply Hi. apply list_elem_of_fmap. exists id. split; [done|]. apply list_elem_of_fmap.
      exists (id, r). split; [done|]. by apply elem_of_map_to_list, pick_Some.
    + by intros id r [? _]%pick_Some.
  - subst t. split; [by apply commit_evolves|]. intros i Hi. destruct (shared i) eqn:E; [by destruct i|].
    destruct Hi as [?|[_ Hi]]; [done|]. by apply commit_protects.
Qed.

(** What a step has redeemed. *)
Lemma elem_of_newlyRedeemed old new id r : (id, r) ∈ newlyRedeemed old new ↔
  requests new !! id = Some r ∧ status r = Redeemed ∧ ∀ r0, requests old !! id = Some r0 → status r0 ≠ Redeemed.
Proof.
  rewrite /newlyRedeemed list_elem_of_In List.filter_In -list_elem_of_In elem_of_map_to_list pick_Some.
  rewrite /isStatus bool_decide_eq_true. destruct (requests old !! id) as [r0|].
  - rewrite negb_true_iff bool_decide_eq_false. naive_solver.
  - naive_solver.
Qed.

Lemma newlyRedeemed_NoDup old new : NoDup (newlyRedeemed old new).*1.
Proof.
  rewrite /newlyRedeemed. set (f := λ '(id, _), _). pose proof (NoDup_fst_map_to_list (pick (isStatus Redeemed) (requests new))) as H.
  revert H. generalize (map_to_list (pick (isStatus Redeemed) (requests new))). intros l. induction l as [|[id r] l IH]; [done|].
  cbn [fmap list_fmap]. intros [Hni Hnd]%NoDup_cons. cbn [List.filter]. destruct (f (id, r)); [|by apply IH].
  cbn [fmap list_fmap]. apply NoDup_cons. split; [|by apply IH]. intros (e & He & Hin)%list_elem_of_fmap. apply Hni, list_elem_of_fmap.
  exists e. split; [done|]. by apply list_elem_of_In, List.filter_In in Hin as [?%list_elem_of_In _].
Qed.

Lemma snd_pairs {B D} (b : B) (l : list D) : (pair b <$> l).*2 = l.
Proof. induction l as [|x l IH]; [done|]. cbn [fmap list_fmap]. by f_equal. Qed.

Lemma newlyRedeemed_same r : newlyRedeemed r r = [].
Proof.
  destruct (newlyRedeemed r r) as [|[id x] l] eqn:E; [done|].
  assert ((id, x) ∈ newlyRedeemed r r) as (H1 & H2 & H3)%elem_of_newlyRedeemed by (rewrite E; left).
  by apply H3 in H1.
Qed.

(** * Soundness of a handler's view *)

(** A handler's state: the committed rows when it began, the clock and the
    committed rows at its last request, its transaction, the codes it has
    redeemed. *)
Record lstate := mkL { lfrom : DB; lclk : time; ldb : DB; ltx : option txn; lred : list (uuid * Req) }.

(** What an invariant of the committed rows has to satisfy. *)
Class Invariant {C A} (J : time → DB → Prop) := {
  inv_named c d : J c d → named d;
  inv_owner c d id t g : J c d → tokens (tables d) !! id = Some t → t_grant t = Some g →
    ∃ gr, grants (tables d) !! g = Some gr ∧ g_user gr = t_user t;
  inv_later c c' d : c <= c' → J c d → J c' d;
  inv_sweep c d t x d' t' fp : J c d → pstep c d t _ DeleteExpiredOAuthAuthorizeRequests x d' t' fp → J c d';
  inv_other (s : sys C A) d' : estep s d' → J (clk s) (db s) → J (clk s) d';
}.

Section Sound.
Context {C A : Type} (serve : C → prog req A) (J : time → DB → Prop) `{!Invariant (C := C) (A := A) J}.
Context (post : C → lstate → A → Prop).

(** Before each request the others may have acted, within the protection of the
    handler's locks. *)
Definition answers (l : lstate) (X : Type) (r : req X) (x : X) (l' : lstate) : Prop :=
  ∃ d fp, lfrom l' = lfrom l ∧ lclk l <= lclk l' ∧ J (lclk l') d ∧ agree (ltx l) (ldb l) d ∧ disc d (ltx l) ∧
    pstep (lclk l') d (ltx l) X r x (ldb l') (ltx l') fp ∧
    lred l' = newlyRedeemed (tables d) (tables (ldb l')) ++ lred l.

(** However it is answered, the request keeps the invariant and the discipline. *)
Definition ok (l : lstate) (X : Type) (r : req X) : Prop :=
  ∀ x c d d' t' fp, lclk l <= c → J c d → agree (ltx l) (ldb l) d → disc d (ltx l) →
    pstep c d (ltx l) X r x d' t' fp → J c d' ∧ disc d' t'.

Definition safe (c : C) : Prop := ∀ l, J (lclk l) (ldb l) → lfrom l = ldb l → ltx l = None → lred l = [] → wp answers ok (post c) l (serve c).

Lemma estep_guarantee (s : sys C A) d' : estep s d' → J (clk s) (db s) →
  evolves (db s) d' ∧ ∀ p pr i, procs s !! p = Some pr → locked i (tx pr) → protects (db s) d' i.
Proof.
  intros He HJ. pose proof (inv_named _ _ HJ) as Hn. destruct He as [q x Hu|u act|u HG HT HR Hc|id t Ht Hu H0 Hid].
  - split; [apply fewer_evolves; done|]. intros p pr i Hp Hi. destruct i; simpl; eauto 10.
    destruct (decide (product = q)) as [->|]; [by destruct (Hu p pr Hp)|]. by rewrite lookup_insert_ne.
  - split; [apply fewer_evolves; done|]. intros p pr i Hp Hi. destruct i; simpl; eauto 10.
  - split; [apply fewer_evolves; simpl; [done|apply pick_subseteq..]|].
    intros p pr i Hp Hi. destruct i as [g|id|id|u' q|u'|q|q|id]; simpl; eauto.
    + split_and!.
      * apply lookup_pick_ne. intros g' Hg'. apply negb_true_iff, bool_decide_eq_false. intros Hgu. by eapply HG.
      * intros id t Ht. rewrite pick_Some. split; [by intros []|]. intros Hin. split; [done|].
        apply negb_true_iff, bool_decide_eq_false. intros Htu.
        destruct (inv_owner _ _ _ _ _ HJ Hin Ht) as (gr & Hgr & Hgu). eapply HG; [exact Hgr|congruence|done|done].
      * by intros id r _ [? _]%pick_Some.
    + apply lookup_pick_ne. intros g' Hg'. apply negb_true_iff, bool_decide_eq_false. intros Hgu. by eapply HT.
    + apply lookup_pick_ne. intros g' Hg'. apply negb_true_iff, bool_decide_eq_false. intros Hgu. by eapply HR.
    + intros id g [? _]%pick_Some. eauto.
    + intros id g [? _]%pick_Some. eauto.
    + by intros id r [? _]%pick_Some.
  - split.
    + split; simpl; [set_solver|eauto|eauto|]. intros id' t' Hd Hg. destruct (decide (id' = id)) as [->|].
      * rewrite lookup_insert_eq. intros [= <-]. done.
      * rewrite lookup_insert_ne //. eauto.
    + intros p pr i Hp Hi. destruct i as [g|id'|id'|u' q|u'|q|q|id']; simpl; eauto.
      * split_and!; [done| |done]. intros id' t' Ht'. destruct (decide (id' = id)) as [->|].
        -- rewrite lookup_insert_eq. split; [intros [= <-]; congruence|]. intros Hd. rewrite (H0 t' Hd) in Ht'. done.
        -- by rewrite lookup_insert_ne.
      * destruct (decide (id' = id)) as [->|]; [by destruct (Hu p pr Hp)|]. by rewrite lookup_insert_ne.
      * rewrite elem_of_union elem_of_singleton. intros [->|?]; [|done].
        destruct (tokens (tables (db s)) !! id) eqn:E; [by eapply named_token|].
        destruct (Hid eq_refl) as [_ Hl]. by destruct (Hl p pr Hp).
Qed.

Record good (s : sys C A) : Prop := mkGood {
  good_inv : J (clk s) (db s);
  good_proc p pr : procs s !! p = Some pr → ∃ l, lfrom l = began pr ∧ ltx l = tx pr ∧ lred l = exchanged pr ∧ lclk l <= clk s ∧
    agree (tx pr) (ldb l) (db s) ∧ disc (ldb l) (tx pr) ∧ wp answers ok (post (asked pr)) l (body pr);
  good_excl p1 p2 pr1 pr2 i : procs s !! p1 = Some pr1 → procs s !! p2 = Some pr2 → p1 ≠ p2 → shared i = false →
    locked i (tx pr1) → ¬ locked i (tx pr2);
  good_once : NoDup (exchanges s).*2.*1;
  good_done p id r : (p, (id, r)) ∈ exchanges s → id ∈ drawn (db s) ∧
    ∀ r', requests (tables (db s)) !! id = Some r' → status r' = Redeemed;
  good_mine p pr : procs s !! p = Some pr → exchanged pr = (filter (λ e, e.1 = p) (exchanges s)).*2;
}.

(** Time passes and the others act. *)
Lemma good_proc_other (s : sys C A) d' c' p pr :
  good s → clk s <= c' → evolves (db s) d' → (∀ i, locked i (tx pr) → protects (db s) d' i) →
  procs s !! p = Some pr → ∃ l, lfrom l = began pr ∧ ltx l = tx pr ∧ lred l = exchanged pr ∧ lclk l <= c' ∧
    agree (tx pr) (ldb l) d' ∧ disc (ldb l) (tx pr) ∧ wp answers ok (post (asked pr)) l (body pr).
Proof.
  intros Hg Hc He Hp Hpr. destruct (good_proc s Hg p pr Hpr) as (l & H0 & H1 & H2 & H3 & H4 & H5 & H6).
  exists l. split_and!; try done; [lia|]. by eapply agree_trans.
Qed.

Lemma redeemed_stays d d' id r' :
  evolves d d' → id ∈ drawn d → (∀ r, requests (tables d) !! id = Some r → status r = Redeemed) →
  requests (tables d') !! id = Some r' → status r' = Redeemed.
Proof.
  intros He Hid Hr Hr'. destruct (e_request _ _ He id r' Hid Hr') as (r & Hd & Hf).
  pose proof (f_status _ _ Hf) as Ha. rewrite (Hr r Hd) in Ha. by destruct (status r').
Qed.

Lemma good_start s p c : safe c → good s → procs s !! p = None → (∀ e, (p, e) ∉ exchanges s) →
  good (mkSys (clk s) (db s) (<[p := mkProc c (db s) (serve c) None []]> (procs s)) (exchanges s)).
Proof.
  intros Hsafe Hg Hp Hx. split; simpl.
  - apply Hg.
  - intros p' pr. destruct (decide (p' = p)) as [->|Hne].
    + rewrite lookup_insert_eq. intros [= <-]. simpl. exists (mkL (db s) (clk s) (db s) None []). simpl.
      split_and!; try done. { apply agree_refl. } apply Hsafe; [apply Hg|done..].
    + rewrite lookup_insert_ne //. apply Hg.
  - intros p1 p2 pr1 pr2 i. destruct (decide (p1 = p)) as [->|H1]; [rewrite lookup_insert_eq; by intros [= <-]|].
    rewrite lookup_insert_ne //. destruct (decide (p2 = p)) as [->|H2]; [rewrite lookup_insert_eq; by intros ? [= <-] ? ? ? []|].
    rewrite lookup_insert_ne //. apply Hg.
  - apply Hg.
  - apply Hg.
  - intros p' pr. destruct (decide (p' = p)) as [->|Hne].
    + rewrite lookup_insert_eq. intros [= <-]. simpl. rewrite filter_no //.
      intros [q e] He Hq. simpl in Hq. subst q. by apply Hx in He.
    + rewrite lookup_insert_ne //. apply Hg.
Qed.

Lemma good_request s p c d0 X (r : req X) k t red x d' t' fp :
  good s → procs s !! p = Some (mkProc c d0 (Vis r k) t red) → pstep (clk s) (db s) t X r x d' t' fp → free s p fp →
  good (mkSys (clk s) d' (<[p := mkProc c d0 (k x) t' (newlyRedeemed (tables (db s)) (tables d') ++ red)]> (procs s))
          ((pair p <$> newlyRedeemed (tables (db s)) (tables d')) ++ exchanges s)).
Proof.
  intros Hg Hp Hs Hf. destruct (good_proc s Hg p _ Hp) as (l & H0 & Ht & Hr & Hc & Ha & Hd & Hw). simpl in *. subst t red d0.
  pose proof (good_inv s Hg) as HJ. pose proof (inv_named _ _ HJ) as Hn.
  pose proof (disc_agree _ _ _ Ha Hd) as Hd'. destruct Hw as [Hok Hk].
  destruct (Hok x (clk s) (db s) d' t' fp Hc HJ Ha Hd' Hs) as [HJ' Hdt].
  destruct (pstep_guarantee _ _ _ _ _ _ _ _ _ Hs Hn Hd') as [He Hpr].
  assert (∀ i, locked i t' → i ∈ fp ∨ locked i (ltx l)) as Hlocks.
  { clear -Hs. destruct Hs; subst; simpl; try done; try by right.
    - intros i. rewrite H /= !elem_of_cons !elem_of_app. tauto.
    - by intros i ?%elem_of_nil. }
  set (fresh := newlyRedeemed (tables (db s)) (tables d')) in *.
  split; simpl.
  - done.
  - intros p' pr'. destruct (decide (p' = p)) as [->|Hne].
    + rewrite lookup_insert_eq. intros [= <-]. simpl. exists (mkL (lfrom l) (clk s) d' t' (fresh ++ lred l)). simpl.
      split_and!; try done; [apply agree_refl|]. apply Hk. exists (db s), fp. by split_and!.
    + rewrite lookup_insert_ne //. intros Hpr'. eapply good_proc_other; try done.
      intros i Hi. apply Hpr. destruct (shared i) eqn:E; [by left|right]. split.
      * intros Hfp. by apply (Hf p' pr' i).
      * intros Hl. by apply (good_excl s Hg p p' _ pr' i Hp Hpr').
  - intros p1 p2 pr1 pr2 i H1 H2 Hne Hsh L1 L2.
    destruct (decide (p1 = p)) as [->|Hn1], (decide (p2 = p)) as [->|Hn2]; try done.
    + rewrite lookup_insert_eq in H1. injection H1 as <-. rewrite lookup_insert_ne // in H2. simpl in L1.
      destruct (Hlocks i L1) as [Hi|Hi]; [by apply (Hf p2 pr2 i)|by apply (good_excl s Hg p p2 _ pr2 i Hp H2)].
    + rewrite lookup_insert_eq in H2. injection H2 as <-. rewrite lookup_insert_ne // in H1. simpl in L2.
      destruct (Hlocks i L2) as [Hi|Hi]; [by apply (Hf p1 pr1 i)|by apply (good_excl s Hg p p1 _ pr1 i Hp H1)].
    + rewrite lookup_insert_ne // in H1. rewrite lookup_insert_ne // in H2. by apply (good_excl s Hg p1 p2 pr1 pr2 i).
  - rewrite fmap_app fmap_app. apply NoDup_app. split_and!.
    + rewrite snd_pairs. apply newlyRedeemed_NoDup.
    + intros id Hin Hex. rewrite snd_pairs in Hin.
      apply list_elem_of_fmap in Hin as ([i0 r0] & Hi0 & Hin). apply elem_of_newlyRedeemed in Hin as (Hr1 & Hr2 & Hr3).
      apply list_elem_of_fmap in Hex as ([i2 r2] & Hi2 & Hex). apply list_elem_of_fmap in Hex as ([q e] & He2 & Hex).
      simpl in *. subst. destruct (good_done s Hg _ _ _ Hex) as [Hdr Hst].
      destruct (e_request _ _ He _ _ Hdr Hr1) as (ro & Hro & _). by apply (Hr3 ro Hro), (Hst ro).
    + apply Hg.
  - intros q id r0 [Hin|Hin]%elem_of_app.
    + apply list_elem_of_fmap in Hin as (? & [= -> <-] & Hin). apply elem_of_newlyRedeemed in Hin as (Hr1 & Hr2 & Hr3).
      split; [by eapply named_request; [eapply inv_named|]|]. intros r' Hr'. congruence.
    + destruct (good_done s Hg _ _ _ Hin) as [Hdr Hst]. split; [by apply (e_drawn _ _ He)|].
      intros r' Hr'. by eapply redeemed_stays.
  - intros p' pr'. rewrite filter_app fmap_app. destruct (decide (p' = p)) as [->|Hne].
    + rewrite lookup_insert_eq. intros [= <-]. simpl. f_equal; [|by apply (good_mine s Hg p _ Hp)].
      rewrite filter_all; [by intros [q e] (? & [= -> ->] & _)%list_elem_of_fmap|].
      by rewrite snd_pairs.
    + rewrite lookup_insert_ne //. intros Hpr'. rewrite (good_mine s Hg p' _ Hpr') (filter_no _ (pair p <$> fresh)) //.
      intros [q e] (? & [= -> ->] & _)%list_elem_of_fmap. simpl. congruence.
Qed.
Lemma good_others s d' c' : good s → clk s <= c' → J c' d' → evolves (db s) d' →
  (∀ p pr i, procs s !! p = Some pr → locked i (tx pr) → protects (db s) d' i) →
  good (mkSys c' d' (procs s) (exchanges s)).
Proof.
  intros Hg Hc HJ He Hp. split; simpl; [done| |apply Hg|apply Hg| |apply Hg].
  - intros p pr Hpr. eapply good_proc_other; eauto.
  - intros p id r Hin. destruct (good_done s Hg _ _ _ Hin) as [Hdr Hst]. split; [by apply (e_drawn _ _ He)|].
    intros r' Hr'. by eapply redeemed_stays.
Qed.

Lemma good_crash s p : good s → good (mkSys (clk s) (db s) (delete p (procs s)) (exchanges s)).
Proof.
  intros Hg. split; simpl; [apply Hg| | |apply Hg|apply Hg|].
  - intros q pr [_ Hq]%lookup_delete_Some. by apply (good_proc s Hg q).
  - intros p1 p2 pr1 pr2 i [_ H1]%lookup_delete_Some [_ H2]%lookup_delete_Some. by apply (good_excl s Hg p1 p2).
  - intros q pr [_ Hq]%lookup_delete_Some. by apply (good_mine s Hg q).
Qed.

Lemma good_step s s' : (∀ c, safe c) → good s → step serve s s' → good s'.
Proof.
  intros Hsafe Hg Hs. destruct Hs.
  - by apply good_start.
  - by eapply good_request.
  - by apply good_crash.
  - apply good_others; [done..| |apply evolves_refl|intros; apply protects_refl].
    eapply inv_later; [done|apply Hg].
  - destruct (estep_guarantee s db' H (good_inv s Hg)) as [He Hp].
    apply good_others; [done..| |done|done]. by eapply inv_other; [|apply Hg].
Qed.

(** What every handler guarantees in its own view holds in every interleaving. *)
Lemma sys_invariant s0 s : (∀ c, safe c) → procs s0 = ∅ → exchanges s0 = [] → J (clk s0) (db s0) →
  reachable serve s0 s → good s.
Proof.
  intros Hsafe Hp Hx HJ. induction 1; [|by eapply good_step].
  split; rewrite ?Hp ?Hx; try done; [constructor|]. by intros ? ? ? ?%elem_of_nil.
Qed.

(** A handler that has answered has what it promises. *)
Lemma good_answered s p c d0 a t red : good s → procs s !! p = Some (mkProc c d0 (Ret a) t red) →
  ∃ l, lfrom l = d0 ∧ ltx l = t ∧ lred l = red ∧ lclk l <= clk s ∧ agree t (ldb l) (db s) ∧ post c l a.
Proof.
  intros Hg Hp. destruct (good_proc s Hg p _ Hp) as (l & H0 & H1 & H2 & H3 & H4 & H5 & H6). eauto 10.
Qed.
End Sound.
End OAuthTx.
