(* ===== verification/OAuthFlow.v ===== *)
(** The endpoints of the OAuth authorization server
    ([src/api/internal/handler/oauth.go], [oauth_token.go], [oauth_revoke.go],
    and the revokes of [cli_tokens.go], [product_tokens.go] and
    [admin_products.go]) as programs over the requests of [OAuthTx].

    A request is what [net/http] has read of it: the parsed media type, the form
    within the body cap, the Basic credentials, the binding cookie.  Headers that
    every response of the group carries, logging, the descriptions of token
    errors and the read-only listings are left out.  A statement outside a
    transaction that writes is its own transaction ([auto]). *)

From Stdlib Require Import Ascii.
From S2P Require Import Prelude Result Prog GoText GoStrings GoSearch GoQuery NetIP ClientIP FetchCtl FetchServer OAuthSrv OAuthDb OAuthTx.

Local Open Scope Z_scope.

Module OAuthFlow.
Import GoText GoStrings GoSearch NetIP GoQuery OAuthDb OAuthTx.

(** * Errors and early returns *)
Record oauthTokenFailure := mkFailure { f_code_status : Z; f_code_text : OAuthSrv.Code; retryAfter : Z }.
(** An error of a handler's helper; [Refused] is its protocol refusal. *)
Inductive stop := NoRows | Storage (e : dbErr) | RandFailed | Contention | DenyProductLoad | Refused (f : oauthTokenFailure).

Definition tryBind {E A B} (m : prog req (result E A)) (k : A → prog req (result E B)) : prog req (result E B) :=
  m ≫= λ r, match r with Ok a => k a | Err e => Ret (Err e) end.
Notation "x ←! m ; k" := (tryBind m (λ x, k)) (at level 20, m at level 100, k at level 200, only parsing).
Definition ok {E A} (a : A) : prog req (result E A) := Ret (Ok a).
Definition fail {E A} (e : E) : prog req (result E A) := Ret (Err e).
Definition failing {E E' A} (f : E → E') (m : prog req (result E A)) : prog req (result E' A) :=
  m ≫= λ r, Ret (match r with Ok a => Ok a | Err e => Err (f e) end).

Definition dbCall {X} (r : req (result dbErr X)) : prog req (result stop X) :=
  Vis r (λ x, Ret (match x with Ok x => Ok x | Err e => Err (Storage e) end)).
Definition exec {X} (s : stmt X) : prog req (result stop X) := dbCall (Stmt s).
(** A [:one] statement: no row is [pgx.ErrNoRows]. *)
Definition one {X} (s : stmt (option X)) : prog req (result stop X) :=
  x ←! exec s; match x with Some x => ok x | None => fail NoRows end.
(** [errors.Is(err, pgx.ErrNoRows)]. *)
Definition onNoRows {A} (e : stop) (m : prog req (result stop A)) : prog req (result stop A) :=
  failing (λ e', match e' with NoRows => e | _ => e' end) m.
Definition random : prog req (result stop string) :=
  Vis Rand (λ x, Ret (match x with Some s => Ok s | None => Err RandFailed end)).
Definition commit : prog req (result stop unit) := dbCall Commit.

(** [Begin] with [defer tx.Rollback]. *)
Definition withTx {E A} (f : stop → E) (body : prog req (result E A)) : prog req (result E A) :=
  _ ←! failing f (dbCall Begin); r ← body; _ ← call Rollback; Ret r.
Definition inTx {A} (body : prog req (result stop A)) : prog req (result stop A) :=
  withTx (λ e, e) (a ←! body; _ ←! commit; ok a).
Definition auto {X} (s : stmt X) : prog req (result stop X) := inTx (exec s).

(** * Answers *)
Inductive answer :=
  | StaticError (status : Z)
  | Found (target : string) (cookie : option string)   (* 302 *)
  | HttpError (status : Z) (msg : string)
  | RedirectURL (url : string)                         (* 200, to the consent page *)
  | TokenError (f : oauthTokenFailure)
  | Tokens (access refresh scope : string)
  | Refreshed (access scope : string)
  | Done (status : Z).
Definition internalError : answer := HttpError 500 "internal error".
Definition respond (m : prog req (result answer answer)) : prog req answer :=
  m ≫= λ r, Ret (match r with Ok a => a | Err a => a end).

(** * What a handler reads of a request *)
Record config := mkConfig { FrontendOrigin : string; TrustedProxies : list (option ClientIP.IPNet); LimiterWindow : duration }.
Record webReq := mkWeb {
  RawQuery : string; bindCookie : option string; peer : ClientIP.request; pathID : string; signedIn : option uuid }.
Record formReq := mkFormReq {
  fRawQuery : string; MediaType : option string; PostForm : option Values; BasicAuth : option (string * string) }.

(** * Limits *)
Definition oauthBindNonceBytes : Z := 32.
Definition oauthAuthorizeTTL : duration := 5 * Go.Minute.
Definition oauthCodeTTL : duration := 60 * Go.Second.
Definition oauthGrantLockAttempts : nat := 3.
Definition oauthPendingPerSourceCap : Z := 20.
Definition oauthPendingV6MidCap : Z := 40.
Definition oauthPendingV6WideCap : Z := 100.
Definition oauthPendingV4MidCap : Z := 100.
Definition oauthPendingPerProductCap : Z := 5000.
Definition oauthPendingGlobalCap : Z := 50000.
Definition oauthAuthorizeLockTimeout : duration := 2 * Go.Second.
Definition oauthAccessTokenTTL : duration := Go.Hour.
Definition oauthMaxLiveGrantTokens : Z := 10.
Definition oauthMaxGrantMintsPerWindow : Z := 30.
Definition oauthGrantMintWindow : duration := Go.Hour.
Definition oauthStorageRetryAfter : Z := 5.
Definition oauthMaxTokenLen : nat := 256.
Definition oauthRefreshIdleLimit : duration := 30 * 24 * Go.Hour.
Definition oauthRefreshAbsoluteLimit : duration := 90 * 24 * Go.Hour.
(** [int(d.Seconds())]. *)
Definition wholeSeconds (d : duration) : Z := Z.quot d Go.Second.

Definition errOAuthInvalidGrant : oauthTokenFailure := mkFailure 400 OAuthSrv.ErrInvalidGrant 0.
Definition errOAuthInvalidClient : oauthTokenFailure := mkFailure 401 OAuthSrv.ErrInvalidClient 0.
Definition oauthInvalidRequest : answer := TokenError (mkFailure 400 OAuthSrv.ErrInvalidRequest 0).
Definition oauthInvalidClient : answer := TokenError errOAuthInvalidClient.
Definition oauthUnavailable : answer := TokenError (mkFailure 503 OAuthSrv.ErrTemporarilyUnavailable oauthStorageRetryAfter).
Definition refuse {A} (f : oauthTokenFailure) : prog req (result stop A) := fail (Refused f).
Definition tokenStop (e : stop) : answer := match e with Refused f => TokenError f | _ => oauthUnavailable end.

(** * Source buckets *)
Record oauthSourceBuckets := mkBuckets { Fine : string; Mid : string; Wide : string; FineCap : Z; MidCap : Z; WideCap : Z }.
Definition addrString (a : Addr) : string :=
  match a with Addr4 v => ClientIP.dotted v | Addr6 v _ => ClientIP.string6 v | AddrZero => "invalid IP" end.
(** [netip.PrefixFrom(a, bits).Masked().String()] of an address that is not IPv4-mapped. *)
Definition maskedString (a : Addr) (bits : Z) : string :=
  let p := NetIP.Masked (mkPrefix a bits) in addrString (p_addr p) +:+ "/" +:+ itoa (p_bits p).
Definition oauthSourceBucketsFor (clientIP : string) : oauthSourceBuckets :=
  match NetIP.ParseAddr clientIP with
  | None => mkBuckets EmptyString EmptyString EmptyString oauthPendingPerSourceCap oauthPendingPerSourceCap oauthPendingPerSourceCap
  | Some addr =>
    let addr := NetIP.Unmap (ClientIP.WithoutZone addr) in
    let addr := match addr with
                | Addr6 v _ => if Z.shiftr v 112 =? 0x2002 then Addr4 (Z.land (Z.shiftr v 80) 0xffffffff) else addr
                | _ => addr
                end in
    if NetIP.Is4 addr then
      let c24 := maskedString addr 24 in
      mkBuckets (addrString addr) c24 c24 oauthPendingPerSourceCap oauthPendingV4MidCap oauthPendingV4MidCap
    else mkBuckets (maskedString addr 64) (maskedString addr 56) (maskedString addr 48)
           oauthPendingPerSourceCap oauthPendingV6MidCap oauthPendingV6WideCap
  end.

(** At or over a cap. *)
Definition overCap (b : oauthSourceBuckets) (n : PendingCounts) : bool :=
  (FineCap b <=? PrefixPending n) || (MidCap b <=? MidPending n) || (WideCap b <=? WidePending n)
  || (oauthPendingPerProductCap <=? ProductPending n) || (oauthPendingGlobalCap <=? GlobalPending n).
Definition oauthPendingOverCap (productID : uuid) (b : oauthSourceBuckets) : prog req (result stop bool) :=
  n ←! exec (CountLivePendingOAuthRequests productID (Fine b) (FineCap b) (Mid b) (MidCap b) (Wide b) (WideCap b)
               oauthPendingPerProductCap oauthPendingGlobalCap);
  ok (overCap b n).

(** * Clients *)
Definition oauthClientFromProduct (p : Product) : OAuthSrv.Client :=
  OAuthSrv.mkClient (enabled p && negb (deleted p)) (redirect_uris p) (oauth_scopes p)
    (0 <? String.length (default EmptyString (client_secret_hash p)))%nat.
Definition oauthClientAllowsScopes (p : Product) (scopes : list string) : bool :=
  let c := oauthClientFromProduct p in
  OAuthSrv.IsClient (Some c) && forallb (OAuthSrv.contains (OAuthSrv.ClientScopes c)) scopes.
Definition oauthClientAllows (p : Product) (redirectURI : string) (scopes : list string) : bool :=
  let c := oauthClientFromProduct p in
  OAuthSrv.IsClient (Some c) && OAuthSrv.contains (OAuthSrv.RedirectURIs c) redirectURI && oauthClientAllowsScopes p scopes.
Definition oauthRequestStillValid (p : Product) (row : Req) : bool := oauthClientAllows p (redirect_uri row) (q_scopes row).

(** * Grants *)
Fixpoint lockOrCreateFrom (attempts : nat) (user product : uuid) (scopes : list string) : prog req (result stop (uuid * Grant * bool)) :=
  match attempts with
  | O => fail Contention
  | S attempts' =>
    created ←! exec (InsertOAuthGrant user product scopes);
    match created with
    | Some g => ok (g, false)
    | None =>
      live ←! exec (LockLiveOAuthGrant user product);
      match live with
      | Some g => ok (g, true)
      | None => lockOrCreateFrom attempts' user product scopes
      end
    end
  end.
Definition lockOrCreateOAuthGrant : uuid → uuid → list string → prog req (result stop (uuid * Grant * bool)) :=
  lockOrCreateFrom oauthGrantLockAttempts.

Definition grantMintBlocked (grantID : uuid) : prog req (result stop unit) :=
  live ←! exec (CountLiveGrantTokens grantID);
  if oauthMaxLiveGrantTokens <=? fst live then
    match snd live with
    | None => refuse (mkFailure 429 OAuthSrv.ErrTemporarilyUnavailable 1)
    | Some oldest =>
      now ← call Now;
      refuse (mkFailure 429 OAuthSrv.ErrTemporarilyUnavailable (Z.max 1 (wholeSeconds (oldest - now) + 1)))
    end
  else
  rate ←! exec (CountGrantTokensMintedSince (wholeSeconds oauthGrantMintWindow) grantID);
  if oauthMaxGrantMintsPerWindow <=? fst rate then refuse (mkFailure 429 OAuthSrv.ErrTemporarilyUnavailable (snd rate)) else
  ok tt.

Definition revokeGrantLocked (grantID : uuid) : prog req (result stop unit) :=
  _ ←! exec (RevokeOAuthGrantProductTokens grantID);
  _ ←! exec (SupersedeOAuthGrantCodes grantID);
  _ ←! exec (RevokeOAuthGrantRow grantID);
  ok tt.

Definition revokeGrantOfTokenTx (grantID : uuid) (owner : option uuid) : prog req (result stop unit) :=
  grant ←! one (LockOAuthGrant grantID);
  if g_revoked grant || match owner with Some u => negb (bool_decide (g_user grant = u)) | None => false end
  then fail NoRows else revokeGrantLocked grantID.

Section Handlers.
Context `{UuidText} (cfg : config).

Definition hash (s : string) : string := sha256 s.
Definition oauthIssuer : string := trimSlash (FrontendOrigin cfg).

(** ** The binding cookie *)
(** The bytes [base64.RawURLEncoding] decodes; line ends are skipped. *)
Definition decodedLen (s : string) : option Z :=
  let kept := List.filter (λ c, negb ((byteOf c =? 10) || (byteOf c =? 13))) (String.list_ascii_of_string s) in
  let n := Z.of_nat (length kept) in
  if forallb OAuthSrv.base64url kept && negb (n mod 4 =? 1) then Some (n * 6 / 8) else None.
Definition wellFormedOAuthNonce (v : string) : bool :=
  (Z.of_nat (String.length v) =? (oauthBindNonceBytes * 8 + 5) / 6)
  && match decodedLen v with Some n => n =? oauthBindNonceBytes | None => false end.
Definition oauthBindingHash (nonce : string) : string := sha256 nonce.
Definition oauthBindingNonce (w : webReq) : prog req (result stop string) :=
  match bindCookie w with
  | Some v => if wellFormedOAuthNonce v then ok v else buf ←! random; ok (OAuthSrv.RawURLEncode buf)
  | None => buf ←! random; ok (OAuthSrv.RawURLEncode buf)
  end.

(** ** GET /api/oauth/authorize *)
Definition OAuthAuthorize (w : webReq) : prog req answer :=
  let '(ps, parsed) := ParseQuery (RawQuery w) in
  if negb parsed then Ret (StaticError 400) else
  let q := OAuthSrv.ParseAuthorizeQuery (toValues ps) in
  match parseUUID (OAuthSrv.ClientID q) with
  | None => Ret (StaticError 400)
  | Some clientID =>
    if OAuthSrv.Repeated q "client_id" || OAuthSrv.Repeated q "redirect_uri" then Ret (StaticError 400) else
    respond (
      product ←! failing (λ _, StaticError 500) (exec (GetProduct clientID));
      let client := oauthClientFromProduct <$> product in
      match client, OAuthSrv.CheckClient client q with
      | Some c, Some registered =>
        match OAuthSrv.ValidateAuthorize c q registered with
        | Err verr => ok (Found (OAuthSrv.ErrorRedirectURL registered verr oauthIssuer) None)
        | Ok areq =>
          nonce ←! failing (λ _, internalError) (oauthBindingNonce w);
          _ ← call DeleteExpiredOAuthAuthorizeRequests;
          let buckets := oauthSourceBucketsFor (ClientIP.ClientIP (peer w) (TrustedProxies cfg)) in
          over ←! failing (λ _, internalError) (oauthPendingOverCap clientID buckets);
          let refused := Found (OAuthSrv.ErrorRedirectURL registered
            (OAuthSrv.mkError OAuthSrv.ErrTemporarilyUnavailable
               "too many authorization requests are pending; try again shortly" (OAuthSrv.rState areq)) oauthIssuer) None in
          if (over : bool) then ok refused else
          stored ← inTx (
            _ ←! exec (SetOAuthAuthorizeLockTimeout (itoa (oauthAuthorizeLockTimeout `quot` Go.Millisecond) +:+ "ms"));
            _ ←! exec (LockOAuthAuthorize clientID);
            over ←! oauthPendingOverCap clientID buckets;
            if (over : bool) then ok None else
            now ← call Now;
            id ←! exec (CreateOAuthAuthorizeRequest (mkReq clientID registered (OAuthSrv.rScopes areq) (OAuthSrv.rState areq)
                    (OAuthSrv.rCodeChallenge areq) (oauthBindingHash nonce) (Fine buckets) (Mid buckets) (Wide buckets)
                    Pending None None None None (now + oauthAuthorizeTTL)));
            ok (Some id));
          match stored with
          | Ok (Some id) => ok (Found ("/connect?request=" +:+ uuidString id) (Some nonce))
          | Ok None | Err (Storage LockTimeout) => ok refused
          | Err _ => fail internalError
          end
        end
      | _, _ => fail (StaticError 400)
      end)
  end.

(** ** The consent page *)
Definition loadOAuthRequest (w : webReq) : prog req (result answer (uuid * Req)) :=
  let notFound := HttpError 404 "request not found" in
  match parseUUID (pathID w) with
  | None => fail notFound
  | Some id =>
    row ←! failing (λ e, match e with NoRows => notFound | _ => internalError end) (one (GetOAuthAuthorizeRequest id));
    match bindCookie w with
    | None => fail notFound
    | Some c =>
      if negb (wellFormedOAuthNonce c) || negb (oauthBindingHash c =?s binding_hash row)%go then fail notFound else
      now ← call Now;
      if negb (now <? q_expires row) then fail notFound else ok (id, row)
    end
  end.

Definition notSignedIn : answer := HttpError 401 "authentication required".
Definition noLongerPending : answer := HttpError 409 "request is no longer pending".
Definition cannotConnect : answer :=
  HttpError 409 "this application can no longer be connected; start again from the application".

Definition OAuthDeny (w : webReq) : prog req answer :=
  match signedIn w with
  | None => Ret notSignedIn
  | Some user => respond (
    idrow ←! loadOAuthRequest w;
    let '(id, row) := idrow in
    stillValid ←! failing (λ e, match e with NoRows => noLongerPending | _ => internalError end) (inTx (
      locked ←! failing (λ _, DenyProductLoad) (one (GetProductForShare (q_product row)));
      _ ←! one (DenyOAuthAuthorizeRequest user id);
      ok (oauthRequestStillValid locked row)));
    if (stillValid : bool)
    then ok (RedirectURL (OAuthSrv.DeniedRedirectURL (redirect_uri row) (q_state row) oauthIssuer))
    else fail cannotConnect)
  end.

Definition internal {A} : prog req (result stop A) → prog req (result answer A) := failing (λ _, internalError).

Definition OAuthApprove (w : webReq) : prog req answer :=
  match signedIn w with
  | None => Ret notSignedIn
  | Some user => respond (
    idrow ←! loadOAuthRequest w;
    let '(id, row) := idrow in
    if negb (isStatus Pending row) then fail noLongerPending else
    product ←! internal (one (GetProduct (q_product row)));
    if negb (oauthRequestStillValid product row) then fail cannotConnect else
    codeBuf ←! internal random;
    let code := OAuthSrv.RawURLEncode codeBuf in
    withTx (λ _, internalError) (
      _ ←! internal (exec (LockOAuthUserGrants user));
      locked ←! internal (one (GetProductForShare (q_product row)));
      if negb (oauthRequestStillValid locked row) then fail cannotConnect else
      res ←! internal (lockOrCreateOAuthGrant user (q_product row) (q_scopes row));
      let '(grant, _, existed) := res in
      _ ←! (if (existed : bool) then
              drops ←! internal (exec (OAuthGrantHasTokenOutsideScopes grant (q_scopes row)));
              _ ←! internal (one (ReconsentOAuthGrant (q_scopes row) grant));
              if (drops : bool) then _ ←! internal (exec (RevokeOAuthGrantProductTokens grant)); ok tt else ok tt
            else ok tt);
      _ ←! internal (exec (SupersedeOAuthGrantCodes grant));
      _ ←! failing (λ e, match e with NoRows => noLongerPending | _ => internalError end) (one (ClaimOAuthAuthorizeRequest user id));
      now ← call Now;
      _ ←! internal (one (IssueOAuthAuthorizationCode (hash code) (now + oauthCodeTTL) grant id user));
      _ ←! internal commit;
      ok (RedirectURL (OAuthSrv.CodeRedirectURL (redirect_uri row) code (q_state row) oauthIssuer))))
  end.

(** ** Client authentication *)
Definition oauthBasicCredentials (r : formReq) : option (string * string) :=
  '(rawID, rawSecret) ← BasicAuth r; id ← QueryUnescape rawID; secret ← QueryUnescape rawSecret; Some (id, secret).

Definition oauthDummySecretHash : string := sha256 "uzi oauth unknown client".

Definition oauthAuthenticatedClient (r : formReq) : prog req (result answer (uuid * OAuthSrv.TokenForm)) :=
  if negb (fRawQuery r =?s EmptyString)%go then fail oauthInvalidRequest else
  if negb (bool_decide (MediaType r = Some "application/x-www-form-urlencoded")) then fail oauthInvalidRequest else
  match PostForm r with
  | None => fail oauthInvalidRequest
  | Some v =>
    let form := OAuthSrv.ParseTokenForm v in
    if OAuthSrv.fRepeated form then fail oauthInvalidRequest else
    match oauthBasicCredentials r with
    | None => fail oauthInvalidClient
    | Some (basicID, basicSecret) =>
      if OAuthSrv.HasClientSecret form
         || (negb (OAuthSrv.fClientID form =?s EmptyString)%go && negb (OAuthSrv.fClientID form =?s basicID)%go)
      then fail oauthInvalidRequest else
      match parseUUID basicID with
      | None => fail oauthInvalidClient
      | Some clientID =>
        product ←! failing (λ _, oauthUnavailable) (exec (GetProduct clientID));
        let stored := p ← product; h ← client_secret_hash p; if (h =?s EmptyString)%go then None else Some h in
        let secretOK := OAuthSrv.SecretMatches basicSecret (default oauthDummySecretHash stored) in
        if negb (bool_decide (is_Some product)) || negb (bool_decide (is_Some stored)) || negb secretOK
           || negb (OAuthSrv.IsClient (oauthClientFromProduct <$> product)) then fail oauthInvalidClient else
        allowed ← call (Allow ("client:" +:+ uuidString clientID));
        if negb allowed
        then fail (TokenError (mkFailure 429 OAuthSrv.ErrTemporarilyUnavailable (Z.max 1 (wholeSeconds (LimiterWindow cfg)))))
        else ok (clientID, form)
      end
    end
  end.

(** ** POST /api/oauth/token *)
Record tokenResponse := mkTokens { AccessToken : string; RefreshTokenText : string; ScopeText : string }.

Definition redeemOAuthCode (clientID : uuid) (form : OAuthSrv.TokenForm) : prog req (result stop tokenResponse) :=
  if (oauthMaxTokenLen <? String.length (OAuthSrv.fCode form))%nat then refuse errOAuthInvalidGrant else
  let codeHash := hash (OAuthSrv.fCode form) in
  let gone := Refused errOAuthInvalidGrant in
  withTx (λ e, e) (
    found ←! onNoRows gone (one (GetOAuthAuthorizeRequestByCodeHash codeHash));
    let '(id, frow) := found in
    match q_grant frow with
    | None => fail gone
    | Some grantID =>
      grant ←! onNoRows gone (one (LockOAuthGrant grantID));
      row ←! onNoRows gone (one (GetOAuthAuthorizeRequest id));
      if negb (bool_decide (q_product row = clientID)) || negb (bool_decide (g_product grant = q_product row))
         || (OAuthSrv.fRedirectURI form =?s EmptyString)%go || negb (OAuthSrv.fRedirectURI form =?s redirect_uri row)%go
         || negb (OAuthSrv.VerifierMatchesS256 (OAuthSrv.CodeVerifier form) (code_challenge row)) then fail gone else
      match status row with
      | Redeemed =>
        if g_revoked grant then fail gone else
        _ ←! revokeGrantLocked grantID; _ ←! commit; fail gone
      | Pending | Denied | Superseded => fail gone
      | Approved =>
        match code_expires row with
        | None => fail gone
        | Some e =>
          now ← call Now;
          if negb (now <? e) || g_revoked grant then fail gone else
          product ←! onNoRows gone (one (GetProduct (q_product row)));
          if negb (oauthClientAllows product (redirect_uri row) (g_scopes grant)) then fail gone else
          active ←! onNoRows gone (one (GetUserByID (g_user grant)));
          if negb active then fail gone else
          _ ←! grantMintBlocked grantID;
          buf ←! random;
          let '(access, accessHash) := OAuthSrv.GenerateToken buf in
          now ← call Now;
          _ ←! onNoRows gone (one (CreateGrantProductToken (g_user grant) (q_product row) accessHash (g_scopes grant)
                                     (now + oauthAccessTokenTTL) grantID));
          rbuf ←! random;
          let '(refresh, refreshHash) := OAuthSrv.GenerateRefreshToken rbuf in
          _ ←! one (SetOAuthGrantRefreshToken refreshHash grantID);
          _ ←! onNoRows gone (one (RedeemOAuthAuthorizeRequest id));
          _ ←! commit;
          ok (mkTokens access refresh (Join (g_scopes grant) " "))
        end
      end
    end).

Definition refreshOAuthToken (clientID : uuid) (refreshToken : string) (requested : option (list string))
  : prog req (result stop (string * string)) :=
  if (oauthMaxTokenLen <? String.length refreshToken)%nat then refuse errOAuthInvalidGrant else
  let h := hash refreshToken in
  let gone := Refused errOAuthInvalidGrant in
  let noClient := Refused errOAuthInvalidClient in
  withTx (λ e, e) (
    grantID ←! onNoRows gone (one (GetOAuthGrantIDByRefreshHash h));
    grant ←! onNoRows gone (one (LockOAuthGrant grantID));
    if g_revoked grant || negb (bool_decide (refresh_hash grant = Some h)) || negb (bool_decide (g_product grant = clientID))
    then fail gone else
    within ←! one (OAuthGrantRefreshWithinLifetimes (wholeSeconds oauthRefreshIdleLimit) (wholeSeconds oauthRefreshAbsoluteLimit) grantID);
    if negb within then fail gone else
    product ←! onNoRows noClient (one (GetProduct (g_product grant)));
    if negb (OAuthSrv.IsClient (Some (oauthClientFromProduct product))) then fail noClient else
    active ←! onNoRows gone (one (GetUserByID (g_user grant)));
    if negb active then fail gone else
    if negb (forallb (OAuthSrv.contains (g_scopes grant)) (default [] requested))
    then refuse (mkFailure 400 OAuthSrv.ErrInvalidScope 0) else
    let scopes := default (g_scopes grant) requested in
    if negb (oauthClientAllowsScopes product scopes) then fail noClient else
    _ ←! grantMintBlocked grantID;
    buf ←! random;
    let '(access, accessHash) := OAuthSrv.GenerateToken buf in
    now ← call Now;
    _ ←! onNoRows noClient (one (CreateGrantProductToken (g_user grant) (g_product grant) accessHash scopes
                                   (now + oauthAccessTokenTTL) grantID));
    n ←! exec (TouchOAuthGrantRefreshUse grantID);
    if negb (n =? 1) then fail gone else
    _ ←! commit;
    ok (access, Join scopes " ")).

Definition OAuthToken (r : formReq) : prog req answer := respond (
  auth ←! oauthAuthenticatedClient r;
  let '(clientID, form) := auth in
  if (OAuthSrv.GrantType form =?s "authorization_code")%go then
    if (OAuthSrv.fCode form =?s EmptyString)%go then fail oauthInvalidRequest else
    resp ←! failing tokenStop (redeemOAuthCode clientID form);
    ok (Tokens (AccessToken resp) (RefreshTokenText resp) (ScopeText resp))
  else if (OAuthSrv.GrantType form =?s "refresh_token")%go then
    if (OAuthSrv.RefreshToken form =?s EmptyString)%go then fail oauthInvalidRequest else
    let requested := if OAuthSrv.fHasScope form then OAuthSrv.ParseScopes (OAuthSrv.fScope form) else None in
    if OAuthSrv.fHasScope form && negb (bool_decide (is_Some requested))
    then fail (TokenError (mkFailure 400 OAuthSrv.ErrInvalidScope 0)) else
    resp ←! failing tokenStop (refreshOAuthToken clientID (OAuthSrv.RefreshToken form) requested);
    ok (Refreshed (fst resp) (snd resp))
  else if (OAuthSrv.GrantType form =?s EmptyString)%go then fail oauthInvalidRequest
  else fail (TokenError (mkFailure 400 OAuthSrv.ErrUnsupportedGrantType 0))).

(** ** POST /api/oauth/revoke *)
(** [true]: a token of this type has the text. *)
Definition revokeRefreshToken (clientID : uuid) (tok : string) : prog req (result stop bool) :=
  let h := hash tok in
  withTx (λ e, e) (
    found ←! exec (GetOAuthGrantIDByRefreshHash h);
    match found with
    | None => ok false
    | Some grantID =>
      locked ←! exec (LockOAuthGrant grantID);
      match locked with
      | None => ok false
      | Some grant =>
        if g_revoked grant || negb (bool_decide (refresh_hash grant = Some h)) then ok true else
        if negb (bool_decide (g_product grant = clientID)) then refuse errOAuthInvalidGrant else
        _ ←! revokeGrantLocked grantID; _ ←! commit; ok true
      end
    end).

Definition revokeAccessToken (clientID : uuid) (tok : string) : prog req (result stop bool) :=
  found ←! exec (GetProductTokenForOAuthRevoke (hash tok));
  match found with
  | None => ok false
  | Some row =>
    if tr_Revoked row || (tr_Expired row && negb (bool_decide (tr_Product row = clientID))) then ok true else
    if negb (bool_decide (tr_Product row = clientID)) then refuse errOAuthInvalidGrant else
    match tr_Grant row with
    | None => ok true
    | Some grantID =>
      withTx (λ e, e) (
        locked ←! exec (LockOAuthGrant grantID);
        match locked with
        | None => ok true
        | Some _ => _ ←! exec (RevokeOAuthGrantAccessToken (tr_ID row) grantID); _ ←! commit; ok true
        end)
    end
  end.

Fixpoint revokeSteps (steps : list (prog req (result stop bool))) : prog req (result stop unit) :=
  match steps with
  | [] => ok tt
  | step :: steps' => found ←! step; if (found : bool) then ok tt else revokeSteps steps'
  end.
Definition revokeOAuthToken (clientID : uuid) (token hint : string) : prog req (result stop unit) :=
  if (oauthMaxTokenLen <? String.length token)%nat then ok tt else
  revokeSteps (if (hint =?s "access_token")%go then [revokeAccessToken clientID token; revokeRefreshToken clientID token]
               else [revokeRefreshToken clientID token; revokeAccessToken clientID token]).

Definition OAuthRevoke (r : formReq) : prog req answer := respond (
  auth ←! oauthAuthenticatedClient r;
  let '(clientID, form) := auth in
  if (OAuthSrv.Token form =?s EmptyString)%go then fail oauthInvalidRequest else
  _ ←! failing tokenStop (revokeOAuthToken clientID (OAuthSrv.Token form) (OAuthSrv.TokenTypeHint form));
  ok (Done 200)).

(** ** The revokes of a signed-in user *)
Definition notFoundOr (what : string) (e : stop) : answer := match e with NoRows => HttpError 404 what | _ => internalError end.

Definition RevokeMyOAuthConnection (w : webReq) : prog req answer :=
  match signedIn w, parseUUID (pathID w) with
  | None, _ => Ret notSignedIn
  | Some _, None => Ret (HttpError 400 "invalid connection id")
  | Some user, Some id => respond (
    _ ←! failing (notFoundOr "connection not found") (inTx (revokeGrantOfTokenTx id (Some user))); ok (Done 204))
  end.
Definition AdminRevokeOAuthConnection (w : webReq) : prog req answer :=
  match signedIn w, parseUUID (pathID w) with
  | None, _ => Ret notSignedIn
  | Some _, None => Ret (HttpError 400 "invalid connection id")
  | Some _, Some id => respond (
    _ ←! failing (notFoundOr "connection not found") (inTx (revokeGrantOfTokenTx id None)); ok (Done 204))
  end.

(** A token of a grant takes its grant with it; a manual one goes alone. *)
Definition revokeTokenOr (grantID : option uuid) (owner : option uuid) (alone : stmt Z) : prog req (result answer answer) :=
  match grantID with
  | Some g => _ ←! failing (notFoundOr "token not found") (inTx (revokeGrantOfTokenTx g owner)); ok (Done 204)
  | None =>
    n ←! internal (auto alone);
    if n =? 0 then fail (HttpError 404 "token not found") else ok (Done 204)
  end.
Definition RevokeMyProductToken (w : webReq) : prog req answer :=
  match signedIn w, parseUUID (pathID w) with
  | None, _ => Ret notSignedIn
  | Some _, None => Ret (HttpError 400 "invalid token id")
  | Some user, Some id => respond (
    grantID ←! failing (notFoundOr "token not found") (one (GetOwnProductTokenGrantID id user));
    revokeTokenOr grantID (Some user) (RevokeProductToken id user))
  end.
Definition AdminRevokeProductToken (w : webReq) : prog req answer :=
  match signedIn w, parseUUID (pathID w) with
  | None, _ => Ret notSignedIn
  | Some _, None => Ret (HttpError 400 "invalid token id")
  | Some _, Some id => respond (
    grantID ←! failing (notFoundOr "token not found") (one (GetProductTokenGrantID id));
    revokeTokenOr grantID None (OAuthDb.AdminRevokeProductToken id))
  end.

Fixpoint revokeGrants (gs : list uuid) : prog req (result stop unit) :=
  match gs with
  | [] => ok tt
  | g :: gs' => _ ←! revokeGrantLocked g; revokeGrants gs'
  end.
Definition RevokeAllCLITokens (w : webReq) : prog req answer :=
  match signedIn w with
  | None => Ret notSignedIn
  | Some user => respond (
    _ ←! internal (inTx (
      _ ←! exec (LockOAuthUserGrants user);
      gs ←! exec (LockLiveOAuthGrantsForUser user);
      _ ←! revokeGrants gs;
      _ ←! exec (OAuthDb.RevokeAllCLITokens user);
      exec (RevokeAllProductTokens user)));
    ok (Done 204))
  end.

(** * The routes *)
Inductive endpoint :=
  | Authorize (w : webReq) | Approve (w : webReq) | Deny (w : webReq) | PostToken (r : formReq) | PostRevoke (r : formReq)
  | RevokeConnection (w : webReq) | AdminRevokeConnection (w : webReq)
  | RevokeToken (w : webReq) | AdminRevokeToken (w : webReq) | RevokeAll (w : webReq).

Definition serve (e : endpoint) : prog req answer :=
  match e with
  | Authorize w => OAuthAuthorize w
  | Approve w => OAuthApprove w
  | Deny w => OAuthDeny w
  | PostToken r => OAuthToken r
  | PostRevoke r => OAuthRevoke r
  | RevokeConnection w => RevokeMyOAuthConnection w
  | AdminRevokeConnection w => AdminRevokeOAuthConnection w
  | RevokeToken w => RevokeMyProductToken w
  | AdminRevokeToken w => AdminRevokeProductToken w
  | RevokeAll w => RevokeAllCLITokens w
  end.
End Handlers.
End OAuthFlow.
