(* ===== verification/OAuthInv.v ===== *)
(** The invariant of the OAuth tables, and the rules that carry it through a
    transaction.

    A transaction works on its view of the tables ([view]): the committed rows
    under its own writes.  [Jx] is the invariant of such a view; it may except
    the scopes of one grant and the status of one request, which a handler
    leaves out of step between two statements.  [Jx_stable] says that whatever
    the others commit meanwhile, the locks of the transaction keep its view in
    order; at the commit the view is the invariant of the tables. *)

From S2P Require Import Prelude Result Prog GoText GoStrings GoSearch OAuthSrv OAuthDb OAuthTx OAuthFlow.

Local Open Scope Z_scope.

Module OAuthInv.
Import OAuthDb OAuthTx.

#[export] Instance item_eq_dec : EqDecision item.
Proof. solve_decision. Defined.

(** * The invariant *)
Definition mintedIn (g : uuid) (from : time) (t : Token) : bool :=
  ofGrant g t && ((from <? t_created t) && (t_created t <=? from + OAuthFlow.oauthGrantMintWindow)).
Definition liveAt (g : uuid) (now : time) (t : Token) : bool := ofGrant g t && liveToken now t.

(** Tokens and codes under a grant are its user's and its product's; a revoked
    grant has no working token, no redeemable code and no refresh token; one code
    at most is redeemable; no hour sees more than thirty mints, and no moment
    from now on more than ten working tokens. *)
Record grantOk (c : time) (R : rows) (g : uuid) : Prop := mkGrantOk {
  ok_token id t : tokens R !! id = Some t → t_grant t = Some g → ∃ gr, grants R !! g = Some gr ∧
    t_user t = g_user gr ∧ t_product t = g_product gr ∧ (t_revoked t = false → g_revoked gr = false);
  ok_code id r : requests R !! id = Some r → q_grant r = Some g → ∃ gr, grants R !! g = Some gr ∧
    q_user r = Some (g_user gr) ∧ q_product r = g_product gr ∧ status r ≠ Pending ∧ status r ≠ Denied ∧
    (status r = Approved → g_revoked gr = false);
  ok_one id1 id2 r1 r2 : requests R !! id1 = Some r1 → requests R !! id2 = Some r2 → q_grant r1 = Some g →
    q_grant r2 = Some g → status r1 = Approved → status r2 = Approved → id1 = id2;
  ok_dead gr : grants R !! g = Some gr → g_revoked gr = true → refresh_hash gr = None;
  ok_rate from : count (mintedIn g from) (tokens R) <= OAuthFlow.oauthMaxGrantMintsPerWindow;
  ok_live now : c <= now → count (liveAt g now) (tokens R) <= OAuthFlow.oauthMaxLiveGrantTokens;
}.

(** A working token has no scope its grant has lost. *)
Definition scoped (R : rows) (g : uuid) : Prop := ∀ id t gr,
  tokens R !! id = Some t → t_grant t = Some g → t_revoked t = false → grants R !! g = Some gr →
  subset (t_scopes t) (g_scopes gr) = true.
(** A request without a grant is undecided or denied. *)
Definition loose (R : rows) (id : uuid) : Prop := ∀ r,
  requests R !! id = Some r → q_grant r = None → status r = Pending ∨ status r = Denied.
Definition uniq (R : rows) (u p : uuid) : Prop := ∀ id1 id2 g1 g2,
  grants R !! id1 = Some g1 → grants R !! id2 = Some g2 → g_user g1 = u → g_product g1 = p → g_user g2 = u → g_product g2 = p →
  liveGrant g1 = true → liveGrant g2 = true → id1 = id2.

(** What a source and a product may have waiting. *)
Definition waiting (f : Req → string) (now : time) (p : uuid) (s : string) (r : Req) : bool := pendingOf now p r && (f r =?s s)%go.
Record pendOk (c : time) (R : rows) (p : uuid) : Prop := mkPendOk {
  pend_fine now s : c <= now → count (waiting source_prefix now p s) (requests R) <= OAuthFlow.oauthPendingPerSourceCap;
  pend_mid now s : c <= now → count (waiting source_mid now p s) (requests R) <= OAuthFlow.oauthPendingV4MidCap;
  pend_wide now s : c <= now → count (waiting source_wide now p s) (requests R) <= OAuthFlow.oauthPendingV6WideCap;
  pend_all now : c <= now → count (pendingOf now p) (requests R) <= OAuthFlow.oauthPendingPerProductCap;
}.

Record Jx (ng nr : option uuid) (c : time) (d : DB) : Prop := mkJ {
  j_named : named d;
  j_grant g : grantOk c (tables d) g;
  j_scoped g : ng ≠ Some g → scoped (tables d) g;
  j_loose id : nr ≠ Some id → loose (tables d) id;
  j_uniq u p : uniq (tables d) u p;
  j_pend p : pendOk c (tables d) p;
}.
Definition J : time → DB → Prop := Jx None None.

(** * Counting *)
Lemma count_le {B} (p q : B → bool) (m m' : gmap uuid B) :
  (∀ id x, m' !! id = Some x → p x = true → ∃ y, m !! id = Some y ∧ q y = true) → count p m' <= count q m.
Proof.
  intros H. rewrite /count -!size_dom. apply inj_le, subseteq_size. intros id. rewrite !elem_of_dom.
  intros [x [Hx Hp]%pick_Some]. destruct (H id x Hx Hp) as (y & Hy & Hq). exists y. by apply pick_Some.
Qed.

Lemma count_insert {B} (p : B → bool) (m : gmap uuid B) id x : count p (<[id := x]> m) <= count p m + 1.
Proof.
  rewrite /count -!size_dom. transitivity (Z.of_nat (size ({[id]} ∪ dom (pick p m)))).
  - apply inj_le, subseteq_size. intros i. rewrite elem_of_union elem_of_singleton !elem_of_dom.
    intros [y [Hy Hp]%pick_Some]. destruct (decide (i = id)) as [->|]; [by left|right].
    rewrite lookup_insert_ne // in Hy. exists y. by apply pick_Some.
  - pose proof (size_union_alt {[id]} (dom (pick p m))) as Hs.
    assert (size (dom (pick p m) ∖ {[id]}) ≤ size (dom (pick p m)))%nat by (apply subseteq_size; set_solver).
    rewrite size_singleton in Hs. lia.
Qed.

Lemma mintedIn_grant g from t : mintedIn g from t = true → t_grant t = Some g.
Proof. by intros [H%bool_decide_eq_true _]%andb_true_iff. Qed.
Lemma liveAt_grant g now t : liveAt g now t = true → t_grant t = Some g.
Proof. by intros [H%bool_decide_eq_true _]%andb_true_iff. Qed.

(** * Moving the invariant from one state of the tables to the next *)
Lemma pendOk_le c c' R R' p : c <= c' →
  (∀ id r, requests R' !! id = Some r → q_product r = p → status r = Pending → requests R !! id = Some r) →
  pendOk c R p → pendOk c' R' p.
Proof.
  intros Hc Hr [A1 A2 A3 A4].
  assert (∀ now id r, requests R' !! id = Some r → pendingOf now p r = true → requests R !! id = Some r) as Hp.
  { intros now id r Hid Hp. rewrite /pendingOf /isStatus !andb_true_iff !bool_decide_eq_true in Hp. destruct Hp as [[? _] ?]. by apply Hr. }
  assert (∀ f now s id r, requests R' !! id = Some r → waiting f now p s r = true →
    ∃ y, requests R !! id = Some y ∧ waiting f now p s y = true) as Hw.
  { intros f now s id r Hid Hw. exists r. split; [|done]. apply andb_true_iff in Hw as [Hw _]. by eapply Hp. }
  split.
  - intros now s Hn. etrans; [|apply (A1 now s); lia]. apply count_le. apply Hw.
  - intros now s Hn. etrans; [|apply (A2 now s); lia]. apply count_le. apply Hw.
  - intros now s Hn. etrans; [|apply (A3 now s); lia]. apply count_le. apply Hw.
  - intros now Hn. etrans; [|apply (A4 now); lia]. apply count_le. eauto.
Qed.

Lemma grantOk_protected c c' d d' g : c <= c' → protects d d' (LGrant g) → grantOk c (tables d) g → grantOk c' (tables d') g.
Proof.
  intros Hc (HG & HT & HR) [A1 A2 A3 A4 A5 A6].
  split.
  - intros id t Hid Hg. rewrite HG. apply (A1 id); [by apply HT|done].
  - intros id r Hid Hg. rewrite HG. apply (A2 id); [by apply HR|done].
  - intros id1 id2 r1 r2 H1 H2 G1 G2. apply (A3 id1 id2 r1 r2); auto.
  - by rewrite HG.
  - intros from. etrans; [|apply (A5 from)]. apply count_le.
    intros id t Hid Hm. exists t. split; [|done]. by apply HT; [eapply mintedIn_grant|].
  - intros now Hn. etrans; [|apply (A6 now); lia]. apply count_le.
    intros id t Hid Hm. exists t. split; [|done]. by apply HT; [eapply liveAt_grant|].
Qed.

Lemma scoped_protected d d' g : protects d d' (LGrant g) → scoped (tables d) g → scoped (tables d') g.
Proof. intros (HG & HT & _) H id t gr Hid Hg Hr. rewrite HG. apply (H id); [by apply HT|done..]. Qed.

Lemma uniq_protected d d' u p : protects d d' (LKey u p) → uniq (tables d) u p → uniq (tables d') u p.
Proof.
  intros H Hu id1 id2 g1 g2 H1 H2 U1 P1 U2 P2 L1 L2.
  destruct (H id1 g1 H1 U1 P1 L1) as (? & ? & ? & ? & ?), (H id2 g2 H2 U2 P2 L2) as (? & ? & ? & ? & ?). by eapply Hu.
Qed.

Lemma pendOk_protected c c' d d' p : c <= c' → protects d d' (LAuthorize p) → pendOk c (tables d) p → pendOk c' (tables d') p.
Proof. intros Hc H. by apply pendOk_le. Qed.

(** ** What the others do, seen through a transaction's writes *)
Lemma drawn_view d t id : disciplined d t → id ∈ ids (pend t) → id ∈ drawn d ∨ LId id ∈ held t ∨ id ∈ ids (tables d).
Proof.
  intros [HG HT HR]. rewrite /ids !elem_of_union !elem_of_dom. intros [[[x Hx]|[x Hx]]|[x Hx]].
  - destruct (HG id x Hx) as [_ Hm]. destruct (grants (tables d) !! id) eqn:E; [eauto 10|]. destruct Hm as [[_ ?] _]. eauto.
  - destruct (HT id x Hx) as (_ & _ & Hm). destruct (tokens (tables d) !! id) eqn:E; [eauto 10|]. destruct Hm as [[_ ?] _]. eauto.
  - destruct (HR id x Hx) as (_ & _ & Hm). destruct (requests (tables d) !! id) eqn:E; [eauto 10|]. destruct Hm as [[_ ?] _]. eauto.
Qed.

Lemma view_protects d d' t i : agree (Some t) d d' → i ∈ held t → protects (view (pend t) d) (view (pend t) d') i.
Proof.
  intros [_ Hp] Hi. specialize (Hp i Hi). destruct i as [g|id|id|u p|u|p|p|id]; cbn [protects view tables products drawn] in *.
  - destruct Hp as (HG & HT & HR). rewrite !lookup_over_grants HG. split_and!; [done|..].
    + intros id x Hx. rewrite !lookup_over_tokens. destruct (tokens (pend t) !! id); [done|]. by apply HT.
    + intros id x Hx. rewrite !lookup_over_requests. destruct (requests (pend t) !! id); [done|]. by apply HR.
  - by rewrite !lookup_over_tokens Hp.
  - by rewrite !lookup_over_requests Hp.
  - intros id g. rewrite !lookup_over_grants. destruct (grants (pend t) !! id); [naive_solver|]. apply Hp.
  - intros id g. rewrite !lookup_over_grants. destruct (grants (pend t) !! id); [naive_solver|]. apply Hp.
  - intros id r. rewrite !lookup_over_requests. destruct (requests (pend t) !! id); [done|]. apply Hp.
  - done.
  - rewrite !elem_of_union. tauto.
Qed.

Lemma view_evolves d d' t : agree (Some t) d d' → disciplined d t → named d → named d' → evolves (view (pend t) d) (view (pend t) d').
Proof.
  intros Ha Hd Hn Hn'. pose proof Ha as [He Hp].
  assert (∀ id, id ∈ drawn (view (pend t) d) → id ∈ drawn d' → id ∈ drawn d) as Hid.
  { intros id [Hw|?]%elem_of_union Hd'; [|done]. destruct (drawn_view d t id Hd Hw) as [?|[Hl|?]]; [done| |by apply Hn].
    by apply (Hp (LId id) Hl). }
  split; cbn [view tables drawn] in *.
  - pose proof (e_drawn _ _ He). set_solver.
  - intros id r' Hin. rewrite !lookup_over_requests. destruct (requests (pend t) !! id); [eauto using forward_refl|].
    intros Hr. apply (e_request _ _ He); [|done]. apply Hid; [done|by eapply named_request].
  - intros id r' Hin. rewrite !lookup_over_grants. destruct (grants (pend t) !! id); [eauto using forwardG_refl|].
    intros Hr. apply (e_grant _ _ He); [|done]. apply Hid; [done|by eapply named_grant].
  - intros id r' Hin Hg. rewrite !lookup_over_tokens. destruct (tokens (pend t) !! id); [eauto using forwardT_refl|].
    intros Hr. apply (e_token _ _ He); [|done|done]. apply Hid; [done|by eapply named_token].
Qed.

Lemma Jx_stable ng nr c c' d d' t : Jx ng nr c (view (pend t) d) → disciplined d t → agree (Some t) d d' → J c' d' →
  c <= c' → Jx ng nr c' (view (pend t) d').
Proof.
  intros Hj Hd Ha Hj' Hc. pose proof (disciplined_agree _ _ _ Ha Hd) as Hd'. pose proof (j_named _ _ _ _ Hj') as Hn'.
  assert (∀ i, protects (view (pend t) d) (view (pend t) d') i ∨ protects d' (view (pend t) d') i) as Hi.
  { intros i. destruct (decide (i ∈ held t)); [left; by apply view_protects|right; by apply commit_protects]. }
  split.
  - by apply commit_named.
  - intros g. destruct (Hi (LGrant g)) as [H|H]; eapply grantOk_protected; [|exact H|apply Hj| |exact H|apply Hj']; lia.
  - intros g Hg. destruct (Hi (LGrant g)) as [H|H]; eapply scoped_protected; [exact H|by apply Hj|exact H|by apply Hj'].
  - intros id Hid. pose proof (j_loose _ _ _ _ Hj id Hid) as H1. pose proof (j_loose _ _ _ _ Hj' id) as H2.
    intros r. specialize (H1 r). specialize (H2 ltac:(done) r). revert H1. cbn [view tables]. rewrite !lookup_over_requests.
    by destruct (requests (pend t) !! id).
  - intros u p. destruct (Hi (LKey u p)) as [H|H]; eapply uniq_protected; [exact H|apply Hj|exact H|apply Hj'].
  - intros p. destruct (Hi (LAuthorize p)) as [H|H]; eapply pendOk_protected; [|exact H|apply Hj| |exact H|apply Hj']; lia.
Qed.

(** ** Steps that create nothing *)
Record sameToken (t t' : Token) : Prop := mkSame {
  st_grant : t_grant t' = t_grant t; st_user : t_user t' = t_user t; st_product : t_product t' = t_product t;
  st_created : t_created t' = t_created t; st_expires : t_expires t' = t_expires t;
  st_revoked : t_revoked t' = false → t_revoked t = false }.
Lemma sameToken_refl t : sameToken t t.
Proof. done. Qed.
#[local] Hint Resolve sameToken_refl forward_refl forwardG_refl forwardT_refl after_refl : core.

Lemma liveToken_same now t t' : sameToken t t' → liveToken now t' = true → liveToken now t = true.
Proof.
  intros [H1 H2 H3 H4 H5 H6]. rewrite /liveToken H5 !andb_true_iff !negb_true_iff. intros [? ?]. auto.
Qed.

Lemma J_move ng nr ng' nr' c c' d d' : Jx ng nr c d → c <= c' → named d' →
  (∀ g gr', grants (tables d') !! g = Some gr' → ∃ gr, grants (tables d) !! g = Some gr ∧ forwardG gr gr' ∧
    (g_revoked gr' = true → refresh_hash gr' = None)) →
  (∀ id t' g, tokens (tables d') !! id = Some t' → t_grant t' = Some g → ∃ t gr', tokens (tables d) !! id = Some t ∧
    sameToken t t' ∧ grants (tables d') !! g = Some gr' ∧ (t_revoked t' = false → g_revoked gr' = false)) →
  (∀ id r' g, requests (tables d') !! id = Some r' → q_grant r' = Some g → ∃ r gr', requests (tables d) !! id = Some r ∧
    q_grant r = Some g ∧ q_user r' = q_user r ∧ q_product r' = q_product r ∧ after (status r) (status r') = true ∧
    grants (tables d') !! g = Some gr' ∧ (status r' = Approved → g_revoked gr' = false)) →
  (∀ g, ng' ≠ Some g → scoped (tables d') g) → (∀ id, nr' ≠ Some id → loose (tables d') id) →
  (∀ id r, requests (tables d') !! id = Some r → status r = Pending → requests (tables d) !! id = Some r) →
  Jx ng' nr' c' d'.
Proof.
  intros Hj Hc Hn HG HT HR HS HL HP. split; [done| |done|done|..].
  - intros g. destruct (j_grant _ _ _ _ Hj g) as [A1 A2 A3 A4 A5 A6]. split.
    + intros id t' Hid Hg. destruct (HT id t' g Hid Hg) as (t & gr' & Ht & [] & Hgr & Hl). exists gr'.
      destruct (HG g gr' Hgr) as (gr & Hgo & [] & _). destruct (A1 id t Ht) as (gr0 & ? & ? & ? & ?); [congruence|].
      split_and!; [done|congruence..|done].
    + intros id r' Hid Hg. destruct (HR id r' g Hid Hg) as (r & gr' & Hr & Hrg & Hu & Hp & Ha & Hgr & Hl). exists gr'.
      destruct (HG g gr' Hgr) as (gr & Hgo & [] & _). destruct (A2 id r Hr Hrg) as (gr0 & ? & ? & ? & Hs1 & Hs2 & _).
      split_and!; [done|congruence|congruence|..|done]; intros E; rewrite E in Ha; by destruct (status r).
    + assert (∀ id r', requests (tables d') !! id = Some r' → q_grant r' = Some g → status r' = Approved →
        ∃ r, requests (tables d) !! id = Some r ∧ q_grant r = Some g ∧ status r = Approved) as Hold.
      { intros id r' Hid Hg Hs. destruct (HR id r' g Hid Hg) as (r & gr' & Hr & Hrg & _ & _ & Ha & _).
        exists r. split_and!; [done..|]. destruct (A2 id r Hr Hrg) as (_ & _ & _ & _ & ? & ? & _). rewrite Hs in Ha. by destruct (status r). }
      intros id1 id2 r1 r2 H1 H2 G1 G2 S1 S2. destruct (Hold id1 r1 H1 G1 S1) as (? & ? & ? & ?), (Hold id2 r2 H2 G2 S2) as (? & ? & ? & ?).
      by eapply A3.
    + intros gr' Hgr. by destruct (HG g gr' Hgr) as (? & ? & ? & ?).
    + intros from. etrans; [|apply (A5 from)]. apply count_le. intros id t' Hid Hm.
      destruct (HT id t' g Hid) as (t & _ & Ht & Hs & _); [by eapply mintedIn_grant|]. exists t. split; [done|].
      destruct Hs. revert Hm. by rewrite /mintedIn /ofGrant st_grant0 st_created0.
    + intros now Hnow. etrans; [|apply (A6 now); lia]. apply count_le. intros id t' Hid Hm.
      destruct (HT id t' g Hid) as (t & _ & Ht & Hs & _); [by eapply liveAt_grant|]. exists t. split; [done|].
      apply andb_true_iff in Hm as [Hg Hl]. apply andb_true_iff. split; [by rewrite /ofGrant -(st_grant _ _ Hs)|by eapply liveToken_same].
  - intros u p id1 id2 g1 g2 H1 H2 U1 P1 U2 P2 L1 L2.
    destruct (HG _ _ H1) as (o1 & O1 & [] & _), (HG _ _ H2) as (o2 & O2 & [] & _).
    apply (j_uniq _ _ _ _ Hj u p id1 id2 o1 o2); try congruence; revert L1 L2; rewrite /liveGrant.
    + destruct (g_revoked o1); [|done]. by rewrite fg_revoked0.
    + destruct (g_revoked o2); [|done]. by rewrite fg_revoked1.
  - intros p. eapply pendOk_le; [done| |apply (j_pend _ _ _ _ Hj)]. eauto.
Qed.

(** Rows are only removed, or belong to no grant. *)
Lemma J_fewer c c' d d' : J c d → c <= c' → named d' →
  (∀ g gr, grants (tables d') !! g = Some gr → grants (tables d) !! g = Some gr) →
  (∀ id t, t_grant t ≠ None → tokens (tables d') !! id = Some t → tokens (tables d) !! id = Some t) →
  (∀ id r, requests (tables d') !! id = Some r → requests (tables d) !! id = Some r) →
  (∀ id t g gr, tokens (tables d') !! id = Some t → t_grant t = Some g → grants (tables d) !! g = Some gr → g_user gr = t_user t →
    grants (tables d') !! g = Some gr) →
  (∀ id r g gr, requests (tables d') !! id = Some r → q_grant r = Some g → grants (tables d) !! g = Some gr → q_user r = Some (g_user gr) →
    grants (tables d') !! g = Some gr) → J c' d'.
Proof.
  intros Hj Hc Hn HG HT HR HTG HRG. eapply J_move; [exact Hj|done|done|..].
  - intros g gr' Hgr. exists gr'. split_and!; [by apply HG|done|]. by apply (ok_dead _ _ _ (j_grant _ _ _ _ Hj g)), HG.
  - intros id t g Ht Hg. assert (tokens (tables d) !! id = Some t) as Ho by (apply HT; [congruence|done]).
    destruct (ok_token _ _ _ (j_grant _ _ _ _ Hj g) id t Ho Hg) as (gr & Hgr & ? & ? & ?).
    exists t, gr. split_and!; [done..| |done]. by eapply HTG.
  - intros id r g Hr Hg. pose proof (HR _ _ Hr) as Ho.
    destruct (ok_code _ _ _ (j_grant _ _ _ _ Hj g) id r Ho Hg) as (gr & Hgr & ? & ? & ? & ? & ?).
    exists r, gr. split_and!; [done..|apply after_refl| |done]. by eapply HRG.
  - intros g _ id t gr Hid Hg Hr Hgr. apply (j_scoped _ _ _ _ Hj g ltac:(done) id); [|done..|by apply HG]. apply HT; [congruence|done].
  - intros id _ r Hr. by apply (j_loose _ _ _ _ Hj id ltac:(done)), HR.
  - eauto.
Qed.

Lemma named_fewer d d' : named d → (∀ id g, grants (tables d') !! id = Some g → id ∈ drawn d') →
  (∀ id t, tokens (tables d') !! id = Some t → id ∈ drawn d') → (∀ id r, requests (tables d') !! id = Some r → id ∈ drawn d') → named d'.
Proof. intros Hn HG HT HR id. rewrite /ids !elem_of_union !elem_of_dom. intros [[[? ?]|[? ?]]|[? ?]]; eauto. Qed.

#[export] Instance J_Invariant C A : Invariant (C := C) (A := A) J.
Proof.
  split.
  - by intros c d [].
  - intros c d id t g Hj Ht Hg. destruct (ok_token _ _ _ (j_grant _ _ _ _ Hj g) id t Ht Hg) as (gr & ? & ? & _). eauto.
  - intros c c' d Hc Hj. eapply J_fewer; [exact Hj|done|apply Hj|eauto..].
  - intros c d t x d' t' fp Hj Hs. pose proof (j_named _ _ _ _ Hj) as Hn. inversion Hs; subst; [|done].
    eapply J_fewer; [exact Hj|done| |done|done| |eauto..]; simpl.
    + eapply named_fewer; [exact Hn|simpl; eauto using named_grant|simpl; eauto using named_token|]; simpl.
      intros id r [? _]%pick_Some. eauto using named_request.
    + by intros id r [? _]%pick_Some.
  - intros s d' Hs Hj. pose proof (j_named _ _ _ _ Hj) as Hn. destruct Hs as [p x _|u act|u _ _ _ _|id t Ht _ H0 Hid].
    + eapply J_fewer; [exact Hj|done|done|eauto..].
    + eapply J_fewer; [exact Hj|done|done|eauto..].
    + eapply J_fewer; [exact Hj|done|..]; simpl.
      * eapply named_fewer; [apply Hn|..]; simpl; intros id y [? _]%pick_Some; eauto using named_grant, named_token, named_request.
      * by intros ? ? [? _]%pick_Some.
      * by intros ? ? ? [? _]%pick_Some.
      * by intros ? ? [? _]%pick_Some.
      * intros id t g gr [_ Hu]%pick_Some _ Hg Hgu. apply pick_Some. split; [done|]. by rewrite Hgu.
      * intros id r g gr [_ Hu]%pick_Some _ Hg Hgu. apply pick_Some. split; [done|]. rewrite Hgu in Hu.
        apply negb_true_iff, bool_decide_eq_false in Hu. apply negb_true_iff, bool_decide_eq_false. congruence.
    + eapply J_fewer; [exact Hj|done|..]; simpl.
      * eapply named_fewer; [apply Hn|..]; simpl.
        -- intros. apply elem_of_union_r. eauto using named_grant.
        -- intros id' t'. destruct (decide (id' = id)) as [->|]; [set_solver|]. rewrite lookup_insert_ne //.
           intros. apply elem_of_union_r. eauto using named_token.
        -- intros. apply elem_of_union_r. eauto using named_request.
      * done.
      * intros id' t' Hg. destruct (decide (id' = id)) as [->|]; [rewrite lookup_insert_eq; by intros [= <-]|]. by rewrite lookup_insert_ne.
      * done.
      * intros id' t' g gr. done.
      * done.
Qed.
End OAuthInv.
