(* ===== verification/OAuthRules.v ===== *)
(** The rules for a handler of [OAuthFlow] in its own view: what holds outside a
    transaction and inside one, from one request to the next. *)

From S2P Require Import Prelude Result Prog GoText GoStrings GoSearch OAuthSrv OAuthDb OAuthTx OAuthFlow OAuthInv.

Local Open Scope Z_scope.

Module OAuthRules.
Import OAuthDb OAuthTx OAuthInv.

Notation WP := (wp (answers J) (OAuthTx.ok J)).

(** * What a request does *)
Definition pinv (clk : time) (d : DB) (t : option txn) {X} (r : req X) (d' : DB) (t' : option txn) : X → Prop :=
  match r in req X return X → Prop with
  | Stmt s => λ x, d' = d ∧
    match x with
    | Err _ => t' = t
    | Ok y =>
      match t with
      | Some tx => ∃ w id, id ∉ drawn d ∧ LId id ∉ held tx ∧ effect (tnow tx) id (view (pend tx) d) s = Some (y, w) ∧
          t' = Some (mkTxn (tnow tx) (over w (pend tx)) ((LId id :: wanted s y ++ written w) ++ held tx))
      | None => t' = None ∧ ∃ id, effect clk id d s = Some (y, none)
      end
    end
  | DeleteExpiredOAuthAuthorizeRequests => λ _, t' = t ∧ newlyRedeemed (tables d) (tables d') = []
  | Begin => λ x, d' = d ∧ match x with Ok _ => t = None ∧ t' = Some (mkTxn clk none []) | Err _ => t' = t end
  | Commit => λ x, t' = None ∧ match t with
      | Some tx => d' = view (pend tx) d ∨ (d' = d ∧ ∃ e, x = Err e)
      | None => d' = d
      end
  | Rollback => λ _, d' = d ∧ t' = None
  | Now => λ _, d' = d ∧ t' = t
  | Rand => λ _, d' = d ∧ t' = t
  | Allow _ => λ _, d' = d ∧ t' = t
  end.

Lemma newlyRedeemed_pick p R : newlyRedeemed R (mkRows (grants R) (tokens R) (pick p (requests R))) = [].
Proof.
  destruct (newlyRedeemed _ _) as [|[id x] l] eqn:E; [done|].
  assert ((id, x) ∈ newlyRedeemed R (mkRows (grants R) (tokens R) (pick p (requests R)))) as Hin by (rewrite E; left).
  apply elem_of_newlyRedeemed in Hin as ([Hx _]%pick_Some & Hs & Ho). by apply Ho in Hx.
Qed.

Lemma pstep_inv clk d t X (r : req X) x d' t' fp : pstep clk d t X r x d' t' fp → pinv clk d t r d' t' x.
Proof.
  intros Hs. destruct Hs as [X s x w id tx -> | X s x id -> | | -> | | -> | |tx x -> | | | | |]; simpl; try done.
  - eauto 10.
  - eauto.
  - split; [done|apply newlyRedeemed_pick].
  - by rewrite newlyRedeemed_same.
  - eauto.
  - destruct t; [by split; [done|right; eauto]|done].
Qed.

(** * Views *)
Lemma ids_over w p : ids (over w p) = ids w ∪ ids p.
Proof. rewrite /ids /over /= !dom_union_L. set_solver. Qed.
Lemma view_over w p d : view (over w p) d = view w (view p d).
Proof.
  rewrite /view /=. f_equal; [|by rewrite ids_over assoc_L].
  rewrite /over /=. by rewrite !map_union_assoc.
Qed.
Lemma view_none d : view none d = d.
Proof.
  destruct d as [ps us [gs ts rs] dr]. rewrite /view /over /none /ids /= !map_empty_union !dom_empty_L. f_equal. set_solver.
Qed.

(** * What a statement may write *)
Record okWrite (V : rows) (id : uuid) (h : list item) (w : rows) : Prop := mkWrite {
  ow_grant i g : grants w !! i = Some g →
    match grants V !! i with
    | Some g0 => forwardG g0 g
    | None => i = id ∧ (liveGrant g = true → LKey (g_user g) (g_product g) ∈ h ∧ LUser (g_user g) ∈ h)
    end;
  ow_token i t : tokens w !! i = Some t → (∀ g, t_grant t = Some g → LGrant g ∈ h) ∧
    match tokens V !! i with
    | Some t0 => forwardT t0 t
    | None => i = id ∧ t_grant t ≠ None
    end;
  ow_request i r : requests w !! i = Some r → (∀ g, q_grant r = Some g → LGrant g ∈ h) ∧
    match requests V !! i with
    | Some r0 => forward r0 r ∧ status r ≠ Pending
    | None => i = id ∧ (status r = Pending → LAuthorize (q_product r) ∈ h)
    end;
}.

Lemma okWrite_none V id h : okWrite V id h none.
Proof. by split. Qed.

Lemma disciplined_over d t id h w : disciplined d t → id ∉ drawn d → LId id ∈ h → held t ⊆ h → written w ⊆ h →
  okWrite (tables (view (pend t) d)) id h w → disciplined d (mkTxn (tnow t) (over w (pend t)) h).
Proof.
  intros [HG HT HR] Hid Hl Hsub Hw [WG WT WR].
  assert (∀ i, fresh d t i → fresh d (mkTxn (tnow t) (over w (pend t)) h) i) as Hfr.
  { intros i [? ?]. split; [done|]. by apply Hsub. }
  split; simpl.
  - intros i g. rewrite lookup_over_grants. destruct (grants w !! i) as [g1|] eqn:E.
    + intros [= ->]. split; [by eapply Hw, elem_written_grant|]. specialize (WG i g E). cbn [view tables] in WG.
      rewrite lookup_over_grants in WG. destruct (grants (pend t) !! i) as [gp|] eqn:Ep.
      * destruct (HG i gp Ep) as [_ Hm]. destruct (grants (tables d) !! i); [by eapply forwardG_trans|].
        destruct Hm as [Hf Hk]. split; [by apply Hfr|]. destruct WG as [U P R]. rewrite U P. intros Hlive.
        destruct Hk as [? ?]; [|split; by apply Hsub]. revert Hlive. rewrite /liveGrant. destruct (g_revoked gp); [by rewrite R|done].
      * destruct (grants (tables d) !! i); [done|]. destruct WG as [-> ?]. done.
    + intros Hg. destruct (HG i g Hg) as [? Hm]. split; [by apply Hsub|]. destruct (grants (tables d) !! i); [done|].
      destruct Hm as [? Hk]. split; [by apply Hfr|]. intros Hlive. destruct (Hk Hlive). split; by apply Hsub.
  - intros i x. rewrite lookup_over_tokens. destruct (tokens w !! i) as [x1|] eqn:E.
    + intros [= ->]. split; [by eapply Hw, elem_written_token|]. destruct (WT i x E) as [Hg WM]. split; [done|]. cbn [view tables] in WM.
      rewrite lookup_over_tokens in WM. destruct (tokens (pend t) !! i) as [xp|] eqn:Ep.
      * destruct (HT i xp Ep) as (_ & _ & Hm). destruct (tokens (tables d) !! i); [by eapply forwardT_trans|].
        destruct Hm as [Hf Hk]. split; [by apply Hfr|]. by rewrite (ft_grant _ _ WM).
      * destruct (tokens (tables d) !! i); [done|]. destruct WM as [-> ?]. done.
    + intros Hx. destruct (HT i x Hx) as (? & Hg & Hm). split_and!; [by apply Hsub|intros g ?; by apply Hsub, Hg|].
      destruct (tokens (tables d) !! i); [done|]. destruct Hm. split; [by apply Hfr|done].
  - intros i r. rewrite lookup_over_requests. destruct (requests w !! i) as [r1|] eqn:E.
    + intros [= ->]. split; [by eapply Hw, elem_written_request|]. destruct (WR i r E) as [Hg WM]. split; [done|]. cbn [view tables] in WM.
      rewrite lookup_over_requests in WM. destruct (requests (pend t) !! i) as [rp|] eqn:Ep.
      * destruct (HR i rp Ep) as (_ & _ & Hm). destruct WM as [Wf Ws]. destruct (requests (tables d) !! i).
        { destruct Hm as [Hf _]. split; [by eapply forward_trans|done]. }
        destruct Hm as [Hf Hk]. split; [by apply Hfr|done].
      * destruct (requests (tables d) !! i); [done|]. destruct WM as [-> ?]. done.
    + intros Hx. destruct (HR i r Hx) as (? & Hg & Hm). split_and!; [by apply Hsub|intros g ?; by apply Hsub, Hg|].
      destruct (requests (tables d) !! i); [done|]. destruct Hm as [? Hk]. split; [by apply Hfr|]. intros Hp. by apply Hsub, Hk.
Qed.

(** * The codes a transaction redeems *)
Definition redeems (fr : option (uuid * Req)) (w V : rows) : Prop :=
  match fr with
  | None => ∀ id r, requests w !! id = Some r → status r ≠ Redeemed
  | Some (i, r) => requests w !! i = Some r ∧ status r = Redeemed ∧
      (∀ id r', requests w !! id = Some r' → status r' = Redeemed → id = i) ∧
      (∀ r0, requests V !! i = Some r0 → status r0 ≠ Redeemed)
  end.
Definition listed {B} (o : option B) : list B := match o with Some x => [x] | None => [] end.

Lemma singleton_of {B D} (l : list (B * D)) e : NoDup l.*1 → (∀ x, x ∈ l ↔ x = e) → l = [e].
Proof.
  intros Hnd Hl. destruct l as [|x l]; [by destruct (not_elem_of_nil e); apply Hl|].
  assert (x = e) as -> by (apply Hl; left). destruct l as [|y l]; [done|].
  assert (y = e) as -> by (apply Hl; right; left). apply NoDup_cons in Hnd as [Hn _]. destruct Hn. left.
Qed.

Lemma redeemed_commit fr p d : redeems fr p (tables d) → newlyRedeemed (tables d) (tables (view p d)) = listed fr.
Proof.
  destruct fr as [[i r]|]; simpl.
  - intros (Hi & Hr & Hu & Hd). apply singleton_of; [apply newlyRedeemed_NoDup|]. intros [id x].
    rewrite elem_of_newlyRedeemed /= lookup_over_requests. split.
    + intros (Hx & Hs & Ho). destruct (requests p !! id) eqn:E; [|by apply Ho in Hx]. injection Hx as ->.
      assert (id = i) as -> by eauto. congruence.
    + intros [= -> ->]. by rewrite Hi.
  - intros H. destruct (newlyRedeemed _ _) as [|[id x] l] eqn:E; [done|].
    assert ((id, x) ∈ newlyRedeemed (tables d) (over p (tables d))) as Hin by (rewrite E; left).
    apply elem_of_newlyRedeemed in Hin as (Hx & Hs & Ho). rewrite lookup_over_requests in Hx.
    destruct (requests p !! id) eqn:Ep; [|by apply Ho in Hx]. injection Hx as ->. by apply H in Ep.
Qed.

Lemma redeems_over fr p w d t : pend t = p → disciplined d t → redeems None p (tables d) →
  redeems fr w (tables (view p d)) → redeems fr (over w p) (tables d).
Proof.
  intros <- Hd Hp. destruct fr as [[i r]|]; simpl.
  - intros (Hi & Hr & Hu & Hv). rewrite lookup_over_requests Hi. split_and!; [done..| |].
    + intros id r'. rewrite lookup_over_requests. destruct (requests w !! id) eqn:E; [intros [= ->]; eauto|].
      intros ? ?. by destruct (Hp id r').
    + intros r0 H0. rewrite lookup_over_requests in Hv. destruct (requests (pend t) !! i) as [rp|] eqn:E; [|by apply Hv].
      destruct (d_request _ _ Hd i rp E) as (_ & _ & Hm). rewrite H0 in Hm. destruct Hm as [Hf _].
      pose proof (f_status _ _ Hf) as Ha. specialize (Hv rp eq_refl). intros E0. rewrite E0 in Ha. by destruct (status rp).
  - intros Hw id r. rewrite lookup_over_requests. destruct (requests w !! id) eqn:E; [intros [= ->]; eauto|eauto].
Qed.

Lemma redeems_agree fr d d' t : agree (Some t) d d' → disciplined d t → redeems fr (pend t) (tables d) → redeems fr (pend t) (tables d').
Proof.
  intros [_ Hp] Hd. destruct fr as [[i r]|]; [|done]. intros (Hi & Hr & Hu & Hv). split_and!; [done..|].
  destruct (d_request _ _ Hd i r Hi) as (Hl & _). pose proof (Hp (LReq i) Hl) as Heq. simpl in Heq. by rewrite Heq.
Qed.

(** * Assertions *)

(** Facts the others cannot undo: of the committed rows, and of a view under
    locks. *)
Class Lasting (P : DB → Prop) := lasting d d' : named d' → evolves d d' → P d → P d'.
Class Stable (Q : list item → DB → Prop) :=
  stable h V V' : named V' → evolves V V' → (∀ i, i ∈ h → protects V V' i) → Q h V → Q h V'.

#[export] Instance Lasting_True : Lasting (λ _, True).
Proof. done. Qed.
#[export] Instance Lasting_and P P' : Lasting P → Lasting P' → Lasting (λ d, P d ∧ P' d).
Proof. intros H H' d d' Hn He []. split; [by eapply H|by eapply H']. Qed.
#[export] Instance Stable_of_Lasting P : Lasting P → Stable (λ _ V, P V).
Proof. intros H h V V' Hn He _. by eapply H. Qed.
#[export] Instance Stable_pure (P : Prop) : Stable (λ _ _, P).
Proof. by intros h V V'. Qed.
#[export] Instance Stable_and Q Q' : Stable Q → Stable Q' → Stable (λ h V, Q h V ∧ Q' h V).
Proof. intros H H' h V V' Hn He Hp []. split; [by eapply H|by eapply H']. Qed.

(** The handler began on [d0]. *)
Definition since (d0 : DB) (l : lstate) : Prop := lfrom l = d0 ∧ evolves d0 (ldb l).
Definition outside (d0 : DB) (red : list (uuid * Req)) (P : DB → Prop) (l : lstate) : Prop :=
  since d0 l ∧ ltx l = None ∧ lred l = red ∧ P (ldb l).
(** Inside a transaction of time [tn] that will redeem [fr]. *)
Definition inside (d0 : DB) (tn : time) (ng nr : option uuid) (fr : option (uuid * Req)) (Q : list item → DB → Prop)
  (l : lstate) : Prop := ∃ t, since d0 l ∧ lred l = [] ∧ ltx l = Some t ∧ tnow t = tn ∧ tn <= lclk l ∧
  named (ldb l) ∧ disciplined (ldb l) t ∧ redeems fr (pend t) (tables (ldb l)) ∧
  Jx ng nr (lclk l) (view (pend t) (ldb l)) ∧ Q (held t) (view (pend t) (ldb l)).

(** What a statement has to establish, in the view it runs on. *)
Definition does (tn : time) {X} (s : stmt X) (ng nr : option uuid) (Q : list item → DB → Prop)
  (ng' nr' : option uuid) (fr : X → option (uuid * Req)) (Q' : X → list item → DB → Prop) : Prop :=
  ∀ c V h x w id, tn <= c → Jx ng nr c V → Q h V → id ∉ drawn V → effect tn id V s = Some (x, w) →
    let h' := (LId id :: wanted s x ++ written w) ++ h in
    okWrite (tables V) id h' w ∧ redeems (fr x) w (tables V) ∧ Jx ng' nr' c (view w V) ∧ Q' x h' (view w V).

Section Rules.
Context {A : Type} (post : lstate → A → Prop) (d0 : DB).

(** The others have acted. *)
Lemma inside_agree tn ng nr fr Q `{!Stable Q} l l' d : inside d0 tn ng nr fr Q l → agree (ltx l) (ldb l) d → J (lclk l') d →
  lclk l <= lclk l' → lfrom l' = lfrom l → ldb l' = d → ltx l' = ltx l → lred l' = lred l → inside d0 tn ng nr fr Q l'.
Proof.
  intros (t & [Hf He] & Hr & Ht & Htn & Hc & Hn & Hd & Hfr & Hj & Hq) Ha HJ Hc' F1 F2 F3 F4. rewrite Ht in Ha.
  pose proof (j_named _ _ _ _ HJ) as Hn'. subst d. exists t. split_and!; [|congruence|congruence|done|lia|done|..].
  - split; [congruence|]. eapply evolves_trans; [exact He|apply Ha].
  - by eapply disciplined_agree.
  - by eapply redeems_agree.
  - by eapply Jx_stable.
  - eapply stable; [..|exact Hq]; [by apply commit_named|by apply view_evolves|]. intros i Hi. by apply view_protects.
Qed.

Lemma outside_agree red P `{!Lasting P} l l' d : outside d0 red P l → agree (ltx l) (ldb l) d → J (lclk l') d →
  lfrom l' = lfrom l → ldb l' = d → ltx l' = ltx l → lred l' = lred l → outside d0 red P l'.
Proof.
  intros ([Hf He] & Ht & Hr & Hp) [Ha _] HJ F1 F2 F3 F4. pose proof (j_named _ _ _ _ HJ) as Hn'. subst d.
  split_and!; [|congruence|congruence|by eapply lasting].
  split; [congruence|]. by eapply evolves_trans.
Qed.

(** A statement of a transaction. *)
Lemma wp_stmt X (s : stmt X) (k : result dbErr X → prog req A) tn ng nr Q `{!Stable Q} ng' nr' fr Q' l :
  inside d0 tn ng nr None Q l → does tn s ng nr Q ng' nr' fr Q' →
  (∀ x l', inside d0 tn ng' nr' (fr x) (Q' x) l' → WP post l' (k (Ok x))) →
  (∀ e l', inside d0 tn ng nr None Q l' → WP post l' (k (Err e))) →
  WP post l (Vis (Stmt s) k).
Proof.
  intros Hin Hs Hok Herr.
  assert (∀ t c d x w id, ltx l = Some t → lclk l <= c → J c d → agree (Some t) (ldb l) d → id ∉ drawn d → LId id ∉ held t →
    effect (tnow t) id (view (pend t) d) s = Some (x, w) →
    let h := (LId id :: wanted s x ++ written w) ++ held t in
    disciplined d (mkTxn (tnow t) (over w (pend t)) h) ∧
    inside d0 tn ng' nr' (fr x) (Q' x) (mkL (lfrom l) c d (Some (mkTxn (tnow t) (over w (pend t)) h)) (lred l))) as Hstep.
  { intros t c d x w id Ht Hc HJ Ha Hid Hl He h. rewrite -Ht in Ha.
    pose proof (inside_agree tn ng nr None Q l (mkL (lfrom l) c d (ltx l) (lred l)) d Hin Ha HJ Hc eq_refl eq_refl eq_refl eq_refl) as Hin'.
    destruct Hin' as (t' & Hsin & Hr & Ht' & Htn & Hc' & Hn & Hd & Hfr & Hj & Hq). simpl in *.
    rewrite Ht in Ht'. injection Ht' as <-. subst tn.
    assert (id ∉ drawn (view (pend t) d)) as Hv.
    { intros [Hw|?]%elem_of_union; [|done]. destruct (drawn_view d t id Hd Hw) as [?|[?|?]]; [done..|]. by apply Hid, Hn. }
    destruct (Hs c _ _ x w id Hc' Hj Hq Hv He) as (H1 & H2 & H3 & H4).
    assert (disciplined d (mkTxn (tnow t) (over w (pend t)) h)) as Hdd.
    { apply disciplined_over with id; try done; rewrite /h; set_solver. }
    split; [done|]. exists (mkTxn (tnow t) (over w (pend t)) h). simpl. rewrite view_over. split_and!; try done.
    by eapply redeems_over. }
  destruct Hin as (t & Hin). pose proof Hin as (_ & _ & Ht & _). assert (inside d0 tn ng nr None Q l) as Hins by (by exists t). clear Hin.
  split.
  - intros x c d d' t' fp Hc HJ Ha Hd Hp%pstep_inv. destruct Hp as [-> Hp]. split; [done|]. destruct x as [y|e]; [|by subst].
    rewrite Ht in Hp Ha. destruct Hp as (w & id & Hid & Hl & He & ->). by eapply Hstep.
  - intros x l' (d & fp & F & Hc & HJ & Ha & Hd & Hp%pstep_inv & Hr). destruct Hp as [Hdb Hp]. rewrite Hdb newlyRedeemed_same /= in Hr.
    destruct x as [y|e].
    + rewrite Ht in Hp Ha. destruct Hp as (w & id & Hid & Hl & He & Hlt). apply Hok.
      destruct l' as [f' c' db' tx' red']. simpl in *. subst. by eapply Hstep.
    + apply Herr. by eapply inside_agree.
Qed.

(** A request that leaves the rows alone. *)
Definition still {X} (r : req X) : Prop := ∀ clk d t d' t' x, pinv clk d t r d' t' x → d' = d ∧ t' = t.

Lemma wp_inside_still X (r : req X) k tn ng nr fr Q `{!Stable Q} l : still r → inside d0 tn ng nr fr Q l →
  (∀ x l', inside d0 tn ng nr fr Q l' → WP post l' (k x)) → WP post l (Vis r k).
Proof.
  intros Hst Hin Hk. split.
  - intros x c d d' t' fp Hc HJ Ha Hd Hp%pstep_inv. by apply Hst in Hp as [-> ->].
  - intros x l' (d & fp & F & Hc & HJ & Ha & Hd & Hp%pstep_inv & Hr). apply Hst in Hp as [Hdb Ht].
    rewrite Hdb newlyRedeemed_same in Hr. apply Hk. by eapply inside_agree.
Qed.

Lemma wp_outside_still X (r : req X) k red P `{!Lasting P} l : still r → outside d0 red P l →
  (∀ x l', outside d0 red P l' → WP post l' (k x)) → WP post l (Vis r k).
Proof.
  intros Hst Hin Hk. split.
  - intros x c d d' t' fp Hc HJ Ha Hd Hp%pstep_inv. by apply Hst in Hp as [-> ->].
  - intros x l' (d & fp & F & Hc & HJ & Ha & Hd & Hp%pstep_inv & Hr). apply Hst in Hp as [Hdb Ht].
    rewrite Hdb newlyRedeemed_same in Hr. apply Hk. by eapply outside_agree.
Qed.

Lemma wp_sweep k red P `{!Lasting P} l : outside d0 red P l → (∀ x l', outside d0 red P l' → WP post l' (k x)) →
  WP post l (Vis DeleteExpiredOAuthAuthorizeRequests k).
Proof.
  intros Ho Hk. split.
  - intros x c d d' t' fp Hc HJ Ha Hd Hp. split.
    + by eapply (inv_sweep (C := unit) (A := unit) (J := J)).
    + apply pstep_inv in Hp as [-> _]. destruct Ho as (_ & -> & _). done.
  - intros x l' (d & fp & F & Hc & HJ & Ha & Hd & Hp & Hr). apply Hk.
    assert (J (lclk l') (ldb l')) as HJ' by by eapply (inv_sweep (C := unit) (A := unit) (J := J)).
    destruct (pstep_guarantee _ _ _ _ _ _ _ _ _ Hp (j_named _ _ _ _ HJ) Hd) as [He _].
    apply pstep_inv in Hp as [Ht Hnr]. rewrite Hnr /= in Hr.
    destruct Ho as ([Hf He0] & Hx & Hr0 & Hp). destruct Ha as [Ha _]. assert (evolves (ldb l) (ldb l')) by by eapply evolves_trans.
    split_and!; [|congruence|congruence|by eapply lasting; [apply HJ'|..]]. split; [congruence|]. by eapply evolves_trans.
Qed.

(** A read outside a transaction. *)
Lemma wp_readCommitted X (s : stmt X) k red P `{!Lasting P} l : outside d0 red P l →
  (∀ x id l', outside d0 red P l' → J (lclk l') (ldb l') → effect (lclk l') id (ldb l') s = Some (x, none) → WP post l' (k (Ok x))) →
  (∀ e l', outside d0 red P l' → WP post l' (k (Err e))) → WP post l (Vis (Stmt s) k).
Proof.
  intros Ho Hk Herr. pose proof Ho as (_ & Hx & _). split.
  - intros x c d d' t' fp Hc HJ Ha Hd Hp%pstep_inv. destruct Hp as [-> Hp]. split; [done|]. rewrite Hx in Hp.
    destruct x; [by destruct Hp as [-> _]|by subst].
  - intros x l' (d & fp & F & Hc & HJ & Ha & Hd & Hp%pstep_inv & Hr). destruct Hp as [Hdb Hp].
    rewrite Hdb newlyRedeemed_same in Hr. assert (ltx l' = ltx l) as Ht.
    { rewrite Hx in Hp. rewrite Hx. destruct x; [by destruct Hp|done]. }
    assert (outside d0 red P l') as Ho' by by eapply outside_agree. destruct x as [y|e]; [|by apply Herr].
    rewrite Hx in Hp. destruct Hp as [_ [id He]]. rewrite -Hdb in He HJ. by eapply Hk.
Qed.

Lemma wp_begin k P `{!Lasting P} l : outside d0 [] P l →
  (∀ tn l', inside d0 tn None None None (λ _ V, P V) l' → WP post l' (k (Ok tt))) →
  (∀ e l', outside d0 [] P l' → WP post l' (k (Err e))) → WP post l (Vis Begin k).
Proof.
  intros Ho Hk Herr. pose proof Ho as (_ & Hx & _). split.
  - intros x c d d' t' fp Hc HJ Ha Hd Hp%pstep_inv. destruct Hp as [-> Hp]. split; [done|].
    destruct x; [|by subst; rewrite Hx]. destruct Hp as [_ ->]. by split.
  - intros x l' (d & fp & F & Hc & HJ & Ha & Hd & Hp%pstep_inv & Hr). destruct Hp as [Hdb Hp].
    rewrite Hdb newlyRedeemed_same in Hr. destruct x as [[]|e]; [|apply Herr; by eapply outside_agree].
    destruct Hp as [_ Ht]. assert (outside d0 [] P (mkL (lfrom l') (lclk l') (ldb l') None (lred l'))) as Ho'.
    { eapply (outside_agree [] P l _ d); simpl; try done.  }
    apply (Hk (lclk l')). destruct Ho' as (Hs & _ & Hr' & HP). simpl in *. rewrite -Hdb in HJ.
    exists (mkTxn (lclk l') none []). simpl. rewrite view_none. split_and!; try done. apply HJ.
Qed.

Lemma wp_commit k tn fr Q `{!Stable Q} l : inside d0 tn None None fr Q l →
  (∀ x h l', since d0 l' → J (lclk l') (ldb l') → lred l' = listed fr → Q h (ldb l') → WP post l' (k x)) →
  (∀ e l', since d0 l' → lred l' = [] → WP post l' (k (Err e))) → WP post l (Vis Commit k).
Proof.
  intros Hin Hk Herr.
  assert (∀ c d, agree (ltx l) (ldb l) d → J c d → lclk l <= c → inside d0 tn None None fr Q (mkL (lfrom l) c d (ltx l) (lred l))) as Hin'.
  { intros c d Ha HJ Hc. by eapply inside_agree. }
  split.
  - intros x c d d' t' fp Hc HJ Ha Hd Hp%pstep_inv. destruct Hp as [-> Hp]. split; [|done].
    destruct (Hin' c d Ha HJ Hc) as (t & _ & _ & Ht & _ & _ & _ & _ & _ & Hj & _). simpl in *. rewrite Ht in Hp.
    by destruct Hp as [->|[-> _]].
  - intros x l' (d & fp & F & Hc & HJ & Ha & Hd & Hp & Hr).
    destruct (Hin' (lclk l') d Ha HJ Hc) as (t & [Hf He] & Hr0 & Ht & _ & _ & _ & Hdd & Hfr & Hj & Hq). simpl in *.
    apply pstep_inv in Hp as [_ Hp]. rewrite Ht in Hp. destruct Hp as [Hdb|[Hdb [e ->]]].
    + eapply Hk; [|by rewrite Hdb| |by rewrite Hdb].
      * split; [congruence|]. rewrite Hdb. eapply evolves_trans; [exact He|by apply commit_evolves].
      * by rewrite Hr Hdb (redeemed_commit fr) // Hr0 app_nil_r.
    + apply Herr; [|by rewrite Hr Hdb newlyRedeemed_same]. split; [congruence|by rewrite Hdb].
Qed.

Lemma wp_rollback k P `{!Lasting P} l : since d0 l → P (ldb l) →
  (∀ l', outside d0 (lred l) P l' → WP post l' (k tt)) → WP post l (Vis Rollback k).
Proof.
  intros [Hf He] HP Hk. split.
  - intros x c d d' t' fp Hc HJ Ha Hd Hp%pstep_inv. by destruct Hp as [-> ->].
  - intros [] l' (d & fp & F & Hc & HJ & Ha & Hd & Hp%pstep_inv & Hr). destruct Hp as [Hdb Ht].
    rewrite Hdb newlyRedeemed_same in Hr. apply Hk. destruct Ha as [Ha _]. rewrite -Hdb in Ha HJ.
    split_and!; [split; [congruence|by eapply evolves_trans]|done|done|]. eapply lasting; [apply HJ|done|done].
Qed.
End Rules.

Lemma wp_withTx {E B} (d0 : DB) (f : OAuthFlow.stop → E) (body : prog req (result E B)) P `{!Lasting P}
  (M : result E B → list (uuid * Req) → DB → Prop) `{!∀ r red, Lasting (M r red)} l :
  outside d0 [] P l → (∀ e d, P d → M (Err (f (OAuthFlow.Storage e))) [] d) →
  (∀ tn l', inside d0 tn None None None (λ _ V, P V) l' → WP (λ l'' r, since d0 l'' ∧ M r (lred l'') (ldb l'')) l' body) →
  WP (λ l' r, since d0 l' ∧ ltx l' = None ∧ M r (lred l') (ldb l')) l (OAuthFlow.withTx f body).
Proof.
  intros Ho Hb Hbody. eapply wp_begin; [done|exact Ho|..].
  - intros tn l' Hin. eapply wp_bind; [by eapply Hbody|]. intros l1 r [Hs Hm].
    eapply (wp_rollback _ d0 _ (M r (lred l1))); [exact Hs|exact Hm|]. intros l2 (H1 & H2 & H3 & H4). rewrite -H3 in H4. done.
  - intros e l' (H1 & H2 & H3 & H4). simpl. rewrite H3. eauto.
Qed.

End OAuthRules.
