(* ===== verification/OAuthSteps.v ===== *)
(** The statements of [OAuthDb] and the invariant: what each of them does to the
    view it runs on. *)

From S2P Require Import Prelude Result Prog GoText GoStrings GoSearch OAuthSrv OAuthDb OAuthTx OAuthFlow OAuthInv OAuthRules.

Local Open Scope Z_scope.

Module OAuthSteps.
Import OAuthDb OAuthTx OAuthInv OAuthRules.

(** * Facts *)
Definition has (i : item) (h : list item) (_ : DB) : Prop := i ∈ h.
(** The request [id] is [r], or has moved on from it. *)
Definition fwd (id : uuid) (r : Req) (V : DB) : Prop :=
  id ∈ drawn V ∧ ∀ r', requests (tables V) !! id = Some r' → forward r r'.
Definition row (g : uuid) (gr : Grant) (h : list item) (V : DB) : Prop := LGrant g ∈ h ∧ grants (tables V) !! g = Some gr.
Definition rowR (id : uuid) (r : Req) (h : list item) (V : DB) : Prop := LReq id ∈ h ∧ requests (tables V) !! id = Some r.
(** At most [n] tokens under the grant have the property. *)
Definition few (g : uuid) (p : Token → bool) (n : Z) (h : list item) (V : DB) : Prop :=
  LGrant g ∈ h ∧ count (λ t, ofGrant g t && p t) (tokens (tables V)) <= n.
Definition spent (g : uuid) (h : list item) (V : DB) : Prop :=
  LGrant g ∈ h ∧ ∀ id t, tokens (tables V) !! id = Some t → t_grant t = Some g → t_revoked t = true.
Definition idle (g : uuid) (h : list item) (V : DB) : Prop :=
  LGrant g ∈ h ∧ ∀ id r, requests (tables V) !! id = Some r → q_grant r = Some g → status r ≠ Approved.
Definition fits (g : uuid) (scopes : list string) (h : list item) (V : DB) : Prop :=
  LGrant g ∈ h ∧ ∀ id t, tokens (tables V) !! id = Some t → t_grant t = Some g → t_revoked t = false → subset (t_scopes t) scopes = true.

#[export] Instance Stable_has i : Stable (has i).
Proof. by intros h V V'.  Qed.
#[export] Instance Lasting_fwd id r : Lasting (fwd id r).
Proof.
  intros d d' Hn He [Hid Hr]. split; [by apply (e_drawn _ _ He)|]. intros r' Hr'.
  destruct (e_request _ _ He id r' Hid Hr') as (r0 & H0 & Hf). eapply forward_trans; [by apply Hr|done].
Qed.
#[export] Instance Stable_row g gr : Stable (row g gr).
Proof. intros h V V' _ _ Hp [Hl Hg]. split; [done|]. destruct (Hp _ Hl) as (-> & _). done. Qed.
#[export] Instance Stable_rowR id r : Stable (rowR id r).
Proof. intros h V V' _ _ Hp [Hl Hg]. split; [done|]. by rewrite (Hp _ Hl). Qed.
#[export] Instance Stable_few g p n : Stable (few g p n).
Proof.
  intros h V V' _ _ Hp [Hl Hg]. split; [done|]. destruct (Hp _ Hl) as (_ & HT & _). etrans; [|exact Hg]. apply count_le.
  intros id t Hid Hq. exists t. split; [|done]. apply andb_true_iff in Hq as [Hq%bool_decide_eq_true _]. by apply HT.
Qed.
#[export] Instance Stable_spent g : Stable (spent g).
Proof. intros h V V' _ _ Hp [Hl Hg]. split; [done|]. destruct (Hp _ Hl) as (_ & HT & _). intros id t Hid Ht. apply (Hg id); [by apply HT|done]. Qed.
#[export] Instance Stable_idle g : Stable (idle g).
Proof. intros h V V' _ _ Hp [Hl Hg]. split; [done|]. destruct (Hp _ Hl) as (_ & _ & HR). intros id t Hid Ht. apply (Hg id); [by apply HR|done]. Qed.
#[export] Instance Stable_fits g sc : Stable (fits g sc).
Proof. intros h V V' _ _ Hp [Hl Hg]. split; [done|]. destruct (Hp _ Hl) as (_ & HT & _). intros id t Hid Ht. apply (Hg id); [by apply HT|done]. Qed.

(** * The invariant after a write *)
Lemma tables_wTokens m V : tables (view (wTokens m) V) = mkRows (grants (tables V)) (m ∪ tokens (tables V)) (requests (tables V)).
Proof. by rewrite /view /over /wTokens /= !map_empty_union. Qed.
Lemma tables_wGrants m V : tables (view (wGrants m) V) = mkRows (m ∪ grants (tables V)) (tokens (tables V)) (requests (tables V)).
Proof. by rewrite /view /over /wGrants /= !map_empty_union. Qed.
Lemma tables_wRequests m V : tables (view (wRequests m) V) = mkRows (grants (tables V)) (tokens (tables V)) (m ∪ requests (tables V)).
Proof. by rewrite /view /over /wRequests /= !map_empty_union. Qed.

Lemma lookup_put {B} (m : gmap uuid B) id x i : ({[id := x]} ∪ m) !! i = if decide (i = id) then Some x else m !! i.
Proof.
  rewrite -insert_union_singleton_l. destruct (decide (i = id)) as [->|]; [by rewrite lookup_insert_eq|by rewrite lookup_insert_ne].
Qed.

Section Writes.
Context (ng nr : option uuid) (c : time) (V : DB) (HJ : Jx ng nr c V).

Lemma named_view w : named (view w V).
Proof using HJ. apply commit_named with (t := mkTxn 0 w []). apply HJ. Qed.

Lemma dead g gr : grants (tables V) !! g = Some gr → g_revoked gr = true → refresh_hash gr = None.
Proof using HJ. apply (ok_dead _ _ _ (j_grant _ _ _ _ HJ g)). Qed.

(** Tokens are revoked. *)
Lemma J_revokeTokens ng' m : (∀ id t, m !! id = Some t → tokens (tables V) !! id = Some t) →
  (∀ g, ng' ≠ Some g → ng ≠ Some g ∨ ∀ id t, tokens (tables V) !! id = Some t → t_grant t = Some g → t_revoked t = false → m !! id = Some t) →
  Jx ng' nr c (view (wTokens (revokedToken <$> m)) V).
Proof using HJ.
  intros Hm Hng. eapply J_move; [exact HJ|done|apply named_view|..]; rewrite tables_wTokens; simpl.
  - intros g gr Hgr. exists gr. split_and!; [done..|]. by apply (dead g).
  - intros id t' g Ht' Hg. rewrite lookup_union lookup_fmap in Ht'. destruct (m !! id) as [t|] eqn:E; simpl in Ht'.
    + rewrite union_Some_l in Ht'. injection Ht' as <-. exists t.
      destruct (ok_token _ _ _ (j_grant _ _ _ _ HJ g) id t (Hm _ _ E) Hg) as (gr & ? & _). exists gr. by split_and!; [apply Hm| | |].
    + rewrite left_id_L in Ht'. destruct (ok_token _ _ _ (j_grant _ _ _ _ HJ g) id t' Ht' Hg) as (gr & ? & _ & _ & ?). by exists t', gr.
  - intros id r g Hr Hg. destruct (ok_code _ _ _ (j_grant _ _ _ _ HJ g) id r Hr Hg) as (gr & ? & ? & ? & ? & ? & ?).
    exists r, gr. split_and!; try done. apply after_refl.
  - intros g Hg id t gr. simpl. rewrite lookup_union lookup_fmap. destruct (m !! id) as [t0|] eqn:E; simpl.
    + rewrite union_Some_l. by intros [= <-].
    + rewrite left_id_L. intros Ht Htg Hr Hgr. destruct (Hng g Hg) as [Hn|Hall].
      * by apply (j_scoped _ _ _ _ HJ g Hn id).
      * specialize (Hall id t Ht Htg Hr). congruence.
  - intros id Hid r. by apply (j_loose _ _ _ _ HJ id).
  - done.
Qed.

(** A grant changes. *)
Lemma J_setGrant ng' g gr gr' : grants (tables V) !! g = Some gr → forwardG gr gr' →
  (g_revoked gr' = true → refresh_hash gr' = None ∧ (g_revoked gr = true ∨
    (∀ id t, tokens (tables V) !! id = Some t → t_grant t = Some g → t_revoked t = true) ∧
    (∀ id r, requests (tables V) !! id = Some r → q_grant r = Some g → status r ≠ Approved))) →
  (∀ g', ng' ≠ Some g' → ng ≠ Some g') →
  (ng' ≠ Some g → g_scopes gr' = g_scopes gr ∨
    ∀ id t, tokens (tables V) !! id = Some t → t_grant t = Some g → t_revoked t = false → subset (t_scopes t) (g_scopes gr') = true) →
  Jx ng' nr c (view (wGrants {[g := gr']}) V).
Proof using HJ.
  intros Hg Hf Hrev Hng Hsc. eapply J_move; [exact HJ|done|apply named_view|..]; rewrite tables_wGrants; simpl.
  - intros i x. rewrite lookup_put. destruct (decide (i = g)) as [->|].
    + intros [= <-]. exists gr. split_and!; [done..|]. by intros [? _]%Hrev.
    + intros Hx. exists x. split_and!; [done..|]. by apply (dead i).
  - intros id t i Ht Hi. destruct (ok_token _ _ _ (j_grant _ _ _ _ HJ i) id t Ht Hi) as (x & Hx & _ & _ & Hl).
    rewrite lookup_put. destruct (decide (i = g)) as [->|]; [|by exists t, x].
    exists t, gr'. split_and!; [done..|]. intros Htr. destruct (g_revoked gr') eqn:E; [|done]. assert (x = gr) as -> by congruence.
    destruct (Hrev eq_refl) as [_ [Hr|[Hs _]]]; [by rewrite (Hl Htr) in Hr|]. by rewrite (Hs id t Ht Hi) in Htr.
  - intros id r i Hr Hi. destruct (ok_code _ _ _ (j_grant _ _ _ _ HJ i) id r Hr Hi) as (x & Hx & ? & ? & ? & ? & Hl).
    rewrite lookup_put. destruct (decide (i = g)) as [->|].
    + exists r, gr'. split_and!; try done; [apply after_refl|]. intros Hs. destruct (g_revoked gr') eqn:E; [|done].
      assert (x = gr) as -> by congruence. destruct (Hrev eq_refl) as [_ [Ho|[_ Hc]]]; [by rewrite (Hl Hs) in Ho|]. by apply (Hc id r) in Hs.
    + exists r, x. split_and!; try done. apply after_refl.
  - intros i Hi id t x. simpl. rewrite lookup_put. destruct (decide (i = g)) as [->|].
    + intros Ht Htg Hr [= <-]. destruct (Hsc Hi) as [->|Hall]; [|by eapply Hall]. apply (j_scoped _ _ _ _ HJ g (Hng g Hi) id); done.
    + apply (j_scoped _ _ _ _ HJ i (Hng i Hi) id).
  - intros id Hid. by apply (j_loose _ _ _ _ HJ id).
  - done.
Qed.

(** Requests are decided, redeemed or superseded. *)
Lemma J_setRequests nr' m : (∀ id, nr' ≠ Some id → nr ≠ Some id) →
  (∀ id r', m !! id = Some r' → ∃ r, requests (tables V) !! id = Some r ∧ q_grant r' = q_grant r ∧ q_product r' = q_product r ∧
    (q_grant r ≠ None → q_user r' = q_user r ∧ status r' ≠ Approved) ∧ after (status r) (status r') = true ∧ status r' ≠ Pending ∧
    (q_grant r = None → nr' = Some id ∨ status r' = Denied)) →
  Jx ng nr' c (view (wRequests m) V).
Proof using HJ.
  intros Hnr Hm. eapply J_move; [exact HJ|done|apply named_view|..]; rewrite tables_wRequests; simpl.
  - intros g gr Hgr. exists gr. split_and!; [done..|]. by apply (dead g).
  - intros id t g Ht Hg. destruct (ok_token _ _ _ (j_grant _ _ _ _ HJ g) id t Ht Hg) as (gr & ? & _ & _ & ?). by exists t, gr.
  - intros id r' g Hr' Hg. rewrite lookup_union in Hr'. destruct (m !! id) as [x|] eqn:E.
    + rewrite union_Some_l in Hr'. injection Hr' as ->. destruct (Hm id r' E) as (r & Hr & Hq & Hp & Hu & Ha & _).
      rewrite Hg in Hq. destruct Hu as [Hu Hs]; [by rewrite -Hq|].
      destruct (ok_code _ _ _ (j_grant _ _ _ _ HJ g) id r Hr ltac:(done)) as (gr & ? & _). by exists r, gr.
    + rewrite left_id_L in Hr'. destruct (ok_code _ _ _ (j_grant _ _ _ _ HJ g) id r' Hr' Hg) as (gr & ? & ? & ? & ? & ? & ?).
      exists r', gr. split_and!; try done. apply after_refl.
  - intros g Hg. by apply (j_scoped _ _ _ _ HJ g).
  - intros id Hid r'. simpl. rewrite lookup_union. destruct (m !! id) as [x|] eqn:E.
    + rewrite union_Some_l. intros [= ->] Hq. destruct (Hm id r' E) as (r & _ & Hqr & _ & _ & _ & _ & Hl). rewrite Hq in Hqr.
      destruct (Hl (eq_sym Hqr)) as [->|?]; [done|by right].
    + rewrite left_id_L. apply (j_loose _ _ _ _ HJ id). by apply Hnr.
  - intros id r'. rewrite lookup_union. destruct (m !! id) as [x|] eqn:E; [|by rewrite left_id_L].
    rewrite union_Some_l. intros [= ->]. by destruct (Hm id r' E) as (_ & _ & _ & _ & _ & _ & ? & _).
Qed.

(** An access token is minted. *)
Lemma J_mint tn id g gr t : id ∉ drawn V → tn <= c → grants (tables V) !! g = Some gr → g_revoked gr = false →
  t_grant t = Some g → t_user t = g_user gr → t_product t = g_product gr → t_created t = tn → subset (t_scopes t) (g_scopes gr) = true →
  count (λ t, ofGrant g t && liveToken tn t) (tokens (tables V)) < OAuthFlow.oauthMaxLiveGrantTokens →
  count (λ t, ofGrant g t && (tn - OAuthFlow.oauthGrantMintWindow <? t_created t)) (tokens (tables V)) < OAuthFlow.oauthMaxGrantMintsPerWindow →
  Jx ng nr c (view (wTokens {[id := t]}) V).
Proof using HJ.
  intros Hid Htn Hgr Hlive Hg Hu Hp Hcr Hsc Hl Hm.
  assert (∀ i x, ({[id := t]} ∪ tokens (tables V)) !! i = Some x → (i = id ∧ x = t) ∨ tokens (tables V) !! i = Some x) as Hx.
  { intros i x. rewrite lookup_put. destruct (decide (i = id)); [intros [= <-]; by left|by right]. }
  assert (∀ p (Hpt : p t = false), count p ({[id := t]} ∪ tokens (tables V)) <= count p (tokens (tables V))) as Hsame.
  { intros p Hpt. apply count_le. intros i x Hi Hpx. destruct (Hx i x Hi) as [[-> ->]|?]; [congruence|eauto]. }
  split; rewrite ?tables_wTokens; simpl.
  - apply named_view.
  - intros i. destruct (j_grant _ _ _ _ HJ i) as [A1 A2 A3 A4 A5 A6]. split; simpl; [|done..| |].
    + intros k x Hk Hi. destruct (Hx k x Hk) as [[-> ->]|?]; [|by eapply A1]. assert (i = g) as -> by congruence. eauto.
    + intros from. destruct (mintedIn i from t) eqn:E; [|etrans; [by apply Hsame|apply A5]].
      pose proof (mintedIn_grant _ _ _ E) as Hi. assert (i = g) as -> by congruence.
      rewrite -insert_union_singleton_l. etrans; [apply count_insert|].
      assert (count (mintedIn g from) (tokens (tables V)) <=
        count (λ t, ofGrant g t && (tn - OAuthFlow.oauthGrantMintWindow <? t_created t)) (tokens (tables V))); [|lia].
      apply count_le. intros k x Hk Hmx. exists x. split; [done|].
      rewrite /mintedIn !andb_true_iff in E, Hmx. apply andb_true_iff. split; [apply Hmx|]. apply Z.ltb_lt. lia.
    + intros now Hnow. destruct (liveAt i now t) eqn:E; [|etrans; [by apply Hsame|by apply A6]].
      pose proof (liveAt_grant _ _ _ E) as Hi. assert (i = g) as -> by congruence.
      rewrite -insert_union_singleton_l. etrans; [apply count_insert|].
      assert (count (liveAt g now) (tokens (tables V)) <= count (λ t, ofGrant g t && liveToken tn t) (tokens (tables V))); [|lia].
      apply count_le. intros k x Hk Hmx. exists x. split; [done|].
      apply andb_true_iff in Hmx as [? Hmx]. apply andb_true_iff. split; [done|]. revert Hmx. rewrite /liveToken !andb_true_iff.
      intros [? ?]. split; [done|]. destruct (t_expires x); [|done]. rewrite !Z.ltb_lt in H1 |- *. lia.
  - intros i Hi k x gr0 Hk. destruct (Hx k x Hk) as [[-> ->]|?]; [|by apply (j_scoped _ _ _ _ HJ i Hi k)].
    intros Hgi _ Hgr0. assert (i = g) as -> by congruence. simpl in Hgr0. by assert (gr0 = gr) as -> by congruence.
  - apply HJ.
  - apply HJ.
  - intros p. by eapply pendOk_le; [apply Z.le_refl| |apply (j_pend _ _ _ _ HJ)].
Qed.

(** A grant is made. *)
Lemma J_insertGrant id u p scopes tn : id ∉ drawn V →
  (∀ i gr, grants (tables V) !! i = Some gr → g_user gr = u → g_product gr = p → liveGrant gr = true → False) →
  Jx ng nr c (view (wGrants {[id := mkGrant u p scopes None None None tn false]}) V).
Proof using HJ.
  intros Hid Hno. pose proof (j_named _ _ _ _ HJ) as Hn.
  assert (∀ i gr, grants (tables V) !! i = Some gr → i ≠ id) as Hne.
  { intros i gr Hi ->. by apply Hid, (named_grant _ _ _ Hn Hi). }
  assert (∀ i gr, grants (tables V) !! i = Some gr → ({[id := mkGrant u p scopes None None None tn false]} ∪ grants (tables V)) !! i = Some gr) as Hold.
  { intros i gr Hi. rewrite lookup_put. rewrite decide_False //. by eapply Hne. }
  split; rewrite ?tables_wGrants; simpl.
  - apply named_view.
  - intros g. destruct (j_grant _ _ _ _ HJ g) as [A1 A2 A3 A4 A5 A6]. split; simpl; [| |done| |done|done].
    + intros k t Hk Hg. destruct (A1 k t Hk Hg) as (gr & Hgr & ?). exists gr. split; [by apply Hold|done].
    + intros k t Hk Hg. destruct (A2 k t Hk Hg) as (gr & Hgr & ?). exists gr. split; [by apply Hold|done].
    + intros gr. rewrite lookup_put. destruct (decide (g = id)); [by intros [= <-]|]. apply A4.
  - intros g Hg k t gr Hk Htg Hr. simpl. rewrite lookup_put. destruct (decide (g = id)) as [->|].
    + destruct (ok_token _ _ _ (j_grant _ _ _ _ HJ id) k t Hk Htg) as (x & Hx & _). by destruct (Hne _ _ Hx).
    + by apply (j_scoped _ _ _ _ HJ g Hg k).
  - apply HJ.
  - intros u' p' i1 i2 g1 g2. simpl. rewrite !lookup_put. destruct (decide (i1 = id)) as [->|], (decide (i2 = id)) as [->|]; try done.
    + intros [= <-] H2 <- <- U2 P2 _ L2. simpl in *. by destruct (Hno i2 g2).
    + intros H1 [= <-] U1 P1 <- <- L1 _. simpl in *. by destruct (Hno i1 g1).
    + apply (j_uniq _ _ _ _ HJ).
  - intros q. by eapply pendOk_le; [apply Z.le_refl| |apply (j_pend _ _ _ _ HJ)].
Qed.

(** A code is issued. *)
Lemma J_issue id r g gr hash expires : nr = Some id → requests (tables V) !! id = Some r → status r = Approved → q_grant r = None →
  grants (tables V) !! g = Some gr → g_revoked gr = false → q_user r = Some (g_user gr) → q_product r = g_product gr →
  (∀ i x, requests (tables V) !! i = Some x → q_grant x = Some g → status x ≠ Approved) →
  Jx ng None c (view (wRequests {[id := withCode hash expires g r]}) V).
Proof using HJ.
  intros Hnr Hr Hs Hq Hgr Hl Hu Hp Hidle. set (r' := withCode hash expires g r).
  assert (∀ i x, ({[id := r']} ∪ requests (tables V)) !! i = Some x → (i = id ∧ x = r') ∨ (i ≠ id ∧ requests (tables V) !! i = Some x)) as Hx.
  { intros i x. rewrite lookup_put. destruct (decide (i = id)); [intros [= <-]; by left|by right]. }
  split; rewrite ?tables_wRequests; simpl.
  - apply named_view.
  - intros i. destruct (j_grant _ _ _ _ HJ i) as [A1 A2 A3 A4 A5 A6]. split; simpl; [done| | |done..].
    + intros k x Hk Hi. destruct (Hx k x Hk) as [[-> ->]|[_ ?]]; [|by eapply A2].
      injection Hi as <-. exists gr. simpl. rewrite Hs. by split_and!.
    + intros k1 k2 x1 x2 H1 H2 G1 G2 S1 S2. destruct (Hx k1 x1 H1) as [[-> ->]|[_ O1]], (Hx k2 x2 H2) as [[-> ->]|[_ O2]]; [done|..].
      * injection G1 as <-. by destruct (Hidle _ _ O2 G2).
      * injection G2 as <-. by destruct (Hidle _ _ O1 G1).
      * by eapply A3.
  - apply HJ.
  - intros k _ x Hk Hg. destruct (Hx k x Hk) as [[-> ->]|[? ?]]; [done|]. apply (j_loose _ _ _ _ HJ k ltac:(congruence)); done.
  - apply HJ.
  - intros p. eapply pendOk_le; [apply Z.le_refl| |apply (j_pend _ _ _ _ HJ p)]. intros k x Hk _ Hp'. simpl in Hk.
    destruct (Hx k x Hk) as [[-> ->]|[_ ?]]; [|done]. simpl in Hp'. congruence.
Qed.

(** A request is stored. *)
Lemma J_request tn id r : id ∉ drawn V → tn <= c → status r = Pending → q_grant r = None →
  count (waiting source_prefix tn (q_product r) (source_prefix r)) (requests (tables V)) < OAuthFlow.oauthPendingPerSourceCap →
  count (waiting source_mid tn (q_product r) (source_mid r)) (requests (tables V)) < OAuthFlow.oauthPendingV4MidCap →
  count (waiting source_wide tn (q_product r) (source_wide r)) (requests (tables V)) < OAuthFlow.oauthPendingV6WideCap →
  count (pendingOf tn (q_product r)) (requests (tables V)) < OAuthFlow.oauthPendingPerProductCap →
  Jx ng nr c (view (wRequests {[id := r]}) V).
Proof using HJ.
  intros Hid Htn Hs Hq C1 C2 C3 C4.
  assert (∀ i x, ({[id := r]} ∪ requests (tables V)) !! i = Some x → (i = id ∧ x = r) ∨ requests (tables V) !! i = Some x) as Hx.
  { intros i x. rewrite lookup_put. destruct (decide (i = id)); [intros [= <-]; by left|by right]. }
  assert (∀ p q now cap, (∀ x, p now x = true → p tn x = true) → (∀ x, p tn x = true → q tn x = true) →
    count (q tn) (requests (tables V)) < cap ∨ p now r = false → count (p now) (requests (tables V)) <= cap →
    count (p now) ({[id := r]} ∪ requests (tables V)) <= cap) as Hcap.
  { intros p q now cap Hmon Hpq [Hlt|Hno] Hle.
    - rewrite -insert_union_singleton_l. etrans; [apply count_insert|].
      assert (count (p now) (requests (tables V)) <= count (q tn) (requests (tables V))); [|lia]. apply count_le. eauto.
    - etrans; [|exact Hle]. apply count_le. intros i x Hi Hp. destruct (Hx i x Hi) as [[-> ->]|?]; [congruence|eauto]. }
  assert (∀ p now x, tn <= now → pendingOf now p x = true → pendingOf tn p x = true) as Hmon.
  { intros p now x Hn. rewrite /pendingOf !andb_true_iff !Z.ltb_lt. intros [[? ?] ?]. split_and!; [done|lia|done]. }
  assert (∀ f p s now x, tn <= now → waiting f now p s x = true → waiting f tn p s x = true) as HmonW.
  { intros f p s now x Hn [? ?]%andb_true_iff. apply andb_true_iff. split; [by eapply Hmon|done]. }
  assert (∀ f p s now, waiting f now p s r = true → p = q_product r ∧ s = f r) as HW.
  { intros f p s now. rewrite /waiting /pendingOf !andb_true_iff bool_decide_eq_true. intros [[_ ?] ?%String.eqb_eq]. done. }
  split; rewrite ?tables_wRequests; simpl.
  - apply named_view.
  - intros g. destruct (j_grant _ _ _ _ HJ g) as [A1 A2 A3 A4 A5 A6]. split; simpl; [done| | |done..].
    + intros k x Hk Hg. destruct (Hx k x Hk) as [[-> ->]|?]; [congruence|by eapply A2].
    + intros k1 k2 x1 x2 H1 H2 G1 G2 S1 S2. destruct (Hx k1 x1 H1) as [[-> ->]|O1]; [congruence|].
      destruct (Hx k2 x2 H2) as [[-> ->]|O2]; [congruence|]. by eapply A3.
  - apply HJ.
  - intros k Hk x Hkx Hg. destruct (Hx k x Hkx) as [[-> ->]|?]; [by left|]. by apply (j_loose _ _ _ _ HJ k Hk).
  - apply HJ.
  - intros p. destruct (j_pend _ _ _ _ HJ p) as [P1 P2 P3 P4]. split; simpl.
    + intros now s Hn. apply (Hcap (λ t, waiting source_prefix t p s) (λ t, waiting source_prefix t p s)); [intros; eapply HmonW; [|done]; lia|done| |by apply P1].
      destruct (waiting source_prefix now p s r) eqn:E; [left|by right]. by apply HW in E as [-> ->].
    + intros now s Hn. apply (Hcap (λ t, waiting source_mid t p s) (λ t, waiting source_mid t p s)); [intros; eapply HmonW; [|done]; lia|done| |by apply P2].
      destruct (waiting source_mid now p s r) eqn:E; [left|by right]. by apply HW in E as [-> ->].
    + intros now s Hn. apply (Hcap (λ t, waiting source_wide t p s) (λ t, waiting source_wide t p s)); [intros; eapply HmonW; [|done]; lia|done| |by apply P3].
      destruct (waiting source_wide now p s r) eqn:E; [left|by right]. by apply HW in E as [-> ->].
    + intros now Hn. apply (Hcap (λ t, pendingOf t p) (λ t, pendingOf t p)); [intros; eapply Hmon; [|done]; lia|done| |by apply P4].
      destruct (pendingOf now p r) eqn:E; [left|by right]. rewrite /pendingOf !andb_true_iff bool_decide_eq_true in E. by destruct E as [_ <-].
Qed.
End Writes.
End OAuthSteps.
