(* ===== verification/OAuthDoes.v ===== *)
(** The statements of [OAuthDb] as steps of a transaction: what a handler that
    issues one knows before and after. *)

From S2P Require Import Prelude Result Prog GoText GoStrings GoSearch OAuthSrv OAuthDb OAuthTx OAuthFlow OAuthInv OAuthRules OAuthSteps.

Local Open Scope Z_scope.

Module OAuthDoes.
Import OAuthDb OAuthTx OAuthInv OAuthRules OAuthSteps.

(** * Facts a statement leaves alone *)
Class Grow (Q : list item → DB → Prop) := grow h h' V : h ⊆ h' → Q h V → Q h' V.
Class FrameT (Q : list item → DB → Prop) := frameT h h' V m : h ⊆ h' → Q h V → Q h' (view (wTokens m) V).
Class FrameG (Q : list item → DB → Prop) := frameG h h' V m : h ⊆ h' → Q h V → Q h' (view (wGrants m) V).
Class FrameR (Q : list item → DB → Prop) := frameR h h' V m : h ⊆ h' → Q h V → Q h' (view (wRequests m) V).
(** Its grant is revoked. *)
Class FrameX (Q : list item → DB → Prop) := frameX h h' V g gr : grants (tables V) !! g = Some gr → h ⊆ h' → Q h V →
  Q h' (view (wGrants {[g := revokedGrant gr]}) V).

#[export] Instance Grow_pure (P : Prop) : Grow (λ _ _, P).
Proof. by intros h h' V. Qed.
#[export] Instance FrameT_pure (P : Prop) : FrameT (λ _ _, P).
Proof. by intros h h' V m. Qed.
#[export] Instance FrameG_pure (P : Prop) : FrameG (λ _ _, P).
Proof. by intros h h' V m. Qed.
#[export] Instance FrameR_pure (P : Prop) : FrameR (λ _ _, P).
Proof. by intros h h' V m. Qed.
#[export] Instance Grow_and Q Q' : Grow Q → Grow Q' → Grow (λ h V, Q h V ∧ Q' h V).
Proof. intros H H' h h' V Hs []. split; [by eapply H|by eapply H']. Qed.
#[export] Instance FrameT_and Q Q' : FrameT Q → FrameT Q' → FrameT (λ h V, Q h V ∧ Q' h V).
Proof. intros H H' h h' V m Hs []. split; [by eapply H|by eapply H']. Qed.
#[export] Instance FrameG_and Q Q' : FrameG Q → FrameG Q' → FrameG (λ h V, Q h V ∧ Q' h V).
Proof. intros H H' h h' V m Hs []. split; [by eapply H|by eapply H']. Qed.
#[export] Instance FrameR_and Q Q' : FrameR Q → FrameR Q' → FrameR (λ h V, Q h V ∧ Q' h V).
Proof. intros H H' h h' V m Hs []. split; [by eapply H|by eapply H']. Qed.
#[export] Instance FrameX_and Q Q' : FrameX Q → FrameX Q' → FrameX (λ h V, Q h V ∧ Q' h V).
Proof. intros H H' h h' V g gr Hg Hs []. split; [by eapply H|by eapply H']. Qed.
#[export] Instance FrameX_G Q : FrameG Q → FrameX Q.
Proof. intros H h h' V g gr Hg Hs. by apply H. Qed.

#[export] Instance Grow_V (P : DB → Prop) : Grow (λ _ V, P V).
Proof. by intros h h' V. Qed.
#[export] Instance Grow_has i : Grow (has i).
Proof. intros h h' V Hs Hi. by apply Hs. Qed.
#[export] Instance FrameT_has i : FrameT (has i).
Proof. intros h h' V m Hs Hi. by apply Hs. Qed.
#[export] Instance FrameG_has i : FrameG (has i).
Proof. intros h h' V m Hs Hi. by apply Hs. Qed.
#[export] Instance FrameR_has i : FrameR (has i).
Proof. intros h h' V m Hs Hi. by apply Hs. Qed.
#[export] Instance FrameT_fwd id r : FrameT (λ _, fwd id r).
Proof. intros h h' V m Hs [Hd Hf]. split; [set_solver|by rewrite tables_wTokens]. Qed.
#[export] Instance FrameG_fwd id r : FrameG (λ _, fwd id r).
Proof. intros h h' V m Hs [Hd Hf]. split; [set_solver|by rewrite tables_wGrants]. Qed.
#[export] Instance Grow_row g gr : Grow (row g gr).
Proof. intros h h' V Hs [? ?]. split; [by apply Hs|done]. Qed.
#[export] Instance FrameT_row g gr : FrameT (row g gr).
Proof. intros h h' V m Hs [? ?]. split; [by apply Hs|by rewrite tables_wTokens]. Qed.
#[export] Instance FrameR_row g gr : FrameR (row g gr).
Proof. intros h h' V m Hs [? ?]. split; [by apply Hs|by rewrite tables_wRequests]. Qed.
#[export] Instance Grow_rowR id r : Grow (rowR id r).
Proof. intros h h' V Hs [? ?]. split; [by apply Hs|done]. Qed.
#[export] Instance Grow_few g p n : Grow (few g p n).
Proof. intros h h' V Hs [? ?]. split; [by apply Hs|done]. Qed.
#[export] Instance Grow_spent g : Grow (spent g).
Proof. intros h h' V Hs [? ?]. split; [by apply Hs|done]. Qed.
#[export] Instance FrameG_spent g : FrameG (spent g).
Proof. intros h h' V m Hs [? ?]. split; [by apply Hs|by rewrite tables_wGrants]. Qed.
#[export] Instance FrameR_spent g : FrameR (spent g).
Proof. intros h h' V m Hs [? ?]. split; [by apply Hs|by rewrite tables_wRequests]. Qed.
#[export] Instance Grow_idle g : Grow (idle g).
Proof. intros h h' V Hs [? ?]. split; [by apply Hs|done]. Qed.
#[export] Instance FrameG_idle g : FrameG (idle g).
Proof. intros h h' V m Hs [? ?]. split; [by apply Hs|by rewrite tables_wGrants]. Qed.
#[export] Instance FrameT_idle g : FrameT (idle g).
Proof. intros h h' V m Hs [? ?]. split; [by apply Hs|by rewrite tables_wTokens]. Qed.
#[export] Instance Grow_fits g sc : Grow (fits g sc).
Proof. intros h h' V Hs [? ?]. split; [by apply Hs|done]. Qed.

#[export] Instance FrameG_fits g sc : FrameG (fits g sc).
Proof. intros h h' V m Hs [? ?]. split; [by apply Hs|by rewrite tables_wGrants]. Qed.

(** The grant is revoked, or gone. *)
Definition known (id : uuid) (V : DB) : Prop := id ∈ drawn V.
Definition closed (g : uuid) (V : DB) : Prop := g ∈ drawn V ∧ ∀ gr, grants (tables V) !! g = Some gr → g_revoked gr = true.
(** Every live grant of the user is one of [gs]. *)
Definition only (u : uuid) (gs : list uuid) (h : list item) (V : DB) : Prop :=
  LUser u ∈ h ∧ ∀ id gr, grants (tables V) !! id = Some gr → g_user gr = u → liveGrant gr = true → id ∈ gs.
(** The token, if there, is a manual one. *)
Definition manual (id : uuid) (V : DB) : Prop := id ∈ drawn V ∧ ∀ t, tokens (tables V) !! id = Some t → t_grant t = None.

#[export] Instance Lasting_known id : Lasting (known id).
Proof. intros d d' Hn He Hid. by apply (e_drawn _ _ He). Qed.
#[export] Instance Lasting_closed g : Lasting (closed g).
Proof.
  intros d d' Hn He [Hid Hr]. split; [by apply (e_drawn _ _ He)|]. intros gr' Hgr'.
  destruct (e_grant _ _ He g gr' Hid Hgr') as (gr & Hgr & Hf). by apply (fg_revoked _ _ Hf), Hr.
Qed.
#[export] Instance Lasting_manual id : Lasting (manual id).
Proof.
  intros d d' Hn He [Hid Hr]. split; [by apply (e_drawn _ _ He)|]. intros t' Ht'. destruct (t_grant t') as [g|] eqn:E; [|done].
  destruct (e_token _ _ He id t' Hid ltac:(by rewrite E) Ht') as (t & Ht & Hf). apply Hr in Ht. by rewrite -(ft_grant _ _ Hf) E in Ht.
Qed.
#[export] Instance Stable_only u gs : Stable (only u gs).
Proof.
  intros h V V' _ _ Hp [Hl Hg]. split; [done|]. intros id gr Hid Hu Hlive. destruct (Hp _ Hl id gr Hid Hu Hlive) as (g0 & ? & ? & ?). by eapply Hg.
Qed.
#[export] Instance FrameT_V_known id : FrameT (λ _, known id).
Proof. intros h h' V m Hs Hd. rewrite /known /= in Hd |- *. set_solver. Qed.
#[export] Instance FrameG_V_known id : FrameG (λ _, known id).
Proof. intros h h' V m Hs Hd. rewrite /known /= in Hd |- *. set_solver. Qed.
#[export] Instance FrameR_V_known id : FrameR (λ _, known id).
Proof. intros h h' V m Hs Hd. rewrite /known /= in Hd |- *. set_solver. Qed.
#[export] Instance FrameT_closed g : FrameT (λ _, closed g).
Proof. intros h h' V m Hs [Hd Hf]. split; [set_solver|by rewrite tables_wTokens]. Qed.
#[export] Instance FrameR_closed g : FrameR (λ _, closed g).
Proof. intros h h' V m Hs [Hd Hf]. split; [set_solver|by rewrite tables_wRequests]. Qed.
#[export] Instance FrameX_closed g : FrameX (λ _, closed g).
Proof.
  intros h h' V i x Hi Hs [Hd Hf]. split; [set_solver|]. rewrite tables_wGrants /=. intros gr. rewrite lookup_put.
  destruct (decide (g = i)); [by intros [= <-]|apply Hf].
Qed.
#[export] Instance Grow_only u gs : Grow (only u gs).
Proof. intros h h' V Hs [? ?]. split; [by apply Hs|done]. Qed.
#[export] Instance FrameT_only u gs : FrameT (only u gs).
Proof. intros h h' V m Hs [? ?]. split; [by apply Hs|by rewrite tables_wTokens]. Qed.
#[export] Instance FrameR_only u gs : FrameR (only u gs).
Proof. intros h h' V m Hs [? ?]. split; [by apply Hs|by rewrite tables_wRequests]. Qed.
#[export] Instance FrameX_only u gs : FrameX (only u gs).
Proof.
  intros h h' V i x Hi Hs [? Hg]. split; [by apply Hs|]. rewrite tables_wGrants /=. intros id gr. rewrite lookup_put.
  destruct (decide (id = i)); [by intros [= <-]|apply Hg].
Qed.
#[export] Instance FrameX_spent g : FrameX (spent g).
Proof. apply _. Qed.

(** Requests only move forward. *)
Class FrameF (Q : list item → DB → Prop) := frameF h h' V m :
  (∀ i r', m !! i = Some r' → ∃ r, requests (tables V) !! i = Some r ∧ forward r r' ∧ q_grant r' = q_grant r ∧
    (q_grant r ≠ None → status r' ≠ Approved)) → h ⊆ h' → Q h V → Q h' (view (wRequests m) V).
#[export] Instance FrameF_R Q : FrameR Q → FrameF Q.
Proof. intros H h h' V m _. by apply H. Qed.
#[export] Instance FrameF_and Q Q' : FrameF Q → FrameF Q' → FrameF (λ h V, Q h V ∧ Q' h V).
Proof. intros H H' h h' V m Hm Hs []. split; [by eapply H|by eapply H']. Qed.
#[export] Instance FrameF_fwd id r : FrameF (λ _, fwd id r).
Proof.
  intros h h' V m Hm Hs [Hd Hf]. split; [set_solver|]. rewrite tables_wRequests /=. intros r'. rewrite lookup_union.
  destruct (m !! id) as [x|] eqn:E; [|rewrite left_id_L; apply Hf]. rewrite union_Some_l. intros [= ->].
  destruct (Hm id r' E) as (r0 & H0 & ? & _). by eapply forward_trans; [apply Hf|].
Qed.
#[export] Instance FrameF_idle g : FrameF (idle g).
Proof.
  intros h h' V m Hm Hs [Hl Hi]. split; [by apply Hs|]. rewrite tables_wRequests /=. intros i r'. rewrite lookup_union.
  destruct (m !! i) as [x|] eqn:E; [|rewrite left_id_L; apply Hi]. rewrite union_Some_l. intros [= ->] Hg.
  destruct (Hm i r' E) as (r & _ & _ & Hq & Ha). apply Ha. by rewrite -Hq Hg.
Qed.

(** The user's live grant for the product. *)
Definition owned (u p g : uuid) (h : list item) (V : DB) : Prop := LGrant g ∈ h ∧
  ∃ gr, grants (tables V) !! g = Some gr ∧ g_user gr = u ∧ g_product gr = p ∧ g_revoked gr = false.
#[export] Instance Stable_owned u p g : Stable (owned u p g).
Proof. intros h V V' _ _ Hp [Hl Hg]. split; [done|]. destruct (Hp _ Hl) as (-> & _). done. Qed.
#[export] Instance Grow_owned u p g : Grow (owned u p g).
Proof. intros h h' V Hs [? ?]. split; [by apply Hs|done]. Qed.
#[export] Instance FrameT_owned u p g : FrameT (owned u p g).
Proof. intros h h' V m Hs [? ?]. split; [by apply Hs|by rewrite tables_wTokens]. Qed.
#[export] Instance FrameR_owned u p g : FrameR (owned u p g).
Proof. intros h h' V m Hs [? ?]. split; [by apply Hs|by rewrite tables_wRequests]. Qed.

(** A fact of every element. *)
Definition every {B} (Q : B → list item → DB → Prop) (l : list B) (h : list item) (V : DB) : Prop := Forall (λ x, Q x h V) l.
#[export] Instance Stable_every {B} (Q : B → list item → DB → Prop) l : (∀ x, Stable (Q x)) → Stable (every Q l).
Proof. intros HQ h V V' Hn He Hp. intros Hl. eapply Forall_impl; [exact Hl|]. intros x. by apply (HQ x). Qed.
#[export] Instance Grow_every {B} (Q : B → list item → DB → Prop) l : (∀ x, Grow (Q x)) → Grow (every Q l).
Proof. intros HQ h h' V Hs. intros Hl. eapply Forall_impl; [exact Hl|]. intros x. by apply (HQ x). Qed.
#[export] Instance FrameT_every {B} (Q : B → list item → DB → Prop) l : (∀ x, FrameT (Q x)) → FrameT (every Q l).
Proof. intros HQ h h' V m Hs. intros Hl. eapply Forall_impl; [exact Hl|]. intros x. by apply (HQ x). Qed.
#[export] Instance FrameR_every {B} (Q : B → list item → DB → Prop) l : (∀ x, FrameR (Q x)) → FrameR (every Q l).
Proof. intros HQ h h' V m Hs. intros Hl. eapply Forall_impl; [exact Hl|]. intros x. by apply (HQ x). Qed.
#[export] Instance FrameX_every {B} (Q : B → list item → DB → Prop) l : (∀ x, FrameX (Q x)) → FrameX (every Q l).
Proof. intros HQ h h' V g gr Hg Hs. intros Hl. eapply Forall_impl; [exact Hl|]. intros x. by apply (HQ x). Qed.
Definition held_grant (g : uuid) (h : list item) (V : DB) : Prop := has (LGrant g) h V ∧ known g V.

#[export] Instance Stable_held_grant g : Stable (held_grant g).
Proof. rewrite /held_grant. apply _. Qed.
#[export] Instance Grow_held_grant g : Grow (held_grant g).
Proof. rewrite /held_grant. apply _. Qed.
#[export] Instance FrameT_held_grant g : FrameT (held_grant g).
Proof. rewrite /held_grant. apply _. Qed.
#[export] Instance FrameR_held_grant g : FrameR (held_grant g).
Proof. rewrite /held_grant. apply _. Qed.
#[export] Instance FrameX_held_grant g : FrameX (held_grant g).
Proof. rewrite /held_grant. apply _. Qed.

(** * Finding rows *)
Lemma find_Some {B} (p : B → bool) (m : gmap uuid B) id x : find p m = Some (id, x) → m !! id = Some x ∧ p x = true.
Proof.
  rewrite /find. intros H%List.find_some. destruct H as [Hin%list_elem_of_In Hp]. by apply elem_of_map_to_list in Hin.
Qed.
Lemma find_None {B} (p : B → bool) (m : gmap uuid B) id x : find p m = None → m !! id = Some x → p x = false.
Proof.
  rewrite /find. intros H Hx. apply (List.find_none _ _ H (id, x)), list_elem_of_In. by apply elem_of_map_to_list.
Qed.
Lemma update1_Some {B} (m : gmap uuid B) id p f y : update1 m id p f = Some y → ∃ x, m !! id = Some x ∧ p x = true ∧ y = f x.
Proof. rewrite /update1. destruct (m !! id) as [x|]; simpl; [|done]. destruct (p x) eqn:E; [|done]. intros [= <-]. eauto. Qed.

Lemma okWrite_tokens V id h m : (∀ i t, m !! i = Some t → (∀ g, t_grant t = Some g → LGrant g ∈ h) ∧
  match tokens V !! i with Some t0 => forwardT t0 t | None => i = id ∧ t_grant t ≠ None end) → okWrite V id h (wTokens m).
Proof. intros H. split; simpl; [by intros i g; rewrite lookup_empty|done|by intros i r; rewrite lookup_empty]. Qed.
Lemma okWrite_grants V id h m : (∀ i g, m !! i = Some g →
  match grants V !! i with
  | Some g0 => forwardG g0 g
  | None => i = id ∧ (liveGrant g = true → LKey (g_user g) (g_product g) ∈ h ∧ LUser (g_user g) ∈ h)
  end) → okWrite V id h (wGrants m).
Proof. intros H. split; simpl; [done|by intros i g; rewrite lookup_empty|by intros i r; rewrite lookup_empty]. Qed.
Lemma okWrite_requests V id h m : (∀ i r, m !! i = Some r → (∀ g, q_grant r = Some g → LGrant g ∈ h) ∧
  match requests V !! i with
  | Some r0 => forward r0 r ∧ status r ≠ Pending
  | None => i = id ∧ (status r = Pending → LAuthorize (q_product r) ∈ h)
  end) → okWrite V id h (wRequests m).
Proof. intros H. split; simpl; [by intros i g; rewrite lookup_empty|by intros i r; rewrite lookup_empty|done]. Qed.

Lemma redeems_nothing w V : requests w = ∅ → redeems None w V.
Proof. intros H id r. by rewrite H lookup_empty. Qed.

(** * Reads *)
Definition reads {X} (s : stmt X) : Prop := ∀ tn id V x w, effect tn id V s = Some (x, w) → w = none.

Lemma does_read {X} (s : stmt X) tn ng nr Q Q' : reads s →
  (∀ c id V h h' x, Jx ng nr c V → Q h V → h ⊆ h' → wanted s x ⊆ h' → effect tn id V s = Some (x, none) → Q' x h' V) →
  does tn s ng nr Q ng nr (λ _, None) Q'.
Proof.
  intros Hr HQ c V h x w id Htn Hj Hq Hid He. pose proof (Hr _ _ _ _ _ He) as ->. rewrite view_none.
  split_and!; [apply okWrite_none|by apply redeems_nothing|done|]. eapply HQ; [exact Hj|exact Hq|set_solver..|exact He].
Qed.
Lemma does_keep {X} (s : stmt X) tn ng nr Q `{!Grow Q} : reads s → does tn s ng nr Q ng nr (λ _, None) (λ _, Q).
Proof. intros Hr. apply does_read; [done|]. intros c id V h h' x _ Hq Hs _ _. by eapply (grow (Q := Q)). Qed.

Lemma does_weaken {X} (s : stmt X) tn ng nr Q0 Q ng' nr' fr Q' Q'' : (∀ h V, Q0 h V → Q h V) →
  (∀ x h V, Q' x h V → Q'' x h V) → does tn s ng nr Q ng' nr' fr Q' → does tn s ng nr Q0 ng' nr' fr Q''.
Proof.
  intros H0 H1 Hd c V h x w id Htn Hj Hq Hid He. destruct (Hd c V h x w id Htn Hj (H0 _ _ Hq) Hid He) as (? & ? & ? & ?). eauto.
Qed.

(** * Writes *)
Section Writes.
Context (tn : time) (F : list item → DB → Prop).

Lemma does_mint `{!FrameT F, !Grow F} u p hs sc e g gr : g_user gr = u → g_product gr = p → g_revoked gr = false → subset sc (g_scopes gr) = true →
  does tn (CreateGrantProductToken u p hs sc e g) None None
    (λ h V, F h V ∧ row g gr h V ∧ few g (liveToken tn) (OAuthFlow.oauthMaxLiveGrantTokens - 1) h V ∧
       few g (λ t, tn - OAuthFlow.oauthGrantMintWindow <? t_created t) (OAuthFlow.oauthMaxGrantMintsPerWindow - 1) h V)
    None None (λ _, None) (λ _ h V, F h V ∧ row g gr h V).
Proof.
  intros Hu Hp Hl Hsc c V h x w id Htn Hj (HF & Hrow & [_ Hlive] & [_ Hrate]) Hid He.
  assert (w = none ∨ w = wTokens {[id := mkToken u p hs sc false tn (Some e) (Some g)]}) as [->| ->].
  { opened He. repeat case_match; simplify_eq; eauto. }
  - rewrite view_none. split_and!; [apply okWrite_none|by apply redeems_nothing|done|eapply grow; [|exact HF]; set_solver|].
    eapply grow; [|exact Hrow]. set_solver.
  - destruct Hrow as [Hlk Hgr]. split_and!.
    + apply okWrite_tokens. intros i t [<- <-]%lookup_singleton_Some. simpl.
      split; [intros ? [= <-]; set_solver|]. destruct (tokens (tables V) !! id) eqn:E; [|done].
      destruct Hid. by eapply named_token; [apply Hj|].
    + by apply redeems_nothing.
    + eapply J_mint with (g := g) (gr := gr); try done; lia.
    + eapply frameT; [|exact HF]. set_solver.
    + eapply frameT; [|by split]. set_solver.
Qed.


(** A live grant is updated and stays live. *)
Lemma does_updGrant `{!Grow F} {X} (s : stmt X) ng' g f :
  (∀ id V x w, effect tn id V s = Some (x, w) →
    w = none ∨ ∃ gr, grants (tables V) !! g = Some gr ∧ liveGrant gr = true ∧ w = wGrants {[g := f gr]}) →
  (∀ gr, forwardG gr (f gr) ∧ g_revoked (f gr) = g_revoked gr) →
  (∀ h h' V gr, grants (tables V) !! g = Some gr → h ⊆ h' → F h V → F h' (view (wGrants {[g := f gr]}) V)) →
  (∀ h V gr, F h V → ng' = Some g ∨ g_scopes (f gr) = g_scopes gr ∨
    ∀ id t, tokens (tables V) !! id = Some t → t_grant t = Some g → t_revoked t = false → subset (t_scopes t) (g_scopes (f gr)) = true) →
  does tn s None None F ng' None (λ _, None) (λ _, F).
Proof.
  intros Hs Hf HFr Hsc c V h x w id Htn Hj HF Hid He. destruct (Hs _ _ _ _ He) as [->|(gr & Hgr & Hl & ->)].
  - rewrite view_none. split_and!; [apply okWrite_none|by apply redeems_nothing| |eapply grow; [|exact HF]; set_solver].
    destruct Hj. by split; auto.
  - destruct (Hf gr) as [Hfg Hfr]. split_and!.
    + apply okWrite_grants. intros i y [<- <-]%lookup_singleton_Some. by rewrite Hgr.
    + by apply redeems_nothing.
    + eapply J_setGrant; [exact Hj|exact Hgr|done| |done|].
      * rewrite Hfr. intros Hr. by rewrite /liveGrant Hr in Hl.
      * intros Hn. destruct (Hsc _ _ gr HF) as [?|?]; done.
    + eapply HFr; [exact Hgr| |exact HF]. set_solver.
Qed.

(** Tokens are revoked. *)
Lemma does_revoke `{!FrameT F} (P : list item → DB → Prop) {X} (s : stmt X) ng nr ng' (Q' : list item → DB → Prop) :
  (∀ c id V h x w, Jx ng nr c V → F h V → P h V → effect tn id V s = Some (x, w) → ∃ m, w = wTokens (revokedToken <$> m) ∧
    (∀ i t, m !! i = Some t → tokens (tables V) !! i = Some t ∧ ∀ g, t_grant t = Some g → LGrant g ∈ h) ∧
    (∀ g, ng' ≠ Some g → ng ≠ Some g ∨ ∀ i t, tokens (tables V) !! i = Some t → t_grant t = Some g → t_revoked t = false → m !! i = Some t) ∧
    (∀ h', h ⊆ h' → Q' h' (view w V))) →
  does tn s ng nr (λ h V, F h V ∧ P h V) ng' nr (λ _, None) (λ _ h V, F h V ∧ Q' h V).
Proof.
  intros Hs c V h x w id Htn Hj [HF HP] Hid He. destruct (Hs _ _ _ _ _ _ Hj HF HP He) as (m & -> & Hm & Hng & HQ). split_and!.
  - apply okWrite_tokens. intros i t'. rewrite lookup_fmap fmap_Some. intros (t & Ht & ->). destruct (Hm i t Ht) as [Ho Hl].
    rewrite Ho. split; [|done]. simpl. intros g Hg. pose proof (Hl g Hg). set_solver.
  - by apply redeems_nothing.
  - eapply J_revokeTokens; [exact Hj| |done]. intros i t Ht. by apply Hm.
  - eapply frameT; [|exact HF]. set_solver.
  - apply HQ. set_solver.
Qed.

Lemma does_revokeAll `{!FrameT F} g ng nr : ng = None ∨ ng = Some g → (∀ h V, F h V → LGrant g ∈ h) →
  does tn (RevokeOAuthGrantProductTokens g) ng nr F None nr (λ _, None) (λ _ h V, F h V ∧ spent g h V).
Proof.
  intros Hng HF. eapply does_weaken; [| |apply (does_revoke (λ _ _, True) _ ng nr None (spent g))]; [done..|].
  intros c id V h x w Hj Hf _ [= <- <-]. eexists. split; [done|]. split_and!.
  - intros i t [Ht Hp]%pick_Some. split; [done|]. apply andb_true_iff in Hp as [Hg%bool_decide_eq_true _].
    intros g' Hg'. assert (g' = g) as -> by congruence. by eapply HF.
  - intros g' _. destruct (decide (g' = g)) as [->|]; [right|left; destruct Hng; congruence].
    intros i t Ht Hg Hr. apply pick_Some. split; [done|]. by rewrite /ofGrant bool_decide_true // Hr.
  - intros h' Hs. split; [by eapply Hs, HF|]. rewrite tables_wTokens /=. intros i t.
    rewrite lookup_union lookup_fmap. destruct (pick _ _ !! i) as [t0|] eqn:E; simpl.
    + rewrite union_Some_l. by intros [= <-].
    + rewrite left_id_L. intros Ht Hg. destruct (t_revoked t) eqn:Er; [done|].
      assert (pick (λ t, ofGrant g t && negb (t_revoked t)) (tokens (tables V)) !! i = Some t) as Hp; [|congruence].
      apply pick_Some. split; [done|]. by rewrite /ofGrant bool_decide_true // Er.
Qed.

(** One token, or the manual ones. *)
Lemma does_revokeOne `{!FrameT F} (P : list item → DB → Prop) {X} (s : stmt X) i :
  (∀ id V h x w, P h V → effect tn id V s = Some (x, w) → w = none ∨ ∃ t, tokens (tables V) !! i = Some t ∧
    (∀ g, t_grant t = Some g → LGrant g ∈ h) ∧ w = wTokens {[i := revokedToken t]}) →
  does tn s None None (λ h V, F h V ∧ P h V) None None (λ _, None) (λ _, F).
Proof.
  intros Hs. eapply does_weaken; [| |apply (does_revoke P _ None None None (λ _ _, True))]; [done|by intros ? ? ? []|].
  intros c id V h x w Hj _ Hf He. destruct (Hs _ _ _ _ _ Hf He) as [->|(t & Ht & Hg & ->)].
  - exists ∅. rewrite fmap_empty. split_and!; [done| |by left|done]. by intros ? ? ?%lookup_empty_Some.
  - exists {[i := t]}. rewrite map_fmap_singleton. split_and!; [done| |by left|done].
    by intros k y [<- <-]%lookup_singleton_Some.
Qed.

Lemma does_revokeManual `{!FrameT F} u : does tn (RevokeAllProductTokens u) None None F None None (λ _, None) (λ _, F).
Proof.
  eapply does_weaken; [| |apply (does_revoke (λ _ _, True) _ None None None (λ _ _, True))]; [done|by intros ? ? ? []|].
  intros c id V h x w Hj Hf _ [= <- <-]. eexists. split; [done|]. split_and!; [|by left|done].
  intros i t [Ht Hp]%pick_Some. split; [done|]. rewrite !andb_true_iff !bool_decide_eq_true in Hp. destruct Hp as [[_ Hg] _]. by rewrite Hg.
Qed.

(** The grant ends. *)
Lemma does_revokeRow `{!FrameX F, !Grow F} g : (∀ h V, F h V → known g V ∧ spent g h V ∧ idle g h V) →
  does tn (RevokeOAuthGrantRow g) None None F None None (λ _, None) (λ _ h V, F h V ∧ closed g V).
Proof.
  intros HF c V h x w id Htn Hj Hf Hid He. destruct (HF h V Hf) as (Hk & [_ Hsp] & [_ Hi]). opened He.
  destruct (update1 (grants (tables V)) g liveGrant revokedGrant) as [gr'|] eqn:E; injection He as <- <-.
  - apply update1_Some in E as (gr & Hgr & Hl & ->). split_and!.
    + apply okWrite_grants. intros i y [<- <-]%lookup_singleton_Some. by rewrite Hgr.
    + by apply redeems_nothing.
    + eapply J_setGrant; [exact Hj|exact Hgr|done| |done|by left]. intros _. eauto.
    + eapply frameX; [exact Hgr| |exact Hf]. set_solver.
    + split; [rewrite /known in Hk; set_solver|]. rewrite tables_wGrants /=. intros y. rewrite lookup_put decide_True //. by intros [= <-].
  - rewrite view_none. split_and!; [apply okWrite_none|by apply redeems_nothing|done|eapply grow; [|exact Hf]; set_solver|].
    split; [done|]. intros gr Hgr. rewrite /update1 Hgr /= /liveGrant in E. by destruct (g_revoked gr).
Qed.

(** Requests are decided. *)
Lemma does_setRequests `{!FrameF F} (P : list item → DB → Prop) {X} (s : stmt X) nr' fr (Q' : X → list item → DB → Prop) :
  (∀ c id V h x w, Jx None None c V → F h V → P h V → effect tn id V s = Some (x, w) → ∃ m, w = wRequests m ∧
    (∀ i r', m !! i = Some r' → ∃ r, requests (tables V) !! i = Some r ∧ forward r r' ∧ q_grant r' = q_grant r ∧ status r' ≠ Pending ∧
      (q_grant r ≠ None → status r' ≠ Approved) ∧ (q_grant r = None → nr' = Some i ∨ status r' = Denied) ∧
      ∀ g, q_grant r = Some g → LGrant g ∈ h) ∧
    redeems (fr x) w (tables V) ∧ ∀ h', h ⊆ h' → written w ⊆ h' → Q' x h' (view w V)) →
  does tn s None None (λ h V, F h V ∧ P h V) None nr' fr (λ x h V, F h V ∧ Q' x h V).
Proof.
  intros Hs c V h x w id Htn Hj [HF HP] Hid He. destruct (Hs _ _ _ _ _ _ Hj HF HP He) as (m & -> & Hm & Hfr & HQ). split_and!.
  - apply okWrite_requests. intros i r' Hi. destruct (Hm i r' Hi) as (r & Hr & Hf & Hg & Hp & _ & _ & Hl). rewrite Hr Hg.
    split; [|done]. intros g Hgr. pose proof (Hl g Hgr). set_solver.
  - done.
  - eapply J_setRequests; [exact Hj|done|]. intros i r' Hi. destruct (Hm i r' Hi) as (r & Hr & Hf & Hg & Hp & Ha & Hd & _).
    exists r. split_and!; [done..|by apply Hf| |by apply Hf|done|done]. intros Hn. split; [|by apply Ha].
    destruct (q_grant r) as [g|] eqn:E; [|done]. by destruct (f_code _ _ Hf g E) as (_ & _ & _ & ?).
  - eapply frameF; [| |exact HF]; [|set_solver]. intros i r' Hi. destruct (Hm i r' Hi) as (r & ? & ? & ? & ? & ? & _). eauto.
  - apply HQ; set_solver.
Qed.

Lemma pending_loose c V i r : Jx None None c V → requests (tables V) !! i = Some r → status r = Pending → q_grant r = None.
Proof.
  intros Hj Hi Hs. destruct (q_grant r) as [g|] eqn:E; [|done].
  by destruct (ok_code _ _ _ (j_grant _ _ _ _ Hj g) i r Hi E) as (_ & _ & _ & _ & ? & _).
Qed.

Lemma does_supersede `{!FrameF F} g : (∀ h V, F h V → LGrant g ∈ h) →
  does tn (SupersedeOAuthGrantCodes g) None None F None None (λ _, None) (λ _ h V, F h V ∧ idle g h V).
Proof.
  intros HF. eapply does_weaken; [| |apply (does_setRequests (λ _ _, True) _ None (λ _, None) (λ _, idle g))]; [done..|].
  intros c id V h x w Hj Hf _ [= <- <-]. eexists. split; [done|].
  set (p := λ r, codeOf g r && isStatus Approved r).
  assert (∀ i r, pick p (requests (tables V)) !! i = Some r → requests (tables V) !! i = Some r ∧ q_grant r = Some g ∧ status r = Approved) as Hp.
  { intros i r [Hi Hp]%pick_Some. by rewrite /p andb_true_iff /codeOf /isStatus !bool_decide_eq_true in Hp. }
  split_and!.
  - intros i r'. rewrite lookup_fmap fmap_Some. intros (r & (Hi & Hg & Hs)%Hp & ->). exists r. split_and!; try done.
    + split; try done. by rewrite /= Hs.
    + by rewrite Hg.
    + intros g' Hg'. assert (g' = g) as -> by congruence. by eapply HF.
  - intros i r'. simpl. rewrite lookup_fmap fmap_Some. by intros (r & _ & ->).
  - intros h' Hs _. split; [by eapply Hs, HF|]. rewrite tables_wRequests /=. intros i r.
    rewrite lookup_union lookup_fmap. destruct (pick p (requests (tables V)) !! i) as [r0|] eqn:E; simpl.
    + rewrite union_Some_l. by intros [= <-].
    + rewrite left_id_L. intros Hr Hg Ha. assert (pick p (requests (tables V)) !! i = Some r) as Hin; [|congruence].
      apply pick_Some. split; [done|]. by rewrite /p /codeOf /isStatus !bool_decide_true.
Qed.

Lemma does_redeem `{!FrameF F} i r0 g : q_grant r0 = Some g → (∀ h V, F h V → LGrant g ∈ h) →
  does tn (RedeemOAuthAuthorizeRequest i) None None (λ h V, F h V ∧ fwd i r0 V) None None (λ x, pair i <$> x)
    (λ x h V, F h V ∧ match x with Some r => forward r0 r | None => True end).
Proof.
  intros Hg HF. apply (does_setRequests (λ _, fwd i r0) _ None (λ x, pair i <$> x) (λ x _ _, match x with Some r => forward r0 r | None => True end)).
  intros c id V h x w Hj Hf [_ Hfw] He. opened He.
  destruct (update1 _ _ _ _) as [r'|] eqn:E; injection He as <- <-.
  - apply update1_Some in E as (r & Hr & Hc & ->). apply andb_true_iff in Hc as [Ha%bool_decide_eq_true _].
    pose proof (HF h V Hf) as Hl. pose proof (Hfw r Hr) as Hfr. destruct (f_code _ _ Hfr g Hg) as [Hrg _].
    assert (forward r (setStatus Redeemed r)) as Hfs by (split; try done; by rewrite /= Ha).
    eexists. split; [done|]. split_and!.
    + intros k y [<- <-]%lookup_singleton_Some. exists r. split_and!; try done; [by rewrite Hrg|].
      intros g' Hg'. by assert (g' = g) as -> by congruence.
    + simpl. rewrite lookup_singleton_eq. split_and!; [done..| |]; [by intros ? ? [<- _]%lookup_singleton_Some|].
      intros y Hy. assert (y = r) as -> by congruence. by rewrite Ha.
    + intros h' _ _. by eapply forward_trans.
  - exists ∅. split_and!; [done|by intros ? ? ?%lookup_empty_Some|by apply redeems_nothing|done].
Qed.

Lemma does_deny `{!FrameF F} u i :
  does tn (DenyOAuthAuthorizeRequest u i) None None F None None (λ _, None) (λ _ h V, F h V ∧ True).
Proof.
  eapply does_weaken; [| |apply (does_setRequests (λ _ _, True) _ None (λ _, None) (λ _ _ _, True))]; [done..|].
  intros c id V h x w Hj Hf _ He. opened He.
  destruct (update1 _ _ _ _) as [r'|] eqn:E; injection He as <- <-.
  - apply update1_Some in E as (r & Hr & Hc & ->). apply andb_true_iff in Hc as [Ha%bool_decide_eq_true _].
    pose proof (pending_loose _ _ _ _ Hj Hr Ha) as Hq. eexists. split; [done|]. split_and!; [| |done].
    + intros k y [<- <-]%lookup_singleton_Some. exists r. split_and!; try done; [|by right|by rewrite Hq].
      split; try done; [by rewrite /= Ha|]. by rewrite Hq.
    + intros k y. simpl. by intros [<- <-]%lookup_singleton_Some.
  - exists ∅. split_and!; [done|by intros ? ? ?%lookup_empty_Some|by apply redeems_nothing|done].
Qed.

(** The claim leaves the request out of step until it has its code. *)
Lemma does_claim `{!FrameF F} u i r0 :
  does tn (ClaimOAuthAuthorizeRequest u i) None None (λ h V, F h V ∧ fwd i r0 V) None (Some i) (λ _, None)
    (λ x h V, F h V ∧ match x with
     | Some r => rowR i r h V ∧ status r = Approved ∧ q_grant r = None ∧ q_user r = Some u ∧ q_product r = q_product r0
     | None => True end).
Proof.
  apply (does_setRequests (λ _, fwd i r0) _ (Some i) (λ _, None) (λ x h V, match x with
     | Some r => rowR i r h V ∧ status r = Approved ∧ q_grant r = None ∧ q_user r = Some u ∧ q_product r = q_product r0
     | None => True end)).
  intros c id V h x w Hj Hf [_ Hfw] He. opened He. destruct (update1 _ _ _ _) as [r'|] eqn:E; injection He as <- <-.
  - apply update1_Some in E as (r & Hr & Hc & ->). apply andb_true_iff in Hc as [Ha%bool_decide_eq_true _].
    pose proof (pending_loose _ _ _ _ Hj Hr Ha) as Hq. eexists. split; [done|]. split_and!.
    + intros k y [<- <-]%lookup_singleton_Some. exists r. split_and!; try done; [|by left|by rewrite Hq].
      split; try done; [by rewrite /= Ha|]. by rewrite Hq.
    + intros k y. simpl. by intros [<- <-]%lookup_singleton_Some.
    + intros h' _ Hw. split_and!; [|done..|apply (f_product _ _ (Hfw r Hr))]. split.
      * eapply Hw, elem_written_request. apply lookup_singleton_eq.
      * by rewrite tables_wRequests /= lookup_put decide_True.
  - exists ∅. split_and!; [done|by intros ? ? ?%lookup_empty_Some|by apply redeems_nothing|done].
Qed.

Lemma does_issue `{!FrameR F} hs e g i u p r : status r = Approved → q_grant r = None → q_user r = Some u → q_product r = p →
  (∀ h V, F h V → owned u p g h V) →
  does tn (IssueOAuthAuthorizationCode hs e g i u) None (Some i) (λ h V, F h V ∧ rowR i r h V ∧ idle g h V)
    None None (λ _, None) (λ x h V, F h V ∧ is_Some x).
Proof.
  intros Ha Hq Hu Hp HF c V h x w id Htn Hj (Hf & [_ Hr] & [_ Hidle]) Hid He. opened He.
  destruct (find _ _); [done|]. destruct (HF h V Hf) as (Hlk & gr & Hgr & Hgu & Hgp & Hl).
  rewrite /update1 Hr /= /isStatus Ha Hu !bool_decide_true //= in He. injection He as <- <-. split_and!.
  - apply okWrite_requests. intros k y [<- <-]%lookup_singleton_Some. rewrite Hr. split_and!.
    + intros g' [= <-]. set_solver.
    + split; try done; [apply after_refl|]. by rewrite Hq.
    + by rewrite /= Ha.
  - intros k y. simpl. intros [<- <-]%lookup_singleton_Some. by rewrite /= Ha.
  - eapply J_issue; try done; [by rewrite Hu Hgu|congruence].
  - eapply frameR; [|exact Hf]. set_solver.
  - done.
Qed.

(** The user's grant for the product is made, or found. *)
Lemma does_insert `{!FrameG F, !Grow F} u p sc : (∀ h V, F h V → LUser u ∈ h) →
  does tn (InsertOAuthGrant u p sc) None None F None None (λ _, None)
    (λ x h V, F h V ∧ match x with Some (g, _) => owned u p g h V | None => True end).
Proof.
  intros HF c V h x w id Htn Hj Hf Hid He. opened He. destruct (_ || _); [done|].
  destruct (find _ _) as [|] eqn:E; injection He as <- <-.
  - rewrite view_none. split_and!; [apply okWrite_none|by apply redeems_nothing|done|eapply grow; [|exact Hf]; set_solver|done].
  - split_and!.
    + apply okWrite_grants. intros i y [<- <-]%lookup_singleton_Some. destruct (grants (tables V) !! id) eqn:Eg.
      { destruct Hid. by eapply named_grant; [apply Hj|]. }
      split; [done|]. intros _. pose proof (HF h V Hf). simpl. set_solver.
    + by apply redeems_nothing.
    + eapply J_insertGrant; [exact Hj|done|]. intros i gr Hi Hu Hp Hl. pose proof (find_None _ _ i gr E Hi) as Hno. simpl in Hno.
      by rewrite !bool_decide_true // Hl in Hno.
    + eapply frameG; [|exact Hf]. set_solver.
    + split.
      * assert (LGrant id ∈ written (wGrants {[id := mkGrant u p sc None None None tn false]})); [|set_solver].
        eapply elem_written_grant. apply lookup_singleton_eq.
      * rewrite tables_wGrants /= lookup_put decide_True //. eauto.
Qed.

Lemma does_lockLive `{!Grow F} u p :
  does tn (LockLiveOAuthGrant u p) None None F None None (λ _, None)
    (λ x h V, F h V ∧ match x with Some (g, _) => owned u p g h V | None => True end).
Proof.
  apply does_read; [by intros ? ? ? ? ? [= _ <-]|]. intros c id V h h' x Hj Hf Hs Hw [= <-]. split; [eapply (grow (Q := F)); [exact Hs|exact Hf]|].
  destruct (find _ _) as [[g gr]|] eqn:E; [|done]. apply find_Some in E as [Hg Hp].
  rewrite !andb_true_iff !bool_decide_eq_true in Hp. destruct Hp as [[? ?] Hl]. split; [set_solver|]. exists gr. split_and!; [done..|].
  revert Hl. rewrite /liveGrant. by destruct (g_revoked gr).
Qed.

Lemma does_lock `{!Grow F} ng nr g : does tn (LockOAuthGrant g) ng nr F ng nr (λ _, None)
  (λ x h V, F h V ∧ match x with Some gr => row g gr h V | None => True end).
Proof.
  apply does_read; [by intros ? ? ? ? ? [= _ <-]|]. intros c id V h h' x Hj Hf Hs Hw [= <-]. split; [eapply (grow (Q := F)); [exact Hs|exact Hf]|].
  destruct (grants (tables V) !! g) eqn:E; [|done]. split; [set_solver|done].
Qed.

Lemma does_outside `{!Grow F} g sc : (∀ h V, F h V → LGrant g ∈ h) →
  does tn (OAuthGrantHasTokenOutsideScopes g sc) None None F None None (λ _, None)
    (λ b h V, F h V ∧ (b = false → fits g sc h V)).
Proof.
  intros HF. apply does_read; [by intros ? ? ? ? ? [= _ <-]|]. intros c id V h h' x Hj Hf Hs _ [= <-]. split; [eapply (grow (Q := F)); [exact Hs|exact Hf]|].
  intros Hb%Z.ltb_ge. split; [by eapply Hs, HF|]. intros i t Hi Hg Hr. destruct (subset (t_scopes t) sc) eqn:E; [done|].
  set (p := λ t, ofGrant g t && negb (t_revoked t) && negb (subset (t_scopes t) sc)) in *.
  assert (pick p (tokens (tables V)) !! i = Some t) as Hin.
  { apply pick_Some. split; [done|]. by rewrite /p /ofGrant bool_decide_true // Hr E. }
  assert (size (pick p (tokens (tables V))) ≠ 0%nat) as Hne.
  { intros Hz%map_size_empty_inv. by rewrite Hz in Hin. }
  rewrite /count in Hb. lia.
Qed.

Lemma does_userGrants `{!Grow F} u : (∀ h V, F h V → LUser u ∈ h) →
  does tn (LockLiveOAuthGrantsForUser u) None None F None None (λ _, None)
    (λ gs h V, F h V ∧ only u gs h V ∧ every held_grant gs h V).
Proof.
  intros HF. apply does_read; [by intros ? ? ? ? ? [= _ <-]|]. intros c id V h h' x Hj Hf Hs Hw [= <-].
  set (m := pick (λ g, bool_decide (g_user g = u) && liveGrant g) (grants (tables V))) in *.
  assert (∀ g, g ∈ merge_sort uuidLe (map_to_list m).*1 ↔ is_Some (m !! g)) as Hm.
  { intros g. rewrite (merge_sort_Permutation uuidLe) list_elem_of_fmap. split.
    - intros ([? gr] & -> & Hin%elem_of_map_to_list). eauto.
    - intros [gr Hgr]. exists (g, gr). split; [done|]. by apply elem_of_map_to_list. }
  split_and!; [eapply (grow (Q := F)); [exact Hs|exact Hf]| |].
  - split; [by eapply Hs, HF|]. intros i gr Hi Hu Hl. apply Hm. exists gr. apply pick_Some. split; [done|].
    by rewrite bool_decide_true // Hl.
  - apply Forall_forall. intros g Hg. split.
    + apply Hw. simpl. apply list_elem_of_fmap. eauto.
    + apply Hm in Hg as [gr [Hgr _]%pick_Some]. by eapply named_grant; [apply Hj|].
Qed.

(** Counting what is there. *)
Lemma does_countLive `{!Grow F} g : (∀ h V, F h V → LGrant g ∈ h) →
  does tn (CountLiveGrantTokens g) None None F None None (λ _, None) (λ x h V, F h V ∧ few g (liveToken tn) (fst x) h V).
Proof.
  intros HF. apply does_read; [by intros ? ? ? ? ? [= _ <-]|]. intros c id V h h' x Hj Hf Hs _ [= <-].
  split; [eapply (grow (Q := F)); [exact Hs|exact Hf]|]. split; [by eapply Hs, HF|done].
Qed.
Lemma does_countMinted `{!Grow F} g : (∀ h V, F h V → LGrant g ∈ h) →
  does tn (CountGrantTokensMintedSince (OAuthFlow.wholeSeconds OAuthFlow.oauthGrantMintWindow) g) None None F None None (λ _, None)
    (λ x h V, F h V ∧ few g (λ t, tn - OAuthFlow.oauthGrantMintWindow <? t_created t) (fst x) h V).
Proof.
  intros HF. apply does_read; [by intros ? ? ? ? ? [= _ <-]|]. intros c id V h h' x Hj Hf Hs _ [= <-].
  split; [eapply (grow (Q := F)); [exact Hs|exact Hf]|]. split; [by eapply Hs, HF|done].
Qed.

(** There is room for one more request of the product. *)
Definition roomy (p : uuid) (b : OAuthFlow.oauthSourceBuckets) (h : list item) (V : DB) : Prop := LAuthorize p ∈ h ∧
  count (waiting source_prefix tn p (OAuthFlow.Fine b)) (requests (tables V)) < OAuthFlow.FineCap b ∧
  count (waiting source_mid tn p (OAuthFlow.Mid b)) (requests (tables V)) < OAuthFlow.MidCap b ∧
  count (waiting source_wide tn p (OAuthFlow.Wide b)) (requests (tables V)) < OAuthFlow.WideCap b ∧
  count (pendingOf tn p) (requests (tables V)) < OAuthFlow.oauthPendingPerProductCap.

#[export] Instance Stable_roomy p b : Stable (roomy p b).
Proof.
  intros h V V' _ _ Hp (Hl & H1 & H2 & H3 & H4). specialize (Hp _ Hl). simpl in Hp.
  assert (∀ i r, requests (tables V') !! i = Some r → pendingOf tn p r = true → requests (tables V) !! i = Some r) as Hold.
  { intros i r Hi Hr. rewrite /pendingOf /isStatus !andb_true_iff !bool_decide_eq_true in Hr. destruct Hr as [[? _] ?]. by apply Hp. }
  assert (∀ f s, count (waiting f tn p s) (requests (tables V')) <= count (waiting f tn p s) (requests (tables V))) as Hw.
  { intros f s. apply count_le. intros i r Hi Hr. exists r. split; [|done]. apply andb_true_iff in Hr as [? _]. by apply Hold. }
  split_and!; [done|eapply Z.le_lt_trans; [apply Hw|done]..|].
  eapply Z.le_lt_trans; [|exact H4]. apply count_le. eauto.
Qed.

Lemma does_countPending `{!Grow F} p b : (∀ h V, F h V → LAuthorize p ∈ h) →
  does tn (CountLivePendingOAuthRequests p (OAuthFlow.Fine b) (OAuthFlow.FineCap b) (OAuthFlow.Mid b) (OAuthFlow.MidCap b)
             (OAuthFlow.Wide b) (OAuthFlow.WideCap b) OAuthFlow.oauthPendingPerProductCap OAuthFlow.oauthPendingGlobalCap)
    None None F None None (λ _, None) (λ n h V, F h V ∧ (OAuthFlow.overCap b n = false → roomy p b h V)).
Proof.
  intros HF. apply does_read; [by intros ? ? ? ? ? [= _ <-]|]. intros c id V h h' x Hj Hf Hs _ [= <-].
  split; [eapply (grow (Q := F)); [exact Hs|exact Hf]|]. rewrite /OAuthFlow.overCap !orb_false_iff !Z.leb_gt /=.
  intros ((((? & ?) & ?) & ?) & _). split_and!; [by eapply Hs, HF|..]; rewrite /waiting; lia.
Qed.

Lemma does_createRequest `{!FrameR F} r b : status r = Pending → q_grant r = None → source_prefix r = OAuthFlow.Fine b →
  source_mid r = OAuthFlow.Mid b → source_wide r = OAuthFlow.Wide b → OAuthFlow.FineCap b <= OAuthFlow.oauthPendingPerSourceCap →
  OAuthFlow.MidCap b <= OAuthFlow.oauthPendingV4MidCap → OAuthFlow.WideCap b <= OAuthFlow.oauthPendingV6WideCap →
  does tn (CreateOAuthAuthorizeRequest r) None None (λ h V, F h V ∧ roomy (q_product r) b h V) None None (λ _, None) (λ _, F).
Proof.
  intros Hp Hg H1 H2 H3 C1 C2 C3 c V h x w id Htn Hj (Hf & Hl & R1 & R2 & R3 & R4) Hid He. opened He.
  destruct (_ || _); [done|]. injection He as <- <-. split_and!.
  - apply okWrite_requests. intros i y [<- <-]%lookup_singleton_Some. split; [by rewrite Hg|].
    destruct (requests (tables V) !! id) eqn:E; [destruct Hid; by eapply named_request; [apply Hj|]|]. split; [done|]. intros _. set_solver.
  - intros k y. simpl. intros [<- <-]%lookup_singleton_Some. by rewrite Hp.
  - eapply J_request; [exact Hj|done|exact Htn|done..| | | |]; rewrite ?H1 ?H2 ?H3; lia.
  - eapply frameR; [|exact Hf]. set_solver.
Qed.
End Writes.

(** * Leaves of a handler *)
Lemma still_Rand : still Rand.
Proof. by intros ? ? ? ? ? ? []. Qed.
Lemma still_Now : still Now.
Proof. by intros ? ? ? ? ? ? []. Qed.
Lemma still_Allow k : still (Allow k).
Proof. by intros ? ? ? ? ? ? []. Qed.
#[export] Hint Resolve still_Rand still_Now still_Allow : core.

Definition failed (d0 : DB) (l : lstate) : Prop := since d0 l ∧ lred l = [].
Lemma inside_failed d0 tn ng nr fr Q l : inside d0 tn ng nr fr Q l → failed d0 l.
Proof. by intros (t & ? & ? & _). Qed.
#[export] Hint Resolve inside_failed : core.

Section Leaves.
Context {A : Type} (d0 : DB).

Lemma wp_tryBind {E B} (post : lstate → result E B → Prop) (m : prog req (result E A)) k l :
  WP (λ l' r, match r with Ok a => WP post l' (k a) | Err e => post l' (Err e) end) l m → WP post l (OAuthFlow.tryBind m k).
Proof. intros H. eapply wp_bind; [exact H|]. by intros l' [a|e]. Qed.
Lemma wp_failing {E E'} (f : E → E') (post : lstate → result E' A → Prop) (m : prog req (result E A)) l :
  WP (λ l' r, post l' (match r with Ok a => Ok a | Err e => Err (f e) end)) l m → WP post l (OAuthFlow.failing f m).
Proof. intros H. eapply wp_bind; [exact H|]. by intros l' r. Qed.

Lemma wp_exec (s : stmt A) (post : lstate → result OAuthFlow.stop A → Prop) tn ng nr Q ng' nr' fr Q' l :
  inside d0 tn ng nr None Q l → Stable Q → does tn s ng nr Q ng' nr' fr Q' →
  (∀ x l', inside d0 tn ng' nr' (fr x) (Q' x) l' → post l' (Ok x)) →
  (∀ e l', failed d0 l' → post l' (Err (OAuthFlow.Storage e))) → WP post l (OAuthFlow.exec s).
Proof. intros Hin HS Hd Hok Herr. eapply wp_stmt; [exact HS|exact Hin|exact Hd|exact Hok|]. intros e l' Hl. apply Herr. eauto. Qed.

Lemma wp_one (s : stmt (option A)) (post : lstate → result OAuthFlow.stop A → Prop) tn ng nr Q ng' nr' fr Q' l :
  inside d0 tn ng nr None Q l → Stable Q → does tn s ng nr Q ng' nr' fr Q' →
  (∀ x l', inside d0 tn ng' nr' (fr (Some x)) (Q' (Some x)) l' → post l' (Ok x)) →
  (∀ l', inside d0 tn ng' nr' (fr None) (Q' None) l' → post l' (Err OAuthFlow.NoRows)) →
  (∀ e l', failed d0 l' → post l' (Err (OAuthFlow.Storage e))) → WP post l (OAuthFlow.one s).
Proof.
  intros Hin HS Hd Hok Hno Herr. eapply wp_stmt; [exact HS|exact Hin|exact Hd| |].
  - intros [x|] l' Hl; [by apply Hok|by apply Hno].
  - intros e l' Hl. apply Herr. eauto.
Qed.

Lemma wp_random (post : lstate → result OAuthFlow.stop string → Prop) tn ng nr fr Q l :
  inside d0 tn ng nr fr Q l → Stable Q → (∀ s l', inside d0 tn ng nr fr Q l' → post l' (Ok s)) →
  (∀ l', failed d0 l' → post l' (Err OAuthFlow.RandFailed)) → WP post l OAuthFlow.random.
Proof. intros Hin HS Hok Herr. eapply wp_inside_still; [exact HS|auto|exact Hin|]. intros [s|] l' Hl; [by apply Hok|]. apply Herr. eauto. Qed.

Lemma wp_ask {X} (r : req X) k (post : lstate → A → Prop) tn ng nr fr Q l : inside d0 tn ng nr fr Q l → Stable Q → still r →
  (∀ x l', inside d0 tn ng nr fr Q l' → WP post l' (k x)) → WP post l (Vis r k).
Proof. intros Hin HS Hr Hk. eapply wp_inside_still; [exact HS|exact Hr|exact Hin|exact Hk]. Qed.
Lemma wp_ask_out {X} (r : req X) k (post : lstate → A → Prop) red P l : outside d0 red P l → Lasting P → still r →
  (∀ x l', outside d0 red P l' → WP post l' (k x)) → WP post l (Vis r k).
Proof. intros Ho HL Hr Hk. eapply wp_outside_still; [exact HL|exact Hr|exact Ho|exact Hk]. Qed.

Lemma inside_mono tn ng nr fr (Q Q' : list item → DB → Prop) l : (∀ h V, named V → Q h V → Q' h V) →
  inside d0 tn ng nr fr Q l → inside d0 tn ng nr fr Q' l.
Proof. intros H (t & H1 & H2 & H3 & H4 & H5 & H6 & H7 & H8 & H9 & H10). exists t. split_and!; try done. apply H; [apply H9|done]. Qed.
Lemma inside_pure tn ng nr fr (Q : list item → DB → Prop) (P : Prop) l : (∀ h V, Q h V → P) → inside d0 tn ng nr fr Q l → P.
Proof. intros H (t & H1 & H2 & H3 & H4 & H5 & H6 & H7 & H8 & H9 & H10). by eapply H. Qed.

Lemma wp_committed (post : lstate → result OAuthFlow.stop unit → Prop) tn fr Q l : inside d0 tn None None fr Q l → Stable Q →
  (∀ h l', since d0 l' → J (lclk l') (ldb l') → lred l' = listed fr → Q h (ldb l') → post l' (Ok tt)) →
  (∀ e l', since d0 l' → lred l' = [] ∨ lred l' = listed fr → post l' (Err (OAuthFlow.Storage e))) → WP post l OAuthFlow.commit.
Proof.
  intros Hin HS Hok Herr. eapply wp_commit; [exact HS|exact Hin| |].
  - intros [[]|e] h l' Hs Hj Hr Hq; [by eapply Hok|apply Herr; eauto].
  - intros e l' Hs Hr. apply Herr; eauto.
Qed.

(** Reads outside a transaction. *)
Lemma wp_exec_out (s : stmt A) (post : lstate → result OAuthFlow.stop A → Prop) red P l : outside d0 red P l → Lasting P →
  (∀ x id l', outside d0 red P l' → J (lclk l') (ldb l') → effect (lclk l') id (ldb l') s = Some (x, none) → post l' (Ok x)) →
  (∀ e l', outside d0 red P l' → post l' (Err (OAuthFlow.Storage e))) → WP post l (OAuthFlow.exec s).
Proof. intros Ho HL Hk Herr. eapply wp_readCommitted; [exact HL|exact Ho|exact Hk|exact Herr]. Qed.
Lemma wp_one_out (s : stmt (option A)) (post : lstate → result OAuthFlow.stop A → Prop) red P l : outside d0 red P l → Lasting P →
  (∀ x id l', outside d0 red P l' → J (lclk l') (ldb l') → effect (lclk l') id (ldb l') s = Some (Some x, none) → post l' (Ok x)) →
  (∀ e l', outside d0 red P l' → post l' (Err e)) → WP post l (OAuthFlow.one s).
Proof.
  intros Ho HL Hk Herr. eapply wp_readCommitted; [exact HL|exact Ho| |intros; by apply Herr].
  intros [x|] id l' Hl Hj He; [by eapply Hk|by apply Herr].
Qed.
Lemma wp_random_out (post : lstate → result OAuthFlow.stop string → Prop) red P l :
  outside d0 red P l → Lasting P → (∀ r l', outside d0 red P l' → post l' r) → WP post l OAuthFlow.random.
Proof. intros Ho HL Hk. eapply wp_outside_still; [exact HL|auto|exact Ho|]. intros [s|] l' Hl; by apply Hk. Qed.
End Leaves.
End OAuthDoes.
