(* ===== verification/OAuthSafe.v ===== *)
(** The endpoints of the OAuth server keep the invariant of the tables, and what
    they promise holds in every interleaving. *)

From S2P Require Import Prelude Result Prog GoText GoStrings GoSearch GoQuery NetIP ClientIP FetchCtl FetchServer.
From S2P Require Import OAuthSrv OAuthDb OAuthTx OAuthFlow OAuthInv OAuthRules OAuthSteps OAuthDoes.

Local Open Scope Z_scope.

Module OAuthSafe.
Import OAuthDb OAuthTx OAuthInv OAuthRules OAuthSteps OAuthDoes OAuthFlow.

#[local] Arguments wp : simpl never.

Lemma wp_ret {B} (post : lstate → B → Prop) l b : post l b → WP post l (Ret b).
Proof. done. Qed.

(** * Grants *)
Section Grants.
Context (d0 : DB) (tn : time).

Lemma wp_revokeGrantLocked (Q : list item → DB → Prop) `{!Stable Q, !Grow Q, !FrameT Q, !FrameR Q, !FrameX Q} g
  (post : lstate → result stop unit → Prop) l : (∀ h V, Q h V → LGrant g ∈ h ∧ known g V) → inside d0 tn None None None Q l →
  (∀ l', inside d0 tn None None None (λ h V, Q h V ∧ closed g V) l' → post l' (Ok tt)) →
  (∀ e l', failed d0 l' → post l' (Err (Storage e))) → WP post l (revokeGrantLocked g).
Proof.
  intros HQ Hin Hok Herr. apply wp_tryBind.
  eapply (wp_exec d0); [exact Hin|done|apply (does_revokeAll tn Q g); [by left|by intros h V []%HQ]| |exact Herr].
  intros x l1 H1. apply wp_tryBind.
  eapply (wp_exec d0); [exact H1|apply _|apply (does_supersede tn (λ h V, Q h V ∧ spent g h V) g); by intros h V [[]%HQ _]| |exact Herr].
  intros x2 l2 H2. apply wp_tryBind.
  eapply (wp_exec d0); [exact H2|apply _|apply (does_revokeRow tn (λ h V, (Q h V ∧ spent g h V) ∧ idle g h V) g)| |exact Herr].
  { intros h V [[Hq Hs] Hi]. destruct (HQ h V Hq). done. }
  intros x3 l3 H3. apply Hok. eapply inside_mono; [|exact H3]. by intros h V _ [[[]]].
Qed.

Lemma wp_grantMintBlocked (Q : list item → DB → Prop) `{!Stable Q, !Grow Q} g (post : lstate → result stop unit → Prop) l :
  (∀ h V, Q h V → LGrant g ∈ h) → inside d0 tn None None None Q l →
  (∀ l', inside d0 tn None None None (λ h V, (Q h V ∧ few g (liveToken tn) (oauthMaxLiveGrantTokens - 1) h V) ∧
     few g (λ t, tn - oauthGrantMintWindow <? t_created t) (oauthMaxGrantMintsPerWindow - 1) h V) l' → post l' (Ok tt)) →
  (∀ e l', failed d0 l' → (∃ e', e = Storage e') ∨ (∃ f, e = Refused f) → post l' (Err e)) → WP post l (grantMintBlocked g).
Proof.
  intros HQ Hin Hok Herr. apply wp_tryBind. eapply (wp_exec d0); [exact Hin|done|by apply (does_countLive tn Q g)| |eauto].
  intros [n oldest] l1 H1. simpl. destruct (Z.leb_spec oauthMaxLiveGrantTokens n) as [|Hn].
  { destruct oldest; [|hnf; eauto]. eapply (wp_ask d0); [exact H1|apply _|auto|]. intros now l2 H2. hnf. eauto. }
  apply wp_tryBind. eapply (wp_exec d0); [exact H1|apply _|apply (does_countMinted tn (λ h V, Q h V ∧ few g (liveToken tn) n h V) g)| |eauto].
  { intros h V [Hq _]. by eapply HQ. }
  intros [m wait] l2 H2. simpl. destruct (Z.leb_spec oauthMaxGrantMintsPerWindow m) as [|Hm]; [hnf; eauto|]. hnf.
  apply Hok. eapply inside_mono; [|exact H2]. simpl. intros h V _ [[Hq [Hl H9]] [_ H29]]. split_and!; [done|split; [done|lia]|split; [done|lia]].
Qed.

Lemma wp_lockOrCreate (Q : list item → DB → Prop) `{!Stable Q, !Grow Q, !FrameG Q} u p sc n
  (post : lstate → result stop (uuid * Grant * bool) → Prop) l :
  (∀ h V, Q h V → LUser u ∈ h) → inside d0 tn None None None Q l →
  (∀ g gr b l', inside d0 tn None None None (λ h V, Q h V ∧ owned u p g h V) l' → post l' (Ok (g, gr, b))) →
  (∀ e l', failed d0 l' → post l' (Err e)) → WP post l (lockOrCreateFrom n u p sc).
Proof.
  intros HQ Hin Hok Herr. revert l Hin. induction n as [|n IH]; intros l Hin; [apply Herr; eauto|].
  apply wp_tryBind. eapply (wp_exec d0); [exact Hin|done|by apply (does_insert tn Q u p sc)| |eauto].
  intros [[g gr]|] l1 H1; [by eapply Hok|]. eapply inside_mono with (Q' := Q) in H1; [|by intros h V _ []].
  apply wp_tryBind. eapply (wp_exec d0); [exact H1|done|by apply (does_lockLive tn Q u p)| |eauto].
  intros [[g gr]|] l2 H2; [by eapply Hok|]. apply IH. eapply inside_mono; [|exact H2]. by intros h V _ [].
Qed.
End Grants.

(** Every early return of a transaction has redeemed nothing. *)
Ltac bad := intros;
  repeat match goal with H : inside _ _ _ _ _ _ _ |- _ => apply inside_failed in H end;
  match goal with H : failed _ _ |- _ => destruct H as [? ?] end;
  try match goal with |- wp _ _ _ _ _ => hnf end; simpl; split; first [done|congruence|idtac].
Ltac reader := apply does_keep; [apply _|by intros ? ? ? ? ? [= _ <-]].

Section Handlers.
Context `{FL : FetchLib} `{UT : !UuidText} (cfg : config).

(** * The token endpoint *)

(** The exchange belongs to the request's client, code, redirect URI and
    verifier. *)
Definition bound (clientID : uuid) (form : OAuthSrv.TokenForm) (x : uuid * Req) : Prop :=
  q_product (snd x) = clientID ∧ code_hash (snd x) = Some (sha256 (OAuthSrv.fCode form)) ∧
  redirect_uri (snd x) = OAuthSrv.fRedirectURI form ∧
  OAuthSrv.VerifierMatchesS256 (OAuthSrv.CodeVerifier form) (code_challenge (snd x)) = true.

Definition redeemPost (clientID : uuid) (form : OAuthSrv.TokenForm) (r : result stop tokenResponse) (red : list (uuid * Req)) (_ : DB) : Prop :=
  match r with
  | Ok _ => ∃ x, red = [x] ∧ bound clientID form x
  | Err (Refused _) => red = []
  | Err _ => True
  end.

#[local] Instance Lasting_redeemPost clientID form r red : Lasting (redeemPost clientID form r red).
Proof. by intros d d'. Qed.

Lemma subset_refl l : subset l l = true.
Proof.
  apply forallb_forall. intros x Hx. apply existsb_exists. exists x. split; [done|]. apply String.eqb_refl.
Qed.

Lemma wp_redeem d0 clientID form l : outside d0 [] (λ _, True) l →
  WP (λ l' r, since d0 l' ∧ ltx l' = None ∧ redeemPost clientID form r (lred l') (ldb l')) l (redeemOAuthCode clientID form).
Proof.
  intros Ho. rewrite /redeemOAuthCode. destruct (_ <? _)%nat. { destruct Ho as (? & ? & ? & _). done. }
  eapply (wp_withTx d0 _ _ (λ _, True) (redeemPost clientID form)); [exact Ho|done|].
  intros tn l0 H0. apply wp_tryBind, wp_failing.
  eapply (wp_one d0) with (Q' := λ x _ V, match x with Some (i, r) => fwd i r V ∧ code_hash r = Some (hash (OAuthSrv.fCode form)) | None => True end);
    [exact H0|apply _| | |bad|bad].
  { apply does_read; [by intros ? ? ? ? ? [= _ <-]|]. intros c id V h h' x Hj _ _ _ [= <-].
    destruct (find _ _) as [[i r]|] eqn:E; [|done]. apply find_Some in E as [Hi Hh%bool_decide_eq_true].
    split; [|done]. split; [by eapply named_request; [apply Hj|]|]. intros r' Hr'. assert (r' = r) as -> by congruence. apply forward_refl. }
  intros [i fr] l1 H1. simpl. destruct (q_grant fr) as [g|] eqn:Eg; [|bad].
  apply wp_tryBind, wp_failing.
  eapply (wp_one d0); [exact H1|apply _|apply (does_lock tn (λ _ V, fwd i fr V ∧ code_hash fr = Some (hash (OAuthSrv.fCode form))) None None g)| |bad|bad].
  intros gr l2 H2. simpl. apply wp_tryBind, wp_failing.
  eapply (wp_one d0) with (Q' := λ x h V, row g gr h V ∧ match x with Some r => fwd i r V ∧ forward fr r ∧ code_hash fr = Some (hash (OAuthSrv.fCode form)) | None => True end);
    [exact H2|apply _| | |bad|bad].
  { apply does_read; [by intros ? ? ? ? ? [= _ <-]|]. intros c id V h h' x Hj [[[Hd Hf] Hh] Hrow] Hs _ [= <-].
    split; [by eapply grow|]. destruct (requests (tables V) !! i) as [r|] eqn:E; [|done]. split_and!; [|by apply Hf|done].
    split; [done|]. intros r' Hr'. assert (r' = r) as -> by congruence. apply forward_refl. }
  intros r l3 H3. simpl. destruct (_ || _) eqn:Eb; [bad|].
  rewrite !orb_false_iff !negb_false_iff !bool_decide_eq_true in Eb. destruct Eb as ((((Ec & Ep) & _) & Eu) & Ev).
  apply String.eqb_eq in Eu.
  assert (forward fr r ∧ code_hash fr = Some (hash (OAuthSrv.fCode form))) as [Hfr Hch].
  { eapply inside_pure; [|exact H3]. by intros h V (_ & _ & ? & ?). }
  destruct (f_code _ _ Hfr g Eg) as (Hrg & Hrc & _). rewrite Hch in Hrc.
  eapply inside_mono with (Q' := λ h V, row g gr h V ∧ fwd i r V) in H3; [|by intros h V _ (? & ? & _)].
  destruct (status r); [bad| | |bad|bad].
  - destruct (code_expires r) as [e|]; [|bad]. eapply (wp_ask d0); [exact H3|apply _|auto|]. intros now l4 H4.
    destruct (_ || _) eqn:El; [bad|]. apply orb_false_iff in El as [_ El].
    apply wp_tryBind, wp_failing. eapply (wp_one d0); [exact H4|apply _|reader| |bad|bad]. intros prod l5 H5.
    destruct (oauthClientAllows _ _ _); [|bad].
    apply wp_tryBind, wp_failing. eapply (wp_one d0); [exact H5|apply _|reader| |bad|bad]. intros act l6 H6.
    destruct act; [|bad]. apply wp_tryBind.
    eapply (wp_grantMintBlocked d0 tn (λ h V, row g gr h V ∧ fwd i r V)); [|exact H6| |].
    { by intros h V [[? _] _]. }
    2: { intros e' l' [Hs Hr] [[? ->]|[? ->]]; by split. }
    intros l7 H7. apply wp_tryBind. eapply (wp_random d0); [exact H7|apply _| |bad]. intros buf l8 H8.
    eapply (wp_ask d0); [exact H8|apply _|auto|]. intros now2 l9 H9.
    eapply inside_mono in H9; [|intros h V _ HH; exact (conj (proj2 (proj1 (proj1 HH))) (conj (proj1 (proj1 (proj1 HH))) (conj (proj2 (proj1 HH)) (proj2 HH))))].
    apply wp_tryBind, wp_failing. eapply (wp_one d0); [exact H9|apply _| | |bad|bad].
    { apply (does_mint tn (λ _ V, fwd i r V)); [done|congruence|done|apply subset_refl]. }
    intros tid l10 H10. apply wp_tryBind. eapply (wp_random d0); [exact H10|apply _| |bad]. intros rbuf l11 H11.
    eapply inside_mono with (Q' := λ h V, fwd i r V ∧ has (LGrant g) h V) in H11; [|by intros h V _ (? & ? & _)].
    apply wp_tryBind. eapply (wp_one d0); [exact H11|apply _| | |bad|bad].
    { eapply (does_updGrant tn (λ h V, fwd i r V ∧ has (LGrant g) h V) _ None g (withRefresh (Some _) (Some tn) None)).
      - intros id V x w He. opened He. destruct (find _ _); [done|].
        destruct (update1 _ _ _ _) eqn:E; injection He as <- <-; [|by left]. apply update1_Some in E as (y & ? & ? & ->). right. by exists y.
      - done.
      - intros h h' V x _ Hs. by apply (frameG (Q := λ h V, fwd i r V ∧ has (LGrant g) h V)).
      - intros. right. by left. }
    intros gr' l12 H12. eapply inside_mono with (Q' := λ h V, has (LGrant g) h V ∧ fwd i r V) in H12; [|by intros h V _ []].
    apply wp_tryBind, wp_failing. eapply (wp_one d0); [exact H12|apply _|by apply (does_redeem tn (has (LGrant g)) i r g)| |bad|bad].
    intros r' l13 H13. apply wp_tryBind. eapply (wp_committed d0); [exact H13|apply _| |by intros].
    intros h l14 Hs _ Hred [_ Hf']. hnf. split; [done|]. simpl. exists (i, r'). split; [done|].
    destruct (f_code _ _ Hf' g Hrg) as (_ & Hc' & _). split_and!; simpl.
    + by rewrite (f_product _ _ Hf').
    + by rewrite Hc'.
    + by rewrite (f_redirect _ _ Hf').
    + by rewrite (f_challenge _ _ Hf').
  - destruct (g_revoked gr); [bad|]. apply wp_tryBind.
    eapply (wp_revokeGrantLocked d0 tn (λ h V, has (LGrant g) h V ∧ known g V)); [by intros h V []| | |bad].
    { eapply inside_mono; [|exact H3]. intros h V Hn [[? Hg] _]. split; [done|by eapply named_grant]. }
    intros l4 H4. apply wp_tryBind. eapply (wp_committed d0); [exact H4|apply _| |by intros].
    intros h l5 Hs _ Hred _. hnf. by split.
Qed.

Definition quiet {B} (P : B → DB → Prop) (r : result stop B) (red : list (uuid * Req)) (d : DB) : Prop :=
  red = [] ∧ match r with Ok x => P x d | Err _ => True end.
#[local] Instance Lasting_quiet {B} (P : B → DB → Prop) `{!∀ x, Lasting (P x)} r red : Lasting (quiet P r red).
Proof. intros d d' Hn He [-> Hp]. split; [done|]. destruct r; [by eapply lasting|done]. Qed.
(** The end of a transaction. *)
Ltac ends := intros; hnf; try match goal with H : _ = [] ∨ _ |- _ => destruct H end; (split; [done|split; done]).

Lemma wp_refresh d0 clientID tok requested l : outside d0 [] (λ _, True) l →
  WP (λ l' r, since d0 l' ∧ ltx l' = None ∧ quiet (λ _ _, True) r (lred l') (ldb l')) l (refreshOAuthToken clientID tok requested).
Proof.
  intros Ho. rewrite /refreshOAuthToken. destruct (_ <? _)%nat. { destruct Ho as (? & ? & ? & _). done. }
  eapply (wp_withTx d0 _ _ (λ _, True) (quiet (λ _ _, True))); [exact Ho|done|].
  intros tn l0 H0. apply wp_tryBind, wp_failing. eapply (wp_one d0); [exact H0|apply _|reader| |bad|bad].
  intros g l1 H1. apply wp_tryBind, wp_failing.
  eapply (wp_one d0); [exact H1|apply _|apply (does_lock tn (λ _ _, True) None None g)| |bad|bad].
  intros gr l2 H2. eapply inside_mono with (Q' := row g gr) in H2; [|by intros h V _ []].
  destruct (_ || _) eqn:Eb; [bad|]. rewrite !orb_false_iff in Eb. destruct Eb as [[El _] _].
  apply wp_tryBind. eapply (wp_one d0); [exact H2|apply _|reader| |bad|bad]. intros within l3 H3. destruct within; [|bad].
  apply wp_tryBind, wp_failing. eapply (wp_one d0); [exact H3|apply _|reader| |bad|bad]. intros prod l4 H4.
  destruct (OAuthSrv.IsClient _); [|bad].
  apply wp_tryBind, wp_failing. eapply (wp_one d0); [exact H4|apply _|reader| |bad|bad]. intros act l5 H5. destruct act; [|bad].
  destruct (forallb _ _) eqn:Esc; [|bad]. destruct (oauthClientAllowsScopes _ _); [|bad].
  apply wp_tryBind. eapply (wp_grantMintBlocked d0 tn (row g gr)); [by intros h V []|exact H5| |].
  2: { intros e' l' [Hs Hr] _. by split. }
  intros l6 H6. apply wp_tryBind. eapply (wp_random d0); [exact H6|apply _| |bad]. intros buf l7 H7.
  eapply (wp_ask d0); [exact H7|apply _|auto|]. intros now l8 H8.
  eapply inside_mono in H8; [|intros h V _ HH; exact (conj I (conj (proj1 (proj1 HH)) (conj (proj2 (proj1 HH)) (proj2 HH))))].
  apply wp_tryBind, wp_failing. eapply (wp_one d0); [exact H8|apply _| | |bad|bad].
  { apply (does_mint tn (λ _ _, True)); [done..|]. destruct requested; [done|apply subset_refl]. }
  intros tid l9 H9. eapply inside_mono with (Q' := λ _ _, True) in H9; [|done].
  apply wp_tryBind. eapply (wp_exec d0); [exact H9|apply _| | |bad].
  { eapply (does_updGrant tn (λ _ _, True) _ None g (λ x, withRefresh (refresh_hash x) (refresh_issued x) (Some tn) x)).
    - intros id V x w He. opened He.
      destruct (update1 _ _ _ _) eqn:E; injection He as <- <-; [|by left]. apply update1_Some in E as (y & ? & ? & ->). right. by exists y.
    - done.
    - done.
    - intros. right. by left. }
  intros n l10 H10. destruct (_ =? _); [|bad]. apply wp_tryBind. eapply (wp_committed d0); [exact H10|apply _|ends|ends].
Qed.

Lemma wp_revokeRefresh d0 clientID tok l : outside d0 [] (λ _, True) l →
  WP (λ l' r, since d0 l' ∧ ltx l' = None ∧ quiet (λ _ _, True) r (lred l') (ldb l')) l (revokeRefreshToken clientID tok).
Proof.
  intros Ho. eapply (wp_withTx d0 _ _ (λ _, True) (quiet (λ _ _, True))); [exact Ho|done|].
  intros tn l0 H0. apply wp_tryBind. eapply (wp_exec d0); [exact H0|apply _|reader| |bad]. intros [g|] l1 H1; [|bad].
  apply wp_tryBind. eapply (wp_exec d0); [exact H1|apply _|apply (does_lock tn (λ _ _, True) None None g)| |bad].
  intros [gr|] l2 H2; [|bad]. destruct (_ || _); [bad|]. destruct (bool_decide _); [|bad]. apply wp_tryBind.
  eapply (wp_revokeGrantLocked d0 tn (λ h V, has (LGrant g) h V ∧ known g V)); [by intros h V []| | |bad].
  { eapply inside_mono; [|exact H2]. intros h V Hn [_ [? Hg]]. split; [done|by eapply named_grant]. }
  intros l4 H4. apply wp_tryBind. eapply (wp_committed d0); [exact H4|apply _|ends|ends].
Qed.

Lemma wp_revokeAccess d0 clientID tok l : outside d0 [] (λ _, True) l →
  WP (λ l' r, since d0 l' ∧ ltx l' = None ∧ quiet (λ _ _, True) r (lred l') (ldb l')) l (revokeAccessToken clientID tok).
Proof.
  intros Ho. apply wp_tryBind. eapply (wp_exec_out d0); [exact Ho|apply _| |]; [|by intros e l' (? & ? & ? & _)].
  intros [trow|] id l1 H1 _ _; [|by destruct H1 as (? & ? & ? & _)].
  destruct (_ || _); [by destruct H1 as (? & ? & ? & _)|]. destruct (bool_decide _); [|by destruct H1 as (? & ? & ? & _)].
  destruct (tr_Grant trow) as [g|]; [|by destruct H1 as (? & ? & ? & _)].
  eapply (wp_withTx d0 _ _ (λ _, True) (quiet (λ _ _, True))); [exact H1|done|].
  intros tn l2 H2. apply wp_tryBind. eapply (wp_exec d0); [exact H2|apply _|apply (does_lock tn (λ _ _, True) None None g)| |bad].
  intros [gr|] l3 H3; [|bad]. eapply inside_mono with (Q' := λ h V, True ∧ has (LGrant g) h V) in H3; [|by intros h V _ [_ []]].
  apply wp_tryBind. eapply (wp_exec d0); [exact H3|apply _| | |bad].
  { apply (does_revokeOne tn (λ _ _, True) (has (LGrant g)) _ (tr_ID trow)). intros i V h x w Hl He. opened He.
    destruct (update1 _ _ _ _) eqn:E; injection He as <- <-; [|by left].
    apply update1_Some in E as (y & ? & [Hy%bool_decide_eq_true _]%andb_true_iff & ->). right. exists y. split_and!; [done| |done].
    intros g' Hg'. by assert (g' = g) as -> by congruence. }
  intros n l4 H4. apply wp_tryBind. eapply (wp_committed d0); [exact H4|apply _|ends|ends].
Qed.

Lemma outside_end {B} d0 l (r : result stop B) : outside d0 [] (λ _, True) l →
  since d0 l ∧ ltx l = None ∧ quiet (λ _ _, True) r (lred l) (ldb l).
Proof. intros (? & ? & ? & _). split_and!; [done..|]. split; [done|by destruct r]. Qed.

Lemma quiet_outside {B} d0 l (P : B → DB → Prop) r : since d0 l → ltx l = None → quiet P r (lred l) (ldb l) → outside d0 [] (λ _, True) l.
Proof. by intros ? ? [? _]. Qed.

Lemma wp_revokeToken d0 clientID tok hint l : outside d0 [] (λ _, True) l →
  WP (λ l' r, since d0 l' ∧ ltx l' = None ∧ quiet (λ _ _, True) r (lred l') (ldb l')) l (revokeOAuthToken clientID tok hint).
Proof.
  intros Ho. rewrite /revokeOAuthToken. destruct (_ <? _)%nat. { by apply outside_end. }
  assert (∀ steps l, outside d0 [] (λ _, True) l →
    Forall (λ s, ∀ l, outside d0 [] (λ _, True) l → WP (λ l' r, since d0 l' ∧ ltx l' = None ∧ quiet (λ _ _, True) r (lred l') (ldb l')) l s) steps →
    WP (λ l' r, since d0 l' ∧ ltx l' = None ∧ quiet (λ _ _, True) r (lred l') (ldb l')) l (revokeSteps steps)) as Hsteps.
  { intros steps. induction steps as [|s steps IH]; intros l1 H1 Hs; [by apply outside_end|].
    apply Forall_cons in Hs as [Hs Hss]. apply wp_tryBind. eapply wp_weaken; [|by apply Hs].
    intros l2 [[]|e] (? & ? & [? ?]); [by split_and!|by apply IH|by split_and!]. }
  apply Hsteps; [done|]. destruct (_ =?s _)%go; apply Forall_cons; (split; [|apply Forall_singleton]); intros; first [by apply wp_revokeAccess|by apply wp_revokeRefresh].
Qed.

(** * What the endpoints promise *)

(** What a token request presents once its client is authenticated. *)
Definition presented (r : formReq) (clientID : uuid) (form : OAuthSrv.TokenForm) : Prop :=
  ∃ v basicID secret, PostForm r = Some v ∧ form = OAuthSrv.ParseTokenForm v ∧
    oauthBasicCredentials r = Some (basicID, secret) ∧ parseUUID basicID = Some clientID.

(** The grants a revoke ends. *)
Definition ended (e : endpoint) (l : lstate) : Prop :=
  match e with
  | RevokeAll w => ∀ u g gr, signedIn w = Some u → grants (tables (lfrom l)) !! g = Some gr → g_user gr = u → closed g (ldb l)
  | RevokeConnection w | AdminRevokeConnection w => ∀ g, parseUUID (pathID w) = Some g → closed g (ldb l)
  | _ => True
  end.

(** Tokens are answered to the one exchange of the request; a refusal has
    exchanged nothing; a revoke that is done has ended its grants. *)
Definition promise (e : endpoint) (l : lstate) (a : answer) : Prop :=
  match a with
  | Tokens _ _ _ => ∃ r clientID form x, e = PostToken r ∧ presented r clientID form ∧ lred l = [x] ∧ bound clientID form x
  | TokenError f => f_code_status f = 503 ∨ lred l = []
  | Done n => lred l = [] ∧ (n = 204 → ended e l)
  | _ => lred l = []
  end.

Definition dull (a : answer) : Prop :=
  match a with StaticError _ | Found _ _ | HttpError _ _ | RedirectURL _ => True | _ => False end.
Definition dullPost (r : result answer answer) (red : list (uuid * Req)) (_ : DB) : Prop :=
  red = [] ∧ match r with Ok a => dull a | Err a => dull a end.
#[local] Instance Lasting_dullPost r red : Lasting (dullPost r red).
Proof. by intros d d'. Qed.
Lemma promise_dull e l r : dullPost r (lred l) (ldb l) → promise e l (match r with Ok a => a | Err a => a end).
Proof. intros [Hr Hd]. by destruct r as [[]|[]]. Qed.

Lemma wp_respond (P : lstate → answer → Prop) m l :
  WP (λ l' r, P l' (match r with Ok a => a | Err a => a end)) l m → WP P l (respond m).
Proof. intros H. eapply wp_bind; [exact H|]. by intros l' r. Qed.

(** ** The token and revoke endpoints *)
Lemma wp_auth d0 r l : outside d0 [] (λ _, True) l →
  WP (λ l' x, outside d0 [] (λ _, True) l' ∧ match x with Ok (c, f) => presented r c f | Err a => ∃ f, a = TokenError f end)
    l (oauthAuthenticatedClient cfg r).
Proof.
  intros Ho. rewrite /oauthAuthenticatedClient. destruct (fRawQuery r =?s _)%go; [|hnf; eauto].
  destruct (bool_decide _); [|hnf; eauto]. destruct (PostForm r) as [v|] eqn:Ev; [|hnf; eauto].
  destruct (OAuthSrv.fRepeated _); [hnf; eauto|]. destruct (oauthBasicCredentials r) as [[basicID secret]|] eqn:Ec; [|hnf; eauto].
  destruct (_ || _); [hnf; eauto|]. destruct (parseUUID basicID) as [c|] eqn:Eu; [|hnf; eauto].
  apply wp_tryBind, wp_failing. eapply (wp_exec_out d0); [exact Ho|apply _| |]; [|intros e l' Hl; hnf; eauto].
  intros prod id l1 H1 _ _. destruct (_ || _); [hnf; eauto|].
  eapply (wp_ask_out d0); [exact H1|apply _|auto|]. intros allowed l2 H2. destruct allowed; hnf; eauto.
  split; [done|]. exists v, basicID, secret. done.
Qed.

Lemma wp_OAuthToken d0 r l : outside d0 [] (λ _, True) l → WP (promise (PostToken r)) l (OAuthToken cfg r).
Proof.
  intros Ho. apply wp_respond, wp_tryBind. eapply wp_weaken; [|by apply wp_auth].
  intros l1 [[c form]|a] [H1 Hp]; [|destruct Hp as [f ->]; destruct H1 as (_ & _ & ? & _); by right].
  pose proof H1 as (_ & _ & Hr & _). destruct (_ =?s "authorization_code")%go.
  { destruct (_ =?s EmptyString)%go; [by right|]. apply wp_tryBind, wp_failing. eapply wp_weaken; [|by apply wp_redeem].
    intros l2 [resp|e] (_ & _ & HM).
    - destruct HM as (x & Hx & Hb). hnf. exists r, c, form, x. done.
    - destruct e; try by left. by right. }
  destruct (_ =?s "refresh_token")%go.
  { destruct (_ =?s EmptyString)%go; [by right|]. cbv zeta. destruct (OAuthSrv.fHasScope form && _); [by right|].
    apply wp_tryBind, wp_failing. eapply wp_weaken; [|by apply wp_refresh].
    intros l2 [resp|e] (_ & _ & [HM _]); [done|]. destruct e; by right. }
  destruct (_ =?s EmptyString)%go; by right.
Qed.

Lemma wp_OAuthRevoke d0 r l : outside d0 [] (λ _, True) l → WP (promise (PostRevoke r)) l (OAuthRevoke cfg r).
Proof.
  intros Ho. apply wp_respond, wp_tryBind. eapply wp_weaken; [|by apply wp_auth].
  intros l1 [[c form]|a] [H1 Hp]; [|destruct Hp as [f ->]; destruct H1 as (_ & _ & ? & _); by right].
  pose proof H1 as (_ & _ & Hr & _). destruct (_ =?s EmptyString)%go; [by right|].
  apply wp_tryBind, wp_failing. eapply wp_weaken; [|by apply wp_revokeToken].
  intros l2 [resp|e] (_ & _ & [HM _]); [done|]. destruct e; by right.
Qed.

(** ** The consent page *)
Lemma wp_load d0 w l : outside d0 [] (λ _, True) l →
  WP (λ l' x, match x with Ok (id, r) => outside d0 [] (fwd id r) l' | Err a => outside d0 [] (λ _, True) l' ∧ dull a end) l (loadOAuthRequest w).
Proof.
  intros Ho. rewrite /loadOAuthRequest. destruct (parseUUID (pathID w)) as [id|]; [|done].
  apply wp_tryBind, wp_failing. eapply (wp_one_out d0); [exact Ho|apply _| |]; [|intros e l' Hl; hnf; split; [done|by destruct e]].
  intros r id' l1 H1 Hj [= Hr]. destruct (bindCookie w) as [c|]; [|done]. destruct (_ || _); [done|].
  assert (outside d0 [] (fwd id r) l1) as H1'.
  { destruct H1 as (? & ? & ? & _). split_and!; [done..|]. split; [by eapply named_request; [apply Hj|]|].
    intros r' Hr'. assert (r' = r) as -> by congruence. apply forward_refl. }
  eapply (wp_ask_out d0); [exact H1'|apply _|auto|]. intros now l2 H2. destruct (now <? _); [done|].
  hnf. split; [|done]. by destruct H2 as (? & ? & ? & _).
Qed.

Lemma wp_OAuthDeny d0 w l : outside d0 [] (λ _, True) l → WP (promise (Deny w)) l (OAuthDeny cfg w).
Proof.
  intros Ho. rewrite /OAuthDeny. destruct (signedIn w) as [u|]; [|by destruct Ho as (_ & _ & ? & _)].
  apply wp_respond, wp_tryBind. eapply wp_weaken; [|by apply wp_load].
  intros l1 [[id r]|a] H1. 2: { destruct H1 as [(_ & _ & Hr & _) Hd]. by apply (promise_dull _ _ (Err a)). }
  assert (outside d0 [] (λ _, True) l1) as H1' by by destruct H1 as (? & ? & ? & _).
  apply wp_tryBind, wp_failing. eapply wp_weaken with (post := λ l' r, since d0 l' ∧ ltx l' = None ∧ quiet (λ _ _, True) r (lred l') (ldb l')).
  { intros l2 [b|e] (_ & _ & [Hr _]); [by destruct b|]. simpl. by destruct e. }
  eapply (wp_withTx d0 _ _ (λ _, True) (quiet (λ _ _, True))); [exact H1'|done|].
  intros tn l2 H2. apply wp_tryBind, wp_tryBind, wp_failing. eapply (wp_one d0); [exact H2|apply _|reader| |bad|bad].
  intros prod l3 H3. apply wp_tryBind. eapply (wp_one d0); [exact H3|apply _|apply (does_deny tn (λ _ _, True))| |bad|bad].
  intros r' l4 H4. apply wp_ret, wp_tryBind. eapply (wp_committed d0); [exact H4|apply _|ends|ends].
Qed.

(** The scopes of a live grant are replaced; its tokens go with a scope they have
    lost. *)
Lemma wp_reconsent d0 tn u p id r g sc (post : lstate → result answer unit → Prop) l :
  inside d0 tn None None None (λ h V, fwd id r V ∧ owned u p g h V) l →
  (∀ l', inside d0 tn None None None (λ h V, fwd id r V ∧ owned u p g h V) l' → post l' (Ok tt)) →
  (∀ l', failed d0 l' → post l' (Err internalError)) →
  WP post l (tryBind (internal (exec (OAuthGrantHasTokenOutsideScopes g sc))) (λ drops,
    tryBind (internal (one (ReconsentOAuthGrant sc g))) (λ _,
      if (drops : bool) then tryBind (internal (exec (RevokeOAuthGrantProductTokens g))) (λ _, ok tt) else ok tt))).
Proof.
  intros H0 Hok Herr. set (F := λ h V, fwd id r V ∧ owned u p g h V) in *.
  assert (∀ h h' V gr, grants (tables V) !! g = Some gr → h ⊆ h' → F h V → F h' (view (wGrants {[g := reconsented sc tn gr]}) V)) as HFr.
  { intros h h' V gr Hgr Hs [Hf (Hl & gr0 & H1 & H2 & H3 & H4)]. split; [by apply (frameG (Q := λ _, fwd id r) h h')|].
    split; [by apply Hs|]. rewrite tables_wGrants /= lookup_put decide_True //. exists (reconsented sc tn gr).
    assert (gr0 = gr) as -> by congruence. done. }
  assert (∀ i V x w, effect tn i V (ReconsentOAuthGrant sc g) = Some (x, w) →
    w = none ∨ ∃ gr, grants (tables V) !! g = Some gr ∧ liveGrant gr = true ∧ w = wGrants {[g := reconsented sc tn gr]}) as Hre.
  { intros i V x w He. opened He. destruct (negb (scopesOk sc)); [done|].
    destruct (update1 _ _ _ _) eqn:E; injection He as <- <-; [|by left]. apply update1_Some in E as (y & ? & ? & ->). right. by exists y. }
  apply wp_tryBind, wp_failing. eapply (wp_exec d0); [exact H0|apply _| | |by intros; apply Herr].
  { apply (does_outside tn F g sc). by intros h V [_ []]. }
  intros drops l1 H1. apply wp_tryBind, wp_failing. destruct drops.
  - eapply inside_mono with (Q' := F) in H1; [|by intros h V _ []].
    eapply (wp_one d0); [exact H1|apply _| | |by intros; apply Herr; eauto|by intros; apply Herr].
    { apply (does_updGrant tn F _ (Some g) g (reconsented sc tn)); [exact Hre|done|exact HFr|by left]. }
    intros gr l2 H2. apply wp_tryBind, wp_failing.
    eapply (wp_exec d0); [exact H2|apply _|apply (does_revokeAll tn F g (Some g) None)| |by intros; apply Herr].
    { by right. } { by intros h V [_ []]. }
    intros n l3 H3. apply wp_ret, Hok. eapply inside_mono; [|exact H3]. by intros h V _ [].
  - eapply inside_mono with (Q' := λ h V, F h V ∧ fits g sc h V) in H1; [|by intros h V _ [? Hf]; split; [|by apply Hf]].
    eapply (wp_one d0); [exact H1|apply _| | |by intros; apply Herr; eauto|by intros; apply Herr].
    { apply (does_updGrant tn (λ h V, F h V ∧ fits g sc h V) _ None g (reconsented sc tn)); [exact Hre|done| |].
      - intros h h' V gr Hgr Hs [Hf Hfit]. split; [by eapply HFr|]. by eapply (frameG (Q := fits g sc)).
      - intros h V gr [_ [_ Hfit]]. right. by right. }
    intros gr l2 H2. apply wp_ret, Hok. eapply inside_mono; [|exact H2]. by intros h V _ [].
Qed.

Lemma wp_OAuthApprove d0 w l : outside d0 [] (λ _, True) l → WP (promise (Approve w)) l (OAuthApprove cfg w).
Proof.
  intros Ho. rewrite /OAuthApprove. destruct (signedIn w) as [u|]; [|by destruct Ho as (_ & _ & ? & _)].
  apply wp_respond, wp_tryBind. eapply wp_weaken; [|by apply wp_load].
  intros l1 [[id r]|a] H1. 2: { destruct H1 as [(_ & _ & Hr & _) Hd]. by apply (promise_dull _ _ (Err a)). }
  destruct (isStatus Pending r); [|by destruct H1 as (? & ? & ? & _)].
  apply wp_tryBind, wp_failing. eapply (wp_one_out d0); [exact H1|apply _| |]; [|by intros e l' (? & ? & ? & _)].
  intros prod i1 l2 H2 _ _. destruct (oauthRequestStillValid prod r); [|by destruct H2 as (? & ? & ? & _)].
  apply wp_tryBind, wp_failing. eapply (wp_random_out d0); [exact H2|apply _|]. intros [buf|e] l3 H3; [|by destruct H3 as (? & ? & ? & _)].
  eapply wp_weaken with (post := λ l' r, since d0 l' ∧ ltx l' = None ∧ dullPost r (lred l') (ldb l')).
  { intros l4 x (_ & _ & Hd). by apply promise_dull. }
  eapply (wp_withTx d0 _ _ (fwd id r) dullPost); [exact H3|done|].
  intros tn l4 H4. apply wp_tryBind, wp_failing.
  eapply (wp_exec d0) with (Q' := λ _ h V, fwd id r V ∧ has (LUser u) h V); [exact H4|apply _| | |bad].
  { apply does_read; [by intros ? ? ? ? ? [= _ <-]|]. intros c i V h h' x _ Hf _ Hw _. split; [done|]. set_solver. }
  intros x5 l5 H5. apply wp_tryBind, wp_failing. eapply (wp_one d0); [exact H5|apply _|reader| |bad|bad].
  intros locked l6 H6. destruct (oauthRequestStillValid locked r); [|bad]. apply wp_tryBind, wp_failing.
  eapply (wp_lockOrCreate d0 tn (λ h V, fwd id r V ∧ has (LUser u) h V)); [by intros h V []|exact H6| |bad].
  intros g gr existed l7 H7.
  eapply inside_mono with (Q' := λ h V, fwd id r V ∧ owned u (q_product r) g h V) in H7; [|by intros h V _ [[] ]].
  apply wp_tryBind.
  assert (∀ l', inside d0 tn None None None (λ h V, fwd id r V ∧ owned u (q_product r) g h V) l' →
    WP (λ l'' r', since d0 l'' ∧ dullPost r' (lred l'') (ldb l'')) l'
      (tryBind (internal (exec (SupersedeOAuthGrantCodes g))) (λ _,
       tryBind (failing (λ e, match e with NoRows => noLongerPending | _ => internalError end) (one (ClaimOAuthAuthorizeRequest u id))) (λ _,
       call Now ≫= λ now,
       tryBind (internal (one (IssueOAuthAuthorizationCode (hash (OAuthSrv.RawURLEncode buf)) (now + oauthCodeTTL) g id u))) (λ _,
       tryBind (internal commit) (λ _,
       ok (RedirectURL (OAuthSrv.CodeRedirectURL (redirect_uri r) (OAuthSrv.RawURLEncode buf) (q_state r) (oauthIssuer cfg))))))))) as Hrest.
  { intros l8 H8. apply wp_tryBind, wp_failing.
    eapply (wp_exec d0); [exact H8|apply _|apply (does_supersede tn (λ h V, fwd id r V ∧ owned u (q_product r) g h V) g)| |bad].
    { by intros h V [_ []]. }
    intros x9 l9 H9. eapply inside_mono with (Q' := λ h V, (owned u (q_product r) g h V ∧ idle g h V) ∧ fwd id r V) in H9; [|by intros h V _ [[] ]].
    apply wp_tryBind, wp_failing.
    eapply (wp_one d0); [exact H9|apply _|apply (does_claim tn (λ h V, owned u (q_product r) g h V ∧ idle g h V) u id r)| |bad|bad].
    intros r' l10 H10. assert (status r' = Approved ∧ q_grant r' = None ∧ q_user r' = Some u ∧ q_product r' = q_product r) as (Ra & Rg & Ru & Rp).
    { eapply inside_pure; [|exact H10]. by intros h V [_ [_ ?]]. }
    eapply inside_mono with (Q' := λ h V, owned u (q_product r) g h V ∧ rowR id r' h V ∧ idle g h V) in H10; [|by intros h V _ [[] []]].
    eapply (wp_ask d0); [exact H10|apply _|auto|]. intros now l11 H11. apply wp_tryBind, wp_failing.
    eapply (wp_one d0); [exact H11|apply _|by apply (does_issue tn (owned u (q_product r) g) _ _ g id u (q_product r) r')| |bad|bad].
    intros r2 l12 H12. apply wp_tryBind, wp_failing. eapply (wp_committed d0); [exact H12|apply _|ends|ends]. }
  destruct existed; [|by apply wp_ret, Hrest].
  eapply wp_reconsent; [exact H7|exact Hrest|bad].
Qed.

(** ** The authorize endpoint *)
Lemma buckets_capped ip : let b := oauthSourceBucketsFor ip in
  FineCap b <= oauthPendingPerSourceCap ∧ MidCap b <= oauthPendingV4MidCap ∧ WideCap b <= oauthPendingV6WideCap.
Proof. rewrite /oauthSourceBucketsFor. repeat case_match; simpl; done. Qed.

Lemma wp_store d0 p b r l : let body :=
    tryBind (exec (LockOAuthAuthorize p)) (λ _, tryBind (oauthPendingOverCap p b) (λ over,
      if (over : bool) then ok None else
      call Now ≫= λ now, tryBind (exec (CreateOAuthAuthorizeRequest (r now))) (λ id, ok (Some id)))) in
  (∀ now, q_product (r now) = p ∧ status (r now) = Pending ∧ q_grant (r now) = None ∧ source_prefix (r now) = Fine b ∧
    source_mid (r now) = Mid b ∧ source_wide (r now) = Wide b) →
  FineCap b <= oauthPendingPerSourceCap → MidCap b <= oauthPendingV4MidCap → WideCap b <= oauthPendingV6WideCap →
  ∀ t, outside d0 [] (λ _, True) l →
  WP (λ l' x, since d0 l' ∧ ltx l' = None ∧ quiet (λ _ _, True) x (lred l') (ldb l')) l
    (inTx (tryBind (exec (SetOAuthAuthorizeLockTimeout t)) (λ _, body))).
Proof.
  intros body Hr C1 C2 C3 t Ho. eapply (wp_withTx d0 _ _ (λ _, True) (quiet (λ _ _, True))); [exact Ho|done|].
  intros tn l0 H0. apply wp_tryBind, wp_tryBind. eapply (wp_exec d0); [exact H0|apply _|reader| |bad]. intros x1 l1 H1.
  apply wp_tryBind. eapply (wp_exec d0) with (Q' := λ _, has (LAuthorize p)); [exact H1|apply _| | |bad].
  { apply does_read; [by intros ? ? ? ? ? [= _ <-]|]. intros c i V h h' x _ Hf _ Hw _. rewrite /has. set_solver. }
  intros x2 l2 H2. apply wp_tryBind, wp_tryBind.
  eapply (wp_exec d0); [exact H2|apply _|by apply (does_countPending tn (has (LAuthorize p)) p b)| |bad].
  intros n l3 H3. apply wp_ret. destruct (overCap b n) eqn:Eo.
  { apply wp_ret, wp_tryBind. eapply inside_mono with (Q' := λ _ _, True) in H3; [|done].
    eapply (wp_committed d0); [exact H3|apply _|ends|ends]. }
  eapply inside_mono with (Q' := λ h V, True ∧ roomy tn p b h V) in H3; [|by intros h V _ [_ Hx]; split; [|apply Hx]].
  eapply (wp_ask d0); [exact H3|apply _|auto|]. intros now l4 H4. destruct (Hr now) as (Hp & Hs1 & Hs2 & Hs3 & Hs4 & Hs5).
  apply wp_tryBind. eapply (wp_exec d0); [exact H4|apply _| | |bad].
  { rewrite -Hp. by apply (does_createRequest tn (λ _ _, True) (r now) b). }
  intros id l5 H5. apply wp_ret, wp_tryBind. eapply (wp_committed d0); [exact H5|apply _|ends|ends].
Qed.

Lemma wp_OAuthAuthorize d0 w l : outside d0 [] (λ _, True) l → WP (promise (Authorize w)) l (OAuthAuthorize cfg w).
Proof.
  intros Ho. rewrite /OAuthAuthorize. pose proof Ho as (_ & _ & Hr & _). destruct (GoQuery.ParseQuery (RawQuery w)) as [ps []]; [|done].
  destruct (parseUUID _) as [c|]; [|done]. destruct (_ || _); [done|].
  apply wp_respond, wp_tryBind, wp_failing. eapply (wp_exec_out d0); [exact Ho|apply _| |]; [|by intros e l' (? & ? & ? & _)].
  intros prod i1 l1 H1 _ _. pose proof H1 as (_ & _ & Hr1 & _). destruct (_ <$> prod) as [cl|]; [|done].
  destruct (OAuthSrv.CheckClient _ _) as [reg|]; [|done]. destruct (OAuthSrv.ValidateAuthorize _ _ _) as [areq|verr]; [|done].
  apply wp_tryBind, wp_failing.
  assert (WP (λ l' (_ : result stop string), outside d0 [] (λ _, True) l') l1 (oauthBindingNonce w)) as Hn.
  { rewrite /oauthBindingNonce.
    assert (WP (λ l' (_ : result stop string), outside d0 [] (λ _, True) l') l1 (tryBind random (λ buf, ok (OAuthSrv.RawURLEncode buf)))) as Hb.
    { apply wp_tryBind. eapply (wp_random_out d0); [exact H1|apply _|]. by intros [] l' ?. }
    destruct (bindCookie w) as [v|]; [|done]. by destruct (wellFormedOAuthNonce v). }
  eapply wp_weaken; [|exact Hn]. clear Hn. intros l2 [nonce|e] H2; [|by destruct H2 as (? & ? & ? & _)].
  eapply (wp_sweep _ d0 _ [] (λ _, True)); [exact H2|]. intros x3 l3 H3. apply wp_tryBind, wp_failing, wp_tryBind.
  eapply (wp_exec_out d0); [exact H3|apply _| |]; [|by intros e l' (? & ? & ? & _)].
  intros n i4 l4 H4 _ _. apply wp_ret. cbv zeta. destruct (overCap _ _); [by destruct H4 as (? & ? & ? & _)|].
  destruct (buckets_capped (ClientIP.ClientIP (peer w) (TrustedProxies cfg))) as (C1 & C2 & C3).
  eapply wp_bind; [eapply (wp_store d0) with (r := λ now, mkReq c reg (OAuthSrv.rScopes areq) (OAuthSrv.rState areq)
    (OAuthSrv.rCodeChallenge areq) (oauthBindingHash nonce) _ _ _ Pending None None None None (now + oauthAuthorizeTTL)); [|exact C1|exact C2|exact C3|exact H4]|].
  { done. }
  intros l5 [[id|]|e] (_ & _ & [Hr5 _]); [done..|]. destruct e as [|[]| | | |]; done.
Qed.

(** ** The revokes of a signed-in user *)
Lemma wp_revokeGrantOf d0 g owner l : outside d0 [] (λ _, True) l →
  WP (λ l' r, since d0 l' ∧ ltx l' = None ∧ quiet (λ _, closed g) r (lred l') (ldb l')) l (inTx (revokeGrantOfTokenTx g owner)).
Proof.
  intros Ho. eapply (wp_withTx d0 _ _ (λ _, True) (quiet (λ _, closed g))); [exact Ho|done|].
  intros tn l0 H0. apply wp_tryBind, wp_tryBind.
  eapply (wp_one d0); [exact H0|apply _|apply (does_lock tn (λ _ _, True) None None g)| |bad|bad].
  intros gr l1 H1. destruct (_ || _); [bad|].
  eapply (wp_revokeGrantLocked d0 tn (λ h V, has (LGrant g) h V ∧ known g V)); [by intros h V []| | |bad].
  { eapply inside_mono; [|exact H1]. intros h V Hn [_ [? Hg]]. split; [done|by eapply named_grant]. }
  intros l2 H2. apply wp_tryBind. eapply (wp_committed d0); [exact H2|apply _| |ends].
  intros h l3 Hs _ Hr [_ Hc]. hnf. by split.
Qed.

Lemma wp_connection d0 e owner w g l : parseUUID (pathID w) = Some g → e = RevokeConnection w ∨ e = AdminRevokeConnection w →
  outside d0 [] (λ _, True) l →
  WP (promise e) l (respond (tryBind (failing (notFoundOr "connection not found") (inTx (revokeGrantOfTokenTx g owner))) (λ _, ok (Done 204)))).
Proof.
  intros Hg He Ho. apply wp_respond, wp_tryBind, wp_failing. eapply wp_weaken; [|by apply wp_revokeGrantOf].
  intros l1 [[]|x] (_ & _ & [Hr Hc]).
  - hnf. split; [done|]. intros _. destruct He as [->| ->]; intros g' Hg'; by assert (g' = g) as -> by congruence.
  - by destruct x.
Qed.

Lemma wp_tokenOr d0 e grantID owner (alone : stmt Z) i l : (∀ n l, lred l = [] → promise e l (Done n)) →
  (∀ tn id V x w, effect tn id V alone = Some (x, w) → w = none ∨ ∃ t, tokens (tables V) !! i = Some t ∧ w = wTokens {[i := revokedToken t]}) →
  outside d0 [] (λ V, match grantID with None => manual i V | Some _ => True end) l →
  WP (λ l' r, promise e l' (match r with Ok a => a | Err a => a end)) l (revokeTokenOr grantID owner alone).
Proof.
  intros He Hal Ho. destruct grantID as [g|]; simpl.
  - apply wp_tryBind, wp_failing. eapply wp_weaken; [|apply (wp_revokeGrantOf d0)]; [|by destruct Ho as (? & ? & ? & _)].
    intros l1 [[]|x] (_ & _ & [Hr Hc]); [by apply He|by destruct x].
  - apply wp_tryBind, wp_failing. eapply wp_weaken with (post := λ l' r, since d0 l' ∧ ltx l' = None ∧ quiet (λ _ _, True) r (lred l') (ldb l')).
    { intros l1 [n|x] (_ & _ & [Hr _]); [|by destruct x]. destruct (n =? 0); [done|by apply He]. }
    eapply (wp_withTx d0 _ _ (manual i) (quiet (λ _ _, True))); [exact Ho|done|].
    intros tn l0 H0. apply wp_tryBind. eapply (wp_exec d0) with (Q' := λ _ _ _, True); [exact H0|apply _| | |bad].
    { eapply does_weaken; [| |apply (does_revokeOne tn (λ _ _, True) (λ _, manual i) alone i)]; [done..|].
      intros id V h x w0 [_ Hm] Hef. destruct (Hal _ _ _ _ _ Hef) as [->|(y & Hy & ->)]; [by left|right].
      exists y. split_and!; [done| |done]. intros g Hg. by rewrite (Hm y Hy) in Hg. }
    intros n l1 H1. apply wp_tryBind. eapply (wp_committed d0); [exact H1|apply _|ends|ends].
Qed.

Lemma wp_RevokeToken d0 w l : outside d0 [] (λ _, True) l → WP (promise (RevokeToken w)) l (RevokeMyProductToken w).
Proof.
  intros Ho. rewrite /RevokeMyProductToken. pose proof Ho as (_ & _ & Hr & _). destruct (signedIn w) as [u|]; [|done].
  destruct (parseUUID _) as [i|]; [|done]. apply wp_respond, wp_tryBind, wp_failing.
  eapply (wp_one_out d0); [exact Ho|apply _| |]; [|by intros [] l' (? & ? & ? & _)].
  intros grantID id l1 H1 Hj He. injection He as He. eapply (wp_tokenOr d0 _ _ _ _ i); [done| |].
  - clear He. intros tn k V x w0 Hef. opened Hef. destruct (update1 _ _ _ _) eqn:E; injection Hef as <- <-; [|by left].
    apply update1_Some in E as (y & ? & ? & ->). right. by exists y.
  - destruct H1 as (? & ? & ? & _). split_and!; [done..|]. destruct grantID; [done|].
    apply fmap_Some in He as (t & E & Ht). apply update1_Some in E as (y & Hy & _ & ->).
    split; [by eapply named_token; [apply Hj|]|]. intros t' Ht'. congruence.
Qed.

Lemma wp_AdminRevokeToken d0 w l : outside d0 [] (λ _, True) l → WP (promise (AdminRevokeToken w)) l (AdminRevokeProductToken w).
Proof.
  intros Ho. rewrite /AdminRevokeProductToken. pose proof Ho as (_ & _ & Hr & _). destruct (signedIn w) as [u|]; [|done].
  destruct (parseUUID _) as [i|]; [|done]. apply wp_respond, wp_tryBind, wp_failing.
  eapply (wp_one_out d0); [exact Ho|apply _| |]; [|by intros [] l' (? & ? & ? & _)].
  intros grantID id l1 H1 Hj He. injection He as He. eapply (wp_tokenOr d0 _ _ _ _ i); [done| |].
  - clear He. intros tn k V x w0 Hef. opened Hef. destruct (update1 _ _ _ _) eqn:E; injection Hef as <- <-; [|by left].
    apply update1_Some in E as (y & ? & ? & ->). right. by exists y.
  - destruct H1 as (? & ? & ? & _). split_and!; [done..|]. destruct grantID; [done|].
    apply fmap_Some in He as (t & E & Ht). apply update1_Some in E as (y & Hy & _ & ->).
    split; [by eapply named_token; [apply Hj|]|]. intros t' Ht'. congruence.
Qed.

(** ** Revoke all *)
Lemma wp_revokeGrants d0 tn gs (post : lstate → result stop unit → Prop) :
  ∀ (Q : list item → DB → Prop) `{!Stable Q, !Grow Q, !FrameT Q, !FrameR Q, !FrameX Q} l,
  (∀ h V, Q h V → every held_grant gs h V) → inside d0 tn None None None Q l →
  (∀ l', inside d0 tn None None None (λ h V, Q h V ∧ every (λ g _, closed g) gs h V) l' → post l' (Ok tt)) →
  (∀ e l', failed d0 l' → post l' (Err e)) → WP post l (revokeGrants gs).
Proof.
  induction gs as [|g gs IH]; intros Q HS HG HT HR HX l HQ Hin Hok Herr.
  - apply wp_ret, Hok. eapply inside_mono; [|exact Hin]. intros h V _ Hq. split; [done|constructor].
  - apply wp_tryBind. eapply (wp_revokeGrantLocked d0 tn Q g); [|exact Hin| |by intros; apply Herr].
    { intros h V Hq. by apply HQ, Forall_cons in Hq as [? _]. }
    intros l1 H1. eapply (IH (λ h V, Q h V ∧ closed g V)); [apply _..| |exact H1| |exact Herr].
    { intros h V [Hq _]. by apply HQ, Forall_cons in Hq as [_ ?]. }
    intros l2 H2. apply Hok. eapply inside_mono; [|exact H2]. intros h V _ [[? ?] ?]. split; [done|]. by apply Forall_cons.
Qed.

Lemma wp_RevokeAll d0 w l : named d0 → outside d0 [] (λ _, True) l → WP (promise (RevokeAll w)) l (RevokeAllCLITokens w).
Proof.
  intros Hn0 Ho. rewrite /RevokeAllCLITokens. destruct (signedIn w) as [u|] eqn:Eu; [|by destruct Ho as (_ & _ & ? & _)].
  set (P := λ (_ : unit) d, ∀ g gr, grants (tables d0) !! g = Some gr → g_user gr = u → closed g d).
  assert (∀ x, Lasting (P x)) by (intros x d d' Hn He Hp g gr Hg Hu; eapply (Lasting_closed g); [exact Hn|exact He|by eapply Hp]).
  apply wp_respond, wp_tryBind, wp_failing. eapply wp_weaken with (post := λ l' r, since d0 l' ∧ ltx l' = None ∧ quiet P r (lred l') (ldb l')).
  { intros l1 [[]|e] ([Hf _] & _ & [Hr Hp]); [|by destruct e]. hnf. split; [done|]. intros _ u' g gr Hu' Hg Hgu.
    rewrite Hf in Hg. eapply Hp; [exact Hg|congruence]. }
  eapply (wp_withTx d0 _ _ (λ _, True) (quiet P)); [exact Ho|done|].
  intros tn l0 H0. apply wp_tryBind, wp_tryBind.
  eapply (wp_exec d0) with (Q' := λ _, has (LUser u)); [exact H0|apply _| | |bad].
  { apply does_read; [by intros ? ? ? ? ? [= _ <-]|]. intros c i V h h' x _ Hf _ Hw _. rewrite /has. set_solver. }
  intros x1 l1 H1. apply wp_tryBind. eapply (wp_exec d0); [exact H1|apply _|by apply (does_userGrants tn (has (LUser u)) u)| |bad].
  intros gs l2 H2. apply wp_tryBind. eapply (wp_revokeGrants d0 tn gs _ (λ h V, has (LUser u) h V ∧ only u gs h V ∧ every held_grant gs h V)); [|exact H2| |bad]; [by intros h V (_ & _ & ?)|].
  intros l3 H3. apply wp_tryBind. eapply (wp_exec d0); [exact H3|apply _|reader| |bad]. intros x4 l4 H4.
  eapply (wp_exec d0); [exact H4|apply _|apply (does_revokeManual tn); apply _| |bad].
  intros [] l5 H5. apply wp_tryBind. eapply (wp_committed d0); [exact H5|apply _| |ends].
  intros h l6 [Hf He] Hj Hr [(_ & [_ Honly] & _) Hc]. hnf. split; [by split|]. split; [done|]. intros g gr Hg Hu.
  pose proof (named_grant _ _ _ Hn0 Hg) as Hd. split; [by apply (e_drawn _ _ He)|]. intros gr' Hgr'.
  destruct (e_grant _ _ He g gr' Hd Hgr') as (g0 & H0' & Hfw). assert (g0 = gr) as -> by congruence.
  destruct (g_revoked gr') eqn:Er; [done|]. assert (g ∈ gs) as Hin.
  { eapply Honly; [exact Hgr'|by rewrite (fg_user _ _ Hfw)|by rewrite /liveGrant Er]. }
  pose proof (proj1 (Forall_forall _ _) Hc g Hin) as [_ Hcl]. by rewrite (Hcl gr' Hgr') in Er.
Qed.

(** ** Every endpoint *)
Lemma endpoints_safe e : safe (serve cfg) J promise e.
Proof.
  intros l Hj Hf Ht Hr. assert (outside (ldb l) [] (λ _, True) l) as Ho by (split_and!; [split; [done|apply evolves_refl]|done..]).
  destruct e as [w|w|w|r|r|w|w|w|w|w]; simpl.
  - by eapply wp_OAuthAuthorize.
  - by eapply wp_OAuthApprove.
  - by eapply wp_OAuthDeny.
  - by eapply wp_OAuthToken.
  - by eapply wp_OAuthRevoke.
  - rewrite /RevokeMyOAuthConnection. destruct (signedIn w); [|done]. destruct (parseUUID (pathID w)) eqn:E; [|done].
    eapply wp_connection; [done|by left|exact Ho].
  - rewrite /AdminRevokeOAuthConnection. destruct (signedIn w); [|done]. destruct (parseUUID (pathID w)) eqn:E; [|done].
    eapply wp_connection; [done|by right|exact Ho].
  - by eapply wp_RevokeToken.
  - by eapply wp_AdminRevokeToken.
  - eapply wp_RevokeAll; [apply Hj|exact Ho].
Qed.
End Handlers.
End OAuthSafe.
