(* ===== verification/OAuthSystem.v ===== *)
(** The OAuth server as a whole: what holds in every state it can reach, however
    its requests interleave with each other, with the administrators, with the
    clock and with crashes. *)

From S2P Require Import Prelude Result Prog GoText GoStrings GoSearch GoQuery NetIP ClientIP FetchCtl FetchServer FetchPath.
From S2P Require Import OAuthSrv OAuthDb OAuthTx OAuthFlow OAuthInv OAuthRules OAuthSteps OAuthDoes OAuthSafe.

Local Open Scope Z_scope.

Module OAuthSystem.
Import OAuthDb OAuthTx OAuthInv OAuthDoes OAuthFlow OAuthSafe.

(** No request yet and empty tables. *)
Definition start (c : time) (ps : gmap uuid Product) (us : gmap uuid bool) (dr : gset uuid) : sys endpoint answer :=
  mkSys c (mkDB ps us none dr) ∅ [].

Lemma J_start c ps us dr : J c (mkDB ps us none dr).
Proof.
  assert (∀ B (p : B → bool), count p ∅ = 0) as Hz.
  { intros B p. rewrite /count /pick map_filter_empty map_size_empty. done. }
  split; simpl.
  - intros id. rewrite /ids /none /= !dom_empty_L. set_solver.
  - intros g. split; simpl; try (intros *; by rewrite lookup_empty); intros; by rewrite Hz.
  - intros g _ id t gr. simpl. by rewrite lookup_empty.
  - intros id _ r. simpl. by rewrite lookup_empty.
  - intros u p id1 id2 g1 g2. simpl. by rewrite lookup_empty.
  - intros p. split; simpl; intros; by rewrite Hz.
Qed.

Section Theorems.
Context `{FL : FetchLib} `{UT : !UuidText} (cfg : config).
Implicit Types s : sys endpoint answer.

Lemma reachable_good c ps us dr s : reachable (serve cfg) (start c ps us dr) s → good J promise s.
Proof. intros Hr. apply (sys_invariant (serve cfg) J promise (start c ps us dr) s); [apply endpoints_safe|done|done|apply J_start|exact Hr]. Qed.

(** C1. In every reachable state: a token or a code under a grant is its user's and
    its product's; a grant that is revoked has no working token, no redeemable
    code and no refresh token; a working token has no scope its grant lacks; a
    grant has at most one redeemable code, and a user at most one live grant per
    product; a request without a grant is undecided or denied. *)
Theorem oauth_invariant c ps us dr s : reachable (serve cfg) (start c ps us dr) s → J (clk s) (db s).
Proof. intros Hr. apply (good_inv _ _ _ (reachable_good _ _ _ _ _ Hr)). Qed.

(** C2. Of the requests that were ever redeemed none was redeemed twice.  A token
    request that is answered tokens has made exactly one exchange, of a request
    with its code, its client, its redirect URI and a challenge its verifier
    answers; a token request that is refused has made none. *)
Theorem code_exchange_once c ps us dr s : reachable (serve cfg) (start c ps us dr) s →
  NoDup (exchanges s).*2.*1 ∧
  ∀ p pr, procs s !! p = Some pr →
    (∀ access refresh scope, body pr = Ret (Tokens access refresh scope) →
      ∃ r clientID form x, asked pr = PostToken r ∧ presented r clientID form ∧ bound clientID form x ∧
        (filter (λ e, e.1 = p) (exchanges s)).*2 = [x]) ∧
    (∀ f, body pr = Ret (TokenError f) → f_code_status f ≠ 503 → (filter (λ e, e.1 = p) (exchanges s)).*2 = []).
Proof.
  intros Hr. pose proof (reachable_good _ _ _ _ _ Hr) as Hg. split; [apply Hg|]. intros p [e d0 b t red] Hp. simpl.
  rewrite -(good_mine _ _ _ Hg p _ Hp) /=. split.
  - intros access refresh scope ->. destruct (good_answered _ _ s p e d0 _ t red Hg Hp) as (l & _ & _ & <- & _ & _ & Hpost).
    destruct Hpost as (r & clientID & form & x & -> & Hpr & Hx & Hb). eauto 10.
  - intros f -> Hf. destruct (good_answered _ _ s p e d0 _ t red Hg Hp) as (l & _ & _ & <- & _ & _ & [?|?]); done.
Qed.

(** C26. However many refreshes and exchanges run at once, no grant ever has more than
    ten working tokens or more than thirty mints in an hour, and no source and no
    product more requests waiting than its cap. *)
Theorem oauth_bounds c ps us dr s : reachable (serve cfg) (start c ps us dr) s →
  (∀ g from, count (mintedIn g from) (tokens (tables (db s))) <= oauthMaxGrantMintsPerWindow) ∧
  (∀ g now, clk s <= now → count (liveAt g now) (tokens (tables (db s))) <= oauthMaxLiveGrantTokens) ∧
  (∀ p now src, clk s <= now → count (waiting source_prefix now p src) (requests (tables (db s))) <= oauthPendingPerSourceCap) ∧
  (∀ p now, clk s <= now → count (pendingOf now p) (requests (tables (db s))) <= oauthPendingPerProductCap).
Proof.
  intros Hr. pose proof (good_inv _ _ _ (reachable_good _ _ _ _ _ Hr)) as Hj. split_and!.
  - intros g. apply (j_grant _ _ _ _ Hj g).
  - intros g. apply (j_grant _ _ _ _ Hj g).
  - intros p. apply (j_pend _ _ _ _ Hj p).
  - intros p. apply (j_pend _ _ _ _ Hj p).
Qed.

(** Nothing under the grant works. *)
Definition nothingWorks (R : rows) (g : uuid) : Prop :=
  (∀ id t, tokens R !! id = Some t → t_grant t = Some g → t_revoked t = true) ∧
  (∀ id r, requests R !! id = Some r → q_grant r = Some g → status r ≠ Approved) ∧
  (∀ gr, grants R !! g = Some gr → refresh_hash gr = None).

Lemma closed_nothing c d g : J c d → closed g d → nothingWorks (tables d) g.
Proof.
  intros Hj [_ Hc]. destruct (j_grant _ _ _ _ Hj g) as [A1 A2 _ A4 _ _]. split_and!.
  - intros id t Ht Hg. destruct (A1 id t Ht Hg) as (gr & Hgr & _ & _ & Hl). specialize (Hc gr Hgr).
    destruct (t_revoked t); [done|]. by rewrite (Hl eq_refl) in Hc.
  - intros id r Hr Hg Ha. destruct (A2 id r Hr Hg) as (gr & Hgr & _ & _ & _ & _ & Hl). specialize (Hc gr Hgr).
    by rewrite (Hl Ha) in Hc.
  - intros gr Hgr. by apply A4, Hc.
Qed.

(** C25. Once a disconnect has answered 204, nothing under its grant works, then and
    for ever; once "revoke all" has, nothing works under any grant the user had
    when the request began. *)
Theorem revoked_for_ever c ps us dr s p pr : reachable (serve cfg) (start c ps us dr) s →
  procs s !! p = Some pr → body pr = Ret (Done 204) →
  match asked pr with
  | RevokeAll w => ∀ u g gr, signedIn w = Some u → grants (tables (began pr)) !! g = Some gr → g_user gr = u → nothingWorks (tables (db s)) g
  | RevokeConnection w | AdminRevokeConnection w => ∀ g, parseUUID (pathID w) = Some g → nothingWorks (tables (db s)) g
  | _ => True
  end.
Proof.
  intros Hr Hp Hb. pose proof (reachable_good _ _ _ _ _ Hr) as Hg. pose proof (good_inv _ _ _ Hg) as Hj.
  destruct pr as [e d0 b t red]. simpl in *. subst b.
  destruct (good_answered _ _ s p e d0 _ t red Hg Hp) as (l & Hf & _ & _ & _ & [He _] & [_ Hpost]). specialize (Hpost eq_refl).
  assert (∀ g, closed g (ldb l) → nothingWorks (tables (db s)) g) as Hno.
  { intros g Hc. eapply closed_nothing; [exact Hj|]. eapply (Lasting_closed g); [apply Hj|exact He|exact Hc]. }
  destruct e; try done; simpl in Hpost.
  - eauto.
  - eauto.
  - intros u g gr Hu Hgr Hgu. apply Hno. rewrite Hf in Hpost. eauto.
Qed.
End Theorems.

(** * Running the server *)
Definition nothing (w : rows) : bool := (size (grants w) =? 0)%nat && (size (tokens w) =? 0)%nat && (size (requests w) =? 0)%nat.
Lemma nothing_none w : nothing w = true → w = none.
Proof.
  rewrite /nothing !andb_true_iff !Nat.eqb_eq. destruct w as [g t r]. simpl.
  intros [[->%map_size_empty_inv ->%map_size_empty_inv] ->%map_size_empty_inv]. done.
Qed.

Definition freshId (d : DB) (t : option txn) : uuid :=
  Uuid.mk (100 + 20 * Z.of_nat (size (drawn d)) + match t with Some t => Z.of_nat (length (held t)) | None => 0 end).

(** The first answer that fits; the random source draws [rand]. *)
Definition reply (rand : string) (clk : time) (d : DB) (t : option txn) {X} (r : req X)
  : option (X * DB * option txn * list item) :=
  match r in req X return option (X * DB * option txn * list item) with
  | Stmt s =>
    let id := freshId d t in
    match t with
    | Some tx =>
      if bool_decide (id ∉ drawn d ∧ LId id ∉ held tx) then
        match effect (tnow tx) id (view (pend tx) d) s with
        | Some (x, w) =>
          let fp := LId id :: wanted s x ++ written w in
          Some (Ok x, d, Some (mkTxn (tnow tx) (OAuthDb.over w (pend tx)) (fp ++ held tx)), fp)
        | None => Some (Err DbFailed, d, t, [])
        end
      else None
    | None =>
      match effect clk id d s with
      | Some (x, w) => if nothing w then Some (Ok x, d, None, []) else None
      | None => Some (Err DbFailed, d, t, [])
      end
    end
  | DeleteExpiredOAuthAuthorizeRequests => Some (Err DbFailed, d, t, [])
  | Begin => match t with None => Some (Ok tt, d, Some (mkTxn clk none []), []) | Some _ => None end
  | Commit => match t with Some tx => Some (Ok tt, view (pend tx) d, None, []) | None => Some (Err DbFailed, d, None, []) end
  | Rollback => Some (tt, d, None, [])
  | Now => Some (clk, d, t, [])
  | Rand => Some (Some rand, d, t, [])
  | Allow _ => Some (true, d, t, [])
  end.

Lemma reply_pstep rand clk d t X (r : req X) x d' t' fp : reply rand clk d t r = Some (x, d', t', fp) → pstep clk d t X r x d' t' fp.
Proof.
  destruct r; simpl.
  - destruct t as [tx|].
    + destruct (bool_decide _) eqn:Eb; [|done]. apply bool_decide_eq_true in Eb as [? ?].
      destruct (effect _ _ _ _) as [[y w]|] eqn:E; intros [= <- <- <- <-]; [by econstructor|constructor].
    + destruct (effect _ _ _ _) as [[y w]|] eqn:E; [|intros [= <- <- <- <-]; constructor].
      destruct (nothing w) eqn:En; [|done]. apply nothing_none in En as ->. intros [= <- <- <- <-]. by econstructor.
  - intros [= <- <- <- <-]. constructor.
  - destruct t; [done|]. intros [= <- <- <- <-]. by constructor.
  - destruct t; intros [= <- <- <- <-]; [by constructor|constructor].
  - intros [= <- <- <- <-]. constructor.
  - intros [= <- <- <- <-]. constructor.
  - intros [= <- <- <- <-]. constructor.
  - intros [= <- <- <- <-]. constructor.
Qed.

Section Drive.
Context `{FL : FetchLib} `{UT : !UuidText} (cfg : config) (rand : string).
Implicit Types s : sys endpoint answer.

(** Process [p] takes up to [n] steps while no other has a transaction. *)
Fixpoint drive (n : nat) (p : nat) (s : sys endpoint answer) : option (sys endpoint answer) :=
  match n with
  | O => Some s
  | S n' =>
    match procs s !! p with
    | Some (mkProc e d0 (Vis r k) t red) =>
      if bool_decide (map_Forall (λ q pr, q = p ∨ tx pr = None) (procs s)) then
        match reply rand (clk s) (db s) t r with
        | Some (x, d', t', _) =>
          let new := newlyRedeemed (tables (db s)) (tables d') in
          drive n' p (mkSys (clk s) d' (<[p := mkProc e d0 (k x) t' (new ++ red)]> (procs s)) ((pair p <$> new) ++ exchanges s))
        | None => None
        end
      else None
    | _ => Some s
    end
  end.
Definition spawn (p : nat) (e : endpoint) (s : sys endpoint answer) : option (sys endpoint answer) :=
  if bool_decide (procs s !! p = None ∧ p ∉ (exchanges s).*1)
  then Some (mkSys (clk s) (db s) (<[p := mkProc e (db s) (serve cfg e) None []]> (procs s)) (exchanges s)) else None.
Fixpoint visit (n p : nat) (es : list endpoint) (s : sys endpoint answer) : option (sys endpoint answer) :=
  match es with
  | [] => Some s
  | e :: es' => s ← spawn p e s; s ← drive n p s; visit n (S p) es' s
  end.

Lemma drive_reachable n p s0 s s' : reachable (serve cfg) s0 s → drive n p s = Some s' → reachable (serve cfg) s0 s'.
Proof.
  revert s. induction n as [|n IH]; intros s Hr; cbn [drive]; [by intros [= <-]|].
  destruct (procs s !! p) as [[e d0 b t red]|] eqn:Ep; [|by intros [= <-]]. destruct b as [a|X r k]; [by intros [= <-]|].
  destruct (bool_decide _) eqn:Eb; [|done]. apply bool_decide_eq_true in Eb.
  destruct (reply _ _ _ _ _) as [[[[x d'] t'] fp]|] eqn:E; [|done]. apply IH. eapply R_step; [exact Hr|].
  eapply S_request; [exact Ep|by eapply reply_pstep|]. intros q pr i Hq Hne _ _. destruct (Eb q pr Hq) as [?|Ht]; [done|]. intros Hl. by rewrite Ht in Hl.
Qed.
#[local] Arguments drive : simpl never.
Lemma visit_reachable n es p s0 s s' : reachable (serve cfg) s0 s → visit n p es s = Some s' → reachable (serve cfg) s0 s'.
Proof.
  revert p s. induction es as [|e es IH]; intros p s Hr; simpl; [by intros [= <-]|].
  rewrite /spawn. destruct (bool_decide _) eqn:Eb; [|done]. apply bool_decide_eq_true in Eb as [H1 H2]. simpl.
  destruct (drive _ _ _) as [s1|] eqn:E; [|done]. simpl. apply IH. eapply drive_reachable; [|exact E].
  eapply R_step; [exact Hr|]. apply S_start; [done|]. intros x Hx. apply H2, list_elem_of_fmap. by exists (p, x).
Qed.
End Drive.

(** * A connection made, used and revoked *)
Module Example.
Definition pad32 (s : string) : string := String.substring 0 32 (s +:+ "................................").
#[local] Instance exampleLib : FetchLib := {| sha256 := pad32; parseUUID s := FetchPath.Example.unbits s ≫= decode |}.
#[local] Instance exampleUuids : UuidText.
Proof.
  refine {| uuidString u := FetchPath.Example.bits (encode u) |}.
  - intros u. cbn. by rewrite FetchPath.Example.unbits_bits /= decode_encode.
  - intros u. by destruct (encode u).
Defined.

Definition cfg0 : config := mkConfig "https://uzi.example.com/" [] Go.Minute.
Definition user1 : uuid := Uuid.mk 1.
Definition product1 : uuid := Uuid.mk 2.
Definition callback : string := "https://app.example.com/cb".
Definition products0 : gmap uuid Product :=
  {[product1 := mkProduct true false [callback] OAuthSrv.Scopes (Some (pad32 "uzs_secret"))]}.
Definition users0 : gmap uuid bool := {[user1 := true]}.
Definition rand0 : string := "abcdefghijklmnopqrstuvwxyz012345".
Definition code0 : string := OAuthSrv.RawURLEncode rand0.
Definition verifier0 : string := "v234567890123456789012345678901234567890123".
Definition peer0 : ClientIP.request := ClientIP.mkRequest "192.0.2.7:4711" [] "/" "".

Definition authorize0 : webReq := mkWeb (GoQuery.Encode (list_to_map [("client_id", [uuidString product1]); ("redirect_uri", [callback]);
  ("response_type", ["code"]); ("code_challenge", [OAuthSrv.RawURLEncode (pad32 verifier0)]);
  ("code_challenge_method", ["S256"]); ("state", ["s1"])])) None peer0 "" None.
(** The consent page has the request's id and the binding cookie. *)
Definition consent0 : webReq :=
  mkWeb "" (Some code0) peer0 "1100110000000001010101010101010101010101010101x" (Some user1).
Definition exchange (verifier : string) : formReq := mkFormReq "" (Some "application/x-www-form-urlencoded")
  (Some {[ "grant_type" := ["authorization_code"]; "code" := [code0]; "redirect_uri" := [callback]; "code_verifier" := [verifier] ]})
  (Some (uuidString product1, "uzs_secret")).

(** A wrong verifier, then the right one, then "revoke all". *)
Definition served : list endpoint :=
  [Authorize authorize0; Approve consent0; PostToken (exchange "v2"); PostToken (exchange verifier0); RevokeAll consent0].
Definition final : sys endpoint answer :=
  default (start 0 products0 users0 ∅) (visit cfg0 rand0 100 0 served (start 0 products0 users0 ∅)).

Lemma final_reachable : reachable (serve cfg0) (start 0 products0 users0 ∅) final.
Proof.
  rewrite /final. destruct (visit _ _ _ _ _ _) as [s|] eqn:E; [|apply R_init].
  eapply visit_reachable; [apply R_init|exact E].
Qed.

Definition answerOf (pr : proc endpoint answer) : option answer := match body pr with Ret a => Some a | _ => None end.
Lemma answerOf_body pr a : answerOf pr = Some a → body pr = Ret a.
Proof. rewrite /answerOf. destruct (body pr); [|done]. by intros [= ->]. Qed.
Definition summary (p : nat) : option (option answer * endpoint) := (λ pr, (answerOf pr, asked pr)) <$> procs final !! p.
Lemma summary_Some p a e : summary p = Some (Some a, e) → ∃ pr, procs final !! p = Some pr ∧ body pr = Ret a ∧ asked pr = e.
Proof. rewrite /summary fmap_Some. intros (pr & Hp & [= Ha He]). exists pr. split_and!; [done|by apply answerOf_body|done]. Qed.

Definition grant1 : uuid := default Uuid.Nil (head (map_to_list (grants (tables (db final)))).*1).

Lemma oauth_invariant_witness : size (tokens (tables (db final))) = 1%nat ∧ J (clk final) (db final).
Proof. split; [vm_compute; reflexivity|]. apply (oauth_invariant cfg0 0 products0 users0 ∅ final final_reachable). Defined.

Lemma code_exchange_once_witness :
  (∃ a, summary 2 = Some (Some (TokenError a), PostToken (exchange "v2"))) ∧
  ∃ pr x, procs final !! 3%nat = Some pr ∧ answerOf pr = Some (Tokens ("uzp_" +:+ code0) ("uzr_" +:+ code0) "jobs:run jobs:read") ∧
    (filter (λ e, e.1 = 3%nat) (exchanges final)).*2 = [x] ∧ redirect_uri x.2 = callback.
Proof.
  split; [eexists; vm_compute; reflexivity|].
  destruct (summary_Some 3 (Tokens ("uzp_" +:+ code0) ("uzr_" +:+ code0) "jobs:run jobs:read") (PostToken (exchange verifier0)))
    as (pr & Hp & Hb & Ha); [vm_compute; reflexivity|].
  destruct (proj2 (code_exchange_once cfg0 0 products0 users0 ∅ final final_reachable) 3%nat pr Hp) as [H _].
  destruct (H _ _ _ Hb) as (r & c & form & x & Hr & (v & i & sec & Hv & -> & _) & Hx & Hf). exists pr, x.
  split_and!; [done|by rewrite /answerOf Hb|done|]. rewrite Ha in Hr. injection Hr as <-. injection Hv as <-.
  destruct Hx as (_ & _ & -> & _). vm_compute. reflexivity.
Defined.

Lemma oauth_bounds_witness : count (liveAt grant1 0) (tokens (tables (db final))) <= 10.
Proof. apply (proj1 (proj2 (oauth_bounds cfg0 0 products0 users0 ∅ final final_reachable))). vm_compute. discriminate. Defined.

Lemma revoked_for_ever_witness : is_Some (grants (tables (db final)) !! grant1) ∧ nothingWorks (tables (db final)) grant1.
Proof.
  split; [eexists; vm_compute; reflexivity|].
  destruct (summary_Some 4 (Done 204) (RevokeAll consent0)) as (pr & Hp & Hb & Ha); [vm_compute; reflexivity|].
  pose proof (revoked_for_ever cfg0 0 products0 users0 ∅ final 4 pr final_reachable Hp Hb) as H. rewrite Ha in H.
  assert ((λ pr, g_user <$> grants (tables (began pr)) !! grant1) <$> procs final !! 4%nat = Some (Some user1)) as Hg by (vm_compute; reflexivity).
  rewrite Hp in Hg. injection Hg as Hg. apply fmap_Some in Hg as (gr & Hgr & Hu).
  by apply (H user1 grant1 gr).
Defined.
End Example.
End OAuthSystem.
