(* ===== verification/UsageFold.v ===== *)
(** What a run's messages say about usage
    ([src/api/internal/workersvc/usage_fold.go], [progress_note.go],
    [summary_usage.go]): reading a result frame, rebuilding the payload of a note
    or a summary pass, and the cost a row carries.

    A payload is the JSON document its bytes spell ([Raw], [None] when they spell
    none) until the server rebuilds it; a rebuilt payload is the struct it was
    marshalled from.  A cost in the column [numeric(12,6)] is its number of
    microdollars. *)

From Stdlib Require Import SpecFloat.
From S2P Require Import Prelude GoText GoStrings GoJson GoFloat GoNumber GoQuery Termsafe AnthropicPrice.

Local Open Scope Z_scope.

Module UsageFold.
Import GoQuery GoStrings GoJson.
Abbreviation float64 := GoFloat.float64.

Definition truncateRunes (s : string) (n : nat) : string :=
  if (length (runes s) <=? n)%nat then s else ofRunes (take n (rune <$> runes s)).

Definition KindProgressNote : string := "progress_note".
Definition KindSummaryUsage : string := "summary_usage".
Definition progressNoteModelPrefix : string := "progress_note:".
Definition summaryPassModelPrefix : string := "summary_pass:".
Definition MaxProgressNoteTextRunes : nat := 120.
Definition maxProgressNoteModels : nat := 4.
Definition maxProgressNoteMarkerRunes : nat := 32.
Definition maxMilestoneIDRunes : nat := 64.
Definition maxUsageSessionRunes : nat := 200.
Definition maxUsageModelRunes : nat := 200.
Definition maxCostUSD : float64 := GoNumber.ofDecimal false 999999999999 (-6).
Definition harnessCodex : string := "codex".

Inductive costStatus := Subscription | Metered | Unreported.
#[export] Instance costStatus_eq_dec : EqDecision costStatus.
Proof. solve_decision. Defined.
Definition costStatusText (s : costStatus) : string :=
  match s with Subscription => "subscription" | Metered => "metered" | Unreported => "unreported" end.
Inductive usageBasis := PerLeg | SessionCumulative.
#[export] Instance usageBasis_eq_dec : EqDecision usageBasis.
Proof. solve_decision. Defined.
Definition usageBasisSessionCumulative : string := "session_cumulative".

(** * Costs *)
Definition numericUSD (usd : float64) : Z :=
  let usd := if GoFloat.isNaN usd || GoFloat.ltb usd (GoFloat.ofZ 0) then GoFloat.ofZ 0
             else if GoFloat.ltb maxCostUSD usd then maxCostUSD else usd in
  match GoNumber.round (GoNumber.mul usd (GoFloat.ofZ 1000000)) with GoFloat.Int z => z | _ => 0 end.
Definition numericToFloat64 (micro : Z) : float64 := GoNumber.ofDecimal false micro (-6).

Definition costMarkerInvalid : string := "invalid-cost-status-type".
Definition resolveCostStatusMarker (raw : RawMessage) : string :=
  match raw with
  | None | Some JNull => EmptyString
  | Some (JStr s) => s
  | Some _ => costMarkerInvalid
  end.
(** [None] is [present == false]. *)
Definition resolveCostUSD (raw : RawMessage) : option float64 :=
  match raw with Some (JNum lit) => GoNumber.ParseFloat lit | _ => None end.

Definition deriveUsageCost (harness marker : string) (emitted : option float64) : costStatus * Z :=
  if negb (harness =?s harnessCodex)%go then (Metered, numericUSD (default (GoFloat.ofZ 0) emitted)) else
  if (marker =?s "subscription")%go then (Subscription, numericUSD (GoFloat.ofZ 0)) else
  if (marker =?s "metered")%go then
    match emitted with
    | Some usd =>
      if GoFloat.isNaN usd || GoFloat.isInf usd || GoFloat.ltb usd (GoFloat.ofZ 0) || GoFloat.ltb maxCostUSD usd
      then (Unreported, numericUSD (GoFloat.ofZ 0)) else (Metered, numericUSD usd)
    | None => (Unreported, numericUSD (GoFloat.ofZ 0))
    end
  else (Unreported, numericUSD (GoFloat.ofZ 0)).

Definition nonNegTokens (n : Z) : Z := if n <? 0 then 0 else n.

(** * Result frames *)
Definition decodeInt64 (v : json) (cur : Z) : Z * bool :=
  match v with
  | JNum lit => match Atoi lit with Some n => (n, false) | None => (cur, true) end
  | JNull => (cur, false)
  | _ => (cur, true)
  end.

Record resultModelUsage := mkResultUsage {
  mInput : Z; mOutput : Z; mCacheRead : Z; mCacheCreation : Z; mCostUSD : RawMessage; mCostStatus : RawMessage }.
Definition zeroUsage : resultModelUsage := mkResultUsage 0 0 0 0 None None.
Definition resultModelUsageFields : list string :=
  ["inputTokens"; "outputTokens"; "cacheReadInputTokens"; "cacheCreationInputTokens"; "costUSD"; "costStatus"].
Definition setResultModelUsage (n : string) (v : json) (u : resultModelUsage) : resultModelUsage * bool :=
  let '(mkResultUsage i o r c usd st) := u in
  if (n =?s "inputTokens")%go then let '(z, e) := decodeInt64 v i in (mkResultUsage z o r c usd st, e) else
  if (n =?s "outputTokens")%go then let '(z, e) := decodeInt64 v o in (mkResultUsage i z r c usd st, e) else
  if (n =?s "cacheReadInputTokens")%go then let '(z, e) := decodeInt64 v r in (mkResultUsage i o z c usd st, e) else
  if (n =?s "cacheCreationInputTokens")%go then let '(z, e) := decodeInt64 v c in (mkResultUsage i o r z usd st, e) else
  if (n =?s "costUSD")%go then (mkResultUsage i o r c (Some v) st, false) else
  (mkResultUsage i o r c usd (Some v), false).

Record resultUsagePayload := mkResultPayload { pEvent : string; pModelUsage : gmap string resultModelUsage; pUsageBasis : string }.
(** The elements of a map are decoded from their zero value; a second object is
    decoded into the same map. *)
Fixpoint decodeModels (kvs : list (string * json)) (m : gmap string resultModelUsage) (err : bool)
    : gmap string resultModelUsage * bool :=
  match kvs with
  | [] => (m, err)
  | (k, v) :: kvs' =>
    let '(u, e) := decodeStruct resultModelUsageFields setResultModelUsage v zeroUsage in
    decodeModels kvs' (<[k := u]> m) (err || e)
  end.
Definition setResultPayload (n : string) (v : json) (p : resultUsagePayload) : resultUsagePayload * bool :=
  let '(mkResultPayload ev m b) := p in
  if (n =?s "event")%go then let '(s, e) := decodeString v ev in (mkResultPayload s m b, e) else
  if (n =?s "modelUsage")%go then
    match v with
    | JObj kvs => let '(m', e) := decodeModels kvs m false in (mkResultPayload ev m' b, e)
    | JNull => (mkResultPayload ev ∅ b, false)
    | _ => (p, true)
    end
  else let '(s, e) := decodeString v b in (mkResultPayload ev m s, e).
Definition decodeResult (raw : RawMessage) : option resultUsagePayload :=
  let '(p, err) := Unmarshal ["event"; "modelUsage"; "usage_basis"] setResultPayload raw (mkResultPayload EmptyString ∅ EmptyString) in
  if err then None else Some p.

(** * Notes and summary passes *)
Record noteUsage := mkNoteUsage {
  nInput : Z; nOutput : Z; nCacheRead : Z; nCacheCreation : Z; nCache5m : option Z; nCache1h : option Z;
  nCostUSD : option float64; nCostStatus : string; nTier : string; nSpeed : string; nGeo : string;
}.
Record progressNotePayload := mkNote { Text : string; MilestoneID : string; NoteUsage : gmap string noteUsage }.
Record summaryUsagePayload := mkSummary { Pass : string; PassUsage : gmap string noteUsage }.
Inductive payload := Raw (doc : RawMessage) | Note (p : progressNotePayload) | Summary (p : summaryUsagePayload).

(** [map[string]json.RawMessage]; [None] is an error. *)
Definition decodeMap (raw : RawMessage) : option (gmap string json) :=
  match raw with
  | Some (JObj kvs) => Some (foldl (λ m kv, <[kv.1 := kv.2]> m) ∅ kvs)
  | Some JNull => Some ∅
  | _ => None
  end.
(** [json.Unmarshal(raw, &s)] into a variable that holds [cur]. *)
Definition intoString (raw : RawMessage) (cur : string) : option string :=
  match raw with
  | Some v => let '(s, e) := decodeString v cur in if e then None else Some s
  | None => None
  end.

Definition maxInt64 : Z := 2 ^ 63 - 1.
(** A finite non-negative number, truncated into an [int64]. *)
Definition tokensOf (v : float64) : Z :=
  match GoFloat.floor v with GoFloat.Int z => if 2 ^ 63 <=? z then maxInt64 else z | _ => 0 end.
Definition tolerantOptionalTokens (raw : RawMessage) : option Z :=
  match raw with
  | Some (JNum lit) =>
    v ← GoNumber.ParseFloat lit; if GoFloat.ltb v (GoFloat.ofZ 0) then None else Some (tokensOf v)
  | Some JNull => Some 0
  | _ => None
  end.
Definition tolerantTokens (raw : RawMessage) : Z := default 0 (tolerantOptionalTokens raw).
Definition cleanText (s : string) (n : nat) : string := truncateRunes (TrimSpace (Termsafe.Sanitize s)) n.
Definition tolerantMarker (raw : RawMessage) : string :=
  match intoString raw EmptyString with Some s => cleanText s maxProgressNoteMarkerRunes | None => EmptyString end.
Definition SanitizeProgressNoteText (s : string) : string := cleanText s MaxProgressNoteTextRunes.

Definition priceProgressNoteEntry (model : string) (mu : noteUsage) : costStatus * Z :=
  match AnthropicPrice.Price (AnthropicPrice.mkUsage model (nonNegTokens (nInput mu)) (nonNegTokens (nCacheRead mu))
          (nonNegTokens (nCacheCreation mu)) (nCache5m mu) (nCache1h mu) (nonNegTokens (nOutput mu))
          (nTier mu) (nSpeed mu) (nGeo mu)) with
  | Some c => (Metered, numericUSD (AnthropicPrice.USD c))
  | None => (Unreported, numericUSD (GoFloat.ofZ 0))
  end.
Definition resolveProgressNoteCost (harness model : string) (mu : noteUsage) : costStatus * Z :=
  if negb (harness =?s harnessCodex)%go && negb (bool_decide (is_Some (nCostUSD mu))) then priceProgressNoteEntry model mu
  else deriveUsageCost harness (nCostStatus mu) (nCostUSD mu).

Definition normalizeProgressNoteModelUsage (raw : json) (harness model : string) : option noteUsage :=
  f ← decodeMap (Some raw);
  let usd := u ← resolveCostUSD (f !! "costUSD");
    if negb (GoFloat.ltb u (GoFloat.ofZ 0)) && negb (GoFloat.ltb maxCostUSD u) then Some u else None in
  let marker := resolveCostStatusMarker (f !! "costStatus") in
  let marker := if (marker =?s costMarkerInvalid)%go then EmptyString else truncateRunes marker maxProgressNoteMarkerRunes in
  let mu := mkNoteUsage (tolerantTokens (f !! "inputTokens")) (tolerantTokens (f !! "outputTokens"))
    (tolerantTokens (f !! "cacheReadInputTokens")) (tolerantTokens (f !! "cacheCreationInputTokens"))
    (tolerantOptionalTokens (f !! "cacheCreation5mInputTokens")) (tolerantOptionalTokens (f !! "cacheCreation1hInputTokens"))
    usd marker (tolerantMarker (f !! "service_tier")) (tolerantMarker (f !! "speed")) (tolerantMarker (f !! "inference_geo")) in
  let '(status, micro) := resolveProgressNoteCost harness model mu in
  if (nInput mu =? 0) && (nOutput mu =? 0) && (nCacheRead mu =? 0) && (nCacheCreation mu =? 0) && negb (bool_decide (is_Some usd))
  then None
  else Some (mkNoteUsage (nInput mu) (nOutput mu) (nCacheRead mu) (nCacheCreation mu) (nCache5m mu) (nCache1h mu)
               (if bool_decide (status = Metered) then Some (numericToFloat64 micro) else None)
               (costStatusText status) (nTier mu) (nSpeed mu) (nGeo mu)).

Fixpoint keepModels (rawKeys : list string) (usage : gmap string json) (harness : string) (width : nat)
    (kept : gmap string noteUsage) : gmap string noteUsage :=
  match rawKeys with
  | [] => kept
  | rawKey :: rawKeys' =>
    let model := cleanText rawKey width in
    let kept' :=
      if (model =?s EmptyString)%go || bool_decide (is_Some (kept !! model)) then kept else
      match usage !! rawKey ≫= (λ raw, normalizeProgressNoteModelUsage raw harness model) with
      | Some mu => if (maxProgressNoteModels <=? size kept)%nat then kept else <[model := mu]> kept
      | None => kept
      end in
    keepModels rawKeys' usage harness width kept'
  end.
Definition normalizeModelUsageMap (usage : gmap string json) (harness prefix : string) : gmap string noteUsage :=
  keepModels (merge_sort keyLe (map_to_list usage).*1) usage harness (maxUsageModelRunes - String.length prefix) ∅.

(** The variable the text was read into is the one the milestone is read into. *)
Definition normalizeProgressNotePayload (raw : RawMessage) (harness : string) : progressNotePayload :=
  let in_ := default ∅ (decodeMap raw) in
  let text := intoString (in_ !! "text") EmptyString in
  let s := default EmptyString text in
  let milestone := intoString (in_ !! "milestone_id") s in
  mkNote (from_option SanitizeProgressNoteText EmptyString text)
    (from_option (λ m, cleanText m maxMilestoneIDRunes) EmptyString milestone)
    (from_option (λ u, normalizeModelUsageMap u harness progressNoteModelPrefix) ∅ (decodeMap (in_ !! "model_usage"))).

Definition summaryPasses : list string := ["intent"; "plan"; "pr_description"].
Definition normalizeSummaryUsagePayload (raw : RawMessage) (harness : string) : summaryUsagePayload :=
  let in_ := default ∅ (decodeMap raw) in
  mkSummary
    (match intoString (in_ !! "pass") EmptyString with
     | Some s => if bool_decide (s ∈ summaryPasses) then s else EmptyString
     | None => EmptyString
     end)
    (from_option (λ u, normalizeModelUsageMap u harness summaryPassModelPrefix) ∅ (decodeMap (in_ !! "model_usage"))).

End UsageFold.
