(* ===== verification/MessageDb.v ===== *)
(** The tables a run's messages go to: [run_messages], [run_usage] and the
    columns of [runs] the append path reads and writes, with its statements
    ([src/api/internal/store/runtime.sql.go]).

    The rows of [run_messages] and [run_usage] are grouped by run.  What PostgreSQL
    makes of a document is a parameter: the form [jsonb] keeps it in, and the
    numbers [numeric] has no room for, for which it refuses the document.  A
    transaction locks the run first, so that it is one step ([Txn]). *)

From S2P Require Import Prelude Result GoText GoStrings GoJson Txn UsageFold.

Local Open Scope Z_scope.

Module MessageDb.
Import GoJson UsageFold.

Class Jsonb := { jsonb : json → json; overflows : string → bool }.

(** A number that overflows, anywhere in a document. *)
Fixpoint outOfRange `{Jsonb} (v : json) : bool :=
  match v with
  | JNum lit => overflows lit
  | JArr l => existsb outOfRange l
  | JObj kvs => existsb (λ kv, outOfRange kv.2) kvs
  | _ => false
  end.

(** * Errors *)
Inductive error :=
  | ErrRunNotOwned
  | ErrMissingClaimGeneration
  | ErrStaleClaim
  | ErrInvalidMessage
  | ErrUnstorableMessage (code : string)
  | ErrNoRows
  | ErrCrossCheckRefused
  | errRunVanished
  | Sql (code : string).
#[export] Instance error_aborts : Txn.Aborts error := Sql "25P02".

(** * Rows *)
Record Run := mkRun {
  r_worker : option uuid; r_status : string; r_kind : string; r_harness : string; session_id : option string;
  last_seq : Z; last_activity_at : time; claim_generation : Z; claim_released : bool; egress_profile : bool;
  usage_refolded : bool; recovery_wait_cause : option string;
}.
Record Message := mkMessage {
  m_kind : string; m_agent : option string; m_instance : option string; m_label : option string;
  m_payload : payload; m_generation : option Z;
}.
Record Usage := mkUsageRow {
  input_tokens : Z; cache_read_tokens : Z; cache_creation_tokens : Z; output_tokens : Z;
  cost_usd : Z; harness : string; cost_status : costStatus; usage_basis : usageBasis; lineage_index : Z;
  u_generation : option Z;
}.
(** [session_id], [model], [lineage_epoch]. *)
Abbreviation usageKey := (string * string * Z)%type (only parsing).

Record DB := mkDB {
  workers : gset uuid;
  runs : gmap uuid Run;
  reconciled : gset uuid;       (* runs with a row in run_milestone_reconciliations *)
  messages : gmap uuid (gmap Z Message);
  usage : gmap uuid (gmap usageKey Usage);
}.
Definition messagesOf (db : DB) (run : uuid) : gmap Z Message := default ∅ (messages db !! run).
Definition usageOf (db : DB) (run : uuid) : gmap usageKey Usage := default ∅ (usage db !! run).
Definition setRun (db : DB) (id : uuid) (r : Run) : DB :=
  mkDB (workers db) (<[id := r]> (runs db)) (reconciled db) (messages db) (usage db).
Definition setMessages (db : DB) (id : uuid) (m : gmap Z Message) : DB :=
  mkDB (workers db) (runs db) (reconciled db) (<[id := m]> (messages db)) (usage db).
Definition setUsage (db : DB) (id : uuid) (m : gmap usageKey Usage) : DB :=
  mkDB (workers db) (runs db) (reconciled db) (messages db) (<[id := m]> (usage db)).
Definition withLastSeq (seq : Z) (at_ : time) (r : Run) : Run :=
  mkRun (r_worker r) (r_status r) (r_kind r) (r_harness r) (session_id r) seq at_ (claim_generation r) (claim_released r)
    (egress_profile r) (usage_refolded r) (recovery_wait_cause r).
Definition refolded (r : Run) : Run :=
  mkRun (r_worker r) (r_status r) (r_kind r) (r_harness r) (session_id r) (last_seq r) (last_activity_at r)
    (claim_generation r) (claim_released r) (egress_profile r) true (recovery_wait_cause r).

Abbreviation T := (Txn.T DB error) (only parsing).

(** * Ownership *)
Definition owned (db : DB) (id worker : uuid) : option Run :=
  r ← runs db !! id;
  if bool_decide (r_worker r = Some worker) && (negb (r_kind r =?s "cross_check")%go || (0 <? claim_generation r))
  then Some r else None.
Definition GetWorkerForUpdate (worker : uuid) : T unit :=
  Txn.stmt (λ db, if bool_decide (worker ∈ workers db) then Ok (tt, db) else Err ErrNoRows).
Definition GetRunOwnedByWorkerForUpdate (id worker : uuid) : T (option Run) := Txn.query (λ db, owned db id worker).
Definition GetRunOwnedByWorker (id worker : uuid) : T (option Run) := Txn.query (λ db, owned db id worker).
Definition reconciliationExists (id : uuid) : T bool := Txn.query (λ db, bool_decide (id ∈ reconciled db)).

(** * Messages *)
(** The fence: the claim is live and, when a generation is given, it is the
    claim's. *)
Definition generationLive (r : Run) (gen : option Z) : bool :=
  negb (claim_released r) && match gen with None => true | Some g => claim_generation r =? g end.
Definition runLive (db : DB) (id : uuid) (gen : option Z) : bool :=
  match runs db !! id with Some r => generationLive r gen | None => false end.

Definition stored `{Jsonb} (p : payload) : payload :=
  match p with Raw doc => Raw (jsonb <$> doc) | _ => p end.
(** Of the payloads those the server rebuilt hold no number of the worker's. *)
Definition refused `{Jsonb} (p : payload) : bool :=
  match p with Raw (Some doc) => outOfRange doc | _ => false end.

(** The payload is read when the statement is bound, before its fence. *)
Record InsertRunMessageRow := mkInserted { Inserted : bool; GenerationLive : bool }.
Record InsertRunMessageParams := mkInsertParams {
  a_kind : string; a_agent : option string; a_instance : option string; a_label : option string;
  a_payload : payload; a_generation : option Z;
}.
Definition storedRow `{Jsonb} (a : InsertRunMessageParams) : Message :=
  mkMessage (a_kind a) (a_agent a) (a_instance a) (a_label a) (stored (a_payload a)) (a_generation a).
Definition InsertRunMessage `{Jsonb} (id : uuid) (seq : Z) (a : InsertRunMessageParams) : T InsertRunMessageRow :=
  Txn.stmt (λ db,
    if refused (a_payload a) then Err (Sql "22003") else
    let live := runLive db id (a_generation a) in
    if live && bool_decide (messagesOf db id !! seq = None)
    then Ok (mkInserted true live, setMessages db id (<[seq := storedRow a]> (messagesOf db id)))
    else Ok (mkInserted false live, db)).

Definition UpdateRunLastSeq (id : uuid) (seq : Z) (gen : option Z) (quiet : bool) (now : time) : T Z :=
  Txn.stmt (λ db,
    match runs db !! id with
    | Some r =>
      if generationLive r gen
      then Ok (1, setRun db id (withLastSeq (Z.max (last_seq r) seq) (if quiet then last_activity_at r else now) r))
      else Ok (0, db)
    | None => Ok (0, db)
    end).

(** The status line the server writes itself when it readmits a held run. *)
Definition accountUnavailable : string := "codex_account_unavailable".
Definition maxSeq (ms : gmap Z Message) : Z :=
  match (map_to_list ms).*1 with [] => 0 | s :: l => foldr Z.max s l end.
Definition InsertCodexReadmitRunMessage `{Jsonb} (id : uuid) (doc : json) : T (option Z) :=
  Txn.stmt (λ db,
    if outOfRange doc then Err (Sql "22003") else
    match runs db !! id with
    | Some r =>
      if (r_status r =?s "recovery_wait")%go && bool_decide (recovery_wait_cause r = Some accountUnavailable) then
        let next := Z.max (last_seq r) (maxSeq (messagesOf db id)) + 1 in
        if 2 ^ 31 <=? next then Err (Sql "22003") else
        Ok (Some next, setRun (setMessages db id
              (<[next := mkMessage "status" None None None (stored (Raw (Some doc))) None]> (messagesOf db id))) id
              (withLastSeq next (last_activity_at r) r))
      else Ok (None, db)
    | None => Ok (None, db)
    end).

(** The numbers the server takes for the lines it writes under a claim. *)
Definition GetRunByIDForUpdate (id : uuid) : T (option Run) := Txn.query (λ db, runs db !! id).
Definition MaxRunMessageSeq (id : uuid) : T Z := Txn.query (λ db, maxSeq (messagesOf db id)).
Definition NextPlanCrossCheckMessageSeq (id : uuid) (gen : Z) : T (option Z) :=
  Txn.stmt (λ db,
    match runs db !! id with
    | Some r =>
      if (claim_generation r =? gen) && negb (claim_released r) && bool_decide (r_status r ∈ ["claimed"; "running"]) then
        let next := Z.max (last_seq r) (maxSeq (messagesOf db id)) + 1 in
        if 2 ^ 31 <=? next then Err (Sql "22003") else Ok (Some next, db)
      else Ok (None, db)
    | None => Ok (None, db)
    end).
Definition credentialSwitchMessageKind : string := "credential_switch".
Definition CountCredentialSwitchMessages (id : uuid) (gen : Z) : T Z :=
  Txn.query (λ db, Z.of_nat (size (filter
    (λ '(_, m), m_kind m = credentialSwitchMessageKind ∧ m_generation m = Some gen) (messagesOf db id)))).

(** [payload->>key]: of the values compared with a word only strings and
    booleans can be one. *)
Definition arrow (p : payload) (key : string) : option string :=
  match p with
  | Raw (Some (JObj kvs)) =>
    match snd <$> List.find (λ kv, (kv.1 =?s key)%go) (rev kvs) with
    | Some (JStr s) => Some s
    | Some (JBool b) => Some (if b then "true" else "false")
    | _ => None
    end
  | _ => None
  end.
Definition isInit (m : Message) : bool :=
  (m_kind m =?s "status")%go && bool_decide (arrow (m_payload m) "event" = Some "init").
Definition isRestart (m : Message) : bool :=
  isInit m && bool_decide (arrow (m_payload m) "fresh_session" = Some "true").

Definition initsBefore (ms : gmap Z Message) (seq : Z) : Z :=
  Z.of_nat (size (filter (λ '(s, m), isInit m = true ∧ s < seq) ms)).
Definition CountRunInitFramesBefore (id : uuid) (seq : Z) : T Z := Txn.query (λ db, initsBefore (messagesOf db id) seq).

(** After the run's first init. *)
Definition afterFirst (ms : gmap Z Message) (s : Z) : Prop :=
  map_Exists (λ s0 m0, isInit m0 = true ∧ s0 < s) ms.
Definition restartsBefore (ms : gmap Z Message) (seq : Z) : Z :=
  Z.of_nat (size (filter (λ '(s, m), isRestart m = true ∧ s < seq ∧ afterFirst ms s) ms)).
Definition CountRunLineageRestartsBefore (id : uuid) (seq : Z) : T Z := Txn.query (λ db, restartsBefore (messagesOf db id) seq).

(** * Usage *)
Definition mergeStatus (a b : costStatus) : costStatus := if bool_decide (a = b) then a else Unreported.
Definition mergeBasis (a b : usageBasis) : usageBasis :=
  match a, b with PerLeg, PerLeg => PerLeg | _, _ => SessionCumulative end.
Definition mergeUsage (old new : Usage) : Usage :=
  let status := mergeStatus (cost_status old) (cost_status new) in
  mkUsageRow (Z.max (input_tokens old) (input_tokens new)) (Z.max (cache_read_tokens old) (cache_read_tokens new))
    (Z.max (cache_creation_tokens old) (cache_creation_tokens new)) (Z.max (output_tokens old) (output_tokens new))
    (if bool_decide (status = Metered) then Z.max (cost_usd old) (cost_usd new) else 0)
    (harness old) status (mergeBasis (usage_basis old) (usage_basis new)) (lineage_index old)
    (match u_generation old with Some g => Some g | None => u_generation new end).
Definition upsert (us : gmap usageKey Usage) (k : usageKey) (u : Usage) : gmap usageKey Usage :=
  <[k := match us !! k with Some old => mergeUsage old u | None => u end]> us.

(** [numeric(12,6)] and the CHECK that only a metered row has a cost. *)
Definition usageOk (u : Usage) : result error unit :=
  if (10 ^ 12 <=? Z.abs (cost_usd u)) then Err (Sql "22003") else
  if negb (bool_decide (cost_status u = Metered)) && negb (cost_usd u =? 0) then Err (Sql "23514") else Ok tt.
Definition UpsertRunUsage (id : uuid) (k : usageKey) (u : Usage) : T unit :=
  Txn.stmt (λ db, _ ← usageOk u; Ok (tt, setUsage db id (upsert (usageOf db id) k u))).
Definition DeleteRunUsage (id : uuid) : T unit :=
  Txn.update (λ db, mkDB (workers db) (runs db) (reconciled db) (messages db) (delete id (usage db))).

(** The frames in the order of their numbers. *)
Definition frameLe (a b : Z * Message) : Prop := a.1 <= b.1.
#[export] Instance frameLe_dec a b : Decision (frameLe a b).
Proof. rewrite /frameLe. apply _. Defined.
Definition usageKinds : list string := ["status"; "error"; KindProgressNote; KindSummaryUsage].
Definition usageFrames (ms : gmap Z Message) : list (Z * Message) :=
  merge_sort frameLe (filter (λ '(_, m), m_kind m ∈ usageKinds) (map_to_list ms)).
Definition ListRunUsageFrames (id : uuid) : T (list (Z * Message)) := Txn.query (λ db, usageFrames (messagesOf db id)).
Definition MarkRunUsageRefolded (id : uuid) : T unit :=
  Txn.update (λ db, match runs db !! id with Some r => setRun db id (refolded r) | None => db end).

End MessageDb.
