(* ===== verification/MessageAppend.v ===== *)
(** Appending a worker's messages
    ([src/api/internal/workersvc/usage_fold.go], [usage_refold.go] and
    [beginClaimMutation] of [milestone_reconciliation.go]): the claim fence, the
    cleaning of a batch, its storage, the high-water mark, the fold of its usage
    and what the failure tracker is told.

    Modelled is the service with a transaction beginner, as it runs.  The stamps of
    the usage tail are a transaction of their own on other tables; their outcome is
    an argument.  Go visits the models of a frame in no fixed order; the rows they
    lead to are merged by maxima, so the order is not seen.

    The lines the server writes into a run's feed itself are here too: the event of
    a plan check ([cross_check.go]), the line of an applied credential switch
    ([secretchoice.go]), the note on a dropped model ([harness_create.go]) and the
    line of a re-admission ([codex_account_promote.go]).  Their documents are
    arguments. *)

From S2P Require Import Prelude Result GoText GoStrings GoJson GoFloat GoNumber Txn Sanitize UsageFold MessageDb PersistFail.

Local Open Scope Z_scope.

Module MessageAppend.
Import GoStrings GoJson UsageFold MessageDb.

Record IncomingMessage := mkIncoming {
  Seq : Z; Kind : string; Agent : string; AgentInstance : string; AgentLabel : string; Payload : payload;
  ClaimGeneration : option Z;
}.
Record Worker := mkWorker { w_ID : uuid; IsolatedLane : bool; ProtocolCapabilities : list string }.

Definition CredentialSwitchV1 : string := "credential_switch_v1".
Definition Chat : string := "chat".
Definition maxKindRunes : nat := 64.
Definition maxAgentRunes : nat := 64.
Definition maxAgentInstanceRunes : nat := 128.
Definition maxAgentLabelRunes : nat := 80.

(** * The usage fold *)
Definition maxInt32 : Z := 2 ^ 31 - 1.
Definition clampEpoch (n : Z) : Z := if (0 <=? n) && (n <=? maxInt32) then n else maxInt32.

Fixpoint upsertAll (id : uuid) (rows : list (usageKey * Usage)) : T unit :=
  match rows with
  | [] => mret tt
  | (k, u) :: rows' => _ ← UpsertRunUsage id k u; upsertAll id rows'
  end.

Definition resultRow (run : Run) (basis : usageBasis) (lineage : Z) (gen : option Z) (mu : resultModelUsage) : Usage :=
  let '(status, cost) := deriveUsageCost (r_harness run) (resolveCostStatusMarker (mCostStatus mu)) (resolveCostUSD (mCostUSD mu)) in
  mkUsageRow (nonNegTokens (mInput mu)) (nonNegTokens (mCacheRead mu)) (nonNegTokens (mCacheCreation mu)) (nonNegTokens (mOutput mu))
    cost (r_harness run) status basis lineage gen.
Definition resultRows (run : Run) (session : string) (epoch lineage : Z) (gen : option Z) (p : resultUsagePayload)
    : list (usageKey * Usage) :=
  let basis := if (pUsageBasis p =?s usageBasisSessionCumulative)%go && negb (r_harness run =?s harnessCodex)%go
               then SessionCumulative else PerLeg in
  '(model, mu) ← map_to_list (pModelUsage p);
  if (model =?s EmptyString)%go then [] else
  [((session, truncateRunes model maxUsageModelRunes, epoch), resultRow run basis lineage gen mu)].

Definition foldPrefixedModelUsage (run : Run) (session : string) (seq : Z) (gen : option Z) (prefix : string)
    (usage : gmap string noteUsage) : list (usageKey * Usage) :=
  '(model, mu) ← map_to_list usage;
  if (model =?s EmptyString)%go then [] else
  let '(status, cost) := resolveProgressNoteCost (r_harness run) model mu in
  [((session, truncateRunes (prefix +:+ model) maxUsageModelRunes, seq),
    mkUsageRow (nonNegTokens (nInput mu)) (nonNegTokens (nCacheRead mu)) (nonNegTokens (nCacheCreation mu)) (nonNegTokens (nOutput mu))
      cost (r_harness run) status PerLeg 0 gen)].

(** A payload of one of these two kinds has been rebuilt by the server. *)
Definition foldProgressNoteUsage (id : uuid) (run : Run) (session : string) (m : IncomingMessage) : T unit :=
  match Payload m with
  | Note p => upsertAll id (foldPrefixedModelUsage run session (Seq m) (ClaimGeneration m) progressNoteModelPrefix (NoteUsage p))
  | _ => mret tt
  end.
Definition foldSummaryUsage (id : uuid) (run : Run) (session : string) (m : IncomingMessage) : T unit :=
  match Payload m with
  | Summary p => upsertAll id (foldPrefixedModelUsage run session (Seq m) (ClaimGeneration m) summaryPassModelPrefix (PassUsage p))
  | _ => mret tt
  end.

(** The usage of a result frame, if the message is one. *)
Definition resultFrame (kind : string) (p : payload) : option resultUsagePayload :=
  if negb (kind =?s "status")%go && negb (kind =?s "error")%go then None else
  match p with
  | Raw doc =>
    p ← decodeResult doc;
    if negb (pEvent p =?s "result")%go || bool_decide (pModelUsage p = ∅) then None else Some p
  | _ => None
  end.

Definition foldFrame (id : uuid) (run : Run) (session : string) (m : IncomingMessage) : T unit :=
  if (Kind m =?s KindProgressNote)%go then foldProgressNoteUsage id run session m else
  if (Kind m =?s KindSummaryUsage)%go then foldSummaryUsage id run session m else
  match resultFrame (Kind m) (Payload m) with
  | None => mret tt
  | Some p =>
    legCount ← CountRunInitFramesBefore id (Seq m);
    restartCount ← CountRunLineageRestartsBefore id (Seq m);
    upsertAll id (resultRows run session (clampEpoch legCount) (clampEpoch restartCount) (ClaimGeneration m) p)
  end.
Fixpoint foldFrames (id : uuid) (run : Run) (session : string) (frames : list IncomingMessage) : T unit :=
  match frames with
  | [] => mret tt
  | m :: frames' => _ ← foldFrame id run session m; foldFrames id run session frames'
  end.
Definition usageSession (run : Run) : string := truncateRunes (default EmptyString (session_id run)) maxUsageSessionRunes.
Definition foldUsageFrames (id : uuid) (run : Run) (frames : list IncomingMessage) : T unit :=
  if (r_kind run =?s Chat)%go then mret tt else foldFrames id run (usageSession run) frames.

(** * Refolding a run from its stored frames *)
Definition ofRow (row : Z * Message) : IncomingMessage :=
  let '(seq, m) := row in
  mkIncoming seq (m_kind m) (default EmptyString (m_agent m)) (default EmptyString (m_instance m))
    (default EmptyString (m_label m)) (m_payload m) (m_generation m).
Definition refoldTx (id : uuid) (run : Run) : T unit :=
  _ ← DeleteRunUsage id;
  rows ← ListRunUsageFrames id;
  _ ← foldUsageFrames id run (ofRow <$> rows);
  _ ← MarkRunUsageRefolded id;
  Txn.Commit.
Definition RefoldRunUsage (id : uuid) (run : Run) (fs : list (Txn.fault error)) (db : DB) : result error unit * DB :=
  Txn.inTx (refoldTx id run) fs db.

(** * The claim fence *)
Definition validateReconciledGeneration (r : Run) (g : option Z) : result error unit :=
  match g with
  | None => Err ErrMissingClaimGeneration
  | Some g =>
    if g <=? 0 then Err ErrMissingClaimGeneration else
    if negb (g =? claim_generation r) || claim_released r then Err ErrStaleClaim else Ok tt
  end.
Definition lift {A} (r : result error A) : T A := match r with Ok a => mret a | Err e => Txn.throw e end.
Definition beginClaimMutation (w : Worker) (id : uuid) (g : option Z) : T Run :=
  _ ← Txn.query (λ _, tt);           (* SET TRANSACTION ISOLATION LEVEL READ COMMITTED *)
  _ ← GetWorkerForUpdate (w_ID w);
  found ← GetRunOwnedByWorkerForUpdate id (w_ID w);
  match found with
  | None => Txn.throw ErrRunNotOwned
  | Some r =>
    seen ← reconciliationExists id;
    _ ← (if (seen : bool) then lift (validateReconciledGeneration r g) else mret tt);
    mret r
  end.

Definition laneMismatch (run : Run) (w : Worker) : bool := negb (Bool.eqb (egress_profile run) (IsolatedLane w)).
Definition ownedRunOrRefusal (w : Worker) (found : option Run) : result error Run :=
  match found with
  | None => Err ErrRunNotOwned
  | Some run =>
    if ((r_kind run =?s "cross_check")%go && (claim_generation run =? 0)) || laneMismatch run w
    then Err ErrRunNotOwned else Ok run
  end.
Definition runOwnedByWorker (w : Worker) (id : uuid) : T Run :=
  found ← GetRunOwnedByWorker id (w_ID w); lift (ownedRunOrRefusal w found).

(** * Cleaning a batch *)
Definition strip (s : string) : string := fst (Sanitize.stripNUL s).
Definition invalidMessage (m : IncomingMessage) : bool :=
  (Seq m <=? 0) || (Kind m =?s EmptyString)%go || (Kind m =?s "cross_check")%go
  || match Payload m with Raw None => true | _ => false end
  || (strip (Kind m) =?s EmptyString)%go || (strip (Kind m) =?s "cross_check")%go.

(** The document of a payload whose NULs were dropped ([Sanitize]). *)
Fixpoint stripDoc (v : json) : json :=
  match v with
  | JStr s => JStr (strip s)
  | JArr l => JArr (map stripDoc l)
  | JObj kvs => JObj (map (λ kv, (strip (fst kv), stripDoc (snd kv))) kvs)
  | _ => v
  end.
Definition stripPayload (p : payload) : payload := match p with Raw doc => Raw (stripDoc <$> doc) | _ => p end.
Definition rawOf (p : payload) : RawMessage := match p with Raw doc => doc | _ => None end.

Definition cleanMessage (run : Run) (m : IncomingMessage) : IncomingMessage :=
  let kind := truncateRunes (strip (Kind m)) maxKindRunes in
  let doc := stripPayload (Payload m) in
  let doc := if (kind =?s KindProgressNote)%go then Note (normalizeProgressNotePayload (rawOf doc) (r_harness run)) else doc in
  let doc := if (kind =?s KindSummaryUsage)%go then Summary (normalizeSummaryUsagePayload (rawOf doc) (r_harness run)) else doc in
  mkIncoming (Seq m) kind (truncateRunes (strip (Agent m)) maxAgentRunes)
    (truncateRunes (strip (AgentInstance m)) maxAgentInstanceRunes) (truncateRunes (strip (AgentLabel m)) maxAgentLabelRunes)
    doc (ClaimGeneration m).

Definition onlyUsageSideChannel (msgs : list IncomingMessage) : bool :=
  match msgs with
  | [] => false
  | _ => forallb (λ m, (Kind m =?s KindProgressNote)%go || (Kind m =?s KindSummaryUsage)%go) msgs
  end.

(** * Storing it *)
Record appendObservation := mkObs { o_generation : Z; resolved : bool; o_status : string; o_lastSeq : Z }.
Definition noObservation : appendObservation := mkObs 0 false EmptyString 0.

Definition unstorableSQLSTATEs : list string := ["22P05"; "22P02"; "22021"; "22003"].
Definition classifyStoreError (e : error) : error :=
  match e with
  | Sql code => if bool_decide (code ∈ unstorableSQLSTATEs) then ErrUnstorableMessage code else e
  | _ => e
  end.

Section Append.
Context `{Jsonb}.

Definition textOrNull (s : string) : option string := if (s =?s EmptyString)%go then None else Some s.
Definition paramsOf (gen : option Z) (m : IncomingMessage) : InsertRunMessageParams :=
  mkInsertParams (Kind m) (textOrNull (Agent m)) (textOrNull (AgentInstance m)) (textOrNull (AgentLabel m)) (Payload m) gen.
Definition rowOf (gen : option Z) (m : IncomingMessage) : Message := storedRow (paramsOf gen m).

(** How the insert loop ends: the highest number stored, what was new, and the
    error that broke it. *)
Record insertions := mkInsertions { maxStored : Z; inserted : list IncomingMessage; insertErr : option error }.
Fixpoint insertLoop (id : uuid) (gen : option Z) (msgs : list IncomingMessage) (acc : insertions) : T insertions :=
  match msgs with
  | [] => mret acc
  | m :: msgs' =>
    res ← Txn.attempt (InsertRunMessage id (Seq m) (paramsOf gen m));
    match res with
    | Err e => mret (mkInsertions (maxStored acc) (inserted acc) (Some (classifyStoreError e)))
    | Ok res =>
      if bool_decide (is_Some gen) && negb (GenerationLive res) then Txn.throw ErrStaleClaim else
      insertLoop id gen msgs'
        (mkInsertions (Z.max (maxStored acc) (Seq m)) (if Inserted res then inserted acc ++ [m] else inserted acc) None)
    end
  end.

(** After the inserts: the high-water mark, then the usage.  An insert that
    failed is the more informative error. *)
Definition stampGen (gen : option Z) (m : IncomingMessage) : IncomingMessage :=
  mkIncoming (Seq m) (Kind m) (Agent m) (AgentInstance m) (AgentLabel m) (Payload m) gen.
Definition afterInserts (id : uuid) (run : Run) (gen : option Z) (msgs : list IncomingMessage) (now : time) (ins : insertions)
    : T (result error (list IncomingMessage)) :=
  marked ← (if last_seq run <? maxStored ins
            then Txn.attempt (UpdateRunLastSeq id (maxStored ins) gen (onlyUsageSideChannel msgs) now) else mret (Ok 0));
  match insertErr ins, marked with
  | Some e, _ => mret (Err e)
  | None, Err e => mret (Err e)
  | None, Ok _ =>
    folded ← Txn.attempt (foldUsageFrames id run (stampGen gen <$> msgs));
    mret (match folded with Err e => Err e | Ok _ => Ok (inserted ins) end)
  end.

(** The generation the fence compares. *)
Definition effective (run : Run) (claimGen : option Z) : option Z :=
  if (r_kind run =?s Chat)%go && (claim_generation run =? 0) then None else claimGen.

(** With the observation to record, whatever the outcome. *)
Definition appendMessagesLocked (w : Worker) (id : uuid) (msgs : list IncomingMessage) (claimGen : option Z) (now : time)
    : T (appendObservation * result error (list IncomingMessage)) :=
  found ← Txn.attempt (runOwnedByWorker w id);
  match found with
  | Err e => mret (noObservation, Err e)
  | Ok run =>
    let obs := mkObs (claim_generation run) true (r_status run) (last_seq run) in
    let gen := effective run claimGen in
    if bool_decide (gen = None) && negb (r_kind run =?s Chat)%go && bool_decide (CredentialSwitchV1 ∈ ProtocolCapabilities w)
    then mret (obs, Err ErrMissingClaimGeneration) else
    if existsb invalidMessage msgs then mret (obs, Err ErrInvalidMessage) else
    let msgs := cleanMessage run <$> msgs in
    ins ← Txn.attempt (insertLoop id gen msgs (mkInsertions 0 [] None));
    match ins with
    | Err e => mret (obs, Err e)
    | Ok ins =>
      let obs := mkObs (claim_generation run) true (r_status run) (Z.max (last_seq run) (maxStored ins)) in
      out ← afterInserts id run gen msgs now ins;
      mret (obs, out)
    end
  end.

Definition appendTx (w : Worker) (id : uuid) (msgs : list IncomingMessage) (claimGen : option Z) (now : time)
    : T (appendObservation * result error (list IncomingMessage)) :=
  _ ← beginClaimMutation w id claimGen;
  out ← appendMessagesLocked w id msgs claimGen now;
  match out with
  | (obs, Err e) => mret (obs, Err e)
  | (obs, Ok new) =>
    c ← Txn.attempt Txn.Commit;
    mret (obs, match c with Ok _ => Ok new | Err e => Err e end)
  end.

(** What [appendMessages] answers and publishes: [stamps] is the outcome of the
    usage-tail stamps that follow the commit. *)
Record appendOutcome := mkOutcome { obs : appendObservation; answer : result error unit; published : list IncomingMessage }.
Definition appendMessages (w : Worker) (id : uuid) (msgs : list IncomingMessage) (claimGen : option Z) (now : time)
    (stamps : result error unit) (fs : list (Txn.fault error)) (db : DB) : appendOutcome * DB :=
  match Txn.inTx (appendTx w id msgs claimGen now) fs db with
  | (Err e, db') => (mkOutcome noObservation (Err e) [], db')
  | (Ok (o, Err e), db') => (mkOutcome o (Err e) [], db')
  | (Ok (o, Ok new), db') =>
    match stamps with
    | Err e => (mkOutcome o (Err e) [], db')
    | Ok _ => (mkOutcome o (Ok tt) new, db')
    end
  end.

(** * The lines the server writes *)
Definition wrap32 (z : Z) : Z := (z + 2 ^ 31) mod 2 ^ 32 - 2 ^ 31.
Definition serverLine (seq : Z) (kind : string) (doc : json) : IncomingMessage :=
  mkIncoming seq kind EmptyString EmptyString EmptyString (Raw (Some doc)) None.
Definition lineAt (seq : option Z) (kind : string) (doc : json) : list IncomingMessage :=
  match seq with Some seq => [serverLine seq kind doc] | None => [] end.
(** What is published: the line, when the transaction is known to be committed. *)
Definition announced (r : result error (option Z)) (kind : string) (doc : json) : list IncomingMessage :=
  match r with Ok seq => lineAt seq kind doc | Err _ => [] end.

(** ** The event of a plan check *)
Record CrossCheck := mkCrossCheck { cc_LeadRunID : uuid; cc_LeadClaimGeneration : Z; cc_Verdict : string }.
Definition maxEventAttempts : nat := 32.
Fixpoint insertEvent (attempts : nat) (id : uuid) (gen : Z) (doc : json) : T Z :=
  match attempts with
  | O => Txn.throw ErrCrossCheckRefused
  | S attempts' =>
    next ← NextPlanCrossCheckMessageSeq id gen;
    match next with
    | None => Txn.throw ErrNoRows
    | Some seq =>
      result ← InsertRunMessage id seq (paramsOf (Some gen) (serverLine seq "cross_check" doc));
      if negb (GenerationLive result) then Txn.throw ErrCrossCheckRefused else
      if Inserted result then mret seq else insertEvent attempts' id gen doc
    end
  end.
Definition appendPlanCrossCheckEvent (lead : uuid) (generation : Z) (cc : CrossCheck) (doc : json) (now : time) : T Z :=
  if negb (bool_decide (cc_LeadRunID cc = lead)) || negb (cc_LeadClaimGeneration cc =? generation) || (cc_Verdict cc =?s "pending")%go
  then Txn.throw ErrCrossCheckRefused else
  seq ← insertEvent maxEventAttempts lead generation doc;
  advanced ← UpdateRunLastSeq lead seq (Some generation) false now;
  if advanced =? 1 then mret seq else Txn.throw ErrCrossCheckRefused.
(** The transactions that end with it: the poll, the verdict and the recovery of a
    claim.  Their other statements are on other rows. *)
Definition crossCheckTx (lead : uuid) (generation : Z) (cc : CrossCheck) (doc : json) (now : time) : T (option Z) :=
  seq ← appendPlanCrossCheckEvent lead generation cc doc now; _ ← Txn.Commit; mret (Some seq).

(** ** The line of a credential switch *)
Definition maxSwitchSeqAttempts : nat := 32.
(** The mark to adopt, and the number of the line if one was written. *)
Fixpoint insertSwitch (attempts : nat) (id : uuid) (gen : Z) (doc : json) (startLastSeq : Z) (now : time) (seq : Z) : T (Z * option Z) :=
  match attempts with
  | O =>
    maxSeq ← MaxRunMessageSeq id;
    let newLast := if maxSeq <? startLastSeq then startLastSeq else maxSeq in
    _ ← UpdateRunLastSeq id newLast (Some gen) false now;
    mret (newLast, None)
  | S attempts' =>
    res ← InsertRunMessage id seq (paramsOf (Some gen) (serverLine seq credentialSwitchMessageKind doc));
    if Inserted res then
      _ ← UpdateRunLastSeq id seq (Some gen) false now;
      mret (seq, Some seq)
    else
      maxSeq ← MaxRunMessageSeq id;
      insertSwitch attempts' id gen doc startLastSeq now (wrap32 (maxSeq + 1))
  end.
Definition insertCredentialSwitchMessage (id : uuid) (gen : Z) (doc : json) (startLastSeq : Z) (now : time) : T (Z * option Z) :=
  n ← CountCredentialSwitchMessages id gen;
  if 0 <? n then mret (startLastSeq, None) else
  insertSwitch maxSwitchSeqAttempts id gen doc startLastSeq now (wrap32 (startLastSeq + 1)).
(** [switched]: the epoch before this claim names another token.  The credential
    and the epoch are written to other tables. *)
Definition recordRunCredentialTx (id : uuid) (gen : Z) (switched : bool) (doc : json) (now : time) : T (Z * option Z) :=
  found ← GetRunByIDForUpdate id;
  match found with
  | None => Txn.throw errRunVanished
  | Some locked =>
    if negb (claim_generation locked =? gen) || claim_released locked then Txn.throw errRunVanished else
    line ← (if switched && negb (r_kind locked =?s "self_improve")%go then insertCredentialSwitchMessage id gen doc (last_seq locked) now
            else mret (last_seq locked, None));
    _ ← Txn.Commit;
    mret line
  end.

(** ** The note on a dropped model *)
(** Two statements, each on its own: the insert, then the mark.  [fallbackInsert]
    answers the note when it was stored and its mark is due; [fallbackMark] what is
    published. *)
Definition harnessModelFallbackKind : string := "harness_model_fallback".
Definition fallbackInsert (id : uuid) (gen startLastSeq : Z) (doc : json) (fs : list (Txn.fault error)) (db : DB)
    : option IncomingMessage * DB :=
  let note := serverLine (wrap32 (startLastSeq + 1)) harnessModelFallbackKind doc in
  let '(res, db') := Txn.inTx (res ← InsertRunMessage id (Seq note) (paramsOf (Some gen) note); _ ← Txn.Commit; mret res) fs db in
  (match res with Ok res => if Inserted res then Some note else None | Err _ => None end, db').
Definition fallbackMark (id : uuid) (gen : Z) (note : IncomingMessage) (now : time) (fs : list (Txn.fault error)) (db : DB)
    : list IncomingMessage * DB :=
  let '(res, db') := Txn.inTx (n ← UpdateRunLastSeq id (Seq note) (Some gen) false now; _ ← Txn.Commit; mret n) fs db in
  (match res with Ok _ => [note] | Err _ => [] end, db').
(** Undisturbed: the mark the claim is told, and what is published. *)
Definition recordHarnessModelFallbackNote (id : uuid) (gen startLastSeq : Z) (doc : json) (now : time)
    (fs fs' : list (Txn.fault error)) (db : DB) : Z * list IncomingMessage * DB :=
  match fallbackInsert id gen startLastSeq doc fs db with
  | (None, db') => (startLastSeq, [], db')
  | (Some note, db') =>
    let '(pub, db'') := fallbackMark id gen note now fs' db' in
    (match pub with [] => startLastSeq | _ => Seq note end, pub, db'')
  end.

(** ** The line of a re-admission *)
Definition readmitTx (id : uuid) (doc : json) : T (option Z) :=
  seq ← InsertCodexReadmitRunMessage id doc;
  match seq with
  | None => Txn.throw ErrNoRows
  | Some seq => _ ← Txn.Commit; mret (Some seq)
  end.
End Append.

(** * What the failure tracker is told *)
Definition appendErrorOf (e : error) : PersistFail.appendError :=
  PersistFail.mkAppendError (match e with ErrUnstorableMessage _ => true | _ => false end)
    (match e with ErrInvalidMessage => true | _ => false end).
Definition recordAppendObservation (w : Worker) (id : uuid) (o : appendObservation) (err : result error unit) (now : time)
    (fs : list (Txn.fault error)) (db : DB) : option PersistFail.op :=
  if negb (resolved o) || match err with Err ErrMissingClaimGeneration | Err ErrStaleClaim => true | _ => false end then None else
  match fst (Txn.inTx (beginClaimMutation w id (Some (o_generation o))) fs db) with
  | Err _ => None
  | Ok run =>
    if negb (claim_generation run =? o_generation o) || claim_released run then None else
    if negb (r_status run =?s "running")%go then Some (PersistFail.OEvict id (Some (o_generation o))) else
    match err with
    | Ok _ => Some (PersistFail.OSuccess id now (Some (o_generation o)))
    | Err e =>
      Some (PersistFail.OFailure id (PersistFail.classifyPersistFail (Some (appendErrorOf e))) (o_lastSeq o) now (Some (o_generation o)))
    end
  end.
Definition NoteOversizeBatch (w : Worker) (id : uuid) (now : time) (fs : list (Txn.fault error)) (db : DB) : option PersistFail.op :=
  match fst (Txn.inTx (beginClaimMutation w id None) fs db) with
  | Err _ => None
  | Ok run =>
    if claim_released run then None else
    if negb (r_status run =?s "running")%go then Some (PersistFail.OEvict id (Some (claim_generation run))) else
    Some (PersistFail.OFailure id PersistFail.persistFailOversize (last_seq run) now (Some (claim_generation run)))
  end.

End MessageAppend.
