(* ===== verification/MessageInv.v ===== *)
(** What appending messages guarantees ([MessageAppend]): a message is stored
    once and published at most once, the high-water mark is exact, an old claim
    stores nothing, and the usage of a run is what its stored frames say. *)

From S2P Require Import Prelude Result GoText GoStrings GoJson GoFloat GoNumber Txn Sanitize UsageFold MessageDb PersistFail MessageAppend.

Local Open Scope Z_scope.

Module MessageInv.
Import Txn GoStrings GoJson UsageFold MessageDb MessageAppend.

(** * The effect of a transaction *)
Definition upserts (us : gmap usageKey Usage) (rows : list (usageKey * Usage)) : gmap usageKey Usage :=
  foldl (λ us kv, upsert us kv.1 kv.2) us rows.

(** The rows a frame leads to, when the messages of the run are [ms]. *)
Definition frameRows (run : Run) (ms : gmap Z Message) (m : IncomingMessage) : list (usageKey * Usage) :=
  let session := usageSession run in
  if (r_kind run =?s Chat)%go then [] else
  if (Kind m =?s KindProgressNote)%go then
    match Payload m with
    | Note p => foldPrefixedModelUsage run session (Seq m) (ClaimGeneration m) progressNoteModelPrefix (NoteUsage p)
    | _ => []
    end else
  if (Kind m =?s KindSummaryUsage)%go then
    match Payload m with
    | Summary p => foldPrefixedModelUsage run session (Seq m) (ClaimGeneration m) summaryPassModelPrefix (PassUsage p)
    | _ => []
    end else
  match resultFrame (Kind m) (Payload m) with
  | None => []
  | Some p => resultRows run session (clampEpoch (initsBefore ms (Seq m))) (clampEpoch (restartsBefore ms (Seq m))) (ClaimGeneration m) p
  end.

(** The tables but for the usage of a run. *)
Record usageOnly (id : uuid) (db db' : DB) : Prop := mkUsageOnly {
  uo_workers : workers db' = workers db; uo_runs : runs db' = runs db; uo_reconciled : reconciled db' = reconciled db;
  uo_messages : messages db' = messages db; uo_usage : ∀ id', id' ≠ id → usageOf db' id' = usageOf db id' }.
Lemma usageOnly_refl id db : usageOnly id db db.
Proof. done. Qed.
Lemma usageOnly_trans id a b c : usageOnly id a b → usageOnly id b c → usageOnly id a c.
Proof. intros [] []. split; try congruence. intros id' Hne. rewrite -> uo_usage1, uo_usage0 by done. done. Qed.

Lemma usageOf_set db id m id' : usageOf (setUsage db id m) id' = if bool_decide (id' = id) then m else usageOf db id'.
Proof.
  rewrite /usageOf /=. case_bool_decide as E; [subst; by rewrite lookup_insert_eq|by rewrite lookup_insert_ne].
Qed.
Lemma messagesOf_set db id m id' : messagesOf (setMessages db id m) id' = if bool_decide (id' = id) then m else messagesOf db id'.
Proof.
  rewrite /messagesOf /=. case_bool_decide as E; [subst; by rewrite lookup_insert_eq|by rewrite lookup_insert_ne].
Qed.

Lemma messagesOf_setRun db id r i : messagesOf (setRun db id r) i = messagesOf db i.
Proof. done. Qed.

Lemma upserts_app us a b : upserts us (a ++ b) = upserts (upserts us a) b.
Proof. apply foldl_app. Qed.
Lemma messagesOf_usageOnly id db db' : usageOnly id db db' → ∀ i, messagesOf db' i = messagesOf db i.
Proof. intros Hu i. by rewrite /messagesOf (uo_messages _ _ _ Hu). Qed.

(** A step of a transaction that leaves the tables in [R]. *)
Definition does {A} (R : A → DB → DB → Prop) (m : T A) : Prop := ∀ t, aborted t = false →
  T_wp m (λ r t', committed t' = committed t ∧
    match r with Ok a => aborted t' = false ∧ R a (work t) (work t') | Err _ => True end) t.

Lemma does_bind {A B} (R : A → DB → DB → Prop) (S : A → B → DB → DB → Prop) (Q : B → DB → DB → Prop) (m : T A) (f : A → T B) :
  does R m → (∀ a, does (S a) (f a)) → (∀ a b x y z, R a x y → S a b y z → Q b x z) → does Q (m ≫= f).
Proof.
  intros Hm Hf Hq t Ht. apply wp_T_bind. eapply wp_T_mono; [by apply Hm|]. intros [a|e] t' [Hc Hr]; [|done].
  destruct Hr as [Ha Hr]. eapply wp_T_mono; [by apply (Hf a)|]. intros [b|e] t'' [Hc' Hr']; (split; [congruence|]); [|done].
  destruct Hr' as [? ?]. eauto.
Qed.
Lemma does_ret {A} (R : A → DB → DB → Prop) a : (∀ db, R a db db) → does R (mret a).
Proof. intros HR t Ht. apply wp_T_ret. done. Qed.
Lemma does_stmt {A} (R : A → DB → DB → Prop) f : (∀ db a db', f db = Ok (a, db') → R a db db') → does R (Txn.stmt f).
Proof. intros HR t Ht. apply wp_T_stmt; [|done]. intros _ a db fs Hf. simpl. eauto. Qed.
Lemma does_query {A} (f : DB → A) : does (λ a db db', db' = db ∧ a = f db) (query f).
Proof. apply does_stmt. by intros db a db' [= <- <-]. Qed.

Lemma does_upsertAll id rows :
  does (λ _ db db', usageOnly id db db' ∧ usageOf db' id = upserts (usageOf db id) rows) (upsertAll id rows).
Proof.
  induction rows as [|[k u] rows IH]; simpl; [by apply does_ret|].
  apply (does_bind (λ _ db db', usageOnly id db db' ∧ usageOf db' id = upsert (usageOf db id) k u)
           (λ _ _ db db', usageOnly id db db' ∧ usageOf db' id = upserts (usageOf db id) rows)).
  - apply does_stmt. intros db a db'. destruct (usageOk u); [|done]. intros [= <- <-].
    split; [|by rewrite usageOf_set bool_decide_eq_true_2]. split; try done. intros id' Hne. by rewrite usageOf_set bool_decide_eq_false_2.
  - done.
  - intros _ _ x y z [H1 E1] [H2 E2]. split; [by eapply usageOnly_trans|]. by rewrite E2 E1.
Qed.

Lemma does_foldFrame id run m : (r_kind run =?s Chat)%go = false →
  does (λ _ db db', usageOnly id db db' ∧ usageOf db' id = upserts (usageOf db id) (frameRows run (messagesOf db id) m))
    (foldFrame id run (usageSession run) m).
Proof.
  intros Hk. rewrite /foldFrame /frameRows Hk.
  destruct (Kind m =?s KindProgressNote)%go.
  { rewrite /foldProgressNoteUsage. destruct (Payload m); [by apply does_ret|apply does_upsertAll|by apply does_ret]. }
  destruct (Kind m =?s KindSummaryUsage)%go.
  { rewrite /foldSummaryUsage. destruct (Payload m); [by apply does_ret|by apply does_ret|apply does_upsertAll]. }
  destruct (resultFrame _ _) as [p|]; [|by apply does_ret].
  apply (does_bind (λ n db db', db' = db ∧ n = initsBefore (messagesOf db id) (Seq m))
    (λ n _ db db', usageOnly id db db' ∧ usageOf db' id = upserts (usageOf db id)
       (resultRows run (usageSession run) (clampEpoch n) (clampEpoch (restartsBefore (messagesOf db id) (Seq m))) (ClaimGeneration m) p))).
  - apply does_query.
  - intros n. apply (does_bind (λ k db db', db' = db ∧ k = restartsBefore (messagesOf db id) (Seq m))
      (λ k _ db db', usageOnly id db db' ∧ usageOf db' id = upserts (usageOf db id)
         (resultRows run (usageSession run) (clampEpoch n) (clampEpoch k) (ClaimGeneration m) p))).
    + apply does_query.
    + intros k. apply does_upsertAll.
    + by intros k _ x y z [-> ->].
  - by intros n _ x y z [-> ->].
Qed.

Lemma does_foldUsageFrames id run ms :
  does (λ _ db db', usageOnly id db db' ∧ usageOf db' id = upserts (usageOf db id) (ms ≫= frameRows run (messagesOf db id)))
    (foldUsageFrames id run ms).
Proof.
  rewrite /foldUsageFrames. destruct (r_kind run =?s Chat)%go eqn:Hk.
  { apply does_ret. intros db. split; [done|].
    assert (∀ l, (l ≫= frameRows run (messagesOf db id)) = []) as ->; [|done].
    intros l. induction l as [|x l IH]; [done|]. rewrite bind_cons IH /frameRows Hk. done. }
  induction ms as [|m ms IH]; [by apply does_ret|].
  apply (does_bind (λ _ db db', usageOnly id db db' ∧ usageOf db' id = upserts (usageOf db id) (frameRows run (messagesOf db id) m))
    (λ _ _ db db', usageOnly id db db' ∧ usageOf db' id = upserts (usageOf db id) (ms ≫= frameRows run (messagesOf db id)))).
  - by apply does_foldFrame.
  - done.
  - intros _ _ x y z [H1 E1] [H2 E2]. split; [by eapply usageOnly_trans|].
    by rewrite bind_cons upserts_app E2 E1 (messagesOf_usageOnly _ _ _ H1).
Qed.

Lemma does_throw {A} (R : A → DB → DB → Prop) e : does R (throw e).
Proof. intros t Ht. rewrite /T_wp /throw. done. Qed.

(** Reads leave the tables alone. *)
Definition reads {A} (m : T A) : Prop := does (λ _ db db', db' = db) m.
Lemma reads_bind {A B} (m : T A) (f : A → T B) : reads m → (∀ a, reads (f a)) → reads (m ≫= f).
Proof. intros Hm Hf. eapply (does_bind _ (λ _ _ db db', db' = db)); [exact Hm|exact Hf|]. by intros _ _ x y z -> ->. Qed.
Lemma reads_query {A} (f : DB → A) : reads (query f).
Proof. apply does_stmt. by intros db a db' [= _ <-]. Qed.

Lemma reads_beginClaim w id g : reads (beginClaimMutation w id g).
Proof.
  apply reads_bind; [apply reads_query|]. intros _. apply reads_bind.
  { apply does_stmt. intros db a db'. destruct (bool_decide _); [|done]. by intros [= <- <-]. }
  intros _. apply reads_bind; [apply reads_query|]. intros [r|]; [|apply does_throw].
  apply reads_bind; [apply reads_query|]. intros seen. apply reads_bind; [|intros _; by apply does_ret].
  destruct seen; [|by apply does_ret]. rewrite /lift. destruct (validateReconciledGeneration r g); [by apply does_ret|apply does_throw].
Qed.

(** ** The insert loop *)
Section Append.
Context `{Jsonb}.

(** The messages of a run after a batch, and those of the batch that are new. *)
Definition storeAll (gen : option Z) (ms : gmap Z Message) (batch : list IncomingMessage) : gmap Z Message :=
  foldl (λ ms m, if bool_decide (ms !! Seq m = None) then <[Seq m := rowOf gen m]> ms else ms) ms batch.
Fixpoint news (gen : option Z) (ms : gmap Z Message) (batch : list IncomingMessage) : list IncomingMessage :=
  match batch with
  | [] => []
  | m :: batch' =>
    if bool_decide (ms !! Seq m = None) then m :: news gen (<[Seq m := rowOf gen m]> ms) batch' else news gen ms batch'
  end.
Definition highest (batch : list IncomingMessage) : Z := foldr Z.max 0 (Seq <$> batch).

(** The tables but for the messages of a run. *)
Record messagesOnly (id : uuid) (db db' : DB) : Prop := mkMessagesOnly {
  mo_workers : workers db' = workers db; mo_runs : runs db' = runs db; mo_reconciled : reconciled db' = reconciled db;
  mo_usage : usage db' = usage db; mo_messages : ∀ id', id' ≠ id → messagesOf db' id' = messagesOf db id' }.
Lemma messagesOnly_refl id db : messagesOnly id db db.
Proof. done. Qed.
Lemma messagesOnly_trans id a b c : messagesOnly id a b → messagesOnly id b c → messagesOnly id a c.
Proof. intros [] []. split; try congruence. intros id' Hne. rewrite -> mo_messages1, mo_messages0 by done. done. Qed.

Definition insertedAs (id : uuid) (gen : option Z) (batch : list IncomingMessage) (acc : insertions) (res : insertions) (db db' : DB) : Prop :=
  insertErr res = None → messagesOnly id db db' ∧
  maxStored res = Z.max (maxStored acc) (highest batch) ∧
  if runLive db id gen
  then messagesOf db' id = storeAll gen (messagesOf db id) batch ∧ inserted res = inserted acc ++ news gen (messagesOf db id) batch
  else messagesOf db' id = messagesOf db id ∧ inserted res = inserted acc ∧ (gen = None ∨ batch = []).

(** Either the whole batch is stored, or the transaction is lost. *)
Lemma wp_insertLoop id gen batch : ∀ acc t, aborted t = false → 0 <= maxStored acc → insertErr acc = None →
  T_wp (insertLoop id gen batch acc)
    (λ r t', committed t' = committed t ∧
       match r with
       | Ok res => (aborted t' = false → insertErr res = None) ∧ (insertErr res = None → aborted t' = false) ∧
                   insertedAs id gen batch acc res (work t) (work t')
       | Err e => e = ErrStaleClaim
       end) t.
Proof.
  induction batch as [|m batch IH]; intros acc t Ht H0 Hacc; simpl.
  { apply wp_T_ret. split; [done|]. split; [by intros|]. split; [by intros|]. intros _. split; [done|]. split; [rewrite /highest /=; lia|].
    destruct (runLive _ _ _); simpl; rewrite ?app_nil_r; auto. }
  apply wp_T_bind, wp_attempt, wp_T_stmt.
  2:{ intros e fs. apply wp_T_ret. simpl. done. }
  intros _ res db fs Hf. cbn [a_generation a_payload paramsOf] in Hf. destruct (refused (Payload m)); [done|].
  assert (runLive db id gen = runLive (work t) id gen ∧ GenerationLive res = runLive (work t) id gen ∧
    messagesOnly id (work t) db ∧ (runLive (work t) id gen = false → messagesOf db id = messagesOf (work t) id ∧ Inserted res = false) ∧
    (runLive (work t) id gen = true → Inserted res = bool_decide (messagesOf (work t) id !! Seq m = None) ∧
       messagesOf db id = if bool_decide (messagesOf (work t) id !! Seq m = None) then <[Seq m := rowOf gen m]> (messagesOf (work t) id)
                          else messagesOf (work t) id)) as (Hrl & Hgl & Hmo & Hdead & Hlive).
  { destruct (runLive (work t) id gen) eqn:El; simpl in Hf.
    - case_bool_decide as Hn; injection Hf as <- <-.
      + split_and!; [done|done| |done|]; [split; try done; intros i Hi; by rewrite messagesOf_set bool_decide_eq_false_2|].
        intros _. split; [done|]. by rewrite messagesOf_set bool_decide_eq_true_2.
      + split_and!; done.
    - injection Hf as <- <-. split_and!; done. }
  clear Hf. rewrite Hgl. destruct (bool_decide (is_Some gen) && negb (runLive (work t) id gen)) eqn:Est.
  { rewrite /T_wp /throw. done. }
  eapply wp_T_mono; [apply IH; simpl; [done|lia|done]|]. simpl. intros [r|e] t' [Hc Hr]; [|done]. split; [done|].
  destruct Hr as (H1 & H2 & Hins). split; [done|]. split; [done|]. intros Hok. destruct (Hins Hok) as (Hmo' & Hmax & Hst).
  simpl in Hmax, Hst. split; [by eapply messagesOnly_trans|]. split; [change (highest (m :: batch)) with (Z.max (Seq m) (highest batch)); lia|].
  rewrite Hrl in Hst. destruct (runLive (work t) id gen) eqn:El.
  - destruct (Hlive eq_refl) as [Hi Hm]. destruct Hst as [Hs1 Hs2]. rewrite Hs1 Hs2 Hi Hm. simpl.
    case_bool_decide; [split; [done|by rewrite -assoc]|done].
  - destruct (Hdead eq_refl) as [Hm Hi]. destruct Hst as (Hs1 & Hs2 & Hs3). rewrite Hs1 Hs2 Hm Hi. split_and!; [done|done|].
    left. destruct gen; [done|done].
Qed.

(** ** The whole transaction *)
(** What a committed batch leaves behind. *)
Record appended (w : Worker) (id : uuid) (batch : list IncomingMessage) (claimGen : option Z) (now : time)
    (run : Run) (new : list IncomingMessage) (db db' : DB) : Prop := mkAppended {
  ap_owned : owned db id (w_ID w) = Some run;
  ap_valid : existsb invalidMessage batch = false;
  ap_live : generationLive run (effective run claimGen) = true ∨ effective run claimGen = None ∨ batch = [];
  ap_workers : workers db' = workers db;
  ap_reconciled : reconciled db' = reconciled db;
  ap_other : ∀ id', id' ≠ id → messagesOf db' id' = messagesOf db id' ∧ usageOf db' id' = usageOf db id';
  ap_messages : messagesOf db' id =
    if generationLive run (effective run claimGen)
    then storeAll (effective run claimGen) (messagesOf db id) (cleanMessage run <$> batch) else messagesOf db id;
  ap_new : new = if generationLive run (effective run claimGen)
                 then news (effective run claimGen) (messagesOf db id) (cleanMessage run <$> batch) else [];
  ap_runs : runs db' =
    if generationLive run (effective run claimGen) && (last_seq run <? highest batch)
    then <[id := withLastSeq (highest batch)
             (if onlyUsageSideChannel (cleanMessage run <$> batch) then last_activity_at run else now) run]> (runs db)
    else runs db;
  ap_usage : usageOf db' id =
    upserts (usageOf db id) ((stampGen (effective run claimGen) <$> (cleanMessage run <$> batch)) ≫= frameRows run (messagesOf db' id));
  ap_named : effective run claimGen = None → r_kind run = Chat ∨ CredentialSwitchV1 ∉ ProtocolCapabilities w }.

Lemma highest_clean run batch : highest (cleanMessage run <$> batch) = highest batch.
Proof. rewrite /highest. f_equal. induction batch as [|m batch IH]; [done|]. by rewrite !fmap_cons IH. Qed.

Lemma highest_nonneg batch : 0 <= highest batch.
Proof. rewrite /highest. induction (Seq <$> batch); simpl; lia. Qed.

Lemma owned_run db id wid run : owned db id wid = Some run → runs db !! id = Some run.
Proof. rewrite /owned. destruct (runs db !! id) as [r|]; simpl; [|done]. by destruct (_ && _); intros [= <-]. Qed.

(** The mark is raised when the claim is live. *)
Lemma does_mark id run gen seq (quiet : bool) now :
  does (λ _ db db', runs db !! id = Some run →
      messages db' = messages db ∧ usage db' = usage db ∧ workers db' = workers db ∧ reconciled db' = reconciled db ∧
      runs db' = if generationLive run gen
        then <[id := withLastSeq (Z.max (last_seq run) seq) (if quiet then last_activity_at run else now) run]> (runs db) else runs db)
    (UpdateRunLastSeq id seq gen quiet now).
Proof.
  apply does_stmt. intros db n db' Hf Hr. rewrite Hr in Hf. destruct (generationLive run gen); injection Hf as <- <-; done.
Qed.

Lemma wp_afterInserts id run gen msgs now ins t :
  (insertErr ins = None → aborted t = false ∧ runs (work t) !! id = Some run) →
  T_wp (afterInserts id run gen msgs now ins)
    (λ r t', committed t' = committed t ∧
       match r with
       | Ok (Ok new) => aborted t' = false ∧ insertErr ins = None ∧ new = inserted ins ∧
           messages (work t') = messages (work t) ∧ workers (work t') = workers (work t) ∧ reconciled (work t') = reconciled (work t) ∧
           (∀ id', id' ≠ id → usageOf (work t') id' = usageOf (work t) id') ∧
           runs (work t') = (if generationLive run gen && (last_seq run <? maxStored ins)
             then <[id := withLastSeq (maxStored ins) (if onlyUsageSideChannel msgs then last_activity_at run else now) run]> (runs (work t))
             else runs (work t)) ∧
           usageOf (work t') id = upserts (usageOf (work t) id) ((stampGen gen <$> msgs) ≫= frameRows run (messagesOf (work t) id))
       | Ok (Err _) => True
       | Err _ => False
       end) t.
Proof.
  intros Hab. rewrite /afterInserts.
  assert (T_wp (if last_seq run <? maxStored ins
      then attempt (UpdateRunLastSeq id (maxStored ins) gen (onlyUsageSideChannel msgs) now) else mret (Ok 0) : T (result error Z))
    (λ r t', committed t' = committed t ∧
       match r with
       | Ok (Ok _) => insertErr ins = None → aborted t' = false ∧
           messages (work t') = messages (work t) ∧ usage (work t') = usage (work t) ∧ workers (work t') = workers (work t) ∧
           reconciled (work t') = reconciled (work t) ∧
           runs (work t') = (if generationLive run gen && (last_seq run <? maxStored ins)
             then <[id := withLastSeq (maxStored ins) (if onlyUsageSideChannel msgs then last_activity_at run else now) run]> (runs (work t))
             else runs (work t))
       | Ok (Err _) => True
       | Err _ => False
       end) t) as Hmark.
  { destruct (last_seq run <? maxStored ins) eqn:El; [|apply wp_T_ret; rewrite andb_false_r; split; [done|]; intros Hn; split_and!; try done; apply Hab, Hn].
    apply wp_attempt. destruct (aborted t) eqn:Ha.
    { rewrite /UpdateRunLastSeq /T_wp /stmt Ha. done. }
    eapply wp_T_mono; [by apply (does_mark id run)|]. intros [n|e] t' [Hc Hd]; (split; [done|]); [|done].
    intros Hn. destruct Hd as [? Hd]. split; [done|]. destruct (Hd (proj2 (Hab Hn))) as (E1 & E2 & E3 & E4 & E5).
    split_and!; try done. rewrite E5 andb_true_r. assert (Z.max (last_seq run) (maxStored ins) = maxStored ins) as -> by lia. done. }
  apply wp_T_bind. eapply wp_T_mono; [exact Hmark|]. intros [marked|e] t1 [Hc1 Hm]; [|done]. cbv beta iota.
  destruct (insertErr ins) as [e|]; [by apply wp_T_ret|]. destruct marked as [n|e]; [|by apply wp_T_ret].
  destruct (Hm eq_refl) as (Ha & E1 & E2 & E3 & E4 & E5).
  apply wp_T_bind, wp_attempt. eapply wp_T_mono; [by apply does_foldUsageFrames|].
  intros [[]|e] t2 [Hc2 Hf]; apply wp_T_ret; (split; [congruence|]); [|done].
  destruct Hf as [Ha2 [[F1 F2 F3 F4 F5] F6]]. split_and!; try congruence.
  - intros id' Hne. rewrite F5 //. by rewrite /usageOf E2.
  - rewrite F6 /usageOf /messagesOf E1 E2. done.
Qed.

Lemma wp_appendLocked w id batch claimGen now t : aborted t = false →
  T_wp (appendMessagesLocked w id batch claimGen now)
    (λ r t', committed t' = committed t ∧
       match r with
       | Ok (o, Ok new) => aborted t' = false ∧ ∃ run, appended w id batch claimGen now run new (work t) (work t')
       | Ok (o, Err _) => True
       | Err _ => False
       end) t.
Proof.
  intros Ht. rewrite /appendMessagesLocked. apply wp_T_bind, wp_attempt.
  rewrite /runOwnedByWorker. apply wp_T_bind, wp_query; [|by intros].
  intros _ fs. destruct (owned (work t) id (w_ID w)) as [run|] eqn:Hown; simpl; [|by rewrite /T_wp /throw /=].
  destruct (_ || laneMismatch run w); simpl; [by rewrite /T_wp /throw /=|].
  apply wp_T_ret. cbv beta iota. set (gen := effective run claimGen).
  destruct (bool_decide (gen = None) && _ && _) eqn:Hnamed; [by apply wp_T_ret|].
  destruct (existsb invalidMessage batch) eqn:Hval; [by apply wp_T_ret|].
  set (msgs := cleanMessage run <$> batch).
  assert (highest msgs = highest batch) as Hhigh by apply highest_clean.
  pose proof (owned_run _ _ _ _ Hown) as Hrun.
  assert (runLive (work t) id gen = generationLive run gen) as Hrl by (by rewrite /runLive Hrun).
  apply wp_T_bind, wp_attempt. eapply wp_T_mono; [by apply wp_insertLoop|]. simpl.
  intros [ins|e] t1 [Hc1 Hi]; [|by apply wp_T_ret]. destruct Hi as (Hab & Hab' & Hins).
  apply wp_T_bind. eapply wp_T_mono; [apply (wp_afterInserts id run gen msgs now ins)|].
  { intros Hie. split; [by apply Hab'|]. destruct (Hins Hie) as [Hmo _]. by rewrite (mo_runs _ _ _ Hmo). }
  intros [[new|e]|e] t2 [Hc2 Ho]; [|by apply wp_T_ret; split; [congruence|]|done].
  apply wp_T_ret. split; [congruence|]. destruct Ho as (Ha & Hie & -> & E1 & E2 & E3 & E4 & E5 & E6). split; [done|]. exists run.
  destruct (Hins Hie) as ([M1 M2 M3 M4 M5] & Hmax & Hst). simpl in Hmax, Hst. rewrite Hrl in Hst.
  assert (0 <= highest batch) by apply highest_nonneg.
  assert (maxStored ins = highest batch) as Hms by (rewrite Hmax Hhigh; lia).
  assert (∀ i, messagesOf (work t2) i = messagesOf (work t1) i) as Hmm by (intros i; by rewrite /messagesOf E1).
  assert (∀ i, usageOf (work t1) i = usageOf (work t) i) as Huu by (intros i; by rewrite /usageOf M4).
  rewrite -/gen in Hst |- *. split; try done; try congruence.
  - fold gen. destruct (generationLive run gen); [by left|]. destruct Hst as (_ & _ & [?|Hn]); [by right; left|].
    right; right. by apply fmap_nil_inv in Hn.
  - intros id' Hne. by rewrite Hmm M5 // E4 // Huu.
  - fold gen. rewrite Hmm. destruct (generationLive run gen); by destruct Hst as [? ?].
  - fold gen. destruct (generationLive run gen); [by destruct Hst as [? ?]|by destruct Hst as (? & ? & ?)].
  - fold gen. by rewrite E5 Hms M2.
  - fold gen. rewrite E6 Huu. f_equal. by rewrite Hmm.
  - fold gen. intros Hg. rewrite bool_decide_eq_true_2 //= in Hnamed. destruct (r_kind run =?s Chat)%go eqn:Ek; [left; by apply String.eqb_eq|right].
    by apply bool_decide_eq_false in Hnamed.
Qed.

(** An append either leaves the tables as they were, or has committed a whole
    batch; what is published is what the batch has added, and only then. *)
Lemma append_effect w id batch claimGen now stamps fs db out db' :
  appendMessages w id batch claimGen now stamps fs db = (out, db') →
  db' = db ∧ published out = [] ∧ answer out ≠ Ok tt ∨
  ∃ run new, appended w id batch claimGen now run new db db' ∧
    (published out = [] ∧ answer out ≠ Ok tt ∨ published out = new ∧ answer out = Ok tt).
Proof.
  rewrite /appendMessages. intros He.
  assert (let '(r, d) := inTx (appendTx w id batch claimGen now) fs db in
    (λ r d, d = db ∧ (match r with Ok (_, Ok _) => False | _ => True end) ∨ ∃ run new, appended w id batch claimGen now run new db d ∧
       match r with Ok (_, Ok new') => new' = new | _ => True end) r d) as Hw; [apply wp_T_inTx|].
  - intros fs'. rewrite /appendTx. apply wp_T_bind.
    eapply wp_T_mono; [apply (reads_beginClaim w id claimGen); done|]. intros [run|e] t [Hc Ht]; [|left; by rewrite Hc].
    destruct Ht as [Ha Hw']. simpl in Hc, Hw'. apply wp_T_bind. eapply wp_T_mono; [by apply wp_appendLocked|].
    intros [[o [new|e]]|e] t1 [Hc1 Ho]; [|by apply wp_T_ret; left; rewrite Hc1 Hc|done].
    destruct Ho as [Ha1 [run' Happ]]. rewrite Hw' in Happ. apply wp_T_bind, wp_attempt, wp_T_commit.
    + intros _ fs1. apply wp_T_ret. right. by exists run', new.
    + intros e fs1 c [->|[-> _]]; apply wp_T_ret; [left; by rewrite Hc1 Hc|]. right. by exists run', new.
  - intros e. by left.
  - destruct (inTx _ fs db) as [r d]. destruct r as [[o [new|e]]|e]; [destruct stamps|..]; injection He as <- <-; simpl.
    all: destruct Hw as [[-> Hf]|(run & new' & Happ & Hn)]; try done.
    all: try (left; split_and!; congruence). all: right; exists run, new'; split; [done|]; subst; auto.
Qed.

(** ** What storing a batch does to the messages of a run *)
Lemma storeAll_keeps gen batch : ∀ ms seq m, ms !! seq = Some m → storeAll gen ms batch !! seq = Some m.
Proof.
  induction batch as [|x batch IH]; intros ms seq m Hm; [done|]. simpl. apply IH. case_bool_decide; [|done].
  rewrite lookup_insert_ne; [congruence|done].
Qed.

Lemma storeAll_new gen batch : ∀ ms seq m, storeAll gen ms batch !! seq = Some m →
  ms !! seq = Some m ∨ ms !! seq = None ∧ ∃ x, x ∈ news gen ms batch ∧ Seq x = seq ∧ m = rowOf gen x.
Proof.
  induction batch as [|x batch IH]; intros ms seq m Hm; [by left|]. simpl in *.
  case_bool_decide as Hn.
  - destruct (IH _ _ _ Hm) as [Hl|[Hl (y & Hy & Hs & ->)]].
    + destruct (decide (Seq x = seq)) as [<-|Hne]; [|rewrite lookup_insert_ne in Hl; [done|by left]].
      rewrite lookup_insert_eq in Hl. injection Hl as <-. right. split; [done|]. exists x. by rewrite elem_of_cons; auto.
    + right. destruct (decide (Seq x = seq)) as [<-|Hne]; [by rewrite lookup_insert_eq in Hl|].
      rewrite lookup_insert_ne in Hl; [done|]. split; [done|]. exists y. rewrite elem_of_cons. auto.
  - destruct (IH _ _ _ Hm) as [Hl|[Hl (y & Hy & Hs & ->)]]; [by left|]. right. split; [done|]. by exists y.
Qed.

Lemma news_stored gen batch : ∀ ms x, x ∈ news gen ms batch →
  x ∈ batch ∧ ms !! Seq x = None ∧ storeAll gen ms batch !! Seq x = Some (rowOf gen x).
Proof.
  induction batch as [|y batch IH]; intros ms x; simpl; [by rewrite elem_of_nil|]. case_bool_decide as Hn.
  - rewrite !elem_of_cons. intros [->|Hx].
    + split; [by left|]. split; [done|]. apply storeAll_keeps. by rewrite lookup_insert_eq.
    + destruct (IH _ _ Hx) as (? & Hl & ?). split; [by right|]. split; [|done].
      destruct (decide (Seq y = Seq x)) as [E|Hne]; [by rewrite E lookup_insert_eq in Hl|by rewrite lookup_insert_ne in Hl].
  - intros Hx. destruct (IH _ _ Hx) as (? & ? & ?). rewrite elem_of_cons. auto.
Qed.

Lemma news_nodup gen batch : ∀ ms, NoDup (Seq <$> news gen ms batch).
Proof.
  induction batch as [|y batch IH]; intros ms; simpl; [constructor|]. case_bool_decide as Hn; [|done].
  rewrite fmap_cons. constructor; [|done]. intros (x & E & Hx)%list_elem_of_fmap.
  apply news_stored in Hx as (_ & Hl & _). by rewrite E lookup_insert_eq in Hl.
Qed.

Lemma storeAll_all gen batch : ∀ ms x, x ∈ batch → is_Some (storeAll gen ms batch !! Seq x).
Proof.
  induction batch as [|y batch IH]; intros ms x; [by rewrite elem_of_nil|]. rewrite elem_of_cons. intros [->|Hx]; simpl; [|by apply IH].
  case_bool_decide as Hn; [eexists; apply storeAll_keeps; by rewrite lookup_insert_eq|].
  destruct (ms !! Seq y) eqn:E; [|done]. eexists. by apply storeAll_keeps.
Qed.

Lemma highest_cons x batch : highest (x :: batch) = Z.max (Seq x) (highest batch).
Proof. done. Qed.
Lemma highest_elem batch : 0 < highest batch → ∃ x, x ∈ batch ∧ Seq x = highest batch.
Proof.
  induction batch as [|y batch IH]; [rewrite /highest /=; lia|]. rewrite highest_cons. intros Hp.
  destruct (Z_le_gt_dec (highest batch) (Seq y)).
  - exists y. rewrite elem_of_cons. split; [by left|lia].
  - destruct IH as (x & Hx & E); [lia|]. exists x. rewrite elem_of_cons. split; [by right|lia].
Qed.
Lemma highest_le batch x : x ∈ batch → Seq x <= highest batch.
Proof.
  induction batch as [|y batch IH]; [by rewrite elem_of_nil|]. rewrite elem_of_cons highest_cons. intros [->|Hx]; [lia|].
  specialize (IH Hx). lia.
Qed.
Lemma valid_seq batch x : existsb invalidMessage batch = false → x ∈ batch → 0 < Seq x.
Proof.
  intros Hv Hx%list_elem_of_In. rewrite -not_true_iff_false existsb_exists in Hv. destruct (Z_le_gt_dec (Seq x) 0); [|lia].
  destruct Hv. exists x. split; [done|]. rewrite /invalidMessage. by rewrite (proj2 (Z.leb_le (Seq x) 0)).
Qed.
Lemma clean_seq run (batch : list IncomingMessage) (x : IncomingMessage) : x ∈ cleanMessage run <$> batch → ∃ y, y ∈ batch ∧ Seq y = Seq x.
Proof. intros (y & -> & Hy)%list_elem_of_fmap. by exists y. Qed.

(** * The system *)
Record sys := mkSys {
  tables : DB; log : list (uuid * IncomingMessage); used : gset uuid; notes : list (uuid * IncomingMessage * Z) }.

Definition deleteRun (db : DB) (id : uuid) : DB :=
  mkDB (workers db) (delete id (runs db)) (reconciled db) (delete id (messages db)) (delete id (usage db)).

(** The messages of a run come from a worker's batches and from the four lines the
    server writes itself.  Of those the note on a dropped model is stored and marked
    by two statements that anything may come between: [notes] are the ones whose mark
    is due.  [log] is what was handed to the broadcaster, and [used] the ids ever
    given to a run.

    The rest of the server creates runs under fresh ids, claims, parks, releases and
    ends them, which never lowers a claim generation and leaves the high-water mark
    alone, and deletes them. *)
Inductive lineStep (s : sys) : sys → Prop :=
  | L_readmit id doc fs r db' :
      inTx (readmitTx id doc) fs (tables s) = (r, db') →
      lineStep s (mkSys db' (log s ++ (pair id <$> announced r "status" doc)) (used s) (notes s))
  | L_crossCheck id gen cc doc now fs r db' :
      inTx (crossCheckTx id gen cc doc now) fs (tables s) = (r, db') →
      lineStep s (mkSys db' (log s ++ (pair id <$> announced r "cross_check" doc)) (used s) (notes s))
  | L_switch id gen switched doc now fs r db' :
      inTx (recordRunCredentialTx id gen switched doc now) fs (tables s) = (r, db') →
      lineStep s (mkSys db' (log s ++ (pair id <$> announced (p ← r; mret p.2) credentialSwitchMessageKind doc)) (used s) (notes s))
  | L_note id gen start doc fs note db' :
      fallbackInsert id gen start doc fs (tables s) = (note, db') →
      lineStep s (mkSys db' (log s) (used s) (notes s ++ match note with Some m => [(id, m, gen)] | None => [] end))
  | L_mark id gen m now fs pub db' before after :
      notes s = before ++ (id, m, gen) :: after → fallbackMark id gen m now fs (tables s) = (pub, db') →
      lineStep s (mkSys db' (log s ++ (pair id <$> pub)) (used s) (before ++ after)).
Inductive step (s : sys) : sys → Prop :=
  | S_append w id batch claimGen now stamps fs out db' :
      appendMessages w id batch claimGen now stamps fs (tables s) = (out, db') →
      step s (mkSys db' (log s ++ (pair id <$> published out)) (used s) (notes s))
  | S_line s' : lineStep s s' → step s s'
  | S_refold id run fs r db' : RefoldRunUsage id run fs (tables s) = (r, db') → step s (mkSys db' (log s) (used s) (notes s))
  | S_create id r : id ∉ used s → last_seq r = 0 → step s (mkSys (setRun (tables s) id r) (log s) ({[id]} ∪ used s) (notes s))
  | S_change id r r' : runs (tables s) !! id = Some r → last_seq r' = last_seq r → claim_generation r <= claim_generation r' →
      step s (mkSys (setRun (tables s) id r') (log s) (used s) (notes s))
  | S_delete id : step s (mkSys (deleteRun (tables s) id) (log s) (used s) (notes s))
  | S_other ws rc : step s (mkSys (mkDB ws (runs (tables s)) rc (messages (tables s)) (usage (tables s))) (log s) (used s) (notes s)).
Inductive steps (s : sys) : sys → Prop :=
  | Steps_refl : steps s s
  | Steps_step s1 s2 : steps s s1 → step s1 s2 → steps s s2.
Definition start : sys := mkSys (mkDB ∅ ∅ ∅ ∅ ∅) [] ∅ [].

(** The mark of a run is a number that is stored, and of the numbers stored only a
    note whose mark was lost can be past it. *)
Record highWater (db : DB) (id : uuid) (r : Run) : Prop := mkHighWater {
  hw_nonneg : 0 <= last_seq r;
  hw_bound : ∀ seq m, messagesOf db id !! seq = Some m → seq <= last_seq r ∨ m_kind m = harnessModelFallbackKind;
  hw_stored : 0 < last_seq r → is_Some (messagesOf db id !! last_seq r) }.
Definition logKey (e : uuid * IncomingMessage) : uuid * Z := (e.1, Seq e.2).
Definition due (s : sys) : list (uuid * IncomingMessage) := fst <$> notes s.
(** Of the tables, what was or will be published, and the ids given out. *)
Record invOf (db : DB) (pubs : list (uuid * IncomingMessage)) (ids : gset uuid) : Prop := mkInv {
  in_high : ∀ id r, runs db !! id = Some r → highWater db id r;
  in_gone : ∀ id, runs db !! id = None → messagesOf db id = ∅;
  in_used : ∀ id, is_Some (runs db !! id) → id ∈ ids;
  in_known : ∀ e, e ∈ pubs → e.1 ∈ ids;
  in_once : NoDup (logKey <$> pubs);
  in_log : ∀ id m, (id, m) ∈ pubs → is_Some (runs db !! id) → ∃ gen, messagesOf db id !! Seq m = Some (rowOf gen m) }.
Definition inv (s : sys) : Prop := invOf (tables s) (log s ++ due s) (used s).

(** ** The other transactions *)
Record refoldedTo (id : uuid) (run : Run) (db db' : DB) : Prop := mkRefolded {
  rf_runs : runs db' = alter refolded id (runs db);
  rf_messages : messages db' = messages db;
  rf_workers : workers db' = workers db;
  rf_reconciled : reconciled db' = reconciled db;
  rf_other : ∀ id', id' ≠ id → usageOf db' id' = usageOf db id';
  rf_usage : usageOf db' id = upserts ∅ ((ofRow <$> usageFrames (messagesOf db id)) ≫= frameRows run (messagesOf db id)) }.

Lemma does_delete id : does (λ _ db db', usageOnly id db db' ∧ usageOf db' id = ∅) (DeleteRunUsage id).
Proof.
  apply does_stmt. intros db a db' [= <- <-]. split; [split; try done|]; rewrite /usageOf /=; [|by rewrite lookup_delete_eq].
  intros id' Hne. by rewrite lookup_delete_ne.
Qed.
Lemma does_markRefolded id :
  does (λ _ db db', runs db' = alter refolded id (runs db) ∧ messages db' = messages db ∧ workers db' = workers db ∧
    reconciled db' = reconciled db ∧ usage db' = usage db) (MarkRunUsageRefolded id).
Proof.
  apply does_stmt. intros db a db' [= _ <-]. destruct (runs db !! id) as [r|] eqn:Er; simpl.
  - split_and!; try done. apply map_eq. intros i. destruct (decide (i = id)) as [->|Hne];
      [by rewrite lookup_insert_eq lookup_alter_eq Er|by rewrite lookup_insert_ne // lookup_alter_ne].
  - split_and!; try done. apply map_eq. intros i. destruct (decide (i = id)) as [->|Hne];
      [by rewrite lookup_alter_eq Er|by rewrite lookup_alter_ne].
Qed.

Lemma refold_effect id run fs db r db' : RefoldRunUsage id run fs db = (r, db') →
  db' = db ∧ r ≠ Ok tt ∨ refoldedTo id run db db'.
Proof.
  intros He. assert (let '(r, d) := inTx (refoldTx id run) fs db in
    (λ r d, d = db ∧ r ≠ Ok tt ∨ refoldedTo id run db d) r d) as Hw; [apply wp_T_inTx|].
  - intros fs'. rewrite /refoldTx. apply wp_T_bind. eapply wp_T_mono; [by apply does_delete|].
    intros [[]|e] t1 [Hc1 H1]; [|by left; rewrite Hc1]. destruct H1 as [Ha1 [[D1 D2 D3 D4 D5] D6]]. simpl in *.
    apply wp_T_bind. eapply wp_T_mono; [by apply does_query|].
    intros [rows|e] t2 [Hc2 H2]; [|left; by rewrite Hc2 Hc1]. destruct H2 as [Ha2 [E2 ->]].
    apply wp_T_bind. eapply wp_T_mono; [by apply does_foldUsageFrames|].
    intros [[]|e] t3 [Hc3 H3]; [|left; by rewrite Hc3 Hc2 Hc1]. destruct H3 as [Ha3 [[F1 F2 F3 F4 F5] F6]].
    apply wp_T_bind. eapply wp_T_mono; [by apply does_markRefolded|].
    intros [[]|e] t4 [Hc4 H4]; [|left; by rewrite Hc4 Hc3 Hc2 Hc1]. destruct H4 as (Ha4 & G1 & G2 & G3 & G4 & G5).
    rewrite E2 in F1, F2, F3, F4, F5, F6.
    assert (refoldedTo id run db (work t4)) as Hdone.
    { split; try congruence.
      - intros id' Hne. by rewrite /usageOf G5 -/(usageOf (work t3) id') F5 // D5.
      - rewrite {1}/usageOf G5 -/(usageOf (work t3) id) F6 D6 /messagesOf D4. done. }
    apply wp_T_commit; [by right|]. intros e fs1 c [->|[-> _]]; [left; simpl|by right]. by rewrite Hc4 Hc3 Hc2 Hc1.
  - intros e. by left.
  - rewrite /RefoldRunUsage in He. rewrite He in Hw. done.
Qed.

(** ** The lines of the server *)
(** A transaction that, if it ends well, has committed. *)
Definition commits {A} (R : A → DB → DB → Prop) (m : T A) : Prop := ∀ t, aborted t = false →
  T_wp m (λ r t', match r with
    | Ok a => R a (work t) (committed t')
    | Err _ => committed t' = committed t ∨ ∃ a, R a (work t) (committed t')
    end) t.
Lemma commits_bind {A B} (R : A → DB → DB → Prop) (S : A → B → DB → DB → Prop) (Q : B → DB → DB → Prop) (m : T A) (f : A → T B) :
  does R m → (∀ a, commits (S a) (f a)) → (∀ a b x y z, R a x y → S a b y z → Q b x z) → commits Q (m ≫= f).
Proof.
  intros Hm Hf Hq t Ht. apply wp_T_bind. eapply wp_T_mono; [by apply Hm|]. intros [a|e] t' [Hc Hr]; [|by left].
  destruct Hr as [Ha Hr]. eapply wp_T_mono; [by apply (Hf a)|]. intros [b|e] t'' Hs; [by eapply Hq|].
  destruct Hs as [Hs|[b Hs]]; [left; congruence|right; eauto].
Qed.
Lemma commits_throw {A} (R : A → DB → DB → Prop) e : commits R (throw e).
Proof. intros t Ht. by left. Qed.
Lemma commits_ret {A} (a : A) : commits (λ a' db db', a' = a ∧ db' = db) (_ ← Commit; mret a).
Proof.
  intros t Ht. apply wp_T_bind, wp_T_commit; [intros _ fs; by apply wp_T_ret|]. intros e fs c [->|[-> _]]; [by left|right; eauto].
Qed.
Lemma commits_inTx {A} (R : A → DB → DB → Prop) (m : T A) fs db r db' : commits R m → inTx m fs db = (r, db') →
  match r with Ok a => R a db db' | Err _ => db' = db ∨ ∃ a, R a db db' end.
Proof.
  intros Hm He. assert (let '(r, d) := inTx m fs db in
    (λ r d, match r with Ok a => R a db d | Err _ => d = db ∨ ∃ a, R a db d end) r d) as Hw; [apply wp_T_inTx|by rewrite He in Hw].
  - intros fs'. by apply (Hm (mkTX db db false fs')).
  - intros e. by left.
Qed.

(** What writing at most one line leaves behind. *)
Abbreviation line := (option (IncomingMessage * option Z)) (only parsing).
Record servedTo (id : uuid) (x : line) (db db' : DB) : Prop := mkServed {
  sv_usage : usage db' = usage db;
  sv_other : ∀ id', id' ≠ id → messagesOf db' id' = messagesOf db id' ∧ runs db' !! id' = runs db !! id';
  sv_run : ∃ run v at', runs db !! id = Some run ∧ runs db' !! id = Some (withLastSeq v at' run) ∧ last_seq run <= v ∧
    (v <= 0 ∨ v = last_seq run ∨ is_Some (messagesOf db' id !! v)) ∧
    match x with
    | Some (m, gen) => messagesOf db id !! Seq m = None ∧ messagesOf db' id = <[Seq m := rowOf gen m]> (messagesOf db id) ∧
        (Seq m <= v ∨ Kind m = harnessModelFallbackKind) ∧ (gen = None ∨ gen = Some (claim_generation run))
    | None => messagesOf db' id = messagesOf db id
    end }.

Lemma maxSeq_ge ms seq : is_Some (ms !! seq) → seq <= maxSeq ms.
Proof.
  intros [m Hm%elem_of_map_to_list]. rewrite /maxSeq.
  assert (seq ∈ (map_to_list ms).*1) as Hin by (apply list_elem_of_fmap; by exists (seq, m)).
  revert Hin. generalize (map_to_list ms).*1. clear. intros [|s l]; [by rewrite elem_of_nil|].
  induction l as [|x l IH]; simpl; rewrite ?elem_of_cons ?elem_of_nil; [intros [->|[]]; lia|].
  rewrite !elem_of_cons in IH. intros [->|[->|Hin]]; [|lia|]; [specialize (IH (or_introl eq_refl))|specialize (IH (or_intror Hin))]; lia.
Qed.
Lemma maxSeq_elem ms : maxSeq ms = 0 ∨ is_Some (ms !! maxSeq ms).
Proof.
  rewrite /maxSeq. destruct ((map_to_list ms).*1) as [|s l] eqn:E; [by left|]. right.
  assert (foldr Z.max s l ∈ (map_to_list ms).*1) as Hin.
  { rewrite E. clear E. induction l as [|x l IH]; simpl; [by apply elem_of_cons; left|]. rewrite !elem_of_cons in IH |- *.
    destruct (Z.max_spec x (foldr Z.max s l)) as [[_ ->]|[_ ->]]; [naive_solver|auto]. }
  apply list_elem_of_fmap in Hin as ([k m] & -> & Hk%elem_of_map_to_list). by eexists.
Qed.

(** The insert of a line under a live claim. *)
Definition insertedLine (id : uuid) (m : IncomingMessage) (gen : option Z) (db db' : DB) : Prop :=
  messagesOnly id db db' ∧ runLive db id gen = true ∧ messagesOf db id !! Seq m = None ∧
  messagesOf db' id = <[Seq m := rowOf gen m]> (messagesOf db id).
Lemma writes_insert id gen m : does (λ res db db', GenerationLive res = runLive db id gen ∧
    if Inserted res then insertedLine id m gen db db' else db' = db) (InsertRunMessage id (Seq m) (paramsOf gen m)).
Proof.
  apply does_stmt. intros db res db'. cbn [a_payload a_generation paramsOf]. destruct (refused (Payload m)); [done|].
  destruct (runLive db id gen) eqn:El; simpl; [case_bool_decide as Hn|]; intros [= <- <-]; try done. split; [done|]. simpl.
  split; [split; try done; intros i Hi; by rewrite messagesOf_set bool_decide_eq_false_2|].
  by rewrite messagesOf_set bool_decide_eq_true_2.
Qed.

(** The mark, raised if the claim is live. *)
Definition raised (id : uuid) (seq : Z) (gen : option Z) (now : time) (db db' : DB) : Prop :=
  workers db' = workers db ∧ reconciled db' = reconciled db ∧ messages db' = messages db ∧ usage db' = usage db ∧
  runs db' = match runs db !! id with
    | Some r => if generationLive r gen then <[id := withLastSeq (Z.max (last_seq r) seq) now r]> (runs db) else runs db
    | None => runs db
    end.
Lemma does_raise id seq gen now : does (λ n db db', raised id seq gen now db db' ∧ (n = 1 → runLive db id gen = true))
  (UpdateRunLastSeq id seq gen false now).
Proof.
  apply does_stmt. intros db n db'. rewrite /raised /runLive. destruct (runs db !! id) as [r|]; [destruct (generationLive r gen)|].
  all: intros [= <- <-]; split_and!; done.
Qed.
Lemma withLastSeq_same r : withLastSeq (last_seq r) (last_activity_at r) r = r.
Proof. by destruct r. Qed.
Lemma live_gen r gen : generationLive r gen = true → gen = None ∨ gen = Some (claim_generation r).
Proof. rewrite /generationLive. destruct gen; [|by left]. intros [_ ?]%andb_true_iff. right. f_equal. lia. Qed.

Lemma served_line id m gen now db db1 db' : insertedLine id m gen db db1 → raised id (Seq m) gen now db1 db' →
  servedTo id (Some (m, gen)) db db'.
Proof.
  intros ([M1 M2 M3 M4 M5] & Hl & Hn & Hm) (_ & _ & R1 & R2 & R3).
  assert (∀ i, messagesOf db' i = messagesOf db1 i) as Hmm by (intros i; by rewrite /messagesOf R1).
  rewrite /runLive in Hl. destruct (runs db !! id) as [run|] eqn:Er; [|done]. rewrite M2 Er Hl in R3.
  split; [congruence| |].
  - intros i Hi. by rewrite Hmm M5 // R3 lookup_insert_ne.
  - exists run, (Z.max (last_seq run) (Seq m)), now. rewrite R3 lookup_insert_eq Hmm Hm. split_and!; try done; try lia; [|by apply live_gen].
    destruct (Z.max_spec (last_seq run) (Seq m)) as [[_ ->]|[_ ->]]; [|by auto]. right; right. rewrite lookup_insert_eq. by eexists.
Qed.
Lemma served_mark id v gen now db db' run : runs db !! id = Some run → raised id v gen now db db' →
  v <= 0 ∨ v <= last_seq run ∨ is_Some (messagesOf db id !! v) → servedTo id None db db'.
Proof.
  intros Er (_ & _ & R1 & R2 & R3) Hv. assert (∀ i, messagesOf db' i = messagesOf db i) as Hmm by (intros i; by rewrite /messagesOf R1).
  rewrite Er in R3. destruct (generationLive run gen); (split; [done|intros i Hi; by rewrite Hmm R3 ?lookup_insert_ne|]).
  - exists run, (Z.max (last_seq run) v), now. rewrite R3 lookup_insert_eq Hmm. split_and!; try done; [lia|].
    destruct (Z.max_spec (last_seq run) v) as [[? ->]|[? ->]]; [|by auto]. destruct Hv as [?|[?|?]]; [by auto|lia|by auto].
  - exists run, (last_seq run), (last_activity_at run). rewrite R3 withLastSeq_same Hmm. split_and!; try done. by auto.
Qed.
Lemma served_none id db run : runs db !! id = Some run → servedTo id None db db.
Proof.
  intros Er. split; try done. exists run, (last_seq run), (last_activity_at run). rewrite withLastSeq_same. split_and!; try done. by auto.
Qed.

Lemma does_readmit id doc : does (λ seq db db', match seq with
    | None => db' = db | Some n => servedTo id (Some (serverLine n "status" doc, None)) db db' end) (InsertCodexReadmitRunMessage id doc).
Proof.
  apply does_stmt. intros db seq db'. destruct (outOfRange doc); [done|]. destruct (runs db !! id) as [run|] eqn:Er; [|by intros [= <- <-]].
  destruct (_ && _); [|by intros [= <- <-]]. cbv zeta. case_match; [done|]. intros [= <- <-].
  set (next := Z.max (last_seq run) (maxSeq (messagesOf db id)) + 1). split; [done|..].
  - intros i Hi. by rewrite messagesOf_setRun messagesOf_set bool_decide_eq_false_2 //= lookup_insert_ne.
  - exists run, next, (last_activity_at run).
    rewrite messagesOf_setRun messagesOf_set bool_decide_eq_true_2 //= !lookup_insert_eq. split_and!; try done; [unfold next; lia|right; right; by eexists| |by left|by left].
    apply eq_None_not_Some. intros Hs. pose proof (maxSeq_ge _ _ Hs). unfold next in *. lia.
Qed.

Lemma does_event attempts id gen doc : does (λ seq db db', insertedLine id (serverLine seq "cross_check" doc) (Some gen) db db')
  (insertEvent attempts id gen doc).
Proof.
  induction attempts as [|n IH]; simpl; [apply does_throw|].
  eapply (does_bind (λ _ db db', db' = db) (λ _ seq db db', insertedLine id (serverLine seq "cross_check" doc) (Some gen) db db')); [| |by intros a b x y z ->].
  { apply does_stmt. intros db a db'. cbv zeta. repeat case_match; intros; simplify_eq; done. }
  intros [seq|]; [|apply does_throw].
  eapply (does_bind _ (λ res seq' db db', if Inserted res then db' = db ∧ seq' = seq
     else insertedLine id (serverLine seq' "cross_check" doc) (Some gen) db db')); [exact (writes_insert id (Some gen) (serverLine seq "cross_check" doc))| |].
  - intros res. destruct (GenerationLive res); [|apply does_throw]. simpl. destruct (Inserted res); [by apply does_ret|exact IH].
  - intros res seq' x y z [_ H1] H2. destruct (Inserted res); [destruct H2 as [-> ->]; done|by subst].
Qed.

(** The locked row's mark is where the search for a number starts. *)
Definition switchedTo (id : uuid) (gen start : Z) (doc : json) (p : Z * option Z) (db db' : DB) : Prop :=
  ∀ run, runs db !! id = Some run → last_seq run = start →
  servedTo id (match p.2 with Some n => Some (serverLine n credentialSwitchMessageKind doc, Some gen) | None => None end) db db'.
Lemma does_switch attempts id gen doc start now : ∀ seq,
  does (switchedTo id gen start doc) (insertSwitch attempts id gen doc start now seq).
Proof.
  induction attempts as [|n IH]; intros seq; simpl.
  - eapply (does_bind _ (λ m p db db', p.2 = None ∧ raised id (if m <? start then start else m) (Some gen) now db db')); [apply does_query|..].
    + intros m. eapply (does_bind _ (λ _ p db db', p.2 = None ∧ db' = db)); [apply does_raise| |].
      * intros _. by apply does_ret.
      * by intros _ p x y z [? _] [? ->].
    + intros m [last o] x y z [-> ->] [Hp Hr] run Hrun Hs. simpl in Hp |- *. subst o. eapply served_mark; [done|done|].
      destruct (maxSeq_elem (messagesOf x id)) as [E|E]; destruct (_ <? _) eqn:El; [right; left; lia|left; lia|right; left; lia|by right; right].
  - eapply (does_bind _ (λ res p db db', if Inserted res
      then p.2 = Some seq ∧ raised id seq (Some gen) now db db' else switchedTo id gen start doc p db db'));
      [exact (writes_insert id (Some gen) (serverLine seq credentialSwitchMessageKind doc))|..].
    + intros res. destruct (Inserted res).
      * eapply (does_bind _ (λ _ p db db', p.2 = Some seq ∧ db' = db)); [apply does_raise|intros _; by apply does_ret|].
        by intros _ p x y z [? _] [? ->].
      * eapply (does_bind _ (λ _ p db db', switchedTo id gen start doc p db db')); [apply does_query|intros m; apply IH|].
        by intros m p x y z [-> ->].
    + intros res [last o] x y z [_ H1] H2 run Hrun Hs. destruct (Inserted res); simpl in *.
      * destruct H2 as [-> Hr]. by eapply served_line.
      * subst y. by apply (H2 run).
Qed.
Lemma does_credentialSwitch id gen doc start now : does (switchedTo id gen start doc) (insertCredentialSwitchMessage id gen doc start now).
Proof.
  eapply (does_bind _ (λ _ p db db', switchedTo id gen start doc p db db')); [apply does_query| |by intros n p x y z [-> ->]].
  intros n. destruct (0 <? n); [|apply does_switch]. apply does_ret. intros db run Hrun _. by eapply served_none.
Qed.

(** ** The lines as transactions *)
Definition lineOf (seq : option Z) (kind : string) (doc : json) (gen : option Z) : line :=
  match seq with Some n => Some (serverLine n kind doc, gen) | None => None end.
Lemma commits_readmit id doc : commits (λ seq db db', is_Some seq ∧ servedTo id (lineOf seq "status" doc None) db db') (readmitTx id doc).
Proof.
  eapply (commits_bind _ (λ n seq db db', is_Some n ∧ seq = n ∧ db' = db)); [apply does_readmit|..].
  - intros [n|]; [|apply commits_throw]. intros t Ht. eapply wp_T_mono; [by apply (commits_ret (Some n))|].
    intros [a|e] t'; [by intros [-> ->]; eauto|]. intros [?|(a & -> & ->)]; [by left|right; eauto].
  - intros n seq x y z H1 (Hn & -> & ->). destruct n as [n|]; [by eauto|by destruct Hn].
Qed.
Lemma commits_crossCheck id gen cc doc now :
  commits (λ seq db db', servedTo id (lineOf seq "cross_check" doc (Some gen)) db db') (crossCheckTx id gen cc doc now).
Proof.
  eapply (commits_bind (λ seq db db', servedTo id (lineOf (Some seq) "cross_check" doc (Some gen)) db db')
    (λ n seq db db', seq = Some n ∧ db' = db)); [|intros n; apply commits_ret|by intros n seq x y z H1 [-> ->]].
  rewrite /appendPlanCrossCheckEvent. destruct (_ || _ || _); [apply does_throw|].
  eapply (does_bind _ (λ seq seq' db db', seq' = seq ∧ raised id seq (Some gen) now db db')); [apply does_event|..].
  - intros seq. eapply (does_bind _ (λ _ seq' db db', seq' = seq ∧ db' = db)); [apply does_raise|..].
    + intros n. destruct (n =? 1); [by apply does_ret|apply does_throw].
    + by intros n seq' x y z [? _] [-> ->].
  - intros seq seq' x y z H1 [-> H2]. exact (served_line id (serverLine seq "cross_check" doc) (Some gen) now x y z H1 H2).
Qed.
Lemma commits_recordCredential id gen switched doc now :
  commits (λ p db db', servedTo id (lineOf p.2 credentialSwitchMessageKind doc (Some gen)) db db')
    (recordRunCredentialTx id gen switched doc now).
Proof.
  eapply (commits_bind _ (λ found p db db', match found with None => False
    | Some run => runs db !! id = Some run → servedTo id (lineOf p.2 credentialSwitchMessageKind doc (Some gen)) db db' end)); [apply does_query|..].
  - intros [locked|]; [|apply commits_throw]. destruct (_ || _); [apply commits_throw|].
    eapply (commits_bind (λ p db db', switchedTo id gen (last_seq locked) doc p db db') (λ p p' db db', p' = p ∧ db' = db)).
    + destruct (_ && _); [apply does_credentialSwitch|]. apply does_ret. intros db run Hrun _. by eapply served_none.
    + intros p. apply commits_ret.
    + intros p p' x y z H1 [-> ->] Hrun. by apply (H1 locked).
  - intros found p x y z [-> ->] H2. destruct (runs x !! id) as [run|] eqn:E; [by apply H2|done].
Qed.

Lemma served_note id m gen db db' : insertedLine id m gen db db' → Kind m = harnessModelFallbackKind → servedTo id (Some (m, gen)) db db'.
Proof.
  intros ([M1 M2 M3 M4 M5] & Hl & Hn & Hm) Hk. rewrite /runLive in Hl. destruct (runs db !! id) as [run|] eqn:Er; [|done].
  split; [done|intros i Hi; by rewrite M5 // M2|]. exists run, (last_seq run), (last_activity_at run).
  rewrite M2 withLastSeq_same. split_and!; try done; auto. by apply live_gen.
Qed.
Lemma fallbackInsert_effect id gen start doc fs db note db' : fallbackInsert id gen start doc fs db = (note, db') →
  db' = db ∧ note = None ∨
  ∃ m, Kind m = harnessModelFallbackKind ∧ servedTo id (Some (m, Some gen)) db db' ∧ (note = None ∨ note = Some m).
Proof.
  rewrite /fallbackInsert. set (m := serverLine _ _ _). destruct (inTx _ fs db) as [r d] eqn:E. intros [= <- ->].
  apply (commits_inTx (λ res db db', if Inserted res then servedTo id (Some (m, Some gen)) db db' else db' = db)) in E.
  - destruct r as [res|e].
    + destruct (Inserted res); [right; exists m; auto|by left].
    + destruct E as [->|[res E]]; [by left|]. destruct (Inserted res); [right; exists m; auto|by left].
  - eapply (commits_bind _ (λ res res' db db', res' = res ∧ db' = db)); [apply writes_insert|intros res; apply commits_ret|].
    intros res res' x y z [_ H1] [-> ->]. destruct (Inserted res); [by apply served_note|done].
Qed.
Lemma fallbackMark_effect id gen m now fs db pub db' : fallbackMark id gen m now fs db = (pub, db') →
  (pub = [] ∨ pub = [m]) ∧ (db' = db ∨ raised id (Seq m) (Some gen) now db db').
Proof.
  rewrite /fallbackMark. destruct (inTx _ fs db) as [r d] eqn:E. intros [= <- ->].
  apply (commits_inTx (λ n db db', raised id (Seq m) (Some gen) now db db')) in E.
  - destruct r as [n|e]; [by auto|]. split; [by left|]. destruct E as [->|[n E]]; auto.
  - eapply (commits_bind _ (λ res res' db db', res' = res ∧ db' = db)); [apply does_raise|intros res; apply commits_ret|].
    by intros res res' x y z [H1 _] [-> ->].
Qed.

(** ** Every step keeps the invariant *)
Lemma highWater_ext db db' id r r' : messagesOf db' id = messagesOf db id → last_seq r' = last_seq r →
  highWater db id r → highWater db' id r'.
Proof. intros Em El [H1 H2 H3]. split; rewrite El ?Em //. Qed.

Lemma inv_start : inv start.
Proof.
  split; simpl; try done; try by intros ? [? ?]. - intros e. by rewrite elem_of_nil. - constructor. - intros id m. by rewrite elem_of_nil.
Qed.

(** What is to be published may be dropped, or published. *)
Lemma inv_pubs db pubs pubs' ids : invOf db pubs ids → pubs' ⊆+ pubs → invOf db pubs' ids.
Proof.
  intros [Hh Hg Hu Hk Ho Hl] Hs. assert (∀ e, e ∈ pubs' → e ∈ pubs) as Hsub by (intros e He; by eapply elem_of_submseteq).
  split; try done; [by auto| |by eauto]. destruct (submseteq_Permutation _ _ Hs) as [k Hk']. rewrite Hk' fmap_app in Ho. by apply NoDup_app in Ho as [? _].
Qed.

Lemma append_high w id batch claimGen now run new db db' :
  appended w id batch claimGen now run new db db' → highWater db id run →
  ∃ run', runs db' !! id = Some run' ∧ claim_generation run' = claim_generation run ∧ highWater db' id run'.
Proof.
  intros [Hown Hval Hlive _ _ _ Hm _ Hr _ _] [H0 Hb Hs]. apply owned_run in Hown.
  set (gen := effective run claimGen) in *. destruct (generationLive run gen) eqn:El; simpl in Hr.
  2:{ exists run. rewrite Hr. split; [done|]. split; [done|]. by apply (highWater_ext db _ _ run). }
  assert (∀ seq m, messagesOf db' id !! seq = Some m →
    seq <= Z.max (last_seq run) (highest batch) ∨ m_kind m = harnessModelFallbackKind) as Hbound.
  { intros seq m Hsome. rewrite Hm in Hsome. destruct (storeAll_new _ _ _ _ _ Hsome) as [Hl|[_ (x & Hx & <- & _)]].
    - destruct (Hb seq m Hl); [left; lia|by right].
    - apply news_stored in Hx as [Hx _]. destruct (clean_seq _ _ _ Hx) as (y & Hy & <-). left.
      pose proof (highest_le _ _ Hy). lia. }
  destruct (last_seq run <? highest batch) eqn:Elt.
  - eexists. rewrite Hr lookup_insert_eq. split; [done|]. split; [done|]. split; simpl; [pose proof (highest_nonneg batch); lia| |].
    + intros seq m Hseq. destruct (Hbound _ _ Hseq); [left; lia|by right].
    + intros _. destruct (highest_elem batch) as (x & Hx & <-); [lia|]. rewrite Hm.
      apply (storeAll_all gen (cleanMessage run <$> batch) (messagesOf db id) (cleanMessage run x)).
      apply list_elem_of_fmap. by exists x.
  - exists run. rewrite Hr. split; [done|]. split; [done|]. split; [done| |].
    + intros seq m Hseq. destruct (Hbound _ _ Hseq); [left; lia|by right].
    + intros Hp. destruct (Hs Hp) as [m Hl]. rewrite Hm. exists m. by apply storeAll_keeps.
Qed.

(** A step that stores nothing new: every run is an old one with its mark, and
    the messages of the runs there are, are the old ones. *)
Lemma inv_same db db' pubs ids : invOf db pubs ids →
  (∀ id r', runs db' !! id = Some r' → ∃ r, runs db !! id = Some r ∧ last_seq r' = last_seq r) →
  (∀ id, messagesOf db' id = if runs db' !! id then messagesOf db id else ∅) → invOf db' pubs ids.
Proof.
  intros [Hh Hg Hu Hk Ho Hl] Hr Hm. split; simpl; try done.
  - intros id r' Hr'. destruct (Hr _ _ Hr') as (r & Hrr & E). apply (highWater_ext db db' id r); [|done|by apply Hh].
    by rewrite Hm Hr'.
  - intros id Hn. by rewrite Hm Hn.
  - intros id [r' Hr']. destruct (Hr _ _ Hr') as (r & Hrr & _). apply Hu. by eexists.
  - intros id m Hin [r' Hr']. destruct (Hr _ _ Hr') as (r & Hrr & _). rewrite Hm Hr'. apply Hl; [done|by eexists].
Qed.

(** A step that adds messages to one run, and publishes or will publish some. *)
Lemma inv_adds db db' pubs ids id run run' (new : list IncomingMessage) (rows : IncomingMessage → option Z) : invOf db pubs ids →
  runs db !! id = Some run → runs db' !! id = Some run' → highWater db' id run' →
  (∀ i, i ≠ id → runs db' !! i = runs db !! i ∧ messagesOf db' i = messagesOf db i) →
  (∀ seq m, messagesOf db id !! seq = Some m → messagesOf db' id !! seq = Some m) →
  (∀ m, m ∈ new → messagesOf db id !! Seq m = None ∧ messagesOf db' id !! Seq m = Some (rowOf (rows m) m)) →
  NoDup (Seq <$> new) → invOf db' (pubs ++ (pair id <$> new)) ids.
Proof.
  intros [Hh Hg Hu Hk Ho Hl] Hrun Hr' Hhw Hne Hkeep Hnew Hnd. split; simpl.
  - intros i r Hi. destruct (decide (i = id)) as [->|Hd]; [by simplify_eq|]. destruct (Hne _ Hd) as [Er Em].
    rewrite Er in Hi. by apply (highWater_ext db _ _ r); [|done|apply Hh].
  - intros i Hi. destruct (decide (i = id)) as [->|Hd]; [by simplify_eq|]. destruct (Hne _ Hd) as [Er Em]. rewrite Em. apply Hg. congruence.
  - intros i Hi. destruct (decide (i = id)) as [->|Hd]; [by apply Hu; eexists|]. destruct (Hne _ Hd) as [Er _]. apply Hu. by rewrite -Er.
  - intros e. rewrite elem_of_app. intros [He|He]; [by apply Hk|]. apply list_elem_of_fmap in He as (m & -> & _). by apply Hu; eexists.
  - rewrite fmap_app. apply NoDup_app. split; [done|]. split.
    + intros k (e & -> & He)%list_elem_of_fmap (x & Hx & Hin)%list_elem_of_fmap.
      apply list_elem_of_fmap in Hin as (m & -> & Hm). destruct e as [i e]. injection Hx as -> Es.
      destruct (Hl _ _ He) as [g Hg']; [by eexists|]. destruct (Hnew _ Hm) as [Hnone _]. rewrite Es in Hg'. by rewrite Hg' in Hnone.
    + rewrite -list_fmap_compose.
      change (NoDup ((λ m, (id, Seq m)) <$> new)). rewrite (list_fmap_compose Seq (pair id) new). by apply NoDup_fmap; [apply _|].
  - intros i m. rewrite elem_of_app. intros [Hin|Hin] Hsome.
    + destruct (decide (i = id)) as [->|Hd].
      * destruct (Hl _ _ Hin) as [g Hs]; [by eexists|]. exists g. by apply Hkeep.
      * destruct (Hne _ Hd) as [Er Em]. rewrite Em. apply Hl; [done|]. by rewrite -Er.
    + apply list_elem_of_fmap in Hin as (m' & [= -> ->] & Hm'). exists (rows m'). by apply Hnew.
Qed.

Lemma inv_append db pubs ids w id batch claimGen now run new db' pub : invOf db pubs ids →
  appended w id batch claimGen now run new db db' → pub = [] ∨ pub = new → invOf db' (pubs ++ (pair id <$> pub)) ids.
Proof.
  intros Hi Happ Hpub. pose proof (owned_run _ _ _ _ (ap_owned _ _ _ _ _ _ _ _ _ Happ)) as Hrun.
  destruct (append_high _ _ _ _ _ _ _ _ _ Happ (in_high _ _ _ Hi _ _ Hrun)) as (run' & Hr' & _ & Hhw).
  assert (∀ m, m ∈ pub → m ∈ new) as Hsub by (destruct Hpub as [->| ->]; [intros m; by rewrite elem_of_nil|done]).
  eapply (inv_adds _ _ _ _ _ run run' pub (λ _, effective run claimGen) Hi); [done|done|done|..].
  - intros i Hd. split; [|by apply (ap_other _ _ _ _ _ _ _ _ _ Happ)].
    rewrite (ap_runs _ _ _ _ _ _ _ _ _ Happ). destruct (_ && _); [by rewrite lookup_insert_ne|done].
  - intros seq m Hsm. rewrite (ap_messages _ _ _ _ _ _ _ _ _ Happ). destruct (generationLive _ _); [by apply storeAll_keeps|done].
  - intros m Hm%Hsub. revert Hm. rewrite (ap_new _ _ _ _ _ _ _ _ _ Happ) (ap_messages _ _ _ _ _ _ _ _ _ Happ).
    destruct (generationLive _ _); [|by rewrite elem_of_nil]. by intros (_ & ? & ?)%news_stored.
  - destruct Hpub as [->| ->]; [constructor|].
    rewrite (ap_new _ _ _ _ _ _ _ _ _ Happ). destruct (generationLive _ _); [apply news_nodup|constructor].
Qed.

Lemma inv_served db pubs ids id x db' pub : invOf db pubs ids → servedTo id x db db' →
  pub = [] ∨ (∃ m gen, x = Some (m, gen) ∧ pub = [m]) → invOf db' (pubs ++ (pair id <$> pub)) ids.
Proof.
  intros Hi [_ Hother (run & v & at' & Hrun & Hr' & Hv & Hst & Hx)] Hpub. destruct (in_high _ _ _ Hi _ _ Hrun) as [H0 Hb Hs].
  assert (∀ seq m, messagesOf db id !! seq = Some m → messagesOf db' id !! seq = Some m) as Hkeep.
  { intros seq m Hm. destruct x as [[y gen]|]; [|by rewrite Hx]. destruct Hx as (Hn & -> & _). by rewrite lookup_insert_ne; [congruence|]. }
  eapply (inv_adds _ _ _ _ _ run (withLastSeq v at' run) pub (λ _, match x with Some (_, gen) => gen | None => None end) Hi); [done|done|..].
  - split; simpl; [lia| |].
    + intros seq m Hm. destruct x as [[y gen]|]; [|rewrite Hx in Hm; destruct (Hb _ _ Hm); [left; lia|by right]].
      destruct Hx as (Hn & Em & Hle & _). rewrite Em lookup_insert_Some in Hm. destruct Hm as [[<- <-]|[_ Hm]]; [done|].
      destruct (Hb _ _ Hm); [left; lia|by right].
    + intros Hp. destruct Hst as [?|[->|?]]; [lia| |done]. destruct (Hs Hp) as [m Hm]. eexists. by apply Hkeep.
  - intros i Hd. destruct (Hother _ Hd). auto.
  - done.
  - intros m Hm. destruct Hpub as [->|(y & gen & -> & ->)]; [by apply elem_of_nil in Hm|]. apply list_elem_of_singleton in Hm as ->.
    destruct Hx as (Hn & -> & _). by rewrite lookup_insert_eq.
  - destruct Hpub as [->|(y & gen & -> & ->)]; [constructor|apply NoDup_singleton].
Qed.

Lemma inv_create db pubs ids id r : invOf db pubs ids → id ∉ ids → last_seq r = 0 → invOf (setRun db id r) pubs ({[id]} ∪ ids).
Proof.
  intros [Hh Hg Hu Hk Ho Hl] Hid H0.
  assert (runs db !! id = None) as Hnone by (apply eq_None_not_Some; intros Hs; by apply Hid, Hu).
  split; simpl; try done.
  - intros i r' Hi. destruct (decide (i = id)) as [->|Hd].
    + rewrite lookup_insert_eq in Hi. injection Hi as <-. split; rewrite ?H0 ?messagesOf_setRun ?(Hg _ Hnone); [done|done|lia].
    + rewrite lookup_insert_ne in Hi; [done|]. by apply (highWater_ext db _ _ r'); [..|apply Hh].
  - intros i Hi. destruct (decide (i = id)) as [->|Hd]; [by rewrite lookup_insert_eq in Hi|].
    rewrite lookup_insert_ne in Hi; [done|]. by apply Hg.
  - intros i Hi. destruct (decide (i = id)) as [->|Hd]; [set_solver|]. rewrite lookup_insert_ne in Hi; [done|]. specialize (Hu _ Hi). set_solver.
  - intros e He. specialize (Hk _ He). set_solver.
  - intros i m Hin Hi. rewrite messagesOf_setRun. apply Hl; [done|]. destruct (decide (i = id)) as [->|Hd]; [by destruct Hid; apply (Hk _ Hin)|].
    by rewrite lookup_insert_ne in Hi.
Qed.

Lemma messagesOf_gone db pubs ids : invOf db pubs ids → ∀ id, messagesOf db id = if runs db !! id then messagesOf db id else ∅.
Proof. intros Hi id. destruct (runs db !! id) eqn:E; [done|]. by apply (in_gone _ _ _ Hi). Qed.

(** A line that is announced is one that was written. *)
Lemma announced_line r seq kind doc gen :
  (match r with Ok seq' => seq' = seq | Err _ => True end) →
  announced r kind doc = [] ∨ ∃ m g, lineOf seq kind doc gen = Some (m, g) ∧ announced r kind doc = [m].
Proof. destruct r as [seq'|e]; [intros ->|by left]. destruct seq as [n|]; [right; by eexists _, _|by left]. Qed.

Lemma inv_line s db' id kind doc gen r seq : inv s → servedTo id (lineOf seq kind doc gen) (tables s) db' →
  match r with Ok seq' => seq' = seq | Err _ => True end →
  inv (mkSys db' (log s ++ (pair id <$> announced r kind doc)) (used s) (notes s)).
Proof.
  intros Hi Hsv Hr. eapply inv_pubs; [eapply inv_served; [exact Hi|exact Hsv|exact (announced_line r seq kind doc gen Hr)]|].
  rewrite /due /=. by apply Permutation_submseteq; rewrite -!assoc (comm (++) (pair id <$> _)).
Qed.
Lemma invOf_note s id gen start doc fs note db' : inv s → fallbackInsert id gen start doc fs (tables s) = (note, db') →
  inv (mkSys db' (log s) (used s) (notes s ++ match note with Some m => [(id, m, gen)] | None => [] end)).
Proof.
  intros Hi He. destruct (fallbackInsert_effect _ _ _ _ _ _ _ _ He) as [[-> ->]|(m & _ & Hsv & Hn)].
  { rewrite app_nil_r. by destruct s. }
  rewrite /inv /due /= fmap_app assoc.
  replace (fst <$> match note with Some m => [(id, m, gen)] | None => [] end) with (pair id <$> match note with Some m => [m] | None => [] end)
    by by destruct note.
  eapply inv_served; [exact Hi|exact Hsv|]. destruct Hn as [->| ->]; [by left|right; eauto].
Qed.
(** Of the lines each writes at most one, to one run. *)
Definition lineKinds : list string := ["status"; "cross_check"; credentialSwitchMessageKind; harnessModelFallbackKind].
Definition wrote (s s' : sys) : Prop := tables s' = tables s ∨
  ∃ id x, servedTo id x (tables s) (tables s') ∧ ∀ m gen, x = Some (m, gen) → Kind m ∈ lineKinds.
Lemma wrote_line s s' id seq kind doc gen : servedTo id (lineOf seq kind doc gen) (tables s) (tables s') → kind ∈ lineKinds → wrote s s'.
Proof. intros Hsv Hk. right. eexists _, _. split; [exact Hsv|]. intros m g. by destruct seq; [intros [= <- <-]|]. Qed.
Lemma raised_none id v gen now db db' : runs db !! id = None → raised id v gen now db db' → db' = db.
Proof. intros Er (R1 & R2 & R3 & R4 & R5). rewrite Er in R5. destruct db, db'; simpl in *. by subst. Qed.
Lemma wrote_mark s id gen m now fs pub db' before after l n : inv s → notes s = before ++ (id, m, gen) :: after →
  fallbackMark id gen m now fs (tables s) = (pub, db') → wrote s (mkSys db' l (used s) n).
Proof.
  intros Hi Hn He. destruct (fallbackMark_effect _ _ _ _ _ _ _ _ He) as [_ [->|Hrz]]; [by left|].
  destruct (runs (tables s) !! id) as [run|] eqn:Er; [|left; by eapply raised_none]. right. exists id, None. split; [|done].
  eapply served_mark; [done|exact Hrz|]. right; right. destruct (in_log _ _ _ Hi id m) as [g Hg]; [|by eexists|by eexists].
  rewrite elem_of_app /due Hn fmap_app fmap_cons /=. right. rewrite elem_of_app elem_of_cons. auto.
Qed.
Lemma line_wrote s s' : inv s → lineStep s s' → wrote s s'.
Proof.
  intros Hi Hst. destruct Hst as [id doc fs r db' He|id gen cc doc now fs r db' He
    |id gen switched doc now fs r db' He|id gen start doc fs note db' He|id gen m now fs pub db' before after Hn He].
  - pose proof (commits_inTx _ _ _ _ _ _ (commits_readmit id doc) He) as Hc.
    destruct r as [seq|e]; [|destruct Hc as [->|[seq Hc]]; [by left|]]; (eapply wrote_line; [apply Hc|set_solver]).
  - pose proof (commits_inTx _ _ _ _ _ _ (commits_crossCheck id gen cc doc now) He) as Hc.
    destruct r as [seq|e]; [|destruct Hc as [->|[seq Hc]]; [by left|]]; (eapply wrote_line; [apply Hc|set_solver]).
  - pose proof (commits_inTx _ _ _ _ _ _ (commits_recordCredential id gen switched doc now) He) as Hc.
    destruct r as [p|e]; [|destruct Hc as [->|[p Hc]]; [by left|]]; (eapply wrote_line; [apply Hc|set_solver]).
  - destruct (fallbackInsert_effect _ _ _ _ _ _ _ _ He) as [[-> _]|(m & Hk & Hsv & _)]; [by left|].
    right. eexists _, _. split; [exact Hsv|]. intros m' g [= <- <-]. rewrite Hk. set_solver.
  - by eapply wrote_mark.
Qed.

Lemma invOf_mark s id gen m now fs pub db' before after : inv s → notes s = before ++ (id, m, gen) :: after →
  fallbackMark id gen m now fs (tables s) = (pub, db') → inv (mkSys db' (log s ++ (pair id <$> pub)) (used s) (before ++ after)).
Proof.
  intros Hi Hn He. assert (inv (mkSys db' (log s) (used s) (notes s))) as Hi'.
  { destruct (wrote_mark s _ _ _ _ _ _ _ _ _ (log s) (notes s) Hi Hn He) as [Hw|(i & x & Hsv & _)]; simpl in *; [subst db'; by destruct s|].
    rewrite /inv /=. eapply inv_pubs; [eapply (inv_served _ _ _ _ _ _ [] Hi Hsv); by left|]. by rewrite app_nil_r. }
  destruct (fallbackMark_effect _ _ _ _ _ _ _ _ He) as [Hpub _].
  eapply inv_pubs; [exact Hi'|]. rewrite /due /= Hn !fmap_app fmap_cons /=.
  destruct Hpub as [->| ->]; simpl; rewrite ?app_nil_r.
  - apply submseteq_skips_l, submseteq_skips_l. by apply submseteq_cons.
  - apply Permutation_submseteq. rewrite -assoc. apply Permutation_app_head. simpl. apply Permutation_middle.
Qed.

Lemma inv_lineStep s s' : lineStep s s' → inv s → inv s'.
Proof.
  intros Hst Hi. destruct Hst as [id doc fs r db' He|id gen cc doc now fs r db' He
    |id gen switched doc now fs r db' He|id gen start doc fs note db' He|id gen m now fs pub db' before after Hn He].
  - pose proof (commits_inTx _ _ _ _ _ _ (commits_readmit id doc) He) as Hc. destruct r as [seq|e].
    + eapply inv_line; [done|apply Hc|done].
    + destruct Hc as [->|[seq [_ Hc]]]; [simpl; rewrite app_nil_r; by destruct s|by eapply inv_line].
  - pose proof (commits_inTx _ _ _ _ _ _ (commits_crossCheck id gen cc doc now) He) as Hc. destruct r as [seq|e].
    + by eapply inv_line.
    + destruct Hc as [->|[seq Hc]]; [simpl; rewrite app_nil_r; by destruct s|by eapply inv_line].
  - pose proof (commits_inTx _ _ _ _ _ _ (commits_recordCredential id gen switched doc now) He) as Hc. destruct r as [p|e].
    + by eapply inv_line.
    + destruct Hc as [->|[p Hc]]; [simpl; rewrite app_nil_r; by destruct s|by eapply inv_line].
  - by eapply invOf_note.
  - by eapply invOf_mark.
Qed.

Lemma inv_one_step s s' : step s s' → inv s → inv s'.
Proof.
  intros Hst Hi. pose proof (messagesOf_gone _ _ _ Hi) as Hgone.
  destruct Hst as [w id batch claimGen now stamps fs out db' He|s' Hln
    |id run fs r db' He|id r Hid H0|id r r' Hr Hl Hc|id|ws rc].
  - destruct (append_effect _ _ _ _ _ _ _ _ _ _ He) as [(-> & -> & _)|(run & new & Happ & Hpub)].
    + simpl. rewrite app_nil_r. by destruct s.
    + eapply inv_pubs; [apply (inv_append _ _ _ _ _ _ _ _ _ _ _ (published out) Hi Happ); destruct Hpub as [[? _]|[? _]]; auto|].
      rewrite /due /=. by apply Permutation_submseteq; rewrite -!assoc (comm (++) (pair id <$> _)).
  - by eapply inv_lineStep.
  - destruct (refold_effect _ _ _ _ _ _ He) as [[-> _]|Hrf]; [by destruct s|]. apply (inv_same (tables s)); [exact Hi|..].
    + intros i r'. rewrite (rf_runs _ _ _ _ Hrf) lookup_alter_Some. intros [(-> & r0 & ? & ->)|[_ ?]]; eauto.
    + intros i. rewrite {1}/messagesOf (rf_messages _ _ _ _ Hrf) -/(messagesOf (tables s) i) (rf_runs _ _ _ _ Hrf) lookup_alter Hgone.
      case_decide; [subst; by destruct (runs (tables s) !! i)|by destruct (runs (tables s) !! i)].
  - by apply inv_create.
  - apply (inv_same (tables s)); [exact Hi|..].
    + simpl. intros i r0 Hi0. destruct (decide (i = id)) as [->|Hd]; [rewrite lookup_insert_eq in Hi0; simplify_eq; eauto|].
      rewrite lookup_insert_ne in Hi0; [done|]. eauto.
    + intros i. rewrite messagesOf_setRun Hgone /=. destruct (decide (i = id)) as [->|Hd]; [by rewrite lookup_insert_eq Hr|].
      rewrite lookup_insert_ne //. by destruct (runs (tables s) !! i).
  - apply (inv_same (tables s)); [exact Hi|..]; simpl.
    + intros i r0 [_ ?]%lookup_delete_Some. eauto.
    + intros i. rewrite {1}/messagesOf /=. destruct (decide (i = id)) as [->|Hd]; [by rewrite !lookup_delete_eq|].
      rewrite !lookup_delete_ne //. apply Hgone.
  - apply (inv_same (tables s)); [exact Hi|..]; simpl; [eauto|]. done.
Qed.

Lemma inv_steps s s' : steps s s' → inv s → inv s'.
Proof. induction 1; [done|]. intros Hi. eapply inv_one_step; eauto. Qed.
End Append.

End MessageInv.
