(* ===== verification/MessageSafe.v ===== *)
(** The theorems on the messages of a run ([MessageAppend]) over whole histories, the
    lines the server writes included: a message is stored once and published at most
    once, the mark of a run covers all but a note whose mark was lost, and a claim
    that was superseded stores nothing. *)

From S2P Require Import Prelude Result GoText GoStrings GoJson GoFloat GoNumber Txn Sanitize UsageFold MessageDb PersistFail MessageAppend.
From S2P Require Import MessageInv.

Local Open Scope Z_scope.

Module MessageSafe.
Import Txn GoStrings GoJson UsageFold MessageDb MessageAppend MessageInv.

Section Safe.
Context `{Jsonb}.

(** C5. Whatever workers deliver, in whatever order and however often, whatever the
    server writes into the same feed and whichever statement fails, no message is
    published twice; what was published is what is stored as long as the run exists;
    [last_seq] is zero or a number that is stored, and no number stored is past it but
    that of a fallback note, whose mark is a statement of its own. *)
Theorem messages_once s : steps start s →
  NoDup (logKey <$> log s) ∧
  (∀ id m r, (id, m) ∈ log s → runs (tables s) !! id = Some r →
     ∃ gen, messagesOf (tables s) id !! Seq m = Some (rowOf gen m)) ∧
  (∀ id r, runs (tables s) !! id = Some r → highWater (tables s) id r).
Proof.
  intros Hs. destruct (inv_steps _ _ Hs inv_start) as [Hh _ _ _ Ho Hl]. split_and!; [|intros id m r Hin Hr; apply Hl; [by apply elem_of_app; left|by eexists]|done].
  rewrite fmap_app in Ho. by apply NoDup_app in Ho as [? _].
Qed.

(** * Superseded claims *)
(** The rows of a run, seen from one in which its claims are past [g]. *)
Record past (id : uuid) (g : Z) (ms : gmap Z Message) (s : sys) : Prop := mkPast {
  pa_used : id ∈ used s;
  pa_claim : ∀ r, runs (tables s) !! id = Some r → g < claim_generation r;
  pa_rows : ∀ seq m, messagesOf (tables s) id !! seq = Some m → m_generation m = Some g → ms !! seq = Some m;
  pa_keeps : ∀ seq m, ms !! seq = Some m → is_Some (runs (tables s) !! id) → messagesOf (tables s) id !! seq = Some m }.

Lemma effective_gen run claimGen g : effective run claimGen = Some g → claimGen = Some g.
Proof. rewrite /effective. by destruct (_ && _). Qed.

Lemma past_append id g ms s w id' batch claimGen now run new db' l n :
  appended w id' batch claimGen now run new (tables s) db' → past id g ms s → past id g ms (mkSys db' l (used s) n).
Proof.
  intros Happ [Hu Hc Hr Hk]. destruct (decide (id = id')) as [<-|Hne].
  - pose proof (owned_run _ _ _ _ (ap_owned _ _ _ _ _ _ _ _ _ Happ)) as Hrun. specialize (Hc _ Hrun).
    assert (∃ run', runs db' !! id = Some run' ∧ claim_generation run' = claim_generation run) as (run' & Hr' & Ec).
    { rewrite (ap_runs _ _ _ _ _ _ _ _ _ Happ). destruct (_ && _); [|by exists run]. rewrite lookup_insert_eq. by eexists. }
    split; simpl; [done| | |].
    + intros r ?. simplify_eq. lia.
    + intros seq m. rewrite (ap_messages _ _ _ _ _ _ _ _ _ Happ). destruct (generationLive run _) eqn:El; [|by apply Hr].
      intros Hm Hg. destruct (storeAll_new _ _ _ _ _ Hm) as [Hl|[_ (x & _ & _ & ->)]]; [by apply Hr|].
      simpl in Hg. rewrite Hg /generationLive in El. apply andb_true_iff in El as [_ El]. lia.
    + intros seq m Hm _. specialize (Hk _ _ Hm (mk_is_Some _ _ Hrun)). rewrite (ap_messages _ _ _ _ _ _ _ _ _ Happ).
      destruct (generationLive run _); [by apply storeAll_keeps|done].
  - assert (runs db' !! id = runs (tables s) !! id ∧ messagesOf db' id = messagesOf (tables s) id) as [Er Em].
    { split; [|by apply (ap_other _ _ _ _ _ _ _ _ _ Happ)]. rewrite (ap_runs _ _ _ _ _ _ _ _ _ Happ).
      destruct (_ && _); [by rewrite lookup_insert_ne|done]. }
    split; simpl; rewrite ?Er ?Em; done.
Qed.

(** A step that leaves the messages of the run alone and its claim no older. *)
Lemma past_same id g ms s db l u n : used s ⊆ u →
  (∀ r', runs db !! id = Some r' → ∃ r, runs (tables s) !! id = Some r ∧ claim_generation r <= claim_generation r') →
  (is_Some (runs db !! id) → messagesOf db id = messagesOf (tables s) id) →
  (runs db !! id = None → messagesOf db id = ∅ ∨ messagesOf db id = messagesOf (tables s) id) →
  past id g ms s → past id g ms (mkSys db l u n).
Proof.
  intros Hsub Hruns Hm Hn [Hu Hc Hr Hk]. split; simpl; [set_solver| | |].
  - intros r' Hr'. destruct (Hruns _ Hr') as (r & Hrr & ?). specialize (Hc _ Hrr). lia.
  - intros seq m. destruct (runs db !! id) as [r'|]; [rewrite Hm; [by eexists|apply Hr]|].
    destruct (Hn eq_refl) as [->| ->]; [done|apply Hr].
  - intros seq m Hs [r' Hr']. rewrite Hm; [by eexists|]. destruct (Hruns _ Hr') as (r & Hrr & _). apply Hk; [done|by eexists].
Qed.

Lemma past_served id g ms s id' x db' l n : servedTo id' x (tables s) db' → past id g ms s → past id g ms (mkSys db' l (used s) n).
Proof.
  intros [_ Hother (run & v & at' & Hrun & Hr' & _ & _ & Hx)] Hp. destruct (decide (id = id')) as [<-|Hne].
  2:{ destruct (Hother _ Hne) as [Em Er]. apply (past_same _ _ _ s); [done| |done|by right|done]. rewrite Er. intros r' ?. by exists r'. }
  destruct Hp as [Hu Hc Hrow Hk]. split; simpl; [done| | |].
  - rewrite Hr'. intros r [= <-]. by apply (Hc _ Hrun).
  - intros seq m Hm Hg. destruct x as [[y gen]|]; [|rewrite Hx in Hm; by apply Hrow]. destruct Hx as (_ & Em & _ & Hgen).
    rewrite Em lookup_insert_Some in Hm. destruct Hm as [[_ <-]|[_ Hm]]; [|by apply Hrow]. simpl in Hg. subst gen.
    destruct Hgen as [?|[= Hgen]]; [done|]. specialize (Hc _ Hrun). lia.
  - intros seq m Hm _. specialize (Hk _ _ Hm (mk_is_Some _ _ Hrun)). destruct x as [[y gen]|]; [|by rewrite Hx].
    destruct Hx as (Hn & -> & _). rewrite lookup_insert_ne //. congruence.
Qed.
Lemma past_step id g ms s s' : step s s' → inv s → past id g ms s → past id g ms s'.
Proof.
  intros Hst Hi Hp. assert (∀ l n, past id g ms (mkSys (tables s) l (used s) n)) as Hstay by (intros l n; by destruct Hp).
  destruct Hst as [w i batch claimGen now stamps fs out db' He|s' Hln
    |i run fs r db' He|i r Hid H0|i r r' Hr Hl Hc|i|ws rc].
  - destruct (append_effect _ _ _ _ _ _ _ _ _ _ He) as [(-> & _ & _)|(run & new & Happ & _)]; [done|by eapply past_append].
  - assert (used s' = used s) as Eu by by destruct Hln. destruct (line_wrote _ _ Hi Hln) as [Et|(i & x & Hsv & _)], s' as [db' l' u' n'].
    all: simpl in *; subst; try done; by eapply past_served.
  - destruct (refold_effect _ _ _ _ _ _ He) as [[-> _]|Hrf]; [done|].
    assert (messagesOf db' id = messagesOf (tables s) id) as Em by (by rewrite /messagesOf (rf_messages _ _ _ _ Hrf)).
    apply (past_same _ _ _ s); [done| |done|by right|done]. intros r'. rewrite (rf_runs _ _ _ _ Hrf) lookup_alter_Some.
    intros [(_ & r0 & ? & ->)|[_ ?]]; eexists; split; done.
  - assert (i ≠ id) as Hne by (intros ->; by apply Hid, (pa_used _ _ _ _ Hp)).
    apply (past_same _ _ _ s); [set_solver| |done|by right|done]. simpl. intros r'. rewrite lookup_insert_ne //. intros ?. by exists r'.
  - apply (past_same _ _ _ s); [done| |done|by right|done]. simpl. intros r0. rewrite lookup_insert_Some.
    intros [[-> <-]|[_ ?]]; eexists; split; done.
  - apply (past_same _ _ _ s); [done|..|done]; simpl.
    + intros r0 [_ ?]%lookup_delete_Some. by exists r0.
    + intros [r0 [Hne _]%lookup_delete_Some]. by rewrite /messagesOf /= lookup_delete_ne.
    + intros _. rewrite /messagesOf /= lookup_delete. case_decide; [by left|by right].
  - apply (past_same _ _ _ s); [done| |done|by right|done]. simpl. intros r0 ?. by exists r0.
Qed.

Lemma past_steps id g ms s s' : steps s s' → inv s → past id g ms s → past id g ms s'.
Proof.
  intros Hs Hi Hp. assert (inv s' ∧ past id g ms s') as [_ ?]; [|done].
  induction Hs as [|s1 s2 Hs [IHi IHp] Hst]; [done|]. split; [by eapply inv_one_step|by eapply past_step].
Qed.

(** What an append must show to store anything: the claim is the worker's and stands,
    and it names the claim's generation, or it names none and is one that may. *)
Record current (w : Worker) (r : Run) (claimGen : option Z) : Prop := mkCurrent {
  cu_worker : r_worker r = Some (w_ID w);
  cu_live : claim_released r = false;
  cu_generation : effective r claimGen = Some (claim_generation r) ∨
    effective r claimGen = None ∧ (r_kind r = Chat ∨ CredentialSwitchV1 ∉ ProtocolCapabilities w) }.
Lemma owned_worker db id wid run : owned db id wid = Some run → r_worker run = Some wid.
Proof.
  rewrite /owned. destruct (runs db !! id) as [r|]; simpl; [|done]. destruct (_ && _) eqn:E; [|done]. intros [= <-].
  apply andb_true_iff in E as [E _]. by apply bool_decide_eq_true in E.
Qed.
Lemma appended_current w id batch claimGen now run new db db' : appended w id batch claimGen now run new db db' →
  messagesOf db' id ≠ messagesOf db id → current w run claimGen.
Proof.
  intros Happ Hne. assert (generationLive run (effective run claimGen) = true) as Hl.
  { apply not_false_iff_true. intros El. apply Hne. by rewrite (ap_messages _ _ _ _ _ _ _ _ _ Happ) El. }
  pose proof (ap_owned _ _ _ _ _ _ _ _ _ Happ) as Hown. apply owned_worker in Hown.
  split; [done|rewrite /generationLive in Hl; by destruct (claim_released run)|]. destruct (live_gen _ _ Hl) as [E|E]; [|by left]. right.
  split; [done|by apply (ap_named _ _ _ _ _ _ _ _ _ Happ)].
Qed.

(** C16. Once a run is claimed anew, the rows of its earlier claims are closed: no
    later history adds one, and none is altered while the run exists.  An append that
    names no generation leaves no trace of the flight it belongs to; it stores
    something only for the worker whose claim stands, and only if that worker does not
    speak [credential_switch_v1] or the run is a chat. *)
Theorem old_claim_fenced s s' id r g : steps start s → steps s s' →
  runs (tables s) !! id = Some r → g < claim_generation r →
  (∀ seq m, messagesOf (tables s') id !! seq = Some m → m_generation m = Some g → messagesOf (tables s) id !! seq = Some m) ∧
  (is_Some (runs (tables s') !! id) →
     ∀ seq m, messagesOf (tables s) id !! seq = Some m → messagesOf (tables s') id !! seq = Some m) ∧
  (∀ w batch claimGen now stamps fs out db', appendMessages w id batch claimGen now stamps fs (tables s') = (out, db') →
     messagesOf db' id ≠ messagesOf (tables s') id → ∃ r', runs (tables s') !! id = Some r' ∧ current w r' claimGen).
Proof.
  intros Hs Hs' Hr Hg. assert (inv s) as Hi by (by apply (inv_steps _ _ Hs inv_start)).
  destruct (past_steps id g (messagesOf (tables s) id) s s' Hs' Hi) as [_ _ Hrow Hk].
  { split; [by apply (in_used _ _ _ Hi); eexists| |done|done]. intros r' ?. by simplify_eq. }
  split; [done|]. split; [intros Hsome seq m Hm; by apply Hk|].
  intros w batch claimGen now stamps fs out db' He Hne.
  destruct (append_effect _ _ _ _ _ _ _ _ _ _ He) as [(-> & _)|(run & new & Happ & _)]; [done|]. exists run.
  split; [exact (owned_run _ _ _ _ (ap_owned _ _ _ _ _ _ _ _ _ Happ))|by eapply appended_current].
Qed.
End Safe.

End MessageSafe.
