(* ===== verification/MessageUsage.v ===== *)
(** The usage of a run is what its stored frames say: the rows that grew with
    the deliveries are those a refold computes ([MessageAppend]).

    The merge of two rows is a join, so neither the order of deliveries nor their
    number matters; what does is that a number stands for one message and that new
    numbers come in order across batches, since a result frame is filed under the
    count of init frames before it.  The session a row is filed under is the one the
    run had at the delivery, where a refold uses the one it has; what the two agree
    on is the leg of a model, whatever the session. *)

From S2P Require Import Prelude Result GoText GoStrings GoJson GoFloat GoNumber Txn Sanitize UsageFold MessageDb PersistFail MessageAppend.
From S2P Require Import MessageInv.

Local Open Scope Z_scope.

Module MessageUsage.
Import Txn GoStrings GoJson UsageFold MessageDb MessageAppend MessageInv.

(** * The join *)
(** A row but for the claim and the lineage of the frame that came first. *)
Definition spend (u : Usage) : Usage :=
  mkUsageRow (input_tokens u) (cache_read_tokens u) (cache_creation_tokens u) (output_tokens u) (cost_usd u) (harness u)
    (cost_status u) (usage_basis u) 0 None.
Definition sp (kv : usageKey * Usage) : usageKey * Usage := (kv.1, spend kv.2).

Record good (h : string) (u : Usage) : Prop := mkGood {
  g_harness : harness u = h;
  g_cost : cost_status u ≠ Metered → cost_usd u = 0;
  g_bare : lineage_index u = 0 ∧ u_generation u = None }.

Lemma spend_merge a b : spend (mergeUsage a b) = mergeUsage (spend a) (spend b).
Proof. done. Qed.
Lemma spend_good h u : harness u = h → (cost_status u ≠ Metered → cost_usd u = 0) → good h (spend u).
Proof. by split. Qed.

Lemma Usage_eq a b : input_tokens a = input_tokens b → cache_read_tokens a = cache_read_tokens b →
  cache_creation_tokens a = cache_creation_tokens b → output_tokens a = output_tokens b → cost_usd a = cost_usd b →
  harness a = harness b → cost_status a = cost_status b → usage_basis a = usage_basis b → lineage_index a = lineage_index b →
  u_generation a = u_generation b → a = b.
Proof. destruct a, b; simpl. by intros -> -> -> -> -> -> -> -> -> ->. Qed.

Lemma mergeStatus_assoc a b c : mergeStatus a (mergeStatus b c) = mergeStatus (mergeStatus a b) c.
Proof. by destruct a, b, c. Qed.
Lemma mergeStatus_comm a b : mergeStatus a b = mergeStatus b a.
Proof. by destruct a, b. Qed.
Lemma mergeStatus_idem a : mergeStatus a a = a.
Proof. by destruct a. Qed.
Lemma merge_good h a b : good h a → good h b → good h (mergeUsage a b).
Proof.
  intros [H1 H2 [H3 H4]] [G1 G2 [G3 G4]]. split; simpl; [done| |by rewrite H4 G4].
  intros Hs. by rewrite bool_decide_eq_false_2.
Qed.
Lemma merge_idem h a : good h a → mergeUsage a a = a.
Proof.
  intros [H1 H2 [H3 H4]]. apply Usage_eq; simpl; try lia; try done.
  - rewrite mergeStatus_idem. case_bool_decide as E; [lia|]. by rewrite H2.
  - apply mergeStatus_idem.
  - by destruct (usage_basis a).
  - by rewrite H4.
Qed.
Lemma merge_comm h a b : good h a → good h b → mergeUsage a b = mergeUsage b a.
Proof.
  intros [H1 _ [H3 H4]] [G1 _ [G3 G4]]. apply Usage_eq; simpl; try lia; try congruence.
  - rewrite mergeStatus_comm. case_bool_decide; lia.
  - apply mergeStatus_comm.
  - by destruct (usage_basis a), (usage_basis b).
  - by rewrite H4 G4.
Qed.
Lemma merge_assoc a b c : mergeUsage a (mergeUsage b c) = mergeUsage (mergeUsage a b) c.
Proof.
  apply Usage_eq; simpl; try lia; try done.
  - rewrite -mergeStatus_assoc. destruct (cost_status a), (cost_status b), (cost_status c); simpl; try done; lia.
  - apply mergeStatus_assoc.
  - by destruct (usage_basis a), (usage_basis b), (usage_basis c).
  - by destruct (u_generation a), (u_generation b).
Qed.

(** * Joining rows *)
(** The row a key has after a list of rows. *)
Definition join (o : option Usage) (u : Usage) : option Usage := Some (match o with Some old => mergeUsage old u | None => u end).
Definition at_ `{EqDecision K} (k : K) (rows : list (K * Usage)) : list Usage := snd <$> filter (λ kv, kv.1 = k) rows.

Lemma upserts_lookup rows : ∀ us k, upserts us rows !! k = foldl join (us !! k) (at_ k rows).
Proof.
  rewrite /upserts /at_. induction rows as [|[k' u] rows IH]; intros us k; [done|]. simpl. rewrite IH filter_cons /=. case_decide as E.
  - subst k'. by rewrite /upsert lookup_insert_eq.
  - by rewrite /upsert lookup_insert_ne.
Qed.

Lemma upserts_spend us rows : spend <$> upserts us rows = upserts (spend <$> us) (sp <$> rows).
Proof.
  revert us. rewrite /upserts. induction rows as [|[k u] rows IH]; intros us; [done|]. rewrite fmap_cons /= IH. f_equal.
  rewrite /upsert fmap_insert lookup_fmap. by destruct (us !! k).
Qed.

(** ** Legs *)
(** The rows of a model in a leg of the run, whatever the session they are filed
    under, as one. *)
Abbreviation legKey := (string * Z)%type (only parsing).
Definition legOf (k : usageKey) : legKey := (k.1.2, k.2).
Definition leg (us : gmap usageKey Usage) (k : legKey) : option Usage :=
  foldl join None (map_to_list (filter (λ '(k', _), legOf k' = k) us)).*2.
Definition pl (kv : usageKey * Usage) : legKey * Usage := (legOf kv.1, kv.2).

Section Join.
Context (h : string).

Lemma join_good o u : (∀ x, o = Some x → good h x) → good h u → ∀ x, join o u = Some x → good h x.
Proof. intros Ho Hu x. destruct o; intros [= <-]; [apply merge_good; auto|done]. Qed.
Lemma joins_good l : ∀ o, (∀ x, o = Some x → good h x) → Forall (good h) l → ∀ x, foldl join o l = Some x → good h x.
Proof. induction l as [|u l IH]; intros o Ho Hl; [done|]. inversion Hl; subst. simpl. apply IH; [by apply join_good|done]. Qed.

Lemma join_swap o a b : good h a → good h b → join (join o a) b = join (join o b) a.
Proof.
  intros Ha Hb. rewrite /join. f_equal. destruct o as [x|]; [|by apply (merge_comm h)].
  by rewrite -!merge_assoc (merge_comm h a b).
Qed.
Lemma join_twice o a : good h a → join (join o a) a = join o a.
Proof. intros Ha. rewrite /join. f_equal. destruct o as [x|]; [by rewrite -merge_assoc (merge_idem h)|by apply (merge_idem h)]. Qed.

Lemma joins_push l : ∀ o a, good h a → Forall (good h) l → foldl join (join o a) l = join (foldl join o l) a.
Proof.
  induction l as [|u l IH]; intros o a Ha Hl; [done|]. inversion Hl; subst. simpl. rewrite join_swap //. by apply IH.
Qed.
Lemma joins_absorb l : ∀ o a, a ∈ l → Forall (good h) l → join (foldl join o l) a = foldl join o l.
Proof.
  induction l as [|u l IH]; intros o a Hin Hl; [by apply elem_of_nil in Hin|]. inversion Hl as [|?? Hu Hl']; subst. simpl.
  apply elem_of_cons in Hin as [->|Hin]; [|by apply IH]. rewrite joins_push // join_twice //.
Qed.
(** Rows that are among the others add nothing. *)
Lemma joins_sub l l' : ∀ o, (∀ a, a ∈ l' → a ∈ l) → Forall (good h) l → foldl join (foldl join o l) l' = foldl join o l.
Proof.
  intros o Hsub Hl. induction l' as [|a l' IH]; [done|]. simpl. rewrite joins_absorb //; [apply Hsub, elem_of_cons; by left|].
  apply IH. intros x Hx. apply Hsub, elem_of_cons. by right.
Qed.
Lemma joins_comm l : ∀ o l', Forall (good h) l → Forall (good h) l' → foldl join (foldl join o l) l' = foldl join (foldl join o l') l.
Proof.
  induction l as [|a l IH]; intros o l' Hl Hl'; [done|]. inversion Hl; subst. simpl. rewrite IH //. f_equal. by apply joins_push.
Qed.

(** What a list of rows amounts to is told by the set of them. *)
Lemma joins_set l l' : (∀ a, a ∈ l ↔ a ∈ l') → Forall (good h) l → Forall (good h) l' → foldl join None l = foldl join None l'.
Proof.
  intros Heq Hl Hl'. rewrite -(joins_sub l l' None); [|done|]; [by intros a ?%Heq|].
  rewrite joins_comm //. by apply joins_sub; [intros a ?%Heq|].
Qed.

Lemma elem_at `{EqDecision K} (k : K) r u : u ∈ at_ k r ↔ (k, u) ∈ r.
Proof.
  rewrite /at_ list_elem_of_fmap. split.
  - intros ([k' u'] & -> & [E Hin]%list_elem_of_filter). simpl in *. by subst.
  - intros Hin. exists (k, u). split; [done|]. by apply list_elem_of_filter.
Qed.
Lemma at_set `{EqDecision K} (k : K) rows rows' : (∀ kv, kv ∈ rows ↔ kv ∈ rows') →
  Forall (λ kv, good h kv.2) rows → Forall (λ kv, good h kv.2) rows' → foldl join None (at_ k rows) = foldl join None (at_ k rows').
Proof.
  intros Heq H1 H2. assert (∀ r, Forall (λ kv, good h kv.2) r → Forall (good h) (at_ k r)) as Hgood.
  { intros r Hr. apply Forall_forall. intros u Hu%elem_at. rewrite Forall_forall in Hr. apply (Hr _ Hu). }
  apply joins_set; [|by apply Hgood..]. intros a. rewrite !elem_at. apply Heq.
Qed.
Lemma joins_perm l l' : l ≡ₚ l' → Forall (good h) l → foldl join None l = foldl join None l'.
Proof. intros Hp Hl. apply joins_set; [intros a; by rewrite Hp|done|by rewrite -Hp]. Qed.
Lemma join_merge o a b : join o (mergeUsage a b) = join (join o a) b.
Proof. rewrite /join. destruct o; [by rewrite merge_assoc|done]. Qed.

Lemma leg_fresh us key u k : us !! key = None → map_Forall (λ _, good h) us → good h u →
  leg (<[key := u]> us) k = if bool_decide (legOf key = k) then join (leg us k) u else leg us k.
Proof.
  intros Hn Hg Hu. rewrite /leg. case_bool_decide as E.
  - rewrite map_filter_insert_True //.
    assert (filter (λ '(k', _), legOf k' = k) us !! key = None) as Hn' by (by rewrite map_lookup_filter_None; left).
    assert (Forall (good h) (map_to_list (filter (λ '(k', _), legOf k' = k) us)).*2) as Hl.
    { apply Forall_forall. intros x ([k' x'] & -> & Hx%elem_of_map_to_list)%list_elem_of_fmap.
      apply map_lookup_filter_Some in Hx as [Hx _]. by apply (Hg _ _ Hx). }
    rewrite (joins_perm _ ((u :: (map_to_list (filter (λ '(k', _), legOf k' = k) us)).*2))); [by rewrite map_to_list_insert| |].
    + rewrite map_to_list_insert //. by constructor.
    + simpl. by rewrite (joins_push _ None u).
  - rewrite map_filter_insert_False //. by rewrite delete_id.
Qed.
Lemma leg_upsert us key u k : map_Forall (λ _, good h) us → good h u →
  leg (upsert us key u) k = if bool_decide (legOf key = k) then join (leg us k) u else leg us k.
Proof.
  intros Hg Hu. rewrite /upsert. destruct (us !! key) as [old|] eqn:E; [|by apply leg_fresh].
  assert (map_Forall (λ _, good h) (delete key us)) as Hd by (by apply map_Forall_delete).
  assert (good h old) as Ho by apply (Hg _ _ E).
  rewrite -insert_delete_eq (leg_fresh (delete key us)) ?lookup_delete_eq //; [by apply merge_good|].
  rewrite -{3 4}(insert_delete_id us key old) // (leg_fresh (delete key us)) ?lookup_delete_eq //.
  case_bool_decide; [apply join_merge|done].
Qed.
Lemma upserts_good rows : ∀ us, map_Forall (λ _, good h) us → Forall (λ kv, good h kv.2) rows → map_Forall (λ _, good h) (upserts us rows).
Proof.
  rewrite /upserts. induction rows as [|[k u] rows IH]; intros us Hg Hr; [done|]. inversion Hr; subst. simpl. apply IH; [|done].
  apply map_Forall_insert_2; [|done]. destruct (us !! k) eqn:E; [apply merge_good; [by apply (Hg _ _ E)|done]|done].
Qed.
Lemma leg_upserts rows : ∀ us k, map_Forall (λ _, good h) us → Forall (λ kv, good h kv.2) rows →
  leg (upserts us rows) k = foldl join (leg us k) (at_ k (pl <$> rows)).
Proof.
  rewrite /upserts. induction rows as [|[key u] rows IH]; intros us k Hg Hr; [done|]. inversion Hr as [|?? Hu Hr']; subst. simpl in Hu |- *.
  assert (map_Forall (λ _, good h) (upsert us key u)) as Hg' by (by apply (upserts_good [(key, u)] us); [|constructor]).
  rewrite IH // leg_upsert // /at_ filter_cons /=. case_bool_decide; case_decide; done.
Qed.
End Join.

(** Under one session a leg is a row. *)
Lemma leg_single us session k : (∀ k', is_Some (us !! k') → k'.1.1 = session) → leg us k = us !! (session, k.1, k.2).
Proof.
  intros Hs. rewrite /leg. destruct (us !! (session, k.1, k.2)) as [u|] eqn:E.
  - assert (filter (λ '(k', _), legOf k' = k) us = {[(session, k.1, k.2) := u]}) as ->; [|by rewrite map_to_list_singleton].
    apply map_eq. intros k'. apply option_eq. intros x. rewrite map_lookup_filter_Some lookup_singleton_Some. split.
    + intros [Hx <-]. pose proof (Hs k' (mk_is_Some _ _ Hx)) as Ek. destruct k' as [[a b] c]. simpl in *. subst a. by simplify_eq.
    + intros [<- <-]. split; [done|]. by destruct k.
  - assert (filter (λ '(k', _), legOf k' = k) us = ∅) as ->; [|by rewrite map_to_list_empty].
    apply map_empty. intros k'. apply map_lookup_filter_None. right. intros x Hx <-. pose proof (Hs k' (mk_is_Some _ _ Hx)) as Ek. destruct k' as [[a b] c]. simpl in *. by simplify_eq.
Qed.

(** * The rows of a frame *)
Lemma fmap_bind_ext {A B C} (f : B → C) (g g' : A → list B) l : (∀ x, f <$> g x = f <$> g' x) → f <$> (l ≫= g) = f <$> (l ≫= g').
Proof. intros Hg. induction l as [|x l IH]; [done|]. by rewrite !bind_cons !fmap_app Hg IH. Qed.

Lemma numericUSD_zero : numericUSD (GoFloat.ofZ 0) = 0.
Proof. vm_compute. reflexivity. Qed.
Lemma deriveUsageCost_zero h m e st c : deriveUsageCost h m e = (st, c) → st ≠ Metered → c = 0.
Proof.
  rewrite /deriveUsageCost !numericUSD_zero. repeat case_match; intros [= <- <-]; try done.
Qed.
Lemma resolveProgressNoteCost_zero h model mu st c : resolveProgressNoteCost h model mu = (st, c) → st ≠ Metered → c = 0.
Proof.
  rewrite /resolveProgressNoteCost. destruct (_ && _); [|apply deriveUsageCost_zero]. rewrite /priceProgressNoteEntry numericUSD_zero.
  case_match; by intros [= <- <-].
Qed.

Lemma prefixed_good run session seq gen prefix us kv :
  kv ∈ sp <$> foldPrefixedModelUsage run session seq gen prefix us → good (r_harness run) kv.2.
Proof.
  intros ([k u] & -> & Hin)%list_elem_of_fmap. rewrite /foldPrefixedModelUsage in Hin.
  apply list_elem_of_bind in Hin as ([model mu] & Hin & _). destruct (model =?s EmptyString)%go; [by apply elem_of_nil in Hin|].
  destruct (resolveProgressNoteCost _ _ _) as [st c] eqn:E. apply list_elem_of_singleton in Hin as [= -> ->].
  apply spend_good; [done|]. simpl. by apply (resolveProgressNoteCost_zero _ _ _ _ _ E).
Qed.
Lemma resultRows_good run session epoch lineage gen p kv :
  kv ∈ sp <$> resultRows run session epoch lineage gen p → good (r_harness run) kv.2.
Proof.
  intros ([k u] & -> & Hin)%list_elem_of_fmap. rewrite /resultRows in Hin.
  apply list_elem_of_bind in Hin as ([model mu] & Hin & _). destruct (model =?s EmptyString)%go; [by apply elem_of_nil in Hin|].
  apply list_elem_of_singleton in Hin as [= -> ->]. rewrite /resultRow.
  destruct (deriveUsageCost _ _ _) as [st c] eqn:E. apply spend_good; [done|]. simpl. by apply (deriveUsageCost_zero _ _ _ _ _ E).
Qed.
Lemma frameRows_good run ms m kv : kv ∈ sp <$> frameRows run ms m → good (r_harness run) kv.2.
Proof.
  rewrite /frameRows. repeat case_match; try (by rewrite elem_of_nil); [apply prefixed_good..|apply resultRows_good].
Qed.

(** Of the claim and the agent nothing is seen, of the other messages the init
    frames before. *)
Lemma prefixed_gen run session seq gen gen' prefix us :
  sp <$> foldPrefixedModelUsage run session seq gen prefix us = sp <$> foldPrefixedModelUsage run session seq gen' prefix us.
Proof. apply fmap_bind_ext. intros [model mu]. destruct (model =?s EmptyString)%go; [done|]. by destruct (resolveProgressNoteCost _ _ _). Qed.
Lemma resultRows_gen run session epoch l l' gen gen' p :
  sp <$> resultRows run session epoch l gen p = sp <$> resultRows run session epoch l' gen' p.
Proof.
  apply fmap_bind_ext. intros [model mu]. destruct (model =?s EmptyString)%go; [done|]. rewrite /resultRow. by destruct (deriveUsageCost _ _ _).
Qed.

(** The kind and the harness of a run are set when it is created; its session is
    the worker's to report. *)
Definition sameRun (r r' : Run) : Prop := r_kind r' = r_kind r ∧ r_harness r' = r_harness r.
Lemma sameRun_trans a b c : sameRun a b → sameRun b c → sameRun a c.
Proof. intros [? ?] [? ?]. split; congruence. Qed.

(** A row as a leg has it. *)
Definition lg (kv : usageKey * Usage) : legKey * Usage := pl (sp kv).
Lemma lg_fmap (l : list (usageKey * Usage)) : lg <$> l = pl <$> (sp <$> l).
Proof. by rewrite -list_fmap_compose. Qed.
Lemma frameRows_run r r' ms m : sameRun r r' → lg <$> frameRows r' ms m = lg <$> frameRows r ms m.
Proof.
  intros [Ek Eh]. rewrite /frameRows Ek. repeat case_match; try done.
  1, 2: apply fmap_bind_ext; intros [model mu]; destruct (model =?s EmptyString)%go; [done|]; rewrite Eh; by destruct (resolveProgressNoteCost _ _ _).
  rewrite /resultRows Eh. apply fmap_bind_ext. intros [model mu]. destruct (model =?s EmptyString)%go; [done|].
  rewrite /resultRow Eh. by destruct (deriveUsageCost _ _ _).
Qed.
Lemma frameRows_session run ms m kv : kv ∈ frameRows run ms m → kv.1.1.1 = usageSession run.
Proof.
  rewrite /frameRows. repeat case_match; try (by rewrite elem_of_nil).
  1, 2: intros ([model mu] & Hin & _)%list_elem_of_bind; destruct (model =?s EmptyString)%go; [by apply elem_of_nil in Hin|];
    destruct (resolveProgressNoteCost _ _ _); by apply list_elem_of_singleton in Hin as ->.
  intros ([model mu] & Hin & _)%list_elem_of_bind. destruct (model =?s EmptyString)%go; [by apply elem_of_nil in Hin|].
  by apply list_elem_of_singleton in Hin as ->.
Qed.

(** Only the init frames before a frame count. *)
Definition sameInits (ms ms' : gmap Z Message) (seq : Z) : Prop :=
  ∀ s m, s < seq → isInit m = true → ms' !! s = Some m ↔ ms !! s = Some m.
Lemma initsBefore_ext ms ms' seq : sameInits ms ms' seq → initsBefore ms' seq = initsBefore ms seq.
Proof.
  intros Heq. rewrite /initsBefore. do 2 f_equal. apply map_filter_strong_ext. intros s m.
  split; intros [[Hi Hlt] Hm]; (split; [done|]); by apply Heq.
Qed.

Section Stored.
Context `{Jsonb}.

(** Of a document that reads the same once it is stored. *)
Definition survives (kind : string) (p : payload) : Prop := resultFrame kind (stored p) = resultFrame kind p.

Lemma frameRows_stored run ms ms' m m' : Seq m' = Seq m → Kind m' = Kind m → Payload m' = stored (Payload m) →
  survives (Kind m) (Payload m) → sameInits ms ms' (Seq m) →
  sp <$> frameRows run ms' m' = sp <$> frameRows run ms m.
Proof.
  intros Es Ek Ep Hsv Hms. rewrite /frameRows Ek Es Ep Hsv (initsBefore_ext ms ms') //.
  repeat case_match; simplify_eq/=; try done; try apply prefixed_gen. apply resultRows_gen.
Qed.
Lemma frameRows_ext run ms ms' m : sameInits ms ms' (Seq m) →
  sp <$> frameRows run ms' m = sp <$> frameRows run ms m.
Proof.
  intros Hms. rewrite /frameRows (initsBefore_ext ms ms') //. repeat case_match; simplify_eq/=; try done. apply resultRows_gen.
Qed.

(** A message that leads to rows is among those a refold reads. *)
Lemma frameRows_kind run ms m kv : kv ∈ frameRows run ms m → Kind m ∈ usageKinds.
Proof.
  rewrite /frameRows /usageKinds. destruct (r_kind run =?s Chat)%go; [by rewrite elem_of_nil|].
  destruct (Kind m =?s KindProgressNote)%go eqn:E1; [apply String.eqb_eq in E1 as ->; rewrite !elem_of_cons; tauto|].
  destruct (Kind m =?s KindSummaryUsage)%go eqn:E2; [apply String.eqb_eq in E2 as ->; rewrite !elem_of_cons; tauto|].
  destruct (resultFrame _ _) as [p|] eqn:E; [|by rewrite elem_of_nil]. intros _. rewrite /resultFrame in E.
  destruct (Kind m =?s "status")%go eqn:E3; [apply String.eqb_eq in E3 as ->; rewrite !elem_of_cons; tauto|].
  destruct (Kind m =?s "error")%go eqn:E4; [apply String.eqb_eq in E4 as ->; rewrite !elem_of_cons; tauto|done].
Qed.

(** * Deliveries *)
(** A line that says nothing of usage: no leg starts with it and no row comes of it. *)
Record silent (m : Message) : Prop := mkSilent {
  si_init : isInit m = false;
  si_note : m_kind m ≠ KindProgressNote ∧ m_kind m ≠ KindSummaryUsage;
  si_result : resultFrame (m_kind m) (m_payload m) = None }.
Lemma silent_kind m : m_kind m ∈ lineKinds → m_kind m ≠ "status" → silent m.
Proof.
  intros Hk Hs. assert (m_kind m = "cross_check" ∨ m_kind m = credentialSwitchMessageKind ∨ m_kind m = harnessModelFallbackKind) as Hc by set_solver.
  split; rewrite /isInit /resultFrame; destruct Hc as [->|[->| ->]]; done.
Qed.
Lemma silent_rows run ms seq m : silent m → frameRows run ms (ofRow (seq, m)) = [].
Proof.
  intros [_ [H1 H2] H3]. rewrite /frameRows /=. destruct (_ =?s Chat)%go; [done|].
  apply String.eqb_neq in H1. apply String.eqb_neq in H2. by rewrite H1 H2 H3.
Qed.

Section Deliveries.
(** What the workers have numbered, as the server cleans it, and the run. *)
Context (script : Z → string * payload) (id : uuid).

Definition scripted (seq : Z) (m : Message) : Prop := m_kind m = (script seq).1 ∧ m_payload m = stored (script seq).2.

(** A batch of the run's worker: its messages are the script's; a number it uses for
    the first time is past the mark, and one that is taken is that message's. *)
Record orderly (r : Run) (db : DB) (batch : list IncomingMessage) : Prop := mkOrderly {
  or_script : ∀ x, x ∈ batch → (Kind (cleanMessage r x), Payload (cleanMessage r x)) = script (Seq x);
  or_new : ∀ x, x ∈ batch → messagesOf db id !! Seq x = None → last_seq r < Seq x;
  or_taken : ∀ x m, x ∈ batch → messagesOf db id !! Seq x = Some m → scripted (Seq x) m }.

(** The steps of the system, as far as they bear on the run.  A status line of the
    server's is to read as one once it is stored. *)
Inductive deliver (s : sys) : sys → Prop :=
  | V_append r w batch claimGen now stamps fs out db' :
      runs (tables s) !! id = Some r → orderly r (tables s) batch →
      claim_released r = false ∨ effective r claimGen ≠ None →
      appendMessages w id batch claimGen now stamps fs (tables s) = (out, db') →
      deliver s (mkSys db' (log s ++ (pair id <$> published out)) (used s) (notes s))
  | V_line s' : lineStep s s' →
      (∀ seq m, messagesOf (tables s') id !! seq = Some m → messagesOf (tables s) id !! seq = None → m_kind m = "status" → silent m) →
      deliver s s'
  | V_change r r' : runs (tables s) !! id = Some r → sameRun r r' → last_seq r' = last_seq r → claim_generation r <= claim_generation r' →
      deliver s (mkSys (setRun (tables s) id r') (log s) (used s) (notes s))
  | V_refold r fs res db' : runs (tables s) !! id = Some r → RefoldRunUsage id r fs (tables s) = (res, db') →
      deliver s (mkSys db' (log s) (used s) (notes s))
  | V_else s' : step s s' → runs (tables s') !! id = runs (tables s) !! id → messagesOf (tables s') id = messagesOf (tables s) id →
      usageOf (tables s') id = usageOf (tables s) id → deliver s s'.
Lemma deliver_step s s' : deliver s s' → step s s'.
Proof. destruct 1; [by eapply S_append|by apply S_line|by eapply S_change|by eapply S_refold|done]. Qed.

Definition allRows (run : Run) (ms : gmap Z Message) : list (usageKey * Usage) :=
  (ofRow <$> usageFrames ms) ≫= frameRows run ms.
Record settled (run : Run) (db : DB) : Prop := mkSettled {
  se_run : runs db !! id = Some run;
  se_rows : ∀ seq m, messagesOf db id !! seq = Some m → scripted seq m ∨ silent m;
  se_good : map_Forall (λ _, good (r_harness run)) (spend <$> usageOf db id);
  se_usage : ∀ k, leg (spend <$> usageOf db id) k = foldl join None (at_ k (lg <$> allRows run (messagesOf db id))) }.

Lemma elem_usageFrames ms seq m : (seq, m) ∈ usageFrames ms ↔ ms !! seq = Some m ∧ m_kind m ∈ usageKinds.
Proof. rewrite /usageFrames merge_sort_Permutation list_elem_of_filter elem_of_map_to_list. tauto. Qed.

Lemma elem_rows run ms (l : list IncomingMessage) kv :
  kv ∈ lg <$> (l ≫= frameRows run ms) ↔ ∃ m, m ∈ l ∧ kv ∈ lg <$> frameRows run ms m.
Proof.
  rewrite list_elem_of_fmap. setoid_rewrite list_elem_of_fmap. setoid_rewrite list_elem_of_bind. naive_solver.
Qed.
Lemma elem_allRows run ms kv :
  kv ∈ lg <$> allRows run ms ↔ ∃ seq m, ms !! seq = Some m ∧ kv ∈ lg <$> frameRows run ms (ofRow (seq, m)).
Proof.
  rewrite /allRows elem_rows. split.
  - intros (x & ([seq m] & -> & [Hm _]%elem_usageFrames)%list_elem_of_fmap & Hin). eauto.
  - intros (seq & m & Hm & Hin). exists (ofRow (seq, m)). split; [|done]. apply list_elem_of_fmap. exists (seq, m). split; [done|].
    apply elem_usageFrames. split; [done|]. apply list_elem_of_fmap in Hin as (kv' & _ & Hk%frameRows_kind). done.
Qed.
Lemma upserts_keys rows : ∀ us k, is_Some (upserts us rows !! k) → is_Some (us !! k) ∨ k ∈ rows.*1.
Proof.
  rewrite /upserts. induction rows as [|[k' u] rows IH]; intros us k; simpl; [by left|]. intros [Hk|Hk]%IH; [|right; by apply elem_of_cons; right].
  rewrite /upsert in Hk. destruct (decide (k = k')) as [->|Hne]; [right; apply elem_of_cons; by left|left].
  by rewrite lookup_insert_ne in Hk.
Qed.
Lemma upserts_session run ms k : is_Some (upserts ∅ (allRows run ms) !! k) → k.1.1 = usageSession run.
Proof.
  intros [[x Hx]|Hk]%upserts_keys; [by rewrite lookup_empty in Hx|]. apply list_elem_of_fmap in Hk as (kv & -> & Hkv).
  apply list_elem_of_bind in Hkv as (m & Hkv & _). by apply frameRows_session in Hkv.
Qed.
Lemma lg_good run ms m kv : kv ∈ lg <$> frameRows run ms m → good (r_harness run) kv.2.
Proof. rewrite lg_fmap. intros (x & -> & Hx)%list_elem_of_fmap. by eapply frameRows_good. Qed.
Lemma rows_good run ms l : Forall (λ kv, good (r_harness run) kv.2) (lg <$> (l ≫= frameRows run ms)).
Proof. apply Forall_forall. intros kv (m & _ & Hin)%elem_rows. by eapply lg_good. Qed.
Lemma spends_good run ms l : Forall (λ kv, good (r_harness run) kv.2) (sp <$> (l ≫= frameRows run ms)).
Proof.
  pose proof (rows_good run ms l) as Hg. rewrite lg_fmap Forall_fmap in Hg. exact Hg.
Qed.

(** What a run's frames amount to depends on the init frames and the frames that lead
    to rows. *)
Lemma allRows_run r r' ms kv : sameRun r r' → kv ∈ lg <$> allRows r' ms ↔ kv ∈ lg <$> allRows r ms.
Proof. intros Hs. rewrite !elem_allRows. by setoid_rewrite (frameRows_run r r' _ _ Hs). Qed.
Lemma legs_run r r' ms k : sameRun r r' → foldl join None (at_ k (lg <$> allRows r' ms)) = foldl join None (at_ k (lg <$> allRows r ms)).
Proof.
  intros Hs. apply (at_set (r_harness r)); [intros kv; by apply allRows_run| |apply rows_good].
  destruct Hs as [_ <-]. apply rows_good.
Qed.

Lemma settled_keeps r r' db db' : settled r db → runs db' !! id = Some r' → sameRun r r' →
  messagesOf db' id = messagesOf db id → usageOf db' id = usageOf db id → settled r' db'.
Proof.
  intros [H1 H2 H3 H4] Hr Hs Hm Hu. split; [done|by rewrite Hm|by destruct Hs as [_ ->]; rewrite Hu|].
  intros k. by rewrite Hm Hu H4 (legs_run r r').
Qed.

(** A line adds to the frames nothing that counts. *)
Lemma settled_line r r' db db' m seq : settled r db → runs db' !! id = Some r' → sameRun r r' → usageOf db' id = usageOf db id →
  messagesOf db id !! seq = None → messagesOf db' id = <[seq := m]> (messagesOf db id) → silent m → settled r' db'.
Proof.
  intros [H1 H2 H3 H4] Hr Hs Hu Hn Hm Hsi. split; [done| |by destruct Hs as [_ ->]; rewrite Hu|].
  - intros q x. rewrite Hm lookup_insert_Some. intros [[<- <-]|[_ Hx]]; [by right|by apply H2].
  - intros k. rewrite Hu H4 (legs_run r r') //. apply (at_set (r_harness r)); [|apply rows_good..].
    assert (∀ q x, sameInits (messagesOf db id) (messagesOf db' id) (Seq (ofRow (q, x)))) as Hini.
    { intros q x s y _ Hy. rewrite Hm lookup_insert_Some. split; [|intros Hl; right; split; [congruence|done]].
      intros [[_ <-]|[_ ?]]; [by rewrite (si_init _ Hsi) in Hy|done]. }
    intros kv. rewrite !elem_allRows. split; intros (q & x & Hx & Hin); exists q, x.
    + split; [rewrite Hm lookup_insert_ne //; congruence|]. rewrite !lg_fmap in Hin |- *. by rewrite (frameRows_ext r (messagesOf db id)).
    + rewrite Hm lookup_insert_Some in Hx. destruct Hx as [[<- <-]|[_ Hx]]; [rewrite silent_rows // in Hin; by apply elem_of_nil in Hin|].
      split; [done|]. rewrite !lg_fmap in Hin |- *. by rewrite (frameRows_ext r (messagesOf db id)) in Hin.
Qed.

Hypothesis script_ok : ∀ seq, survives (script seq).1 (script seq).2.

(** A batch whose new numbers are past the mark leaves the rows of the stored frames
    alone. *)
Lemma old_rows run gen db batch seq m kv : highWater db id run →
  (∀ x, x ∈ batch → messagesOf db id !! Seq x = None → last_seq run < Seq x) → messagesOf db id !! seq = Some m →
  kv ∈ lg <$> frameRows run (storeAll gen (messagesOf db id) (cleanMessage run <$> batch)) (ofRow (seq, m)) ↔
  kv ∈ lg <$> frameRows run (messagesOf db id) (ofRow (seq, m)).
Proof.
  intros Hw Hord Hm. destruct (String.eqb_spec (m_kind m) harnessModelFallbackKind) as [E|E].
  { rewrite !silent_rows //; apply silent_kind; rewrite E; done || set_solver. }
  rewrite !lg_fmap (frameRows_ext run (messagesOf db id)) // => s y Hlt _. split; [|by apply storeAll_keeps].
  intros [Hy|[_ (x & Hx & <- & _)]]%storeAll_new; [done|].
  apply news_stored in Hx as (Hx & Hnone & _). apply list_elem_of_fmap in Hx as (z & -> & Hz).
  pose proof (Hord _ Hz Hnone). destruct (hw_bound _ _ _ Hw _ _ Hm); [|done]. simpl in *. lia.
Qed.

(** The rows a batch adds to are those its stored form leads to. *)
Lemma settled_append w batch claimGen now run new db db' : settled run db → highWater db id run → orderly run db batch →
  claim_released run = false ∨ effective run claimGen ≠ None →
  appended w id batch claimGen now run new db db' → ∃ run', sameRun run run' ∧ settled run' db'.
Proof.
  intros [H1 H3 Hgood H4] H2 [Hscript Hord Htaken] Hlive Happ.
  destruct (append_high _ _ _ _ _ _ _ _ _ Happ H2) as (run' & Hr' & _ & Hhw).
  assert (sameRun run run') as Hsame.
  { rewrite (ap_runs _ _ _ _ _ _ _ _ _ Happ) in Hr'. destruct (_ && _); [rewrite lookup_insert_eq in Hr'|]; simplify_eq; done. }
  exists run'. split; [done|]. set (ms := messagesOf db id) in *. set (ms' := messagesOf db' id). set (gen := effective run claimGen).
  assert (generationLive run gen = true ∨ batch = []) as Hl.
  { pose proof (ap_live _ _ _ _ _ _ _ _ _ Happ) as Hl. fold gen in Hl, Hlive. destruct Hl as [?|[Hn|?]]; [by left| |by right].
    left. destruct Hlive as [Hf|Hx]; [|done]. by rewrite Hn /generationLive Hf. }
  assert (ms' = storeAll gen ms (cleanMessage run <$> batch)) as Hms.
  { unfold ms'. rewrite (ap_messages _ _ _ _ _ _ _ _ _ Happ). fold gen. by destruct Hl as [->| ->]; [|destruct (generationLive _ _)]. }
  assert (∀ x, x ∈ cleanMessage run <$> batch → (Kind x, Payload x) = script (Seq x)) as Hsc.
  { intros x (y & -> & Hy)%list_elem_of_fmap. exact (Hscript y Hy). }
  assert (∀ x, x ∈ news gen ms (cleanMessage run <$> batch) → scripted (Seq x) (rowOf gen x)) as Hnews.
  { intros x [Hx _]%news_stored. rewrite /scripted -(Hsc _ Hx). done. }
  assert (∀ seq m, ms' !! seq = Some m → scripted seq m ∨ silent m) as Hrows.
  { intros seq m. rewrite Hms. intros [Hm|[_ (x & Hx & <- & ->)]]%storeAll_new; [by apply H3|left; by apply Hnews]. }
  assert (∀ x, x ∈ cleanMessage run <$> batch → ∃ m, ms' !! Seq x = Some m ∧ scripted (Seq x) m) as Hbatch.
  { intros x Hx. destruct (storeAll_all gen (cleanMessage run <$> batch) ms x Hx) as [m Hm]. exists m. rewrite Hms. split; [done|].
    destruct (storeAll_new _ _ _ _ _ Hm) as [Hl'|[_ (y & Hy & Ey & ->)]]; [|rewrite -Ey; by apply Hnews].
    apply list_elem_of_fmap in Hx as (y & -> & Hy). exact (Htaken y m Hy Hl'). }
  assert (∀ seq m kv, ms !! seq = Some m →
    kv ∈ lg <$> frameRows run ms' (ofRow (seq, m)) ↔ kv ∈ lg <$> frameRows run ms (ofRow (seq, m))) as Hold.
  { intros seq m kv Hm. rewrite Hms. by apply (old_rows run gen db batch). }
  assert (∀ y kv, y ∈ cleanMessage run <$> batch → ∀ row, scripted (Seq y) row →
    kv ∈ lg <$> frameRows run ms' (ofRow (Seq y, row)) ↔ kv ∈ lg <$> frameRows run ms' (stampGen gen y)) as Hstamp.
  { intros y kv Hy row [Ek Ep]. rewrite -(Hsc _ Hy) /= in Ek, Ep. rewrite !lg_fmap (frameRows_stored run ms' ms' (stampGen gen y)) //. simpl.
    pose proof (script_ok (Seq y)) as Hok. by rewrite -(Hsc _ Hy) in Hok. }
  pose proof (ap_usage _ _ _ _ _ _ _ _ _ Happ) as Hus. fold gen ms' in Hus.
  split; [done|exact Hrows|destruct Hsame as [_ ->]; rewrite Hus upserts_spend; apply upserts_good; [done|apply spends_good]|].
  intros k. rewrite (legs_run run) // Hus upserts_spend (leg_upserts (r_harness run)) //; [apply spends_good|].
  rewrite H4 -lg_fmap -foldl_app -/(at_ k _) -fmap_app -filter_app.
  apply (at_set (r_harness run)); [|apply Forall_app; split; apply rows_good|apply rows_good].
  intros kv. fold ms ms'. rewrite elem_of_app !elem_allRows elem_rows. split.
  - intros [(seq & m & Hm & Hin)|(x & (y & -> & Hy)%list_elem_of_fmap & Hin)].
    + exists seq, m. split; [rewrite Hms; by apply storeAll_keeps|by apply Hold].
    + destruct (Hbatch y Hy) as (row & Hrow & Hsd). exists (Seq y), row. split; [done|by apply Hstamp].
  - intros (seq & m & Hm & Hin). pose proof Hm as Hm0. rewrite Hms in Hm. apply storeAll_new in Hm as [Hm|[_ (x & Hx & <- & ->)]].
    + left. exists seq, m. split; [done|by apply Hold].
    + right. pose proof (Hnews _ Hx) as Hsd. apply news_stored in Hx as [Hx _]. exists (stampGen gen x).
      split; [apply list_elem_of_fmap; by exists x|by apply (Hstamp x kv Hx _ Hsd)].
Qed.

Lemma refolded_legs r r' db db' : sameRun r r' → refoldedTo id r' db db' →
  (∀ k, leg (spend <$> usageOf db' id) k = foldl join None (at_ k (lg <$> allRows r (messagesOf db id)))) ∧
  map_Forall (λ _, good (r_harness r)) (spend <$> usageOf db' id).
Proof.
  intros Hs Hrf. rewrite (rf_usage _ _ _ _ Hrf) upserts_spend fmap_empty -/(allRows r' (messagesOf db id)). split.
  - intros k. rewrite (leg_upserts (r_harness r')); [apply map_Forall_empty|apply spends_good|]. rewrite -lg_fmap -(legs_run r r') //.
  - destruct Hs as [_ <-]. apply upserts_good; [apply map_Forall_empty|apply spends_good].
Qed.

Lemma settled_deliver r s s' : deliver s s' → inv s → settled r (tables s) → ∃ r', sameRun r r' ∧ settled r' (tables s').
Proof.
  intros Hd Hi Hse. pose proof (se_run _ _ Hse) as Hrun. pose proof (in_high _ _ _ Hi _ _ Hrun) as Hhw.
  destruct Hd as [r0 w batch claimGen now stamps fs out db' Hr Hord Hlive He|s' Hln Hsi|r0 r' Hr Hs Hl _|r0 fs res db' Hr He|s' _ Hr Hm Hu].
  all: try (assert (r0 = r) as -> by congruence); simpl.
  - destruct (append_effect _ _ _ _ _ _ _ _ _ _ He) as [(-> & _ & _)|(run & new & Happ & _)]; [by exists r|].
    assert (run = r) as -> by (apply ap_owned, owned_run in Happ; congruence). by eapply settled_append.
  - destruct (line_wrote _ _ Hi Hln) as [->|(i & x & [Eu Hother (run & v & at' & Hrun' & Hr' & _ & _ & Hx)] & Hk)]; [by exists r|].
    assert (usageOf (tables s') id = usageOf (tables s) id) as Eu' by (by rewrite /usageOf Eu).
    destruct (decide (id = i)) as [<-|Hne]; [|destruct (Hother _ Hne); exists r; split; [done|by eapply settled_keeps; [|congruence|..]]].
    simplify_eq. exists (withLastSeq v at' r). split; [done|]. destruct x as [[m gen]|]; [|by eapply settled_keeps].
    destruct Hx as (Hn & Hm & _ & _). eapply (settled_line r _ _ _ (rowOf gen m) (Seq m)); [done|done|done|done|done|done|].
    specialize (Hk _ _ eq_refl). destruct (String.eqb_spec (Kind m) "status") as [E|E]; [|by apply silent_kind].
    apply (Hsi (Seq m)); [by rewrite Hm lookup_insert_eq|done|done].
  - exists r'. split; [done|]. eapply settled_keeps; [done|by rewrite /= lookup_insert_eq|done..].
  - destruct (refold_effect _ _ _ _ _ _ He) as [[-> _]|Hrf]; [by exists r|].
    exists (refolded r). split; [done|]. destruct Hse as [H1 H3 Hg H4]. destruct (refolded_legs r r _ _ ltac:(done) Hrf) as [Hlegs Hg'].
    assert (messagesOf db' id = messagesOf (tables s) id) as Em by (by rewrite /messagesOf (rf_messages _ _ _ _ Hrf)).
    split; [by rewrite (rf_runs _ _ _ _ Hrf) lookup_alter_eq H1|by rewrite Em|done|].
    intros k. by rewrite Em (legs_run r).
  - exists r. split; [done|]. eapply settled_keeps; [done|congruence|done..].
Qed.

Lemma settled_delivers r s s' : rtc deliver s s' → inv s → settled r (tables s) → ∃ r', sameRun r r' ∧ settled r' (tables s').
Proof.
  intros Hd. revert r. induction Hd as [s|s1 s2 s3 Hst _ IH]; intros r Hi Hse; [by exists r|].
  destruct (settled_deliver _ _ _ Hst Hi Hse) as (r' & Hs & Hse').
  destruct (IH _ (inv_one_step _ _ (deliver_step _ _ Hst) Hi) Hse') as (r'' & Hs' & ?).
  exists r''. split; [by eapply sameRun_trans|done].
Qed.

Lemma settled_fresh r db : runs db !! id = Some r → messagesOf db id = ∅ → usageOf db id = ∅ → settled r db.
Proof.
  intros Hr Hm Hu. split; [done|by rewrite Hm|by rewrite Hu fmap_empty|]. intros k. by rewrite Hu Hm fmap_empty.
Qed.
End Deliveries.

End Stored.

End MessageUsage.
