(* ===== verification/MessageTotal.v ===== *)
(** What an append answers when the database does its part: it is refused for
    one of the reasons listed, in their order, or it stores the whole batch.

    Of the contents of a batch only a number past [numeric]'s range is a reason.  That
    there is no other rests on the costs: whatever a worker reports, the row it leads
    to is one the table takes. *)

From Stdlib Require Import SpecFloat.
From S2P Require Import Prelude Result GoText GoStrings GoJson GoFloat GoNumber GoRound AnthropicPrice Txn Sanitize UsageFold MessageDb.
From S2P Require Import PersistFail MessageAppend MessageInv MessageUsage.

Local Open Scope Z_scope.

Module MessageTotal.
Import GoStrings GoJson UsageFold MessageDb MessageAppend MessageInv.

(** * Costs *)
Definition maxMicro : Z := 999999999999.
Definition million : GoFloat.float64 := GoFloat.ofZ 1000000.
Lemma million_eq : million = S754_finite false 8589934592000000 (-33).
Proof. vm_compute. reflexivity. Qed.
Lemma max_finite : GoFloat.wf maxCostUSD ∧ GoFloat.finite maxCostUSD = true.
Proof. split; vm_compute; reflexivity. Qed.

(** The headroom of the bound: at the scale [2^1107]. *)
Lemma headroom : let a := GoFloat.scaled maxCostUSD * 8589934592000000 in
  2 * ((2 ^ 52 + 1) * a + 2 ^ 52 * 2 ^ 33) < 2 ^ 52 * (2 ^ 1107 * (2 * maxMicro + 1)).
Proof. vm_compute. reflexivity. Qed.

#[local] Opaque maxCostUSD.
Lemma micro_bound m e : GoFloat.wf (S754_finite false m e) → GoFloat.scaled (S754_finite false m e) <= GoFloat.scaled maxCostUSD →
  ∀ z, GoNumber.round (GoNumber.mul (S754_finite false m e) million) = GoFloat.Int z → 0 <= z <= maxMicro.
Proof.
  intros Hwf Hle z. rewrite million_eq /GoNumber.mul /SFmul. cbn [xorb]. set (my := 8589934592000000%positive).
  destruct (GoFloat.wf_finite _ _ _ Hwf) as (He & _ & _). rewrite /GoFloat.emin in He.
  assert (53 <= Zdigits2 (Z.pos (m * my))) as Hd.
  { apply GoRound.Zdigits2_ge; [done|]. change (2 ^ (53 - 1)) with 4503599627370496. rewrite Pos2Z.inj_mul. unfold my. lia. }
  destruct (GoRound.round_aux_above (Z.pos (m * my)) (e + -33) loc_Exact 1107 (GoFloat.scaled maxCostUSD * Z.pos my))
    as (m1 & e1 & He1 & Hm1 & Hb & ->); [done|rewrite GoRound.fexp64_max; lia|lia|done| |].
  - assert (e + -33 + 1107 = e - GoFloat.emin) as -> by (rewrite /GoFloat.emin; lia). rewrite Pos2Z.inj_mul.
    cbn [GoFloat.scaled GoFloat.signed] in Hle. nia.
  - pose proof headroom as Hh. cbv zeta in Hh. change 8589934592000000 with (Z.pos my) in Hh. revert Hb Hh.
    generalize (GoFloat.scaled maxCostUSD * Z.pos my). intros a Hb Hh. rewrite /GoRound.finish. destruct m1 as [|p|p]; [|destruct (e1 <=? 971)|done].
    + intros [= <-]. done.
    + rewrite /GoFloat.emin in He1. destruct (GoRound.round_le p e1 1107 maxMicro) as (z' & -> & Hz); [done|lia| |by intros [= <-]].
      change (1107 - 1074) with 33 in Hb. set (K := 2 ^ 1107) in *. set (P := Z.pos p * 2 ^ (e1 + 1107)) in *. nia.
    + done.
Qed.

Lemma ltb_inf x : GoFloat.finite x = true → GoFloat.ltb x (S754_infinity false) = true.
Proof. by destruct x. Qed.
Lemma micro_max : GoNumber.round (GoNumber.mul maxCostUSD (GoFloat.ofZ 1000000)) = GoFloat.Int maxMicro.
Proof. vm_compute. reflexivity. Qed.
Lemma numericToFloat64_wf z : GoFloat.wf (numericToFloat64 z).
Proof. apply GoRound.ofDecimal_wf. Qed.

(** A cost is a number of microdollars that the column holds. *)
Lemma numericUSD_bound usd : GoFloat.wf usd → 0 <= numericUSD usd <= maxMicro.
Proof.
  intros Hwf. rewrite /numericUSD. destruct (GoFloat.isNaN usd || GoFloat.ltb usd (GoFloat.ofZ 0)) eqn:E1; [by vm_compute|].
  destruct (GoFloat.ltb maxCostUSD usd) eqn:E2; [rewrite micro_max; split; [discriminate|reflexivity]|]. apply orb_false_iff in E1 as [Hn H0]. fold million.
  destruct max_finite as [Hmw Hmf]. destruct usd as [s|s| |s m e].
  - destruct s; vm_compute; split; congruence.
  - destruct s; [vm_compute in H0; discriminate H0|]. rewrite (ltb_inf _ Hmf) in E2. discriminate E2.
  - discriminate Hn.
  - destruct s; [vm_compute in H0; discriminate H0|].
    assert (GoFloat.scaled (S754_finite false m e) <= GoFloat.scaled maxCostUSD) as Hle.
    { rewrite GoFloat.ltb_scaled in E2; [exact Hmw|exact Hwf|exact Hmf|reflexivity|]. by apply Z.ltb_ge in E2. }
    pose proof (micro_bound m e Hwf Hle) as Hb. revert Hb. clear. generalize (GoNumber.round (GoNumber.mul (S754_finite false m e) million)).
    intros [z| | |] Hb; [by apply Hb|vm_compute; split; congruence..].
Qed.

#[local] Opaque numericUSD numericToFloat64.

Lemma USD_wf c : GoFloat.wf (AnthropicPrice.USD c).
Proof.
  rewrite /AnthropicPrice.USD. destruct c as [|p|p]; try done. destruct (SFdiv_core_binary _ _ _ _ _ _) as [[q e] l].
  destruct (binary_round_aux _ _ _ _ _ _); try done. apply GoRound.binary_round_wf.
Qed.
Lemma zero_wf : GoFloat.wf (GoFloat.ofZ 0).
Proof. vm_compute. reflexivity. Qed.

Definition emittedOk (e : option GoFloat.float64) : Prop := ∀ x, e = Some x → GoFloat.wf x.
Lemma deriveUsageCost_bound h m e st c : emittedOk e → deriveUsageCost h m e = (st, c) → 0 <= c <= maxMicro.
Proof.
  intros He. pose proof (numericUSD_bound _ zero_wf) as H0. rewrite /deriveUsageCost.
  destruct (negb _); [intros Hc; apply pair_equal_spec in Hc as [_ <-]; apply numericUSD_bound; destruct e; [by apply He|exact zero_wf]|].
  revert H0. generalize (numericUSD (GoFloat.ofZ 0)). intros z0 H0. repeat case_match; intros Hc; apply pair_equal_spec in Hc as [_ <-]; try exact H0.
  apply numericUSD_bound. by apply He.
Qed.
Lemma resolveProgressNoteCost_bound h model mu st c : emittedOk (nCostUSD mu) →
  resolveProgressNoteCost h model mu = (st, c) → 0 <= c <= maxMicro.
Proof.
  intros He. rewrite /resolveProgressNoteCost. destruct (_ && _); [|by apply deriveUsageCost_bound].
  rewrite /priceProgressNoteEntry. case_match; (intros Hc; apply pair_equal_spec in Hc as [_ <-]); apply numericUSD_bound; [apply USD_wf|exact zero_wf].
Qed.
Lemma resolveCostUSD_ok raw : emittedOk (resolveCostUSD raw).
Proof. intros x. destruct raw as [[]|]; simpl; try done. apply GoRound.ParseFloat_wf. Qed.

(** The rows of a note that the server has rebuilt. *)
Definition modelsOk (us : gmap string noteUsage) : Prop := map_Forall (λ _ mu, emittedOk (nCostUSD mu)) us.
Lemma normalizeModel_ok raw h model mu : normalizeProgressNoteModelUsage raw h model = Some mu → emittedOk (nCostUSD mu).
Proof.
  rewrite /normalizeProgressNoteModelUsage. destruct (decodeMap _) as [f|]; [|done]. simpl.
  destruct (resolveProgressNoteCost _ _ _) as [st micro]. destruct (_ && _); [done|]. intros [= <-] x. simpl.
  case_bool_decide; [|done]. intros [= <-]. apply numericToFloat64_wf.
Qed.
Lemma keepModels_ok keys usage h width : ∀ kept, modelsOk kept → modelsOk (keepModels keys usage h width kept).
Proof.
  induction keys as [|k keys IH]; intros kept Hk; [done|]. cbn [keepModels]. apply IH. destruct (_ || _); [done|].
  destruct (usage !! k ≫= _) as [mu|] eqn:E; [|done]. destruct (_ <=? _)%nat; [done|]. apply map_Forall_insert_2; [|done].
  apply bind_Some in E as (raw & _ & E). by eapply normalizeModel_ok.
Qed.
Lemma normalizeMap_ok raw h prefix : modelsOk (from_option (λ u, normalizeModelUsageMap u h prefix) ∅ (decodeMap raw)).
Proof. destruct (decodeMap raw); simpl; [apply keepModels_ok|]; apply map_Forall_empty. Qed.

Lemma usageOk_bound u : 0 <= cost_usd u <= maxMicro → (cost_status u ≠ Metered → cost_usd u = 0) → usageOk u = Ok tt.
Proof.
  intros Hb Hz. rewrite /usageOk. destruct (10 ^ 12 <=? Z.abs (cost_usd u)) eqn:E; [rewrite /maxMicro in Hb; lia|].
  case_bool_decide; [done|]. by rewrite Hz.
Qed.
Lemma prefixed_storable run session seq gen prefix us kv : modelsOk us →
  kv ∈ foldPrefixedModelUsage run session seq gen prefix us → usageOk kv.2 = Ok tt.
Proof.
  intros Hok Hin. rewrite /foldPrefixedModelUsage in Hin. apply list_elem_of_bind in Hin as ([model mu] & Hin & Hmu).
  apply elem_of_map_to_list in Hmu. destruct (model =?s EmptyString)%go; [by apply elem_of_nil in Hin|].
  destruct (resolveProgressNoteCost _ _ _) as [st c] eqn:E. apply list_elem_of_singleton in Hin as ->.
  apply usageOk_bound; simpl; [by eapply resolveProgressNoteCost_bound; [apply (Hok _ _ Hmu)|]|by apply (MessageUsage.resolveProgressNoteCost_zero _ _ _ _ _ E)].
Qed.
Lemma resultRows_storable run session epoch lineage gen p kv :
  kv ∈ resultRows run session epoch lineage gen p → usageOk kv.2 = Ok tt.
Proof.
  intros Hin. rewrite /resultRows in Hin. apply list_elem_of_bind in Hin as ([model mu] & Hin & _).
  destruct (model =?s EmptyString)%go; [by apply elem_of_nil in Hin|]. apply list_elem_of_singleton in Hin as ->. rewrite /resultRow.
  destruct (deriveUsageCost _ _ _) as [st c] eqn:E.
  apply usageOk_bound; simpl; [eapply deriveUsageCost_bound; [apply resolveCostUSD_ok|exact E]|by apply (MessageUsage.deriveUsageCost_zero _ _ _ _ _ E)].
Qed.

(** Whatever is delivered, the table takes the rows it leads to. *)
Lemma frameRows_storable run ms gen x kv :
  kv ∈ frameRows run ms (stampGen gen (cleanMessage run x)) → usageOk kv.2 = Ok tt.
Proof.
  rewrite /frameRows. cbn [Kind Payload Seq stampGen cleanMessage]. set (kind := truncateRunes _ _).
  destruct (r_kind run =?s Chat)%go; [by rewrite elem_of_nil|].
  destruct (kind =?s KindProgressNote)%go eqn:E1.
  { apply String.eqb_eq in E1. rewrite E1. cbn. apply prefixed_storable, normalizeMap_ok. }
  destruct (kind =?s KindSummaryUsage)%go eqn:E2; [apply prefixed_storable, normalizeMap_ok|].
  destruct (resultFrame _ _); [apply resultRows_storable|by rewrite elem_of_nil].
Qed.

(** * Running without faults *)
Section Total.
Context `{Jsonb}.

Definition runs_to {A} (m : T A) (db : DB) (a : A) (db' : DB) : Prop :=
  ∀ c, m (Txn.mkTX c db false []) = (Ok a, Txn.mkTX c db' false []).
Lemma runs_bind {A B} (m : T A) (f : A → T B) db a db' b db'' : runs_to m db a db' → runs_to (f a) db' b db'' → runs_to (m ≫= f) db b db''.
Proof. intros Hm Hf c. rewrite /mbind /Txn.T_bind Hm. apply Hf. Qed.
Lemma runs_stmt {A} (f : DB → result error (A * DB)) db a db' : f db = Ok (a, db') → runs_to (Txn.stmt f) db a db'.
Proof. intros Hf c. by rewrite /Txn.stmt /= Hf. Qed.
Lemma runs_query {A} (f : DB → A) db : runs_to (Txn.query f) db (f db) db.
Proof. by apply runs_stmt. Qed.
Lemma runs_attempt {A} (m : T A) db a db' : runs_to m db a db' → runs_to (Txn.attempt m) db (Ok a) db'.
Proof. intros Hm c. by rewrite /Txn.attempt Hm. Qed.

Lemma runs_upsertAll id rows : ∀ db, (∀ kv, kv ∈ rows → usageOk kv.2 = Ok tt) → ∃ db', runs_to (upsertAll id rows) db tt db'.
Proof.
  induction rows as [|[k u] rows IH]; intros db Hok; [by exists db|].
  destruct (IH (setUsage db id (upsert (usageOf db id) k u))) as [db' Hdb']; [intros kv Hin; apply Hok, elem_of_cons; by right|].
  exists db'. eapply runs_bind; [|exact Hdb']. apply runs_stmt. by rewrite (Hok (k, u) ltac:(apply elem_of_cons; by left)).
Qed.
Lemma runs_foldFrame id run m db : (r_kind run =?s Chat)%go = false →
  (∀ ms kv, kv ∈ frameRows run ms m → usageOk kv.2 = Ok tt) → ∃ db', runs_to (foldFrame id run (usageSession run) m) db tt db'.
Proof.
  intros Hk Hok. rewrite /frameRows Hk in Hok. rewrite /foldFrame. destruct (Kind m =?s KindProgressNote)%go.
  { rewrite /foldProgressNoteUsage. destruct (Payload m); [by exists db|apply runs_upsertAll, (Hok ∅)|by exists db]. }
  destruct (Kind m =?s KindSummaryUsage)%go.
  { rewrite /foldSummaryUsage. destruct (Payload m); [by exists db|by exists db|apply runs_upsertAll, (Hok ∅)]. }
  destruct (resultFrame _ _) as [p|]; [|by exists db].
  edestruct (runs_upsertAll id _ db (Hok (messagesOf db id))) as [db' Hdb']. exists db'.
  eapply runs_bind; [apply runs_query|]. eapply runs_bind; [apply runs_query|exact Hdb'].
Qed.
Lemma runs_fold id run frames : ∀ db, (∀ m, m ∈ frames → ∀ ms kv, kv ∈ frameRows run ms m → usageOk kv.2 = Ok tt) →
  ∃ db', runs_to (foldUsageFrames id run frames) db tt db'.
Proof.
  rewrite /foldUsageFrames. destruct (r_kind run =?s Chat)%go eqn:Hk; [by intros db _; exists db|].
  induction frames as [|m frames IH]; intros db Hok; [by exists db|]. simpl.
  destruct (runs_foldFrame id run m db Hk) as [db1 H1]; [apply Hok, elem_of_cons; by left|].
  destruct (IH db1) as [db2 H2]; [intros x Hx; apply Hok, elem_of_cons; by right|]. exists db2. by eapply runs_bind.
Qed.

Lemma runLive_ext db db' id gen : runs db' = runs db → runLive db' id gen = runLive db id gen.
Proof. intros E. by rewrite /runLive E. Qed.
Lemma runs_insert id gen m db : refused (Payload m) = false →
  ∃ i db1, runs_to (InsertRunMessage id (Seq m) (paramsOf gen m)) db (mkInserted i (runLive db id gen)) db1 ∧ runs db1 = runs db.
Proof.
  intros Hr. destruct (runLive db id gen && bool_decide (messagesOf db id !! Seq m = None)) eqn:E; eexists _, _; split;
    try (apply runs_stmt; simpl; rewrite Hr E); done.
Qed.
Lemma refused_insert id gen m c db fs : refused (Payload m) = true →
  InsertRunMessage id (Seq m) (paramsOf gen m) (Txn.mkTX c db false fs) =
  match default Txn.NoFault (head fs) with
  | Txn.NoFault => (Err (Sql "22003"), Txn.mkTX c db true (tail fs))
  | Txn.StmtFails e | Txn.CommitLost e => (Err e, Txn.mkTX c db true (tail fs))
  end.
Proof. intros Hr. rewrite /InsertRunMessage /Txn.stmt /=. destruct (default _ _); try done. by rewrite Hr. Qed.

(** The loop on a live claim: to the end, or to the first message refused. *)
Definition unstorable (m : IncomingMessage) : bool := refused (Payload m).
Lemma runs_insertLoop id gen batch : ∀ acc db, insertErr acc = None → gen = None ∨ runLive db id gen = true →
  if existsb unstorable batch
  then ∀ c, ∃ res db', insertLoop id gen batch acc (Txn.mkTX c db false []) = (Ok res, Txn.mkTX c db' true []) ∧
         insertErr res = Some (ErrUnstorableMessage "22003")
  else ∃ res db', runs_to (insertLoop id gen batch acc) db res db' ∧ insertErr res = None.
Proof.
  induction batch as [|m batch IH]; intros acc db Hacc Hgen; [by exists acc, db|]. cbn [existsb]. unfold unstorable at 1.
  destruct (refused (Payload m)) eqn:Er; simpl.
  { intros c. eexists _, _. rewrite {1}/mbind /Txn.T_bind /Txn.attempt refused_insert //. }
  destruct (runs_insert id gen m db Er) as (i & db1 & H1 & E1).
  specialize (IH (mkInsertions (Z.max (maxStored acc) (Seq m)) (if i then inserted acc ++ [m] else inserted acc) None) db1 eq_refl).
  rewrite (runLive_ext db) // in IH. specialize (IH Hgen).
  assert (bool_decide (is_Some gen) && negb (runLive db id gen) = false) as Hf by (destruct Hgen as [->| ->]; [done|by rewrite andb_false_r]).
  destruct (existsb unstorable batch).
  - intros c. destruct (IH c) as (res & db' & H2 & He). exists res, db'. split; [|done].
    rewrite {1}/mbind /Txn.T_bind (runs_attempt _ _ _ _ H1) /= Hf. exact H2.
  - destruct IH as (res & db' & H2 & He). exists res, db'. split; [|done]. eapply runs_bind; [apply runs_attempt, H1|]. simpl. rewrite Hf. exact H2.
Qed.
(** On a claim that does not stand its first message decides. *)
Lemma stale_insertLoop id g m batch acc c db : runLive db id (Some g) = false → refused (Payload m) = false →
  insertLoop id (Some g) (m :: batch) acc (Txn.mkTX c db false []) = (Err ErrStaleClaim, Txn.mkTX c db false []).
Proof.
  intros Hl Hr. assert (runs_to (InsertRunMessage id (Seq m) (paramsOf (Some g) m)) db (mkInserted false false) db) as H1.
  { apply runs_stmt. cbn [a_payload a_generation paramsOf]. by rewrite Hr Hl. }
  simpl. rewrite /mbind /Txn.T_bind (runs_attempt _ _ _ _ H1). done.
Qed.
Lemma refused_insertLoop id gen m batch acc c db : refused (Payload m) = true →
  insertLoop id gen (m :: batch) acc (Txn.mkTX c db false []) =
  (Ok (mkInsertions (maxStored acc) (inserted acc) (Some (ErrUnstorableMessage "22003"))), Txn.mkTX c db true []).
Proof. intros Hr. simpl. rewrite /mbind /Txn.T_bind /Txn.attempt refused_insert //. Qed.

(** * The answer *)
(** Why an append is refused, the first reason that applies. *)
Definition claimRefusal (w : Worker) (id : uuid) (claimGen : option Z) (db : DB) : result error Run :=
  if negb (bool_decide (w_ID w ∈ workers db)) then Err ErrNoRows else
  match owned db id (w_ID w) with
  | None => Err ErrRunNotOwned
  | Some run =>
    if bool_decide (id ∈ reconciled db)
    then match validateReconciledGeneration run claimGen with Ok _ => Ok run | Err e => Err e end else Ok run
  end.
Definition batchRefusal (w : Worker) (run : Run) (batch : list IncomingMessage) (claimGen : option Z) : option error :=
  let gen := effective run claimGen in
  if laneMismatch run w then Some ErrRunNotOwned else
  if bool_decide (gen = None) && negb (r_kind run =?s Chat)%go && bool_decide (CredentialSwitchV1 ∈ ProtocolCapabilities w)
  then Some ErrMissingClaimGeneration else
  if existsb invalidMessage batch then Some ErrInvalidMessage else
  match cleanMessage run <$> batch with
  | [] => None
  | m :: msgs =>
    if unstorable m then Some (ErrUnstorableMessage "22003") else
    if bool_decide (is_Some gen) && negb (generationLive run gen) then Some ErrStaleClaim else
    if existsb unstorable msgs then Some (ErrUnstorableMessage "22003") else None
  end.
Definition refusal (w : Worker) (id : uuid) (batch : list IncomingMessage) (claimGen : option Z) (db : DB) : option error :=
  match claimRefusal w id claimGen db with
  | Err e => Some e
  | Ok run => batchRefusal w run batch claimGen
  end.

(** The claim is taken as [claimRefusal] says. *)
Lemma begin_spec w id claimGen db c :
  match claimRefusal w id claimGen db with
  | Ok run => beginClaimMutation w id claimGen (Txn.mkTX c db false []) = (Ok run, Txn.mkTX c db false [])
  | Err e => ∃ t, beginClaimMutation w id claimGen (Txn.mkTX c db false []) = (Err e, t) ∧ Txn.committed t = c
  end.
Proof.
  rewrite /claimRefusal /beginClaimMutation /GetWorkerForUpdate /GetRunOwnedByWorkerForUpdate /reconciliationExists /Txn.query /Txn.stmt.
  rewrite /mbind /Txn.T_bind /mret /Txn.T_ret /=. case_bool_decide; simpl; [|by eexists]. destruct (owned db id (w_ID w)) as [run|]; [|by eexists].
  simpl. case_bool_decide; simpl; [|done]. destruct (validateReconciledGeneration run claimGen) as [[]|e]; simpl; [done|by eexists].
Qed.

Lemma owned_crossCheck db id wid run : owned db id wid = Some run → (r_kind run =?s "cross_check")%go && (claim_generation run =? 0) = false.
Proof.
  rewrite /owned. destruct (runs db !! id) as [r|]; simpl; [|done]. destruct (bool_decide _ && _) eqn:E; [|done]. intros [= ->].
  apply andb_true_iff in E as [_ E]. destruct (r_kind run =?s "cross_check")%go; simpl in *; [lia|done].
Qed.

Lemma runs_afterInserts id run gen batch now ins db : insertErr ins = None →
  ∃ db', runs_to (afterInserts id run gen (cleanMessage run <$> batch) now ins) db (Ok (inserted ins)) db'.
Proof.
  intros Hi. rewrite /afterInserts.
  assert (∃ n db1, runs_to (if last_seq run <? maxStored ins
    then Txn.attempt (UpdateRunLastSeq id (maxStored ins) gen (onlyUsageSideChannel (cleanMessage run <$> batch)) now) else mret (Ok 0) : T (result error Z))
    db (Ok n) db1) as (n & db1 & H1).
  { destruct (_ <? _); [|by exists 0, db].
    assert (∃ n db1, runs_to (UpdateRunLastSeq id (maxStored ins) gen (onlyUsageSideChannel (cleanMessage run <$> batch)) now) db n db1)
      as (n & db1 & H1); [|exists n, db1; by apply runs_attempt].
    rewrite /UpdateRunLastSeq. destruct (runs db !! id) as [r|] eqn:Er; [destruct (generationLive r gen) eqn:El|].
    all: eexists _, _; apply runs_stmt; rewrite Er ?El; reflexivity. }
  destruct (runs_fold id run (stampGen gen <$> (cleanMessage run <$> batch)) db1) as [db2 H2].
  { intros m (x & -> & (y & -> & _)%list_elem_of_fmap)%list_elem_of_fmap ms kv. apply frameRows_storable. }
  exists db2. eapply runs_bind; [exact H1|]. rewrite Hi. eapply runs_bind; [apply runs_attempt, H2|]. done.
Qed.

(** A refusal by the fence is not held against the run; one for what is in the batch
    may be. *)
Definition ofContent (e : error) : bool := match e with ErrInvalidMessage | ErrUnstorableMessage _ => true | _ => false end.
Definition quiet (o : appendObservation) (e : error) : Prop := ofContent e = false →
  ∀ w id now fs db, recordAppendObservation w id o (Err e) now fs db = None.
Lemma quiet_none e : quiet noObservation e.
Proof. done. Qed.
Lemma quiet_fence o e : e = ErrMissingClaimGeneration ∨ e = ErrStaleClaim → quiet o e.
Proof. rewrite /quiet /recordAppendObservation. intros [->| ->] *; by rewrite orb_true_r. Qed.

(** The append proper, on a claim that stands. *)
Lemma locked_spec w id batch claimGen now run db c : owned db id (w_ID w) = Some run →
  match batchRefusal w run batch claimGen with
  | Some e => ∃ o t, appendMessagesLocked w id batch claimGen now (Txn.mkTX c db false []) = (Ok (o, Err e), t) ∧
                   Txn.committed t = c ∧ quiet o e
  | None => ∃ o new db', runs_to (appendMessagesLocked w id batch claimGen now) db (o, Ok new) db'
  end.
Proof.
  intros Hown. pose proof (owned_run _ _ _ _ Hown) as Hrun.
  assert (runs_to (Txn.attempt (runOwnedByWorker w id)) db (if laneMismatch run w then Err ErrRunNotOwned else Ok run) db) as Hf.
  { intros c'. rewrite /Txn.attempt /runOwnedByWorker /GetRunOwnedByWorker /Txn.query /Txn.stmt /mbind /Txn.T_bind /= Hown /=.
    rewrite (owned_crossCheck _ _ _ _ Hown) /=. by destruct (laneMismatch run w). }
  rewrite /batchRefusal. destruct (laneMismatch run w).
  { eexists _, _. rewrite /appendMessagesLocked /mbind /Txn.T_bind Hf. split; [done|]. split; [done|apply quiet_none]. }
  destruct (bool_decide _ && _ && _) eqn:Emiss.
  { eexists _, _. rewrite /appendMessagesLocked /mbind /Txn.T_bind Hf Emiss. split; [done|]. split; [done|apply quiet_fence; by left]. }
  destruct (existsb invalidMessage batch) eqn:Eval.
  { eexists _, _. rewrite /appendMessagesLocked /mbind /Txn.T_bind Hf Emiss Eval. by split; [done|]. }
  set (gen := effective run claimGen) in *. set (msgs := cleanMessage run <$> batch) in *.
  assert (runLive db id gen = generationLive run gen) as Hl by (by rewrite /runLive Hrun).
  assert (∀ res db1, runs_to (insertLoop id gen msgs (mkInsertions 0 [] None)) db res db1 → insertErr res = None →
    ∃ o new db', runs_to (appendMessagesLocked w id batch claimGen now) db (o, Ok new) db') as Hok.
  { intros res db1 H1 He. destruct (runs_afterInserts id run gen batch now res db1 He) as [db2 H2]. do 3 eexists.
    rewrite /appendMessagesLocked. eapply runs_bind; [exact Hf|]. cbv beta iota zeta. fold gen msgs. rewrite Emiss Eval.
    eapply runs_bind; [apply runs_attempt, H1|]. by eapply runs_bind; [exact H2|]. }
  assert (∀ res db1, insertLoop id gen msgs (mkInsertions 0 [] None) (Txn.mkTX c db false []) = (Ok res, Txn.mkTX c db1 true []) →
    insertErr res = Some (ErrUnstorableMessage "22003") →
    ∃ o t, appendMessagesLocked w id batch claimGen now (Txn.mkTX c db false []) = (Ok (o, Err (ErrUnstorableMessage "22003")), t) ∧
      Txn.committed t = c ∧ quiet o (ErrUnstorableMessage "22003")) as Hbad.
  { intros res db1 H1 He. rewrite /appendMessagesLocked {1}/mbind /Txn.T_bind Hf. cbv beta iota zeta. fold gen msgs. rewrite Emiss Eval.
    rewrite {1}/mbind /Txn.attempt H1 /afterInserts He /mbind. destruct (last_seq run <? maxStored res); by eexists _, _. }
  destruct msgs as [|m msgs'] eqn:Em; [by eapply Hok|]. cbv beta iota. unfold unstorable at 1.
  destruct (refused (Payload m)) eqn:Er; [eapply Hbad; [by apply refused_insertLoop|done]|].
  destruct (bool_decide (is_Some gen) && negb (generationLive run gen)) eqn:Est.
  { destruct gen as [g|] eqn:Eg; [|done]. apply negb_true_iff in Est. rewrite Est in Hl.
    eexists _, _. rewrite /appendMessagesLocked {1}/mbind /Txn.T_bind Hf. cbv beta iota zeta. fold gen. rewrite Eg Emiss Eval -/msgs Em.
    rewrite /mbind /Txn.attempt stale_insertLoop //. }
  assert (gen = None ∨ runLive db id gen = true) as Hlive.
  { rewrite Hl. destruct gen; [right|by left]. by apply negb_false_iff in Est. }
  pose proof (runs_insertLoop id gen (m :: msgs') (mkInsertions 0 [] None) db eq_refl Hlive) as Hloop.
  cbn [existsb] in Hloop. unfold unstorable at 1 in Hloop. rewrite Er /= in Hloop. destruct (existsb unstorable msgs').
  - destruct (Hloop c) as (res & db1 & H1 & He). by eapply Hbad.
  - destruct Hloop as (res & db1 & H1 & He). by eapply Hok.
Qed.

End Total.
End MessageTotal.
