(* ===== verification/MessageExample.v ===== *)
(** A run, its worker and a few batches: the theorems of [MessageSafe] and
    [MessageUsage] at concrete histories, and some behaviours of the append path and
    of the server's own lines worth knowing. *)

From S2P Require Import Prelude Result GoText GoStrings GoJson GoFloat GoNumber Txn Sanitize UsageFold MessageDb PersistFail MessageAppend.
From S2P Require Import MessageInv MessageSafe MessageUsage.

Local Open Scope Z_scope.

Module MessageExample.
Import Txn GoStrings GoJson UsageFold MessageDb MessageAppend MessageInv MessageUsage.

(** A database that keeps documents as they came, and has no room for one number. *)
#[local] Instance same : Jsonb := {| jsonb := id; overflows lit := (lit =?s "1e1000000")%go |}.

Definition run1 : uuid := Uuid.mk 1.
Definition worker1 : Worker := mkWorker (Uuid.mk 7) false [CredentialSwitchV1].
Definition claim (gen : Z) (released : bool) : Run :=
  mkRun (Some (Uuid.mk 7)) "running" "issue" "claude" (Some "s1") 0 0 gen released false false None.

Definition msg (seq : Z) (kind : string) (doc : json) : IncomingMessage :=
  mkIncoming seq kind EmptyString EmptyString EmptyString (Raw (Some doc)) None.
Definition init : json := JObj [("event", JStr "init")].
Definition usageDoc (n : string) : json :=
  JObj [("event", JStr "result");
        ("modelUsage", JObj [("m", JObj [("inputTokens", JNum n); ("outputTokens", JNum "7"); ("costUSD", JNum "0.25")])])].
Definition note : json :=
  JObj [("text", JStr "on it"); ("model_usage", JObj [("h", JObj [("inputTokens", JNum "3")])])].

Definition batch1 : list IncomingMessage := [msg 1 "status" init; msg 2 "status" (usageDoc "10")].
Definition batch2 : list IncomingMessage := [msg 2 "status" (usageDoc "10"); msg 3 KindProgressNote note; msg 4 "status" (usageDoc "25")].

(** * Histories *)
Definition append (s : sys) (batch : list IncomingMessage) (gen : Z) (fs : list (fault error)) : sys :=
  let '(out, db') := appendMessages worker1 run1 batch (Some gen) 5 (Ok tt) fs (tables s) in
  mkSys db' (log s ++ (pair run1 <$> published out)) (used s) (notes s).
Lemma append_step s batch gen fs : step s (append s batch gen fs).
Proof. rewrite /append. destruct (appendMessages _ _ _ _ _ _ _ _) as [out db'] eqn:E. by eapply S_append. Qed.

Definition withWorker : sys := mkSys (mkDB {[Uuid.mk 7]} ∅ ∅ ∅ ∅) [] ∅ [].
Definition created : sys := mkSys (setRun (tables withWorker) run1 (claim 1 false)) [] ({[run1]} ∪ ∅) [].
(** The second batch is first lost with its transaction, then delivered.  Between the
    two the server writes the line of a credential switch. *)
Definition switchDoc : json := JObj [("select_reason", JStr "manual")].
Definition first : sys := append created batch1 1 [].
Definition lost : sys := append first batch2 1 [NoFault; NoFault; NoFault; NoFault; NoFault; NoFault; StmtFails (Sql "57014")].
Definition second : sys := append lost batch2 1 [].
Definition switched (s : sys) (gen : Z) (doc : json) : sys :=
  let '(r, db') := inTx (recordRunCredentialTx run1 gen true doc 6) [] (tables s) in
  mkSys db' (log s ++ (pair run1 <$> announced (p ← r; mret p.2) credentialSwitchMessageKind doc)) (used s) (notes s).
Lemma switched_line s gen doc : lineStep s (switched s gen doc).
Proof. rewrite /switched. destruct (inTx _ _ _) as [r db'] eqn:E. by eapply L_switch. Qed.
Definition third : sys := switched second 1 switchDoc.

Lemma created_steps : steps start created.
Proof.
  apply (Steps_step _ withWorker); [|apply (S_create withWorker run1 (claim 1 false)); [set_solver|reflexivity]].
  apply (Steps_step _ start); [constructor|apply (S_other start {[Uuid.mk 7]} ∅)].
Defined.
Lemma third_steps : steps start third.
Proof.
  apply (Steps_step _ second); [|apply S_line, switched_line].
  apply (Steps_step _ lost); [|apply append_step]. apply (Steps_step _ first); [|apply append_step].
  apply (Steps_step _ created); [exact created_steps|apply append_step].
Defined.

Example third_log : (logKey <$> log third) = [(run1, 1); (run1, 2); (run1, 3); (run1, 4); (run1, 5)] ∧ log lost = log first.
Proof. vm_compute. split; reflexivity. Qed.

Lemma messages_once_witness : steps start third ∧ length (log third) = 5%nat ∧ NoDup (logKey <$> log third).
Proof.
  split; [exact third_steps|]. split; [vm_compute; reflexivity|]. apply (MessageSafe.messages_once third third_steps).
Defined.

(** The run is claimed anew; the worker of the old claim delivers once more. *)
Definition reclaimed : sys := mkSys (setRun (tables first) run1 (withLastSeq 2 5 (claim 2 false))) (log first) (used first) (notes first).
Definition late : sys := append reclaimed batch2 1 [].
Definition fresh : sys := append late batch2 2 [].
Lemma reclaimed_steps : steps start reclaimed.
Proof.
  apply (Steps_step _ first); [apply (Steps_step _ created); [exact created_steps|apply append_step]|].
  apply (S_change first run1 (withLastSeq 2 5 (claim 1 false))); [vm_compute; reflexivity|reflexivity|vm_compute; congruence].
Defined.
Lemma fresh_steps : steps reclaimed fresh.
Proof. apply (Steps_step _ late); [|apply append_step]. apply (Steps_step _ reclaimed); [constructor|apply append_step]. Defined.

Lemma old_claim_fenced_witness :
  steps start reclaimed ∧ steps reclaimed fresh ∧ runs (tables reclaimed) !! run1 = Some (withLastSeq 2 5 (claim 2 false)) ∧
  tables late = tables reclaimed ∧ is_Some (messagesOf (tables fresh) run1 !! 4) ∧
  ∀ seq m, messagesOf (tables fresh) run1 !! seq = Some m → m_generation m = Some 1 →
    messagesOf (tables reclaimed) run1 !! seq = Some m.
Proof.
  split; [exact reclaimed_steps|]. split; [exact fresh_steps|]. split; [vm_compute; reflexivity|]. split; [vm_compute; reflexivity|].
  split; [vm_compute; eauto|].
  apply (MessageSafe.old_claim_fenced reclaimed fresh run1 (withLastSeq 2 5 (claim 2 false)) 1 reclaimed_steps fresh_steps);
    [vm_compute; reflexivity|vm_compute; reflexivity].
Defined.

(** * Deliveries and a refold *)
Definition script (seq : Z) : string * payload :=
  match seq with
  | 1 => ("status", Raw (Some init))
  | 2 => ("status", Raw (Some (usageDoc "10")))
  | 3 => (KindProgressNote, Payload (cleanMessage (claim 1 false) (msg 3 KindProgressNote note)))
  | 4 => ("status", Raw (Some (usageDoc "25")))
  | _ => ("text", Raw None)
  end.
Lemma script_survives seq : survives (script seq).1 (script seq).2.
Proof. rewrite /survives /stored. destruct (script seq).2 as [[doc|]|p|p]; reflexivity. Defined.

(** The batches, the line of a switch between two of them, and the first batch once
    more. *)
Definition sys1 : sys := append created batch1 1 [].
Definition sys2 : sys := append sys1 batch2 1 [NoFault; NoFault; NoFault; NoFault; NoFault; NoFault; StmtFails (Sql "57014")].
Definition sys3 : sys := append sys2 batch2 1 [].
Definition sys4 : sys := switched sys3 1 switchDoc.
Definition sys5 : sys := append sys4 batch1 1 [].

Lemma orderly_batch (db : DB) batch r :
  Forall (λ x, (Kind (cleanMessage r x), Payload (cleanMessage r x)) = script (Seq x)) batch →
  Forall (λ x, match messagesOf db run1 !! Seq x with
    | None => last_seq r < Seq x
    | Some m => m_kind m = (script (Seq x)).1 ∧ m_payload m = stored (script (Seq x)).2 end) batch → orderly script run1 r db batch.
Proof.
  rewrite !Forall_forall. intros Hs Ho. split; [done|..].
  - intros x Hx E. specialize (Ho x Hx). by rewrite E in Ho.
  - intros x m Hx E. specialize (Ho x Hx). by rewrite E in Ho.
Qed.
Lemma deliver_one s batch fs r : runs (tables s) !! run1 = Some r → claim_released r = false → orderly script run1 r (tables s) batch →
  deliver script run1 s (append s batch 1 fs).
Proof.
  intros Hr Hc Ho. rewrite /append. destruct (appendMessages _ _ _ _ _ _ _ _) as [out db'] eqn:E.
  eapply (V_append _ _ _ r); [done|done|by left|exact E].
Qed.
Ltac deliver_one r :=
  apply (deliver_one _ _ _ r); [vm_compute; reflexivity|reflexivity|apply orderly_batch];
  repeat (constructor; [vm_compute; (split; reflexivity) || reflexivity|]); constructor.

Lemma sys5_delivers : rtc (deliver script run1) created sys5.
Proof.
  apply (rtc_l _ _ sys1); [deliver_one (claim 1 false)|]. apply (rtc_l _ _ sys2); [deliver_one (withLastSeq 2 5 (claim 1 false))|].
  apply (rtc_l _ _ sys3); [deliver_one (withLastSeq 2 5 (claim 1 false))|].
  apply (rtc_l _ _ sys4); [|apply rtc_once; deliver_one (withLastSeq 5 6 (claim 1 false))].
  apply V_line; [apply switched_line|]. intros seq m Hm Hn Hk.
  assert (messagesOf (tables sys4) run1 = <[5 := rowOf (Some 1) (serverLine 5 credentialSwitchMessageKind switchDoc)]> (messagesOf (tables sys3) run1))
    as Em by (vm_compute; reflexivity).
  rewrite Em lookup_insert_Some Hn in Hm. destruct Hm as [[_ <-]|[_ ?]]; [vm_compute in Hk; discriminate Hk|done].
Qed.


(** * Behaviours *)
Definition deliverOne (db : DB) (batch : list IncomingMessage) (fs : list (fault error)) : DB :=
  snd (appendMessages worker1 run1 batch (Some 1) 5 (Ok tt) fs db).

(** A number without bound is refused for good, and nothing of its batch is stored. *)
Example huge_number :
  let '(out, db') := appendMessages worker1 run1 [msg 1 "status" init; msg 2 "text" (JObj [("n", JNum "1e1000000")])] (Some 1) 5 (Ok tt) [] (tables created) in
  answer out = Err (ErrUnstorableMessage "22003") ∧ db' = tables created ∧ o_lastSeq (obs out) = 1.
Proof. vm_compute. tauto. Qed.

(** The note on a dropped model is stored and the statement that marks it fails: the
    claim is told the old mark, so the worker's first message takes the note's number;
    it is answered as stored, is not, and its usage is counted until a refold. *)
Definition noteDoc : json := JObj [("harness", JStr "codex")].
Definition unmarked : Z * list IncomingMessage * DB :=
  recordHarnessModelFallbackNote run1 1 0 noteDoc 5 [] [NoFault; StmtFails (Sql "57014")] (tables created).
Definition reused : appendOutcome * DB :=
  appendMessages worker1 run1 [msg 1 "status" (usageDoc "10")] (Some 1) 5 (Ok tt) [] unmarked.2.
Example unmarked_note_loses_a_frame :
  unmarked.1 = (0, []) ∧ answer reused.1 = Ok tt ∧ published reused.1 = [] ∧
  (m_kind <$> messagesOf reused.2 run1 !! 1) = Some harnessModelFallbackKind ∧ size (usageOf reused.2 run1) = 1%nat ∧
  usageOf (snd (RefoldRunUsage run1 (claim 1 false) [] reused.2)) run1 = ∅.
Proof. vm_compute. tauto. Qed.

(** A frame that is delivered again after the worker has reported another session is
    filed a second time. *)
Definition underSession (s : string) : Run :=
  mkRun (Some (Uuid.mk 7)) "running" "issue" "claude" (Some s) 2 5 1 false false false None.
Example another_session_counts_twice :
  let db := deliverOne (setRun (deliverOne (tables created) batch1 []) run1 (underSession "s2")) batch1 [] in
  is_Some (usageOf db run1 !! ("s1", "m", 1)) ∧ is_Some (usageOf db run1 !! ("s2", "m", 1)) ∧
  size (usageOf (snd (RefoldRunUsage run1 (underSession "s2") [] db)) run1) = 1%nat.
Proof. vm_compute. eauto. Qed.

(** A note whose [milestone_id] is null takes its text for the milestone's id. *)
Example null_milestone :
  MilestoneID (normalizeProgressNotePayload (Some (JObj [("text", JStr "Fixing the build"); ("milestone_id", JNull)])) "claude")
  = "Fixing the build".
Proof. vm_compute. reflexivity. Qed.

(** A worker that names no generation, on a claim that was released: its batch is
    accepted, no message is stored, and its usage is. *)
Definition legacy : Worker := mkWorker (Uuid.mk 7) false [].
Definition released : DB := setRun (tables created) run1 (claim 1 true).
Example released_usage :
  let '(out, db') := appendMessages legacy run1 [msg 1 "status" (usageDoc "10")] None 5 (Ok tt) [] released in
  answer out = Ok tt ∧ published out = [] ∧ messagesOf db' run1 = ∅ ∧ size (usageOf db' run1) = 1%nat.
Proof. vm_compute. tauto. Qed.

(** When the database refuses the second message, the first is rolled back with
    it; the observation names the mark as if it had stayed. *)
Example partial_rolled_back :
  let '(out, db') := appendMessages worker1 run1 batch1 (Some 1) 5 (Ok tt)
    [NoFault; NoFault; NoFault; NoFault; NoFault; NoFault; NoFault; StmtFails (Sql "22P05")] (tables created) in
  answer out = Err (ErrUnstorableMessage "22P05") ∧ db' = tables created ∧ o_lastSeq (obs out) = 1.
Proof. vm_compute. tauto. Qed.

(** An init frame that arrives after the result frame it precedes moves that frame
    to another row: delivered once more it is counted twice, until a refold. *)
Definition disordered : DB :=
  deliverOne (deliverOne (deliverOne (tables created) [msg 2 "status" (usageDoc "10")] []) [msg 1 "status" init] [])
    [msg 2 "status" (usageDoc "10")] [].
Example late_init_counts_twice :
  is_Some (usageOf disordered run1 !! ("s1", "m", 0)) ∧ is_Some (usageOf disordered run1 !! ("s1", "m", 1)) ∧
  size (usageOf (snd (RefoldRunUsage run1 (claim 1 false) [] disordered)) run1) = 1%nat.
Proof. vm_compute. eauto. Qed.

End MessageExample.
