(* ===== verification/RunActivity.v ===== *)
(** The activity line of a run: [runactivity], over the decoding of frame
    payloads by [encoding/json] ([GoJson]). *)

From Stdlib Require Import Ascii.
From S2P Require Import Prelude GoText GoStrings GoJson Termsafe.

Local Open Scope Z_scope.

Module RunActivity.
Import GoStrings Termsafe GoJson.

Record Frame := mkFrame {
  Kind : string;
  Agent : option string;
  AgentLabel : option string;
  AgentInstance : option string;
  Payload : RawMessage;
  CreatedAt : time;
  Seq : Z;
}.

(** [apitypes.RunActivity]. *)
Record Activity := mkActivity {
  act_Agent : string;
  act_AgentInstance : string;
  act_AgentLabel : string;
  act_Tool : string;
  act_Detail : string;
  act_At : time;
  act_Seq : Z;
}.

Definition deref (p : option string) : string := default EmptyString p.

Record toolPayload := mkToolPayload { tp_Name : string; tp_Input : RawMessage }.

Definition setToolPayload (n : string) (v : json) (p : toolPayload) : toolPayload * bool :=
  if (n =?s "name")%go then
    let '(s, e) := decodeString v (tp_Name p) in (mkToolPayload s (tp_Input p), e)
  else (mkToolPayload (tp_Name p) (Some v), false).

Record toolInput := mkToolInput { FilePath : string; Description : string; SubagentType : string }.

Definition setToolInput (n : string) (v : json) (i : toolInput) : toolInput * bool :=
  if (n =?s "file_path")%go then
    let '(s, e) := decodeString v (FilePath i) in (mkToolInput s (Description i) (SubagentType i), e) else
  if (n =?s "description")%go then
    let '(s, e) := decodeString v (Description i) in (mkToolInput (FilePath i) s (SubagentType i), e) else
  let '(s, e) := decodeString v (SubagentType i) in (mkToolInput (FilePath i) (Description i) s, e).

(** The two unmarshal calls; their errors are ignored, and an absent input
    leaves the zero value. *)
Definition decodeTool (payload : RawMessage) : toolPayload :=
  (Unmarshal ["name"; "input"] setToolPayload payload (mkToolPayload EmptyString None)).1.

Definition decodeInput (input : RawMessage) : toolInput :=
  match input with
  | None => mkToolInput EmptyString EmptyString EmptyString
  | Some _ =>
    (Unmarshal ["file_path"; "description"; "subagent_type"] setToolInput input
       (mkToolInput EmptyString EmptyString EmptyString)).1
  end.

Definition FromFrame (kind : string) (agent agentLabel agentInstance : option string)
    (payload : RawMessage) (createdAt : time) (seq : Z) : Activity :=
  let p := decodeTool payload in
  let i := decodeInput (tp_Input p) in
  let '(agent', label, detail) :=
    if (tp_Name p =?s "Agent")%go then
      (if negb (SubagentType i =?s EmptyString)%go then SubagentType i else deref agent,
       Description i, Description i) else
    if (tp_Name p =?s "Bash")%go then (deref agent, deref agentLabel, Description i) else
    if ((tp_Name p =?s "Read") || (tp_Name p =?s "Edit") || (tp_Name p =?s "Write")
        || (tp_Name p =?s "MultiEdit"))%go then (deref agent, deref agentLabel, FilePath i) else
    (deref agent, deref agentLabel, EmptyString) in
  mkActivity agent' (deref agentInstance) (sanitize label) (tp_Name p) (sanitize detail) createdAt seq.

(** The loop of [Latest]; [best] is the frame kept so far. *)
Fixpoint latestLoop (best : option Frame) (frames : list Frame) : option Frame :=
  match frames with
  | [] => best
  | f :: frames' =>
    if negb (Kind f =?s "tool_use")%go then latestLoop best frames' else
    latestLoop
      match best with
      | None => Some f
      | Some b => if Seq f >? Seq b then Some f else best
      end frames'
  end.

Definition Latest (frames : list Frame) : option Activity :=
  match latestLoop None frames with
  | None => None
  | Some best =>
    Some (FromFrame (Kind best) (Agent best) (AgentLabel best) (AgentInstance best)
            (Payload best) (CreatedAt best) (Seq best))
  end.

Example FromFrame_bash :
  FromFrame "tool_use" (Some "coder") (Some "run") None
    (Some (JObj [("name", JStr "Bash");
                 ("input", JObj [("command", JStr "rm -rf /"); ("Description", JStr "Run gate")])])) 5 7
  = mkActivity "coder" EmptyString "run" "Bash" "Run gate" 5 7.
Proof. vm_compute. reflexivity. Qed.

(** * The newest tool frame *)

Definition isTool (f : Frame) : Prop := Kind f = "tool_use".
#[export] Instance isTool_dec f : Decision (isTool f).
Proof. rewrite /isTool. apply _. Defined.

Definition newer (f b : Frame) : bool := Seq f >? Seq b.
#[export] Instance newer_weak : StrictWeak newer.
Proof. split; rewrite /newer; intros; lia. Qed.

Lemma latestLoop_keep best frames :
  latestLoop best frames =
  match best, filter isTool frames with
  | None, [] => None
  | None, f :: fs => Some (keep_best newer f fs)
  | Some b, fs => Some (keep_best newer b fs)
  end.
Proof.
  revert best. induction frames as [|f frames IH]; intros best; [by destruct best|].
  cbn [latestLoop]. destruct (String.eqb_spec (Kind f) "tool_use") as [Hk|Hk]; simpl.
  - rewrite filter_cons_True // IH. destruct best as [b|]; [|done].
    change (keep_best newer b (f :: filter isTool frames))
      with (keep_best newer (if newer f b then f else b) (filter isTool frames)).
    change (newer f b) with (Seq f >? Seq b). by destruct (Seq f >? Seq b).
  - by rewrite filter_cons_False // IH.
Qed.

Definition ofFrame (f : Frame) : Activity :=
  FromFrame (Kind f) (Agent f) (AgentLabel f) (AgentInstance f) (Payload f) (CreatedAt f) (Seq f).

Lemma FromFrame_clean k a l i p c q :
  let act := FromFrame k a l i p c q in
  sanitize (act_AgentLabel act) = act_AgentLabel act ∧ sanitize (act_Detail act) = act_Detail act
  ∧ act_AgentInstance act = deref i ∧ act_At act = c ∧ act_Seq act = q.
Proof.
  intros act. rewrite /act /FromFrame. repeat case_match; simplify_eq;
    (split_and!; [apply sanitize_idemp..|done|done|done]).
Qed.

(** Only the members the rule names reach the line. *)
Definition known (names : list string) (kv : string * json) : Prop := field names kv.1 ≠ None.
#[export] Instance known_dec names kv : Decision (known names kv).
Proof. rewrite /known. apply _. Defined.

Lemma decodeMembers_known {S} names (set : string → json → S → S * bool) kvs st err :
  decodeMembers names set kvs st err = decodeMembers names set (filter (known names) kvs) st err.
Proof.
  revert st err. induction kvs as [|[k v] kvs IH]; intros st err; [done|]. cbn [decodeMembers].
  destruct (field names k) as [n|] eqn:E.
  - rewrite filter_cons_True; [by rewrite /known /= E|]. cbn [decodeMembers]. rewrite E.
    by destruct (set n v st).
  - rewrite filter_cons_False; [by rewrite /known /= E; intros []|]. apply IH.
Qed.

Definition eraseInput (v : json) : json :=
  match v with
  | JObj kvs => JObj (filter (known ["file_path"; "description"; "subagent_type"]) kvs)
  | _ => v
  end.
Definition eraseMember (kv : string * json) : string * json :=
  if decide (field ["name"; "input"] kv.1 = Some "input") then (kv.1, eraseInput kv.2) else kv.
Definition erase (v : json) : json :=
  match v with
  | JObj kvs => JObj (eraseMember <$> filter (known ["name"; "input"]) kvs)
  | _ => v
  end.

Lemma decodeInput_erase v : decodeInput (Some (eraseInput v)) = decodeInput (Some v).
Proof.
  destruct v as [| | | | |kvs]; try done. cbn [eraseInput decodeInput Unmarshal decodeStruct].
  by rewrite -decodeMembers_known.
Qed.

Lemma decodeInput_erase_opt i : decodeInput (eraseInput <$> i) = decodeInput i.
Proof. destruct i; [apply decodeInput_erase|done]. Qed.

Lemma field_elem names k n : field names k = Some n → n ∈ names.
Proof.
  rewrite /field. case_match eqn:E.
  - intros [= <-]. apply existsb_true in E as (x & Hx & ->%String.eqb_eq). done.
  - intros [Hn _]%List.find_some. by apply list_elem_of_In.
Qed.

Lemma decodeTool_erase_loop kvs p err :
  let q := decodeMembers ["name"; "input"] setToolPayload kvs p err in
  decodeMembers ["name"; "input"] setToolPayload (eraseMember <$> kvs)
    (mkToolPayload (tp_Name p) (eraseInput <$> tp_Input p)) err
  = (mkToolPayload (tp_Name q.1) (eraseInput <$> tp_Input q.1), q.2).
Proof.
  revert p err. induction kvs as [|[k v] kvs IH]; intros p err; [done|].
  rewrite fmap_cons.
  destruct (decide (field ["name"; "input"] k = Some "input")) as [E|E].
  - assert (eraseMember (k, v) = (k, eraseInput v)) as -> by by rewrite /eraseMember decide_True.
    cbn [decodeMembers]. rewrite E. cbn [setToolPayload String.eqb Ascii.eqb Bool.eqb].
    apply (IH (mkToolPayload (tp_Name p) (Some v))).
  - assert (eraseMember (k, v) = (k, v)) as -> by by rewrite /eraseMember decide_False.
    cbn [decodeMembers]. destruct (field ["name"; "input"] k) as [n|] eqn:En; [|apply IH].
    apply field_elem in En. rewrite !elem_of_cons elem_of_nil in En.
    destruct En as [->|[->|[]]]; [|done]. cbn [setToolPayload String.eqb Ascii.eqb Bool.eqb tp_Name tp_Input].
    destruct (decodeString v (tp_Name p)) as [str e]. apply (IH (mkToolPayload str (tp_Input p))).
Qed.

Lemma decodeTool_erase v :
  tp_Name (decodeTool (Some (erase v))) = tp_Name (decodeTool (Some v))
  ∧ decodeInput (tp_Input (decodeTool (Some (erase v)))) = decodeInput (tp_Input (decodeTool (Some v))).
Proof.
  destruct v as [| | | | |kvs]; try done. rewrite /decodeTool.
  cbn [erase Unmarshal decodeStruct]. rewrite (decodeMembers_known _ _ kvs).
  set (l := filter _ kvs).
  pose proof (decodeTool_erase_loop l (mkToolPayload EmptyString None) false) as Hl.
  cbn [tp_Name tp_Input fmap option_fmap option_map] in Hl. rewrite Hl.
  cbn [fst tp_Name tp_Input]. split; [done|]. apply decodeInput_erase_opt.
Qed.

(** The activity of a frame is a function of the tool's name and of the
    three named members of its input: a document with every other member erased
    gives the same line, so a command a tool ran never reaches it.  The label
    and the detail are left alone by a further [sanitize]. *)
Theorem FromFrame_discloses k a l i v c q :
  let act := FromFrame k a l i (Some v) c q in
  act = FromFrame k a l i (Some (erase v)) c q
  ∧ sanitize (act_AgentLabel act) = act_AgentLabel act ∧ sanitize (act_Detail act) = act_Detail act.
Proof.
  intros act. split_and!; [|apply FromFrame_clean..].
  rewrite /act /FromFrame. by destruct (decodeTool_erase v) as [-> ->].
Qed.

(** The run's activity is the fold of its tool frame of greatest sequence
    number, absent exactly when there is no tool frame, whatever the order the
    frames come in. *)
Theorem Latest_correct frames :
  (Latest frames = None ↔ ∀ f, f ∈ frames → ¬ isTool f)
  ∧ (∀ act, Latest frames = Some act →
       ∃ f, f ∈ frames ∧ isTool f ∧ act = ofFrame f ∧ ∀ g, g ∈ frames → isTool g → Seq g <= Seq f)
  ∧ (∀ frames', NoDup (Seq <$> frames) → frames ≡ₚ frames' → Latest frames' = Latest frames).
Proof.
  assert (∀ (fs : list Frame) f, f ∈ filter isTool fs ↔ f ∈ fs ∧ isTool f) as Hf.
  { intros fs f. rewrite list_elem_of_filter. tauto. }
  rewrite /Latest. split_and!.
  - rewrite latestLoop_keep. destruct (filter isTool frames) as [|f fs] eqn:E.
    + split; [|done]. intros _ f Hin Ht. apply (not_elem_of_nil f). rewrite -E. by apply Hf.
    + split; [done|]. intros Hno. destruct (proj1 (Hf frames f)) as [Hin Ht]; [rewrite E; set_solver|].
      by destruct (Hno f Hin).
  - intros act. rewrite latestLoop_keep.
    destruct (filter isTool frames) as [|f fs] eqn:E; [done|]. intros [= <-].
    destruct (proj1 (Hf frames (keep_best newer f fs))) as [Hin Ht].
    { rewrite E. apply (keep_best_elem newer). }
    exists (keep_best newer f fs). split_and!; [done..|]. intros g Hg Htg.
    assert (g ∈ f :: fs) as Hg' by (rewrite -E; by apply Hf).
    pose proof (keep_best_least newer f fs g Hg') as Hl. change (Seq g >? Seq (keep_best newer f fs) = false) in Hl. lia.
  - intros frames' Hnd Hp. rewrite !latestLoop_keep.
    assert (∀ f, f ∈ filter isTool frames ↔ f ∈ filter isTool frames') as Hset.
    { intros f. rewrite !Hf. by rewrite Hp. }
    destruct (filter isTool frames) as [|f fs] eqn:E, (filter isTool frames') as [|f' fs'] eqn:E'.
    + done.
    + destruct (not_elem_of_nil f'). apply Hset. set_solver.
    + destruct (not_elem_of_nil f). apply Hset. set_solver.
    + rewrite (keep_best_set_unique newer f fs f' fs') //.
      intros x y Hx Hy Hmx Hmy. eapply (NoDup_fmap_elem Seq frames); [done|..].
      * apply Hf. by rewrite E.
      * apply Hf. by rewrite E.
      * specialize (Hmx y Hy). specialize (Hmy x Hx). rewrite /newer in Hmx, Hmy. lia.
Qed.

Lemma Latest_correct_witness :
  let f n := mkFrame "tool_use" None None None None 0 n in
  Latest [f 2; f 1; f 3] = Latest [f 1; f 2; f 3].
Proof.
  intros f. apply (Latest_correct [f 1; f 2; f 3]).
  - apply (bool_decide_unpack _). vm_compute. exact I.
  - apply perm_swap.
Defined.

End RunActivity.
