(* ===== verification/MilestoneLanes.v ===== *)
(** The live lanes of a run's in-progress milestones: [milestonelanes]. *)

From Stdlib Require Import Ascii.
From S2P Require Import Prelude GoText GoStrings GoSearch GoJson Termsafe RunActivity.

Local Open Scope Z_scope.

Module MilestoneLanes.
Import GoStrings Termsafe GoJson.

(** * The milestone tag of a dispatch description *)

Definition ParseMilestoneTag (description : string) : string * string * bool :=
  let trimmed := TrimLeft description [" "; "009"]%char in
  if negb (HasPrefix trimmed "[") then (EmptyString, description, false) else
  match IndexByte trimmed "]" with
  | None => (EmptyString, description, false)
  | Some end_ =>
    let id := TrimSpace (sdrop 1 (stake end_ trimmed)) in
    if (id =?s EmptyString)%go then (EmptyString, description, false) else
    let rest := TrimSpace (sdrop (end_ + 1) trimmed) in
    (id, rest, true)
  end.

Definition MilestoneTagBinding (description : string) (inProgress : gset string)
    : string * string * bool :=
  let '(parsedID, rest, ok) := ParseMilestoneTag description in
  if negb ok then (EmptyString, EmptyString, false) else
  if negb (bool_decide (parsedID ∈ inProgress)) then (EmptyString, EmptyString, false) else
  (parsedID, rest, true).

(** * Frames and payloads *)

Definition laneFreshWindow : duration := 10 * Go.Minute.

Record Frame := mkFrame {
  Kind : string;
  Agent : string;
  AgentInstance : string;
  AgentLabel : string;
  Payload : RawMessage;
  CreatedAt : time;
  Seq : Z;
}.

Record dispatchPayload := mkDispatch { dp_ID : string; dp_Name : string; dp_Description : string }.

Definition setDispatch (n : string) (v : json) (dp : dispatchPayload) : dispatchPayload * bool :=
  if (n =?s "id")%go then
    let '(s, e) := decodeString v (dp_ID dp) in (mkDispatch s (dp_Name dp) (dp_Description dp), e) else
  if (n =?s "name")%go then
    let '(s, e) := decodeString v (dp_Name dp) in (mkDispatch (dp_ID dp) s (dp_Description dp), e) else
  let '(s, e) := decodeStruct ["description"] (λ _ w cur, decodeString w cur) v (dp_Description dp) in
  (mkDispatch (dp_ID dp) (dp_Name dp) s, e).

Definition decodeDispatch (payload : RawMessage) : dispatchPayload * bool :=
  Unmarshal ["id"; "name"; "input"] setDispatch payload
    (mkDispatch EmptyString EmptyString EmptyString).

(** [completionPayload] is its one field. *)
Definition decodeCompletion (payload : RawMessage) : string * bool :=
  Unmarshal ["tool_use_id"] (λ _ v cur, decodeString v cur) payload EmptyString.

(** [apitypes.MilestoneLane], [apitypes.MilestoneLive], [apitypes.Milestone]. *)
Record MilestoneLane := mkLane {
  ml_Agent : string;
  ml_AgentInstance : string;
  ml_AgentLabel : string;
  ml_Tool : string;
  ml_Detail : string;
  ml_At : time;
}.

Record MilestoneLive := mkLive { MilestoneID : string; Lanes : list MilestoneLane }.
Record Milestone := mkMilestone { ID : string; Title : string }.

Definition sp (s : string) : option string :=
  if (s =?s EmptyString)%go then None else Some s.

(** * [Derive] *)

(** The three views the first pass builds. *)
Record views := mkViews {
  laneByInstance : gmap string Frame;
  dispatches : gmap string string;
  completed : gset string;
}.

Definition viewStep (v : views) (f : Frame) : views :=
  if (Kind f =?s "tool_use")%go && negb (AgentInstance f =?s EmptyString)%go then
    if match laneByInstance v !! AgentInstance f with
       | None => true
       | Some cur => Seq f >? Seq cur
       end
    then mkViews (<[AgentInstance f := f]> (laneByInstance v)) (dispatches v) (completed v)
    else v
  else if ((Kind f =?s "tool_use") && (AgentInstance f =?s EmptyString))%go then
    let '(dp, err) := decodeDispatch (Payload f) in
    if err then v else
    if (dp_Name dp =?s "Agent")%go && negb (dp_ID dp =?s EmptyString)%go then
      mkViews (laneByInstance v) (<[dp_ID dp := dp_Description dp]> (dispatches v)) (completed v)
    else v
  else if ((Kind f =?s "tool_result") && (AgentInstance f =?s EmptyString))%go then
    let '(id, err) := decodeCompletion (Payload f) in
    if err then v else
    if negb (id =?s EmptyString)%go then
      mkViews (laneByInstance v) (dispatches v) ({[ id ]} ∪ completed v)
    else v
  else v.

Definition firstPass (frames : list Frame) : views :=
  foldl viewStep (mkViews ∅ ∅ ∅) frames.

(** One iteration of the loop over the lanes: the milestone and the lane it
    appends, or [None] for a [continue]. *)
Definition laneOf (v : views) (inProg : gset string) (staleBefore : time)
    (entry : string * Frame) : option (string * MilestoneLane) :=
  let '(instance, lf) := entry in
  if bool_decide (instance ∈ completed v) then None else
  if Go.before (CreatedAt lf) staleBefore then None else
  match dispatches v !! instance with
  | None => None
  | Some desc =>
    let '(mid, label, bound) := MilestoneTagBinding desc inProg in
    if negb bound then None else
    let ra := RunActivity.FromFrame (Kind lf) (sp (Agent lf)) (sp (AgentLabel lf))
                (sp (AgentInstance lf)) (Payload lf) (CreatedAt lf) (Seq lf) in
    Some (mid, mkLane (RunActivity.act_Agent ra) instance (Sanitize label)
                 (RunActivity.act_Tool ra) (RunActivity.act_Detail ra) (RunActivity.act_At ra))
  end.

Definition appendLane (m : gmap string (list MilestoneLane)) (e : string * MilestoneLane)
    : gmap string (list MilestoneLane) :=
  <[e.1 := default [] (m !! e.1) ++ [e.2]]> m.

Definition lanesByMilestone (v : views) (inProg : gset string) (staleBefore : time)
    (order : list (string * Frame)) : gmap string (list MilestoneLane) :=
  foldl (λ m e, match laneOf v inProg staleBefore e with
                | Some x => appendLane m x
                | None => m
                end) ∅ order.

Definition laneLess (a b : MilestoneLane) : bool :=
  if negb (Go.equal (ml_At a) (ml_At b)) then Go.after (ml_At a) (ml_At b)
  else Less (ml_AgentInstance a) (ml_AgentInstance b).

(** [sort.Slice]: a sorted permutation; no two lanes of a milestone share an
    instance, so there is only one. *)
Definition laneLe (a b : MilestoneLane) : Prop := laneLess b a = false.
#[export] Instance laneLe_dec : RelDecision laneLe.
Proof. intros a b. rewrite /laneLe. apply _. Defined.

Definition sortLanes (l : list MilestoneLane) : list MilestoneLane := merge_sort laneLe l.

Fixpoint emit (m : gmap string (list MilestoneLane)) (milestones : list Milestone)
    : list MilestoneLive :=
  match milestones with
  | [] => []
  | x :: rest =>
    match default [] (m !! ID x) with
    | [] => emit m rest
    | lanes => mkLive (ID x) (sortLanes lanes) :: emit m rest
    end
  end.

(** [iter] is the order in which the runtime walks the map of lanes. *)
Definition Derive (iter : gmap string Frame → list (string * Frame)) (frames : list Frame)
    (milestones : list Milestone) (inProgress : list string) (now : time) : list MilestoneLive :=
  let v := firstPass frames in
  let inProg := list_to_set inProgress in
  let staleBefore := Go.add now (- laneFreshWindow) in
  emit (lanesByMilestone v inProg staleBefore (iter (laneByInstance v))) milestones.

Example ParseMilestoneTag_ok :
  ParseMilestoneTag "  [ m2 ] Review the limiter " = ("m2", "Review the limiter", true).
Proof. vm_compute. reflexivity. Qed.

Example ParseMilestoneTag_empty : ParseMilestoneTag " [ ] x" = (EmptyString, " [ ] x", false).
Proof. vm_compute. reflexivity. Qed.

Definition exDispatch (id desc : string) (seq : Z) : Frame :=
  mkFrame "tool_use" "lead" EmptyString EmptyString
    (Some (JObj [("id", JStr id); ("name", JStr "Agent");
                 ("input", JObj [("description", JStr desc)])])) 0 seq.
Definition exTool (inst tool : string) (at_ seq : Z) : Frame :=
  mkFrame "tool_use" "coder" inst EmptyString
    (Some (JObj [("name", JStr tool); ("input", JObj [("file_path", JStr "a.go")])])) at_ seq.

Definition exFrames : list Frame :=
  [exDispatch "t1" "[m1] one" 1; exDispatch "t2" "[m1] two" 2; exDispatch "t3" "[m9] none" 3;
   exTool "t1" "Read" 10 4; exTool "t2" "Edit" 20 5; exTool "t3" "Edit" 20 6; exTool "t1" "Grep" 30 7].

Example Derive_two :
  Derive map_to_list exFrames [mkMilestone "m0" "a"; mkMilestone "m1" "b"] ["m1"; "m2"] 40
  = [mkLive "m1" [mkLane "coder" "t1" "one" "Grep" EmptyString 30;
                  mkLane "coder" "t2" "two" "Edit" "a.go" 20]].
Proof. vm_compute. reflexivity. Qed.

(** * The views, read off the frames *)

Definition isLane (i : string) (f : Frame) : Prop :=
  Kind f = "tool_use" ∧ AgentInstance f = i ∧ i ≠ EmptyString.
#[export] Instance isLane_dec i f : Decision (isLane i f).
Proof. rewrite /isLane. apply _. Defined.

Definition newer (f b : Frame) : bool := Seq f >? Seq b.
#[export] Instance newer_weak : StrictWeak newer.
Proof. split; rewrite /newer; intros; lia. Qed.

(** The newest frame of a lane. *)
Definition newestFrame (frames : list Frame) (i : string) : option Frame :=
  match filter (isLane i) frames with
  | [] => None
  | f :: fs => Some (keep_best newer f fs)
  end.

(** The dispatch and the completion a lead-lane frame records. *)
Definition dispatchOf (f : Frame) : option (string * string) :=
  if decide (Kind f = "tool_use" ∧ AgentInstance f = EmptyString) then
    let '(dp, err) := decodeDispatch (Payload f) in
    if negb err && (dp_Name dp =?s "Agent")%go && negb (dp_ID dp =?s EmptyString)%go
    then Some (dp_ID dp, dp_Description dp) else None
  else None.

Definition completionOf (f : Frame) : option string :=
  if decide (Kind f = "tool_result" ∧ AgentInstance f = EmptyString) then
    let '(id, err) := decodeCompletion (Payload f) in
    if negb err && negb (id =?s EmptyString)%go then Some id else None
  else None.

Definition describes (i : string) (f : Frame) : option string :=
  match dispatchOf f with
  | Some (id, desc) => if decide (id = i) then Some desc else None
  | None => None
  end.

Lemma viewStep_cases v f :
  (Kind f = "tool_use" ∧ AgentInstance f ≠ EmptyString ∧ dispatchOf f = None ∧ completionOf f = None
   ∧ ∃ b : bool,
     b = match laneByInstance v !! AgentInstance f with None => true | Some cur => Seq f >? Seq cur end
     ∧ viewStep v f = if b
     then mkViews (<[AgentInstance f := f]> (laneByInstance v)) (dispatches v) (completed v) else v)
  ∨ ((Kind f ≠ "tool_use" ∨ AgentInstance f = EmptyString)
   ∧ viewStep v f =
     mkViews (laneByInstance v)
       match dispatchOf f with Some (id, d) => <[id := d]> (dispatches v) | None => dispatches v end
       match completionOf f with Some id => {[ id ]} ∪ completed v | None => completed v end).
Proof.
  rewrite /viewStep /dispatchOf /completionOf. destruct v as [lanes ds cs]; simpl.
  destruct (String.eqb_spec (Kind f) "tool_use") as [Hk|Hk];
    destruct (String.eqb_spec (AgentInstance f) EmptyString) as [Hi|Hi]; simpl.
  - right. split; [by right|]. rewrite decide_True //.
    rewrite decide_False; [intros [? _]; congruence|].
    destruct (decodeDispatch (Payload f)) as [dp err]. destruct err; [done|]. simpl.
    by destruct ((dp_Name dp =?s "Agent")%go && _).
  - left. rewrite !decide_False; [naive_solver..|]. eauto 10.
  - right. split; [by left|]. rewrite decide_False; [naive_solver|].
    destruct (String.eqb_spec (Kind f) "tool_result") as [Hr|Hr]; simpl.
    + rewrite decide_True //. destruct (decodeCompletion (Payload f)) as [id err].
      destruct err; [done|]. simpl. by destruct (id =?s EmptyString)%go.
    + rewrite decide_False; [naive_solver|done].
  - right. split; [by left|]. rewrite !decide_False; [naive_solver..|].
    by destruct (Kind f =?s "tool_result")%go.
Qed.

Lemma firstPass_lane_from v frames i :
  laneByInstance (foldl viewStep v frames) !! i =
  match laneByInstance v !! i, filter (isLane i) frames with
  | None, [] => None
  | None, f :: fs => Some (keep_best newer f fs)
  | Some b, fs => Some (keep_best newer b fs)
  end.
Proof.
  revert v. induction frames as [|f frames IH]; intros v; cbn [foldl].
  { by destruct (laneByInstance v !! i). }
  rewrite IH. destruct (viewStep_cases v f) as [(Hk & Hi & _ & _ & b & Hb & ->)|(Hno & ->)].
  - destruct (decide (AgentInstance f = i)) as [He|He].
    + rewrite filter_cons_True; [by subst|]. subst i.
      destruct (laneByInstance v !! AgentInstance f) as [cur|] eqn:Hcur; subst b.
      * change (keep_best newer cur (f :: filter (isLane (AgentInstance f)) frames))
          with (keep_best newer (if newer f cur then f else cur) (filter (isLane (AgentInstance f)) frames)).
        change (newer f cur) with (Seq f >? Seq cur).
        destruct (Seq f >? Seq cur); cbn [laneByInstance]; [by rewrite lookup_insert_eq|by rewrite Hcur].
      * cbn [laneByInstance]. by rewrite lookup_insert_eq.
    + rewrite (filter_cons_False (isLane i)); [by intros (_ & ? & _)|].
      destruct b; [|done]. cbn [laneByInstance]. by rewrite lookup_insert_ne.
  - rewrite filter_cons_False; [intros (? & ? & ?); naive_solver|]. done.
Qed.

Lemma firstPass_lane frames i : laneByInstance (firstPass frames) !! i = newestFrame frames i.
Proof. rewrite /firstPass firstPass_lane_from lookup_empty. done. Qed.

Lemma firstPass_dispatch frames i :
  dispatches (firstPass frames) !! i = last (omap (describes i) frames).
Proof.
  rewrite /firstPass. induction frames as [|f frames IH] using rev_ind; [done|].
  rewrite foldl_app omap_app. cbn [foldl omap list_omap]. set (v := foldl _ _ frames) in *.
  destruct (viewStep_cases v f) as [(_ & _ & Hd & _ & b & _ & ->)|(_ & ->)].
  - rewrite {2}/describes Hd app_nil_r -IH. by destruct b.
  - cbn [dispatches]. rewrite {2}/describes. destruct (dispatchOf f) as [[id d]|].
    + case_decide as E; [subst; by rewrite last_snoc lookup_insert_eq|].
      by rewrite app_nil_r lookup_insert_ne.
    + by rewrite app_nil_r.
Qed.

Lemma firstPass_completed frames i :
  i ∈ completed (firstPass frames) ↔ ∃ f, f ∈ frames ∧ completionOf f = Some i.
Proof.
  rewrite /firstPass. induction frames as [|f frames IH] using rev_ind; [set_solver|].
  rewrite foldl_app. cbn [foldl]. set (v := foldl _ _ frames) in *.
  setoid_rewrite elem_of_app. setoid_rewrite list_elem_of_singleton.
  destruct (viewStep_cases v f) as [(_ & _ & _ & Hc & b & _ & ->)|(_ & ->)].
  - assert (completed (if b then mkViews (<[AgentInstance f := f]> (laneByInstance v))
      (dispatches v) (completed v) else v) = completed v) as -> by by destruct b.
    naive_solver.
  - cbn [completed]. destruct (completionOf f) as [id|] eqn:Hc; [|naive_solver].
    rewrite elem_of_union elem_of_singleton. naive_solver.
Qed.

(** * The order of lanes *)

#[export] Instance laneLess_weak : StrictWeak laneLess.
Proof.
  split; rewrite /laneLess /Go.equal /Go.after.
  - intros x y. destruct (ml_At x =? ml_At y) eqn:E, (ml_At y =? ml_At x) eqn:E'; simpl; try lia.
    apply less_asym.
  - intros x y z. destruct (ml_At x =? ml_At y) eqn:E1, (ml_At y =? ml_At z) eqn:E2,
      (ml_At x =? ml_At z) eqn:E3; simpl; try lia. apply less_negtrans.
Qed.

#[export] Instance laneLe_total : Total laneLe.
Proof.
  intros x y. rewrite /laneLe. destruct (laneLess y x) eqn:E; [right|by left].
  by apply less_asym.
Qed.

#[export] Instance laneLe_trans : Transitive laneLe.
Proof. intros x y z Hxy Hyz. rewrite /laneLe in Hxy, Hyz |- *. by apply (less_negtrans z y x). Qed.

Lemma laneLe_antisym x y : laneLe x y → laneLe y x → ml_AgentInstance x = ml_AgentInstance y.
Proof.
  rewrite /laneLe /laneLess /Go.equal /Go.after.
  destruct (ml_At x =? ml_At y) eqn:E, (ml_At y =? ml_At x) eqn:E'; simpl; try lia.
  intros H1 H2. by apply Less_total.
Qed.

Lemma sortLanes_perm l : sortLanes l ≡ₚ l.
Proof. apply merge_sort_Permutation. Qed.

Lemma sortLanes_sorted l : StronglySorted laneLe (sortLanes l).
Proof. apply (StronglySorted_merge_sort _). Qed.

Lemma sortLanes_unique l l' :
  NoDup (ml_AgentInstance <$> l) → l ≡ₚ l' → sortLanes l = sortLanes l'.
Proof.
  intros Hnd Hp. apply (StronglySorted_unique_strong laneLe); [|apply sortLanes_sorted..|].
  - intros x y Hx Hy Hxy Hyx. rewrite sortLanes_perm in Hx. rewrite sortLanes_perm -Hp in Hy.
    eapply (NoDup_fmap_elem ml_AgentInstance l); [done..|]. by apply laneLe_antisym.
  - by rewrite !sortLanes_perm.
Qed.

(** * Grouping by milestone *)

Definition laneAt (v : views) (inProg : gset string) (staleBefore : time) (mid : string)
    (e : string * Frame) : option MilestoneLane :=
  match laneOf v inProg staleBefore e with
  | Some (m, l) => if decide (m = mid) then Some l else None
  | None => None
  end.

Lemma lanesByMilestone_lookup v ip sb order mid :
  default [] (lanesByMilestone v ip sb order !! mid) = omap (laneAt v ip sb mid) order.
Proof.
  rewrite /lanesByMilestone. induction order as [|e order IH] using rev_ind; [done|].
  rewrite foldl_app omap_app -IH. cbn [foldl omap list_omap]. rewrite /laneAt.
  destruct (laneOf v ip sb e) as [[m l]|]; [|by rewrite app_nil_r].
  rewrite /appendLane. cbn [fst snd]. case_decide as E.
  - subst m. by rewrite lookup_insert_eq.
  - by rewrite lookup_insert_ne // app_nil_r.
Qed.

Lemma laneOf_instance v ip sb e m l : laneOf v ip sb e = Some (m, l) → ml_AgentInstance l = e.1.
Proof.
  destruct e as [i lf]. rewrite /laneOf.
  destruct (bool_decide _); [done|]. destruct (Go.before _ _); [done|].
  destruct (dispatches v !! i) as [desc|]; [|done].
  destruct (MilestoneTagBinding desc ip) as [[mid label] []]; [|done]. by intros [= <- <-].
Qed.

Lemma laneAt_instances v ip sb mid order :
  ml_AgentInstance <$> omap (laneAt v ip sb mid) order `sublist_of` order.*1.
Proof.
  induction order as [|e order IH]; [done|]. cbn [omap list_omap].
  rewrite {1}/laneAt. destruct (laneOf v ip sb e) as [[m l]|] eqn:E; [|by constructor].
  case_decide; [|by constructor]. rewrite !fmap_cons (laneOf_instance _ _ _ _ _ _ E).
  by constructor.
Qed.

Lemma laneAt_NoDup v ip sb mid order :
  NoDup order.*1 → NoDup (ml_AgentInstance <$> omap (laneAt v ip sb mid) order).
Proof. intros H. eapply sublist_NoDup; [done|apply laneAt_instances]. Qed.

Lemma sortLanes_nil l : sortLanes l = [] ↔ l = [].
Proof.
  split; [|by intros ->]. intros H. apply Permutation_nil. by rewrite -H sortLanes_perm.
Qed.

Lemma emit_ext m m' ms :
  (∀ id, sortLanes (default [] (m !! id)) = sortLanes (default [] (m' !! id))) →
  emit m ms = emit m' ms.
Proof.
  intros H. induction ms as [|x ms IH]; [done|]. cbn [emit]. rewrite IH. specialize (H (ID x)).
  destruct (default [] (m !! ID x)) as [|l ls] eqn:E, (default [] (m' !! ID x)) as [|l' ls'] eqn:E'.
  - done.
  - symmetry in H. by apply (proj1 (sortLanes_nil _)) in H.
  - by apply (proj1 (sortLanes_nil _)) in H.
  - by rewrite H.
Qed.

Lemma emit_elem m ms ml :
  ml ∈ emit m ms ↔ ∃ x, x ∈ ms ∧ default [] (m !! ID x) ≠ []
    ∧ ml = mkLive (ID x) (sortLanes (default [] (m !! ID x))).
Proof.
  induction ms as [|x ms IH]; cbn [emit].
  { split; [by intros ?%elem_of_nil|intros (? & ?%elem_of_nil & _); done]. }
  setoid_rewrite elem_of_cons. destruct (default [] (m !! ID x)) as [|l ls] eqn:E.
  - rewrite IH. split; [intros (y & Hy & Hne & ->); eauto|].
    intros (y & [->|Hy] & Hne & ->); [by rewrite E in Hne|eauto].
  - rewrite elem_of_cons IH. split.
    + intros [->|(y & Hy & Hne & ->)]; [|eauto]. exists x. rewrite E. split_and!; [by left|done|done].
    + intros (y & [->|Hy] & Hne & ->); [left; by rewrite E|right; eauto].
Qed.

Lemma emit_ids m ms : MilestoneID <$> emit m ms `sublist_of` ID <$> ms.
Proof.
  induction ms as [|x ms IH]; [done|]. cbn [emit]. rewrite fmap_cons.
  destruct (default [] (m !! ID x)); [by constructor|]. rewrite fmap_cons. by constructor.
Qed.

(** * Correctness *)

(** Lane [i] is alive on milestone [mid]: its newest frame is [lf], no
    completion names it, the frame is fresh, and its latest dispatch is tagged
    with an in-progress milestone. *)
Definition live (frames : list Frame) (inProgress : list string) (now : time)
    (i : string) (lf : Frame) (mid label : string) : Prop :=
  newestFrame frames i = Some lf
  ∧ (∀ f, f ∈ frames → completionOf f ≠ Some i)
  ∧ now - laneFreshWindow <= CreatedAt lf
  ∧ ∃ desc, last (omap (describes i) frames) = Some desc
    ∧ ParseMilestoneTag desc = (mid, label, true) ∧ mid ∈ inProgress.

Definition liveLane (i : string) (lf : Frame) (label : string) : MilestoneLane :=
  let ra := RunActivity.FromFrame (Kind lf) (sp (Agent lf)) (sp (AgentLabel lf))
              (sp (AgentInstance lf)) (Payload lf) (CreatedAt lf) (Seq lf) in
  mkLane (RunActivity.act_Agent ra) i (Sanitize label)
    (RunActivity.act_Tool ra) (RunActivity.act_Detail ra) (RunActivity.act_At ra).

Lemma MilestoneTagBinding_true desc ip mid label :
  MilestoneTagBinding desc ip = (mid, label, true) ↔
  ParseMilestoneTag desc = (mid, label, true) ∧ mid ∈ ip.
Proof.
  rewrite /MilestoneTagBinding. destruct (ParseMilestoneTag desc) as [[id rest] []]; simpl.
  - case_bool_decide; simpl; naive_solver.
  - naive_solver.
Qed.

Lemma laneOf_live frames inProgress now i lf mid l :
  laneByInstance (firstPass frames) !! i = Some lf →
  laneOf (firstPass frames) (list_to_set inProgress) (Go.add now (- laneFreshWindow)) (i, lf)
    = Some (mid, l) ↔ ∃ label, live frames inProgress now i lf mid label ∧ l = liveLane i lf label.
Proof.
  rewrite firstPass_lane /live => Hnew. setoid_rewrite Hnew.
  rewrite /laneOf. case_bool_decide as Hc.
  { apply firstPass_completed in Hc as (f & Hf & Hfc). split; [done|].
    intros (label & (_ & Hno & _) & _). by destruct (Hno f Hf). }
  assert (∀ f, f ∈ frames → completionOf f ≠ Some i) as Hno.
  { intros f Hf Hfc. apply Hc, firstPass_completed. eauto. }
  rewrite /Go.before /Go.add. destruct (_ <? _) eqn:Hs.
  { split; [done|]. intros (label & (_ & _ & ? & _) & _). lia. }
  rewrite firstPass_dispatch. destruct (last _) as [desc|] eqn:Hd.
  2: { split; [done|]. intros (label & (_ & _ & _ & d & ? & _) & _). done. }
  setoid_rewrite <-(elem_of_list_to_set (C := gset string) _ inProgress).
  destruct (MilestoneTagBinding desc (list_to_set inProgress)) as [[mid' label] []] eqn:Hb; simpl.
  - apply MilestoneTagBinding_true in Hb as [Hp Hin]. split.
    + intros [= <- <-]. exists label. split_and!; [done|done|lia|eauto|done].
    + intros (label' & (_ & _ & _ & d & [= <-] & Hp' & _) & ->).
      rewrite Hp in Hp'. by simplify_eq.
  - split; [done|]. intros (label' & (_ & _ & _ & d & [= <-] & Hp) & _).
    apply MilestoneTagBinding_true in Hp. congruence.
Qed.

Section Correct.
Context (iter : gmap string Frame → list (string * Frame)).
Hypothesis iter_perm : ∀ m, iter m ≡ₚ map_to_list m.

Lemma lanes_elem frames inProgress now mid l :
  let v := firstPass frames in
  l ∈ omap (laneAt v (list_to_set inProgress) (Go.add now (- laneFreshWindow)) mid)
        (iter (laneByInstance v))
  ↔ ∃ i lf label, live frames inProgress now i lf mid label ∧ l = liveLane i lf label.
Proof.
  intros v. rewrite list_elem_of_omap. setoid_rewrite iter_perm. split.
  - intros ([i lf] & Hin%elem_of_map_to_list & Hl). rewrite /laneAt in Hl.
    destruct (laneOf _ _ _ _) as [[m l']|] eqn:E; [|done]. case_decide; [|done]. simplify_eq.
    apply laneOf_live in E as (label & Hlive & ->); [|done]. eauto.
  - intros (i & lf & label & Hlive & ->). exists (i, lf).
    assert (laneByInstance v !! i = Some lf) as Hv by (rewrite firstPass_lane; apply Hlive).
    split; [by apply elem_of_map_to_list|]. rewrite /laneAt.
    rewrite (proj2 (laneOf_live frames inProgress now i lf mid (liveLane i lf label) Hv)); [eauto|].
    by rewrite decide_True.
Qed.

(** The derived view: the milestones keep their order and only those with a
    live lane appear; under a milestone stand exactly the live lanes, one per
    instance, newest first with ties broken by instance. *)
Theorem Derive_correct frames milestones inProgress now :
  let out := Derive iter frames milestones inProgress now in
  MilestoneID <$> out `sublist_of` ID <$> milestones
  ∧ (∀ id, id ∈ MilestoneID <$> out ↔ id ∈ ID <$> milestones
       ∧ ∃ i lf label, live frames inProgress now i lf id label)
  ∧ ∀ ml, ml ∈ out →
      (∀ l, l ∈ Lanes ml ↔ ∃ i lf label,
         live frames inProgress now i lf (MilestoneID ml) label ∧ l = liveLane i lf label)
      ∧ NoDup (ml_AgentInstance <$> Lanes ml) ∧ StronglySorted laneLe (Lanes ml).
Proof.
  intros out. set (v := firstPass frames). set (sb := Go.add now (- laneFreshWindow)).
  set (ip := list_to_set inProgress : gset string).
  set (m := lanesByMilestone v ip sb (iter (laneByInstance v))).
  assert (∀ id l, l ∈ default [] (m !! id) ↔ ∃ i lf label,
    live frames inProgress now i lf id label ∧ l = liveLane i lf label) as Hm.
  { intros id l. rewrite /m lanesByMilestone_lookup. apply lanes_elem. }
  assert (out = emit m milestones) as Ho by done. clearbody out. subst out.
  split_and!; [apply emit_ids|..].
  - intros id. rewrite !list_elem_of_fmap. setoid_rewrite emit_elem. split.
    + intros (ml & -> & x & Hx & Hne & ->). cbn [MilestoneID]. split; [eauto|].
      destruct (default [] (m !! ID x)) as [|l ls] eqn:E; [done|].
      destruct (proj1 (Hm (ID x) l)) as (i & lf & label & Hl & _); [rewrite E; by left|]. eauto.
    + intros ((x & -> & Hx) & i & lf & label & Hl). eexists. split; [|exists x; split_and!; [done| |done]]; [done|].
      intros E. apply (not_elem_of_nil (liveLane i lf label)). rewrite -E. apply Hm. eauto.
  - intros ml (x & Hx & Hne & ->)%emit_elem. cbn [Lanes MilestoneID]. split_and!.
    + intros l. rewrite sortLanes_perm. apply Hm.
    + rewrite sortLanes_perm /m lanesByMilestone_lookup. apply laneAt_NoDup.
      rewrite iter_perm. apply NoDup_fst_map_to_list.
    + apply sortLanes_sorted.
Qed.

(** The result does not depend on the order in which the runtime walks the
    map of lanes. *)
Theorem Derive_deterministic (iter' : gmap string Frame → list (string * Frame))
    frames milestones inProgress now :
  (∀ m, iter' m ≡ₚ map_to_list m) →
  Derive iter' frames milestones inProgress now = Derive iter frames milestones inProgress now.
Proof.
  intros Hiter'. apply emit_ext. intros id. rewrite !lanesByMilestone_lookup.
  apply sortLanes_unique; [|by rewrite Hiter' iter_perm].
  apply laneAt_NoDup. rewrite Hiter'. apply NoDup_fst_map_to_list.
Qed.
End Correct.

Lemma Derive_correct_witness :
  MilestoneID <$> Derive map_to_list exFrames [mkMilestone "m0" "a"; mkMilestone "m1" "b"] ["m1"] 40
  `sublist_of` ["m0"; "m1"].
Proof. apply (Derive_correct map_to_list); done. Defined.

Lemma Derive_deterministic_witness :
  Derive (reverse ∘ map_to_list) exFrames [mkMilestone "m1" "b"] ["m1"] 40
  = Derive map_to_list exFrames [mkMilestone "m1" "b"] ["m1"] 40.
Proof.
  apply (Derive_deterministic map_to_list); [done|]. intros m. apply reverse_Permutation.
Defined.

(** A description the lead writes is read back as its tag and label. *)
Lemma TrimSpace_blank s : TrimSpace (String " " s) = TrimSpace s.
Proof. rewrite /TrimSpace runes_ascii //. Qed.

(** A dispatch description written as a bracketed identifier followed by a
    label, after any blanks, is parsed back to that identifier and label, and
    binds exactly when the identifier is in progress. *)
Theorem milestone_tag_roundtrip (n : nat) id label inProgress :
  TrimSpace id = id → id ≠ EmptyString → IndexByte id "]" = None → TrimSpace label = label →
  let desc := String.concat EmptyString (replicate n " ") +:+ "[" +:+ id +:+ "] " +:+ label in
  ParseMilestoneTag desc = (id, label, true)
  ∧ (MilestoneTagBinding desc inProgress =
     if decide (id ∈ inProgress) then (id, label, true) else (EmptyString, EmptyString, false)).
Proof.
  intros Hid Hne Hno Hl desc. assert (ParseMilestoneTag desc = (id, label, true)) as Hp.
  { rewrite /ParseMilestoneTag.
    assert (TrimLeft desc [" "; "009"]%char = "[" +:+ id +:+ "] " +:+ label) as ->.
    { rewrite /desc. clear. induction n as [|n IH]; [done|]. destruct n; [done|]. exact IH. }
    rewrite !sapp_cons !sapp_nil_l. cbn [HasPrefix Ascii.eqb Bool.eqb andb negb].
    assert (IndexByte (String "[" (id +:+ String "]" (String " " label))) "]"
      = Some (S (String.length id))) as ->.
    { cbn [IndexByte Ascii.eqb Bool.eqb]. by rewrite GoSearch.IndexByte_app. }
    cbn [stake sdrop]. rewrite GoSearch.stake_app Hid.
    destruct (String.eqb_spec id EmptyString); [done|].
    assert (sdrop (S (String.length id) + 1) (String "[" (id +:+ String "]" (String " " label)))
      = String " " label) as ->.
    { change (String "[" (id +:+ String "]" (String " " label)))
        with (String "[" id +:+ (str1 "]" +:+ String " " label)).
      rewrite -sapp_assoc.
      assert (S (String.length id) + 1 = String.length (String "[" id +:+ str1 "]"))%nat as ->;
        [|apply GoSearch.sdrop_app]. rewrite sapp_length /=. lia. }
    rewrite TrimSpace_blank Hl. by destruct (id +:+ _). }
  split; [done|]. rewrite /MilestoneTagBinding Hp. cbn [negb].
  case_bool_decide; case_decide; done.
Qed.

Lemma milestone_tag_roundtrip_witness :
  ParseMilestoneTag "  [m2] Review the limiter" = ("m2", "Review the limiter", true).
Proof. apply (milestone_tag_roundtrip 2 "m2" "Review the limiter" ∅); vm_compute; done. Defined.

End MilestoneLanes.
