(* ===== verification/HealthEpisode.v ===== *)
(** Danger episodes of instance health and their notices
    ([src/api/internal/healthsvc/episode.go], [emergency.go]), with the
    disk-full signal ([src/api/internal/dbdiskfull]) they feed.

    A tick of the reconciler is a program over the statements, settings reads
    and sends it issues; its in-memory emergency state is threaded through.
    Any number of replicas tick concurrently against one table of claimed
    notices.  Logging is left out. *)

From Stdlib Require Import Ascii.
From S2P Require Import Prelude GoText GoStrings Prog Board Lifecycle.

Local Open Scope Z_scope.

Module DbDiskFull.

(** The errors the services tell apart. *)
Inductive error := ErrNoRows | PgError (code : string) | ErrOther.

Definition Window : duration := 5 * Go.Minute.
Definition CodeDiskFull : string := "53100".

Definition Is (err : error) : bool :=
  match err with PgError code => (code =?s CodeDiskFull)%go | _ => false end.

Record Signal := mkSignal { lastSeen : Z; start : Z; gen : Z }.
Definition New : Signal := mkSignal 0 0 0.

(** [Observe] at the clock reading [t] (Unix nanoseconds), under the lock. *)
Definition Observe (s : option Signal) (err : error) (t : Z) : option Signal * bool :=
  match s with
  | None => (None, false)
  | Some s =>
    if negb (Is err) then (Some s, false) else
    let prev := lastSeen s in
    let '(start', gen') :=
      if (prev =? 0) || (Go.wrap64 (t - prev) >? Window) then (t, gen s + 1)
      else (start s, gen s) in
    let last' := if t >? prev then t else prev in
    (Some (mkSignal last' start' gen'), true)
  end.

(** Active, newest sighting, start of the incident; the zero time is [None]. *)
Definition Snapshot (s : option Signal) (now : Z) : bool * option Z * option Z :=
  match s with
  | None => (false, None, None)
  | Some s =>
    let l := lastSeen s in
    if l =? 0 then (false, None, None) else
    let st := if (start s =? 0) || (start s >? l) then l else start s in
    (Go.wrap64 (now - l) <=? Window, Some l, Some st)
  end.

Definition Generation (s : option Signal) : Z :=
  match s with None => 0 | Some s => gen s end.

(** [TraceQueryEnd]; a query that succeeded has no error. *)
Definition TraceQueryEnd (s : option Signal) (err : option error) (t : Z) : option Signal :=
  match err with None => s | Some e => (Observe s e t).1 end.

(** The promise of [Snapshot]: the incident does not start after its newest
    sighting. *)
Lemma Snapshot_ordered s now active l st :
  Snapshot s now = (active, Some l, Some st) → st <= l.
Proof.
  destruct s as [s|]; [|done]. rewrite /Snapshot. destruct (lastSeen s =? 0); [done|].
  intros [= _ <- <-]. destruct (_ || _) eqn:E; lia.
Qed.

(** Generations never go back, and neither does the newest sighting. *)
Lemma Observe_monotone s err t :
  gen s <= Generation (Observe (Some s) err t).1
  ∧ ∀ s', (Observe (Some s) err t).1 = Some s' → lastSeen s <= lastSeen s'.
Proof.
  rewrite /Observe. destruct (Is err); simpl; [|split; [lia|by intros s' [= <-]]].
  destruct (_ || _); simpl; (split; [lia|]); intros s' [= <-]; simpl; case_match; lia.
Qed.
End DbDiskFull.

Module HealthEpisode.
Import GoText GoStrings DbDiskFull.

(** * Documents and notices *)

(** [apitypes.HealthCheckDTO] and [HealthDocDTO], the fields the reconciler
    reads. *)
Record Check := mkCheck {
  ID : string; Scope : string; Title : string; Severity : string; Summary : string
}.
Record Doc := mkDoc { Blocking : bool; Checks : list Check }.

Definition sevDanger : string := "danger".

Record dangerCheck := mkDanger { d_ID : string; d_Title : string; d_Summary : string }.
#[export] Instance dangerCheck_eq_dec : EqDecision dangerCheck.
Proof. solve_decision. Defined.

Fixpoint dangerFrom (checks : list Check) : list dangerCheck :=
  match checks with
  | [] => []
  | c :: rest =>
    if negb (Scope c =?s "instance")%go || negb (Severity c =?s sevDanger)%go then dangerFrom rest
    else mkDanger (ID c) (Title c) (Summary c) :: dangerFrom rest
  end.
Definition dangerChecks (doc : Doc) : list dangerCheck := dangerFrom (Checks doc).

(** [notifysvc.SlackRender] and [notifysvc.Notification], the fields the notice
    sets; the payload is the map's four entries. *)
Record SlackRender := mkSlack {
  Emoji : string; sl_Title : string; sl_Body : string; Link : string; Facts : list string
}.
Record Payload := mkPayload {
  p_title : string; p_body : string; p_episode_id : string; p_checks : list dangerCheck
}.
Record Notification := mkNotification {
  UserID : uuid; Kind : string; n_Payload : Payload; Slack : SlackRender
}.

Definition KindHealthEpisode : string := "health_episode".
Definition healthEpisodeTitle : string := "Instance health needs attention".
Definition healthEpisodeBody : string :=
  "One or more health checks are at danger, so uzi may not be able to run work. Open Admin > Health for the full picture and what to do.".

Definition healthEpisodeCheckLines (danger : list dangerCheck) : string :=
  String.concat Lifecycle.nl ((λ c, d_Title c +:+ ": " +:+ d_Summary c) <$> danger).

Definition healthEpisodeFacts (danger : list dangerCheck) : list string :=
  let noun := if (length danger =? 1)%nat then "check" else "checks" in
  ["*" +:+ itoa (Z.of_nat (length danger)) +:+ "* danger " +:+ noun].

Definition healthEpisodeDeepLink (baseURL : string) : string :=
  let base := trimSlash (TrimSpace baseURL) in
  if (base =?s EmptyString)%go then EmptyString else base +:+ "/admin/health".

(** U+1F6D1. *)
Definition stopSign : string := encodeRune 0x1F6D1.

Definition buildHealthEpisodeNotification (baseURL : string) (userID episodeID : uuid)
    (danger : list dangerCheck) : Notification :=
  let body := healthEpisodeBody +:+ Lifecycle.nl +:+ Lifecycle.nl +:+ healthEpisodeCheckLines danger in
  mkNotification userID KindHealthEpisode
    (mkPayload healthEpisodeTitle body (Lifecycle.uuidString episodeID) danger)
    (mkSlack stopSign healthEpisodeTitle body (healthEpisodeDeepLink baseURL) (healthEpisodeFacts danger)).

Definition isUniqueViolation (err : error) : bool :=
  match err with PgError code => (code =?s "23505")%go | _ => false end.

(** * The reconciler's requests *)

Inductive req : Type → Type :=
  | Evaluate : req (Doc + error)
  | GetOpenHealthEpisode : req (uuid + error)
  | OpenHealthEpisode (openedAt : time) : req (uuid + error)
  | CloseHealthEpisode (id : uuid) (closedAt : time) : req (unit + error)
  | ListAdmins : req (list uuid + error)
  | ClaimHealthEpisodeNotice (episode user : uuid) : req (Z + error)
  | ReleaseHealthEpisodeNotice (episode user : uuid) : req (unit + error)
  | Notify (n : Notification) (episode : uuid) : req (unit + error)
  | HealthEnabled : req (bool + error)
  | PublicBaseURL : req string (* its error is ignored *)
  | Now : req time
  | SignalObserve (err : error) : req unit
  | SignalGeneration : req Z
  | PublishNotification (user : uuid) (render : SlackRender) : req unit.

Abbreviation P := (prog req).

(** * The emergency path *)

Definition emergencyNoticeCooldown : duration := 30 * Go.Minute.
Definition emergencyDiskFullLine : string := "Database writes are failing: disk full (53100).".

(** The in-memory state; the reconciler carries [None] when the path is off. *)
Record emergencyState := mkEmergency { streak : Z; sent : gmap (Z * uuid) time }.

(** [WithEmergencySlack], given whether the Slack seam and the signal are set. *)
Definition WithEmergencySlack (slack sig : bool) : option emergencyState :=
  if negb slack || negb sig then None else Some (mkEmergency 0 ∅).

Definition resetEmergencyStreak (e : option emergencyState) : option emergencyState :=
  (λ e, mkEmergency 0 (sent e)) <$> e.

Definition withDiskFullLine (danger : list dangerCheck) : list dangerCheck :=
  if existsb (λ c, (d_Summary c =?s emergencyDiskFullLine)%go) danger then danger
  else mkDanger "db" "Database" emergencyDiskFullLine :: danger.

(** The critical section of [emergencySend]: older generations are pruned, and
    the cooldown slot is checked and armed. *)
Definition armCooldown (e : emergencyState) (gen : Z) (now : time) (uid : uuid)
    : emergencyState * bool :=
  let kept := filter (λ kv, ¬ (kv.1.1 < gen)) (sent e) in
  match kept !! (gen, uid) with
  | Some last =>
    if Go.sub now last <? emergencyNoticeCooldown then (mkEmergency (streak e) kept, false)
    else (mkEmergency (streak e) (<[(gen, uid) := now]> kept), true)
  | None => (mkEmergency (streak e) (<[(gen, uid) := now]> kept), true)
  end.

Definition emergencySend (e : option emergencyState) (uid : uuid) (base : string)
    (danger : list dangerCheck) : P (option emergencyState) :=
  match e with
  | None => Ret None
  | Some e =>
    gen ← call SignalGeneration;
    now ← call Now;
    let '(e', due) := armCooldown e gen now uid in
    if negb due then Ret (Some e') else
    _ ← call (PublishNotification uid
                (Slack (buildHealthEpisodeNotification base uid Uuid.Nil (withDiskFullLine danger))));
    Ret (Some e')
  end.

Definition emergencyAfterErr (e : option emergencyState) (err : error) (uid : uuid) (base : string)
    (danger : list dangerCheck) : P (option emergencyState) :=
  match e with
  | None => Ret None
  | Some _ =>
    if negb (Is err) then Ret e else
    _ ← call (SignalObserve err);
    emergencySend e uid base danger
  end.

Definition openFailedDiskFull (e : option emergencyState) (err : error)
    : P (option emergencyState * bool) :=
  match e with
  | None => Ret (None, false)
  | Some e0 =>
    if negb (Is err) then Ret (e, false) else
    _ ← call (SignalObserve err);
    Ret (Some (mkEmergency (streak e0 + 1) (sent e0)), streak e0 + 1 >=? 2)
  end.

Fixpoint emergencyLoop (e : option emergencyState) (base : string) (danger : list dangerCheck)
    (admins : list uuid) : P (option emergencyState) :=
  match admins with
  | [] => Ret e
  | uid :: rest => e' ← emergencySend e uid base danger; emergencyLoop e' base danger rest
  end.

Definition emergencyOpenNotice (e : option emergencyState) (doc : Doc) : P (option emergencyState) :=
  enabled ← call HealthEnabled;
  match enabled with
  | inr _ => Ret e
  | inl enabled =>
    if negb enabled then Ret e else
    admins ← call ListAdmins;
    match admins with
    | inr _ => Ret e
    | inl admins =>
      if (length admins =? 0)%nat then Ret e else
      base ← call PublicBaseURL;
      emergencyLoop e base (dangerChecks doc) admins
    end
  end.

(** * The fan-out *)

Definition notifyOne (e : option emergencyState) (episode : uuid) (base : string)
    (danger : list dangerCheck) (uid : uuid) : P (option emergencyState) :=
  claimed ← call (ClaimHealthEpisodeNotice episode uid);
  match claimed with
  | inr err => emergencyAfterErr e err uid base danger
  | inl claimed =>
    if claimed =? 0 then Ret e else
    answer ← call (Notify (buildHealthEpisodeNotification base uid episode danger) episode);
    match answer with
    | inl _ => Ret e
    | inr err =>
      e' ← emergencyAfterErr e err uid base danger;
      _ ← call (ReleaseHealthEpisodeNotice episode uid);
      Ret e'
    end
  end.

Fixpoint notifyLoop (e : option emergencyState) (episode : uuid) (base : string)
    (danger : list dangerCheck) (admins : list uuid) : P (option emergencyState) :=
  match admins with
  | [] => Ret e
  | uid :: rest => e' ← notifyOne e episode base danger uid; notifyLoop e' episode base danger rest
  end.

Definition notifyAdmins (e : option emergencyState) (episode : uuid) (doc : Doc)
    : P (option emergencyState) :=
  let danger := dangerChecks doc in
  if (length danger =? 0)%nat then Ret e else
  enabled ← call HealthEnabled;
  match enabled with
  | inr _ => Ret e
  | inl enabled =>
    if negb enabled then Ret e else
    admins ← call ListAdmins;
    match admins with
    | inr _ => Ret e
    | inl admins =>
      if (length admins =? 0)%nat then Ret e else
      base ← call PublicBaseURL;
      notifyLoop e episode base danger admins
    end
  end.

(** The body of [Reconcile] up to its deferred reset: the state and whether the
    tick's open failed with a full disk. *)
Definition reconcileBody (e : option emergencyState) : P (option emergencyState * bool) :=
  doc ← call Evaluate;
  match doc with
  | inr _ => Ret (e, false)
  | inl doc =>
    open ← call GetOpenHealthEpisode;
    match open with
    | inr ErrNoRows =>
      if Blocking doc then
        now ← call Now;
        opened ← call (OpenHealthEpisode now);
        match opened with
        | inl _ => Ret (e, false)
        | inr err =>
          if isUniqueViolation err then Ret (e, false) else
          '(e1, due) ← openFailedDiskFull e err;
          e2 ← (if (due : bool) then emergencyOpenNotice e1 doc else Ret e1);
          Ret (e2, Is err)
        end
      else Ret (e, false)
    | inr _ => Ret (e, false)
    | inl id =>
      if Blocking doc then e' ← notifyAdmins e id doc; Ret (e', false)
      else
        now ← call Now;
        _ ← call (CloseHealthEpisode id now);
        Ret (e, false)
    end
  end.

Definition Reconcile (e : option emergencyState) : P (option emergencyState) :=
  '(e', openDiskFull) ← reconcileBody e;
  Ret (if (openDiskFull : bool) then e' else resetEmergencyStreak e').

(** * Concurrent replicas

    The table of claimed notices is the shared world.  The claim inserts unless
    the row is there, the release deletes it; either can fail with or without
    effect.  Every other request is answered by anything at all. *)

Abbreviation slot := (uuid * uuid)%type.
Abbreviation table := (gset slot).

Definition answers (w : table) X (r : req X) : X → table → Prop :=
  match r in req X return X → table → Prop with
  | ClaimHealthEpisodeNotice ep u => λ x w',
      match x with
      | inl n => (n = 1 ∧ (ep, u) ∉ w ∧ w' = {[ (ep, u) ]} ∪ w) ∨ (n = 0 ∧ (ep, u) ∈ w ∧ w' = w)
      | inr _ => w' = w ∨ w' = {[ (ep, u) ]} ∪ w
      end
  | ReleaseHealthEpisodeNotice ep u => λ x w',
      match x with
      | inl _ => w' = w ∖ {[ (ep, u) ]}
      | inr _ => w' = w ∨ w' = w ∖ {[ (ep, u) ]}
      end
  | _ => λ _ w', w' = w
  end.

(** The notice [Notify] publishes to Slack: a call that fails fails before
    publishing. *)
Definition posted X (r : req X) : X → option slot :=
  match r in req X return X → option slot with
  | Notify n ep => λ x, match x with inl _ => Some (ep, UserID n) | inr _ => None end
  | _ => λ _, None
  end.

Record state := mkState {
  world : table;
  pool : list (P (option emergencyState)); (* the ticks under way *)
  posts : list slot;                       (* the notices published *)
}.

Inductive step : state → state → Prop :=
  | step_tick w ts ps e : step (mkState w ts ps) (mkState w (Reconcile e :: ts) ps)
  | step_request w w' ts1 ts2 ps X (r : req X) k x :
      answers w X r x w' →
      step (mkState w (ts1 ++ Vis r k :: ts2) ps)
           (mkState w' (ts1 ++ k x :: ts2) (option_list (posted X r x) ++ ps))
  | step_exit w ts1 ts2 ps t : step (mkState w (ts1 ++ t :: ts2) ps) (mkState w (ts1 ++ ts2) ps)
  | step_elsewhere w w' ts ps : w ⊆ w' → step (mkState w ts ps) (mkState w' ts ps).

(** ** The right to notify *)

Definition upd (held : option slot) X (r : req X) : X → option slot :=
  match r in req X return X → option slot with
  | ClaimHealthEpisodeNotice ep u => λ x,
      match x with inl n => if n =? 0 then None else Some (ep, u) | inr _ => None end
  | Notify _ _ => λ x, match x with inl _ => None | inr _ => held end
  | ReleaseHealthEpisodeNotice _ _ => λ _, None
  | _ => λ _, held
  end.

Definition ok (held : option slot) X (r : req X) : Prop :=
  match r with
  | ClaimHealthEpisodeNotice _ _ => held = None
  | Notify n ep => held = Some (ep, UserID n)
  | ReleaseHealthEpisodeNotice ep u => held = Some (ep, u)
  | _ => True
  end.

(** From [held] the program ends holding nothing; and it gives back what it
    holds. *)
Definition safe {A} (held : option slot) (p : P A) : Prop :=
  monitored upd ok (λ h _, h = None) held p.
Definition keeps {A} (held : option slot) (p : P A) : Prop :=
  monitored upd ok (λ h _, h = held) held p.

Lemma keeps_send e uid base danger held : keeps held (emergencySend e uid base danger).
Proof.
  destruct e as [e|]; [|done]. split; [done|]. intros gen. split; [done|]. intros now.
  cbn -[armCooldown buildHealthEpisodeNotification].
  destruct (armCooldown e gen now uid) as [e' []]; cbn; done.
Qed.

Lemma keeps_afterErr e err uid base danger held : keeps held (emergencyAfterErr e err uid base danger).
Proof.
  destruct e as [e|]; [|done]. rewrite /emergencyAfterErr. destruct (negb (Is err)); [done|].
  split; [done|]. intros ?. apply keeps_send.
Qed.

Lemma safe_of_keeps {A} (p : P A) : keeps None p → safe None p.
Proof. done. Qed.

Lemma safe_bind {A B} held (p : P A) (f : A → P B) :
  safe held p → (∀ a, safe None (f a)) → safe held (p ≫= f).
Proof. intros Hp Hf. eapply monitored_bind; [exact Hp|]. intros ? a ->. apply Hf. Qed.

Lemma safe_notifyOne e ep base danger uid : safe None (notifyOne e ep base danger uid).
Proof.
  split; [done|]. intros [n|err]; cbn -[safe emergencyAfterErr buildHealthEpisodeNotification];
    [|apply safe_of_keeps, keeps_afterErr].
  destruct (n =? 0); [done|]. split; [done|]. intros [?|err]; [done|].
  eapply monitored_bind; [apply keeps_afterErr|]. intros ? e' ->. done.
Qed.

Lemma safe_notifyLoop e ep base danger admins : safe None (notifyLoop e ep base danger admins).
Proof.
  revert e. induction admins as [|uid admins IH]; intros e; [done|].
  apply safe_bind; [apply safe_notifyOne|]. apply IH.
Qed.

Lemma safe_emergencyLoop e base danger admins : safe None (emergencyLoop e base danger admins).
Proof.
  revert e. induction admins as [|uid admins IH]; intros e; [done|].
  apply safe_bind; [apply safe_of_keeps, keeps_send|]. apply IH.
Qed.

Ltac request := split; [done|]; cbn -[safe notifyLoop emergencyLoop].

Lemma safe_notifyAdmins e ep doc : safe None (notifyAdmins e ep doc).
Proof.
  rewrite /notifyAdmins. destruct (_ =? _)%nat; [done|]. request. intros [[]|?]; [|done..].
  request. intros [admins|?]; [|done]. destruct (length admins =? 0)%nat; [done|].
  request. intros base. apply safe_notifyLoop.
Qed.

Lemma safe_emergencyOpenNotice e doc : safe None (emergencyOpenNotice e doc).
Proof.
  request. intros [[]|?]; [|done..]. request. intros [admins|?]; [|done].
  destruct (length admins =? 0)%nat; [done|]. request. intros base. apply safe_emergencyLoop.
Qed.

Lemma safe_openFailed e err : safe None (openFailedDiskFull e err).
Proof. destruct e as [e|]; [|done]. rewrite /openFailedDiskFull. by destruct (negb _). Qed.

Lemma safe_Reconcile e : safe None (Reconcile e).
Proof.
  apply safe_bind; [|by intros [? []]]. request. intros [doc|?]; [|done]. request.
  intros [id|err]; cbn -[safe notifyAdmins emergencyOpenNotice].
  - destruct (Blocking doc); [|by request; request].
    apply safe_bind; [apply safe_notifyAdmins|done].
  - destruct err; [|done..]. destruct (Blocking doc); [|done]. request. intros now. request.
    intros [?|err]; [done|]. destruct (isUniqueViolation err); [done|].
    apply safe_bind; [apply safe_openFailed|]. intros [e1 due].
    apply safe_bind; [|done]. destruct due; [apply safe_emergencyOpenNotice|done].
Qed.

(** ** The invariant *)

Abbreviation ghost := (option slot * P (option emergencyState))%type.

Definition holds (sl : slot) (g : ghost) : Prop := g.1 = Some sl.
#[export] Instance holds_dec sl g : Decision (holds sl g).
Proof. unfold holds. apply _. Defined.

(** Notices published for a slot and the rights to publish one. *)
Definition weight (sl : slot) (gs : list ghost) (ps : list slot) : nat :=
  (length (filter (λ p, p = sl) ps) + length (filter (holds sl) gs))%nat.

Definition room (sl : slot) (w : table) : nat := (if decide (sl ∈ w) then 1 else 0)%nat.

Definition inv (s : state) : Prop :=
  ∃ gs, pool s = snd <$> gs ∧ Forall (λ g, safe g.1 g.2) gs
    ∧ ∀ sl, (weight sl gs (posts s) <= room sl (world s))%nat.

Definition one (sl : slot) (h : option slot) : nat := (if decide (h = Some sl) then 1 else 0)%nat.

Lemma notice_weight_app sl gs1 gs2 h p ps :
  weight sl (gs1 ++ (h, p) :: gs2) ps = (weight sl (gs1 ++ gs2) ps + one sl h)%nat.
Proof.
  rewrite /weight /one !filter_app filter_cons !length_app /holds.
  destruct (decide (h = Some sl)), (decide ((h, p).1 = Some sl)); simpl in *; try done; lia.
Qed.

Lemma notice_weight_post sl o gs ps :
  weight sl gs (option_list o ++ ps) = (weight sl gs ps + one sl o)%nat.
Proof.
  destruct o as [sl'|]; rewrite /weight /one; simpl; [|lia]. rewrite filter_cons.
  destruct (decide (sl' = sl)), (decide (Some sl' = Some sl)); simpl; try congruence; lia.
Qed.

Lemma room_le sl w w' : w ⊆ w' → (room sl w <= room sl w')%nat.
Proof. rewrite /room. intros. repeat case_decide; try lia. set_solver. Qed.

(** What one request does to the right of its tick, the posts and the table. *)
Lemma request_effect w X (r : req X) x w' held sl :
  answers w X r x w' → ok held X r →
  (one sl held <= room sl w)%nat →
  (one sl (posted X r x) + one sl (upd held X r x) + room sl w <= one sl held + room sl w')%nat
  ∨ (one sl held = 1 ∧ one sl (posted X r x) = 0 ∧ one sl (upd held X r x) = 0)%nat.
Proof.
  destruct r; cbn [answers ok posted upd]; try (intros -> _ _; left; rewrite /one /=; lia).
  - intros Ha -> Hr. left. destruct x as [n|err].
    + destruct Ha as [(-> & Hn & ->)|(-> & Hin & ->)]; simpl.
      * rewrite /one /room. repeat case_decide; simplify_eq; try lia; set_solver.
      * rewrite /one. lia.
    + assert (w ⊆ w') as Hsub%(room_le sl) by (destruct Ha; set_solver). rewrite /one /=. lia.
  - intros Ha -> Hr. destruct (decide (sl = (episode, user))) as [->|Hne].
    + right. rewrite /one /= decide_True //.
    + left. assert (room sl w' = room sl w) as ->.
      { rewrite /room. destruct x; destruct_or? Ha; subst; repeat case_decide; set_solver. }
      rewrite /one /=. lia.
  - intros -> -> Hr. left. destruct x; rewrite /one /=; lia.
Qed.

Lemma notice_inv_request w w' ts1 ts2 ps X (r : req X) k x :
  answers w X r x w' → inv (mkState w (ts1 ++ Vis r k :: ts2) ps) →
  inv (mkState w' (ts1 ++ k x :: ts2) (option_list (posted X r x) ++ ps)).
Proof.
  intros Ha (gs & Hpool & Hs & Hw). simpl in *. symmetry in Hpool.
  apply fmap_app_inv in Hpool as (gs1 & gs' & -> & Hpool & ->).
  symmetry in Hpool. apply fmap_cons_inv in Hpool as ([held p] & gs2 & Hg & -> & ->).
  simpl in Hg. subst p.
  apply Forall_app in Hs as [Hs1 [[Hok Hk] Hs2]%Forall_cons]. simpl in Hok, Hk.
  exists (gs1 ++ (upd held X r x, k x) :: gs2). simpl.
  split; [by rewrite fmap_app|].
  split; [apply Forall_app; split; [done|]; constructor; [apply Hk|done]|].
  intros sl. specialize (Hw sl). rewrite notice_weight_app in Hw. rewrite notice_weight_app notice_weight_post.
  destruct (request_effect w X r x w' held sl Ha Hok) as [H|(H1 & H2 & H3)]; [lia|lia|].
  rewrite /room in Hw. case_decide; lia.
Qed.

Lemma notice_inv_step s s' : step s s' → inv s → inv s'.
Proof.
  destruct 1 as [w ts ps e|w w' ts1 ts2 ps X r k x Ha|w ts1 ts2 ps t|w w' ts ps He].
  - intros (gs & Hpool & Hs & Hw). exists ((None, Reconcile e) :: gs). simpl in *.
    split; [by rewrite Hpool|]. split; [constructor; [apply safe_Reconcile|done]|].
    intros sl. rewrite (notice_weight_app _ []) /one /=. specialize (Hw sl). simpl in Hw. lia.
  - by apply notice_inv_request.
  - intros (gs & Hpool & Hs & Hw). simpl in *. symmetry in Hpool.
    apply fmap_app_inv in Hpool as (gs1 & gs' & -> & Hpool & ->).
    symmetry in Hpool. apply fmap_cons_inv in Hpool as ([h p] & gs2 & _ & -> & ->).
    exists (gs1 ++ gs2). simpl. rewrite fmap_app. split; [done|].
    apply Forall_app in Hs as [Hs1 [_ Hs2]%Forall_cons].
    split; [by apply Forall_app|]. intros sl. specialize (Hw sl). rewrite notice_weight_app in Hw. lia.
  - intros (gs & Hpool & Hs & Hw). exists gs. split; [done|]. split; [done|]. intros sl.
    etrans; [apply Hw|]. by apply room_le.
Qed.

Definition init (w : table) : state := mkState w [] [].

Lemma notice_inv_reachable w s : rtc step (init w) s → inv s.
Proof.
  intros H. assert (inv (init w)) as Hi.
  { exists []. repeat split; [constructor|]. intros sl. rewrite /weight /=. lia. }
  revert Hi. induction H as [|? ? ? Hs _ IH]; [done|]. intros Hi. apply IH. by eapply notice_inv_step.
Qed.

(** C32. However the ticks of any number of replicas interleave, with failing
    and unconfirmed statements and ticks that die half-way, the claimed path
    publishes at most one notice per episode and administrator, and only with
    the slot claimed. *)
Theorem health_notice_once w s :
  rtc step (init w) s →
  ∀ sl, (length (filter (λ p, p = sl) (posts s)) <= 1)%nat ∧ (sl ∈ posts s → sl ∈ world s).
Proof.
  intros (gs & _ & _ & Hw)%notice_inv_reachable sl. specialize (Hw sl). rewrite /weight /room in Hw.
  split; [case_decide; lia|]. intros Hin. case_decide as Hc; [done|].
  assert (sl ∈ filter (λ p, p = sl) (posts s)) as Hf by by apply list_elem_of_filter.
  destruct (filter (λ p, p = sl) (posts s)); [by apply not_elem_of_nil in Hf|]. simpl in Hw. lia.
Qed.

(** A tick with an open episode and one administrator, run to its end. *)
Definition exDoc : Doc := mkDoc true [mkCheck "db" "instance" "Database" "danger" "down"].

Definition exAnswer (w : table) X (r : req X) : table * X :=
  match r in req X return table * X with
  | Evaluate => (w, inl exDoc)
  | GetOpenHealthEpisode => (w, inl (Uuid.mk 1))
  | OpenHealthEpisode _ => (w, inr ErrOther)
  | CloseHealthEpisode _ _ => (w, inl tt)
  | ListAdmins => (w, inl [Uuid.mk 7])
  | ClaimHealthEpisodeNotice ep u =>
      if decide ((ep, u) ∈ w) then (w, inl 0) else ({[ (ep, u) ]} ∪ w, inl 1)
  | ReleaseHealthEpisodeNotice ep u => (w ∖ {[ (ep, u) ]}, inl tt)
  | Notify _ _ => (w, inl tt)
  | HealthEnabled => (w, inl true)
  | PublicBaseURL => (w, "https://uzi/")
  | Now => (w, 0)
  | SignalObserve _ => (w, tt)
  | SignalGeneration => (w, 0)
  | PublishNotification _ _ => (w, tt)
  end.

Lemma exAnswer_ok w X (r : req X) w' x : exAnswer w X r = (w', x) → answers w X r x w'.
Proof.
  destruct r; cbn [exAnswer answers]; try (by intros [= <- <-]).
  case_decide; intros [= <- <-]; [by right|by left].
Qed.

Fixpoint drive (p : P (option emergencyState)) (w : table) (ps : list slot) : table * list slot :=
  match p with
  | Ret _ => (w, ps)
  | Vis r k =>
    let '(w', x) := exAnswer w _ r in drive (k x) w' (option_list (posted _ r x) ++ ps)
  end.

Lemma notice_drive_steps p w ts ps :
  rtc step (mkState w (p :: ts) ps) (mkState (drive p w ps).1 ts (drive p w ps).2).
Proof.
  revert w ps. induction p as [a|X r k IH]; intros w ps; simpl.
  - apply rtc_once. apply (step_exit _ []).
  - destruct (exAnswer w X r) as [w' x] eqn:E. eapply rtc_l; [|apply IH].
    by apply (step_request _ _ []), exAnswer_ok.
Qed.

Lemma health_notice_once_witness :
  ∃ s, rtc step (init ∅) s ∧ posts s = [(Uuid.mk 1, Uuid.mk 7)]
    ∧ (length (filter (λ p, p = (Uuid.mk 1, Uuid.mk 7)) (posts s)) <= 1)%nat.
Proof.
  assert (∃ s, rtc step (init ∅) s ∧ posts s = [(Uuid.mk 1, Uuid.mk 7)]) as (s & Hr & Hp).
  { eexists. split.
    - eapply rtc_l; [apply (step_tick _ _ _ None)|].
      eapply rtc_l; [apply (step_tick _ _ _ None)|].
      etrans; [apply notice_drive_steps|]. apply notice_drive_steps.
    - vm_compute. reflexivity. }
  exists s. split; [exact Hr|]. split; [exact Hp|].
  apply (health_notice_once ∅ s Hr (Uuid.mk 1, Uuid.mk 7)).
Defined.

(** The emergency notices of one incident to one administrator are at least the
    cooldown apart: a send that is due finds the previous one that old, and
    records itself. *)
Lemma armCooldown_spaced e gen now u e' :
  armCooldown e gen now u = (e', true) →
  sent e' !! (gen, u) = Some now
  ∧ ∀ last, sent e !! (gen, u) = Some last → emergencyNoticeCooldown <= Go.sub now last.
Proof.
  rewrite /armCooldown.
  destruct (filter _ (sent e) !! (gen, u)) as [last|] eqn:E.
  - apply map_lookup_filter_Some in E as [E _]. destruct (_ <? _) eqn:Hc; [done|]. intros [= <-].
    simpl. rewrite lookup_insert_eq. split; [done|]. intros l Hl. simplify_eq. lia.
  - intros [= <-]. simpl. rewrite lookup_insert_eq. split; [done|]. intros l Hl.
    apply map_lookup_filter_None in E as [E|E]; [congruence|].
    destruct (E l Hl). simpl. lia.
Qed.

(** * One tick

    What a tick has learnt from the answers it got so far. *)
Record facts := mkFacts {
  f_doc : option Doc;
  f_open : option (option uuid);  (* the open episode, once read *)
  f_enabled : bool;
  f_admins : list uuid;
  f_base : string;
  f_full : bool;                  (* a statement failed with a full disk *)
  f_openFull : bool;              (* that statement was the open *)
  f_failed : option slot;         (* the claimed slot, with its [Notify] failed *)
  f_claimed : option slot;
}.

Definition facts0 : facts := mkFacts None None false [] EmptyString false false None None.

Definition setFull (f : facts) (b : bool) : facts :=
  mkFacts (f_doc f) (f_open f) (f_enabled f) (f_admins f) (f_base f) (f_full f || b) (f_openFull f)
    (f_failed f) (f_claimed f).
Definition setSlots (f : facts) (failed claimed : option slot) : facts :=
  mkFacts (f_doc f) (f_open f) (f_enabled f) (f_admins f) (f_base f) (f_full f) (f_openFull f)
    failed claimed.

Definition learn (f : facts) X (r : req X) : X → facts :=
  match r in req X return X → facts with
  | Evaluate => λ x, match x with
      | inl doc => mkFacts (Some doc) (f_open f) (f_enabled f) (f_admins f) (f_base f) (f_full f)
                     (f_openFull f) (f_failed f) (f_claimed f)
      | inr _ => f end
  | GetOpenHealthEpisode => λ x,
      let known o := mkFacts (f_doc f) (Some o) (f_enabled f) (f_admins f) (f_base f) (f_full f)
                       (f_openFull f) (f_failed f) (f_claimed f) in
      match x with inl id => known (Some id) | inr ErrNoRows => known None | inr _ => f end
  | OpenHealthEpisode _ => λ x, match x with
      | inl _ => f
      | inr err => mkFacts (f_doc f) (f_open f) (f_enabled f) (f_admins f) (f_base f)
                     (f_full f || Is err) (Is err) (f_failed f) (f_claimed f) end
  | HealthEnabled => λ x, match x with
      | inl b => mkFacts (f_doc f) (f_open f) b (f_admins f) (f_base f) (f_full f) (f_openFull f)
                   (f_failed f) (f_claimed f)
      | inr _ => f end
  | ListAdmins => λ x, match x with
      | inl l => mkFacts (f_doc f) (f_open f) (f_enabled f) l (f_base f) (f_full f) (f_openFull f)
                   (f_failed f) (f_claimed f)
      | inr _ => f end
  | PublicBaseURL => λ x,
      mkFacts (f_doc f) (f_open f) (f_enabled f) (f_admins f) x (f_full f) (f_openFull f)
        (f_failed f) (f_claimed f)
  | ClaimHealthEpisodeNotice ep u => λ x, match x with
      | inl n => setSlots f None (if n =? 0 then None else Some (ep, u))
      | inr err => setSlots (setFull f (Is err)) None None end
  | Notify n ep => λ x, match x with
      | inl _ => setSlots f None None
      | inr err => setSlots (setFull f (Is err)) (Some (ep, UserID n)) None end
  | ReleaseHealthEpisodeNotice _ _ => λ _, setSlots f None None
  | _ => λ _, f
  end.

(** The gates of the fan-out to one administrator. *)
Definition mayNotify (f : facts) (doc : Doc) (u : uuid) : Prop :=
  f_doc f = Some doc ∧ Blocking doc = true ∧ f_enabled f = true ∧ u ∈ f_admins f.

(** When each request that changes something may be issued, by a reconciler
    whose emergency state at the start of the tick is [e]. *)
Definition allowed (e : option emergencyState) (f : facts) X (r : req X) : Prop :=
  match r with
  | OpenHealthEpisode _ =>
      ∃ doc, f_doc f = Some doc ∧ Blocking doc = true ∧ f_open f = Some None
  | CloseHealthEpisode id _ =>
      ∃ doc, f_doc f = Some doc ∧ Blocking doc = false ∧ f_open f = Some (Some id)
  | ClaimHealthEpisodeNotice ep u =>
      f_open f = Some (Some ep) ∧ f_claimed f = None
      ∧ ∃ doc, mayNotify f doc u ∧ dangerChecks doc ≠ []
  | Notify n ep =>
      f_open f = Some (Some ep) ∧ f_claimed f = Some (ep, UserID n)
      ∧ ∃ doc, mayNotify f doc (UserID n)
        ∧ n = buildHealthEpisodeNotification (f_base f) (UserID n) ep (dangerChecks doc)
  | ReleaseHealthEpisodeNotice ep u => f_failed f = Some (ep, u)
  | PublishNotification u render =>
      is_Some e ∧ f_full f = true
      ∧ (f_open f = Some None → f_openFull f = true ∧ ∃ e0, e = Some e0 ∧ 1 <= streak e0)
      ∧ ∃ doc, mayNotify f doc u
        ∧ render = Slack (buildHealthEpisodeNotification (f_base f) u Uuid.Nil
                            (withDiskFullLine (dangerChecks doc)))
  | _ => True
  end.

(** The consecutive failed opens counted at the end of a tick. *)
Definition counted (e : option emergencyState) (f : facts) (e' : option emergencyState) : Prop :=
  streak <$> e' = (λ e, if f_openFull f then streak e + 1 else 0) <$> e
  ∧ f_failed f = None.

Section Tick.
Context (e : option emergencyState).

Abbreviation tick post := (monitored learn (allowed e) post).

(** The emergency notice may go out to [u]. *)
Definition mayPublish (f : facts) (doc : Doc) (u : uuid) : Prop :=
  f_full f = true ∧ mayNotify f doc u
  ∧ (f_open f = Some None → f_openFull f = true ∧ ∃ e0, e = Some e0 ∧ 1 <= streak e0).

Lemma armCooldown_streak e0 gen now u : streak (armCooldown e0 gen now u).1 = streak e0.
Proof. rewrite /armCooldown. by repeat case_match. Qed.

Lemma tick_send e1 f doc u :
  (is_Some e1 → is_Some e) → mayPublish f doc u →
  tick (λ f' e', f' = f ∧ streak <$> e' = streak <$> e1) f
    (emergencySend e1 u (f_base f) (dangerChecks doc)).
Proof.
  intros He (Hfull & Hn & Hopen). destruct e1 as [e1|]; [|done].
  split; [done|]. intros gen. split; [done|]. intros now.
  cbn -[armCooldown buildHealthEpisodeNotification allowed].
  pose proof (armCooldown_streak e1 gen now u) as Hst.
  destruct (armCooldown e1 gen now u) as [e' due]; simpl in Hst.
  destruct due; cbn -[buildHealthEpisodeNotification allowed].
  - split; [|intros _; split; [done|by rewrite Hst]]. split; [by apply He|]. eauto 10.
  - split; [done|by rewrite Hst].
Qed.

Lemma tick_afterErr e1 f doc u err :
  (is_Some e1 → is_Some e) → (Is err = true → mayPublish f doc u) →
  tick (λ f' e', f' = f ∧ streak <$> e' = streak <$> e1) f
    (emergencyAfterErr e1 err u (f_base f) (dangerChecks doc)).
Proof.
  intros He Hpub. destruct e1 as [e1|]; [|done]. rewrite /emergencyAfterErr.
  destruct (Is err) eqn:E; [|done]. split; [done|]. intros ?. apply tick_send; auto.
Qed.

(** The facts during the fan-out of episode [ep]. *)
Definition fan (ep : uuid) (doc : Doc) (admins : list uuid) (base : string) (f : facts) : Prop :=
  f_doc f = Some doc ∧ f_open f = Some (Some ep) ∧ f_enabled f = true ∧ f_admins f = admins
  ∧ f_base f = base ∧ f_openFull f = false ∧ f_failed f = None ∧ f_claimed f = None.

Lemma fan_publish ep doc admins base f u :
  fan ep doc admins base f → Blocking doc = true → u ∈ admins → f_full f = true → mayPublish f doc u.
Proof.
  intros (Hd & Ho & Hen & Ha & _) Hb Hu Hf. split; [done|]. rewrite Ho. split; [|done].
  split_and!; [done..|by rewrite Ha].
Qed.

Lemma mayPublish_slots f doc u a b : mayPublish (setSlots f a b) doc u ↔ mayPublish f doc u.
Proof. done. Qed.

Lemma tick_notifyOne e1 f ep doc admins base u :
  (is_Some e1 → is_Some e) → fan ep doc admins base f → Blocking doc = true →
  dangerChecks doc ≠ [] → u ∈ admins →
  tick (λ f' e', fan ep doc admins base f' ∧ streak <$> e' = streak <$> e1) f
    (notifyOne e1 ep base (dangerChecks doc) u).
Proof.
  intros He Hfan Hb Hd Hu. pose proof Hfan as (Hdoc & Ho & Hen & Ha & Hba & Hof & Hfa & Hcl).
  assert (mayNotify f doc u) as Hmay by (split_and!; [done..|by rewrite Ha]).
  assert (∀ err, fan ep doc admins base (setSlots (setFull f (Is err)) None None)) as Hfan'.
  { intros err. by split_and!. }
  assert (∀ err, Is err = true → mayPublish (setFull f (Is err)) doc u) as Hpub.
  { intros err E. apply (fan_publish ep doc admins base); [by split_and!|done..|].
    by rewrite /= E orb_true_r. }
  split; [split_and!; eauto|]. intros [n|err]; cbn -[emergencyAfterErr buildHealthEpisodeNotification allowed].
  2: { rewrite -Hba. eapply monitored_weaken;
         [|apply (tick_afterErr e1 (setSlots (setFull f (Is err)) None None)); [done|apply Hpub]].
       intros ? ? [-> ?]. rewrite Hba. auto. }
  destruct (n =? 0); [split; [by split_and!|done]|]. split.
  { split_and!; [done..|]. exists doc. split; [done|]. by rewrite /= Hba. }
  intros [?|err]; cbn -[emergencyAfterErr buildHealthEpisodeNotification allowed];
    [split; [by split_and!|done]|].
  eapply monitored_bind.
  { rewrite -Hba. apply (tick_afterErr e1 (setSlots (setFull f (Is err)) (Some (ep, u)) None));
      [done|apply Hpub]. }
  intros ? e' [-> Hs]. split; [done|]. intros ?. split; [apply (Hfan' err)|done].
Qed.

Lemma streak_is_Some (e1 e2 : option emergencyState) :
  streak <$> e1 = streak <$> e2 → is_Some e1 → is_Some e2.
Proof. intros H [x ->]. destruct e2; [done|done]. Qed.

Lemma tick_notifyLoop e1 f ep doc admins base l :
  (is_Some e1 → is_Some e) → fan ep doc admins base f → Blocking doc = true →
  dangerChecks doc ≠ [] → l ⊆ admins →
  tick (λ f' e', fan ep doc admins base f' ∧ streak <$> e' = streak <$> e1) f
    (notifyLoop e1 ep base (dangerChecks doc) l).
Proof.
  revert e1 f. induction l as [|u l IH]; intros e1 f He Hfan Hb Hd Hl; [done|].
  eapply monitored_bind; [apply tick_notifyOne; try done; set_solver|].
  intros f' e' [Hfan' Hs]. eapply monitored_weaken; [|apply IH; try done; [|set_solver]].
  - simpl. intros ? ? [? ->]. done.
  - intros ?. by apply He, (streak_is_Some e').
Qed.

Lemma tick_emergencyLoop e1 f doc l :
  (is_Some e1 → is_Some e) → (∀ u, u ∈ l → mayPublish f doc u) →
  tick (λ f' e', f' = f ∧ streak <$> e' = streak <$> e1) f
    (emergencyLoop e1 (f_base f) (dangerChecks doc) l).
Proof.
  revert e1. induction l as [|u l IH]; intros e1 He Hl; [done|].
  eapply monitored_bind; [apply tick_send; [done|]; apply Hl; set_solver|].
  intros f' e' [-> Hs]. eapply monitored_weaken; [|apply IH].
  - simpl. intros ? ? [? ->]. done.
  - intros ?. by apply He, (streak_is_Some e').
  - intros u' Hu'. apply Hl. set_solver.
Qed.
Lemma tick_notifyAdmins f ep doc :
  f_doc f = Some doc → f_open f = Some (Some ep) → Blocking doc = true → f_openFull f = false →
  f_failed f = None → f_claimed f = None →
  tick (λ f' e', f_openFull f' = false ∧ f_failed f' = None ∧ streak <$> e' = streak <$> e) f
    (notifyAdmins e ep doc).
Proof.
  intros Hd Ho Hb Hof Hfa Hcl. rewrite /notifyAdmins.
  destruct (length (dangerChecks doc) =? 0)%nat eqn:Hlen; [done|].
  split; [done|]. intros [[]|?]; cbn -[notifyLoop allowed]; [|done..].
  split; [done|]. intros [admins|?]; cbn -[notifyLoop allowed]; [|done].
  destruct (length admins =? 0)%nat; [done|].
  split; [done|]. intros base. eapply monitored_weaken; [|apply (tick_notifyLoop e _ ep doc admins)].
  - simpl. intros f' e' [(_ & _ & _ & _ & _ & ? & ? & _) ?]. done.
  - done.
  - by split_and!.
  - done.
  - intros E. by rewrite E in Hlen.
  - done.
Qed.

Lemma tick_openNotice e1 f doc e0 :
  e = Some e0 → 1 <= streak e0 → is_Some e1 →
  f_doc f = Some doc → Blocking doc = true → f_full f = true → f_openFull f = true →
  f_failed f = None →
  tick (λ f' e', f_openFull f' = true ∧ f_failed f' = None ∧ streak <$> e' = streak <$> e1) f
    (emergencyOpenNotice e1 doc).
Proof.
  intros He Hst He1 Hd Hb Hfull Hof Hfa. split; [done|].
  intros [[]|?]; cbn -[emergencyLoop allowed]; [|done..].
  split; [done|]. intros [admins|?]; cbn -[emergencyLoop allowed]; [|done].
  destruct (length admins =? 0)%nat; [done|]. split; [done|]. intros base.
  set (f' := learn _ _ _ _).
  eapply monitored_weaken; [|apply (tick_emergencyLoop e1 f' doc admins)].
  - simpl. intros ? ? [-> ?]. done.
  - intros _. by rewrite He.
  - intros u Hu. split; [done|]. split; [by split_and!|]. intros _. split; [done|]. eauto.
Qed.
End Tick.

(** One tick, whatever it is answered: an episode is opened only on a
    blocking document with none open, closed only on a document that no longer
    blocks, and notices are claimed and sent only for the episode an earlier
    tick opened, to listed administrators, with notifications enabled and a
    danger check to report; a claim is released only after its own failed send;
    an emergency notice needs a statement that failed with a full disk, and with
    no episode open a second consecutive tick whose open failed so; and the
    count of such ticks is advanced by one or reset. *)
Theorem reconcile_tick e : monitored learn (allowed e) (counted e) facts0 (Reconcile e).
Proof.
  assert (∀ f e' full, f_openFull f = full → f_failed f = None →
    streak <$> e' = (λ e, if full then streak e + 1 else streak e) <$> e →
    counted e f (if full then e' else resetEmergencyStreak e')) as Hend.
  { intros f e' full Hf Hfa Hs. split; [|done]. rewrite Hf. destruct full; [done|].
    destruct e, e'; simplify_eq/=; done. }
  apply (monitored_bind _ _ (λ f out, f_openFull f = out.2 ∧ f_failed f = None ∧
    streak <$> out.1 = (λ e, if out.2 then streak e + 1 else streak e) <$> e)).
  2: { intros f [e' full] (Hf & Hfa & Hs). by apply Hend. }
  split; [done|]. intros [doc|?]; cbn -[notifyAdmins emergencyOpenNotice openFailedDiskFull allowed];
    [|by split_and!; [..|destruct e]].
  split; [done|]. intros [id|err]; cbn -[notifyAdmins emergencyOpenNotice openFailedDiskFull allowed].
  - destruct (Blocking doc) eqn:Hb.
    + eapply monitored_bind; [by apply (tick_notifyAdmins e _ id doc)|].
      intros f e' (? & ? & Hs). split_and!; [done..|]. simpl. rewrite Hs. by destruct e.
    + split; [done|]. intros now. split; [by exists doc|]. intros ?. split_and!; [done..|by destruct e].
  - destruct err; [|by split_and!; [..|destruct e]|by split_and!; [..|destruct e]].
    destruct (Blocking doc) eqn:Hb; [|by split_and!; [..|destruct e]].
    split; [done|]. intros now. split; [by exists doc|].
    intros [?|err]; cbn -[emergencyOpenNotice openFailedDiskFull allowed];
      [by split_and!; [..|destruct e]|].
    destruct (isUniqueViolation err) eqn:Hu.
    { assert (Is err = false) as Hi; [|by rewrite /= Hi; split_and!; [..|destruct e]].
      destruct err as [|code|]; [done| |done]. simpl in *. apply String.eqb_eq in Hu. by subst. }
    rewrite /openFailedDiskFull. destruct e as [e0|] eqn:He; [|by split_and!].
    destruct (Is err) eqn:Hi; cbn -[emergencyOpenNotice allowed]; [|by split_and!].
    split; [done|]. intros ?. destruct (streak e0 + 1 >=? 2) eqn:Hge; [|by split_and!].
    eapply monitored_bind; [apply (tick_openNotice _ _ _ doc e0); try done; lia|].
    intros f e' (? & ? & Hs). by split_and!.
Qed.

End HealthEpisode.
