(* ===== verification/CodexDb.v ===== *)
(** The tables behind the coordinated refresh of a Codex login: the provider
    accounts, the refresh intents and the aliases linked to an account, with the
    statements of [src/api/internal/store/codex_binding.sql.go] (and of
    [codex_credentials.sql.go]) and the three transactions that lock both rows
    ([codex_refresh_reuse.go], [codex_rejection.go] and
    [workersvc/codex_vault_write.go]).

    A statement is atomic.  The transactions lock the account and then the intent
    before they write, so that one transaction is one step ([Txn]).  A row is the
    columns that are read here; an account's [created_at] never changes and is left
    out. *)

From S2P Require Import Prelude Result Txn.

Local Open Scope Z_scope.

Module CodexDb.

(** * Rows *)
Inductive CoordState := Idle | InProgress | Settled | Quarantined.
Inductive IntentState := Rotating | Committed | Unrecoverable | Reconciled.

#[export] Instance CoordState_eq_dec : EqDecision CoordState.
Proof. solve_decision. Defined.
#[export] Instance IntentState_eq_dec : EqDecision IntentState.
Proof. solve_decision. Defined.

Record CodexProviderAccount := mkAccount {
  UserID : uuid;
  ProviderUserID : string;
  WorkspaceAccountID : string;
  SealedLogin : string;
  SealedWith : string;
  Generation : Z;
  CredentialRevision : Z;
  RecoverySealed : option string;
  RecoveryGeneration : option Z;
  RecoverySealedWith : option string;
  RecoveryCause : option string;
  Coord : CoordState;
  CoordOperationID : option uuid;
  LeaseDeadline : option time;
  CommittedGeneration : option Z;
  UpdatedAt : time;
  ReauthRequired : bool;
  ReauthGeneration : option Z;
  ReauthCredentialRevision : option Z;
  ReauthReason : option string;
}.

#[export] Instance CodexProviderAccount_eq_dec : EqDecision CodexProviderAccount.
Proof. solve_decision. Defined.

Record CodexRefreshIntent := mkIntent {
  OperationID : uuid;
  IntentUserID : uuid;
  ProviderAccountID : uuid;
  FromGeneration : Z;
  State : IntentState;
  CreatedAt : time;
  ProviderErrorAt : option time;
  ReuseAttemptedAt : option time;
}.

(** [codex_credential_state] joined with [user_secrets]. *)
Record Alias := mkAlias { AliasUserID : uuid; AliasAccount : option uuid; Linked : bool; Disabled : bool }.

(** [users] is the vault epoch of each user. *)
Record DB := mkDB {
  accounts : gmap uuid CodexProviderAccount;
  intents : gmap uuid CodexRefreshIntent;
  aliases : gmap uuid Alias;
  users : gmap uuid Z;
}.

Definition setAccounts (f : gmap uuid CodexProviderAccount → gmap uuid CodexProviderAccount) (db : DB) : DB :=
  mkDB (f (accounts db)) (intents db) (aliases db) (users db).
Definition setIntents (f : gmap uuid CodexRefreshIntent → gmap uuid CodexRefreshIntent) (db : DB) : DB :=
  mkDB (accounts db) (f (intents db)) (aliases db) (users db).

(** A failing statement: no row for a [:one], [23505], anything else. *)
Inductive DbErr := ErrNoRows | UniqueViolation | DatabaseError.
#[export] Instance DbErr_aborts : Txn.Aborts DbErr := DatabaseError.

(** What a statement takes from its surroundings: [now()], the clock read after the
    locks, and the order in which a scan without [ORDER BY] returns its rows. *)
Record Ambient := mkAmbient {
  now : time;
  clock : time;
  scanI : list CodexRefreshIntent → list CodexRefreshIntent;
  scanA : list (uuid * uuid) → list (uuid * uuid);
}.
Definition ambientOk (e : Ambient) : Prop :=
  (∀ l, scanI e l ≡ₚ l) ∧ (∀ l, scanA e l ≡ₚ l).

(** * Setters *)
Definition setCoord (st : CoordState) (op : option uuid) (dl : option time) (a : CodexProviderAccount) :=
  mkAccount (UserID a) (ProviderUserID a) (WorkspaceAccountID a) (SealedLogin a) (SealedWith a) (Generation a)
    (CredentialRevision a) (RecoverySealed a) (RecoveryGeneration a) (RecoverySealedWith a) (RecoveryCause a)
    st op dl (CommittedGeneration a) (UpdatedAt a) (ReauthRequired a) (ReauthGeneration a)
    (ReauthCredentialRevision a) (ReauthReason a).
Definition touch (t : time) (a : CodexProviderAccount) :=
  mkAccount (UserID a) (ProviderUserID a) (WorkspaceAccountID a) (SealedLogin a) (SealedWith a) (Generation a)
    (CredentialRevision a) (RecoverySealed a) (RecoveryGeneration a) (RecoverySealedWith a) (RecoveryCause a)
    (Coord a) (CoordOperationID a) (LeaseDeadline a) (CommittedGeneration a) t (ReauthRequired a) (ReauthGeneration a)
    (ReauthCredentialRevision a) (ReauthReason a).
Definition setRecovery (ct : option string) (gen : option Z) (with_ cause : option string) (a : CodexProviderAccount) :=
  mkAccount (UserID a) (ProviderUserID a) (WorkspaceAccountID a) (SealedLogin a) (SealedWith a) (Generation a)
    (CredentialRevision a) ct gen with_ cause (Coord a) (CoordOperationID a) (LeaseDeadline a) (CommittedGeneration a)
    (UpdatedAt a) (ReauthRequired a) (ReauthGeneration a) (ReauthCredentialRevision a) (ReauthReason a).
Definition setReauth (req : bool) (gen rev : option Z) (reason : option string) (a : CodexProviderAccount) :=
  mkAccount (UserID a) (ProviderUserID a) (WorkspaceAccountID a) (SealedLogin a) (SealedWith a) (Generation a)
    (CredentialRevision a) (RecoverySealed a) (RecoveryGeneration a) (RecoverySealedWith a) (RecoveryCause a)
    (Coord a) (CoordOperationID a) (LeaseDeadline a) (CommittedGeneration a) (UpdatedAt a) req gen rev reason.
(** A new login and the next generation. *)
Definition nextLogin (ct with_ : string) (a : CodexProviderAccount) :=
  mkAccount (UserID a) (ProviderUserID a) (WorkspaceAccountID a) ct with_ (Generation a + 1)
    (CredentialRevision a) (RecoverySealed a) (RecoveryGeneration a) (RecoverySealedWith a) (RecoveryCause a)
    (Coord a) (CoordOperationID a) (LeaseDeadline a) (Some (Generation a + 1)) (UpdatedAt a) (ReauthRequired a)
    (ReauthGeneration a) (ReauthCredentialRevision a) (ReauthReason a).
Definition setState (st : IntentState) (i : CodexRefreshIntent) :=
  mkIntent (OperationID i) (IntentUserID i) (ProviderAccountID i) (FromGeneration i) st (CreatedAt i)
    (ProviderErrorAt i) (ReuseAttemptedAt i).
Definition setProviderError (t : time) (i : CodexRefreshIntent) :=
  mkIntent (OperationID i) (IntentUserID i) (ProviderAccountID i) (FromGeneration i) (State i) (CreatedAt i)
    (Some t) (ReuseAttemptedAt i).
Definition setReuseAttempted (t : time) (i : CodexRefreshIntent) :=
  mkIntent (OperationID i) (IntentUserID i) (ProviderAccountID i) (FromGeneration i) (State i) (CreatedAt i)
    (ProviderErrorAt i) (Some t).

(** * Statements

    [bigint] is a signed 64-bit number: a generation beyond it is an error. *)
Definition maxBigint : Z := 2 ^ 63 - 1.

Definition oneOf (s : CoordState) (l : list CoordState) : bool := bool_decide (s ∈ l).
Definition isNull {A} (o : option A) : bool := match o with None => true | Some _ => false end.
Definition eqs {A} `{EqDecision A} (x : A) (o : option A) : bool := bool_decide (o = Some x).
Definition before (t : time) (o : option time) : bool := match o with Some u => t <? u | None => false end.

(** The account with this id and owner that satisfies a condition. *)
Definition theAccount (id user : uuid) (cond : CodexProviderAccount → bool) (db : DB) : option CodexProviderAccount :=
  match accounts db !! id with
  | Some a => if bool_decide (UserID a = user) && cond a then Some a else None
  | None => None
  end.
Definition theIntent (op user : uuid) (cond : CodexRefreshIntent → bool) (db : DB) : option CodexRefreshIntent :=
  match intents db !! op with
  | Some i => if bool_decide (IntentUserID i = user) && cond i then Some i else None
  | None => None
  end.

Definition updateAccount (id user : uuid) (cond : CodexProviderAccount → bool)
    (f : CodexProviderAccount → CodexProviderAccount) (db : DB) : Z * DB :=
  match theAccount id user cond db with
  | Some a => (1, setAccounts <[id := f a]> db)
  | None => (0, db)
  end.
Definition updateIntent (op user : uuid) (cond : CodexRefreshIntent → bool)
    (f : CodexRefreshIntent → CodexRefreshIntent) (db : DB) : Z * DB :=
  match theIntent op user cond db with
  | Some i => (1, setIntents <[op := f i]> db)
  | None => (0, db)
  end.

(** An update that moves the account to its next generation. *)
Definition advanceAccount (id user : uuid) (cond : CodexProviderAccount → bool)
    (f : CodexProviderAccount → CodexProviderAccount) (db : DB) : result DbErr (option Z * DB) :=
  match theAccount id user cond db with
  | Some a =>
      if Generation a <? maxBigint then Ok (Some (Generation a + 1), setAccounts <[id := f a]> db)
      else Err DatabaseError
  | None => Ok (None, db)
  end.

Definition AcquireCodexRefreshLease (op : uuid) (deadline : time) (id user : uuid) (from : Z) (e : Ambient) :
    DB → Z * DB :=
  updateAccount id user (λ a, oneOf (Coord a) [Idle; Settled] && (Generation a =? from))
    (λ a, touch (now e) (setCoord InProgress (Some op) (Some deadline) a)).

Definition QuarantineExpiredCodexLease (id user : uuid) (at_ : time) (e : Ambient) : DB → Z * DB :=
  updateAccount id user
    (λ a, bool_decide (Coord a = InProgress) && match LeaseDeadline a with Some d => d <? at_ | None => false end)
    (λ a, touch (now e) (setCoord Quarantined (CoordOperationID a) (LeaseDeadline a) a)).

Definition CommitCodexRefresh (sealed sealedWith : string) (op id user : uuid) (from : Z) (e : Ambient) :
    DB → result DbErr (option Z * DB) :=
  advanceAccount id user
    (λ a, (Generation a =? from) && bool_decide (Coord a = InProgress) && eqs op (CoordOperationID a))
    (λ a, touch (now e) (setReauth false None None None (setRecovery None None None None
       (setCoord Settled (Some op) (LeaseDeadline a) (nextLogin sealed sealedWith a))))).

Record RecoverySlot := mkSlot {
  slotSealed : string; slotSealedWith : option string; slotCause : option string;
  slotGen : Z; slotID : uuid; slotUser : uuid; slotOp : uuid }.

Definition SetCodexRecoverySlot (p : RecoverySlot) (e : Ambient) : DB → Z * DB :=
  updateAccount (slotID p) (slotUser p)
    (λ a, eqs (slotOp p) (CoordOperationID a) && oneOf (Coord a) [InProgress; Quarantined] && (Generation a =? slotGen p))
    (λ a, touch (now e) (setCoord Quarantined (CoordOperationID a) (LeaseDeadline a)
       (setRecovery (Some (slotSealed p)) (Some (slotGen p)) (slotSealedWith p) (slotCause p) a))).

Definition ResetCodexCoordIdle (id user : uuid) (e : Ambient) : DB → Z * DB :=
  updateAccount id user (λ a, bool_decide (Coord a = Settled)) (λ a, touch (now e) (setCoord Idle None None a)).

Definition PromoteCodexRecovery (id user : uuid) (from : Z) (sealed sealedWith : string) (e : Ambient) :
    DB → result DbErr (option Z * DB) :=
  advanceAccount id user
    (λ a, bool_decide (Coord a = Quarantined) && negb (isNull (RecoverySealed a)) && eqs from (RecoveryGeneration a))
    (λ a, touch (now e) (setReauth false None None None (setRecovery None None None None
       (setCoord Idle None None (nextLogin sealed sealedWith a))))).

Definition RefreshCodexAccountLogin (sealed sealedWith : string) (id user : uuid) (from : Z) (e : Ambient) :
    DB → result DbErr (option Z * DB) :=
  advanceAccount id user
    (λ a, (Generation a =? from) &&
       (bool_decide (Coord a = Quarantined) ||
        ReauthRequired a && oneOf (Coord a) [Idle; Settled] && isNull (RecoverySealed a) &&
        eqs (Generation a) (ReauthGeneration a) && eqs (CredentialRevision a) (ReauthCredentialRevision a)))
    (λ a, touch (now e) (setReauth false None None None (setRecovery None None None None
       (setCoord Idle None None (nextLogin sealed sealedWith a))))).

Definition MarkCodexReauthRequired (gen rev : Z) (id user : uuid) (e : Ambient) : DB → Z * DB :=
  updateAccount id user
    (λ a, oneOf (Coord a) [Idle; Settled] && isNull (RecoverySealed a) && (Generation a =? gen) &&
       (CredentialRevision a =? rev))
    (λ a, touch (now e) (setReauth true (Some gen) (Some rev) None a)).

Definition QuarantineCodexAccount (id user op : uuid) (e : Ambient) : DB → Z * DB :=
  updateAccount id user (λ a, bool_decide (Coord a = InProgress) && eqs op (CoordOperationID a))
    (λ a, touch (now e) (setCoord Quarantined (CoordOperationID a) (LeaseDeadline a) a)).

(** The fence that [LockCodexAccountForRejection] and the update after it repeat. *)
Definition rejectionFence (op : uuid) (from : Z) (a : CodexProviderAccount) : bool :=
  oneOf (Coord a) [InProgress; Quarantined] && eqs op (CoordOperationID a) && (Generation a =? from) &&
  isNull (RecoverySealed a).
Definition LockCodexAccountForRejection (id user op : uuid) (from : Z) (db : DB) : bool :=
  negb (isNull (theAccount id user (rejectionFence op from) db)).
Definition ApplyCodexRejectionQuarantine (id user op : uuid) (from : Z) (e : Ambient) : DB → Z * DB :=
  updateAccount id user (rejectionFence op from)
    (λ a, touch (now e) (setReauth true (Some (Generation a)) (Some (CredentialRevision a)) (Some "provider_rejected"%string)
       (setCoord Quarantined (CoordOperationID a) (LeaseDeadline a) a))).

Definition rotatingFence (account : uuid) (from : Z) (i : CodexRefreshIntent) : bool :=
  bool_decide (ProviderAccountID i = account) && (FromGeneration i =? from) && bool_decide (State i = Rotating).
Definition LockRotatingCodexRefreshIntent (op user account : uuid) (from : Z) (db : DB) : bool :=
  negb (isNull (theIntent op user (rotatingFence account from) db)).
Definition MarkCodexRejectionIntentUnrecoverable (op user account : uuid) (from : Z) : DB → Z * DB :=
  updateIntent op user (rotatingFence account from) (setState Unrecoverable).

(** The primary key is the operation; the foreign key wants the owner's account. *)
Definition InsertCodexRefreshIntent (op user account : uuid) (from : Z) (e : Ambient) (db : DB) : result DbErr (unit * DB) :=
  match intents db !! op, theAccount account user (λ _, true) db with
  | Some _, _ => Err UniqueViolation
  | None, None => Err DatabaseError
  | None, Some _ =>
      Ok (tt, setIntents <[op := mkIntent op user account from Rotating (now e) None None]> db)
  end.

Definition GetCodexRefreshIntent (op user : uuid) (db : DB) : option CodexRefreshIntent :=
  theIntent op user (λ _, true) db.

Definition GetCodexProviderAccountByID (id user : uuid) (db : DB) : option CodexProviderAccount :=
  theAccount id user (λ _, true) db.

(** The account with the vault epoch of its owner. *)
Definition GetCodexProviderAccountSnapshot (user id : uuid) (db : DB) : option (CodexProviderAccount * Z) :=
  match theAccount id user (λ _, true) db with
  | Some a => match users db !! UserID a with Some ep => Some (a, ep) | None => None end
  | None => None
  end.

Definition HasCodexVaultLockRecoveryEvidence (user account op : uuid) (gen : Z) (db : DB) : bool :=
  match theAccount account user
          (λ a, bool_decide (Coord a = Quarantined) && eqs op (CoordOperationID a) &&
             eqs "vault_locked"%string (RecoveryCause a) && negb (isNull (RecoverySealed a)) &&
             negb (isNull (RecoverySealedWith a)) && eqs gen (RecoveryGeneration a) && (Generation a =? gen) &&
             negb (ReauthRequired a)) db with
  | Some _ => negb (isNull (theIntent op user
      (λ i, bool_decide (ProviderAccountID i = account) && (FromGeneration i =? gen) &&
         bool_decide (State i ∈ [Rotating; Reconciled])) db))
  | None => false
  end.

Definition SetCodexRefreshIntentState (st : IntentState) (op user : uuid) : DB → Z * DB :=
  updateIntent op user (λ _, true) (setState st).

(** ** The writes of a survivor *)
Definition slotAt (gen : Z) (a : CodexProviderAccount) : bool :=
  negb (isNull (RecoverySealed a)) && eqs gen (RecoveryGeneration a).

Definition thirtyMinutes : duration := 30 * Go.Minute.

(** The condition on the account that a survivor's verdict must still meet. *)
Definition fenceHolds (st : IntentState) (expected : Z) (inFlight : duration) (e : Ambient)
    (i : CodexRefreshIntent) (a : CodexProviderAccount) : bool :=
  (Generation a =? expected) &&
  (isNull (ProviderErrorAt i) ||
   bool_decide (st = Reconciled) &&
     ((FromGeneration i <? Generation a) || slotAt (Generation a) a && (Generation a =? FromGeneration i)) ||
   bool_decide (st = Unrecoverable) && (Generation a =? FromGeneration i) && negb (slotAt (Generation a) a) &&
     negb (match ReuseAttemptedAt i with
           | None => now e - thirtyMinutes <? CreatedAt i
           | Some t => now e - inFlight <? t
           end)) &&
  negb (bool_decide (Coord a = InProgress) && eqs (OperationID i) (CoordOperationID a) && before (now e) (LeaseDeadline a)).

Definition SetCodexRefreshIntentStateFenced (st : IntentState) (op user : uuid) (expected : Z) (inFlight : duration)
    (e : Ambient) (db : DB) : Z * DB :=
  updateIntent op user
    (λ i, bool_decide (State i = Rotating) &&
       negb (isNull (theAccount (ProviderAccountID i) user (fenceHolds st expected inFlight e i) db)))
    (setState st) db.

(** The account a retry of the original token works on. *)
Definition reuseFence (op : uuid) (from : Z) (a : CodexProviderAccount) : bool :=
  bool_decide (Coord a = Quarantined) && eqs op (CoordOperationID a) && (Generation a =? from) &&
  isNull (RecoverySealed a) && negb (ReauthRequired a).

Definition SetCodexRefreshReuseUnrecoverable (user account op : uuid) (from : Z) (db : DB) : Z * DB :=
  updateIntent op user
    (λ i, rotatingFence account from i && negb (isNull (ProviderErrorAt i)) && negb (isNull (ReuseAttemptedAt i)) &&
       negb (isNull (theAccount account user (reuseFence op from) db)))
    (setState Unrecoverable) db.

Definition RecordCodexRefreshProviderError (user account op : uuid) (from : Z) (e : Ambient) (db : DB) : Z * DB :=
  updateIntent op user
    (λ i, rotatingFence account from i && isNull (ProviderErrorAt i) && isNull (ReuseAttemptedAt i) &&
       negb (isNull (theAccount account user (λ a, (Generation a =? from) && eqs op (CoordOperationID a)) db)))
    (setProviderError (now e)) db.

Definition enabledLink (user account : uuid) (l : Alias) : bool :=
  bool_decide (AliasUserID l = user) && eqs account (AliasAccount l) && Linked l && negb (Disabled l).
Definition CountEnabledLinkedAliasesForCodexAccount (user account : uuid) (db : DB) : Z :=
  Z.of_nat (length (List.filter (λ p, enabledLink user account p.2) (map_to_list (aliases db)))).

Definition LockCodexRefreshReuseAccount (account user : uuid) (db : DB) : bool :=
  negb (isNull (theAccount account user (λ _, true) db)).

Definition ConsumeCodexRefreshReuse (user account op : uuid) (from : Z) (admittedAt : time) (db : DB) : Z * DB :=
  updateIntent op user
    (λ i, rotatingFence account from i && negb (isNull (ProviderErrorAt i)) && isNull (ReuseAttemptedAt i) &&
       (admittedAt - thirtyMinutes <? CreatedAt i) &&
       negb (isNull (theAccount account user (reuseFence op from) db)) &&
       (0 <? CountEnabledLinkedAliasesForCodexAccount user account db))
    (setReuseAttempted admittedAt) db.

Definition ListUnresolvedCodexRefreshIntents (user account : uuid) (e : Ambient) (db : DB) : list CodexRefreshIntent :=
  scanI e (List.filter (λ i, bool_decide (IntentUserID i = user) && bool_decide (ProviderAccountID i = account) &&
                          bool_decide (State i = Rotating))
             (map_to_list (intents db)).*2).

Definition unresolved (at_ : time) (db : DB) (id : uuid) (a : CodexProviderAccount) : bool :=
  bool_decide (Coord a = InProgress) && match LeaseDeadline a with Some d => d <? at_ | None => false end ||
  existsb (λ p : uuid * CodexRefreshIntent, bool_decide (IntentUserID p.2 = UserID a) &&
             bool_decide (ProviderAccountID p.2 = id) && bool_decide (State p.2 = Rotating)) (map_to_list (intents db)) &&
    negb (bool_decide (Coord a = InProgress) && match LeaseDeadline a with Some d => at_ <=? d | None => false end) ||
  bool_decide (Coord a = Quarantined) && slotAt (Generation a) a &&
    (0 <? CountEnabledLinkedAliasesForCodexAccount (UserID a) id db).
Definition ListUnresolvedCodexRefreshAccounts (at_ : time) (e : Ambient) (db : DB) : list (uuid * uuid) :=
  scanA e ((λ p : uuid * CodexProviderAccount, (p.1, UserID p.2)) <$>
             List.filter (λ p, unresolved at_ db p.1 p.2) (map_to_list (accounts db))).

(** Clears the slot and, when it was there, marks the intents resolved by it. *)
Definition ClearMismatchedCodexRecoveryAndMarkIntents (id user : uuid) (from : Z) (e : Ambient) (db : DB) : Z * DB :=
  match updateAccount id user (λ a, bool_decide (Coord a = Quarantined) && eqs from (RecoveryGeneration a))
          (λ a, touch (now e) (setRecovery None None None None a)) db with
  | (0, _) => (0, db)
  | (n, db') =>
      (n, setIntents (fmap (λ i,
            if bool_decide (IntentUserID i = user) && bool_decide (ProviderAccountID i = id) &&
               (FromGeneration i =? from) && bool_decide (State i = Reconciled)
            then setState Unrecoverable i else i)) db')
  end.

(** * Transactions *)
Abbreviation T := (Txn.T DB DbErr).
(** A statement on its own commits by itself. *)
Definition auto {A} (f : DB → result DbErr (A * DB)) : T A := Txn.stmt f ≫= λ x, Txn.Commit ≫= λ _, mret x.
Definition exec (f : DB → Z * DB) : T Z := auto (λ db, Ok (f db)).
Definition read {A} (f : DB → A) : T A := Txn.query f.

Definition AdmitCodexRefreshReuse (user account op : uuid) (from : Z) (e : Ambient) : T bool :=
  (* LockSecretMutation *) Txn.query (λ _, tt) ≫= λ _,
  Txn.query (LockCodexRefreshReuseAccount account user) ≫= λ found,
  if negb found then mret false else
  Txn.query (LockRotatingCodexRefreshIntent op user account from) ≫= λ rotating,
  if negb rotating then mret false else
  (* LeaseClockNow *) Txn.query (λ _, clock e) ≫= λ admittedAt,
  Txn.stmt (λ db, Ok (ConsumeCodexRefreshReuse user account op from admittedAt db)) ≫= λ n,
  if negb (n =? 1) then mret false else
  Txn.Commit ≫= λ _, mret true.

Inductive CodexRejectionOutcome := CodexRejectionNotApplied | CodexRejectionApplied.

Definition QuarantineRejectedCodexRefresh (user account op : uuid) (from : Z) (e : Ambient) : T CodexRejectionOutcome :=
  Txn.query (LockCodexAccountForRejection account user op from) ≫= λ held,
  if negb held then mret CodexRejectionNotApplied else
  Txn.query (LockRotatingCodexRefreshIntent op user account from) ≫= λ rotating,
  if negb rotating then mret CodexRejectionNotApplied else
  Txn.stmt (λ db, Ok (ApplyCodexRejectionQuarantine account user op from e db)) ≫= λ accountRows,
  Txn.stmt (λ db, Ok (MarkCodexRejectionIntentUnrecoverable op user account from db)) ≫= λ intentRows,
  if negb (accountRows =? 1) || negb (intentRows =? 1) then mret CodexRejectionNotApplied else
  Txn.Commit ≫= λ _, mret CodexRejectionApplied.

Definition quarantineCodexMaterialLoss (user account op : uuid) (from : Z) (e : Ambient) : T bool :=
  Txn.query (LockCodexAccountForRejection account user op from) ≫= λ held,
  if negb held then mret false else
  Txn.query (LockRotatingCodexRefreshIntent op user account from) ≫= λ rotating,
  if negb rotating then mret false else
  Txn.query (GetCodexProviderAccountByID account user) ≫= λ row,
  match row with
  | None => Txn.throw ErrNoRows
  | Some a =>
      Txn.stmt (λ db, Ok (QuarantineCodexAccount account user op e db)) ≫= λ n,
      if negb (n =? 1) && (negb (n =? 0) || negb (bool_decide (Coord a = Quarantined))) then mret false else
      Txn.stmt (λ db, Ok (MarkCodexRejectionIntentUnrecoverable op user account from db)) ≫= λ m,
      if negb (m =? 1) then mret false else
      Txn.Commit ≫= λ _, mret true
  end.

End CodexDb.
