(* ===== verification/CodexAuthz.v ===== *)
(** The authority of a worker over the Codex credential of a run
    ([src/api/internal/workersvc/codexauthz.go]): the capability of a claim, the
    predicates over the frozen binding, and the authorization of an operation.

    The two rows the authorization reads are requests; [sha256] is a parameter.  A
    nullable column is an option.  An error is the list of the sentinels its chain
    wraps; the texts are left out. *)

From Stdlib Require Import Ascii.
From S2P Require Import Prelude Result GoText GoStrings Prog CodexDb.

Local Open Scope Z_scope.

Module CodexAuthz.
Import CodexDb GoText GoStrings.

(** * Errors *)
Inductive sentinel :=
  | ErrCodexRunNotBound | ErrCodexScopeNotApplicable | ErrCodexCapabilityMismatch | ErrCodexCapabilityEpoch
  | ErrCodexWorkerMismatch | ErrCodexRunNotActivelyClaimed | ErrCodexMaterialRevisionStale
  | ErrCodexAccountKeyUnfrozen | ErrCodexAccountTupleMismatch | ErrCodexAccountRevisionStale
  | ErrCodexAccountQuarantined | ErrCodexKindModeMismatch
  | ErrCodexRefreshContended | ErrCodexRefreshQuarantined | ErrCodexRefreshUnrecoverable | ErrCodexRefreshNoClient
  | ErrCodexRefreshNoToken | ErrCodexRefreshRejected | ErrCodexVaultLocked | errCodexObservedAhead
  | errCodexVaultRecoveryPending | errCodexVaultRecoveryPersisted | errCodexRecoveryLost | errCodexRecoveryFenceLost
  | errVaultLocked | ErrVaultSealStale | ErrReaderFailure | ErrUndecryptable | errCredentialUnavailable
  | ErrCodexLoginBlob | ErrNotConfigured | ErrInvalidState | DeadlineExceeded
  | NoRows | Unique | Database | Other.
#[export] Instance sentinel_eq_dec : EqDecision sentinel.
Proof. solve_decision. Defined.

Definition error : Type := list sentinel.
(** [errors.Is] *)
Definition Is (e : error) (s : sentinel) : bool := bool_decide (s ∈ e).
Definition ofDb (e : DbErr) : error :=
  match e with ErrNoRows => [NoRows] | UniqueViolation => [Unique] | DatabaseError => [Database] end.

(** * Scopes and modes *)
Inductive CodexOpScope := ScopePersistRecovery | ScopeReleaseAccessToken | ScopeStartRefresh.
#[export] Instance CodexOpScope_eq_dec : EqDecision CodexOpScope.
Proof. solve_decision. Defined.

Definition codexAuthModeSubscription : string := "subscription".
Definition codexAuthModeAPIKey : string := "api_key".
Definition KindCodexAuth : string := "codex_auth".
Definition KindOpenAIAPIKey : string := "openai_api_key".

Definition appliesTo (s : CodexOpScope) (authMode : string) : bool :=
  match s with
  | ScopeReleaseAccessToken => String.eqb authMode codexAuthModeSubscription || String.eqb authMode codexAuthModeAPIKey
  | ScopePersistRecovery | ScopeStartRefresh => String.eqb authMode codexAuthModeSubscription
  end.

Definition codexActivelyClaimedStatuses : list string :=
  ["claimed"; "running"; "awaiting_approval"; "awaiting_input"; "awaiting_followup"; "limit_wait"; "recovery_wait"].

(** * The capability on the wire *)
Definition dot : ascii := ".".
Definition formatCodexCapability (epoch : Z) (plaintext : string) : string := itoa epoch +:+ String dot plaintext.

Definition parseCodexCapability (presented : string) : option (Z * string) :=
  match IndexByte presented dot with
  | None => None
  | Some n =>
      let head := stake n presented in let rest := sdrop (S n) presented in
      if String.eqb rest EmptyString then None
      else match Atoi head with Some ep => Some (ep, rest) | None => None end
  end.

(** * The identity tuple as one text

    [json.Marshal] of a string: quotes, backslashes, controls and the characters
    that are special in HTML or JavaScript are escaped, what is not UTF-8 becomes
    the replacement character. *)
Definition hexDigit (d : Z) : ascii := if d <? 10 then chr (48 + d) else chr (87 + d).
Definition backslash : ascii := "092".
Definition quote : ascii := "034".
Definition u4 (r : Z) : string :=
  String backslash (String "u" (str4 (hexDigit (r / 4096 mod 16)) (hexDigit (r / 256 mod 16)) (hexDigit (r / 16 mod 16)) (hexDigit (r mod 16)))).
Definition jsonChunk (c : chunk) : string :=
  let r := rune c in
  if badChunk c then u4 RuneError
  else if (r =? 34) || (r =? 92) then String backslash (raw c)
  else if r =? 8 then str2 backslash "b"
  else if r =? 12 then str2 backslash "f"
  else if r =? 10 then str2 backslash "n"
  else if r =? 13 then str2 backslash "r"
  else if r =? 9 then str2 backslash "t"
  else if (r <? 32) || (r =? 60) || (r =? 62) || (r =? 38) || (r =? 8232) || (r =? 8233) then u4 r
  else raw c.
Definition jsonString (s : string) : string :=
  String quote (foldr (λ c t, jsonChunk c +:+ t) (str1 quote) (runes s)).

Definition codexAccountKey (providerUserID workspaceAccountID : string) : string :=
  String "[" (jsonString providerUserID +:+ String "," (jsonString workspaceAccountID +:+ "]")).

(** * The predicates *)
Record GetRunCodexAuthContextRow := mkRow {
  CodexSecretID : option uuid;
  CodexAuthMode : option string;
  CodexAccountKey : option string;
  CodexMaterialRevision : option Z;
  CodexAccountRevision : option Z;
  CodexClaimEpoch : Z;
  CodexCapHash : string;
  WorkerID : option uuid;
  Status : string;
  ClaimReleasedAt : option time;
  CurrentMaterialRevision : Z;
  CurrentCredentialRevision : option Z;
  RowProviderUserID : option string;
  RowWorkspaceAccountID : option string;
  CurrentCoordState : option CoordState;
  BoundKind : string;
}.

Record codexReleaseInputs := mkInputs {
  authMode : string;
  boundKind : string;
  status : string;
  frozenMaterialRev : option Z;
  currentMaterialRev : option Z;
  frozenAccountKey : option string;
  currentProviderUserID : option string;
  currentWorkspaceAccountID : option string;
  frozenAccountRev : option Z;
  currentCredentialRev : option Z;
  coordState : option CoordState;
}.

Definition codexReleaseInputsFromAuthRow (row : GetRunCodexAuthContextRow) : codexReleaseInputs :=
  mkInputs (default EmptyString (CodexAuthMode row)) (BoundKind row) (Status row)
    (CodexMaterialRevision row) (Some (CurrentMaterialRevision row)) (CodexAccountKey row)
    (RowProviderUserID row) (RowWorkspaceAccountID row) (CodexAccountRevision row)
    (CurrentCredentialRevision row) (CurrentCoordState row).

Definition codexCheckKindMode (mode kind : string) : option error :=
  if String.eqb mode codexAuthModeSubscription then
    (if negb (String.eqb kind KindCodexAuth) then Some [ErrCodexKindModeMismatch] else None)
  else if String.eqb mode codexAuthModeAPIKey then
    (if negb (String.eqb kind KindOpenAIAPIKey) then Some [ErrCodexKindModeMismatch] else None)
  else Some [ErrCodexKindModeMismatch].

Definition codexCheckActivelyClaimed (st : string) : option error :=
  if negb (bool_decide (st ∈ codexActivelyClaimedStatuses)) then Some [ErrCodexRunNotActivelyClaimed] else None.

(** Two nullable numbers, both present and equal. *)
Definition same (a b : option Z) : bool :=
  match a, b with Some x, Some y => x =? y | _, _ => false end.

Definition codexCheckMaterialRev (i : codexReleaseInputs) : option error :=
  if negb (same (frozenMaterialRev i) (currentMaterialRev i)) then Some [ErrCodexMaterialRevisionStale] else None.

Definition codexCheckAccountTuple (i : codexReleaseInputs) : option error :=
  match frozenAccountKey i with
  | None => Some [ErrCodexAccountKeyUnfrozen]
  | Some frozen =>
    match currentProviderUserID i, currentWorkspaceAccountID i with
    | Some u, Some w => if negb (String.eqb frozen (codexAccountKey u w)) then Some [ErrCodexAccountTupleMismatch] else None
    | _, _ => Some [ErrCodexAccountTupleMismatch]
    end
  end.

(** The first error of two checks. *)
Definition orElse (a b : option error) : option error := match a with Some e => Some e | None => b end.

Definition evalCodexReleasePredicate (i : codexReleaseInputs) : option error :=
  orElse (codexCheckKindMode (authMode i) (boundKind i))
  (orElse (codexCheckActivelyClaimed (status i))
  (orElse (codexCheckMaterialRev i)
  (if String.eqb (authMode i) codexAuthModeSubscription then
     orElse (codexCheckAccountTuple i)
     (if negb (same (frozenAccountRev i) (currentCredentialRev i)) then Some [ErrCodexAccountRevisionStale]
      else if bool_decide (coordState i = Some Quarantined) then Some [ErrCodexAccountQuarantined] else None)
   else None))).

Definition evalCodexPersistRecoveryPredicate (i : codexReleaseInputs) : option error :=
  orElse (codexCheckActivelyClaimed (status i))
  (orElse (codexCheckMaterialRev i)
  (if String.eqb (authMode i) codexAuthModeSubscription then codexCheckAccountTuple i else None)).

(** * Authorizing an operation *)
Record Worker := mkWorker { ID : uuid; WorkerUserID : uuid; ProtocolCapabilities : list string }.
Record CodexAuthContext := mkAuth {
  Scope : CodexOpScope; AuthMode : string; AuthUserID : uuid; RunID : uuid; SecretID : uuid; AccountID : uuid }.

(** The reads: the run with its alias and account, and the account of an alias. *)
Inductive areq : Type → Type :=
  | GetRunCodexAuthContext (run : uuid) : areq (result DbErr GetRunCodexAuthContextRow)
  | GetCodexCredentialState (secret user : uuid) : areq (result DbErr (option uuid)).

Section Authorize.
Context (sha256 : string → string).

Definition hashCodexCapability (plaintext : string) : string := sha256 plaintext.

(** What the prelude finds wrong with the row that was read. *)
Definition preludeError (wkr : Worker) (presented : string) (scope : CodexOpScope) (row : GetRunCodexAuthContextRow) :
    option error :=
  match CodexSecretID row, CodexAuthMode row with
  | Some _, Some mode =>
    if negb (String.eqb mode codexAuthModeSubscription) && negb (String.eqb mode codexAuthModeAPIKey)
    then Some [ErrCodexRunNotBound]
    else if negb (bool_decide (WorkerID row = Some (ID wkr))) then Some [ErrCodexWorkerMismatch]
    else if negb (appliesTo scope mode) then Some [ErrCodexScopeNotApplicable]
    else match parseCodexCapability presented with
    | None => Some [ErrCodexCapabilityMismatch]
    | Some (ep, secret) =>
      if negb (ep =? CodexClaimEpoch row) then Some [ErrCodexCapabilityEpoch]
      else if String.eqb (CodexCapHash row) EmptyString then Some [ErrCodexCapabilityMismatch]
      else if negb (String.eqb (hashCodexCapability secret) (CodexCapHash row)) then Some [ErrCodexCapabilityMismatch]
      else match ClaimReleasedAt row with Some _ => Some [ErrCodexRunNotActivelyClaimed] | None => None end
    end
  | _, _ => Some [ErrCodexRunNotBound]
  end.

Definition codexCredentialPrelude (wkr : Worker) (run : uuid) (presented : string) (scope : CodexOpScope) :
    prog areq (result error GetRunCodexAuthContextRow) :=
  r ← call (GetRunCodexAuthContext run);
  match r with
  | Err ErrNoRows => Ret (Err [ErrCodexRunNotBound])
  | Err e => Ret (Err (ofDb e))
  | Ok row => match preludeError wkr presented scope row with Some e => Ret (Err e) | None => Ret (Ok row) end
  end.

(** The coordinates of the credential, and the error that refuses them; a deferred
    quarantine refuses with the coordinates filled in. *)
Definition noAuth (scope : CodexOpScope) : CodexAuthContext :=
  mkAuth scope EmptyString Uuid.Nil Uuid.Nil Uuid.Nil Uuid.Nil.

(** The account behind an authorized run, owner-scoped. *)
Definition resolve (wkr : Worker) (run : uuid) (scope : CodexOpScope) (row : GetRunCodexAuthContextRow)
    (decision : option error) : prog areq (CodexAuthContext * option error) :=
  let mode := default EmptyString (CodexAuthMode row) in
  let secret := default Uuid.Nil (CodexSecretID row) in
  if String.eqb mode codexAuthModeSubscription then
    st ← call (GetCodexCredentialState secret (WorkerUserID wkr));
    match st with
    | Err e => Ret (noAuth scope, Some (ofDb e))
    | Ok None => Ret (noAuth scope, Some [ErrCodexAccountKeyUnfrozen])
    | Ok (Some acct) => Ret (mkAuth scope mode (WorkerUserID wkr) run secret acct, decision)
    end
  else Ret (mkAuth scope mode (WorkerUserID wkr) run secret Uuid.Nil, decision).

Definition authorizeCodexCredentialOp (wkr : Worker) (run : uuid) (presented : string) (scope : CodexOpScope)
    (deferQuarantine : bool) : prog areq (CodexAuthContext * option error) :=
  r ← codexCredentialPrelude wkr run presented scope;
  match r with
  | Err e => Ret (noAuth scope, Some e)
  | Ok row =>
    let inputs := codexReleaseInputsFromAuthRow row in
    match match scope with
          | ScopePersistRecovery => evalCodexPersistRecoveryPredicate inputs
          | _ => evalCodexReleasePredicate inputs end with
    | Some e =>
        if deferQuarantine && bool_decide (scope = ScopeStartRefresh) && Is e ErrCodexAccountQuarantined
        then resolve wkr run scope row (Some e)
        else Ret (noAuth scope, Some e)
    | None => resolve wkr run scope row None
    end
  end.
End Authorize.

End CodexAuthz.
