(* ===== verification/CodexAuthority.v ===== *)
(** What the authority over a Codex credential means: an operation is authorized only
    for the worker that holds the live claim, with the secret of that claim, on the
    binding as it was frozen; the capability is read back as it was written, and the
    frozen identity as one text determines the identity. *)

From Stdlib Require Import Ascii.
From S2P Require Import Prelude Result GoText GoStrings GoSearch Prog CodexDb CodexAuthz.

Local Open Scope Z_scope.

Module CodexAuthority.
Import CodexDb GoText GoStrings CodexAuthz.

(** * Authorization *)
(** The answer of a program when each request [r] is told [h r]. *)
Fixpoint ask {R A} (h : ∀ X, R X → X) (p : prog R A) : A :=
  match p with Ret a => a | Vis r k => ask h (k (h _ r)) end.

(** The run is the worker's, by a claim that is live and whose secret it knows. *)
Record holdsClaim (sha256 : string → string) (wkr : Worker) (cap : string) (row : GetRunCodexAuthContextRow) : Prop := mkHolds {
  h_worker : WorkerID row = Some (ID wkr);
  h_claimed : ClaimReleasedAt row = None ∧ Status row ∈ codexActivelyClaimedStatuses;
  h_secret : ∃ secret, parseCodexCapability cap = Some (CodexClaimEpoch row, secret) ∧
    sha256 secret = CodexCapHash row ∧ CodexCapHash row ≠ ""%string;
}.

(** The binding is what was frozen, the revision of the account excepted in the scope
    of a recovery; of the quarantine of the account it says nothing. *)
Record boundAsFrozen (scope : CodexOpScope) (ctx : CodexAuthContext) (row : GetRunCodexAuthContextRow) : Prop := mkBound {
  b_secret : CodexSecretID row = Some (SecretID ctx) ∧ CodexAuthMode row = Some (AuthMode ctx);
  b_material : CodexMaterialRevision row = Some (CurrentMaterialRevision row);
  b_account : AuthMode ctx = codexAuthModeSubscription → ∃ u w, RowProviderUserID row = Some u ∧
    RowWorkspaceAccountID row = Some w ∧ CodexAccountKey row = Some (codexAccountKey u w);
  b_revision : AuthMode ctx = codexAuthModeSubscription → scope ≠ ScopePersistRecovery →
    ∃ r, CodexAccountRevision row = Some r ∧ CurrentCredentialRevision row = Some r;
}.

Section Authority.
Context (sha256 : string → string) (h : ∀ X, areq X → X).

Lemma prelude_holds wkr cap scope row : preludeError sha256 wkr cap scope row = None → Status row ∈ codexActivelyClaimedStatuses →
  holdsClaim sha256 wkr cap row ∧ ∃ secret mode, CodexSecretID row = Some secret ∧ CodexAuthMode row = Some mode ∧
    (mode = codexAuthModeSubscription ∨ mode = codexAuthModeAPIKey) ∧ appliesTo scope mode = true.
Proof.
  rewrite /preludeError. intros H Hst. destruct (CodexSecretID row) as [secret|]; [|done]. destruct (CodexAuthMode row) as [mode|]; [|done].
  destruct (_ && _) eqn:E1; [done|]. case_bool_decide as E2; cbn [negb] in H; [|done].
  destruct (appliesTo scope mode) eqn:E3; cbn [negb] in H; [|done]. destruct (parseCodexCapability cap) as [[ep sec]|] eqn:E5; [|done].
  destruct (Z.eqb_spec ep (CodexClaimEpoch row)) as [->|]; cbn [negb] in H; [|done]. destruct (String.eqb_spec (CodexCapHash row) EmptyString); [done|].
  destruct (String.eqb_spec (hashCodexCapability sha256 sec) (CodexCapHash row)); cbn [negb] in H; [|done].
  destruct (ClaimReleasedAt row) eqn:E4; [done|]. split.
  - constructor; [done|done|]. by exists sec.
  - exists secret, mode. split_and!; [done|done| |done]. apply andb_false_iff in E1 as [E|E]; apply negb_false_iff, String.eqb_eq in E; auto.
Qed.

Lemma same_eq a b : same a b = true → ∃ x, a = Some x ∧ b = Some x.
Proof. destruct a as [x|], b as [y|]; simpl; try done. intros ->%Z.eqb_eq. eauto. Qed.

Lemma orElse_None a b : orElse a b = None → a = None ∧ b = None.
Proof. by destruct a. Qed.

(** The release predicate, on every check. *)
Lemma claimed_active st : codexCheckActivelyClaimed st = None → st ∈ codexActivelyClaimedStatuses.
Proof. rewrite /codexCheckActivelyClaimed. by case_bool_decide. Qed.
Lemma material_frozen i : codexCheckMaterialRev i = None → ∃ x, frozenMaterialRev i = Some x ∧ currentMaterialRev i = Some x.
Proof. rewrite /codexCheckMaterialRev. destruct (same _ _) eqn:E; [|done]. intros _. by apply same_eq. Qed.
Lemma tuple_frozen i : codexCheckAccountTuple i = None → ∃ u w, currentProviderUserID i = Some u ∧ currentWorkspaceAccountID i = Some w ∧
  frozenAccountKey i = Some (codexAccountKey u w).
Proof.
  rewrite /codexCheckAccountTuple. destruct (frozenAccountKey i) as [k|]; [|done]. destruct (currentProviderUserID i) as [u|]; [|done].
  destruct (currentWorkspaceAccountID i) as [w|]; [|done]. destruct (String.eqb_spec k (codexAccountKey u w)) as [->|]; [|done]. eauto.
Qed.

(** What both predicates check. *)
Definition checked (i : codexReleaseInputs) (scope : CodexOpScope) : Prop :=
  status i ∈ codexActivelyClaimedStatuses ∧ (∃ x, frozenMaterialRev i = Some x ∧ currentMaterialRev i = Some x) ∧
  (authMode i = codexAuthModeSubscription →
    (∃ u w, currentProviderUserID i = Some u ∧ currentWorkspaceAccountID i = Some w ∧ frozenAccountKey i = Some (codexAccountKey u w)) ∧
    (scope ≠ ScopePersistRecovery → ∃ r, frozenAccountRev i = Some r ∧ currentCredentialRev i = Some r)).

Lemma release_checked i scope : evalCodexReleasePredicate i = None →
  checked i scope ∧ (authMode i = codexAuthModeSubscription → coordState i ≠ Some Quarantined).
Proof.
  rewrite /evalCodexReleasePredicate. intros (_ & (Ha%claimed_active & (Hm%material_frozen & H)%orElse_None)%orElse_None)%orElse_None.
  destruct (String.eqb_spec (authMode i) codexAuthModeSubscription) as [He|Hne]; last first.
  { split; [split_and!; [done|done|]|]; by intros ?. }
  apply orElse_None in H as [Ht%tuple_frozen H]. destruct (same _ _) eqn:Es; [|done]. cbn [negb] in H. case_bool_decide as Hq; [done|].
  split; [|done]. split_and!; [done|done|]. intros _. split; [done|]. intros _. by apply same_eq.
Qed.
(** The release predicate refuses a quarantined account last. *)
Lemma quarantined_checked i scope e : evalCodexReleasePredicate i = Some e → Is e ErrCodexAccountQuarantined = true → checked i scope.
Proof.
  rewrite /evalCodexReleasePredicate /Is bool_decide_eq_true.
  assert (∀ o b, orElse o b = Some e → (∀ e', o = Some e' → ErrCodexAccountQuarantined ∉ e') → ErrCodexAccountQuarantined ∈ e → o = None ∧ b = Some e) as Hor.
  { intros [e'|] b; simpl; [|done]. intros [= ->] Hn Hin. by destruct (Hn e). }
  intros H Hq. apply Hor in H as [_ H]; [|rewrite /codexCheckKindMode; intros e'; repeat case_match; intros [=]; set_solver|done].
  apply Hor in H as [Ha%claimed_active H]; [|rewrite /codexCheckActivelyClaimed; intros e'; repeat case_match; intros [=]; set_solver|done].
  apply Hor in H as [Hm%material_frozen H]; [|rewrite /codexCheckMaterialRev; intros e'; repeat case_match; intros [=]; set_solver|done].
  destruct (String.eqb_spec (authMode i) codexAuthModeSubscription) as [He|Hne]; [|done].
  apply Hor in H as [Ht%tuple_frozen H]; [|rewrite /codexCheckAccountTuple; intros e'; repeat case_match; intros [=]; set_solver|done].
  destruct (same _ _) eqn:Es; cbn [negb] in H; [|injection H as <-; set_solver].
  split_and!; [done|done|]. intros _. split; [done|]. intros _. by apply same_eq.
Qed.
Lemma persist_checked i : evalCodexPersistRecoveryPredicate i = None → checked i ScopePersistRecovery.
Proof.
  rewrite /evalCodexPersistRecoveryPredicate. intros (Ha%claimed_active & (Hm%material_frozen & H)%orElse_None)%orElse_None.
  split_and!; [done|done|]. intros He. rewrite He in H. by apply tuple_frozen in H.
Qed.

(** The coordinates, once the checks have passed. *)
Lemma resolved wkr run cap scope row decision ctx err : preludeError sha256 wkr cap scope row = None →
  checked (codexReleaseInputsFromAuthRow row) scope → ask h (resolve wkr run scope row decision) = (ctx, err) →
  err = None ∨ ctx ≠ noAuth scope →
  holdsClaim sha256 wkr cap row ∧ boundAsFrozen scope ctx row ∧ AuthUserID ctx = WorkerUserID wkr ∧ RunID ctx = run ∧ err = decision ∧
  (AuthMode ctx = codexAuthModeSubscription → h _ (GetCodexCredentialState (SecretID ctx) (WorkerUserID wkr)) = Ok (Some (AccountID ctx))).
Proof.
  intros Hp (Hst & (x & Hfm & Hcm) & Hsub) Hr Hok. simpl in Hst. destruct (prelude_holds _ _ _ _ Hp Hst) as [Hh (secret & mode & Hs & Hm & _ & _)].
  simpl in Hfm, Hcm, Hsub. rewrite Hm in Hsub. simpl in Hsub.
  assert (∀ c, AuthMode c = mode → SecretID c = secret → boundAsFrozen scope c row) as Hb.
  { intros c <- <-. constructor; [done|congruence|intros He; by destruct (Hsub He)|intros He; by destruct (Hsub He)]. }
  rewrite /resolve Hs Hm /= in Hr. destruct (String.eqb_spec mode codexAuthModeSubscription) as [He|Hne].
  - simpl in Hr. destruct (h _ _) as [[acct|]|e] eqn:Eh; [|injection Hr as <- <-; by destruct Hok..].
    injection Hr as <- <-. split_and!; [done|by apply Hb|done|done|done|]. by intros _.
  - injection Hr as <- <-. split_and!; [done|by apply Hb|done|done|done|]. by intros ?.
Qed.

(** C19. An authorization that hands out the coordinates of a credential hands out
    those of the worker's owner, for a run that this worker holds by a live claim
    whose secret it has presented, with the material and the identity of the account as
    they were frozen.  In every scope but [ScopePersistRecovery], whose predicate asks
    for neither, the revision of the account is the frozen one as well, and without an
    error the account is not quarantined.  With an error there are coordinates only at
    the start of a refresh whose quarantine was to be deferred. *)
Theorem codex_authorized wkr run cap scope d ctx err :
  ask h (authorizeCodexCredentialOp sha256 wkr run cap scope d) = (ctx, err) → err = None ∨ ctx ≠ noAuth scope →
  ∃ row, h _ (GetRunCodexAuthContext run) = Ok row ∧ holdsClaim sha256 wkr cap row ∧ boundAsFrozen scope ctx row ∧
    AuthUserID ctx = WorkerUserID wkr ∧ RunID ctx = run ∧
    (AuthMode ctx = codexAuthModeSubscription → h _ (GetCodexCredentialState (SecretID ctx) (WorkerUserID wkr)) = Ok (Some (AccountID ctx))) ∧
    match err with
    | None => AuthMode ctx = codexAuthModeSubscription → scope ≠ ScopePersistRecovery → CurrentCoordState row ≠ Some Quarantined
    | Some e => d = true ∧ scope = ScopeStartRefresh ∧ Is e ErrCodexAccountQuarantined = true
    end.
Proof.
  rewrite /authorizeCodexCredentialOp /codexCredentialPrelude /=. intros H Hok.
  assert (∀ e, ask h (Ret (noAuth scope, Some e)) = (ctx, err) → False) as Hno by (intros e [= <- <-]; by destruct Hok).
  destruct (h _ (GetRunCodexAuthContext run)) as [row|[]]; [|by destruct (Hno _ H)..]. exists row. split; [done|].
  destruct (preludeError sha256 wkr cap scope row) as [e|] eqn:Hp; [by destruct (Hno _ H)|]. simpl in H.
  destruct (match scope with ScopePersistRecovery => _ | _ => _ end) as [e|] eqn:Ed.
  - destruct (_ && _ && _) eqn:Ec; [|by destruct (Hno _ H)]. rewrite !andb_true_iff bool_decide_eq_true in Ec. destruct Ec as ((-> & ->) & Hq).
    destruct (resolved wkr run cap _ row _ ctx err Hp (quarantined_checked _ _ _ Ed Hq) H Hok) as (? & ? & ? & ? & -> & ?). by split_and!.
  - assert (checked (codexReleaseInputsFromAuthRow row) scope ∧
      (scope ≠ ScopePersistRecovery → authMode (codexReleaseInputsFromAuthRow row) = codexAuthModeSubscription → CurrentCoordState row ≠ Some Quarantined))
      as [Hc Hnq].
    { destruct scope; [split; [by apply persist_checked|done]|..]; (edestruct release_checked as [Hc Hn]; [exact Ed|]; split; [exact Hc|]; intros _; exact Hn). }
    destruct (resolved wkr run cap _ row _ ctx err Hp Hc H Hok) as (? & Hb & ? & ? & -> & ?). split_and!; [done..|].
    intros He Hs. apply Hnq; [done|]. simpl. destruct (b_secret _ _ _ Hb) as [_ ->]. done.
Qed.
End Authority.

(** * The capability *)
Lemma digits_no_dot s acc z : digits acc s = Some z → IndexByte s dot = None.
Proof.
  revert acc. induction s as [|c s IH]; intros acc; [done|]. cbn [digits IndexByte]. destruct (digit c) as [d|] eqn:E; [|done].
  intros H. rewrite (IH _ H). destruct (Ascii.eqb_spec c dot) as [->|]; [done|]. done.
Qed.

(** A capability is read back as the epoch and the secret it was written from. *)
Theorem codex_capability_roundtrip epoch secret : 0 <= epoch < 2 ^ 63 → secret ≠ ""%string →
  parseCodexCapability (formatCodexCapability epoch secret) = Some (epoch, secret).
Proof.
  intros He Hs. rewrite /parseCodexCapability /formatCodexCapability GoSearch.IndexByte_app.
  { destruct (unsigned_itoa epoch) as [Hu _]; [lia|]. rewrite /unsigned in Hu. destruct (String.eqb _ _); [done|]. by eapply digits_no_dot. }
  rewrite GoSearch.stake_app. replace (sdrop (S (String.length (itoa epoch))) (itoa epoch +:+ String dot secret)) with secret.
  - destruct (String.eqb_spec secret EmptyString); [done|]. by rewrite Atoi_itoa.
  - induction (itoa epoch) as [|c s IH]; [done|]. rewrite sapp_cons. exact IH.
Qed.

(** * The identity as one text *)
(** How a rune is escaped, if it is. *)
Definition escaped (r : Z) : option string :=
  if (r =? 34) || (r =? 92) then Some (String backslash (str1 (chr r)))
  else if r =? 8 then Some (str2 backslash "b") else if r =? 12 then Some (str2 backslash "f")
  else if r =? 10 then Some (str2 backslash "n") else if r =? 13 then Some (str2 backslash "r")
  else if r =? 9 then Some (str2 backslash "t")
  else if (r <? 32) || (r =? 60) || (r =? 62) || (r =? 38) || (r =? 8232) || (r =? 8233) then Some (u4 r)
  else None.
Definition escapes : list Z := seqZ 0 32 ++ [34; 38; 60; 62; 92; 8232; 8233].

Lemma jsonChunk_proper c : proper c → jsonChunk c = default (raw c) (escaped (rune c)).
Proof.
  intros Hp. rewrite /jsonChunk /escaped proper_not_bad //. destruct Hp as [Hv Hr]. destruct (_ || _) eqn:E; [|by repeat case_match].
  simpl. f_equal. rewrite Hr /encodeRune Hv. assert (rune c <? 128 = true) as -> by lia. done.
Qed.
Lemma escaped_in r e : 0 <= r → escaped r = Some e → r ∈ escapes.
Proof.
  intros Hr. rewrite /escaped /escapes elem_of_app elem_of_seqZ. intros H.
  destruct (decide (r < 32)); [left; lia|right].
  assert (r = 34 ∨ r = 38 ∨ r = 60 ∨ r = 62 ∨ r = 92 ∨ r = 8232 ∨ r = 8233) by (repeat case_match; try done; lia). set_solver.
Qed.
Lemma escapes_apart : forallb (λ r, forallb (λ r', (r =? r') || negb (String.prefix (default ""%string (escaped r)) (default ""%string (escaped r')))) escapes) escapes = true.
Proof. vm_compute. reflexivity. Qed.

(** Two texts with the same continuation: one is a prefix of the other. *)
Lemma app_prefix a b t t' : a +:+ t = b +:+ t' → String.prefix a b = true ∨ String.prefix b a = true.
Proof.
  revert b. induction a as [|c a IH]; intros b; [intros _; left; by destruct b|]. destruct b as [|c' b]; [intros _; by right|]. rewrite !sapp_cons. intros [= <- H].
  simpl. destruct (Ascii.ascii_dec c c); [by apply IH|done].
Qed.
Lemma sapp_cancel a t t' : a +:+ t = a +:+ t' → t = t'.
Proof. induction a as [|c a IH]; [done|]. rewrite !sapp_cons. intros [= H]. by apply IH. Qed.

Lemma proper_rune c c' : proper c → proper c' → rune c = rune c' → c = c'.
Proof. intros H H' E. by rewrite -(proper_enc_rune c) // -(proper_enc_rune c') // E. Qed.
Lemma escaped_apart c c' e e' t t' : proper c → proper c' → escaped (rune c) = Some e → escaped (rune c') = Some e' →
  e +:+ t = e' +:+ t' → c = c'.
Proof.
  intros Hp Hp' He He' Ht. assert (∀ c, proper c → 0 <= rune c) as Hnn by (intros x [Hv _]; rewrite /ValidRune in Hv; lia).
  pose proof escapes_apart as Ha. rewrite forallb_forall in Ha.
  assert (∀ r r' x x', escaped r = Some x → escaped r' = Some x' → 0 <= r → 0 <= r' → String.prefix x x' = true → r = r') as Hx.
  { intros r r' x x' Hr Hr' H0 H0' Hpre. specialize (Ha r (proj1 (list_elem_of_In _ _) (escaped_in _ _ H0 Hr))). rewrite forallb_forall in Ha.
    specialize (Ha r' (proj1 (list_elem_of_In _ _) (escaped_in _ _ H0' Hr'))). rewrite Hr Hr' /= Hpre orb_false_r in Ha. by apply Z.eqb_eq. }
  apply proper_rune; [done|done|]. apply app_prefix in Ht as [H|H]; [by eapply Hx; eauto|symmetry; by eapply Hx; eauto].
Qed.

(** A chunk and what follows it, from their text. *)
Lemma raw_split c t : proper c → runes (raw c +:+ t) = c :: runes t.
Proof. intros Hp. pose proof (runes_app [c] t) as H. rewrite /= sapp_nil in H. by apply H; constructor. Qed.
Lemma escaped_head r e : escaped r = Some e → ∃ e', e = String backslash e'.
Proof. rewrite /escaped. repeat case_match; intros [= <-]; rewrite /u4 /str2; eauto. Qed.
Lemma raw_not c t a x : proper c → byteOf a < 128 → raw c +:+ t = String a x → rune c = byteOf a.
Proof. intros Hp Ha H. pose proof (raw_split c t Hp) as Hr. rewrite H runes_ascii // in Hr. by injection Hr as <- _. Qed.

Lemma chunk_split c c' t t' : proper c → proper c' → jsonChunk c +:+ t = jsonChunk c' +:+ t' → c = c' ∧ t = t'.
Proof.
  intros Hp Hp'. rewrite !jsonChunk_proper //.
  assert (∀ c c' e t t', proper c' → escaped (rune c) = Some e → escaped (rune c') = None → e +:+ t = raw c' +:+ t' → False) as Hmix.
  { intros x x' e y y' Hx He He' H. destruct (escaped_head _ _ He) as [e1 ->]. rewrite sapp_cons in H.
    rewrite (raw_not x' y' backslash (e1 +:+ y)) in He'; [done|done|by symmetry|done]. }
  destruct (escaped (rune c)) as [e|] eqn:E, (escaped (rune c')) as [e'|] eqn:E'; simpl; intros H.
  - pose proof (escaped_apart _ _ _ _ _ _ Hp Hp' E E' H) as ->. split; [done|]. rewrite E in E'. injection E' as ->. by eapply sapp_cancel.
  - by destruct (Hmix c c' e t t').
  - by destruct (Hmix c' c e' t' t).
  - pose proof (raw_split c t Hp) as Hr. rewrite H raw_split // in Hr. injection Hr as -> Hr. split; [done|].
    by rewrite -(bytes_runes t) -(bytes_runes t') Hr.
Qed.
Lemma chunk_quote c t x : proper c → jsonChunk c +:+ t ≠ String quote x.
Proof.
  intros Hp. rewrite jsonChunk_proper //. destruct (escaped (rune c)) as [e|] eqn:E; simpl.
  - destruct (escaped_head _ _ E) as [e' ->]. by rewrite sapp_cons.
  - intros H. by rewrite (raw_not c t quote x) in E.
Qed.

Lemma quoted_split l l' x x' : Forall proper l → Forall proper l' →
  foldr (λ c t, jsonChunk c +:+ t) (String quote x) l = foldr (λ c t, jsonChunk c +:+ t) (String quote x') l' → l = l' ∧ x = x'.
Proof.
  intros Hl. revert l'. induction Hl as [|c l Hc _ IH]; intros l' Hl'; destruct Hl' as [|c' l' Hc' Hl']; simpl; intros H.
  - by injection H as ->.
  - by destruct (chunk_quote c' (foldr (λ c t, jsonChunk c +:+ t) (String quote x') l') x).
  - by destruct (chunk_quote c (foldr (λ c t, jsonChunk c +:+ t) (String quote x) l) x').
  - apply chunk_split in H as [-> H]; [|done|done]. by destruct (IH _ Hl' H) as [-> ->].
Qed.
Lemma jsonString_app s x : jsonString s +:+ x = String quote (foldr (λ c t, jsonChunk c +:+ t) (String quote x) (runes s)).
Proof.
  rewrite /jsonString sapp_cons. f_equal. induction (runes s) as [|c l IH]; [done|]. simpl. by rewrite sapp_assoc IH.
Qed.

(** The account key a run has frozen is the key of one identity: for identities
    that are UTF-8 texts, equal keys mean the same provider user and workspace. *)
Theorem codex_account_key_injective u w u' w' :
  ValidString u = true → ValidString w = true → ValidString u' = true → ValidString w' = true →
  codexAccountKey u w = codexAccountKey u' w' → u = u' ∧ w = w'.
Proof.
  intros Hu%ValidString_proper Hw%ValidString_proper Hu'%ValidString_proper Hw'%ValidString_proper. rewrite /codexAccountKey !jsonString_app.
  intros [= H]. apply quoted_split in H as [Hru [= H]]; [|done|done]. apply quoted_split in H as [Hrw _]; [|done|done].
  by rewrite -(bytes_runes u) -(bytes_runes w) Hru Hrw !bytes_runes.
Qed.
End CodexAuthority.
