(* ===== verification/CodexRefresh.v ===== *)
(** The coordinated refresh of a Codex login
    ([src/api/internal/workersvc/codexrefresh.go], [codexaccountreader.go],
    [codex_vault_write.go]): the refresh a worker asks for, the release of a token,
    the survivor pass over interrupted refreshes and the background writer of
    recovery material, as programs over what they ask of the database, the vault,
    the provider and the clock.

    A login is the document its sealed bytes hold; what a worker is told beside an
    error (the account-hold hint) and the timing log are left out.  Encoding a login
    cannot fail.  A context that has ended shows as the failure of a request. *)

From S2P Require Import Prelude Result GoText GoStrings Prog Txn CodexDb CodexAuthz.

Local Open Scope Z_scope.

Module CodexRefresh.
Import CodexDb CodexAuthz.

(** * Data *)
Record codexLoginBlob := mkLogin { AccessToken : string; RefreshToken : string }.
#[export] Instance codexLoginBlob_eq_dec : EqDecision codexLoginBlob.
Proof. solve_decision. Defined.

(** [codexauth]: the answer to an exchange, the identity of a token, the errors. *)
Record FreshAccessTokenIdentityClaims := mkClaims { ChatGPTAccountID : string; ChatGPTUserID : string; ClaimAuthUserID : string }.
Record RefreshResult := mkRefreshed {
  NewAccessToken : string; NewRefreshToken : option string; IdentityClaims : FreshAccessTokenIdentityClaims }.
Record Identity := mkIdentity { IdProviderUserID : string; IdWorkspaceAccountID : string }.
Record AuthError := mkAuthError { Op : string; StatusCode : Z; OAuthCode : string }.
Inductive RefreshError := AuthErr (e : AuthError) | Transport.

Definition RefreshMaterialRejected (e : AuthError) : bool :=
  String.eqb (Op e) "refresh" && ((StatusCode e =? 400) || (StatusCode e =? 401)) &&
  bool_decide (OAuthCode e ∈ ["refresh_token_expired"; "refresh_token_reused"; "refresh_token_invalidated"; "invalid_grant"]%string).
Definition rejected (e : RefreshError) : bool := match e with AuthErr a => RefreshMaterialRejected a | Transport => false end.

Definition mergeCodexLogin (prev : codexLoginBlob) (r : RefreshResult) : codexLoginBlob :=
  mkLogin (NewAccessToken r) (default (RefreshToken prev) (NewRefreshToken r)).

Inductive codexFreshIdentityVerdict := codexFreshIdentityUnverified | codexFreshIdentityMatch | codexFreshIdentityMismatch.

Definition classifyCodexFreshIdentity (a : CodexProviderAccount) (c : FreshAccessTokenIdentityClaims) : codexFreshIdentityVerdict :=
  if String.eqb (ChatGPTUserID c) "" || String.eqb (ClaimAuthUserID c) "" || negb (String.eqb (ChatGPTUserID c) (ClaimAuthUserID c))
  then codexFreshIdentityUnverified
  else if negb (String.eqb (ChatGPTUserID c) (ProviderUserID a)) then codexFreshIdentityMismatch
  else if String.eqb (ChatGPTAccountID c) "" || negb (String.eqb (ChatGPTAccountID c) (WorkspaceAccountID a))
  then codexFreshIdentityUnverified
  else codexFreshIdentityMatch.

(** [vault]: what sealing returns, with the mode and epoch it was done under. *)
Inductive SealPurpose := SealForUse | SealForRecovery.
Record SealedMaterial := mkSealed {
  Ciphertext : string; SealedUnder : string; Mode : string; Epoch : Z; RecoveryMaster : bool }.
Inductive VaultErr := VaultLocked | VaultOther.
Definition VaultModeUnprotected : string := "unprotected".
Definition VaultModeProtected : string := "protected".
(** A protocol capability of workers. *)
Definition CodexRefreshRecoveryV1 : string := "codex_refresh_recovery_v1".
(** [secretopen.OpenSealedAtEpoch] *)
Inductive OpenErr := SealStale | OpenLocked | Undecryptable | ReaderFailure.

Inductive CodexRefreshOutcome :=
  | CodexRefreshOutcomeUnknown | CodexRefreshAdvanced | CodexRefreshReplayed | CodexRefreshReconciled
  | CodexRefreshContended | CodexRefreshQuarantined.
Record CodexRefreshResult := mkResult {
  ResAccessToken : string; ResGeneration : Z; ResAccountID : string; Outcome : CodexRefreshOutcome }.
Definition only (o : CodexRefreshOutcome) : CodexRefreshResult := mkResult "" 0 "" o.
Definition none : CodexRefreshResult := only CodexRefreshOutcomeUnknown.
Record CodexReleaseResult := mkRelease {
  RelAuthMode : string; RelAccessToken : string; RelGeneration : option Z; RelAccountID : string }.
Definition noRelease : CodexReleaseResult := mkRelease "" "" None "".

Definition codexRefreshLeaseTTL : duration := 7 * Go.Second.
Definition codexRefreshResponseReserve : duration := 500 * Go.Millisecond.
Definition codexRefreshCommitReserve : duration := Go.Second.
Definition codexRecoverySlotWriteTimeout : duration := 5 * Go.Second.
(** [vault.LifecycleTimeout] *)
Definition lifecycleTimeout : duration := 2 * Go.Minute.
Definition codexRecoverySlotBgWriteTimeout : duration := lifecycleTimeout + 15 * Go.Second.
Definition codexRecoverySlotSyncAttempts : nat := 2.
Definition codexRecoverySlotBgAttempts : nat := 6.
Definition codexRecoverySlotRetryBackoff : duration := 20 * Go.Millisecond.
Definition codexRefreshReuseInFlightBound : duration :=
  codexRefreshLeaseTTL + Z.of_nat codexRecoverySlotSyncAttempts * codexRecoverySlotWriteTimeout +
  Z.of_nat codexRecoverySlotBgAttempts * codexRecoverySlotBgWriteTimeout +
  (Z.of_nat codexRecoverySlotSyncAttempts - 1 + Z.of_nat codexRecoverySlotBgAttempts) * codexRecoverySlotRetryBackoff +
  codexRecoverySlotWriteTimeout.

(** * Requests

    An exchange names, beside the token the client sees, the account, generation and
    operation it is made for and whether it is the admitted retry. *)
Record Exchange := mkExchange { xAccount : uuid; xGeneration : Z; xOperation : uuid; xReuse : bool }.

(** Recovery material to be written: who owns it and which terminal transition
    follows when it cannot be. *)
Record Job := mkJob {
  jUser : uuid; jAccount : uuid; jOp : uuid; jGen : Z; jRaw : codexLoginBlob; jCause : option string; jReuse : bool }.

Inductive req : Type → Type :=
  | TX {A : Type} (m : Ambient → T A) : req (result DbErr A)
  | Authz {A : Type} (r : areq A) : req A
  (** [time.Now], what is left of the context, whether it has ended *)
  | Now : req time
  | Remaining : req (option duration)
  | CtxErr : req bool
  (** [beginReadCommitted], [LockSecretMutation], [LockUserVaultState] *)
  | LockVault (user : uuid) : req (result DbErr (string * Z))
  | Seal (user : uuid) (raw : codexLoginBlob) (p : SealPurpose) : req (result VaultErr SealedMaterial)
  | FenceVaultWrite (user : uuid) (mode : string) (epoch : Z) : req (result DbErr unit)
  | VaultState (user : uuid) : req (result VaultErr string)
  | RequiresUnlock (user : uuid) : req bool
  | OpenSealedAtEpoch (user : uuid) (marker ct : string) (epoch : Z) : req (result OpenErr (option codexLoginBlob))
  | OpenByIDOfKind (user secret : uuid) : req (result OpenErr string)
  | Refresh (x : Exchange) (token : string) : req (result RefreshError RefreshResult)
  | DiscoverIdentity (token : string) : req (option Identity)
  | Background (j : Job) : req unit.

(** The seams of the service that may be left unwired. *)
Record Service := mkService { vlt : bool; txBeginner : bool; codexRefresh : bool; background : bool }.

Section Refresh.
Context (sha256 : string → string) (s : Service).

Abbreviation P := (prog req).
(** A statement or query; an error is a database error. *)
Definition db {A} (m : Ambient → T A) : P (result DbErr A) := call (TX m).
Definition updateDb (f : Ambient → DB → Z * DB) : P (result DbErr Z) := db (λ e, exec (f e)).

(** * Reading an account *)
Record codexAccountSnapshot := mkSnapshot { SnapID : uuid; Acct : CodexProviderAccount; VaultEpoch : Z }.

Definition readCodexAccountSnapshot (user id : uuid) : P (result error codexAccountSnapshot) :=
  r ← db (λ _, read (GetCodexProviderAccountSnapshot user id));
  match r with
  | Err ErrNoRows => Ret (Err [NoRows])
  | Err e => Ret (Err (ErrReaderFailure :: ofDb e))
  | Ok None => Ret (Err [NoRows])
  | Ok (Some (a, ep)) =>
      if negb (bool_decide (UserID a = user)) then Ret (Err [ErrVaultSealStale]) else Ret (Ok (mkSnapshot id a ep))
  end.

Definition codexAccountMarkerValid (m : string) : bool := bool_decide (m ∈ ["master"; "master_aad"; "dek"]%string).

(** [len(b) == 0] of a nullable byte string. *)
Definition emptyBytes (o : option string) : bool := match o with Some c => String.eqb c "" | None => true end.

(** The account without the four columns a conversion of the vault rewrites. *)
Definition authority (a : CodexProviderAccount) : CodexProviderAccount :=
  mkAccount (UserID a) (ProviderUserID a) (WorkspaceAccountID a) "" "" (Generation a) (CredentialRevision a)
    None (RecoveryGeneration a) None (RecoveryCause a) (Coord a) (CoordOperationID a) (LeaseDeadline a)
    (CommittedGeneration a) (UpdatedAt a) (ReauthRequired a) (ReauthGeneration a) (ReauthCredentialRevision a) (ReauthReason a).

Definition codexSameAccountAuthority (a b : CodexProviderAccount) : bool :=
  if negb (Bool.eqb (String.eqb (SealedLogin a) "") (String.eqb (SealedLogin b) "")) ||
     negb (Bool.eqb (emptyBytes (RecoverySealed a)) (emptyBytes (RecoverySealed b))) ||
     negb (codexAccountMarkerValid (SealedWith a)) || negb (codexAccountMarkerValid (SealedWith b)) then false
  else if negb (Bool.eqb (isNull (RecoverySealedWith a)) (isNull (RecoverySealedWith b))) ||
     negb (Bool.eqb (negb (emptyBytes (RecoverySealed a))) (negb (isNull (RecoverySealedWith a)))) ||
     negb (Bool.eqb (negb (emptyBytes (RecoverySealed b))) (negb (isNull (RecoverySealedWith b)))) then false
  else if negb (emptyBytes (RecoverySealed a)) &&
     (isNull (RecoverySealedWith a) || isNull (RecoverySealedWith b) ||
      negb (codexAccountMarkerValid (default ""%string (RecoverySealedWith a))) ||
      negb (codexAccountMarkerValid (default ""%string (RecoverySealedWith b)))) then false
  else bool_decide (authority a = authority b).

Definition openRow (owner : uuid) (recovery : bool) (row : codexAccountSnapshot) : P (result OpenErr (option codexLoginBlob)) :=
  let a := Acct row in
  match (if recovery then match RecoverySealedWith a with
                          | None => None
                          | Some m => Some (m, default ""%string (RecoverySealed a)) end
         else Some (SealedWith a, SealedLogin a)) with
  | None => Ret (Err Undecryptable)
  | Some (marker, ct) =>
      if negb (codexAccountMarkerValid marker) || String.eqb ct "" then Ret (Err Undecryptable)
      else call (OpenSealedAtEpoch owner marker ct (VaultEpoch row))
  end.

(** The errors of an open, and the document it must spell. *)
Definition opened (r : result OpenErr (option codexLoginBlob)) : result error codexLoginBlob :=
  match r with
  | Err OpenLocked => Err [errVaultLocked]
  | Err Undecryptable => Err [errCredentialUnavailable]
  | Err SealStale => Err [ErrVaultSealStale]
  | Err ReaderFailure => Err [ErrReaderFailure]
  | Ok None => Err [ErrCodexLoginBlob]
  | Ok (Some l) => if String.eqb (AccessToken l) "" then Err [ErrCodexLoginBlob] else Ok l
  end.

Definition openCodexAccountSlot (owner : uuid) (snap : codexAccountSnapshot) (recovery : bool) : P (result error codexLoginBlob) :=
  if negb (bool_decide (UserID (Acct snap) = owner)) then Ret (Err [ErrVaultSealStale]) else
  r ← openRow owner recovery snap;
  match r with
  | Err SealStale =>
      f ← readCodexAccountSnapshot owner (SnapID snap);
      match f with
      | Err e => Ret (Err (if Is e NoRows then [ErrVaultSealStale] else e))
      | Ok fresh =>
          if negb (codexSameAccountAuthority (Acct snap) (Acct fresh)) then Ret (Err [ErrVaultSealStale])
          else r' ← openRow owner recovery fresh; Ret (opened r')
      end
  | _ => Ret (opened r)
  end.
Definition openCodexAccountLogin (owner : uuid) (snap : codexAccountSnapshot) : P (result error codexLoginBlob) :=
  openCodexAccountSlot owner snap false.

(** * Writing material under the vault's fence *)
Definition withCodexVaultWrite {A} (user : uuid) (raw : codexLoginBlob) (purpose : SealPurpose)
    (write : SealedMaterial → Ambient → T (result error A)) : P (result error A) :=
  if negb (vlt s) then Ret (Err [ErrNotConfigured]) else
  if negb (txBeginner s) then Ret (Err [Other]) else
  st ← call (LockVault user);
  match st with
  | Err e => Ret (Err (ofDb e))
  | Ok (mode, epoch) =>
    sl ← call (Seal user raw purpose);
    match sl with
    | Err VaultLocked => Ret (Err [errVaultLocked])
    | Err VaultOther => Ret (Err [Other])
    | Ok sealed =>
      if negb (String.eqb (Mode sealed) mode) || negb (Epoch sealed =? epoch) then Ret (Err [ErrInvalidState]) else
      f ← call (FenceVaultWrite user (Mode sealed) (Epoch sealed));
      match f with
      | Err e => Ret (Err (ofDb e))
      | Ok _ =>
        r ← db (λ e, write sealed e ≫= λ x,
                     match x with Err er => mret (Err er) | Ok a => Txn.Commit ≫= λ _, mret (Ok a) end);
        match r with Err e => Ret (Err (ofDb e)) | Ok x => Ret x end
      end
    end
  end.

(** A statement that returns the new generation, or no row. *)
Definition oneRow (f : DB → result DbErr (option Z * DB)) : T (result error Z) :=
  Txn.stmt f ≫= λ r, match r with Some g => mret (Ok g) | None => mret (Err [NoRows]) end.

Definition writeCodexRecoverySlotOnce (j : Job) : P (result error unit) :=
  withCodexVaultWrite (jUser j) (jRaw j) SealForRecovery (λ sealed e,
    let cause := if String.eqb (Mode sealed) VaultModeUnprotected then None
                 else if RecoveryMaster sealed then Some "vault_locked"%string else jCause j in
    Txn.stmt (λ d, Ok (SetCodexRecoverySlot
        (mkSlot (Ciphertext sealed) (Some (SealedUnder sealed)) cause (jGen j) (jAccount j) (jUser j) (jOp j)) e d)) ≫= λ n,
    if negb (n =? 1) then mret (Err [errCodexRecoveryFenceLost]) else mret (Ok tt)).

Definition recordCodexMaterialLoss (user account op : uuid) (from : Z) : P unit :=
  if negb (txBeginner s) then Ret tt else
  _ ← db (quarantineCodexMaterialLoss user account op from); Ret tt.

Definition markCodexReuseUnrecoverable (user account op : uuid) (from : Z) : P unit :=
  _ ← updateDb (λ _, SetCodexRefreshReuseUnrecoverable user account op from); Ret tt.

(** The transition that ends an operation whose material is lost. *)
Definition terminal (j : Job) : P unit :=
  if jReuse j then markCodexReuseUnrecoverable (jUser j) (jAccount j) (jOp j) (jGen j)
  else recordCodexMaterialLoss (jUser j) (jAccount j) (jOp j) (jGen j).

(** The retrier that [s.background] runs. *)
Fixpoint backgroundWrites (attempts : nat) (j : Job) : P unit :=
  match attempts with
  | O => terminal j
  | S n =>
      r ← writeCodexRecoverySlotOnce j;
      match r with
      | Ok _ => Ret tt
      | Err e => if Is e errCodexRecoveryFenceLost then Ret tt else backgroundWrites n j
      end
  end.

Fixpoint syncWrites (attempts : nat) (j : Job) : P (option (result error unit)) :=
  match attempts with
  | O => Ret None
  | S n =>
      r ← writeCodexRecoverySlotOnce j;
      match r with
      | Ok _ => Ret (Some (Ok tt))
      | Err e => if Is e errCodexRecoveryFenceLost then Ret (Some (Err e)) else syncWrites n j
      end
  end.

(** Whether the slot was written, or the job was handed on. *)
Definition persistCodexRecoverySlotWithTerminal (j : Job) : P (result error bool) :=
  r ← syncWrites codexRecoverySlotSyncAttempts j;
  match r with
  | Some (Ok _) => Ret (Ok true)
  | Some (Err e) => Ret (Err e)
  | None =>
      if negb (background s) then Ret (Err [errCodexRecoveryLost])
      else _ ← call (Background j); Ret (Ok false)
  end.

(** * The refresh *)
Definition codexReturnCommitted (user : uuid) (snap : codexAccountSnapshot) (outcome : CodexRefreshOutcome) :
    P (CodexRefreshResult * option error) :=
  let a := Acct snap in
  if bool_decide (Coord a = Quarantined) then Ret (only CodexRefreshQuarantined, Some [ErrCodexRefreshQuarantined]) else
  r ← openCodexAccountLogin user snap;
  match r with
  | Err e => Ret (none, Some e)
  | Ok l => Ret (mkResult (AccessToken l) (Generation a) (WorkspaceAccountID a) outcome, None)
  end.

(** What an intent of this operation that is already there says. *)
Definition replayIntent (user account : uuid) (snap : codexAccountSnapshot) (i : CodexRefreshIntent) :
    P (CodexRefreshResult * option error) :=
  if negb (bool_decide (ProviderAccountID i = account)) then Ret (none, Some [ErrCodexRefreshContended]) else
  match State i with
  | Committed | Reconciled => codexReturnCommitted user snap CodexRefreshReplayed
  | Unrecoverable => Ret (only CodexRefreshQuarantined, Some [ErrCodexRefreshUnrecoverable])
  | Rotating =>
      if FromGeneration i <? Generation (Acct snap) then codexReturnCommitted user snap CodexRefreshReconciled
      else Ret (only CodexRefreshContended, Some [ErrCodexRefreshContended])
  end.

Definition codexReplayAfterDuplicate (user account op : uuid) : P (CodexRefreshResult * option error) :=
  a ← readCodexAccountSnapshot user account;
  match a with
  | Err e => Ret (none, Some e)
  | Ok snap =>
      i ← db (λ _, read (GetCodexRefreshIntent op user));
      match i with
      | Err e => Ret (none, Some (ofDb e))
      | Ok None => Ret (none, Some [NoRows])
      | Ok (Some i) => replayIntent user account snap i
      end
  end.

Definition handleCodexCommitFailure (user account op : uuid) (from : Z) (raw : codexLoginBlob) (commitErr : error) :
    P (CodexRefreshResult * option error) :=
  f ← readCodexAccountSnapshot user account;
  match match f with Ok fresh => if from <? Generation (Acct fresh) then Some fresh else None | Err _ => None end with
  | Some fresh =>
      _ ← updateDb (λ _, SetCodexRefreshIntentState Reconciled op user);
      codexReturnCommitted user fresh CodexRefreshReconciled
  | None =>
      let locked := Is commitErr errVaultLocked in
      let cause := if locked then Some "vault_locked"%string else None in
      p ← persistCodexRecoverySlotWithTerminal (mkJob user account op from raw cause false);
      match p with
      | Err _ =>
          _ ← recordCodexMaterialLoss user account op from;
          Ret (only CodexRefreshQuarantined, Some [ErrCodexRefreshUnrecoverable])
      | Ok persisted =>
          st ← call (VaultState user);
          if locked && match st with Ok m => String.eqb m VaultModeProtected | Err _ => false end then
            Ret (only CodexRefreshQuarantined,
                 Some [ErrCodexRefreshQuarantined; errVaultLocked;
                       if (persisted : bool) then errCodexVaultRecoveryPersisted else errCodexVaultRecoveryPending])
          else Ret (only CodexRefreshQuarantined, Some [ErrCodexRefreshQuarantined])
      end
  end.

Definition codexQuarantineIdentityMismatch (user account op : uuid) : P (CodexRefreshResult * option error) :=
  _ ← updateDb (λ _, SetCodexRefreshIntentState Unrecoverable op user);
  _ ← updateDb (λ e, QuarantineCodexAccount account user op e);
  Ret (only CodexRefreshQuarantined, Some [ErrCodexRefreshUnrecoverable]).

Definition codexRetainUnverifiedMaterial (user account op : uuid) (from : Z) (raw : codexLoginBlob) :
    P (CodexRefreshResult * option error) :=
  p ← persistCodexRecoverySlotWithTerminal (mkJob user account op from raw None false);
  match p with
  | Err _ =>
      _ ← recordCodexMaterialLoss user account op from;
      Ret (only CodexRefreshQuarantined, Some [ErrCodexRefreshUnrecoverable])
  | Ok _ => Ret (only CodexRefreshQuarantined, Some [ErrCodexRefreshQuarantined])
  end.

Definition recordCodexRefreshProviderError (user account op : uuid) (from : Z) : P unit :=
  _ ← updateDb (λ e, RecordCodexRefreshProviderError user account op from e); Ret tt.

Definition recordCodexRefreshRejection (user account op : uuid) (from : Z) : P bool :=
  if negb (txBeginner s) then Ret false else
  r ← db (QuarantineRejectedCodexRefresh user account op from);
  Ret match r with Ok CodexRejectionApplied => true | _ => false end.

(** The provider has answered with new material. *)
Definition settleCodexRefresh (user account op : uuid) (a : CodexProviderAccount) (prev : codexLoginBlob) (result_ : RefreshResult) :
    P (CodexRefreshResult * option error) :=
  let merged := mergeCodexLogin prev result_ in
  match classifyCodexFreshIdentity a (IdentityClaims result_) with
  | codexFreshIdentityMismatch => codexQuarantineIdentityMismatch user account op
  | codexFreshIdentityUnverified => codexRetainUnverifiedMaterial user account op (Generation a) merged
  | codexFreshIdentityMatch =>
      c ← withCodexVaultWrite user merged SealForUse (λ sealed e,
            oneRow (CommitCodexRefresh (Ciphertext sealed) (SealedUnder sealed) op account user (Generation a) e));
      match c with
      | Err e => handleCodexCommitFailure user account op (Generation a) merged e
      | Ok gen =>
          _ ← updateDb (λ _, SetCodexRefreshIntentState Committed op user);
          _ ← updateDb (λ e, ResetCodexCoordIdle account user e);
          Ret (mkResult (NewAccessToken result_) gen (WorkspaceAccountID a) CodexRefreshAdvanced, None)
      end
  end.

Definition advanceCodexRefresh (user account op : uuid) (snap : codexAccountSnapshot) (leaseDeadline : time) :
    P (CodexRefreshResult * option error) :=
  let a := Acct snap in
  if negb (vlt s) then Ret (none, Some [ErrNotConfigured]) else
  if negb (txBeginner s) then Ret (none, Some [Other]) else
  o ← openCodexAccountLogin user snap;
  match o with
  | Err e => Ret (none, Some e)
  | Ok prev =>
    if String.eqb (RefreshToken prev) "" then Ret (none, Some [ErrCodexRefreshNoToken]) else
    if negb (codexRefresh s) then Ret (none, Some [ErrCodexRefreshNoClient]) else
    i ← db (λ e, auto (InsertCodexRefreshIntent op user account (Generation a) e));
    match i with
    | Err UniqueViolation => codexReplayAfterDuplicate user account op
    | Err e => Ret (none, Some (ofDb e))
    | Ok _ =>
      n ← updateDb (λ e, AcquireCodexRefreshLease op leaseDeadline account user (Generation a) e);
      match n with
      | Err e => Ret (none, Some (ofDb e))
      | Ok n =>
        if n =? 0 then
          f ← readCodexAccountSnapshot user account;
          match f with
          | Ok fresh =>
              if Generation a <? Generation (Acct fresh) then codexReturnCommitted user fresh CodexRefreshReconciled
              else Ret (only CodexRefreshContended, Some [ErrCodexRefreshContended])
          | Err _ => Ret (only CodexRefreshContended, Some [ErrCodexRefreshContended])
          end
        else
          r ← call (Refresh (mkExchange account (Generation a) op false) (RefreshToken prev));
          match r with
          | Ok result_ => settleCodexRefresh user account op a prev result_
          | Err e =>
              applied ← (if rejected e then recordCodexRefreshRejection user account op (Generation a)
                         else recordCodexRefreshProviderError user account op (Generation a) ≫= λ _, Ret false : P bool);
              if (applied : bool) then Ret (only CodexRefreshQuarantined, Some [ErrCodexRefreshRejected; ErrCodexRefreshUnrecoverable])
              else Ret (only CodexRefreshContended, Some [Other])
          end
      end
    end
  end.

Definition coordinatedRefresh (user account op : uuid) (observed : Z) (leaseDeadline : time) :
    P (CodexRefreshResult * option error) :=
  f ← readCodexAccountSnapshot user account;
  match f with
  | Err e => Ret (none, Some e)
  | Ok snap =>
    i ← db (λ _, read (GetCodexRefreshIntent op user));
    match i with
    | Ok (Some i) => replayIntent user account snap i
    | Err ErrNoRows | Ok None =>
        if Generation (Acct snap) <? observed then Ret (none, Some [errCodexObservedAhead])
        else if observed <? Generation (Acct snap) then codexReturnCommitted user snap CodexRefreshReconciled
        else advanceCodexRefresh user account op snap leaseDeadline
    | Err e => Ret (none, Some (ofDb e))
    end
  end.

(** * The request of a worker *)
Definition authorizeOp (wkr : Worker) (run : uuid) (cap : string) (scope : CodexOpScope) (defer_ : bool) :
    P (CodexAuthContext * option error) :=
  lift (λ _ r, Authz r) (authorizeCodexCredentialOp sha256 wkr run cap scope defer_).

Definition codexVaultLockedErr (e : error) : error :=
  if Is e errVaultLocked && negb (Is e ErrCodexVaultLocked) then ErrCodexVaultLocked :: e else e.

Definition codexRefreshOperationBudget (remaining : option duration) : duration :=
  match remaining with
  | Some d => Z.min codexRefreshLeaseTTL (d - codexRefreshResponseReserve)
  | None => codexRefreshLeaseTTL
  end.

(** Evidence of recovery material kept because the vault was locked; [None] is an
    answer that allows the deferral. *)
Definition recoveryEvidence (auth : CodexAuthContext) (op : uuid) (gen : Z) : P (option error) :=
  r ← db (λ _, read (HasCodexVaultLockRecoveryEvidence (AuthUserID auth) (AccountID auth) op gen));
  Ret match r with Err e => Some (ofDb e) | Ok true => None | Ok false => Some [ErrCodexAccountQuarantined] end.

Definition deferralTail (auth rechecked : CodexAuthContext) (op : uuid) (gen : Z) : P error :=
  if negb (bool_decide (AccountID rechecked = AccountID auth)) then Ret [ErrCodexAccountKeyUnfrozen] else
  e2 ← recoveryEvidence auth op gen;
  match e2 with
  | Some e => Ret e
  | None =>
    if negb (vlt s) then Ret [ErrCodexVaultLocked] else
    st ← call (VaultState (AuthUserID auth));
    Ret match st with
        | Err _ => [Other]
        | Ok m => if String.eqb m VaultModeUnprotected then [ErrCodexAccountQuarantined] else [ErrCodexVaultLocked]
        end
  end.

Definition codexRecoveryDeferral (wkr : Worker) (run : uuid) (cap : string) (auth : CodexAuthContext) (op : uuid) (gen : Z) :
    P error :=
  e1 ← recoveryEvidence auth op gen;
  match e1 with
  | Some e => Ret e
  | None =>
    r ← authorizeOp wkr run cap ScopeStartRefresh true;
    match r.2 with
    | Some e => if negb (Is e ErrCodexAccountQuarantined) then Ret e else deferralTail auth r.1 op gen
    | None => deferralTail auth r.1 op gen
    end
  end.

(** A locked vault is told only to a run that still holds its authority. *)
Definition vaultLockedTail (wkr : Worker) (run : uuid) (cap : string) (auth : CodexAuthContext) (op : uuid) (observed : Z)
    (res : CodexRefreshResult) (err : error) : P (CodexRefreshResult * option error) :=
  r ← authorizeOp wkr run cap ScopeStartRefresh true;
  let quarantinedOnly := match r.2 with Some e => Is e ErrCodexAccountQuarantined | None => false end in
  match r.2, quarantinedOnly with
  | Some rerr, false => Ret (only (Outcome res), Some rerr)
  | _, _ =>
    if negb (bool_decide (AccountID r.1 = AccountID auth)) then Ret (none, Some [ErrCodexAccountKeyUnfrozen]) else
    if Is err errCodexVaultRecoveryPersisted && quarantinedOnly then
      derr ← codexRecoveryDeferral wkr run cap auth op observed;
      Ret (if negb (Is derr ErrCodexVaultLocked) then (none, Some derr) else (res, Some (codexVaultLockedErr err)))
    else if Is err errCodexVaultRecoveryPending && bool_decide (CodexRefreshRecoveryV1 ∈ ProtocolCapabilities wkr) then
      Ret (none, Some [ErrCodexRefreshContended])
    else Ret (res, Some (codexVaultLockedErr err))
  end.

Definition CoordinatedCodexRefresh (wkr : Worker) (run : uuid) (cap : string) (op : uuid) (observed : Z) :
    P (CodexRefreshResult * option error) :=
  remaining ← call Remaining;
  let budget := codexRefreshOperationBudget remaining in
  if budget <=? codexRefreshCommitReserve then Ret (none, Some [DeadlineExceeded]) else
  t ← call Now;
  a ← authorizeOp wkr run cap ScopeStartRefresh true;
  match a.2 with
  | Some e =>
      if Is e ErrCodexAccountQuarantined
      then e' ← codexRecoveryDeferral wkr run cap a.1 op observed; Ret (none, Some e')
      else Ret (none, Some e)
  | None =>
      let auth := a.1 in
      r ← coordinatedRefresh (AuthUserID auth) (AccountID auth) op observed (Go.add t budget);
      match r.2 with
      | None =>
          if String.eqb (ResAccessToken r.1) "" then Ret r else
          again ← authorizeOp wkr run cap ScopeStartRefresh false;
          match again.2 with
          | Some e => Ret (only CodexRefreshContended, Some e)
          | None => Ret r
          end
      | Some e => if Is e errVaultLocked then vaultLockedTail wkr run cap auth op observed r.1 e else Ret r
      end
  end.

(** * Releasing the current token *)
Definition releaseCodexCredential (auth : CodexAuthContext) : P (result error CodexReleaseResult) :=
  if String.eqb (AuthMode auth) codexAuthModeSubscription then
    f ← readCodexAccountSnapshot (AuthUserID auth) (AccountID auth);
    match f with
    | Err e => Ret (Err e)
    | Ok snap =>
        o ← openCodexAccountLogin (AuthUserID auth) snap;
        match o with
        | Err e => Ret (Err e)
        | Ok l => Ret (Ok (mkRelease (AuthMode auth) (AccessToken l) (Some (Generation (Acct snap))) (WorkspaceAccountID (Acct snap))))
        end
    end
  else if String.eqb (AuthMode auth) codexAuthModeAPIKey then
    o ← call (OpenByIDOfKind (AuthUserID auth) (SecretID auth));
    Ret match o with
        | Ok tok => Ok (mkRelease (AuthMode auth) tok None "")
        | Err OpenLocked => Err [errVaultLocked]
        | Err Undecryptable => Err [errCredentialUnavailable]
        | Err SealStale => Err [ErrVaultSealStale]
        | Err ReaderFailure => Err [ErrReaderFailure]
        end
  else Ret (Err [ErrCodexRunNotBound]).

Definition ReleaseCodexCredential (wkr : Worker) (run : uuid) (cap : string) : P (CodexReleaseResult * option error) :=
  a ← authorizeOp wkr run cap ScopeReleaseAccessToken false;
  match a.2 with
  | Some e => Ret (noRelease, Some e)
  | None =>
      r ← releaseCodexCredential a.1;
      match r with
      | Err e =>
          if negb (Is e errVaultLocked) then Ret (noRelease, Some e) else
          again ← authorizeOp wkr run cap ScopeReleaseAccessToken false;
          Ret (noRelease, Some (match again.2 with Some ae => ae | None => codexVaultLockedErr e end))
      | Ok res =>
          again ← authorizeOp wkr run cap ScopeReleaseAccessToken false;
          Ret match again.2 with Some ae => (noRelease, Some ae) | None => (res, None) end
      end
  end.

(** * The survivor pass *)
Definition codexAccountLive (user account : uuid) : P (result error bool) :=
  n ← db (λ _, read (CountEnabledLinkedAliasesForCodexAccount user account));
  Ret match n with Err e => Err (ofDb e) | Ok n => Ok (0 <? n) end.

(** Admission is not reached, is refused, or hands over the login. *)
Inductive admission := NotReached | Refused (e : option error) | Granted (l : codexLoginBlob).

Definition admitCodexRefreshReuse (snap : codexAccountSnapshot) (i : CodexRefreshIntent) : P admission :=
  let a := Acct snap in
  if negb (vlt s) then Ret NotReached else
  locked ← call (RequiresUnlock (UserID a));
  if (locked : bool) then Ret NotReached else
  o ← openCodexAccountLogin (UserID a) snap;
  match o with
  | Err _ => Ret NotReached
  | Ok login =>
      if String.eqb (RefreshToken login) "" then Ret NotReached else
      if negb (bool_decide (IntentUserID i = UserID a)) || negb (bool_decide (ProviderAccountID i = SnapID snap)) ||
         negb (FromGeneration i =? Generation a) then Ret NotReached else
      if negb (txBeginner s) then Ret (Refused None) else
      r ← db (AdmitCodexRefreshReuse (UserID a) (SnapID snap) (OperationID i) (Generation a));
      Ret match r with Err e => Refused (Some (ofDb e)) | Ok false => Refused None | Ok true => Granted login end
  end.

(** The part of the eligibility of a retry that the pass reads off its snapshots. *)
Definition reuseEligible (t : time) (a : CodexProviderAccount) (i : CodexRefreshIntent) : bool :=
  bool_decide (State i = Rotating) && negb (isNull (ProviderErrorAt i)) && isNull (ReuseAttemptedAt i) &&
  Go.after (CreatedAt i) (Go.add t (- thirtyMinutes)) &&
  bool_decide (Coord a = Quarantined) && negb (ReauthRequired a) && emptyBytes (RecoverySealed a) &&
  eqs (OperationID i) (CoordOperationID a) && (Generation a =? FromGeneration i).

Definition retryCodexRefreshReuse (snap : codexAccountSnapshot) (i : CodexRefreshIntent) : P (bool * option error) :=
  let a := Acct snap in
  ended ← call CtxErr;
  t ← call Now;
  if negb (codexRefresh s) || (ended : bool) || negb (reuseEligible t a i) then Ret (false, None) else
  l ← codexAccountLive (UserID a) (SnapID snap);
  match l with
  | Err e => Ret (false, Some e)
  | Ok false => Ret (false, None)
  | Ok true =>
    adm ← admitCodexRefreshReuse snap i;
    match adm with
    | NotReached => Ret (false, None)
    | Refused e => Ret (false, e)
    | Granted prev =>
      r ← call (Refresh (mkExchange (SnapID snap) (Generation a) (OperationID i) true) (RefreshToken prev));
      match r with
      | Err e =>
          if rejected e then _ ← recordCodexRefreshRejection (UserID a) (SnapID snap) (OperationID i) (Generation a); Ret (true, None)
          else _ ← markCodexReuseUnrecoverable (UserID a) (SnapID snap) (OperationID i) (FromGeneration i); Ret (true, None)
      | Ok result_ =>
          p ← persistCodexRecoverySlotWithTerminal
                (mkJob (UserID a) (SnapID snap) (OperationID i) (Generation a) (mergeCodexLogin prev result_) None true);
          match p with
          | Ok _ => Ret (true, None)
          | Err _ => _ ← markCodexReuseUnrecoverable (UserID a) (SnapID snap) (OperationID i) (FromGeneration i); Ret (true, None)
          end
      end
    end
  end.

(** [None] leaves the intent rotating. *)
Definition codexRefreshResolution (t : time) (a : CodexProviderAccount) (i : CodexRefreshIntent) : option IntentState :=
  if FromGeneration i <? Generation a then Some Reconciled
  else if negb (emptyBytes (RecoverySealed a)) && eqs (FromGeneration i) (RecoveryGeneration a) &&
          (isNull (ProviderErrorAt i) || (Generation a =? FromGeneration i)) then Some Reconciled
  else if negb (isNull (ProviderErrorAt i)) &&
          match ReuseAttemptedAt i with
          | None => Go.after (CreatedAt i) (Go.add t (- thirtyMinutes))
          | Some u => Go.after u (Go.add t (- codexRefreshReuseInFlightBound))
          end then None
  else if bool_decide (Coord a = InProgress) && eqs (OperationID i) (CoordOperationID a) && before t (LeaseDeadline a) &&
          (Generation a =? FromGeneration i) then None
  else Some Unrecoverable.

(** The recovery material goes live once its identity is that of the account. *)
Definition promoteCodexRecovery (user : uuid) (snap : codexAccountSnapshot) : P (bool * option error) :=
  let a := Acct snap in
  if negb (codexRefresh s) then Ret (false, None) else
  o ← openCodexAccountSlot user snap true;
  match o with
  | Err e => Ret (false, if Is e errVaultLocked then None else Some e)
  | Ok blob =>
    id ← call (DiscoverIdentity (AccessToken blob));
    match id with
    | None => Ret (false, None)
    | Some id =>
      if String.eqb (IdProviderUserID id) (ProviderUserID a) && String.eqb (IdWorkspaceAccountID id) (WorkspaceAccountID a) then
        p ← withCodexVaultWrite user blob SealForUse (λ sealed e,
              oneRow (PromoteCodexRecovery (SnapID snap) user (Generation a) (Ciphertext sealed) (SealedUnder sealed) e));
        Ret match p with
            | Ok _ => (true, None)
            | Err e => if Is e errVaultLocked || Is e NoRows then (false, None) else (false, Some e)
            end
      else
        c ← updateDb (λ e, ClearMismatchedCodexRecoveryAndMarkIntents (SnapID snap) user (Generation a) e);
        Ret match c with Err e => (false, Some (ofDb e)) | Ok n => (negb (n =? 0), None) end
    end
  end.

(** Each intent is considered once; an error ends the pass. *)
Fixpoint retryAll (snap : codexAccountSnapshot) (l : list CodexRefreshIntent) (reused : bool) : P (bool * option error) :=
  match l with
  | [] => Ret (reused, None)
  | i :: l' =>
      r ← retryCodexRefreshReuse snap i;
      match r.2 with
      | Some e => Ret (reused || r.1, Some e)
      | None => retryAll snap l' (reused || r.1)
      end
  end.

Fixpoint resolveAll (t : time) (user : uuid) (a : CodexProviderAccount) (l : list CodexRefreshIntent) (resolved : Z) :
    P (Z * option error) :=
  match l with
  | [] => Ret (resolved, None)
  | i :: l' =>
      match codexRefreshResolution t a i with
      | None => resolveAll t user a l' resolved
      | Some st =>
          n ← updateDb (λ e, SetCodexRefreshIntentStateFenced st (OperationID i) user (Generation a) codexRefreshReuseInFlightBound e);
          match n with
          | Err e => Ret (resolved, Some (ofDb e))
          | Ok n => resolveAll t user a l' (if 0 <? n then resolved + 1 else resolved)
          end
      end
  end.

Definition readBoth (user account : uuid) : P (result error (codexAccountSnapshot * list CodexRefreshIntent)) :=
  f ← readCodexAccountSnapshot user account;
  match f with
  | Err e => Ret (Err e)
  | Ok snap =>
      l ← db (λ e, read (ListUnresolvedCodexRefreshIntents user account e));
      Ret match l with Err e => Err (ofDb e) | Ok l => Ok (snap, l) end
  end.

(** How many intents were resolved, whether anything changed, and the error. *)
Definition reconcileUnresolvedCodexRefresh (user account : uuid) : P (Z * bool * option error) :=
  t0 ← call Now;
  reaped ← updateDb (λ e, QuarantineExpiredCodexLease account user t0 e);
  match reaped with
  | Err e => Ret (0, false, Some (ofDb e))
  | Ok n =>
    let changed := 0 <? n in
    b ← readBoth user account;
    match b with
    | Err e => Ret (0, changed, Some e)
    | Ok (snap, l) =>
      r ← retryAll snap l false;
      let changed := changed || r.1 in
      match r.2 with
      | Some e => Ret (0, changed, Some e)
      | None =>
        b' ← (if r.1 then readBoth user account else Ret (Ok (snap, l)));
        match b' with
        | Err e => Ret (0, changed, Some e)
        | Ok (snap, l) =>
          let a := Acct snap in
          t ← call Now;
          w ← resolveAll t user a l 0;
          let changed := changed || (0 <? w.1) in
          match w.2 with
          | Some e => Ret (w.1, changed, Some e)
          | None =>
            if bool_decide (Coord a = Quarantined) && negb (emptyBytes (RecoverySealed a)) && eqs (Generation a) (RecoveryGeneration a) then
              live ← codexAccountLive user account;
              match live with
              | Err e => Ret (w.1, changed, Some e)
              | Ok false => Ret (w.1, changed, None)
              | Ok true =>
                  p ← promoteCodexRecovery user snap;
                  Ret match p.2 with
                      | Some e => (w.1, changed, Some e)
                      | None => (w.1, changed || p.1, None)
                      end
              end
            else Ret (w.1, changed, None)
          end
        end
      end
    end
  end.

Fixpoint sweepAll (rows : list (uuid * uuid)) (recovered : Z) (firstErr : option error) : P (Z * option error) :=
  match rows with
  | [] => Ret (recovered, firstErr)
  | (id, user) :: rows' =>
      r ← reconcileUnresolvedCodexRefresh user id;
      match r.2 with
      | Some e => sweepAll rows' recovered (orElse firstErr (Some e))
      | None => sweepAll rows' (if r.1.2 : bool then recovered + 1 else recovered) firstErr
      end
  end.

Definition SweepUnresolvedCodexRefresh : P (Z * option error) :=
  t ← call Now;
  rows ← db (λ e, read (ListUnresolvedCodexRefreshAccounts t e));
  match rows with
  | Err e => Ret (0, Some (ofDb e))
  | Ok rows => sweepAll rows 0 None
  end.
End Refresh.
End CodexRefresh.
