(* ===== verification/CodexSys.v ===== *)
(** Any number of refreshes, releases, survivor passes and background writers over
    one database, interleaved request by request, with the other writers of the
    tables, failing statements, lost commits and crashes.

    The clocks are arbitrary, and so are the rows an authorization reads, the answers
    of the vault and of the provider, but for this: [contents] is what a ciphertext
    holds, a seal holds what was sealed, and an open returns it or fails.

    A thread is proved [safe] on its own, from one of its requests to the next,
    whatever the others do in between ([fut]); [sys_safe] puts the threads
    together. *)

From S2P Require Import Prelude Result Prog Txn CodexDb CodexAuthz CodexRefresh.

Local Open Scope Z_scope.

Module CodexSys.
Import CodexDb CodexAuthz CodexRefresh.

(** * The world *)
Inductive event :=
  | EExchange (t : nat) (x : Exchange) (token : string) (r : result RefreshError RefreshResult)
  | EIdentity (token : string) (id : Identity)
  (** A login its owner has entered. *)
  | EInstall (account : uuid) (gen : Z) (l : option codexLoginBlob)
  | EHanded (t : nat) (j : Job).

(** The committed state, all committed states so far, and what has happened, newest
    first. *)
Record world := mkWorld { cur : DB; past : list DB; log : list event }.
Definition commitTo (d : DB) (w : world) : world := mkWorld d (d :: past w) (log w).
Definition noting (e : event) (w : world) : world := mkWorld (cur w) (past w) (e :: log w).

Section Sys.
Context (contents : string → option codexLoginBlob) (sha256 : string → string) (s : Service).

(** A request of a thread, its answer and its effect. *)
Definition pstep (t : nat) (w : world) {X} (r : req X) : X → world → Prop :=
  match r in req X return X → world → Prop with
  | TX m => λ x w', ∃ e fs d, ambientOk e ∧ Txn.inTx (m e) fs (cur w) = (x, d) ∧ w' = commitTo d w
  | Seal u raw p => λ x w', w' = w ∧ ∀ sm, x = Ok sm → contents (Ciphertext sm) = Some raw ∧ Ciphertext sm ≠ ""%string
  | OpenSealedAtEpoch u m ct ep => λ x w', w' = w ∧ ∀ p, x = Ok p → p = contents ct
  | Refresh x tok => λ r w', (∀ res, r = Ok res → NewAccessToken res ≠ ""%string) ∧ w' = noting (EExchange t x tok r) w
  | DiscoverIdentity tok => λ o w', w' = match o with Some id => noting (EIdentity tok id) w | None => w end
  | Background j => λ _ w', w' = noting (EHanded t j) w
  | _ => λ _ w', w' = w
  end.

(** A new account: its owner's login at generation 0. *)
Definition enrolled (a : CodexProviderAccount) : Prop :=
  Generation a = 0 ∧ Coord a = Idle ∧ RecoverySealed a = None ∧ RecoveryGeneration a = None ∧ RecoverySealedWith a = None ∧
  RecoveryCause a = None ∧ CoordOperationID a = None ∧ LeaseDeadline a = None ∧ CommittedGeneration a = None ∧ ReauthRequired a = false ∧
  ReauthGeneration a = None ∧ ReauthCredentialRevision a = None ∧ ReauthReason a = None.

(** The same account under other keys. *)
Definition resealed (a a' : CodexProviderAccount) : Prop :=
  authority a' = authority a ∧ contents (SealedLogin a') = contents (SealedLogin a) ∧
  match RecoverySealed a, RecoverySealed a' with
  | None, None => RecoverySealedWith a' = RecoverySealedWith a
  | Some c, Some c' => contents c' = contents c ∧ c' ≠ ""%string ∧ isNull (RecoverySealedWith a') = isNull (RecoverySealedWith a)
  | _, _ => False
  end.

(** The other writers. *)
Inductive estep (w : world) : world → Prop :=
  | E_relogin ct with_ id u from e g d : RefreshCodexAccountLogin ct with_ id u from e (cur w) = Ok (Some g, d) →
      estep w (noting (EInstall id g (contents ct)) (commitTo d w))
  | E_reauth gen rev id u e n d : MarkCodexReauthRequired gen rev id u e (cur w) = (n, d) → estep w (commitTo d w)
  | E_enrol id a : (∀ d, d ∈ past w → accounts d !! id = None) → enrolled a →
      estep w (noting (EInstall id 0 (contents (SealedLogin a))) (commitTo (setAccounts <[id := a]> (cur w)) w))
  | E_reseal id a a' : accounts (cur w) !! id = Some a → resealed a a' →
      estep w (commitTo (setAccounts <[id := a']> (cur w)) w)
  (** An owner is deleted, with the accounts and their intents. *)
  | E_delete u : estep w (commitTo (mkDB
        (base.filter (λ p, UserID p.2 ≠ u) (accounts (cur w)))
        (base.filter (λ p, IntentUserID p.2 ≠ u) (intents (cur w)))
        (aliases (cur w)) (users (cur w))) w)
  | E_aliases l us : estep w (commitTo (mkDB (accounts (cur w)) (intents (cur w)) l us) w).

(** * Threads *)
Inductive task :=
  | Refreshing (wkr : Worker) (run : uuid) (cap : string) (op : uuid) (observed : Z)
  | Releasing (wkr : Worker) (run : uuid) (cap : string)
  | Reconciling (user account : uuid)
  | Sweeping
  | Writing (j : Job).
Inductive answer :=
  | Refreshed (r : CodexRefreshResult) (e : option error)
  | Released (r : CodexReleaseResult) (e : option error)
  | Done.

Definition serve (k : task) : prog req answer :=
  match k with
  | Refreshing wkr run cap op observed =>
      r ← CoordinatedCodexRefresh sha256 s wkr run cap op observed; Ret (Refreshed r.1 r.2)
  | Releasing wkr run cap => r ← ReleaseCodexCredential sha256 wkr run cap; Ret (Released r.1 r.2)
  | Reconciling user account => _ ← reconcileUnresolvedCodexRefresh s user account; Ret Done
  | Sweeping => _ ← SweepUnresolvedCodexRefresh s; Ret Done
  | Writing j => _ ← backgroundWrites s codexRecoverySlotBgAttempts j; Ret Done
  end.

(** [next] is the number of the next thread. *)
Record sys := mkSys { wld : world; threads : gmap nat (task * prog req answer); next : nat }.

(** Threads are started from outside, but for a writer, which is handed its job. *)
Definition external (k : task) : bool := match k with Writing _ => false | _ => true end.

Inductive step (σ : sys) : sys → Prop :=
  | S_start k : external k = true →
      step σ (mkSys (wld σ) (<[next σ := (k, serve k)]> (threads σ)) (S (next σ)))
  | S_request t k X (r : req X) f x w' : threads σ !! t = Some (k, Vis r f) → pstep t (wld σ) r x w' →
      step σ (mkSys w' (<[t := (k, f x)]> (threads σ)) (next σ))
  | S_background t k j f : threads σ !! t = Some (k, Vis (Background j) f) →
      step σ (mkSys (noting (EHanded t j) (wld σ))
                (<[next σ := (Writing j, serve (Writing j))]> (<[t := (k, f tt)]> (threads σ))) (S (next σ)))
  | S_crash t : step σ (mkSys (wld σ) (delete t (threads σ)) (next σ))
  | S_other w' : estep (wld σ) w' → step σ (mkSys w' (threads σ) (next σ)).

(** An empty database with its users. *)
Definition initially (us : gmap uuid Z) (al : gmap uuid Alias) : sys :=
  let d := mkDB ∅ ∅ al us in mkSys (mkWorld d [d] []) ∅ 0.

Inductive reachable : sys → Prop :=
  | R_init us al : reachable (initially us al)
  | R_step σ σ' : reachable σ → step σ σ' → reachable σ'.

(** * Threads one at a time *)
Section Safe.
Context {G : Type} (Inv : world → G → Prop) (fut : nat → world → G → world → G → Prop) (jobOk : world → G → Job → Prop).
Context (fut_refl : ∀ t w g, fut t w g w g).
Context (fut_trans : ∀ t w1 g1 w2 g2 w3 g3, fut t w1 g1 w2 g2 → fut t w2 g2 w3 g3 → fut t w1 g1 w3 g3).

Definition spawnOk (w : world) (g : G) {X} (r : req X) : Prop := match r with Background j => jobOk w g j | _ => True end.

(** Whatever the others do between the requests of [p], each request keeps [Inv] and
    what the others rely on, and [p] ends in [Q]. *)
Fixpoint safe (t : nat) {A} (Q : world → G → A → Prop) (w : world) (g : G) (p : prog req A) : Prop :=
  match p with
  | Ret a => ∀ w1 g1, fut t w g w1 g1 → Inv w1 g1 → Q w1 g1 a
  | Vis r k => ∀ w1 g1, fut t w g w1 g1 → Inv w1 g1 →
      spawnOk w1 g1 r ∧
      ∀ x w2, pstep t w1 r x w2 → ∃ g2, Inv w2 g2 ∧ (∀ t', t' ≠ t → fut t' w1 g1 w2 g2) ∧ safe t Q w2 g2 (k x)
  end.

Lemma safe_fut t {A} (Q : world → G → A → Prop) w g w' g' p : fut t w g w' g' → safe t Q w g p → safe t Q w' g' p.
Proof. intros Hf. destruct p; simpl; eauto. Qed.

Lemma thread_bind t {A B} (M : world → G → A → Prop) (Q : world → G → B → Prop) w g p (f : A → prog req B) :
  safe t M w g p → (∀ w g a, Inv w g → M w g a → safe t Q w g (f a)) → safe t Q w g (p ≫= f).
Proof.
  intros Hp Hf. revert w g Hp. induction p as [a|X r k IH]; intros w g Hp; simpl in Hp |- *.
  - assert (∀ w1 g1, fut t w g w1 g1 → Inv w1 g1 → safe t Q w1 g1 (f a)) as H by eauto.
    change (safe t Q w g (f a)). destruct (f a) as [b|X r k]; simpl; intros w1 g1 Hw Hi; exact (H w1 g1 Hw Hi w1 g1 (fut_refl _ _ _) Hi).
  - intros w1 g1 Hw Hi. destruct (Hp w1 g1 Hw Hi) as [Hs H]. split; [done|]. intros x w2 Hx.
    destruct (H x w2 Hx) as (g2 & Hi2 & Hg & Hk). exists g2. split_and!; [done|done|]. by apply IH.
Qed.

Lemma safe_mono t {A} (Q Q' : world → G → A → Prop) w g p :
  safe t Q w g p → (∀ w g a, Inv w g → Q w g a → Q' w g a) → safe t Q' w g p.
Proof.
  intros Hp HQ. revert w g Hp. induction p as [a|X r k IH]; intros w g; simpl; [eauto|].
  intros H w1 g1 Hw Hi. destruct (H w1 g1 Hw Hi) as [Hs H']. split; [done|]. intros x w2 Hx.
  destruct (H' x w2 Hx) as (g2 & Hi2 & Hg & Hk). eauto 6.
Qed.

Lemma safe_ret t {A} (Q : world → G → A → Prop) w g a :
  (∀ w' g', fut t w g w' g' → Inv w' g' → Q w' g' a) → safe t Q w g (Ret a).
Proof. done. Qed.

Lemma safe_call t {A X} (Q : world → G → A → Prop) w g (r : req X) (k : X → prog req A) :
  (∀ w1 g1, fut t w g w1 g1 → Inv w1 g1 → spawnOk w1 g1 r ∧
     ∀ x w2, pstep t w1 r x w2 → ∃ g2, Inv w2 g2 ∧ (∀ t', t' ≠ t → fut t' w1 g1 w2 g2) ∧ safe t Q w2 g2 (k x)) →
  safe t Q w g (call r ≫= k).
Proof. done. Qed.

(** A request that leaves the world as it is. *)
Lemma safe_pure t {A X} (Q : world → G → A → Prop) w g (r : req X) (k : X → prog req A) :
  (∀ w1 g1, spawnOk w1 g1 r) → (∀ w1 x w2, pstep t w1 r x w2 → w2 = w1) →
  (∀ w1 g1 x, fut t w g w1 g1 → Inv w1 g1 → pstep t w1 r x w1 → safe t Q w1 g1 (k x)) → safe t Q w g (call r ≫= k).
Proof.
  intros Hs Hw Hk. apply safe_call. intros w1 g1 Hf Hi. split; [done|]. intros x w2 Hx.
  pose proof (Hw _ _ _ Hx) as ->. exists g1. split_and!; [done|intros; apply fut_refl|by apply Hk].
Qed.

(** ** All threads *)
Context (post : nat → task → world → G → answer → Prop).
Context (fut_env : ∀ w g w', Inv w g → estep w w' → ∃ g', Inv w' g' ∧ ∀ t, fut t w g w' g').
Context (init_inv : ∀ us al, ∃ g, Inv (wld (initially us al)) g).
(** Threads with numbers from [n] on have left no trace. *)
Context (fresh : world → nat → Prop).
Context (fresh_init : ∀ us al, fresh (wld (initially us al)) 0).
Context (fresh_step : ∀ t n w X (r : req X) x w', (t < n)%nat → fresh w n → pstep t w r x w' → fresh w' n).
Context (fresh_env : ∀ n w w', fresh w n → estep w w' → fresh w' n).
Context (fresh_S : ∀ n w, fresh w n → fresh w (S n)).
Context (start_safe : ∀ n k w g, external k = true → fresh w n → Inv w g → safe n (post n k) w g (serve k)).
Context (job_safe : ∀ n j w g, fresh w n → jobOk w g j → Inv w g → safe n (post n (Writing j)) w g (serve (Writing j))).
Context (job_fut : ∀ t w g w' g' j, fut t w g w' g' → jobOk w g j → jobOk w' g' j).

Definition allSafe (σ : sys) (g : G) : Prop :=
  Inv (wld σ) g ∧ fresh (wld σ) (next σ) ∧
  ∀ t k p, threads σ !! t = Some (k, p) → (t < next σ)%nat ∧ safe t (post t k) (wld σ) g p.

Lemma sys_safe σ : reachable σ → ∃ g, allSafe σ g.
Proof using All.
  induction 1 as [us al|σ σ' _ (g & Hi & Hfr & Ht) Hs].
  - destruct (init_inv us al) as [g Hg]. exists g. split_and!; [done|apply fresh_init|]. intros t k p. simpl. by rewrite lookup_empty.
  - destruct Hs as [k Hx|t k X r f x w' Hp Hx|t k j f Hp|t|w' He].
    + exists g. split_and!; simpl; [done|by apply fresh_S|]. intros t k' p. rewrite lookup_insert_Some.
      intros [[<- [= <- <-]]|[Hne Hl]]; [split; [lia|by apply start_safe]|].
      destruct (Ht _ _ _ Hl) as [Hlt Hsf]. split; [lia|done].
    + destruct (Ht _ _ _ Hp) as [Hlt Hsf]. simpl in Hsf.
      destruct (Hsf _ _ (fut_refl _ _ _) Hi) as [_ H]. destruct (H x w' Hx) as (g' & Hi' & Hg & Hk).
      exists g'. split_and!; simpl; [done|by eapply fresh_step|]. intros t' k' p. rewrite lookup_insert_Some.
      intros [[<- [= <- <-]]|[Hne Hl]]; [done|]. destruct (Ht _ _ _ Hl) as [Hlt' Hsf']. split; [done|].
      eapply safe_fut, Hsf'. by apply Hg.
    + destruct (Ht _ _ _ Hp) as [Hlt Hsf]. simpl in Hsf.
      destruct (Hsf _ _ (fut_refl _ _ _) Hi) as [Hj H]. simpl in Hj.
      destruct (H tt (noting (EHanded t j) (wld σ)) eq_refl) as (g' & Hi' & Hg & Hk).
      assert (fresh (noting (EHanded t j) (wld σ)) (next σ)) as Hfr' by (eapply fresh_step; [exact Hlt|done|]; exact (eq_refl : pstep t (wld σ) (Background j) tt _)).
      assert (next σ ≠ t) as Hnt by lia.
      exists g'. split_and!; simpl; [done|by apply fresh_S|]. intros t' k' p. rewrite !lookup_insert_Some.
      intros [[<- [= <- <-]]|[Hne [[<- [= <- <-]]|[Hne' Hl]]]].
      * split; [lia|]. apply job_safe; [done| |done]. eapply job_fut, Hj. by apply Hg.
      * split; [lia|done].
      * destruct (Ht _ _ _ Hl) as [Hlt' Hsf']. split; [lia|]. eapply safe_fut, Hsf'. by apply Hg.
    + exists g. split_and!; simpl; [done|done|]. intros t' k p. rewrite lookup_delete_Some. intros [_ Hl]. by apply Ht.
    + destruct (fut_env _ _ _ Hi He) as (g' & Hi' & Hf). exists g'. split_and!; simpl; [done|by eapply fresh_env|].
      intros t k p Hl. destruct (Ht _ _ _ Hl) as [Hlt Hsf]. split; [done|]. by eapply safe_fut, Hsf.
Qed.
End Safe.
End Sys.
End CodexSys.
