(* ===== verification/CodexInv.v ===== *)
(** The invariant of the coordinated refresh.

    [lease] remembers which thread and operation were given the lease of an account
    at a generation, [reuse] which thread was admitted to retry.  A generation has
    one lease: an account leaves [Idle] or [Settled] once per generation and comes
    back only with the next one. *)

From S2P Require Import Prelude Result Prog Txn CodexDb CodexAuthz CodexRefresh CodexSys.

Local Open Scope Z_scope.

Module CodexInv.
Import CodexDb CodexAuthz CodexRefresh CodexSys.

Record ghost := mkGhost { lease : gmap (uuid * Z) (nat * uuid); reuse : gmap (uuid * Z) nat }.

(** * What the log says *)
Definition about (a : uuid) (g : Z) (e : event) : bool :=
  match e with EExchange _ x _ _ => bool_decide (xAccount x = a) && (xGeneration x =? g) | _ => false end.
Definition exchanges (a : uuid) (g : Z) (l : list event) : list event := List.filter (about a g) l.

(** One exchange by the holder of the lease, and one retry after an error that does
    not say the token was refused. *)
Inductive wellExchanged (G : ghost) (a : uuid) (g : Z) : list event → Prop :=
  | W_none : wellExchanged G a g []
  | W_once t op tok r : lease G !! (a, g) = Some (t, op) → wellExchanged G a g [EExchange t (mkExchange a g op false) tok r]
  | W_twice t op tok e t' tok' r' : lease G !! (a, g) = Some (t, op) → rejected e = false → reuse G !! (a, g) = Some t' →
      wellExchanged G a g [EExchange t' (mkExchange a g op true) tok' r'; EExchange t (mkExchange a g op false) tok (Err e)].

Definition byThread (t : nat) (e : event) : Prop :=
  match e with EExchange t' _ _ _ => t' = t | _ => False end.

Section Inv.
Context (contents : string → option codexLoginBlob).

(** * Rows that were there *)
Definition seen (w : world) (a : uuid) (r : CodexProviderAccount) : Prop := ∃ d, d ∈ past w ∧ accounts d !! a = Some r.
Definition identity (r : CodexProviderAccount) : uuid * string * string := (UserID r, ProviderUserID r, WorkspaceAccountID r).
Definition busy (r : CodexProviderAccount) : bool := oneOf (Coord r) [InProgress; Quarantined].

(** The login [prev] of the account at generation [g]. *)
Definition loginAt (w : world) (a : uuid) (g : Z) (r : CodexProviderAccount) (prev : codexLoginBlob) : Prop :=
  seen w a r ∧ Generation r = g ∧ contents (SealedLogin r) = Some prev.
(** An exchange at generation [g] has produced the login [l]. *)
Definition made (w : world) (a : uuid) (g : Z) (l : codexLoginBlob) : Prop :=
  ∃ t op b res r prev, EExchange t (mkExchange a g op b) (RefreshToken prev) (Ok res) ∈ log w ∧ loginAt w a g r prev ∧
    l = mergeCodexLogin prev res.
(** The claims of a token name the account. *)
Definition claimsOf (r : CodexProviderAccount) (c : FreshAccessTokenIdentityClaims) : Prop :=
  ChatGPTUserID c = ProviderUserID r ∧ ClaimAuthUserID c = ProviderUserID r ∧ ChatGPTAccountID c = WorkspaceAccountID r ∧
  ProviderUserID r ≠ ""%string ∧ WorkspaceAccountID r ≠ ""%string.
(** ... and the claims of its token are those of the account. *)
Definition madeMatching (w : world) (a : uuid) (g : Z) (l : codexLoginBlob) : Prop :=
  ∃ t op b res r prev, EExchange t (mkExchange a g op b) (RefreshToken prev) (Ok res) ∈ log w ∧ loginAt w a g r prev ∧
    l = mergeCodexLogin prev res ∧ claimsOf r (IdentityClaims res).

(** Where the login of a row comes from: its owner, an exchange whose claims match
    the account, or an exchange whose token was looked up and found to be the
    account's. *)
Definition vouched (w : world) (a : uuid) (r : CodexProviderAccount) : Prop :=
  EInstall a (Generation r) (contents (SealedLogin r)) ∈ log w ∨
  ∃ l, contents (SealedLogin r) = Some l ∧
    (madeMatching w a (Generation r - 1) l ∨
     made w a (Generation r - 1) l ∧ EIdentity (AccessToken l) (mkIdentity (ProviderUserID r) (WorkspaceAccountID r)) ∈ log w).

(** The recovery slot holds what an exchange at this generation has produced. *)
Definition slotOk (w : world) (a : uuid) (r : CodexProviderAccount) : Prop :=
  ∀ ct, RecoverySealed r = Some ct →
    RecoveryGeneration r = Some (Generation r) ∧ ct ≠ ""%string ∧ ∃ l, contents ct = Some l ∧ made w a (Generation r) l.

(** * The invariant *)
Record Inv (w : world) (G : ghost) : Prop := mkInv {
  i_cur : head (past w) = Some (cur w);
  i_same a r r' : seen w a r → seen w a r' → identity r = identity r' ∧
    (Generation r = Generation r' → contents (SealedLogin r) = contents (SealedLogin r'));
  i_newest a r r' : seen w a r → accounts (cur w) !! a = Some r' → Generation r ≤ Generation r';
  i_lease a r : accounts (cur w) !! a = Some r →
    if busy r then ∃ t op, lease G !! (a, Generation r) = Some (t, op) ∧ CoordOperationID r = Some op
    else lease G !! (a, Generation r) = None;
  i_ahead a r g : accounts (cur w) !! a = Some r → Generation r < g → lease G !! (a, g) = None;
  i_leased a g x : lease G !! (a, g) = Some x → ∃ r, seen w a r ∧ Generation r = g;
  i_exchanges a g : wellExchanged G a g (exchanges a g (log w));
  i_tokens t x tok r : EExchange t x tok r ∈ log w → ∃ row prev, loginAt w (xAccount x) (xGeneration x) row prev ∧ tok = RefreshToken prev;
  i_intent op i : intents (cur w) !! op = Some i → OperationID i = op ∧
    (∃ r, seen w (ProviderAccountID i) r ∧ UserID r = IntentUserID i) ∧
    (ProviderErrorAt i ≠ None → ∃ t tok e, lease G !! (ProviderAccountID i, FromGeneration i) = Some (t, op) ∧
       EExchange t (mkExchange (ProviderAccountID i) (FromGeneration i) op false) tok (Err e) ∈ log w ∧ rejected e = false);
  i_reuse a g t : reuse G !! (a, g) = Some t → ∃ t0 op, lease G !! (a, g) = Some (t0, op) ∧
    (is_Some (accounts (cur w) !! a) → ∃ i, intents (cur w) !! op = Some i ∧ ProviderAccountID i = a ∧
       FromGeneration i = g ∧ ReuseAttemptedAt i ≠ None);
  i_slots a r : seen w a r → slotOk w a r;
  i_vouched a r : seen w a r → vouched w a r;
}.

(** What a thread may rely on while the others run. *)
Record fut (t : nat) (w : world) (G : ghost) (w' : world) (G' : ghost) : Prop := mkFut {
  f_past : past w ⊆ past w';
  f_log : log w ⊆ log w';
  f_lease : lease G ⊆ lease G';
  f_reuse : reuse G ⊆ reuse G';
  f_mine e : byThread t e → e ∈ log w' → e ∈ log w;
  f_order : past w `suffix_of` past w';
}.

Lemma fut_refl t w G : fut t w G w G.
Proof. by constructor. Qed.
Lemma fut_trans t w1 G1 w2 G2 w3 G3 : fut t w1 G1 w2 G2 → fut t w2 G2 w3 G3 → fut t w1 G1 w3 G3.
Proof.
  intros [] []. constructor; [set_solver|set_solver|by etrans|by etrans|eauto|by etrans].
Qed.

(** The threads numbered from [n] on have left no trace. *)
Definition fresh (w : world) (n : nat) : Prop := ∀ t e, (n ≤ t)%nat → byThread t e → e ∉ log w.

(** A job carries material that an exchange has produced under the lease. *)
Definition jobOk (w : world) (G : ghost) (j : Job) : Prop :=
  made w (jAccount j) (jGen j) (jRaw j) ∧
  (∃ t, lease G !! (jAccount j, jGen j) = Some (t, jOp j)) ∧
  ∃ r, seen w (jAccount j) r ∧ UserID r = jUser j ∧ Generation r = jGen j.

(** * What stays true *)
Lemma seen_past w w' a r : past w ⊆ past w' → seen w a r → seen w' a r.
Proof. intros H (d & ? & ?). exists d. set_solver. Qed.
Lemma loginAt_past w w' a g r l : past w ⊆ past w' → loginAt w a g r l → loginAt w' a g r l.
Proof. intros H (? & ? & ?). split_and!; [by eapply seen_past|done|done]. Qed.
Lemma made_mono w w' a g l : past w ⊆ past w' → log w ⊆ log w' → made w a g l → made w' a g l.
Proof.
  intros Hp Hl (t & op & b & res & r & prev & He & Hl' & ->). exists t, op, b, res, r, prev.
  split_and!; [set_solver|by eapply loginAt_past|done].
Qed.
Lemma madeMatching_mono w w' a g l : past w ⊆ past w' → log w ⊆ log w' → madeMatching w a g l → madeMatching w' a g l.
Proof.
  intros Hp Hl (t & op & b & res & r & prev & He & Hl' & -> & Hc). exists t, op, b, res, r, prev.
  split_and!; [set_solver|by eapply loginAt_past|done|done].
Qed.
Lemma vouched_mono w w' a r : past w ⊆ past w' → log w ⊆ log w' → vouched w a r → vouched w' a r.
Proof.
  intros Hp Hl [He|(l & Hc & [Hm|[Hm He]])]; [left; set_solver|right|right]; exists l; (split; [done|]).
  - left. by eapply madeMatching_mono.
  - right. split; [by eapply made_mono|set_solver].
Qed.
Lemma slotOk_mono w w' a r : past w ⊆ past w' → log w ⊆ log w' → slotOk w a r → slotOk w' a r.
Proof.
  intros Hp Hl H ct Hct. destruct (H ct Hct) as (? & ? & l & ? & Hm). split_and!; [done|done|].
  exists l. split; [done|]. by eapply made_mono.
Qed.
Lemma jobOk_fut t w G w' G' j : fut t w G w' G' → jobOk w G j → jobOk w' G' j.
Proof.
  intros [] (Hm & (t0 & Hl) & r & Hs & ? & ?). split_and!.
  - by eapply made_mono.
  - exists t0. by eapply lookup_weaken.
  - exists r. split_and!; [by eapply seen_past|done|done].
Qed.
Lemma past_commit d w : past w ⊆ past (commitTo d w).
Proof. simpl. set_solver. Qed.
Lemma order_commit d w : past w `suffix_of` past (commitTo d w).
Proof. by exists [d]. Qed.
Lemma seen_commit d w a r : seen (commitTo d w) a r ↔ seen w a r ∨ accounts d !! a = Some r.
Proof.
  split.
  - intros (d' & Hd & Ha). simpl in Hd. apply elem_of_cons in Hd as [->|Hd]; [by right|left; by exists d'].
  - intros [(d' & Hd & Ha)|Ha]; [exists d'|exists d]; simpl; set_solver.
Qed.
Lemma seen_cur w G a r : Inv w G → accounts (cur w) !! a = Some r → seen w a r.
Proof. intros Hi Ha. exists (cur w). split; [|done]. by apply head_Some_elem_of, Hi. Qed.
Lemma i_slot w G (Hi : Inv w G) a r : accounts (cur w) !! a = Some r → slotOk w a r.
Proof. intros Ha. eapply i_slots; [done|]. by eapply seen_cur. Qed.

(** * Changes of the tables *)
(** Intents whose states alone have changed. *)
Definition sameIntents (m m' : gmap uuid CodexRefreshIntent) : Prop := setState Rotating <$> m' = setState Rotating <$> m.

Lemma sameIntents_refl m : sameIntents m m.
Proof. done. Qed.

Lemma sameIntents_fwd m m' op i' : sameIntents m m' → m' !! op = Some i' →
  ∃ i, m !! op = Some i ∧ setState Rotating i' = setState Rotating i.
Proof.
  intros H Hi. assert ((setState Rotating <$> m') !! op = Some (setState Rotating i')) as Hm by (by rewrite lookup_fmap Hi).
  rewrite H lookup_fmap in Hm. destruct (m !! op) as [i|]; [|done]. apply (inj Some) in Hm. by exists i.
Qed.
Lemma sameIntents_bwd m m' op i : sameIntents m m' → m !! op = Some i →
  ∃ i', m' !! op = Some i' ∧ setState Rotating i' = setState Rotating i.
Proof.
  intros H Hi. destruct (sameIntents_fwd m' m op i) as (i' & ? & ?); [by rewrite /sameIntents H|done|by exists i'].
Qed.
Lemma setState_eq i i' : setState Rotating i' = setState Rotating i →
  OperationID i' = OperationID i ∧ IntentUserID i' = IntentUserID i ∧ ProviderAccountID i' = ProviderAccountID i ∧
  FromGeneration i' = FromGeneration i ∧ ProviderErrorAt i' = ProviderErrorAt i ∧ ReuseAttemptedAt i' = ReuseAttemptedAt i.
Proof. destruct i, i'. rewrite /setState /=. by intros [= -> -> -> -> _ -> ->]. Qed.

(** How a row may become another, apart from the taking of a lease. *)
Record rowStep (w : world) (a : uuid) (r r' : CodexProviderAccount) : Prop := mkRowStep {
  s_identity : identity r' = identity r;
  s_slot : slotOk w a r';
  s_move : (Generation r' = Generation r ∧ contents (SealedLogin r') = contents (SealedLogin r) ∧ busy r' = busy r ∧
              (busy r = true → CoordOperationID r' = CoordOperationID r)) ∨
           (Generation r' = Generation r + 1 ∧ busy r' = false ∧ vouched w a r') }.

(** Rows step one by one, or appear; intents change their states, or go with their account. *)
Definition newRow (w : world) (a : uuid) (r' : CodexProviderAccount) : Prop :=
  (∀ r, ¬ seen w a r) ∧ busy r' = false ∧ slotOk w a r' ∧ vouched w a r'.
Definition rowsStep (w : world) (d : DB) : Prop :=
  ∀ a r', accounts d !! a = Some r' → (∃ r, accounts (cur w) !! a = Some r ∧ rowStep w a r r') ∨ newRow w a r'.
Definition intentsStep (w : world) (d : DB) : Prop :=
  (∀ op i', intents d !! op = Some i' → ∃ i, intents (cur w) !! op = Some i ∧ setState Rotating i' = setState Rotating i) ∧
  (∀ op i, intents (cur w) !! op = Some i → is_Some (accounts d !! ProviderAccountID i) → is_Some (intents d !! op)).

Lemma rowStep_refl w G a r : Inv w G → accounts (cur w) !! a = Some r → rowStep w a r r.
Proof. intros Hi Ha. constructor; [done|by eapply i_slot|by left]. Qed.
Lemma rowsStep_refl w G d : Inv w G → accounts d = accounts (cur w) → rowsStep w d.
Proof. intros Hi Hd a r Ha. rewrite Hd in Ha. left. exists r. split; [done|by eapply rowStep_refl]. Qed.
Lemma rowsStep_insert w G a r r' d : Inv w G → accounts (cur w) !! a = Some r → accounts d = <[a := r']> (accounts (cur w)) →
  rowStep w a r r' → rowsStep w d.
Proof.
  intros Hi Ha Hd Hr b r1. rewrite Hd lookup_insert_Some. intros [[<- <-]|[Hne Hb]]; left; [by exists r|].
  exists r1. split; [done|by eapply rowStep_refl].
Qed.
Lemma intentsStep_same w d : sameIntents (intents (cur w)) (intents d) → intentsStep w d.
Proof.
  intros H. split.
  - intros op i'. by apply sameIntents_fwd.
  - intros op i Hi _. destruct (sameIntents_bwd _ _ _ _ H Hi) as (i' & -> & _). done.
Qed.

(** A row that steps stays in line with every row seen before. *)
Lemma rowStep_seen w G a r r' r0 : Inv w G → accounts (cur w) !! a = Some r → rowStep w a r r' → seen w a r0 →
  identity r0 = identity r' ∧ Generation r0 ≤ Generation r' ∧
  (Generation r0 = Generation r' → contents (SealedLogin r0) = contents (SealedLogin r')).
Proof.
  intros Hi Ha [Hid _ Hm] Hs. pose proof (seen_cur _ _ _ _ Hi Ha) as Hr.
  destruct (i_same _ _ Hi _ _ _ Hs Hr) as [He Hc]. pose proof (i_newest _ _ Hi _ _ _ Hs Ha) as Hn. split_and!.
  - by rewrite Hid.
  - lia.
  - intros Hg. destruct Hm as [(Hg' & Hc' & _)|(Hg' & _)]; [|lia]. rewrite Hc'. apply Hc. lia.
Qed.

Lemma kept_step w G d : Inv w G → rowsStep w d → intentsStep w d → Inv (commitTo d w) G.
Proof.
  intros Hi Hr [Hin Hkeep]. pose proof (past_commit d w) as Hp.
  assert (∀ a r r', seen w a r → accounts d !! a = Some r' → identity r = identity r' ∧ Generation r ≤ Generation r' ∧
    (Generation r = Generation r' → contents (SealedLogin r) = contents (SealedLogin r'))) as Hx.
  { intros a r0 r0' H1 H2. destruct (Hr _ _ H2) as [(r1 & Ha & Hst)|(Hn & _)]; [by eapply rowStep_seen|by destruct (Hn r0)]. }
  constructor; simpl.
  - done.
  - intros a r r'. rewrite !seen_commit. intros [Hs|Hs] [Hs'|Hs']; [by eapply i_same| | |].
    + by destruct (Hx _ _ _ Hs Hs') as (? & _ & ?).
    + destruct (Hx _ _ _ Hs' Hs) as (? & _ & Hc). split; [done|]. intros Hg. symmetry. apply Hc. by symmetry.
    + rewrite Hs in Hs'. by injection Hs' as ->.
  - intros a r r'. rewrite seen_commit. intros [Hs|Hs] Ha; [by destruct (Hx _ _ _ Hs Ha) as (_ & ? & _)|].
    rewrite Hs in Ha. injection Ha as ->. lia.
  - intros a r' Ha. destruct (Hr _ _ Ha) as [(r & Hc & [_ _ [(Hg & _ & Hb & Hop)|(Hg & Hb & _)]])|(Hn & Hb & _)].
    + pose proof (i_lease _ _ Hi _ _ Hc) as Hl. rewrite Hb Hg. destruct (busy r); [|done]. by rewrite Hop.
    + rewrite Hb. apply (i_ahead _ _ Hi _ _ _ Hc). lia.
    + rewrite Hb. destruct (lease G !! _) eqn:E; [|done]. destruct (i_leased _ _ Hi _ _ _ E) as (r & Hs & _). by destruct (Hn r).
  - intros a r' g Ha Hg. destruct (Hr _ _ Ha) as [(r & Hc & [_ _ Hm])|(Hn & _)].
    + apply (i_ahead _ _ Hi _ _ _ Hc). destruct Hm as [(? & _)|(? & _)]; lia.
    + destruct (lease G !! _) eqn:E; [|done]. destruct (i_leased _ _ Hi _ _ _ E) as (r & Hs & _). by destruct (Hn r).
  - intros a g x Hl. destruct (i_leased _ _ Hi _ _ _ Hl) as (r & Hs & ?). exists r. split; [by eapply seen_past|done].
  - apply Hi.
  - intros t x tok r He. destruct (i_tokens _ _ Hi _ _ _ _ He) as (row & prev & Hl & ->). exists row, prev.
    split; [by eapply loginAt_past|done].
  - intros op i' H'. destruct (Hin _ _ H') as (i & Hc & He). destruct (setState_eq _ _ He) as (-> & -> & -> & -> & -> & _).
    destruct (i_intent _ _ Hi _ _ Hc) as (? & (r & Hs & Hu) & ?). split_and!; [done| |done].
    exists r. split; [by eapply seen_past|done].
  - intros a g t Hu. destruct (i_reuse _ _ Hi _ _ _ Hu) as (t0 & op & Hl & H). exists t0, op. split; [done|].
    intros [r' Ha]. destruct (i_leased _ _ Hi _ _ _ Hl) as (rs & Hs & _).
    destruct (Hr _ _ Ha) as [(r & Hc & _)|(Hn & _)]; [|by destruct (Hn rs)].
    destruct (H ltac:(by eexists)) as (i & Hc' & Hpa & Hfg & Hra).
    destruct (Hkeep _ _ Hc') as [i' Hi']; [by rewrite Hpa Ha|]. destruct (Hin _ _ Hi') as (i1 & Hi1 & He). rewrite Hc' in Hi1.
    injection Hi1 as <-. destruct (setState_eq _ _ He) as (_ & _ & E1 & E2 & _ & E3). exists i'. rewrite E1 E2 E3. done.
  - intros a r'. rewrite seen_commit. intros Hs. eapply (slotOk_mono w); [done|done|].
    destruct Hs as [Hs|Ha]; [by eapply i_slots|]. by destruct (Hr _ _ Ha) as [(r & _ & [_ Hs _])|(_ & _ & Hs & _)].
  - intros a r. rewrite seen_commit. intros Hs. eapply (vouched_mono w); [done|done|].
    destruct Hs as [Hs|Ha]; [by eapply i_vouched|].
    destruct (Hr _ _ Ha) as [(r0 & Hc & [Hid _ Hm])|(_ & _ & _ & Hv)]; [|done].
    pose proof (i_vouched _ _ Hi _ _ (seen_cur _ _ _ _ Hi Hc)) as Hv.
    destruct Hm as [(Hg & Hl & _)|(_ & _ & ?)]; [|done]. injection Hid as Hu Hpu Hw.
    rewrite /vouched Hg Hl Hpu Hw. exact Hv.
Qed.

(** ** Events *)
Lemma log_noting e w : log w ⊆ log (noting e w).
Proof. simpl. set_solver. Qed.
Lemma wellExchanged_mono G G' a g l : lease G ⊆ lease G' → reuse G ⊆ reuse G' → wellExchanged G a g l → wellExchanged G' a g l.
Proof.
  intros Hl Hr []; [constructor|eapply W_once|eapply W_twice]; try done; by eapply lookup_weaken.
Qed.
Lemma seen_noting e w a r : seen (noting e w) a r ↔ seen w a r.
Proof. done. Qed.

(** An event keeps the invariant when the exchanges stay in order and its token is
    that of the login. *)
Lemma inv_event e w G : Inv w G → (∀ a g, wellExchanged G a g (exchanges a g (e :: log w))) →
  (∀ t x tok r, e = EExchange t x tok r → ∃ row prev, loginAt w (xAccount x) (xGeneration x) row prev ∧ tok = RefreshToken prev) →
  Inv (noting e w) G.
Proof.
  intros Hi Hx He. pose proof (log_noting e w) as Hl. assert (past w ⊆ past (noting e w)) as Hp by done. constructor; simpl.
  - apply Hi.
  - intros a r r' Hs Hs'. by eapply (i_same _ _ Hi a).
  - intros a r r' Hs Ha. by eapply (i_newest _ _ Hi a).
  - apply Hi.
  - apply Hi.
  - intros a g x H. by apply (i_leased _ _ Hi) in H.
  - done.
  - intros t x tok r. rewrite elem_of_cons. intros [H|H]; [by apply (He t _ _ r)|exact (i_tokens _ _ Hi _ _ _ _ H)].
  - intros op i H. destruct (i_intent _ _ Hi _ _ H) as (? & ? & Hpe). split_and!; [done|done|].
    intros Hn. destruct (Hpe Hn) as (t & tok & e' & ? & ? & ?). exists t, tok, e'. split_and!; [done|set_solver|done].
  - apply Hi.
  - intros a r Ha. eapply (slotOk_mono w); [done|done|exact (i_slots _ _ Hi _ _ Ha)].
  - intros a r Hs. eapply (vouched_mono w); [done|done|]. by apply (i_vouched _ _ Hi).
Qed.

Lemma kept_note e w G : Inv w G → (∀ t x tok r, e ≠ EExchange t x tok r) → Inv (noting e w) G.
Proof.
  intros Hi Hn. apply inv_event; [done| |intros t x tok r ->; by destruct (Hn t x tok r)].
  intros a g. rewrite /exchanges /=. destruct e as [t x tok r| | |]; try apply Hi. by destruct (Hn t x tok r).
Qed.

Lemma exchanges_cons_eq a g op b t tok r l :
  exchanges a g (EExchange t (mkExchange a g op b) tok r :: l) = EExchange t (mkExchange a g op b) tok r :: exchanges a g l.
Proof. rewrite /exchanges /= bool_decide_true // Z.eqb_refl //. Qed.
Lemma exchanges_cons_ne a g x t tok r l : (xAccount x, xGeneration x) ≠ (a, g) →
  exchanges a g (EExchange t x tok r :: l) = exchanges a g l.
Proof.
  intros Hne. rewrite /exchanges /=. case_bool_decide as Ha; [|done]. destruct (Z.eqb_spec (xGeneration x) g) as [Hg|]; [|done].
  exfalso. apply Hne. by rewrite Ha Hg.
Qed.

Lemma inv_exchange_first w G t a g op row prev r : Inv w G → lease G !! (a, g) = Some (t, op) → exchanges a g (log w) = [] →
  loginAt w a g row prev → Inv (noting (EExchange t (mkExchange a g op false) (RefreshToken prev) r) w) G.
Proof.
  intros Hi Hl Hx Hr. apply inv_event; [done| |intros t' x tok r' [= <- <- <- <-]; eauto].
  intros a' g'. destruct (decide ((a, g) = (a', g'))) as [[= <- <-]|Hne].
  - rewrite exchanges_cons_eq Hx. by apply W_once.
  - rewrite exchanges_cons_ne //. apply Hi.
Qed.

Lemma inv_exchange_again w G t' a g t op tok e row prev r : Inv w G → lease G !! (a, g) = Some (t, op) → rejected e = false →
  reuse G !! (a, g) = Some t' → exchanges a g (log w) = [EExchange t (mkExchange a g op false) tok (Err e)] →
  loginAt w a g row prev → Inv (noting (EExchange t' (mkExchange a g op true) (RefreshToken prev) r) w) G.
Proof.
  intros Hi Hl He Hu Hx Hr. apply inv_event; [done| |intros t0 x tok0 r' [= <- <- <- <-]; eauto].
  intros a' g'. destruct (decide ((a, g) = (a', g'))) as [[= <- <-]|Hne].
  - rewrite exchanges_cons_eq Hx. by eapply W_twice.
  - rewrite exchanges_cons_ne //. apply Hi.
Qed.

(** ** Leases and retries *)
(** No exchange without a lease. *)
Lemma unleased_exchanges w G a g : Inv w G → lease G !! (a, g) = None → exchanges a g (log w) = [].
Proof. intros Hi Hl. destruct (i_exchanges _ _ Hi a g); [done|by rewrite H in Hl|by rewrite H in Hl]. Qed.

Lemma inv_acquire w G t a r r' op d : Inv w G → accounts (cur w) !! a = Some r → busy r = false →
  accounts d = <[a := r']> (accounts (cur w)) → intents d = intents (cur w) →
  identity r' = identity r → Generation r' = Generation r → SealedLogin r' = SealedLogin r → busy r' = true →
  CoordOperationID r' = Some op → RecoverySealed r' = RecoverySealed r → RecoveryGeneration r' = RecoveryGeneration r →
  let G' := mkGhost (<[(a, Generation r) := (t, op)]> (lease G)) (reuse G) in
  Inv (commitTo d w) G' ∧ lease G !! (a, Generation r) = None.
Proof.
  intros Hi Ha Hb Hd Hin Hid Hg Hsl Hb' Hop Hrs Hrg G'. pose proof (past_commit d w) as Hp.
  pose proof (i_lease _ _ Hi _ _ Ha) as Hl. rewrite Hb in Hl. split; [|done].
  assert (lease G ⊆ lease G') as Hsub by by apply insert_subseteq.
  assert (∀ b r0, accounts d !! b = Some r0 → ∃ r1, accounts (cur w) !! b = Some r1 ∧ identity r0 = identity r1 ∧
     Generation r0 = Generation r1 ∧ SealedLogin r0 = SealedLogin r1 ∧ RecoverySealed r0 = RecoverySealed r1 ∧
     RecoveryGeneration r0 = RecoveryGeneration r1 ∧ (b = a ∧ r0 = r' ∧ r1 = r ∨ b ≠ a ∧ r0 = r1)) as Hrow.
  { intros b r0. rewrite Hd lookup_insert_Some. intros [[<- <-]|[Hne Hb0]].
    - exists r. split_and!; try done. by left.
    - exists r0. split_and!; try done. right. split; [|done]. intros ->. by apply Hne. }
  assert (∀ b r0, accounts d !! b = Some r0 → ∃ r1, seen w b r1 ∧ accounts (cur w) !! b = Some r1 ∧ identity r0 = identity r1 ∧
     Generation r0 = Generation r1 ∧ SealedLogin r0 = SealedLogin r1) as Hrow'.
  { intros b r0 H0. destruct (Hrow _ _ H0) as (r1 & H1 & ? & ? & ? & _). exists r1. split_and!; try done. by eapply seen_cur. }
  constructor; simpl.
  - done.
  - intros b r1 r2. rewrite !seen_commit.
    assert (∀ r1, seen w b r1 ∨ accounts d !! b = Some r1 → ∃ r0, seen w b r0 ∧ identity r1 = identity r0 ∧
      Generation r1 = Generation r0 ∧ SealedLogin r1 = SealedLogin r0) as Hx.
    { intros r0 [H0|H0]; [by exists r0|]. destruct (Hrow' _ _ H0) as (r3 & ? & _ & ? & ? & ?). by exists r3. }
    intros (r3 & H3 & -> & -> & ->)%Hx (r4 & H4 & -> & -> & ->)%Hx. by eapply (i_same _ _ Hi b).
  - intros b r1 r2. rewrite seen_commit. intros H1 H2. destruct (Hrow' _ _ H2) as (r3 & _ & H3 & _ & -> & _).
    destruct H1 as [H1|H1]; [by eapply (i_newest _ _ Hi b)|]. rewrite H1 in H2. injection H2 as ->.
    destruct (Hrow' _ _ H1) as (r4 & _ & H4 & _ & -> & _). rewrite H3 in H4. injection H4 as ->. lia.
  - intros b r0 H0. destruct (Hrow _ _ H0) as (r1 & H1 & _ & _ & _ & _ & _ & [(-> & -> & ->)|(Hne & ->)]).
    + rewrite Hb' Hg lookup_insert_eq. eauto.
    + pose proof (i_lease _ _ Hi _ _ H1) as Hl'. rewrite lookup_insert_ne; [by intros [=]|done].
  - intros b r0 g H0 Hlt. destruct (Hrow _ _ H0) as (r1 & H1 & _ & Hgr & _ & _ & _ & Hcase).
    rewrite lookup_insert_ne; [|apply (i_ahead _ _ Hi _ _ _ H1); lia]. intros [= -> <-].
    destruct Hcase as [(_ & -> & ->)|(? & _)]; [lia|done].
  - intros b g x. rewrite lookup_insert_Some. intros [[[= <- <-] _]|[_ Hx]].
    + exists r. split; [eapply seen_past; [done|]; by eapply seen_cur|done].
    + destruct (i_leased _ _ Hi _ _ _ Hx) as (r0 & ? & ?). exists r0. split; [by eapply seen_past|done].
  - intros b g. eapply wellExchanged_mono; [exact Hsub|done|apply Hi].
  - intros t0 x tok r0 He. destruct (i_tokens _ _ Hi _ _ _ _ He) as (row & prev & ? & ?). exists row, prev.
    split; [by eapply loginAt_past|done].
  - intros o i. rewrite Hin. intros Ho. destruct (i_intent _ _ Hi _ _ Ho) as (? & Hu & Hpe). split_and!; [done| |].
    + destruct Hu as (r0 & ? & ?). exists r0. split; [by eapply seen_past|done].
    + intros Hn. destruct (Hpe Hn) as (t0 & tok & e & Hle & ? & ?). exists t0, tok, e. split_and!; [|done|done]. by eapply lookup_weaken.
  - intros b g t0 Hu. destruct (i_reuse _ _ Hi _ _ _ Hu) as (t1 & o & Hle & H). exists t1, o.
    split; [by eapply lookup_weaken|]. rewrite Hin. intros [r0 H0]. apply H. destruct (Hrow _ _ H0) as (r1 & -> & _). done.
  - intros b r0. rewrite seen_commit. intros H0'. eapply (slotOk_mono w); [done|done|].
    destruct H0' as [H0|H0]; [by eapply i_slots|]. destruct (Hrow _ _ H0) as (r1 & H1 & _ & Hgr & _ & Hrs1 & Hrg1 & _).
    pose proof (i_slot _ _ Hi _ _ H1) as Hs. rewrite /slotOk Hrs1 Hrg1 Hgr. exact Hs.
  - intros b r0. rewrite seen_commit. intros H0. eapply (vouched_mono w); [done|done|].
    destruct H0 as [H0|H0]; [by eapply i_vouched|]. destruct (Hrow' _ _ H0) as (r1 & H1 & _ & Hid1 & Hg1 & Hs1).
    pose proof (i_vouched _ _ Hi _ _ H1) as Hv. injection Hid1 as _ Hpu Hw. rewrite /vouched Hg1 Hs1 Hpu Hw. exact Hv.
Qed.

(** ** Intents *)
(** What the invariant asks of an intent. *)
Definition intentOk (w : world) (G : ghost) (op : uuid) (i : CodexRefreshIntent) : Prop :=
  OperationID i = op ∧ (∃ r, seen w (ProviderAccountID i) r ∧ UserID r = IntentUserID i) ∧
  (ProviderErrorAt i ≠ None → ∃ t tok e, lease G !! (ProviderAccountID i, FromGeneration i) = Some (t, op) ∧
     EExchange t (mkExchange (ProviderAccountID i) (FromGeneration i) op false) tok (Err e) ∈ log w ∧ rejected e = false).

Lemma inv_intents w G d reuse' : Inv w G → accounts d = accounts (cur w) → reuse G ⊆ reuse' →
  (∀ op i, intents d !! op = Some i → intentOk w G op i) →
  (∀ a g t, reuse' !! (a, g) = Some t → ∃ t0 op, lease G !! (a, g) = Some (t0, op) ∧
    (is_Some (accounts (cur w) !! a) → ∃ i, intents d !! op = Some i ∧ ProviderAccountID i = a ∧ FromGeneration i = g ∧
       ReuseAttemptedAt i ≠ None)) →
  Inv (commitTo d w) (mkGhost (lease G) reuse').
Proof.
  intros Hi Ha Hsub Hin Hre. pose proof (past_commit d w) as Hp.
  assert (∀ a r, seen (commitTo d w) a r → seen w a r) as Hsn.
  { intros a r. rewrite seen_commit Ha. intros [H|H]; [done|by eapply seen_cur]. }
  constructor; simpl.
  - done.
  - intros a r r' H%Hsn H'%Hsn. by eapply (i_same _ _ Hi a).
  - intros a r r' H%Hsn. rewrite Ha. by eapply i_newest.
  - intros a r. rewrite Ha. apply Hi.
  - intros a r g. rewrite Ha. apply Hi.
  - intros a g x H. destruct (i_leased _ _ Hi _ _ _ H) as (r & ? & ?). exists r. split; [by eapply seen_past|done].
  - intros a g. eapply (wellExchanged_mono G); [done|done|apply Hi].
  - intros t x tok r He. destruct (i_tokens _ _ Hi _ _ _ _ He) as (row & prev & ? & ?). exists row, prev.
    split; [by eapply loginAt_past|done].
  - intros op i H. destruct (Hin _ _ H) as (? & (r & ? & ?) & ?). split_and!; [done| |done].
    exists r. split; [by eapply seen_past|done].
  - intros a g t H. rewrite Ha. by eapply Hre.
  - intros a r H%Hsn. eapply (slotOk_mono w); [done|done|by eapply i_slots].
  - intros a r H%Hsn. eapply (vouched_mono w); [done|done|by eapply i_vouched].
Qed.

Lemma inv_insert w G op i d : Inv w G → accounts d = accounts (cur w) → intents (cur w) !! op = None →
  intents d = <[op := i]> (intents (cur w)) → intentOk w G op i → Inv (commitTo d w) G.
Proof.
  intros Hi Ha Hn Hd Hok. destruct G as [L U]. apply (inv_intents w (mkGhost L U) d U); [done|done|done| |].
  - intros o j. rewrite Hd lookup_insert_Some. intros [[<- <-]|[_ Hj]]; [done|by apply Hi].
  - intros a g t Hu. destruct (i_reuse _ _ Hi _ _ _ Hu) as (t0 & o & Hl & H). exists t0, o. split; [done|].
    intros Hs. destruct (H Hs) as (j & Hj & ?). exists j. rewrite Hd lookup_insert_ne; [|by auto]. intros ->. by rewrite Hn in Hj.
Qed.

(** Writing one intent; its account, generation and operation stay, and a retry that
    was attempted stays attempted. *)
Lemma inv_write w G op i i' d : Inv w G → accounts d = accounts (cur w) → intents (cur w) !! op = Some i →
  intents d = <[op := i']> (intents (cur w)) → ProviderAccountID i' = ProviderAccountID i → FromGeneration i' = FromGeneration i →
  (ReuseAttemptedAt i ≠ None → ReuseAttemptedAt i' ≠ None) → intentOk w G op i' → Inv (commitTo d w) G.
Proof.
  intros Hi Ha Hc Hd Hpa Hfg Hra Hok. destruct G as [L U]. apply (inv_intents w (mkGhost L U) d U); [done|done|done| |].
  - intros o j. rewrite Hd lookup_insert_Some. intros [[<- <-]|[_ Hj]]; [done|by apply Hi].
  - intros a g t Hu. destruct (i_reuse _ _ Hi _ _ _ Hu) as (t0 & o & Hl & H). exists t0, o. split; [done|].
    intros Hs. destruct (H Hs) as (j & Hj & ? & ? & ?). rewrite Hd. destruct (decide (op = o)) as [->|Hne].
    + rewrite Hc in Hj. injection Hj as ->. exists i'. rewrite lookup_insert_eq Hpa Hfg. auto.
    + exists j. rewrite lookup_insert_ne //.
Qed.

(** A retry is admitted once. *)
Lemma kept_admit w G t op i i' d : Inv w G → accounts d = accounts (cur w) → is_Some (accounts (cur w) !! ProviderAccountID i) →
  intents (cur w) !! op = Some i → intents d = <[op := i']> (intents (cur w)) →
  ProviderErrorAt i ≠ None → ReuseAttemptedAt i = None → ReuseAttemptedAt i' ≠ None →
  OperationID i' = OperationID i → IntentUserID i' = IntentUserID i → ProviderAccountID i' = ProviderAccountID i →
  FromGeneration i' = FromGeneration i → ProviderErrorAt i' = ProviderErrorAt i →
  Inv (commitTo d w) (mkGhost (lease G) (<[(ProviderAccountID i, FromGeneration i) := t]> (reuse G))) ∧
  reuse G !! (ProviderAccountID i, FromGeneration i) = None.
Proof.
  intros Hi Ha Hsome Hc Hd Hpe Hr Hr' H1 H2 H3 H4 H5.
  destruct (i_intent _ _ Hi _ _ Hc) as (Hop & Hu & Hj). destruct (Hj Hpe) as (t0 & tok & e & Hl & He & Hrej).
  assert (reuse G !! (ProviderAccountID i, FromGeneration i) = None) as Hnone.
  { destruct (reuse G !! _) as [t1|] eqn:E; [|done]. destruct (i_reuse _ _ Hi _ _ _ E) as (t2 & o & Hl' & H).
    rewrite Hl in Hl'. injection Hl' as <- <-. destruct (H Hsome) as (j & Hj' & _ & _ & Hne). rewrite Hc in Hj'. by injection Hj' as <-. }
  split; [|done]. apply inv_intents; [done|done|by apply insert_subseteq| |].
  - intros o j. rewrite Hd lookup_insert_Some. intros [[<- <-]|[_ Hj']]; [|by apply Hi].
    rewrite /intentOk H1 H2 H3 H4 H5. by split_and!.
  - intros a g t1. rewrite lookup_insert_Some. intros [[[= <- <-] <-]|[Hne Ht1]].
    + exists t0, op. split; [done|]. intros _. exists i'. rewrite Hd lookup_insert_eq. auto.
    + destruct (i_reuse _ _ Hi _ _ _ Ht1) as (t2 & o & Hl' & H). exists t2, o. split; [done|].
      intros Hs. destruct (H Hs) as (j & Hj' & ? & ? & ?). rewrite Hd. destruct (decide (op = o)) as [->|Hno].
      * rewrite Hc in Hj'. injection Hj' as <-. subst. by destruct Hne.
      * exists j. rewrite lookup_insert_ne //.
Qed.

(** ** The beginning, and the other writers *)
Lemma kept_init us al : Inv (wld (initially us al)) (mkGhost ∅ ∅).
Proof.
  assert (∀ a r, ¬ seen (wld (initially us al)) a r) as Hs.
  { intros a r (d & Hd & Ha). simpl in Hd. apply list_elem_of_singleton in Hd as ->. by rewrite lookup_empty in Ha. }
  constructor; simpl; try (intros; by rewrite lookup_empty in H || by destruct (Hs _ _ H)); try set_solver.
  constructor.
Qed.

Lemma fut_commit t w G d : fut t w G (commitTo d w) G.
Proof. constructor; [apply past_commit|done|done|done|done|apply order_commit]. Qed.
Lemma fut_note t w G e : ¬ byThread t e → fut t w G (noting e w) G.
Proof.
  intros Hn. constructor; [done|apply log_noting|done|done| |done]. intros e' Hb. simpl. rewrite elem_of_cons. intros [->|?]; [done|done].
Qed.

(** A statement that changes one account. *)
Lemma theAccount_Some id u cond d r : theAccount id u cond d = Some r → accounts d !! id = Some r ∧ UserID r = u ∧ cond r = true.
Proof.
  rewrite /theAccount. destruct (accounts d !! id) as [r'|]; [|done]. case_bool_decide; simpl; [|done].
  destruct (cond r') eqn:E; [|done]. by intros [= <-].
Qed.
Lemma theIntent_Some op u cond d i : theIntent op u cond d = Some i → intents d !! op = Some i ∧ IntentUserID i = u ∧ cond i = true.
Proof.
  rewrite /theIntent. destruct (intents d !! op) as [i'|]; [|done]. case_bool_decide; simpl; [|done].
  destruct (cond i') eqn:E; [|done]. by intros [= <-].
Qed.
Lemma inv_row w G id r r' : Inv w G → accounts (cur w) !! id = Some r → rowStep w id r r' →
  Inv (commitTo (setAccounts <[id := r']> (cur w)) w) G.
Proof.
  intros Hi Ha Hr. apply kept_step; [done|by eapply rowsStep_insert|]. apply intentsStep_same, sameIntents_refl.
Qed.
Lemma slotOk_none w a r : RecoverySealed r = None → slotOk w a r.
Proof. intros H ct Hct. by rewrite H in Hct. Qed.

Lemma inv_env w G w' : Inv w G → estep contents w w' → Inv w' G.
Proof.
  intros Hi He. destruct He as [ct wi id u from e g d Hs|gen rev id u e n d Hs|id a Hn Ha|id a a' Ha Hr|u|l us].
  - rewrite /RefreshCodexAccountLogin /advanceAccount in Hs.
    destruct (theAccount _ _ _ _) as [r|] eqn:E; [|done]. destruct (Generation r <? maxBigint); [|done].
    injection Hs as <- <-. destruct (theAccount_Some _ _ _ _ _ E) as (Hr & _ & _).
    change (Inv (commitTo (setAccounts <[id := touch (now e) (setReauth false None None None (setRecovery None None None None
       (setCoord Idle None None (nextLogin ct wi r))))]> (cur (noting (EInstall id (Generation r + 1) (contents ct)) w)))
       (noting (EInstall id (Generation r + 1) (contents ct)) w)) G).
    eapply inv_row; [by apply kept_note|done|]. constructor; [done|by apply slotOk_none|]. right. split_and!; [done|done|].
    left. simpl. set_solver.
  - rewrite /MarkCodexReauthRequired /updateAccount in Hs. destruct (theAccount _ _ _ _) as [r|] eqn:E.
    + injection Hs as <- <-. destruct (theAccount_Some _ _ _ _ _ E) as (Hr & _ & Hc). eapply inv_row; [done|done|].
      constructor; [done|exact (i_slot _ _ Hi _ _ Hr)|]. left. done.
    + injection Hs as <- <-. apply kept_step; [done|by eapply rowsStep_refl|apply intentsStep_same, sameIntents_refl].
  - change (Inv (commitTo (setAccounts <[id := a]> (cur (noting (EInstall id 0 (contents (SealedLogin a))) w)))
       (noting (EInstall id 0 (contents (SealedLogin a))) w)) G).
    apply kept_step; [by apply kept_note| |apply intentsStep_same, sameIntents_refl].
    intros b r. simpl. rewrite lookup_insert_Some. intros [[<- <-]|[Hne Hb]].
    + right. destruct Ha as (Hg & Hc & Hrs & _). split_and!.
      * intros r (d & Hd & Hl). by rewrite (Hn d Hd) in Hl.
      * by rewrite /busy Hc.
      * by apply slotOk_none.
      * left. rewrite Hg. simpl. set_solver.
    + left. exists r. split; [done|]. eapply (rowStep_refl _ G); [by apply kept_note|done].
  - eapply inv_row; [done|done|]. destruct Hr as (Hau & Hc & Hsl). rewrite /authority in Hau.
    injection Hau as Hu Hpu Hw Hg Hcr Hrg Hrc Hco Hop _ _ _ _ _ _ _. constructor.
    + rewrite /identity. by rewrite Hu Hpu Hw.
    + intros ct' Hct'. rewrite Hct' in Hsl. destruct (RecoverySealed a) as [ct|] eqn:Ect; [|done].
      destruct Hsl as (Hcc & Hne & _). destruct (i_slot _ _ Hi _ _ Ha ct Ect) as (Hrg' & _ & l & Hl & Hm).
      rewrite Hrg Hg Hrg'. split_and!; [done|done|]. exists l. by rewrite Hcc.
    + left. rewrite /busy Hco. by split_and!.
  - apply kept_step; [done| |split].
    + intros a r. simpl. rewrite map_lookup_filter_Some. intros [Ha _]. left. exists r. split; [done|by eapply rowStep_refl].
    + intros op i. simpl. rewrite map_lookup_filter_Some. intros [Hin _]. by exists i.
    + intros op i Hin [r Ha]. simpl in Ha |- *. apply map_lookup_filter_Some in Ha as [Ha Hne]. simpl in Hne.
      exists i. apply map_lookup_filter_Some. split; [done|]. simpl.
      destruct (i_intent _ _ Hi _ _ Hin) as (_ & (r0 & Hs & Hu) & _).
      destruct (i_same _ _ Hi _ _ _ Hs (seen_cur _ _ _ _ Hi Ha)) as [Hid _]. injection Hid as Hid _ _. by rewrite -Hu Hid.
  - apply kept_step; [done|by eapply rowsStep_refl|apply intentsStep_same, sameIntents_refl].
Qed.

Lemma fut_env w G w' : Inv w G → estep contents w w' → ∃ G', Inv w' G' ∧ ∀ t, fut t w G w' G'.
Proof.
  intros Hi He. exists G. split; [by eapply inv_env|]. intros t. destruct He; try apply fut_commit.
  - eapply fut_trans; [apply fut_commit|apply fut_note; by intros []].
  - eapply fut_trans; [apply fut_commit|apply fut_note; by intros []].
Qed.
End Inv.
End CodexInv.
