(* ===== verification/CodexSteps.v ===== *)
(** What each transaction of the coordinated refresh leaves behind, under any
    faults, and that it keeps the invariant. *)

From S2P Require Import Prelude Result Prog Txn CodexDb CodexAuthz CodexRefresh CodexSys CodexInv.

Local Open Scope Z_scope.

Module CodexSteps.
Import CodexDb CodexAuthz CodexRefresh CodexSys CodexInv.

(** * Outcomes *)
(** A write took effect whether or not it was confirmed, or there was none. *)
Definition outcome {A} (f : DB → result DbErr (A * DB)) (d : DB) (x : result DbErr A) (d' : DB) : Prop :=
  (d' = d ∧ ∃ e, x = Err e) ∨ (∃ a, f d = Ok (a, d') ∧ (x = Ok a ∨ ∃ e, x = Err e)).

Lemma inTx_run {A} (body : T A) fs d x d' (Q : result DbErr A → DB → Prop) :
  (∀ fs', Txn.T_wp body (λ r t, Q r (Txn.committed t)) (Txn.mkTX d d false fs')) → (∀ e, Q (Err e) d) →
  Txn.inTx body fs d = (x, d') → Q x d'.
Proof. intros H He Hx. pose proof (Txn.wp_T_inTx body fs d Q H He) as Hw. by rewrite Hx in Hw. Qed.

(** From what a transaction returned to what it can return. *)
Ltac run x d := intros Hrun; pattern x, d; eapply inTx_run; [| |exact Hrun]; clear.

Lemma auto_outcome {A} (f : DB → result DbErr (A * DB)) fs d x d' : Txn.inTx (auto f) fs d = (x, d') → outcome f d x d'.
Proof.
  run x d'; [|intros e; left; by eauto]. intros fs'. apply Txn.wp_T_bind, Txn.wp_T_stmt; simpl.
  - intros _ a d1 fs1 Hf. apply Txn.wp_T_bind, Txn.wp_T_commit; simpl.
    + intros _ fs2. apply Txn.wp_T_ret. right. eauto.
    + intros e fs2 c [->|[-> _]]; [left; eauto|right; eauto].
  - intros e fs1. left. eauto.
Qed.

Lemma exec_outcome (f : DB → Z * DB) fs d x d' : Txn.inTx (exec f) fs d = (x, d') →
  (d' = d ∧ ∃ e, x = Err e) ∨ (∃ n, f d = (n, d') ∧ (x = Ok n ∨ ∃ e, x = Err e)).
Proof.
  intros [H|(n & H & Hx)]%auto_outcome; [by left|]. right. exists n. split; [|done].
  destruct (f d) as [n' d1]. by injection H as -> ->.
Qed.

Lemma read_outcome {A} (f : DB → A) fs d x d' : Txn.inTx (read f) fs d = (x, d') → d' = d ∧ (x = Ok (f d) ∨ ∃ e, x = Err e).
Proof.
  run x d'; [|by eauto]. intros fs'. apply Txn.wp_query; simpl; eauto.
Qed.

Lemma admit_outcome u a op g e fs d x d' : Txn.inTx (AdmitCodexRefreshReuse u a op g e) fs d = (x, d') →
  (d' = d ∧ x ≠ Ok true) ∨ ConsumeCodexRefreshReuse u a op g (clock e) d = (1, d').
Proof.
  run x d'; [|intros; by left]. intros fs1. rewrite /AdmitCodexRefreshReuse.
  apply Txn.wp_T_bind, Txn.wp_query; [simpl; intros _ fs2|intros; by left].
  apply Txn.wp_T_bind, Txn.wp_query; [simpl; intros _ fs3|intros; by left].
  destruct (LockCodexRefreshReuseAccount a u d); simpl; [|apply Txn.wp_T_ret; by left].
  apply Txn.wp_T_bind, Txn.wp_query; [simpl; intros _ fs4|intros; by left].
  destruct (LockRotatingCodexRefreshIntent op u a g d); simpl; [|apply Txn.wp_T_ret; by left].
  apply Txn.wp_T_bind, Txn.wp_query; [simpl; intros _ fs5|intros; by left].
  apply Txn.wp_T_bind, Txn.wp_T_stmt; [simpl; intros _ n d1 fs6 Hs|intros; by left].
  destruct (Z.eqb_spec n 1) as [->|]; simpl; [|apply Txn.wp_T_ret; by left].
  injection Hs as Hs. apply Txn.wp_T_bind, Txn.wp_T_commit; simpl.
  - intros _ fs7. apply Txn.wp_T_ret. by right.
  - intros e' fs7 c [->|[-> _]]; [by left|by right].
Qed.

(** The account is quarantined and the intent closed, or nothing happens. *)
Lemma reject_outcome u a op g e fs d x d' : Txn.inTx (QuarantineRejectedCodexRefresh u a op g e) fs d = (x, d') →
  d' = d ∨ ∃ d1, ApplyCodexRejectionQuarantine a u op g e d = (1, d1) ∧ MarkCodexRejectionIntentUnrecoverable op u a g d1 = (1, d').
Proof.
  run x d'; [|intros; by left]. intros fs1. rewrite /QuarantineRejectedCodexRefresh.
  apply Txn.wp_T_bind, Txn.wp_query; [simpl; intros _ fs2|intros; by left].
  destruct (LockCodexAccountForRejection a u op g d); simpl; [|apply Txn.wp_T_ret; by left].
  apply Txn.wp_T_bind, Txn.wp_query; [simpl; intros _ fs3|intros; by left].
  destruct (LockRotatingCodexRefreshIntent op u a g d); simpl; [|apply Txn.wp_T_ret; by left].
  apply Txn.wp_T_bind, Txn.wp_T_stmt; [simpl; intros _ n d1 fs4 Hs|intros; by left].
  apply Txn.wp_T_bind, Txn.wp_T_stmt; [simpl; intros _ m d2 fs5 Hm|intros; by left].
  destruct (Z.eqb_spec n 1) as [->|]; simpl; [|apply Txn.wp_T_ret; by left].
  destruct (Z.eqb_spec m 1) as [->|]; simpl; [|apply Txn.wp_T_ret; by left].
  injection Hs as Hs. injection Hm as Hm. apply Txn.wp_T_bind, Txn.wp_T_commit; simpl.
  - intros _ fs6. apply Txn.wp_T_ret. right. eauto.
  - intros e' fs6 c [->|[-> _]]; [by left|right; eauto].
Qed.

Lemma loss_outcome u a op g e fs d x d' : Txn.inTx (quarantineCodexMaterialLoss u a op g e) fs d = (x, d') →
  d' = d ∨ ∃ n d1, QuarantineCodexAccount a u op e d = (n, d1) ∧ MarkCodexRejectionIntentUnrecoverable op u a g d1 = (1, d').
Proof.
  run x d'; [|intros; by left]. intros fs1. rewrite /quarantineCodexMaterialLoss.
  apply Txn.wp_T_bind, Txn.wp_query; [simpl; intros _ fs2|intros; by left].
  destruct (LockCodexAccountForRejection a u op g d); simpl; [|apply Txn.wp_T_ret; by left].
  apply Txn.wp_T_bind, Txn.wp_query; [simpl; intros _ fs3|intros; by left].
  destruct (LockRotatingCodexRefreshIntent op u a g d); simpl; [|apply Txn.wp_T_ret; by left].
  apply Txn.wp_T_bind, Txn.wp_query; [simpl; intros _ fs4|intros; by left].
  destruct (GetCodexProviderAccountByID a u d) as [r|]; [|by left].
  apply Txn.wp_T_bind, Txn.wp_T_stmt; [simpl; intros _ n d1 fs5 Hs|intros; by left].
  case_match; [apply Txn.wp_T_ret; by left|].
  apply Txn.wp_T_bind, Txn.wp_T_stmt; [simpl; intros _ m d2 fs6 Hm|intros; by left].
  destruct (Z.eqb_spec m 1) as [->|]; simpl; [|apply Txn.wp_T_ret; by left].
  injection Hs as Hs. injection Hm as Hm. apply Txn.wp_T_bind, Txn.wp_T_commit; simpl.
  - intros _ fs7. apply Txn.wp_T_ret. right. eauto.
  - intros e' fs7 c [->|[-> _]]; [by left|right; eauto].
Qed.

(** The body that [withCodexVaultWrite] runs: the write and its commit. *)
Definition commitWrite {A} (m : T (result error A)) : T (result error A) :=
  m ≫= λ x, match x with Err er => mret (Err er) | Ok a => Txn.Commit ≫= λ _, mret (Ok a) end.

Lemma oneRow_outcome f fs d x d' : Txn.inTx (commitWrite (oneRow f)) fs d = (x, d') →
  (d' = d ∧ ∀ g, x ≠ Ok (Ok g)) ∨ ∃ g, f d = Ok (Some g, d') ∧ ∀ g', x = Ok (Ok g') → g' = g.
Proof.
  run x d'; [|intros; by left]. intros fs1. rewrite /commitWrite /oneRow.
  apply Txn.wp_T_bind, Txn.wp_T_bind, Txn.wp_T_stmt; [simpl; intros _ r d1 fs2 Hs|intros; by left].
  destruct r as [g|]; apply Txn.wp_T_ret; [|apply Txn.wp_T_ret; by left].
  apply Txn.wp_T_bind, Txn.wp_T_commit; simpl.
  - intros _ fs3. apply Txn.wp_T_ret. right. exists g. split; [done|]. by intros g' [= ->].
  - intros e fs3 c [->|[-> _]]; [by left|right; by exists g].
Qed.

Lemma slot_outcome p e fs d x d' :
  Txn.inTx (commitWrite (Txn.stmt (λ d, Ok (SetCodexRecoverySlot p e d)) ≫= λ n,
    if negb (n =? 1) then mret (Err [errCodexRecoveryFenceLost]) else mret (Ok tt))) fs d = (x, d') →
  (d' = d ∧ x ≠ Ok (Ok tt) ∧ (x = Ok (Err [errCodexRecoveryFenceLost]) → ∃ d1, SetCodexRecoverySlot p e d = (0, d1)) ∧
     (∀ er, x = Ok (Err er) → er = [errCodexRecoveryFenceLost])) ∨
  (SetCodexRecoverySlot p e d = (1, d') ∧ ∀ er, x ≠ Ok (Err er)).
Proof.
  run x d'; [|intros; by left]. intros fs1. rewrite /commitWrite.
  apply Txn.wp_T_bind, Txn.wp_T_bind, Txn.wp_T_stmt; [simpl; intros _ n d1 fs2 Hs|intros; by left].
  injection Hs as Hs. destruct (Z.eqb_spec n 1) as [->|Hne]; simpl; apply Txn.wp_T_ret.
  - apply Txn.wp_T_bind, Txn.wp_T_commit; simpl.
    + intros _ fs3. apply Txn.wp_T_ret. by right.
    + intros e' fs3 c [->|[-> _]]; [by left|by right].
  - apply Txn.wp_T_ret. left. split_and!; [done|done| |by intros er [= <-]]. intros _. exists d1.
    rewrite /SetCodexRecoverySlot /updateAccount in Hs |- *. destruct (theAccount _ _ _ _); [by injection Hs as <- <-|by injection Hs as <- <-].
Qed.

(** * The invariant *)
Lemma updateAccount_cases id u cond f d n d' : updateAccount id u cond f d = (n, d') →
  (n = 0 ∧ d' = d ∧ theAccount id u cond d = None) ∨
  (n = 1 ∧ ∃ r, accounts d !! id = Some r ∧ UserID r = u ∧ cond r = true ∧ d' = setAccounts <[id := f r]> d).
Proof.
  rewrite /updateAccount. destruct (theAccount id u cond d) as [r|] eqn:E; intros [= <- <-]; [right|by left].
  split; [done|]. exists r. by destruct (theAccount_Some _ _ _ _ _ E) as (? & ? & ?).
Qed.
Lemma updateIntent_cases op u cond f d n d' : updateIntent op u cond f d = (n, d') →
  (n = 0 ∧ d' = d) ∨
  (n = 1 ∧ ∃ i, intents d !! op = Some i ∧ IntentUserID i = u ∧ cond i = true ∧ d' = setIntents <[op := f i]> d).
Proof.
  rewrite /updateIntent. destruct (theIntent op u cond d) as [i|] eqn:E; intros [= <- <-]; [right|by left].
  split; [done|]. exists i. by destruct (theIntent_Some _ _ _ _ _ E) as (? & ? & ?).
Qed.
Lemma advanceAccount_cases id u cond f d g d' : advanceAccount id u cond f d = Ok (Some g, d') →
  ∃ r, accounts d !! id = Some r ∧ UserID r = u ∧ cond r = true ∧ g = Generation r + 1 ∧ d' = setAccounts <[id := f r]> d.
Proof.
  rewrite /advanceAccount. destruct (theAccount id u cond d) as [r|] eqn:E; [|done].
  destruct (_ <? _); [|done]. intros [= <- <-]. exists r. by destruct (theAccount_Some _ _ _ _ _ E) as (? & ? & ?).
Qed.

(** A change of the state of one intent. *)
Lemma state_write op u cond st d n d' : updateIntent op u cond (setState st) d = (n, d') →
  accounts d' = accounts d ∧ sameIntents (intents d) (intents d').
Proof.
  intros [(_ & ->)|(_ & i & Hi & _ & _ & ->)]%updateIntent_cases; [done|]. split; [done|].
  rewrite /sameIntents /= fmap_insert. apply insert_id. by rewrite lookup_fmap Hi.
Qed.

Lemma eqs_true {A} `{EqDecision A} (x : A) o : eqs x o = true → o = Some x.
Proof. by rewrite /eqs bool_decide_eq_true. Qed.
Lemma oneOf_true x l : oneOf x l = true → x ∈ l.
Proof. by rewrite /oneOf bool_decide_eq_true. Qed.
Lemma busy_spec r : busy r = true ↔ Coord r = InProgress ∨ Coord r = Quarantined.
Proof. rewrite /busy /oneOf. destruct (Coord r); simpl; naive_solver. Qed.

Section Keep.
Context (contents : string → option codexLoginBlob).
Abbreviation Inv := (Inv contents).
Abbreviation rowStep := (rowStep contents).

Lemma keep_same w G d : Inv w G → accounts d = accounts (cur w) → sameIntents (intents (cur w)) (intents d) → Inv (commitTo d w) G.
Proof. intros Hi Ha Hs. apply kept_step; [done|by eapply rowsStep_refl|by apply intentsStep_same]. Qed.

(** A row whose login, generation and operation stay; the slot stays or is emptied. *)
Lemma rowStep_quiet w G a r r' : Inv w G → accounts (cur w) !! a = Some r → identity r' = identity r → Generation r' = Generation r →
  SealedLogin r' = SealedLogin r → busy r' = busy r → (busy r = true → CoordOperationID r' = CoordOperationID r) →
  (RecoverySealed r' = RecoverySealed r ∧ RecoveryGeneration r' = RecoveryGeneration r ∨ RecoverySealed r' = None) → rowStep w a r r'.
Proof.
  intros Hi Ha Hid Hg Hl Hb Hop Hs. constructor; [done| |left; split_and!; [done|by rewrite Hl|done|done]].
  destruct Hs as [[Hs1 Hs2]|Hs]; [|by apply slotOk_none]. rewrite /slotOk Hs1 Hs2 Hg. exact (i_slot _ _ _ Hi _ _ Ha).
Qed.

(** A quiet row together with the states of intents. *)
Lemma keep_quiet w G a r r' d : Inv w G → accounts (cur w) !! a = Some r → accounts d = <[a := r']> (accounts (cur w)) →
  sameIntents (intents (cur w)) (intents d) → identity r' = identity r → Generation r' = Generation r →
  SealedLogin r' = SealedLogin r → busy r' = busy r → (busy r = true → CoordOperationID r' = CoordOperationID r) →
  (RecoverySealed r' = RecoverySealed r ∧ RecoveryGeneration r' = RecoveryGeneration r ∨ RecoverySealed r' = None) →
  Inv (commitTo d w) G.
Proof.
  intros Hi Ha Hd Hs ??????. apply kept_step; [done| |by apply intentsStep_same].
  eapply rowsStep_insert; [done|done|done|]. by eapply rowStep_quiet.
Qed.

Lemma keep_quarantine w G a u op e n d d' : Inv w G → QuarantineCodexAccount a u op e (cur w) = (n, d) →
  accounts d' = accounts d → sameIntents (intents d) (intents d') → Inv (commitTo d' w) G.
Proof.
  intros Hi [(_ & -> & _)|(_ & r & Hr & _ & Hc & ->)]%updateAccount_cases Ha Hs; [by apply keep_same|].
  apply andb_true_iff in Hc as [Hc _]. apply bool_decide_eq_true in Hc.
  eapply keep_quiet; [done|done|exact Ha|exact Hs|done|done|done| |done|by left]. by rewrite /busy Hc.
Qed.

Lemma keep_expired w G a u t e n d : Inv w G → QuarantineExpiredCodexLease a u t e (cur w) = (n, d) → Inv (commitTo d w) G.
Proof.
  intros Hi [(_ & -> & _)|(_ & r & Hr & _ & Hc & ->)]%updateAccount_cases; [by apply keep_same|].
  apply andb_true_iff in Hc as [Hc _]. apply bool_decide_eq_true in Hc.
  eapply keep_quiet; [done|done|done|done|done|done|done| |done|by left]. by rewrite /busy Hc.
Qed.

Lemma keep_reset w G a u e n d : Inv w G → ResetCodexCoordIdle a u e (cur w) = (n, d) → Inv (commitTo d w) G.
Proof.
  intros Hi [(_ & -> & _)|(_ & r & Hr & _ & Hc & ->)]%updateAccount_cases; [by apply keep_same|].
  apply bool_decide_eq_true in Hc. assert (busy r = false) as Hb by by rewrite /busy Hc.
  eapply keep_quiet; [done|done|done|done|done|done|done|by rewrite Hb|by rewrite Hb|by left].
Qed.

Lemma keep_clear w G a u g e n d : Inv w G → ClearMismatchedCodexRecoveryAndMarkIntents a u g e (cur w) = (n, d) → Inv (commitTo d w) G.
Proof.
  intros Hi. rewrite /ClearMismatchedCodexRecoveryAndMarkIntents.
  destruct (updateAccount _ _ _ _ _) as [n' d'] eqn:E. apply updateAccount_cases in E as [(-> & -> & _)|(-> & r & Hr & _ & _ & ->)].
  - intros [= <- <-]. by apply keep_same.
  - intros [= <- <-]. eapply keep_quiet; [done|exact Hr|done| |done|done|done|done|done|by right].
    rewrite /sameIntents /= -map_fmap_compose. apply map_fmap_ext. intros o i _. rewrite /compose. by case_match.
Qed.

Lemma keep_state w G op u cond st n d : Inv w G → updateIntent op u cond (setState st) (cur w) = (n, d) → Inv (commitTo d w) G.
Proof. intros Hi [Ha Hs]%state_write. by apply keep_same. Qed.

Lemma keep_reject w G u a op g e d1 d : Inv w G → ApplyCodexRejectionQuarantine a u op g e (cur w) = (1, d1) →
  MarkCodexRejectionIntentUnrecoverable op u a g d1 = (1, d) → Inv (commitTo d w) G.
Proof.
  intros Hi [(? & _)|(_ & r & Hr & _ & Hc & ->)]%updateAccount_cases; [done|]. intros [Ha Hs]%state_write.
  rewrite /rejectionFence !andb_true_iff in Hc. destruct Hc as (((Hc & _) & _) & _).
  eapply keep_quiet; [done|exact Hr|exact Ha|exact Hs|done|done|done| |done|by left].
  change (busy r = true) in Hc. by rewrite Hc.
Qed.

(** ** Material *)
Lemma keep_slot w G p e n d l : Inv w G → contents (slotSealed p) = Some l → slotSealed p ≠ ""%string →
  made contents w (slotID p) (slotGen p) l → SetCodexRecoverySlot p e (cur w) = (n, d) → Inv (commitTo d w) G.
Proof.
  intros Hi Hc Hne Hm [(_ & -> & _)|(_ & r & Hr & _ & Hf & ->)]%updateAccount_cases; [by apply keep_same|].
  rewrite !andb_true_iff in Hf. destruct Hf as ((Hop & Hb) & Hg). apply Z.eqb_eq in Hg. change (busy r = true) in Hb.
  eapply inv_row; [done|done|]. constructor; [done| |left; split_and!; [done|done|by rewrite Hb|done]].
  intros ct [= <-]. simpl. rewrite Hg. split_and!; [done|done|]. eauto.
Qed.

Lemma keep_commit w G ct wi op a u g e g' d l : Inv w G → contents ct = Some l → madeMatching contents w a g l →
  CommitCodexRefresh ct wi op a u g e (cur w) = Ok (Some g', d) →
  Inv (commitTo d w) G ∧ g' = g + 1 ∧ ∃ r, accounts d !! a = Some r ∧ Generation r = g' ∧ SealedLogin r = ct.
Proof.
  intros Hi Hc Hm (r & Hr & _ & Hf & -> & ->)%advanceAccount_cases. rewrite !andb_true_iff in Hf. destruct Hf as ((Hg & _) & _).
  apply Z.eqb_eq in Hg. subst g. split_and!; [|done|].
  - eapply inv_row; [done|done|]. constructor; [done|by apply slotOk_none|]. right. split_and!; [done|done|].
    right. exists l. split; [done|]. left. simpl. by replace (Generation r + 1 - 1) with (Generation r) by lia.
  - eexists. split; [apply lookup_insert_eq|]. done.
Qed.

Lemma keep_promote w G a u g ct wi e g' d l r0 : Inv w G → contents ct = Some l → made contents w a g l → seen w a r0 →
  EIdentity (AccessToken l) (mkIdentity (ProviderUserID r0) (WorkspaceAccountID r0)) ∈ log w →
  PromoteCodexRecovery a u g ct wi e (cur w) = Ok (Some g', d) → Inv (commitTo d w) G.
Proof.
  intros Hi Hc Hm Hs He (r & Hr & _ & Hf & -> & ->)%advanceAccount_cases. rewrite !andb_true_iff in Hf. destruct Hf as ((_ & Hn) & Hg).
  apply eqs_true in Hg. destruct (RecoverySealed r) as [ct0|] eqn:Ect; [|done].
  destruct (i_slot _ _ _ Hi _ _ Hr ct0 Ect) as (Hg' & _). rewrite Hg in Hg'. injection Hg' as ->.
  destruct (i_same _ _ _ Hi _ _ _ Hs (seen_cur _ _ _ _ _ Hi Hr)) as [[= _ Hpu Hw] _]. rewrite Hpu Hw in He.
  eapply inv_row; [done|done|]. constructor; [done|by apply slotOk_none|]. right. split_and!; [done|done|].
  right. exists l. split; [done|]. right. simpl. by replace (Generation r + 1 - 1) with (Generation r) by lia.
Qed.

(** ** Intents, leases, retries *)
Lemma keep_insert w G op u a g e d : Inv w G → InsertCodexRefreshIntent op u a g e (cur w) = Ok (tt, d) → Inv (commitTo d w) G.
Proof.
  intros Hi. rewrite /InsertCodexRefreshIntent. destruct (intents (cur w) !! op) eqn:E; [done|].
  destruct (theAccount a u _ _) as [r|] eqn:Er; [|done]. intros [= <-].
  destruct (theAccount_Some _ _ _ _ _ Er) as (Hr & Hu & _). eapply inv_insert; [done|done|exact E|done|].
  split_and!; [done| |done]. exists r. split; [by eapply seen_cur|done].
Qed.

Lemma keep_error w G t u a op g e n d tok er : Inv w G → lease G !! (a, g) = Some (t, op) →
  EExchange t (mkExchange a g op false) tok (Err er) ∈ log w → rejected er = false →
  RecordCodexRefreshProviderError u a op g e (cur w) = (n, d) → Inv (commitTo d w) G.
Proof.
  intros Hi Hl He Hrej [(_ & ->)|(_ & i & Hin & _ & Hc & ->)]%updateIntent_cases; [by apply keep_same|].
  rewrite /rotatingFence !andb_true_iff bool_decide_eq_true in Hc. destruct Hc as (((((Hpa & Hfg) & _) & _) & _) & _). apply Z.eqb_eq in Hfg.
  eapply inv_write; [done|done|exact Hin|done|done|done|done|].
  destruct (i_intent _ _ _ Hi _ _ Hin) as (? & ? & _). split_and!; [done|done|]. intros _. simpl. rewrite Hpa Hfg. by exists t, tok, er.
Qed.

Lemma keep_admit w G t u a op g at_ d : Inv w G → ConsumeCodexRefreshReuse u a op g at_ (cur w) = (1, d) →
  Inv (commitTo d w) (mkGhost (lease G) (<[(a, g) := t]> (reuse G))) ∧ reuse G !! (a, g) = None ∧
  ∃ t0 tok er, lease G !! (a, g) = Some (t0, op) ∧ rejected er = false ∧
    exchanges a g (log w) = [EExchange t0 (mkExchange a g op false) tok (Err er)].
Proof.
  intros Hi [(? & _)|(_ & i & Hin & _ & Hc & ->)]%updateIntent_cases; [done|].
  rewrite /rotatingFence !andb_true_iff bool_decide_eq_true in Hc.
  destruct Hc as (((((((Hpa & Hfg) & _) & Hpe) & Hra) & _) & Hacc) & _). apply Z.eqb_eq in Hfg. subst a g.
  assert (ProviderErrorAt i ≠ None) as Hpe' by by destruct (ProviderErrorAt i).
  assert (ReuseAttemptedAt i = None) as Hra' by by destruct (ReuseAttemptedAt i).
  destruct (theAccount _ _ _ _) as [r|] eqn:Er; [|done]. destruct (theAccount_Some _ _ _ _ _ Er) as (Hr & _ & _).
  destruct (kept_admit contents w G t op i (setReuseAttempted at_ i) (setIntents <[op := setReuseAttempted at_ i]> (cur w)))
    as [Hi' Hn]; [done|done|by eexists|done..|]. split_and!; [exact Hi'|done|].
  destruct (i_intent _ _ _ Hi _ _ Hin) as (_ & _ & Hj). destruct (Hj Hpe') as (t0 & tok & er & Hl & He & Hrej).
  exists t0, tok, er. split_and!; [done|done|].
  assert (EExchange t0 (mkExchange (ProviderAccountID i) (FromGeneration i) op false) tok (Err er) ∈
         exchanges (ProviderAccountID i) (FromGeneration i) (log w)) as Hin'.
  { apply list_elem_of_In, filter_In. split; [by apply list_elem_of_In|]. simpl. by rewrite bool_decide_true // Z.eqb_refl. }
  destruct (i_exchanges _ _ _ Hi (ProviderAccountID i) (FromGeneration i)) as [|t1 o1 tok1 r1 Hl1|t1 o1 tok1 e1 t' tok' r' Hl1 _ Hu].
  - by apply not_elem_of_nil in Hin'.
  - apply list_elem_of_singleton in Hin'. by rewrite Hin'.
  - by rewrite Hn in Hu.
Qed.

Lemma keep_acquire w G t op dl a u g e n d : Inv w G → AcquireCodexRefreshLease op dl a u g e (cur w) = (n, d) →
  (n = 0 ∧ Inv (commitTo d w) G) ∨
  (n = 1 ∧ Inv (commitTo d w) (mkGhost (<[(a, g) := (t, op)]> (lease G)) (reuse G)) ∧ lease G !! (a, g) = None).
Proof.
  intros Hi [(-> & -> & _)|(-> & r & Hr & _ & Hc & ->)]%updateAccount_cases; [left; split; [done|by apply keep_same]|right; split; [done|]].
  apply andb_true_iff in Hc as [Hc Hg]. apply Z.eqb_eq in Hg. subst g.
  eapply inv_acquire; [done|exact Hr| |done..]. rewrite /busy. by destruct (Coord r).
Qed.
End Keep.
End CodexSteps.
