(* ===== verification/CodexSafe.v ===== *)
(** The programs of the coordinated refresh, one thread at a time: each of their
    requests keeps the invariant, and what they answer is so. *)

From S2P Require Import Prelude Result Prog Txn CodexDb CodexAuthz CodexRefresh CodexSys CodexInv CodexSteps.

Local Open Scope Z_scope.

Module CodexSafe.
Import CodexDb CodexAuthz CodexRefresh CodexSys CodexInv CodexSteps.

Section Safe.
Context (contents : string → option codexLoginBlob) (s : Service).
Abbreviation Inv := (Inv contents).
Abbreviation Safe := (safe contents Inv fut (jobOk contents)).
Abbreviation loginAt := (loginAt contents).

(** * Rules *)
Lemma bindS t {A B} (M : world → ghost → A → Prop) (Q : world → ghost → B → Prop) w G p (f : A → prog req B) :
  Safe t M w G p → (∀ w G a, Inv w G → M w G a → Safe t Q w G (f a)) → Safe t Q w G (p ≫= f).
Proof. apply thread_bind. apply fut_refl. Qed.

Lemma txS t {A B} (Q : world → ghost → B → Prop) w G (m : Ambient → T A) (k : result DbErr A → prog req B) :
  (∀ w1 G1 e fs x d, fut t w G w1 G1 → Inv w1 G1 → Txn.inTx (m e) fs (cur w1) = (x, d) →
     ∃ G2, Inv (commitTo d w1) G2 ∧ (∀ t', t' ≠ t → fut t' w1 G1 (commitTo d w1) G2) ∧ Safe t Q (commitTo d w1) G2 (k x)) →
  Safe t Q w G (db m ≫= k).
Proof.
  intros H w1 G1 Hf Hi. split; [done|]. intros x w2 (e & fs & d & He & Hx & ->). by eapply H.
Qed.

(** A transaction that keeps the invariant with the leases as they are. *)
Lemma dbS t {A B} (Q : world → ghost → B → Prop) w G (m : Ambient → T A) (k : result DbErr A → prog req B) :
  (∀ w1 G1 e fs x d, fut t w G w1 G1 → Inv w1 G1 → Txn.inTx (m e) fs (cur w1) = (x, d) →
     Inv (commitTo d w1) G1 ∧
     (fut t w G (commitTo d w1) G1 → Inv (commitTo d w1) G1 → Safe t Q (commitTo d w1) G1 (k x))) →
  Safe t Q w G (db m ≫= k).
Proof.
  intros H. apply txS. intros w1 G1 e fs x d Hf Hi Hx. destruct (H _ _ _ _ _ _ Hf Hi Hx) as [Hi' Hs]. exists G1.
  split_and!; [done|intros; apply fut_commit|]. apply Hs; [|done]. eapply fut_trans; [exact Hf|apply fut_commit].
Qed.

Lemma readS t {A B} (Q : world → ghost → B → Prop) w G (f : Ambient → DB → A) (k : result DbErr A → prog req B) :
  (∀ w1 G1 e x, fut t w G w1 G1 → Inv w1 G1 → x = Ok (f e (cur w1)) ∨ (∃ er, x = Err er) → Safe t Q w1 G1 (k x)) →
  Safe t Q w G (db (λ e, read (f e)) ≫= k).
Proof.
  intros H. apply dbS. intros w1 G1 e fs x d Hf Hi [-> Hx]%read_outcome. split; [by apply keep_same|]. intros Hf' Hi'. by eapply H.
Qed.

Lemma execS t {B} (Q : world → ghost → B → Prop) w G (f : Ambient → DB → Z * DB) (k : result DbErr Z → prog req B) :
  (∀ w1 G1 e n d, fut t w G w1 G1 → Inv w1 G1 → f e (cur w1) = (n, d) → Inv (commitTo d w1) G1) →
  (∀ w1 G1 x, fut t w G w1 G1 → Inv w1 G1 → Safe t Q w1 G1 (k x)) →
  Safe t Q w G (updateDb f ≫= k).
Proof.
  intros Hk H. apply dbS. intros w1 G1 e fs x d Hf Hi Hx. apply exec_outcome in Hx as [(-> & _)|(n & Hn & _)].
  - split; [by apply keep_same|]. auto.
  - split; [by eapply Hk|]. auto.
Qed.

(** A request that leaves the world as it is. *)
Definition still {X} (r : req X) : bool :=
  match r with TX _ | Refresh _ _ | DiscoverIdentity _ | Background _ => false | _ => true end.
Lemma stillS t {X B} (Q : world → ghost → B → Prop) w G (r : req X) (k : X → prog req B) : still r = true →
  (∀ w1 G1 x, fut t w G w1 G1 → Inv w1 G1 → pstep contents t w1 r x w1 → Safe t Q w1 G1 (k x)) →
  Safe t Q w G (call r ≫= k).
Proof.
  intros Hr H. apply safe_pure; [apply fut_refl| | |done].
  - intros w1 G1. by destruct r.
  - intros w1 x w2. destruct r; try done; simpl; [by intros [-> _]|by intros [-> _]].
Qed.

Lemma retS t {A} (Q : world → ghost → A → Prop) w G a :
  (∀ w' G', fut t w G w' G' → Inv w' G' → Q w' G' a) → Safe t Q w G (Ret a).
Proof. done. Qed.

(** A program without exchanges whose answer satisfies [F]. *)
Definition quietly (t : nat) {A} (F : world → ghost → A → Prop) (w : world) (G : ghost) (p : prog req A) : Prop :=
  Safe t (λ w' G' a, fut t w G w' G' ∧ F w' G' a) w G p.

Lemma quietS t {A B} (F : world → ghost → A → Prop) (Q : world → ghost → B → Prop) w G p (f : A → prog req B) :
  quietly t F w G p → (∀ w1 G1 a, fut t w G w1 G1 → Inv w1 G1 → F w1 G1 a → Safe t Q w1 G1 (f a)) → Safe t Q w G (p ≫= f).
Proof. intros Hp Hf. eapply bindS; [exact Hp|]. intros w1 G1 a Hi [??]. by apply Hf. Qed.

Lemma quietly_weaken t {A} (F F' : world → ghost → A → Prop) w G p :
  quietly t F w G p → (∀ w G a, Inv w G → F w G a → F' w G a) → quietly t F' w G p.
Proof. intros H HF. eapply safe_mono; [exact H|]. intros w1 G1 a Hi [??]. eauto. Qed.

Lemma quiet_ret t {A} (F : world → ghost → A → Prop) w0 G0 w G a :
  fut t w0 G0 w G → (∀ w' G', fut t w G w' G' → Inv w' G' → F w' G' a) →
  Safe t (λ w' G' a, fut t w0 G0 w' G' ∧ F w' G' a) w G (Ret a).
Proof. intros Hf HF. apply retS. intros w' G' Hf' Hi. split; [by eapply fut_trans|by apply HF]. Qed.

(** Nothing is claimed of the answer. *)
Definition any {A} (w : world) (G : ghost) (a : A) : Prop := True.

Lemma seen_fut t w G w' G' a r : fut t w G w' G' → seen w a r → seen w' a r.
Proof. intros []. by apply seen_past. Qed.
Lemma loginAt_fut t w G w' G' a g r l : fut t w G w' G' → loginAt w a g r l → loginAt w' a g r l.
Proof. intros []. by apply loginAt_past. Qed.
Lemma made_fut t w G w' G' a g l : fut t w G w' G' → made contents w a g l → made contents w' a g l.
Proof. intros []. by apply made_mono. Qed.
Lemma lease_fut t w G w' G' k x : fut t w G w' G' → lease G !! k = Some x → lease G' !! k = Some x.
Proof. intros [] H. by eapply lookup_weaken. Qed.
Lemma log_fut t w G w' G' e : fut t w G w' G' → e ∈ log w → e ∈ log w'.
Proof. intros []. set_solver. Qed.

(** * Reading *)
Definition snapshotOf (user id : uuid) (w : world) (G : ghost) (r : result error codexAccountSnapshot) : Prop :=
  ∀ snap, r = Ok snap → SnapID snap = id ∧ seen w id (Acct snap) ∧ UserID (Acct snap) = user.

Lemma readSnapshot t w G user id : quietly t (snapshotOf user id) w G (readCodexAccountSnapshot user id).
Proof.
  rewrite /quietly /readCodexAccountSnapshot. apply (readS _ _ _ _ (λ _, GetCodexProviderAccountSnapshot user id)). intros w1 G1 _ x Hf Hi Hx.
  assert (∀ r, (∀ snap, r ≠ Ok snap) → Safe t (λ w' G' a, fut t w G w' G' ∧ snapshotOf user id w' G' a) w1 G1 (Ret r)) as Herr.
  { intros r Hr. apply quiet_ret; [done|]. intros w' G' _ _ snap ->. by destruct (Hr snap). }
  destruct x as [[[a ep]|]|[]]; try (apply Herr; done).
  case_bool_decide as Hu; cbn [negb]; [|apply Herr; done]. apply quiet_ret; [done|]. intros w' G' Hf' _ snap [= <-]. simpl.
  destruct Hx as [Hx|[? [=]]]. injection Hx as Hx. rewrite /GetCodexProviderAccountSnapshot in Hx.
  destruct (theAccount _ _ _ _) as [r|] eqn:E; [|done]. destruct (users _ !! _); [|done]. injection Hx as -> ->.
  split_and!; [done| |done]. eapply seen_fut; [done|]. eapply seen_cur; [done|]. by destruct (theAccount_Some _ _ _ _ _ E).
Qed.

(** What opening a slot of a row returns. *)
Definition slotOf (recovery : bool) (r : CodexProviderAccount) : option string :=
  if recovery then RecoverySealed r else Some (SealedLogin r).
Definition openOf (recovery : bool) (snap : codexAccountSnapshot) (w : world) (G : ghost) (r : result error codexLoginBlob) : Prop :=
  ∀ l, r = Ok l → AccessToken l ≠ ""%string ∧
    ∃ row ct, seen w (SnapID snap) row ∧ Generation row = Generation (Acct snap) ∧ slotOf recovery row = Some ct ∧ contents ct = Some l.

Lemma openRow_safe t w G owner recovery snap :
  quietly t (λ _ _ r, ∀ p, r = Ok p → ∃ ct, slotOf recovery (Acct snap) = Some ct ∧ p = contents ct) w G (openRow owner recovery snap).
Proof.
  rewrite /quietly /openRow. destruct (if recovery then _ else _) as [[marker ct]|] eqn:E; [|apply quiet_ret; [apply fut_refl|done]].
  destruct (negb _ || _) eqn:E2; [apply quiet_ret; [apply fut_refl|done]|].
  apply orb_false_iff in E2 as [_ Hne]. apply (safe_call contents). intros w1 G1 Hf Hi. split; [done|].
  intros x w2 [-> Hx]. exists G1. split_and!; [done|intros; apply fut_refl|]. apply quiet_ret; [done|].
  intros w' G' _ _ p ->. specialize (Hx p eq_refl) as ->. exists ct. split; [|done]. rewrite /slotOf. destruct recovery.
  - destruct (RecoverySealedWith (Acct snap)); [|done]. injection E as <- <-. destruct (RecoverySealed (Acct snap)); [done|done].
  - by injection E as _ ->.
Qed.

Lemma sameAuthority_generation a b : codexSameAccountAuthority a b = true → Generation b = Generation a.
Proof.
  rewrite /codexSameAccountAuthority. do 3 (case_match; [done|]). rewrite bool_decide_eq_true /authority. by intros [=].
Qed.

Lemma openSlot t w G owner snap recovery : seen w (SnapID snap) (Acct snap) →
  quietly t (openOf recovery snap) w G (openCodexAccountSlot owner snap recovery).
Proof.
  intros Hs. rewrite /quietly /openCodexAccountSlot.
  assert (∀ w1 G1 e, fut t w G w1 G1 → Safe t (λ w' G' a, fut t w G w' G' ∧ openOf recovery snap w' G' a) w1 G1 (Ret (Err e))) as Herr.
  { intros w1 G1 e Hf. apply quiet_ret; [done|]. by intros. }
  assert (∀ w1 G1 r row, fut t w G w1 G1 → seen w1 (SnapID snap) row → Generation row = Generation (Acct snap) →
    (∀ p, r = Ok p → ∃ ct, slotOf recovery row = Some ct ∧ p = contents ct) →
    Safe t (λ w' G' a, fut t w G w' G' ∧ openOf recovery snap w' G' a) w1 G1 (Ret (opened r))) as Hok.
  { intros w1 G1 r row Hf Hrow Hg Hr. destruct r as [[l|]|[]]; try (by apply Herr). rewrite /opened.
    destruct (String.eqb_spec (AccessToken l) ""); [by apply Herr|]. apply quiet_ret; [done|]. intros w' G' Hf' _ l' [= <-].
    split; [done|]. destruct (Hr _ eq_refl) as (ct & Hct & Hl). exists row, ct. split_and!; [by eapply seen_fut|done..]. }
  case_bool_decide; cbn [negb]; [|apply Herr, fut_refl]. eapply quietS; [apply openRow_safe|]. intros w1 G1 r Hf Hi Hr.
  assert (Safe t (λ w' G' a, fut t w G w' G' ∧ openOf recovery snap w' G' a) w1 G1 (Ret (opened r))) as Hdone.
  { eapply Hok; [done|by eapply seen_fut|done|exact Hr]. }
  destruct r as [|[]]; try exact Hdone. eapply quietS; [apply readSnapshot|]. intros w2 G2 [fresh|e] Hf2 Hi2 Hsn; last first.
  { apply Herr. by eapply fut_trans. }
  destruct (Hsn _ eq_refl) as (Hid & Hseen & _). destruct (codexSameAccountAuthority _ _) eqn:Eau; cbn [negb]; last first.
  { apply Herr. by eapply fut_trans. }
  eapply quietS; [apply openRow_safe|]. intros w3 G3 r' Hf3 Hi3 Hr'.
  eapply (Hok _ _ _ (Acct fresh)); [do 2 (eapply fut_trans; [done|]); done| | |exact Hr'].
  - rewrite -Hid in Hseen. rewrite -Hid. by eapply seen_fut.
  - by apply sameAuthority_generation.
Qed.

(** * Recovery material *)
Lemma vaultWriteS t {A} (Q : world → ghost → result error A → Prop) w G user raw purpose (write : SealedMaterial → Ambient → T (result error A)) :
  (∀ w' G' er, fut t w G w' G' → Inv w' G' → errCodexRecoveryFenceLost ∉ er → Q w' G' (Err er)) →
  (∀ w1 G1 sealed e fs x d, fut t w G w1 G1 → Inv w1 G1 → contents (Ciphertext sealed) = Some raw → Ciphertext sealed ≠ ""%string →
     Txn.inTx (commitWrite (write sealed e)) fs (cur w1) = (x, d) →
     Inv (commitTo d w1) G1 ∧ ∀ w' G', fut t (commitTo d w1) G1 w' G' → Inv w' G' →
       Q w' G' match x with Err e => Err (ofDb e) | Ok y => y end) →
  Safe t Q w G (withCodexVaultWrite s user raw purpose write).
Proof.
  intros Herr Hwrite. rewrite /withCodexVaultWrite.
  assert (∀ w1 G1 er, fut t w G w1 G1 → errCodexRecoveryFenceLost ∉ er → Safe t Q w1 G1 (Ret (Err er))) as Hret.
  { intros w1 G1 er Hf Hn. apply retS. intros w' G' Hf' Hi'. apply Herr; [by eapply fut_trans|done|done]. }
  assert (∀ e : DbErr, errCodexRecoveryFenceLost ∉ ofDb e) as Hdb by (intros []; by compute_done || set_solver).
  destruct (vlt s); cbn [negb]; [|apply Hret; [apply fut_refl|set_solver]].
  destruct (txBeginner s); cbn [negb]; [|apply Hret; [apply fut_refl|set_solver]].
  apply stillS; [done|]. intros w1 G1 [[mode epoch]|e] Hf1 Hi1 _; [|by apply Hret].
  apply stillS; [done|]. intros w2 G2 [sealed|[]] Hf2 Hi2 Hsl; [|apply Hret; [by eapply fut_trans|set_solver]..].
  destruct Hsl as [_ Hsl]. destruct (Hsl sealed eq_refl) as [Hc Hne].
  destruct (negb _ || negb _); [apply Hret; [by eapply fut_trans|set_solver]|].
  apply stillS; [done|]. intros w3 G3 [[]|e] Hf3 Hi3 _; [|apply Hret; [do 2 (eapply fut_trans; [done|]); done|done]].
  apply (dbS t Q w3 G3 (λ e, commitWrite (write sealed e))). intros w4 G4 e fs x d Hf4 Hi4 Hx.
  destruct (Hwrite w4 G4 sealed e fs x d) as [Hi5 HQ]; [do 3 (eapply fut_trans; [done|]); done|done|done|done|done|].
  split; [done|]. intros Hf5 _. destruct x as [y|er]; apply retS; intros w' G' Hf' Hi'; by apply HQ.
Qed.

(** The slot has held this login; the account has left this generation: a later one
    was committed, or the account was there and is not any more. *)
Definition slotHeld (w : world) (a : uuid) (g : Z) (l : codexLoginBlob) : Prop :=
  ∃ r ct, seen w a r ∧ Generation r = g ∧ RecoverySealed r = Some ct ∧ contents ct = Some l.
Definition removed (w : world) (a : uuid) : Prop :=
  ∃ l1 d l2, past w = l1 ++ d :: l2 ∧ accounts d !! a = None ∧ ∃ d' r, d' ∈ l2 ∧ accounts d' !! a = Some r.
Definition movedOn (w : world) (a : uuid) (g : Z) : Prop := (∃ r, seen w a r ∧ g < Generation r) ∨ removed w a.

Lemma slotHeld_past w w' a g l : past w ⊆ past w' → slotHeld w a g l → slotHeld w' a g l.
Proof. intros Hp (r & ct & ? & ?). exists r, ct. split; [by eapply seen_past|done]. Qed.
Lemma order_past w w' : past w `suffix_of` past w' → past w ⊆ past w'.
Proof. intros [l Hl]. rewrite Hl. set_solver. Qed.
Lemma movedOn_past w w' a g : past w `suffix_of` past w' → movedOn w a g → movedOn w' a g.
Proof.
  intros Ho [(r & Hs & Hg)|(l1 & d & l2 & Hp & H)].
  - left. exists r. split; [|done]. eapply seen_past; [by apply order_past|done].
  - right. destruct Ho as [l Hl]. exists (l ++ l1), d, l2. split; [by rewrite Hl Hp -app_assoc|done].
Qed.

(** A slot that cannot be written any more belongs to an account that has moved on. *)
Lemma fence_lost w G j p e d : Inv w G → jobOk contents w G j → slotID p = jAccount j → slotGen p = jGen j → slotUser p = jUser j →
  slotOp p = jOp j → SetCodexRecoverySlot p e (cur w) = (0, d) → movedOn w (jAccount j) (jGen j).
Proof.
  intros Hi (_ & (t0 & Hl) & r0 & Hs & Hu & Hg) Hid Hgen Hus Hop [(_ & -> & Hn)|(? & _)]%updateAccount_cases; [|done].
  destruct (accounts (cur w) !! jAccount j) as [r|] eqn:Hr; last first.
  { right. pose proof (i_cur _ _ _ Hi) as Hc. destruct (past w) as [|d0 l] eqn:Ep; [done|]. injection Hc as ->.
    destruct Hs as (d' & Hd' & Ha). rewrite Ep in Hd'. apply elem_of_cons in Hd' as [->|Hd']; [by rewrite Hr in Ha|].
    exists [], (cur w), l. split_and!; [done|done|]. by exists d', r0. }
  left. exists r. split; [by eapply seen_cur|]. destruct (i_same _ _ _ Hi _ _ _ Hs (seen_cur _ _ _ _ _ Hi Hr)) as [[= Hur _ _] _].
  pose proof (i_newest _ _ _ Hi _ _ _ Hs Hr) as Hle. destruct (decide (Generation r = jGen j)) as [Heq|]; [exfalso|lia].
  pose proof (i_lease _ _ _ Hi _ _ Hr) as Hb. rewrite Heq in Hb. destruct (busy r) eqn:Eb; [|by rewrite Hl in Hb].
  destruct Hb as (t1 & op1 & Hl1 & Hco). rewrite Hl in Hl1. injection Hl1 as <- <-.
  rewrite /theAccount Hid Hr in Hn. rewrite bool_decide_true in Hn; [congruence|].
  rewrite Hco Hop /eqs bool_decide_true in Hn; [done|]. change (oneOf (Coord r) [InProgress; Quarantined]) with (busy r) in Hn.
  by rewrite Eb Heq Hgen Z.eqb_refl in Hn.
Qed.

Definition slotWritten (j : Job) (w : world) (G : ghost) (r : result error unit) : Prop :=
  match r with
  | Ok _ => slotHeld w (jAccount j) (jGen j) (jRaw j)
  | Err e => Is e errCodexRecoveryFenceLost = true → movedOn w (jAccount j) (jGen j)
  end.

Lemma writeSlot t w G j : jobOk contents w G j → quietly t (slotWritten j) w G (writeCodexRecoverySlotOnce s j).
Proof.
  intros Hj. rewrite /quietly /writeCodexRecoverySlotOnce. apply vaultWriteS.
  - intros w' G' er Hf Hi Hn. split; [done|]. rewrite /slotWritten /Is bool_decide_eq_true. by intros.
  - intros w1 G1 sealed e fs x d Hf Hi Hc Hne Hx. pose proof (jobOk_fut _ _ _ _ _ _ _ Hf Hj) as Hj1.
    apply slot_outcome in Hx as [(-> & Hno & Hlost & Hall)|(Hs & Hnerr)].
    + split; [by apply keep_same|]. intros w' G' Hf' Hi'. split; [eapply fut_trans; [exact Hf|]; eapply fut_trans; [apply fut_commit|exact Hf']|].
      destruct x as [[[]|er]|er]; [done| |].
      * rewrite (Hall er eq_refl). intros _. destruct (Hlost ltac:(by rewrite (Hall er eq_refl))) as [d1 Hd1].
        eapply movedOn_past; [apply Hf'|]. eapply movedOn_past; [apply order_commit|]. eapply fence_lost; [done|exact Hj1| | | | |exact Hd1]; done.
      * rewrite /slotWritten. destruct er; by rewrite /Is bool_decide_eq_true; set_solver.
    + split; [eapply (keep_slot contents _ _ _ _ _ _ _ Hi); [| | |exact Hs]; [exact Hc|exact Hne|apply Hj1]|]. intros w' G' Hf' Hi'.
      split; [eapply fut_trans; [exact Hf|]; eapply fut_trans; [apply fut_commit|exact Hf']|].
      assert (slotHeld w' (jAccount j) (jGen j) (jRaw j)) as Hheld.
      { apply updateAccount_cases in Hs as [(? & _)|(_ & r & Hr & _ & Hcd & ->)]; [done|]. simpl in Hcd.
        rewrite !andb_true_iff in Hcd. destruct Hcd as (_ & Hg). apply Z.eqb_eq in Hg.
        eapply slotHeld_past; [apply Hf'|]. eexists _, _.
        split; [apply seen_commit; right; simpl; apply lookup_insert_eq|]. split_and!; [exact Hg|reflexivity|exact Hc]. }
      destruct x as [[[]|er]|er]; [done|by destruct (Hnerr er)|]. rewrite /slotWritten. destruct er; by rewrite /Is bool_decide_eq_true; set_solver.
Qed.

Lemma syncWrites_safe t n w G j : jobOk contents w G j →
  quietly t (λ w G r, match r with Some r => slotWritten j w G r ∧ (∀ e, r = Err e → movedOn w (jAccount j) (jGen j)) | None => True end)
    w G (syncWrites s n j).
Proof.
  revert w G. induction n as [|n IH]; intros w G Hj; rewrite /quietly; cbn [syncWrites]; [by apply quiet_ret; [apply fut_refl|]|].
  eapply quietS; [by apply writeSlot|]. intros w1 G1 [[]|e] Hf Hi Hr.
  - apply quiet_ret; [done|]. intros w' G' Hf' Hi'. split; [|done]. eapply slotHeld_past; [apply Hf'|exact Hr].
  - destruct (Is e _) eqn:E.
    + apply quiet_ret; [done|]. intros w' G' Hf' Hi'. assert (movedOn w' (jAccount j) (jGen j)) as Hm.
      { eapply movedOn_past; [apply Hf'|by apply Hr]. }
      split; [intros _; exact Hm|intros ? _; exact Hm].
    + eapply safe_mono; [apply IH; by eapply jobOk_fut|]. intros w' G' a Hi' [Hf' Ha]. split; [by eapply fut_trans|done].
Qed.

Definition persisted (t : nat) (j : Job) (w : world) (G : ghost) (r : result error bool) : Prop :=
  match r with
  | Ok true => slotHeld w (jAccount j) (jGen j) (jRaw j)
  | Ok false => EHanded t j ∈ log w
  | Err _ => movedOn w (jAccount j) (jGen j) ∨ background s = false
  end.

Lemma persist_safe t w G j : jobOk contents w G j → quietly t (persisted t j) w G (persistCodexRecoverySlotWithTerminal s j).
Proof.
  intros Hj. rewrite /quietly /persistCodexRecoverySlotWithTerminal. eapply quietS; [by apply syncWrites_safe|].
  intros w1 G1 [[[]|e]|] Hf Hi Hr.
  - apply quiet_ret; [done|]. intros w' G' Hf' Hi'. destruct Hr as [Hr _]. eapply slotHeld_past; [apply Hf'|exact Hr].
  - apply quiet_ret; [done|]. intros w' G' Hf' Hi'. left. eapply movedOn_past; [apply Hf'|]. by eapply Hr.
  - destruct (background s) eqn:Eb; cbn [negb]; [|apply quiet_ret; [done|]; intros; by right].
    intros w2 G2 Hf2 Hi2. split; [simpl; do 2 (eapply jobOk_fut; [done|]); done|]. intros x w3 ->. exists G2.
    split_and!; [by apply kept_note|intros; apply fut_note; by intros []|].
    assert (fut t w2 G2 (noting (EHanded t j) w2) G2) as Hn by (apply fut_note; by intros []).
    apply quiet_ret; [do 2 (eapply fut_trans; [done|]); done|]. intros w' G' Hf' _. simpl. eapply log_fut; [done|]. simpl. set_solver.
Qed.

(** * Statements whose answer is not used *)
Lemma loss_safe t w G user a op g : quietly t any w G (recordCodexMaterialLoss s user a op g).
Proof.
  rewrite /quietly /recordCodexMaterialLoss. destruct (txBeginner s); cbn [negb]; [|apply quiet_ret; [apply fut_refl|done]].
  apply dbS. intros w1 G1 e fs x d Hf Hi Hx. split; [|intros; by apply quiet_ret].
  apply loss_outcome in Hx as [->|(n & d1 & Hq & Hm)]; [by apply keep_same|].
  apply state_write in Hm as [Ha Hs]. by eapply keep_quarantine.
Qed.

Lemma reuseTerminal_safe t w G user a op g : quietly t any w G (markCodexReuseUnrecoverable user a op g).
Proof.
  rewrite /quietly /markCodexReuseUnrecoverable. apply execS; [|intros; by apply quiet_ret].
  intros w1 G1 e n d Hf Hi Hs. by eapply keep_state.
Qed.

Lemma terminal_safe t w G j : quietly t any w G (terminal s j).
Proof. rewrite /terminal. destruct (jReuse j); [apply reuseTerminal_safe|apply loss_safe]. Qed.

Lemma background_safe t n w G j : jobOk contents w G j → quietly t any w G (backgroundWrites s n j).
Proof.
  revert w G. induction n as [|n IH]; intros w G Hj; cbn [backgroundWrites]; [apply terminal_safe|].
  eapply quietS; [by apply writeSlot|]. intros w1 G1 [[]|e] Hf Hi _; [by apply quiet_ret|].
  destruct (Is e _); [by apply quiet_ret|]. eapply safe_mono; [apply IH; by eapply jobOk_fut|].
  intros w' G' a Hi' [Hf' _]. split; [by eapply fut_trans|done].
Qed.

Lemma rejection_safe t w G user a op g : quietly t any w G (recordCodexRefreshRejection s user a op g).
Proof.
  rewrite /quietly /recordCodexRefreshRejection. destruct (txBeginner s); cbn [negb]; [|apply quiet_ret; [apply fut_refl|done]].
  apply dbS. intros w1 G1 e fs x d Hf Hi Hx. split; [|intros; by apply quiet_ret].
  apply reject_outcome in Hx as [->|(d1 & Ha & Hm)]; [by apply keep_same|by eapply keep_reject].
Qed.

Lemma intentState_safe t w G st op user B (k : result DbErr Z → prog req B) (Q : world → ghost → B → Prop) :
  (∀ w1 G1 x, fut t w G w1 G1 → Inv w1 G1 → Safe t Q w1 G1 (k x)) →
  Safe t Q w G (updateDb (λ _, SetCodexRefreshIntentState st op user) ≫= k).
Proof. intros H. apply execS; [|done]. intros w1 G1 e n d Hf Hi Hs. by eapply keep_state. Qed.

(** * The refresh *)
(** The token was the committed login of the account at the generation returned. *)
Definition committedFor (user account : uuid) (w : world) (r : CodexRefreshResult) : Prop :=
  ∃ row l, loginAt w account (ResGeneration r) row l ∧ UserID row = user ∧ ResAccessToken r = AccessToken l ∧
    ResAccessToken r ≠ ""%string ∧ ResAccountID r = WorkspaceAccountID row.
Definition answered (user account : uuid) (w : world) (G : ghost) (a : CodexRefreshResult * option error) : Prop :=
  a.2 = None → committedFor user account w a.1.

Lemma committedFor_past user a w w' r : past w ⊆ past w' → committedFor user a w r → committedFor user a w' r.
Proof. intros Hp (row & l & ? & ?). exists row, l. split; [by eapply loginAt_past|done]. Qed.

Lemma refused t w0 G0 w G user account r e : fut t w0 G0 w G →
  Safe t (λ w' G' a, fut t w0 G0 w' G' ∧ answered user account w' G' a) w G (Ret (r, Some e)).
Proof. intros Hf. apply quiet_ret; [done|]. by intros. Qed.

(** The row behind an opened login is the account's at that generation. *)
Lemma open_login w G account snap l : Inv w G → SnapID snap = account → seen w account (Acct snap) →
  openOf false snap w G (Ok l) → ∃ row, loginAt w account (Generation (Acct snap)) row l ∧ identity row = identity (Acct snap) ∧ AccessToken l ≠ ""%string.
Proof.
  intros Hi Hid Hs Ho. destruct (Ho l eq_refl) as (Hne & row & ct & Hrow & Hg & [= <-] & Hc). rewrite Hid in Hrow.
  exists row. split_and!; [done| |done]. by destruct (i_same _ _ _ Hi _ _ _ Hrow Hs).
Qed.

Definition snapOk (user account : uuid) (w : world) (snap : codexAccountSnapshot) : Prop :=
  SnapID snap = account ∧ seen w account (Acct snap) ∧ UserID (Acct snap) = user.
Lemma snapOk_fut t w G w' G' user account snap : fut t w G w' G' → snapOk user account w snap → snapOk user account w' snap.
Proof. intros Hf (? & ? & ?). split_and!; [done|by eapply seen_fut|done]. Qed.

Lemma returnCommitted t w G user account snap o : snapOk user account w snap →
  quietly t (answered user account) w G (codexReturnCommitted user snap o).
Proof.
  intros (Hid & Hs & Hu). rewrite /quietly /codexReturnCommitted. case_bool_decide; [apply refused, fut_refl|].
  eapply quietS; [apply openSlot; by rewrite Hid|]. intros w1 G1 [l|e] Hf Hi Ho; [|by apply refused].
  apply quiet_ret; [done|]. intros w' G' Hf' Hi' _. eapply committedFor_past; [apply Hf'|].
  destruct (open_login w1 G1 account snap l Hi Hid) as (row & Hl & Hidr & Hne); [by eapply seen_fut|done|].
  injection Hidr as Hur Hpu Hw. exists row, l. by rewrite Hw Hur.
Qed.

(** Followed from an earlier point. *)
Lemma then_quiet t {A} (F : world → ghost → A → Prop) w0 G0 w G p : fut t w0 G0 w G → quietly t F w G p →
  Safe t (λ w' G' a, fut t w0 G0 w' G' ∧ F w' G' a) w G p.
Proof. intros Hf Hp. eapply safe_mono; [exact Hp|]. intros w' G' a Hi [Hf' HF]. split; [by eapply fut_trans|done]. Qed.

Lemma replay_safe t w G user account snap i : snapOk user account w snap →
  quietly t (answered user account) w G (replayIntent user account snap i).
Proof.
  intros Hs. rewrite /replayIntent. case_bool_decide; cbn [negb]; [|apply refused, fut_refl].
  destruct (State i); [|by apply returnCommitted|apply refused, fut_refl|by apply returnCommitted].
  case_match; [by apply returnCommitted|apply refused, fut_refl].
Qed.

Lemma duplicate_safe t w G user account op : quietly t (answered user account) w G (codexReplayAfterDuplicate user account op).
Proof.
  rewrite /quietly /codexReplayAfterDuplicate. eapply quietS; [apply readSnapshot|]. intros w1 G1 [snap|e] Hf Hi Hs; [|by apply refused].
  apply (readS _ _ _ _ (λ _, GetCodexRefreshIntent op user)). intros w2 G2 _ [[i|]|e] Hf2 Hi2 _; [|apply refused; by eapply fut_trans..].
  apply then_quiet; [by eapply fut_trans|]. apply replay_safe. eapply snapOk_fut; [exact Hf2|]. by apply Hs.
Qed.

(** ** After an exchange *)
(** Where the material of an exchange has gone. *)
Definition kept (t : nat) (w : world) (a : uuid) (g : Z) (row : CodexProviderAccount) (c : FreshAccessTokenIdentityClaims) (m : codexLoginBlob) : Prop :=
  classifyCodexFreshIdentity row c = codexFreshIdentityMismatch ∨
  (∃ r, loginAt w a (g + 1) r m) ∨ slotHeld w a g m ∨ movedOn w a g ∨
  (∃ j, EHanded t j ∈ log w ∧ jAccount j = a ∧ jGen j = g ∧ jRaw j = m) ∨ background s = false.
Lemma kept_mono t w w' a g row c m : past w `suffix_of` past w' → log w ⊆ log w' → kept t w a g row c m → kept t w' a g row c m.
Proof.
  intros Ho Hl [?|[[r Hr]|[?|[?|[(j & ? & ?)|?]]]]]; pose proof (order_past _ _ Ho) as Hp.
  - by left.
  - right; left. exists r. by eapply loginAt_past.
  - right; right; left. by eapply slotHeld_past.
  - right; right; right; left. by eapply movedOn_past.
  - do 4 right; left. exists j. split; [set_solver|done].
  - by do 5 right.
Qed.

(** Every successful exchange of the thread is accounted for. *)
Definition settled (t : nat) (w : world) : Prop := ∀ x tok res, EExchange t x tok (Ok res) ∈ log w →
  ∃ row prev, loginAt w (xAccount x) (xGeneration x) row prev ∧ tok = RefreshToken prev ∧
    kept t w (xAccount x) (xGeneration x) row (IdentityClaims res) (mergeCodexLogin prev res).

Lemma settled_fut t w G w' G' : fut t w G w' G' → settled t w → settled t w'.
Proof.
  intros [Hp Hl _ _ Hm Ho] Hs x tok res He. destruct (Hs x tok res) as (row & prev & Hr & -> & Hk); [by apply Hm|].
  exists row, prev. split_and!; [by eapply loginAt_past|done|by eapply kept_mono].
Qed.

(** What is known of an exchange that has just brought new material. *)
Definition rotated (t t0 : nat) (user a op : uuid) (g : Z) (b : bool) (row : CodexProviderAccount) (prev : codexLoginBlob) (res : RefreshResult)
    (w : world) (G : ghost) : Prop :=
  EExchange t (mkExchange a g op b) (RefreshToken prev) (Ok res) ∈ log w ∧ loginAt w a g row prev ∧ UserID row = user ∧
  lease G !! (a, g) = Some (t0, op).

Lemma rotated_fut t t0 user a op g b row prev res w G w' G' : fut t w G w' G' →
  rotated t t0 user a op g b row prev res w G → rotated t t0 user a op g b row prev res w' G'.
Proof.
  intros Hf (? & ? & ? & ?). split_and!; [by eapply log_fut|by eapply loginAt_fut|done|by eapply lease_fut].
Qed.
Lemma rotated_job t t0 user a op g b row prev res w G cause re : rotated t t0 user a op g b row prev res w G →
  jobOk contents w G (mkJob user a op g (mergeCodexLogin prev res) cause re).
Proof.
  intros (He & Hl & Hu & Hle). split_and!; simpl.
  - by exists t, op, b, res, row, prev.
  - by exists t0.
  - exists row. destruct Hl as (? & ? & ?). done.
Qed.
Lemma persisted_kept t user a op g m cause re w G x row c :
  persisted t (mkJob user a op g m cause re) w G x → kept t w a g row c m.
Proof.
  destruct x as [[]|e]; simpl; intros H.
  - by right; right; left.
  - do 4 right; left. by eexists.
  - destruct H as [H|H]; [by right; right; right; left|by do 5 right].
Qed.

Lemma classify_identity a b c : identity a = identity b → classifyCodexFreshIdentity a c = classifyCodexFreshIdentity b c.
Proof. rewrite /classifyCodexFreshIdentity. by intros [= _ -> ->]. Qed.

Lemma classify_match a c : classifyCodexFreshIdentity a c = codexFreshIdentityMatch → claimsOf a c.
Proof.
  rewrite /classifyCodexFreshIdentity. destruct (String.eqb_spec (ChatGPTUserID c) ""), (String.eqb_spec (ClaimAuthUserID c) "");
    destruct (String.eqb_spec (ChatGPTUserID c) (ClaimAuthUserID c)), (String.eqb_spec (ChatGPTUserID c) (ProviderUserID a)); try done.
  destruct (String.eqb_spec (ChatGPTAccountID c) ""), (String.eqb_spec (ChatGPTAccountID c) (WorkspaceAccountID a)); try done.
  intros _. split_and!; congruence.
Qed.

(** The answer of the tail of a refresh, and the material accounted for. *)
Definition finished (t : nat) (user a : uuid) (g : Z) (row : CodexProviderAccount) (c : FreshAccessTokenIdentityClaims) (m : codexLoginBlob)
    (w : world) (G : ghost) (x : CodexRefreshResult * option error) : Prop :=
  answered user a w G x ∧ kept t w a g row c m.

Lemma finished_ret t w0 G0 w G user a g row c m r e : fut t w0 G0 w G → kept t w a g row c m →
  Safe t (λ w' G' x, fut t w0 G0 w' G' ∧ finished t user a g row c m w' G' x) w G (Ret (r, Some e)).
Proof.
  intros Hf Hk. apply quiet_ret; [done|]. intros w' G' Hf' _. split; [done|]. eapply kept_mono; [apply Hf'|apply Hf'|done].
Qed.

Lemma lostMaterial_safe t w0 G0 w G user a op g row c m r e : fut t w0 G0 w G → kept t w a g row c m →
  Safe t (λ w' G' x, fut t w0 G0 w' G' ∧ finished t user a g row c m w' G' x) w G
    (recordCodexMaterialLoss s user a op g ≫= λ _, Ret (r, Some e)).
Proof.
  intros Hf Hk. eapply quietS; [apply loss_safe|]. intros w1 G1 _ Hf1 _ _.
  apply finished_ret; [by eapply fut_trans|]. eapply kept_mono; [apply Hf1|apply Hf1|done].
Qed.

Lemma retain_safe t w G t0 user a op g b row prev res : rotated t t0 user a op g b row prev res w G →
  quietly t (finished t user a g row (IdentityClaims res) (mergeCodexLogin prev res)) w G
    (codexRetainUnverifiedMaterial s user a op g (mergeCodexLogin prev res)).
Proof.
  intros Hr. rewrite /quietly /codexRetainUnverifiedMaterial. eapply quietS; [by eapply persist_safe, rotated_job|].
  intros w1 G1 x Hf Hi Hp. pose proof (persisted_kept _ _ _ _ _ _ _ _ _ _ _ row (IdentityClaims res) Hp) as Hk.
  destruct x; [by apply finished_ret|by apply lostMaterial_safe].
Qed.

Lemma commitFailure_safe t w G t0 user a op g b row prev res er : rotated t t0 user a op g b row prev res w G →
  quietly t (finished t user a g row (IdentityClaims res) (mergeCodexLogin prev res)) w G
    (handleCodexCommitFailure s user a op g (mergeCodexLogin prev res) er).
Proof.
  intros Hr. rewrite /quietly /handleCodexCommitFailure. eapply quietS; [apply readSnapshot|]. intros w1 G1 f Hf1 Hi1 Hsn.
  destruct (match f with Ok fresh => if g <? Generation (Acct fresh) then Some fresh else None | Err _ => None end) as [fresh|] eqn:E.
  - destruct f as [fresh'|]; [|done]. destruct (Z.ltb_spec g (Generation (Acct fresh'))); [|done]. injection E as ->.
    destruct (Hsn _ eq_refl) as (Hid & Hs & Hu). apply intentState_safe. intros w2 G2 _ Hf2 Hi2.
    eapply safe_mono; [apply (returnCommitted t w2 G2 user a fresh)|].
    { eapply snapOk_fut; [exact Hf2|done]. }
    intros w3 G3 x Hi3 [Hf3 Hx]. split; [do 2 (eapply fut_trans; [done|]); done|]. split; [done|]. right; right; right; left.
    eapply movedOn_past; [apply Hf3|]. eapply movedOn_past; [apply Hf2|]. left. by exists (Acct fresh).
  - eapply quietS; [eapply persist_safe, rotated_job; by eapply rotated_fut|]. intros w2 G2 x Hf2 Hi2 Hp.
    pose proof (persisted_kept _ _ _ _ _ _ _ _ _ _ _ row (IdentityClaims res) Hp) as Hk.
    destruct x as [p|]; [|apply lostMaterial_safe; [by eapply fut_trans|done]].
    apply stillS; [done|]. intros w3 G3 st Hf3 Hi3 _.
    destruct (_ && _); (apply finished_ret; [do 2 (eapply fut_trans; [done|]); done|]; eapply kept_mono; [apply Hf3|apply Hf3|done]).
Qed.

Lemma mismatch_safe t w G user a op g row c m : classifyCodexFreshIdentity row c = codexFreshIdentityMismatch →
  quietly t (finished t user a g row c m) w G (codexQuarantineIdentityMismatch user a op).
Proof.
  intros Hc. rewrite /quietly /codexQuarantineIdentityMismatch. apply intentState_safe. intros w1 G1 _ Hf1 Hi1.
  apply execS.
  - intros w2 G2 e n d Hf2 Hi2 Hs. by eapply keep_quarantine.
  - intros w2 G2 _ Hf2 Hi2. apply finished_ret; [by eapply fut_trans|by left].
Qed.

Lemma settle_safe t w G user a op snap row prev res : rotated t t user a op (Generation snap) false row prev res w G →
  identity row = identity snap → NewAccessToken res ≠ ""%string → Inv w G →
  quietly t (finished t user a (Generation snap) row (IdentityClaims res) (mergeCodexLogin prev res)) w G
    (settleCodexRefresh s user a op snap prev res).
Proof.
  intros Hr Hid Hne Hi. rewrite /settleCodexRefresh -(classify_identity _ _ _ Hid).
  destruct (classifyCodexFreshIdentity row (IdentityClaims res)) eqn:Ec; [by eapply retain_safe| |by apply mismatch_safe].
  set (g := Generation snap) in *. set (m := mergeCodexLogin prev res).
  eapply (quietS _ (λ w G x, match x with
     | Ok g' => g' = g + 1 ∧ ∃ r, loginAt w a (g + 1) r m
     | Err _ => True end)).
  - rewrite /quietly. apply vaultWriteS; [done|]. intros w1 G1 sealed e fs x d Hf1 Hi1 Hc _ Hx.
    pose proof (rotated_fut _ _ _ _ _ _ _ _ _ _ _ _ _ _ Hf1 Hr) as (He1 & Hl1 & _).
    assert (∀ w' G', fut t (commitTo d w1) G1 w' G' → fut t w G w' G') as Htr.
    { intros w' G' H. eapply fut_trans; [exact Hf1|]. eapply fut_trans; [apply fut_commit|exact H]. }
    apply oneRow_outcome in Hx as [(-> & Hno)|(g' & Hs & Hok)].
    + split; [by apply keep_same|]. intros w' G' Hf' _. split; [by apply Htr|]. destruct x as [[g'|]|]; [by destruct (Hno g')|done..].
    + destruct (keep_commit contents w1 G1 (Ciphertext sealed) (SealedUnder sealed) op a user g e g' d m) as (Hi2 & Hg & r & Hr2 & Hgr & Hsl);
        [done|done|exists t, op, false, res, row, prev; split_and!; [done|done|done|by apply classify_match]|done|].
      split; [done|]. intros w' G' Hf' _. split; [by apply Htr|]. destruct x as [[g''|]|]; [|done..]. split; [by rewrite (Hok g'' eq_refl)|].
      exists r. eapply loginAt_fut; [exact Hf'|]. split_and!; [apply seen_commit; by right|by rewrite Hgr|by rewrite Hsl].
  - intros w1 G1 [g'|er] Hf1 Hi1 Hx.
    + destruct Hx as [-> [r Hl]]. apply intentState_safe. intros w2 G2 _ Hf2 Hi2. apply execS.
      { intros w3 G3 e n d Hf3 Hi3 Hs. by eapply keep_reset. }
      intros w3 G3 _ Hf3 Hi3. apply quiet_ret; [do 2 (eapply fut_trans; [done|]); done|]. intros w' G' Hf' Hi'.
      assert (loginAt w' a (g + 1) r m) as Hl'. { do 3 (eapply loginAt_fut; [done|]). done. }
      split; [|right; left; by exists r]. intros _. exists r, m. simpl. split_and!; [done| |done|done|].
      * destruct Hr as (_ & (Hs & _) & Hu & _). destruct Hl' as (Hs' & _).
        destruct (i_same _ _ _ Hi' _ _ _ Hs' ltac:(do 3 (eapply seen_fut; [done|]); by eapply seen_fut)) as [[= -> _ _] _]. done.
      * destruct Hr as (_ & (Hs & _) & _ & _). destruct Hl' as (Hs' & _).
        destruct (i_same _ _ _ Hi' _ _ _ Hs' ltac:(do 3 (eapply seen_fut; [done|]); by eapply seen_fut)) as [[= _ _ ->] _].
        by injection Hid.
    + eapply then_quiet; [done|]. eapply commitFailure_safe. by eapply rotated_fut.
Qed.

(** ** The whole refresh *)
Definition done_ {A} (t : nat) (F : world → ghost → A → Prop) (w : world) (G : ghost) (a : A) : Prop := settled t w ∧ F w G a.

Lemma quiet_done t {A} (F : world → ghost → A → Prop) w G p : settled t w → quietly t F w G p → Safe t (done_ t F) w G p.
Proof. intros Hs Hp. eapply safe_mono; [exact Hp|]. intros w' G' a Hi [Hf HF]. split; [by eapply settled_fut|done]. Qed.
Lemma ret_done t {A} (F : world → ghost → A → Prop) w G a : settled t w → (∀ w' G', fut t w G w' G' → Inv w' G' → F w' G' a) →
  Safe t (done_ t F) w G (Ret a).
Proof. intros Hs HF. apply retS. intros w' G' Hf Hi. split; [by eapply settled_fut|by apply HF]. Qed.

Lemma settled_commit t w d : settled t w → settled t (commitTo d w).
Proof. apply (settled_fut t w (mkGhost ∅ ∅) (commitTo d w) (mkGhost ∅ ∅)), fut_commit. Qed.
Lemma settled_error t w x tok e : settled t w → settled t (noting (EExchange t x tok (Err e)) w).
Proof.
  intros Hs x' tok' res. simpl. rewrite elem_of_cons. intros [[=]|He]. destruct (Hs _ _ _ He) as (row & prev & ? & ? & Hk).
  exists row, prev. split_and!; [done|done|]. by eapply kept_mono; [..|exact Hk]; [|apply log_noting].
Qed.
(** One more exchange, once its material is accounted for. *)
Lemma settled_ok t w G w' G' x prev res row : settled t w →
  fut t (noting (EExchange t x (RefreshToken prev) (Ok res)) w) G w' G' → loginAt w' (xAccount x) (xGeneration x) row prev →
  kept t w' (xAccount x) (xGeneration x) row (IdentityClaims res) (mergeCodexLogin prev res) → settled t w'.
Proof.
  intros Hs Hf Hl Hk x' tok' res' He. apply (f_mine _ _ _ _ _ Hf) in He; [|done]. simpl in He. apply elem_of_cons in He as [He|He].
  - injection He as -> -> ->. by exists row, prev.
  - destruct (Hs _ _ _ He) as (row' & prev' & Hl' & -> & Hk'). exists row', prev'. destruct Hf as [Hp Hlg _ _ _ Ho].
    split_and!; [by eapply loginAt_past|done|]. apply (kept_mono _ w); [exact Ho| |exact Hk']. etrans; [apply log_noting|exact Hlg].
Qed.

(** The holder of a lease that has not exchanged is the first to. *)
Lemma own_unexchanged w G t a g op : Inv w G → lease G !! (a, g) = Some (t, op) →
  (∀ x tok r, EExchange t x tok r ∈ log w → (xAccount x, xGeneration x) ≠ (a, g)) → exchanges a g (log w) = [].
Proof.
  intros Hi Hl Hno. assert (∀ e, e ∈ exchanges a g (log w) → e ∈ log w) as Hsub.
  { intros e He. apply list_elem_of_In, filter_In in He as [He _]. by apply list_elem_of_In. }
  destruct (i_exchanges _ _ _ Hi a g) as [|t1 o1 tok1 r1 Hl1|t1 o1 tok1 e1 t' tok' r' Hl1 _ _]; [done| |];
    rewrite Hl in Hl1; injection Hl1 as <- <-.
  - destruct (Hno (mkExchange a g op false) tok1 r1); [apply Hsub; set_solver|done].
  - destruct (Hno (mkExchange a g op false) tok1 (Err e1)); [apply Hsub; set_solver|done].
Qed.

Definition unexchanged (t : nat) (w : world) (a : uuid) (g : Z) : Prop :=
  ∀ x tok r, EExchange t x tok r ∈ log w → (xAccount x, xGeneration x) ≠ (a, g).
Lemma unexchanged_fut t w G w' G' a g : fut t w G w' G' → unexchanged t w a g → unexchanged t w' a g.
Proof. intros Hf Hu x tok r He. eapply Hu. by apply (f_mine _ _ _ _ _ Hf) in He. Qed.
Lemma unleased_unexchanged t w G a g : Inv w G → lease G !! (a, g) = None → unexchanged t w a g.
Proof.
  intros Hi Hl x tok r He [= <- <-]. assert (EExchange t x tok r ∈ exchanges (xAccount x) (xGeneration x) (log w)) as Hin.
  { apply list_elem_of_In, filter_In. split; [by apply list_elem_of_In|]. simpl. by rewrite bool_decide_true // Z.eqb_refl. }
  rewrite (unleased_exchanges _ _ _ _ _ Hi Hl) in Hin. by apply not_elem_of_nil in Hin.
Qed.

Lemma exchange_safe t w G user a op snap row prev : lease G !! (a, Generation snap) = Some (t, op) → unexchanged t w a (Generation snap) →
  loginAt w a (Generation snap) row prev → identity row = identity snap → UserID row = user → settled t w →
  Safe t (done_ t (answered user a)) w G
    (r ← call (Refresh (mkExchange a (Generation snap) op false) (RefreshToken prev));
     match r with
     | Ok result_ => settleCodexRefresh s user a op snap prev result_
     | Err e =>
         applied ← (if rejected e then recordCodexRefreshRejection s user a op (Generation snap)
                    else recordCodexRefreshProviderError user a op (Generation snap) ≫= λ _, Ret false : prog req bool);
         if (applied : bool) then Ret (only CodexRefreshQuarantined, Some [ErrCodexRefreshRejected; ErrCodexRefreshUnrecoverable])
         else Ret (only CodexRefreshContended, Some [Other])
     end).
Proof.
  intros Hl Hu Hrow Hid Hus Hs w1 G1 Hf1 Hi1. split; [done|]. intros r w2 [Hne ->]. exists G1.
  pose proof (lease_fut _ _ _ _ _ _ _ Hf1 Hl) as Hl1. pose proof (loginAt_fut _ _ _ _ _ _ _ _ _ Hf1 Hrow) as Hrow1.
  pose proof (settled_fut _ _ _ _ _ Hf1 Hs) as Hs1.
  assert (Inv (noting (EExchange t (mkExchange a (Generation snap) op false) (RefreshToken prev) r) w1) G1) as Hi2.
  { eapply inv_exchange_first; [done|done| |done]. eapply own_unexchanged; [done|done|]. by eapply unexchanged_fut. }
  split_and!; [done|intros t' Ht'; apply fut_note; simpl; congruence|].
  destruct r as [res|e].
  - eapply safe_mono; [apply (settle_safe t _ _ user a op snap row prev res)|].
    + split_and!; [simpl; set_solver|exact Hrow1|done|done].
    + done.
    + by apply Hne.
    + done.
    + intros w' G' x Hi' [Hf' [Ha Hk]]. split; [|done].
      eapply (settled_ok _ w1 G1 w' G' (mkExchange a (Generation snap) op false)); [done|exact Hf'| |exact Hk].
      eapply loginAt_fut; [exact Hf'|exact Hrow1].
  - assert (settled t (noting (EExchange t (mkExchange a (Generation snap) op false) (RefreshToken prev) (Err e)) w1)) as Hs2 by by apply settled_error.
    apply quiet_done; [done|]. eapply (quietS _ any).
    + destruct (rejected e) eqn:Er; [apply rejection_safe|]. rewrite /quietly /recordCodexRefreshProviderError.
      apply (bindS _ (λ w' G' _, fut t (noting (EExchange t (mkExchange a (Generation snap) op false) (RefreshToken prev) (Err e)) w1) G1 w' G')).
      * apply execS.
        -- intros w3 G3 e' n d Hf3 Hi3 Hx. eapply keep_error; [done| | |exact Er|exact Hx]; [by eapply lease_fut|].
           eapply log_fut; [exact Hf3|]. apply elem_of_cons. left. reflexivity.
        -- intros w3 G3 x Hf3 Hi3. apply retS. intros w4 G4 Hf4 _. by eapply fut_trans.
      * intros w3 G3 _ Hi3 Hf3. by apply quiet_ret.
    + intros w3 G3 [] Hf3 Hi3 _; by apply refused.
Qed.

Lemma advance_safe t w G user a op snap dl : snapOk user a w snap → settled t w →
  Safe t (done_ t (answered user a)) w G (advanceCodexRefresh s user a op snap dl).
Proof.
  intros Hsn Hs. rewrite /advanceCodexRefresh.
  assert (∀ w1 G1 r e, settled t w1 → Safe t (done_ t (answered user a)) w1 G1 (Ret (r, Some e))) as Hno.
  { intros w1 G1 r e Hs1. by apply ret_done. }
  destruct (vlt s); cbn [negb]; [|by apply Hno]. destruct (txBeginner s); cbn [negb]; [|by apply Hno].
  destruct Hsn as (Hid & Hseen & Hus).
  eapply quietS; [apply openSlot; by rewrite Hid|]. intros w1 G1 [prev|e] Hf1 Hi1 Ho; [|apply Hno; by eapply settled_fut].
  pose proof (settled_fut _ _ _ _ _ Hf1 Hs) as Hs1. pose proof (seen_fut _ _ _ _ _ _ _ Hf1 Hseen) as Hseen1.
  destruct (open_login w1 G1 a snap prev Hi1 Hid Hseen1 Ho) as (row & Hrow & Hidr & _).
  destruct (String.eqb _ _); [by apply Hno|]. destruct (codexRefresh s); cbn [negb]; [|by apply Hno].
  apply dbS. intros w2 G2 e fs x d Hf2 Hi2 Hx.
  assert (Inv (commitTo d w2) G2) as Hi3.
  { apply auto_outcome in Hx as [(-> & _)|([] & Hx & _)]; [by apply keep_same|by eapply keep_insert]. }
  split; [done|]. intros Hf3 _. pose proof (settled_fut _ _ _ _ _ Hf3 Hs1) as Hs3.
  destruct x as [[]|[]]; [|by apply Hno|by apply quiet_done; [|apply duplicate_safe]|by apply Hno].
  apply (txS t _ _ _ (λ e, exec (λ d, AcquireCodexRefreshLease op dl a user (Generation (Acct snap)) e d))).
  intros w4 G4 e4 fs4 x4 d4 Hf4 Hi4 Hx4. pose proof (settled_fut _ _ _ _ _ Hf4 Hs3) as Hs4.
  pose proof (settled_commit t w4 d4 Hs4) as Hs5.
  apply exec_outcome in Hx4 as [(-> & e5 & ->)|(n & Hn & Hx4)].
  { exists G4. split_and!; [by apply keep_same|intros; apply fut_commit|by apply Hno]. }
  destruct (keep_acquire contents w4 G4 t _ _ _ _ _ _ _ _ Hi4 Hn) as [(-> & Hi5)|(-> & Hi5 & Hnone)].
  - exists G4. split_and!; [done|intros; apply fut_commit|]. destruct Hx4 as [->|[e5 ->]]; [|by apply Hno]. cbn [Z.eqb].
    eapply quietS; [apply readSnapshot|]. intros w6 G6 [fresh|er] Hf6 Hi6 Hfr; [|apply Hno; by eapply settled_fut].
    case_match; [|apply Hno; by eapply settled_fut]. apply quiet_done; [by eapply settled_fut|]. apply returnCommitted. by apply Hfr.
  - eexists. split_and!; [exact Hi5| |].
    { intros t' _. constructor; [apply past_commit|done|by apply insert_subseteq|done|done|apply order_commit]. }
    destruct Hx4 as [->|[e5 ->]]; [|by apply Hno]. cbn [Z.eqb].
    assert (fut t w1 G1 (commitTo d4 w4) G4) as Hf5.
    { eapply fut_trans; [exact Hf3|]. eapply fut_trans; [exact Hf4|apply fut_commit]. }
    apply (exchange_safe t _ _ user a op (Acct snap) row prev); simpl.
    + by rewrite lookup_insert_eq.
    + intros y tok r He. by eapply (unleased_unexchanged t w4 G4).
    + eapply loginAt_fut; [exact Hf5|exact Hrow].
    + done.
    + injection Hidr as -> _ _. exact Hus.
    + done.
Qed.

Lemma coordinated_safe t w G user a op observed dl : settled t w →
  Safe t (done_ t (answered user a)) w G (coordinatedRefresh s user a op observed dl).
Proof.
  intros Hs. rewrite /coordinatedRefresh.
  assert (∀ w1 G1 r e, settled t w1 → Safe t (done_ t (answered user a)) w1 G1 (Ret (r, Some e))) as Hno.
  { intros w1 G1 r e Hs1. by apply ret_done. }
  eapply quietS; [apply readSnapshot|]. intros w1 G1 [snap|e] Hf1 Hi1 Hsn; [|apply Hno; by eapply settled_fut].
  apply (readS _ _ _ _ (λ _, GetCodexRefreshIntent op user)). intros w2 G2 _ x Hf2 Hi2 _.
  assert (settled t w2) as Hs2 by (do 2 (eapply settled_fut; [done|]); done).
  assert (snapOk user a w2 snap) as Hsn2 by (eapply snapOk_fut; [exact Hf2|by apply Hsn]).
  assert (Safe t (done_ t (answered user a)) w2 G2 (if Generation (Acct snap) <? observed then Ret (none, Some [errCodexObservedAhead])
        else if observed <? Generation (Acct snap) then codexReturnCommitted user snap CodexRefreshReconciled
        else advanceCodexRefresh s user a op snap dl)) as Hadv.
  { case_match; [by apply Hno|]. case_match; [by apply quiet_done; [|apply returnCommitted]|by apply advance_safe]. }
  destruct x as [[i|]|[]]; [by apply quiet_done; [|apply replay_safe]|exact Hadv|exact Hadv|by apply Hno..].
Qed.
End Safe.
End CodexSafe.
