(* ===== verification/CodexThreads.v ===== *)
(** The threads of the coordinated refresh, from their first request to their
    answer, and what holds in every interleaving of them. *)

From S2P Require Import Prelude Result Prog Txn CodexDb CodexAuthz CodexRefresh CodexSys CodexInv CodexSteps CodexSafe.

Local Open Scope Z_scope.

Module CodexThreads.
Import CodexDb CodexAuthz CodexRefresh CodexSys CodexInv CodexSteps CodexSafe.

(** * Authorization *)
(** Every answer of a program satisfies [P], whatever it is told. *)
Fixpoint answers {R A} (P : A → Prop) (p : prog R A) : Prop :=
  match p with Ret a => P a | Vis r k => ∀ x, answers P (k x) end.

Lemma answers_bind {R A B} (M : A → Prop) (P : B → Prop) (p : prog R A) (f : A → prog R B) :
  answers M p → (∀ a, M a → answers P (f a)) → answers P (p ≫= f).
Proof. intros Hp Hf. induction p as [a|X r k IH]; [by apply Hf|]. simpl in *. intros x. by apply IH. Qed.

(** The coordinates handed out are the worker's. *)
Lemma authorize_owner sha256 wkr run cap scope d :
  answers (λ a, a.2 = None → AuthUserID a.1 = WorkerUserID wkr) (authorizeCodexCredentialOp sha256 wkr run cap scope d).
Proof.
  rewrite /authorizeCodexCredentialOp. eapply (answers_bind (λ _, True)).
  { rewrite /codexCredentialPrelude /=. intros [row|[]]; try done. by case_match. }
  assert (∀ row e, answers (λ a, a.2 = None → AuthUserID a.1 = WorkerUserID wkr) (resolve wkr run scope row e)) as Hr.
  { intros row e. rewrite /resolve. case_match; [|done]. by intros [[]|]. }
  intros [row|e] _; [|done]. destruct (match scope with ScopePersistRecovery => _ | _ => _ end); [|apply Hr]. case_match; [apply Hr|done].
Qed.

Section Threads.
Context (contents : string → option codexLoginBlob) (sha256 : string → string) (s : Service).
Abbreviation Inv := (Inv contents).
Abbreviation Safe := (safe contents Inv fut (jobOk contents)).

Lemma lift_quiet t {A} (P : A → Prop) (p : prog areq A) w G : answers P p →
  quietly contents t (λ _ _ a, P a) w G (lift (λ _ r, Authz r) p).
Proof.
  rewrite /quietly. intros Hp.
  assert (∀ w1 G1, fut t w G w1 G1 → Safe t (λ w' G' a, fut t w G w' G' ∧ P a) w1 G1 (lift (λ _ r, Authz r) p)) as H; [|apply H, fut_refl].
  induction p as [a|X r k IH]; intros w1 G1 Hf; [by apply quiet_ret|].
  intros w2 G2 Hf2 Hi2. split; [done|]. intros x w3 ->. exists G2. split_and!; [done|intros; apply fut_refl|].
  apply IH; [apply Hp|by eapply fut_trans].
Qed.
Lemma authorize_quiet t w G wkr run cap scope d :
  quietly contents t (λ _ _ a, a.2 = None → AuthUserID a.1 = WorkerUserID wkr) w G (authorizeOp sha256 wkr run cap scope d).
Proof. apply lift_quiet, authorize_owner. Qed.

(** * The request of a worker *)
Abbreviation Done t := (done_ contents s t).
Abbreviation settled := (settled contents s).
Abbreviation quietly := (quietly contents).

Lemma evidence_quiet t w G auth op gen : quietly t any w G (recoveryEvidence auth op gen).
Proof.
  rewrite /CodexSafe.quietly /recoveryEvidence.
  apply (readS _ _ _ _ _ (λ _, HasCodexVaultLockRecoveryEvidence (AuthUserID auth) (AccountID auth) op gen)).
  intros w1 G1 _ x Hf Hi _. by apply quiet_ret.
Qed.
Lemma deferralTail_quiet t w G auth re op gen : quietly t any w G (deferralTail s auth re op gen).
Proof.
  rewrite /CodexSafe.quietly /deferralTail. case_bool_decide; cbn [negb]; [|apply quiet_ret; [apply fut_refl|done]].
  eapply quietS; [apply evidence_quiet|]. intros w1 G1 [e|] Hf Hi _; [by apply quiet_ret|].
  destruct (vlt s); cbn [negb]; [|by apply quiet_ret]. apply stillS; [done|]. intros w2 G2 st Hf2 Hi2 _.
  apply quiet_ret; [by eapply fut_trans|done].
Qed.
Lemma deferral_quiet t w G wkr run cap auth op gen : quietly t any w G (codexRecoveryDeferral sha256 s wkr run cap auth op gen).
Proof.
  rewrite /CodexSafe.quietly /codexRecoveryDeferral. eapply quietS; [apply evidence_quiet|]. intros w1 G1 [e|] Hf Hi _; [by apply quiet_ret|].
  eapply quietS; [apply authorize_quiet|]. intros w2 G2 r Hf2 Hi2 _.
  destruct r.2 as [e|]; [|eapply then_quiet; [by eapply fut_trans|apply deferralTail_quiet]].
  destruct (Is e _); cbn [negb]; [eapply then_quiet; [by eapply fut_trans|apply deferralTail_quiet]|].
  apply quiet_ret; [by eapply fut_trans|done].
Qed.

(** The answer to a worker carries the committed login of an account of its owner. *)
Definition answeredTo (wkr : Worker) (w : world) (G : ghost) (a : CodexRefreshResult * option error) : Prop :=
  a.2 = None → ∃ account, committedFor contents (WorkerUserID wkr) account w a.1.

Lemma vaultLocked_safe t w G wkr run cap auth op observed res err : settled t w →
  Safe t (Done t (answeredTo wkr)) w G (vaultLockedTail sha256 s wkr run cap auth op observed res err).
Proof.
  intros Hs. apply quiet_done; [done|]. rewrite /CodexSafe.quietly /vaultLockedTail.
  eapply quietS; [apply authorize_quiet|]. intros w1 G1 r Hf Hi _.
  assert (∀ w2 G2 x e, fut t w G w2 G2 → Safe t (λ w' G' a, fut t w G w' G' ∧ answeredTo wkr w' G' a) w2 G2 (Ret (x, Some e))) as Hno.
  { intros w2 G2 x e Hf2. by apply quiet_ret. }
  assert (Safe t (λ w' G' a, fut t w G w' G' ∧ answeredTo wkr w' G' a) w1 G1
    (if negb (bool_decide (AccountID r.1 = AccountID auth)) then Ret (none, Some [ErrCodexAccountKeyUnfrozen]) else
     if Is err errCodexVaultRecoveryPersisted && match r.2 with Some e => Is e ErrCodexAccountQuarantined | None => false end then
      derr ← codexRecoveryDeferral sha256 s wkr run cap auth op observed;
      Ret (if negb (Is derr ErrCodexVaultLocked) then (none, Some derr) else (res, Some (codexVaultLockedErr err)))
     else if Is err errCodexVaultRecoveryPending && bool_decide (CodexRefreshRecoveryV1 ∈ ProtocolCapabilities wkr) then
      Ret (none, Some [ErrCodexRefreshContended])
     else Ret (res, Some (codexVaultLockedErr err)))) as Hrest.
  { case_bool_decide; cbn [negb]; [|by apply Hno]. destruct (_ && _); [|by destruct (_ && _); apply Hno].
    eapply quietS; [apply deferral_quiet|]. intros w2 G2 derr Hf2 Hi2 _. destruct (negb _); apply Hno; by eapply fut_trans. }
  destruct r.2 as [e|]; [|exact Hrest]. destruct (Is e ErrCodexAccountQuarantined); [exact Hrest|by apply Hno].
Qed.

Lemma refresh_safe t w G wkr run cap op observed : settled t w →
  Safe t (Done t (answeredTo wkr)) w G (CoordinatedCodexRefresh sha256 s wkr run cap op observed).
Proof.
  intros Hs. rewrite /CoordinatedCodexRefresh.
  assert (∀ w1 G1 r e, settled t w1 → Safe t (Done t (answeredTo wkr)) w1 G1 (Ret (r, Some e))) as Hno.
  { intros w1 G1 r e Hs1. by apply ret_done. }
  apply stillS; [done|]. intros w1 G1 rem Hf1 Hi1 _. assert (settled t w1) as Hs1 by by eapply settled_fut.
  case_match; [by apply Hno|]. apply stillS; [done|]. intros w2 G2 now Hf2 Hi2 _.
  eapply quietS; [apply authorize_quiet|]. intros w3 G3 a Hf3 Hi3 Hau.
  assert (settled t w3) as Hs3 by (do 2 (eapply settled_fut; [done|]); done).
  destruct a.2 as [e|] eqn:Ea.
  { destruct (Is e _); [|by apply Hno]. eapply quietS; [apply deferral_quiet|]. intros w4 G4 e' Hf4 Hi4 _. apply Hno. by eapply settled_fut. }
  eapply bindS; [by apply coordinated_safe|]. intros w4 G4 r Hi4 [Hs4 Hr].
  pose proof (Hau Ea : AuthUserID a.1 = WorkerUserID wkr) as Hau'. rewrite Hau' in Hr.
  destruct (r.2) as [e|] eqn:Er.
  - destruct (Is e _); [by apply vaultLocked_safe|]. apply ret_done; [done|]. intros w' G' _ _. by rewrite /answeredTo Er.
  - assert (Safe t (Done t (answeredTo wkr)) w4 G4 (Ret r)) as Hret.
    { apply ret_done; [done|]. intros w' G' Hf' _ _. exists (AccountID a.1). eapply committedFor_past; [apply Hf'|by apply Hr]. }
    case_match; [exact Hret|]. eapply quietS; [apply authorize_quiet|]. intros w5 G5 again Hf5 Hi5 _.
    destruct again.2; [apply Hno; by eapply settled_fut|]. by eapply safe_fut; [apply fut_trans|exact Hf5|].
Qed.

(** ** Releasing *)
Definition releasedTo (wkr : Worker) (w : world) (G : ghost) (a : CodexReleaseResult * option error) : Prop :=
  ∀ g, a.2 = None → RelGeneration a.1 = Some g → ∃ account row l, loginAt contents w account g row l ∧ UserID row = WorkerUserID wkr ∧
    RelAccessToken a.1 = AccessToken l ∧ RelAccountID a.1 = WorkspaceAccountID row.

Lemma release_safe t w G wkr run cap : settled t w →
  Safe t (Done t (releasedTo wkr)) w G (ReleaseCodexCredential sha256 wkr run cap).
Proof.
  intros Hs. apply quiet_done; [done|]. rewrite /CodexSafe.quietly /ReleaseCodexCredential.
  eapply quietS; [apply authorize_quiet|]. intros w1 G1 a Hf1 Hi1 Hau.
  assert (∀ w2 G2 x e, fut t w G w2 G2 → Safe t (λ w' G' a, fut t w G w' G' ∧ releasedTo wkr w' G' a) w2 G2 (Ret (x, Some e))) as Hno.
  { intros w2 G2 x e Hf2. by apply quiet_ret. }
  destruct a.2 as [e|] eqn:Ea; [by apply Hno|]. pose proof (Hau Ea : AuthUserID a.1 = WorkerUserID wkr) as Hau'.
  eapply (quietS _ _ (λ w' G' r, ∀ x, r = Ok x → releasedTo wkr w' G' (x, None))).
  - rewrite /CodexSafe.quietly /releaseCodexCredential. case_match.
    + eapply quietS; [apply readSnapshot|]. intros w2 G2 [snap|e] Hf2 Hi2 Hsn; [|by apply quiet_ret].
      destruct (Hsn _ eq_refl) as (Hid & Hseen & Hu). eapply quietS; [apply openSlot; by rewrite Hid|].
      intros w3 G3 [l|e] Hf3 Hi3 Ho; [|apply quiet_ret; [by eapply fut_trans|done]]. apply quiet_ret; [by eapply fut_trans|].
      intros w' G' Hf' _ x [= <-] g _ [= <-]. simpl.
      destruct (open_login contents w3 G3 (AccountID a.1) snap l Hi3 Hid) as (row & Hl & [= Hur _ Hw] & _); [by eapply seen_fut|done|].
      exists (AccountID a.1), row, l. split_and!; [by eapply loginAt_fut|by rewrite Hur Hu Hau'|done|done].
    + case_match; [|by apply quiet_ret; [apply fut_refl|]]. apply stillS; [done|]. intros w2 G2 o Hf2 Hi2 _.
      apply quiet_ret; [done|]. intros w' G' _ _ x Hx g _. destruct o as [tok|[]]; try done. by injection Hx as <-.
  - intros w2 G2 [res|e] Hf2 Hi2 Hr.
    + eapply quietS; [apply authorize_quiet|]. intros w3 G3 again Hf3 Hi3 _. destruct again.2 as [ae|].
      * apply Hno. do 2 (eapply fut_trans; [done|]). done.
      * apply quiet_ret; [do 2 (eapply fut_trans; [done|]); done|]. intros w' G' Hf' _ g _ Hg.
        destruct (Hr _ eq_refl g eq_refl Hg) as (acc & row & l & Hl & ?). exists acc, row, l.
        split; [do 2 (eapply loginAt_fut; [done|]); done|done].
    + destruct (Is e _); cbn [negb]; [|apply Hno; by eapply fut_trans]. eapply quietS; [apply authorize_quiet|].
      intros w3 G3 again Hf3 Hi3 _. apply Hno. do 2 (eapply fut_trans; [done|]). done.
Qed.
(** * The survivor pass *)
(** The retry of an exchange whose outcome is unknown has been given to the thread,
    which has not made it yet. *)
Definition admitted (t : nat) (user a op : uuid) (g : Z) (prev : codexLoginBlob) (w : world) (G : ghost) : Prop :=
  (∃ row, loginAt contents w a g row prev ∧ UserID row = user) ∧
  (∃ t0 tok er, lease G !! (a, g) = Some (t0, op) ∧ EExchange t0 (mkExchange a g op false) tok (Err er) ∈ log w ∧ rejected er = false) ∧
  reuse G !! (a, g) = Some t ∧ ∀ o tok r, EExchange t (mkExchange a g o true) tok r ∉ log w.

Lemma admitted_fut t user a op g prev w G w' G' : fut t w G w' G' → admitted t user a op g prev w G → admitted t user a op g prev w' G'.
Proof.
  intros Hf ((row & ? & ?) & (t0 & tok & er & ? & ? & ?) & Hu & Hno). split_and!.
  - exists row. split; [by eapply loginAt_fut|done].
  - exists t0, tok, er. split_and!; [by eapply lease_fut|by eapply log_fut|done].
  - eapply lookup_weaken; [exact Hu|apply Hf].
  - intros o tok' r He. apply (Hno o tok' r). by apply (f_mine _ _ _ _ _ Hf) in He.
Qed.

Lemma in_exchanges a g op b t tok r l : EExchange t (mkExchange a g op b) tok r ∈ l ↔
  EExchange t (mkExchange a g op b) tok r ∈ exchanges a g l.
Proof.
  rewrite /exchanges !list_elem_of_In filter_In. split; [|by intros []]. intros H. split; [done|]. simpl.
  by rewrite bool_decide_true // Z.eqb_refl.
Qed.

(** ... so that it makes the second exchange. *)
Lemma admitted_exchanges t user a op g prev w G : Inv w G → admitted t user a op g prev w G →
  ∃ t0 tok er, lease G !! (a, g) = Some (t0, op) ∧ rejected er = false ∧
    exchanges a g (log w) = [EExchange t0 (mkExchange a g op false) tok (Err er)].
Proof.
  intros Hi (_ & (t0 & tok & er & Hl & He & Hrej) & Hu & Hno). exists t0, tok, er. split_and!; [done|done|].
  apply in_exchanges in He. pose proof (λ o tok r H, Hno o tok r (proj2 (in_exchanges _ _ _ _ _ _ _ _) H)) as Hno'.
  destruct (i_exchanges _ _ _ Hi a g) as [|t1 o1 tok1 r1 Hl1|t1 o1 tok1 e1 t' tok' r' Hl1 _ Hu1].
  - by apply not_elem_of_nil in He.
  - apply list_elem_of_singleton in He. by rewrite He.
  - rewrite Hu in Hu1. injection Hu1 as <-. destruct (Hno' o1 tok' r'). set_solver.
Qed.

Lemma live_quiet t w G user a : quietly t any w G (codexAccountLive user a).
Proof.
  rewrite /CodexSafe.quietly /codexAccountLive. apply (readS _ _ _ _ _ (λ _, CountEnabledLinkedAliasesForCodexAccount user a)).
  intros w1 G1 _ x Hf Hi _. by apply quiet_ret.
Qed.

Lemma admit_safe t w G user a snap i : snapOk user a w snap →
  quietly t (λ w' G' r, ∀ prev, r = Granted prev → admitted t user a (OperationID i) (Generation (Acct snap)) prev w' G') w G
    (admitCodexRefreshReuse s snap i).
Proof.
  intros (Hid & Hseen & Hus). rewrite /CodexSafe.quietly /admitCodexRefreshReuse.
  set (F := λ (w' : world) (G' : ghost) r, ∀ prev, r = Granted prev → admitted t user a (OperationID i) (Generation (Acct snap)) prev w' G').
  assert (∀ w1 G1 r, fut t w G w1 G1 → (∀ prev, r ≠ Granted prev) → Safe t (λ w' G' r, fut t w G w' G' ∧ F w' G' r) w1 G1 (Ret r)) as Hno.
  { intros w1 G1 r Hf Hr. apply quiet_ret; [done|]. intros w' G' _ _ prev ->. by destruct (Hr prev). }
  destruct (vlt s); cbn [negb]; [|by apply Hno; [apply fut_refl|]].
  apply stillS; [done|]. intros w1 G1 [] Hf1 Hi1 _; [by apply Hno|].
  eapply quietS; [apply openSlot; rewrite Hid; by eapply seen_fut|]. intros w2 G2 [prev|e] Hf2 Hi2 Ho; [|apply Hno; [by eapply fut_trans|done]].
  assert (fut t w G w2 G2) as Hf by by eapply fut_trans.
  destruct (open_login contents w2 G2 a snap prev Hi2 Hid ltac:(by eapply seen_fut) Ho) as (row & Hrow & [= Hur _ _] & _).
  do 2 (case_match; [by apply Hno|]). destruct (txBeginner s); cbn [negb]; [|by apply Hno].
  apply txS. intros w3 G3 e fs x d Hf3 Hi3 Hx. rewrite Hid in Hx.
  apply admit_outcome in Hx as [(-> & Hne)|Hs].
  - exists G3. split_and!; [by apply keep_same|intros; apply fut_commit|]. apply Hno.
    + eapply fut_trans; [exact Hf|]. eapply fut_trans; [exact Hf3|apply fut_commit].
    + by destruct x as [[]|].
  - destruct (keep_admit contents w3 G3 t _ _ _ _ _ _ Hi3 Hs) as (Hi4 & Hnone & t0 & tok & er & Hl & Hrej & Hex).
    eexists. split_and!; [exact Hi4| |].
    { intros t' _. constructor; [apply past_commit|done|done|by apply insert_subseteq|done|apply order_commit]. }
    apply quiet_ret.
    { eapply fut_trans; [exact Hf|]. eapply fut_trans; [exact Hf3|].
      constructor; [apply past_commit|done|done|by apply insert_subseteq|done|apply order_commit]. }
    intros w' G' Hf' _ p Hp. destruct x as [[]|]; try done. injection Hp as <-. eapply admitted_fut; [exact Hf'|].
    pose proof (in_exchanges a (Generation (Acct snap))) as Hin. split_and!; simpl.
    + exists row. split; [eapply loginAt_past; [apply past_commit|]; by eapply loginAt_fut|by rewrite Hur].
    + exists t0, tok, er. split_and!; [done| |done]. apply Hin. rewrite Hex. set_solver.
    + by rewrite lookup_insert_eq.
    + intros o tok' r. rewrite Hin Hex. set_solver.
Qed.
Lemma retried t w G user a op g prev : admitted t user a op g prev w G → settled t w →
  Safe t (Done t any) w G
    (r ← call (Refresh (mkExchange a g op true) (RefreshToken prev));
     match r with
     | Err e =>
         if rejected e then _ ← recordCodexRefreshRejection s user a op g; Ret (true, None)
         else _ ← markCodexReuseUnrecoverable user a op g; Ret (true, None)
     | Ok result_ =>
         p ← persistCodexRecoverySlotWithTerminal s (mkJob user a op g (mergeCodexLogin prev result_) None true);
         match p with
         | Ok _ => Ret (true, None)
         | Err _ => _ ← markCodexReuseUnrecoverable user a op g; Ret (true, @None error)
         end
     end).
Proof.
  intros Had Hs w1 G1 Hf1 Hi1. split; [done|]. intros r w2 [Hne ->]. exists G1.
  apply (admitted_fut _ _ _ _ _ _ _ _ _ _ Hf1) in Had. pose proof (settled_fut _ _ _ _ _ _ _ Hf1 Hs) as Hs1.
  destruct (admitted_exchanges _ _ _ _ _ _ _ _ Hi1 Had) as (t0 & tok & er & Hl & Hrej & Hex).
  destruct Had as ((row & Hrow & Hur) & _ & Hu & _).
  assert (Inv (noting (EExchange t (mkExchange a g op true) (RefreshToken prev) r) w1) G1) as Hi2 by by eapply inv_exchange_again.
  split_and!; [done|intros t' Ht'; apply fut_note; simpl; congruence|].
  assert (∀ w3 G3, settled t w3 → Safe t (Done t any) w3 G3 (markCodexReuseUnrecoverable user a op g ≫= λ _, Ret (true, @None error))) as Hmark.
  { intros w3 G3 Hs3. eapply quietS; [apply reuseTerminal_safe|]. intros w4 G4 _ Hf4 _ _. apply ret_done; [by eapply settled_fut|done]. }
  destruct r as [res|e].
  - eapply quietS; [eapply persist_safe, (rotated_job contents t t0 user a op g true row prev res)|].
    { split_and!; [apply elem_of_cons; by left|exact Hrow|done|done]. }
    intros w3 G3 x Hf3 Hi3 Hp.
    assert (settled t w3) as Hs3.
    { eapply (settled_ok contents s _ w1 G1 w3 G3 (mkExchange a g op true)); [done|exact Hf3| |].
      - eapply loginAt_fut; [exact Hf3|exact Hrow].
      - by eapply persisted_kept. }
    destruct x; [by apply ret_done|by apply Hmark].
  - assert (settled t (noting (EExchange t (mkExchange a g op true) (RefreshToken prev) (Err e)) w1)) as Hs2 by by apply settled_error.
    change (Safe t (Done t any) (noting (EExchange t (mkExchange a g op true) (RefreshToken prev) (Err e)) w1) G1
      (if rejected e then recordCodexRefreshRejection s user a op g ≫= λ _, Ret (true, @None error)
       else markCodexReuseUnrecoverable user a op g ≫= λ _, Ret (true, None))).
    destruct (rejected e); [|by apply Hmark]. eapply quietS; [apply rejection_safe|]. intros w4 G4 _ Hf4 _ _.
    apply ret_done; [by eapply settled_fut|done].
Qed.

Lemma retry_safe t w G user a snap i : snapOk user a w snap → settled t w →
  Safe t (Done t any) w G (retryCodexRefreshReuse s snap i).
Proof.
  intros Hsn Hs. rewrite /retryCodexRefreshReuse.
  assert (∀ w1 G1 r, settled t w1 → Safe t (Done t any) w1 G1 (Ret (r : bool * option error))) as Hno by (intros; by apply ret_done).
  apply stillS; [done|]. intros w1 G1 ended Hf1 Hi1 _. apply stillS; [done|]. intros w2 G2 now Hf2 Hi2 _.
  assert (fut t w G w2 G2) as Hf by by eapply fut_trans. pose proof (settled_fut _ _ _ _ _ _ _ Hf Hs) as Hs2.
  destruct (_ || _) eqn:Eel; [by apply Hno|]. apply orb_false_iff in Eel as [_ Eel].
  assert (FromGeneration i = Generation (Acct snap)) as Hgen.
  { rewrite /reuseEligible in Eel. apply negb_false_iff in Eel. rewrite !andb_true_iff in Eel. destruct Eel as [_ Hg]. by apply Z.eqb_eq in Hg. }
  eapply quietS; [apply live_quiet|]. intros w3 G3 l Hf3 Hi3 _. pose proof (settled_fut _ _ _ _ _ _ _ Hf3 Hs2) as Hs3.
  destruct l as [[]|]; [|by apply Hno..]. pose proof (snapOk_fut _ _ _ _ _ _ _ _ (fut_trans _ _ _ _ _ _ _ Hf Hf3) Hsn) as Hsn3.
  eapply quietS; [by apply admit_safe|]. intros w4 G4 adm Hf4 Hi4 Had. pose proof (settled_fut _ _ _ _ _ _ _ Hf4 Hs3) as Hs4.
  destruct adm as [|e|prev]; [by apply Hno..|]. destruct Hsn3 as (<- & _ & <-). rewrite Hgen.
  eapply retried; [by apply Had|done].
Qed.
(** Promotion: the material of the slot, found to be the account's. *)
Lemma promote_quiet t w G user a snap : snapOk user a w snap → quietly t any w G (promoteCodexRecovery s user snap).
Proof.
  intros (Hid & Hseen & Hus). rewrite /CodexSafe.quietly /promoteCodexRecovery.
  destruct (codexRefresh s); cbn [negb]; [|apply quiet_ret; [apply fut_refl|done]].
  eapply quietS; [apply openSlot; by rewrite Hid|]. intros w1 G1 [blob|e] Hf1 Hi1 Ho; [|by apply quiet_ret].
  destruct (Ho blob eq_refl) as (_ & row & ct & Hrow & Hg & Hct & Hc). simpl in Hct.
  destruct (i_slots _ _ _ Hi1 _ _ Hrow ct Hct) as (_ & _ & l & Hl & Hm). rewrite Hc in Hl. injection Hl as <-.
  intros w2 G2 Hf2 Hi2. split; [done|]. intros id w3 ->. exists G2. destruct id as [id|]; last first.
  { split_and!; [done|intros; apply fut_refl|]. apply quiet_ret; [by eapply fut_trans|done]. }
  assert (∀ t', fut t' w2 G2 (noting (EIdentity (AccessToken blob) id) w2) G2) as Hn by (intros; apply fut_note; by intros []).
  split_and!; [by apply kept_note|intros; apply Hn|].
  assert (fut t w1 G1 (noting (EIdentity (AccessToken blob) id) w2) G2) as Hf by by eapply fut_trans.
  assert (fut t w G (noting (EIdentity (AccessToken blob) id) w2) G2) as Hf0 by by eapply fut_trans.
  change (Safe t (λ w' G' x, fut t w G w' G' ∧ any w' G' x) (noting (EIdentity (AccessToken blob) id) w2) G2
    (if String.eqb (IdProviderUserID id) (ProviderUserID (Acct snap)) && String.eqb (IdWorkspaceAccountID id) (WorkspaceAccountID (Acct snap)) then
        p ← withCodexVaultWrite s user blob SealForUse (λ sealed e,
              oneRow (PromoteCodexRecovery (SnapID snap) user (Generation (Acct snap)) (Ciphertext sealed) (SealedUnder sealed) e));
        Ret match p with
            | Ok _ => (true, None)
            | Err e => if Is e errVaultLocked || Is e NoRows then (false, None) else (false, Some e)
            end
      else
        c ← updateDb (λ e, ClearMismatchedCodexRecoveryAndMarkIntents (SnapID snap) user (Generation (Acct snap)) e);
        Ret match c with Err e => (false, Some (ofDb e)) | Ok n => (negb (n =? 0), None) end)).
  destruct (_ && _) eqn:E.
  - apply andb_true_iff in E as [E1%String.eqb_eq E2%String.eqb_eq].
    eapply (quietS _ _ any).
    + rewrite /CodexSafe.quietly. apply vaultWriteS; [done|]. intros w3 G3 sealed e fs x d Hf3 Hi3 Hcs _ Hx.
      assert (∀ w' G', fut t (commitTo d w3) G3 w' G' → fut t (noting (EIdentity (AccessToken blob) id) w2) G2 w' G') as Htr.
      { intros w' G' H. eapply fut_trans; [exact Hf3|]. eapply fut_trans; [apply fut_commit|exact H]. }
      apply oneRow_outcome in Hx as [(-> & _)|(g' & Hs & _)]; (split; [|intros w' G' Hf' _; split; [by apply Htr|done]]); [by apply keep_same|].
      rewrite Hid in Hs. rewrite Hid Hg in Hm. eapply (keep_promote contents w3 G3 _ _ _ _ _ _ _ _ blob (Acct snap)); [done|done| | | |exact Hs].
      * eapply made_fut; [exact Hf3|]. eapply made_fut; [exact Hf|exact Hm].
      * eapply seen_fut; [exact Hf3|]. by eapply seen_fut.
      * eapply log_fut; [exact Hf3|]. rewrite -E1 -E2. destruct id. simpl. apply elem_of_cons. by left.
    + intros w3 G3 x Hf3 Hi3 _. apply quiet_ret; [by eapply fut_trans|done].
  - apply execS.
    + intros w3 G3 e n d Hf3 Hi3 Hs. by eapply keep_clear.
    + intros w3 G3 x Hf3 Hi3. apply quiet_ret; [by eapply fut_trans|done].
Qed.

(** What was there stays on record. *)
Lemma pstep_past t w X (r : req X) x w' : pstep contents t w r x w' → past w ⊆ past w'.
Proof.
  destruct r; simpl; try (by intros ->); try (by intros [-> _]); try (by intros [_ ->]).
  - intros (e & fs & d & _ & _ & ->). apply past_commit.
  - intros ->. by case_match.
Qed.
Lemma snapOk_past user a w w' snap : past w ⊆ past w' → snapOk user a w snap → snapOk user a w' snap.
Proof. intros Hp (? & ? & ?). split_and!; [done|by eapply seen_past|done]. Qed.
Lemma safe_past t {A} (Q : world → ghost → A → Prop) w0 w G p : past w0 ⊆ past w → Safe t Q w G p →
  Safe t (λ w' G' a, past w0 ⊆ past w' ∧ Q w' G' a) w G p.
Proof.
  revert w G. induction p as [a|X r k IH]; intros w G Hp H; simpl in H |- *; intros w1 G1 Hf Hi.
  - split; [|by apply H]. etrans; [exact Hp|apply Hf].
  - destruct (H _ _ Hf Hi) as [Hs H']. split; [done|]. intros x w2 Hx. destruct (H' _ _ Hx) as (G2 & ? & ? & Hk). exists G2.
    split_and!; [done|done|]. apply IH; [|done]. etrans; [exact Hp|]. etrans; [apply Hf|]. by eapply pstep_past.
Qed.

Lemma retryAll_safe t l w G user a snap b : snapOk user a w snap → settled t w → Safe t (Done t any) w G (retryAll s snap l b).
Proof.
  revert w G b. induction l as [|i l IH]; intros w G b Hsn Hs; cbn [retryAll]; [by apply ret_done|].
  eapply bindS; [apply (safe_past t (Done t any) w); [done|by eapply retry_safe]|].
  intros w1 G1 r Hi1 [Hp [Hs1 _]]. destruct r.2; [by apply ret_done|]. apply IH; [|done]. by eapply snapOk_past.
Qed.

Lemma resolveAll_quiet t now user a l w G n : quietly t any w G (resolveAll now user a l n).
Proof.
  revert w G n. induction l as [|i l IH]; intros w G n; rewrite /CodexSafe.quietly; cbn [resolveAll]; [apply quiet_ret; [apply fut_refl|done]|].
  case_match; [|apply IH]. apply execS.
  - intros w1 G1 e m d Hf Hi Hx. by eapply keep_state.
  - intros w1 G1 [m|e] Hf Hi; [|by apply quiet_ret]. apply then_quiet; [done|apply IH].
Qed.

Lemma readBoth_quiet t w G user a :
  quietly t (λ w' _ r, ∀ snap l, r = Ok (snap, l) → snapOk user a w' snap) w G (readBoth user a).
Proof.
  rewrite /CodexSafe.quietly /readBoth. eapply quietS; [apply readSnapshot|]. intros w1 G1 [snap|e] Hf Hi Hsn; [|by apply quiet_ret].
  apply (readS _ _ _ _ _ (λ e, ListUnresolvedCodexRefreshIntents user a e)). intros w2 G2 e x Hf2 Hi2 _.
  apply quiet_ret; [by eapply fut_trans|]. intros w' G' Hf' _ snap' l' Hx. destruct x; [|done]. injection Hx as <- <-.
  do 2 (eapply snapOk_fut; [done|]). by apply Hsn.
Qed.
Lemma reconcile_safe t w G user a : settled t w → Safe t (Done t any) w G (reconcileUnresolvedCodexRefresh s user a).
Proof.
  intros Hs. rewrite /reconcileUnresolvedCodexRefresh.
  assert (∀ w1 G1 r, settled t w1 → Safe t (Done t any) w1 G1 (Ret (r : Z * bool * option error))) as Hno by (intros; by apply ret_done).
  apply stillS; [done|]. intros w1 G1 now Hf1 Hi1 _. pose proof (settled_fut _ _ _ _ _ _ _ Hf1 Hs) as Hs1.
  apply execS.
  { intros w2 G2 e n d Hf2 Hi2 Hx. by eapply keep_expired. }
  intros w2 G2 [n|e] Hf2 Hi2; pose proof (settled_fut _ _ _ _ _ _ _ Hf2 Hs1) as Hs2; [|by apply Hno].
  eapply quietS; [apply readBoth_quiet|]. intros w3 G3 b Hf3 Hi3 Hb. pose proof (settled_fut _ _ _ _ _ _ _ Hf3 Hs2) as Hs3.
  destruct b as [[snap l]|e]; [|by apply Hno]. pose proof (Hb _ _ eq_refl) as Hsn.
  eapply bindS; [apply (safe_past t (Done t any) w3); [done|by eapply retryAll_safe]|]. intros w4 G4 r Hi4 [Hp4 [Hs4 _]].
  destruct r.2 as [e|]; [by apply Hno|]. eapply (quietS _ _ (λ w' _ r, ∀ snap l, r = Ok (snap, l) → snapOk user a w' snap)).
  { destruct r.1; [apply readBoth_quiet|]. apply quiet_ret; [apply fut_refl|]. intros w' G' Hf' _ snap' l' [= <- <-].
    eapply snapOk_fut; [exact Hf'|]. by eapply snapOk_past. }
  intros w5 G5 b' Hf5 Hi5 Hb'. pose proof (settled_fut _ _ _ _ _ _ _ Hf5 Hs4) as Hs5.
  destruct b' as [[snap' l']|e]; [|by apply Hno]. pose proof (Hb' _ _ eq_refl) as Hsn'.
  apply stillS; [done|]. intros w6 G6 now' Hf6 Hi6 _. eapply quietS; [apply resolveAll_quiet|]. intros w7 G7 x Hf7 Hi7 _.
  pose proof (settled_fut _ _ _ _ _ _ _ (fut_trans _ _ _ _ _ _ _ Hf6 Hf7) Hs5) as Hs7.
  pose proof (snapOk_fut _ _ _ _ _ _ _ _ (fut_trans _ _ _ _ _ _ _ Hf6 Hf7) Hsn') as Hsn7.
  destruct x.2; [by apply Hno|]. case_match; [|by apply Hno].
  eapply quietS; [apply live_quiet|]. intros w8 G8 live Hf8 Hi8 _. pose proof (settled_fut _ _ _ _ _ _ _ Hf8 Hs7) as Hs8.
  destruct live as [[]|]; [|by apply Hno..]. eapply quietS; [eapply promote_quiet, snapOk_fut; [exact Hf8|exact Hsn7]|].
  intros w9 G9 p Hf9 Hi9 _. apply Hno. by eapply settled_fut.
Qed.

Lemma sweepAll_safe t l w G n e : settled t w → Safe t (Done t any) w G (sweepAll s l n e).
Proof.
  revert w G n e. induction l as [|[id user] l IH]; intros w G n e Hs; cbn [sweepAll]; [by apply ret_done|].
  eapply bindS; [by apply reconcile_safe|]. intros w1 G1 r Hi1 [Hs1 _]. destruct r.2; by apply IH.
Qed.
Lemma sweep_safe t w G : settled t w → Safe t (Done t any) w G (SweepUnresolvedCodexRefresh s).
Proof.
  intros Hs. rewrite /SweepUnresolvedCodexRefresh. apply stillS; [done|]. intros w1 G1 now Hf1 Hi1 _.
  apply (readS _ _ _ _ _ (λ e, ListUnresolvedCodexRefreshAccounts now e)). intros w2 G2 e x Hf2 Hi2 _.
  assert (settled t w2) as Hs2 by (do 2 (eapply settled_fut; [done|]); done).
  destruct x; [by apply sweepAll_safe|by apply ret_done].
Qed.

(** * All of them *)
(** What a finished thread leaves. *)
Definition told (k : task) (w : world) (G : ghost) (a : answer) : Prop :=
  match k, a with
  | Refreshing wkr _ _ _ _, Refreshed r e => answeredTo wkr w G (r, e)
  | Releasing wkr _ _, Released r e => releasedTo wkr w G (r, e)
  | Refreshing _ _ _ _ _, _ | Releasing _ _ _, _ => False
  | _, _ => True
  end.

Lemma fresh_settled w n : fresh w n → settled n w.
Proof. intros Hf x tok res He. by destruct (Hf n (EExchange n x tok (Ok res)) ltac:(lia) eq_refl He). Qed.

Lemma start_safe n k w G : external k = true → fresh w n → Inv w G → Safe n (Done n (told k)) w G (serve sha256 s k).
Proof.
  intros Hk Hfr Hi. pose proof (fresh_settled _ _ Hfr) as Hs.
  destruct k as [wkr run cap op observed|wkr run cap|user a| |j]; [| | | |done]; cbn [serve].
  - eapply bindS; [by apply refresh_safe|]. intros w1 G1 [r e] Hi1 [Hs1 Ha]. apply ret_done; [done|]. intros w' G' Hf' _ He.
    destruct (Ha He) as [acc Hc]. exists acc. eapply committedFor_past; [apply Hf'|done].
  - eapply bindS; [by apply release_safe|]. intros w1 G1 [r e] Hi1 [Hs1 Ha]. apply ret_done; [done|]. intros w' G' Hf' _ g He Hg.
    destruct (Ha g He Hg) as (acc & row & l & Hl & ?). exists acc, row, l. split; [by eapply loginAt_fut|done].
  - eapply bindS; [by apply reconcile_safe|]. intros w1 G1 r Hi1 [Hs1 _]. by apply ret_done.
  - eapply bindS; [by apply sweep_safe|]. intros w1 G1 r Hi1 [Hs1 _]. by apply ret_done.
Qed.

Lemma job_safe n j w G : fresh w n → jobOk contents w G j → Inv w G → Safe n (Done n (told (Writing j))) w G (serve sha256 s (Writing j)).
Proof.
  intros Hfr Hj Hi. apply quiet_done; [by apply fresh_settled|]. cbn [serve]. eapply quietS; [by apply background_safe|].
  intros w1 G1 [] Hf1 Hi1 _. by apply quiet_ret.
Qed.

Lemma fresh_note w n e : fresh w n → (∀ t, (n ≤ t)%nat → ¬ byThread t e) → fresh (noting e w) n.
Proof. intros Hf He t e' Ht Hb. simpl. rewrite elem_of_cons. intros [->|H]; [by eapply He|by eapply Hf]. Qed.

Lemma fresh_step t n w X (r : req X) x w' : (t < n)%nat → fresh w n → pstep contents t w r x w' → fresh w' n.
Proof.
  intros Ht Hf. destruct r; simpl; try (by intros ->); try (by intros [-> _]).
  - by intros (e & fs & d & _ & _ & ->).
  - intros [_ ->]. apply fresh_note; [done|]. simpl. intros t' Ht'. lia.
  - intros ->. case_match; [|done]. apply fresh_note; [done|]. by intros ? _ [].
  - intros ->. apply fresh_note; [done|]. by intros ? _ [].
Qed.
Lemma fresh_env n w w' : fresh w n → estep contents w w' → fresh w' n.
Proof. intros Hf []; try done; apply fresh_note; try done; by intros ? _ []. Qed.

(** Every reachable state satisfies the invariant, and every thread does its part. *)
Lemma codex_safe σ : reachable contents sha256 s σ → ∃ G, Inv (wld σ) G ∧
  ∀ t k a, threads σ !! t = Some (k, Ret a) → settled t (wld σ) ∧ told k (wld σ) G a.
Proof.
  intros Hr. destruct (sys_safe contents sha256 s Inv fut (jobOk contents) fut_refl fut_trans (λ t k, Done t (told k))
    (fut_env contents) ltac:(intros us al; eexists; apply kept_init) fresh) with (σ := σ) as (G & Hi & _ & Ht).
  - intros us al t e _ _. simpl. set_solver.
  - apply fresh_step.
  - apply fresh_env.
  - intros n w Hf t e Ht. apply Hf. lia.
  - apply start_safe.
  - intros. by apply job_safe.
  - apply jobOk_fut.
  - done.
  - exists G. split; [done|]. intros t k a Ha. destruct (Ht _ _ _ Ha) as [_ Hs]. by apply (Hs _ _ (fut_refl _ _ _)).
Qed.
End Threads.
End CodexThreads.
