(* ===== verification/CodexOnce.v ===== *)
(** What holds of the coordinated refresh in every interleaving of its threads with
    each other, with the other writers and with faults: a rotating refresh token is
    sent once, what is sent and what is handed out is the committed login, rotated
    material is not lost, and every login has someone who vouches for it. *)

From S2P Require Import Prelude Result Prog Txn CodexDb CodexAuthz CodexRefresh CodexSys CodexInv CodexSafe CodexThreads.

Local Open Scope Z_scope.

Module CodexOnce.
Import CodexDb CodexAuthz CodexRefresh CodexSys CodexInv CodexSafe CodexThreads.

Section Once.
Context (contents : string → option codexLoginBlob) (sha256 : string → string) (s : Service).
Abbreviation reachable := (reachable contents sha256 s).
Abbreviation loginAt := (loginAt contents).

(** The exchanges of one account at one generation, newest first. *)
Inductive sentOnce (a : uuid) (g : Z) (prev : codexLoginBlob) : list event → Prop :=
  | Once t op r : sentOnce a g prev [EExchange t (mkExchange a g op false) (RefreshToken prev) r]
  | OnceMore t op e t' r' : rejected e = false → sentOnce a g prev
      [EExchange t' (mkExchange a g op true) (RefreshToken prev) r'; EExchange t (mkExchange a g op false) (RefreshToken prev) (Err e)].

(** The login of a generation is one login. *)
Lemma loginAt_unique w G a g r r' l l' : Inv contents w G → loginAt w a g r l → loginAt w a g r' l' → l = l'.
Proof.
  intros Hi (Hs & Hg & Hc) (Hs' & Hg' & Hc'). destruct (i_same _ _ _ Hi _ _ _ Hs Hs') as [_ H].
  rewrite H in Hc; [congruence|]. rewrite Hc in Hc'. by injection Hc' as ->.
Qed.

(** C3. However many refreshes, survivors and replicas race, for one generation of
    an account the provider is sent the refresh token of the login committed at that
    generation at most once, and once more only to retry, within the same operation,
    an exchange that ended in an error which does not refuse the token. *)
Theorem codex_token_sent_once σ a g : reachable σ →
  exchanges a g (log (wld σ)) = [] ∨
  ∃ row prev, loginAt (wld σ) a g row prev ∧ sentOnce a g prev (exchanges a g (log (wld σ))).
Proof.
  intros (G & Hi & _)%codex_safe.
  assert (∀ t op b tok r, EExchange t (mkExchange a g op b) tok r ∈ exchanges a g (log (wld σ)) →
    ∃ row prev, loginAt (wld σ) a g row prev ∧ tok = RefreshToken prev) as Htok.
  { intros t op b tok r He. apply in_exchanges in He. exact (i_tokens _ _ _ Hi _ _ _ _ He). }
  destruct (i_exchanges _ _ _ Hi a g) as [|t op tok r Hl|t op tok e t' tok' r' Hl Hrej Hu]; [by left|right..].
  - destruct (Htok t op false tok r) as (row & prev & Hr & ->); [set_solver|]. exists row, prev. split; [done|constructor].
  - destruct (Htok t op false tok (Err e)) as (row & prev & Hr & ->); [set_solver|].
    destruct (Htok t' op true tok' r') as (row' & prev' & Hr' & ->); [set_solver|].
    pose proof (loginAt_unique _ _ _ _ _ _ _ _ Hi Hr' Hr) as ->. exists row, prev. split; [done|by constructor].
Qed.

(** C6. A token a worker is given, by a refresh or by a release, is the access token
    of the login committed at the generation it is told, of one account of the
    worker's owner, and that generation has no other login. *)
Theorem codex_token_committed σ t wkr run cap tok g id : reachable σ →
  (∃ op observed o, threads σ !! t = Some (Refreshing wkr run cap op observed, Ret (Refreshed (mkResult tok g id o) None))) ∨
  (∃ m, threads σ !! t = Some (Releasing wkr run cap, Ret (Released (mkRelease m tok (Some g) id) None))) →
  ∃ account row l, loginAt (wld σ) account g row l ∧ UserID row = WorkerUserID wkr ∧ WorkspaceAccountID row = id ∧
    tok = AccessToken l ∧ ∀ row' l', loginAt (wld σ) account g row' l' → l' = l.
Proof.
  intros (G & Hi & Ht)%codex_safe H.
  assert (∃ account row l, loginAt (wld σ) account g row l ∧ UserID row = WorkerUserID wkr ∧ WorkspaceAccountID row = id ∧
    tok = AccessToken l) as (account & row & l & Hl & ? & ? & ?).
  { destruct H as [(op & observed & o & Hth)|(m & Hth)]; destruct (Ht _ _ _ Hth) as [_ Htold]; simpl in Htold.
    - destruct (Htold eq_refl) as (account & row & l & ? & ? & ? & _ & ?). by exists account, row, l.
    - destruct (Htold g eq_refl eq_refl) as (account & row & l & ? & ? & ? & ?). by exists account, row, l. }
  exists account, row, l. split_and!; [done..|]. intros row' l' Hl'. by eapply loginAt_unique.
Qed.

(** C13. Once a thread has finished, the material of each of its successful exchanges
    was committed as the next generation, was written to the recovery slot, was
    handed to the background writer, was overtaken by a later generation (or the
    deletion of the account), or was refused as another identity's. *)
Theorem codex_material_kept σ t k ans x tok res : reachable σ → background s = true →
  threads σ !! t = Some (k, Ret ans) → EExchange t x tok (Ok res) ∈ log (wld σ) →
  let a := xAccount x in let g := xGeneration x in
  ∃ row prev, loginAt (wld σ) a g row prev ∧ tok = RefreshToken prev ∧
    let m := mergeCodexLogin prev res in
    classifyCodexFreshIdentity row (IdentityClaims res) = codexFreshIdentityMismatch ∨
    (∃ r, loginAt (wld σ) a (g + 1) r m) ∨ slotHeld contents (wld σ) a g m ∨ movedOn (wld σ) a g ∨
    ∃ j, EHanded t j ∈ log (wld σ) ∧ jAccount j = a ∧ jGen j = g ∧ jRaw j = m.
Proof.
  intros (G & Hi & Ht)%codex_safe Hb Hth He a g. destruct (Ht _ _ _ Hth) as [Hs _].
  destruct (Hs _ _ _ He) as (row & prev & Hl & -> & Hk). exists row, prev. split_and!; [done|done|].
  destruct Hk as [?|[?|[?|[?|[?|Hno]]]]]; [by auto..|by eauto 6|]. by rewrite Hb in Hno.
Qed.

(** C11. Every login that was ever committed was entered by its owner at that
    generation, or is what an exchange at the generation before returned, with
    claims that are the account's or found to be the account's by looking its token
    up. *)
Theorem codex_login_vouched σ a r : reachable σ → seen (wld σ) a r → vouched contents (wld σ) a r.
Proof. intros (G & Hi & _)%codex_safe. apply Hi. Qed.

(** An account never changes its owner or identity, its generation never falls,
    and no two logins are committed at one generation. *)
Theorem codex_generations σ a r r' : reachable σ → seen (wld σ) a r → seen (wld σ) a r' →
  identity r = identity r' ∧ (Generation r = Generation r' → contents (SealedLogin r) = contents (SealedLogin r')) ∧
  (accounts (cur (wld σ)) !! a = Some r' → Generation r ≤ Generation r').
Proof.
  intros (G & Hi & _)%codex_safe Hs Hs'. destruct (i_same _ _ _ Hi _ _ _ Hs Hs') as [? ?]. split_and!; [done|done|].
  by apply Hi.
Qed.
End Once.
End CodexOnce.
