(* ===== verification/CodexExample.v ===== *)
(** One account, its worker and a few refreshes: the theorems of [CodexOnce] at a
    state that was reached through an exchange with an unknown outcome, its retry by
    a survivor, a release and a further refresh; and a survivor that overtakes a
    refresh before it has its lease. *)

From S2P Require Import Prelude Result GoStrings Prog Txn CodexDb CodexAuthz CodexRefresh CodexSys CodexInv CodexSafe CodexOnce CodexAuthority.

Local Open Scope Z_scope.

Module CodexExample.
Import CodexDb CodexAuthz CodexRefresh CodexSys CodexInv CodexSafe CodexOnce CodexAuthority.

(** * The surroundings *)
(** A seal is the two tokens with a slash between them. *)
Definition slash : Ascii.ascii := Ascii.ascii_of_nat 47.
Definition contents (ct : string) : option codexLoginBlob :=
  match GoStrings.IndexByte ct slash with
  | Some n => Some (mkLogin (GoStrings.stake n ct) (GoStrings.sdrop (S n) ct))
  | None => None
  end.
Definition seal (l : codexLoginBlob) : string := AccessToken l +:+ String slash (RefreshToken l).
Definition hash (s : string) : string := s.
Definition svc : Service := mkService true true true true.

(** What is outside at one time: the clock, the rows of an authorization and the
    answers of the provider. *)
Record outside := mkOutside {
  at_ : time;
  auth : ∀ X, areq X → X;
  provider : string → result RefreshError RefreshResult;
  whose : string → option Identity;
}.
Definition amb (o : outside) : Ambient := mkAmbient (at_ o) (at_ o) id id.

(** The answer to a request and the world after it, without faults. *)
Definition reply (o : outside) (t : nat) (w : world) {X} (r : req X) : X * world :=
  match r in req X return X * world with
  | TX m => let '(x, d) := Txn.inTx (m (amb o)) [] (cur w) in (x, commitTo d w)
  | Authz a => (auth o _ a, w)
  | Now => (at_ o, w)
  | Remaining => (None, w)
  | CtxErr => (false, w)
  | LockVault _ => (Ok (VaultModeUnprotected, 1), w)
  | Seal _ raw _ =>
      (if bool_decide (contents (seal raw) = Some raw ∧ seal raw ≠ ""%string)
       then Ok (mkSealed (seal raw) "master" VaultModeUnprotected 1 true) else Err VaultOther, w)
  | FenceVaultWrite _ _ _ => (Ok tt, w)
  | VaultState _ => (Ok VaultModeUnprotected, w)
  | RequiresUnlock _ => (false, w)
  | OpenSealedAtEpoch _ _ ct _ => (Ok (contents ct), w)
  | OpenByIDOfKind _ _ => (Err ReaderFailure, w)
  | Refresh x tok =>
      let r := match provider o tok with
               | Ok res => if String.eqb (NewAccessToken res) "" then Err Transport else Ok res
               | Err e => Err e
               end in
      (r, noting (EExchange t x tok r) w)
  | DiscoverIdentity tok => (whose o tok, match whose o tok with Some id => noting (EIdentity tok id) w | None => w end)
  | Background j => (tt, noting (EHanded t j) w)
  end.

Lemma reply_step o t w X (r : req X) : pstep contents t w r (reply o t w r).1 (reply o t w r).2.
Proof.
  destruct r; simpl; try done.
  - destruct (Txn.inTx _ _ _) as [x d] eqn:E. exists (amb o), [], d. split_and!; [split; intros; reflexivity|exact E|done].
  - split; [done|]. intros sm. case_bool_decide as H; [|done]. intros [= <-]. exact H.
  - split; [done|]. by intros p [= <-].
  - split; [|done]. intros res. destruct (provider o token) as [res'|]; [|done].
    destruct (String.eqb_spec (NewAccessToken res') ""); [done|]. by intros [= <-].
Qed.

(** Some requests of a thread. *)
Fixpoint play (o : outside) (n t : nat) (w : world) (p : prog req answer) : prog req answer * world :=
  match n, p with
  | S n, Vis r k => let '(x, w') := reply o t w r in play o n t w' (k x)
  | _, _ => (p, w)
  end.

(** A thread goes on for [n] requests; a new thread starts. *)
Definition proceed (o : outside) (n t : nat) (σ : sys) : sys :=
  match threads σ !! t with
  | Some (k, p) => let '(p', w') := play o n t (wld σ) p in mkSys w' (<[t := (k, p')]> (threads σ)) (next σ)
  | None => σ
  end.
Definition start (k : task) (σ : sys) : sys :=
  if external k then mkSys (wld σ) (<[next σ := (k, serve hash svc k)]> (threads σ)) (S (next σ)) else σ.

Abbreviation reachable := (reachable contents hash svc).

Lemma start_reachable k σ : reachable σ → reachable (start k σ).
Proof. intros H. rewrite /start. destruct (external k) eqn:E; [|done]. eapply R_step; [done|by apply S_start]. Qed.

Lemma play_reachable o n t k p σ : reachable σ → threads σ !! t = Some (k, p) →
  reachable (mkSys (play o n t (wld σ) p).2 (<[t := (k, (play o n t (wld σ) p).1)]> (threads σ)) (next σ)).
Proof.
  revert p σ. induction n as [|n IH]; intros p σ Hr Ht.
  { simpl. rewrite insert_id //. by destruct σ. }
  destruct p as [a|X r f]; simpl; [rewrite insert_id //; by destruct σ|].
  pose proof (reply_step o t (wld σ) X r) as Hst. destruct (reply o t (wld σ) r) as [x w'].
  pose proof (R_step _ _ _ _ _ Hr (S_request _ _ _ σ t k X r f x w' Ht Hst)) as Hr'.
  specialize (IH (f x) _ Hr'). simpl in IH. rewrite lookup_insert_eq insert_insert_eq in IH. by apply IH.
Qed.
Lemma proceed_reachable o n t σ : reachable σ → reachable (proceed o n t σ).
Proof.
  intros Hr. rewrite /proceed. destruct (threads σ !! t) as [[k p]|] eqn:E; [|done].
  pose proof (play_reachable o n t k p σ Hr E) as H. by destruct (play o n t (wld σ) p).
Qed.

(** * One account *)
Definition owner : uuid := Uuid.mk 1.
Definition account : uuid := Uuid.mk 2.
Definition run1 : uuid := Uuid.mk 3.
Definition worker1 : Worker := mkWorker (Uuid.mk 4) owner [].
Definition alias1 : uuid := Uuid.mk 5.
Definition op1 : uuid := Uuid.mk 6.
Definition op2 : uuid := Uuid.mk 7.

Definition cap : string := formatCodexCapability 1 "secret".
Definition enrolledAccount : CodexProviderAccount :=
  mkAccount owner "user" "ws" "A0/R0" "master" 0 1 None None None None Idle None None None 0 false None None None.
Definition authRow : GetRunCodexAuthContextRow :=
  mkRow (Some alias1) (Some codexAuthModeSubscription) (Some (codexAccountKey "user" "ws")) (Some 1) (Some 1) 1 "secret"
    (Some (ID worker1)) "running" None 1 (Some 1) (Some "user"%string) (Some "ws"%string) (Some Idle) KindCodexAuth.
Definition authorized (X : Type) (a : areq X) : X :=
  match a with
  | GetRunCodexAuthContext _ => Ok authRow
  | GetCodexCredentialState _ _ => Ok (Some account)
  end.
(** The provider rotates R<n> to R<n+1>; the first answer is lost. *)
Definition claims : FreshAccessTokenIdentityClaims := mkClaims "ws" "user" "user".
Definition rotates (tok : string) : result RefreshError RefreshResult :=
  if String.eqb tok "R0" then Ok (mkRefreshed "A1" (Some "R1"%string) claims)
  else if String.eqb tok "R1" then Ok (mkRefreshed "A2" (Some "R2"%string) claims)
  else Err (AuthErr (mkAuthError "refresh" 400 "invalid_grant")).
Definition calm (t : time) : outside := mkOutside t authorized rotates (λ _, Some (mkIdentity "user" "ws")).
Definition stormy (t : time) : outside := mkOutside t authorized (λ _, Err Transport) (λ _, None).

Definition begin : sys := initially {[owner := 1]} {[alias1 := mkAlias owner (Some account) true false]}.
Definition enrolledSys : sys :=
  mkSys (noting (EInstall account 0 (contents (SealedLogin enrolledAccount)))
           (commitTo (setAccounts <[account := enrolledAccount]> (cur (wld begin))) (wld begin))) (threads begin) (next begin).
Lemma enrolled_reachable : reachable enrolledSys.
Proof.
  eapply R_step; [apply R_init|]. apply S_other. apply E_enrol.
  - intros d Hd. apply list_elem_of_singleton in Hd as ->. reflexivity.
  - by rewrite /enrolled /=.
Qed.

(** The first refresh ends with the connection; a minute later a survivor retries it
    and promotes what it got; the worker fetches the token and refreshes again. *)
Definition second : time := Go.Second.
Definition unknown : sys := proceed (stormy second) 40 0 (start (Refreshing worker1 run1 cap op1 0) enrolledSys).
Definition survived : sys := proceed (calm (60 * second)) 80 1 (start Sweeping unknown).
Definition released : sys := proceed (calm (61 * second)) 40 2 (start (Releasing worker1 run1 cap) survived).
Definition advanced : sys := proceed (calm (62 * second)) 60 3 (start (Refreshing worker1 run1 cap op2 1) released).

Lemma advanced_reachable : reachable advanced.
Proof. do 4 apply proceed_reachable, start_reachable. exact enrolled_reachable. Qed.
Lemma codex_token_sent_once_witness :
  reachable advanced ∧ length (exchanges account 0 (log (wld advanced))) = 2%nat ∧
  ∃ row prev, loginAt contents (wld advanced) account 0 row prev ∧ sentOnce account 0 prev (exchanges account 0 (log (wld advanced))).
Proof.
  split; [exact advanced_reachable|]. split; [vm_compute; reflexivity|].
  destruct (codex_token_sent_once contents hash svc advanced account 0 advanced_reachable) as [H|H]; [|exact H].
  exfalso. vm_compute in H. discriminate H.
Defined.

Lemma codex_token_committed_witness :
  threads advanced !! 3%nat = Some (Refreshing worker1 run1 cap op2 1, Ret (Refreshed (mkResult "A2" 2 "ws" CodexRefreshAdvanced) None)) ∧
  ∃ a row l, loginAt contents (wld advanced) a 2 row l ∧ UserID row = owner ∧ WorkspaceAccountID row = "ws"%string ∧
    "A2"%string = AccessToken l ∧ ∀ row' l', loginAt contents (wld advanced) a 2 row' l' → l' = l.
Proof.
  assert (threads advanced !! 3%nat = Some (Refreshing worker1 run1 cap op2 1, Ret (Refreshed (mkResult "A2" 2 "ws" CodexRefreshAdvanced) None)))
    as H by (vm_compute; reflexivity).
  split; [exact H|].
  apply (codex_token_committed contents hash svc advanced 3 worker1 run1 cap "A2" 2 "ws" advanced_reachable). left. eauto.
Defined.

Definition retried : RefreshResult := mkRefreshed "A1" (Some "R1"%string) claims.
Lemma codex_material_kept_witness :
  background svc = true ∧
  ∃ row prev, loginAt contents (wld advanced) account 0 row prev ∧ "R0"%string = RefreshToken prev ∧
    let m := mergeCodexLogin prev retried in
    classifyCodexFreshIdentity row claims = codexFreshIdentityMismatch ∨
    (∃ r, loginAt contents (wld advanced) account (0 + 1) r m) ∨ slotHeld contents (wld advanced) account 0 m ∨
    movedOn (wld advanced) account 0 ∨
    ∃ j, EHanded 1 j ∈ log (wld advanced) ∧ jAccount j = account ∧ jGen j = 0 ∧ jRaw j = m.
Proof.
  split; [reflexivity|].
  apply (codex_material_kept contents hash svc advanced 1 Sweeping Done (mkExchange account 0 op1 true) "R0" retried advanced_reachable eq_refl).
  - vm_compute. reflexivity.
  - apply list_elem_of_lookup. exists 2%nat. vm_compute. reflexivity.
Defined.

(** The account as it is in the end. *)
Definition lastRow : CodexProviderAccount := default enrolledAccount (accounts (cur (wld advanced)) !! account).
Lemma lastRow_seen : seen (wld advanced) account lastRow.
Proof. exists (cur (wld advanced)). split; [apply list_elem_of_lookup; exists 0%nat; vm_compute; reflexivity|vm_compute; reflexivity]. Qed.
Lemma firstRow_seen : seen (wld advanced) account enrolledAccount.
Proof.
  apply (seen_past (wld enrolledSys)).
  - intros d Hd. apply list_elem_of_lookup in Hd as [[|[|n]] Hd]; [| |done]; injection Hd as <-; apply list_elem_of_lookup.
    + exists (length (past (wld advanced)) - 2)%nat. vm_compute. reflexivity.
    + exists (length (past (wld advanced)) - 1)%nat. vm_compute. reflexivity.
  - exists (cur (wld enrolledSys)). split; [apply list_elem_of_lookup; by exists 0%nat|reflexivity].
Qed.

Lemma codex_login_vouched_witness : SealedLogin lastRow = "A2/R2"%string ∧ vouched contents (wld advanced) account lastRow.
Proof.
  split; [vm_compute; reflexivity|].
  exact (codex_login_vouched contents hash svc advanced account lastRow advanced_reachable lastRow_seen).
Defined.

Lemma codex_generations_witness : Generation enrolledAccount = 0 ∧ Generation lastRow = 2 ∧
  identity enrolledAccount = identity lastRow ∧
  (Generation enrolledAccount = Generation lastRow → contents (SealedLogin enrolledAccount) = contents (SealedLogin lastRow)) ∧
  (accounts (cur (wld advanced)) !! account = Some lastRow → Generation enrolledAccount ≤ Generation lastRow).
Proof.
  split; [reflexivity|]. split; [vm_compute; reflexivity|].
  exact (codex_generations contents hash svc advanced account enrolledAccount lastRow advanced_reachable firstRow_seen lastRow_seen).
Defined.

(** * Authority *)
Definition granted : CodexAuthContext := mkAuth ScopeStartRefresh codexAuthModeSubscription owner run1 alias1 account.
Lemma codex_authorized_witness :
  ask authorized (authorizeCodexCredentialOp hash worker1 run1 cap ScopeStartRefresh true) = (granted, None) ∧
  ∃ row, authorized _ (GetRunCodexAuthContext run1) = Ok row ∧ holdsClaim hash worker1 cap row ∧ boundAsFrozen ScopeStartRefresh granted row.
Proof.
  assert (ask authorized (authorizeCodexCredentialOp hash worker1 run1 cap ScopeStartRefresh true) = (granted, None)) as H
    by (vm_compute; reflexivity).
  split; [exact H|].
  destruct (codex_authorized hash authorized worker1 run1 cap ScopeStartRefresh true granted None H (or_introl eq_refl)) as (row & ? & ? & ? & _).
  exists row. auto.
Defined.

Lemma codex_capability_roundtrip_witness : parseCodexCapability (formatCodexCapability 12 "s.e") = Some (12, "s.e"%string).
Proof. apply (codex_capability_roundtrip 12 "s.e"); [split; vm_compute; congruence|discriminate]. Defined.

Lemma codex_account_key_injective_witness :
  codexAccountKey "a" "b" = codexAccountKey "a" "b" ∧ "a"%string = "a"%string ∧ "b"%string = "b"%string.
Proof.
  split; [reflexivity|]. apply (codex_account_key_injective "a" "b" "a" "b"); vm_compute; reflexivity.
Defined.
(** Identities that a plain concatenation would confuse. *)
Example key_separates : codexAccountKey "a," "b" ≠ codexAccountKey "a" ",b".
Proof. vm_compute. discriminate. Qed.

(** * A refresh overtaken by a survivor

    The refresh has written its intent and has not taken its lease.  A sweep finds
    the account idle and closes the intent.  The refresh goes on, and when its
    exchange ends without an answer there is no rotating intent to record it in: no
    survivor will retry. *)
Definition opening : sys := proceed (stormy second) 8 0 (start (Refreshing worker1 run1 cap op1 0) enrolledSys).
Definition overtaken : sys := proceed (calm second) 80 1 (start Sweeping opening).
Definition leased : sys := proceed (stormy second) 1 0 overtaken.
Definition stranded : sys := proceed (calm (60 * second)) 80 2 (start Sweeping (proceed (stormy second) 40 0 leased)).

Lemma stranded_reachable : reachable leased ∧ reachable stranded.
Proof.
  assert (reachable leased) as H.
  { do 2 apply proceed_reachable. apply start_reachable, proceed_reachable, start_reachable. exact enrolled_reachable. }
  split; [exact H|]. apply proceed_reachable, start_reachable, proceed_reachable. exact H.
Qed.

(** The coordinates of the account and of the intent. *)
Definition coordOf (σ : sys) : option (CoordState * option uuid * option time * Z) :=
  (λ a, (Coord a, CoordOperationID a, LeaseDeadline a, Generation a)) <$> accounts (cur (wld σ)) !! account.
Definition intentOf (σ : sys) : option (IntentState * option time) :=
  (λ i, (State i, ProviderErrorAt i)) <$> intents (cur (wld σ)) !! op1.

(** A survivor can close the intent of an operation that is alive: after it, the
    operation holds the lease of the account with its intent unrecoverable, and when
    its exchange ends without an answer the account stays quarantined, where without
    the survivor the exchange is retried and the account goes on. *)
Theorem codex_survivor_overtakes : ∃ σ σ' op, reachable σ ∧ reachable σ' ∧
  coordOf σ = Some (InProgress, Some op, Some (8 * second), 0) ∧ intentOf σ = Some (Unrecoverable, None) ∧
  coordOf σ' = Some (Quarantined, Some op, Some (8 * second), 0) ∧ intentOf σ' = Some (Unrecoverable, None) ∧
  length (exchanges account 0 (log (wld σ'))) = 1%nat ∧ coordOf survived = Some (Idle, None, None, 1).
Proof.
  exists leased, stranded, op1. destruct stranded_reachable as [H H']. split_and!; [exact H|exact H'|vm_compute; reflexivity..].
Qed.
End CodexExample.
