(* ===== verification/RunDb.v ===== *)
(** The row of a run and the statements that write it, a module each: [RunOrigin], why
    a run failed or waits; [RunRow], the columns and the conditions on them;
    [RunWorker], [RunOwner] and [RunServer], the statements, by who asks for them. *)

From S2P Require Import Prelude.

Local Open Scope Z_scope.

(** * Origins and causes

    Why a run failed: the vocabulary of [runs.fail_origin] and what a worker may
    put into it ([src/api/internal/workersvc/failorigin.go],
    [claimAssemblyOrigin] of [claim_recovery.go], [pgconv.TextOrNull]). *)
Module RunOrigin.

(** The closed set of [runs_fail_origin_check], in source order. *)
Definition failOrigins : list string :=
  [ "provisioning_failed"; "credential_unavailable"; "guardrail_blocked"; "rate_limited";
    "run_timeout"; "worker_lost"; "agent_failure"; "plan_rejected"; "auto_stopped";
    "workflow_scope_missing"; "finalize_base_align_conflict"; "push_secret_blocked";
    "forge_unreachable"; "history_rewritten"; "task_undispatched"; "plan_missing";
    "worker_residue_blocked"; "gate_presentation_refused"; "data_volume_full";
    "skills_plugin_load_failed"; "no_job_capable_worker"; "ephemeral_worker_never_registered";
    "job_no_result"; "base_diverged"; "provider_policy_refusal" ].

(** The members a worker may report of its own failure. *)
Definition workerReportableFailOrigins : list string :=
  [ "provisioning_failed"; "credential_unavailable"; "rate_limited"; "agent_failure";
    "workflow_scope_missing"; "finalize_base_align_conflict"; "push_secret_blocked";
    "history_rewritten"; "plan_missing"; "worker_residue_blocked"; "skills_plugin_load_failed";
    "base_diverged"; "provider_policy_refusal" ].

Definition CoerceFailOrigin (reported : option string) : option string :=
  match reported with
  | None => None
  | Some o => if bool_decide (o ∈ workerReportableFailOrigins) then Some o else None
  end.

(** What the [failed] arm of [SetState] stamps: the coerced report, else
    ['agent_failure']. *)
Definition reportedOrigin (reported : option string) : string :=
  match CoerceFailOrigin reported with Some o => o | None => "agent_failure" end.

Definition TextOrNull (s : string) : option string :=
  if bool_decide (s = "") then None else Some s.

(** ** Landing a failed run's work *)
Definition humanLandableFailOrigins : list string :=
  [ "finalize_base_align_conflict"; "workflow_scope_missing"; "push_secret_blocked";
    "history_rewritten" ].

Definition IsHumanLandableFailOrigin (o : string) : bool :=
  bool_decide (o ∈ humanLandableFailOrigins).

Definition AllHumanLandableFailOrigins : list string :=
  filter (λ o, o ∈ humanLandableFailOrigins) failOrigins.

Definition LandingStateNone : string := "none".
Definition LandingStateNeedsLanding : string := "needs_landing".
Definition LandingStateUnrecoverable : string := "unrecoverable".

Definition DeriveLandingState (failOrigin : option string)
    (hasPreservedPatch hasAvailableCapture : bool) : string :=
  match failOrigin with
  | None => LandingStateNone
  | Some o =>
      if negb (IsHumanLandableFailOrigin o) then LandingStateNone
      else if hasPreservedPatch || hasAvailableCapture then LandingStateNeedsLanding
      else LandingStateUnrecoverable
  end.

(** ** The origin of a claim that could not be assembled *)
(** Which sentinel [errors.Is] finds in the assembly error, in the order of the
    switch. *)
Inductive AssemblyErr :=
  | errCheckerPinUnavailable
  | errCredentialUnavailable
  | errToolPackagesRejected
  | errClaimTooLarge
  | errGuardrailBlockedClaim
  | ErrCrossCheckRefused
  | otherErr.

Definition claimAssemblyOrigin (e : AssemblyErr) : string :=
  match e with
  | errCheckerPinUnavailable => "guardrail_blocked"
  | errCredentialUnavailable => "credential_unavailable"
  | errToolPackagesRejected | errClaimTooLarge => "provisioning_failed"
  | errGuardrailBlockedClaim | ErrCrossCheckRefused => "guardrail_blocked"
  | otherErr => ""
  end.

(** The origin left at the end of the claim: the assembly's, or one of the two the
    later arms overwrite it with. *)
Inductive ClaimOutcome := assembled (e : AssemblyErr) | credentialGone | oversize.

Definition claimOrigin (o : ClaimOutcome) : string :=
  match o with
  | assembled e => claimAssemblyOrigin e
  | credentialGone => "credential_unavailable"
  | oversize => "provisioning_failed"
  end.

(** ** The causes of a wait that a worker reports *)
Definition recoveryCauseVaultLocked : string := "vault_locked".
Definition recoveryCauseCodexIdleStall : string := "codex_idle_stall".
Definition recoveryCauseRetainedRecoveryExhausted : string := "retained_recovery_exhausted".
Definition recoveryCauseRetainedRecoveryAdoptionFailed : string :=
  "retained_recovery_adoption_failed".

(** What [SetRunRecoveryWait] stores of a reported cause; the others have statements of
    their own. *)
Definition recoveryCauseStored (cause : option string) : option string :=
  match cause with
  | Some c =>
      if bool_decide (c = recoveryCauseVaultLocked) || bool_decide (c = recoveryCauseCodexIdleStall)
      then Some c else None
  | None => None
  end.

(** * Lemmas *)
(** No report of a worker makes a server-only origin. *)
Lemma reportedOrigin_timeout reported : reportedOrigin reported ≠ "run_timeout".
Proof.
  unfold reportedOrigin. destruct reported as [o|]; simpl; [|done].
  case_bool_decide as Ho; [|done]. intros ->. revert Ho.
  by apply (bool_decide_eq_true_1 (_ ∉ _)).
Qed.
Lemma claimOrigin_timeout o : claimOrigin o ≠ "run_timeout".
Proof. by destruct o as [[]| |]. Qed.
Lemma TextOrNull_Some s o : TextOrNull s = Some o → o = s.
Proof. unfold TextOrNull. case_bool_decide; naive_solver. Qed.

End RunOrigin.

(** * The row

    The row of a run in the table [runs] ([src/api/internal/store/models.go], type
    [Run]): the columns that say in which phase of its life a run is and whose claim
    it is under, and what a statement that updates them may read.

    The statements themselves are in [RunWorker] (sent for the worker that holds the
    run), [RunOwner] (asked for by the user) and [RunServer] (claims, sweeps and
    recovery).  One statement is one definition [Env → Run → option Run]: [None]
    when the row does not satisfy its [WHERE].  A statement that updates many rows
    (a sweep) does the same to each row, so it is given by what it does to one.

    A [WHERE] is translated conjunct by conjunct where the conjunct is about the
    columns of [Run].  The rest (other columns of the run, other tables, locks, the
    [id]) is a boolean of [Env], of any value: what is proved of a statement holds
    whatever the rest of the database says. *)
Module RunRow.

(** The values of [runs.status]. *)
Inductive Status :=
  | queued | claimed | running
  | awaiting_approval | awaiting_input | awaiting_followup
  | limit_wait | pool_wait | recovery_wait | paused
  | completed | failed | cancelled.

#[export] Instance Status_eq_dec : EqDecision Status.
Proof. solve_decision. Defined.

Record Run := mkRun {
  kind : string;
  harness : string;
  status : Status;
  user_id : uuid;
  worker_id : option uuid;
  released_worker_id : option uuid;
  claim_generation : Z;
  claim_released_at : option time;
  finished_at : option time;
  fail_origin : option string;
  hold_reason : option string;
  recovery_wait_cause : option string;
  codex_cap_hash : option string;
  codex_claim_epoch : Z;
}.

#[export] Instance Run_eq_dec : EqDecision Run.
Proof. solve_decision. Defined.

(** What a statement reads besides the columns of [Run]. *)
Record Env := mkEnv {
  now : time;
  (** The conjuncts of the statement's [WHERE] on other columns and tables. *)
  also : bool;
  (** Wall budget is left, or the run is interactive or was never started. *)
  budget_left : bool;
  (** A pending cross check wants the checker run. *)
  check_wanted : bool;
  (** The worker has no terminal report of this run in flight. *)
  outcome_settled : bool;
  (** [recovery_retry_not_before IS NOT NULL] *)
  retry_set : bool;
  (** The plan presented at the gate was approved. *)
  approved : bool;
  (** The open question was answered. *)
  answered : bool;
  (** [plan_cross_check_required OR plan_cross_check_gated] *)
  plan_checked : bool;
  (** The worker has consumed a revision of the plan it has not applied. *)
  revision_taken : bool;
  (** A follow-up newer than the one the run stopped at was applied. *)
  followed_up : bool;
  (** [requeue_count - requeue_episode_baseline < @max_requeues] *)
  under_cap : bool;
  (** [@exhaustion_evidence -> runs.id ->> 'park'], true when absent. *)
  park : bool;
  (** [runs.pause_mode] *)
  pause_mode : option string;
}.

(** ** The columns a statement sets
    A right-hand side reads the row as it was, so that a statement names the old row
    [r] wherever it reads one. *)
Definition setHarness (v : string) (r : Run) : Run :=
  mkRun (kind r) v (status r) (user_id r) (worker_id r) (released_worker_id r)
    (claim_generation r) (claim_released_at r) (finished_at r) (fail_origin r)
    (hold_reason r) (recovery_wait_cause r) (codex_cap_hash r) (codex_claim_epoch r).

Definition setStatus (v : Status) (r : Run) : Run :=
  mkRun (kind r) (harness r) v (user_id r) (worker_id r) (released_worker_id r)
    (claim_generation r) (claim_released_at r) (finished_at r) (fail_origin r)
    (hold_reason r) (recovery_wait_cause r) (codex_cap_hash r) (codex_claim_epoch r).

Definition setWorker (v : option uuid) (r : Run) : Run :=
  mkRun (kind r) (harness r) (status r) (user_id r) v (released_worker_id r)
    (claim_generation r) (claim_released_at r) (finished_at r) (fail_origin r)
    (hold_reason r) (recovery_wait_cause r) (codex_cap_hash r) (codex_claim_epoch r).

Definition setReleasedWorker (v : option uuid) (r : Run) : Run :=
  mkRun (kind r) (harness r) (status r) (user_id r) (worker_id r) v
    (claim_generation r) (claim_released_at r) (finished_at r) (fail_origin r)
    (hold_reason r) (recovery_wait_cause r) (codex_cap_hash r) (codex_claim_epoch r).

Definition setGeneration (v : Z) (r : Run) : Run :=
  mkRun (kind r) (harness r) (status r) (user_id r) (worker_id r) (released_worker_id r)
    v (claim_released_at r) (finished_at r) (fail_origin r)
    (hold_reason r) (recovery_wait_cause r) (codex_cap_hash r) (codex_claim_epoch r).

Definition setReleased (v : option time) (r : Run) : Run :=
  mkRun (kind r) (harness r) (status r) (user_id r) (worker_id r) (released_worker_id r)
    (claim_generation r) v (finished_at r) (fail_origin r)
    (hold_reason r) (recovery_wait_cause r) (codex_cap_hash r) (codex_claim_epoch r).

Definition setFinished (v : option time) (r : Run) : Run :=
  mkRun (kind r) (harness r) (status r) (user_id r) (worker_id r) (released_worker_id r)
    (claim_generation r) (claim_released_at r) v (fail_origin r)
    (hold_reason r) (recovery_wait_cause r) (codex_cap_hash r) (codex_claim_epoch r).

Definition setOrigin (v : option string) (r : Run) : Run :=
  mkRun (kind r) (harness r) (status r) (user_id r) (worker_id r) (released_worker_id r)
    (claim_generation r) (claim_released_at r) (finished_at r) v
    (hold_reason r) (recovery_wait_cause r) (codex_cap_hash r) (codex_claim_epoch r).

Definition setHold (v : option string) (r : Run) : Run :=
  mkRun (kind r) (harness r) (status r) (user_id r) (worker_id r) (released_worker_id r)
    (claim_generation r) (claim_released_at r) (finished_at r) (fail_origin r)
    v (recovery_wait_cause r) (codex_cap_hash r) (codex_claim_epoch r).

Definition setCause (v : option string) (r : Run) : Run :=
  mkRun (kind r) (harness r) (status r) (user_id r) (worker_id r) (released_worker_id r)
    (claim_generation r) (claim_released_at r) (finished_at r) (fail_origin r)
    (hold_reason r) v (codex_cap_hash r) (codex_claim_epoch r).

Definition setCapability (h : option string) (e : Z) (r : Run) : Run :=
  mkRun (kind r) (harness r) (status r) (user_id r) (worker_id r) (released_worker_id r)
    (claim_generation r) (claim_released_at r) (finished_at r) (fail_origin r)
    (hold_reason r) (recovery_wait_cause r) h e.

(** [codex_cap_hash = NULL, codex_claim_epoch = codex_claim_epoch + 1]: no capability
    minted before is accepted any more. *)
Definition capabilityDead (r : Run) : Run := setCapability None (codex_claim_epoch r + 1) r.

(** [UPDATE runs SET ... WHERE ...] on one row. *)
Definition UPDATE (guard : bool) (r' : Run) : option Run := if guard then Some r' else None.

Infix "|>" := (λ r f, f r) (at level 50, left associativity, only parsing).

(** ** Conditions shared by many statements *)
Definition status_is (s : Status) (r : Run) : bool := bool_decide (status r = s).
Definition status_in (l : list Status) (r : Run) : bool := existsb (λ s, status_is s r) l.
Definition is_kind (k : string) (r : Run) : bool := bool_decide (kind r = k).
Definition kind_in (l : list string) (r : Run) : bool := existsb (λ k, is_kind k r) l.

(** [worker_id = @worker_id] *)
Definition of_worker (w : uuid) (r : Run) : bool := bool_decide (worker_id r = Some w).
(** [user_id = @user_id] *)
Definition of_user (u : uuid) (r : Run) : bool := bool_decide (user_id r = u).
(** [claim_generation = @claim_generation] *)
Definition at_generation (g : Z) (r : Run) : bool := bool_decide (claim_generation r = g).
(** [@claim_generation IS NULL OR claim_generation = @claim_generation] *)
Definition at_generation_opt (g : option Z) (r : Run) : bool :=
  match g with None => true | Some g => at_generation g r end.
(** [claim_released_at IS NULL] *)
Definition unreleased (r : Run) : bool := bool_decide (claim_released_at r = None).
(** [hold_reason = 'x'] and, negated, [hold_reason IS DISTINCT FROM 'x'] *)
Definition hold_is (x : string) (r : Run) : bool := bool_decide (hold_reason r = Some x).
Definition hold_in (l : list string) (r : Run) : bool := existsb (λ x, hold_is x r) l.
Definition cause_is (x : string) (r : Run) : bool := bool_decide (recovery_wait_cause r = Some x).

(** [status IN ('completed', 'failed', 'cancelled')] *)
Definition terminal (r : Run) : bool := status_in [completed; failed; cancelled] r.
(** The five statuses under a worker's claim. *)
Definition heldStatuses : list Status :=
  [claimed; running; awaiting_approval; awaiting_input; awaiting_followup].
Definition held (r : Run) : bool := status_in heldStatuses r.

(** A held data-volume park, [NOT (status = 'recovery_wait' AND recovery_wait_cause IS
    NOT DISTINCT FROM 'data_volume_full' AND recovery_retry_not_before IS NULL)]. *)
Definition not_disk_held (e : Env) (r : Run) : bool :=
  negb (status_is recovery_wait r && cause_is "data_volume_full" r && negb (retry_set e)).
Definition not_policy_held (r : Run) : bool := negb (hold_is "codex_policy_hold" r).
Definition not_iteration_parked (r : Run) : bool :=
  negb (status_is paused r && hold_is "iteration_budget_exhausted" r).
Definition checker_claimed (r : Run) : bool :=
  negb (is_kind "cross_check" r) || bool_decide (0 < claim_generation r).
(** [kind <> 'cross_check' OR EXISTS (...)] *)
Definition checker_ok (e : Env) (r : Run) : bool := negb (is_kind "cross_check" r) || check_wanted e.
(** [kind IN ('chat', 'judge') OR ... budget ...] *)
Definition budget_ok (e : Env) (r : Run) : bool := kind_in ["chat"; "judge"] r || budget_left e.
(** [kind = 'chat' OR NOT EXISTS (...) AND NOT EXISTS (...)] *)
Definition outcome_ok (e : Env) (r : Run) : bool := is_kind "chat" r || outcome_settled e.

(** The kinds whose worker leaves work in custody. *)
Definition custodyKinds : list string :=
  ["issue"; "ci_fix"; "self_improve"; "prompt"; "task"; "mr_rework"].
(** [kind NOT IN ('judge', 'job', 'cross_check')] *)
Definition parks (r : Run) : bool := negb (kind_in ["judge"; "job"; "cross_check"] r).

(** ** A new run
    The rows [INSERT INTO runs] makes: [status] is ['queued'], no claim was ever made
    and nothing has ended it.  A continued chat and a cross check name the worker they
    prefer. *)
Definition created (k h : string) (u : uuid) (w : option uuid) : Run :=
  mkRun k h queued u w None 0 None None None None None None 0.

End RunRow.

Import RunRow.

(** * Statements for the worker

    The statements sent on behalf of the worker a run is claimed by: the reports of
    its [SetState], the holds and parks it asks for, and what the server does to the
    run while it assembles that worker's claim.  Each names the worker in its
    [WHERE].

    Sources: [runtime.sql.go], [jobs.sql.go], [memory.sql.go], [policy_hold.sql.go],
    [publication_resume.sql.go], [base_attestation_hold.sql.go],
    [repo_agent_source_hold.sql.go], [credential_disabled.sql.go] and
    [codex_binding.sql.go] under [src/api/internal/store]. *)
Module RunWorker.

Section Worker.
Context (w : uuid) (e : Env).

(** ** Progress reports *)
Definition SetRunRunning (r : Run) : option Run :=
  UPDATE (not_disk_held e r && not_policy_held r && of_worker w r && negb (terminal r)
          && negb (status_is limit_wait r) && negb (status_is pool_wait r)
          && negb (status_is recovery_wait r) && negb (status_is paused r) && negb (status_is queued r)
          && (negb (status_is awaiting_approval r) || approved e)
          && (negb (status_is awaiting_input r) || answered e)
          && (negb (status_is awaiting_followup r) || followed_up e) && also e)
    (r |> setStatus running |> setHold None).

Definition SetRunAwaitingApproval (g : option Z) (r : Run) : option Run :=
  UPDATE (not_disk_held e r && not_policy_held r && of_worker w r && unreleased r
          && (negb (plan_checked e)
              || match g with Some g => at_generation g r && unreleased r | None => false end)
          && negb (terminal r) && negb (status_is limit_wait r) && negb (status_is pool_wait r)
          && negb (status_is recovery_wait r) && negb (status_is paused r) && also e)
    (r |> setStatus awaiting_approval).

(** The conditions [SetRunAwaitingInput] and [SetRunAwaitingFollowup] share. *)
Definition may_wait (r : Run) : bool :=
  not_disk_held e r && not_policy_held r && of_worker w r && checker_claimed r
  && not_iteration_parked r && unreleased r && negb (terminal r)
  && negb (status_in [paused; queued] r && hold_in ["provider_unavailable"; "codex_policy_hold"] r)
  && negb (status_is paused r
           && hold_in ["credential_switch_settling"; "credential_switch_unsettled"] r)
  && negb (status_is paused r && hold_is "base_attestation_missing" r) && also e.

Definition SetRunAwaitingInput (r : Run) : option Run :=
  UPDATE (may_wait r) (r |> setStatus awaiting_input).

Definition SetRunAwaitingFollowup (r : Run) : option Run :=
  UPDATE (may_wait r) (r |> setStatus awaiting_followup).

Definition SettleRunClarificationToGate (g : Z) (r : Run) : option Run :=
  UPDATE (of_worker w r && at_generation g r && unreleased r
          && kind_in ["issue"; "prompt"; "ci_fix"] r && status_is awaiting_input r
          && not_policy_held r && also e)
    (r |> setStatus awaiting_approval).

(** ** Ends *)
(** [g] is [@completion_generation] when the report carries a final head. *)
Definition SetRunCompleted (g : option Z) (r : Run) : option Run :=
  UPDATE (not_disk_held e r && not_policy_held r && of_worker w r && checker_claimed r
          && not_iteration_parked r && at_generation_opt g r && negb (status_is paused r)
          && unreleased r
          && (negb (is_kind "job" r) || status_in [claimed; running] r)
          && (negb (terminal r)
              || (status_is failed r && bool_decide (fail_origin r = Some "run_timeout")))
          && also e)
    (r |> setStatus completed |> setFinished (Some (now e)) |> setOrigin None).

Definition SetRunFailed (g : option Z) (origin : option string) (r : Run) : option Run :=
  UPDATE (not_disk_held e r && not_policy_held r && of_worker w r && checker_claimed r
          && not_iteration_parked r && negb (terminal r) && negb (status_is paused r)
          && negb (status_in [paused; queued] r
                   && hold_in ["provider_unavailable"; "codex_policy_hold"] r)
          && unreleased r && at_generation_opt g r && also e)
    (r |> setStatus failed |> setFinished (Some (now e)) |> setOrigin origin).

Definition SetRunFailedPlanRejected (g : option Z) (origin : option string) (r : Run) : option Run :=
  UPDATE (not_policy_held r && of_worker w r && not_iteration_parked r && negb (terminal r)
          && negb (status_is paused r)
          && negb (status_in [paused; queued] r
                   && hold_in ["provider_unavailable"; "codex_policy_hold"] r)
          && unreleased r && at_generation_opt g r && also e)
    (r |> setStatus failed |> setFinished (Some (now e)) |> setOrigin origin).

Definition CancelRunByWorker (r : Run) : option Run :=
  UPDATE (of_worker w r && checker_claimed r && not_iteration_parked r && unreleased r
          && negb (terminal r) && also e)
    (r |> setStatus cancelled |> setFinished (Some (now e)) |> setOrigin None).

Definition CancelRunByWorkerSettlingCancel (r : Run) : option Run :=
  UPDATE (of_worker w r && checker_claimed r && not_iteration_parked r && unreleased r
          && negb (terminal r) && also e)
    (r |> setStatus cancelled |> setFinished (Some (now e)) |> setOrigin None).

Definition SupersedeRunByWorker (r : Run) : option Run :=
  UPDATE (not_policy_held r && of_worker w r && checker_claimed r && not_iteration_parked r
          && unreleased r && negb (terminal r)
          && negb (status_is paused r
                   && hold_in ["budget_exhausted"; "completion_blocked"; "base_attestation_missing"] r)
          && negb (status_in [paused; queued] r && hold_is "provider_unavailable" r) && also e)
    (r |> setStatus cancelled |> setFinished (Some (now e)) |> setOrigin None).

Definition FailJobRunWithoutResult (r : Run) : option Run :=
  UPDATE (of_worker w r && is_kind "job" r && status_in [claimed; running] r && unreleased r && also e)
    (r |> setStatus failed |> setFinished (Some (now e)) |> setOrigin (Some "job_no_result")).

(** ** Parks and holds *)
Definition SetRunLimitWait (g : option Z) (r : Run) : option Run :=
  UPDATE (of_worker w r && status_is running r && parks r && unreleased r
          && at_generation_opt g r && also e)
    (let r' := r |> setStatus limit_wait in
     if bool_decide (harness r = "codex") then capabilityDead r' else r').

Definition SetRunRecoveryWait (g : option Z) (cause : option string) (r : Run) : option Run :=
  UPDATE (of_worker w r && status_is running r && parks r && unreleased r
          && at_generation_opt g r && also e)
    (r |> setStatus recovery_wait |> setCause cause).

Definition ParkRunForgeUnreachable (r : Run) : option Run :=
  UPDATE (of_worker w r && status_is running r && parks r && also e)
    (r |> setStatus recovery_wait |> setCause (Some "forge_unreachable")).

Definition HoldRunForgeUnreachable (g : Z) (r : Run) : option Run :=
  UPDATE (of_worker w r && status_is running r && at_generation g r && unreleased r && parks r && also e)
    (r |> setStatus recovery_wait |> setCause (Some "forge_unreachable")).

Definition ParkRunPublicationForgeUnreachable (g : Z) (r : Run) : option Run :=
  UPDATE (of_worker w r && status_is running r && at_generation g r && unreleased r && parks r && also e)
    (r |> setStatus recovery_wait |> setCause (Some "forge_unreachable")).

Definition HoldRunDataVolumeFull (g : Z) (r : Run) : option Run :=
  UPDATE (of_worker w r && status_is running r && at_generation g r && unreleased r && parks r && also e)
    (r |> setStatus recovery_wait |> setCause (Some "data_volume_full")).

Definition ParkRunDataVolumeFull (g : option Z) (r : Run) : option Run :=
  UPDATE (of_worker w r && status_is running r && parks r && unreleased r
          && at_generation_opt g r && also e)
    (r |> setStatus recovery_wait |> setCause (Some "data_volume_full")).

Definition SetRunProviderRecoveryWait (g : Z) (r : Run) : option Run :=
  UPDATE (of_worker w r && status_is running r && parks r && unreleased r && at_generation g r && also e)
    (r |> setStatus recovery_wait |> setCause (Some "provider_outage")).

Definition SetRunProviderHold (g : Z) (r : Run) : option Run :=
  UPDATE (of_worker w r && status_is running r && parks r && unreleased r && at_generation g r && also e)
    (r |> setStatus paused |> setHold (Some "provider_unavailable")).

Definition ParkRunRetainedRecovery (g : Z) (cause : string) (r : Run) : option Run :=
  UPDATE (of_worker w r && status_is running r && at_generation g r && bool_decide (0 < g)
          && unreleased r && kind_in custodyKinds r && also e)
    (r |> setStatus recovery_wait |> setReleased (Some (now e)) |> setCause (Some cause)).

Definition ParkRunningCodexAccountUnavailable (g : Z) (r : Run) : option Run :=
  UPDATE (of_worker w r && at_generation g r && status_is running r && unreleased r
          && kind_in custodyKinds r && also e)
    (r |> setStatus recovery_wait |> setCause (Some "codex_account_unavailable") |> capabilityDead).

Definition SetRunPaused (r : Run) : option Run :=
  UPDATE (of_worker w r && status_is running r && also e)
    (r |> setStatus paused
       |> setHold (if bool_decide (pause_mode e = Some "reserve") then Some "weekly_reserve"
                   else hold_reason r)).

Definition SetRunCompletionHold (g : option Z) (r : Run) : option Run :=
  UPDATE (of_worker w r && status_in [running; awaiting_input] r && unreleased r
          && at_generation_opt g r && also e)
    (r |> setStatus paused |> setHold (Some "completion_blocked")).

Definition SetRunIterationPark (g : Z) (r : Run) : option Run :=
  UPDATE (of_worker w r && at_generation g r && bool_decide (0 < g) && unreleased r
          && status_is running r && not_policy_held r && kind_in custodyKinds r && also e)
    (r |> setStatus paused |> setHold (Some "iteration_budget_exhausted")).

Definition SetRunWallPark (g : option Z) (r : Run) : option Run :=
  UPDATE (of_worker w r && status_is running r && negb (kind_in ["job"; "cross_check"] r)
          && unreleased r && at_generation_opt g r && also e)
    (r |> setStatus paused |> setHold (Some "budget_exhausted")).

Definition SetRunBaseAttestationHold (g : Z) (r : Run) : option Run :=
  UPDATE (of_worker w r && status_is running r && unreleased r && at_generation g r && also e)
    (r |> setStatus paused |> setHold (Some "base_attestation_missing")).

Definition SetRunRepoAgentSourceHold (g : Z) (r : Run) : option Run :=
  UPDATE (of_worker w r && status_is running r && unreleased r && at_generation g r && also e)
    (r |> setStatus paused |> setHold (Some "repo_agent_source_unavailable")).

Definition ApplyPolicyHold (u : uuid) (g : Z) (r : Run) : option Run :=
  UPDATE (of_worker w r && of_user u r && status_in [claimed; running] r && unreleased r
          && at_generation g r && kind_in ["issue"; "task"; "prompt"; "self_improve"] r
          && bool_decide (harness r = "codex") && also e)
    (r |> setStatus paused |> setHold (Some "codex_policy_hold")).

(** ** Changing the credential of a run *)
Definition ReleaseCredentialSwitch (g : Z) (r : Run) : option Run :=
  UPDATE (of_worker w r && not_policy_held r && at_generation g r && unreleased r
          && status_in [running; awaiting_approval; awaiting_input; awaiting_followup] r
          && checker_ok e r && also e)
    (r |> setStatus queued |> setReleased (Some (now e)) |> capabilityDead).

Definition HoldCredentialSwitchUnsettled (g : Z) (r : Run) : option Run :=
  UPDATE (of_worker w r && at_generation g r && unreleased r && status_is running r
          && negb (kind_in ["job"; "cross_check"] r) && also e)
    (r |> setStatus paused |> setHold (Some "credential_switch_settling")).

Definition SettleCredentialSwitchHold (g : Z) (r : Run) : option Run :=
  UPDATE (of_worker w r && at_generation g r && status_is paused r
          && hold_is "credential_switch_settling" r && also e)
    (r |> setHold (Some "credential_switch_unsettled")).

(** ** While the claim is assembled *)
Definition SetRunCodexClaimCapability (g : Z) (hash : string) (r : Run) : option Run :=
  UPDATE (of_worker w r && at_generation g r && held r && also e)
    (r |> setCapability (Some hash) (codex_claim_epoch r + 1)).

Definition ParkCredentialDisabledRun (g : Z) (r : Run) : option Run :=
  UPDATE (of_worker w r && at_generation g r && unreleased r && status_is claimed r && also e)
    (r |> setStatus paused |> setHold (Some "credential_disabled")
       |> setReleased (Some (now e)) |> capabilityDead).

Definition ParkCredentialDisabledChatRun (r : Run) : option Run :=
  UPDATE (of_worker w r && is_kind "chat" r && status_is claimed r && also e)
    (r |> setStatus paused |> setHold (Some "credential_disabled")).

(** [live] is the worker that holds the newest open custody of the run. *)
Definition ParkRunCodexAccountUnavailable (g : Z) (live : option uuid) (r : Run) : option Run :=
  UPDATE (of_worker w r && at_generation g r && status_is claimed r
          && kind_in (custodyKinds ++ ["cross_check"]) r && also e)
    (r |> setStatus recovery_wait |> setCause (Some "codex_account_unavailable") |> capabilityDead
       |> setWorker (match live with Some v => Some v | None => worker_id r end)).

Definition FailClaimAssemblyExact (g : Z) (origin : option string) (r : Run) : option Run :=
  UPDATE (of_worker w r && at_generation g r && status_is claimed r && also e)
    (r |> setStatus failed |> setFinished (Some (now e)) |> setOrigin origin |> capabilityDead).

Definition RequeueClaimAssemblyExact (g : Z) (poolWait : bool) (r : Run) : option Run :=
  UPDATE (of_worker w r && at_generation g r && not_policy_held r && status_is claimed r
          && (negb poolWait || parks r) && checker_ok e r && also e)
    (r |> setStatus (if poolWait then pool_wait else queued) |> capabilityDead).

Definition ParkWorkerMemoryPressure (g : Z) (r : Run) : option Run :=
  UPDATE (of_worker w r && at_generation g r && unreleased r
          && (status_in [claimed; running] r || (status_is awaiting_approval r && revision_taken e))
          && also e)
    (r |> setStatus recovery_wait |> setReleased (Some (now e)) |> setReleasedWorker (worker_id r)
       |> setCause (Some "worker_memory_pressure") |> capabilityDead).

End Worker.

End RunWorker.

(** * Statements for the user

    The statements a user's request runs on a run of his: cancelling and rejecting
    it, resuming it from a park or a hold, and approving a changed list of milestones.
    Each names the user in its [WHERE]; the last one is guarded in Go
    ([milestone_reconciliation.go]) under the row's lock.

    Sources: [runtime.sql.go], [memory.sql.go], [publication_resume.sql.go],
    [credential_disabled.sql.go] and [codex_binding.sql.go] under
    [src/api/internal/store]. *)
Module RunOwner.

Section Owner.
Context (u : uuid) (e : Env).

(** [CASE WHEN claim_released_at IS NOT NULL THEN NULL ELSE worker_id END]: a released
    run goes back to any worker, the others to the one that has their files. *)
Definition affinity (r : Run) : option uuid := if unreleased r then worker_id r else None.

(** ** Ends *)
Definition CancelRunServerSide (r : Run) : option Run :=
  UPDATE (of_user u r && negb (terminal r) && also e)
    (r |> setStatus cancelled |> setFinished (Some (now e))).

Definition CancelRunServerSideWithPendingOutcome (r : Run) : option Run :=
  UPDATE (of_user u r && negb (terminal r) && negb (is_kind "chat" r) && negb (outcome_settled e)
          && also e)
    (r |> setStatus cancelled |> setFinished (Some (now e))).

(** [gate] is [@expected_gate_revision IS NOT NULL]. *)
Definition RejectRunServerSide (gate : bool) (r : Run) : option Run :=
  UPDATE (of_user u r && negb (terminal r) && (negb gate || status_is awaiting_approval r) && also e)
    (r |> setStatus failed |> setFinished (Some (now e)) |> setOrigin (Some "plan_rejected")).

(** ** Leaving a park *)
Definition PromoteLimitWaitRunNow (r : Run) : option Run :=
  UPDATE (of_user u r && status_is limit_wait r && not_policy_held r && checker_ok e r && also e)
    (r |> setStatus queued |> capabilityDead).

Definition PromotePoolWaitRun (r : Run) : option Run :=
  UPDATE (of_user u r && not_policy_held r && status_is pool_wait r && checker_ok e r && also e)
    (r |> setStatus queued |> capabilityDead).

Definition PromoteRecoveryWaitRunNow (r : Run) : option Run :=
  UPDATE (of_user u r && status_is recovery_wait r && not_policy_held r
          && (negb (cause_is "codex_idle_stall" r) || retry_set e)
          && (negb (cause_is "forge_unreachable" r) || retry_set e)
          && (negb (cause_is "data_volume_full" r) || retry_set e)
          && negb (cause_is "codex_account_unavailable" r)
          && negb (cause_is "worker_requeue_exhausted" r)
          && negb (cause_is "worker_memory_pressure" r)
          && negb (cause_is "retained_recovery_adoption_failed" r)
          && negb (cause_is "retained_continuation_unwitnessed" r)
          && negb (cause_is "retained_recovery_exhausted" r)
          && checker_ok e r && also e)
    (r |> setStatus queued |> capabilityDead).

Definition PromoteVaultLockedRecoveryWaitRuns (r : Run) : option Run :=
  UPDATE (of_user u r && status_is recovery_wait r && cause_is "vault_locked" r)
    (r |> setStatus queued |> capabilityDead).

Definition ResumeForgeUnreachableHold (r : Run) : option Run :=
  UPDATE (of_user u r && status_is recovery_wait r && cause_is "forge_unreachable" r
          && negb (retry_set e) && budget_ok e r && also e)
    (r |> setStatus queued |> setCause None |> capabilityDead).

Definition ResumePublicationForgeHold (r : Run) : option Run :=
  UPDATE (of_user u r && status_is recovery_wait r && cause_is "forge_unreachable" r
          && negb (retry_set e) && budget_ok e r && also e)
    (r |> setStatus queued |> setCause None |> capabilityDead).

Definition ResumeDataVolumeFullHold (r : Run) : option Run :=
  UPDATE (of_user u r && status_is recovery_wait r && cause_is "data_volume_full" r
          && negb (retry_set e) && budget_ok e r && also e)
    (r |> setStatus queued |> setReleased (Some (now e)) |> setCause None |> capabilityDead).

Definition ResumeCodexIdleStall (r : Run) : option Run :=
  UPDATE (of_user u r && status_is recovery_wait r && cause_is "codex_idle_stall" r && also e)
    (r |> setStatus queued |> capabilityDead).

Definition ResumeMemoryEpisode (r : Run) : option Run :=
  UPDATE (of_user u r && status_is recovery_wait r && cause_is "worker_memory_pressure" r
          && budget_ok e r && checker_ok e r && also e)
    (r |> setStatus queued |> setWorker (affinity r) |> setHold None |> setCause None
       |> capabilityDead).

Definition ResumeWorkerRecoveryEpisode (r : Run) : option Run :=
  UPDATE (of_user u r && status_is recovery_wait r
          && (cause_is "worker_requeue_exhausted" r || cause_is "retained_recovery_exhausted" r
              || cause_is "retained_recovery_adoption_failed" r
              || cause_is "retained_continuation_unwitnessed" r)
          && budget_ok e r && checker_ok e r && also e)
    (r |> setStatus queued
       |> setWorker
            (if negb (unreleased r) && negb (cause_is "retained_recovery_exhausted" r)
                && negb (cause_is "retained_recovery_adoption_failed" r)
                && negb (cause_is "retained_continuation_unwitnessed" r)
             then None else worker_id r)
       |> setHold None |> setCause None |> capabilityDead).

Definition LiftSettledMemoryPark (r : Run) : option Run :=
  UPDATE (of_user u r && status_is queued r && bool_decide (recovery_wait_cause r = None) && also e)
    (r |> setReleasedWorker None).

(** ** Leaving a pause *)
(** [hold] is [@required_hold_reason], [blocked] is [@allow_completion_blocked_hold] and
    [settled] the end of the worker a credential switch waits for. *)
Definition ResumePausedRun (hold : option string) (blocked settled : bool) (r : Run) : option Run :=
  UPDATE (of_user u r && status_is paused r && negb (hold_is "credential_disabled" r)
          && not_policy_held r && negb (hold_is "base_attestation_missing" r)
          && (negb (hold_is "completion_blocked" r) || blocked)
          && (negb (hold_is "credential_switch_settling" r) || settled)
          && ((negb (hold_is "budget_exhausted" r) && negb (hold_is "iteration_budget_exhausted" r))
              || budget_left e)
          && match hold with None => true | Some h => hold_is h r end
          && checker_ok e r && also e)
    (r |> setStatus queued |> setWorker (affinity r)
       |> setReleased (if hold_is "iteration_budget_exhausted" r then Some (now e)
                       else claim_released_at r)
       |> setHold (if hold_in ["budget_exhausted"; "iteration_budget_exhausted";
                               "credential_switch_settling"; "credential_switch_unsettled";
                               "weekly_reserve"] r then None else hold_reason r)
       |> capabilityDead).

Definition ExtendAndResumeWallPark (r : Run) : option Run :=
  UPDATE (of_user u r && status_is paused r && hold_is "budget_exhausted" r && checker_ok e r && also e)
    (r |> setStatus queued |> setWorker (affinity r) |> setHold None |> capabilityDead).

Definition StopWallPark (r : Run) : option Run :=
  UPDATE (of_user u r && status_is paused r && hold_is "budget_exhausted" r && is_kind "issue" r
          && also e)
    (r |> setStatus queued |> setWorker (affinity r) |> setHold None |> capabilityDead).

(** ** A disabled credential *)
Definition unplaced (r : Run) : option uuid :=
  if bool_decide (released_worker_id r = None) then worker_id r else None.

Definition PromoteCredentialDisabledRun (w : option uuid) (r : Run) : option Run :=
  UPDATE (of_user u r && status_is paused r && hold_is "credential_disabled" r
          && bool_decide (worker_id r = w) && budget_ok e r && checker_ok e r && also e)
    (r |> setStatus queued |> setHold None |> setWorker (unplaced r) |> capabilityDead).

Definition ReassignCredentialDisabledRun (r : Run) : option Run :=
  UPDATE (of_user u r && status_is paused r && hold_is "credential_disabled" r
          && budget_ok e r && checker_ok e r && also e)
    (r |> setStatus queued |> setHold None |> setWorker (unplaced r) |> capabilityDead).

Definition SettleCredentialDisabledPause (w : option uuid) (r : Run) : option Run :=
  UPDATE (of_user u r && status_is paused r && hold_is "credential_disabled" r
          && bool_decide (worker_id r = w) && also e)
    (r |> setHold (if bool_decide (pause_mode e = Some "wall") then Some "budget_exhausted"
                   else if bool_decide (pause_mode e = Some "reserve") then Some "weekly_reserve"
                   else None)
       |> setReleased None).

Definition SettleCredentialDisabledSpentBudget (w : option uuid) (r : Run) : option Run :=
  UPDATE (of_user u r && status_is paused r && hold_is "credential_disabled" r
          && bool_decide (worker_id r = w) && negb (kind_in ["chat"; "judge"] r)
          && negb (budget_left e) && also e)
    (r |> setHold (Some "budget_exhausted") |> setReleased None).

(** ** Binding and gate *)
Definition FreezeRunCodexBinding (r : Run) : option Run :=
  UPDATE (of_user u r && also e) (r |> setHarness "codex").

(** The approval of a changed list of milestones sends the run to a new claim.  [w]
    is the worker read before the lock. *)
Definition reconcileMilestoneApproval (w : option uuid) (r : Run) : option Run :=
  UPDATE (of_user u r && status_is awaiting_approval r && unreleased r
          && bool_decide (worker_id r ≠ None) && bool_decide (worker_id r = w)
          && bool_decide (0 < claim_generation r) && also e)
    (r |> setStatus queued |> setReleased (Some (now e)) |> capabilityDead).

End Owner.

End RunOwner.

(** * Statements of the server

    The statements the server runs on its own: the two claims, the sweeps over workers
    that stopped reporting, the reconciliation of a worker's snapshot, the timers, and
    the end of a cross check's checker run.

    Sources: [runtime.sql.go], [worker_recovery.sql.go], [chat.sql.go], [jobs.sql.go],
    [code_cross_check.sql.go], [publication_resume.sql.go],
    [queued_custody_recovery.sql.go] and [codex_binding.sql.go] under
    [src/api/internal/store]. *)
Module RunServer.

Section Server.
Context (e : Env).

(** ** Claims *)
(** [g] is the generation read by the candidate query of the same statement. *)
Definition ClaimRun (w : uuid) (g : Z) (r : Run) : option Run :=
  UPDATE (status_is queued r && at_generation g r && also e)
    (r |> setStatus claimed |> setWorker (Some w) |> setGeneration (claim_generation r + 1)
       |> capabilityDead |> setReleased None |> setReleasedWorker None).

(** [bound] is [codex_material_revision IS NOT NULL OR codex_secret_id IS NOT NULL], [cold]
    is [updated_at < @affinity_cutoff] and [fresh] a new incarnation of the worker that
    released the run. *)
Definition ClaimChatRun (w u : uuid) (bound cold fresh : bool) (r : Run) : option Run :=
  UPDATE (of_user u r && is_kind "chat" r && status_is queued r
          && (bool_decide (released_worker_id r = None)
              || bool_decide (released_worker_id r ≠ Some w) || fresh)
          && negb (bool_decide (harness r = "codex") || bound)
          && (bool_decide (worker_id r = None) || of_worker w r || cold) && also e)
    (r |> setStatus claimed |> setWorker (Some w) |> setGeneration (claim_generation r + 1)
       |> setReleased None |> setReleasedWorker None).

(** ** Claims that came to nothing *)
Definition SweepClaimedNeverStarted (r : Run) : option Run :=
  UPDATE (status_is claimed r && outcome_ok e r && checker_ok e r && also e) (r |> setStatus queued).

Definition RequeueClaimedRunToQueued (r : Run) : option Run :=
  UPDATE (status_is claimed r && not_policy_held r && checker_ok e r && also e)
    (r |> setStatus queued |> capabilityDead).

Definition chargeClaimedNeverStartedContinuationsLocked (r : Run) : option Run :=
  UPDATE (status_is claimed r && outcome_ok e r && negb (is_kind "cross_check" r) && unreleased r
          && not_policy_held r && also e)
    (if under_cap e then r |> setStatus queued |> capabilityDead
     else r |> setStatus recovery_wait |> setReleased (Some (now e))
            |> setReleasedWorker (worker_id r) |> setOrigin None
            |> setCause (Some "worker_requeue_exhausted") |> capabilityDead).

Definition parkUnwitnessedContinuationsLocked (r : Run) : option Run :=
  UPDATE (status_is claimed r && outcome_ok e r && negb (is_kind "cross_check" r) && unreleased r
          && not_policy_held r && also e)
    (r |> setStatus recovery_wait |> setReleased (Some (now e)) |> setReleasedWorker (worker_id r)
       |> setOrigin None |> setCause (Some "retained_continuation_unwitnessed") |> capabilityDead).

Definition MarkRunFailedByID (origin : option string) (r : Run) : option Run :=
  UPDATE (negb (terminal r) && also e)
    (r |> setStatus failed |> setFinished (Some (now e)) |> setOrigin origin).

(** ** Workers that are gone *)
Definition RequeueRunsOfStaleWorkers (r : Run) : option Run :=
  UPDATE (not_policy_held r && held r && under_cap e && bool_decide (worker_id r ≠ None)
          && outcome_ok e r && checker_ok e r && also e)
    (r |> setStatus queued).

(** What the "over cap" statements set: the run waits for its owner, unless the
    evidence says it cannot be recovered. *)
Definition exhausted (r : Run) : Run :=
  (if park e
   then r |> setStatus recovery_wait |> setReleased (Some (now e))
          |> setReleasedWorker (worker_id r) |> setFinished None |> setOrigin None
          |> setCause (Some "worker_requeue_exhausted")
   else r |> setStatus failed |> setFinished (Some (now e)) |> setOrigin (Some "worker_lost")
          |> setCause None) |> capabilityDead.

Definition failRunsOfStaleWorkersOverCapLocked (r : Run) : option Run :=
  UPDATE (unreleased r && held r && bool_decide (worker_id r ≠ None) && outcome_ok e r
          && negb (under_cap e) && also e)
    (exhausted r).

Definition RequeueWorkerRuns (w : uuid) (r : Run) : option Run :=
  UPDATE (not_policy_held r && of_worker w r && held r && under_cap e && outcome_ok e r
          && checker_ok e r && also e)
    (r |> setStatus queued |> capabilityDead).

Definition FrozenRequeueWorkerRuns (w : uuid) (r : Run) : option Run :=
  UPDATE (not_policy_held r && of_worker w r && held r && under_cap e && outcome_ok e r
          && checker_ok e r && also e)
    (r |> setStatus queued |> capabilityDead).

Definition failWorkerRunsOverCapLocked (w : uuid) (r : Run) : option Run :=
  UPDATE (unreleased r && of_worker w r && held r && outcome_ok e r && negb (under_cap e)
          && also e)
    (exhausted r).

Definition frozenFailWorkerRunsOverCapLocked (w : uuid) (r : Run) : option Run :=
  UPDATE (unreleased r && not_policy_held r && of_worker w r && held r && outcome_ok e r
          && negb (under_cap e) && also e)
    (exhausted r).

(** ** The worker's snapshot of what it runs *)
(** The statuses a worker has a session for. *)
Definition sessionStatuses : list Status :=
  [running; awaiting_approval; awaiting_input; awaiting_followup].

(** [g] and [phase] are the worker's report, [worker_active_runs]; the table's [CHECK]
    admits the four phases. *)
Definition readoptable (w : uuid) (g : Z) (phase : Status) (r : Run) : bool :=
  not_policy_held r && of_worker w r && status_is queued r && checker_claimed r
  && negb (is_kind "chat" r) && at_generation g r && unreleased r && checker_ok e r
  && bool_decide (phase ∈ sessionStatuses) && also e.

Definition ReadoptRunsFromSnapshot (w : uuid) (g : Z) (phase : Status) (r : Run) : option Run :=
  UPDATE (readoptable w g phase r) (r |> setStatus phase).

Definition FrozenReadoptRunsFromSnapshot (w : uuid) (g : Z) (phase : Status) (r : Run) : option Run :=
  UPDATE (readoptable w g phase r) (r |> setStatus phase).

Definition RequeueRunsMissingFromSnapshot (w : uuid) (r : Run) : option Run :=
  UPDATE (not_policy_held r && of_worker w r && negb (is_kind "chat" r)
          && status_in sessionStatuses r && unreleased r && under_cap e && checker_ok e r && also e)
    (r |> setStatus queued |> capabilityDead).

Definition FrozenRequeueRunsMissingFromSnapshot (w : uuid) (r : Run) : option Run :=
  UPDATE (of_worker w r && not_policy_held r && negb (is_kind "chat" r)
          && status_in sessionStatuses r && unreleased r && under_cap e && checker_ok e r && also e)
    (r |> setStatus queued |> capabilityDead).

Definition failRunsMissingFromSnapshotLocked (w : uuid) (r : Run) : option Run :=
  UPDATE (of_worker w r && negb (is_kind "chat" r) && status_in sessionStatuses r && unreleased r
          && negb (under_cap e) && also e)
    (exhausted r).

Definition frozenFailRunsMissingFromSnapshotLocked (w : uuid) (r : Run) : option Run :=
  UPDATE (of_worker w r && not_policy_held r && negb (is_kind "chat" r)
          && status_in sessionStatuses r && unreleased r && negb (under_cap e) && also e)
    (exhausted r).

(** ** Runs a worker attests to be finalizing *)
Definition RequeueAttestedFinalizeRuns (w : uuid) (g : Z) (r : Run) : option Run :=
  UPDATE (of_worker w r && not_policy_held r && unreleased r && status_is running r
          && negb (is_kind "chat" r) && at_generation g r && checker_ok e r && also e)
    (r |> setStatus queued |> capabilityDead).

Definition FrozenRequeueAttestedFinalizeRuns (w : uuid) (g : Z) (r : Run) : option Run :=
  UPDATE (of_worker w r && not_policy_held r && unreleased r && status_is running r
          && negb (is_kind "chat" r) && at_generation g r && checker_ok e r && also e)
    (r |> setStatus queued |> capabilityDead).

Definition failAttestedFinalizeRunsOverCapLocked (w : uuid) (g : Z) (r : Run) : option Run :=
  UPDATE (of_worker w r && unreleased r && status_is running r && negb (is_kind "chat" r)
          && at_generation g r && negb (under_cap e) && also e)
    (exhausted r).

Definition frozenFailAttestedFinalizeRunsOverCapLocked (w : uuid) (g : Z) (r : Run) : option Run :=
  UPDATE (of_worker w r && not_policy_held r && unreleased r && status_is running r
          && negb (is_kind "chat" r) && at_generation g r && negb (under_cap e) && also e)
    (exhausted r).

(** ** Timers *)
Definition ParkRunsAtWall (r : Run) : option Run :=
  UPDATE (bool_decide (worker_id r ≠ None) && status_is running r
          && negb (kind_in ["chat"; "judge"; "job"; "cross_check"] r) && outcome_ok e r && also e)
    (r |> setStatus paused |> setHold (Some "budget_exhausted") |> setReleased (Some (now e))
       |> capabilityDead |> setReleasedWorker (worker_id r)).

Definition SweepIdleChatRuns (r : Run) : option Run :=
  UPDATE (is_kind "chat" r && status_in [claimed; running] r && also e)
    (r |> setStatus completed |> setFinished (Some (now e))).

Definition SweepTaskNeverDispatched (r : Run) : option Run :=
  UPDATE (is_kind "task" r && status_is queued r && also e)
    (r |> setStatus failed |> setFinished (Some (now e)) |> setOrigin (Some "task_undispatched")).

Definition FailJobsPastWallDeadline (r : Run) : option Run :=
  UPDATE (is_kind "job" r && status_in [claimed; running] r && also e)
    (r |> setStatus failed |> setFinished (Some (now e)) |> setOrigin (Some "run_timeout")).

Definition FailUnservedJobRun (origin : option string) (r : Run) : option Run :=
  UPDATE (is_kind "job" r && status_is queued r && bool_decide (worker_id r = None) && also e)
    (r |> setStatus failed |> setFinished (Some (now e)) |> setOrigin origin).

Definition FailRunAutoStop (r : Run) : option Run :=
  UPDATE (negb (terminal r) && negb (status_is limit_wait r) && negb (status_is awaiting_input r)
          && negb (status_is awaiting_followup r) && negb (status_is pool_wait r)
          && negb (status_is recovery_wait r) && negb (status_is paused r) && outcome_ok e r && also e)
    (r |> setStatus failed |> setFinished (Some (now e)) |> setOrigin (Some "auto_stopped")).

Definition PromoteLimitWaitRuns (r : Run) : option Run :=
  UPDATE (status_is limit_wait r && checker_ok e r && also e) (r |> setStatus queued |> capabilityDead).

Definition PromoteRecoveryWaitRuns (r : Run) : option Run :=
  UPDATE (status_is recovery_wait r && negb (cause_is "codex_account_unavailable" r)
          && negb (cause_is "worker_requeue_exhausted" r)
          && negb (cause_is "worker_memory_pressure" r)
          && negb (cause_is "retained_recovery_adoption_failed" r)
          && negb (cause_is "retained_continuation_unwitnessed" r) && retry_set e
          && checker_ok e r && also e)
    (r |> setStatus queued |> capabilityDead).

(** ** Waiting for a Codex account *)
Definition ParkQueuedCodexAccountUnavailablePage (r : Run) : option Run :=
  UPDATE (checker_ok e r && status_is queued r && bool_decide (harness r = "codex")
          && kind_in (custodyKinds ++ ["cross_check"]) r && also e)
    (r |> setStatus recovery_wait |> setCause (Some "codex_account_unavailable") |> capabilityDead).

Definition PromoteCodexAccountWaitRun (r : Run) : option Run :=
  UPDATE (status_is recovery_wait r && cause_is "codex_account_unavailable" r && not_policy_held r
          && checker_ok e r && also e)
    (r |> setStatus queued |> capabilityDead).

Definition FailCodexAccountWaitRun (origin : option string) (r : Run) : option Run :=
  UPDATE (status_is recovery_wait r && cause_is "codex_account_unavailable" r && also e)
    (r |> setStatus failed |> setFinished (Some (now e)) |> setOrigin origin |> capabilityDead).

(** ** Custody *)
Definition HoldPublicationRunsWithoutCustodian (r : Run) : option Run :=
  UPDATE (status_is queued r && also e)
    (r |> setStatus recovery_wait |> setCause (Some "forge_unreachable")).

Definition ParkFrozenQueuedCustodyExhausted (w : uuid) (r : Run) : option Run :=
  UPDATE (of_worker w r && status_is queued r && bool_decide (0 < claim_generation r)
          && kind_in custodyKinds r && bool_decide (hold_reason r = None) && negb (under_cap e)
          && also e)
    (r |> setStatus recovery_wait
       |> setReleased (match claim_released_at r with Some t => Some t | None => Some (now e) end)
       |> setReleasedWorker (if unreleased r then worker_id r else released_worker_id r)
       |> setCause (Some "worker_requeue_exhausted")
       |> setCapability None (codex_claim_epoch r)).

(** ** The checker run of a cross check that is over
    Two expiries, the settlement of checks whose lead moved on, and the two triggers on
    [runs] that settle the checks of a lead that left its claim. *)
Definition ExpireCodeCrossCheck (r : Run) : option Run :=
  UPDATE (negb (terminal r) && also e)
    (r |> setStatus cancelled |> setFinished (Some (now e)) |> setReleased (Some (now e))).

Definition ExpirePlanCrossCheck (r : Run) : option Run :=
  UPDATE (negb (terminal r) && also e)
    (r |> setStatus cancelled |> setFinished (Some (now e)) |> setReleased (Some (now e))).

Definition SupersedeExitedPlanCrossChecks (r : Run) : option Run :=
  UPDATE (negb (terminal r) && also e)
    (r |> setStatus cancelled |> setFinished (Some (now e)) |> setReleased (Some (now e))).

Definition settle_exited_cross_check (r : Run) : option Run :=
  UPDATE (negb (terminal r) && also e)
    (r |> setStatus cancelled |> setFinished (Some (now e)) |> setReleased (Some (now e))).

(** ** A deleted worker: [worker_id ... ON DELETE SET NULL] *)
Definition deleteWorker (w : uuid) (r : Run) : option Run :=
  UPDATE (of_worker w r) (r |> setWorker None).

End Server.

End RunServer.
