(* ===== verification/RunStep.v ===== *)
(** The life of a run: every statement that can change its row, as one step relation.

    A step carries who asked for it.  The values that the callers compute in Go are
    part of the step: the origins of the failures ([failedOrigin], [markOrigins],
    [unservedOrigins]) and the causes of the waits.  The order of the steps is free:
    any interleaving of the workers, the user and the server is a path. *)

From S2P Require Import Prelude RunDb.
Import RunOrigin RunRow RunWorker RunOwner RunServer.

Local Open Scope Z_scope.

Module RunStep.

Inductive Actor := claim (w : uuid) | worker (w : uuid) | owner (u : uuid) | server.

(** The origins the callers of [SetRunFailed] pass: the coerced report of the worker,
    a usage limit that is not waited for, a plan gate that was refused too often. *)
Definition failedOrigin (origin : option string) : Prop :=
  (∃ reported, origin = TextOrNull (reportedOrigin reported))
  ∨ origin = TextOrNull "rate_limited" ∨ origin = TextOrNull "gate_presentation_refused".

(** Those of [MarkRunFailedByID] in [recoverClaimAssembly] and of [FailUnservedJobRun]. *)
Definition markOrigins : list string :=
  [""; "credential_unavailable"; "provisioning_failed"; "guardrail_blocked"].
Definition unservedOrigins : list string :=
  ["ephemeral_worker_never_registered"; "no_job_capable_worker"].

Inductive step (r : Run) : Actor → Run → Prop :=
  (** Sent for the worker that holds the claim. *)
  | step_SetRunRunning w e r' :
      SetRunRunning w e r = Some r' → step r (worker w) r'
  | step_SetRunAwaitingApproval w e g r' :
      SetRunAwaitingApproval w e g r = Some r' → step r (worker w) r'
  | step_SetRunAwaitingInput w e r' :
      SetRunAwaitingInput w e r = Some r' → step r (worker w) r'
  | step_SetRunAwaitingFollowup w e r' :
      SetRunAwaitingFollowup w e r = Some r' → step r (worker w) r'
  | step_SettleRunClarificationToGate w e g r' :
      SettleRunClarificationToGate w e g r = Some r' → step r (worker w) r'
  | step_SetRunCompleted w e g r' :
      SetRunCompleted w e g r = Some r' → step r (worker w) r'
  | step_SetRunFailed w e g origin r' :
      failedOrigin origin → SetRunFailed w e g origin r = Some r' → step r (worker w) r'
  | step_SetRunFailedPlanRejected w e g origin r' :
      origin = TextOrNull "plan_rejected" →
      SetRunFailedPlanRejected w e g origin r = Some r' → step r (worker w) r'
  | step_CancelRunByWorker w e r' :
      CancelRunByWorker w e r = Some r' → step r (worker w) r'
  | step_CancelRunByWorkerSettlingCancel w e r' :
      CancelRunByWorkerSettlingCancel w e r = Some r' → step r (worker w) r'
  | step_SupersedeRunByWorker w e r' :
      SupersedeRunByWorker w e r = Some r' → step r (worker w) r'
  | step_FailJobRunWithoutResult w e r' :
      FailJobRunWithoutResult w e r = Some r' → step r (worker w) r'
  | step_SetRunLimitWait w e g r' :
      SetRunLimitWait w e g r = Some r' → step r (worker w) r'
  | step_SetRunRecoveryWait w e g cause r' :
      cause = None ∨ (∃ c, cause = recoveryCauseStored c) →
      SetRunRecoveryWait w e g cause r = Some r' → step r (worker w) r'
  | step_ParkRunForgeUnreachable w e r' :
      ParkRunForgeUnreachable w e r = Some r' → step r (worker w) r'
  | step_HoldRunForgeUnreachable w e g r' :
      HoldRunForgeUnreachable w e g r = Some r' → step r (worker w) r'
  | step_ParkRunPublicationForgeUnreachable w e g r' :
      ParkRunPublicationForgeUnreachable w e g r = Some r' → step r (worker w) r'
  | step_HoldRunDataVolumeFull w e g r' :
      HoldRunDataVolumeFull w e g r = Some r' → step r (worker w) r'
  | step_ParkRunDataVolumeFull w e g r' :
      ParkRunDataVolumeFull w e g r = Some r' → step r (worker w) r'
  | step_SetRunProviderRecoveryWait w e g r' :
      SetRunProviderRecoveryWait w e g r = Some r' → step r (worker w) r'
  | step_SetRunProviderHold w e g r' :
      SetRunProviderHold w e g r = Some r' → step r (worker w) r'
  | step_ParkRunRetainedRecovery w e g cause r' :
      cause ∈ [recoveryCauseRetainedRecoveryExhausted; recoveryCauseRetainedRecoveryAdoptionFailed] →
      ParkRunRetainedRecovery w e g cause r = Some r' → step r (worker w) r'
  | step_ParkRunningCodexAccountUnavailable w e g r' :
      ParkRunningCodexAccountUnavailable w e g r = Some r' → step r (worker w) r'
  | step_SetRunPaused w e r' :
      SetRunPaused w e r = Some r' → step r (worker w) r'
  | step_SetRunCompletionHold w e g r' :
      SetRunCompletionHold w e g r = Some r' → step r (worker w) r'
  | step_SetRunIterationPark w e g r' :
      SetRunIterationPark w e g r = Some r' → step r (worker w) r'
  | step_SetRunWallPark w e g r' :
      SetRunWallPark w e g r = Some r' → step r (worker w) r'
  | step_SetRunBaseAttestationHold w e g r' :
      SetRunBaseAttestationHold w e g r = Some r' → step r (worker w) r'
  | step_SetRunRepoAgentSourceHold w e g r' :
      SetRunRepoAgentSourceHold w e g r = Some r' → step r (worker w) r'
  | step_ApplyPolicyHold w e u g r' :
      ApplyPolicyHold w e u g r = Some r' → step r (worker w) r'
  | step_ReleaseCredentialSwitch w e g r' :
      ReleaseCredentialSwitch w e g r = Some r' → step r (worker w) r'
  | step_HoldCredentialSwitchUnsettled w e g r' :
      HoldCredentialSwitchUnsettled w e g r = Some r' → step r (worker w) r'
  | step_SettleCredentialSwitchHold w e g r' :
      SettleCredentialSwitchHold w e g r = Some r' → step r (worker w) r'
  | step_SetRunCodexClaimCapability w e g hash r' :
      SetRunCodexClaimCapability w e g hash r = Some r' → step r (worker w) r'
  | step_ParkCredentialDisabledRun w e g r' :
      ParkCredentialDisabledRun w e g r = Some r' → step r (worker w) r'
  | step_ParkCredentialDisabledChatRun w e r' :
      ParkCredentialDisabledChatRun w e r = Some r' → step r (worker w) r'
  | step_ParkRunCodexAccountUnavailable w e g live r' :
      ParkRunCodexAccountUnavailable w e g live r = Some r' → step r (worker w) r'
  | step_FailClaimAssemblyExact w e g origin r' :
      (∃ o, origin = TextOrNull (claimOrigin o)) →
      FailClaimAssemblyExact w e g origin r = Some r' → step r (worker w) r'
  | step_RequeueClaimAssemblyExact w e g poolWait r' :
      RequeueClaimAssemblyExact w e g poolWait r = Some r' → step r (worker w) r'
  | step_ParkWorkerMemoryPressure w e g r' :
      ParkWorkerMemoryPressure w e g r = Some r' → step r (worker w) r'
  (** Asked for by the user of the run. *)
  | step_CancelRunServerSide u e r' :
      CancelRunServerSide u e r = Some r' → step r (owner u) r'
  | step_CancelRunServerSideWithPendingOutcome u e r' :
      CancelRunServerSideWithPendingOutcome u e r = Some r' → step r (owner u) r'
  | step_RejectRunServerSide u e gate r' :
      RejectRunServerSide u e gate r = Some r' → step r (owner u) r'
  | step_PromoteLimitWaitRunNow u e r' :
      PromoteLimitWaitRunNow u e r = Some r' → step r (owner u) r'
  | step_PromotePoolWaitRun u e r' :
      PromotePoolWaitRun u e r = Some r' → step r (owner u) r'
  | step_PromoteRecoveryWaitRunNow u e r' :
      PromoteRecoveryWaitRunNow u e r = Some r' → step r (owner u) r'
  | step_PromoteVaultLockedRecoveryWaitRuns u r' :
      PromoteVaultLockedRecoveryWaitRuns u r = Some r' → step r (owner u) r'
  | step_ResumeForgeUnreachableHold u e r' :
      ResumeForgeUnreachableHold u e r = Some r' → step r (owner u) r'
  | step_ResumePublicationForgeHold u e r' :
      ResumePublicationForgeHold u e r = Some r' → step r (owner u) r'
  | step_ResumeDataVolumeFullHold u e r' :
      ResumeDataVolumeFullHold u e r = Some r' → step r (owner u) r'
  | step_ResumeCodexIdleStall u e r' :
      ResumeCodexIdleStall u e r = Some r' → step r (owner u) r'
  | step_ResumeMemoryEpisode u e r' :
      ResumeMemoryEpisode u e r = Some r' → step r (owner u) r'
  | step_ResumeWorkerRecoveryEpisode u e r' :
      ResumeWorkerRecoveryEpisode u e r = Some r' → step r (owner u) r'
  | step_LiftSettledMemoryPark u e r' :
      LiftSettledMemoryPark u e r = Some r' → step r (owner u) r'
  | step_ResumePausedRun u e hold blocked settled r' :
      ResumePausedRun u e hold blocked settled r = Some r' → step r (owner u) r'
  | step_ExtendAndResumeWallPark u e r' :
      ExtendAndResumeWallPark u e r = Some r' → step r (owner u) r'
  | step_StopWallPark u e r' :
      StopWallPark u e r = Some r' → step r (owner u) r'
  | step_PromoteCredentialDisabledRun u e w r' :
      PromoteCredentialDisabledRun u e w r = Some r' → step r (owner u) r'
  | step_ReassignCredentialDisabledRun u e r' :
      ReassignCredentialDisabledRun u e r = Some r' → step r (owner u) r'
  | step_SettleCredentialDisabledPause u e w r' :
      SettleCredentialDisabledPause u e w r = Some r' → step r (owner u) r'
  | step_SettleCredentialDisabledSpentBudget u e w r' :
      SettleCredentialDisabledSpentBudget u e w r = Some r' → step r (owner u) r'
  | step_FreezeRunCodexBinding u e r' :
      FreezeRunCodexBinding u e r = Some r' → step r (owner u) r'
  | step_reconcileMilestoneApproval u e w r' :
      reconcileMilestoneApproval u e w r = Some r' → step r (owner u) r'
  (** The server. *)
  | step_ClaimRun e w g r' :
      ClaimRun e w g r = Some r' → step r (claim w) r'
  | step_ClaimChatRun e w u bound cold fresh r' :
      ClaimChatRun e w u bound cold fresh r = Some r' → step r (claim w) r'
  | step_SweepClaimedNeverStarted e r' :
      SweepClaimedNeverStarted e r = Some r' → step r server r'
  | step_RequeueClaimedRunToQueued e r' :
      RequeueClaimedRunToQueued e r = Some r' → step r server r'
  | step_chargeClaimedNeverStartedContinuationsLocked e r' :
      chargeClaimedNeverStartedContinuationsLocked e r = Some r' → step r server r'
  | step_parkUnwitnessedContinuationsLocked e r' :
      parkUnwitnessedContinuationsLocked e r = Some r' → step r server r'
  | step_MarkRunFailedByID e origin r' :
      origin ∈ TextOrNull <$> markOrigins →
      MarkRunFailedByID e origin r = Some r' → step r server r'
  | step_RequeueRunsOfStaleWorkers e r' :
      RequeueRunsOfStaleWorkers e r = Some r' → step r server r'
  | step_failRunsOfStaleWorkersOverCapLocked e r' :
      failRunsOfStaleWorkersOverCapLocked e r = Some r' → step r server r'
  | step_RequeueWorkerRuns e w r' :
      RequeueWorkerRuns e w r = Some r' → step r server r'
  | step_FrozenRequeueWorkerRuns e w r' :
      FrozenRequeueWorkerRuns e w r = Some r' → step r server r'
  | step_failWorkerRunsOverCapLocked e w r' :
      failWorkerRunsOverCapLocked e w r = Some r' → step r server r'
  | step_frozenFailWorkerRunsOverCapLocked e w r' :
      frozenFailWorkerRunsOverCapLocked e w r = Some r' → step r server r'
  | step_ReadoptRunsFromSnapshot e w g phase r' :
      ReadoptRunsFromSnapshot e w g phase r = Some r' → step r server r'
  | step_FrozenReadoptRunsFromSnapshot e w g phase r' :
      FrozenReadoptRunsFromSnapshot e w g phase r = Some r' → step r server r'
  | step_RequeueRunsMissingFromSnapshot e w r' :
      RequeueRunsMissingFromSnapshot e w r = Some r' → step r server r'
  | step_FrozenRequeueRunsMissingFromSnapshot e w r' :
      FrozenRequeueRunsMissingFromSnapshot e w r = Some r' → step r server r'
  | step_failRunsMissingFromSnapshotLocked e w r' :
      failRunsMissingFromSnapshotLocked e w r = Some r' → step r server r'
  | step_frozenFailRunsMissingFromSnapshotLocked e w r' :
      frozenFailRunsMissingFromSnapshotLocked e w r = Some r' → step r server r'
  | step_RequeueAttestedFinalizeRuns e w g r' :
      RequeueAttestedFinalizeRuns e w g r = Some r' → step r server r'
  | step_FrozenRequeueAttestedFinalizeRuns e w g r' :
      FrozenRequeueAttestedFinalizeRuns e w g r = Some r' → step r server r'
  | step_failAttestedFinalizeRunsOverCapLocked e w g r' :
      failAttestedFinalizeRunsOverCapLocked e w g r = Some r' → step r server r'
  | step_frozenFailAttestedFinalizeRunsOverCapLocked e w g r' :
      frozenFailAttestedFinalizeRunsOverCapLocked e w g r = Some r' → step r server r'
  | step_ParkRunsAtWall e r' :
      ParkRunsAtWall e r = Some r' → step r server r'
  | step_SweepIdleChatRuns e r' :
      SweepIdleChatRuns e r = Some r' → step r server r'
  | step_SweepTaskNeverDispatched e r' :
      SweepTaskNeverDispatched e r = Some r' → step r server r'
  | step_FailJobsPastWallDeadline e r' :
      FailJobsPastWallDeadline e r = Some r' → step r server r'
  | step_FailUnservedJobRun e origin r' :
      origin ∈ Some <$> unservedOrigins →
      FailUnservedJobRun e origin r = Some r' → step r server r'
  | step_FailRunAutoStop e r' :
      FailRunAutoStop e r = Some r' → step r server r'
  | step_PromoteLimitWaitRuns e r' :
      PromoteLimitWaitRuns e r = Some r' → step r server r'
  | step_PromoteRecoveryWaitRuns e r' :
      PromoteRecoveryWaitRuns e r = Some r' → step r server r'
  | step_ParkQueuedCodexAccountUnavailablePage e r' :
      ParkQueuedCodexAccountUnavailablePage e r = Some r' → step r server r'
  | step_PromoteCodexAccountWaitRun e r' :
      PromoteCodexAccountWaitRun e r = Some r' → step r server r'
  | step_FailCodexAccountWaitRun e origin r' :
      origin = TextOrNull "credential_unavailable" →
      FailCodexAccountWaitRun e origin r = Some r' → step r server r'
  | step_HoldPublicationRunsWithoutCustodian e r' :
      HoldPublicationRunsWithoutCustodian e r = Some r' → step r server r'
  | step_ParkFrozenQueuedCustodyExhausted e w r' :
      ParkFrozenQueuedCustodyExhausted e w r = Some r' → step r server r'
  | step_ExpireCodeCrossCheck e r' :
      ExpireCodeCrossCheck e r = Some r' → step r server r'
  | step_ExpirePlanCrossCheck e r' :
      ExpirePlanCrossCheck e r = Some r' → step r server r'
  | step_SupersedeExitedPlanCrossChecks e r' :
      SupersedeExitedPlanCrossChecks e r = Some r' → step r server r'
  | step_settle_exited_cross_check e r' :
      settle_exited_cross_check e r = Some r' → step r server r'
  | step_deleteWorker w r' :
      deleteWorker w r = Some r' → step r server r'.

Definition path : relation Run := rtc (λ r r', ∃ a, step r a r').

(** ** Reading a guard *)
Lemma UPDATE_Some g x y : UPDATE g x = Some y → g = true ∧ y = x.
Proof. unfold UPDATE. destruct g; naive_solver. Qed.

(** [statement H] turns [H : Statement ... r = Some r'] into the conjuncts of its guard
    and replaces [r'] by the columns it sets. *)
Ltac head_of t := lazymatch t with ?f _ => head_of f | _ => t end.
Ltac statement H :=
  lazymatch type of H with
  | ?t = Some ?y =>
      let h := head_of t in
      unfold h in H; apply UPDATE_Some in H as [H ->];
      unfold may_wait, readoptable in H;
      repeat (apply andb_true_iff in H as [H ?])
  end.

(** [by_status r] runs through the statuses of [r] and evaluates the tests on it. *)
Ltac eval_test a b :=
  let v := eval vm_compute in (bool_decide (@eq Status a b)) in
  lazymatch v with true => v | false => v end.
Ltac eval_status :=
  repeat match goal with
  | H : context [bool_decide (@eq Status ?a ?b)] |- _ =>
      let v := eval_test a b in change (bool_decide (@eq Status a b)) with v in H
  | |- context [bool_decide (@eq Status ?a ?b)] =>
      let v := eval_test a b in change (bool_decide (@eq Status a b)) with v
  end.
Ltac by_status r :=
  let E := fresh "Est" in
  unfold not_disk_held, not_iteration_parked, terminal, held, heldStatuses, sessionStatuses,
    status_in, status_is in *;
  cbn [existsb] in *; cbn;
  destruct (status r) eqn:E; eval_status; cbn [andb orb negb] in *;
  try discriminate.

(** [guards] reads the other tests as propositions. *)
Ltac guards :=
  unfold not_policy_held, unreleased, of_worker, of_user, at_generation, is_kind, hold_is, cause_is in *;
  repeat match goal with
  | H : bool_decide _ = true |- _ => apply bool_decide_eq_true in H
  | H : negb (bool_decide _) = true |- _ => apply negb_true_iff, bool_decide_eq_false in H
  | H : (_ && _)%bool = true |- _ => apply andb_true_iff in H as [? ?]
  | H : negb (_ || _) = true |- _ => rewrite negb_orb in H
  end.

(** [phases] splits on the phase a worker reports. *)
Lemma sessionStatuses_elem s :
  bool_decide (s ∈ sessionStatuses) = true →
  s = running ∨ s = awaiting_approval ∨ s = awaiting_input ∨ s = awaiting_followup.
Proof. rewrite bool_decide_eq_true. set_solver. Qed.
Ltac phases :=
  try match goal with
  | H : bool_decide (?s ∈ sessionStatuses) = true |- _ =>
      apply sessionStatuses_elem in H as [->|[->|[->| ->]]]
  end.

(** [every S] does the case analysis over the statements, [every_status S r] also over
    the status of the row. *)
Ltac every S :=
  destruct S; lazymatch goal with H : _ = Some _ |- _ => statement H end; guards; unfold exhausted;
  repeat case_match; cbn.
Ltac every_status S r :=
  destruct S; lazymatch goal with H : _ = Some _ |- _ => statement H end;
  unfold exhausted; repeat case_match; phases; by_status r; guards.

(** ** What never changes *)
Lemma step_kind r a r' : step r a r' → kind r' = kind r ∧ user_id r' = user_id r.
Proof. intros S. every S; split; reflexivity. Qed.

Lemma step_harness r a r' : step r a r' → harness r = "codex" → harness r' = "codex".
Proof. intros S. every S; first [exact id | intros _; reflexivity]. Qed.

(** ** Claims *)
Lemma step_generation r a r' :
  step r a r' →
  (claim_generation r' = claim_generation r ∧ ∀ w, a ≠ claim w)
  ∨ ∃ w, a = claim w ∧ status r = queued ∧ status r' = claimed ∧ worker_id r' = Some w
         ∧ claim_released_at r' = None ∧ claim_generation r' = claim_generation r + 1.
Proof.
  intros S. every_status S r; first
    [ left; split; [reflexivity|discriminate]
    | right; eexists; repeat split; solve [assumption|reflexivity] ].
Qed.

(** ** Origins *)
Lemma failedOrigin_timeout o : failedOrigin o → o ≠ Some "run_timeout".
Proof.
  intros [[rep ->]|[->| ->]]; [|done..]. intros E%TextOrNull_Some.
  by apply (reportedOrigin_timeout rep).
Qed.
Lemma claimOrigin_not_timeout o : (∃ c, o = TextOrNull (claimOrigin c)) → o ≠ Some "run_timeout".
Proof. intros [c ->] E%TextOrNull_Some. by apply (claimOrigin_timeout c). Qed.
Lemma markOrigins_timeout o : o ∈ TextOrNull <$> markOrigins → o ≠ Some "run_timeout".
Proof. intros Ho ->. revert Ho. by apply (bool_decide_eq_true_1 (_ ∉ _)). Qed.
Lemma unservedOrigins_timeout o : o ∈ Some <$> unservedOrigins → o ≠ Some "run_timeout".
Proof. intros Ho ->. revert Ho. by apply (bool_decide_eq_true_1 (_ ∉ _)). Qed.
Create HintDb origins.
#[export] Hint Resolve failedOrigin_timeout claimOrigin_not_timeout markOrigins_timeout
  unservedOrigins_timeout : origins.

Lemma step_timeout r a r' :
  step r a r' → fail_origin r' = Some "run_timeout" →
  fail_origin r = Some "run_timeout" ∨ kind r = "job".
Proof.
  intros S. every S; intros E; first
    [ left; exact E | discriminate E | right; assumption
    | subst; discriminate E
    | lazymatch type of E with ?o = ?x => assert (o ≠ x) by eauto 2 with origins end;
      contradiction ].
Qed.

(** ** The invariant of a row *)
Definition ownerCauses : list string :=
  ["worker_memory_pressure"; "worker_requeue_exhausted"; "retained_recovery_adoption_failed";
   "retained_continuation_unwitnessed"].

Lemma step_finished r a r' :
  terminal r = bool_decide (finished_at r ≠ None) → step r a r' →
  terminal r' = bool_decide (finished_at r' ≠ None).
Proof. intros I S. every_status S r; first [reflexivity | exact I]. Qed.

Lemma step_released r a r' :
  (held r = true → claim_released_at r = None) → step r a r' →
  held r' = true → claim_released_at r' = None.
Proof.
  intros I S. every_status S r; intros Hh;
    first [ discriminate Hh | reflexivity | assumption | exact (I eq_refl) ].
Qed.

(** A run that waits for its worker to settle a credential switch is not released. *)
Lemma step_settling r a r' :
  (held r = true → claim_released_at r = None) →
  (status r = paused → hold_reason r = Some "credential_switch_settling" →
   claim_released_at r = None) →
  step r a r' → status r' = paused → hold_reason r' = Some "credential_switch_settling" →
  claim_released_at r' = None.
Proof.
  intros I J S. every_status S r; intros Hs Hr;
    first [ discriminate Hs | discriminate Hr | reflexivity | assumption | exact (I eq_refl)
          | exact (J eq_refl Hr) ].
Qed.

(** A park that only the owner ends has released the claim. *)
Lemma not_ownerCause c : c ∈ ownerCauses → bool_decide (c ∈ ownerCauses) = false → False.
Proof. by rewrite bool_decide_eq_false. Qed.

Lemma stored_not_owner cause c :
  cause = None ∨ (∃ reported, cause = recoveryCauseStored reported) → cause = Some c →
  c ∉ ownerCauses.
Proof.
  intros [->|[[x|] ->]] E; [discriminate E| |discriminate E]. simpl in E.
  destruct (_ || _)%bool eqn:Hx in E; [|discriminate E]. injection E as <-.
  apply orb_true_iff in Hx as [->%bool_decide_eq_true| ->%bool_decide_eq_true];
    by apply (bool_decide_eq_true_1 (_ ∉ _)).
Qed.

Lemma step_parked r a r' :
  (∀ c, status r = recovery_wait → recovery_wait_cause r = Some c → c ∈ ownerCauses →
        claim_released_at r ≠ None) →
  step r a r' →
  ∀ c, status r' = recovery_wait → recovery_wait_cause r' = Some c → c ∈ ownerCauses →
       claim_released_at r' ≠ None.
Proof.
  intros I S. every_status S r; intros c Hs Hc Ho; first
    [ discriminate Hs | discriminate | exact (I c eq_refl Hc Ho)
    | injection Hc as <-; exact (False_ind _ (not_ownerCause _ Ho eq_refl))
    | exfalso; revert Ho; eapply stored_not_owner; eassumption ].
Qed.

Record Inv (r : Run) : Prop := {
  i_finished : terminal r = bool_decide (finished_at r ≠ None);
  i_released : held r = true → claim_released_at r = None;
  i_settling : status r = paused → hold_reason r = Some "credential_switch_settling" →
    claim_released_at r = None;
  i_timeout : fail_origin r = Some "run_timeout" → kind r = "job";
  i_parked : ∀ c, status r = recovery_wait → recovery_wait_cause r = Some c → c ∈ ownerCauses →
    claim_released_at r ≠ None;
}.

Lemma created_inv k h u w : Inv (created k h u w).
Proof. by split. Qed.

Lemma step_inv r a r' : Inv r → step r a r' → Inv r'.
Proof.
  intros [I1 I2 I3 I4 I5] S. split.
  - by apply (step_finished r a).
  - by apply (step_released r a).
  - by apply (step_settling r a).
  - intros E. rewrite (proj1 (step_kind _ _ _ S)).
    destruct (step_timeout _ _ _ S E); auto.
  - by apply (step_parked r a).
Qed.

Lemma path_inv r r' : Inv r → path r r' → Inv r'.
Proof. intros I P. induction P as [|? ? ? [a S] _ IH]; [done|]. eauto using step_inv. Qed.

End RunStep.
