(* ===== verification/RunCycle.v ===== *)
(** What the statements of [RunWorker], [RunOwner] and [RunServer] promise together,
    whatever their order: a finished run stays finished, a worker only ever writes to a
    run whose claim it holds, the claims are counted, a Codex capability lives no
    longer than its claim, and the parks that wait for the owner end by the owner. *)

From S2P Require Import Prelude RunDb RunStep.
Import RunOrigin RunRow RunWorker RunOwner RunServer RunStep.

Local Open Scope Z_scope.

Module RunCycle.

(** A row some history of the program makes. *)
Definition reachable (r : Run) : Prop := ∃ k h u w, path (created k h u w) r.

Lemma reachable_inv r : reachable r → Inv r.
Proof. intros (k & h & u & w & P). eapply path_inv; [apply created_inv|exact P]. Qed.

Lemma reachable_step r a r' : reachable r → step r a r' → reachable r'.
Proof. intros (k & h & u & w & P) S. exists k, h, u, w. eapply rtc_r; [exact P|by exists a]. Qed.

Lemma reachable_path r r' : reachable r → path r r' → reachable r'.
Proof. intros R P. induction P as [|? ? ? [a S] _ IH]; eauto using reachable_step. Qed.

(** ** Ends
    The one statement that updates an ended row is [SetRunCompleted], for a failure by
    [run_timeout]; only a job fails that way, and a job is not completed then. *)
Lemma step_final r a r' :
  Inv r → terminal r = true → step r a r' →
  status r' = status r ∧ finished_at r' = finished_at r ∧ fail_origin r' = fail_origin r.
Proof.
  intros [_ _ _ I _] T S. every_status S r; try (repeat split; assumption || reflexivity).
  rewrite orb_false_r negb_true_iff bool_decide_eq_false in H2. by apply I in H1.
Qed.

(** C4. A run that has ended keeps its end: from any row a history makes whose status is
    [completed], [failed] or [cancelled], no further history changes the status, the
    time or the origin, and the time is set.  So the arm of [SetRunCompleted] for a
    failure by [run_timeout] is never taken: no caller passes that origin, the one
    statement that writes it is for jobs, and a job is completed only out of
    [claimed] or [running]. *)
Theorem run_final r r' :
  reachable r → terminal r = true → path r r' →
  status r' = status r ∧ finished_at r' = finished_at r ∧ fail_origin r' = fail_origin r
  ∧ finished_at r' ≠ None.
Proof.
  intros R T P. revert T. induction P as [r|r r1 r2 [a S] _ IH]; intros T.
  - repeat split. pose proof (i_finished _ (reachable_inv _ R)) as F.
    rewrite T in F. symmetry in F. by apply bool_decide_eq_true in F.
  - destruct (step_final _ _ _ (reachable_inv _ R) T S) as (E1 & E2 & E3).
    rewrite -E1 -E2 -E3. apply IH; [by eapply reachable_step|].
    unfold terminal, status_in, status_is in *. by rewrite E1.
Qed.

(** ** Workers *)
(** C9. A statement sent for a worker changes a run only while the run is that worker's
    and its claim is not released, although not every such statement tests the
    release: those that do not are for statuses in which a claim is never released. *)
Theorem run_fenced r w r' :
  reachable r → step r (worker w) r' → worker_id r = Some w ∧ claim_released_at r = None.
Proof.
  intros [_ I J _ _]%reachable_inv S. remember (worker w) as a eqn:Ea.
  every_status S r; try discriminate Ea; injection Ea as ->; split;
    solve [assumption | exact (I eq_refl) | by apply J].
Qed.

(** ** Claims *)
(** A history with who asked for each step. *)
Inductive history (r : Run) : list Actor → Run → Prop :=
  | history_nil : history r [] r
  | history_snoc l a r1 r2 : history r l r1 → step r1 a r2 → history r (l ++ [a]) r2.

Definition is_claim (a : Actor) : bool := match a with claim _ => true | _ => false end.
Definition claims (l : list Actor) : Z := Z.of_nat (length (List.filter is_claim l)).

Lemma claims_snoc l a : claims (l ++ [a]) = claims l + (if is_claim a then 1 else 0).
Proof.
  unfold claims. rewrite List.filter_app length_app /=. destruct (is_claim a); simpl; lia.
Qed.

(** The generation counts the claims: in every history of a run its
    [claim_generation] is the number of the claims made, so that no two claims share a
    generation and no other statement changes it. *)
Theorem run_claims k h u w l r :
  history (created k h u w) l r → claim_generation r = claims l.
Proof.
  induction 1 as [|l a r1 r2 _ IH S]; [done|]. rewrite claims_snoc.
  destruct (step_generation _ _ _ S) as [[E N]|(w' & -> & _ & _ & _ & _ & E)]; rewrite E IH.
  - destruct a; simpl; lia || by destruct (N w0).
  - done.
Qed.

(** ** Codex capabilities *)
Lemma step_capability r a r' :
  harness r = "codex" → step r a r' →
  codex_claim_epoch r < codex_claim_epoch r'
  ∨ (codex_claim_epoch r' = codex_claim_epoch r ∧ codex_cap_hash r' = None)
  ∨ (codex_claim_epoch r' = codex_claim_epoch r ∧ codex_cap_hash r' = codex_cap_hash r
     ∧ claim_generation r' = claim_generation r
     ∧ (worker_id r' = worker_id r ∨ worker_id r' = None)).
Proof.
  intros Hx S. every S; first
    [ right; right; repeat split; solve [left; reflexivity | right; reflexivity]
    | left; apply Z.lt_succ_diag_r
    | right; left; split; reflexivity
    | contradiction ].
Qed.

(** A capability that is still in force: the row has not moved past it, or it has and
    nothing is left of it. *)
Definition minted (w : uuid) (g : Z) (hash : string) (epoch : Z) (r : Run) : Prop :=
  epoch < codex_claim_epoch r
  ∨ (codex_claim_epoch r = epoch ∧ codex_cap_hash r = None)
  ∨ (codex_claim_epoch r = epoch ∧ codex_cap_hash r = Some hash ∧ claim_generation r = g
     ∧ (worker_id r = Some w ∨ worker_id r = None)).

Lemma step_minted w g hash epoch r a r' :
  harness r = "codex" → step r a r' → minted w g hash epoch r → minted w g hash epoch r'.
Proof.
  unfold minted. intros Hx S M.
  destruct (step_capability _ _ _ Hx S) as [L|[[E N]|(E & C & G & W)]]; [destruct M; lia| |].
  - destruct M as [M|M]; [left; lia|right; left; naive_solver].
  - rewrite E C G. destruct M as [M|[M|(M1 & M2 & M3 & M4)]]; [auto..|].
    right; right. repeat split; try done. destruct W as [->| ->]; auto.
Qed.

Lemma path_minted w g hash epoch r r' :
  harness r = "codex" → path r r' → minted w g hash epoch r → minted w g hash epoch r'.
Proof.
  intros Hx P. revert Hx. induction P as [|r r1 r2 [a S] _ IH]; [done|]. intros Hx M.
  apply IH; [by eapply step_harness|by eapply step_minted].
Qed.

(** C12. A capability lives no longer than the claim it was minted for.  When a held row
    still shows the epoch that minting returned, and a hash, then the hash is the
    minted one, the generation is the one it was minted in, the claim is not released,
    and the worker, if it still exists, is the same.  A new claim kills it, and so does
    every way back to the queue but two sweeps, which leave the generation alone. *)
Theorem capability_current r0 w e g hash r1 r2 :
  reachable r0 → harness r0 = "codex" → SetRunCodexClaimCapability w e g hash r0 = Some r1 →
  path r1 r2 →
  codex_claim_epoch r2 = codex_claim_epoch r1 → codex_cap_hash r2 ≠ None → held r2 = true →
  codex_cap_hash r2 = Some hash ∧ claim_generation r2 = g ∧ claim_released_at r2 = None
  ∧ (∀ v, worker_id r2 = Some v → v = w).
Proof.
  intros R Hx M P E C H. pose proof (step_SetRunCodexClaimCapability _ _ _ _ _ _ M) as S.
  pose proof (i_released _ (reachable_inv _ (reachable_path _ _ (reachable_step _ _ _ R S) P)) H).
  assert (minted w g hash (codex_claim_epoch r1) r1 ∧ harness r1 = "codex") as [M1 Hx1].
  { statement M. guards. split; [|exact Hx]. right; right. by repeat split; [..|left]. }
  destruct (path_minted _ _ _ _ _ _ Hx1 P M1) as [?|[[_ ?]|(_ & ? & ? & W)]]; [lia|done|].
  repeat split; try done. intros v Ev. destruct W as [W|W]; congruence.
Qed.

(** ** Parks *)
Lemma ownerCauses_elem c :
  c ∈ ownerCauses →
  c = "worker_memory_pressure" ∨ c = "worker_requeue_exhausted"
  ∨ c = "retained_recovery_adoption_failed" ∨ c = "retained_continuation_unwitnessed".
Proof. set_solver. Qed.

(** C17. A run parked for its owner leaves [recovery_wait] by a request of that owner, or
    fails, or is cancelled; any other step leaves it parked for the same cause. *)
Theorem owner_park r c a r' :
  reachable r → status r = recovery_wait → recovery_wait_cause r = Some c → c ∈ ownerCauses →
  step r a r' →
  (status r' = recovery_wait ∧ recovery_wait_cause r' = Some c)
  ∨ status r' = failed ∨ status r' = cancelled
  ∨ (status r' = queued ∧ a = owner (user_id r)).
Proof.
  intros R Hs Hc Ho S. pose proof (i_parked _ (reachable_inv _ R) _ Hs Hc Ho) as I.
  every_status S r; try discriminate Hs; try contradiction; first
    [ left; split; [reflexivity|exact Hc] | right; left; reflexivity | right; right; left; reflexivity
    | right; right; right; split; [reflexivity|subst; reflexivity]
    | destruct (ownerCauses_elem _ Ho) as [->|[->|[->| ->]]]; congruence ].
Qed.

End RunCycle.

Import RunCycle.

(** * A concrete history
    Its rows instantiate the theorems of [RunCycle]. *)
Module RunTable.

Definition u0 : uuid := Uuid.mk 1.
Definition w0 : uuid := Uuid.mk 2.

(** Every other condition holds. *)
Definition on : Env :=
  mkEnv 10 true true true true true true true true true true true true None.

Definition set (f : Run → option Run) (r : Run) : Run := default r (f r).

Definition rowClaimed : Run := set (ClaimRun on w0 0) (created "issue" "claude" u0 None).
Definition rowRunning : Run := set (SetRunRunning w0 on) rowClaimed.
Definition rowQueued : Run := set (RequeueWorkerRuns on w0) rowRunning.
Definition rowLimited : Run := set (SetRunLimitWait w0 on (Some 1)) rowRunning.
Definition rowCompleted : Run := set (SetRunCompleted w0 on None) rowRunning.

Lemma reachable_created k h u w : reachable (created k h u w).
Proof. exists k, h, u, w. apply rtc_refl. Qed.

(** [next S] extends a history by the step [S]. *)
Ltac next S := eapply reachable_step; [|eapply S; vm_compute; reflexivity].

Lemma reachable_claimed : reachable rowClaimed.
Proof. next (step_ClaimRun (created "issue" "claude" u0 None) on w0 0). apply reachable_created. Qed.
Lemma reachable_running : reachable rowRunning.
Proof. next (step_SetRunRunning rowClaimed w0 on). apply reachable_claimed. Qed.
Lemma reachable_completed : reachable rowCompleted.
Proof. next (step_SetRunCompleted rowRunning w0 on None). apply reachable_running. Qed.

(** ** Instances of the theorems *)
Lemma path_one r a r' : step r a r' → path r r'.
Proof. intros S. apply rtc_once. by exists a. Qed.

(** A later freeze of the binding finds the completed run as it was. *)
Lemma run_final_witness :
  let r' := set (FreezeRunCodexBinding u0 on) rowCompleted in
  harness r' = "codex" ∧ status r' = completed ∧ finished_at r' = Some 10 ∧ fail_origin r' = None
  ∧ finished_at r' ≠ None.
Proof.
  split; [reflexivity|].
  apply (run_final rowCompleted _ reachable_completed); [reflexivity|].
  apply (path_one _ (owner u0)). eapply (step_FreezeRunCodexBinding _ u0 on). vm_compute. reflexivity.
Defined.

Lemma run_fenced_witness : worker_id rowRunning = Some w0 ∧ claim_released_at rowRunning = None.
Proof.
  apply (run_fenced rowRunning w0 rowLimited reachable_running).
  eapply (step_SetRunLimitWait _ w0 on (Some 1)). vm_compute. reflexivity.
Defined.

(** Claimed, given up by the worker, claimed again. *)
Lemma run_claims_witness :
  claim_generation (set (ClaimRun on w0 1) rowQueued)
  = claims [claim w0; worker w0; server; claim w0].
Proof.
  apply (run_claims "issue" "claude" u0 None).
  eapply (history_snoc _ [_; _; _]); [|eapply (step_ClaimRun rowQueued on w0 1); vm_compute; reflexivity].
  eapply (history_snoc _ [_; _]);
    [|eapply (step_RequeueWorkerRuns rowRunning on w0); vm_compute; reflexivity].
  eapply (history_snoc _ [_]);
    [|eapply (step_SetRunRunning rowClaimed w0 on); vm_compute; reflexivity].
  eapply (history_snoc _ []);
    [|eapply (step_ClaimRun (created "issue" "claude" u0 None) on w0 0); vm_compute; reflexivity].
  apply history_nil.
Defined.

(** The capability of a Codex run survives the sweep of a stale worker that comes back. *)
Definition codexClaimed : Run := set (ClaimRun on w0 0) (created "issue" "codex" u0 None).
Definition codexMinted : Run := set (SetRunCodexClaimCapability w0 on 1 "hash") codexClaimed.
Definition codexSwept : Run := set (RequeueRunsOfStaleWorkers on) codexMinted.
Definition codexBack : Run := set (ReadoptRunsFromSnapshot on w0 1 running) codexSwept.

Lemma capability_current_witness :
  status codexSwept = queued ∧ status codexBack = running
  ∧ codex_cap_hash codexBack = Some "hash" ∧ claim_generation codexBack = 1
  ∧ claim_released_at codexBack = None ∧ (∀ v, worker_id codexBack = Some v → v = w0).
Proof.
  split; [reflexivity|]. split; [reflexivity|].
  apply (capability_current codexClaimed w0 on 1 "hash" codexMinted codexBack);
    try reflexivity; [| |discriminate].
  - next (step_ClaimRun (created "issue" "codex" u0 None) on w0 0). apply reachable_created.
  - apply (rtc_l _ _ codexSwept).
    + eexists. eapply (step_RequeueRunsOfStaleWorkers _ on). vm_compute. reflexivity.
    + apply (path_one _ server). eapply (step_ReadoptRunsFromSnapshot _ on w0 1 running).
      vm_compute. reflexivity.
Defined.

(** A run parked for the memory of its worker, resumed by its user. *)
Definition rowSqueezed : Run := set (ParkWorkerMemoryPressure w0 on 1) rowRunning.

Lemma owner_park_witness :
  let r' := set (ResumeMemoryEpisode u0 on) rowSqueezed in
  status r' = queued
  ∧ ((status r' = recovery_wait ∧ recovery_wait_cause r' = Some "worker_memory_pressure")
     ∨ status r' = failed ∨ status r' = cancelled
     ∨ (status r' = queued ∧ owner u0 = owner (user_id rowSqueezed))).
Proof.
  split; [reflexivity|].
  apply (owner_park rowSqueezed "worker_memory_pressure" (owner u0));
    [| reflexivity | reflexivity | apply list_elem_of_here |].
  - next (step_ParkWorkerMemoryPressure rowRunning w0 on 1). apply reachable_running.
  - eapply (step_ResumeMemoryEpisode _ u0 on). vm_compute. reflexivity.
Defined.

End RunTable.
